(* ===== verification/_CoqProject ===== *)
-Q . S2P
Prelude.v
RustText.v
Contracts.v
CausalLog.v
EpochClients.v
RuntimeErrors.v
CapacityContracts.v
Kernel.v
Receipts.v
Budget.v
BudgetLaws.v
Session.v
Professional.v
Task.v
RoleLease.v
IpcSession.v
Protocol.v
ProtocolLaws.v
FrameCodec.v
FrameCodecLaws.v
Transport.v
TransportLaws.v
Mailbox.v
MailboxLaws.v
Runtime.v
RuntimeLaws.v
Grants.v
GrantGraph.v
GrantRecovery.v
GrantGraphLaws.v
GrantRecoveryLaws.v
GrantTheorems.v
Effects.v
EffectsLaws.v
CoordinationData.v
Coordination.v
IntegrationCandidate.v
WorkLeaseIssuance.v
CoordinationLaws.v
CoordinationTheorems.v
IntegrationLaws.v
CoordinationRecovery.v
CoordinationFindings.v
Finish.v
FinishLaws.v
FinishOwners.v
FinishTheorems.v
FinishFindings.v
RestartPolicy.v
RestartLedger.v
RestartLaws.v
RestartFindings.v
ModuleGraph.v
ModuleGraphLaws.v
ModuleGraphTheorems.v
ModuleReadiness.v
ModuleReadinessLaws.v
OrsModel.v
OrsStore.v
OrsLaws.v
OrsSteps.v
OrsTheorems.v
OrsRetry.v
OrsRecovery.v
WriteCoordinator.v
WriteCoordinatorLaws.v
WriteCoordinatorTheorems.v
OrsExamples.v
OrsFindings.v
AuthorityReceipts.v
CapacityProfile.v
CapacityLaws.v
FrontDoor.v
OrsReserve.v
FrontDoorAtomics.v
FrontDoorLaws.v
FrontDoorCalls.v
CapacityTheorems.v
FrontDoorFindings.v
FrontDoorExamples.v
