(* ===== verification/Prelude.v ===== *)
(** * Governed lifecycle core of eliot-memory-os

    The repository is a local memory operating system for software agents. A
    kernel supervises processes and routes work under an authority epoch; a
    governor owns the durable decisions (which session is live, in which state
    a task is, what may be spent, who holds which authority, which receipt
    proves what); stores, agents and analysis crates hang off these. The
    development models the part that decides: the shared contracts, the wire
    protocol and the transport's bookkeeping, the runtime's mailboxes and
    supervision, the kernel's epoch fencing, the write path through the
    operational recovery store, and the governor's lifecycle and authority
    owners, each an in-process state machine in the code as well.

    ** How the parts interact

    Every request carries a State Fence (authority epoch, resource generation
    and optional revisions). The kernel activates epochs and binds routes to
    them; the session, task and budget owners compare the fence of each call
    with their own, keep an idempotency index of the requests they answered,
    append events, and can be rebuilt from a snapshot after a restart. The task
    owner holds one professional execution state per task, which gates its
    verification and its abandonment. The budget ledger admits paid work
    against an envelope, on receipts of the receipt contract. The authority
    owner holds the grant graph: every external effect is authorised against a
    lease whose grant has an unrevoked path to a root, is recorded once in the
    effect ledger and dispatched only after a fresh look at the same facts.
    Processes talk in framed messages: the protocol validates a frame, the
    codec cuts a byte stream into frames, the transport queues them under a
    control reserve, and role leases say which role may open which session.
    The coordination owner hands the work items of a task to agent sessions
    under leases and arbitrates who may integrate their results; the finish
    service decides from its log, the task owner's log and the verifiers' runs
    whether a task may close. The kernel starts and drains modules in the order
    of the capabilities they require of each other, and debits every restart of
    a child against a durable ledger. A canonical write is reserved in the
    operational recovery store, which gives it an order and a sequence on each
    of its ordering scopes; the write coordinator queues reserved writes and
    lets those on disjoint scopes run, each under a guard; a receipt closes the
    reservation and moves the scopes' heads, and a restart or an epoch fence
    turns what is in doubt over to reconciliation. The kernel's front door
    consumes signed authority receipts of the current epoch and hands out
    permits from a reserve of disjoint partitions, so that control operations
    find room when ordinary work has filled its own; the recovery store keeps a
    reserve of the same kind, and both publish their partitions as capacity rows
    that are compiled into one profile.

    ** Files, and the code they model (under src/crates)

    - Prelude: results, the state-and-error monad of [&mut self] methods,
      machine integers, ordered maps, totals over a map, scans and loops; the
      tactics [run] and [bool_facts] and the hint database [eliot].
    - RustText: the part of [str] the crates use (UTF-8 decoding, trimming,
      control characters, prefixes, decimal text), with round trips.
    - Contracts: foundation/eliot-contracts/src/lib.rs and epoch_identity.rs:
      identifiers, counters, epochs and their relation, transitions, State
      Fences, clocks, request metadata.
    - CausalLog: the interface of an event-sourced owner as a type class (what
      one step may do to its log, its sequence counter and its remembered
      requests) and what follows from it; Session and Task give the instances.
    - EpochClients: two tests built on the epoch relation, in
      governor/eliot-coordination/src/peer_communication.rs and
      governor/eliot-authority/src/revocation_history.rs.
    - RuntimeErrors: the error type of foundation/eliot-runtime-contracts and
      its text.
    - CapacityContracts: control_reserve.rs of the same crate: capacity
      classes, bottlenecks and their owners, capacity rows, profiles, requests,
      permit bindings and release evidence.
    - Kernel: kernel/eliot-kernel-core/src/error.rs and
      module/epoch_and_fence.rs, module/generation_routing.rs, with the cutover
      states of foundation/eliot-runtime-contracts: route fences, epoch
      activation, the generation router and cutover.
    - Receipts: foundation/eliot-receipts/src/lib.rs: receipt bindings, issue
      and validation, grant closures.
    - Budget, BudgetLaws: governor/eliot-budget/src/lib.rs: envelope,
      reservation lifecycle, totals, refunds, exhaustion, recovery; the first
      file holds the operations and their refinement to a lifecycle relation,
      the second the ledger invariant and the theorems.
    - Session: governor/eliot-session/src/lib.rs: registration, commands,
      heartbeats, recovery.
    - Professional: governor/eliot-task/src/professional_execution.rs:
      contracts, worker packets, attempts and their lineage, evidence,
      abandonment.
    - Task: governor/eliot-task/src/lib.rs: proposals, commands, professional
      gates, recovery.
    - RoleLease, IpcSession: kernel/eliot-ipc/src/role_lease.rs and
      session_lifecycle.rs: role capabilities and leases, the application
      session of a connection and its transitions.
    - Protocol, ProtocolLaws: foundation/eliot-protocol/src: frames, events,
      deadlines, the module lifecycle, and what a validated frame guarantees.
    - FrameCodec, FrameCodecLaws: the length-prefixed codec of the protocol
      and kernel/eliot-ipc/src/frame_codec.rs: encoding, the incremental
      decoder, fragmentation.
    - Transport, TransportLaws: kernel/eliot-ipc/src/lib.rs: limits, admission
      queues with their control reserve, in-flight bookkeeping.
    - Mailbox, MailboxLaws and Runtime, RuntimeLaws:
      kernel/eliot-runtime/src: two-lane mailboxes with weighted receive;
      cancellation trees, the task registry, shutdown, supervision.
    - Grants, GrantGraph, GrantRecovery with GrantGraphLaws,
      GrantRecoveryLaws, GrantTheorems: governor/eliot-authority/src/grants.rs
      and root_transition.rs: authority sets, grants and their narrowing, the
      graph and its revocations, effective paths, introductions, snapshots and
      recovery with quarantine, the admission of root transitions.
    - Effects, EffectsLaws: effects.rs, leases.rs and break_glass.rs of the
      same crate: capability tokens and leases, emergency grants, the
      authorizer, its ledger of decisions, contested effects, dispatch,
      receipts and recovery.

    - CoordinationData, Coordination, IntegrationCandidate,
      WorkLeaseIssuance: governor/eliot-coordination/src (lib.rs,
      integration_candidate.rs, work_lease_issuance.rs): the owner with its
      sessions, work items, leases and log; claims, heartbeats, results,
      reassignment; candidates and their single writer per scope; issued lease
      identities and recovery. CoordinationLaws and IntegrationLaws hold one
      description of the effect of every call, CoordinationTheorems and
      CoordinationRecovery the invariants and theorems, CoordinationFindings
      reads, retries and concrete runs.
    - Finish, FinishLaws: the finish part of governor/eliot-canonical/src/lib.rs
      and governor/eliot-finish/src/lib.rs: drafts, evidence, the derivation of
      a decision, the service with its receipts. FinishOwners, FinishTheorems,
      FinishFindings: [finish_projection] of the coordination owner and the
      joins of governor/eliot-governor/src/finish_attempt.rs.
    - RestartPolicy, RestartLedger, RestartLaws, RestartFindings:
      foundation/eliot-runtime-contracts/src/restart_policy.rs: restart
      declarations, decisions, and the ledger of debited attempts.
    - ModuleGraph, ModuleGraphLaws, ModuleGraphTheorems: [ModuleContract] and
      module_graph.rs of the same crate: capability resolution, cycle search,
      startup order. ModuleReadiness, ModuleReadinessLaws:
      generation_readiness.rs and module_lifecycle_order.rs of
      kernel/eliot-kernel-core/src/module.
    - OrsModel, OrsStore: the write reservations of kernel/eliot-ors/src
      (model.rs, reservation_model.rs, store.rs, store/recovery_projection.rs):
      envelopes and bindings, staging with its retry identity, the lifecycle of
      a reservation, receipts, fencing, restart and the recovery cursor.
      OrsLaws holds a relation of small steps on the tables and the invariant
      they keep, OrsSteps shows that every call is a sequence of them,
      OrsTheorems, OrsRetry and OrsRecovery say what follows.
    - WriteCoordinator: kernel/eliot-kernel-service/src/write_coordinator.rs,
      against the class [ReservationOwner]; the tables of OrsStore are its
      instance. WriteCoordinatorLaws holds against any store,
      WriteCoordinatorTheorems against any store and against the tables.
      OrsExamples has sample writes and concrete runs, OrsFindings what the
      runs revealed.
    - AuthorityReceipts: kernel/eliot-kernel-core/src/authority.rs: signed
      receipts, grants, the epoch fence.
    - CapacityProfile, CapacityLaws, CapacityTheorems:
      module/control_reserve_profile_compiler.rs and
      module/control_reserve_ors_evidence.rs of the same crate.
    - FrontDoor: module/control_reserve_front_door.rs of the same crate: the
      reserve, its permits and its restart seal, the idempotency ledger, the
      front door. OrsReserve: kernel/eliot-ors/src/control_reserve.rs. In both
      a call runs alone. FrontDoorAtomics has the compare-exchange loops as an
      interleaving semantics for any reserve (class [CasReserve] with its
      laws), FrontDoorLaws its two instances and what holds in
      every interleaving; FrontDoorCalls what the calls do and what holds after
      any sequence of them; FrontDoorExamples has concrete runs,
      FrontDoorFindings where the code departs from its documentation.

    ** How code becomes definitions

    A Rust struct is a [Record], an enum an [Inductive] with its constructors
    (prefixed where two crates use one name), a [Result] a [result], a
    [&mut self] method a function to the state it leaves and its result, also
    on error paths. [BTreeMap]s are [gmap]s, iterated through [btree_iter]
    where order matters. A [u64] is a [Z]: checked operations are options,
    [+=] wraps. Strings are byte strings. A [loop] or [while] whose bound is
    not structural is a [loop] with fuel.

    What is not under src/ is a parameter: SHA-256 and the canonical JSON
    encoders of receipts, grants, transition preimages and action contracts;
    the JSON payload checks of a frame (class [Wire]); the debug text of an
    epoch; the bounded channels of the asynchronous runtime (class [Mpsc] with
    its laws, discharged by an instance on lists); the encoders of lease
    evidence, finish attempts and receipts (class [FinishWire]), restart
    policies (class [RestartWire]) and module graphs (class [ModuleWire]); the
    digests and JSON texts of the recovery store (class [OrsWire]) and the
    provider of canonical evidence (class [CanonicalEvidence]); the encoding
    and the keyed hash of authority receipts (class [AuthorityCrypto]). The outcome of a
    commit, the instant a clock returned and the parallelism the system reports
    are arguments. The hypotheses on them
    ([sha256_output] and [keyed_hash_ok]: 32 bytes; encoders that separate what they encode) are
    named in the theorems.

    ** What the theorems show

    - Refinement: [task_call_refines] and [session_call_refines] compare every
      call with a relation written without the functions of the code (the
      arrows of the lifecycle, when a context and a command are admitted, what
      each command leaves behind): a call succeeds exactly when the relation
      allows it, with the effect it names. [budget_call_refines] does so for
      the effect of each ledger operation, in terms of what it books, moves and
      settles. [ipc_session_call_refines] equates the calls of an IPC session
      with an order-free specification.
    - Equivalence: a decoder fed any fragmentation of a byte stream answers as
      one fed the whole; effective paths, delegated closures and revocations
      coincide with their definitions on the lineage relation.
    - Invariants of reachable states: logs are legal histories that determine
      the state; ledger totals are the sums of their reservations; professional
      states carry only evidence and lineages that satisfy their contract;
      routers hold each route under its scope at the router's epoch; grant
      graphs are forests in which authority narrows along every edge; effect
      ledgers only grow.
    - Safety: verification only with the evaluator's evidence, no silent
      abandonment, one command per revision, terminal states, admission within
      the envelope, refusal verdicts that bind, coherent receipts; a revoked
      grant gives no descendant a path; an authority crosses into a new root
      only narrowed, on an active receipt that commits to it, under either
      constructor of the admission; an effect is authorised together with the
      contest of what rests on revoked roots, except on a replay, which drops
      the roots it is given; an effect is dispatched only on an authorised
      decision with live authority; an emergency grant is used once.
    - Coordination: an item has one lease that is not retired, moves along its lifecycle and
      is never lost, a reassignment moves the authority in one step, writers of
      a scope never overlap, the log is a causal chain; an owner that was
      called with discipline is rebuilt from its image.
    - Finish: a verified completion is derived exactly when everything cited is
      fresh and satisfied; the finish path closes a task only when every work
      item of it is settled and the task owner says so. The code persists the
      evidence of an attempt and decides on what it reads back, checking again
      only task and revision (finish_attempt.rs); [finish_context_of] joins the
      same evidence from the projections of the attempt directly, so the theorem
      speaks of an attempt that decides on the image it wrote itself.
    - Restarts: no interval of a window's length holds more than twice the
      quarantine threshold of attempts, an operation is debited once,
      quarantine is final, and a recovery takes along only declared required
      dependents.
    - Modules: the cycle search is exact and ends, the startup order holds
      every module once, providers first, as long as none takes two
      capabilities from one provider ([startup_order_members] says which modules
      are missing otherwise), startup and drain are safe and never stuck.
    - Writes: a scope has one eligible or executing write at a time, its
      commits form one line, a closed reservation is final, terminal rows match
      receipts exactly, and an answered request is answered the same for ever.
      A restart and a fence reach every reservation they must and no other, in
      as many pages as it takes; the recovery listing is complete. The
      coordinator's permits are exactly those of its live guards, dispatch takes
      the oldest head that may run, and over the tables a guarded write runs
      alone until its reservation is closed.
    - Admission: the lock-free reserve of the front door keeps its counters
      between the permits held and the capacity in every interleaving, refuses
      what begins after a restart seal, and without a seal is linearizable to
      the reserve called by one thread at a time; neither reserve is ever
      overcommitted, with restart seals in the middle of acquisitions; after any
      calls of the front door the counters match the permits held and permit
      identities are unique; issuing a permit, consuming a receipt and compiling
      a profile are characterised exactly; a receipt lives for one epoch; an
      authorization is answered the same within its epoch as long as the ledger
      remembers it, and another request under its identity is a conflict; and
      the rows the two reserves publish always compile.
    - Idempotent retries for every operation of the three lifecycle owners;
      failed calls change nothing.
    - Round trips: snapshot and recovery of sessions, tasks, ledgers, grant
      graphs and effect ledgers; receipt issue and validation; frames; decimal
      text.
    - Bounds and liveness: decoder buffers, queues and their control reserve; a
      waiting message is received within a bounded number of receives; a
      shutdown leaves no task; a supervisor gives up on repeated failure.
    - Exact characterisations of the epoch relation, fences, staleness and
      route lookup. Several of them show that the code departs from its
      documentation (the epoch relation is read the wrong way round by the
      router's cutover, by the staleness test and by the recorded-commit test);
      the theorems state what the code does.

    ** Bounds and fuel

    [lineage_walk] follows parent links with one unit of fuel per recorded
    attempt: parents are recorded before their children, so more fuel changes
    nothing ([lineage_walk_terminates]). [decimal] uses twenty rounds, the
    length of the largest [u64]. A mailbox receive takes at most three rounds
    of its loop, a walk of the cancellation tree one more than the token's
    index. The walks of the grant graph get the number of grants and a
    constant: the cycle walk, the closure and the partition of restored grants
    always finish within it, the effective path finishes on every acyclic graph
    (every graph the operations reach), and the model answers [None] where it
    would not. The cycle search over modules and the loop of the startup order
    get one unit more than there are modules, and always finish. The page loops of
    the recovery store and of [unresolved] get one unit more than there are
    reservations: each page resolves or lists at least one, and the theorems
    show that they finish. Theorems on
    sequence numbers assume fewer than [u64_max] events,
    where the counter of the code would wrap; the runtime's theorems assume
    fewer than [u64_max] tasks.

    ** Not modelled

    Serialization and its derived decoders, wall clocks, locks, process and
    file I/O, stores, the executables, the analysis crates, and
    [redact_evaluator_only_references] in professional_execution.rs. Of the
    coordination crate: peer messages, boards, handoffs and swarm plans; of the
    canonical writer all but the finish derivation; of the governor's finish
    path the verifier facts and the exchange with the store; of the module
    manifest the TOML bytes. Of the recovery store the tables other than those
    of write reservations (host requests, bridge events, leases, grant closures,
    admission reservations, backup) are left out, and so is what happens when
    the database refuses to open a table or a row it wrote cannot be decoded;
    the coordinator's mutex is held over each call, so its calls are atomic
    here. The interleavings of the reserves are sequentially consistent, which
    is stronger than the orderings the code asks for across different atomics,
    and lifting a seal is a call of FrontDoor only. The two exhaustion responses of the
    recovery store's reserve, records of the backpressure contract, are left
    out. Left for later work: peer communication; the revocation history,
    quarantine evidence, activation and mechanical subset of the authority
    crate; the backpressure responses; the transport handshake; the kernel
    core's authority controller, grant activation, user automation,
    notifications and process health. *)

From stdpp Require Export base option list gmap strings sorting fin_maps.
From Stdlib Require Export ZArith Lia.

#[global] Open Scope Z_scope.

(** ** Results and the state-and-error monad

    A Rust [Result<T, E>] is a [result E A]; a method taking [&mut self] and
    returning a [Result] is an [M S E A]: it always gives back the state it
    leaves behind, also on its error paths, so that a mutation made before an
    early return stays visible. *)

Inductive result (E A : Type) : Type :=
| Ok (a : A)
| Err (e : E).

Arguments Ok {E A} _.
Arguments Err {E A} _.

#[global] Instance result_eq_dec `{EqDecision E, EqDecision A} : EqDecision (result E A).
Proof. solve_decision. Defined.

Definition M (S E A : Type) : Type := S -> S * result E A.

Definition mret_ok {S E A} (a : A) : M S E A := fun s => (s, Ok a).

Definition mthrow {S E A} (e : E) : M S E A := fun s => (s, Err e).

Definition mlift {S E A} (r : result E A) : M S E A := fun s => (s, r).

Definition mstate {S E} : M S E S := fun s => (s, Ok s).

Definition mmodify {S E} (f : S -> S) : M S E unit := fun s => (f s, Ok tt).

Definition mseq {S E A B} (m : M S E A) (k : A -> M S E B) : M S E B :=
  fun s => match m s with
           | (s', Ok a) => k a s'
           | (s', Err e) => (s', Err e)
           end.

Definition rbind {E A B} (r : result E A) (k : A -> result E B) : result E B :=
  match r with
  | Ok a => k a
  | Err e => Err e
  end.

Definition map_err {E F A} (f : E -> F) (r : result E A) : result F A :=
  match r with
  | Ok a => Ok a
  | Err e => Err (f e)
  end.

Definition ok_or {E A} (o : option A) (e : E) : result E A :=
  match o with
  | Some a => Ok a
  | None => Err e
  end.

Definition guard_err {E} (reject : bool) (e : E) : result E unit :=
  if reject then Err e else Ok tt.

Definition is_ok {E A} (r : result E A) : bool :=
  match r with
  | Ok _ => true
  | Err _ => false
  end.

(** [Option::is_some] *)
Definition is_some {A} (o : option A) : bool :=
  match o with
  | Some _ => true
  | None => false
  end.

Fixpoint for_each {E A} (f : A -> result E unit) (l : list A) : result E unit :=
  match l with
  | [] => Ok tt
  | x :: l' => rbind (f x) (fun _ => for_each f l')
  end.

Fixpoint fold_res {E A B} (f : B -> A -> result E B) (acc : B) (l : list A) : result E B :=
  match l with
  | [] => Ok acc
  | x :: l' => rbind (f acc x) (fun acc' => fold_res f acc' l')
  end.

Declare Scope rust_scope.
Delimit Scope rust_scope with rust.
#[global] Open Scope rust_scope.

Notation "'let?' x ':=' r 'in' k" := (rbind r (fun x => k))
  (at level 10, x pattern, r at level 100, k at level 200) : rust_scope.
Notation "'check?' r ';' k" := (rbind r (fun _ => k))
  (at level 10, r at level 100, k at level 200) : rust_scope.
Notation "'let!' x ':=' m 'in' k" := (mseq m (fun x => k))
  (at level 10, x pattern, m at level 100, k at level 200) : rust_scope.
Notation "'do!' m ';' k" := (mseq m (fun _ => k))
  (at level 10, m at level 100, k at level 200) : rust_scope.

(** Rust's derived [PartialEq]. *)
Notation "a == b" := (bool_decide (a = b)) (at level 70, no associativity) : rust_scope.
Notation "a != b" := (negb (bool_decide (a = b))) (at level 70, no associativity) : rust_scope.

(** ** Loops

    A [loop] or [while] of the source is a step function on the variables it
    updates: [inl] starts another round, [inr] leaves the loop with a value.
    [loop fuel step s] runs at most [fuel] rounds. *)

Fixpoint loop {S R} (fuel : nat) (step : S -> S + R) (s : S) : option R :=
  match fuel with
  | O => None
  | Datatypes.S fuel' =>
      match step s with
      | inl s' => loop fuel' step s'
      | inr r => Some r
      end
  end.

Section Loops.
Context {S R : Type} (step : S -> S + R).

(** An invariant kept by each round holds where the loop is left. *)
Lemma loop_invariant (I : S -> Prop) (Q : R -> Prop) fuel : forall s r,
  (forall s, I s -> match step s with inl s' => I s' | inr r => Q r end) ->
  I s -> loop fuel step s = Some r -> Q r.
Proof.
  induction fuel as [|fuel IH]; intros s r Hstep Hs Hl; simpl in Hl; [done|].
  pose proof (Hstep s Hs) as H1. destruct (step s) as [s'|r']; [by eapply IH|naive_solver].
Qed.

(** A loop whose rounds decrease a measure is left within that many rounds. *)
Lemma loop_total (I : S -> Prop) (measure : S -> nat) fuel : forall s,
  (forall s s', I s -> step s = inl s' -> I s' /\ (measure s' < measure s)%nat) ->
  I s -> (measure s < fuel)%nat -> is_Some (loop fuel step s).
Proof.
  induction fuel as [|fuel IH]; intros s Hstep Hs Hm; simpl; [lia|].
  destruct (step s) as [s'|r] eqn:E; [|by eexists].
  destruct (Hstep s s' Hs E). apply IH; [done|done|lia].
Qed.

(** More rounds change nothing once the loop has been left. *)
Lemma loop_mono fuel fuel' : forall s r,
  loop fuel step s = Some r -> (fuel <= fuel')%nat -> loop fuel' step s = Some r.
Proof.
  revert fuel'. induction fuel as [|fuel IH]; intros fuel' s r Hl Hle; [done|].
  destruct fuel' as [|fuel']; [lia|]. simpl in *.
  destruct (step s); [apply IH; [done|lia]|done].
Qed.
End Loops.

(** ** Machine integers

    A [u64], [i64], [u16] or [usize] is a [Z]; the operations that can leave
    the range are written with the behaviour the source selects
    ([checked_add], [checked_sub]) or with the wrap-around of [+=]. *)

Definition u64_max : Z := 2 ^ 64 - 1.

Definition is_u64 (z : Z) : Prop := 0 <= z <= u64_max.

#[global] Instance is_u64_dec z : Decision (is_u64 z).
Proof. unfold is_u64. apply _. Defined.

Definition wrap_u64 (z : Z) : Z := z mod 2 ^ 64.

Definition checked_add (a b : Z) : option Z :=
  if a + b <=? u64_max then Some (a + b) else None.

Definition checked_sub (a b : Z) : option Z :=
  if b <=? a then Some (a - b) else None.

Definition usize_of_len {A} (l : list A) : Z := Z.of_nat (length l).

(** ** Automation

    [run] opens the monadic plumbing and splits on every condition of the
    code; error branches of a success hypothesis close by themselves. *)

Create HintDb eliot.

Ltac unfold_monad :=
  unfold mseq, mlift, mstate, mmodify, mret_ok, mthrow, rbind, map_err, ok_or, guard_err in *.

Ltac run_step :=
  match goal with
  | H : context [match ?x with _ => _ end] |- _ =>
      lazymatch x with
      | context [match _ with _ => _ end] => fail
      | _ => destruct x eqn:?; simplify_eq/=
      end
  end.

Ltac destruct_units := repeat match goal with u : unit |- _ => destruct u end.

Ltac run := unfold_monad; simplify_eq/=; repeat run_step; simplify_eq/=; destruct_units.

Ltac bool_facts :=
  repeat match goal with
  | H : negb _ = true |- _ => apply negb_true_iff in H
  | H : negb _ = false |- _ => apply negb_false_iff in H
  | H : _ || _ = false |- _ => apply orb_false_iff in H as [? ?]
  | H : _ && _ = true |- _ => apply andb_true_iff in H as [? ?]
  | H : bool_decide _ = true |- _ => apply bool_decide_eq_true in H
  | H : bool_decide _ = false |- _ => apply bool_decide_eq_false in H
  end.

(** ** Generic lemmas *)

Section Results.
Context {E A B : Type}.

Lemma rbind_ok (r : result E A) (k : A -> result E B) b :
  rbind r k = Ok b <-> exists a, r = Ok a /\ k a = Ok b.
Proof. destruct r; naive_solver. Qed.

Lemma guard_err_ok (b : bool) (e : E) : guard_err b e = Ok tt <-> b = false.
Proof. destruct b; naive_solver. Qed.

Lemma map_err_ok {F} (f : E -> F) (r : result E A) a : map_err f r = Ok a <-> r = Ok a.
Proof. destruct r; simpl; naive_solver. Qed.

Lemma fold_res_snoc (f : B -> A -> result E B) acc l x :
  fold_res f acc (l ++ [x]) = rbind (fold_res f acc l) (fun acc' => f acc' x).
Proof.
  revert acc. induction l as [|y l IH]; intros acc; simpl.
  - by destruct (f acc x).
  - by destruct (f acc y); simpl.
Qed.

(** What each step keeps holds at the end of a fold that succeeds. *)
Lemma fold_res_inv (P : B -> Prop) (f : B -> A -> result E B) l : forall acc acc',
  (forall acc x acc', x ∈ l -> P acc -> f acc x = Ok acc' -> P acc') ->
  P acc -> fold_res f acc l = Ok acc' -> P acc'.
Proof.
  induction l as [|x l IH]; intros acc acc' Hstep Hacc H; simpl in H; [naive_solver|].
  destruct (f acc x) as [b|e] eqn:Hf; simpl in H; [|done].
  eapply IH; [|by eapply (Hstep acc x); [left| |]|exact H].
  intros a y a' Hy. apply Hstep. by right.
Qed.

Lemma for_each_ok (f : A -> result E unit) (l : list A) :
  for_each f l = Ok tt <-> Forall (fun x => f x = Ok tt) l.
Proof.
  induction l as [|x l IH]; simpl; [naive_solver|].
  rewrite Forall_cons, <- IH. destruct (f x) as [[]|]; naive_solver.
Qed.
End Results.

(** A [check?] step on success: the check holds and the rest succeeds. *)
Lemma check_ok {E B} (r : result E unit) (k : result E B) b :
  rbind r (fun _ => k) = Ok b <-> r = Ok tt /\ k = Ok b.
Proof. rewrite rbind_ok. split; [intros ([] & ? & ?)|intros [? ?]; exists tt]; done. Qed.

Lemma check_guard_ok {E B} (reject : bool) (e : E) (k : result E B) b :
  rbind (guard_err reject e) (fun _ => k) = Ok b <-> reject = false /\ k = Ok b.
Proof. by rewrite check_ok, guard_err_ok. Qed.

Lemma existsb_false_iff {A} (f : A -> bool) (l : list A) :
  existsb f l = false <-> Forall (fun x => f x = false) l.
Proof.
  induction l as [|x l IH]; simpl; [naive_solver|].
  rewrite orb_false_iff, Forall_cons, IH. done.
Qed.

Lemma forallb_true_iff {A} (f : A -> bool) (l : list A) :
  forallb f l = true <-> Forall (fun x => f x = true) l.
Proof.
  induction l as [|x l IH]; simpl; [naive_solver|].
  rewrite andb_true_iff, Forall_cons, IH. done.
Qed.

Section Machine.
Lemma u64_max_val : u64_max = 18446744073709551615.
Proof. reflexivity. Qed.

Lemma checked_add_some a b c : checked_add a b = Some c <-> c = a + b /\ a + b <= u64_max.
Proof. unfold checked_add. case_match; naive_solver lia. Qed.

Lemma checked_sub_some a b c : checked_sub a b = Some c <-> c = a - b /\ b <= a.
Proof. unfold checked_sub. case_match; naive_solver lia. Qed.

Lemma wrap_u64_small z : is_u64 z -> wrap_u64 z = z.
Proof. intros [? ?]. unfold wrap_u64. apply Z.mod_small. pose proof u64_max_val. lia. Qed.

Lemma wrap_u64_succ z : wrap_u64 (wrap_u64 z + 1) = wrap_u64 (z + 1).
Proof. unfold wrap_u64. by rewrite Zplus_mod_idemp_l. Qed.
End Machine.

(** ** Ordered maps

    A [BTreeMap<String, V>] is a [gmap string V]; its iteration order, the
    byte order of the keys, is made explicit by [btree_iter] where the source
    iterates and the order can be observed. *)

Definition key_le {V} (a b : string * V) : Prop := String.le a.1 b.1.

#[global] Instance key_le_dec {V} : RelDecision (@key_le V).
Proof. intros a b. unfold key_le. apply _. Defined.

#[global] Instance key_le_total {V} : Total (@key_le V).
Proof. intros [a ?] [b ?]. apply (total String.le a b). Qed.

#[global] Instance key_le_trans {V} : Transitive (@key_le V).
Proof. intros [a ?] [b ?] [c ?] H1 H2. unfold key_le in *. simpl in *. by etrans. Qed.

Definition btree_iter {V} (m : gmap string V) : list (string * V) :=
  merge_sort key_le (map_to_list m).

Definition btree_values {V} (m : gmap string V) : list V := (btree_iter m).*2.

(** [map.insert(key(x), val(x))] for each [x] in turn. *)
Definition insert_all {A V} (key : A -> string) (val : A -> V) (l : list A) (m : gmap string V)
    : gmap string V :=
  fold_left (fun acc x => <[key x := val x]> acc) l m.

(** A [BTreeSet<String>] is a [gset string]; collected into a [Vec] it lists
    its elements in byte order. *)
Definition btree_set_iter (s : gset string) : list string := merge_sort String.le (elements s).

(** The duplicate scan [if !seen.insert(key(x)) { return Err(e) }], with a
    check [pre] made on each item first. *)
Fixpoint scan_distinct {E A} (pre : A -> result E unit) (key : A -> string) (dup : A -> E)
    (seen : gset string) (l : list A) : result E (gset string) :=
  match l with
  | [] => Ok seen
  | x :: l' =>
      rbind (pre x) (fun _ =>
        if bool_decide (key x ∈ seen) then Err (dup x)
        else scan_distinct pre key dup ({[key x]} ∪ seen) l')
  end.

Section OrderedMaps.
Context {V : Type}.
Implicit Types m : gmap string V.

Lemma btree_iter_perm m : btree_iter m ≡ₚ map_to_list m.
Proof. apply merge_sort_Permutation. Qed.

Lemma btree_iter_sorted m : StronglySorted key_le (btree_iter m).
Proof. apply (StronglySorted_merge_sort _). Qed.

Lemma btree_iter_lookup m k v : (k, v) ∈ btree_iter m <-> m !! k = Some v.
Proof. by rewrite btree_iter_perm, elem_of_map_to_list. Qed.

Lemma btree_values_elem m v : v ∈ btree_values m <-> exists k, m !! k = Some v.
Proof.
  unfold btree_values. rewrite list_elem_of_fmap. split.
  - intros ([k w] & -> & H). exists k. by apply btree_iter_lookup.
  - intros [k H]. exists (k, v). split; [done|]. by apply btree_iter_lookup.
Qed.

Lemma btree_values_perm m : btree_values m ≡ₚ (map_to_list m).*2.
Proof. unfold btree_values. by rewrite btree_iter_perm. Qed.

Lemma btree_iter_NoDup m : NoDup (btree_iter m).*1.
Proof. rewrite btree_iter_perm. apply NoDup_fst_map_to_list. Qed.

Lemma insert_all_union {A} (key : A -> string) (val : A -> V) l m :
  insert_all key val l m = list_to_map (reverse ((fun x => (key x, val x)) <$> l)) ∪ m.
Proof.
  revert m. induction l as [|x l IH]; intros m; simpl; [by rewrite map_empty_union|].
  unfold insert_all in *. simpl. rewrite IH, reverse_cons, list_to_map_app. simpl.
  rewrite <- map_union_assoc. f_equal. by rewrite insert_union_singleton_l.
Qed.

Lemma insert_all_iter m :
  insert_all fst snd (btree_iter m) ∅ = m.
Proof.
  rewrite insert_all_union, map_union_empty.
  replace ((fun x : string * V => (x.1, x.2)) <$> btree_iter m) with (btree_iter m).
  2: { symmetry. rewrite <- (list_fmap_id (btree_iter m)) at 2. apply list_fmap_ext.
       by intros ? [] ?. }
  rewrite <- (list_to_map_to_list m) at 2. apply list_to_map_proper.
  - rewrite reverse_Permutation. apply btree_iter_NoDup.
  - rewrite reverse_Permutation. apply btree_iter_perm.
Qed.

(** Re-inserting every value under the key it carries rebuilds the map. *)
Lemma insert_all_values (key : V -> string) m :
  (forall k v, m !! k = Some v -> key v = k) ->
  insert_all key id (btree_values m) ∅ = m.
Proof.
  intros Hk. rewrite <- (insert_all_iter m) at 2. unfold insert_all, btree_values.
  assert (H : forall kv, kv ∈ btree_iter m -> key kv.2 = kv.1).
  { intros [k v] H. apply Hk. by apply btree_iter_lookup. }
  revert H. generalize (btree_iter m), (∅ : gmap string V). intros l.
  induction l as [|[k v] l IH]; intros acc H; simpl; [done|].
  rewrite IH by (intros; apply H; by right).
  pose proof (H (k, v) ltac:(left)) as Hkv. simpl in Hkv. by rewrite Hkv.
Qed.

(** When keys do not repeat, each inserted pair is found again. *)
Lemma insert_all_lookup {A} (key : A -> string) (val : A -> V) l m x :
  NoDup (key <$> l) -> x ∈ l -> insert_all key val l m !! key x = Some (val x).
Proof.
  intros Hnd Hx. rewrite insert_all_union. apply lookup_union_Some_l.
  apply elem_of_list_to_map.
  - rewrite fmap_reverse, reverse_Permutation, <- list_fmap_compose. exact Hnd.
  - rewrite elem_of_reverse, list_elem_of_fmap. by exists x.
Qed.

Lemma insert_all_none {A} (key : A -> string) (val : A -> V) l m k :
  k ∉ key <$> l -> insert_all key val l m !! k = m !! k.
Proof.
  intros Hk. rewrite insert_all_union, lookup_union_r; [done|].
  apply not_elem_of_list_to_map.
  by rewrite fmap_reverse, reverse_Permutation, <- list_fmap_compose.
Qed.
End OrderedMaps.

(** ** Sorted vectors

    [Vec::dedup] keeps the first of each run of equal elements;
    [sort_dedup] is [sort] followed by it. *)

Fixpoint dedup {A} `{EqDecision A} (l : list A) : list A :=
  match l with
  | x :: ((y :: _) as l') => if bool_decide (x = y) then dedup l' else x :: dedup l'
  | _ => l
  end.

Definition sort_dedup (l : list string) : list string := dedup (merge_sort String.le l).

Lemma elem_of_dedup {A} `{EqDecision A} (l : list A) x : x ∈ dedup l <-> x ∈ l.
Proof.
  induction l as [|y [|z l] IH]; [done|done|].
  change (dedup (y :: z :: l))
    with (if bool_decide (y = z) then dedup (z :: l) else y :: dedup (z :: l)).
  case_bool_decide as Hy; [subst; rewrite IH; set_solver|].
  rewrite elem_of_cons, IH. set_solver.
Qed.

Lemma elem_of_sort_dedup l x : x ∈ sort_dedup l <-> x ∈ l.
Proof. unfold sort_dedup. by rewrite elem_of_dedup, merge_sort_Permutation. Qed.

Lemma sort_dedup_nil l : sort_dedup l = [] <-> l = [].
Proof.
  split; [|by intros ->]. intros H. destruct l as [|x l]; [done|].
  exfalso. apply (not_elem_of_nil x). rewrite <- H, elem_of_sort_dedup. left.
Qed.

(** ** Totals over a map *)

Definition sum_list (l : list Z) : Z := fold_right Z.add 0 l.

Definition map_sum {V} (f : V -> Z) (m : gmap string V) : Z :=
  map_fold (fun _ v acc => f v + acc) 0 m.

Section Totals.
Context {V : Type} (f : V -> Z).
Implicit Types m : gmap string V.

Lemma map_sum_insert_new m k v :
  m !! k = None -> map_sum f (<[k := v]> m) = f v + map_sum f m.
Proof. intros H. unfold map_sum. rewrite map_fold_insert_L; [done| |done]. intros; lia. Qed.

Lemma map_sum_insert m k v v' :
  m !! k = Some v -> map_sum f (<[k := v']> m) = map_sum f m - f v + f v'.
Proof.
  intros H. rewrite <- insert_delete_eq, map_sum_insert_new by apply lookup_delete_eq.
  unfold map_sum. rewrite (map_fold_delete_L _ 0 k v m); [lia|intros; lia|done].
Qed.

Lemma sum_list_perm l l' : l ≡ₚ l' -> sum_list l = sum_list l'.
Proof. unfold sum_list. induction 1; simpl; lia. Qed.

Lemma sum_list_app l l' : sum_list (l ++ l') = sum_list l + sum_list l'.
Proof. unfold sum_list. induction l; simpl; lia. Qed.

Lemma sum_list_nonneg l : Forall (fun z => 0 <= z) l -> 0 <= sum_list l.
Proof. unfold sum_list. induction 1; simpl; lia. Qed.

Lemma map_sum_values m : map_sum f m = sum_list (f <$> btree_values m).
Proof.
  rewrite (sum_list_perm _ (f <$> (map_to_list m).*2)) by (by rewrite btree_values_perm).
  unfold map_sum. rewrite map_fold_foldr. unfold sum_list.
  induction (map_to_list m) as [|[k v] l IH]; simpl; [done|]. rewrite IH. done.
Qed.

Lemma map_sum_nonneg m : (forall k v, m !! k = Some v -> 0 <= f v) -> 0 <= map_sum f m.
Proof.
  intros H. rewrite map_sum_values. apply sum_list_nonneg, Forall_forall.
  intros z (v & -> & Hv)%list_elem_of_fmap. apply btree_values_elem in Hv as [k Hv]. eauto.
Qed.

(** One entry never exceeds the total of non-negative entries. *)
Lemma map_sum_entry m k v :
  (forall k v, m !! k = Some v -> 0 <= f v) -> m !! k = Some v -> f v <= map_sum f m.
Proof.
  intros H Hk. rewrite <- (insert_delete_id m k v) by done.
  rewrite map_sum_insert_new by apply lookup_delete_eq.
  pose proof (map_sum_nonneg (delete k m)) as Hn.
  assert (0 <= map_sum f (delete k m)); [|lia].
  apply Hn. intros j w [_ Hj]%lookup_delete_Some. eauto.
Qed.
End Totals.

(** Taking one more element out of a finite set. *)
Lemma size_difference_insert (x : string) (d s : gset string) :
  x ∈ d -> x ∉ s -> size (d ∖ s) = S (size (d ∖ ({[x]} ∪ s))).
Proof.
  intros Hd Hs. replace (d ∖ s) with ({[x]} ∪ d ∖ ({[x]} ∪ s)).
  2: { apply set_eq. intros y. destruct (decide (y = x)); set_solver. }
  rewrite size_union by set_solver. by rewrite size_singleton.
Qed.

Section Scans.
Context {E A : Type} (pre : A -> result E unit) (key : A -> string) (dup : A -> E).

(** A scan succeeds exactly on lists that pass the item check and whose
    keys are new and distinct; it returns the keys seen. *)
Lemma scan_distinct_ok seen l seen' :
  scan_distinct pre key dup seen l = Ok seen' <->
  Forall (fun x => pre x = Ok tt) l /\ NoDup (key <$> l) /\
  (forall x, x ∈ l -> key x ∉ seen) /\ seen' = list_to_set (key <$> l) ∪ seen.
Proof.
  revert seen. induction l as [|x l IH]; intros seen; simpl.
  - split; [intros [= <-]; split_and!; [constructor|constructor|set_solver|set_solver]|].
    intros (_ & _ & _ & ->). f_equal. set_solver.
  - destruct (pre x) as [[]|] eqn:Hp; simpl.
    2: { split; [done|]. intros [Hf _]. apply Forall_cons in Hf as [Hf _]. congruence. }
    case_bool_decide as Hx.
    { split; [done|]. intros (_ & _ & Hs & _). exfalso. apply (Hs x); [left|done]. }
    rewrite IH. rewrite Forall_cons, NoDup_cons. split.
    + intros (Hf & Hnd & Hs & ->). split_and!; try done.
      * intros Hin. apply list_elem_of_fmap in Hin as (y & Hy & Hin).
        apply (Hs y Hin). rewrite <- Hy. set_solver.
      * intros y [->|Hy]%elem_of_cons; [done|]. specialize (Hs y Hy). set_solver.
      * set_solver.
    + intros ([_ Hf] & [Hni Hnd] & Hs & ->). split_and!; try done.
      * intros y Hy. specialize (Hs y ltac:(by right)).
        assert (key y <> key x); [|set_solver].
        intros Heq. apply Hni. apply list_elem_of_fmap. by exists y.
      * set_solver.
Qed.
End Scans.

(** A scan from the empty set, as a condition on the list alone. *)
Lemma scan_distinct_all {E A} (pre : A -> result E unit) key dup (l : list A) (P : A -> Prop) :
  (forall x, pre x = Ok tt <-> P x) ->
  (exists seen, scan_distinct pre key dup ∅ l = Ok seen) <-> Forall P l /\ NoDup (key <$> l).
Proof.
  intros HP. setoid_rewrite scan_distinct_ok. setoid_rewrite HP.
  split; [intros (? & ? & ? & ?); done|intros [? ?]; eexists; split_and!; try done; set_solver].
Qed.

Lemma check_scan_distinct {E A} (pre : A -> result E unit) key dup (l : list A) (P : A -> Prop)
    {B} (k : result E B) b :
  (forall x, pre x = Ok tt <-> P x) ->
  rbind (scan_distinct pre key dup ∅ l) (fun _ => k) = Ok b <->
  (Forall P l /\ NoDup (key <$> l)) /\ k = Ok b.
Proof.
  intros HP. rewrite rbind_ok, <- (scan_distinct_all pre key dup l P HP). naive_solver.
Qed.

(** A list has no duplicates exactly when its set is as large as it is. *)
Lemma size_list_to_set_distinct (l : list string) :
  (size (list_to_set l : gset string) =? length l)%nat = true <-> NoDup l.
Proof.
  rewrite Nat.eqb_eq. split.
  - induction l as [|x l IH]; [constructor|]. simpl. intros H.
    assert (Hle : (size (list_to_set l : gset string) <= length l)%nat).
    { clear. induction l as [|y l IH]; [done|]. simpl.
      pose proof (size_union_alt (C := gset string) {[y]} (list_to_set l)).
      pose proof (subseteq_size (C := gset string) (list_to_set l ∖ {[y]}) (list_to_set l)).
      rewrite size_singleton in *. set_solver by lia. }
    destruct (decide (x ∈ l)) as [Hx|Hx].
    + replace ({[x]} ∪ list_to_set l : gset string) with (list_to_set l : gset string) in H
        by set_solver. lia.
    + rewrite size_union, size_singleton in H by set_solver. constructor; [done|]. apply IH. lia.
  - intros Hnd. by rewrite size_list_to_set.
Qed.

(** Altering an entry to a value is inserting that value. *)
Lemma partial_alter_known {A} (f : option A -> option A) (m : gmap string A) k x :
  f (m !! k) = Some x -> partial_alter f k m = <[k := x]> m.
Proof.
  intros Hf. apply map_eq. intros j. destruct (decide (j = k)) as [->|].
  - by rewrite lookup_partial_alter_eq, lookup_insert_eq.
  - by rewrite lookup_partial_alter_ne, lookup_insert_ne.
Qed.

Lemma filter_sublist {A} (p : A -> bool) (l : list A) : List.filter p l `sublist_of` l.
Proof. induction l as [|x l IH]; simpl; [constructor|]. destruct (p x); by constructor. Qed.
