(* ===== verification/RustText.v ===== *)
(** * Rust text

    The part of [str] and [String] the modelled crates use. A Rust string is
    a Rocq [string] holding its UTF-8 bytes, so [len] is the byte length,
    [==] is byte equality and the order of map keys is the byte order.
    [chars] decodes the scalar values that [char::is_whitespace] and
    [char::is_control] look at. *)

From Stdlib Require Import Ascii String.
From S2P Require Import Prelude.

Definition byte_of (c : ascii) : Z := Z.of_N (N_of_ascii c).

Definition byte_to (z : Z) : ascii := ascii_of_N (Z.to_N z).

Definition bytes (s : string) : list Z := map byte_of (list_ascii_of_string s).

Definition len (s : string) : Z := Z.of_nat (String.length s).

(** ** Decoding

    The decoder keeps the number of continuation bytes it still expects and
    the bits gathered so far. A byte that is not a continuation byte where
    one is expected ends the broken sequence with U+FFFD; this does not
    happen on a Rust [str], which is always well-formed UTF-8. *)

Definition is_continuation (b : Z) : bool := (128 <=? b) && (b <? 192).

Definition lead_of (b : Z) : nat * Z :=
  if b <? 128 then (0%nat, b)
  else if b <? 192 then (0%nat, 65533)
  else if b <? 224 then (1%nat, Z.land b 31)
  else if b <? 240 then (2%nat, Z.land b 15)
  else if b <? 248 then (3%nat, Z.land b 7)
  else (0%nat, 65533).

Fixpoint decode (need : nat) (acc : Z) (s : string) : list Z :=
  match s with
  | EmptyString => if (need =? 0)%nat then [] else [65533]
  | String c s' =>
      let b := byte_of c in
      let start := match lead_of b with
                   | (O, v) => v :: decode 0 0 s'
                   | (n, v) => decode n v s'
                   end in
      match need with
      | O => start
      | S n =>
          if is_continuation b then
            let v := Z.lor (Z.shiftl acc 6) (Z.land b 63) in
            match n with
            | O => v :: decode 0 0 s'
            | S _ => decode n v s'
            end
          else 65533 :: start
      end
  end.

Definition chars (s : string) : list Z := decode 0 0 s.

(** [std::str::from_utf8(bytes).is_ok()]: no overlong form, no surrogate,
    nothing above U+10FFFF. *)
Fixpoint utf8_valid (l : list Z) : bool :=
  match l with
  | [] => true
  | b0 :: l0 =>
      if b0 <? 128 then utf8_valid l0
      else match l0 with
      | [] => false
      | b1 :: l1 =>
          if (194 <=? b0) && (b0 <=? 223) then is_continuation b1 && utf8_valid l1
          else match l1 with
          | [] => false
          | b2 :: l2 =>
              if b0 =? 224 then (160 <=? b1) && (b1 <=? 191) && is_continuation b2 && utf8_valid l2
              else if b0 =? 237 then
                (128 <=? b1) && (b1 <=? 159) && is_continuation b2 && utf8_valid l2
              else if (225 <=? b0) && (b0 <=? 239) then
                is_continuation b1 && is_continuation b2 && utf8_valid l2
              else match l2 with
              | [] => false
              | b3 :: l3 =>
                  if b0 =? 240 then (144 <=? b1) && (b1 <=? 191) && is_continuation b2
                                    && is_continuation b3 && utf8_valid l3
                  else if (241 <=? b0) && (b0 <=? 243) then
                    is_continuation b1 && is_continuation b2 && is_continuation b3 && utf8_valid l3
                  else if b0 =? 244 then (128 <=? b1) && (b1 <=? 143) && is_continuation b2
                                         && is_continuation b3 && utf8_valid l3
                  else false
              end
          end
      end
  end.

(** Unicode [White_Space], as [char::is_whitespace]. *)
Definition is_whitespace (c : Z) : bool :=
  ((9 <=? c) && (c <=? 13)) || (c =? 32) || (c =? 133) || (c =? 160) || (c =? 5760)
  || ((8192 <=? c) && (c <=? 8202)) || (c =? 8232) || (c =? 8233) || (c =? 8239)
  || (c =? 8287) || (c =? 12288).

(** General category [Cc], as [char::is_control]. *)
Definition is_control (c : Z) : bool :=
  ((0 <=? c) && (c <=? 31)) || ((127 <=? c) && (c <=? 159)).

Fixpoint trim_start (l : list Z) : list Z :=
  match l with
  | [] => []
  | c :: l' => if is_whitespace c then trim_start l' else l
  end.

Definition trim (l : list Z) : list Z := rev (trim_start (rev (trim_start l))).

(** [value.trim().is_empty()] *)
Definition is_blank (s : string) : bool :=
  match trim (chars s) with
  | [] => true
  | _ => false
  end.

(** [value.chars().any(char::is_control)] *)
Definition has_control (s : string) : bool := existsb is_control (chars s).

(** The admission test the crates write as
    [value.trim().is_empty() || value.chars().any(char::is_control)]. *)
Definition text_ok (s : string) : bool := negb (is_blank s || has_control s).

(** ** Digests and prefixes *)

Definition is_ascii_digit (b : Z) : bool := (48 <=? b) && (b <=? 57).

Definition is_ascii_hexdigit (b : Z) : bool :=
  is_ascii_digit b || ((65 <=? b) && (b <=? 70)) || ((97 <=? b) && (b <=? 102)).

Definition is_ascii_uppercase (b : Z) : bool := (65 <=? b) && (b <=? 90).

Definition is_lower_hex (b : Z) : bool := is_ascii_hexdigit b && negb (is_ascii_uppercase b).

(** [len() == 64] and every byte a lowercase hexadecimal digit. *)
Definition is_sha256_hex (s : string) : bool := (len s =? 64) && forallb is_lower_hex (bytes s).

Fixpoint strip_prefix (p s : string) : option string :=
  match p, s with
  | EmptyString, _ => Some s
  | String a p', String b s' => if Ascii.eqb a b then strip_prefix p' s' else None
  | String _ _, EmptyString => None
  end.

Definition starts_with (p s : string) : bool :=
  match strip_prefix p s with
  | Some _ => true
  | None => false
  end.

(** [trim_end_matches(c)] *)
Fixpoint trim_end_matches (c : ascii) (s : string) : string :=
  match s with
  | EmptyString => EmptyString
  | String a s' =>
      match trim_end_matches c s' with
      | EmptyString => if Ascii.eqb a c then EmptyString else String a EmptyString
      | t => String a t
      end
  end.

(** ** Decimal text of a [u64] *)

Definition digit (d : Z) : ascii := byte_to (48 + d).

(** Digits of [n], most significant first, in front of [acc]. Twenty rounds
    cover every [u64]. *)
Fixpoint decimal (fuel : nat) (n : Z) (acc : string) : string :=
  match fuel with
  | O => acc
  | S fuel' =>
      if n <? 10 then String (digit n) acc
      else decimal fuel' (n / 10) (String (digit (n mod 10)) acc)
  end.

Definition u64_to_string (n : Z) : string := decimal 20 n EmptyString.

Fixpoint parse_digits (acc : Z) (s : string) : option Z :=
  match s with
  | EmptyString => Some acc
  | String c s' =>
      let b := byte_of c in
      if is_ascii_digit b then
        let tens := acc * 10 in
        if tens <=? u64_max then
          match checked_add tens (b - 48) with
          | Some acc' => parse_digits acc' s'
          | None => None
          end
        else None
      else None
  end.

(** [str::parse::<u64>]: a leading [+] is accepted, an empty digit string is
    not, and a value above [u64::MAX] is an error. *)
Definition parse_u64 (s : string) : option Z :=
  let body := match s with
              | String c s' => if byte_of c =? 43 then s' else s
              | EmptyString => s
              end in
  match body with
  | EmptyString => None
  | _ => parse_digits 0 body
  end.

(** ** Lemmas *)

Section Decoding.
(** An ASCII byte is never swallowed by a sequence before it. *)
Lemma decode_app_ascii (a b : string) (c : ascii) (need : nat) (acc : Z) :
  byte_of c < 128 ->
  decode need acc (a ++ String c b) = decode need acc a ++ byte_of c :: decode 0 0 b.
Proof.
  intros Hc. revert need acc.
  assert (Hpos : 0 <= byte_of c) by apply N2Z.is_nonneg.
  assert (Hstart : lead_of (byte_of c) = (0%nat, byte_of c)).
  { unfold lead_of. rewrite (proj2 (Z.ltb_lt _ _)); done. }
  assert (Hcont : is_continuation (byte_of c) = false).
  { unfold is_continuation. apply andb_false_iff. left. apply Z.leb_gt. lia. }
  induction a as [|x a IH]; intros need acc; simpl.
  - rewrite Hstart, Hcont. by destruct need.
  - repeat first [ rewrite IH | case_match ]; done.
Qed.

Lemma trim_start_app_nonspace l c r :
  is_whitespace c = false -> exists t, trim_start (l ++ c :: r) = t ++ c :: r.
Proof.
  intros Hc. induction l as [|x l IH]; simpl.
  - rewrite Hc. by exists [].
  - destruct (is_whitespace x); [done|]. by exists (x :: l).
Qed.

Lemma trim_start_all l : forallb is_whitespace l = true -> trim_start l = [].
Proof. induction l as [|x l IH]; simpl; [done|]. by destruct (is_whitespace x). Qed.

Lemma trim_start_nil l : trim_start l = [] -> forallb is_whitespace l = true.
Proof. induction l as [|x l IH]; simpl; [done|]. by destruct (is_whitespace x). Qed.

Lemma trim_start_idem l : trim_start (trim_start l) = trim_start l.
Proof.
  induction l as [|x l IH]; simpl; [done|].
  destruct (is_whitespace x) eqn:E; simpl; [done|by rewrite E].
Qed.

Lemma trim_nil l : trim l = [] <-> forallb is_whitespace l = true.
Proof.
  unfold trim. split; intros H.
  - apply (f_equal (@rev Z)) in H. rewrite rev_involutive in H. simpl in H.
    apply trim_start_nil in H. apply trim_start_nil.
    rewrite <- trim_start_idem. apply trim_start_all.
    rewrite forallb_forall in *. intros x Hx. apply H. by apply in_rev in Hx.
  - by rewrite (trim_start_all l H).
Qed.

Lemma is_blank_spec s : is_blank s = forallb is_whitespace (chars s).
Proof.
  unfold is_blank. pose proof (trim_nil (chars s)) as [H1 H2].
  destruct (trim (chars s)) eqn:E; destruct (forallb is_whitespace (chars s)) eqn:F; naive_solver.
Qed.
End Decoding.

(** [text_ok] survives an ASCII separator and a clean suffix, as in
    [format!("{id}-{n}")]. *)
Lemma text_ok_app_ascii (a b : string) (c : ascii) :
  byte_of c < 128 -> is_control (byte_of c) = false -> has_control b = false ->
  text_ok a = true -> text_ok (a ++ String c b) = true.
Proof.
  intros Hc Hctl Hb. unfold text_ok, has_control in *. rewrite !is_blank_spec.
  unfold chars. rewrite decode_app_ascii by done.
  rewrite forallb_app, existsb_app. simpl. rewrite Hctl. unfold chars in Hb. rewrite Hb.
  intros H. bool_facts. apply negb_true_iff. rewrite orb_false_iff. split.
  - by rewrite H.
  - by rewrite H0.
Qed.

Lemma append_assoc (a b c : string) : ((a ++ b) ++ c = a ++ (b ++ c))%string.
Proof. induction a as [|x a IH]; [done|]. exact (f_equal (String x) IH). Qed.

Lemma strip_prefix_app p s : strip_prefix p (p ++ s) = Some s.
Proof. induction p as [|a p IH]; simpl; [done|]. by rewrite Ascii.eqb_refl. Qed.

Lemma strip_prefix_some p s r : strip_prefix p s = Some r <-> s = (p ++ r)%string.
Proof.
  split; [|intros ->; apply strip_prefix_app].
  revert s. induction p as [|a p IH]; intros [|b s]; simpl; try naive_solver.
  destruct (Ascii.eqb a b) eqn:E; [|done]. apply Ascii.eqb_eq in E. subst.
  intros H. by rewrite (IH _ H).
Qed.

Section Decimal.
Lemma byte_of_digit d : 0 <= d < 10 -> byte_of (digit d) = 48 + d.
Proof.
  intros H. unfold byte_of, digit, byte_to.
  rewrite N_ascii_embedding; lia.
Qed.

Lemma is_ascii_digit_digit d : 0 <= d < 10 -> is_ascii_digit (48 + d) = true.
Proof. intros. unfold is_ascii_digit. lia. Qed.

Lemma parse_digits_digit acc d s :
  0 <= acc -> 0 <= d < 10 -> acc * 10 + d <= u64_max ->
  parse_digits acc (String (digit d) s) = parse_digits (acc * 10 + d) s.
Proof.
  intros. simpl. rewrite byte_of_digit, is_ascii_digit_digit by lia.
  rewrite (proj2 (Z.leb_le _ _)) by lia.
  unfold checked_add. replace (48 + d - 48) with d by lia.
  by rewrite (proj2 (Z.leb_le _ _)) by lia.
Qed.

(** Reading back the digits of [n] in front of a tail [s] continues on [s]
    from [n]. *)
Lemma parse_digits_decimal fuel : forall n s,
  0 <= n <= u64_max -> n < 10 ^ Z.of_nat fuel ->
  parse_digits 0 (decimal fuel n s) = parse_digits n s.
Proof.
  induction fuel as [|fuel IH]; intros n s Hn Hb; simpl decimal.
  - replace n with 0 by lia. done.
  - destruct (n <? 10) eqn:E.
    + apply parse_digits_digit; lia.
    + assert (0 <= n mod 10 < 10) by (apply Z.mod_pos_bound; lia).
      assert (Hd : n = n / 10 * 10 + n mod 10) by (pose proof (Z.div_mod n 10); lia).
      assert (n / 10 < 10 ^ Z.of_nat fuel).
      { apply Z.div_lt_upper_bound; [lia|].
        rewrite Nat2Z.inj_succ, Z.pow_succ_r in Hb; lia. }
      assert (0 <= n / 10) by (apply Z.div_pos; lia).
      rewrite IH by lia. rewrite parse_digits_digit by lia. f_equal. lia.
Qed.

Lemma decimal_head fuel : forall n s,
  0 <= n -> exists d r, 0 <= d < 10 /\ decimal (S fuel) n s = String (digit d) r.
Proof.
  induction fuel as [|fuel IH]; intros n s Hn; simpl.
  - destruct (n <? 10) eqn:E; [exists n, s|]; [split; [lia|done]|].
    exists (n mod 10), s. split; [apply Z.mod_pos_bound; lia|done].
  - destruct (n <? 10) eqn:E; [exists n, s; split; [lia|done]|].
    assert (0 <= n / 10) by (apply Z.div_pos; lia).
    destruct (IH (n / 10) (String (digit (n mod 10)) s)) as (d & r & ? & Hr); [done|].
    exists d, r. split; [done|]. exact Hr.
Qed.

Lemma parse_u64_to_string n : is_u64 n -> parse_u64 (u64_to_string n) = Some n.
Proof.
  intros Hn. unfold parse_u64, u64_to_string.
  destruct (decimal_head 19 n EmptyString) as (d & r & Hd & Hr); [apply Hn|].
  rewrite Hr, byte_of_digit by done.
  rewrite (proj2 (Z.eqb_neq (48 + d) 43)) by lia. rewrite <- Hr.
  rewrite parse_digits_decimal; [done|apply Hn|].
  pose proof u64_max_val. destruct Hn. change (10 ^ Z.of_nat 20) with 100000000000000000000. lia.
Qed.

Lemma decimal_no_control fuel : forall n s,
  0 <= n -> existsb is_control (decode 0 0 s) = false ->
  existsb is_control (decode 0 0 (decimal fuel n s)) = false.
Proof.
  assert (Hdig : forall d s, 0 <= d < 10 -> existsb is_control (decode 0 0 s) = false ->
    existsb is_control (decode 0 0 (String (digit d) s)) = false).
  { intros d s Hd Hs.
    change (String (digit d) s) with (String.append EmptyString (String (digit d) s)).
    rewrite decode_app_ascii by (rewrite byte_of_digit; lia).
    rewrite byte_of_digit by done. cbn [decode Nat.eqb existsb app]. rewrite Hs.
    unfold is_control. lia. }
  induction fuel as [|fuel IH]; intros n s Hn Hs; simpl decimal; [done|].
  assert (0 <= n mod 10 < 10) by (apply Z.mod_pos_bound; lia).
  case_match; [apply Hdig; [lia|done]|].
  apply IH; [apply Z.div_pos; lia|]. by apply Hdig.
Qed.

Lemma u64_to_string_clean n : 0 <= n -> has_control (u64_to_string n) = false.
Proof. intros. by apply decimal_no_control. Qed.
End Decimal.

(** ** Plain text

    What the crates demand of a name or a reference: something other than
    white space, and no control character. *)
Definition plain_text (t : string) : Prop := is_blank t = false /\ has_control t = false.

Lemma plain_text_check t : is_blank t || has_control t = false <-> plain_text t.
Proof. apply orb_false_iff. Qed.

Lemma text_ok_plain t : text_ok t = true <-> plain_text t.
Proof. unfold text_ok. by rewrite negb_true_iff, plain_text_check. Qed.

(** A SHA-256 digest in lower-case hexadecimal. *)
Definition hex_digest (t : string) : Prop :=
  len t = 64 /\ Forall (fun b => 48 <= b <= 57 \/ 97 <= b <= 102) (bytes t).

(** A byte test that accepts the lower-case hexadecimal digits decides
    [hex_digest]. *)
Lemma hex_digest_check (p : Z -> bool) t :
  (forall b, p b = true <-> 48 <= b <= 57 \/ 97 <= b <= 102) ->
  negb (len t =? 64) || negb (forallb p (bytes t)) = false <-> hex_digest t.
Proof.
  intros Hp. rewrite orb_false_iff, !negb_false_iff, Z.eqb_eq. unfold hex_digest.
  rewrite forallb_forall, Forall_forall. setoid_rewrite Hp. by setoid_rewrite list_elem_of_In.
Qed.

#[export] Hint Resolve parse_u64_to_string u64_to_string_clean strip_prefix_app : eliot.
