(* ===== verification/Contracts.v ===== *)
(** * Foundation contracts

    The identities every governed owner is fenced by: epochs with their
    lineage, the state fence and its key receipts, clock readings, text
    identifiers and counters
    (crates/foundation/eliot-contracts/src/lib.rs and epoch_identity.rs).

    Text newtypes ([SessionId], [TaskId], ...) and counter newtypes
    ([ResourceGeneration], [TaskRevision], ...) are the text and the number
    they wrap; [string_id_new] and [counter_new] are their constructors. *)

From Stdlib Require Import Ascii String.
From S2P Require Import Prelude RustText.

#[local] Open Scope string_scope.
#[local] Open Scope Z_scope.

(** ** Errors *)

Inductive ContractError : Type :=
| Blank (field : string)
| ControlCharacter (field : string)
| TooLong (field : string) (maximum_bytes : Z)
| Zero (field : string)
| InvalidInterval (field : string)
| EmptyFence
| IncompleteFenceKeyReceipt (key : string)
| MissingRequestId
| InvalidDigest (field : string)
| VersionOutOfRange.

#[global] Instance ContractError_eq_dec : EqDecision ContractError.
Proof. solve_decision. Defined.

Inductive EpochContractError : Type :=
| InvalidLineageId
| ZeroSequence
| SequenceOverflow
| InvalidGenesis
| ParentLineageMismatch
| NotDirectChild
| SerializationFailure.

#[global] Instance EpochContractError_eq_dec : EqDecision EpochContractError.
Proof. solve_decision. Defined.

(** ** Text identifiers and counters *)

Definition validate_text (value field : string) : result ContractError unit :=
  if is_blank value then Err (Blank field)
  else if has_control value then Err (ControlCharacter field)
  else Ok tt.

Definition string_id_new (label value : string) : result ContractError string :=
  check? validate_text value label; Ok value.

Abbreviation ProductId := string (only parsing).
Abbreviation SourceId := string (only parsing).
Abbreviation TaskId := string (only parsing).
Abbreviation SessionId := string (only parsing).
Abbreviation RequestId := string (only parsing).
Abbreviation OperationId := string (only parsing).
Abbreviation ReceiptId := string (only parsing).
Abbreviation ArtifactId := string (only parsing).
Abbreviation ContractId := string (only parsing).

Definition counter_new (label : string) (value : Z) : result ContractError Z :=
  if value =? 0 then Err (Zero label) else Ok value.

Definition counter_next (value : Z) : result ContractError Z :=
  match checked_add value 1 with
  | Some v => Ok v
  | None => Err VersionOutOfRange
  end.

Abbreviation ResourceGeneration := Z (only parsing).
Abbreviation TaskRevision := Z (only parsing).
Abbreviation PolicyRevision := Z (only parsing).
Abbreviation IntegrationRevision := Z (only parsing).
Abbreviation TransactionSequence := Z (only parsing).

Definition validate_digest (value field : string) : result ContractError unit :=
  if negb (len value =? 64) || negb (forallb is_lower_hex (bytes value))
  then Err (InvalidDigest field)
  else Ok tt.

(** ** Versioned digests *)

Inductive VersionedDigestError : Type :=
| WrongAlgorithm
| Malformed.

Definition parse_versioned_sha256_digest (text : string) : result VersionedDigestError string :=
  let? hex := ok_or (strip_prefix "sha256:" text) WrongAlgorithm in
  if negb (len hex =? 64) || negb (forallb is_lower_hex (bytes hex))
  then Err Malformed
  else Ok hex.

(** ** Epochs *)

Record EpochLineageId : Type := { lineage_text : string }.

#[global] Instance EpochLineageId_eq_dec : EqDecision EpochLineageId.
Proof. solve_decision. Defined.

Definition is_hyphen_index (i : nat) : bool := existsb (Nat.eqb i) [8; 13; 18; 23]%nat.

Definition is_lower_hex_digit (b : Z) : bool :=
  ((48 <=? b) && (b <=? 57)) || ((97 <=? b) && (b <=? 102)).

Definition lineage_id_new (value : string) : result EpochContractError EpochLineageId :=
  let bs := bytes value in
  if negb (len value =? 36)
     || negb (forallb (fun b => b <? 128) bs)
     || negb (forallb (fun i => bool_decide (bs !! i = Some 45)) [8; 13; 18; 23]%nat)
     || negb (forallb (fun ib => is_hyphen_index ib.1 || is_lower_hex_digit ib.2)
                (zip (seq 0 (length bs)) bs))
  then Err InvalidLineageId
  else Ok {| lineage_text := value |}.

(** [sequence] is a [NonZeroU64]. *)
Record EpochId : Type := {
  lineage_id : EpochLineageId;
  sequence : Z;
}.

#[global] Instance EpochId_eq_dec : EqDecision EpochId.
Proof. solve_decision. Defined.

Definition is_same_authority (self expected : EpochId) : bool :=
  (lineage_id self == lineage_id expected) && (sequence self =? sequence expected).

Definition is_direct_child_of (self parent : EpochId) : bool :=
  (lineage_id self == lineage_id parent)
  && (checked_add (sequence parent) 1 == Some (sequence self)).

Inductive EpochRelation : Type :=
| Same
| DirectChild
| DirectParent
| SameLineageOlder
| SameLineageNewer
| UnrelatedLineage.

#[global] Instance EpochRelation_eq_dec : EqDecision EpochRelation.
Proof. solve_decision. Defined.

Definition relation_to (self other : EpochId) : EpochRelation :=
  if lineage_id self != lineage_id other then UnrelatedLineage
  else if sequence self =? sequence other then Same
  else if checked_add (sequence self) 1 == Some (sequence other) then DirectChild
  else if checked_add (sequence other) 1 == Some (sequence self) then DirectParent
  else if sequence self <? sequence other then SameLineageOlder
  else SameLineageNewer.

Record EpochTransition : Type := {
  current : EpochId;
  parent : option EpochId;
}.

Definition genesis (lineage : EpochLineageId) : EpochTransition :=
  {| current := {| lineage_id := lineage; sequence := 1 |}; parent := None |}.

Definition direct_child (p : EpochId) : result EpochContractError EpochTransition :=
  let? s := ok_or (checked_add (sequence p) 1) SequenceOverflow in
  let? s := (if s =? 0 then Err ZeroSequence else Ok s) in
  Ok {| current := {| lineage_id := lineage_id p; sequence := s |}; parent := Some p |}.

Definition EpochTransition_validate (t : EpochTransition) : result EpochContractError unit :=
  match parent t with
  | None => if sequence (current t) =? 1 then Ok tt else Err InvalidGenesis
  | Some p =>
      if sequence (current t) =? 1 then
        if lineage_id p == lineage_id (current t) then Err InvalidGenesis
        else Err ParentLineageMismatch
      else if lineage_id p != lineage_id (current t) then Err ParentLineageMismatch
      else
        let? expected := ok_or (checked_add (sequence p) 1) SequenceOverflow in
        if sequence (current t) =? expected then Ok tt else Err NotDirectChild
  end.

Definition advances (t : EpochTransition) (prior : EpochId) : bool :=
  is_ok (EpochTransition_validate t) && (parent t == Some prior).

(** ** Clock readings *)

Record ClockReading : Type := {
  valid_time_ms : option Z;
  known_time_ms : option Z;
  transaction_sequence : option TransactionSequence;
  monotonic_ns : option Z;
}.

#[global] Instance ClockReading_eq_dec : EqDecision ClockReading.
Proof. solve_decision. Defined.

Definition ClockReading_default : ClockReading :=
  {| valid_time_ms := None; known_time_ms := None; transaction_sequence := None;
     monotonic_ns := None |}.

Definition ClockReading_validate (c : ClockReading) : result ContractError unit :=
  match valid_time_ms c, known_time_ms c with
  | Some valid, Some known =>
      if known <? valid then Err (InvalidInterval "clock_reading") else Ok tt
  | _, _ => Ok tt
  end.

(** ** State fences *)

Inductive FenceKey : Type :=
| FKScopeId
| FKResourceGenerations
| FKRevisionHeads
| FKAuthorityEpoch
| FKIntegrationRevision
| FKModuleGenerations
| FKVerifierGenerations
| FKCreatedAt.

#[global] Instance FenceKey_eq_dec : EqDecision FenceKey.
Proof. solve_decision. Defined.

Definition FenceKey_ALL : list FenceKey :=
  [FKScopeId; FKResourceGenerations; FKRevisionHeads; FKAuthorityEpoch;
   FKIntegrationRevision; FKModuleGenerations; FKVerifierGenerations; FKCreatedAt].

Definition FenceKey_as_str (k : FenceKey) : string :=
  match k with
  | FKScopeId => "scope_id"
  | FKResourceGenerations => "resource_generations"
  | FKRevisionHeads => "revision_heads"
  | FKAuthorityEpoch => "authority_epoch"
  | FKIntegrationRevision => "integration_revision"
  | FKModuleGenerations => "module_generations"
  | FKVerifierGenerations => "verifier_generations"
  | FKCreatedAt => "created_at"
  end.

Definition carried_by_state_fence (k : FenceKey) : bool :=
  match k with
  | FKAuthorityEpoch | FKIntegrationRevision => true
  | _ => false
  end.

Record FenceKeyOmission : Type := {
  omission_key : FenceKey;
  omission_owner : string;
  omission_reason : string;
}.

Definition I45_KEY_OMISSIONS : list FenceKeyOmission :=
  [
     {| omission_key := FKScopeId;
        omission_owner := "eliot-workscope ScopeIdentity / eliot-context-contracts ContextBinding";
        omission_reason := "WorkScope mints and revisions the scope identity, and each Context Compiler operation carries it on its own ContextBinding, which is compared by full binding equality at the point of use. I4.5 forbids one global scope counter, so a single fence-wide scope value would be exactly the prohibited counter." |};
     {| omission_key := FKResourceGenerations;
        omission_owner := "eliot-store-api RevisionHead within ScopeRevisionView";
        omission_reason := "This fence carries the one load-bearing resource_generation. The per-resource generation vector is the store's own aggregate, held as RevisionHead records that each carry their own state_fence and are compared head by head with the store's same-fence check. A vector here would duplicate the store's generation authority and force unrelated operations to carry generations they never read." |};
     {| omission_key := FKRevisionHeads;
        omission_owner := "eliot-store-api RevisionHeadExpectation via eliot-canonical CanonicalWriteEnvelope";
        omission_reason := "Exact dependency-key/revision pairs are the canonical store's compare-and-swap input and are resolved at the write envelope, which compares them against the observed heads. The fence's task_revision and policy_revision slots are a fixed, narrower set, not the open pair map I4.5 requires, so they are compared exactly by fences_match_exact instead of being reported as revision-head coverage." |};
     {| omission_key := FKModuleGenerations;
        omission_owner := "eliot-runtime-contracts ModuleGeneration within KernelAuthoritySnapshot";
        omission_reason := "There is one registered module generation per module and the aggregate is the Kernel authority projection, not one value. Each ModuleGeneration carries its own state_fence, so the module dependency is already fenced at its own owner instead of being flattened here." |};
     {| omission_key := FKVerifierGenerations;
        omission_owner := "eliot-receipts VerifierBinding";
        omission_reason := "Verification scope is recorded per verifier as verifier_id with verifier_revision and its own state_fence, and it is rehydrated as executed verifier runs at the point of use. No single verifier generation is load-bearing for an operation that runs no verifier, so making the field mandatory would be exactly the I4.5 prohibition on one global generation." |};
     {| omission_key := FKCreatedAt;
        omission_owner := "eliot_contracts ClockReading";
        omission_reason := "This crate keeps point-in-time values separate so an external timestamp cannot become causal order. A created_at inside the fence would put a host wall-clock reading into the canonical bytes that canonical_fence_digest hashes and fences_match_exact compares, letting a clock skew decide authority." |}].

Definition receipts_for (k : FenceKey) : nat :=
  length (List.filter (fun o => omission_key o == k) I45_KEY_OMISSIONS).

Definition validate_i45_key_receipts : result ContractError unit :=
  check? for_each (fun k =>
    let expected := if carried_by_state_fence k then 0%nat else 1%nat in
    if negb (receipts_for k =? expected)%nat
    then Err (IncompleteFenceKeyReceipt (FenceKey_as_str k))
    else Ok tt) FenceKey_ALL;
  for_each (fun o =>
    if is_blank (omission_owner o) then Err (Blank "state_fence.i45_key_omission.owner")
    else if is_blank (omission_reason o) then Err (Blank "state_fence.i45_key_omission.reason")
    else Ok tt) I45_KEY_OMISSIONS.

Record StateFence : Type := {
  authority_epoch : EpochId;
  resource_generation : ResourceGeneration;
  task_revision : option TaskRevision;
  policy_revision : option PolicyRevision;
  integration_revision : option IntegrationRevision;
}.

#[global] Instance StateFence_eq_dec : EqDecision StateFence.
Proof. solve_decision. Defined.

Definition StateFence_new (e : EpochId) (g : ResourceGeneration) : StateFence :=
  {| authority_epoch := e; resource_generation := g; task_revision := None;
     policy_revision := None; integration_revision := None |}.

(** [self.rev.is_none() || self.rev == other.rev] *)
Definition revision_admits (mine other : option Z) : bool :=
  match mine with
  | None => true
  | Some _ => mine == other
  end.

Definition is_compatible_with (self other : StateFence) : bool :=
  is_same_authority (authority_epoch self) (authority_epoch other)
  && (resource_generation self =? resource_generation other)
  && revision_admits (task_revision self) (task_revision other)
  && revision_admits (policy_revision self) (policy_revision other)
  && revision_admits (integration_revision self) (integration_revision other).

Definition StateFence_validate (f : StateFence) : result ContractError unit :=
  if resource_generation f =? 0 then Err EmptyFence
  else validate_i45_key_receipts.

Definition fences_match_exact (a b : StateFence) : bool :=
  is_compatible_with a b && is_compatible_with b a.

Definition validate_canonical_epoch (candidate p : EpochId) : result EpochContractError unit :=
  if is_direct_child_of candidate p then Ok tt
  else if lineage_id candidate != lineage_id p then Err ParentLineageMismatch
  else Err NotDirectChild.

(** ** Request metadata *)

Record RequestMetadata : Type := {
  meta_request_id : RequestId;
  meta_session_id : option SessionId;
  meta_task_id : option TaskId;
  meta_product_id : ProductId;
  meta_source_id : SourceId;
  meta_state_fence : StateFence;
  meta_clock : ClockReading;
}.

Definition RequestMetadata_validate (m : RequestMetadata) : result ContractError unit :=
  if is_blank (meta_request_id m) then Err MissingRequestId
  else check? StateFence_validate (meta_state_fence m); ClockReading_validate (meta_clock m).

(** ** Epoch lemmas *)

Section Epochs.
Lemma is_same_authority_eq e1 e2 : is_same_authority e1 e2 = true <-> e1 = e2.
Proof.
  unfold is_same_authority. rewrite andb_true_iff, bool_decide_eq_true, Z.eqb_eq.
  destruct e1, e2; naive_solver.
Qed.

Lemma is_same_authority_refl e : is_same_authority e e = true.
Proof. by apply is_same_authority_eq. Qed.

Lemma checked_succ_eqb a b :
  b <= u64_max -> bool_decide (checked_add a 1 = Some b) = (b =? a + 1).
Proof.
  intros Hb. apply eq_true_iff_eq. rewrite bool_decide_eq_true, checked_add_some, Z.eqb_eq. lia.
Qed.

Lemma is_direct_child_of_spec c p :
  is_direct_child_of c p = true <->
  lineage_id c = lineage_id p /\ sequence c = sequence p + 1 /\ sequence p < u64_max.
Proof.
  unfold is_direct_child_of. rewrite andb_true_iff, !bool_decide_eq_true, checked_add_some.
  split; intros; split_and?; destruct_and?; try congruence; lia.
Qed.

(** The relation seen from the other side. *)
Definition converse (r : EpochRelation) : EpochRelation :=
  match r with
  | Same => Same
  | DirectChild => DirectParent
  | DirectParent => DirectChild
  | SameLineageOlder => SameLineageNewer
  | SameLineageNewer => SameLineageOlder
  | UnrelatedLineage => UnrelatedLineage
  end.
End Epochs.

(** The epoch relation decides, for any two [u64] epochs, which of six
    situations holds, and is antisymmetric in the right sense: read from the
    other side it gives the converse. Direct-child means that the second epoch
    is the child of the first; older and newer describe the first epoch, and
    are used only when the epochs are at least two steps apart in one
    lineage. *)
Theorem relation_to_spec (a b : EpochId) (Ha : is_u64 (sequence a)) (Hb : is_u64 (sequence b)) :
  match relation_to a b with
  | UnrelatedLineage => lineage_id a <> lineage_id b
  | Same => a = b
  | DirectChild => is_direct_child_of b a = true
  | DirectParent => is_direct_child_of a b = true
  | SameLineageOlder => lineage_id a = lineage_id b /\ sequence a + 1 < sequence b
  | SameLineageNewer => lineage_id a = lineage_id b /\ sequence b + 1 < sequence a
  end /\ relation_to b a = converse (relation_to a b).
Proof.
  destruct a as [la sa], b as [lb sb], Ha as [Ha1 Ha2], Hb as [Hb1 Hb2].
  unfold relation_to, is_direct_child_of; simpl in *. rewrite !checked_succ_eqb by lia.
  destruct (decide (la = lb)) as [->|Hl]; [|by rewrite !bool_decide_false by congruence].
  rewrite !bool_decide_true by done. simpl.
  destruct (Z.eqb_spec sa sb), (Z.eqb_spec sb sa); try lia; [by subst|].
  destruct (Z.eqb_spec sb (sa + 1)), (Z.eqb_spec sa (sb + 1)); try lia; [done|done|].
  destruct (Z.ltb_spec sa sb), (Z.ltb_spec sb sa); try lia; by split_and!; try lia.
Qed.

Lemma relation_to_spec_witness :
  relation_to {| lineage_id := {| lineage_text := "550e8400-e29b-41d4-a716-446655440000" |};
                 sequence := 1 |}
              {| lineage_id := {| lineage_text := "550e8400-e29b-41d4-a716-446655440000" |};
                 sequence := 2 |} = DirectChild /\
  is_direct_child_of
    {| lineage_id := {| lineage_text := "550e8400-e29b-41d4-a716-446655440000" |}; sequence := 2 |}
    {| lineage_id := {| lineage_text := "550e8400-e29b-41d4-a716-446655440000" |}; sequence := 1 |}
  = true.
Proof.
  split; [vm_compute; reflexivity|].
  exact (proj1 (relation_to_spec
    {| lineage_id := {| lineage_text := "550e8400-e29b-41d4-a716-446655440000" |}; sequence := 1 |}
    {| lineage_id := {| lineage_text := "550e8400-e29b-41d4-a716-446655440000" |}; sequence := 2 |}
    ltac:(split; simpl; unfold u64_max; lia) ltac:(split; simpl; unfold u64_max; lia))).
Defined.

(** A transition record is valid and advances the prior epoch exactly
    when it names that epoch as its parent and its current epoch is the
    parent's direct child: one lineage, one step, no overflow. *)
Theorem advances_iff_direct_child (t : EpochTransition) (prior : EpochId)
    (Hpos : 1 <= sequence prior) :
  advances t prior = true <->
  parent t = Some prior /\ is_direct_child_of (current t) prior = true.
Proof.
  unfold advances. rewrite andb_true_iff, bool_decide_eq_true, is_direct_child_of_spec.
  destruct t as [c p]; simpl. unfold EpochTransition_validate; simpl.
  split.
  - intros [Hv ->]. run; bool_facts; try done.
    rewrite checked_add_some in *. split_and!; try done; lia.
  - intros (-> & Hl & Hs & Hm). rewrite (proj2 (Z.eqb_neq _ _)) by lia.
    rewrite Hl, bool_decide_true by done. simpl.
    unfold checked_add. rewrite (proj2 (Z.leb_le _ _)) by lia. simpl.
    by rewrite (proj2 (Z.eqb_eq _ _)).
Qed.

Lemma advances_iff_direct_child_witness :
  advances {| current := {| lineage_id := {| lineage_text := "l" |}; sequence := 4 |};
              parent := Some {| lineage_id := {| lineage_text := "l" |}; sequence := 3 |} |}
    {| lineage_id := {| lineage_text := "l" |}; sequence := 3 |} = true.
Proof.
  apply (advances_iff_direct_child
    {| current := {| lineage_id := {| lineage_text := "l" |}; sequence := 4 |};
       parent := Some {| lineage_id := {| lineage_text := "l" |}; sequence := 3 |} |}
    {| lineage_id := {| lineage_text := "l" |}; sequence := 3 |} ltac:(simpl; lia)).
  split; vm_compute; reflexivity.
Defined.

Lemma direct_child_advances p t :
  0 <= sequence p -> direct_child p = Ok t -> is_direct_child_of (current t) p = true.
Proof.
  intros Hp H. unfold direct_child in H. run.
  apply is_direct_child_of_spec. simpl. rewrite checked_add_some in *. split_and!; [done|lia|lia].
Qed.

(** ** Fence lemmas *)

Lemma validate_i45_key_receipts_ok : validate_i45_key_receipts = Ok tt.
Proof. vm_compute. reflexivity. Qed.

Lemma StateFence_validate_ok f : StateFence_validate f = Ok tt <-> resource_generation f <> 0.
Proof.
  unfold StateFence_validate. rewrite validate_i45_key_receipts_ok.
  destruct (Z.eqb_spec (resource_generation f) 0); naive_solver.
Qed.

Lemma StateFence_validate_is_ok f :
  is_ok (StateFence_validate f) = negb (resource_generation f =? 0).
Proof.
  unfold StateFence_validate. rewrite validate_i45_key_receipts_ok. by case_match.
Qed.

Lemma revision_admits_spec a b : revision_admits a b = true <-> a = None \/ a = b.
Proof. destruct a; simpl; rewrite ?bool_decide_eq_true; naive_solver. Qed.

Lemma is_compatible_with_spec a b :
  is_compatible_with a b = true <->
  authority_epoch a = authority_epoch b /\ resource_generation a = resource_generation b /\
  (task_revision a = None \/ task_revision a = task_revision b) /\
  (policy_revision a = None \/ policy_revision a = policy_revision b) /\
  (integration_revision a = None \/ integration_revision a = integration_revision b).
Proof.
  unfold is_compatible_with.
  rewrite !andb_true_iff, is_same_authority_eq, Z.eqb_eq, !revision_admits_spec. tauto.
Qed.

(** Compatibility is a partial order: a fence with fewer pinned revisions
    admits the fences that refine it. *)
#[export] Instance is_compatible_with_po :
  PartialOrder (fun a b => is_compatible_with a b = true).
Proof.
  split; [split|].
  - intros a. apply is_compatible_with_spec. naive_solver.
  - intros a b c. rewrite !is_compatible_with_spec. naive_solver congruence.
  - intros a b. rewrite !is_compatible_with_spec. destruct a, b; simpl. naive_solver congruence.
Qed.

(** Exact fence matching is equality: two fences match exactly, each
    being compatible with the other, only when all five of their fields
    agree. *)
Theorem fences_match_exact_iff_eq (a b : StateFence) : fences_match_exact a b = true <-> a = b.
Proof.
  unfold fences_match_exact. rewrite andb_true_iff. split.
  - intros [H1 H2]. exact (anti_symm (fun x y => is_compatible_with x y = true) a b H1 H2).
  - intros ->. split; apply (reflexivity (R := fun x y => is_compatible_with x y = true)).
Qed.

#[export] Hint Resolve is_same_authority_refl : eliot.
