(* ===== verification/CausalLog.v ===== *)
(** * The causal-log interface

    The session owner and the task owner of the Governor are event-sourced:
    each accepted command appends exactly one event stamped with the owner's
    next sequence number, and the answer given to a request is remembered
    under its request id. This file states that contract as a type class and
    proves, from the contract alone, what a reader of the log may rely on;
    the owners discharge the class in their own files. *)

From S2P Require Import Prelude.

(** [owner_step] relates the states before and after one call of any
    operation of the owner, accepted or refused. *)
Class CausalOwner (S E R : Type) : Type := {
  owner_log : S -> list E;
  event_sequence : E -> Z;
  owner_next : S -> Z;
  owner_requests : S -> gmap string R;
  owner_step : S -> S -> Prop;
}.

(** What one operation may do to the log: nothing, or append one event that
    carries the next sequence number; a remembered request is never
    forgotten or rewritten. *)
Class CausalOwnerLaws (S E R : Type) `{CausalOwner S E R} : Prop := {
  step_appends : forall s s' : S, owner_step s s' ->
    (owner_log s' = owner_log s /\ owner_next s' = owner_next s) \/
    (exists e, owner_log s' = owner_log s ++ [e] /\ event_sequence e = owner_next s /\
               owner_next s' = wrap_u64 (owner_next s + 1));
  step_remembers : forall s s' : S, owner_step s s' -> owner_requests s ⊆ owner_requests s';
}.

Section CausalTheory.
Context {S E R : Type} `{CausalOwnerLaws S E R}.

(** The next sequence number counts the log, and the event at position [i]
    carries the number [i + 1]. *)
Definition causal_wf (s : S) : Prop :=
  owner_next s = wrap_u64 (Z.of_nat (length (owner_log s)) + 1) /\
  forall i e, owner_log s !! i = Some e -> event_sequence e = wrap_u64 (Z.of_nat i + 1).

Lemma causal_wf_step s s' : owner_step s s' -> causal_wf s -> causal_wf s'.
Proof.
  intros Hstep [Hn Hlog]. destruct (step_appends s s' Hstep) as [[Hl Hn']|(e & Hl & He & Hn')].
  - unfold causal_wf. by rewrite Hl, Hn'.
  - unfold causal_wf. rewrite Hl, Hn', Hn, length_app, wrap_u64_succ. simpl. split.
    + f_equal. lia.
    + intros i x Hi. apply lookup_app_Some in Hi as [Hi|[Hge Hi]]; [by apply Hlog|].
      apply list_lookup_singleton_Some in Hi as [Hi <-].
      rewrite He, Hn. f_equal. lia.
Qed.

Lemma causal_wf_steps s s' : rtc owner_step s s' -> causal_wf s -> causal_wf s'.
Proof. induction 1; eauto using causal_wf_step. Qed.

(** Read as plain integers while the log fits the counter. *)
Lemma causal_wf_counts s :
  causal_wf s -> (Z.of_nat (length (owner_log s)) < u64_max)%Z ->
  owner_next s = (Z.of_nat (length (owner_log s)) + 1)%Z /\
  forall i e, owner_log s !! i = Some e -> event_sequence e = (Z.of_nat i + 1)%Z.
Proof.
  intros [Hn Hl] Hlen. split.
  - rewrite Hn. apply wrap_u64_small. split; lia.
  - intros i e He. rewrite (Hl _ _ He). apply wrap_u64_small.
    apply lookup_lt_Some in He. split; lia.
Qed.

(** The log is append-only. *)
Lemma log_append_only s s' : rtc owner_step s s' -> owner_log s `prefix_of` owner_log s'.
Proof.
  induction 1 as [|s1 s2 s3 Hstep _ IH]; [done|]. etrans; [|exact IH].
  destruct (step_appends _ _ Hstep) as [[-> _]|(e & -> & _)]; [done|by eexists].
Qed.

(** Remembered answers stay remembered. *)
Lemma requests_monotone s s' :
  rtc owner_step s s' -> owner_requests s ⊆ owner_requests s'.
Proof. induction 1; [done|]. etrans; [|done]. by apply step_remembers. Qed.

Lemma request_remembered s s' k r :
  rtc owner_step s s' -> owner_requests s !! k = Some r -> owner_requests s' !! k = Some r.
Proof. intros Hs Hk. eapply lookup_weaken; [done|by apply requests_monotone]. Qed.

(** As long as the log is shorter than the [u64] range, sequence numbers
    are positions and therefore never repeat. *)
Lemma sequence_unique s i j e1 e2 :
  causal_wf s -> Z.of_nat (length (owner_log s)) <= u64_max ->
  owner_log s !! i = Some e1 -> owner_log s !! j = Some e2 ->
  event_sequence e1 = event_sequence e2 -> i = j.
Proof.
  intros [_ Hlog] Hlen Hi Hj He. rewrite (Hlog _ _ Hi), (Hlog _ _ Hj) in He.
  apply lookup_lt_Some in Hi, Hj. rewrite !wrap_u64_small in He; [lia|split; lia|split; lia].
Qed.
End CausalTheory.

(** The ordering test both owners run over a recovered log. *)
Lemma numbered_from_one {E} (sequence_of : E -> Z) (events : list E) :
  existsb (fun ie => negb (sequence_of ie.2 =? wrap_u64 (Z.of_nat ie.1 + 1))%Z)
    (zip (seq 0 (length events)) events) = false <->
  forall i e, events !! i = Some e -> sequence_of e = wrap_u64 (Z.of_nat i + 1).
Proof.
  rewrite existsb_false_iff, Forall_lookup. split.
  - intros H i e He. specialize (H i (i, e)). rewrite lookup_zip_with_Some in H. simpl in H.
    rewrite negb_false_iff, Z.eqb_eq in H. apply H. do 2 eexists. split_and!; [done| |done].
    apply lookup_seq. split; [done|]. by apply lookup_lt_Some in He.
  - intros H i [j e]. rewrite lookup_zip_with_Some. intros (x & y & [= -> ->] & Hj & He).
    apply lookup_seq in Hj as [-> _]. simpl. by rewrite (H _ _ He), Z.eqb_refl.
Qed.

#[export] Hint Resolve causal_wf_step causal_wf_steps log_append_only requests_monotone : eliot.
