(* ===== verification/EpochClients.v ===== *)
(** * Readers of the epoch relation

    Two Governor components that decide on [relation_to]: the staleness test
    of peer communication
    (crates/governor/eliot-coordination/src/peer_communication.rs) and the
    currency test of recorded revocation closures
    (crates/governor/eliot-authority/src/revocation_history.rs). *)

From S2P Require Import Prelude RustText Contracts.

#[local] Open Scope Z_scope.

Definition peer_epoch_is_stale (requested known : EpochId) : bool :=
  match relation_to requested known with
  | Same | DirectParent | SameLineageOlder => false
  | DirectChild | SameLineageNewer | UnrelatedLineage => true
  end.

Definition recorded_commit_epoch_is_current (recorded live : StateFence) : bool :=
  match relation_to (authority_epoch live) (authority_epoch recorded) with
  | Same | DirectChild | SameLineageNewer => true
  | DirectParent | SameLineageOlder | UnrelatedLineage => false
  end.

(** [relation_to] read as arithmetic. *)
Lemma relation_to_arith a b :
  is_u64 (sequence a) -> is_u64 (sequence b) -> lineage_id a = lineage_id b ->
  relation_to a b =
    if sequence a =? sequence b then Same
    else if sequence b =? sequence a + 1 then DirectChild
    else if sequence a =? sequence b + 1 then DirectParent
    else if sequence a <? sequence b then SameLineageOlder else SameLineageNewer.
Proof.
  unfold is_u64, relation_to. intros Ha Hb Hl.
  by rewrite !checked_succ_eqb, bool_decide_true by (done || lia).
Qed.

Lemma relation_to_unrelated a b : lineage_id a <> lineage_id b -> relation_to a b = UnrelatedLineage.
Proof. intros H. unfold relation_to. by rewrite bool_decide_false. Qed.

Ltac epoch_arith :=
  repeat match goal with
  | |- context [?x =? ?y] => destruct (Z.eqb_spec x y)
  | |- context [?x <? ?y] => destruct (Z.ltb_spec x y)
  end; split; intros; first [done | lia | split; [done|lia]].

(** The peer staleness test, exactly: a request is called stale when its
    lineage is foreign, when it is one epoch behind the known session, or when
    it is two or more epochs ahead of it; a request two or more epochs behind
    is not called stale. *)
Theorem peer_staleness_exact (requested known : EpochId)
    (Hr : is_u64 (sequence requested)) (Hk : is_u64 (sequence known)) :
  peer_epoch_is_stale requested known = true <->
  lineage_id requested <> lineage_id known \/
  (lineage_id requested = lineage_id known /\
   (sequence known = sequence requested + 1 \/ sequence known + 1 < sequence requested)).
Proof.
  unfold peer_epoch_is_stale.
  destruct (decide (lineage_id requested = lineage_id known)) as [Hl|Hl].
  - rewrite relation_to_arith by done.
    transitivity (lineage_id requested = lineage_id known /\
      (sequence known = sequence requested + 1 \/ sequence known + 1 < sequence requested));
      [|naive_solver].
    epoch_arith.
  - rewrite relation_to_unrelated by done. naive_solver.
Qed.

Lemma peer_staleness_exact_witness :
  exists requested known, sequence requested + 4 = sequence known /\
    lineage_id requested = lineage_id known /\ peer_epoch_is_stale requested known = false.
Proof.
  set (l := {| lineage_text := "550e8400-e29b-41d4-a716-446655440000" |}).
  set (e3 := {| lineage_id := l; sequence := 3 |}). set (e7 := {| lineage_id := l; sequence := 7 |}).
  exists e3, e7. split; [reflexivity|]. split; [reflexivity|].
  pose proof (peer_staleness_exact e3 e7 ltac:(split; simpl; unfold u64_max; lia)
    ltac:(split; simpl; unfold u64_max; lia)) as [H _].
  destruct (peer_epoch_is_stale e3 e7); [|reflexivity].
  destruct (H eq_refl) as [Hl|[_ Hs]]; [contradiction (Hl eq_refl)|simpl in Hs; lia].
Defined.

(** The currency test of recorded closures, exactly: a record of the
    live lineage is current when it is at the live epoch, two or more epochs
    old, or one epoch in the future. A record that is exactly one epoch old,
    which a legitimate restore would present, is refused. *)
Theorem recorded_commit_currency_exact (recorded live : StateFence)
    (Hr : is_u64 (sequence (authority_epoch recorded)))
    (Hl : is_u64 (sequence (authority_epoch live))) :
  let r := sequence (authority_epoch recorded) in
  let l := sequence (authority_epoch live) in
  recorded_commit_epoch_is_current recorded live = true <->
  lineage_id (authority_epoch live) = lineage_id (authority_epoch recorded) /\
  (r = l \/ r + 1 < l \/ r = l + 1).
Proof.
  cbv zeta. unfold recorded_commit_epoch_is_current.
  destruct (decide (lineage_id (authority_epoch live) = lineage_id (authority_epoch recorded)))
    as [He|He].
  - rewrite relation_to_arith by done. epoch_arith.
  - rewrite relation_to_unrelated by done. naive_solver.
Qed.

Lemma recorded_commit_currency_exact_witness :
  exists recorded live, sequence (authority_epoch recorded) + 1 = sequence (authority_epoch live) /\
    recorded_commit_epoch_is_current recorded live = false.
Proof.
  set (l := {| lineage_text := "550e8400-e29b-41d4-a716-446655440000" |}).
  set (f3 := StateFence_new {| lineage_id := l; sequence := 3 |} 1).
  set (f4 := StateFence_new {| lineage_id := l; sequence := 4 |} 1).
  exists f3, f4. split; [reflexivity|].
  pose proof (recorded_commit_currency_exact f3 f4 ltac:(split; simpl; unfold u64_max; lia)
    ltac:(split; simpl; unfold u64_max; lia)) as [H _].
  destruct (recorded_commit_epoch_is_current f3 f4); [|reflexivity].
  destruct (H eq_refl) as [_ Hs]. simpl in Hs. lia.
Defined.
