(* ===== verification/RuntimeErrors.v ===== *)
(** * Errors of the runtime contracts

    [RuntimeContractError] of
    crates/foundation/eliot-runtime-contracts/src/lib.rs and the text that it
    and the foundation's [ContractError] are displayed as. *)

From Stdlib Require Import String.
From S2P Require Import Prelude RustText Contracts.

#[local] Open Scope string_scope.
#[local] Open Scope Z_scope.

Inductive RuntimeContractError : Type :=
| RFoundation (e : ContractError)
| RBlank (field : string)
| RIllegalTransition (machine from to : string)
| RInvalidField (field reason : string)
| RInvalidReceipt (receipt state : string)
| RUnresolvedRequiredCapability (consumer capability : string)
| RAmbiguousRequiredCapability (consumer capability providers : string)
| RSelfCapabilityDependency (module capability : string)
| RRequiredCapabilityCycle (path : string)
| RCapabilityRoleConflict (module capability : string)
| RMalformedModuleManifest (reason : string)
| RUnsupportedManifestSchemaVersion (found supported : Z)
| RManifestArtifactMismatch (declared accepted : string)
| RPublishedProjectionMismatch (module admitted published : string)
| RHotArtifactLoaderMissing (module field : string)
| RDuplicateHotArtifact (identity : string).

#[global] Instance RuntimeContractError_eq_dec : EqDecision RuntimeContractError.
Proof. solve_decision. Defined.

(** The [Display] of the error types ([thiserror]). *)
Definition contract_error_text (e : ContractError) : string :=
  match e with
  | Blank field => field +:+ " must be non-blank"
  | ControlCharacter field => field +:+ " contains a control character"
  | TooLong field maximum_bytes =>
      field +:+ " exceeds the maximum UTF-8 byte length of " +:+ u64_to_string maximum_bytes
  | Zero field => field +:+ " must be greater than zero"
  | InvalidInterval field => field +:+ " has an invalid interval"
  | EmptyFence => "state fence must contain at least one dependency"
  | IncompleteFenceKeyReceipt key =>
      "state fence key " +:+ key +:+ " has no single named owner receipt"
  | MissingRequestId => "request metadata must contain a request id"
  | InvalidDigest field => field +:+ " must be a lowercase SHA-256 hex digest"
  | VersionOutOfRange => "contract version component is out of range"
  end.

Definition runtime_error_text (e : RuntimeContractError) : string :=
  match e with
  | RFoundation e => "foundation contract: " +:+ contract_error_text e
  | RBlank field => field +:+ " must be non-blank"
  | RIllegalTransition machine from to =>
      machine +:+ " cannot transition from " +:+ from +:+ " to " +:+ to
  | RInvalidField field reason => field +:+ " is invalid: " +:+ reason
  | RInvalidReceipt receipt state => receipt +:+ " is not valid for state " +:+ state
  | RUnresolvedRequiredCapability consumer capability =>
      "module '" +:+ consumer +:+ "' requires capability '" +:+ capability
      +:+ "' with no resolved provider"
  | RAmbiguousRequiredCapability consumer capability providers =>
      "module '" +:+ consumer +:+ "' requires capability '" +:+ capability
      +:+ "' provided by multiple modules: " +:+ providers
  | RSelfCapabilityDependency module capability =>
      "module '" +:+ module +:+ "' requires capability '" +:+ capability
      +:+ "' it provides itself"
  | RRequiredCapabilityCycle path => "required capability dependency cycle: " +:+ path
  | RCapabilityRoleConflict module capability =>
      "module '" +:+ module +:+ "' declares capability '" +:+ capability
      +:+ "' with conflicting roles"
  | RMalformedModuleManifest reason =>
      "module manifest is not a protected manifest document: " +:+ reason
  | RUnsupportedManifestSchemaVersion found supported =>
      "module manifest schema version " +:+ u64_to_string found
      +:+ " is not the admitted version " +:+ u64_to_string supported
  | RManifestArtifactMismatch declared accepted =>
      "module manifest declares artifact '" +:+ declared
      +:+ "' but the accepted build identity is '" +:+ accepted +:+ "'"
  | RPublishedProjectionMismatch module admitted published =>
      "module '" +:+ module +:+ "' publishes contract digest '" +:+ published
      +:+ "' but the admitted manifest bytes carry '" +:+ admitted +:+ "'"
  | RHotArtifactLoaderMissing module field =>
      "hot artifact '" +:+ module +:+ "' names no " +:+ field
  | RDuplicateHotArtifact identity =>
      "hot artifact map claims '" +:+ identity +:+ "' more than once"
  end.
