(* ===== verification/CapacityContracts.v ===== *)
(** * The control-reserve capacity contract

    The closed capacity vocabulary of
    crates/foundation/eliot-runtime-contracts/src/control_reserve.rs: the
    operation classes and the one partition each may draw from, the frozen
    owner map, the rows and profiles of declared capacity with their
    validation, and the requests, permit bindings and release records that a
    capacity owner exchanges with its callers. *)

From Stdlib Require Import String.
From S2P Require Import Prelude RustText Contracts RuntimeErrors.

#[local] Open Scope string_scope.
#[local] Open Scope list_scope.
#[local] Open Scope Z_scope.

Abbreviation RCR := (result RuntimeContractError).

(** ** Classes and units *)

Inductive CapacityClass : Type :=
| NormalWorkload
| ProtectedControl
| EmergencyLastResort.

#[global] Instance CapacityClass_eq_dec : EqDecision CapacityClass.
Proof. solve_decision. Defined.

Definition class_str (c : CapacityClass) : string :=
  match c with
  | NormalWorkload => "NORMAL_WORKLOAD"
  | ProtectedControl => "PROTECTED_CONTROL"
  | EmergencyLastResort => "EMERGENCY_LAST_RESORT"
  end.

Inductive NormalWorkClass : Type :=
| Interactive
| Verification
| CanonicalWrite
| NormalBackground
| ModelJob
| Swarm
| Reporting
| Maintenance.

#[global] Instance NormalWorkClass_eq_dec : EqDecision NormalWorkClass.
Proof. solve_decision. Defined.

Definition normal_work_str (w : NormalWorkClass) : string :=
  match w with
  | Interactive => "INTERACTIVE"
  | Verification => "VERIFICATION"
  | CanonicalWrite => "CANONICAL_WRITE"
  | NormalBackground => "NORMAL_BACKGROUND"
  | ModelJob => "MODEL_JOB"
  | Swarm => "SWARM"
  | Reporting => "REPORTING"
  | Maintenance => "MAINTENANCE"
  end.

Inductive ControlOperationClass : Type :=
| CancelOperation
| FenceStaleOwner
| RevokeAuthority
| HealthReadinessControl
| CriticalTelemetry
| CriticalAttentionTransition
| ProblemTransition
| IncidentTransition
| PersistentNotificationTransition
| SafeShutdown
| Drain
| Recovery
| Containment
| UnknownOutcomeReconciliation.

#[global] Instance ControlOperationClass_eq_dec : EqDecision ControlOperationClass.
Proof. solve_decision. Defined.

Definition control_operation_str (o : ControlOperationClass) : string :=
  match o with
  | CancelOperation => "CANCEL_OPERATION"
  | FenceStaleOwner => "FENCE_STALE_OWNER"
  | RevokeAuthority => "REVOKE_AUTHORITY"
  | HealthReadinessControl => "HEALTH_READINESS_CONTROL"
  | CriticalTelemetry => "CRITICAL_TELEMETRY"
  | CriticalAttentionTransition => "CRITICAL_ATTENTION_TRANSITION"
  | ProblemTransition => "PROBLEM_TRANSITION"
  | IncidentTransition => "INCIDENT_TRANSITION"
  | PersistentNotificationTransition => "PERSISTENT_NOTIFICATION_TRANSITION"
  | SafeShutdown => "SAFE_SHUTDOWN"
  | Drain => "DRAIN"
  | Recovery => "RECOVERY"
  | Containment => "CONTAINMENT"
  | UnknownOutcomeReconciliation => "UNKNOWN_OUTCOME_RECONCILIATION"
  end.

Inductive EmergencyOperationClass : Type :=
| ReserveExhaustionGapRecord
| ControlGuaranteeLostRecord
| EnterManualRecovery.

#[global] Instance EmergencyOperationClass_eq_dec : EqDecision EmergencyOperationClass.
Proof. solve_decision. Defined.

Definition emergency_operation_str (o : EmergencyOperationClass) : string :=
  match o with
  | ReserveExhaustionGapRecord => "RESERVE_EXHAUSTION_GAP_RECORD"
  | ControlGuaranteeLostRecord => "CONTROL_GUARANTEE_LOST_RECORD"
  | EnterManualRecovery => "ENTER_MANUAL_RECOVERY"
  end.

Inductive CapacityUnit : Type :=
| Items
| Bytes
| ConcurrentOperations
| RunnableSlots
| Connections
| Transactions
| ProcessSlots
| CpuTaskSlots
| MemoryBytes
| Handles
| DiskQueueSlots.

#[global] Instance CapacityUnit_eq_dec : EqDecision CapacityUnit.
Proof. solve_decision. Defined.

Inductive CapacityBottleneck : Type :=
| KernelControlChannel
| KernelRunnableControlSlots
| OrsTransactionSlots
| OrsDurableQueueBytes
| StoreConnectionSlots
| StoreTransactionSlots
| StorePendingWriteMemory
| ProcessLaunchSlots
| ProcessCancellationTermination
| NotificationPersistentInbox
| CpuControlTaskSlots
| ProtectedMemoryBytes
| PipeMessageBytes
| FileDescriptorHandleSlots
| DiskQueueWriteCapacity.

#[global] Instance CapacityBottleneck_eq_dec : EqDecision CapacityBottleneck.
Proof. solve_decision. Defined.

Definition bottleneck_str (b : CapacityBottleneck) : string :=
  match b with
  | KernelControlChannel => "KERNEL_CONTROL_CHANNEL"
  | KernelRunnableControlSlots => "KERNEL_RUNNABLE_CONTROL_SLOTS"
  | OrsTransactionSlots => "ORS_TRANSACTION_SLOTS"
  | OrsDurableQueueBytes => "ORS_DURABLE_QUEUE_BYTES"
  | StoreConnectionSlots => "STORE_CONNECTION_SLOTS"
  | StoreTransactionSlots => "STORE_TRANSACTION_SLOTS"
  | StorePendingWriteMemory => "STORE_PENDING_WRITE_MEMORY"
  | ProcessLaunchSlots => "PROCESS_LAUNCH_SLOTS"
  | ProcessCancellationTermination => "PROCESS_CANCELLATION_TERMINATION"
  | NotificationPersistentInbox => "NOTIFICATION_PERSISTENT_INBOX"
  | CpuControlTaskSlots => "CPU_CONTROL_TASK_SLOTS"
  | ProtectedMemoryBytes => "PROTECTED_MEMORY_BYTES"
  | PipeMessageBytes => "PIPE_MESSAGE_BYTES"
  | FileDescriptorHandleSlots => "FILE_DESCRIPTOR_HANDLE_SLOTS"
  | DiskQueueWriteCapacity => "DISK_QUEUE_WRITE_CAPACITY"
  end.

(** The derived [Debug] of a bottleneck. *)
Definition bottleneck_debug (b : CapacityBottleneck) : string :=
  match b with
  | KernelControlChannel => "KernelControlChannel"
  | KernelRunnableControlSlots => "KernelRunnableControlSlots"
  | OrsTransactionSlots => "OrsTransactionSlots"
  | OrsDurableQueueBytes => "OrsDurableQueueBytes"
  | StoreConnectionSlots => "StoreConnectionSlots"
  | StoreTransactionSlots => "StoreTransactionSlots"
  | StorePendingWriteMemory => "StorePendingWriteMemory"
  | ProcessLaunchSlots => "ProcessLaunchSlots"
  | ProcessCancellationTermination => "ProcessCancellationTermination"
  | NotificationPersistentInbox => "NotificationPersistentInbox"
  | CpuControlTaskSlots => "CpuControlTaskSlots"
  | ProtectedMemoryBytes => "ProtectedMemoryBytes"
  | PipeMessageBytes => "PipeMessageBytes"
  | FileDescriptorHandleSlots => "FileDescriptorHandleSlots"
  | DiskQueueWriteCapacity => "DiskQueueWriteCapacity"
  end.

Definition bottleneck_unit (b : CapacityBottleneck) : CapacityUnit :=
  match b with
  | KernelControlChannel | NotificationPersistentInbox => Items
  | KernelRunnableControlSlots => RunnableSlots
  | OrsTransactionSlots | StoreTransactionSlots => Transactions
  | OrsDurableQueueBytes | PipeMessageBytes => Bytes
  | StoreConnectionSlots => Connections
  | StorePendingWriteMemory | ProtectedMemoryBytes => MemoryBytes
  | ProcessLaunchSlots => ProcessSlots
  | ProcessCancellationTermination => ConcurrentOperations
  | CpuControlTaskSlots => CpuTaskSlots
  | FileDescriptorHandleSlots => Handles
  | DiskQueueWriteCapacity => DiskQueueSlots
  end.

Inductive CapacityEnforcement : Type :=
| PhysicalPartition
| ConfigurationPartition
| PlatformPreallocation.

#[global] Instance CapacityEnforcement_eq_dec : EqDecision CapacityEnforcement.
Proof. solve_decision. Defined.

Inductive BottleneckCoverageState : Type :=
| CoverageClaimed
| CoverageUnsupported
| CoverageUnknown.

#[global] Instance BottleneckCoverageState_eq_dec : EqDecision BottleneckCoverageState.
Proof. solve_decision. Defined.

Definition coverage_str (c : BottleneckCoverageState) : string :=
  match c with
  | CoverageClaimed => "CLAIMED"
  | CoverageUnsupported => "UNSUPPORTED"
  | CoverageUnknown => "UNKNOWN"
  end.

(** [quantity] is a [NonZeroU64]. *)
Record CapacityLimit : Type := {
  cl_unit : CapacityUnit;
  cl_quantity : Z;
}.

#[global] Instance CapacityLimit_eq_dec : EqDecision CapacityLimit.
Proof. solve_decision. Defined.

(** [NonZeroU64::new] *)
Definition non_zero (quantity : Z) : option Z :=
  if quantity =? 0 then None else Some quantity.

(** ** The frozen owner map *)

Record BottleneckOwnerBinding : Type := {
  ob_bottleneck : CapacityBottleneck;
  ob_unit : CapacityUnit;
  ob_owner : string;
}.

Definition frozen_bottleneck_owner_map : list BottleneckOwnerBinding :=
  [ {| ob_bottleneck := KernelControlChannel; ob_unit := Items;
       ob_owner := "Kernel front-door/control-channel owner" |};
    {| ob_bottleneck := KernelRunnableControlSlots; ob_unit := RunnableSlots;
       ob_owner := "Kernel runtime/control scheduler owner" |};
    {| ob_bottleneck := OrsTransactionSlots; ob_unit := Transactions;
       ob_owner := "Kernel ORS owner" |};
    {| ob_bottleneck := OrsDurableQueueBytes; ob_unit := Bytes;
       ob_owner := "Kernel ORS owner" |};
    {| ob_bottleneck := StoreConnectionSlots; ob_unit := Connections;
       ob_owner := "Store bridge generation" |};
    {| ob_bottleneck := StoreTransactionSlots; ob_unit := Transactions;
       ob_owner := "Store bridge generation" |};
    {| ob_bottleneck := StorePendingWriteMemory; ob_unit := MemoryBytes;
       ob_owner := "Store bridge generation" |};
    {| ob_bottleneck := ProcessLaunchSlots; ob_unit := ProcessSlots;
       ob_owner := "Host/Kernel process-tree owner" |};
    {| ob_bottleneck := ProcessCancellationTermination; ob_unit := ConcurrentOperations;
       ob_owner := "Host/Kernel process-tree owner" |};
    {| ob_bottleneck := NotificationPersistentInbox; ob_unit := Items;
       ob_owner := "Governor notification/inbox owner with protected delivery path" |};
    {| ob_bottleneck := CpuControlTaskSlots; ob_unit := CpuTaskSlots;
       ob_owner := "Kernel runtime/control scheduler owner" |};
    {| ob_bottleneck := ProtectedMemoryBytes; ob_unit := MemoryBytes;
       ob_owner := "Kernel/runtime memory-budget owner" |};
    {| ob_bottleneck := PipeMessageBytes; ob_unit := Bytes;
       ob_owner := "IPC/control-channel owner" |};
    {| ob_bottleneck := FileDescriptorHandleSlots; ob_unit := Handles;
       ob_owner := "platform/process/IPC owner" |};
    {| ob_bottleneck := DiskQueueWriteCapacity; ob_unit := DiskQueueSlots;
       ob_owner := "Host/ORS/store/spool owner for the declared path" |} ].

(** ** Canonical reference sets *)

Definition refs_invalid (field reason : string) : RuntimeContractError := RInvalidField field reason.

(** [references.windows(2).all(|pair| pair[0] < pair[1])] *)
Fixpoint strictly_ascending (l : list string) : bool :=
  match l with
  | x :: ((y :: _) as l') => String.ltb x y && strictly_ascending l'
  | _ => true
  end.

Definition validate_canonical_refs (field : string) (references : list string) : RCR unit :=
  if strictly_ascending references then Ok tt
  else Err (refs_invalid field
              "NONCANONICAL_PROFILE: set-like fields are canonical and duplicate-free").

(** ** Capacity rows *)

Record BottleneckCapacityProfile : Type := {
  bp_bottleneck : CapacityBottleneck;
  bp_coverage_state : BottleneckCoverageState;
  bp_owner_ref : string;
  bp_owner_generation_ref : string;
  bp_unit : CapacityUnit;
  bp_physical_total_limit : option CapacityLimit;
  bp_normal_work_applicable : bool;
  bp_normal_limit : option CapacityLimit;
  bp_protected_limit : option CapacityLimit;
  bp_emergency_limit : option CapacityLimit;
  bp_enforcement : option CapacityEnforcement;
  bp_proof_profile_ref : string;
  bp_evidence_refs : list string;
  bp_invalidation_set : list string;
}.

#[global] Instance BottleneckCapacityProfile_eq_dec : EqDecision BottleneckCapacityProfile.
Proof. solve_decision. Defined.

Definition declared_limits (p : BottleneckCapacityProfile) : list (string * CapacityLimit) :=
  omap (fun '(field, limit) => l ← limit; Some (field, l))
    [("normal_limit", bp_normal_limit p); ("protected_limit", bp_protected_limit p);
     ("emergency_limit", bp_emergency_limit p)].

Definition row_validate_unit (p : BottleneckCapacityProfile) : RCR unit :=
  check? guard_err (bp_unit p != bottleneck_unit (bp_bottleneck p))
           (refs_invalid "unit"
              "UNIT_MISMATCH: a bottleneck profile uses exactly its declared unit");
  for_each (fun '(field, limit) =>
              guard_err (cl_unit limit != bp_unit p)
                (refs_invalid field "UNIT_MISMATCH: all present limits use the exact row unit"))
    (declared_limits p).

Definition row_validate_claim (p : BottleneckCapacityProfile) : RCR unit :=
  if bp_coverage_state p != CoverageClaimed then Ok tt else
  check? guard_err (is_blank (bp_owner_ref p) || is_blank (bp_owner_generation_ref p))
           (refs_invalid "owner_ref"
              "MISSING_CAPACITY_OWNER: a claimed row names one runtime owner and one owner generation");
  check? guard_err (negb (is_some (bp_physical_total_limit p)))
           (refs_invalid "physical_total_limit"
              "a claimed row requires the physical total of this dimension");
  check? guard_err (negb (is_some (bp_protected_limit p)))
           (refs_invalid "protected_limit"
              "MISSING_PROTECTED_PARTITION: a claimed row requires a protected partition");
  check? guard_err (negb (is_some (bp_enforcement p)))
           (refs_invalid "enforcement"
              "MISSING_ENFORCEMENT: a claimed row requires an enforceable partition mechanism");
  check? guard_err (is_blank (bp_proof_profile_ref p))
           (refs_invalid "proof_profile_ref"
              "MISSING_PROOF_PROFILE: a claimed row requires an independent proof profile");
  check? guard_err (bp_evidence_refs p == [])
           (refs_invalid "evidence_refs"
              "MISSING_EVIDENCE: a claimed row requires current owner evidence");
  check? guard_err (bp_invalidation_set p == [])
           (refs_invalid "invalidation_set"
              "MISSING_INVALIDATION_SET: a claimed row requires an invalidation set");
  guard_err (bp_normal_work_applicable p && negb (is_some (bp_normal_limit p)))
    (refs_invalid "normal_limit"
       "MISSING_NORMAL_PARTITION: a claimed row with normal work requires a normal partition").

Definition row_validate_unclaimed_capacity (p : BottleneckCapacityProfile) : RCR unit :=
  if bp_coverage_state p == CoverageClaimed then Ok tt
  else guard_err (is_some (bp_physical_total_limit p) || is_some (bp_normal_limit p)
                  || is_some (bp_protected_limit p) || is_some (bp_emergency_limit p)
                  || is_some (bp_enforcement p))
         (refs_invalid "coverage_state"
            "UNKNOWN_OR_UNSUPPORTED_BOTTLENECK: an unsupported or unknown row carries no capacity or enforcement claim").

Definition row_validate_partition_accounting (p : BottleneckCapacityProfile) : RCR unit :=
  match bp_physical_total_limit p with
  | None => Ok tt
  | Some physical_total =>
      let? partitioned :=
        fold_res (fun acc '(_, limit) =>
                    ok_or (checked_add acc (cl_quantity limit))
                      (refs_invalid "physical_total_limit"
                         "CAPACITY_SUM_OVERFLOW: the disjoint partition sum overflows"))
          0 (declared_limits p) in
      guard_err (cl_quantity physical_total <? partitioned)
        (refs_invalid "physical_total_limit"
           "PARTITIONS_EXCEED_PHYSICAL_TOTAL: the physical total is at least the sum of all present disjoint partitions")
  end.

Definition row_validate (p : BottleneckCapacityProfile) : RCR unit :=
  check? row_validate_unit p;
  check? row_validate_claim p;
  check? row_validate_unclaimed_capacity p;
  check? row_validate_partition_accounting p;
  check? validate_canonical_refs "evidence_refs" (bp_evidence_refs p);
  validate_canonical_refs "invalidation_set" (bp_invalidation_set p).

(** ** Profiles *)

Record ControlReserveProfile : Type := {
  cp_profile_id : string;
  cp_profile_revision : string;
  cp_product_identity_ref : string;
  cp_source_build_and_runtime_generation_refs : list string;
  cp_config_snapshot_ref : string;
  cp_authority_epoch_ref : EpochId;
  cp_compiled_at_ms : Z;
  cp_bottleneck_rows : list BottleneckCapacityProfile;
  cp_unsupported_or_unknown_guarantees : list string;
  cp_profile_evidence_refs : list string;
  cp_invalidation_set : list string;
}.

(** The loop over the rows: [earlier] holds the bottlenecks already seen. *)
Fixpoint validate_rows (earlier : list CapacityBottleneck) (rows : list BottleneckCapacityProfile)
    : RCR unit :=
  match rows with
  | [] => Ok tt
  | row :: rows' =>
      check? guard_err (existsb (fun b => b == bp_bottleneck row) earlier)
               (refs_invalid "bottleneck_rows"
                  "DUPLICATE_BOTTLENECK: a profile contains exactly one row for every value");
      check? row_validate row;
      validate_rows (earlier ++ [bp_bottleneck row]) rows'
  end.

(** Row [index] of the profile carries the bottleneck of entry [index] of the
    owner map. The lengths were compared before, so every index is in range. *)
Fixpoint rows_in_contract_order (rows : list BottleneckCapacityProfile)
    (owner_map : list BottleneckOwnerBinding) : RCR unit :=
  match rows, owner_map with
  | row :: rows', bound :: owner_map' =>
      check? guard_err (bp_bottleneck row != ob_bottleneck bound)
               (refs_invalid "bottleneck_rows"
                  "NONCANONICAL_PROFILE: bottleneck rows follow the frozen contract order");
      rows_in_contract_order rows' owner_map'
  | _, _ => Ok tt
  end.

Definition validate_denominator (p : ControlReserveProfile) : RCR unit :=
  let owner_map := frozen_bottleneck_owner_map in
  let rows := cp_bottleneck_rows p in
  check? validate_rows [] rows;
  check? guard_err (negb (length rows =? length owner_map)%nat
                    || existsb (fun bound =>
                          negb (existsb (fun row => bp_bottleneck row == ob_bottleneck bound) rows))
                         owner_map)
           (refs_invalid "bottleneck_rows"
              "MISSING_BOTTLENECK: a profile contains the exact complete CapacityBottleneck denominator");
  rows_in_contract_order rows owner_map.

Definition profile_validate (p : ControlReserveProfile) : RCR unit :=
  check? validate_denominator p;
  check? validate_canonical_refs "source_build_and_runtime_generation_refs"
           (cp_source_build_and_runtime_generation_refs p);
  check? validate_canonical_refs "unsupported_or_unknown_guarantees"
           (cp_unsupported_or_unknown_guarantees p);
  check? validate_canonical_refs "profile_evidence_refs" (cp_profile_evidence_refs p);
  validate_canonical_refs "invalidation_set" (cp_invalidation_set p).

(** ** Requests *)

Inductive RequestedOperationClass : Type :=
| ReqNormal (work : NormalWorkClass)
| ReqProtected (operation : ControlOperationClass)
| ReqEmergency (operation : EmergencyOperationClass).

#[global] Instance RequestedOperationClass_eq_dec : EqDecision RequestedOperationClass.
Proof. solve_decision. Defined.

Definition requested_capacity_class (r : RequestedOperationClass) : CapacityClass :=
  match r with
  | ReqNormal _ => NormalWorkload
  | ReqProtected _ => ProtectedControl
  | ReqEmergency _ => EmergencyLastResort
  end.

Definition requested_str (r : RequestedOperationClass) : string :=
  match r with
  | ReqNormal class => normal_work_str class
  | ReqProtected class => control_operation_str class
  | ReqEmergency class => emergency_operation_str class
  end.

Record CapacityRequest : Type := {
  rq_operation : RequestedOperationClass;
  rq_operation_id : string;
  rq_requested_bottleneck : CapacityBottleneck;
  rq_requested_limit : CapacityLimit;
  rq_requesting_owner_ref : string;
  rq_requesting_generation_ref : ResourceGeneration;
  rq_authority_epoch_ref : EpochId;
  rq_profile_id : string;
  rq_profile_revision : string;
  rq_deadline_ms : Z;
}.

#[global] Instance CapacityRequest_eq_dec : EqDecision CapacityRequest.
Proof. solve_decision. Defined.

Definition capacity_request_validate (r : CapacityRequest) : RCR unit :=
  check? guard_err (is_blank (rq_operation_id r))
           (refs_invalid "operation_id"
              "MISSING_OPERATION_IDENTITY: a request names one operation identity");
  check? guard_err (is_blank (rq_requesting_owner_ref r))
           (refs_invalid "requesting_owner_ref"
              "MISSING_REQUESTER: a request names one requesting owner");
  check? guard_err (is_blank (rq_profile_id r) || is_blank (rq_profile_revision r))
           (refs_invalid "profile_revision"
              "STALE_PROFILE: a request binds one profile identity and revision");
  guard_err (cl_unit (rq_requested_limit r) != bottleneck_unit (rq_requested_bottleneck r))
    (refs_invalid "requested_limit" "UNIT_MISMATCH: a request uses exactly the bottleneck unit").

(** ** Permit bindings *)

Record CapacityPermitBinding : Type := {
  pb_permit_id : string;
  pb_operation_id : string;
  pb_capacity_class : CapacityClass;
  pb_operation : RequestedOperationClass;
  pb_bottleneck : CapacityBottleneck;
  pb_granted_limit : CapacityLimit;
  pb_capacity_owner_ref : string;
  pb_capacity_owner_generation_ref : ResourceGeneration;
  pb_requesting_owner_ref : string;
  pb_requesting_generation_ref : ResourceGeneration;
  pb_authority_epoch_ref : EpochId;
  pb_profile_id : string;
  pb_profile_revision : string;
  pb_issued_at_ms : Z;
  pb_expires_at_ms : Z;
  pb_owner_evidence_refs : list string;
}.

#[global] Instance CapacityPermitBinding_eq_dec : EqDecision CapacityPermitBinding.
Proof. solve_decision. Defined.

Definition permit_binding_validate (b : CapacityPermitBinding) : RCR unit :=
  check? guard_err (is_blank (pb_permit_id b))
           (refs_invalid "permit_id"
              "MISSING_PERMIT_IDENTITY: a binding names one owner-minted permit");
  check? guard_err (is_blank (pb_operation_id b))
           (refs_invalid "operation_id"
              "MISSING_OPERATION_IDENTITY: a binding names one operation identity");
  check? guard_err (requested_capacity_class (pb_operation b) != pb_capacity_class b)
           (refs_invalid "operation"
              "CLASS_MISMATCH: the operation tag admits exactly the bound capacity class");
  check? guard_err (cl_unit (pb_granted_limit b) != bottleneck_unit (pb_bottleneck b))
           (refs_invalid "granted_limit"
              "UNIT_MISMATCH: a binding grants exactly the bottleneck unit");
  check? guard_err (is_blank (pb_capacity_owner_ref b) || is_blank (pb_requesting_owner_ref b))
           (refs_invalid "capacity_owner_ref"
              "MISSING_CAPACITY_OWNER: a binding names the issuing owner and the requester");
  check? guard_err (is_blank (pb_profile_id b) || is_blank (pb_profile_revision b))
           (refs_invalid "profile_revision"
              "STALE_PROFILE: a binding carries one profile identity and revision");
  check? guard_err (pb_expires_at_ms b <=? pb_issued_at_ms b)
           (refs_invalid "expires_at_ms"
              "EXPIRED_AT_ISSUE: a binding expires strictly after it is issued");
  validate_canonical_refs "owner_evidence_refs" (pb_owner_evidence_refs b).

Definition matches_request (b : CapacityPermitBinding) (request : CapacityRequest) : bool :=
  (pb_operation b == rq_operation request)
  && (pb_operation_id b == rq_operation_id request)
  && (pb_bottleneck b == rq_requested_bottleneck request)
  && (pb_granted_limit b == rq_requested_limit request)
  && (pb_requesting_owner_ref b == rq_requesting_owner_ref request)
  && (pb_requesting_generation_ref b == rq_requesting_generation_ref request)
  && is_same_authority (pb_authority_epoch_ref b) (rq_authority_epoch_ref request)
  && (pb_profile_id b == rq_profile_id request)
  && (pb_profile_revision b == rq_profile_revision request).

(** ** Release records *)

Inductive PermitTerminalDisposition : Type :=
| PermitReleased
| PermitReconciledReleased
| PermitLeakSuspected
| PermitStaleOwner
| PermitUnknown.

#[global] Instance PermitTerminalDisposition_eq_dec : EqDecision PermitTerminalDisposition.
Proof. solve_decision. Defined.

Record CapacityReleaseEvidence : Type := {
  re_permit_id : string;
  re_operation_id : string;
  re_terminal_disposition : PermitTerminalDisposition;
  re_released_limit : CapacityLimit;
  re_observed_owner_generation_ref : ResourceGeneration;
  re_authority_epoch_ref : EpochId;
  re_profile_id : string;
  re_profile_revision : string;
  re_released_at_ms : Z;
  re_evidence_refs : list string;
  re_reconciliation_ref : string;
}.

Definition release_evidence_validate (r : CapacityReleaseEvidence) : RCR unit :=
  check? guard_err (is_blank (re_permit_id r))
           (refs_invalid "permit_id" "MISSING_PERMIT_IDENTITY: a release names one permit");
  check? guard_err (is_blank (re_operation_id r))
           (refs_invalid "operation_id"
              "MISSING_OPERATION_IDENTITY: a release names one operation identity");
  check? guard_err (is_blank (re_profile_id r) || is_blank (re_profile_revision r)
                    || is_blank (re_reconciliation_ref r))
           (refs_invalid "reconciliation_ref"
              "STALE_PROFILE: a release carries one profile identity, revision and reconciliation reference");
  validate_canonical_refs "evidence_refs" (re_evidence_refs r).

Definition matches_binding (r : CapacityReleaseEvidence) (b : CapacityPermitBinding) : bool :=
  (re_permit_id r == pb_permit_id b)
  && (re_operation_id r == pb_operation_id b)
  && (re_released_limit r == pb_granted_limit b)
  && (re_observed_owner_generation_ref r == pb_capacity_owner_generation_ref b)
  && is_same_authority (re_authority_epoch_ref r) (pb_authority_epoch_ref b)
  && (re_profile_id r == pb_profile_id b)
  && (re_profile_revision r == pb_profile_revision b).
