(* ===== verification/Kernel.v ===== *)
(** * Kernel route fencing and generation cutover

    The Kernel's authority core: exact route fences and epoch activation
    (crates/kernel/eliot-kernel-core/src/module/epoch_and_fence.rs), the
    generation route table and its cutover
    (crates/kernel/eliot-kernel-core/src/module/generation_routing.rs), and
    the cutover state machine of
    crates/foundation/eliot-runtime-contracts/src/lib.rs. *)

From Stdlib Require Import String.
From S2P Require Import Prelude RustText Contracts RuntimeErrors CapacityContracts.

#[local] Open Scope string_scope.
#[local] Open Scope Z_scope.

(** ** Errors

    The variants of [KernelError] from [ControlReserveEvidenceContradiction]
    to [IdempotencyConflict], and the wrapped runtime contract error; the
    modelled modules of the crate return no other. *)
Inductive KernelError : Type :=
| KInvalidField (field reason : string)
| ForgedReceipt
| StaleEpoch (observed active : Z)
| StaleEpochTuple (observed active : EpochId)
| RouteMismatch
| KExpired (expires_at_ms : Z)
| KFenceMismatch
| KIllegalTransition (machine from to : string)
| KRuntimeContract (e : RuntimeContractError)
| ControlReserveEvidenceContradiction (bottleneck reason : string)
| ControlReserveExhausted
| NormalCapacityExhausted (bottleneck : CapacityBottleneck) (work_class : NormalWorkClass)
    (operation_id owner : string) (epoch : EpochId)
| ProtectedReserveExhausted (bottleneck : CapacityBottleneck) (operation : ControlOperationClass)
    (operation_id owner : string) (epoch : EpochId)
| EmergencySlotUnavailable (bottleneck : CapacityBottleneck) (operation : EmergencyOperationClass)
    (operation_id owner : string) (epoch : EpochId)
| ControlGuaranteeLost (bottleneck : CapacityBottleneck) (detail : string)
| IdempotencyConflict.

#[global] Instance KernelError_eq_dec : EqDecision KernelError.
Proof. solve_decision. Defined.

Abbreviation KR := (result KernelError).

Definition kernel_validate_text (value field : string) : KR unit :=
  check? guard_err (is_blank value) (KInvalidField field "must be non-blank");
  guard_err (has_control value) (KInvalidField field "must not contain control characters").

Definition validate_id (value field : string) : KR unit :=
  check? kernel_validate_text value field;
  guard_err (1024 <? len value) (KInvalidField field "must not exceed 1024 UTF-8 bytes").

(** ** Route fences *)

Abbreviation RouteScope := string (only parsing).

Definition RouteScope_new (value : string) : KR RouteScope :=
  check? validate_id value "route_scope"; Ok value.

Record RouteFence : Type := {
  rf_route_scope : RouteScope;
  rf_authority_epoch : EpochId;
  rf_resource_generation : ResourceGeneration;
  rf_generation : Z;
  rf_nonce : string;
}.

#[global] Instance RouteFence_eq_dec : EqDecision RouteFence.
Proof. solve_decision. Defined.

Definition RouteFence_new (route_scope : RouteScope) (epoch : EpochId)
    (resource_generation : ResourceGeneration) (generation : Z) (nonce : string) : KR RouteFence :=
  check? validate_id nonce "route_fence.nonce";
  check? guard_err (resource_generation =? 0)
           (KInvalidField "resource_generation" "must be greater than zero");
  Ok {| rf_route_scope := route_scope; rf_authority_epoch := epoch;
        rf_resource_generation := resource_generation; rf_generation := generation;
        rf_nonce := nonce |}.

Definition matches (self other : RouteFence) : bool := self == other.

Definition is_stale (f : RouteFence) (active_epoch : EpochId) : bool :=
  match relation_to (rf_authority_epoch f) active_epoch with
  | Same | DirectChild | SameLineageNewer => false
  | DirectParent | SameLineageOlder | UnrelatedLineage => true
  end.

Definition enforce (f : RouteFence) (route : RouteScope) (active_epoch : EpochId) : KR unit :=
  if rf_route_scope f != route then Err RouteMismatch
  else if is_same_authority (rf_authority_epoch f) active_epoch then Ok tt
  else if lineage_id (rf_authority_epoch f) != lineage_id active_epoch
  then Err (StaleEpochTuple (rf_authority_epoch f) active_epoch)
  else if is_stale f active_epoch
  then Err (StaleEpoch (sequence (rf_authority_epoch f)) (sequence active_epoch))
  else Err KFenceMismatch.

(** ** Epoch activation *)

Inductive LineageChange : Type :=
| Restore
| Migration
| CorruptionRecovery
| BreakGlass.

Record EpochActivation : Type := {
  ea_activation_id : string;
  ea_prior_epoch : EpochId;
  ea_active_epoch : EpochId;
  ea_transition : EpochTransition;
  ea_lineage_change : option LineageChange;
  ea_fenced_routes : list RouteScope;
}.

Definition distinct_routes (routes : list RouteScope) : KR (list RouteScope) :=
  check? scan_distinct (fun _ => Ok tt) id
           (fun _ => KInvalidField "fenced_routes" "must not contain duplicates")
           (∅ : gset string) routes;
  Ok routes.

Definition not_direct_child : KernelError :=
  KInvalidField "active_epoch"
    "an in-lineage advance must be the exact direct child of the prior epoch".

Definition activation_advance (activation_id : string) (prior_epoch active_epoch : EpochId)
    (fenced_routes : list RouteScope) : KR EpochActivation :=
  check? validate_id activation_id "epoch_activation.activation_id";
  let? transition := map_err (fun _ => not_direct_child) (direct_child prior_epoch) in
  check? guard_err (negb (is_same_authority (current transition) active_epoch)) not_direct_child;
  let? routes := distinct_routes fenced_routes in
  Ok {| ea_activation_id := activation_id; ea_prior_epoch := prior_epoch;
        ea_active_epoch := active_epoch; ea_transition := transition;
        ea_lineage_change := None; ea_fenced_routes := routes |}.

Definition activation_new_lineage (activation_id : string) (prior_epoch : EpochId)
    (new_lineage : EpochLineageId) (cause : LineageChange) (fenced_routes : list RouteScope)
    : KR EpochActivation :=
  check? validate_id activation_id "epoch_activation.activation_id";
  check? guard_err (new_lineage == lineage_id prior_epoch)
           (KInvalidField "lineage_id" "a lineage change must mint a globally distinct lineage");
  check? guard_err (fenced_routes == [])
           (KInvalidField "fenced_routes"
              "a lineage change must fence the previous lineage's routes before admission");
  let transition := genesis new_lineage in
  let? routes := distinct_routes fenced_routes in
  Ok {| ea_activation_id := activation_id; ea_prior_epoch := prior_epoch;
        ea_active_epoch := current transition; ea_transition := transition;
        ea_lineage_change := Some cause; ea_fenced_routes := routes |}.

Definition admits (a : EpochActivation) (epoch : EpochId) : bool :=
  is_same_authority epoch (ea_active_epoch a).

Definition fences (a : EpochActivation) (epoch : EpochId) : bool :=
  negb (is_same_authority epoch (ea_active_epoch a)).

(** ** The cutover state machine *)

Inductive GenerationCutoverState : Type :=
| Preparing
| Armed
| Committed
| Reconciling
| Completed
| CutoverFailed
| FailedRequiresForwardCutover.

#[global] Instance GenerationCutoverState_eq_dec : EqDecision GenerationCutoverState.
Proof. solve_decision. Defined.

Definition cutover_state_to_string (s : GenerationCutoverState) : string :=
  match s with
  | Preparing => "PREPARING"
  | Armed => "ARMED"
  | Committed => "COMMITTED"
  | Reconciling => "RECONCILING"
  | Completed => "COMPLETED"
  | CutoverFailed => "FAILED"
  | FailedRequiresForwardCutover => "FAILED_REQUIRES_FORWARD_CUTOVER"
  end.

Definition cutover_transition_legal (from to : GenerationCutoverState) : bool :=
  match from, to with
  | Preparing, (Armed | CutoverFailed) => true
  | Armed, (Committed | CutoverFailed | Reconciling) => true
  | Committed, Reconciling => true
  | Reconciling, (Completed | FailedRequiresForwardCutover) => true
  | _, _ => false
  end.

Definition cutover_transition_to (from to : GenerationCutoverState)
    : result RuntimeContractError GenerationCutoverState :=
  if cutover_transition_legal from to then Ok to
  else Err (RIllegalTransition "GenerationCutover" (cutover_state_to_string from)
              (cutover_state_to_string to)).

(** ** Routes and cutover decisions *)

Record GenerationRoute : Type := {
  gr_route_scope : RouteScope;
  gr_active_generation : ResourceGeneration;
  gr_authority_epoch : EpochId;
}.

Definition GenerationRoute_new (scope : RouteScope) (generation : ResourceGeneration)
    (epoch : EpochId) : KR GenerationRoute :=
  check? guard_err (generation =? 0)
           (KInvalidField "active_generation" "must be greater than zero");
  Ok {| gr_route_scope := scope; gr_active_generation := generation;
        gr_authority_epoch := epoch |}.

Record CutoverDecision : Type := {
  cd_cutover_id : string;
  cd_route_scope : RouteScope;
  cd_old_generation : option ResourceGeneration;
  cd_new_generation : ResourceGeneration;
  cd_old_epoch : EpochId;
  cd_new_epoch : EpochId;
  cd_state : GenerationCutoverState;
}.

Definition CutoverDecision_new (cutover_id : string) (scope : RouteScope)
    (old_generation : option ResourceGeneration) (new_generation : ResourceGeneration)
    (old_epoch new_epoch : EpochId) (state : GenerationCutoverState) : KR CutoverDecision :=
  check? validate_id cutover_id "cutover_id";
  check? guard_err (old_generation == Some new_generation)
           (KInvalidField "new_generation" "cutover must select a distinct generation");
  check? guard_err (lineage_id old_epoch != lineage_id new_epoch)
           (KInvalidField "new_epoch" "cutover must stay inside one epoch lineage");
  check? guard_err (negb (is_direct_child_of new_epoch old_epoch))
           (KInvalidField "new_epoch"
              "cutover must advance by the exact one-step direct child of the old epoch");
  Ok {| cd_cutover_id := cutover_id; cd_route_scope := scope;
        cd_old_generation := old_generation; cd_new_generation := new_generation;
        cd_old_epoch := old_epoch; cd_new_epoch := new_epoch; cd_state := state |}.

(** ** The router *)

Record GenerationRouter : Type := {
  gx_routes : gmap RouteScope GenerationRoute;
  gx_epoch : EpochId;
}.

Definition at_epoch (epoch : EpochId) : GenerationRouter :=
  {| gx_routes := ∅; gx_epoch := epoch |}.

Definition authorize_presented_epoch (x : GenerationRouter) (presented : EpochId) : KR unit :=
  if is_same_authority presented (gx_epoch x) then Ok tt
  else Err (if lineage_id presented == lineage_id (gx_epoch x) then KFenceMismatch
            else StaleEpochTuple presented (gx_epoch x)).

Abbreviation KM := (M GenerationRouter KernelError).

Definition register_route (route : GenerationRoute) : KM unit :=
  let! x := mstate in
  do! mlift (authorize_presented_epoch x (gr_authority_epoch route));
  mmodify (fun x => {| gx_routes := <[gr_route_scope route := route]> (gx_routes x);
                       gx_epoch := gx_epoch x |}).

Definition route_for_fence (x : GenerationRouter) (fence : RouteFence) : KR GenerationRoute :=
  let? route := ok_or (gx_routes x !! rf_route_scope fence) RouteMismatch in
  check? authorize_presented_epoch x (rf_authority_epoch fence);
  check? guard_err (rf_route_scope fence != gr_route_scope route) KFenceMismatch;
  check? guard_err (negb (is_same_authority (gr_authority_epoch route) (rf_authority_epoch fence))
                    || negb (gr_active_generation route =? rf_resource_generation fence))
           KFenceMismatch;
  Ok route.

Definition route_for_supervised_generation (x : GenerationRouter) (scope : RouteScope)
    (generation : ResourceGeneration) (presented : EpochId) : KR GenerationRoute :=
  let? route := ok_or (gx_routes x !! scope) RouteMismatch in
  check? authorize_presented_epoch x presented;
  check? guard_err (negb (is_same_authority (gr_authority_epoch route) presented)
                    || negb (gr_active_generation route =? generation)) KFenceMismatch;
  Ok route.

Definition route (x : GenerationRouter) (scope : RouteScope) : KR GenerationRoute :=
  ok_or (gx_routes x !! scope) RouteMismatch.

Definition set_epoch (epoch : EpochId) (x : GenerationRouter) : GenerationRouter :=
  {| gx_routes := gx_routes x; gx_epoch := epoch |}.

Definition set_routes (routes : gmap RouteScope GenerationRoute) (x : GenerationRouter)
    : GenerationRouter :=
  {| gx_routes := routes; gx_epoch := gx_epoch x |}.

(** The loop that binds every route to the new epoch. *)
Definition rebind_routes (epoch : EpochId) (routes : gmap RouteScope GenerationRoute)
    : KR (gmap RouteScope GenerationRoute) :=
  fold_res (fun rebound sp =>
              let? r := GenerationRoute_new sp.1 (gr_active_generation sp.2) epoch in
              Ok (<[sp.1 := r]> rebound)) ∅ (btree_iter routes).

Definition cutover (decision : CutoverDecision) : KM unit :=
  let! x := mstate in
  do! mlift (guard_err (cd_state decision != Committed)
               (KIllegalTransition "generation-cutover"
                  (cutover_state_to_string (cd_state decision))
                  (cutover_state_to_string Committed)));
  let! route := mlift (ok_or (gx_routes x !! cd_route_scope decision) RouteMismatch) in
  let! old_generation := mlift (ok_or (cd_old_generation decision)
    (KInvalidField "old_generation" "cutover requires a prior active generation")) in
  do! mlift (guard_err (negb (gr_active_generation route =? old_generation)) KFenceMismatch);
  do! mlift (guard_err (negb (is_same_authority (cd_old_epoch decision) (gx_epoch x)))
               (StaleEpochTuple (cd_old_epoch decision) (gx_epoch x)));
  do! mlift (guard_err (relation_to (cd_new_epoch decision) (gx_epoch x) != DirectChild)
               (StaleEpochTuple (cd_new_epoch decision) (gx_epoch x)));
  let new_epoch := cd_new_epoch decision in
  do! mmodify (set_epoch new_epoch);
  let! rebound := mlift (rebind_routes new_epoch (gx_routes x)) in
  let! replaced := mlift (GenerationRoute_new (cd_route_scope decision)
                            (cd_new_generation decision) new_epoch) in
  mmodify (set_routes (<[cd_route_scope decision := replaced]> rebound)).

(** ** Fence lemmas *)

Definition epoch_ok (e : EpochId) : Prop := 1 <= sequence e <= u64_max.

Lemma is_stale_spec f a :
  epoch_ok (rf_authority_epoch f) -> epoch_ok a ->
  is_stale f a = true <->
  lineage_id (rf_authority_epoch f) <> lineage_id a \/
  sequence (rf_authority_epoch f) = sequence a + 1 \/
  sequence (rf_authority_epoch f) + 1 < sequence a.
Proof.
  destruct f as [? [l n] ? ? ?], a as [la na]. unfold epoch_ok, is_stale, relation_to. simpl.
  intros Hn Ha. rewrite !checked_succ_eqb by lia.
  case_bool_decide as Hl; simpl; [|naive_solver].
  destruct (Z.eqb_spec n na); [split; [done|naive_solver lia]|].
  destruct (Z.eqb_spec na (n + 1)); [split; [done|naive_solver lia]|].
  destruct (Z.eqb_spec n (na + 1)); [split; [by auto|done]|].
  destruct (Z.ltb_spec n na); split; try done; [intros; right; right; lia|naive_solver lia].
Qed.

Lemma direct_child_relation c p :
  epoch_ok c -> epoch_ok p -> is_direct_child_of c p = true ->
  relation_to c p = DirectParent /\ relation_to p c = DirectChild.
Proof.
  destruct c as [lc nc], p as [lp np]. rewrite is_direct_child_of_spec.
  unfold epoch_ok, relation_to. simpl. intros Hc Hp (-> & -> & _).
  rewrite !checked_succ_eqb by lia. rewrite !(bool_decide_true (lp = lp)) by done. simpl.
  destruct (Z.eqb_spec (np + 1) np), (Z.eqb_spec np (np + 1)),
    (Z.eqb_spec np (np + 1 + 1)), (Z.eqb_spec (np + 1) (np + 1)); lia || done.
Qed.

Lemma relation_direct_child a b :
  relation_to a b = DirectChild -> is_direct_child_of b a = true.
Proof.
  unfold relation_to, is_direct_child_of. intros H. repeat case_match; try done; bool_facts.
  apply andb_true_iff. by rewrite !bool_decide_eq_true.
Qed.

(** ** Activation lemmas *)

Lemma distinct_routes_ok rs rs' : distinct_routes rs = Ok rs' <-> NoDup rs /\ rs' = rs.
Proof.
  unfold distinct_routes. rewrite rbind_ok. split.
  - intros (seen & H & [= ->]). apply scan_distinct_ok in H as (_ & H & _).
    by rewrite list_fmap_id in H.
  - intros [Hnd ->]. exists (list_to_set rs ∪ ∅). split; [|done]. apply scan_distinct_ok.
    rewrite list_fmap_id. split_and!; try done. by apply Forall_forall.
Qed.

Lemma direct_child_ok p t :
  direct_child p = Ok t <->
  sequence p + 1 <= u64_max /\ sequence p + 1 <> 0 /\
  t = {| current := {| lineage_id := lineage_id p; sequence := sequence p + 1 |};
         parent := Some p |}.
Proof.
  unfold direct_child, checked_add.
  destruct (Z.leb_spec (sequence p + 1) u64_max); simpl; [|split; [done|lia]].
  destruct (Z.eqb_spec (sequence p + 1) 0); simpl; [split; [done|lia]|].
  split; [by intros [= <-]|by intros (_ & _ & ->)].
Qed.

(** Sequences are [NonZeroU64], so the last conjunct on [a] always holds. *)
Lemma activation_advance_ok id p a rs act :
  activation_advance id p a rs = Ok act <->
  validate_id id "epoch_activation.activation_id" = Ok tt /\ is_direct_child_of a p = true /\
  NoDup rs /\ sequence a <> 0 /\
  act = {| ea_activation_id := id; ea_prior_epoch := p; ea_active_epoch := a;
           ea_transition := {| current := a; parent := Some p |};
           ea_lineage_change := None; ea_fenced_routes := rs |}.
Proof.
  unfold activation_advance. rewrite is_direct_child_of_spec, rbind_ok. split.
  - intros ([] & Hid & H). apply rbind_ok in H as (t & Ht & H). apply map_err_ok in Ht.
    apply direct_child_ok in Ht as (Hb & Hz & ->).
    apply rbind_ok in H as ([] & Hsame & H). rewrite guard_err_ok in Hsame. bool_facts.
    apply is_same_authority_eq in Hsame. simpl in Hsame. subst a. simpl.
    apply rbind_ok in H as (rs' & [Hnd ->]%distinct_routes_ok & [= <-]).
    split_and!; try done; lia.
  - intros (Hid & (Hl & Hs & Hm) & Hnd & Hz & ->). exists tt. split; [done|].
    apply rbind_ok. eexists. split.
    { apply map_err_ok, direct_child_ok. split_and!; [lia|lia|done]. }
    destruct a as [la na]. simpl in *. subst la na.
    apply rbind_ok. exists tt. split; [by rewrite is_same_authority_refl|].
    apply rbind_ok. exists rs. split; [by apply distinct_routes_ok|done].
Qed.

(** A run of in-lineage activations, each starting where the last ended. *)
Inductive advance_chain : EpochId -> list EpochActivation -> EpochId -> Prop :=
| chain_nil e : advance_chain e [] e
| chain_snoc e acts p id a rs act :
    advance_chain e acts p -> activation_advance id p a rs = Ok act ->
    advance_chain e (acts ++ [act]) a.

Lemma advance_chain_counts e acts e' :
  advance_chain e acts e' ->
  lineage_id e' = lineage_id e /\ sequence e' = sequence e + Z.of_nat (length acts).
Proof.
  induction 1 as [|e acts p id a rs act _ [IHl IHs] H]; [split; [done|simpl; lia]|].
  apply activation_advance_ok in H as (_ & H & _). apply is_direct_child_of_spec in H as (-> & -> & _).
  rewrite length_app, IHl, IHs. simpl. split; [done|lia].
Qed.

Lemma advance_chain_active e acts e' act :
  advance_chain e acts e' -> act ∈ acts -> exists n,
    1 <= n <= Z.of_nat (length acts) /\ lineage_id (ea_active_epoch act) = lineage_id e /\
    sequence (ea_active_epoch act) = sequence e + n.
Proof.
  induction 1 as [|e acts p id a rs act' Hc IH H]; [by intros ?%not_elem_of_nil|].
  rewrite elem_of_app, list_elem_of_singleton, length_app. simpl.
  intros [(n & ? & ?)%IH| ->]; [exists n; split; [lia|done]|].
  destruct (advance_chain_counts _ _ _ (chain_snoc _ _ _ _ _ _ _ Hc H)) as [Hl Hs].
  rewrite length_app in Hs. simpl in Hs.
  apply activation_advance_ok in H as (_ & _ & _ & _ & ->). simpl. eexists. split; [|by split]. lia.
Qed.

(** ** Router lemmas *)

(** Every route is stored under its own scope, at the router's epoch. *)
Definition router_wf (x : GenerationRouter) : Prop :=
  map_Forall (fun scope r => gr_route_scope r = scope /\ gr_authority_epoch r = gx_epoch x)
    (gx_routes x).

Lemma authorize_ok x e : authorize_presented_epoch x e = Ok tt <-> e = gx_epoch x.
Proof.
  unfold authorize_presented_epoch. rewrite <- is_same_authority_eq. by case_match.
Qed.

Definition rebound (epoch : EpochId) (scope : RouteScope) (r : GenerationRoute) : GenerationRoute :=
  {| gr_route_scope := scope; gr_active_generation := gr_active_generation r;
     gr_authority_epoch := epoch |}.

(** Rebinding keeps every generation and moves every route to the epoch. *)
Lemma rebind_routes_ok epoch routes out k :
  rebind_routes epoch routes = Ok out -> out !! k = rebound epoch k <$> routes !! k.
Proof.
  unfold rebind_routes. intros H.
  assert (Hins : forall l acc,
    fold_res (fun m sp => let? r := GenerationRoute_new sp.1 (gr_active_generation sp.2) epoch in
                          Ok (<[sp.1 := r]> m)) acc l = Ok out ->
    out = insert_all fst (fun sp => rebound epoch sp.1 sp.2) l acc).
  { induction l as [|[s r] l IH]; intros acc Ho; simpl in *; [by simplify_eq|].
    apply rbind_ok in Ho as (acc' & Ha & Ho). apply rbind_ok in Ha as (g & Hg & [= <-]).
    unfold GenerationRoute_new in Hg. apply rbind_ok in Hg as ([] & _ & [= <-]). by apply IH. }
  apply Hins in H as ->. destruct (routes !! k) as [r|] eqn:Hk; simpl.
  - apply (insert_all_lookup fst (fun sp => rebound epoch sp.1 sp.2) _ ∅ (k, r)).
    + apply btree_iter_NoDup.
    + by apply btree_iter_lookup.
  - rewrite insert_all_none; [by apply lookup_empty|].
    intros ([k' r] & Heq & Hin)%list_elem_of_fmap. simpl in Heq. subst k'.
    apply btree_iter_lookup in Hin. congruence.
Qed.

(** What an accepted cutover did, for any decision. *)
Lemma cutover_accepted d x x' :
  cutover d x = (x', Ok tt) ->
  is_direct_child_of (gx_epoch x) (gx_epoch x') = true /\
  gx_epoch x' = cd_new_epoch d /\ gx_epoch x = cd_old_epoch d /\ cd_state d = Committed /\
  forall k, gx_routes x' !! k =
    if decide (k = cd_route_scope d)
    then Some {| gr_route_scope := k; gr_active_generation := cd_new_generation d;
                 gr_authority_epoch := gx_epoch x' |}
    else rebound (gx_epoch x') k <$> gx_routes x !! k.
Proof.
  unfold cutover. unfold_monad. intros H.
  destruct (cd_state d != Committed) eqn:Hst; [done|].
  destruct (gx_routes x !! cd_route_scope d) as [r|]; [|done].
  destruct (cd_old_generation d) as [og|]; [|done].
  destruct (negb (gr_active_generation r =? og)); [done|].
  destruct (negb (is_same_authority _ _)) eqn:Hold; [done|].
  destruct (relation_to _ _ != DirectChild) eqn:Hrel; [done|].
  destruct (rebind_routes _ _) as [rr|] eqn:Hrb; [|done].
  destruct (GenerationRoute_new _ _ _) as [g|] eqn:Hnew; [|done]. simplify_eq/=.
  bool_facts. apply is_same_authority_eq in Hold. unfold GenerationRoute_new in Hnew.
  apply rbind_ok in Hnew as ([] & _ & [= <-]).
  split_and!; try done; [by apply relation_direct_child|].
  intros k. case_decide as Hk; [subst k; by rewrite lookup_insert_eq|].
  rewrite lookup_insert_ne by done. by apply rebind_routes_ok.
Qed.

(** A cutover that fails before it commits to the new epoch changes
    nothing. *)
Lemma cutover_refused_unchanged d x x' e :
  (cd_old_epoch d = gx_epoch x -> relation_to (cd_new_epoch d) (gx_epoch x) <> DirectChild) ->
  cutover d x = (x', Err e) -> x' = x.
Proof.
  unfold cutover. unfold_monad. intros Hrel H.
  destruct (cd_state d != Committed); [by simplify_eq|].
  destruct (gx_routes x !! cd_route_scope d) as [r|]; [|by simplify_eq].
  destruct (cd_old_generation d) as [og|]; [|by simplify_eq].
  destruct (negb (gr_active_generation r =? og)); [by simplify_eq|].
  destruct (negb (is_same_authority _ _)) eqn:Hold; [by simplify_eq|].
  bool_facts. apply is_same_authority_eq in Hold.
  rewrite (bool_decide_false _ (Hrel Hold)) in H. by simplify_eq/=.
Qed.

Lemma CutoverDecision_new_ok id scope og ng oe ne st d :
  CutoverDecision_new id scope og ng oe ne st = Ok d ->
  is_direct_child_of (cd_new_epoch d) (cd_old_epoch d) = true /\ cd_old_epoch d = oe /\
  cd_new_epoch d = ne /\ cd_old_generation d <> Some (cd_new_generation d).
Proof.
  unfold CutoverDecision_new. intros H.
  apply rbind_ok in H as ([] & _ & H). apply rbind_ok in H as ([] & Hg & H).
  apply rbind_ok in H as ([] & _ & H). apply rbind_ok in H as ([] & Hc & [= <-]).
  rewrite guard_err_ok in Hg, Hc. bool_facts. by split_and!.
Qed.

(** ** Reachable routers *)

Inductive router_reachable : GenerationRouter -> Prop :=
| router_at_epoch e : router_reachable (at_epoch e)
| router_register x r x' res :
    router_reachable x -> register_route r x = (x', res) -> router_reachable x'
| router_cutover x d x' :
    router_reachable x -> cutover d x = (x', Ok tt) -> router_reachable x'.

Lemma router_reachable_wf x : router_reachable x -> router_wf x.
Proof.
  induction 1 as [e|x r x' res _ IH H|x d x' _ IH H]; unfold router_wf in *.
  - apply map_Forall_empty.
  - unfold register_route in H. unfold_monad.
    destruct (authorize_presented_epoch x (gr_authority_epoch r)) as [[]|] eqn:Ha; simplify_eq/=;
      [|done].
    apply authorize_ok in Ha. by apply map_Forall_insert_2.
  - apply cutover_accepted in H as (_ & _ & _ & _ & Hr). intros k r Hk. rewrite Hr in Hk.
    case_decide; simplify_eq/=; [by subst|]. by apply fmap_Some in Hk as (r0 & _ & ->).
Qed.

#[export] Hint Resolve router_reachable_wf : eliot.

(** ** Samples *)

Section Sample.
Definition sample_lineage : EpochLineageId :=
  {| lineage_text := "550e8400-e29b-41d4-a716-446655440000" |}.
Definition other_lineage : EpochLineageId :=
  {| lineage_text := "6ba7b810-9dad-11d1-80b4-00c04fd430c8" |}.
Definition sample_epoch (n : Z) : EpochId := {| lineage_id := sample_lineage; sequence := n |}.

Definition sample_route_fence (n : Z) : RouteFence :=
  {| rf_route_scope := "daemon"; rf_authority_epoch := sample_epoch n;
     rf_resource_generation := 5; rf_generation := 1; rf_nonce := "nonce" |}.

Definition sample_decision (from to : Z) : CutoverDecision :=
  {| cd_cutover_id := "c-1"; cd_route_scope := "daemon"; cd_old_generation := Some 5;
     cd_new_generation := 6; cd_old_epoch := sample_epoch from;
     cd_new_epoch := sample_epoch to; cd_state := Committed |}.

Definition sample_route (scope : string) (generation n : Z) : GenerationRoute :=
  {| gr_route_scope := scope; gr_active_generation := generation;
     gr_authority_epoch := sample_epoch n |}.

Definition sample_router (n : Z) : GenerationRouter :=
  (register_route (sample_route "worker" 8 n)
     (register_route (sample_route "daemon" 5 n) (at_epoch (sample_epoch n))).1).1.

Lemma sample_router_reachable n : router_reachable (sample_router n).
Proof.
  unfold sample_router.
  destruct (register_route (sample_route "daemon" 5 n) (at_epoch (sample_epoch n))) as [x1 r1] eqn:H1.
  simpl. destruct (register_route (sample_route "worker" 8 n) x1) as [x2 r2] eqn:H2. simpl.
  eapply router_register; [|exact H2]. eapply router_register; [|exact H1].
  apply router_at_epoch.
Qed.
End Sample.

(** ** Theorems *)

(** Exact fencing: a fence is admitted exactly when it names the route
    and its complete epoch tuple is the active one. Every refusal is typed: a
    different route, then a different lineage with both tuples reported, then
    the two in-lineage refusals; a sequence is compared only inside one
    lineage. The in-lineage split is the one the code makes: epochs at least
    two behind and the next epoch ahead are reported stale, the others are
    fence mismatches. *)
Theorem fence_enforced_exactly (f : RouteFence) (r : RouteScope) (a : EpochId)
    (Hf : epoch_ok (rf_authority_epoch f)) (Ha : epoch_ok a) :
  let e := rf_authority_epoch f in
  match enforce f r a with
  | Ok _ => rf_route_scope f = r /\ e = a
  | Err RouteMismatch => rf_route_scope f <> r
  | Err (StaleEpochTuple observed active) =>
      rf_route_scope f = r /\ lineage_id e <> lineage_id a /\ observed = e /\ active = a
  | Err (StaleEpoch observed active) =>
      rf_route_scope f = r /\ lineage_id e = lineage_id a /\
      observed = sequence e /\ active = sequence a /\
      (sequence e = sequence a + 1 \/ sequence e + 1 < sequence a)
  | Err KFenceMismatch =>
      rf_route_scope f = r /\ lineage_id e = lineage_id a /\
      (sequence e + 1 = sequence a \/ sequence a + 1 < sequence e)
  | Err _ => False
  end.
Proof.
  unfold enforce. case_bool_decide as Hr; simpl; [|done].
  destruct (is_same_authority (rf_authority_epoch f) a) eqn:Hs.
  { by apply is_same_authority_eq in Hs. }
  case_bool_decide as Hl; simpl; [|done].
  assert (Hne : sequence (rf_authority_epoch f) <> sequence a).
  { intros Heq. apply not_true_iff_false in Hs. apply Hs, is_same_authority_eq.
    destruct (rf_authority_epoch f), a; simpl in *; congruence. }
  destruct (is_stale f a) eqn:Hst.
  - apply is_stale_spec in Hst; [|done..]. split_and!; try done. by destruct Hst.
  - apply not_true_iff_false in Hst. rewrite is_stale_spec in Hst by done. split_and!; try done. lia.
Qed.

Lemma fence_enforced_exactly_witness :
  enforce (sample_route_fence 2) "daemon" (sample_epoch 4) = Err (StaleEpoch 2 4) /\
  rf_authority_epoch (sample_route_fence 2) <> sample_epoch 4.
Proof.
  pose proof (fence_enforced_exactly (sample_route_fence 2) "daemon" (sample_epoch 4)
    ltac:(unfold epoch_ok, u64_max; simpl; lia) ltac:(unfold epoch_ok, u64_max; simpl; lia)) as H.
  assert (He : enforce (sample_route_fence 2) "daemon" (sample_epoch 4) = Err (StaleEpoch 2 4))
    by (vm_compute; reflexivity).
  cbv zeta in H. rewrite He in H. split; [exact He|]. intros Heq.
  destruct H as (_ & _ & _ & _ & [H|H]); rewrite Heq in H; simpl in H; lia.
Defined.

(** The fence of the epoch that was just superseded is not recognised as
    stale: when the active epoch is the direct child of the fence's epoch the
    staleness test answers no and the refusal is a fence mismatch, and when
    the fence is one epoch ahead of the active one the test answers yes. *)
Theorem superseded_fence_not_stale (f : RouteFence) (a : EpochId)
    (Hf : epoch_ok (rf_authority_epoch f)) (Ha : epoch_ok a) :
  (is_direct_child_of a (rf_authority_epoch f) = true ->
     is_stale f a = false /\ enforce f (rf_route_scope f) a = Err KFenceMismatch) /\
  (is_direct_child_of (rf_authority_epoch f) a = true ->
     is_stale f a = true /\
     enforce f (rf_route_scope f) a =
       Err (StaleEpoch (sequence (rf_authority_epoch f)) (sequence a))).
Proof.
  assert (Henf : lineage_id (rf_authority_epoch f) = lineage_id a ->
    sequence (rf_authority_epoch f) <> sequence a ->
    enforce f (rf_route_scope f) a =
    if is_stale f a then Err (StaleEpoch (sequence (rf_authority_epoch f)) (sequence a))
    else Err KFenceMismatch).
  { intros Hl Hs. unfold enforce. rewrite !bool_decide_true by done. simpl.
    destruct (is_same_authority _ _) eqn:Hsame; [|done].
    apply is_same_authority_eq in Hsame. congruence. }
  split; intros Hc; pose proof Hc as (Hl & Hs & _)%is_direct_child_of_spec.
  - destruct (direct_child_relation _ _ Ha Hf Hc) as [_ Hrel].
    assert (Hst : is_stale f a = false) by (unfold is_stale; by rewrite Hrel).
    split; [done|]. rewrite Henf by (done || lia). by rewrite Hst.
  - destruct (direct_child_relation _ _ Hf Ha Hc) as [Hrel _].
    assert (Hst : is_stale f a = true) by (unfold is_stale; by rewrite Hrel).
    split; [done|]. rewrite Henf by (done || lia). by rewrite Hst.
Qed.

Lemma superseded_fence_not_stale_witness :
  enforce (sample_route_fence 2) "daemon" (sample_epoch 3) = Err KFenceMismatch.
Proof.
  refine (proj2 (proj1 (superseded_fence_not_stale (sample_route_fence 2) (sample_epoch 3) _ _) _));
    [unfold epoch_ok, u64_max; simpl; lia|unfold epoch_ok, u64_max; simpl; lia|reflexivity].
Defined.

(** Router invariant and exact lookup: in every router that registration
    and cutover can build, each route is stored under its own scope at the
    router's epoch, so resolving a fence returns a route exactly when the
    scope is registered, the fence carries the router's epoch tuple and the
    generations agree. *)
Theorem route_for_fence_exact (x : GenerationRouter) (f : RouteFence) (r : GenerationRoute)
    (Hx : router_reachable x) :
  route_for_fence x f = Ok r <->
  gx_routes x !! rf_route_scope f = Some r /\ rf_authority_epoch f = gx_epoch x /\
  gr_active_generation r = rf_resource_generation f.
Proof.
  apply router_reachable_wf in Hx. unfold route_for_fence. rewrite rbind_ok. split.
  - intros (r0 & Hr & H). destruct (gx_routes x !! _) as [r1|] eqn:Hk; simplify_eq/=.
    apply rbind_ok in H as ([] & Ha%authorize_ok & H). apply rbind_ok in H as ([] & _ & H).
    apply rbind_ok in H as ([] & Hg & [= <-]). rewrite guard_err_ok in Hg. bool_facts.
    by rewrite Z.eqb_eq in *.
  - intros (Hk & He & Hg). destruct (Hx _ _ Hk) as [Hs Hre]. exists r. rewrite Hk. split; [done|].
    apply rbind_ok. exists tt. split; [by apply authorize_ok|].
    apply rbind_ok. exists tt. split; [rewrite bool_decide_true by done; done|].
    apply rbind_ok. exists tt. split; [|done].
    by rewrite Hre, He, is_same_authority_refl, Hg, Z.eqb_refl.
Qed.

Lemma route_for_fence_exact_witness :
  route_for_fence (sample_router 2) (sample_route_fence 2) = Ok (sample_route "daemon" 5 2).
Proof.
  apply (route_for_fence_exact (sample_router 2) (sample_route_fence 2)
           (sample_route "daemon" 5 2) (sample_router_reachable 2)).
  split; [vm_compute; reflexivity|]. split; reflexivity.
Defined.

(** No validated cutover is ever applied: a decision built by its
    constructor always advances the epoch by one, the router accepts only
    decisions that move one epoch back, so the router refuses every validated
    decision and stays unchanged. *)
Theorem validated_cutover_refused (id : string) (scope : RouteScope)
    (og : option ResourceGeneration) (ng : ResourceGeneration) (oe ne : EpochId)
    (st : GenerationCutoverState) (d : CutoverDecision) (x : GenerationRouter)
    (Hd : CutoverDecision_new id scope og ng oe ne st = Ok d)
    (Hne : epoch_ok ne) (Hx : epoch_ok (gx_epoch x)) :
  exists err, cutover d x = (x, Err err).
Proof.
  destruct (CutoverDecision_new_ok _ _ _ _ _ _ _ _ Hd) as (Hc & Hoe & Hne' & _).
  destruct (cutover d x) as [x' [[]|err]] eqn:H.
  - exfalso. apply cutover_accepted in H as (Hback & He' & He & _).
    apply is_direct_child_of_spec in Hback as (_ & Hb & _).
    apply is_direct_child_of_spec in Hc as (_ & Hc & _).
    rewrite He, He' in Hb. lia.
  - exists err. f_equal. eapply cutover_refused_unchanged; [|exact H]. intros Heq Hrel.
    apply relation_direct_child, is_direct_child_of_spec in Hrel as (_ & Hb & _).
    apply is_direct_child_of_spec in Hc as (_ & Hc & _). rewrite <- Heq in Hb. lia.
Qed.

Lemma validated_cutover_refused_witness :
  exists err, cutover (sample_decision 2 3) (sample_router 2) = (sample_router 2, Err err).
Proof.
  apply (validated_cutover_refused "c-1" "daemon" (Some 5) 6 (sample_epoch 2) (sample_epoch 3)
           Committed (sample_decision 2 3) (sample_router 2));
    [vm_compute; reflexivity|unfold epoch_ok, u64_max; simpl; lia
    |unfold epoch_ok, u64_max; vm_compute; split; discriminate].
Defined.

(** The only cutovers the router applies go backwards: whatever the
    decision, also one that was decoded and not built by the constructor, an
    applied cutover leaves the router at the parent of its former epoch, with
    the selected route at the new generation and every other route rebound to
    that older epoch at its own generation. *)
Theorem applied_cutover_moves_back (d : CutoverDecision) (x x' : GenerationRouter)
    (H : cutover d x = (x', Ok tt)) :
  is_direct_child_of (gx_epoch x) (gx_epoch x') = true /\
  forall k, gx_routes x' !! k =
    if decide (k = cd_route_scope d)
    then Some {| gr_route_scope := k; gr_active_generation := cd_new_generation d;
                 gr_authority_epoch := gx_epoch x' |}
    else rebound (gx_epoch x') k <$> gx_routes x !! k.
Proof. by apply cutover_accepted in H as (? & _ & _ & _ & ?). Qed.

Lemma applied_cutover_moves_back_witness :
  exists x', cutover (sample_decision 3 2) (sample_router 3) = (x', Ok tt) /\
    gx_epoch x' = sample_epoch 2 /\
    is_direct_child_of (sample_epoch 3) (gx_epoch x') = true.
Proof.
  destruct (cutover (sample_decision 3 2) (sample_router 3)) as [x' [[]|]] eqn:E;
    [|vm_compute in E; discriminate].
  exists x'. split; [reflexivity|]. split; [vm_compute in E; injection E as <-; reflexivity|].
  exact (proj1 (applied_cutover_moves_back _ _ _ E)).
Defined.

(** Activation advances by exactly one step: an in-lineage activation is
    accepted exactly when its identity is valid, the new epoch is the direct
    child of the prior one and no route is listed twice; along any chain of
    such activations the epoch counts the activations, so every activation of
    the chain fences the epoch the chain started from. *)
Theorem activation_chain_fences_past (e e' : EpochId) (acts : list EpochActivation)
    (Hc : advance_chain e acts e') :
  lineage_id e' = lineage_id e /\ sequence e' = sequence e + Z.of_nat (length acts) /\
  forall act, act ∈ acts -> fences act e = true /\ admits act e = false.
Proof.
  destruct (advance_chain_counts _ _ _ Hc) as [Hl Hs]. split_and!; [done|done|].
  intros act Hact. destruct (advance_chain_active _ _ _ _ Hc Hact) as (n & Hn & _ & Hseq).
  assert (is_same_authority e (ea_active_epoch act) = false) as Hf.
  { apply not_true_iff_false. rewrite is_same_authority_eq. intros Heq. rewrite <- Heq in Hseq. lia. }
  unfold fences, admits. by rewrite Hf.
Qed.

Lemma activation_chain_fences_past_witness :
  exists act, activation_advance "activation" (sample_epoch 3) (sample_epoch 4) ["daemon"] = Ok act /\
              fences act (sample_epoch 3) = true.
Proof.
  destruct (activation_advance "activation" (sample_epoch 3) (sample_epoch 4) ["daemon"])
    as [act|] eqn:E; [|vm_compute in E; discriminate].
  exists act. split; [reflexivity|].
  refine (proj1 (proj2 (proj2 (activation_chain_fences_past (sample_epoch 3) (sample_epoch 4)
    [act] _)) act _)); [|left].
  exact (chain_snoc _ [] _ _ _ _ _ (chain_nil _) E).
Defined.

(** Lineage changes can revive a fenced epoch: a lineage change is only
    required to differ from the lineage it replaces, so two of them lead from
    a lineage away and back, and its genesis epoch, fenced by the first
    change, is active again after the second. *)
Theorem lineage_changes_can_revive :
  exists a1 a2 old,
    activation_new_lineage "first" old other_lineage Restore ["daemon"] = Ok a1 /\
    activation_new_lineage "second" (ea_active_epoch a1) (lineage_id old) Restore ["daemon"]
      = Ok a2 /\
    fences a1 old = true /\ admits a2 old = true.
Proof.
  do 2 eexists. exists (sample_epoch 1). split_and!; vm_compute; reflexivity.
Qed.
