(* ===== verification/Receipts.v ===== *)
(** * Immutable receipts

    The receipt contract of crates/foundation/eliot-receipts/src/lib.rs: what
    a receipt binds, when a receipt core is valid, how an envelope is issued
    from a core and checked again, and the grant-closure declaration and
    receipt. Canonical JSON bytes and SHA-256 come from third-party crates and
    are parameters; the hexadecimal encoding of the digest is modelled. *)

From Stdlib Require Import Ascii String.
From S2P Require Import Prelude RustText Contracts.

#[local] Open Scope string_scope.
#[local] Open Scope Z_scope.

Inductive ReceiptError : Type :=
| Foundation (e : ContractError)
| Serialization (message : string)
| RInvalidField (field reason : string)
| RFenceMismatch (left right : string)
| RequestMismatch
| InvalidChain (reason : string)
| VerifierArtifactMismatch
| ProofOverclaim
| IdentityMismatch.

Abbreviation RR := (result ReceiptError).

Definition receipt_text (value field : string) : RR unit :=
  check? guard_err (is_blank value) (RInvalidField field "must be non-blank");
  guard_err (has_control value) (RInvalidField field "must not contain control characters").

Definition digest (value field : string) : RR unit :=
  guard_err (negb (len value =? 64) || negb (forallb is_lower_hex (bytes value)))
    (RInvalidField field "must be a lowercase SHA-256 hex digest").

(** [self.state_fence.validate()?] *)
Definition fence_validate (f : StateFence) : RR unit := map_err Foundation (StateFence_validate f).

(** ** Classes *)

Inductive ReceiptKind : Type :=
| KindRequest
| KindOperation
| KindArtifact
| KindVerification
| KindCoordination
| KindProblem.

#[global] Instance ReceiptKind_eq_dec : EqDecision ReceiptKind.
Proof. solve_decision. Defined.

Inductive ProofCeiling : Type :=
| Observation
| CandidateArtifact
| ScopedVerification
| ObservedExternalEffect.

#[global] Instance ProofCeiling_eq_dec : EqDecision ProofCeiling.
Proof. solve_decision. Defined.

(** The discriminant, which also is the derived order. *)
Definition ceiling_rank (p : ProofCeiling) : Z :=
  match p with
  | Observation => 0
  | CandidateArtifact => 1
  | ScopedVerification => 2
  | ObservedExternalEffect => 3
  end.

Definition is_at_most (p q : ProofCeiling) : bool := ceiling_rank p <=? ceiling_rank q.

(** [p > q] *)
Definition ceiling_gt (p q : ProofCeiling) : bool := ceiling_rank q <? ceiling_rank p.

Inductive EffectClass : Type :=
| Read
| Candidate
| ReversibleMutation
| ExternalEffect.

#[global] Instance EffectClass_eq_dec : EqDecision EffectClass.
Proof. solve_decision. Defined.

Definition effect_rank (e : EffectClass) : Z :=
  match e with
  | Read => 0
  | Candidate => 1
  | ReversibleMutation => 2
  | ExternalEffect => 3
  end.

Inductive ErrorCode : Type :=
| CodeInvalidRequest
| CodeInvalidIdentity
| CodeStaleEpoch
| CodeStaleRevision
| CodeFenceMismatch
| CodeConflict
| CodeNotFound
| CodeUnavailable
| CodeTimeout
| CodeCancelled
| CodeUnknownOutcome
| CodeInternal.

Inductive ReceiptDisposition : Type :=
| DSuccess (proof : ProofCeiling)
| DPartial (proof : ProofCeiling) (unresolved : list string)
| DFailure (code : ErrorCode) (proof : ProofCeiling)
| DUnknown (reason : string)
| DCancelled (reason : string).

Inductive ReceiptDispositionKind : Type :=
| Success
| Partial
| Failure
| Unknown
| Cancelled.

#[global] Instance ReceiptDispositionKind_eq_dec : EqDecision ReceiptDispositionKind.
Proof. solve_decision. Defined.

Definition disposition_kind (d : ReceiptDisposition) : ReceiptDispositionKind :=
  match d with
  | DSuccess _ => Success
  | DPartial _ _ => Partial
  | DFailure _ _ => Failure
  | DUnknown _ => Unknown
  | DCancelled _ => Cancelled
  end.

Definition disposition_validate (d : ReceiptDisposition) : RR unit :=
  match d with
  | DSuccess proof | DFailure _ proof =>
      guard_err (ceiling_gt proof ObservedExternalEffect) ProofOverclaim
  | DPartial proof unresolved =>
      check? guard_err ((unresolved == [])
                        || existsb (fun item => negb (is_ok (receipt_text item "unresolved")))
                             unresolved)
               (RInvalidField "unresolved" "partial receipts require non-blank unresolved items");
      guard_err (ceiling_gt proof ScopedVerification) ProofOverclaim
  | DUnknown reason | DCancelled reason => receipt_text reason "disposition.reason"
  end.

Definition disposition_proof (d : ReceiptDisposition) : ProofCeiling :=
  match d with
  | DSuccess proof | DPartial proof _ | DFailure _ proof => proof
  | DUnknown _ | DCancelled _ => Observation
  end.

(** ** Bindings *)

Record WorkScopeBinding : Type := {
  ws_scope_id : string;
  ws_product_id : ProductId;
  ws_resource_generation : ResourceGeneration;
  ws_state_fence : StateFence;
}.

Definition WorkScopeId_new (value : string) : RR string :=
  check? receipt_text value "work_scope_id"; Ok value.

Definition work_scope_validate (b : WorkScopeBinding) : RR unit :=
  check? fence_validate (ws_state_fence b);
  guard_err (negb (resource_generation (ws_state_fence b) =? ws_resource_generation b))
    (RFenceMismatch "work_scope.resource_generation" "work_scope.state_fence").

Record TaskBinding : Type := {
  tb_task_id : TaskId;
  tb_task_revision : TaskRevision;
  tb_state_fence : StateFence;
}.

Definition task_binding_validate (b : TaskBinding) : RR unit := fence_validate (tb_state_fence b).

Record SessionBinding : Type := {
  sb_session_id : SessionId;
  sb_authority_epoch : EpochId;
  sb_state_fence : StateFence;
}.

Definition session_binding_validate (b : SessionBinding) : RR unit :=
  check? fence_validate (sb_state_fence b);
  guard_err (negb (is_same_authority (authority_epoch (sb_state_fence b)) (sb_authority_epoch b)))
    (RFenceMismatch "session.authority_epoch" "session.state_fence").

Record CausalBinding : Type := {
  cb_state_fence : StateFence;
  cb_transaction_sequence : TransactionSequence;
  cb_parent_receipt_id : option ReceiptId;
  cb_predecessor_receipt_ids : list ReceiptId;
}.

(** The loop over the predecessors: the duplicate test comes first. *)
Fixpoint scan_predecessors (receipt_id : option ReceiptId) (seen : gset string)
    (l : list ReceiptId) : RR unit :=
  match l with
  | [] => Ok tt
  | p :: l' =>
      if bool_decide (p ∈ seen) then Err (InvalidChain "duplicate predecessor")
      else if receipt_id == Some p then Err (InvalidChain "receipt cannot precede itself")
      else scan_predecessors receipt_id ({[p]} ∪ seen) l'
  end.

Definition causal_validate (b : CausalBinding) (receipt_id : option ReceiptId) : RR unit :=
  check? fence_validate (cb_state_fence b);
  check? scan_predecessors receipt_id ∅ (cb_predecessor_receipt_ids b);
  check? match cb_parent_receipt_id b with
         | Some p =>
             check? guard_err (receipt_id == Some p) (InvalidChain "receipt cannot parent itself");
             guard_err (negb (existsb (fun item => item == p) (cb_predecessor_receipt_ids b)))
               (InvalidChain "parent must be a predecessor")
         | None => Ok tt
         end;
  guard_err ((1 <? cb_transaction_sequence b) && (cb_parent_receipt_id b == None))
    (InvalidChain "non-genesis receipt requires a parent").

Record RequestBinding : Type := {
  rb_metadata : RequestMetadata;
  rb_state_fence : StateFence;
}.

Definition request_binding_validate (b : RequestBinding) : RR unit :=
  check? map_err Foundation (RequestMetadata_validate (rb_metadata b));
  guard_err (meta_state_fence (rb_metadata b) != rb_state_fence b)
    (RFenceMismatch "request.metadata" "request.state_fence").

Record OperationBinding : Type := {
  op_operation_id : OperationId;
  op_request_id : RequestId;
  op_idempotency_key : string;
  op_operation_kind : string;
  op_effect : EffectClass;
  op_state_fence : StateFence;
}.

#[global] Instance OperationBinding_eq_dec : EqDecision OperationBinding.
Proof. solve_decision. Defined.

Definition operation_binding_validate (b : OperationBinding) (request : RequestBinding) : RR unit :=
  check? receipt_text (op_idempotency_key b) "operation.idempotency_key";
  check? receipt_text (op_operation_kind b) "operation.operation_kind";
  check? fence_validate (op_state_fence b);
  guard_err (op_request_id b != meta_request_id (rb_metadata request)) RequestMismatch.

Record AuthorityBinding : Type := {
  ab_authority_id : ContractId;
  ab_authority_owner : string;
  ab_authority_epoch : EpochId;
  ab_state_fence : StateFence;
  ab_allowed_effect : EffectClass;
  ab_proof_ceiling : ProofCeiling;
}.

#[global] Instance AuthorityBinding_eq_dec : EqDecision AuthorityBinding.
Proof. solve_decision. Defined.

Definition authority_binding_validate (b : AuthorityBinding) : RR unit :=
  check? receipt_text (ab_authority_owner b) "authority.authority_owner";
  check? fence_validate (ab_state_fence b);
  guard_err (negb (is_same_authority (authority_epoch (ab_state_fence b)) (ab_authority_epoch b)))
    (RFenceMismatch "authority.authority_epoch" "authority.state_fence").

Record AuthorityRequestSubject : Type := {
  su_principal : string;
  su_session_id : string;
  su_scope_id : string;
}.

Definition subject_validate (s : AuthorityRequestSubject) : RR unit :=
  check? receipt_text (su_principal s) "subject.principal";
  check? receipt_text (su_session_id s) "subject.session_id";
  receipt_text (su_scope_id s) "subject.scope_id".

Definition subject_new (principal session_id scope_id : string) : RR AuthorityRequestSubject :=
  let subject := {| su_principal := principal; su_session_id := session_id;
                    su_scope_id := scope_id |} in
  check? subject_validate subject; Ok subject.

Record ArtifactBinding : Type := {
  ar_artifact_id : ArtifactId;
  ar_sha256 : string;
  ar_role : ReceiptKind;
  ar_source_revision : option string;
}.

Definition artifact_validate (a : ArtifactBinding) : RR unit :=
  check? digest (ar_sha256 a) "artifact.sha256";
  match ar_source_revision a with
  | Some revision => receipt_text revision "artifact.source_revision"
  | None => Ok tt
  end.

Record ContractVersion : Type := { major : Z; minor : Z; patch : Z }.

#[global] Instance ContractVersion_eq_dec : EqDecision ContractVersion.
Proof. solve_decision. Defined.

Record ContractIdentity : Type := {
  ci_name : ContractId;
  ci_version : ContractVersion;
  ci_shape_sha256 : string;
}.

Definition contract_identity_validate (c : ContractIdentity) : result ContractError unit :=
  validate_digest (ci_shape_sha256 c) "shape_sha256".

Record VerifierBinding : Type := {
  vb_verifier_id : ContractId;
  vb_verifier_revision : ContractVersion;
  vb_artifact_ids : list ArtifactId;
  vb_proof_ceiling : ProofCeiling;
  vb_state_fence : StateFence;
}.

Definition verifier_validate (v : VerifierBinding) : RR unit :=
  check? fence_validate (vb_state_fence v);
  check? guard_err (vb_artifact_ids v == [])
           (RInvalidField "verifier.artifact_ids" "must contain at least one artifact");
  check? scan_distinct (fun _ => Ok tt) id
           (fun _ => RInvalidField "verifier.artifact_ids" "must not contain duplicates") ∅
           (vb_artifact_ids v);
  Ok tt.

Record ProblemBinding : Type := {
  pb_problem_id : ContractId;
  pb_code : ErrorCode;
  pb_state_fence : StateFence;
}.

Definition problem_validate (b : ProblemBinding) : RR unit := fence_validate (pb_state_fence b).

Record CoordinationBinding : Type := {
  co_event_id : ContractId;
  co_idempotency_key : string;
  co_state_fence : StateFence;
}.

Definition coordination_validate (b : CoordinationBinding) : RR unit :=
  check? receipt_text (co_idempotency_key b) "coordination.idempotency_key";
  fence_validate (co_state_fence b).

(** ** Cores and envelopes *)

Record ReceiptCore : Type := {
  rc_contract : ContractIdentity;
  rc_kind : ReceiptKind;
  rc_work_scope : WorkScopeBinding;
  rc_task : option TaskBinding;
  rc_session : option SessionBinding;
  rc_causal : CausalBinding;
  rc_request : RequestBinding;
  rc_operation : OperationBinding;
  rc_authority : AuthorityBinding;
  rc_artifacts : list ArtifactBinding;
  rc_verifier : option VerifierBinding;
  rc_problem : option ProblemBinding;
  rc_coordination : option CoordinationBinding;
  rc_disposition : ReceiptDisposition;
}.

Record ReceiptIdentity : Type := {
  ri_receipt_id : ReceiptId;
  ri_canonical_sha256 : string;
}.

#[global] Instance ReceiptIdentity_eq_dec : EqDecision ReceiptIdentity.
Proof. solve_decision. Defined.

Definition identity_validate (i : ReceiptIdentity) : RR unit :=
  digest (ri_canonical_sha256 i) "identity.canonical_sha256".

Record ReceiptEnvelope : Type := {
  re_identity : ReceiptIdentity;
  re_core : ReceiptCore;
}.

Definition CONTRACT_NAME : string := "eliot.foundation.receipts".
Definition CONTRACT_VERSION : ContractVersion := {| major := 1; minor := 0; patch := 0 |}.

(** [if let Some(b) = binding { check(b)? }] *)
Definition if_some {A} (binding : option A) (check : A -> RR unit) : RR unit :=
  match binding with
  | Some b => check b
  | None => Ok tt
  end.

Definition same_fence (first : StateFence) (name : string) (fence : StateFence) : RR unit :=
  guard_err (fence != first) (RFenceMismatch "work_scope" name).

Definition check_verifier (core : ReceiptCore) (first : StateFence) (v : VerifierBinding) : RR unit :=
  check? verifier_validate v;
  check? same_fence first "verifier" (vb_state_fence v);
  check? guard_err (existsb (fun id => negb (existsb (fun a => ar_artifact_id a == id)
                                               (rc_artifacts core)))
                      (vb_artifact_ids v)) VerifierArtifactMismatch;
  guard_err (ceiling_gt (vb_proof_ceiling v) (disposition_proof (rc_disposition core)))
    ProofOverclaim.

Definition validate_core (core : ReceiptCore) (receipt_id : option ReceiptId) : RR unit :=
  check? map_err Foundation (contract_identity_validate (rc_contract core));
  check? guard_err ((ci_name (rc_contract core) != CONTRACT_NAME)
                    || (ci_version (rc_contract core) != CONTRACT_VERSION))
           (RInvalidField "contract" "wrong receipt contract identity");
  check? work_scope_validate (rc_work_scope core);
  check? if_some (rc_task core) task_binding_validate;
  check? if_some (rc_session core) session_binding_validate;
  check? causal_validate (rc_causal core) receipt_id;
  check? request_binding_validate (rc_request core);
  check? operation_binding_validate (rc_operation core) (rc_request core);
  check? authority_binding_validate (rc_authority core);
  check? disposition_validate (rc_disposition core);
  let first := ws_state_fence (rc_work_scope core) in
  check? for_each (fun nf => same_fence first nf.1 nf.2)
           [("causal", cb_state_fence (rc_causal core));
            ("request", rb_state_fence (rc_request core));
            ("operation", op_state_fence (rc_operation core));
            ("authority", ab_state_fence (rc_authority core))];
  check? if_some (rc_task core) (fun t => same_fence first "task" (tb_state_fence t));
  check? if_some (rc_session core) (fun s => same_fence first "session" (sb_state_fence s));
  check? for_each artifact_validate (rc_artifacts core);
  check? if_some (rc_verifier core) (check_verifier core first);
  check? if_some (rc_problem core) (fun p =>
           check? problem_validate p; same_fence first "problem" (pb_state_fence p));
  if_some (rc_coordination core) (fun c =>
    check? coordination_validate c; same_fence first "coordination" (co_state_fence c)).

(** ** Identity

    [Sha256::digest] is the sha2 crate's and [canonical_json_bytes] is built
    on serde_json; both are parameters. *)

Definition hex_digit (n : Z) : ascii :=
  match String.get (Z.to_nat n) "0123456789abcdef" with
  | Some c => c
  | None => "0"%char
  end.

Fixpoint hex_encode (digest : list Z) : string :=
  match digest with
  | [] => EmptyString
  | b :: l => String (hex_digit (Z.shiftr b 4)) (String (hex_digit (Z.land b 15)) (hex_encode l))
  end.

Section Identity.
Variable sha256 : list Z -> list Z.
Variable canonical_json_bytes : ReceiptCore -> result string (list Z).

Definition sha256_hex (bytes : list Z) : string := hex_encode (sha256 bytes).

Definition core_digest (core : ReceiptCore) : RR string :=
  let? bytes := map_err Serialization (canonical_json_bytes core) in
  Ok (sha256_hex bytes).

Definition issue (core : ReceiptCore) : RR ReceiptEnvelope :=
  check? validate_core core None;
  let? canonical_sha256 := core_digest core in
  let? receipt_id := map_err Foundation
    (string_id_new "receipt_id" ("receipt-" ++ canonical_sha256)) in
  Ok {| re_identity := {| ri_receipt_id := receipt_id; ri_canonical_sha256 := canonical_sha256 |};
        re_core := core |}.

Definition envelope_validate (e : ReceiptEnvelope) : RR unit :=
  check? identity_validate (re_identity e);
  check? validate_core (re_core e) (Some (ri_receipt_id (re_identity e)));
  let? digest := core_digest (re_core e) in
  guard_err ((digest != ri_canonical_sha256 (re_identity e))
             || (ri_receipt_id (re_identity e) != "receipt-" ++ digest)) IdentityMismatch.

Definition canonical_bytes (e : ReceiptEnvelope) : RR (list Z) :=
  check? envelope_validate e;
  map_err Serialization (canonical_json_bytes (re_core e)).
End Identity.

(** ** Grant closures *)

Definition GRANT_CLOSURE_SCHEMA : string := "eliot.receipts.grant-closure".
Definition GRANT_CLOSURE_VERSION : Z := 1.

Record GrantClosureMemberDeclaration : Type := {
  gm_grant_id : string;
  gm_parent_grant_id : option string;
}.

Record GrantClosureAlternatePath : Type := {
  ga_grant_id : string;
  ga_covering_grant_id : string;
  ga_covering_root_ref : string;
  ga_operation_id : string;
  ga_operation_name : string;
  ga_resource_ref : string;
  ga_effect : EffectClass;
  ga_holder_principal : string;
  ga_session_id : string;
  ga_scope_id : string;
  ga_canonical_request_hash : string;
}.

Record GrantClosureDeclaration : Type := {
  gd_schema : string;
  gd_version : Z;
  gd_target_grant_id : string;
  gd_authority_root_ref : string;
  gd_grant_graph_revision : Z;
  gd_members : list GrantClosureMemberDeclaration;
  gd_preserved : list GrantClosureAlternatePath;
  gd_proof_ceiling : ProofCeiling;
}.

Inductive GrantClosureState : Type :=
| ClosureActive
| ClosureRevoked.

#[global] Instance GrantClosureState_eq_dec : EqDecision GrantClosureState.
Proof. solve_decision. Defined.

Record GrantClosureAuthorityReceiptRef : Type := {
  gr_receipt_id : string;
  gr_snapshot_id : string;
  gr_authority_epoch : EpochId;
  gr_state : GrantClosureState;
}.

Record GrantClosureOrsReceiptRef : Type := {
  go_record_id : string;
  go_subject_id : string;
  go_operation_order : Z;
  go_state : GrantClosureState;
  go_state_sha256 : string;
}.

Record GrantClosureReceipt : Type := {
  gc_schema : string;
  gc_version : Z;
  gc_operation_id : string;
  gc_idempotency_digest : string;
  gc_declaration : GrantClosureDeclaration;
  gc_authority : AuthorityBinding;
  gc_proof_ceiling : ProofCeiling;
  gc_authority_receipt : GrantClosureAuthorityReceiptRef;
  gc_ors_member_receipts : list GrantClosureOrsReceiptRef;
  gc_fenced_introductions : list string;
  gc_ors_introduction_receipts : list GrantClosureOrsReceiptRef;
  gc_canonical_receipt : option ReceiptIdentity;
  gc_state : GrantClosureState;
}.

Definition affected_grants (d : GrantClosureDeclaration) : list string :=
  merge_sort String.le (gm_grant_id <$> gd_members d).

(** The derived [Ord] of an alternate path: its fields in declaration
    order. *)
Definition then_cmp (c : comparison) (next : comparison) : comparison :=
  match c with
  | Eq => next
  | c => c
  end.

Definition alternate_cmp (a b : GrantClosureAlternatePath) : comparison :=
  then_cmp (String.compare (ga_grant_id a) (ga_grant_id b))
  (then_cmp (String.compare (ga_covering_grant_id a) (ga_covering_grant_id b))
  (then_cmp (String.compare (ga_covering_root_ref a) (ga_covering_root_ref b))
  (then_cmp (String.compare (ga_operation_id a) (ga_operation_id b))
  (then_cmp (String.compare (ga_operation_name a) (ga_operation_name b))
  (then_cmp (String.compare (ga_resource_ref a) (ga_resource_ref b))
  (then_cmp (Z.compare (effect_rank (ga_effect a)) (effect_rank (ga_effect b)))
  (then_cmp (String.compare (ga_holder_principal a) (ga_holder_principal b))
  (then_cmp (String.compare (ga_session_id a) (ga_session_id b))
  (then_cmp (String.compare (ga_scope_id a) (ga_scope_id b))
            (String.compare (ga_canonical_request_hash a) (ga_canonical_request_hash b))))))))))).

(** [windows(2).any(|pair| pair[0] >= pair[1])] *)
Fixpoint any_unsorted {A} (cmp : A -> A -> comparison) (l : list A) : bool :=
  match l with
  | a :: (b :: _) as l' =>
      match cmp a b with
      | Lt => any_unsorted cmp l'
      | _ => true
      end
  | _ => false
  end.

(** The loop over the members, [first] on its first round. *)
Fixpoint scan_members (target : string) (preserved : gset string) (first : bool)
    (seen : gset string) (members : list GrantClosureMemberDeclaration) : RR (gset string) :=
  match members with
  | [] => Ok seen
  | m :: rest =>
      check? receipt_text (gm_grant_id m) "grant_closure.member.grant_id";
      check? guard_err (bool_decide (gm_grant_id m ∈ seen))
               (InvalidChain "duplicate grant-closure member");
      let seen' := {[gm_grant_id m]} ∪ seen in
      check? guard_err (first && (gm_grant_id m != target))
               (InvalidChain "grant-closure target must be its first member");
      check? match gm_parent_grant_id m with
             | Some parent =>
                 check? receipt_text parent "grant_closure.member.parent_grant_id";
                 guard_err (negb first && bool_decide (parent ∉ seen')
                            && bool_decide (parent ∉ preserved))
                   (InvalidChain "grant-closure members must be parent-before-child")
             | None =>
                 guard_err (negb first)
                   (InvalidChain "only the closure target may omit its parent")
             end;
      scan_members target preserved false seen' rest
  end.

Definition alternate_validate (target : string) (seen : gset string)
    (a : GrantClosureAlternatePath) : RR unit :=
  check? receipt_text (ga_grant_id a) "grant_closure.alternate.grant_id";
  check? receipt_text (ga_covering_grant_id a) "grant_closure.alternate.covering_grant_id";
  check? receipt_text (ga_covering_root_ref a) "grant_closure.alternate.covering_root_ref";
  check? receipt_text (ga_operation_id a) "grant_closure.alternate.operation_id";
  check? receipt_text (ga_operation_name a) "grant_closure.alternate.operation_name";
  check? receipt_text (ga_resource_ref a) "grant_closure.alternate.resource_ref";
  check? receipt_text (ga_holder_principal a) "grant_closure.alternate.holder_principal";
  check? receipt_text (ga_session_id a) "grant_closure.alternate.session_id";
  check? receipt_text (ga_scope_id a) "grant_closure.alternate.scope_id";
  check? digest (ga_canonical_request_hash a) "grant_closure.alternate.canonical_request_hash";
  guard_err (bool_decide (ga_grant_id a ∈ seen) || bool_decide (ga_covering_grant_id a ∈ seen)
             || (ga_grant_id a == target) || (ga_covering_grant_id a == ga_grant_id a))
    (RInvalidField "grant_closure.alternate.grant_id"
       "alternate path must be disjoint and independently covered").

Definition closure_schema_ok (schema : string) (version : Z) : RR unit :=
  guard_err ((schema != GRANT_CLOSURE_SCHEMA) || negb (version =? GRANT_CLOSURE_VERSION))
    (RInvalidField "grant_closure.schema" "unsupported grant-closure schema or version").

Definition declaration_validate (d : GrantClosureDeclaration) : RR unit :=
  check? closure_schema_ok (gd_schema d) (gd_version d);
  check? receipt_text (gd_target_grant_id d) "grant_closure.target_grant_id";
  check? receipt_text (gd_authority_root_ref d) "grant_closure.authority_root_ref";
  check? guard_err ((gd_grant_graph_revision d =? 0) || (length (gd_members d) =? 0)%nat)
           (RInvalidField "grant_closure.members"
              "requires a nonzero revision and at least one member");
  let? seen := scan_members (gd_target_grant_id d)
                 (list_to_set (ga_grant_id <$> gd_preserved d)) true ∅ (gd_members d) in
  check? for_each (alternate_validate (gd_target_grant_id d) seen) (gd_preserved d);
  guard_err (any_unsorted alternate_cmp (gd_preserved d))
    (RInvalidField "grant_closure.alternate" "alternate paths must be sorted and unique").

(** The two loops that pair declared subjects with the store's receipts. *)
Fixpoint scan_member_receipts (state : GrantClosureState) (subjects : gset string)
    (l : list (GrantClosureMemberDeclaration * GrantClosureOrsReceiptRef)) : RR unit :=
  match l with
  | [] => Ok tt
  | (member, receipt) :: rest =>
      check? receipt_text (go_record_id receipt) "grant_closure.ors_receipt.record_id";
      check? receipt_text (go_subject_id receipt) "grant_closure.ors_receipt.subject_id";
      check? digest (go_state_sha256 receipt) "grant_closure.ors_receipt.state_sha256";
      check? guard_err ((go_subject_id receipt != gm_grant_id member)
                        || (go_state receipt != state) || (go_operation_order receipt =? 0)
                        || bool_decide (go_subject_id receipt ∈ subjects))
               (RInvalidField "grant_closure.ors_member_receipts"
                  "receipt identity, subject, state, or order disagrees with its member");
      scan_member_receipts state ({[go_subject_id receipt]} ∪ subjects) rest
  end.

Fixpoint scan_introduction_receipts (state : GrantClosureState) (subjects : gset string)
    (l : list (string * GrantClosureOrsReceiptRef)) : RR unit :=
  match l with
  | [] => Ok tt
  | (introduction_id, receipt) :: rest =>
      check? receipt_text introduction_id "grant_closure.fenced_introduction";
      check? receipt_text (go_record_id receipt) "grant_closure.introduction_receipt.record_id";
      check? receipt_text (go_subject_id receipt) "grant_closure.introduction_receipt.subject_id";
      check? guard_err ((go_subject_id receipt != introduction_id)
                        || (go_state receipt != state) || (go_operation_order receipt =? 0)
                        || bool_decide (go_subject_id receipt ∈ subjects))
               (RInvalidField "grant_closure.ors_introduction_receipts"
                  "receipt identity or state disagrees with its introduction");
      check? digest (go_state_sha256 receipt) "grant_closure.introduction_receipt.state_sha256";
      scan_introduction_receipts state ({[go_subject_id receipt]} ∪ subjects) rest
  end.

Definition expected_authority_receipt (state : GrantClosureState) (operation_id : string) : string :=
  match state with
  | ClosureActive => "activation-" ++ operation_id
  | ClosureRevoked => "revocation-" ++ operation_id
  end.

Definition closure_receipt_validate (r : GrantClosureReceipt) : RR unit :=
  let d := gc_declaration r in
  let a := gc_authority_receipt r in
  check? closure_schema_ok (gc_schema r) (gc_version r);
  check? declaration_validate d;
  check? authority_binding_validate (gc_authority r);
  check? receipt_text (gc_operation_id r) "grant_closure.operation_id";
  check? digest (gc_idempotency_digest r) "grant_closure.idempotency_digest";
  check? guard_err (ceiling_gt (gc_proof_ceiling r) (ab_proof_ceiling (gc_authority r))
                    || ceiling_gt (gc_proof_ceiling r) (gd_proof_ceiling d)) ProofOverclaim;
  check? receipt_text (gr_receipt_id a) "grant_closure.authority_receipt.receipt_id";
  check? receipt_text (gr_snapshot_id a) "grant_closure.authority_receipt.snapshot_id";
  check? guard_err ((gr_authority_epoch a != ab_authority_epoch (gc_authority r))
                    || (gr_state a != gc_state r)
                    || (gr_receipt_id a != expected_authority_receipt (gc_state r)
                                             (gc_operation_id r)))
           (RFenceMismatch "grant_closure.authority_receipt" "grant_closure.authority");
  check? guard_err (negb (length (gc_ors_member_receipts r) =? length (gd_members d))%nat)
           (RInvalidField "grant_closure.ors_member_receipts"
              "requires one ORS receipt for every declared member");
  check? scan_member_receipts (gc_state r) ∅ (zip (gd_members d) (gc_ors_member_receipts r));
  check? guard_err (negb (length (gc_ors_introduction_receipts r)
                          =? length (gc_fenced_introductions r))%nat)
           (RInvalidField "grant_closure.ors_introduction_receipts"
              "requires one ORS receipt for every fenced introduction");
  check? guard_err (any_unsorted String.compare (gc_fenced_introductions r))
           (RInvalidField "grant_closure.fenced_introductions"
              "fenced introductions must be sorted and unique");
  check? scan_introduction_receipts (gc_state r) ∅
           (zip (gc_fenced_introductions r) (gc_ors_introduction_receipts r));
  if_some (gc_canonical_receipt r) identity_validate.

(** ** Hexadecimal encoding *)

Section Hex.
(** The value of a lowercase hexadecimal digit. *)
Definition unhex (c : ascii) : Z :=
  let b := byte_of c in if b <? 58 then b - 48 else b - 87.

Lemma nibble_cases n : 0 <= n < 16 ->
  n ∈ [0; 1; 2; 3; 4; 5; 6; 7; 8; 9; 10; 11; 12; 13; 14; 15].
Proof. intros. rewrite !elem_of_cons. lia. Qed.

Lemma hex_digit_spec n : 0 <= n < 16 ->
  unhex (hex_digit n) = n /\ is_lower_hex (byte_of (hex_digit n)) = true /\
  byte_of (hex_digit n) < 128 /\ is_control (byte_of (hex_digit n)) = false.
Proof.
  intros H%nibble_cases. revert n H. apply Forall_forall.
  repeat (constructor; [by vm_compute|]). constructor.
Qed.

Definition is_byte (b : Z) : Prop := 0 <= b < 256.

Lemma nibbles b : is_byte b ->
  0 <= Z.shiftr b 4 < 16 /\ 0 <= Z.land b 15 < 16 /\ b = 16 * Z.shiftr b 4 + Z.land b 15.
Proof.
  intros Hb. rewrite Z.shiftr_div_pow2 by lia. change 15 with (Z.ones 4).
  rewrite Z.land_ones by lia. change (2 ^ 4) with 16. unfold is_byte in Hb.
  pose proof (Z.div_mod b 16). pose proof (Z.mod_pos_bound b 16).
  assert (b / 16 < 16) by (apply Z.div_lt_upper_bound; lia).
  assert (0 <= b / 16) by (apply Z.div_pos; lia). lia.
Qed.

Lemma hex_encode_len l : len (hex_encode l) = 2 * Z.of_nat (length l).
Proof. unfold len. induction l as [|b l IH]; simpl; lia. Qed.

Lemma hex_encode_lower l : Forall is_byte l -> forallb is_lower_hex (bytes (hex_encode l)) = true.
Proof.
  induction 1 as [|b l Hb _ IH]; [done|]. destruct (nibbles _ Hb) as (H1 & H2 & _).
  change (bytes (hex_encode (b :: l))) with
    (byte_of (hex_digit (Z.shiftr b 4)) :: byte_of (hex_digit (Z.land b 15))
       :: bytes (hex_encode l)).
  cbn [forallb]. rewrite IH.
  destruct (hex_digit_spec _ H1) as (_ & -> & _), (hex_digit_spec _ H2) as (_ & -> & _). done.
Qed.

Lemma hex_encode_inj l l' :
  Forall is_byte l -> Forall is_byte l' -> hex_encode l = hex_encode l' -> l = l'.
Proof.
  intros H. revert l'. induction H as [|b l Hb _ IH]; intros [|b' l'] H' Heq; try done.
  apply Forall_cons in H' as [Hb' H']. simpl in Heq. injection Heq as Hhi Hlo Hrest.
  destruct (nibbles _ Hb) as (H1 & H2 & H3), (nibbles _ Hb') as (H1' & H2' & H3').
  f_equal; [|by apply IH]. rewrite H3, H3'.
  destruct (hex_digit_spec _ H1) as [E1 _], (hex_digit_spec _ H2) as [E2 _].
  destruct (hex_digit_spec _ H1') as [E1' _], (hex_digit_spec _ H2') as [E2' _].
  rewrite <- E1, <- E2, <- E1', <- E2'. by rewrite Hhi, Hlo.
Qed.

Lemma hex_encode_clean l : Forall is_byte l -> has_control (hex_encode l) = false.
Proof.
  unfold has_control, chars. induction 1 as [|b l Hb _ IH]; [done|].
  destruct (nibbles _ Hb) as (H1 & H2 & _). simpl hex_encode.
  assert (Hd : forall n s, 0 <= n < 16 -> existsb is_control (decode 0 0 s) = false ->
    existsb is_control (decode 0 0 (String (hex_digit n) s)) = false).
  { intros n s Hn Hs. destruct (hex_digit_spec _ Hn) as (_ & _ & H128 & Hc).
    change (String (hex_digit n) s) with (String.append EmptyString (String (hex_digit n) s)).
    rewrite decode_app_ascii by done. cbn [decode Nat.eqb existsb app]. by rewrite Hc, Hs. }
  apply Hd; [done|]. by apply Hd.
Qed.
End Hex.

(** ** Core validation *)

Lemma fence_validate_ok f : fence_validate f = Ok tt <-> resource_generation f <> 0.
Proof. unfold fence_validate. by rewrite map_err_ok, StateFence_validate_ok. Qed.

Lemma if_some_ok {A} (b : option A) f :
  if_some b f = Ok tt <-> forall x, b = Some x -> f x = Ok tt.
Proof. destruct b; simpl; naive_solver. Qed.

Lemma scan_predecessors_ok rid seen l :
  scan_predecessors rid seen l = Ok tt <->
  NoDup l /\ (forall p, p ∈ l -> p ∉ seen) /\ (forall p, rid = Some p -> p ∉ l).
Proof.
  revert seen. induction l as [|p l IH]; intros seen; simpl.
  - split; [|done]. intros _. split_and!; [constructor|set_solver|set_solver].
  - case_bool_decide as Hs; [split; [done|set_solver]|].
    case_bool_decide as Hr; [split; [done|set_solver]|].
    rewrite IH, NoDup_cons. set_solver.
Qed.

(** What the causal check says of the chain. *)
Lemma causal_validate_ok b rid :
  causal_validate b rid = Ok tt <->
  resource_generation (cb_state_fence b) <> 0 /\
  NoDup (cb_predecessor_receipt_ids b) /\
  (forall p, rid = Some p -> p ∉ cb_predecessor_receipt_ids b) /\
  (forall p, cb_parent_receipt_id b = Some p -> p ∈ cb_predecessor_receipt_ids b) /\
  (1 < cb_transaction_sequence b -> is_Some (cb_parent_receipt_id b)).
Proof.
  unfold causal_validate. rewrite rbind_ok. split.
  - intros ([] & Hf & H). apply fence_validate_ok in Hf.
    apply rbind_ok in H as ([] & Hs & H). apply scan_predecessors_ok in Hs as (Hnd & _ & Hself).
    apply rbind_ok in H as ([] & Hp & H). rewrite guard_err_ok in H.
    split_and!; try done.
    + intros p Hpar. rewrite Hpar in Hp. apply rbind_ok in Hp as ([] & _ & Hp).
      rewrite guard_err_ok in Hp. bool_facts. apply existsb_exists in Hp as (x & Hx & ?).
      bool_facts. subst x. by apply list_elem_of_In.
    + intros Hseq. rewrite (proj2 (Z.ltb_lt _ _) Hseq) in H. simpl in H. bool_facts.
      by apply not_eq_None_Some.
  - intros (Hf & Hnd & Hself & Hpar & Hgen). exists tt. split; [by apply fence_validate_ok|].
    apply rbind_ok. exists tt. split; [by apply scan_predecessors_ok; set_solver|].
    apply rbind_ok. exists tt. split.
    + destruct (cb_parent_receipt_id b) as [p|] eqn:Hp; [|done]. apply rbind_ok. exists tt.
      specialize (Hpar p eq_refl). split; apply guard_err_ok.
      * apply bool_decide_eq_false. intros ->. by apply (Hself p).
      * apply negb_false_iff, existsb_exists. exists p. rewrite <- list_elem_of_In.
        split; [done|by apply bool_decide_eq_true].
    + apply guard_err_ok, andb_false_iff. destruct (Z.ltb_spec 1 (cb_transaction_sequence b));
        [right|by left]. apply bool_decide_eq_false. intros Hn. rewrite Hn in Hgen.
      by destruct (Hgen ltac:(done)).
Qed.

(** [validate_core] looks at the receipt id only in the causal check. *)
Lemma validate_core_id core rid :
  validate_core core (Some rid) = Ok tt <->
  validate_core core None = Ok tt /\ rid ∉ cb_predecessor_receipt_ids (rc_causal core).
Proof.
  assert (Hc : causal_validate (rc_causal core) (Some rid) = Ok tt <->
    causal_validate (rc_causal core) None = Ok tt /\
    rid ∉ cb_predecessor_receipt_ids (rc_causal core)).
  { rewrite !causal_validate_ok. naive_solver. }
  unfold validate_core.
  do 5 (match goal with |- context [rbind ?a _] => destruct a as [[]|]; simpl; [|naive_solver] end).
  destruct (causal_validate (rc_causal core) (Some rid)) as [[]|] eqn:E1,
    (causal_validate (rc_causal core) None) as [[]|] eqn:E2; simpl; try naive_solver.
Qed.

(** ** What a valid core guarantees *)

(** All bindings of a core agree on one fence and one authority epoch, the
    operation reports the bound request, the causal chain is well formed and
    the verifier looks only at artifacts of the receipt. *)
Record core_coherent (core : ReceiptCore) : Prop := {
  coh_contract : ci_name (rc_contract core) = CONTRACT_NAME /\
                 ci_version (rc_contract core) = CONTRACT_VERSION;
  coh_fences :
    let f := ws_state_fence (rc_work_scope core) in
    resource_generation f <> 0 /\ ws_resource_generation (rc_work_scope core) = resource_generation f /\
    cb_state_fence (rc_causal core) = f /\ rb_state_fence (rc_request core) = f /\
    meta_state_fence (rb_metadata (rc_request core)) = f /\
    op_state_fence (rc_operation core) = f /\ ab_state_fence (rc_authority core) = f /\
    (forall t, rc_task core = Some t -> tb_state_fence t = f) /\
    (forall s, rc_session core = Some s -> sb_state_fence s = f) /\
    (forall v, rc_verifier core = Some v -> vb_state_fence v = f) /\
    (forall p, rc_problem core = Some p -> pb_state_fence p = f) /\
    (forall c, rc_coordination core = Some c -> co_state_fence c = f);
  coh_epochs :
    let e := authority_epoch (ws_state_fence (rc_work_scope core)) in
    ab_authority_epoch (rc_authority core) = e /\
    (forall s, rc_session core = Some s -> sb_authority_epoch s = e);
  coh_request : op_request_id (rc_operation core) = meta_request_id (rb_metadata (rc_request core));
  coh_chain :
    NoDup (cb_predecessor_receipt_ids (rc_causal core)) /\
    (forall p, cb_parent_receipt_id (rc_causal core) = Some p ->
       p ∈ cb_predecessor_receipt_ids (rc_causal core)) /\
    (1 < cb_transaction_sequence (rc_causal core) -> is_Some (cb_parent_receipt_id (rc_causal core)));
  coh_verifier : forall v, rc_verifier core = Some v ->
    vb_artifact_ids v <> [] /\ NoDup (vb_artifact_ids v) /\
    (forall a, a ∈ vb_artifact_ids v -> a ∈ ar_artifact_id <$> rc_artifacts core) /\
    ceiling_rank (vb_proof_ceiling v) <= ceiling_rank (disposition_proof (rc_disposition core));
}.

Lemma same_fence_ok first name f : same_fence first name f = Ok tt <-> f = first.
Proof. unfold same_fence. rewrite guard_err_ok, negb_false_iff. apply bool_decide_eq_true. Qed.

(** Opens a chain of checks, naming what each one said. *)
Ltac next_check H name := apply rbind_ok in H as ([] & name & H).

Lemma verifier_validate_ok v :
  verifier_validate v = Ok tt -> vb_artifact_ids v <> [] /\ NoDup (vb_artifact_ids v).
Proof.
  unfold verifier_validate. intros H. next_check H Hf. next_check H Hne.
  apply rbind_ok in H as (seen & Hs & _).
  rewrite guard_err_ok in Hne. bool_facts. apply scan_distinct_ok in Hs as (_ & Hnd & _).
  by rewrite list_fmap_id in Hnd.
Qed.

Lemma check_verifier_ok core first v :
  check_verifier core first v = Ok tt ->
  vb_state_fence v = first /\ vb_artifact_ids v <> [] /\ NoDup (vb_artifact_ids v) /\
  (forall a, a ∈ vb_artifact_ids v -> a ∈ ar_artifact_id <$> rc_artifacts core) /\
  ceiling_rank (vb_proof_ceiling v) <= ceiling_rank (disposition_proof (rc_disposition core)).
Proof.
  unfold check_verifier. intros Hv. next_check Hv Hv1. next_check Hv Hv2. next_check Hv Hv3.
  apply same_fence_ok in Hv2. destruct (verifier_validate_ok v Hv1).
  rewrite guard_err_ok in Hv3, Hv. split_and!; try done.
  - intros a Ha. rewrite existsb_false_iff, Forall_forall in Hv3. specialize (Hv3 a Ha).
    bool_facts. apply existsb_exists in Hv3 as (x & Hx & ?). bool_facts. subst a.
    apply list_elem_of_fmap. exists x. split; [done|by apply list_elem_of_In].
  - unfold ceiling_gt in Hv. lia.
Qed.

Lemma validate_core_coherent core rid : validate_core core rid = Ok tt -> core_coherent core.
Proof.
  unfold validate_core. intros H. next_check H Hci. next_check H Hcn. next_check H Hws.
  next_check H Ht. next_check H Hse. next_check H Hca. next_check H Hrq. next_check H Hop.
  next_check H Hau. next_check H Hdi. cbv zeta in H. next_check H Hfs. next_check H Htf.
  next_check H Hsf. next_check H Har. next_check H Hv. next_check H Hp. rename H into Hco.
  rewrite if_some_ok in Ht. rewrite if_some_ok in Hse. rewrite if_some_ok in Htf. rewrite if_some_ok in Hsf.
  rewrite if_some_ok in Hv. rewrite if_some_ok in Hp. rewrite if_some_ok in Hco.
  assert (Htf' : forall t, rc_task core = Some t ->
    tb_state_fence t = ws_state_fence (rc_work_scope core))
    by (intros t H0; specialize (Htf t H0); by apply same_fence_ok in Htf).
  assert (Hsf' : forall s, rc_session core = Some s ->
    sb_state_fence s = ws_state_fence (rc_work_scope core))
    by (intros s H0; specialize (Hsf s H0); by apply same_fence_ok in Hsf).
  rewrite guard_err_ok in Hcn. bool_facts.
  next_check Hws Hg. rewrite guard_err_ok in Hws. apply fence_validate_ok in Hg. bool_facts.
  next_check Hrq Hmeta. rewrite guard_err_ok in Hrq. bool_facts.
  next_check Hop Hop1. next_check Hop Hop2. next_check Hop Hop3. rewrite guard_err_ok in Hop.
  next_check Hau Hau1. next_check Hau Hau2. rewrite guard_err_ok in Hau. bool_facts.
  rewrite for_each_ok, !Forall_cons in Hfs. destruct Hfs as (Hf1 & Hf2 & Hf3 & Hf4 & _).
  rewrite same_fence_ok in Hf1. rewrite same_fence_ok in Hf2. rewrite same_fence_ok in Hf3.
  rewrite same_fence_ok in Hf4. simpl in Hf1, Hf2, Hf3, Hf4.
  rewrite is_same_authority_eq, Z.eqb_eq in *.
  apply causal_validate_ok in Hca as (_ & Hnd & _ & Hpar & Hgen).
  split; cbv zeta.
  - done.
  - split_and!; try done; [congruence|..].
    + intros v Hv0. by apply (check_verifier_ok _ _ _ (Hv v Hv0)).
    + intros p Hp0. specialize (Hp p Hp0). next_check Hp Hp1. by apply same_fence_ok in Hp.
    + intros c Hc0. specialize (Hco c Hc0). next_check Hco Hc1. by apply same_fence_ok in Hco.
  - split; [congruence|]. intros s Hs. specialize (Hse s Hs). next_check Hse Hse1.
    rewrite guard_err_ok in Hse. bool_facts. rewrite is_same_authority_eq in Hse.
    rewrite <- Hse. f_equal. by apply Hsf'.
  - done.
  - done.
  - intros v Hv0. by apply (check_verifier_ok _ _ _ (Hv v Hv0)).
Qed.

(** ** Closure lemmas *)

(** Member [m] follows [before] in a declaration: its parent is an earlier
    member, a preserved grant or the member itself. *)
Definition member_placed (preserved : list string) (before : list GrantClosureMemberDeclaration)
    (m : GrantClosureMemberDeclaration) : Prop :=
  exists p, gm_parent_grant_id m = Some p /\
    (p ∈ gm_grant_id <$> before \/ p ∈ preserved \/ p = gm_grant_id m).

Section Closures.
#[local] Open Scope list_scope.

Lemma scan_members_rest target (preserved : list string) seen before members seen' :
  seen = list_to_set (gm_grant_id <$> before) ->
  scan_members target (list_to_set preserved) false seen members = Ok seen' ->
  NoDup (gm_grant_id <$> before) ->
  NoDup (gm_grant_id <$> before ++ members) /\
  seen' = list_to_set (gm_grant_id <$> before ++ members) /\
  forall i m, members !! i = Some m -> member_placed preserved (before ++ take i members) m.
Proof.
  revert seen before. induction members as [|m members IH]; intros seen before -> H Hnd.
  - simpl in H. simplify_eq. rewrite app_nil_r. done.
  - simpl in H. next_check H Ht. next_check H Hd. next_check H Hp. rewrite guard_err_ok in Hd. bool_facts.
    assert (Hset : {[gm_grant_id m]} ∪ list_to_set (gm_grant_id <$> before)
      =@{gset string} list_to_set (gm_grant_id <$> before ++ [m]))
      by (rewrite fmap_app; set_solver).
    rewrite Hset in H, Hp.
    assert (Hnd' : NoDup (gm_grant_id <$> before ++ [m])).
    { rewrite fmap_app. apply NoDup_app. split_and!; [done| |apply NoDup_singleton]. set_solver. }
    destruct (IH _ _ eq_refl H Hnd') as (H1 & H2 & H3).
    rewrite <- app_assoc in H1, H2. split_and!; [done|done|].
    intros [|i] x Hx; simpl in Hx; simplify_eq.
    + rewrite take_0, app_nil_r. destruct (gm_parent_grant_id x) as [p|] eqn:Hpar; [|done].
      next_check Hp Hp1. rewrite guard_err_ok in Hp. exists p. split; [done|].
      simpl in Hp. apply andb_false_iff in Hp as [Hp|Hp];
        apply bool_decide_eq_false in Hp; apply dec_stable in Hp;
        rewrite elem_of_list_to_set in Hp; [|by auto].
      rewrite fmap_app, elem_of_app in Hp. simpl in Hp. rewrite list_elem_of_singleton in Hp. tauto.
    + specialize (H3 i x Hx). simpl. by rewrite <- app_assoc in H3.
Qed.

Lemma scan_members_ok target (preserved : list string) members seen :
  scan_members target (list_to_set preserved) true ∅ members = Ok seen ->
  NoDup (gm_grant_id <$> members) /\ seen = list_to_set (gm_grant_id <$> members) /\
  (forall m, members !! 0%nat = Some m -> gm_grant_id m = target) /\
  forall i m, members !! S i = Some m -> member_placed preserved (take (S i) members) m.
Proof.
  destruct members as [|m members]; simpl; intros H.
  - simplify_eq. split_and!; try done. constructor.
  - next_check H Ht. next_check H Hd. next_check H Hf. next_check H Hp.
    rewrite guard_err_ok in Hf. bool_facts.
    apply (scan_members_rest target preserved _ [m]) in H as (H1 & H2 & H3);
      [|set_solver|apply NoDup_singleton].
    split_and!; [done|done| |].
    + intros m' [= <-]. done.
    + intros i m' Hm'. by apply H3.
Qed.

Lemma scan_member_receipts_ok state subjects l :
  scan_member_receipts state subjects l = Ok tt ->
  Forall (fun mr => go_subject_id mr.2 = gm_grant_id mr.1 /\ go_state mr.2 = state /\
                    go_operation_order mr.2 <> 0) l.
Proof.
  revert subjects. induction l as [|[m r] l IH]; intros subjects H; [constructor|].
  simpl in H. next_check H H1. next_check H H2. next_check H H3. next_check H H4.
  rewrite guard_err_ok in H4. bool_facts. rewrite Z.eqb_neq in *. constructor; [done|by eapply IH].
Qed.
End Closures.

(** ** A sample receipt, for the witnesses *)

Section Sample.
Definition sample_receipt_fence : StateFence :=
  StateFence_new {| lineage_id := {| lineage_text := "550e8400-e29b-41d4-a716-446655440000" |};
                    sequence := 1 |} 1.

Definition sample_hex : string :=
  "0123456789abcdef0123456789abcdef0123456789abcdef0123456789abcdef".

(** A receipt for an operation with [effect] under an authority that allows
    [allowed], claiming [proof] with a verifier that reached [verified]. *)
Definition sample_core (effect allowed : EffectClass) (ceiling proof verified : ProofCeiling)
    : ReceiptCore :=
  let f := sample_receipt_fence in
  {| rc_contract := {| ci_name := CONTRACT_NAME; ci_version := CONTRACT_VERSION;
                       ci_shape_sha256 := sample_hex |};
     rc_kind := KindVerification;
     rc_work_scope := {| ws_scope_id := "scope-1"; ws_product_id := "product-1";
                         ws_resource_generation := 1; ws_state_fence := f |};
     rc_task := Some {| tb_task_id := "task-1"; tb_task_revision := 1; tb_state_fence := f |};
     rc_session := Some {| sb_session_id := "session-1"; sb_authority_epoch := authority_epoch f;
                           sb_state_fence := f |};
     rc_causal := {| cb_state_fence := f; cb_transaction_sequence := 1;
                     cb_parent_receipt_id := None; cb_predecessor_receipt_ids := [] |};
     rc_request := {| rb_metadata :=
                        {| meta_request_id := "request-1"; meta_session_id := Some "session-1";
                           meta_task_id := Some "task-1"; meta_product_id := "product-1";
                           meta_source_id := "source-1"; meta_state_fence := f;
                           meta_clock := ClockReading_default |};
                      rb_state_fence := f |};
     rc_operation := {| op_operation_id := "operation-1"; op_request_id := "request-1";
                        op_idempotency_key := "key-1"; op_operation_kind := "verify";
                        op_effect := effect; op_state_fence := f |};
     rc_authority := {| ab_authority_id := "authority-1"; ab_authority_owner := "governor";
                        ab_authority_epoch := authority_epoch f; ab_state_fence := f;
                        ab_allowed_effect := allowed; ab_proof_ceiling := ceiling |};
     rc_artifacts := [{| ar_artifact_id := "artifact-1"; ar_sha256 := sample_hex;
                         ar_role := KindArtifact; ar_source_revision := None |}];
     rc_verifier := Some {| vb_verifier_id := "verifier-1";
                            vb_verifier_revision := CONTRACT_VERSION;
                            vb_artifact_ids := ["artifact-1"]; vb_proof_ceiling := verified;
                            vb_state_fence := f |};
     rc_problem := None; rc_coordination := None; rc_disposition := DSuccess proof |}.

Definition plain_core : ReceiptCore :=
  sample_core Read Read ScopedVerification ScopedVerification ScopedVerification.

Definition zero_sha256 (_ : list Z) : list Z := repeat 0 32.
Definition no_json (_ : ReceiptCore) : result string (list Z) := Ok [].

Definition sample_member (g : string) (p : option string) : GrantClosureMemberDeclaration :=
  {| gm_grant_id := g; gm_parent_grant_id := p |}.

Definition sample_declaration (members : list GrantClosureMemberDeclaration)
    : GrantClosureDeclaration :=
  {| gd_schema := GRANT_CLOSURE_SCHEMA; gd_version := GRANT_CLOSURE_VERSION;
     gd_target_grant_id := "root"; gd_authority_root_ref := "authority";
     gd_grant_graph_revision := 3; gd_members := members; gd_preserved := [];
     gd_proof_ceiling := ScopedVerification |}.

Definition sample_ors (g : string) : GrantClosureOrsReceiptRef :=
  {| go_record_id := "record"; go_subject_id := g; go_operation_order := 2;
     go_state := ClosureRevoked; go_state_sha256 := sample_hex |}.

Definition sample_closure : GrantClosureReceipt :=
  {| gc_schema := GRANT_CLOSURE_SCHEMA; gc_version := GRANT_CLOSURE_VERSION;
     gc_operation_id := "op"; gc_idempotency_digest := sample_hex;
     gc_declaration := sample_declaration
       [sample_member "root" None; sample_member "leaf" (Some "root")];
     gc_authority := rc_authority plain_core; gc_proof_ceiling := Observation;
     gc_authority_receipt := {| gr_receipt_id := "revocation-op"; gr_snapshot_id := "snapshot";
                                gr_authority_epoch := authority_epoch sample_receipt_fence;
                                gr_state := ClosureRevoked |};
     gc_ors_member_receipts := [sample_ors "root"; sample_ors "leaf"];
     gc_fenced_introductions := []; gc_ors_introduction_receipts := [];
     gc_canonical_receipt := None; gc_state := ClosureRevoked |}.
End Sample.

(** What the sha2 crate documents of [Sha256::digest]: thirty-two bytes. *)
Definition sha256_output (sha256 : list Z -> list Z) : Prop :=
  forall bs, length (sha256 bs) = 32%nat /\ Forall is_byte (sha256 bs).

Lemma zero_sha256_output : sha256_output zero_sha256.
Proof.
  intros bs. split; [done|]. unfold zero_sha256, is_byte.
  repeat (constructor; [lia|]). constructor.
Qed.

Lemma sha256_hex_ok sha256 bs :
  sha256_output sha256 -> identity_validate
    {| ri_receipt_id := "receipt-" ++ sha256_hex sha256 bs;
       ri_canonical_sha256 := sha256_hex sha256 bs |} = Ok tt /\
  string_id_new "receipt_id" ("receipt-" ++ sha256_hex sha256 bs) =
    Ok ("receipt-" ++ sha256_hex sha256 bs).
Proof.
  intros Hsha. destruct (Hsha bs) as [Hlen Hb]. unfold identity_validate, digest, sha256_hex. simpl.
  rewrite hex_encode_len, Hlen, hex_encode_lower by done. split; [done|].
  assert (Ht : text_ok ("receipt-" ++ hex_encode (sha256 bs)) = true).
  { apply (text_ok_app_ascii "receipt" _ "-"); [done|done|by apply hex_encode_clean|done]. }
  unfold text_ok in Ht. bool_facts. unfold string_id_new, validate_text.
  simpl in *. by rewrite H, H0.
Qed.

(** What a validated envelope says of its canonical bytes. *)
Lemma envelope_digest sha256 canonical_json_bytes e :
  envelope_validate sha256 canonical_json_bytes e = Ok tt ->
  exists bs, canonical_json_bytes (re_core e) = Ok bs /\
    ri_canonical_sha256 (re_identity e) = sha256_hex sha256 bs /\
    ri_receipt_id (re_identity e) = "receipt-" ++ sha256_hex sha256 bs.
Proof.
  unfold envelope_validate, core_digest. intros H. next_check H Hid. next_check H Hc.
  apply rbind_ok in H as (d & Hd & H). apply rbind_ok in Hd as (bs & Hb & [= <-]).
  apply map_err_ok in Hb. rewrite guard_err_ok in H. bool_facts. by exists bs.
Qed.

(** ** Theorems *)

(** Issue and check round trip: from any valid core the receipt is
    issued, keeps the core unchanged and gets the identity derived from its
    canonical bytes; the issued envelope passes the full validation again
    exactly when that identity is not among its own predecessors. *)
Theorem receipt_issue_validates (sha256 : list Z -> list Z)
    (canonical_json_bytes : ReceiptCore -> result string (list Z)) (core : ReceiptCore) (bs : list Z)
    (Hsha : sha256_output sha256) (Hcore : validate_core core None = Ok tt)
    (Hjson : canonical_json_bytes core = Ok bs) :
  let id := "receipt-" ++ sha256_hex sha256 bs in
  exists env, issue sha256 canonical_json_bytes core = Ok env /\ re_core env = core /\
    re_identity env = {| ri_receipt_id := id; ri_canonical_sha256 := sha256_hex sha256 bs |} /\
    (envelope_validate sha256 canonical_json_bytes env = Ok tt <->
     id ∉ cb_predecessor_receipt_ids (rc_causal core)).
Proof.
  cbv zeta. destruct (sha256_hex_ok sha256 bs Hsha) as [Hid Hnew].
  unfold issue. rewrite Hcore. simpl. unfold core_digest. rewrite Hjson. simpl rbind.
  rewrite Hnew. simpl rbind. eexists. split_and!; [done|done|done|].
  unfold envelope_validate. simpl re_identity. rewrite Hid. simpl rbind. simpl re_core.
  unfold core_digest. rewrite Hjson. simpl rbind.
  rewrite rbind_ok. setoid_rewrite guard_err_ok. simpl ri_canonical_sha256. simpl ri_receipt_id.
  rewrite !bool_decide_true by done. simpl. split.
  - intros ([] & H & _). by apply validate_core_id in H as [_ ?].
  - intros H. exists tt. split; [|done]. by apply validate_core_id.
Qed.

Lemma receipt_issue_validates_witness :
  exists env, issue zero_sha256 no_json plain_core = Ok env /\
              envelope_validate zero_sha256 no_json env = Ok tt.
Proof.
  destruct (receipt_issue_validates zero_sha256 no_json plain_core [] zero_sha256_output
              ltac:(vm_compute; reflexivity) eq_refl) as (env & H & _ & _ & Hv).
  exists env. split; [exact H|]. apply Hv. apply not_elem_of_nil.
Defined.

(** A validated receipt is coherent: every binding carries the same
    State Fence and authority epoch, the operation reports the bound request,
    predecessors are distinct and contain the parent, only a first receipt may
    lack one, and the verifier names distinct artifacts of the receipt and
    claims no more than the disposition. *)
Theorem receipt_validated_coherent (sha256 : list Z -> list Z)
    (canonical_json_bytes : ReceiptCore -> result string (list Z)) (env : ReceiptEnvelope)
    (Hv : envelope_validate sha256 canonical_json_bytes env = Ok tt) :
  core_coherent (re_core env) /\
  ri_receipt_id (re_identity env) ∉ cb_predecessor_receipt_ids (rc_causal (re_core env)).
Proof.
  unfold envelope_validate in Hv. next_check Hv Hid. next_check Hv Hcore.
  split; [by eapply validate_core_coherent|]. by apply validate_core_id in Hcore as [_ ?].
Qed.

Lemma receipt_validated_coherent_witness :
  exists env, envelope_validate zero_sha256 no_json env = Ok tt /\ core_coherent (re_core env).
Proof.
  destruct (issue zero_sha256 no_json plain_core) as [env|] eqn:E; [|vm_compute in E; discriminate].
  assert (Hv : envelope_validate zero_sha256 no_json env = Ok tt)
    by (vm_compute in E; injection E as <-; vm_compute; reflexivity).
  exists env. split; [exact Hv|].
  exact (proj1 (receipt_validated_coherent zero_sha256 no_json env Hv)).
Defined.

(** The receipt id binds the content: two envelopes that both validate
    and carry the same receipt id have canonical bytes with the same SHA-256
    digest, so a change of the core that keeps the id needs a collision. *)
Theorem receipt_id_binds_content (sha256 : list Z -> list Z)
    (canonical_json_bytes : ReceiptCore -> result string (list Z)) (e1 e2 : ReceiptEnvelope)
    (Hsha : sha256_output sha256)
    (H1 : envelope_validate sha256 canonical_json_bytes e1 = Ok tt)
    (H2 : envelope_validate sha256 canonical_json_bytes e2 = Ok tt)
    (Hid : ri_receipt_id (re_identity e1) = ri_receipt_id (re_identity e2)) :
  exists b1 b2, canonical_json_bytes (re_core e1) = Ok b1 /\
    canonical_json_bytes (re_core e2) = Ok b2 /\ sha256 b1 = sha256 b2 /\
    ri_canonical_sha256 (re_identity e1) = ri_canonical_sha256 (re_identity e2).
Proof.
  destruct (envelope_digest _ _ _ H1) as (b1 & Hb1 & Hc1 & Hi1).
  destruct (envelope_digest _ _ _ H2) as (b2 & Hb2 & Hc2 & Hi2).
  exists b1, b2. rewrite Hi1, Hi2 in Hid. simpl in Hid. injection Hid as Hid.
  split_and!; [done|done| |by rewrite Hc1, Hc2; exact Hid].
  apply hex_encode_inj; [apply Hsha|apply Hsha|]. exact Hid.
Qed.

Lemma receipt_id_binds_content_witness :
  exists env b1 b2, envelope_validate zero_sha256 no_json env = Ok tt /\
    no_json (re_core env) = Ok b1 /\ no_json (re_core env) = Ok b2 /\
    zero_sha256 b1 = zero_sha256 b2.
Proof.
  destruct (issue zero_sha256 no_json plain_core) as [env|] eqn:E; [|vm_compute in E; discriminate].
  assert (Hv : envelope_validate zero_sha256 no_json env = Ok tt)
    by (vm_compute in E; injection E as <-; vm_compute; reflexivity).
  destruct (receipt_id_binds_content zero_sha256 no_json env env zero_sha256_output Hv Hv eq_refl)
    as (b1 & b2 & H1 & H2 & H3 & _).
  exists env, b1, b2. split; [exact Hv|]. split; [exact H1|]. split; [exact H2|exact H3].
Defined.

(** The ceilings of a receipt are recorded, not enforced: a receipt
    validates although its operation has an external effect where the
    authority allows reading only, and although it claims a proof above both
    the authority's ceiling and what its verifier reached. *)
Theorem receipt_may_exceed_authority :
  exists core v, validate_core core None = Ok tt /\
    effect_rank (ab_allowed_effect (rc_authority core)) < effect_rank (op_effect (rc_operation core)) /\
    ceiling_gt (disposition_proof (rc_disposition core)) (ab_proof_ceiling (rc_authority core)) = true /\
    rc_verifier core = Some v /\
    ceiling_gt (disposition_proof (rc_disposition core)) (vb_proof_ceiling v) = true.
Proof.
  exists (sample_core ExternalEffect Read Observation ObservedExternalEffect Observation).
  eexists. split_and!; [vm_compute; reflexivity|done|done|done|done].
Qed.

(** A valid grant closure is a tree listing: it starts with its target,
    its members are distinct, and every later member names as parent an
    earlier member, a preserved grant, or itself; no preserved alternate path
    shares a grant with the members. *)
Theorem grant_closure_ordered (d : GrantClosureDeclaration)
    (Hd : declaration_validate d = Ok tt) :
  NoDup (gm_grant_id <$> gd_members d) /\
  (exists m, gd_members d !! 0%nat = Some m /\ gm_grant_id m = gd_target_grant_id d) /\
  (forall i m, gd_members d !! S i = Some m ->
     member_placed (ga_grant_id <$> gd_preserved d) (take (S i) (gd_members d)) m) /\
  Forall (fun a => ga_grant_id a ∉ gm_grant_id <$> gd_members d /\
                   ga_covering_grant_id a ∉ gm_grant_id <$> gd_members d /\
                   ga_covering_grant_id a <> ga_grant_id a) (gd_preserved d).
Proof.
  unfold declaration_validate in Hd. next_check Hd H1. next_check Hd H2. next_check Hd H3.
  next_check Hd H4. apply rbind_ok in Hd as (seen & Hs & Hd). next_check Hd Hp.
  apply scan_members_ok in Hs as (Hnd & -> & Hfirst & Hrest). rewrite guard_err_ok in H4.
  split_and!; [done| |done|].
  - destruct (gd_members d) as [|m l] eqn:Hm; [by rewrite orb_true_r in H4|].
    exists m. split; [done|]. by apply Hfirst.
  - apply for_each_ok in Hp. eapply Forall_impl; [exact Hp|]. intros a Ha. cbv beta in Ha.
    unfold alternate_validate in Ha. do 10 (apply rbind_ok in Ha as ([] & _ & Ha)).
    rewrite guard_err_ok in Ha. bool_facts. by rewrite elem_of_list_to_set in *.
Qed.

Lemma grant_closure_ordered_witness :
  member_placed [] [sample_member "root" None] (sample_member "leaf" (Some "root")).
Proof.
  destruct (grant_closure_ordered (gc_declaration sample_closure) ltac:(vm_compute; reflexivity))
    as (_ & _ & H & _).
  exact (H 0%nat (sample_member "leaf" (Some "root")) eq_refl).
Defined.

(** The parent-before-child test admits a member that is its own parent,
    because a member is marked as seen before its parent is looked up. *)
Theorem grant_closure_accepts_self_parent :
  declaration_validate (sample_declaration
    [sample_member "root" None; sample_member "loop" (Some "loop")]) = Ok tt.
Proof. vm_compute. reflexivity. Qed.

(** A valid closure receipt is complete: it holds one store receipt per
    declared member, in the same order, for that member's grant and in the
    closure's state; its authority receipt is of the closure's epoch and
    state and is named after the operation, and its proof claim exceeds
    neither the authority's nor the declaration's. *)
Theorem closure_receipt_complete (r : GrantClosureReceipt)
    (Hr : closure_receipt_validate r = Ok tt) :
  Forall2 (fun m o => go_subject_id o = gm_grant_id m /\ go_state o = gc_state r /\
                      go_operation_order o <> 0)
    (gd_members (gc_declaration r)) (gc_ors_member_receipts r) /\
  gr_authority_epoch (gc_authority_receipt r) = authority_epoch (ab_state_fence (gc_authority r)) /\
  gr_state (gc_authority_receipt r) = gc_state r /\
  gr_receipt_id (gc_authority_receipt r) =
    expected_authority_receipt (gc_state r) (gc_operation_id r) /\
  ceiling_rank (gc_proof_ceiling r) <= ceiling_rank (ab_proof_ceiling (gc_authority r)) /\
  ceiling_rank (gc_proof_ceiling r) <= ceiling_rank (gd_proof_ceiling (gc_declaration r)).
Proof.
  unfold closure_receipt_validate in Hr. cbv zeta in Hr. next_check Hr H1. next_check Hr H2.
  next_check Hr Hau. next_check Hr H3. next_check Hr H4. next_check Hr Hpc. next_check Hr H5.
  next_check Hr H6. next_check Hr Har. next_check Hr Hlen. next_check Hr Hm.
  rewrite guard_err_ok in Hpc, Har, Hlen. bool_facts. unfold ceiling_gt in *.
  rewrite Nat.eqb_eq in Hlen. unfold authority_binding_validate in Hau.
  next_check Hau Ha1. next_check Hau Ha2. rewrite guard_err_ok in Hau. bool_facts.
  rewrite is_same_authority_eq in Hau.
  split_and!; try done; try lia; [|congruence].
  apply scan_member_receipts_ok in Hm. apply Forall2_same_length_lookup.
  split; [done|]. intros i m o Hm0 Ho. rewrite Forall_lookup in Hm.
  apply (Hm i (m, o)). apply lookup_zip_with_Some. by exists m, o.
Qed.

Lemma closure_receipt_complete_witness :
  gr_receipt_id (gc_authority_receipt sample_closure) = "revocation-op" /\
  go_subject_id <$> gc_ors_member_receipts sample_closure = ["root"; "leaf"].
Proof.
  destruct (closure_receipt_complete sample_closure ltac:(vm_compute; reflexivity))
    as (_ & _ & _ & H & _).
  split; [exact H|reflexivity].
Defined.
