(* ===== verification/Budget.v ===== *)
(** * Budget ledger

    The Governor's budget, quota and admission-reservation core
    (crates/governor/eliot-budget/src/lib.rs): the immutable envelope, the
    reservation lifecycle with its four running totals, refunds, and the
    recovery snapshot. Each operation of [BudgetLedger] is a definition over
    the ledger; [reachable_ledger] closes [new] under them. *)

From Stdlib Require Import String.
From S2P Require Import Prelude RustText Contracts Receipts.

#[local] Open Scope string_scope.
#[local] Open Scope Z_scope.

(** ** Data *)

(** The [Authority] variant wraps an error of another crate that no function
    of this one produces; it has no constructor here. *)
Inductive BudgetError : Type :=
| InvalidField (field : string)
| InvalidQuotaWindowTime (window_id : string)
| DuplicateWindow (window_id : string)
| UnknownReservation (key : string)
| UnknownEnvelope (envelope_id : string)
| PolicyNotApplicable
| MissingEstimate (field : string)
| QuotaUnavailable (window_id : string)
| QuotaExhausted (window_id : string)
| CostExceededError
| UnauthorizedFallback
| InvalidLifecycleTransition
| FenceMismatch
| EpochMismatch
| Receipt (e : ReceiptError)
| IdempotencyConflict
| UnknownOutcomeRequiresReconciliation
| UsageUnavailable (field : string)
| OutcomeNotTerminal
| RefundExceedsCommitted
| ReceiptReferenceConflict
| PoisonedState.

Abbreviation BR := (result BudgetError).

Definition budget_text (value field : string) : BR unit :=
  guard_err (is_blank value || has_control value) (InvalidField field).

Inductive ObservedAmount : Type :=
| Known (value : Z)
| Estimated (value : Z)
| AmountUnknown
| NotExposed
| NotApplicable.

#[global] Instance ObservedAmount_eq_dec : EqDecision ObservedAmount.
Proof. solve_decision. Defined.

Definition measured (a : ObservedAmount) (field : string) : BR (option Z) :=
  match a with
  | Known value => Ok (Some value)
  | NotApplicable => Ok None
  | Estimated _ | AmountUnknown | NotExposed => Err (UsageUnavailable field)
  end.

(** [measured(field)?.ok_or(UsageUnavailable(field))?] *)
Definition measured_some (a : ObservedAmount) (field : string) : BR Z :=
  let? m := measured a field in ok_or m (UsageUnavailable field).

Inductive QuotaState : Type :=
| QuotaKnown (remaining : Z)
| QuotaUnknown
| QuotaNotExposed
| QuotaStale
| QuotaIsExhausted.

Record QuotaWindow : Type := {
  window_id : string;
  qw_state : QuotaState;
  source_ref : string;
  confidence_ref : string;
  observed_at_unix_ms : Z;
  reset_at_unix_ms : option Z;
}.

Record ProviderToolAttribution : Type := {
  provider_ref : string;
  tool_ref : string;
}.

#[global] Instance ProviderToolAttribution_eq_dec : EqDecision ProviderToolAttribution.
Proof. solve_decision. Defined.

Definition provider_tool_validate (p : ProviderToolAttribution) : BR unit :=
  check? budget_text (provider_ref p) "provider_ref";
  budget_text (tool_ref p) "tool_ref".

Record ReceiptLocator : Type := {
  rl_identity : ReceiptIdentity;
  rl_receipt_kind : ReceiptKind;
  rl_operation : OperationBinding;
  rl_authority : AuthorityBinding;
  rl_provider_tool : ProviderToolAttribution;
  rl_disposition : ReceiptDispositionKind;
}.

#[global] Instance ReceiptLocator_eq_dec : EqDecision ReceiptLocator.
Proof. solve_decision. Defined.

(** crates/governor/eliot-config/src/lib.rs *)
Inductive Applicability : Type :=
| Applicable
| Degraded
| Narrowed
| Unqualified
| Unsupported
| Conflicted
| ApplicabilityUnknown.

#[global] Instance Applicability_eq_dec : EqDecision Applicability.
Proof. solve_decision. Defined.

(** crates/foundation/eliot-evaluation-contracts/src/lib.rs *)
Inductive TrialStatus : Type :=
| Planned
| Running
| Succeeded
| Failed
| TrialPartial
| Excluded
| Censored
| Contaminated
| TrialUnknown.

#[global] Instance TrialStatus_eq_dec : EqDecision TrialStatus.
Proof. solve_decision. Defined.

Record BudgetEnvelope : Type := {
  be_envelope_id : string;
  policy_snapshot_id : string;
  applicability : Applicability;
  automation_policy_ref : string;
  cost_authority_ref : string;
  be_provider_tool : ProviderToolAttribution;
  max_cost_micros : option Z;
  quota_windows : list QuotaWindow;
}.

Record MeasuredUsage : Type := {
  mu_provider_tool : ProviderToolAttribution;
  mu_operation : OperationBinding;
  mu_provider_receipt_ref : ReceiptLocator;
  mu_cost_micros : ObservedAmount;
  mu_quota_units : ObservedAmount;
  mu_status : TrialStatus;
}.

#[global] Instance MeasuredUsage_eq_dec : EqDecision MeasuredUsage.
Proof. solve_decision. Defined.

Record RefundObservation : Type := {
  ro_observation_id : string;
  ro_provider_tool : ProviderToolAttribution;
  ro_operation : OperationBinding;
  ro_provider_receipt_ref : ReceiptLocator;
  ro_cost_micros : ObservedAmount;
  ro_status : TrialStatus;
}.

#[global] Instance RefundObservation_eq_dec : EqDecision RefundObservation.
Proof. solve_decision. Defined.

Inductive ReservationState : Type :=
| StagedInactive
| Active
| Reconciling
| Released
| Expired.

#[global] Instance ReservationState_eq_dec : EqDecision ReservationState.
Proof. solve_decision. Defined.

Definition holds_capacity (s : ReservationState) : bool :=
  match s with
  | StagedInactive | Active | Reconciling => true
  | Released | Expired => false
  end.

Inductive ExhaustionDisposition : Type :=
| WithinEnvelope
| CostExceeded
| QuotaExceeded (window_ids : list string)
| CostAndQuotaExceeded (window_ids : list string).

#[global] Instance ExhaustionDisposition_eq_dec : EqDecision ExhaustionDisposition.
Proof. solve_decision. Defined.

Definition disposition_refuses (d : ExhaustionDisposition) : bool :=
  match d with
  | WithinEnvelope => false
  | CostExceeded | QuotaExceeded _ | CostAndQuotaExceeded _ => true
  end.

Record ReservationRequest : Type := {
  rq_envelope_id : string;
  rq_operation : OperationBinding;
  rq_authority : AuthorityBinding;
  rq_provider_tool : ProviderToolAttribution;
  rq_estimated_cost_micros : option Z;
  rq_estimated_quota_units : option Z;
}.

Record ReservationReceipt : Type := {
  reservation_id : string;
  rr_envelope_id : string;
  rr_idempotency_key : string;
  rr_operation : OperationBinding;
  rr_authority : AuthorityBinding;
  rr_provider_tool : ProviderToolAttribution;
  rr_state : ReservationState;
  rr_disposition : ReceiptDispositionKind;
  exhaustion_disposition_of : ExhaustionDisposition;
  canonical_admission_receipt_ref : option ReceiptLocator;
  activation_receipt_ref : option ReceiptLocator;
  committed_usage : option MeasuredUsage;
  refund_observations : list RefundObservation;
  estimated_cost_micros : option Z;
  estimated_quota_units : option Z;
}.

#[global] Instance ReservationReceipt_eq_dec : EqDecision ReservationReceipt.
Proof. solve_decision. Defined.

Record BudgetLedger : Type := {
  bl_envelope : BudgetEnvelope;
  bl_authority : AuthorityBinding;
  reservations : gmap string ReservationReceipt;
  next_reservation : Z;
  reserved_cost_micros : Z;
  reserved_quota_units : Z;
  committed_cost_micros : Z;
  committed_quota_units : Z;
}.

(** ** Validation of the parts *)

Definition validate_operation_authority (operation : OperationBinding)
    (authority : AuthorityBinding) : BR unit :=
  check? budget_text (op_idempotency_key operation) "operation.idempotency_key";
  check? budget_text (op_operation_kind operation) "operation.operation_kind";
  check? budget_text (ab_authority_owner authority) "authority.authority_owner";
  check? map_err (fun _ => FenceMismatch) (StateFence_validate (op_state_fence operation));
  check? map_err (fun _ => FenceMismatch) (StateFence_validate (ab_state_fence authority));
  check? guard_err (op_state_fence operation != ab_state_fence authority) FenceMismatch;
  guard_err (negb (is_same_authority (authority_epoch (op_state_fence operation))
                     (ab_authority_epoch authority))) EpochMismatch.

Definition validate_base (l : ReceiptLocator) : BR unit :=
  let sha := ri_canonical_sha256 (rl_identity l) in
  check? budget_text sha "receipt.canonical_sha256";
  check? guard_err (negb (len sha =? 64)
                    || existsb (fun b => negb (is_ascii_hexdigit b) || is_ascii_uppercase b)
                         (bytes sha))
           (InvalidField "receipt.canonical_sha256");
  check? provider_tool_validate (rl_provider_tool l);
  validate_operation_authority (rl_operation l) (rl_authority l).

Definition validate_for (l : ReceiptLocator) (authority : AuthorityBinding)
    (provider_tool : ProviderToolAttribution) (expected_kind : ReceiptKind) : BR unit :=
  check? validate_base l;
  check? guard_err (ab_state_fence (rl_authority l) != ab_state_fence authority) FenceMismatch;
  check? guard_err (negb (is_same_authority (ab_authority_epoch (rl_authority l))
                            (ab_authority_epoch authority))) EpochMismatch;
  guard_err ((rl_authority l != authority) || (rl_provider_tool l != provider_tool)
             || (rl_receipt_kind l != expected_kind)) ReceiptReferenceConflict.

Definition validate_observation_for (l : ReceiptLocator) (authority : AuthorityBinding)
    (provider_tool : ProviderToolAttribution) (operation : OperationBinding) : BR unit :=
  check? validate_for l authority provider_tool KindOperation;
  guard_err (rl_operation l != operation) ReceiptReferenceConflict.

Section Locators.
Variable sha256 : list Z -> list Z.
Variable canonical_json_bytes : ReceiptCore -> result string (list Z).

Definition from_receipt (receipt : ReceiptEnvelope) (provider_tool : ProviderToolAttribution)
    : BR ReceiptLocator :=
  check? map_err Receipt (envelope_validate sha256 canonical_json_bytes receipt);
  check? provider_tool_validate provider_tool;
  Ok {| rl_identity := re_identity receipt;
        rl_receipt_kind := rc_kind (re_core receipt);
        rl_operation := rc_operation (re_core receipt);
        rl_authority := rc_authority (re_core receipt);
        rl_provider_tool := provider_tool;
        rl_disposition := disposition_kind (rc_disposition (re_core receipt)) |}.
End Locators.

Definition quota_window_validate (w : QuotaWindow) : BR unit :=
  check? budget_text (window_id w) "quota.window_id";
  check? budget_text (source_ref w) "quota.source_ref";
  check? budget_text (confidence_ref w) "quota.confidence_ref";
  guard_err (match reset_at_unix_ms w with
             | Some reset => reset <? observed_at_unix_ms w
             | None => false
             end) (InvalidQuotaWindowTime (window_id w)).

Definition BudgetEnvelope_validate (e : BudgetEnvelope) : BR unit :=
  check? budget_text (be_envelope_id e) "envelope_id";
  check? budget_text (policy_snapshot_id e) "policy_snapshot_id";
  check? budget_text (automation_policy_ref e) "automation_policy_ref";
  check? budget_text (cost_authority_ref e) "cost_authority_ref";
  check? provider_tool_validate (be_provider_tool e);
  check? guard_err (applicability e != Applicable) PolicyNotApplicable;
  check? guard_err (match quota_windows e with [] => true | _ => false end)
           (InvalidField "quota_windows");
  check? scan_distinct quota_window_validate window_id (fun w => DuplicateWindow (window_id w))
           ∅ (quota_windows e);
  Ok tt.

Definition disposition_for_status (status : TrialStatus) : BR ReceiptDispositionKind :=
  match status with
  | Succeeded => Ok Success
  | TrialPartial => Ok Partial
  | Failed | Excluded | Censored | Contaminated => Ok Failure
  | Planned | Running | TrialUnknown => Err OutcomeNotTerminal
  end.

Definition add_optional (total : Z) (value : option Z) : BR Z :=
  match value with
  | Some value => ok_or (checked_add total value) PoisonedState
  | None => Ok total
  end.

Definition subtract_optional (total : Z) (value : option Z) : BR Z :=
  match value with
  | Some value => ok_or (checked_sub total value) PoisonedState
  | None => Ok total
  end.

(** One round of the loop of [refunded_cost_micros]. *)
Definition add_refund (total : option Z) (observation : RefundObservation) : BR (option Z) :=
  let? amount := measured_some (ro_cost_micros observation) "refund.cost_micros" in
  match total with
  | Some existing =>
      let? sum := ok_or (checked_add existing amount) PoisonedState in Ok (Some sum)
  | None => Ok (Some amount)
  end.

Definition refunded_cost_micros (r : ReservationReceipt) : BR (option Z) :=
  fold_res add_refund None (refund_observations r).

(** ** The ledger's queries *)

Definition BudgetLedger_new (envelope : BudgetEnvelope) (authority : AuthorityBinding)
    : BR BudgetLedger :=
  check? BudgetEnvelope_validate envelope;
  check? map_err (fun _ => FenceMismatch) (StateFence_validate (ab_state_fence authority));
  check? guard_err (negb (is_same_authority (ab_authority_epoch authority)
                            (authority_epoch (ab_state_fence authority)))) EpochMismatch;
  Ok {| bl_envelope := envelope; bl_authority := authority; reservations := ∅;
        next_reservation := 1; reserved_cost_micros := 0; reserved_quota_units := 0;
        committed_cost_micros := 0; committed_quota_units := 0 |}.

Definition window_exhausted (total_quota_units : Z) (w : QuotaWindow) : bool :=
  match qw_state w with
  | QuotaKnown remaining => remaining <? total_quota_units
  | QuotaIsExhausted => true
  | QuotaUnknown | QuotaNotExposed | QuotaStale => false
  end.

Definition exhausted_windows (windows : list QuotaWindow) (total_quota_units : Z) : list string :=
  window_id <$> List.filter (window_exhausted total_quota_units) windows.

Definition classify_exhaustion (envelope : BudgetEnvelope)
    (committed_cost reserved_cost committed_quota reserved_quota : Z) : BR ExhaustionDisposition :=
  let? total_cost_micros := ok_or (checked_add committed_cost reserved_cost) PoisonedState in
  let? total_quota_units := ok_or (checked_add committed_quota reserved_quota) PoisonedState in
  let cost_exceeded := match max_cost_micros envelope with
                       | Some limit => limit <? total_cost_micros
                       | None => false
                       end in
  Ok (match cost_exceeded, exhausted_windows (quota_windows envelope) total_quota_units with
      | false, [] => WithinEnvelope
      | true, [] => CostExceeded
      | false, window_ids => QuotaExceeded window_ids
      | true, window_ids => CostAndQuotaExceeded window_ids
      end).

Definition exhaustion_disposition (l : BudgetLedger) : BR ExhaustionDisposition :=
  classify_exhaustion (bl_envelope l) (committed_cost_micros l) (reserved_cost_micros l)
    (committed_quota_units l) (reserved_quota_units l).

Definition refuses_new_paid_work (l : BudgetLedger) : BR bool :=
  let? disposition := exhaustion_disposition l in Ok (disposition_refuses disposition).

Definition validate_request (l : BudgetLedger) (request : ReservationRequest) : BR unit :=
  check? budget_text (rq_envelope_id request) "envelope_id";
  check? provider_tool_validate (rq_provider_tool request);
  check? guard_err (rq_envelope_id request != be_envelope_id (bl_envelope l))
           (UnknownEnvelope (rq_envelope_id request));
  check? guard_err (rq_provider_tool request != be_provider_tool (bl_envelope l))
           UnauthorizedFallback;
  check? guard_err (rq_authority request != bl_authority l) FenceMismatch;
  check? validate_operation_authority (rq_operation request) (rq_authority request);
  budget_text (op_idempotency_key (rq_operation request)) "idempotency_key".

(** [validate_usage] and [validate_refund] after their lookup of the
    reservation. *)
Definition usage_matches (receipt : ReservationReceipt) (usage : MeasuredUsage) : BR unit :=
  check? guard_err (mu_provider_tool usage != rr_provider_tool receipt) UnauthorizedFallback;
  check? guard_err (mu_operation usage != rr_operation receipt) FenceMismatch;
  check? validate_observation_for (mu_provider_receipt_ref usage) (rr_authority receipt)
           (mu_provider_tool usage) (mu_operation usage);
  let? expected := disposition_for_status (mu_status usage) in
  check? guard_err (rl_disposition (mu_provider_receipt_ref usage) != expected)
           ReceiptReferenceConflict;
  check? measured (mu_cost_micros usage) "usage.cost_micros";
  check? measured (mu_quota_units usage) "usage.quota_units";
  Ok tt.

Definition validate_usage (l : BudgetLedger) (key : string) (usage : MeasuredUsage) : BR unit :=
  check? provider_tool_validate (mu_provider_tool usage);
  let? receipt := ok_or (reservations l !! key) (UnknownReservation key) in
  usage_matches receipt usage.

Definition refund_matches (receipt : ReservationReceipt) (observation : RefundObservation)
    : BR unit :=
  check? guard_err (ro_provider_tool observation != rr_provider_tool receipt)
           UnauthorizedFallback;
  check? guard_err (ro_operation observation != rr_operation receipt) FenceMismatch;
  check? validate_observation_for (ro_provider_receipt_ref observation) (rr_authority receipt)
           (ro_provider_tool observation) (ro_operation observation);
  check? guard_err (ro_status observation != Succeeded) OutcomeNotTerminal;
  check? guard_err (rl_disposition (ro_provider_receipt_ref observation) != Success)
           ReceiptReferenceConflict;
  check? measured_some (ro_cost_micros observation) "refund.cost_micros";
  Ok tt.

Definition validate_refund (l : BudgetLedger) (key : string) (observation : RefundObservation)
    : BR unit :=
  check? budget_text (ro_observation_id observation) "refund.observation_id";
  check? provider_tool_validate (ro_provider_tool observation);
  let? receipt := ok_or (reservations l !! key) (UnknownReservation key) in
  refund_matches receipt observation.

(** [a.checked_add(b).and_then(|v| v.checked_add(c)).ok_or(PoisonedState)] *)
Definition checked_add3 (a b c : Z) : BR Z :=
  ok_or (checked_add a b ≫= fun v => checked_add v c) PoisonedState.

Definition window_admits (l : BudgetLedger) (quota : Z) (w : QuotaWindow) : BR unit :=
  match qw_state w with
  | QuotaKnown remaining =>
      let? used := checked_add3 (committed_quota_units l) (reserved_quota_units l) quota in
      guard_err (remaining <? used) (QuotaExhausted (window_id w))
  | QuotaIsExhausted => Err (QuotaExhausted (window_id w))
  | QuotaUnknown | QuotaNotExposed | QuotaStale => Err (QuotaUnavailable (window_id w))
  end.

Definition check_capacity (l : BudgetLedger) (cost quota : option Z) : BR unit :=
  check? guard_err (is_some (max_cost_micros (bl_envelope l)) && (cost == None))
           (MissingEstimate "estimated_cost_micros");
  check? guard_err (quota == None) (MissingEstimate "estimated_quota_units");
  check? (match cost, max_cost_micros (bl_envelope l) with
          | Some cost, Some limit =>
              let? total := checked_add3 (committed_cost_micros l) (reserved_cost_micros l) cost in
              guard_err (limit <? total) CostExceededError
          | _, _ => Ok tt
          end);
  let? quota := ok_or quota (MissingEstimate "estimated_quota_units") in
  for_each (window_admits l quota) (quota_windows (bl_envelope l)).

Definition same_request (receipt : ReservationReceipt) (request : ReservationRequest) : bool :=
  (rr_envelope_id receipt == rq_envelope_id request)
  && (rr_operation receipt == rq_operation request)
  && (rr_authority receipt == rq_authority request)
  && (rr_provider_tool receipt == rq_provider_tool request)
  && (estimated_cost_micros receipt == rq_estimated_cost_micros request)
  && (estimated_quota_units receipt == rq_estimated_quota_units request).

Definition validate_transition_authority (ledger_authority authority : AuthorityBinding)
    (receipt : ReservationReceipt) : BR unit :=
  check? guard_err ((authority != ledger_authority) || (rr_authority receipt != authority))
           FenceMismatch;
  validate_operation_authority (rr_operation receipt) authority.

(** ** The ledger's operations *)

Abbreviation LM := (M BudgetLedger BudgetError).

(** Field assignments of [ReservationReceipt]. *)
Definition set_exhaustion (d : ExhaustionDisposition) (r : ReservationReceipt)
    : ReservationReceipt :=
  {| reservation_id := reservation_id r; rr_envelope_id := rr_envelope_id r;
     rr_idempotency_key := rr_idempotency_key r; rr_operation := rr_operation r;
     rr_authority := rr_authority r; rr_provider_tool := rr_provider_tool r;
     rr_state := rr_state r; rr_disposition := rr_disposition r;
     exhaustion_disposition_of := d;
     canonical_admission_receipt_ref := canonical_admission_receipt_ref r;
     activation_receipt_ref := activation_receipt_ref r; committed_usage := committed_usage r;
     refund_observations := refund_observations r;
     estimated_cost_micros := estimated_cost_micros r;
     estimated_quota_units := estimated_quota_units r |}.

Definition set_activation (admission activation : ReceiptLocator) (r : ReservationReceipt)
    : ReservationReceipt :=
  {| reservation_id := reservation_id r; rr_envelope_id := rr_envelope_id r;
     rr_idempotency_key := rr_idempotency_key r; rr_operation := rr_operation r;
     rr_authority := rr_authority r; rr_provider_tool := rr_provider_tool r;
     rr_state := Active; rr_disposition := rr_disposition r;
     exhaustion_disposition_of := exhaustion_disposition_of r;
     canonical_admission_receipt_ref := Some admission;
     activation_receipt_ref := Some activation; committed_usage := committed_usage r;
     refund_observations := refund_observations r;
     estimated_cost_micros := estimated_cost_micros r;
     estimated_quota_units := estimated_quota_units r |}.

Definition set_outcome (state : ReservationState) (disposition : ReceiptDispositionKind)
    (usage : option MeasuredUsage) (r : ReservationReceipt) : ReservationReceipt :=
  {| reservation_id := reservation_id r; rr_envelope_id := rr_envelope_id r;
     rr_idempotency_key := rr_idempotency_key r; rr_operation := rr_operation r;
     rr_authority := rr_authority r; rr_provider_tool := rr_provider_tool r;
     rr_state := state; rr_disposition := disposition;
     exhaustion_disposition_of := exhaustion_disposition_of r;
     canonical_admission_receipt_ref := canonical_admission_receipt_ref r;
     activation_receipt_ref := activation_receipt_ref r; committed_usage := usage;
     refund_observations := refund_observations r;
     estimated_cost_micros := estimated_cost_micros r;
     estimated_quota_units := estimated_quota_units r |}.

Definition push_refund (o : RefundObservation) (r : ReservationReceipt) : ReservationReceipt :=
  {| reservation_id := reservation_id r; rr_envelope_id := rr_envelope_id r;
     rr_idempotency_key := rr_idempotency_key r; rr_operation := rr_operation r;
     rr_authority := rr_authority r; rr_provider_tool := rr_provider_tool r;
     rr_state := rr_state r; rr_disposition := rr_disposition r;
     exhaustion_disposition_of := exhaustion_disposition_of r;
     canonical_admission_receipt_ref := canonical_admission_receipt_ref r;
     activation_receipt_ref := activation_receipt_ref r; committed_usage := committed_usage r;
     refund_observations := (refund_observations r ++ [o])%list;
     estimated_cost_micros := estimated_cost_micros r;
     estimated_quota_units := estimated_quota_units r |}.

(** The receipt [reserve] stages for a new key. *)
Definition staged_receipt (l : BudgetLedger) (request : ReservationRequest) : ReservationReceipt :=
  {| reservation_id := be_envelope_id (bl_envelope l) ++ "-" ++ u64_to_string (next_reservation l);
     rr_envelope_id := rq_envelope_id request;
     rr_idempotency_key := op_idempotency_key (rq_operation request);
     rr_operation := rq_operation request; rr_authority := rq_authority request;
     rr_provider_tool := rq_provider_tool request;
     rr_state := StagedInactive; rr_disposition := Unknown;
     exhaustion_disposition_of := WithinEnvelope;
     canonical_admission_receipt_ref := None; activation_receipt_ref := None;
     committed_usage := None; refund_observations := [];
     estimated_cost_micros := rq_estimated_cost_micros request;
     estimated_quota_units := rq_estimated_quota_units request |}.

Definition reserve (request : ReservationRequest) : LM ReservationReceipt :=
  let! l := mstate in
  do! mlift (validate_request l request);
  match reservations l !! op_idempotency_key (rq_operation request) with
  | Some existing =>
      if same_request existing request then mret_ok existing else mthrow IdempotencyConflict
  | None =>
      do! mlift (check_capacity l (rq_estimated_cost_micros request)
                   (rq_estimated_quota_units request));
      let receipt := staged_receipt l request in
      let! next := mlift (ok_or (checked_add (next_reservation l) 1) PoisonedState) in
      let! reserved_cost := mlift (add_optional (reserved_cost_micros l)
                                     (estimated_cost_micros receipt)) in
      let! reserved_quota := mlift (add_optional (reserved_quota_units l)
                                      (estimated_quota_units receipt)) in
      do! mmodify (fun s =>
        {| bl_envelope := bl_envelope s; bl_authority := bl_authority s;
           reservations := <[rr_idempotency_key receipt := receipt]> (reservations s);
           next_reservation := next; reserved_cost_micros := reserved_cost;
           reserved_quota_units := reserved_quota;
           committed_cost_micros := committed_cost_micros s;
           committed_quota_units := committed_quota_units s |});
      mret_ok receipt
  end.

(** The four totals after [before] became [receipt]: reserved cost, reserved
    quota, committed cost, committed quota. *)
Definition rebook (l : BudgetLedger) (before receipt : ReservationReceipt)
    : BR (Z * Z * Z * Z) :=
  let? (reserved_cost, reserved_quota) :=
    (if holds_capacity (rr_state before) && negb (holds_capacity (rr_state receipt)) then
       let? reserved_cost :=
         subtract_optional (reserved_cost_micros l) (estimated_cost_micros before) in
       let? reserved_quota :=
         subtract_optional (reserved_quota_units l) (estimated_quota_units before) in
       Ok (reserved_cost, reserved_quota)
     else Ok (reserved_cost_micros l, reserved_quota_units l)) in
  let? (committed_cost, committed_quota) :=
    (match committed_usage before, committed_usage receipt with
     | None, Some usage =>
         let? cost := measured (mu_cost_micros usage) "usage.cost_micros" in
         let? committed_cost := add_optional (committed_cost_micros l) cost in
         let? quota := measured (mu_quota_units usage) "usage.quota_units" in
         let? committed_quota := add_optional (committed_quota_units l) quota in
         Ok (committed_cost, committed_quota)
     | _, _ => Ok (committed_cost_micros l, committed_quota_units l)
     end) in
  let? committed_cost :=
    (if (length (refund_observations before) <? length (refund_observations receipt))%nat then
       let? observation := ok_or (last (refund_observations receipt)) PoisonedState in
       let? refund := measured_some (ro_cost_micros observation) "refund.cost_micros" in
       ok_or (checked_sub committed_cost refund) PoisonedState
     else Ok committed_cost) in
  Ok (reserved_cost, reserved_quota, committed_cost, committed_quota).

Definition transition (key : string) (authority : AuthorityBinding)
    (change : ReservationReceipt -> BR ReservationReceipt) : LM ReservationReceipt :=
  let! l := mstate in
  let! before := mlift (ok_or (reservations l !! key) (UnknownReservation key)) in
  do! mlift (validate_transition_authority (bl_authority l) authority before);
  let! changed := mlift (change before) in
  let! totals := mlift (rebook l before changed) in
  let '(reserved_cost, reserved_quota, committed_cost, committed_quota) := totals in
  let! exhaustion := mlift (classify_exhaustion (bl_envelope l) committed_cost reserved_cost
                              committed_quota reserved_quota) in
  let receipt := set_exhaustion exhaustion changed in
  do! mmodify (fun s =>
    {| bl_envelope := bl_envelope s; bl_authority := bl_authority s;
       reservations := <[key := receipt]> (reservations s);
       next_reservation := next_reservation s; reserved_cost_micros := reserved_cost;
       reserved_quota_units := reserved_quota; committed_cost_micros := committed_cost;
       committed_quota_units := committed_quota |});
  mret_ok receipt.

(** [o.as_ref().is_some_and(|value| value != &x)] *)
Definition some_other (o : option ReceiptLocator) (x : ReceiptLocator) : bool :=
  match o with
  | Some value => value != x
  | None => false
  end.

Definition activate_change (admission activation : ReceiptLocator) (r : ReservationReceipt)
    : BR ReservationReceipt :=
  match rr_state r with
  | StagedInactive | Reconciling =>
      check? guard_err (some_other (canonical_admission_receipt_ref r) admission
                        || some_other (activation_receipt_ref r) activation) IdempotencyConflict;
      Ok (set_activation admission activation r)
  | Active =>
      if (canonical_admission_receipt_ref r == Some admission)
         && (activation_receipt_ref r == Some activation) then Ok r
      else Err IdempotencyConflict
  | Released | Expired => Err InvalidLifecycleTransition
  end.

Definition activate (key : string) (authority : AuthorityBinding)
    (admission activation : ReceiptLocator) : LM ReservationReceipt :=
  let! l := mstate in
  do! mlift (guard_err (admission == activation) ReceiptReferenceConflict);
  do! mlift (validate_for admission authority (be_provider_tool (bl_envelope l)) KindOperation);
  do! mlift (validate_for activation authority (be_provider_tool (bl_envelope l)) KindOperation);
  do! mlift (guard_err ((rl_disposition admission != Success)
                        || (rl_disposition activation != Success)) ReceiptReferenceConflict);
  transition key authority (activate_change admission activation).

(** The change of [commit] and [reconcile_usage]: [from] is the state each
    leaves, [otherwise] its error from the states neither accepts. *)
Definition settle_change (from : ReservationState) (otherwise : BudgetError)
    (disposition : ReceiptDispositionKind) (usage : MeasuredUsage) (r : ReservationReceipt)
    : BR ReservationReceipt :=
  if rr_state r == from then Ok (set_outcome Released disposition (Some usage) r)
  else match rr_state r with
       | Released => if committed_usage r == Some usage then Ok r else Err IdempotencyConflict
       | _ => Err otherwise
       end.

Definition settle (from : ReservationState) (otherwise : BudgetError) (key : string)
    (authority : AuthorityBinding) (usage : MeasuredUsage) : LM ReservationReceipt :=
  let! l := mstate in
  do! mlift (validate_usage l key usage);
  let terminal :=
    let! disposition := mlift (disposition_for_status (mu_status usage)) in
    transition key authority (settle_change from otherwise disposition usage) in
  match reservations l !! key with
  | Some existing =>
      if rr_state existing == Released then
        do! mlift (validate_transition_authority (bl_authority l) authority existing);
        if committed_usage existing == Some usage then mret_ok existing
        else mthrow IdempotencyConflict
      else terminal
  | None => terminal
  end.

Definition commit : string -> AuthorityBinding -> MeasuredUsage -> LM ReservationReceipt :=
  settle Active InvalidLifecycleTransition.

Definition reconcile_usage : string -> AuthorityBinding -> MeasuredUsage -> LM ReservationReceipt :=
  settle Reconciling UnknownOutcomeRequiresReconciliation.

Definition begin_change (r : ReservationReceipt) : BR ReservationReceipt :=
  match rr_state r with
  | StagedInactive | Active => Ok (set_outcome Reconciling Unknown (committed_usage r) r)
  | Reconciling => Ok r
  | Released | Expired => Err InvalidLifecycleTransition
  end.

Definition begin_reconciliation (key : string) (authority : AuthorityBinding)
    : LM ReservationReceipt :=
  transition key authority begin_change.

Definition release_change (r : ReservationReceipt) : BR ReservationReceipt :=
  match rr_state r with
  | StagedInactive | Active | Reconciling =>
      Ok (set_outcome Released Cancelled (committed_usage r) r)
  | Released =>
      if (committed_usage r == None) && (rr_disposition r == Cancelled) then Ok r
      else Err InvalidLifecycleTransition
  | Expired => Err InvalidLifecycleTransition
  end.

Definition release_without_execution (key : string) (authority : AuthorityBinding)
    : LM ReservationReceipt :=
  transition key authority release_change.

Definition expire_change (r : ReservationReceipt) : BR ReservationReceipt :=
  match rr_state r with
  | StagedInactive | Reconciling => Ok (set_outcome Expired Cancelled (committed_usage r) r)
  | Expired => Ok r
  | Active | Released => Err InvalidLifecycleTransition
  end.

Definition expire (key : string) (authority : AuthorityBinding) : LM ReservationReceipt :=
  transition key authority expire_change.

Definition refund_change (observation : RefundObservation) (r : ReservationReceipt)
    : BR ReservationReceipt :=
  check? guard_err (rr_state r != Released) InvalidLifecycleTransition;
  match List.find (fun item => ro_observation_id item == ro_observation_id observation)
          (refund_observations r) with
  | Some existing => if existing == observation then Ok r else Err IdempotencyConflict
  | None =>
      check? guard_err (existsb (fun item => ro_provider_receipt_ref item
                                             == ro_provider_receipt_ref observation)
                          (refund_observations r)) ReceiptReferenceConflict;
      let? usage := ok_or (committed_usage r) (UsageUnavailable "committed_usage") in
      let? committed := measured_some (mu_cost_micros usage) "usage.cost_micros" in
      let? refund := measured_some (ro_cost_micros observation) "refund.cost_micros" in
      let? refunded := refunded_cost_micros r in
      let? total := (match refunded with
                     | Some already => ok_or (checked_add already refund) PoisonedState
                     | None => Ok refund
                     end) in
      check? guard_err (committed <? total) RefundExceedsCommitted;
      Ok (push_refund observation r)
  end.

Definition apply_refund (key : string) (authority : AuthorityBinding)
    (observation : RefundObservation) : LM ReservationReceipt :=
  let! l := mstate in
  do! mlift (validate_refund l key observation);
  transition key authority (refund_change observation).

(** ** Recovery *)

Definition BUDGET_LEDGER_RECOVERY_SCHEMA : string := "eliot.budget.ledger-recovery".
Definition BUDGET_LEDGER_RECOVERY_VERSION : Z := 1.

Record BudgetReservationRecoveryRecord : Type := {
  rec_idempotency_key : string;
  rec_receipt : ReservationReceipt;
}.

Record BudgetLedgerRecoverySnapshot : Type := {
  bs_schema : string;
  bs_version : Z;
  bs_envelope : BudgetEnvelope;
  bs_authority : AuthorityBinding;
  bs_reservations : list BudgetReservationRecoveryRecord;
  bs_next_reservation : Z;
  bs_reserved_cost_micros : Z;
  bs_reserved_quota_units : Z;
  bs_committed_cost_micros : Z;
  bs_committed_quota_units : Z;
}.

(** The strict order of the record keys; [previous] is the key before. *)
Fixpoint scan_record_keys (previous : option string) (l : list BudgetReservationRecoveryRecord)
    : BR unit :=
  match l with
  | [] => Ok tt
  | record :: l' =>
      let key := rec_idempotency_key record in
      check? budget_text key "idempotency_key";
      check? guard_err (match previous with
                        | Some p => bool_decide (String.le key p)
                        | None => false
                        end) (InvalidField "budget_recovery.reservations");
      scan_record_keys (Some key) l'
  end.

Definition validate_wire (s : BudgetLedgerRecoverySnapshot) : BR unit :=
  check? guard_err (bs_schema s != BUDGET_LEDGER_RECOVERY_SCHEMA)
           (InvalidField "budget_recovery.schema");
  check? guard_err (bs_version s != BUDGET_LEDGER_RECOVERY_VERSION)
           (InvalidField "budget_recovery.version");
  check? guard_err (bs_next_reservation s =? 0) (InvalidField "next_reservation");
  scan_record_keys None (bs_reservations s).

Definition window_recoverable (w : QuotaWindow) : BR unit :=
  match qw_state w with
  | QuotaKnown _ => Ok tt
  | QuotaIsExhausted => Err (QuotaExhausted (window_id w))
  | QuotaUnknown | QuotaNotExposed | QuotaStale => Err (QuotaUnavailable (window_id w))
  end.

Definition validate_snapshot_quota_states (s : BudgetLedgerRecoverySnapshot) : BR unit :=
  match bs_reservations s with
  | [] => Ok tt
  | _ => for_each window_recoverable (quota_windows (bs_envelope s))
  end.

Definition reservation_sequence (envelope_id : string) (receipt : ReservationReceipt) : BR Z :=
  let? suffix := ok_or (strip_prefix (envelope_id ++ "-") (reservation_id receipt))
                   (InvalidField "reservation_id") in
  let? sequence := ok_or (parse_u64 suffix) (InvalidField "reservation_id") in
  check? guard_err ((sequence =? 0) || (suffix != u64_to_string sequence))
           (InvalidField "reservation_id");
  Ok sequence.

Definition validate_receipt_identity (envelope : BudgetEnvelope) (authority : AuthorityBinding)
    (receipt : ReservationReceipt) : BR unit :=
  check? budget_text (reservation_id receipt) "reservation_id";
  check? budget_text (rr_envelope_id receipt) "receipt.envelope_id";
  check? budget_text (rr_idempotency_key receipt) "idempotency_key";
  check? guard_err (rr_envelope_id receipt != be_envelope_id envelope)
           (UnknownEnvelope (rr_envelope_id receipt));
  check? guard_err (rr_authority receipt != authority) FenceMismatch;
  check? guard_err (rr_provider_tool receipt != be_provider_tool envelope) UnauthorizedFallback;
  check? guard_err (op_idempotency_key (rr_operation receipt) != rr_idempotency_key receipt)
           IdempotencyConflict;
  check? guard_err ((estimated_quota_units receipt == None)
                    || (is_some (max_cost_micros envelope)
                        && (estimated_cost_micros receipt == None)))
           (MissingEstimate (if estimated_quota_units receipt == None
                             then "estimated_quota_units" else "estimated_cost_micros"));
  validate_operation_authority (rr_operation receipt) authority.

Definition refs_valid (l : BudgetLedger) (admission activation : ReceiptLocator) : BR unit :=
  check? guard_err (admission == activation) ReceiptReferenceConflict;
  check? validate_for admission (bl_authority l) (be_provider_tool (bl_envelope l)) KindOperation;
  check? validate_for activation (bl_authority l) (be_provider_tool (bl_envelope l)) KindOperation;
  guard_err ((rl_disposition admission != Success) || (rl_disposition activation != Success))
    ReceiptReferenceConflict.

(** The refund loop of [validate_receipt_state], with the identifiers and
    receipt references seen so far. *)
Fixpoint scan_refunds (l : BudgetLedger) (key : string) (ids : gset string)
    (refs : list ReceiptLocator) (observations : list RefundObservation) : BR unit :=
  match observations with
  | [] => Ok tt
  | o :: rest =>
      check? guard_err (bool_decide (ro_observation_id o ∈ ids)
                        || bool_decide (ro_provider_receipt_ref o ∈ refs)) IdempotencyConflict;
      check? validate_refund l key o;
      scan_refunds l key ({[ro_observation_id o]} ∪ ids)
        (refs ++ [ro_provider_receipt_ref o])%list rest
  end.

Definition validate_receipt_state (l : BudgetLedger) (r : ReservationReceipt) : BR unit :=
  let refs_present :=
    is_some (canonical_admission_receipt_ref r) || is_some (activation_receipt_ref r) in
  let no_refunds := match refund_observations r with [] => true | _ => false end in
  check? guard_err (negb (Bool.eqb (is_some (canonical_admission_receipt_ref r))
                            (is_some (activation_receipt_ref r)))) ReceiptReferenceConflict;
  check? (match canonical_admission_receipt_ref r, activation_receipt_ref r with
          | Some admission, Some activation => refs_valid l admission activation
          | _, _ => Ok tt
          end);
  match rr_state r with
  | StagedInactive =>
      guard_err (refs_present || is_some (committed_usage r) || negb no_refunds
                 || (rr_disposition r != Unknown)
                 || (exhaustion_disposition_of r != WithinEnvelope)) InvalidLifecycleTransition
  | Active | Reconciling =>
      check? guard_err (is_some (committed_usage r) || negb no_refunds
                        || (rr_disposition r != Unknown)) InvalidLifecycleTransition;
      guard_err ((rr_state r == Active) && negb refs_present) ReceiptReferenceConflict
  | Released =>
      match committed_usage r with
      | Some usage =>
          check? validate_usage l (rr_idempotency_key r) usage;
          let? expected := disposition_for_status (mu_status usage) in
          check? guard_err (rr_disposition r != expected) ReceiptReferenceConflict;
          check? scan_refunds l (rr_idempotency_key r) ∅ [] (refund_observations r);
          check? refunded_cost_micros r;
          Ok tt
      | None =>
          guard_err ((rr_disposition r != Cancelled) || negb no_refunds)
            InvalidLifecycleTransition
      end
  | Expired =>
      guard_err (is_some (committed_usage r) || (rr_disposition r != Cancelled)
                 || negb no_refunds) InvalidLifecycleTransition
  end.

(** [iter().position(...)] *)
Fixpoint position {A} (f : A -> bool) (l : list A) : option nat :=
  match l with
  | [] => None
  | x :: l' => if f x then Some 0%nat else S <$> position f l'
  end.

Fixpoint windows_in_order (windows : list QuotaWindow) (previous : option nat)
    (window_ids : list string) : BR unit :=
  match window_ids with
  | [] => Ok tt
  | id :: rest =>
      let? index := ok_or (position (fun w => window_id w == id) windows)
                      InvalidLifecycleTransition in
      check? guard_err (match previous with
                        | Some p => (index <=? p)%nat
                        | None => false
                        end) InvalidLifecycleTransition;
      windows_in_order windows (Some index) rest
  end.

Definition validate_exhaustion_shape (l : BudgetLedger) (d : ExhaustionDisposition) : BR unit :=
  match d with
  | WithinEnvelope | CostExceeded => Ok tt
  | QuotaExceeded window_ids | CostAndQuotaExceeded window_ids =>
      check? guard_err (match window_ids with [] => true | _ => false end)
               InvalidLifecycleTransition;
      windows_in_order (quota_windows (bl_envelope l)) None window_ids
  end.

Definition validate_exhaustion_dispositions (l : BudgetLedger) : BR unit :=
  let? expected := (if (size (reservations l) =? 1)%nat then
                      let? d := exhaustion_disposition l in Ok (Some d)
                    else Ok None) in
  for_each (fun receipt =>
    check? validate_exhaustion_shape l (exhaustion_disposition_of receipt);
    guard_err (match expected with
               | Some value => exhaustion_disposition_of receipt != value
               | None => false
               end) InvalidLifecycleTransition)
    (btree_values (reservations l)).

(** One record of [restore]'s first loop: the map and the sequence numbers
    seen so far. *)
Definition admit_record (s : BudgetLedgerRecoverySnapshot)
    (acc : gmap string ReservationReceipt * gset Z) (record : BudgetReservationRecoveryRecord)
    : BR (gmap string ReservationReceipt * gset Z) :=
  let (reservations, seen) := acc in
  let key := rec_idempotency_key record in
  let receipt := rec_receipt record in
  check? guard_err (rr_idempotency_key receipt != key) IdempotencyConflict;
  check? validate_receipt_identity (bs_envelope s) (bs_authority s) receipt;
  let? sequence := reservation_sequence (be_envelope_id (bs_envelope s)) receipt in
  check? guard_err (bool_decide (sequence ∈ seen) || (bs_next_reservation s <=? sequence))
           (InvalidField "reservation_id");
  check? guard_err (is_some (reservations !! key)) IdempotencyConflict;
  Ok (<[key := receipt]> reservations, {[sequence]} ∪ seen).

(** [enumerate().any(|(index, sequence)| index + 1 != sequence)] over the
    ascending iteration of the set. *)
Definition sequences_contiguous (seen : gset Z) : bool :=
  let ascending := merge_sort Z.le (elements seen) in
  forallb (fun p => (Z.of_nat p.1 + 1) =? p.2) (zip (seq 0 (length ascending)) ascending).

(** One receipt of [restore]'s second loop. *)
Definition rebook_receipt (l : BudgetLedger) (r : ReservationReceipt) : BR BudgetLedger :=
  check? validate_receipt_state l r;
  let? (reserved_cost, reserved_quota) :=
    (if holds_capacity (rr_state r) then
       check? guard_err (estimated_quota_units r == None) (MissingEstimate "estimated_quota_units");
       let? reserved_cost := add_optional (reserved_cost_micros l) (estimated_cost_micros r) in
       let? reserved_quota := add_optional (reserved_quota_units l) (estimated_quota_units r) in
       Ok (reserved_cost, reserved_quota)
     else Ok (reserved_cost_micros l, reserved_quota_units l)) in
  let? (committed_cost, committed_quota) :=
    (match committed_usage r with
     | Some usage =>
         let? cost := measured (mu_cost_micros usage) "usage.cost_micros" in
         let? gross := add_optional (committed_cost_micros l) cost in
         let? quota := measured (mu_quota_units usage) "usage.quota_units" in
         let? committed_quota := add_optional (committed_quota_units l) quota in
         let? refunded := refunded_cost_micros r in
         let? net := ok_or (checked_sub gross (default 0 refunded)) PoisonedState in
         Ok (net, committed_quota)
     | None => Ok (committed_cost_micros l, committed_quota_units l)
     end) in
  Ok {| bl_envelope := bl_envelope l; bl_authority := bl_authority l;
        reservations := reservations l; next_reservation := next_reservation l;
        reserved_cost_micros := reserved_cost; reserved_quota_units := reserved_quota;
        committed_cost_micros := committed_cost; committed_quota_units := committed_quota |}.

Definition restore (s : BudgetLedgerRecoverySnapshot) : BR BudgetLedger :=
  check? BudgetEnvelope_validate (bs_envelope s);
  check? validate_snapshot_quota_states s;
  check? budget_text (ab_authority_owner (bs_authority s)) "authority.authority_owner";
  check? map_err (fun _ => FenceMismatch) (StateFence_validate (ab_state_fence (bs_authority s)));
  check? guard_err (negb (is_same_authority (ab_authority_epoch (bs_authority s))
                            (authority_epoch (ab_state_fence (bs_authority s))))) EpochMismatch;
  let? (restored, seen) := fold_res (admit_record s) (∅, ∅) (bs_reservations s) in
  let? expected_next := ok_or (checked_add (usize_of_len (bs_reservations s)) 1) PoisonedState in
  check? guard_err (negb (bs_next_reservation s =? expected_next)
                    || negb (sequences_contiguous seen)) (InvalidField "reservation_id");
  let? ledger := fold_res rebook_receipt
    {| bl_envelope := bs_envelope s; bl_authority := bs_authority s; reservations := restored;
       next_reservation := bs_next_reservation s; reserved_cost_micros := 0;
       reserved_quota_units := 0; committed_cost_micros := 0; committed_quota_units := 0 |}
    (btree_values restored) in
  check? guard_err (negb (reserved_cost_micros ledger =? bs_reserved_cost_micros s)
                    || negb (reserved_quota_units ledger =? bs_reserved_quota_units s)
                    || negb (committed_cost_micros ledger =? bs_committed_cost_micros s)
                    || negb (committed_quota_units ledger =? bs_committed_quota_units s))
           PoisonedState;
  check? validate_exhaustion_dispositions ledger;
  Ok ledger.

Definition budget_from_snapshot (s : BudgetLedgerRecoverySnapshot) : BR BudgetLedger :=
  check? validate_wire s; restore s.

Definition snapshot_validate (s : BudgetLedgerRecoverySnapshot) : BR unit :=
  check? validate_wire s; check? restore s; Ok tt.

Definition snapshot_of (l : BudgetLedger) : BudgetLedgerRecoverySnapshot :=
  {| bs_schema := BUDGET_LEDGER_RECOVERY_SCHEMA; bs_version := BUDGET_LEDGER_RECOVERY_VERSION;
     bs_envelope := bl_envelope l; bs_authority := bl_authority l;
     bs_reservations := (fun kv => {| rec_idempotency_key := kv.1; rec_receipt := kv.2 |})
                          <$> btree_iter (reservations l);
     bs_next_reservation := next_reservation l;
     bs_reserved_cost_micros := reserved_cost_micros l;
     bs_reserved_quota_units := reserved_quota_units l;
     bs_committed_cost_micros := committed_cost_micros l;
     bs_committed_quota_units := committed_quota_units l |}.

Definition budget_snapshot (l : BudgetLedger) : BR BudgetLedgerRecoverySnapshot :=
  check? snapshot_validate (snapshot_of l); Ok (snapshot_of l).

(** ** Calls and reachable ledgers *)

Inductive Call : Type :=
| CallReserve (request : ReservationRequest)
| CallActivate (key : string) (authority : AuthorityBinding) (admission activation : ReceiptLocator)
| CallCommit (key : string) (authority : AuthorityBinding) (usage : MeasuredUsage)
| CallBeginReconciliation (key : string) (authority : AuthorityBinding)
| CallReconcileUsage (key : string) (authority : AuthorityBinding) (usage : MeasuredUsage)
| CallRelease (key : string) (authority : AuthorityBinding)
| CallExpire (key : string) (authority : AuthorityBinding)
| CallRefund (key : string) (authority : AuthorityBinding) (observation : RefundObservation).

Definition call (c : Call) : LM ReservationReceipt :=
  match c with
  | CallReserve request => reserve request
  | CallActivate key authority admission activation => activate key authority admission activation
  | CallCommit key authority usage => commit key authority usage
  | CallBeginReconciliation key authority => begin_reconciliation key authority
  | CallReconcileUsage key authority usage => reconcile_usage key authority usage
  | CallRelease key authority => release_without_execution key authority
  | CallExpire key authority => expire key authority
  | CallRefund key authority observation => apply_refund key authority observation
  end.

(** The amounts a call carries are [u64] values. *)
Definition amount_u64 (a : ObservedAmount) : Prop :=
  match a with
  | Known v | Estimated v => is_u64 v
  | _ => True
  end.

Definition estimate_u64 (o : option Z) : Prop := forall v, o = Some v -> is_u64 v.

Definition typed_call (c : Call) : Prop :=
  match c with
  | CallReserve request =>
      estimate_u64 (rq_estimated_cost_micros request) /\
      estimate_u64 (rq_estimated_quota_units request)
  | CallCommit _ _ usage | CallReconcileUsage _ _ usage =>
      amount_u64 (mu_cost_micros usage) /\ amount_u64 (mu_quota_units usage)
  | CallRefund _ _ observation => amount_u64 (ro_cost_micros observation)
  | _ => True
  end.

Inductive reachable_ledger : BudgetLedger -> Prop :=
| reach_new envelope authority l :
    BudgetLedger_new envelope authority = Ok l -> reachable_ledger l
| reach_call l c l' r :
    reachable_ledger l -> typed_call c -> call c l = (l', r) -> reachable_ledger l'
| reach_restart l s l' :
    reachable_ledger l -> budget_snapshot l = Ok s -> budget_from_snapshot s = Ok l' ->
    reachable_ledger l'.

(** ** The reservation lifecycle

    What a receipt may become under its ledger, independently of the ledger's
    totals. *)

Definition known_amount (a : ObservedAmount) : Z :=
  match a with
  | Known v => v
  | _ => 0
  end.

Definition refunded (r : ReservationReceipt) : Z :=
  sum_list ((fun o => known_amount (ro_cost_micros o)) <$> refund_observations r).

Definition gross_cost (r : ReservationReceipt) : Z :=
  match committed_usage r with
  | Some usage => known_amount (mu_cost_micros usage)
  | None => 0
  end.

Definition net_cost (r : ReservationReceipt) : Z := gross_cost r - refunded r.

Definition used_quota (r : ReservationReceipt) : Z :=
  match committed_usage r with
  | Some usage => known_amount (mu_quota_units usage)
  | None => 0
  end.

Definition held_cost (r : ReservationReceipt) : Z :=
  if holds_capacity (rr_state r) then default 0 (estimated_cost_micros r) else 0.

Definition held_quota (r : ReservationReceipt) : Z :=
  if holds_capacity (rr_state r) then default 0 (estimated_quota_units r) else 0.

Inductive lifecycle (l : BudgetLedger) : ReservationReceipt -> ReservationReceipt -> Prop :=
| lc_stay r : rr_state r <> StagedInactive -> lifecycle l r r
| lc_activate r admission activation :
    rr_state r = StagedInactive \/ rr_state r = Reconciling ->
    refs_valid l admission activation = Ok tt ->
    lifecycle l r (set_activation admission activation r)
| lc_reconcile r :
    rr_state r = StagedInactive \/ rr_state r = Active ->
    lifecycle l r (set_outcome Reconciling Unknown (committed_usage r) r)
| lc_settle r usage disposition :
    rr_state r = Active \/ rr_state r = Reconciling ->
    provider_tool_validate (mu_provider_tool usage) = Ok tt ->
    usage_matches r usage = Ok tt ->
    disposition_for_status (mu_status usage) = Ok disposition ->
    amount_u64 (mu_cost_micros usage) -> amount_u64 (mu_quota_units usage) ->
    lifecycle l r (set_outcome Released disposition (Some usage) r)
| lc_release r :
    holds_capacity (rr_state r) = true ->
    lifecycle l r (set_outcome Released Cancelled (committed_usage r) r)
| lc_expire r :
    rr_state r = StagedInactive \/ rr_state r = Reconciling ->
    lifecycle l r (set_outcome Expired Cancelled (committed_usage r) r)
| lc_refund r usage observation :
    rr_state r = Released -> committed_usage r = Some usage ->
    budget_text (ro_observation_id observation) "refund.observation_id" = Ok tt ->
    provider_tool_validate (ro_provider_tool observation) = Ok tt ->
    refund_matches r observation = Ok tt ->
    ro_observation_id observation ∉ ro_observation_id <$> refund_observations r ->
    ro_provider_receipt_ref observation ∉ ro_provider_receipt_ref <$> refund_observations r ->
    amount_u64 (ro_cost_micros observation) ->
    refunded r + known_amount (ro_cost_micros observation) <= gross_cost r ->
    lifecycle l r (push_refund observation r).

(** ** Inversion of the operations *)

Section Operations.

Lemma measured_ok a field v : measured a field = Ok v -> default 0 v = known_amount a.
Proof. destruct a; simpl; naive_solver. Qed.

Lemma measured_some_ok a field v : measured_some a field = Ok v <-> a = Known v.
Proof. unfold measured_some. destruct a; simpl; naive_solver. Qed.

Lemma add_optional_ok total v n :
  add_optional total v = Ok n -> n = total + default 0 v /\ (total <= u64_max -> n <= u64_max).
Proof.
  destruct v as [v|]; simpl; [|intros [= <-]; lia].
  destruct (checked_add total v) as [m|] eqn:E; [|done]. intros [= <-].
  apply checked_add_some in E. lia.
Qed.

Lemma subtract_optional_ok total v n :
  subtract_optional total v = Ok n -> n = total - default 0 v /\ (0 <= total -> 0 <= n).
Proof.
  destruct v as [v|]; simpl; [|intros [= <-]; lia].
  destruct (checked_sub total v) as [m|] eqn:E; [|done]. intros [= <-].
  apply checked_sub_some in E. lia.
Qed.

Lemma transition_ok key authority change l l' r :
  transition key authority change l = (l', Ok r) ->
  exists before changed rc rq cc cq d,
    reservations l !! key = Some before /\ authority = bl_authority l /\
    validate_transition_authority (bl_authority l) authority before = Ok tt /\
    change before = Ok changed /\ rebook l before changed = Ok (rc, rq, cc, cq) /\
    classify_exhaustion (bl_envelope l) cc rc cq rq = Ok d /\
    r = set_exhaustion d changed /\
    l' = {| bl_envelope := bl_envelope l; bl_authority := bl_authority l;
            reservations := <[key := r]> (reservations l);
            next_reservation := next_reservation l; reserved_cost_micros := rc;
            reserved_quota_units := rq; committed_cost_micros := cc;
            committed_quota_units := cq |}.
Proof.
  unfold transition, mseq, mstate, mlift, mmodify, mret_ok. intros H.
  destruct (reservations l !! key) as [before|] eqn:Hk; simpl in H; [|done].
  destruct (validate_transition_authority _ _ before) as [[]|] eqn:Hv; [|done].
  destruct (change before) as [changed|] eqn:Hc; [|done].
  destruct (rebook l before changed) as [[[[rc rq] cc] cq]|] eqn:Hb; [|done].
  destruct (classify_exhaustion _ _ _ _ _) as [d|] eqn:Hd; [|done]. simplify_eq.
  assert (authority = bl_authority l).
  { unfold validate_transition_authority in Hv. run. bool_facts. done. }
  subst. by eexists before, changed, rc, rq, cc, cq, d.
Qed.

Lemma transition_err key authority change l l' e :
  transition key authority change l = (l', Err e) -> l' = l.
Proof.
  unfold transition, mseq, mstate, mlift, mmodify, mret_ok. intros H.
  destruct (reservations l !! key); simpl in H; [|naive_solver].
  repeat (case_match; simplify_eq/=); done.
Qed.

(** The running total of [refunded_cost_micros] is the sum of the amounts. *)
Lemma fold_refunds_ok observations : forall acc t,
  fold_res add_refund acc observations = Ok t ->
  default 0 t = default 0 acc
    + sum_list ((fun o => known_amount (ro_cost_micros o)) <$> observations).
Proof.
  induction observations as [|o rest IH]; intros acc t.
  { simpl. intros [= <-]. lia. }
  rewrite fmap_cons. cbn [fold_res sum_list fold_right]. unfold add_refund at 1.
  destruct (measured_some _ _) as [v|] eqn:Ev; simpl; [|done].
  apply measured_some_ok in Ev. rewrite Ev.
  destruct acc as [a|]; cbn [ok_or rbind default from_option known_amount].
  - destruct (checked_add a v) as [n|] eqn:Ea; simpl; [|done].
    intros Ht%IH. apply checked_add_some in Ea. unfold sum_list in *. simpl in *. lia.
  - intros Ht%IH. unfold sum_list in *. simpl in *. lia.
Qed.

Lemma refunded_cost_ok r t : refunded_cost_micros r = Ok t -> default 0 t = refunded r.
Proof. intros H%fold_refunds_ok. unfold refunded. simpl in H. lia. Qed.

(** Every successful change is a step of the lifecycle. *)
Lemma activate_lifecycle l admission activation r r' :
  refs_valid l admission activation = Ok tt ->
  activate_change admission activation r = Ok r' -> lifecycle l r r'.
Proof.
  unfold activate_change. intros Hv H.
  destruct (rr_state r) eqn:Hs; run; first [done | by apply lc_stay; rewrite Hs | by apply lc_activate; auto].
Qed.

Lemma begin_lifecycle l r r' : begin_change r = Ok r' -> lifecycle l r r'.
Proof.
  unfold begin_change. intros H.
  destruct (rr_state r) eqn:Hs; simplify_eq/=; constructor; rewrite ?Hs; auto.
Qed.

Lemma release_lifecycle l r r' : release_change r = Ok r' -> lifecycle l r r'.
Proof.
  unfold release_change. intros H.
  destruct (rr_state r) eqn:Hs; run; constructor; by rewrite Hs.
Qed.

Lemma expire_lifecycle l r r' : expire_change r = Ok r' -> lifecycle l r r'.
Proof.
  unfold expire_change. intros H.
  destruct (rr_state r) eqn:Hs; simplify_eq/=; constructor; rewrite ?Hs; auto.
Qed.

Lemma settle_lifecycle l from otherwise disposition usage r r' :
  from = Active \/ from = Reconciling ->
  provider_tool_validate (mu_provider_tool usage) = Ok tt -> usage_matches r usage = Ok tt ->
  disposition_for_status (mu_status usage) = Ok disposition ->
  amount_u64 (mu_cost_micros usage) -> amount_u64 (mu_quota_units usage) ->
  settle_change from otherwise disposition usage r = Ok r' -> lifecycle l r r'.
Proof.
  unfold settle_change. intros Hf Hp Hu Hd Hc Hq H. case_bool_decide as Hs.
  - simplify_eq/=. constructor; auto.
  - destruct (rr_state r) eqn:Hr; run; apply lc_stay; by rewrite Hr.
Qed.

(** What a successful [refund_change] has checked. *)
Lemma refund_change_ok o r r' :
  refund_change o r = Ok r' ->
  rr_state r = Released /\
  (r' = r /\ o ∈ refund_observations r \/
   exists usage v w,
     r' = push_refund o r /\ committed_usage r = Some usage /\
     mu_cost_micros usage = Known v /\ ro_cost_micros o = Known w /\
     ro_observation_id o ∉ ro_observation_id <$> refund_observations r /\
     ro_provider_receipt_ref o ∉ ro_provider_receipt_ref <$> refund_observations r /\
     refunded r + w <= v).
Proof.
  unfold refund_change. intros H. apply check_ok in H as [Hs H]. apply guard_err_ok in Hs. bool_facts.
  split; [done|]. destruct (List.find _ _) as [existing|] eqn:Hf.
  { case_bool_decide; [|done]. simplify_eq. left. apply List.find_some in Hf as [Hin _].
    by rewrite list_elem_of_In. }
  right. apply check_ok in H as [Hr H]. apply guard_err_ok in Hr.
  apply rbind_ok in H as (usage & Hu & H). apply rbind_ok in H as (committed & Hc & H).
  apply rbind_ok in H as (refund & Hrf & H). apply rbind_ok in H as (already & Hal & H).
  apply rbind_ok in H as (total & Htot & H). apply check_ok in H as [Hle [= <-]].
  apply guard_err_ok in Hle. destruct (committed_usage r) as [u|] eqn:Hcu; simplify_eq/=.
  apply measured_some_ok in Hc, Hrf. apply refunded_cost_ok in Hal.
  exists usage, committed, refund. split_and!; try done.
  - intros (o' & Ho & Hin)%list_elem_of_fmap. apply list_elem_of_In in Hin.
    pose proof (List.find_none _ _ Hf o' Hin) as Hn. simpl in Hn. bool_facts. congruence.
  - intros (o' & Ho & Hin)%list_elem_of_fmap.
    rewrite existsb_false_iff, Forall_forall in Hr. specialize (Hr o' Hin). bool_facts. congruence.
  - rewrite <- Hal. destruct already as [a|]; simpl in *; [|simplify_eq; lia].
    destruct (checked_add a refund) as [n|] eqn:E; simpl in *; [|done]. simplify_eq.
    apply checked_add_some in E. lia.
Qed.

Lemma refund_lifecycle l observation r r' :
  budget_text (ro_observation_id observation) "refund.observation_id" = Ok tt ->
  provider_tool_validate (ro_provider_tool observation) = Ok tt ->
  refund_matches r observation = Ok tt -> amount_u64 (ro_cost_micros observation) ->
  refund_change observation r = Ok r' -> lifecycle l r r'.
Proof.
  intros Ht Hp Hm Ha (Hs & [[-> _]|(usage & v & w & -> & Hu & Hv & Hw & Hid & Href & Hle)])
    %refund_change_ok.
  - apply lc_stay. by rewrite Hs.
  - eapply lc_refund; eauto. unfold gross_cost. by rewrite Hu, Hv, Hw.
Qed.

End Operations.

(** ** The ledger's abstract step

    A successful call answers from an earlier reservation, stages a new one,
    or moves one along the lifecycle and books the difference. *)

Definition with_totals (l : BudgetLedger) (m : gmap string ReservationReceipt) (next : Z)
    (rc rq cc cq : Z) : BudgetLedger :=
  {| bl_envelope := bl_envelope l; bl_authority := bl_authority l; reservations := m;
     next_reservation := next; reserved_cost_micros := rc; reserved_quota_units := rq;
     committed_cost_micros := cc; committed_quota_units := cq |}.

Inductive ledger_step (l : BudgetLedger) : BudgetLedger -> ReservationReceipt -> Prop :=
| ls_replay key r : reservations l !! key = Some r -> ledger_step l l r
| ls_reserve request rc rq :
    validate_request l request = Ok tt ->
    estimate_u64 (rq_estimated_cost_micros request) ->
    estimate_u64 (rq_estimated_quota_units request) ->
    reservations l !! op_idempotency_key (rq_operation request) = None ->
    check_capacity l (rq_estimated_cost_micros request) (rq_estimated_quota_units request)
      = Ok tt ->
    next_reservation l + 1 <= u64_max ->
    add_optional (reserved_cost_micros l) (rq_estimated_cost_micros request) = Ok rc ->
    add_optional (reserved_quota_units l) (rq_estimated_quota_units request) = Ok rq ->
    ledger_step l
      (with_totals l (<[op_idempotency_key (rq_operation request) := staged_receipt l request]>
                        (reservations l))
         (next_reservation l + 1) rc rq (committed_cost_micros l) (committed_quota_units l))
      (staged_receipt l request)
| ls_move key before changed rc rq cc cq d :
    reservations l !! key = Some before ->
    lifecycle l before changed ->
    rebook l before changed = Ok (rc, rq, cc, cq) ->
    classify_exhaustion (bl_envelope l) cc rc cq rq = Ok d ->
    ledger_step l
      (with_totals l (<[key := set_exhaustion d changed]> (reservations l))
         (next_reservation l) rc rq cc cq)
      (set_exhaustion d changed).

Section Refinement.

Lemma transition_step key authority change l l' r :
  transition key authority change l = (l', Ok r) ->
  (forall before changed, authority = bl_authority l -> reservations l !! key = Some before ->
     change before = Ok changed -> lifecycle l before changed) ->
  ledger_step l l' r.
Proof.
  intros (before & changed & rc & rq & cc & cq & d & Hk & Ha & _ & Hc & Hb & Hd & -> & ->)
    %transition_ok Hlc.
  eapply (ls_move l key before changed); eauto.
Qed.

Lemma reserve_step request l l' r :
  estimate_u64 (rq_estimated_cost_micros request) ->
  estimate_u64 (rq_estimated_quota_units request) ->
  reserve request l = (l', Ok r) -> ledger_step l l' r.
Proof.
  intros Hc Hq H. unfold reserve, mseq, mstate, mlift, mmodify, mret_ok, mthrow in H.
  destruct (validate_request l request) as [[]|] eqn:Hv; [|done].
  destruct (reservations l !! _) as [existing|] eqn:Hk.
  { case_match; simplify_eq. by eapply ls_replay. }
  destruct (check_capacity _ _ _) as [[]|] eqn:Hcap; [|done].
  destruct (checked_add (next_reservation l) 1) as [next|] eqn:Hn; simpl in H; [|done].
  apply checked_add_some in Hn as [-> Hn].
  destruct (add_optional (reserved_cost_micros l) _) as [rc|] eqn:Hrc; [|done].
  destruct (add_optional (reserved_quota_units l) _) as [rq|] eqn:Hrq; [|done].
  simplify_eq. by eapply ls_reserve.
Qed.

Lemma settle_step from otherwise key authority usage l l' r :
  from = Active \/ from = Reconciling ->
  amount_u64 (mu_cost_micros usage) -> amount_u64 (mu_quota_units usage) ->
  settle from otherwise key authority usage l = (l', Ok r) -> ledger_step l l' r.
Proof.
  intros Hf Hc Hq H. unfold settle, mseq at 1 2, mstate, mlift in H.
  destruct (validate_usage l key usage) as [[]|] eqn:Hv; [|done].
  unfold validate_usage in Hv. apply rbind_ok in Hv as ([] & Hp & Hv).
  destruct (reservations l !! key) as [existing|] eqn:Hk; simpl in Hv; [|done].
  case_bool_decide as Hs.
  - unfold mseq, mret_ok, mthrow in H. repeat case_match; simplify_eq. by eapply ls_replay.
  - unfold mseq at 1 in H.
    destruct (disposition_for_status _) as [d|] eqn:Hd; [|done].
    eapply transition_step; [exact H|]. intros before changed _ Hb Hch.
    rewrite Hk in Hb. simplify_eq. by eapply settle_lifecycle.
Qed.

End Refinement.

(** ** Accounting *)

Record totals_u64 (l : BudgetLedger) : Prop := {
  t_reserved_cost : is_u64 (reserved_cost_micros l);
  t_reserved_quota : is_u64 (reserved_quota_units l);
  t_committed_cost : is_u64 (committed_cost_micros l);
  t_committed_quota : is_u64 (committed_quota_units l);
}.

(** The amounts of a receipt: [u64] estimates and measurements, refunds that
    never exceed the committed cost, and nothing committed while the
    reservation still holds capacity. *)
Record amounts_ok (r : ReservationReceipt) : Prop := {
  am_cost : estimate_u64 (estimated_cost_micros r);
  am_quota : estimate_u64 (estimated_quota_units r);
  am_gross : is_u64 (gross_cost r);
  am_used : is_u64 (used_quota r);
  am_refunds : Forall (fun o => 0 <= known_amount (ro_cost_micros o)) (refund_observations r);
  am_refunded : refunded r <= gross_cost r;
  am_holding : holds_capacity (rr_state r) = true ->
    committed_usage r = None /\ refund_observations r = [];
}.

Section Accounting.

Lemma estimate_nonneg o : estimate_u64 o -> is_u64 (default 0 o).
Proof. intros H. destruct o as [v|]; simpl; [by apply H|]. split; [lia|by vm_compute]. Qed.

Lemma amount_nonneg a : amount_u64 a -> is_u64 (known_amount a).
Proof. assert (is_u64 0) by (split; [lia|by vm_compute]). destruct a; simpl; naive_solver. Qed.

Lemma rebook_stay l r :
  rebook l r r = Ok (reserved_cost_micros l, reserved_quota_units l,
                     committed_cost_micros l, committed_quota_units l).
Proof.
  unfold rebook. rewrite andb_negb_r, Nat.ltb_irrefl. by destruct (committed_usage r).
Qed.

Definition booked (l : BudgetLedger) (r r' : ReservationReceipt) (rc rq cc cq : Z) : Prop :=
  rc = reserved_cost_micros l - held_cost r + held_cost r' /\
  rq = reserved_quota_units l - held_quota r + held_quota r' /\
  cc = committed_cost_micros l - net_cost r + net_cost r' /\
  cq = committed_quota_units l - used_quota r + used_quota r' /\
  is_u64 rc /\ is_u64 rq /\ is_u64 cc /\ is_u64 cq.

(** Leaving the capacity-holding states gives back exactly the estimates. *)
Lemma give_back_ok l r rc rq :
  totals_u64 l -> amounts_ok r ->
  rbind (subtract_optional (reserved_cost_micros l) (estimated_cost_micros r)) (fun c =>
  rbind (subtract_optional (reserved_quota_units l) (estimated_quota_units r)) (fun q =>
    Ok (c, q))) = Ok (rc, rq) ->
  rc = reserved_cost_micros l - default 0 (estimated_cost_micros r) /\
  rq = reserved_quota_units l - default 0 (estimated_quota_units r) /\
  is_u64 rc /\ is_u64 rq.
Proof.
  intros [Hrc Hrq _ _] Ha H.
  apply rbind_ok in H as (c & Hc & H). apply rbind_ok in H as (q & Hq & H). simplify_eq.
  apply subtract_optional_ok in Hc as [-> Hc], Hq as [-> Hq].
  pose proof (estimate_nonneg _ (am_cost _ Ha)) as [? ?].
  pose proof (estimate_nonneg _ (am_quota _ Ha)) as [? ?].
  unfold is_u64 in *. lia.
Qed.

#[local] Ltac amounts :=
  unfold booked, held_cost, held_quota, net_cost, gross_cost, refunded, used_quota.

(** A move between capacity-holding states changes no total. *)
Lemma rebook_hold l r state disposition adm act d rc rq cc cq :
  let r' := {| reservation_id := reservation_id r; rr_envelope_id := rr_envelope_id r;
     rr_idempotency_key := rr_idempotency_key r; rr_operation := rr_operation r;
     rr_authority := rr_authority r; rr_provider_tool := rr_provider_tool r;
     rr_state := state; rr_disposition := disposition; exhaustion_disposition_of := d;
     canonical_admission_receipt_ref := adm; activation_receipt_ref := act;
     committed_usage := committed_usage r; refund_observations := refund_observations r;
     estimated_cost_micros := estimated_cost_micros r;
     estimated_quota_units := estimated_quota_units r |} in
  totals_u64 l -> holds_capacity (rr_state r) = true -> holds_capacity state = true ->
  rebook l r r' = Ok (rc, rq, cc, cq) -> booked l r r' rc rq cc cq.
Proof.
  simpl. intros [] Hh Hh' H. unfold rebook in H. simpl in H.
  rewrite Hh, Hh', Nat.ltb_irrefl in H. simpl in H.
  amounts. simpl. rewrite Hh, Hh'. destruct (committed_usage r); simplify_eq/=; intuition lia.
Qed.

(** Leaving them without usage gives the estimates back. *)
Lemma rebook_leave l r state disposition rc rq cc cq :
  totals_u64 l -> amounts_ok r -> holds_capacity (rr_state r) = true ->
  holds_capacity state = false ->
  rebook l r (set_outcome state disposition (committed_usage r) r) = Ok (rc, rq, cc, cq) ->
  booked l r (set_outcome state disposition (committed_usage r) r) rc rq cc cq.
Proof.
  intros Ht Ha Hh Hh' H. destruct (am_holding _ Ha Hh) as [Hu Hr]. pose proof Ht as [].
  unfold rebook in H. simpl in H. rewrite Hh, Hh', Hu, Nat.ltb_irrefl in H. simpl in H.
  apply rbind_ok in H as ([rc' rq'] & Hgive & H). apply give_back_ok in Hgive; [|done..].
  simplify_eq/=. amounts. simpl. rewrite Hh, Hh'. intuition lia.
Qed.

(** Settling gives the estimates back and commits the measured usage. *)
Lemma rebook_settle l r disposition usage rc rq cc cq :
  totals_u64 l -> amounts_ok r -> holds_capacity (rr_state r) = true ->
  amount_u64 (mu_cost_micros usage) -> amount_u64 (mu_quota_units usage) ->
  rebook l r (set_outcome Released disposition (Some usage) r) = Ok (rc, rq, cc, cq) ->
  booked l r (set_outcome Released disposition (Some usage) r) rc rq cc cq.
Proof.
  intros Ht Ha Hh Hc Hq H. destruct (am_holding _ Ha Hh) as [Hu Hr]. pose proof Ht as [].
  unfold rebook in H. simpl in H. rewrite Hu, Hh, Nat.ltb_irrefl in H. simpl in H.
  apply rbind_ok in H as ([rc' rq'] & Hgive & H). apply give_back_ok in Hgive; [|done..].
  apply rbind_ok in H as ([cc' cq'] & Hbook & H). simplify_eq/=.
  apply rbind_ok in Hbook as (cost & Hcost & Hbook). apply rbind_ok in Hbook as (cc' & Hcc & Hbook).
  apply rbind_ok in Hbook as (quota & Hquota & Hbook).
  apply rbind_ok in Hbook as (cq' & Hcq & Hbook). simplify_eq/=.
  apply measured_ok in Hcost, Hquota. apply add_optional_ok in Hcc, Hcq.
  apply amount_nonneg in Hc, Hq. amounts.
  simpl. rewrite Hh, Hu, Hr. unfold is_u64 in *. simpl. lia.
Qed.

(** A refund takes its amount off the committed cost. *)
Lemma rebook_refund l r usage o rc rq cc cq :
  totals_u64 l -> rr_state r = Released -> committed_usage r = Some usage ->
  amount_u64 (ro_cost_micros o) ->
  rebook l r (push_refund o r) = Ok (rc, rq, cc, cq) ->
  booked l r (push_refund o r) rc rq cc cq.
Proof.
  intros [] Hs Hu Ho H. unfold rebook in H. simpl in H. rewrite Hs, Hu in H. simpl in H.
  rewrite length_app, last_snoc in H. simpl in H.
  rewrite (proj2 (Nat.ltb_lt _ _)) in H by lia.
  apply rbind_ok in H as (cc' & Hcc & H). simplify_eq/=.
  apply rbind_ok in Hcc as (refund & Hrf & Hcc). apply measured_some_ok in Hrf.
  destruct (checked_sub _ _) as [n|] eqn:E; simplify_eq/=. apply checked_sub_some in E.
  apply amount_nonneg in Ho. rewrite Hrf in Ho. simpl in Ho. amounts.
  simpl. rewrite Hs, Hu, fmap_app, sum_list_app, fmap_cons, fmap_nil, Hrf. simpl.
  unfold is_u64 in *. lia.
Qed.

Lemma rebook_ok l r r' rc rq cc cq :
  totals_u64 l -> amounts_ok r -> lifecycle l r r' ->
  rebook l r r' = Ok (rc, rq, cc, cq) -> booked l r r' rc rq cc cq.
Proof.
  intros Ht Ha Hlc H.
  destruct Hlc as [r _|r adm act Hs _|r Hs|r usage d Hs _ _ _ Hc Hq|r Hs|r Hs|r usage o Hs Hu _ _ _ _ _ Ho _].
  - rewrite rebook_stay in H. destruct Ht. simplify_eq. unfold booked. intuition lia.
  - eapply rebook_hold; eauto. by destruct Hs as [-> | ->].
  - eapply rebook_hold; eauto. by destruct Hs as [-> | ->].
  - eapply rebook_settle; eauto. by destruct Hs as [-> | ->].
  - by eapply rebook_leave.
  - eapply rebook_leave; eauto. by destruct Hs as [-> | ->].
  - by eapply rebook_refund.
Qed.

(** The lifecycle keeps a receipt's amounts in order. *)
Lemma lifecycle_amounts l r r' : lifecycle l r r' -> amounts_ok r -> amounts_ok r'.
Proof.
  intros Hlc Ha. pose proof Ha as [Hec Heq Hg Hu Hf Hle Hh].
  destruct Hlc as [r _|r adm act Hs _|r Hs|r usage d Hs _ _ _ Hc Hq|r Hs|r Hs|r usage o Hs Hcu _ _ _ _ _ Ho Hb];
    [done|split; try done..].
  - intros _. apply Hh. by destruct Hs as [-> | ->].
  - intros _. apply Hh. by destruct Hs as [-> | ->].
  - by apply amount_nonneg.
  - by apply amount_nonneg.
  - unfold refunded. simpl. destruct Hh as [_ ->]; [by destruct Hs as [-> | ->]|].
    apply amount_nonneg in Hc as [? ?]. done.
  - unfold push_refund. simpl. apply Forall_app. split; [done|].
    rewrite Forall_singleton. by apply amount_nonneg in Ho as [? ?].
  - unfold refunded, push_refund in *. simpl.
    rewrite fmap_app, sum_list_app, fmap_cons, fmap_nil. cbn [sum_list fold_right].
    unfold gross_cost in *. simpl. lia.
  - unfold push_refund. simpl. by rewrite Hs.
Qed.

End Accounting.

(** Every successful call takes a step of the ledger. *)
Lemma call_step (c : Call) (l l' : BudgetLedger) (r : ReservationReceipt) :
  typed_call c -> call c l = (l', Ok r) -> ledger_step l l' r.
Proof.
  intros Ht H. destruct c; simpl in *.
  - destruct Ht. by eapply reserve_step.
  - unfold activate, mseq, mstate, mlift in H.
    destruct (guard_err _ _) as [[]|] eqn:H1; [|done].
    destruct (validate_for admission _ _ _) as [[]|] eqn:H2; [|done].
    destruct (validate_for activation _ _ _) as [[]|] eqn:H3; [|done].
    destruct (guard_err (_ || _) _) as [[]|] eqn:H4; [|done].
    eapply transition_step; [exact H|]. intros before changed -> _ Hc.
    eapply activate_lifecycle; [|exact Hc]. unfold refs_valid. by rewrite H1, H2, H3.
  - destruct Ht. eapply settle_step; [|done..|exact H]. auto.
  - eapply transition_step; [exact H|]. eauto using begin_lifecycle.
  - destruct Ht. eapply settle_step; [|done..|exact H]. auto.
  - eapply transition_step; [exact H|]. eauto using release_lifecycle.
  - eapply transition_step; [exact H|]. eauto using expire_lifecycle.
  - unfold apply_refund, mseq, mstate, mlift in H.
    destruct (validate_refund _ _ _) as [[]|] eqn:Hv; [|done].
    unfold validate_refund in Hv. apply rbind_ok in Hv as ([] & H1 & Hv).
    apply rbind_ok in Hv as ([] & H2 & Hv).
    eapply transition_step; [exact H|]. intros before changed -> Hb Hc.
    rewrite Hb in Hv. by eapply refund_lifecycle.
Qed.
