(* ===== verification/BudgetLaws.v ===== *)
(** * Laws of the budget ledger

    The invariant of every reachable ledger and what follows from it: exact
    accounting, admission within the envelope, safe retries, terminal
    reservations and recovery. *)

From Stdlib Require Import Ascii String.
From S2P Require Import Prelude RustText Contracts Receipts Budget.

#[local] Open Scope string_scope.
#[local] Open Scope Z_scope.

(** ** The invariant *)

Definition refs_ok (l : BudgetLedger) (r : ReservationReceipt) : Prop :=
  match canonical_admission_receipt_ref r, activation_receipt_ref r with
  | Some admission, Some activation => refs_valid l admission activation = Ok tt
  | None, None => True
  | _, _ => False
  end.

Definition untouched (r : ReservationReceipt) : Prop :=
  committed_usage r = None /\ refund_observations r = [].

Record refund_ok (r : ReservationReceipt) (o : RefundObservation) : Prop := {
  ro_id_ok : budget_text (ro_observation_id o) "refund.observation_id" = Ok tt;
  ro_provider_ok : provider_tool_validate (ro_provider_tool o) = Ok tt;
  ro_matches : refund_matches r o = Ok tt;
}.

Record settled (r : ReservationReceipt) (usage : MeasuredUsage) : Prop := {
  se_provider : provider_tool_validate (mu_provider_tool usage) = Ok tt;
  se_matches : usage_matches r usage = Ok tt;
  se_disposition : disposition_for_status (mu_status usage) = Ok (rr_disposition r);
  se_ids : NoDup (ro_observation_id <$> refund_observations r);
  se_refs : NoDup (ro_provider_receipt_ref <$> refund_observations r);
  se_refunds : Forall (refund_ok r) (refund_observations r);
}.

(** What each state of a reservation implies for its receipt. *)
Definition state_ok (r : ReservationReceipt) : Prop :=
  match rr_state r with
  | StagedInactive =>
      untouched r /\ canonical_admission_receipt_ref r = None /\ rr_disposition r = Unknown /\
      exhaustion_disposition_of r = WithinEnvelope
  | Active =>
      untouched r /\ is_some (canonical_admission_receipt_ref r) = true /\
      rr_disposition r = Unknown
  | Reconciling => untouched r /\ rr_disposition r = Unknown
  | Released =>
      match committed_usage r with
      | Some usage => settled r usage
      | None => refund_observations r = [] /\ rr_disposition r = Cancelled
      end
  | Expired => untouched r /\ rr_disposition r = Cancelled
  end.

Definition id_text (l : BudgetLedger) (n : Z) : string :=
  be_envelope_id (bl_envelope l) ++ "-" ++ u64_to_string n.

Record receipt_inv (l : BudgetLedger) (key : string) (r : ReservationReceipt) : Prop := {
  ri_key : rr_idempotency_key r = key;
  ri_identity : validate_receipt_identity (bl_envelope l) (bl_authority l) r = Ok tt;
  ri_refs : refs_ok l r;
  ri_state : state_ok r;
  ri_shape : validate_exhaustion_shape l (exhaustion_disposition_of r) = Ok tt;
  ri_amounts : amounts_ok r;
  ri_sequence : exists n, 1 <= n < next_reservation l /\ reservation_id r = id_text l n;
}.

Record ledger_inv (l : BudgetLedger) : Prop := {
  li_envelope : BudgetEnvelope_validate (bl_envelope l) = Ok tt;
  li_fence : StateFence_validate (ab_state_fence (bl_authority l)) = Ok tt;
  li_epoch : is_same_authority (ab_authority_epoch (bl_authority l))
               (authority_epoch (ab_state_fence (bl_authority l))) = true;
  li_windows : reservations l <> ∅ ->
    for_each window_recoverable (quota_windows (bl_envelope l)) = Ok tt;
  li_receipts : forall k r, reservations l !! k = Some r -> receipt_inv l k r;
  li_distinct : forall k k' r r', reservations l !! k = Some r -> reservations l !! k' = Some r' ->
    reservation_id r = reservation_id r' -> k = k';
  li_next : next_reservation l = Z.of_nat (size (reservations l)) + 1;
  li_next_u64 : next_reservation l <= u64_max;
  li_totals : totals_u64 l;
  li_reserved_cost : reserved_cost_micros l = map_sum held_cost (reservations l);
  li_reserved_quota : reserved_quota_units l = map_sum held_quota (reservations l);
  li_committed_cost : committed_cost_micros l = map_sum net_cost (reservations l);
  li_committed_quota : committed_quota_units l = map_sum used_quota (reservations l);
  li_single : size (reservations l) = 1%nat -> forall k r, reservations l !! k = Some r ->
    exhaustion_disposition l = Ok (exhaustion_disposition_of r);
}.

(** ** Preservation by the lifecycle *)

Section Preservation.

Lemma lifecycle_identity l r r' envelope authority d :
  lifecycle l r r' -> validate_receipt_identity envelope authority r = Ok tt ->
  validate_receipt_identity envelope authority (set_exhaustion d r') = Ok tt.
Proof. intros Hlc H. destruct Hlc; exact H. Qed.

Lemma lifecycle_bindings l r r' :
  lifecycle l r r' ->
  reservation_id r' = reservation_id r /\ rr_idempotency_key r' = rr_idempotency_key r /\
  estimated_cost_micros r' = estimated_cost_micros r /\
  estimated_quota_units r' = estimated_quota_units r /\
  rr_operation r' = rr_operation r /\ rr_authority r' = rr_authority r /\
  rr_provider_tool r' = rr_provider_tool r /\ rr_envelope_id r' = rr_envelope_id r.
Proof. by destruct 1. Qed.

Lemma lifecycle_refs l r r' d : lifecycle l r r' -> refs_ok l r -> refs_ok l (set_exhaustion d r').
Proof. intros Hlc H. destruct Hlc; first [exact H | done]. Qed.

Lemma lifecycle_not_staged l r r' : lifecycle l r r' -> rr_state r' <> StagedInactive.
Proof. destruct 1; simpl; congruence. Qed.

Lemma state_ok_exhaustion r d :
  rr_state r <> StagedInactive -> state_ok r -> state_ok (set_exhaustion d r).
Proof.
  unfold state_ok. intros Hs H. simpl.
  destruct (rr_state r); simpl; try done.
  destruct (committed_usage r); [|done]. destruct H. constructor; try done.
  eapply Forall_impl; [eassumption|]. intros o []. by constructor.
Qed.

Lemma untouched_while_holding r :
  state_ok r -> holds_capacity (rr_state r) = true -> untouched r.
Proof. unfold state_ok. destruct (rr_state r); naive_solver. Qed.

Lemma lifecycle_state l r r' : lifecycle l r r' -> state_ok r -> state_ok r'.
Proof.
  intros Hlc H. pose proof (untouched_while_holding r H) as Hu.
  destruct Hlc as [r _|r adm act Hs _|r Hs|r usage d Hs Hp Hm Hd _ _|r Hs|r Hs
                  |r usage o Hs Hcu Ht Hp Hm Hi Hr _ _]; [done|..].
  - destruct Hu as [? ?]; [by destruct Hs as [-> | ->]|]. unfold state_ok in *. simpl.
    split; [done|]. split; [done|]. destruct Hs as [Hs|Hs]; rewrite Hs in H; naive_solver.
  - destruct Hu as [? ?]; [by destruct Hs as [-> | ->]|]. by unfold state_ok.
  - destruct Hu as [_ Hno]; [by destruct Hs as [-> | ->]|]. unfold state_ok. simpl.
    split; simpl; rewrite ?Hno; try done; constructor.
  - destruct Hu as [Hc Hno]; [done|]. unfold state_ok. simpl. by rewrite Hc.
  - destruct Hu as [? ?]; [by destruct Hs as [-> | ->]|]. by unfold state_ok.
  - unfold state_ok in *. simpl. rewrite Hs, Hcu in *. destruct H as [H1 H2 H3 H4 H5 H6].
    split; simpl; try done.
    + rewrite fmap_app. apply NoDup_app. split; [done|]. split; [|apply NoDup_singleton].
      intros x Hx ->%list_elem_of_singleton. done.
    + rewrite fmap_app. apply NoDup_app. split; [done|]. split; [|apply NoDup_singleton].
      intros x Hx ->%list_elem_of_singleton. done.
    + apply Forall_app. split.
      * eapply Forall_impl; [exact H6|]. intros o' []. by split.
      * rewrite Forall_singleton. by split.
Qed.

End Preservation.

(** ** Exhaustion verdicts *)

Section Verdicts.

Lemma position_skip (windows rest : list QuotaWindow) w :
  window_id w ∉ window_id <$> windows ->
  position (fun x => window_id x == window_id w) (windows ++ w :: rest)%list
  = Some (length windows).
Proof.
  induction windows as [|x windows IH]; simpl; intros Hn.
  - by rewrite bool_decide_eq_true_2.
  - rewrite bool_decide_eq_false_2 by set_solver. rewrite IH by set_solver. done.
Qed.

Lemma windows_in_order_filter f (rest : list QuotaWindow) : forall windows previous,
  NoDup (window_id <$> (windows ++ rest)%list) ->
  (forall p, previous = Some p -> (p < length windows)%nat) ->
  windows_in_order (windows ++ rest)%list previous (window_id <$> List.filter f rest) = Ok tt.
Proof.
  induction rest as [|w rest IH]; intros windows previous Hnd Hp; simpl; [done|].
  assert (Hsplit : (windows ++ w :: rest = (windows ++ [w]) ++ rest)%list)
    by (by rewrite <- app_assoc).
  destruct (f w).
  - cbn [fmap list_fmap windows_in_order].
    rewrite position_skip; cbn [ok_or rbind].
    + assert (Hg : match previous with Some p => (length windows <=? p)%nat | None => false end
                   = false).
      { destruct previous as [p|]; [|done]. apply Nat.leb_gt. by apply Hp. }
      rewrite Hg. cbn [guard_err rbind]. rewrite Hsplit. apply IH; [by rewrite <- Hsplit|].
      intros p [= <-]. rewrite length_app. simpl. lia.
    + rewrite fmap_app, fmap_cons in Hnd. apply NoDup_app in Hnd as (_ & Hd & _).
      intros Hin. apply (Hd _ Hin). left.
  - rewrite Hsplit. apply IH; [by rewrite <- Hsplit|].
    intros p Hpp. rewrite length_app. specialize (Hp p Hpp). lia.
Qed.

Lemma envelope_windows_distinct e :
  BudgetEnvelope_validate e = Ok tt -> NoDup (window_id <$> quota_windows e).
Proof.
  unfold BudgetEnvelope_validate. intros H. repeat (apply rbind_ok in H as (? & ? & H)).
  match goal with
  | Hs : scan_distinct _ _ _ _ _ = Ok _ |- _ => apply scan_distinct_ok in Hs as (_ & Hs & _)
  end. done.
Qed.

(** A verdict lists the exhausted windows in the envelope's order. *)
Lemma classify_shape l cc rc cq rq d :
  BudgetEnvelope_validate (bl_envelope l) = Ok tt ->
  classify_exhaustion (bl_envelope l) cc rc cq rq = Ok d -> validate_exhaustion_shape l d = Ok tt.
Proof.
  intros He%envelope_windows_distinct H. unfold classify_exhaustion in H.
  apply rbind_ok in H as (tc & _ & H). apply rbind_ok in H as (tq & _ & H).
  pose proof (windows_in_order_filter (window_exhausted tq) (quota_windows (bl_envelope l)) [] None
                He ltac:(done)) as Ho.
  unfold exhausted_windows in H. simpl in Ho.
  destruct (window_id <$> List.filter _ _) as [|id ids] eqn:Hw;
    repeat case_match; simplify_eq; simpl in *; done.
Qed.

(** Within its limit and its windows, a ledger's verdict is [WithinEnvelope]. *)
Lemma classify_within e cc rc cq rq :
  cc + rc <= u64_max -> cq + rq <= u64_max ->
  (forall limit, max_cost_micros e = Some limit -> cc + rc <= limit) ->
  Forall (fun w => exists remaining, qw_state w = QuotaKnown remaining /\ cq + rq <= remaining)
    (quota_windows e) ->
  classify_exhaustion e cc rc cq rq = Ok WithinEnvelope.
Proof.
  intros H1 H2 Hl Hw. unfold classify_exhaustion, checked_add.
  rewrite (proj2 (Z.leb_le _ _) H1), (proj2 (Z.leb_le _ _) H2). simpl.
  assert (Hno : exhausted_windows (quota_windows e) (cq + rq) = []).
  { unfold exhausted_windows. induction Hw as [|w ws (rem & Hrem & Hle) _ IH]; simpl; [done|].
    unfold window_exhausted at 1. rewrite Hrem. rewrite (proj2 (Z.ltb_ge _ _)) by lia. done. }
  rewrite Hno. destruct (max_cost_micros e) as [limit|]; [|done].
  specialize (Hl limit eq_refl). by rewrite (proj2 (Z.ltb_ge _ _)).
Qed.

Lemma checked_add3_ok a b c n :
  checked_add3 a b c = Ok n -> n = a + b + c /\ a + b + c <= u64_max.
Proof.
  unfold checked_add3. destruct (checked_add a b) as [v|] eqn:E; simpl; [|done].
  destruct (checked_add v c) as [w|] eqn:F; simpl; [|done]. intros [= <-].
  apply checked_add_some in E, F. lia.
Qed.

Lemma check_capacity_ok l cost quota :
  check_capacity l cost quota = Ok tt ->
  exists q, quota = Some q /\
  (is_some (max_cost_micros (bl_envelope l)) = true -> is_Some cost) /\
  (forall limit, max_cost_micros (bl_envelope l) = Some limit ->
     committed_cost_micros l + reserved_cost_micros l + default 0 cost <= limit /\
     committed_cost_micros l + reserved_cost_micros l + default 0 cost <= u64_max) /\
  Forall (fun w => exists remaining, qw_state w = QuotaKnown remaining /\
            committed_quota_units l + reserved_quota_units l + q <= remaining /\
            committed_quota_units l + reserved_quota_units l + q <= u64_max)
    (quota_windows (bl_envelope l)).
Proof.
  unfold check_capacity. intros H.
  apply rbind_ok in H as ([] & H1 & H). apply guard_err_ok in H1.
  apply rbind_ok in H as ([] & _ & H). apply rbind_ok in H as ([] & H3 & H).
  destruct quota as [q|]; simpl in H; [|done]. exists q. split; [done|]. split_and!.
  - intros Hs. rewrite Hs in H1. simpl in H1. bool_facts. by destruct cost.
  - intros limit Hl. rewrite Hl in *. simpl in H1. bool_facts. destruct cost as [c|]; [|done].
    apply rbind_ok in H3 as (total & Ht & Hg). apply guard_err_ok in Hg.
    apply checked_add3_ok in Ht. simpl. lia.
  - apply for_each_ok in H. eapply Forall_impl; [exact H|]. intros w Hw. unfold window_admits in Hw.
    destruct (qw_state w) as [remaining| | | |]; try done. exists remaining. split; [done|].
    apply rbind_ok in Hw as (used & Hu & Hg). apply guard_err_ok in Hg.
    apply checked_add3_ok in Hu. lia.
Qed.

End Verdicts.

(** ** Every reachable ledger satisfies the invariant *)

Section Reachable.

Lemma id_text_inj l n n' : is_u64 n -> is_u64 n' -> id_text l n = id_text l n' -> n = n'.
Proof.
  intros Hn Hn' H. unfold id_text in H.
  pose proof (strip_prefix_app (be_envelope_id (bl_envelope l) ++ "-") (u64_to_string n)) as H1.
  pose proof (strip_prefix_app (be_envelope_id (bl_envelope l) ++ "-") (u64_to_string n')) as H2.
  rewrite append_assoc in H1. rewrite append_assoc in H2.
  simpl in H, H1, H2. rewrite H, H2 in H1. injection H1 as H1.
  apply (f_equal parse_u64) in H1. rewrite !parse_u64_to_string in H1 by done. congruence.
Qed.

Lemma single_key {V} (m : gmap string V) k k' v v' :
  size m = 1%nat -> m !! k = Some v -> m !! k' = Some v' -> k = k'.
Proof.
  intros Hs Hk Hk'. destruct (decide (k = k')) as [|Hne]; [done|]. exfalso.
  rewrite <- (insert_delete_id m k v Hk), map_size_insert_None in Hs by apply lookup_delete_eq.
  assert (H0 : delete k m = ∅) by (apply map_size_empty_inv; lia).
  assert (H1 : delete k m !! k' = Some v') by (by rewrite lookup_delete_ne).
  by rewrite H0, lookup_empty in H1.
Qed.

Lemma receipt_inv_frame l l' k r :
  bl_envelope l' = bl_envelope l -> bl_authority l' = bl_authority l ->
  next_reservation l <= next_reservation l' -> receipt_inv l k r -> receipt_inv l' k r.
Proof.
  intros He Ha Hn [H1 H2 H3 H4 H5 H6 (n & Hr & Hid)].
  split; rewrite ?He, ?Ha; try done.
  - unfold refs_ok, refs_valid in *. by rewrite He, Ha.
  - unfold validate_exhaustion_shape in *. by rewrite He.
  - exists n. unfold id_text in *. rewrite He. split; [lia|done].
Qed.

Lemma ledger_inv_new envelope authority l :
  BudgetLedger_new envelope authority = Ok l -> ledger_inv l.
Proof.
  unfold BudgetLedger_new. intros H.
  apply rbind_ok in H as ([] & H1 & H). apply rbind_ok in H as ([] & H2 & H).
  apply map_err_ok in H2. apply rbind_ok in H as ([] & H3 & H). apply guard_err_ok in H3.
  bool_facts. simplify_eq. assert (Hz : is_u64 0) by (split; [lia|by vm_compute]).
  split; simpl; try done; split; done.
Qed.

Lemma staged_text l n :
  0 <= n -> BudgetEnvelope_validate (bl_envelope l) = Ok tt ->
  budget_text (id_text l n) "reservation_id" = Ok tt.
Proof.
  intros Hn H. unfold BudgetEnvelope_validate in H. apply rbind_ok in H as ([] & H & _).
  unfold budget_text in *. apply guard_err_ok in H. apply guard_err_ok.
  apply negb_true_iff. unfold id_text.
  apply (text_ok_app_ascii (be_envelope_id (bl_envelope l)) (u64_to_string n) "-"%char);
    [by vm_compute|by vm_compute|by apply u64_to_string_clean|].
  unfold text_ok. by rewrite H.
Qed.

Lemma budget_text_field value field field' :
  budget_text value field = Ok tt -> budget_text value field' = Ok tt.
Proof. unfold budget_text. by rewrite !guard_err_ok. Qed.

Lemma staged_receipt_inv l request next :
  ledger_inv l -> validate_request l request = Ok tt ->
  estimate_u64 (rq_estimated_cost_micros request) ->
  estimate_u64 (rq_estimated_quota_units request) ->
  check_capacity l (rq_estimated_cost_micros request) (rq_estimated_quota_units request) = Ok tt ->
  next = next_reservation l + 1 ->
  forall m rc rq cc cq, receipt_inv (with_totals l m next rc rq cc cq)
    (op_idempotency_key (rq_operation request)) (staged_receipt l request).
Proof.
  intros Hi Hv Hec Heq Hcap -> m rc rq cc cq. pose proof (li_next _ Hi) as Hn.
  unfold validate_request in Hv.
  apply rbind_ok in Hv as ([] & Ht & Hv). apply rbind_ok in Hv as ([] & Hp & Hv).
  apply rbind_ok in Hv as ([] & He & Hv). apply rbind_ok in Hv as ([] & Hr & Hv).
  apply rbind_ok in Hv as ([] & Ha & Hv). apply rbind_ok in Hv as ([] & Ho & Hv).
  apply guard_err_ok in He, Hr, Ha. bool_facts.
  apply check_capacity_ok in Hcap as (q & Hq & Hc & _ & _).
  split; simpl; try done.
  - unfold validate_receipt_identity, staged_receipt; simpl.
    pose proof (staged_text l (next_reservation l) ltac:(lia) (li_envelope _ Hi)) as Hid.
    unfold id_text in Hid. simpl in Hid. rewrite Hid.
    rewrite (budget_text_field _ _ _ Ht), Hv, He, Ha, Hr, Hq. simpl.
    rewrite !bool_decide_eq_true_2 by done. simpl.
    destruct (is_some (max_cost_micros (bl_envelope l))); simpl; [|by rewrite <- Ha].
    destruct (Hc eq_refl) as [c ->]. simpl. by rewrite <- Ha.
  - exists (next_reservation l). split; [lia|done].
Qed.

(** Staging keeps the invariant. *)
Lemma ledger_inv_reserve l request rc rq :
  ledger_inv l -> validate_request l request = Ok tt ->
  estimate_u64 (rq_estimated_cost_micros request) ->
  estimate_u64 (rq_estimated_quota_units request) ->
  reservations l !! op_idempotency_key (rq_operation request) = None ->
  check_capacity l (rq_estimated_cost_micros request) (rq_estimated_quota_units request) = Ok tt ->
  next_reservation l + 1 <= u64_max ->
  add_optional (reserved_cost_micros l) (rq_estimated_cost_micros request) = Ok rc ->
  add_optional (reserved_quota_units l) (rq_estimated_quota_units request) = Ok rq ->
  ledger_inv (with_totals l (<[op_idempotency_key (rq_operation request) := staged_receipt l request]>
                               (reservations l))
                (next_reservation l + 1) rc rq (committed_cost_micros l) (committed_quota_units l)).
Proof.
  intros Hi Hv Hec Heq Hk Hcap Hn Hrc Hrq.
  pose proof (staged_receipt_inv l request _ Hi Hv Hec Heq Hcap eq_refl) as Hs.
  pose proof (check_capacity_ok _ _ _ Hcap) as (q & Hq & _ & Hlimit & Hwin).
  apply add_optional_ok in Hrc as [-> Hrc], Hrq as [-> Hrq].
  pose proof (estimate_nonneg _ Hec) as [? ?]. pose proof (estimate_nonneg _ Heq) as [? ?].
  pose proof Hi as [He Hf Hep Hw Hr Hd Hsz Hu Ht Hs1 Hs2 Hs3 Hs4 Hone]. pose proof Ht as [].
  assert (Hz := map_size_insert_None _ (staged_receipt l request) _ Hk).
  split; simpl; try done.
  - intros _. apply for_each_ok. eapply Forall_impl; [exact Hwin|].
    intros w (remaining & Hrem & _). unfold window_recoverable. by rewrite Hrem.
  - intros k r [[<- <-]|[Hne Hl]]%lookup_insert_Some; [done|].
    eapply (receipt_inv_frame l); try done; [simpl; lia|by apply Hr].
  - intros k k' r r' [[<- <-]|[Hne Hl]]%lookup_insert_Some [[<- <-]|[Hne' Hl']]%lookup_insert_Some;
      try done; [| |by eapply Hd].
    + intros Hid. exfalso. destruct (ri_sequence _ _ _ (Hr _ _ Hl')) as (n & Hnn & Hidn).
      rewrite Hidn in Hid. apply id_text_inj in Hid; unfold is_u64; lia.
    + intros Hid. exfalso. destruct (ri_sequence _ _ _ (Hr _ _ Hl)) as (n & Hnn & Hidn).
      rewrite Hidn in Hid. apply id_text_inj in Hid; unfold is_u64; lia.
  - lia.
  - unfold is_u64 in *. split; unfold is_u64; simpl; lia.
  - rewrite map_sum_insert_new by done. unfold held_cost at 1. simpl. lia.
  - rewrite map_sum_insert_new by done. unfold held_quota at 1. simpl. lia.
  - rewrite map_sum_insert_new by done. unfold net_cost at 1, gross_cost, refunded. simpl. lia.
  - rewrite map_sum_insert_new by done. unfold used_quota at 1. simpl. lia.
  - intros Hsize k r Hl. rewrite Hz in Hsize.
    assert (Hempty : reservations l = ∅) by (apply map_size_empty_inv; lia).
    rewrite Hempty, insert_empty in Hl. apply lookup_singleton_Some in Hl as [_ <-]. simpl.
    rewrite Hempty in *. unfold map_sum in *. rewrite map_fold_empty in *.
    unfold exhaustion_disposition. simpl.
    rewrite Hq in *. simpl in *. apply classify_within; try lia.
    + intros limit Hlim. destruct (Hlimit limit Hlim). lia.
    + eapply Forall_impl; [exact Hwin|]. intros w (remaining & Hrem & ? & ?).
      exists remaining. split; [done|lia].
Qed.

(** So does a move along the lifecycle. *)
Lemma ledger_inv_move l key before changed rc rq cc cq d :
  ledger_inv l -> reservations l !! key = Some before -> lifecycle l before changed ->
  rebook l before changed = Ok (rc, rq, cc, cq) ->
  classify_exhaustion (bl_envelope l) cc rc cq rq = Ok d ->
  ledger_inv (with_totals l (<[key := set_exhaustion d changed]> (reservations l))
                (next_reservation l) rc rq cc cq).
Proof.
  intros Hi Hk Hlc Hb Hd. pose proof Hi as [He Hf Hep Hw Hr Hdis Hsz Hu Ht Hs1 Hs2 Hs3 Hs4 Hone].
  pose proof (Hr _ _ Hk) as [Hkey Hid Hrefs Hst Hshape Ham (n & Hn & Hseq)].
  destruct (rebook_ok _ _ _ _ _ _ _ Ht Ham Hlc Hb) as (-> & -> & -> & -> & ? & ? & ? & ?).
  destruct (lifecycle_bindings _ _ _ Hlc) as (Hb1 & Hb2 & _).
  assert (Hsame : size (<[key := set_exhaustion d changed]> (reservations l)) = size (reservations l))
    by (apply map_size_insert_Some; by rewrite Hk).
  split; simpl; try done.
  - intros _. apply Hw. intros Hempty. by rewrite Hempty in Hk.
  - intros k r [[<- <-]|[Hne Hl]]%lookup_insert_Some;
      [|eapply (receipt_inv_frame l); try done; by apply Hr].
    eapply (receipt_inv_frame l); try done. split; simpl.
    + by rewrite Hb2.
    + by eapply lifecycle_identity.
    + by eapply lifecycle_refs.
    + apply state_ok_exhaustion; [by eapply lifecycle_not_staged|by eapply lifecycle_state].
    + by eapply classify_shape.
    + by destruct (lifecycle_amounts _ _ _ Hlc Ham).
    + exists n. by rewrite Hb1.
  - intros k k' r r' [[<- <-]|[Hne Hl]]%lookup_insert_Some [[<- <-]|[Hne' Hl']]%lookup_insert_Some;
      simpl; rewrite ?Hb1; eauto.
  - by rewrite Hsame.
  - by rewrite (map_sum_insert _ _ _ before), <- Hs1.
  - by rewrite (map_sum_insert _ _ _ before), <- Hs2.
  - by rewrite (map_sum_insert _ _ _ before), <- Hs3.
  - by rewrite (map_sum_insert _ _ _ before), <- Hs4.
  - rewrite Hsame. intros Hsize k r Hl.
    assert (k = key) as ->.
    { eapply (single_key (<[key := set_exhaustion d changed]> (reservations l)));
        [by rewrite Hsame|exact Hl|by apply lookup_insert_eq]. }
    rewrite lookup_insert_eq in Hl. simplify_eq. exact Hd.
Qed.

Lemma ledger_inv_step l l' r : ledger_inv l -> ledger_step l l' r -> ledger_inv l'.
Proof.
  intros Hi Hs. destruct Hs; [done|by apply ledger_inv_reserve|by eapply ledger_inv_move].
Qed.

(** A failing call changes nothing. *)
Lemma call_err c l l' e : call c l = (l', Err e) -> l' = l.
Proof.
  destruct c; simpl;
    unfold reserve, activate, commit, reconcile_usage, settle, begin_reconciliation,
      release_without_execution, expire, apply_refund;
    unfold mseq, mstate, mlift, mret_ok, mthrow, mmodify; intros H;
    repeat (case_match; simplify_eq/=); try done; by eapply transition_err.
Qed.

(** A restored ledger is the snapshotted one. *)
Lemma admit_records_map s records : forall m seen m' seen',
  fold_res (admit_record s) (m, seen) records = Ok (m', seen') ->
  m' = insert_all rec_idempotency_key rec_receipt records m.
Proof.
  induction records as [|x records IH]; intros m seen m' seen' H; simpl in H; [by simplify_eq|].
  apply rbind_ok in H as ([m1 seen1] & H1 & H). apply IH in H. rewrite H.
  unfold admit_record in H1. repeat (apply rbind_ok in H1 as (? & _ & H1)). by simplify_eq.
Qed.

Lemma rebook_receipts_frame rs : forall l l',
  fold_res rebook_receipt l rs = Ok l' ->
  bl_envelope l' = bl_envelope l /\ bl_authority l' = bl_authority l /\
  reservations l' = reservations l /\ next_reservation l' = next_reservation l.
Proof.
  induction rs as [|r rs IH]; intros l l' H; simpl in H; [by simplify_eq|].
  apply rbind_ok in H as (l1 & H1 & H). apply IH in H.
  unfold rebook_receipt in H1. apply rbind_ok in H1 as (? & _ & H1).
  apply rbind_ok in H1 as ([] & _ & H1). apply rbind_ok in H1 as ([] & _ & H1).
  by simplify_eq/=.
Qed.

Lemma snapshot_records m :
  insert_all rec_idempotency_key rec_receipt
    ((fun kv => {| rec_idempotency_key := kv.1; rec_receipt := kv.2 |}) <$> btree_iter m) ∅ = m.
Proof.
  rewrite <- (insert_all_iter m) at 2. unfold insert_all. generalize (∅ : gmap string ReservationReceipt).
  induction (btree_iter m) as [|[k r] rest IH]; intros acc; simpl; [done|]. apply IH.
Qed.

Lemma restore_same l l' : restore (snapshot_of l) = Ok l' -> l' = l.
Proof.
  unfold restore. intros H. do 5 (apply rbind_ok in H as ([] & _ & H)).
  apply rbind_ok in H as ([m seen] & Hm & H). apply rbind_ok in H as (next & _ & H).
  apply rbind_ok in H as ([] & _ & H). apply rbind_ok in H as (l1 & Hl & H).
  apply rbind_ok in H as ([] & Ht & H). apply rbind_ok in H as ([] & _ & H). simplify_eq.
  apply admit_records_map in Hm. simpl in Hm. rewrite snapshot_records in Hm.
  apply rebook_receipts_frame in Hl as (H1 & H2 & H3 & H4). apply guard_err_ok in Ht. bool_facts.
  destruct l as [e a rs n rc rq cc cq], l' as [e' a' rs' n' rc' rq' cc' cq']. simpl in *. subst.
  f_equal; lia.
Qed.

Lemma budget_snapshot_ok l s : budget_snapshot l = Ok s -> s = snapshot_of l.
Proof. unfold budget_snapshot. intros (? & _ & ?)%rbind_ok. by simplify_eq. Qed.

Lemma reachable_ledger_inv l : reachable_ledger l -> ledger_inv l.
Proof.
  induction 1 as [e a l H|l c l' r _ IH Ht H|l s l' _ IH Hs H].
  - by eapply ledger_inv_new.
  - destruct r as [r|e]; [|by apply call_err in H as ->].
    eapply ledger_inv_step; [done|by eapply call_step].
  - apply budget_snapshot_ok in Hs as ->. unfold budget_from_snapshot in H.
    apply rbind_ok in H as (? & _ & H). by apply restore_same in H as ->.
Qed.

End Reachable.

#[export] Hint Resolve reachable_ledger_inv : eliot.

(** ** Recovery succeeds *)

Section Recovery.

(** A receipt in order passes the recovery check of its state. *)
Lemma refund_chain_ok l r (Hk : reservations l !! rr_idempotency_key r = Some r) observations :
  forall ids refs,
  NoDup (ro_observation_id <$> observations) ->
  NoDup (ro_provider_receipt_ref <$> observations) ->
  Forall (refund_ok r) observations ->
  (forall o, o ∈ observations -> ro_observation_id o ∉ ids /\ ro_provider_receipt_ref o ∉ refs) ->
  scan_refunds l (rr_idempotency_key r) ids refs observations = Ok tt.
Proof.
  induction observations as [|o rest IH]; intros ids refs Hi Hr Hf Hnew; [done|].
  rewrite fmap_cons, NoDup_cons in Hi. rewrite fmap_cons, NoDup_cons in Hr.
  destruct Hi as [Hi Hi'], Hr as [Hr Hr'].
  apply Forall_cons in Hf as [[Ht Hp Hm] Hf]. cbn [scan_refunds].
  destruct (Hnew o ltac:(left)) as [Hn1 Hn2].
  rewrite !bool_decide_eq_false_2 by done. cbn [orb guard_err rbind].
  unfold validate_refund. rewrite Ht, Hp, Hk. cbn [rbind ok_or]. rewrite Hm. cbn [rbind].
  apply IH; try done. intros o' Ho'. destruct (Hnew o' ltac:(by right)) as [Hn1' Hn2'].
  assert (ro_observation_id o' <> ro_observation_id o).
  { intros Heq. apply Hi. rewrite <- Heq. apply list_elem_of_fmap. eauto. }
  assert (ro_provider_receipt_ref o' <> ro_provider_receipt_ref o).
  { intros Heq. apply Hr. rewrite <- Heq. apply list_elem_of_fmap. eauto. }
  split; [set_solver|]. rewrite elem_of_app, list_elem_of_singleton. naive_solver.
Qed.

Lemma refund_ok_known r o : refund_ok r o -> exists v, ro_cost_micros o = Known v.
Proof.
  intros [_ _ H]. unfold refund_matches in H. do 5 (apply rbind_ok in H as ([] & _ & H)).
  apply rbind_ok in H as (v & Hv & _). apply measured_some_ok in Hv. eauto.
Qed.

Lemma fold_refunds_total observations : forall acc,
  Forall (fun o => exists v, ro_cost_micros o = Known v /\ 0 <= v) observations ->
  default 0 acc + sum_list ((fun o => known_amount (ro_cost_micros o)) <$> observations)
    <= u64_max ->
  exists t, fold_res add_refund acc observations = Ok t.
Proof.
  induction observations as [|o rest IH]; intros acc Hf Hle; [by exists acc|].
  apply Forall_cons in Hf as [(v & Hv & Hpos) Hf].
  rewrite fmap_cons in Hle. cbn [sum_list fold_right] in Hle. rewrite Hv in Hle. simpl in Hle.
  assert (Hrest : 0 <= sum_list ((fun o => known_amount (ro_cost_micros o)) <$> rest)).
  { apply sum_list_nonneg, Forall_fmap. eapply Forall_impl; [exact Hf|].
    intros o' (w & Hw & ?). simpl. by rewrite Hw. }
  unfold sum_list in Hrest, Hle. cbn [fold_res]. unfold add_refund at 1. rewrite Hv. simpl.
  destruct acc as [a|]; simpl in *.
  - unfold checked_add. rewrite (proj2 (Z.leb_le _ _)) by lia. simpl.
    apply IH; [done|]. unfold sum_list. simpl. lia.
  - apply IH; [done|]. unfold sum_list. simpl. lia.
Qed.

Lemma refunded_total r usage :
  amounts_ok r -> settled r usage -> exists t, refunded_cost_micros r = Ok t.
Proof.
  intros Ha Hs. apply fold_refunds_total.
  - pose proof (am_refunds _ Ha) as Hpos. pose proof (se_refunds _ _ Hs) as Hok.
    rewrite Forall_forall in *. intros o Ho. destruct (refund_ok_known r o (Hok o Ho)) as [v Hv].
    specialize (Hpos o Ho). rewrite Hv in Hpos. eauto.
  - pose proof (am_refunded _ Ha) as Hle. unfold refunded in Hle.
    destruct (am_gross _ Ha). simpl. lia.
Qed.

Lemma receipt_state_recovers l r :
  reservations l !! rr_idempotency_key r = Some r -> refs_ok l r -> state_ok r -> amounts_ok r ->
  validate_receipt_state l r = Ok tt.
Proof.
  intros Hk Hrefs Hst Ha. unfold validate_receipt_state.
  assert (Hpair : activation_receipt_ref r = None <-> canonical_admission_receipt_ref r = None).
  { unfold refs_ok in Hrefs.
    destruct (canonical_admission_receipt_ref r), (activation_receipt_ref r); naive_solver. }
  replace (Bool.eqb _ _) with true.
  2: { destruct (canonical_admission_receipt_ref r), (activation_receipt_ref r); naive_solver. }
  cbn [negb guard_err rbind].
  assert (Hpass : match canonical_admission_receipt_ref r, activation_receipt_ref r with
                  | Some admission, Some activation => refs_valid l admission activation
                  | _, _ => Ok tt
                  end = Ok tt).
  { unfold refs_ok in Hrefs. by repeat case_match. }
  rewrite Hpass.
  cbn [rbind]. unfold state_ok, untouched in Hst. destruct (rr_state r) eqn:Hs.
  - destruct Hst as ([-> ->] & Hc & -> & ->). rewrite Hc, (proj2 Hpair Hc). done.
  - destruct Hst as ([-> ->] & Hc & ->). simpl. by rewrite Hc.
  - destruct Hst as ([-> ->] & ->). done.
  - destruct (committed_usage r) as [usage|] eqn:Hu.
    + pose proof Hst as [Hp Hm Hd Hi Hr Hf]. destruct (refunded_total r usage Ha Hst) as [t Ht].
      unfold validate_usage. rewrite Hp, Hk. cbn [rbind ok_or]. rewrite Hm, Hd. cbn [rbind].
      rewrite bool_decide_eq_true_2 by done. cbn [negb guard_err rbind].
      rewrite (refund_chain_ok l r Hk) by (first [done | intros; split; set_solver]).
      cbn [rbind]. by rewrite Ht.
    + destruct Hst as [-> ->]. done.
  - destruct Hst as ([-> ->] & ->). done.
Qed.

(** The wire keys of a snapshot ascend strictly. *)
Lemma record_keys_ok (entries : list (string * ReservationReceipt)) : forall previous,
  StronglySorted key_le entries -> NoDup entries.*1 ->
  Forall (fun kv => budget_text kv.1 "idempotency_key" = Ok tt) entries ->
  (forall p kv, previous = Some p -> kv ∈ entries -> ~ String.le kv.1 p) ->
  scan_record_keys previous
    ((fun kv => {| rec_idempotency_key := kv.1; rec_receipt := kv.2 |}) <$> entries) = Ok tt.
Proof.
  induction entries as [|[k r] rest IH]; intros previous Hs Hnd Hf Hp; [done|].
  apply StronglySorted_inv in Hs as [Hs Hle]. rewrite fmap_cons, NoDup_cons in Hnd.
  destruct Hnd as [Hni Hnd]. apply Forall_cons in Hf as [Ht Hf].
  rewrite fmap_cons. cbn [scan_record_keys rec_idempotency_key fst]. simpl in Ht. rewrite Ht.
  cbn [rbind].
  assert (Hg : match previous with Some p => bool_decide (String.le k p) | None => false end = false).
  { destruct previous as [p|]; [|done]. apply bool_decide_eq_false_2.
    apply (Hp p (k, r)); [done|left]. }
  rewrite Hg. cbn [guard_err rbind]. apply IH; try done.
  intros p [k' r'] [= <-] Hin Hle'. simpl in *. rewrite Forall_forall in Hle.
  pose proof (Hle _ Hin) as Hkk. unfold key_le in Hkk. simpl in Hkk.
  assert (k = k') by (by apply (anti_symm String.le)). subst.
  apply Hni, list_elem_of_fmap. by exists (k', r').
Qed.

Definition sequence_of (l : BudgetLedger) (r : ReservationReceipt) : Z :=
  match reservation_sequence (be_envelope_id (bl_envelope l)) r with
  | Ok n => n
  | Err _ => 0
  end.

Lemma sequence_of_ok l k r :
  ledger_inv l -> reservations l !! k = Some r ->
  reservation_sequence (be_envelope_id (bl_envelope l)) r = Ok (sequence_of l r) /\
  1 <= sequence_of l r < next_reservation l /\ reservation_id r = id_text l (sequence_of l r).
Proof.
  intros Hi Hk. destruct (ri_sequence _ _ _ (li_receipts _ Hi _ _ Hk)) as (n & Hn & Hid).
  assert (Hu : is_u64 n) by (pose proof (li_next_u64 _ Hi); unfold is_u64; lia).
  assert (Hseq : reservation_sequence (be_envelope_id (bl_envelope l)) r = Ok n).
  { unfold reservation_sequence. rewrite Hid. unfold id_text.
    rewrite <- append_assoc, strip_prefix_app. cbn [ok_or rbind].
    rewrite parse_u64_to_string by done. cbn [ok_or rbind].
    rewrite (proj2 (Z.eqb_neq n 0)) by lia. rewrite bool_decide_eq_true_2 by done. done. }
  unfold sequence_of. by rewrite Hseq.
Qed.

Lemma sequences_distinct l (entries : list (string * ReservationReceipt)) :
  ledger_inv l -> NoDup entries.*1 ->
  (forall k r, (k, r) ∈ entries -> reservations l !! k = Some r) ->
  NoDup ((fun kv => sequence_of l kv.2) <$> entries).
Proof.
  intros Hi. induction entries as [|[k r] rest IH]; intros Hnd Hin; [constructor|].
  rewrite fmap_cons, NoDup_cons in Hnd. destruct Hnd as [Hni Hnd].
  rewrite fmap_cons. apply NoDup_cons. split; [|apply IH; [done|]; intros; apply Hin; by right].
  intros ([k' r'] & Heq & Hr')%list_elem_of_fmap. simpl in *.
  pose proof (Hin k r ltac:(left)) as Hk. pose proof (Hin k' r' ltac:(by right)) as Hk'.
  destruct (sequence_of_ok l k r Hi Hk) as (_ & _ & H1).
  destruct (sequence_of_ok l k' r' Hi Hk') as (_ & _ & H2).
  apply Hni. rewrite (li_distinct _ Hi k k' r r' Hk Hk') by congruence.
  apply list_elem_of_fmap. by exists (k', r').
Qed.

(** The first loop accepts every record of a ledger's own snapshot. *)
Lemma admit_records_ok l (entries : list (string * ReservationReceipt)) : forall m (seen : gset Z),
  ledger_inv l -> NoDup entries.*1 ->
  (forall k r, (k, r) ∈ entries -> reservations l !! k = Some r) ->
  (forall k r, (k, r) ∈ entries -> m !! k = None /\ sequence_of l r ∉ seen) ->
  exists m', fold_res (admit_record (snapshot_of l)) (m, seen)
    ((fun kv => {| rec_idempotency_key := kv.1; rec_receipt := kv.2 |}) <$> entries)
  = Ok (m', list_to_set ((fun kv => sequence_of l kv.2) <$> entries) ∪ seen).
Proof.
  induction entries as [|[k r] rest IH]; intros m seen Hi Hnd Hin Hnew.
  { exists m. simpl. do 2 f_equal. set_solver. }
  pose proof (sequences_distinct l _ Hi Hnd Hin) as Hds.
  rewrite fmap_cons, NoDup_cons in Hnd. destruct Hnd as [Hni Hnd].
  rewrite fmap_cons, NoDup_cons in Hds. destruct Hds as [Hsn _]. simpl in Hsn.
  rewrite fmap_cons. cbn [fold_res]. unfold admit_record at 1. simpl.
  pose proof (Hin k r ltac:(left)) as Hk. destruct (Hnew k r ltac:(left)) as [Hm Hseen].
  pose proof (li_receipts _ Hi _ _ Hk) as [Hkey Hid _ _ _ _ _].
  destruct (sequence_of_ok l k r Hi Hk) as (Hs & Hb & _).
  rewrite bool_decide_eq_true_2 by done. cbn [negb guard_err rbind]. rewrite Hid. cbn [rbind].
  rewrite Hs. cbn [rbind]. rewrite bool_decide_eq_false_2 by done.
  rewrite (proj2 (Z.leb_gt _ _)) by lia. cbn [orb guard_err rbind]. rewrite Hm. simpl.
  destruct (IH (<[k := r]> m) ({[sequence_of l r]} ∪ seen) Hi Hnd) as [m' Hm'].
  - intros; apply Hin; by right.
  - intros k' r' Hr'. destruct (Hnew k' r' ltac:(by right)) as [Hm' Hs'].
    assert (k' <> k) by (intros ->; apply Hni, list_elem_of_fmap; by exists (k, r')).
    split; [by rewrite lookup_insert_ne|].
    assert (sequence_of l r' <> sequence_of l r); [|set_solver].
    intros Heq. apply Hsn. rewrite <- Heq. apply list_elem_of_fmap. by exists (k', r').
  - exists m'. rewrite Hm'. do 2 f_equal. set_solver.
Qed.

(** [n] distinct numbers between 1 and [n] are the numbers from 1 to [n]. *)
Lemma contiguous_zip (n : nat) : forall start,
  forallb (fun p : nat * Z => (Z.of_nat p.1 + 1) =? p.2)
    (zip (seq start n) (seqZ (Z.of_nat start + 1) (Z.of_nat n))) = true.
Proof.
  induction n as [|n IH]; intros start; [done|].
  rewrite seqZ_cons by lia. cbn [seq zip zip_with forallb]. rewrite Z.eqb_refl.
  replace (Z.succ (Z.of_nat start + 1)) with (Z.of_nat (S start) + 1) by lia.
  replace (Z.pred (Z.of_nat (S n))) with (Z.of_nat n) by lia. apply IH.
Qed.

Lemma sequences_contiguous_ok (seqs : list Z) :
  NoDup seqs -> (forall z, z ∈ seqs -> 1 <= z <= Z.of_nat (length seqs)) ->
  sequences_contiguous (list_to_set seqs ∪ ∅) = true.
Proof.
  intros Hnd Hb. unfold sequences_contiguous.
  assert (Hperm : elements (list_to_set seqs ∪ ∅ : gset Z) ≡ₚ seqZ 1 (Z.of_nat (length seqs))).
  { rewrite union_empty_r_L, elements_list_to_set by done.
    apply submseteq_length_Permutation.
    - apply NoDup_submseteq; [done|]. intros z Hz. apply elem_of_seqZ. specialize (Hb z Hz). lia.
    - rewrite length_seqZ. lia. }
  assert (Heq : merge_sort Z.le (elements (list_to_set seqs ∪ ∅ : gset Z))
                = seqZ 1 (Z.of_nat (length seqs))).
  { apply (StronglySorted_unique Z.le).
    - apply (StronglySorted_merge_sort _).
    - generalize 1. generalize (length seqs) as n. induction n as [|n IH]; intros z; [constructor|].
      rewrite seqZ_cons by lia. replace (Z.pred (Z.of_nat (S n))) with (Z.of_nat n) by lia.
      constructor; [apply IH|]. apply Forall_forall. intros x Hx%elem_of_seqZ. lia.
    - by rewrite merge_sort_Permutation. }
  rewrite Heq, length_seqZ, Nat2Z.id. apply (contiguous_zip _ 0).
Qed.

(** The second loop, part by part: what a receipt holds, what it committed,
    and the receipt as a whole. *)
Lemma add_optional_total total o :
  total + default 0 o <= u64_max -> add_optional total o = Ok (total + default 0 o).
Proof.
  intros H. destruct o as [v|]; simpl in *; [|by rewrite Z.add_0_r].
  unfold checked_add. by rewrite (proj2 (Z.leb_le _ _)).
Qed.

Lemma held_total l k r a b :
  receipt_inv l k r -> a + held_cost r <= u64_max -> b + held_quota r <= u64_max ->
  (if holds_capacity (rr_state r) then
     check? guard_err (estimated_quota_units r == None) (MissingEstimate "estimated_quota_units");
     let? x := add_optional a (estimated_cost_micros r) in
     let? y := add_optional b (estimated_quota_units r) in Ok (x, y)
   else Ok (a, b)) = @Ok BudgetError _ (a + held_cost r, b + held_quota r).
Proof.
  intros Hi Ha Hb. pose proof (ri_identity _ _ _ Hi) as Hid. unfold validate_receipt_identity in Hid.
  do 7 (apply rbind_ok in Hid as ([] & _ & Hid)). apply rbind_ok in Hid as ([] & He & _).
  apply guard_err_ok in He. apply orb_false_iff in He as [He _]. rewrite He. cbn [guard_err rbind].
  unfold held_cost, held_quota in *.
  destruct (holds_capacity (rr_state r)); [|by rewrite !Z.add_0_r].
  by rewrite !add_optional_total.
Qed.

Lemma settled_of l k r usage :
  receipt_inv l k r -> committed_usage r = Some usage -> settled r usage.
Proof.
  intros Hi Hu. pose proof (ri_state _ _ _ Hi) as Hst. unfold state_ok, untouched in Hst.
  rewrite Hu in Hst. destruct (rr_state r); naive_solver.
Qed.

Lemma settled_measured r usage :
  settled r usage -> exists cost quota,
  measured (mu_cost_micros usage) "usage.cost_micros" = Ok cost /\
  measured (mu_quota_units usage) "usage.quota_units" = Ok quota.
Proof.
  intros Hs. pose proof (se_matches _ _ Hs) as Hm. unfold usage_matches in Hm.
  do 3 (apply rbind_ok in Hm as ([] & _ & Hm)). apply rbind_ok in Hm as (? & _ & Hm).
  apply rbind_ok in Hm as ([] & _ & Hm). apply rbind_ok in Hm as (cost & Hc & Hm).
  apply rbind_ok in Hm as (quota & Hq & _). eauto.
Qed.

Lemma committed_total l k r c q :
  receipt_inv l k r -> 0 <= c -> c + gross_cost r <= u64_max -> q + used_quota r <= u64_max ->
  match committed_usage r with
  | Some usage =>
      let? cost := measured (mu_cost_micros usage) "usage.cost_micros" in
      let? gross := add_optional c cost in
      let? quota := measured (mu_quota_units usage) "usage.quota_units" in
      let? committed_quota := add_optional q quota in
      let? refunded := refunded_cost_micros r in
      let? net := ok_or (checked_sub gross (default 0 refunded)) PoisonedState in
      Ok (net, committed_quota)
  | None => Ok (c, q)
  end = Ok (c + net_cost r, q + used_quota r).
Proof.
  intros Hi Hpos Hc Hq. pose proof (am_refunded _ (ri_amounts _ _ _ Hi)) as Hle.
  unfold net_cost. destruct (committed_usage r) as [usage|] eqn:Hu.
  - pose proof (settled_of _ _ _ _ Hi Hu) as Hs.
    destruct (refunded_total r usage (ri_amounts _ _ _ Hi) Hs) as [t Ht]. rewrite Ht.
    apply refunded_cost_ok in Ht. destruct (settled_measured r usage Hs) as (mc & mq & Hmc & Hmq).
    rewrite Hmc, Hmq. apply measured_ok in Hmc, Hmq.
    unfold gross_cost, used_quota in *. rewrite Hu, <- Hmc in *. rewrite <- Hmq in *.
    cbn [rbind]. rewrite !add_optional_total by lia. cbn [rbind]. unfold checked_sub.
    rewrite Ht, (proj2 (Z.leb_le _ _)) by lia. cbn [ok_or rbind]. do 2 f_equal; lia.
  - pose proof (ri_state _ _ _ Hi) as Hst. unfold state_ok, untouched in Hst. rewrite Hu in Hst.
    assert (Hz : refund_observations r = []) by (destruct (rr_state r); naive_solver).
    unfold gross_cost, used_quota, refunded. rewrite Hu, Hz. simpl. do 2 f_equal; lia.
Qed.

Lemma rebook_receipt_ok l next k r a b c q :
  receipt_inv l k r -> reservations l !! k = Some r ->
  a + held_cost r <= u64_max -> b + held_quota r <= u64_max ->
  0 <= c -> c + gross_cost r <= u64_max -> q + used_quota r <= u64_max ->
  rebook_receipt (with_totals l (reservations l) next a b c q) r
  = Ok (with_totals l (reservations l) next (a + held_cost r) (b + held_quota r)
          (c + net_cost r) (q + used_quota r)).
Proof.
  intros Hi Hk Hb1 Hb2 Hpos Hb3 Hb4. pose proof Hi as [Hkey _ Hrefs Hst _ Ha _].
  unfold rebook_receipt. rewrite receipt_state_recovers; [|by rewrite Hkey|done..].
  cbn [rbind reserved_cost_micros reserved_quota_units committed_cost_micros committed_quota_units
       with_totals].
  rewrite (held_total _ _ _ _ _ Hi) by done. cbn [rbind].
  by rewrite (committed_total _ _ _ _ _ Hi).
Qed.

Lemma net_le_gross r : amounts_ok r -> 0 <= net_cost r <= gross_cost r.
Proof.
  intros Ha. pose proof (am_refunded _ Ha). unfold net_cost.
  assert (0 <= refunded r); [|lia].
  apply sum_list_nonneg, Forall_fmap. apply (am_refunds _ Ha).
Qed.

Lemma held_nonneg r : amounts_ok r -> 0 <= held_cost r /\ 0 <= held_quota r.
Proof.
  intros Ha. destruct (estimate_nonneg _ (am_cost _ Ha)), (estimate_nonneg _ (am_quota _ Ha)).
  unfold held_cost, held_quota. by destruct (holds_capacity (rr_state r)).
Qed.

(** The second loop rebuilds the totals, as long as the committed cost before
    refunds fits a [u64]. *)
Lemma rebook_receipts_ok l next (rs : list ReservationReceipt) : forall a b c q,
  ledger_inv l -> (forall r, r ∈ rs -> exists k, reservations l !! k = Some r) ->
  a + sum_list (held_cost <$> rs) <= u64_max -> b + sum_list (held_quota <$> rs) <= u64_max ->
  0 <= c -> c + sum_list (gross_cost <$> rs) <= u64_max ->
  q + sum_list (used_quota <$> rs) <= u64_max ->
  fold_res rebook_receipt (with_totals l (reservations l) next a b c q) rs
  = Ok (with_totals l (reservations l) next (a + sum_list (held_cost <$> rs))
          (b + sum_list (held_quota <$> rs)) (c + sum_list (net_cost <$> rs))
          (q + sum_list (used_quota <$> rs))).
Proof.
  induction rs as [|r rs IH]; intros a b c q Hi Hin H1 H2 Hc H3 H4.
  { simpl. by rewrite !Z.add_0_r. }
  destruct (Hin r ltac:(left)) as [k Hk]. pose proof (li_receipts _ Hi _ _ Hk) as Hr.
  assert (Hnn : forall f, (forall r, amounts_ok r -> 0 <= f r) -> 0 <= sum_list (f <$> rs)).
  { intros f Hf. apply sum_list_nonneg, Forall_fmap, Forall_forall. intros x Hx. simpl. apply Hf.
    destruct (Hin x ltac:(by right)) as [kx Hkx]. apply (li_receipts _ Hi _ _ Hkx). }
  pose proof (Hnn held_cost ltac:(intros ? []%held_nonneg; done)).
  pose proof (Hnn held_quota ltac:(intros ? []%held_nonneg; done)).
  pose proof (Hnn gross_cost ltac:(intros ? Hx; apply (am_gross _ Hx))).
  pose proof (Hnn used_quota ltac:(intros ? Hx; apply (am_used _ Hx))).
  pose proof (net_le_gross r (ri_amounts _ _ _ Hr)).
  rewrite !fmap_cons in *. cbn [sum_list fold_right] in H1, H2, H3, H4. fold sum_list in *.
  cbn [fold_res]. rewrite (rebook_receipt_ok _ _ k) by (done || (unfold sum_list in *; lia)).
  cbn [rbind]. rewrite IH; [|done|intros; apply Hin; by right|unfold sum_list in *; lia..].
  f_equal. cbn [sum_list fold_right]. unfold sum_list. f_equal; lia.
Qed.

Lemma snapshot_wire_ok l : ledger_inv l -> validate_wire (snapshot_of l) = Ok tt.
Proof.
  intros Hi. unfold validate_wire. simpl. pose proof (li_next _ Hi).
  rewrite (proj2 (Z.eqb_neq (next_reservation l) 0)) by lia. cbn [guard_err rbind].
  apply record_keys_ok; [apply btree_iter_sorted|apply btree_iter_NoDup| |done].
  apply Forall_forall. intros [k r] Hk%btree_iter_lookup. simpl.
  destruct (li_receipts _ Hi _ _ Hk) as [Hkey Hid _ _ _ _ _]. unfold validate_receipt_identity in Hid.
  do 2 (apply rbind_ok in Hid as ([] & _ & Hid)). apply rbind_ok in Hid as ([] & Hid & _).
  by rewrite Hkey in Hid.
Qed.

Lemma exhaustion_recovers l : ledger_inv l -> validate_exhaustion_dispositions l = Ok tt.
Proof.
  intros Hi. unfold validate_exhaustion_dispositions.
  destruct (size (reservations l) =? 1)%nat eqn:Hs.
  - apply Nat.eqb_eq in Hs.
    assert (Hex : exists k r, reservations l !! k = Some r).
    { destruct (map_choose (reservations l)) as (k & r & Hk); [|eauto].
      intros He. by rewrite He, map_size_empty in Hs. }
    destruct Hex as (k & r & Hk). rewrite (li_single _ Hi Hs _ _ Hk). cbn [rbind].
    apply for_each_ok, Forall_forall. intros r' [k' Hk']%btree_values_elem.
    rewrite (ri_shape _ _ _ (li_receipts _ Hi _ _ Hk')). cbn [rbind]. apply guard_err_ok.
    pose proof (li_single _ Hi Hs _ _ Hk). pose proof (li_single _ Hi Hs _ _ Hk').
    apply negb_false_iff, bool_decide_eq_true_2. congruence.
  - cbn [rbind]. apply for_each_ok, Forall_forall. intros r' [k' Hk']%btree_values_elem.
    by rewrite (ri_shape _ _ _ (li_receipts _ Hi _ _ Hk')).
Qed.

Lemma snapshot_windows_ok l :
  ledger_inv l -> validate_snapshot_quota_states (snapshot_of l) = Ok tt.
Proof.
  intros Hi. unfold validate_snapshot_quota_states. simpl.
  destruct (btree_iter (reservations l)) as [|[k r] rest] eqn:Hb; [done|]. simpl.
  apply (li_windows _ Hi). intros He.
  assert (Hin : (k, r) ∈ btree_iter (reservations l)) by (rewrite Hb; left).
  apply btree_iter_lookup in Hin. by rewrite He in Hin.
Qed.

Lemma snapshot_sequences_ok l m :
  ledger_inv l ->
  fold_res (admit_record (snapshot_of l)) (∅, ∅) (bs_reservations (snapshot_of l)) = Ok m ->
  m.1 = reservations l /\ sequences_contiguous m.2 = true.
Proof.
  intros Hi Hm. destruct m as [m seen]. pose proof (admit_records_map _ _ _ _ _ _ Hm) as Hmap.
  simpl in Hmap. rewrite snapshot_records in Hmap. split; [done|]. simpl.
  destruct (admit_records_ok l (btree_iter (reservations l)) ∅ ∅ Hi) as [m' Hm'].
  - apply btree_iter_NoDup.
  - by intros k r ?%btree_iter_lookup.
  - intros. split; [done|set_solver].
  - simpl in Hm. rewrite Hm' in Hm. injection Hm as _ <-.
    apply sequences_contiguous_ok.
    + apply sequences_distinct; [done|apply btree_iter_NoDup|by intros k r ?%btree_iter_lookup].
    + intros z ([k r] & -> & Hk)%list_elem_of_fmap. apply btree_iter_lookup in Hk.
      destruct (sequence_of_ok l k r Hi Hk) as (_ & Hb & _). simpl.
      rewrite length_fmap, btree_iter_perm, length_map_to_list.
      pose proof (li_next _ Hi). lia.
Qed.

Lemma restore_snapshot l :
  ledger_inv l ->
  budget_text (ab_authority_owner (bl_authority l)) "authority.authority_owner" = Ok tt ->
  map_sum gross_cost (reservations l) <= u64_max ->
  restore (snapshot_of l) = Ok l.
Proof.
  intros Hi Ho Hg. unfold restore. rewrite (snapshot_windows_ok l Hi). simpl.
  rewrite (li_envelope _ Hi), Ho, (li_fence _ Hi), (li_epoch _ Hi). cbn [rbind map_err negb guard_err].
  destruct (admit_records_ok l (btree_iter (reservations l)) ∅ ∅ Hi) as [m Hm];
    [apply btree_iter_NoDup|by intros k r ?%btree_iter_lookup|intros; split; [done|set_solver]|].
  rewrite Hm. cbn [rbind]. destruct (snapshot_sequences_ok l _ Hi Hm) as [Hmap Hcont].
  simpl in Hmap, Hcont. subst m. rewrite Hcont.
  unfold usize_of_len. rewrite length_fmap, btree_iter_perm, length_map_to_list.
  pose proof (li_next _ Hi) as Hn. pose proof (li_next_u64 _ Hi) as Hnu. unfold checked_add.
  rewrite (proj2 (Z.leb_le _ _)) by lia. cbn [ok_or rbind].
  rewrite (proj2 (Z.eqb_eq (next_reservation l) _)) by done. cbn [negb orb guard_err rbind].
  pose proof (li_totals _ Hi) as [[] [] [] []].
  pose proof (rebook_receipts_ok l (next_reservation l) (btree_values (reservations l)) 0 0 0 0 Hi) as Hr.
  rewrite <- !map_sum_values in Hr. rewrite !Z.add_0_l in Hr.
  rewrite <- (li_reserved_cost _ Hi), <- (li_reserved_quota _ Hi), <- (li_committed_cost _ Hi),
    <- (li_committed_quota _ Hi) in Hr.
  unfold with_totals in Hr at 1. rewrite Hr by (try lia; intros r; apply btree_values_elem).
  assert (Heta : with_totals l (reservations l) (next_reservation l) (reserved_cost_micros l)
    (reserved_quota_units l) (committed_cost_micros l) (committed_quota_units l) = l)
    by (by destruct l).
  rewrite Heta. cbn [rbind]. rewrite !Z.eqb_refl. cbn [negb orb guard_err rbind].
  by rewrite (exhaustion_recovers l Hi).
Qed.

End Recovery.

(** ** Retries *)

Section Retry.

(** A change that accepts its own result. *)
Definition settles (l : BudgetLedger) (key : string)
    (change : ReservationReceipt -> BR ReservationReceipt) : Prop :=
  forall before changed, reservations l !! key = Some before -> change before = Ok changed ->
    lifecycle l before changed /\
    forall d, change (set_exhaustion d changed) = Ok (set_exhaustion d changed).

Lemma transition_retry key authority change l l' r :
  settles l key change -> transition key authority change l = (l', Ok r) ->
  transition key authority change l' = (l', Ok r) /\
  reservations l' !! key = Some r /\ bl_envelope l' = bl_envelope l /\
  bl_authority l' = bl_authority l /\
  exists before, reservations l !! key = Some before /\ authority = bl_authority l /\
    rr_operation r = rr_operation before /\ rr_authority r = rr_authority before /\
    rr_provider_tool r = rr_provider_tool before /\
    validate_transition_authority (bl_authority l) authority before = Ok tt /\
    exists changed, change before = Ok changed /\ rr_state r = rr_state changed /\
      committed_usage r = committed_usage changed.
Proof.
  intros Hch (before & changed & rc & rq & cc & cq & d & Hk & Ha & Hv & Hc & Hb & Hd & -> & ->)
    %transition_ok.
  destruct (Hch _ _ Hk Hc) as [Hlc Hstay].
  destruct (lifecycle_bindings _ _ _ Hlc) as (_ & _ & _ & _ & Hop & Hau & Hpt & _).
  split_and!; try done; [|by apply lookup_insert_eq|eauto 15].
  unfold transition, mseq, mstate, mlift, mmodify, mret_ok. cbn [reservations bl_authority].
  rewrite lookup_insert_eq. cbn [ok_or].
  replace (validate_transition_authority (bl_authority l) authority (set_exhaustion d changed))
    with (@Ok BudgetError unit tt).
  2: { rewrite <- Hv. unfold validate_transition_authority. simpl. by rewrite Hop, Hau. }
  rewrite Hstay, rebook_stay. cbn [reserved_cost_micros reserved_quota_units committed_cost_micros
    committed_quota_units bl_envelope next_reservation bl_authority reservations]. rewrite Hd.
  cbn [reserved_cost_micros reserved_quota_units committed_cost_micros
    committed_quota_units bl_envelope next_reservation bl_authority reservations].
  change (set_exhaustion d (set_exhaustion d changed)) with (set_exhaustion d changed).
  by rewrite insert_insert_eq.
Qed.

Lemma settle_settles l key from otherwise disposition usage before :
  from = Active \/ from = Reconciling -> reservations l !! key = Some before ->
  provider_tool_validate (mu_provider_tool usage) = Ok tt -> usage_matches before usage = Ok tt ->
  disposition_for_status (mu_status usage) = Ok disposition ->
  amount_u64 (mu_cost_micros usage) -> amount_u64 (mu_quota_units usage) ->
  settles l key (settle_change from otherwise disposition usage).
Proof.
  intros Hf Hk Hp Hm Hd Hc Hq before' changed Hk' Hch.
  rewrite Hk in Hk'. injection Hk' as <-.
  split; [by eapply settle_lifecycle|]. intros d. unfold settle_change in *.
  case_bool_decide as Hs.
  - simplify_eq/=. rewrite bool_decide_eq_false_2 by (by destruct Hf as [-> | ->]).
    by rewrite bool_decide_eq_true_2.
  - destruct (rr_state before) eqn:Hr; simplify_eq/=. case_bool_decide; simplify_eq/=.
    rewrite Hr, bool_decide_eq_false_2 by done. by rewrite bool_decide_eq_true_2.
Qed.

Lemma activate_settles l key admission activation :
  refs_valid l admission activation = Ok tt ->
  settles l key (activate_change admission activation).
Proof.
  intros Hv before changed Hk Hch. split; [by eapply activate_lifecycle|]. intros d.
  unfold activate_change in *.
  destruct (rr_state before) eqn:Hs; simplify_eq/=; try (apply rbind_ok in Hch as ([] & _ & Hch));
    simplify_eq/=; rewrite ?bool_decide_eq_true_2 by done; try done.
  destruct ((_ == _) && (_ == _)) eqn:E; simplify_eq/=. by rewrite Hs, E.
Qed.

Lemma simple_settles l key :
  ledger_inv l ->
  settles l key begin_change /\ settles l key release_change /\ settles l key expire_change.
Proof.
  intros Hi. split_and!; intros before changed Hk Hch.
  - split; [by apply begin_lifecycle|]. intros d. unfold begin_change in *.
    destruct (rr_state before) eqn:Hs; simplify_eq/=; by rewrite ?Hs.
  - split; [by apply release_lifecycle|]. intros d.
    pose proof (untouched_while_holding _ (ri_state _ _ _ (li_receipts _ Hi _ _ Hk))) as Hu.
    unfold release_change in *.
    destruct (rr_state before) eqn:Hs; simplify_eq/=;
      try (destruct Hu as [Hu _]; [done|]; by rewrite Hu).
    destruct ((_ == _) && (_ == _)) eqn:E; simplify_eq/=. by rewrite Hs, E.
  - split; [by apply expire_lifecycle|]. intros d. unfold expire_change in *.
    destruct (rr_state before) eqn:Hs; simplify_eq/=; by rewrite ?Hs.
Qed.

Lemma find_snoc {A} (f : A -> bool) (l : list A) x :
  List.find f l = None -> f x = true -> List.find f (l ++ [x])%list = Some x.
Proof.
  intros Hl Hx. induction l as [|y l IH]; simpl in *; [by rewrite Hx|].
  destruct (f y); [done|]. by apply IH.
Qed.

Lemma refund_settles l key observation before :
  reservations l !! key = Some before ->
  budget_text (ro_observation_id observation) "refund.observation_id" = Ok tt ->
  provider_tool_validate (ro_provider_tool observation) = Ok tt ->
  refund_matches before observation = Ok tt -> amount_u64 (ro_cost_micros observation) ->
  settles l key (refund_change observation).
Proof.
  intros Hk Ht Hp Hm Ha before' changed Hk' Hch. rewrite Hk in Hk'. injection Hk' as <-.
  split; [by eapply refund_lifecycle|]. intros d. unfold refund_change in *.
  apply rbind_ok in Hch as ([] & Hs & Hch). apply guard_err_ok in Hs.
  destruct (List.find _ _) as [existing|] eqn:Hf.
  - case_bool_decide; simplify_eq/=. rewrite Hs, Hf. cbn [guard_err rbind].
    by rewrite bool_decide_eq_true_2.
  - do 6 (apply rbind_ok in Hch as (? & _ & Hch)).
    apply rbind_ok in Hch as (? & _ & Hch). simplify_eq/=. rewrite Hs. cbn [guard_err rbind].
    rewrite (find_snoc _ _ observation Hf) by (by apply bool_decide_eq_true_2).
    by rewrite bool_decide_eq_true_2.
Qed.

Lemma settle_retry from otherwise key authority usage l l' r :
  from = Active \/ from = Reconciling ->
  amount_u64 (mu_cost_micros usage) -> amount_u64 (mu_quota_units usage) ->
  settle from otherwise key authority usage l = (l', Ok r) ->
  settle from otherwise key authority usage l' = (l', Ok r).
Proof.
  intros Hf Hc Hq H. pose proof H as H0. unfold settle, mseq at 1 2, mstate, mlift in H.
  destruct (validate_usage l key usage) as [[]|] eqn:Hv; [|done].
  unfold validate_usage in Hv. apply rbind_ok in Hv as ([] & Hp & Hv).
  destruct (reservations l !! key) as [existing|] eqn:Hk; simpl in Hv; [|done].
  case_bool_decide as Hs.
  { unfold mseq, mret_ok, mthrow in H. repeat case_match; by simplify_eq. }
  unfold mseq at 1 in H. destruct (disposition_for_status _) as [d|] eqn:Hd; [|done].
  pose proof (settle_settles l key from otherwise d usage existing Hf Hk Hp Hv Hd Hc Hq) as Hset.
  destruct (transition_retry _ _ _ _ _ _ Hset H)
    as (_ & Hr & He & Ha & before & Hk' & Hau & Hop & Hra & Hpt & Hva & changed & Hch & Hst & Hcu).
  rewrite Hk in Hk'. injection Hk' as <-.
  assert (Hrel : rr_state r = Released /\ committed_usage r = Some usage).
  { rewrite Hst, Hcu. unfold settle_change in Hch. case_bool_decide; simplify_eq/=; [done|].
    by destruct (rr_state existing); simplify_eq/=. }
  destruct Hrel as [Hrs Hru].
  unfold settle, mseq, mstate, mlift, mret_ok, mthrow, validate_usage.
  rewrite Hp, Hr. cbn [rbind ok_or].
  replace (usage_matches r usage) with (@Ok BudgetError unit tt).
  2: { rewrite <- Hv. unfold usage_matches. by rewrite Hop, Hra, Hpt. }
  rewrite Hrs, Hru, bool_decide_eq_true_2 by done.
  replace (validate_transition_authority (bl_authority l') authority r) with (@Ok BudgetError unit tt).
  2: { rewrite <- Hva. unfold validate_transition_authority. by rewrite Ha, Hop, Hra. }
  by rewrite bool_decide_eq_true_2.
Qed.

Lemma reserve_retry request l l' r :
  reserve request l = (l', Ok r) -> reserve request l' = (l', Ok r).
Proof.
  intros H. pose proof H as H0.
  unfold reserve, mseq, mstate, mlift, mmodify, mret_ok, mthrow in H.
  destruct (validate_request l request) as [[]|] eqn:Hv; [|done].
  destruct (reservations l !! _) as [existing|] eqn:Hk.
  { case_match; by simplify_eq. }
  repeat (case_match; simplify_eq/=).
  unfold reserve, mseq, mstate, mlift, mret_ok.
  replace (validate_request _ request) with (validate_request l request) by reflexivity.
  rewrite Hv. cbn [reservations]. rewrite lookup_insert_eq.
  unfold same_request. simpl. by rewrite !bool_decide_eq_true_2.
Qed.

Lemma activate_retry key authority admission activation l l' r :
  activate key authority admission activation l = (l', Ok r) ->
  activate key authority admission activation l' = (l', Ok r).
Proof.
  intros H. unfold activate, mseq, mstate, mlift in H.
  destruct (guard_err _ _) as [[]|] eqn:H1; [|done].
  destruct (validate_for admission _ _ _) as [[]|] eqn:H2; [|done].
  destruct (validate_for activation _ _ _) as [[]|] eqn:H3; [|done].
  destruct (guard_err (_ || _) _) as [[]|] eqn:H4; [|done].
  assert (Ha : authority = bl_authority l) by (apply transition_ok in H; naive_solver).
  destruct (transition_retry key authority (activate_change admission activation) l l' r)
    as (Hr & _ & He & _); [|done|].
  { apply activate_settles. unfold refs_valid. rewrite <- Ha. by rewrite H1, H2, H3. }
  unfold activate, mseq, mstate, mlift. rewrite He. by rewrite H1, H2, H3, H4.
Qed.

Lemma refund_retry key authority observation l l' r :
  amount_u64 (ro_cost_micros observation) ->
  apply_refund key authority observation l = (l', Ok r) ->
  apply_refund key authority observation l' = (l', Ok r).
Proof.
  intros Ha H. unfold apply_refund, mseq, mstate, mlift in H.
  destruct (validate_refund l key observation) as [[]|] eqn:Hv; [|done].
  unfold validate_refund in Hv. apply rbind_ok in Hv as ([] & H1 & Hv).
  apply rbind_ok in Hv as ([] & H2 & Hv).
  destruct (reservations l !! key) as [before|] eqn:Hk; simpl in Hv; [|done].
  destruct (transition_retry key authority (refund_change observation) l l' r)
    as (Hr & Hl & _ & _ & before' & Hk' & _ & Hop & Hra & Hpt & _); [|done|].
  { by eapply refund_settles. }
  rewrite Hk in Hk'. injection Hk' as <-.
  unfold apply_refund, mseq, mstate, mlift, validate_refund. rewrite H1, H2, Hl.
  cbn [rbind ok_or].
  replace (refund_matches r observation) with (@Ok BudgetError unit tt); [done|].
  rewrite <- Hv. unfold refund_matches. by rewrite Hop, Hra, Hpt.
Qed.

End Retry.

(** ** The contract of the operations

    What each operation may do, as relations that share no check and no
    arithmetic with the code: a call repeats an outcome the reservation
    already records, or moves it from one of the states the operation starts
    in, and books its own amounts. *)

Definition call_key (c : Call) : string :=
  match c with
  | CallReserve request => op_idempotency_key (rq_operation request)
  | CallActivate key _ _ _ | CallCommit key _ _ | CallBeginReconciliation key _
  | CallReconcileUsage key _ _ | CallRelease key _ | CallExpire key _ | CallRefund key _ _ => key
  end.

Definition call_authority (c : Call) : AuthorityBinding :=
  match c with
  | CallReserve request => rq_authority request
  | CallActivate _ authority _ _ | CallCommit _ authority _ | CallBeginReconciliation _ authority
  | CallReconcileUsage _ authority _ | CallRelease _ authority | CallExpire _ authority
  | CallRefund _ authority _ => authority
  end.

(** The outcome of the call is already on record in [r]. *)
Definition repeats (c : Call) (r : ReservationReceipt) : Prop :=
  match c with
  | CallReserve q =>
      rr_envelope_id r = rq_envelope_id q /\ rr_operation r = rq_operation q /\
      rr_authority r = rq_authority q /\ rr_provider_tool r = rq_provider_tool q /\
      estimated_cost_micros r = rq_estimated_cost_micros q /\
      estimated_quota_units r = rq_estimated_quota_units q
  | CallActivate _ _ admission activation =>
      rr_state r = Active /\ canonical_admission_receipt_ref r = Some admission /\
      activation_receipt_ref r = Some activation
  | CallCommit _ _ usage | CallReconcileUsage _ _ usage =>
      rr_state r = Released /\ committed_usage r = Some usage
  | CallBeginReconciliation _ _ => rr_state r = Reconciling
  | CallRelease _ _ =>
      rr_state r = Released /\ committed_usage r = None /\ rr_disposition r = Cancelled
  | CallExpire _ _ => rr_state r = Expired
  | CallRefund _ _ observation => rr_state r = Released /\ observation ∈ refund_observations r
  end.

(** What no move changes, and what only some moves change. *)
Definition same_identity (r r' : ReservationReceipt) : Prop :=
  reservation_id r' = reservation_id r /\ rr_envelope_id r' = rr_envelope_id r /\
  rr_idempotency_key r' = rr_idempotency_key r /\ rr_operation r' = rr_operation r /\
  rr_authority r' = rr_authority r /\ rr_provider_tool r' = rr_provider_tool r /\
  estimated_cost_micros r' = estimated_cost_micros r /\
  estimated_quota_units r' = estimated_quota_units r.

Definition same_refs (r r' : ReservationReceipt) : Prop :=
  canonical_admission_receipt_ref r' = canonical_admission_receipt_ref r /\
  activation_receipt_ref r' = activation_receipt_ref r.

Definition same_usage (r r' : ReservationReceipt) : Prop :=
  committed_usage r' = committed_usage r /\ refund_observations r' = refund_observations r.

(** The disposition a terminal outcome is receipted with. *)
Inductive status_outcome : TrialStatus -> ReceiptDispositionKind -> Prop :=
| so_succeeded : status_outcome Succeeded Success
| so_partial : status_outcome TrialPartial Partial
| so_failed : status_outcome Failed Failure
| so_excluded : status_outcome Excluded Failure
| so_censored : status_outcome Censored Failure
| so_contaminated : status_outcome Contaminated Failure.

(** An operation receipt of [authority] about [tool]. *)
Definition locator_bound (x : ReceiptLocator) (authority : AuthorityBinding)
    (tool : ProviderToolAttribution) : Prop :=
  rl_authority x = authority /\ rl_provider_tool x = tool /\ rl_receipt_kind x = KindOperation.

(** Usage measured for this reservation, its cost and quota known or not
    applicable. *)
Definition usage_of (r : ReservationReceipt) (u : MeasuredUsage) (d : ReceiptDispositionKind)
    : Prop :=
  mu_provider_tool u = rr_provider_tool r /\ mu_operation u = rr_operation r /\
  locator_bound (mu_provider_receipt_ref u) (rr_authority r) (rr_provider_tool r) /\
  rl_operation (mu_provider_receipt_ref u) = rr_operation r /\
  status_outcome (mu_status u) d /\ rl_disposition (mu_provider_receipt_ref u) = d /\
  (mu_cost_micros u = NotApplicable \/ exists v, mu_cost_micros u = Known v) /\
  (mu_quota_units u = NotApplicable \/ exists v, mu_quota_units u = Known v).

Definition usage_settles (u : MeasuredUsage) (r r' : ReservationReceipt) : Prop :=
  rr_state r' = Released /\ usage_of r u (rr_disposition r') /\ committed_usage r = None /\
  committed_usage r' = Some u /\ refund_observations r' = refund_observations r /\ same_refs r r'.

(** The move of [r] to [r'] by the call; the verdict on the ledger is apart. *)
Definition moves (c : Call) (r r' : ReservationReceipt) : Prop :=
  match c with
  | CallReserve _ => False
  | CallActivate _ authority admission activation =>
      (rr_state r = StagedInactive \/ rr_state r = Reconciling) /\ rr_state r' = Active /\
      rr_disposition r' = rr_disposition r /\ same_usage r r' /\
      admission <> activation /\
      locator_bound admission authority (rr_provider_tool r) /\
      locator_bound activation authority (rr_provider_tool r) /\
      rl_disposition admission = Success /\ rl_disposition activation = Success /\
      (forall x, canonical_admission_receipt_ref r = Some x -> x = admission) /\
      (forall x, activation_receipt_ref r = Some x -> x = activation) /\
      canonical_admission_receipt_ref r' = Some admission /\
      activation_receipt_ref r' = Some activation
  | CallCommit _ _ u => rr_state r = Active /\ usage_settles u r r'
  | CallReconcileUsage _ _ u => rr_state r = Reconciling /\ usage_settles u r r'
  | CallBeginReconciliation _ _ =>
      (rr_state r = StagedInactive \/ rr_state r = Active) /\ rr_state r' = Reconciling /\
      rr_disposition r' = Unknown /\ same_refs r r' /\ same_usage r r'
  | CallRelease _ _ =>
      (rr_state r = StagedInactive \/ rr_state r = Active \/ rr_state r = Reconciling) /\
      rr_state r' = Released /\ rr_disposition r' = Cancelled /\ same_refs r r' /\
      same_usage r r' /\ committed_usage r = None
  | CallExpire _ _ =>
      (rr_state r = StagedInactive \/ rr_state r = Reconciling) /\ rr_state r' = Expired /\
      rr_disposition r' = Cancelled /\ same_refs r r' /\ same_usage r r' /\
      committed_usage r = None
  | CallRefund _ _ o =>
      rr_state r = Released /\ rr_state r' = Released /\
      rr_disposition r' = rr_disposition r /\ same_refs r r' /\
      committed_usage r' = committed_usage r /\
      refund_observations r' = (refund_observations r ++ [o])%list /\
      ro_observation_id o ∉ ro_observation_id <$> refund_observations r /\
      ro_provider_receipt_ref o ∉ ro_provider_receipt_ref <$> refund_observations r /\
      ro_provider_tool o = rr_provider_tool r /\ ro_operation o = rr_operation r /\
      ro_status o = Succeeded /\
      exists u v w, committed_usage r = Some u /\ mu_cost_micros u = Known v /\
        ro_cost_micros o = Known w /\
        sum_list ((fun x => known_amount (ro_cost_micros x)) <$> refund_observations r) + w <= v
  end.

(** What a move adds to and takes from the four totals. *)
Definition books (c : Call) (r : ReservationReceipt) (l l' : BudgetLedger) : Prop :=
  let cost := default 0 (estimated_cost_micros r) in
  let quota := default 0 (estimated_quota_units r) in
  match c with
  | CallReserve _ =>
      reserved_cost_micros l' = reserved_cost_micros l + cost /\
      reserved_quota_units l' = reserved_quota_units l + quota /\
      committed_cost_micros l' = committed_cost_micros l /\
      committed_quota_units l' = committed_quota_units l
  | CallActivate _ _ _ _ | CallBeginReconciliation _ _ =>
      reserved_cost_micros l' = reserved_cost_micros l /\
      reserved_quota_units l' = reserved_quota_units l /\
      committed_cost_micros l' = committed_cost_micros l /\
      committed_quota_units l' = committed_quota_units l
  | CallCommit _ _ u | CallReconcileUsage _ _ u =>
      reserved_cost_micros l' = reserved_cost_micros l - cost /\
      reserved_quota_units l' = reserved_quota_units l - quota /\
      committed_cost_micros l' = committed_cost_micros l + known_amount (mu_cost_micros u) /\
      committed_quota_units l' = committed_quota_units l + known_amount (mu_quota_units u)
  | CallRelease _ _ | CallExpire _ _ =>
      reserved_cost_micros l' = reserved_cost_micros l - cost /\
      reserved_quota_units l' = reserved_quota_units l - quota /\
      committed_cost_micros l' = committed_cost_micros l /\
      committed_quota_units l' = committed_quota_units l
  | CallRefund _ _ o =>
      reserved_cost_micros l' = reserved_cost_micros l /\
      reserved_quota_units l' = reserved_quota_units l /\
      committed_cost_micros l' = committed_cost_micros l - known_amount (ro_cost_micros o) /\
      committed_quota_units l' = committed_quota_units l
  end.

(** The verdict on a ledger: whether committed plus reserved cost exceeds the
    limit, and which windows, in their order, the quota has used up. *)
Definition over_cost (l : BudgetLedger) : Prop :=
  exists limit, max_cost_micros (bl_envelope l) = Some limit /\
    limit < committed_cost_micros l + reserved_cost_micros l.

Definition window_spent (l : BudgetLedger) (w : QuotaWindow) : Prop :=
  qw_state w = QuotaIsExhausted \/
  exists remaining, qw_state w = QuotaKnown remaining /\
    remaining < committed_quota_units l + reserved_quota_units l.

Definition spent_windows (l : BudgetLedger) (ids : list string) : Prop :=
  exists ws, ws `sublist_of` quota_windows (bl_envelope l) /\ ids = window_id <$> ws /\
    (forall w, w ∈ ws <-> w ∈ quota_windows (bl_envelope l) /\ window_spent l w).

Definition verdict (l : BudgetLedger) (d : ExhaustionDisposition) : Prop :=
  match d with
  | WithinEnvelope => ~ over_cost l /\ spent_windows l []
  | CostExceeded => over_cost l /\ spent_windows l []
  | QuotaExceeded ids => ~ over_cost l /\ ids <> [] /\ spent_windows l ids
  | CostAndQuotaExceeded ids => over_cost l /\ ids <> [] /\ spent_windows l ids
  end.

Definition same_totals (l l' : BudgetLedger) : Prop :=
  reserved_cost_micros l' = reserved_cost_micros l /\
  reserved_quota_units l' = reserved_quota_units l /\
  committed_cost_micros l' = committed_cost_micros l /\
  committed_quota_units l' = committed_quota_units l.

(** A fresh reservation: inside the limit and inside every window. *)
Definition stages (q : ReservationRequest) (l l' : BudgetLedger) (r' : ReservationReceipt) : Prop :=
  rq_envelope_id q = be_envelope_id (bl_envelope l) /\
  rq_provider_tool q = be_provider_tool (bl_envelope l) /\
  (max_cost_micros (bl_envelope l) <> None -> rq_estimated_cost_micros q <> None) /\
  rq_estimated_quota_units q <> None /\
  (forall limit, max_cost_micros (bl_envelope l) = Some limit ->
     committed_cost_micros l' + reserved_cost_micros l' <= limit) /\
  (forall w, w ∈ quota_windows (bl_envelope l) -> exists remaining,
     qw_state w = QuotaKnown remaining /\
     committed_quota_units l' + reserved_quota_units l' <= remaining) /\
  next_reservation l' = next_reservation l + 1 /\
  r' = {| reservation_id := be_envelope_id (bl_envelope l) ++ "-" ++
                            u64_to_string (next_reservation l);
          rr_envelope_id := rq_envelope_id q;
          rr_idempotency_key := op_idempotency_key (rq_operation q);
          rr_operation := rq_operation q; rr_authority := bl_authority l;
          rr_provider_tool := rq_provider_tool q; rr_state := StagedInactive;
          rr_disposition := Unknown; exhaustion_disposition_of := WithinEnvelope;
          canonical_admission_receipt_ref := None; activation_receipt_ref := None;
          committed_usage := None; refund_observations := [];
          estimated_cost_micros := rq_estimated_cost_micros q;
          estimated_quota_units := rq_estimated_quota_units q |}.

(** The whole effect of a successful call. *)
Record budget_effect (c : Call) (l l' : BudgetLedger) (r' : ReservationReceipt) : Prop := {
  bf_authorized : call_authority c = bl_authority l;
  bf_frame : bl_envelope l' = bl_envelope l /\ bl_authority l' = bl_authority l;
  bf_records : reservations l' = <[call_key c := r']> (reservations l);
  bf_bounds : is_u64 (reserved_cost_micros l') /\ is_u64 (reserved_quota_units l') /\
    is_u64 (committed_cost_micros l') /\ is_u64 (committed_quota_units l');
  bf_outcome :
    match reservations l !! call_key c with
    | None => exists q, c = CallReserve q /\ stages q l l' r' /\ books c r' l l'
    | Some r =>
        next_reservation l' = next_reservation l /\
        (repeats c r /\ same_totals l l' /\
         (l' = l /\ r' = r \/
          same_identity r r' /\ same_refs r r' /\ same_usage r r' /\
          rr_state r' = rr_state r /\ rr_disposition r' = rr_disposition r /\
          verdict l' (exhaustion_disposition_of r')) \/
         moves c r r' /\ same_identity r r' /\ books c r l l' /\
         verdict l' (exhaustion_disposition_of r'))
    end;
}.

(** *** The operations keep the contract *)

Lemma sublist_filter_elem {A} (p : A -> bool) (P : A -> Prop) (l : list A) :
  (forall x, p x = true <-> P x) -> forall x, x ∈ List.filter p l <-> x ∈ l /\ P x.
Proof. intros HP x. by rewrite !list_elem_of_In, filter_In, HP. Qed.

Lemma classify_verdict l d :
  classify_exhaustion (bl_envelope l) (committed_cost_micros l) (reserved_cost_micros l)
    (committed_quota_units l) (reserved_quota_units l) = Ok d -> verdict l d.
Proof.
  unfold classify_exhaustion. intros H. apply rbind_ok in H as (tc & Hc & H).
  apply rbind_ok in H as (tq & Hq & [= <-]).
  destruct (checked_add (committed_cost_micros l) _) as [x|] eqn:Ec; [|done]. injection Hc as ->.
  destruct (checked_add (committed_quota_units l) _) as [y|] eqn:Eq; [|done]. injection Hq as ->.
  apply checked_add_some in Ec as [-> _], Eq as [-> _].
  assert (Hover : match max_cost_micros (bl_envelope l) with
    | Some limit => limit <? committed_cost_micros l + reserved_cost_micros l
    | None => false end = true <-> over_cost l).
  { unfold over_cost. destruct (max_cost_micros _) as [limit|]; [rewrite Z.ltb_lt|]; naive_solver. }
  assert (Hspent : spent_windows l (exhausted_windows (quota_windows (bl_envelope l))
    (committed_quota_units l + reserved_quota_units l))).
  { eexists. split; [apply filter_sublist|]. split; [done|]. apply sublist_filter_elem. intros w.
    unfold window_exhausted, window_spent.
    destruct (qw_state w); rewrite ?Z.ltb_lt; naive_solver. }
  destruct (match max_cost_micros _ with Some _ => _ | None => _ end);
    destruct (exhausted_windows _ _) as [|id ids]; simpl; try (split_and!; [|done..]);
    try (by apply Hover); by (intros Ho; apply Hover in Ho).
Qed.

Lemma transition_books key authority change l l' r' :
  ledger_inv l -> transition key authority change l = (l', Ok r') ->
  (forall r x, reservations l !! key = Some r -> authority = bl_authority l ->
     change r = Ok x -> lifecycle l r x) ->
  exists r x d rc rq cc cq,
    reservations l !! key = Some r /\ authority = bl_authority l /\ change r = Ok x /\
    r' = set_exhaustion d x /\ booked l r x rc rq cc cq /\
    l' = with_totals l (<[key := r']> (reservations l)) (next_reservation l) rc rq cc cq /\
    verdict l' d.
Proof.
  intros Hinv (r & x & rc & rq & cc & cq & d & Hk & Ha & _ & Hc & Hb & Hd & -> & ->)%transition_ok Hlc.
  exists r, x, d, rc, rq, cc, cq. split_and!; try done.
  - eapply rebook_ok; [apply Hinv|apply (li_receipts _ Hinv _ _ Hk)|by eapply Hlc|done].
  - by apply classify_verdict.
Qed.

Lemma moves_books c r x l m n rc rq cc cq :
  amounts_ok r -> moves c r x -> same_identity r x -> booked l r x rc rq cc cq ->
  books c r l (with_totals l m n rc rq cc cq).
Proof.
  intros Ha Hm (_ & _ & _ & _ & _ & _ & Hec & Heq) (Hrc & Hrq & Hcc & Hcq & _).
  unfold held_cost, held_quota, net_cost, gross_cost, refunded, used_quota in *.
  rewrite Hec, Heq in *.
  assert (Hsettle : forall u, holds_capacity (rr_state r) = true -> usage_settles u r x ->
    books (CallCommit "" (bl_authority l) u) r l (with_totals l m n rc rq cc cq)).
  { intros u Hh (Hst & _ & Hn & Hu & Href & _). destruct (am_holding _ Ha Hh) as [_ Hr].
    rewrite Hst, Hn, Hu, Href, Hh in *. simpl in *. lia. }
  destruct c; simpl in Hm; try done.
  - destruct Hm as (Hs & Hs' & _ & [Hu Hr] & _). rewrite Hs', Hu, Hr in *.
    destruct Hs as [Hs|Hs]; rewrite Hs in *; simpl in *; lia.
  - destruct Hm as [Hs Hm]. apply (Hsettle usage); [by rewrite Hs|done].
  - destruct Hm as (Hs & Hs' & _ & _ & Hu & Hr). rewrite Hs', Hu, Hr in *.
    destruct Hs as [Hs|Hs]; rewrite Hs in *; simpl in *; lia.
  - destruct Hm as [Hs Hm]. apply (Hsettle usage); [by rewrite Hs|done].
  - destruct Hm as (Hs & Hs' & _ & _ & [Hu Hr] & Hn). rewrite Hs', Hu, Hr in *.
    destruct Hs as [Hs|[Hs|Hs]]; rewrite Hs in *; simpl in *; lia.
  - destruct Hm as (Hs & Hs' & _ & _ & [Hu Hr] & Hn). rewrite Hs', Hu, Hr in *.
    destruct Hs as [Hs|Hs]; rewrite Hs in *; simpl in *; lia.
  - destruct Hm as (Hs & Hs' & _ & _ & Hu & Hr & _). rewrite Hs', Hu, Hr, Hs in *.
    rewrite fmap_app, sum_list_app, fmap_cons, fmap_nil in Hcc. simpl in *. lia.
Qed.

Lemma transition_effect c change l l' r' :
  ledger_inv l -> transition (call_key c) (call_authority c) change l = (l', Ok r') ->
  (forall r x, reservations l !! call_key c = Some r -> call_authority c = bl_authority l ->
     change r = Ok x -> lifecycle l r x) ->
  (forall r x, reservations l !! call_key c = Some r -> call_authority c = bl_authority l ->
     change r = Ok x -> x = r /\ repeats c r \/ moves c r x /\ same_identity r x) ->
  budget_effect c l l' r'.
Proof.
  intros Hinv H Hlc Hch.
  destruct (transition_books _ _ _ _ _ _ Hinv H Hlc)
    as (r & x & d & rc & rq & cc & cq & Hk & Ha & Hc & -> & Hb & -> & Hv).
  pose proof Hb as (Hrc & Hrq & Hcc & Hcq & ? & ? & ? & ?).
  split; try done. rewrite Hk. split; [done|].
  destruct (Hch r x Hk Ha Hc) as [[-> Hrep]|[Hm Hid]].
  - left. split; [done|]. split; [unfold same_totals; simpl; lia|]. right. done.
  - right. split_and!; [by destruct c|done| |done].
    eapply moves_books; [apply (li_receipts _ Hinv _ _ Hk)|done..].
Qed.

(** A call answered from the record leaves the ledger as it is. *)
Lemma answer_effect c l r :
  ledger_inv l -> call_authority c = bl_authority l ->
  reservations l !! call_key c = Some r -> repeats c r -> budget_effect c l l r.
Proof.
  intros Hinv Ha Hk Hr. destruct (li_totals _ Hinv). split; try done.
  - by rewrite insert_id.
  - rewrite Hk. split; [done|]. left. split; [done|]. split; [done|]. by left.
Qed.

Lemma validate_for_bound x authority tool :
  validate_for x authority tool KindOperation = Ok tt -> locator_bound x authority tool.
Proof.
  unfold validate_for. rewrite !check_ok, !guard_err_ok.
  intros (_ & _ & _ & Hb). bool_facts. done.
Qed.

Lemma status_outcome_iff st d : disposition_for_status st = Ok d <-> status_outcome st d.
Proof. split; [destruct st; intros [= <-]; constructor|by destruct 1]. Qed.

Lemma measured_known a field v :
  measured a field = Ok v -> a = NotApplicable \/ exists v, a = Known v.
Proof. destruct a; simpl; naive_solver. Qed.

Lemma usage_matches_of r u d :
  usage_matches r u = Ok tt -> disposition_for_status (mu_status u) = Ok d -> usage_of r u d.
Proof.
  unfold usage_matches, validate_observation_for. intros H Hd. rewrite Hd in H.
  rewrite !check_ok in H. destruct H as (H1 & H2 & [H3 H4] & H5). cbn [rbind] in H5.
  rewrite check_ok in H5. destruct H5 as [H5 H6]. rewrite !guard_err_ok in *.
  apply rbind_ok in H6 as (c & H6 & H7). apply rbind_ok in H7 as (q & H7 & _).
  apply validate_for_bound in H3. bool_facts. unfold usage_of. rewrite H1, H2 in *.
  split_and!; try done; [by apply status_outcome_iff|by eapply measured_known..].
Qed.

Lemma reserve_effect q l l' r' :
  ledger_inv l -> typed_call (CallReserve q) -> reserve q l = (l', Ok r') ->
  budget_effect (CallReserve q) l l' r'.
Proof.
  intros Hinv [Htc Htq] H. unfold reserve, mseq, mstate, mlift, mmodify, mret_ok, mthrow in H.
  destruct (validate_request l q) as [[]|] eqn:Hv; [|done].
  unfold validate_request in Hv. rewrite !check_ok, !guard_err_ok in Hv.
  destruct Hv as (_ & _ & He & Hp & Ha & _). bool_facts.
  destruct (reservations l !! _) as [existing|] eqn:Hk.
  { destruct (same_request existing q) eqn:Hs; [|done]. simplify_eq.
    apply answer_effect; [done..|]. unfold same_request in Hs. bool_facts. done. }
  destruct (check_capacity _ _ _) as [[]|] eqn:Hcap; [|done].
  destruct (checked_add (next_reservation l) 1) as [next|] eqn:Hn; simpl in H; [|done].
  apply checked_add_some in Hn as [-> Hn].
  destruct (add_optional (reserved_cost_micros l) _) as [rc|] eqn:Hrc; [|done].
  destruct (add_optional (reserved_quota_units l) _) as [rq|] eqn:Hrq; [|done].
  injection H as <- <-.
  apply add_optional_ok in Hrc as [-> Hrc], Hrq as [-> Hrq].
  apply check_capacity_ok in Hcap as (qq & Hq & Hsome & Hlim & Hwin). rewrite Hq in *.
  pose proof (estimate_nonneg _ Htc) as [? ?]. pose proof (estimate_nonneg _ Htq) as [? ?].
  destruct (li_totals _ Hinv) as [[? ?] [? ?] [? ?] [? ?]]. simpl in *.
  split; simpl; try done; [unfold is_u64; simpl; lia|]. rewrite Hk. exists q. split; [done|].
  split; [|simpl; rewrite Hq; simpl; lia].
  unfold stages. simpl. split_and!; try done.
  - intros Hne. destruct Hsome as [? ->]; [by destruct (max_cost_micros _)|]. done.
  - by rewrite Hq.
  - intros limit Hl. destruct (Hlim limit Hl). lia.
  - intros w Hw. rewrite Forall_forall in Hwin. destruct (Hwin w Hw) as (rem & ? & ? & _).
    exists rem. split; [done|lia].
  - unfold staged_receipt. by rewrite Ha, Hq.
Qed.

Lemma activate_effect key authority admission activation l l' r' :
  ledger_inv l -> activate key authority admission activation l = (l', Ok r') ->
  budget_effect (CallActivate key authority admission activation) l l' r'.
Proof.
  intros Hinv H. unfold activate, mseq, mstate, mlift in H.
  destruct (guard_err _ _) as [[]|] eqn:H1; [|done].
  destruct (validate_for admission _ _ _) as [[]|] eqn:H2; [|done].
  destruct (validate_for activation _ _ _) as [[]|] eqn:H3; [|done].
  destruct (guard_err (_ || _) _) as [[]|] eqn:H4; [|done].
  apply (transition_effect (CallActivate key authority admission activation) _ _ _ _ Hinv H);
    cbn [call_key call_authority]; intros r x Hk Ha Hc.
  - eapply activate_lifecycle; [|exact Hc]. unfold refs_valid. by rewrite H1, <- Ha, H2, H3.
  - assert (Htool : rr_provider_tool r = be_provider_tool (bl_envelope l)).
    { pose proof (ri_identity _ _ _ (li_receipts _ Hinv _ _ Hk)) as Hid.
      unfold validate_receipt_identity in Hid. run. bool_facts. done. }
    rewrite guard_err_ok in H1, H4. apply validate_for_bound in H2, H3. bool_facts.
    unfold activate_change in Hc.
    assert (Hmove : rr_state r = StagedInactive \/ rr_state r = Reconciling ->
      rbind (guard_err (some_other (canonical_admission_receipt_ref r) admission
        || some_other (activation_receipt_ref r) activation) IdempotencyConflict)
        (fun _ => Ok (set_activation admission activation r)) = Ok x ->
      moves (CallActivate key authority admission activation) r x /\ same_identity r x).
    { intros Hs Hx. apply check_ok in Hx as [Hg [= <-]]. rewrite guard_err_ok in Hg. bool_facts.
      split; [|done]. simpl. rewrite Htool. split_and!; try done.
      - intros y Hy. unfold some_other in *. rewrite Hy in *. by bool_facts.
      - intros y Hy. unfold some_other in *. rewrite Hy in *. by bool_facts. }
    revert Hc. case_eq (rr_state r); intros Hs Hc; try done;
      [right; by apply Hmove; [left|]| |right; by apply Hmove; [right|]].
    destruct (_ && _) eqn:Hb; [|done]. bool_facts. injection Hc as <-. by left.
Qed.

Lemma simple_effects l l' r' key authority :
  ledger_inv l ->
  (begin_reconciliation key authority l = (l', Ok r') ->
   budget_effect (CallBeginReconciliation key authority) l l' r') /\
  (release_without_execution key authority l = (l', Ok r') ->
   budget_effect (CallRelease key authority) l l' r') /\
  (expire key authority l = (l', Ok r') -> budget_effect (CallExpire key authority) l l' r').
Proof.
  intros Hinv.
  assert (Hnone : forall r, reservations l !! key = Some r -> holds_capacity (rr_state r) = true ->
    committed_usage r = None).
  { intros r Hk Hh. by destruct (am_holding _ (ri_amounts _ _ _ (li_receipts _ Hinv _ _ Hk)) Hh). }
  split_and!; intros H.
  - apply (transition_effect (CallBeginReconciliation key authority) _ _ _ _ Hinv H);
      simpl; intros r x Hk Ha Hc; [by apply begin_lifecycle|]. unfold begin_change in Hc.
    destruct (rr_state r) eqn:Hs; try done; injection Hc as <-; [right..|left]; split_and!; auto; done.
  - apply (transition_effect (CallRelease key authority) _ _ _ _ Hinv H);
      simpl; intros r x Hk Ha Hc; [by apply release_lifecycle|]. unfold release_change in Hc.
    specialize (Hnone r Hk).
    destruct (rr_state r) eqn:Hs; try done; [| | |destruct (_ && _) eqn:Hb; [|done]; bool_facts];
      injection Hc as <-; [right..|left]; split_and!; auto; done.
  - apply (transition_effect (CallExpire key authority) _ _ _ _ Hinv H);
      simpl; intros r x Hk Ha Hc; [by apply expire_lifecycle|]. unfold expire_change in Hc.
    specialize (Hnone r Hk).
    destruct (rr_state r) eqn:Hs; try done; injection Hc as <-; [right..|left]; split_and!; auto; done.
Qed.

Lemma settle_effect c from otherwise key authority u l l' r' :
  ledger_inv l ->
  c = CallCommit key authority u /\ from = Active \/
  c = CallReconcileUsage key authority u /\ from = Reconciling ->
  amount_u64 (mu_cost_micros u) -> amount_u64 (mu_quota_units u) ->
  settle from otherwise key authority u l = (l', Ok r') -> budget_effect c l l' r'.
Proof.
  intros Hinv Hc Hcu Hqu H. unfold settle, mseq at 1 2, mstate, mlift in H.
  assert (Hkey : call_key c = key) by (by destruct Hc as [[-> _]|[-> _]]).
  assert (Hauth : call_authority c = authority) by (by destruct Hc as [[-> _]|[-> _]]).
  destruct (validate_usage l key u) as [[]|] eqn:Hv; [|done].
  unfold validate_usage in Hv. apply check_ok in Hv as [Hp Hv].
  destruct (reservations l !! key) as [existing|] eqn:Hk; simpl in Hv; [|done].
  case_bool_decide as Hs.
  - unfold mseq, mret_ok, mthrow in H.
    destruct (validate_transition_authority _ _ _) as [[]|] eqn:Hta; [|done].
    unfold validate_transition_authority in Hta. apply check_ok in Hta as [Hta _].
    rewrite guard_err_ok in Hta. bool_facts.
    case_bool_decide as Hu; [|done]. injection H as <- <-.
    apply answer_effect; [done|congruence|by rewrite Hkey|].
    by destruct Hc as [[-> _]|[-> _]].
  - unfold mseq at 1 in H. destruct (disposition_for_status _) as [d|] eqn:Hd; [|done].
    rewrite <- Hkey, <- Hauth in H.
    apply (transition_effect c _ _ _ _ Hinv H); rewrite Hkey; intros r x Hk' Ha Hch;
      rewrite Hk in Hk'; injection Hk' as <-.
    + eapply settle_lifecycle; [|done..]. destruct Hc as [[_ ->]|[_ ->]]; auto.
    + right. unfold settle_change in Hch. case_bool_decide as Hfrom; [|by destruct (rr_state existing)].
      injection Hch as <-. split; [|done].
      pose proof (usage_matches_of _ _ _ Hv Hd) as Hof.
      assert (Hh : holds_capacity (rr_state existing) = true)
        by (destruct Hc as [[_ ->]|[_ ->]]; by rewrite Hfrom).
      destruct (am_holding _ (ri_amounts _ _ _ (li_receipts _ Hinv _ _ Hk)) Hh) as [Hn _].
      destruct Hc as [[-> ->]|[-> ->]]; split; done.
Qed.

Lemma refund_effect key authority o l l' r' :
  ledger_inv l -> amount_u64 (ro_cost_micros o) ->
  apply_refund key authority o l = (l', Ok r') ->
  budget_effect (CallRefund key authority o) l l' r'.
Proof.
  intros Hinv Ho H. unfold apply_refund, mseq, mstate, mlift in H.
  destruct (validate_refund l key o) as [[]|] eqn:Hv; [|done].
  unfold validate_refund in Hv. apply check_ok in Hv as [Ht Hv]. apply check_ok in Hv as [Hp Hv].
  apply (transition_effect (CallRefund key authority o) _ _ _ _ Hinv H);
    cbn [call_key call_authority]; intros r x Hk Ha Hc; rewrite Hk in Hv; simpl in Hv;
    [by eapply refund_lifecycle|].
  apply refund_change_ok in Hc as (Hs & [[-> Hin]|(u & v & w & -> & Hu & Hcu & Hw & Hid & Href & Hle)]).
  - by left.
  - right. split; [|done]. unfold refund_matches in Hv. rewrite !check_ok, !guard_err_ok in Hv.
    destruct Hv as (Hm1 & Hm2 & _ & Hm3 & _). bool_facts. simpl. split_and!; try done.
    by exists u, v, w.
Qed.

Lemma call_effect c l l' r' :
  ledger_inv l -> typed_call c -> call c l = (l', Ok r') -> budget_effect c l l' r'.
Proof.
  intros Hinv Ht H. destruct c; simpl in H.
  - by apply reserve_effect.
  - by apply activate_effect.
  - destruct Ht. eapply settle_effect; [done|by left|done..].
  - by apply simple_effects.
  - destruct Ht. eapply settle_effect; [done|by right|done..].
  - by apply simple_effects.
  - by apply simple_effects.
  - by apply refund_effect.
Qed.

(** *** Giving capacity back always works

    The authority of the ledger can put a reservation under reconciliation,
    release it or expire it from the states these operations start in, as
    long as the totals can be added up. *)

Lemma subtract_optional_total total o :
  default 0 o <= total -> exists n, subtract_optional total o = Ok n /\ n = total - default 0 o.
Proof.
  intros H. destruct o as [v|]; simpl in *; [|exists total; split; [done|lia]].
  unfold checked_sub. rewrite (proj2 (Z.leb_le _ _)) by lia. by eexists.
Qed.

Lemma classify_total e cc rc cq rq :
  cc + rc <= u64_max -> cq + rq <= u64_max -> exists d, classify_exhaustion e cc rc cq rq = Ok d.
Proof.
  intros H1 H2. unfold classify_exhaustion, checked_add.
  rewrite (proj2 (Z.leb_le _ _) H1), (proj2 (Z.leb_le _ _) H2). by eexists.
Qed.

Lemma transition_succeeds l key r x change :
  ledger_inv l -> reservations l !! key = Some r ->
  committed_cost_micros l + reserved_cost_micros l <= u64_max ->
  committed_quota_units l + reserved_quota_units l <= u64_max ->
  holds_capacity (rr_state r) = true -> change r = Ok x ->
  committed_usage x = committed_usage r -> refund_observations x = refund_observations r ->
  is_ok (transition key (bl_authority l) change l).2 = true.
Proof.
  intros Hinv Hk Hc Hq Hh Hch Hu Hr. pose proof (li_receipts _ Hinv _ _ Hk) as Hri.
  destruct (am_holding _ (ri_amounts _ _ _ Hri) Hh) as [Hu0 Hr0].
  assert (Hauth : validate_transition_authority (bl_authority l) (bl_authority l) r = Ok tt).
  { pose proof (ri_identity _ _ _ Hri) as Hid. unfold validate_receipt_identity in Hid.
    rewrite !check_ok, !guard_err_ok in Hid. destruct Hid as (_ & _ & _ & _ & Ha & _ & _ & _ & Hop).
    bool_facts. unfold validate_transition_authority. rewrite Ha, Hop, !bool_decide_true by done.
    done. }
  assert (Hpos : forall k r0, reservations l !! k = Some r0 -> 0 <= held_cost r0 /\ 0 <= held_quota r0)
    by (intros k r0 Hk0; apply held_nonneg, (li_receipts _ Hinv _ _ Hk0)).
  assert (Hle : held_cost r <= reserved_cost_micros l /\ held_quota r <= reserved_quota_units l).
  { rewrite (li_reserved_cost _ Hinv), (li_reserved_quota _ Hinv).
    split; (eapply map_sum_entry; [intros; by eapply Hpos|done]). }
  destruct (Hpos _ _ Hk) as [Hp1 Hp2].
  unfold held_cost, held_quota in *. rewrite Hh in *.
  unfold transition, mseq, mstate, mlift, mmodify, mret_ok. rewrite Hk. simpl. rewrite Hauth, Hch.
  unfold rebook. rewrite Hh, Hu, Hr, Nat.ltb_irrefl, Hu0. simpl.
  destruct (subtract_optional_total (reserved_cost_micros l) (estimated_cost_micros r))
    as (c & Hsc & ->); [lia|].
  destruct (subtract_optional_total (reserved_quota_units l) (estimated_quota_units r))
    as (q & Hsq & ->); [lia|].
  destruct (holds_capacity (rr_state x)); simpl; rewrite ?Hsc; simpl; rewrite ?Hsq; simpl;
    edestruct (classify_total (bl_envelope l)) as [d ->]; try done; lia.
Qed.

(** ** Sample ledgers *)

Section Sample.
Definition sample_route : ProviderToolAttribution :=
  {| provider_ref := "provider-1"; tool_ref := "tool-1" |}.

Definition sample_window (state : QuotaState) : QuotaWindow :=
  {| window_id := "requests"; qw_state := state; source_ref := "meter"; confidence_ref := "exact";
     observed_at_unix_ms := 10; reset_at_unix_ms := Some 20 |}.

Definition sample_envelope (limit : option Z) : BudgetEnvelope :=
  {| be_envelope_id := "env"; policy_snapshot_id := "policy"; applicability := Applicable;
     automation_policy_ref := "automation"; cost_authority_ref := "cost";
     be_provider_tool := sample_route; max_cost_micros := limit;
     quota_windows := [sample_window (QuotaKnown 10)] |}.

Definition sample_authority : AuthorityBinding := rc_authority plain_core.

Definition sample_operation (key : string) : OperationBinding :=
  {| op_operation_id := "operation-1"; op_request_id := "request-1"; op_idempotency_key := key;
     op_operation_kind := "generate"; op_effect := Read;
     op_state_fence := ab_state_fence sample_authority |}.

Definition sample_locator (key id : string) : ReceiptLocator :=
  {| rl_identity := {| ri_receipt_id := id; ri_canonical_sha256 := sample_hex |};
     rl_receipt_kind := KindOperation; rl_operation := sample_operation key;
     rl_authority := sample_authority; rl_provider_tool := sample_route;
     rl_disposition := Success |}.

Definition sample_request (key : string) (cost quota : Z) : ReservationRequest :=
  {| rq_envelope_id := "env"; rq_operation := sample_operation key;
     rq_authority := sample_authority; rq_provider_tool := sample_route;
     rq_estimated_cost_micros := Some cost; rq_estimated_quota_units := Some quota |}.

Definition sample_usage (key : string) (cost quota : Z) : MeasuredUsage :=
  {| mu_provider_tool := sample_route; mu_operation := sample_operation key;
     mu_provider_receipt_ref := sample_locator key "usage"; mu_cost_micros := Known cost;
     mu_quota_units := Known quota; mu_status := Succeeded |}.

Definition sample_refund (key : string) (cost : Z) : RefundObservation :=
  {| ro_observation_id := "refund-1"; ro_provider_tool := sample_route;
     ro_operation := sample_operation key;
     ro_provider_receipt_ref := sample_locator key "refund"; ro_cost_micros := Known cost;
     ro_status := Succeeded |}.

Definition new_ledger (limit : option Z) (authority : AuthorityBinding) : BudgetLedger :=
  {| bl_envelope := sample_envelope limit; bl_authority := authority; reservations := ∅;
     next_reservation := 1; reserved_cost_micros := 0; reserved_quota_units := 0;
     committed_cost_micros := 0; committed_quota_units := 0 |}.

Definition empty_ledger (limit : option Z) : BudgetLedger := new_ledger limit sample_authority.

Definition ownerless : AuthorityBinding :=
  {| ab_authority_id := "authority-1"; ab_authority_owner := "";
     ab_authority_epoch := ab_authority_epoch sample_authority;
     ab_state_fence := ab_state_fence sample_authority; ab_allowed_effect := Read;
     ab_proof_ceiling := Observation |}.

Definition run_calls (calls : list Call) (l : BudgetLedger) : BudgetLedger :=
  fold_left (fun l c => (call c l).1) calls l.

(** Reserve, activate and settle one key, then refund part of it. *)
Definition spend (key : string) (estimate cost quota : Z) : list Call :=
  [CallReserve (sample_request key estimate quota);
   CallActivate key sample_authority (sample_locator key "admission")
     (sample_locator key "activation");
   CallCommit key sample_authority (sample_usage key cost quota)].

Definition sample_calls : list Call :=
  (spend "key-1" 40 30 3 ++ [CallRefund "key-1" sample_authority (sample_refund "key-1" 10);
                             CallReserve (sample_request "key-2" 50 4)])%list.

Definition sample_ledger : BudgetLedger := run_calls sample_calls (empty_ledger (Some 100)).

Lemma empty_ledger_reachable limit : reachable_ledger (empty_ledger limit).
Proof. apply (reach_new (sample_envelope limit) sample_authority). by destruct limit. Qed.

Lemma run_calls_reachable_ledger calls l :
  Forall typed_call calls -> reachable_ledger l -> reachable_ledger (run_calls calls l).
Proof.
  intros H. revert l. induction H as [|c calls Hc _ IH]; intros l Hl; simpl; [done|].
  apply IH. destruct (call c l) as [l' r] eqn:E. by eapply reach_call.
Qed.

Definition typed_callb (c : Call) : bool :=
  let amount a := match a with Known v | Estimated v => bool_decide (is_u64 v) | _ => true end in
  let estimate o := match o with Some v => bool_decide (is_u64 v) | None => true end in
  match c with
  | CallReserve request =>
      estimate (rq_estimated_cost_micros request) && estimate (rq_estimated_quota_units request)
  | CallCommit _ _ usage | CallReconcileUsage _ _ usage =>
      amount (mu_cost_micros usage) && amount (mu_quota_units usage)
  | CallRefund _ _ observation => amount (ro_cost_micros observation)
  | _ => true
  end.

Lemma typed_callb_ok c : typed_callb c = true -> typed_call c.
Proof.
  assert (Ha : forall a, match a with Known v | Estimated v => bool_decide (is_u64 v)
                         | _ => true end = true -> amount_u64 a).
  { intros [v|v| | |] H; simpl in *; by try apply bool_decide_eq_true in H. }
  assert (He : forall o, match o with Some v => bool_decide (is_u64 v) | None => true end = true ->
                         estimate_u64 o).
  { intros [v|] H w [= <-]. by apply bool_decide_eq_true in H. }
  destruct c; simpl; rewrite ?andb_true_iff; intuition.
Qed.

Lemma sample_ledger_reachable : reachable_ledger sample_ledger.
Proof.
  apply run_calls_reachable_ledger; [|apply empty_ledger_reachable].
  apply Forall_forall. intros c Hc. apply typed_callb_ok. revert c Hc. apply Forall_forall.
  repeat (constructor; [by vm_compute|]). constructor.
Qed.
End Sample.

(** ** Theorems *)

(** C25. The effect of every ledger operation, tied to the operation: on a
    reachable ledger a successful call either repeats an outcome its
    reservation already records, and changes no total, or moves its
    reservation from a state the operation starts in to the one it ends in,
    with what it records (both receipt references, the usage measured for
    this reservation, a refund not seen before and within the committed
    cost); it adds to and takes from the four totals exactly its own
    estimates or measured amounts, stages a reservation only inside the cost
    limit and every known quota window, leaves every other reservation alone
    and stamps the verdict on the new totals. A refused call changes nothing.
    And the ledger's authority can always reconcile, release or expire a
    reservation from those states while the totals can be added up. *)
Theorem budget_call_refines (l : BudgetLedger) (Hl : reachable_ledger l) :
  (forall c, typed_call c ->
     match call c l with
     | (l', Ok r') => budget_effect c l l' r'
     | (l', Err _) => l' = l
     end) /\
  (committed_cost_micros l + reserved_cost_micros l <= u64_max ->
   committed_quota_units l + reserved_quota_units l <= u64_max ->
   forall key r, reservations l !! key = Some r ->
     (rr_state r ∈ [StagedInactive; Active] ->
        is_ok (call (CallBeginReconciliation key (bl_authority l)) l).2 = true) /\
     (rr_state r ∈ [StagedInactive; Active; Reconciling] ->
        is_ok (call (CallRelease key (bl_authority l)) l).2 = true) /\
     (rr_state r ∈ [StagedInactive; Reconciling] ->
        is_ok (call (CallExpire key (bl_authority l)) l).2 = true)).
Proof.
  apply reachable_ledger_inv in Hl. split.
  - intros c Ht. destruct (call c l) as [l' [r'|e]] eqn:H; [by apply call_effect|by eapply call_err].
  - intros Hc Hq key r Hk. rewrite !elem_of_cons, !elem_of_nil. split_and!; intros Hs; simpl.
    + eapply (transition_succeeds l key r (set_outcome Reconciling Unknown (committed_usage r) r)); try done;
        unfold begin_change; destruct (rr_state r); naive_solver.
    + eapply (transition_succeeds l key r (set_outcome Released Cancelled (committed_usage r) r)); try done;
        unfold release_change; destruct (rr_state r); naive_solver.
    + eapply (transition_succeeds l key r (set_outcome Expired Cancelled (committed_usage r) r)); try done;
        unfold expire_change; destruct (rr_state r); naive_solver.
Qed.

Lemma budget_call_refines_witness :
  (exists r', budget_effect (CallRelease "key-2" sample_authority) sample_ledger
     (call (CallRelease "key-2" sample_authority) sample_ledger).1 r') /\
  reserved_cost_micros sample_ledger = 50 /\
  reserved_cost_micros (call (CallRelease "key-2" sample_authority) sample_ledger).1 = 0.
Proof.
  destruct (budget_call_refines sample_ledger sample_ledger_reachable) as [Heff Hlive].
  specialize (Heff (CallRelease "key-2" sample_authority) I).
  destruct (reservations sample_ledger !! "key-2") as [r|] eqn:Hk; [|vm_compute in Hk; discriminate].
  destruct (Hlive ltac:(vm_compute; discriminate) ltac:(vm_compute; discriminate) "key-2" r Hk)
    as (_ & Hok & _).
  assert (Hst : rr_state r = StagedInactive) by (vm_compute in Hk; injection Hk as <-; reflexivity).
  specialize (Hok ltac:(rewrite Hst; left)).
  change (bl_authority sample_ledger) with sample_authority in Hok.
  destruct (call (CallRelease "key-2" sample_authority) sample_ledger) as [l' [r'|e]] eqn:Hcall;
    [|discriminate Hok].
  split; [exists r'; exact Heff|]. split; [vm_compute; reflexivity|].
  vm_compute in Hcall. injection Hcall as <- _. reflexivity.
Defined.

(** C24. Accounting is exact on every reachable ledger: the reserved totals are
    the estimates of the reservations that still hold capacity, the committed
    cost is the measured cost less the refunds, the committed quota is the
    measured quota, all four fit a [u64], and no reservation is refunded more
    than it committed. *)
Theorem budget_accounting (l : BudgetLedger) (Hl : reachable_ledger l) :
  reserved_cost_micros l = map_sum held_cost (reservations l) /\
  reserved_quota_units l = map_sum held_quota (reservations l) /\
  committed_cost_micros l = map_sum net_cost (reservations l) /\
  committed_quota_units l = map_sum used_quota (reservations l) /\
  is_u64 (reserved_cost_micros l) /\ is_u64 (reserved_quota_units l) /\
  is_u64 (committed_cost_micros l) /\ is_u64 (committed_quota_units l) /\
  forall key r, reservations l !! key = Some r ->
    rr_idempotency_key r = key /\ 0 <= refunded r <= gross_cost r /\
    (holds_capacity (rr_state r) = true -> committed_usage r = None).
Proof.
  apply reachable_ledger_inv in Hl. pose proof (li_totals _ Hl) as [].
  split_and!; try done; [apply Hl..|]. intros key r Hk. pose proof (li_receipts _ Hl _ _ Hk) as Hr.
  pose proof (net_le_gross r (ri_amounts _ _ _ Hr)) as Hn. unfold net_cost in Hn.
  split; [apply Hr|]. split; [lia|]. intros Hh. by destruct (am_holding _ (ri_amounts _ _ _ Hr) Hh).
Qed.

Lemma budget_accounting_witness :
  reserved_cost_micros sample_ledger = map_sum held_cost (reservations sample_ledger) /\
  map_sum net_cost (reservations sample_ledger) = 20.
Proof.
  destruct (budget_accounting sample_ledger sample_ledger_reachable) as (H1 & _).
  split; [exact H1|by vm_compute].
Defined.

(** Admission stays inside the envelope: when [reserve] stages a new
    reservation, every quota window of the envelope is known and the committed
    plus reserved quota stays within what it has left, the committed plus
    reserved cost stays within the cost limit if there is one, and nothing but
    the new receipt and the totals changes. *)
Theorem budget_reserve_within_envelope (request : ReservationRequest) (l l' : BudgetLedger)
  (r : ReservationReceipt)
  (Hfresh : reservations l !! op_idempotency_key (rq_operation request) = None)
  (H : reserve request l = (l', Ok r)) :
  Forall (fun w => exists remaining, qw_state w = QuotaKnown remaining /\
            committed_quota_units l' + reserved_quota_units l' <= remaining)
    (quota_windows (bl_envelope l')) /\
  (forall limit, max_cost_micros (bl_envelope l') = Some limit ->
     committed_cost_micros l' + reserved_cost_micros l' <= limit) /\
  reservations l' = <[op_idempotency_key (rq_operation request) := r]> (reservations l) /\
  rr_state r = StagedInactive /\ next_reservation l' = next_reservation l + 1 /\
  committed_cost_micros l' = committed_cost_micros l /\
  committed_quota_units l' = committed_quota_units l.
Proof.
  unfold reserve, mseq, mstate, mlift, mmodify, mret_ok, mthrow in H.
  destruct (validate_request l request) as [[]|]; [|done]. rewrite Hfresh in H.
  destruct (check_capacity _ _ _) as [[]|] eqn:Hcap; [|done].
  destruct (checked_add (next_reservation l) 1) as [next|] eqn:Hn; simpl in H; [|done].
  apply checked_add_some in Hn as [-> Hn].
  destruct (add_optional (reserved_cost_micros l) _) as [rc|] eqn:Hrc; [|done].
  destruct (add_optional (reserved_quota_units l) _) as [rq|] eqn:Hrq; [|done].
  simplify_eq/=. apply add_optional_ok in Hrc as [-> _], Hrq as [-> _].
  apply check_capacity_ok in Hcap as (q & Hq & _ & Hlimit & Hwin). rewrite Hq. simpl.
  split_and!; try done.
  - eapply Forall_impl; [exact Hwin|]. intros w (remaining & Hrem & Hle & _).
    exists remaining. split; [done|lia].
  - intros limit Hlim. destruct (Hlimit limit Hlim). lia.
Qed.

Lemma budget_reserve_within_envelope_witness :
  exists l' r, reserve (sample_request "key-3" 30 3) sample_ledger = (l', Ok r) /\
    reservations l' = <["key-3" := r]> (reservations sample_ledger).
Proof.
  destruct (reserve (sample_request "key-3" 30 3) sample_ledger) as [l' [r|e]] eqn:E.
  2: { exfalso. revert E. vm_compute. discriminate. }
  exists l', r. split; [reflexivity|].
  apply (budget_reserve_within_envelope (sample_request "key-3" 30 3) sample_ledger l' r);
    [by vm_compute|exact E].
Defined.

(** A refused call is free of effects: whatever operation fails, and with
    whatever error, the ledger it leaves is the ledger it found. *)
Theorem budget_errors_atomic (c : Call) (l l' : BudgetLedger) (e : BudgetError)
  (H : call c l = (l', Err e)) : l' = l.
Proof. by eapply call_err. Qed.

Lemma budget_errors_atomic_witness :
  (call (CallReserve (sample_request "key-3" 80 3)) sample_ledger).1 = sample_ledger.
Proof.
  apply (budget_errors_atomic (CallReserve (sample_request "key-3" 80 3)) sample_ledger _
           CostExceededError).
  destruct (call _ _) as [l' r] eqn:E. cbn [fst]. f_equal.
  apply (f_equal snd) in E. vm_compute in E. by rewrite <- E.
Defined.

(** Retries are safe: a call that succeeded can be repeated, returns the
    same receipt and leaves the ledger as it is, for every operation. *)
Theorem budget_retry_safe (c : Call) (l l' : BudgetLedger) (r : ReservationReceipt)
  (Hl : reachable_ledger l) (Ht : typed_call c) (H : call c l = (l', Ok r)) :
  call c l' = (l', Ok r).
Proof.
  apply reachable_ledger_inv in Hl. destruct c; simpl in *.
  - by eapply reserve_retry.
  - by eapply activate_retry.
  - destruct Ht. eapply settle_retry; [|done..|exact H]. auto.
  - destruct (simple_settles l key Hl) as (Hs & _ & _).
    by destruct (transition_retry _ _ _ _ _ _ Hs H).
  - destruct Ht. eapply settle_retry; [|done..|exact H]. auto.
  - destruct (simple_settles l key Hl) as (_ & Hs & _).
    by destruct (transition_retry _ _ _ _ _ _ Hs H).
  - destruct (simple_settles l key Hl) as (_ & _ & Hs).
    by destruct (transition_retry _ _ _ _ _ _ Hs H).
  - by eapply refund_retry.
Qed.

Lemma budget_retry_safe_witness :
  let c := CallRefund "key-1" sample_authority (sample_refund "key-1" 10) in
  exists l' r, call c (run_calls (spend "key-1" 40 30 3) (empty_ledger (Some 100))) = (l', Ok r) /\
    call c l' = (l', Ok r).
Proof.
  cbv zeta.
  destruct (call (CallRefund "key-1" sample_authority (sample_refund "key-1" 10))
              (run_calls (spend "key-1" 40 30 3) (empty_ledger (Some 100)))) as [l' [r|e]] eqn:E.
  2: { exfalso. revert E. vm_compute. discriminate. }
  exists l', r. split; [reflexivity|].
  apply (budget_retry_safe _ (run_calls (spend "key-1" 40 30 3) (empty_ledger (Some 100)))).
  - apply run_calls_reachable_ledger; [|apply empty_ledger_reachable].
    repeat (constructor; [by apply typed_callb_ok|]). constructor.
  - by apply typed_callb_ok.
  - exact E.
Defined.

(** Released and expired reservations are final: whatever call is made
    next, such a reservation keeps its state, disposition, usage and identity;
    only refunds may be appended, and never beyond the committed cost. *)
Theorem budget_terminal_final (c : Call) (l l' : BudgetLedger)
  (res : BR ReservationReceipt) (key : string) (r : ReservationReceipt)
  (Hl : reachable_ledger l) (Ht : typed_call c) (H : call c l = (l', res))
  (Hk : reservations l !! key = Some r) (Hs : holds_capacity (rr_state r) = false) :
  exists r', reservations l' !! key = Some r' /\ rr_state r' = rr_state r /\
    rr_disposition r' = rr_disposition r /\ committed_usage r' = committed_usage r /\
    reservation_id r' = reservation_id r /\
    refund_observations r `prefix_of` refund_observations r' /\
    refunded r' <= gross_cost r.
Proof.
  pose proof (reachable_ledger_inv _ (reach_call _ _ _ _ Hl Ht H)) as Hi'.
  assert (Hsame : forall r', reservations l' !! key = Some r' -> gross_cost r' = gross_cost r ->
            refunded r' <= gross_cost r).
  { intros r' Hk' <-. apply (am_refunded _ (ri_amounts _ _ _ (li_receipts _ Hi' _ _ Hk'))). }
  destruct res as [x|e]; [|apply call_err in H as ->; exists r; split_and!; eauto].
  destruct (call_step _ _ _ _ Ht H) as
    [k x Hx|request rc rq _ _ _ Hfresh _ _ _ _|k before changed rc rq cc cq d Hb Hlc _ _].
  - exists r. split_and!; eauto.
  - exists r. assert (Hl' : <[op_idempotency_key (rq_operation request) := staged_receipt l request]>
                        (reservations l) !! key = Some r).
    { rewrite lookup_insert_ne; [done|]. intros Heq. congruence. }
    split_and!; eauto.
  - destruct (decide (k = key)) as [->|Hne].
    2: { exists r. assert (Hl' : <[k := set_exhaustion d changed]> (reservations l) !! key = Some r)
           by (by rewrite lookup_insert_ne). split_and!; eauto. }
    rewrite Hk in Hb. injection Hb as <-.
    assert (Hl' : <[key := set_exhaustion d changed]> (reservations l) !! key
                  = Some (set_exhaustion d changed)) by apply lookup_insert_eq.
    exists (set_exhaustion d changed). split; [exact Hl'|]. specialize (Hsame _ Hl').
    destruct Hlc as [r _|r adm act Hx _|r Hx|r usage dd Hx _ _ _ _ _|r Hx|r Hx|r usage o _ _ _ _ _ _ _ _ _];
      try (destruct Hx as [Hx|Hx]; rewrite Hx in Hs; discriminate);
      try (rewrite Hx in Hs; discriminate).
    + split_and!; eauto.
    + split_and!; try done; [|by apply Hsame]. simpl. by exists [o].
Qed.

Lemma budget_terminal_final_witness :
  exists r', reservations
      (call (CallExpire "key-1" sample_authority) sample_ledger).1 !! "key-1" = Some r' /\
    rr_state r' = Released.
Proof.
  destruct (reservations sample_ledger !! "key-1") as [r|] eqn:E.
  2: { exfalso. revert E. vm_compute. discriminate. }
  assert (Hs : rr_state r = Released).
  { assert (Hm : (rr_state <$> reservations sample_ledger !! "key-1") = Some Released)
      by (by vm_compute). rewrite E in Hm. by injection Hm. }
  destruct (budget_terminal_final (CallExpire "key-1" sample_authority) sample_ledger
    (call (CallExpire "key-1" sample_authority) sample_ledger).1
    (call (CallExpire "key-1" sample_authority) sample_ledger).2 "key-1" r
    sample_ledger_reachable I (surjective_pairing _) E) as (r' & Hk & Hst & _).
  - by rewrite Hs.
  - exists r'. split; [exact Hk|]. by rewrite Hst.
Defined.

(** The refusal verdict binds: while [refuses_new_paid_work] answers true,
    every [reserve] for a new idempotency key is refused and changes
    nothing. *)
Theorem budget_refusal_binds (l : BudgetLedger) (request : ReservationRequest)
  (Hr : refuses_new_paid_work l = Ok true)
  (Hc : estimate_u64 (rq_estimated_cost_micros request))
  (Hq : estimate_u64 (rq_estimated_quota_units request))
  (Hfresh : reservations l !! op_idempotency_key (rq_operation request) = None) :
  exists e, reserve request l = (l, Err e).
Proof.
  destruct (reserve request l) as [l' [r|e]] eqn:H;
    [|exists e; by apply (call_err (CallReserve request)) in H as ->].
  exfalso.
  assert (Hcap : check_capacity l (rq_estimated_cost_micros request)
                   (rq_estimated_quota_units request) = Ok tt).
  { unfold reserve, mseq, mstate, mlift in H.
    destruct (validate_request l request) as [[]|]; [|done]. rewrite Hfresh in H.
    by destruct (check_capacity _ _ _) as [[]|]. }
  apply check_capacity_ok in Hcap as (q & Heq & _ & Hlimit & Hwin). rewrite Heq in Hq.
  apply estimate_nonneg in Hc as [Hc _]. apply estimate_nonneg in Hq as [Hq _]. simpl in Hq.
  unfold refuses_new_paid_work, exhaustion_disposition, classify_exhaustion in Hr.
  destruct (checked_add (committed_cost_micros l) _) as [tc|] eqn:Htc; [|done].
  destruct (checked_add (committed_quota_units l) _) as [tq|] eqn:Htq; [|done].
  apply checked_add_some in Htc as [-> _], Htq as [-> _]. simpl in Hr.
  assert (Hno : exhausted_windows (quota_windows (bl_envelope l))
                  (committed_quota_units l + reserved_quota_units l) = []).
  { unfold exhausted_windows. clear Hr. induction Hwin as [|w ws (rem & Hrem & Hle & _) _ IH];
      simpl; [done|]. unfold window_exhausted at 1. rewrite Hrem.
    rewrite (proj2 (Z.ltb_ge _ _)) by lia. done. }
  rewrite Hno in Hr. destruct (max_cost_micros (bl_envelope l)) as [limit|] eqn:Hl; [|done].
  destruct (Hlimit limit eq_refl). rewrite (proj2 (Z.ltb_ge _ _)) in Hr by lia. done.
Qed.

Lemma budget_refusal_binds_witness :
  let l := run_calls (spend "key-1" 40 150 3) (empty_ledger (Some 100)) in
  exists e, reserve (sample_request "key-2" 0 0) l = (l, Err e).
Proof.
  intros l. apply (budget_refusal_binds l).
  - by vm_compute.
  - intros v [= <-]. by vm_compute.
  - intros v [= <-]. by vm_compute.
  - by vm_compute.
Defined.

(** Recovery is exact: a reachable ledger whose authority owner is a valid
    text, and whose committed cost before refunds fits a [u64], always
    produces a snapshot, and restoring that snapshot gives back the ledger. *)
Theorem budget_recovery_roundtrip (l : BudgetLedger) (Hl : reachable_ledger l)
  (Howner : budget_text (ab_authority_owner (bl_authority l)) "authority.authority_owner" = Ok tt)
  (Hgross : map_sum gross_cost (reservations l) <= u64_max) :
  exists s, budget_snapshot l = Ok s /\ budget_from_snapshot s = Ok l.
Proof.
  apply reachable_ledger_inv in Hl. exists (snapshot_of l).
  unfold budget_snapshot, snapshot_validate, budget_from_snapshot.
  rewrite (snapshot_wire_ok l Hl), (restore_snapshot l Hl Howner Hgross). done.
Qed.

Lemma budget_recovery_roundtrip_witness :
  exists s, budget_snapshot sample_ledger = Ok s /\ budget_from_snapshot s = Ok sample_ledger.
Proof.
  apply (budget_recovery_roundtrip sample_ledger sample_ledger_reachable);
    vm_compute; [reflexivity|discriminate].
Defined.

(** The bound on the cost before refunds is needed: a reachable ledger whose
    committed cost is 5 cannot be snapshotted, because recovery adds a fully
    refunded cost of [u64::MAX] before it takes the refund off; and a new
    ledger with a blank authority owner is accepted but cannot be
    snapshotted. *)
Theorem budget_snapshot_can_fail :
  (exists l, reachable_ledger l /\ committed_cost_micros l = 5 /\
     budget_snapshot l = Err PoisonedState) /\
  (exists envelope authority l, BudgetLedger_new envelope authority = Ok l /\
     budget_snapshot l = Err (InvalidField "authority.authority_owner")).
Proof.
  split.
  - exists (run_calls (spend "b" 0 u64_max 1
              ++ [CallRefund "b" sample_authority (sample_refund "b" u64_max)]
              ++ spend "a" 0 5 1)%list (empty_ledger None)).
    split; [|split; by vm_compute].
    apply run_calls_reachable_ledger; [|apply empty_ledger_reachable].
    repeat (constructor; [apply typed_callb_ok; by vm_compute|]). constructor.
  - exists (sample_envelope None), ownerless, (new_ledger None ownerless).
    split; [reflexivity|by vm_compute].
Qed.
