(* ===== verification/Session.v ===== *)
(** * Session lifecycle owner

    The in-process owner of attached-agent sessions
    (crates/governor/eliot-session/src/lib.rs): registration, the command
    state machine, heartbeats, the idempotency index and recovery from a
    snapshot. [BTreeMap]s are [gmap]s: no operation of this crate depends on
    their iteration order except for which of several malformed sessions is
    reported, and all of those are reported by the same error. *)

From Stdlib Require Import String.
From S2P Require Import Prelude RustText Contracts CausalLog.

#[local] Open Scope string_scope.
#[local] Open Scope Z_scope.

(** ** Data *)

Inductive SessionState : Type :=
| Registering
| Active
| Idle
| Disconnected
| Expired
| Revoked
| Draining
| Closed.

#[global] Instance SessionState_eq_dec : EqDecision SessionState.
Proof. solve_decision. Defined.

Definition terminal (s : SessionState) : bool :=
  match s with
  | Expired | Revoked | Closed => true
  | _ => false
  end.

Inductive SessionError : Type :=
| InvalidField (field : string)
| DuplicateSession (id : SessionId)
| SessionNotFound (id : SessionId)
| IdempotencyConflict (key : string)
| FenceMismatch
| EpochMismatch
| IllegalTransition (from to : SessionState)
| InvalidState (id : SessionId)
| InvalidDeadline
| ClockMovedBackwards
| CausalSequenceMismatch
| InvalidClock.

#[global] Instance SessionError_eq_dec : EqDecision SessionError.
Proof. solve_decision. Defined.

Record AgentSession : Type := {
  as_session_id : SessionId;
  as_agent_id : string;
  as_model_route : string;
  as_harness : string;
  as_role : string;
  as_project_scope : string;
  as_task_scope : option string;
  as_capability_profile_id : string;
  as_parent_session_id : option SessionId;
  as_started_at : Z;
  as_heartbeat_at : Z;
  as_expires_at : Z;
  as_status : SessionState;
  as_policy_snapshot_id : string;
  as_authority_epoch : EpochId;
  as_state_fence : StateFence;
}.

#[global] Instance AgentSession_eq_dec : EqDecision AgentSession.
Proof. solve_decision. Defined.

Record RegisterSession : Type := {
  rs_request_id : string;
  rs_event_id : string;
  rs_session_id : SessionId;
  rs_agent_id : string;
  rs_model_route : string;
  rs_harness : string;
  rs_role : string;
  rs_project_scope : string;
  rs_task_scope : option string;
  rs_capability_profile_id : string;
  rs_parent_session_id : option SessionId;
  rs_policy_snapshot_id : string;
  rs_authority_epoch : EpochId;
  rs_state_fence : StateFence;
  rs_now : Z;
  rs_expires_at : Z;
}.

Inductive SessionCommand : Type :=
| Activate
| MarkIdle
| Resume
| Disconnect
| Expire
| Revoke
| BeginDrain
| Close.

#[global] Instance SessionCommand_eq_dec : EqDecision SessionCommand.
Proof. solve_decision. Defined.

Record SessionCommandContext : Type := {
  cx_request_id : string;
  cx_event_id : string;
  cx_actor_ref : string;
  cx_state_fence : StateFence;
  cx_authority_epoch : EpochId;
  cx_observed_at : ClockReading;
  cx_now : Z;
}.

Record SessionHeartbeat : Type := {
  hb_request_id : string;
  hb_event_id : string;
  hb_session_id : SessionId;
  hb_actor_ref : string;
  hb_state_fence : StateFence;
  hb_authority_epoch : EpochId;
  hb_observed_at : ClockReading;
  hb_now : Z;
  hb_expires_at : Z;
}.

#[global] Instance SessionHeartbeat_eq_dec : EqDecision SessionHeartbeat.
Proof. solve_decision. Defined.

Record SessionLifecycleEvent : Type := {
  ev_sequence : Z;
  ev_event_id : string;
  ev_request_id : string;
  ev_session_id : SessionId;
  ev_actor_ref : string;
  ev_from : option SessionState;
  ev_to : SessionState;
  ev_command : option SessionCommand;
  ev_state_fence : StateFence;
  ev_authority_epoch : EpochId;
  ev_observed_at : ClockReading;
}.

#[global] Instance SessionLifecycleEvent_eq_dec : EqDecision SessionLifecycleEvent.
Proof. solve_decision. Defined.

Record SessionLifecycleSnapshot : Type := {
  snap_next_sequence : Z;
  snap_sessions : gmap SessionId AgentSession;
  snap_events : list SessionLifecycleEvent;
}.

Inductive RequestResult : Type :=
| RRegister (event : SessionLifecycleEvent)
| RCommand (command : SessionCommand) (event : SessionLifecycleEvent)
| RHeartbeat (heartbeat : SessionHeartbeat) (event : SessionLifecycleEvent)
| RReplayed (event : SessionLifecycleEvent).

#[global] Instance RequestResult_eq_dec : EqDecision RequestResult.
Proof. solve_decision. Defined.

Record SessionLifecycleOwner : Type := {
  ow_authority_epoch : EpochId;
  ow_state_fence : StateFence;
  ow_next_sequence : Z;
  ow_sessions : gmap SessionId AgentSession;
  ow_events : list SessionLifecycleEvent;
  ow_requests : gmap string RequestResult;
}.

(** ** Field updates *)

Definition set_sessions (m : gmap SessionId AgentSession) (o : SessionLifecycleOwner) :=
  {| ow_authority_epoch := ow_authority_epoch o; ow_state_fence := ow_state_fence o;
     ow_next_sequence := ow_next_sequence o; ow_sessions := m;
     ow_events := ow_events o; ow_requests := ow_requests o |}.

Definition set_requests (m : gmap string RequestResult) (o : SessionLifecycleOwner) :=
  {| ow_authority_epoch := ow_authority_epoch o; ow_state_fence := ow_state_fence o;
     ow_next_sequence := ow_next_sequence o; ow_sessions := ow_sessions o;
     ow_events := ow_events o; ow_requests := m |}.

(** [record.status = status; record.heartbeat_at = heartbeat;
    record.expires_at = expires] *)
Definition set_liveness (status : SessionState) (heartbeat expires : Z) (r : AgentSession)
    : AgentSession :=
  {| as_session_id := as_session_id r; as_agent_id := as_agent_id r;
     as_model_route := as_model_route r; as_harness := as_harness r; as_role := as_role r;
     as_project_scope := as_project_scope r; as_task_scope := as_task_scope r;
     as_capability_profile_id := as_capability_profile_id r;
     as_parent_session_id := as_parent_session_id r; as_started_at := as_started_at r;
     as_heartbeat_at := heartbeat; as_expires_at := expires; as_status := status;
     as_policy_snapshot_id := as_policy_snapshot_id r;
     as_authority_epoch := as_authority_epoch r; as_state_fence := as_state_fence r |}.

(** ** The state machine *)

Definition text (value field : string) : result SessionError unit :=
  if is_blank value || has_control value then Err (InvalidField field) else Ok tt.

Definition target (state : SessionState) (command : SessionCommand) : option SessionState :=
  match command, state with
  | Activate, Registering => Some Active
  | MarkIdle, Active => Some Idle
  | Resume, Idle => Some Active
  | Disconnect, (Active | Idle) => Some Disconnected
  | Expire, Disconnected => Some Expired
  | Revoke, (Active | Idle) => Some Revoked
  | BeginDrain, Active => Some Draining
  | Close, Draining => Some Closed
  | _, _ => None
  end.

Definition allowed (from to : SessionState) : bool :=
  match from, to with
  | Registering, Active => true
  | Active, (Idle | Disconnected | Revoked | Draining) => true
  | Idle, (Active | Disconnected | Revoked) => true
  | Disconnected, Expired => true
  | Draining, Closed => true
  | _, _ => false
  end.

(** ** Operations *)

Definition owner_new (epoch : EpochId) (fence : StateFence)
    : result SessionError SessionLifecycleOwner :=
  check? map_err (fun _ => FenceMismatch) (StateFence_validate fence);
  if negb (is_same_authority epoch (authority_epoch fence)) then Err EpochMismatch
  else Ok {| ow_authority_epoch := epoch; ow_state_fence := fence; ow_next_sequence := 1;
             ow_sessions := ∅; ow_events := []; ow_requests := ∅ |}.

(** The request entry rebuilt from a recovered event. *)
Definition replayed_entry (event : SessionLifecycleEvent) : RequestResult :=
  match ev_command event with
  | Some command => RCommand command event
  | None =>
      match ev_from event with
      | Some _ => RReplayed event
      | None => RRegister event
      end
  end.

Definition index_events (events : list SessionLifecycleEvent) : gmap string RequestResult :=
  insert_all ev_request_id replayed_entry events ∅.

Definition session_recoverable (epoch : EpochId) (fence : StateFence) (s : AgentSession) : bool :=
  negb (negb (is_same_authority (as_authority_epoch s) epoch)
        || (as_state_fence s != fence)
        || (as_expires_at s <? as_heartbeat_at s)).

Definition out_of_order (events : list SessionLifecycleEvent) : bool :=
  existsb (fun ie => negb (ev_sequence ie.2 =? wrap_u64 (Z.of_nat ie.1 + 1)))
    (zip (seq 0 (length events)) events).

Definition from_snapshot (epoch : EpochId) (fence : StateFence) (snap : SessionLifecycleSnapshot)
    : result SessionError SessionLifecycleOwner :=
  let? owner := owner_new epoch fence in
  if (snap_next_sequence snap =? 0)
     || negb (snap_next_sequence snap =? wrap_u64 (usize_of_len (snap_events snap) + 1))
     || out_of_order (snap_events snap)
  then Err CausalSequenceMismatch
  else
    check? for_each (fun s =>
      if session_recoverable epoch (ow_state_fence owner) s then Ok tt else Err FenceMismatch)
      (btree_values (snap_sessions snap));
    Ok {| ow_authority_epoch := ow_authority_epoch owner;
          ow_state_fence := ow_state_fence owner;
          ow_next_sequence := snap_next_sequence snap;
          ow_sessions := insert_all as_session_id id (btree_values (snap_sessions snap)) ∅;
          ow_events := snap_events snap;
          ow_requests := index_events (snap_events snap) |}.

Definition snapshot (o : SessionLifecycleOwner) : SessionLifecycleSnapshot :=
  {| snap_next_sequence := ow_next_sequence o; snap_sessions := ow_sessions o;
     snap_events := ow_events o |}.

Definition check_fence (o : SessionLifecycleOwner) (epoch : EpochId) (fence : StateFence)
    : result SessionError unit :=
  if negb (is_same_authority epoch (ow_authority_epoch o))
     || negb (is_same_authority epoch (authority_epoch fence))
  then Err EpochMismatch
  else if fence != ow_state_fence o then Err FenceMismatch
  else Ok tt.

Definition validate_context (o : SessionLifecycleOwner) (cx : SessionCommandContext)
    : result SessionError unit :=
  check? text (cx_request_id cx) "request_id";
  check? text (cx_event_id cx) "event_id";
  check? text (cx_actor_ref cx) "actor_ref";
  check? map_err (fun _ => InvalidClock) (ClockReading_validate (cx_observed_at cx));
  check_fence o (cx_authority_epoch cx) (cx_state_fence cx).

Abbreviation SM := (M SessionLifecycleOwner SessionError).

Definition emit (request_id event_id : string) (session_id : SessionId) (actor_ref : string)
    (from : option SessionState) (to : SessionState) (command : option SessionCommand)
    (fence : StateFence) (epoch : EpochId) (observed : ClockReading) : SM SessionLifecycleEvent :=
  fun o =>
    let event := {| ev_sequence := ow_next_sequence o; ev_event_id := event_id;
                    ev_request_id := request_id; ev_session_id := session_id;
                    ev_actor_ref := actor_ref; ev_from := from; ev_to := to;
                    ev_command := command; ev_state_fence := fence;
                    ev_authority_epoch := epoch; ev_observed_at := observed |} in
    ({| ow_authority_epoch := ow_authority_epoch o; ow_state_fence := ow_state_fence o;
        ow_next_sequence := wrap_u64 (ow_next_sequence o + 1);
        ow_sessions := ow_sessions o; ow_events := ow_events o ++ [event];
        ow_requests := ow_requests o |}, Ok event).

Definition remember (key : string) (r : RequestResult) : SM unit :=
  mmodify (fun o => set_requests (<[key := r]> (ow_requests o)) o).

Definition admitted_session (req : RegisterSession) : AgentSession :=
  {| as_session_id := rs_session_id req; as_agent_id := rs_agent_id req;
     as_model_route := rs_model_route req; as_harness := rs_harness req;
     as_role := rs_role req; as_project_scope := rs_project_scope req;
     as_task_scope := rs_task_scope req;
     as_capability_profile_id := rs_capability_profile_id req;
     as_parent_session_id := rs_parent_session_id req; as_started_at := rs_now req;
     as_heartbeat_at := rs_now req; as_expires_at := rs_expires_at req;
     as_status := Registering; as_policy_snapshot_id := rs_policy_snapshot_id req;
     as_authority_epoch := rs_authority_epoch req; as_state_fence := rs_state_fence req |}.

Definition validate_register (o : SessionLifecycleOwner) (req : RegisterSession)
    : result SessionError unit :=
  check? text (rs_request_id req) "request_id";
  check? text (rs_event_id req) "event_id";
  check? text (rs_agent_id req) "agent_id";
  check? text (rs_model_route req) "model_route";
  check? text (rs_harness req) "harness";
  check? text (rs_role req) "role";
  check? text (rs_project_scope req) "project_scope";
  check? text (rs_capability_profile_id req) "capability_profile_id";
  check? text (rs_policy_snapshot_id req) "policy_snapshot_id";
  check? check_fence o (rs_authority_epoch req) (rs_state_fence req);
  guard_err (rs_expires_at req <=? rs_now req) InvalidDeadline.

Definition register (req : RegisterSession) : SM SessionLifecycleEvent :=
  let! o := mstate in
  do! mlift (validate_register o req);
  match ow_requests o !! rs_request_id req with
  | Some (RRegister event) =>
      if ev_session_id event == rs_session_id req then mret_ok event
      else mthrow (IdempotencyConflict (rs_request_id req))
  | Some _ => mthrow (IdempotencyConflict (rs_request_id req))
  | None =>
      if bool_decide (is_Some (ow_sessions o !! rs_session_id req))
      then mthrow (DuplicateSession (rs_session_id req))
      else
        let! event := emit (rs_request_id req) (rs_event_id req) (rs_session_id req)
          (rs_agent_id req) None Registering None (rs_state_fence req) (rs_authority_epoch req)
          {| valid_time_ms := None; known_time_ms := None; transaction_sequence := None;
             monotonic_ns := Some (rs_now req) |} in
        do! mmodify (fun o => set_sessions
              (<[rs_session_id req := admitted_session req]> (ow_sessions o)) o);
        do! remember (rs_request_id req) (RRegister event);
        mret_ok event
  end.

Definition refreshes_heartbeat (c : SessionCommand) : bool :=
  match c with
  | Resume | Activate => true
  | _ => false
  end.

(** [sessions.get_mut(&id).ok_or(SessionNotFound)?] followed by the update. *)
Definition update_session (sid : SessionId) (f : AgentSession -> AgentSession) : SM unit :=
  let! o := mstate in
  match ow_sessions o !! sid with
  | Some r => mmodify (set_sessions (<[sid := f r]> (ow_sessions o)))
  | None => mthrow (SessionNotFound sid)
  end.

Definition apply (session_id : SessionId) (cx : SessionCommandContext) (command : SessionCommand)
    : SM SessionLifecycleEvent :=
  let! o := mstate in
  do! mlift (validate_context o cx);
  match ow_requests o !! cx_request_id cx with
  | Some (RCommand known event) =>
      if (known == command) && (ev_session_id event == session_id) then mret_ok event
      else mthrow (IdempotencyConflict (cx_request_id cx))
  | Some (RReplayed event) =>
      if ev_session_id event == session_id then mret_ok event
      else mthrow (IdempotencyConflict (cx_request_id cx))
  | Some _ => mthrow (IdempotencyConflict (cx_request_id cx))
  | None =>
      let! cur := mlift (ok_or (ow_sessions o !! session_id) (SessionNotFound session_id)) in
      let! tgt := mlift (ok_or (target (as_status cur) command)
                           (IllegalTransition (as_status cur) (as_status cur))) in
      do! mlift (guard_err (negb (allowed (as_status cur) tgt))
                   (IllegalTransition (as_status cur) tgt));
      do! mlift (guard_err ((command == Expire) && (cx_now cx <? as_expires_at cur))
                   (InvalidState session_id));
      let! event := emit (cx_request_id cx) (cx_event_id cx) session_id (cx_actor_ref cx)
        (Some (as_status cur)) tgt (Some command) (cx_state_fence cx) (cx_authority_epoch cx)
        (cx_observed_at cx) in
      do! update_session session_id (fun r =>
            set_liveness tgt
              (if refreshes_heartbeat command then cx_now cx else as_heartbeat_at r)
              (as_expires_at r) r);
      do! remember (cx_request_id cx) (RCommand command event);
      mret_ok event
  end.

Definition heartbeat_context (req : SessionHeartbeat) : SessionCommandContext :=
  {| cx_request_id := hb_request_id req; cx_event_id := hb_event_id req;
     cx_actor_ref := hb_actor_ref req; cx_state_fence := hb_state_fence req;
     cx_authority_epoch := hb_authority_epoch req; cx_observed_at := hb_observed_at req;
     cx_now := hb_now req |}.

Definition accepts_heartbeat (s : SessionState) : bool :=
  match s with
  | Active | Idle => true
  | _ => false
  end.

Definition heartbeat (req : SessionHeartbeat) : SM SessionLifecycleEvent :=
  let! o := mstate in
  do! mlift (validate_context o (heartbeat_context req));
  do! mlift (guard_err (hb_expires_at req <=? hb_now req) InvalidDeadline);
  match ow_requests o !! hb_request_id req with
  | Some (RHeartbeat known event) =>
      if known == req then mret_ok event
      else mthrow (IdempotencyConflict (hb_request_id req))
  | Some (RReplayed event) =>
      if ev_session_id event == hb_session_id req then mret_ok event
      else mthrow (IdempotencyConflict (hb_request_id req))
  | Some _ => mthrow (IdempotencyConflict (hb_request_id req))
  | None =>
      let! session := mlift (ok_or (ow_sessions o !! hb_session_id req)
                               (SessionNotFound (hb_session_id req))) in
      do! mlift (guard_err (negb (accepts_heartbeat (as_status session)))
                   (InvalidState (hb_session_id req)));
      do! mlift (guard_err (hb_now req <? as_heartbeat_at session) ClockMovedBackwards);
      let! event := emit (hb_request_id req) (hb_event_id req) (hb_session_id req)
        (hb_actor_ref req) (Some (as_status session)) (as_status session) None
        (hb_state_fence req) (hb_authority_epoch req) (hb_observed_at req) in
      do! update_session (hb_session_id req) (fun r =>
            set_liveness (as_status r) (hb_now req) (hb_expires_at req) r);
      do! remember (hb_request_id req) (RHeartbeat req event);
      mret_ok event
  end.

(** ** One call of the owner *)

Inductive Call : Type :=
| CallRegister (req : RegisterSession)
| CallApply (session_id : SessionId) (cx : SessionCommandContext) (command : SessionCommand)
| CallHeartbeat (req : SessionHeartbeat).

Definition call (c : Call) : SM SessionLifecycleEvent :=
  match c with
  | CallRegister req => register req
  | CallApply sid cx command => apply sid cx command
  | CallHeartbeat req => heartbeat req
  end.

Definition call_request_id (c : Call) : string :=
  match c with
  | CallRegister req => rs_request_id req
  | CallApply _ cx _ => cx_request_id cx
  | CallHeartbeat req => hb_request_id req
  end.

Definition call_session_id (c : Call) : SessionId :=
  match c with
  | CallRegister req => rs_session_id req
  | CallApply sid _ _ => sid
  | CallHeartbeat req => hb_session_id req
  end.

Definition session_step (o o' : SessionLifecycleOwner) : Prop :=
  exists c r, call c o = (o', r).

#[export] Instance session_causal_owner :
    CausalOwner SessionLifecycleOwner SessionLifecycleEvent RequestResult := {
  owner_log := ow_events;
  event_sequence := ev_sequence;
  owner_next := ow_next_sequence;
  owner_requests := ow_requests;
  owner_step := session_step;
}.

(** ** Specification

    What one call promises, stated without the order of side effects: an
    inadmissible call is refused; a request id seen before is answered from
    memory; otherwise the call moves one session along the lifecycle and
    appends one event. *)

Definition admission (c : Call) (o : SessionLifecycleOwner) : result SessionError unit :=
  match c with
  | CallRegister req => validate_register o req
  | CallApply _ cx _ => validate_context o cx
  | CallHeartbeat req =>
      check? validate_context o (heartbeat_context req);
      guard_err (hb_expires_at req <=? hb_now req) InvalidDeadline
  end.

Definition answer (c : Call) (entry : RequestResult) : result SessionError SessionLifecycleEvent :=
  let conflict := Err (IdempotencyConflict (call_request_id c)) in
  let same event := if ev_session_id event == call_session_id c then Ok event else conflict in
  match c, entry with
  | CallRegister _, RRegister event => same event
  | CallApply _ _ command, RCommand known event =>
      if known == command then same event else conflict
  | CallHeartbeat req, RHeartbeat known event => if known == req then Ok event else conflict
  | (CallApply _ _ _ | CallHeartbeat _), RReplayed event => same event
  | _, _ => conflict
  end.

Definition next_session (c : Call) (old : option AgentSession) : result SessionError AgentSession :=
  match c with
  | CallRegister req =>
      match old with
      | Some _ => Err (DuplicateSession (rs_session_id req))
      | None => Ok (admitted_session req)
      end
  | CallApply sid cx command =>
      let? s := ok_or old (SessionNotFound sid) in
      let? to := ok_or (target (as_status s) command)
                   (IllegalTransition (as_status s) (as_status s)) in
      if (command == Expire) && (cx_now cx <? as_expires_at s) then Err (InvalidState sid)
      else Ok (set_liveness to
                 (if refreshes_heartbeat command then cx_now cx else as_heartbeat_at s)
                 (as_expires_at s) s)
  | CallHeartbeat req =>
      let? s := ok_or old (SessionNotFound (hb_session_id req)) in
      if negb (accepts_heartbeat (as_status s)) then Err (InvalidState (hb_session_id req))
      else if hb_now req <? as_heartbeat_at s then Err ClockMovedBackwards
      else Ok (set_liveness (as_status s) (hb_now req) (hb_expires_at req) s)
  end.

Definition call_event (c : Call) (seq : Z) (from : option SessionState) (to : SessionState)
    : SessionLifecycleEvent :=
  match c with
  | CallRegister req =>
      {| ev_sequence := seq; ev_event_id := rs_event_id req; ev_request_id := rs_request_id req;
         ev_session_id := rs_session_id req; ev_actor_ref := rs_agent_id req; ev_from := from;
         ev_to := to; ev_command := None; ev_state_fence := rs_state_fence req;
         ev_authority_epoch := rs_authority_epoch req;
         ev_observed_at := {| valid_time_ms := None; known_time_ms := None;
                              transaction_sequence := None; monotonic_ns := Some (rs_now req) |} |}
  | CallApply sid cx command =>
      {| ev_sequence := seq; ev_event_id := cx_event_id cx; ev_request_id := cx_request_id cx;
         ev_session_id := sid; ev_actor_ref := cx_actor_ref cx; ev_from := from; ev_to := to;
         ev_command := Some command; ev_state_fence := cx_state_fence cx;
         ev_authority_epoch := cx_authority_epoch cx; ev_observed_at := cx_observed_at cx |}
  | CallHeartbeat req =>
      {| ev_sequence := seq; ev_event_id := hb_event_id req; ev_request_id := hb_request_id req;
         ev_session_id := hb_session_id req; ev_actor_ref := hb_actor_ref req; ev_from := from;
         ev_to := to; ev_command := None; ev_state_fence := hb_state_fence req;
         ev_authority_epoch := hb_authority_epoch req; ev_observed_at := hb_observed_at req |}
  end.

Definition call_entry (c : Call) (event : SessionLifecycleEvent) : RequestResult :=
  match c with
  | CallRegister _ => RRegister event
  | CallApply _ _ command => RCommand command event
  | CallHeartbeat req => RHeartbeat req event
  end.

(** The owner after [c] has moved its session to [s'] with event [event]. *)
Definition advance (c : Call) (event : SessionLifecycleEvent) (s' : AgentSession)
    (o : SessionLifecycleOwner) : SessionLifecycleOwner :=
  {| ow_authority_epoch := ow_authority_epoch o; ow_state_fence := ow_state_fence o;
     ow_next_sequence := wrap_u64 (ow_next_sequence o + 1);
     ow_sessions := <[call_session_id c := s']> (ow_sessions o);
     ow_events := ow_events o ++ [event];
     ow_requests := <[call_request_id c := call_entry c event]> (ow_requests o) |}.

Definition spec_call (c : Call) (o : SessionLifecycleOwner)
    : SessionLifecycleOwner * result SessionError SessionLifecycleEvent :=
  match admission c o with
  | Err e => (o, Err e)
  | Ok _ =>
      match ow_requests o !! call_request_id c with
      | Some entry => (o, answer c entry)
      | None =>
          let old := ow_sessions o !! call_session_id c in
          match next_session c old with
          | Err e => (o, Err e)
          | Ok s' =>
              let event := call_event c (ow_next_sequence o) (as_status <$> old) (as_status s') in
              (advance c event s' o, Ok event)
          end
      end
  end.

(** ** Lemmas *)

Lemma target_allowed s c t : target s c = Some t -> allowed s t = true.
Proof. by destruct s, c; intros [= <-]. Qed.

Lemma target_nonterminal s c t : target s c = Some t -> terminal s = false.
Proof. by destruct s, c. Qed.

Lemma call_spec c o : call c o = spec_call c o.
Proof.
  unfold spec_call. destruct c as [req|sid cx cmd|req]; simpl.
  - unfold register, emit, remember. unfold_monad.
    destruct (validate_register o req) as [[]|]; [|done].
    destruct (ow_requests o !! rs_request_id req) as [[]|]; simpl; try done; try (by case_bool_decide).
    by destruct (ow_sessions o !! rs_session_id req).
  - unfold apply, emit, remember, update_session. unfold_monad.
    destruct (validate_context o cx) as [[]|]; [|done].
    destruct (ow_requests o !! cx_request_id cx) as [[]|]; simpl; try done;
      try (by repeat case_bool_decide).
    destruct (ow_sessions o !! sid) as [s|]; simpl; [|done].
    destruct (target (as_status s) cmd) as [t|] eqn:Ht; simpl; [|done].
    rewrite (target_allowed _ _ _ Ht). simpl.
    by destruct (_ && _).
  - unfold heartbeat, emit, remember, update_session. unfold_monad.
    destruct (validate_context o (heartbeat_context req)) as [[]|]; [|done].
    destruct (_ <=? _); [done|].
    destruct (ow_requests o !! hb_request_id req) as [[]|]; simpl; try done;
      try (by repeat case_bool_decide).
    destruct (ow_sessions o !! hb_session_id req) as [s|]; simpl; [|done].
    destruct (accepts_heartbeat _); simpl; [|done].
    by destruct (_ <? _).
Qed.

(** The two ways a call can end. *)
Lemma call_cases c o o' r :
  call c o = (o', r) ->
  (o' = o /\ forall e, r = Ok e -> exists entry,
     ow_requests o !! call_request_id c = Some entry /\ answer c entry = Ok e) \/
  (exists s' event, r = Ok event /\ admission c o = Ok tt /\
     ow_requests o !! call_request_id c = None /\
     next_session c (ow_sessions o !! call_session_id c) = Ok s' /\
     event = call_event c (ow_next_sequence o)
               (as_status <$> ow_sessions o !! call_session_id c) (as_status s') /\
     o' = advance c event s' o).
Proof.
  rewrite call_spec. unfold spec_call. intros H.
  destruct (admission c o) as [[]|]; [|by left; simplify_eq].
  destruct (ow_requests o !! call_request_id c) eqn:Hr.
  - left. simplify_eq. split; [done|]. intros e He. eauto.
  - destruct (next_session c _) eqn:Hn; [|by left; simplify_eq].
    right. simplify_eq. eauto 10.
Qed.

#[export] Instance session_causal_laws :
  CausalOwnerLaws SessionLifecycleOwner SessionLifecycleEvent RequestResult.
Proof.
  split; intros o o' (c & r & Hc); apply call_cases in Hc as [[-> _]|(s' & e & _ & _ & Hr & _ & -> & ->)];
    simpl.
  - by left.
  - right. eexists. split_and!; [done| |done]. by destruct c.
  - done.
  - by apply insert_subseteq.
Qed.

(** What is left of a remembered answer after recovery: the payload of a
    heartbeat is not in the log. *)
Definition forget_heartbeat (r : RequestResult) : RequestResult :=
  match r with
  | RHeartbeat _ event => RReplayed event
  | r => r
  end.

(** The status the log gives to a session: that of its last event. *)
Definition logged_status (k : SessionId) (events : list SessionLifecycleEvent)
    : option SessionState :=
  fold_left (fun acc e => if ev_session_id e == k then Some (ev_to e) else acc) events None.

(** An event is legal when its command leads from its source state to its
    target state. *)
Definition legal_event (e : SessionLifecycleEvent) : Prop :=
  match ev_from e, ev_command e with
  | None, None => ev_to e = Registering
  | Some s, Some c => target s c = Some (ev_to e)
  | Some s, None => accepts_heartbeat s = true /\ ev_to e = s
  | None, Some _ => False
  end.

Definition legal_log (events : list SessionLifecycleEvent) : Prop :=
  forall i e, events !! i = Some e ->
    legal_event e /\ ev_from e = logged_status (ev_session_id e) (take i events).

Record session_inv (o : SessionLifecycleOwner) : Prop := {
  inv_causal : causal_wf o;
  inv_owner : owner_new (ow_authority_epoch o) (ow_state_fence o) =
              Ok {| ow_authority_epoch := ow_authority_epoch o;
                    ow_state_fence := ow_state_fence o; ow_next_sequence := 1;
                    ow_sessions := ∅; ow_events := []; ow_requests := ∅ |};
  inv_sessions : forall k s, ow_sessions o !! k = Some s ->
    as_session_id s = k /\ as_authority_epoch s = ow_authority_epoch o /\
    as_state_fence s = ow_state_fence o;
  inv_requests : forget_heartbeat <$> ow_requests o = index_events (ow_events o);
  inv_log : legal_log (ow_events o);
  inv_status : forall k, as_status <$> ow_sessions o !! k = logged_status k (ow_events o);
}.

Lemma logged_status_snoc k events e :
  logged_status k (events ++ [e]) =
  if ev_session_id e == k then Some (ev_to e) else logged_status k events.
Proof. unfold logged_status. by rewrite fold_left_app. Qed.

Lemma legal_log_snoc events e :
  legal_log events -> legal_event e -> ev_from e = logged_status (ev_session_id e) events ->
  legal_log (events ++ [e]).
Proof.
  intros Hl He Hf i x Hi. apply lookup_app_Some in Hi as [Hi|[Hge Hi]].
  - rewrite take_app_le by (apply lookup_lt_Some in Hi; lia). by apply Hl.
  - apply list_lookup_singleton_Some in Hi as [Hi <-].
    rewrite take_app_length' by lia. done.
Qed.

Lemma index_events_snoc events e :
  index_events (events ++ [e]) = <[ev_request_id e := replayed_entry e]> (index_events events).
Proof. unfold index_events, insert_all. by rewrite fold_left_app. Qed.

(** The admission guards pin the caller to the owner's epoch and fence. *)
Lemma check_fence_ok o e f :
  check_fence o e f = Ok tt -> e = ow_authority_epoch o /\ f = ow_state_fence o.
Proof.
  unfold check_fence. intros H. run. bool_facts. by rewrite is_same_authority_eq in *.
Qed.

Lemma validate_register_fence o req :
  validate_register o req = Ok tt ->
  rs_authority_epoch req = ow_authority_epoch o /\ rs_state_fence req = ow_state_fence o.
Proof. unfold validate_register. intros H. run. by apply check_fence_ok. Qed.

Lemma next_session_facts c old s' :
  next_session c old = Ok s' ->
  legal_event (call_event c 0 (as_status <$> old) (as_status s')) /\
  match old with
  | Some s => exists st h x, s' = set_liveness st h x s
  | None => exists req, c = CallRegister req /\ s' = admitted_session req
  end /\
  (if c is CallRegister _ then old = None else is_Some old).
Proof.
  intros H. destruct c as [req|sid cx cmd|req]; unfold next_session in H; simpl.
  - run. split_and!; try done; eauto.
  - run. split_and!; try done; eauto.
  - run. bool_facts. split_and!; try done; eauto.
Qed.

Lemma call_event_seq c n m from to :
  legal_event (call_event c n from to) -> legal_event (call_event c m from to).
Proof. by destruct c. Qed.

Lemma call_event_fields c n from to :
  let e := call_event c n from to in
  ev_session_id e = call_session_id c /\ ev_request_id e = call_request_id c /\
  ev_from e = from /\ ev_to e = to /\ ev_sequence e = n.
Proof. by destruct c. Qed.

Lemma forget_call_entry c n from to :
  (if c is CallRegister _ then from = None else is_Some from) ->
  forget_heartbeat (call_entry c (call_event c n from to)) =
  replayed_entry (call_event c n from to).
Proof. destruct c; simpl; [by intros ->|done|by intros [? ->]]. Qed.

Lemma session_inv_call c o o' r : call c o = (o', r) -> session_inv o -> session_inv o'.
Proof.
  intros Hc Hinv.
  assert (Hstep : session_step o o') by (do 2 eexists; exact Hc).
  apply call_cases in Hc as [[-> _]|(s' & e & _ & Hadm & _ & Hn & He & ->)]; [done|].
  pose proof (next_session_facts _ _ _ Hn) as (Hlegal & Hold & Hfresh).
  apply (call_event_seq _ _ (ow_next_sequence o)) in Hlegal. rewrite <- He in Hlegal.
  destruct (call_event_fields c (ow_next_sequence o)
    (as_status <$> ow_sessions o !! call_session_id c) (as_status s'))
    as (Hsid & Hrid & Hfrom & Hto & _). rewrite <- He in Hsid, Hrid, Hfrom, Hto.
  destruct Hinv as [Hcausal Hown Hses Hreq Hlog Hst]. split; simpl.
  - by eapply (causal_wf_step o).
  - done.
  - intros k s. rewrite lookup_insert_Some. intros [[<- <-]|[_ Hk]]; [|by apply Hses].
    destruct (ow_sessions o !! call_session_id c) as [s|] eqn:Hs.
    + destruct Hold as (st & h & x & ->). exact (Hses _ _ Hs).
    + destruct Hold as (req & -> & ->). simpl in *. split; [done|].
      by apply validate_register_fence.
  - rewrite fmap_insert, index_events_snoc, Hreq, Hrid. f_equal.
    rewrite He. apply forget_call_entry.
    destruct c; [by rewrite Hfresh|by apply fmap_is_Some..].
  - apply legal_log_snoc; [done|done|]. by rewrite Hsid, Hfrom, Hst.
  - intros k. rewrite logged_status_snoc, Hsid, Hto.
    destruct (decide (call_session_id c = k)) as [->|Hne].
    + by rewrite lookup_insert_eq, bool_decide_true.
    + by rewrite lookup_insert_ne, bool_decide_false.
Qed.

(** ** Reachable owners

    Owners built by [new], by calls, and by recovery from a snapshot taken
    of a reachable owner. *)
Inductive reachable : SessionLifecycleOwner -> Prop :=
| reach_new e f o : owner_new e f = Ok o -> reachable o
| reach_call o c o' r : reachable o -> call c o = (o', r) -> reachable o'
| reach_recover o e f o' :
    reachable o -> from_snapshot e f (snapshot o) = Ok o' -> reachable o'.

Lemma owner_new_ok e f o :
  owner_new e f = Ok o ->
  o = {| ow_authority_epoch := e; ow_state_fence := f; ow_next_sequence := 1;
         ow_sessions := ∅; ow_events := []; ow_requests := ∅ |}.
Proof. unfold owner_new. intros H. by run. Qed.

Lemma session_inv_new e f o : owner_new e f = Ok o -> session_inv o.
Proof.
  intros H. pose proof (owner_new_ok _ _ _ H) as Ho. subst o. by split.
Qed.

Definition recovered (o : SessionLifecycleOwner) : SessionLifecycleOwner :=
  set_requests (forget_heartbeat <$> ow_requests o) o.

Lemma out_of_order_false events :
  out_of_order events = false <->
  forall i e, events !! i = Some e -> ev_sequence e = wrap_u64 (Z.of_nat i + 1).
Proof. apply numbered_from_one. Qed.

(** Recovery from a snapshot of a well-formed owner, under the same epoch
    and fence, gives back the owner with its heartbeat payloads forgotten. *)
Lemma from_snapshot_recovers o :
  session_inv o -> Z.of_nat (length (ow_events o)) < u64_max ->
  (forall k s, ow_sessions o !! k = Some s -> as_heartbeat_at s <= as_expires_at s) ->
  from_snapshot (ow_authority_epoch o) (ow_state_fence o) (snapshot o) = Ok (recovered o).
Proof.
  intros [Hc Hown Hses Hreq _ _] Hlen Hlive. unfold from_snapshot. rewrite Hown. simpl.
  destruct Hc as [Hnext Hseq]. simpl in Hnext, Hseq.
  rewrite (proj2 (out_of_order_false _) Hseq). rewrite Hnext. unfold usize_of_len.
  rewrite Z.eqb_refl, wrap_u64_small by (split; lia).
  rewrite (proj2 (Z.eqb_neq _ 0)) by lia. simpl.
  rewrite (proj2 (for_each_ok _ _)).
  2: { apply Forall_forall. intros s Hs. apply btree_values_elem in Hs as [k Hk].
       destruct (Hses _ _ Hk) as (_ & He & Hf). specialize (Hlive _ _ Hk).
       unfold session_recoverable. rewrite He, Hf, is_same_authority_refl, bool_decide_true by done.
       by rewrite (proj2 (Z.ltb_ge _ _)). }
  simpl. f_equal. unfold recovered, set_requests. f_equal.
  - rewrite Hnext. symmetry. apply wrap_u64_small. split; lia.
  - apply insert_all_values. intros k s Hk. by apply Hses.
  - done.
Qed.

Lemma session_inv_recovered o : session_inv o -> session_inv (recovered o).
Proof.
  intros [Hc Hown Hses Hreq Hlog Hst]. split; try done. simpl. rewrite <- Hreq.
  rewrite <- map_fmap_compose. apply map_fmap_ext. by intros ? [] ?.
Qed.

(** Whatever epoch and fence a recovery names, a successful one keeps the
    invariant. *)
Lemma session_inv_from_snapshot o e f o' :
  session_inv o -> from_snapshot e f (snapshot o) = Ok o' -> session_inv o'.
Proof.
  intros [Hc Hown Hses Hreq Hlog Hst] H. unfold from_snapshot in H.
  destruct (owner_new e f) as [o0|] eqn:Hnew; [|done]. simpl in H.
  pose proof (owner_new_ok _ _ _ Hnew) as Ho0. destruct (_ || _); [done|].
  destruct (for_each _ _) as [[]|] eqn:Hfe; [|done]. simplify_eq/=.
  rewrite insert_all_values by (intros k s Hk; by apply Hses).
  split; simpl; try done.
  - intros k s Hk. rewrite for_each_ok, Forall_forall in Hfe.
    specialize (Hfe s (proj2 (btree_values_elem _ _) (ex_intro _ _ Hk))).
    unfold session_recoverable in Hfe. case_match; [|done]. bool_facts.
    rewrite is_same_authority_eq in *. split; [|done]. by apply Hses.
  - rewrite <- Hreq, <- map_fmap_compose. apply map_fmap_ext. by intros ? [] ?.
Qed.

Lemma reachable_inv o : reachable o -> session_inv o.
Proof.
  induction 1; eauto using session_inv_new, session_inv_call, session_inv_from_snapshot.
Qed.

#[export] Hint Resolve reachable_inv session_inv_call session_inv_from_snapshot : eliot.

(** The epoch and the fence of an owner never change, so a call stays as
    admissible as it was. *)
Lemma step_same_fence o o' :
  session_step o o' ->
  ow_authority_epoch o' = ow_authority_epoch o /\ ow_state_fence o' = ow_state_fence o.
Proof.
  intros (c & r & Hc). by apply call_cases in Hc as [[-> _]|(? & ? & _ & _ & _ & _ & _ & ->)].
Qed.

Lemma steps_same_fence o o' :
  rtc session_step o o' ->
  ow_authority_epoch o' = ow_authority_epoch o /\ ow_state_fence o' = ow_state_fence o.
Proof.
  induction 1 as [|o1 o2 o3 Hs _ [IH1 IH2]]; [done|]. apply step_same_fence in Hs as [? ?].
  by rewrite IH1, IH2.
Qed.

Lemma admission_fence c o o' :
  ow_authority_epoch o' = ow_authority_epoch o -> ow_state_fence o' = ow_state_fence o ->
  admission c o' = admission c o.
Proof.
  intros H1 H2. destruct c; simpl; unfold validate_register, validate_context, check_fence;
    by rewrite H1, H2.
Qed.

(** An accepted call is answered by its own entry. *)
Lemma answer_own_entry c n from to :
  answer c (call_entry c (call_event c n from to)) = Ok (call_event c n from to).
Proof. destruct c; simpl; by rewrite ?bool_decide_true by done. Qed.

Lemma call_answered c o o' e :
  call c o = (o', Ok e) ->
  admission c o' = Ok tt /\
  exists entry, ow_requests o' !! call_request_id c = Some entry /\ answer c entry = Ok e.
Proof.
  intros H. pose proof H as H'. apply call_cases in H as [[-> Hans]|(s' & ev & [= <-] & Hadm & _ & _ & He & ->)].
  - split; [|by apply Hans]. rewrite call_spec in H'. unfold spec_call in H'.
    destruct (admission c o) as [[]|]; [done|]. by simplify_eq.
  - split; [by rewrite <- Hadm; apply admission_fence|]. simpl.
    rewrite lookup_insert_eq. eexists. split; [done|]. rewrite He. apply answer_own_entry.
Qed.

(** ** The contract of the owner

    What a call may do, as a relation that shares no check with the code: the
    lifecycle as a table of arrows, the admission as propositions on the
    data, and the event, the session and the owner after the call written
    out. *)

Inductive session_lifecycle : SessionState -> SessionCommand -> SessionState -> Prop :=
| sl_activate : session_lifecycle Registering Activate Active
| sl_idle : session_lifecycle Active MarkIdle Idle
| sl_resume : session_lifecycle Idle Resume Active
| sl_disconnect s : s = Active \/ s = Idle -> session_lifecycle s Disconnect Disconnected
| sl_expire : session_lifecycle Disconnected Expire Expired
| sl_revoke s : s = Active \/ s = Idle -> session_lifecycle s Revoke Revoked
| sl_drain : session_lifecycle Active BeginDrain Draining
| sl_close : session_lifecycle Draining Close Closed.

(** A caller speaks for the owner's epoch under exactly the owner's fence. *)
Definition fence_admitted (o : SessionLifecycleOwner) (epoch : EpochId) (fence : StateFence)
    : Prop :=
  epoch = ow_authority_epoch o /\ epoch = authority_epoch fence /\ fence = ow_state_fence o.

(** A time known is not earlier than the time it is valid from. *)
Definition clock_admitted (c : ClockReading) : Prop :=
  forall valid known, valid_time_ms c = Some valid -> known_time_ms c = Some known ->
    valid <= known.

Definition session_admitted (o : SessionLifecycleOwner) (c : Call) : Prop :=
  match c with
  | CallRegister r =>
      Forall plain_text [rs_request_id r; rs_event_id r; rs_agent_id r; rs_model_route r;
        rs_harness r; rs_role r; rs_project_scope r; rs_capability_profile_id r;
        rs_policy_snapshot_id r] /\
      fence_admitted o (rs_authority_epoch r) (rs_state_fence r) /\
      rs_now r < rs_expires_at r
  | CallApply _ cx _ =>
      Forall plain_text [cx_request_id cx; cx_event_id cx; cx_actor_ref cx] /\
      clock_admitted (cx_observed_at cx) /\
      fence_admitted o (cx_authority_epoch cx) (cx_state_fence cx)
  | CallHeartbeat r =>
      Forall plain_text [hb_request_id r; hb_event_id r; hb_actor_ref r] /\
      clock_admitted (hb_observed_at r) /\
      fence_admitted o (hb_authority_epoch r) (hb_state_fence r) /\
      hb_now r < hb_expires_at r
  end.

(** [remembers c entry e]: the entry kept under the request id of [c] is the
    answer [e] to the same call. After recovery the answer to a heartbeat is
    known by its session only. *)
Inductive remembers : Call -> RequestResult -> SessionLifecycleEvent -> Prop :=
| rem_register r e : ev_session_id e = rs_session_id r -> remembers (CallRegister r) (RRegister e) e
| rem_command sid cx cmd e :
    ev_session_id e = sid -> remembers (CallApply sid cx cmd) (RCommand cmd e) e
| rem_heartbeat r e : remembers (CallHeartbeat r) (RHeartbeat r e) e
| rem_replayed_command sid cx cmd e :
    ev_session_id e = sid -> remembers (CallApply sid cx cmd) (RReplayed e) e
| rem_replayed_heartbeat r e :
    ev_session_id e = hb_session_id r -> remembers (CallHeartbeat r) (RReplayed e) e.

(** [s] with a new status, heartbeat and deadline. *)
Definition session_with (s : AgentSession) (status : SessionState) (heartbeat expires : Z)
    (s' : AgentSession) : Prop :=
  as_status s' = status /\ as_heartbeat_at s' = heartbeat /\ as_expires_at s' = expires /\
  as_session_id s' = as_session_id s /\ as_agent_id s' = as_agent_id s /\
  as_model_route s' = as_model_route s /\ as_harness s' = as_harness s /\
  as_role s' = as_role s /\ as_project_scope s' = as_project_scope s /\
  as_task_scope s' = as_task_scope s /\
  as_capability_profile_id s' = as_capability_profile_id s /\
  as_parent_session_id s' = as_parent_session_id s /\ as_started_at s' = as_started_at s /\
  as_policy_snapshot_id s' = as_policy_snapshot_id s /\
  as_authority_epoch s' = as_authority_epoch s /\ as_state_fence s' = as_state_fence s.

(** The session a fresh call leaves, with the event it emits at sequence
    number [seq] and the entry it is remembered by. *)
Inductive session_effect (seq : Z)
    : Call -> option AgentSession -> AgentSession -> SessionLifecycleEvent -> RequestResult -> Prop :=
| se_register r e :
    e = {| ev_sequence := seq; ev_event_id := rs_event_id r; ev_request_id := rs_request_id r;
           ev_session_id := rs_session_id r; ev_actor_ref := rs_agent_id r; ev_from := None;
           ev_to := Registering; ev_command := None; ev_state_fence := rs_state_fence r;
           ev_authority_epoch := rs_authority_epoch r;
           ev_observed_at := {| valid_time_ms := None; known_time_ms := None;
                                transaction_sequence := None;
                                monotonic_ns := Some (rs_now r) |} |} ->
    session_effect seq (CallRegister r) None
      {| as_session_id := rs_session_id r; as_agent_id := rs_agent_id r;
         as_model_route := rs_model_route r; as_harness := rs_harness r; as_role := rs_role r;
         as_project_scope := rs_project_scope r; as_task_scope := rs_task_scope r;
         as_capability_profile_id := rs_capability_profile_id r;
         as_parent_session_id := rs_parent_session_id r; as_started_at := rs_now r;
         as_heartbeat_at := rs_now r; as_expires_at := rs_expires_at r;
         as_status := Registering; as_policy_snapshot_id := rs_policy_snapshot_id r;
         as_authority_epoch := rs_authority_epoch r; as_state_fence := rs_state_fence r |}
      e (RRegister e)
| se_command sid cx cmd s to s' e :
    session_lifecycle (as_status s) cmd to ->
    (cmd = Expire -> as_expires_at s <= cx_now cx) ->
    session_with s to
      (match cmd with Activate | Resume => cx_now cx | _ => as_heartbeat_at s end)
      (as_expires_at s) s' ->
    e = {| ev_sequence := seq; ev_event_id := cx_event_id cx; ev_request_id := cx_request_id cx;
           ev_session_id := sid; ev_actor_ref := cx_actor_ref cx;
           ev_from := Some (as_status s); ev_to := to; ev_command := Some cmd;
           ev_state_fence := cx_state_fence cx; ev_authority_epoch := cx_authority_epoch cx;
           ev_observed_at := cx_observed_at cx |} ->
    session_effect seq (CallApply sid cx cmd) (Some s) s' e (RCommand cmd e)
| se_heartbeat r s s' e :
    as_status s = Active \/ as_status s = Idle ->
    as_heartbeat_at s <= hb_now r ->
    session_with s (as_status s) (hb_now r) (hb_expires_at r) s' ->
    e = {| ev_sequence := seq; ev_event_id := hb_event_id r; ev_request_id := hb_request_id r;
           ev_session_id := hb_session_id r; ev_actor_ref := hb_actor_ref r;
           ev_from := Some (as_status s); ev_to := as_status s; ev_command := None;
           ev_state_fence := hb_state_fence r; ev_authority_epoch := hb_authority_epoch r;
           ev_observed_at := hb_observed_at r |} ->
    session_effect seq (CallHeartbeat r) (Some s) s' e (RHeartbeat r e).

Inductive session_accepted (o : SessionLifecycleOwner) (c : Call)
    : SessionLifecycleEvent -> SessionLifecycleOwner -> Prop :=
| sa_replay entry e :
    session_admitted o c -> ow_requests o !! call_request_id c = Some entry ->
    remembers c entry e -> session_accepted o c e o
| sa_fresh s' e entry :
    session_admitted o c -> ow_requests o !! call_request_id c = None ->
    session_effect (ow_next_sequence o) c (ow_sessions o !! call_session_id c) s' e entry ->
    session_accepted o c e
      {| ow_authority_epoch := ow_authority_epoch o; ow_state_fence := ow_state_fence o;
         ow_next_sequence := wrap_u64 (ow_next_sequence o + 1);
         ow_sessions := <[call_session_id c := s']> (ow_sessions o);
         ow_events := ow_events o ++ [e];
         ow_requests := <[call_request_id c := entry]> (ow_requests o) |}.

(** *** The code's checks decide the contract *)

Lemma session_text_ok t f : text t f = Ok tt <-> plain_text t.
Proof. rewrite <- plain_text_check. unfold text. by destruct (_ || _). Qed.

Lemma session_lifecycle_iff s c to : session_lifecycle s c to <-> target s c = Some to.
Proof.
  split; [destruct 1; naive_solver|].
  destruct s, c; intros [= <-]; constructor; auto.
Qed.

Lemma check_fence_iff o epoch fence :
  check_fence o epoch fence = Ok tt <-> fence_admitted o epoch fence.
Proof.
  unfold check_fence, fence_admitted.
  pose proof (is_same_authority_eq epoch (ow_authority_epoch o)) as H1.
  pose proof (is_same_authority_eq epoch (authority_epoch fence)) as H2.
  destruct (is_same_authority epoch (ow_authority_epoch o)),
    (is_same_authority epoch (authority_epoch fence)); simpl; try naive_solver.
  case_bool_decide; naive_solver.
Qed.

Lemma clock_admitted_iff c : ClockReading_validate c = Ok tt <-> clock_admitted c.
Proof.
  unfold ClockReading_validate, clock_admitted.
  destruct (valid_time_ms c) as [v|], (known_time_ms c) as [n|]; try naive_solver.
  destruct (Z.ltb_spec n v); split; try done.
  - intros Hc. specialize (Hc v n eq_refl eq_refl). lia.
  - intros _ ? ? [= <-] [= <-]. lia.
Qed.

Lemma session_admission_iff c o : admission c o = Ok tt <-> session_admitted o c.
Proof.
  destruct c as [r|sid cx cmd|r]; simpl; unfold validate_register, validate_context;
    rewrite !check_ok, !session_text_ok, ?map_err_ok, ?clock_admitted_iff, check_fence_iff,
      !Forall_cons, Forall_nil, ?guard_err_ok, ?Z.leb_gt; simpl; tauto.
Qed.

Lemma remembers_iff c entry e : answer c entry = Ok e <-> remembers c entry e.
Proof.
  split.
  - destruct c, entry; simpl; try done; repeat case_bool_decide; try done; subst;
      intros [= <-]; by constructor.
  - destruct 1; simpl; rewrite !bool_decide_true; done.
Qed.

Lemma next_session_effect seq c old s' :
  next_session c old = Ok s' ->
  session_effect seq c old s' (call_event c seq (as_status <$> old) (as_status s'))
    (call_entry c (call_event c seq (as_status <$> old) (as_status s'))).
Proof.
  destruct c as [r|sid cx cmd|r]; simpl.
  - destruct old; [done|]. intros [= <-]. by constructor.
  - destruct old as [s|]; [|done]. simpl. destruct (target (as_status s) cmd) as [to|] eqn:Ht; [|done].
    simpl. destruct (_ && _) eqn:Hexp; [done|]. intros [= <-].
    eapply se_command; [by apply session_lifecycle_iff| | |done].
    + intros ->. simpl in Hexp. lia.
    + unfold session_with. by destruct cmd.
  - destruct old as [s|]; [|done]. simpl. destruct (accepts_heartbeat _) eqn:Ha; [|done]. simpl.
    destruct (Z.ltb_spec (hb_now r) (as_heartbeat_at s)); [done|]. intros [= <-].
    apply se_heartbeat; try done. by destruct (as_status s); auto.
Qed.

Lemma effect_next_session seq c old s' e entry :
  session_effect seq c old s' e entry -> exists s1, next_session c old = Ok s1.
Proof.
  destruct 1 as [r|sid cx cmd s to s' e Hl Hexp _ _|r s s' e Hs Hh _ _]; simpl; [by eexists| |].
  - apply session_lifecycle_iff in Hl as ->. simpl.
    destruct (_ && _) eqn:Hb; [|by eexists]. bool_facts. specialize (Hexp ltac:(done)). lia.
  - assert (accepts_heartbeat (as_status s) = true) as -> by (by destruct Hs as [-> | ->]). simpl.
    rewrite (proj2 (Z.ltb_ge _ _)) by lia. by eexists.
Qed.

(** ** A sample run, for the witnesses *)

Section Sample.
Definition sample_epoch : EpochId :=
  {| lineage_id := {| lineage_text := "00000000-0000-0000-0000-00000000000a" |}; sequence := 7 |}.

Definition sample_fence : StateFence := StateFence_new sample_epoch 3.

Definition sample_register (rid sid : string) (now expires : Z) : Call :=
  CallRegister {|
    rs_request_id := rid; rs_event_id := "event-" ++ rid; rs_session_id := sid;
    rs_agent_id := "agent"; rs_model_route := "route"; rs_harness := "harness";
    rs_role := "role"; rs_project_scope := "project"; rs_task_scope := None;
    rs_capability_profile_id := "profile"; rs_parent_session_id := None;
    rs_policy_snapshot_id := "policy"; rs_authority_epoch := sample_epoch;
    rs_state_fence := sample_fence; rs_now := now; rs_expires_at := expires |}.

Definition sample_context (rid : string) (now : Z) : SessionCommandContext :=
  {| cx_request_id := rid; cx_event_id := "event-" ++ rid; cx_actor_ref := "actor";
     cx_state_fence := sample_fence; cx_authority_epoch := sample_epoch;
     cx_observed_at := ClockReading_default; cx_now := now |}.

Definition sample_heartbeat (rid sid : string) (now expires : Z) : Call :=
  CallHeartbeat {|
    hb_request_id := rid; hb_event_id := "event-" ++ rid; hb_session_id := sid;
    hb_actor_ref := "actor"; hb_state_fence := sample_fence;
    hb_authority_epoch := sample_epoch; hb_observed_at := ClockReading_default;
    hb_now := now; hb_expires_at := expires |}.

Definition run_calls (calls : list Call) (o : SessionLifecycleOwner) : SessionLifecycleOwner :=
  fold_left (fun o c => (call c o).1) calls o.

Definition sample_owner (calls : list Call) : SessionLifecycleOwner :=
  run_calls calls
    {| ow_authority_epoch := sample_epoch; ow_state_fence := sample_fence;
       ow_next_sequence := 1; ow_sessions := ∅; ow_events := []; ow_requests := ∅ |}.

Lemma run_calls_reachable calls o : reachable o -> reachable (run_calls calls o).
Proof.
  revert o. induction calls as [|c calls IH]; intros o Ho; [done|]. apply IH.
  destruct (call c o) as [o' r] eqn:E. simpl. by eapply reach_call.
Qed.

Lemma run_calls_steps calls o : rtc session_step o (run_calls calls o).
Proof.
  revert o. induction calls as [|c calls IH]; intros o; [done|]. simpl.
  destruct (call c o) as [o' r] eqn:E. simpl. eapply rtc_l; [|apply IH]. by exists c, r.
Qed.

Lemma sample_owner_reachable calls : reachable (sample_owner calls).
Proof.
  apply run_calls_reachable. apply (reach_new sample_epoch sample_fence). vm_compute. done.
Qed.

Lemma sample_owner_steps calls calls' :
  rtc session_step (sample_owner calls) (sample_owner (calls ++ calls')).
Proof. unfold sample_owner, run_calls. rewrite fold_left_app. apply run_calls_steps. Qed.

Definition sample_calls : list Call :=
  [sample_register "r1" "s1" 10 100; CallApply "s1" (sample_context "r2" 12) Activate;
   sample_heartbeat "r3" "s1" 20 200; CallApply "s1" (sample_context "r4" 30) Disconnect;
   CallApply "s1" (sample_context "r5" 300) Expire].
End Sample.

(** ** Theorems *)


(** Every event in the log of a reachable owner is a legal step of the
    lifecycle that starts in the state the earlier events of its session
    left, and the status the owner reports for a session is the one its log
    determines. *)
Theorem session_log_legal (o : SessionLifecycleOwner) (Hr : reachable o) :
  legal_log (ow_events o) /\
  forall k, as_status <$> ow_sessions o !! k = logged_status k (ow_events o).
Proof. destruct (reachable_inv o Hr). by split. Qed.

Lemma session_log_legal_witness :
  legal_log (ow_events (sample_owner sample_calls)) /\
  (forall k, as_status <$> ow_sessions (sample_owner sample_calls) !! k =
             logged_status k (ow_events (sample_owner sample_calls))) /\
  length (ow_events (sample_owner sample_calls)) = 5%nat /\
  logged_status "s1" (ow_events (sample_owner sample_calls)) = Some Expired.
Proof.
  destruct (session_log_legal (sample_owner sample_calls) (sample_owner_reachable _)).
  split_and!; [done|done|vm_compute; reflexivity|vm_compute; reflexivity].
Defined.

(** The log is append-only and gap-free: later logs extend earlier ones,
    and as long as the log fits the [u64] counter the event at position [i]
    carries sequence number [i + 1] and the owner's next number is the length
    plus one. *)
Theorem session_log_contiguous (o o' : SessionLifecycleOwner) (Hr : reachable o)
    (Hs : rtc session_step o o') (Hlen : Z.of_nat (length (ow_events o')) < u64_max) :
  ow_events o `prefix_of` ow_events o' /\
  ow_next_sequence o' = Z.of_nat (length (ow_events o')) + 1 /\
  forall i e, ow_events o' !! i = Some e -> ev_sequence e = Z.of_nat i + 1.
Proof.
  split; [exact (@log_append_only _ _ _ session_causal_owner session_causal_laws o o' Hs)|].
  apply (@causal_wf_counts _ _ _ session_causal_owner); [|exact Hlen].
  exact (@causal_wf_steps _ _ _ session_causal_owner session_causal_laws o o' Hs
           (inv_causal _ (reachable_inv o Hr))).
Qed.

Lemma session_log_contiguous_witness :
  ow_next_sequence (sample_owner sample_calls) = 6.
Proof.
  pose proof (session_log_contiguous (sample_owner []) (sample_owner sample_calls)
    (sample_owner_reachable _) (sample_owner_steps [] sample_calls)) as H.
  destruct H as (_ & H & _); [vm_compute; reflexivity|]. rewrite H. vm_compute. reflexivity.
Defined.

(** Retry safety: once a call has succeeded, the same call made again,
    after any number of further calls, returns the same event and changes
    nothing. *)
Theorem session_retry_safe (c : Call) (o o1 o2 : SessionLifecycleOwner) (e : SessionLifecycleEvent)
    (Hc : call c o = (o1, Ok e)) (Hs : rtc session_step o1 o2) :
  call c o2 = (o2, Ok e).
Proof.
  destruct (call_answered _ _ _ _ Hc) as (Hadm & entry & He & Ha).
  destruct (steps_same_fence _ _ Hs) as [H1 H2].
  apply (@request_remembered _ _ _ session_causal_owner session_causal_laws o1 o2 _ _ Hs) in He. simpl in He.
  rewrite call_spec. unfold spec_call. by rewrite (admission_fence c o1 o2 H1 H2), Hadm, He, Ha.
Qed.

Lemma session_retry_safe_witness :
  exists e, call (sample_heartbeat "r3" "s1" 20 200) (sample_owner sample_calls) =
            (sample_owner sample_calls, Ok e) /\ ev_sequence e = 3.
Proof.
  eexists. split.
  - apply (session_retry_safe (sample_heartbeat "r3" "s1" 20 200)
             (sample_owner (take 2 sample_calls)) (sample_owner (take 3 sample_calls))).
    + vm_compute. reflexivity.
    + apply (sample_owner_steps (take 3 sample_calls) (drop 3 sample_calls)).
  - reflexivity.
Defined.

(** Terminal sessions are final: once a session is expired, revoked or
    closed, no sequence of calls changes anything in its record. *)
Theorem session_terminal_final (o o' : SessionLifecycleOwner) (k : SessionId) (s : AgentSession)
    (Hk : ow_sessions o !! k = Some s) (Ht : terminal (as_status s) = true)
    (Hs : rtc session_step o o') :
  ow_sessions o' !! k = Some s.
Proof.
  induction Hs as [|o1 o2 o3 (c & r & Hc) _ IH]; [done|]. apply IH.
  apply call_cases in Hc as [[-> _]|(s' & e & _ & _ & _ & Hn & _ & ->)]; [done|]. simpl.
  destruct (decide (call_session_id c = k)) as [<-|]; [|by rewrite lookup_insert_ne].
  exfalso. rewrite Hk in Hn. unfold next_session in Hn. destruct c; run; bool_facts;
    first [ by destruct (as_status s)
          | by match goal with H : target _ _ = _ |- _ =>
                 apply target_nonterminal in H; rewrite H in Ht end ].
Qed.

Lemma session_terminal_final_witness :
  as_status <$> ow_sessions (sample_owner (sample_calls ++
    [CallApply "s1" (sample_context "r6" 400) Activate])) !! "s1" = Some Expired.
Proof.
  assert (Hst : as_status <$> ow_sessions (sample_owner sample_calls) !! "s1" = Some Expired)
    by (vm_compute; reflexivity).
  destruct (ow_sessions (sample_owner sample_calls) !! "s1") as [s|] eqn:E; [|discriminate].
  injection Hst as Hst.
  rewrite (session_terminal_final (sample_owner sample_calls) _ "s1" s E).
  - simpl. by rewrite Hst.
  - by rewrite Hst.
  - apply sample_owner_steps.
Defined.

(** Recovery round trip: taking a snapshot of a reachable owner whose
    sessions all have a deadline that is not before their last heartbeat, and
    rebuilding an owner from it under the same epoch and fence, succeeds and
    gives back the same sessions, log, sequence and remembered answers, a
    heartbeat answer being kept without its payload. *)
Theorem session_recovery_roundtrip (o : SessionLifecycleOwner) (Hr : reachable o)
    (Hlen : Z.of_nat (length (ow_events o)) < u64_max)
    (Hlive : forall k s, ow_sessions o !! k = Some s -> as_heartbeat_at s <= as_expires_at s) :
  from_snapshot (ow_authority_epoch o) (ow_state_fence o) (snapshot o) = Ok (recovered o).
Proof. apply from_snapshot_recovers; eauto with eliot. Qed.

Lemma session_recovery_roundtrip_witness :
  is_ok (from_snapshot sample_epoch sample_fence (snapshot (sample_owner (take 3 sample_calls))))
  = true.
Proof.
  assert (Hl : map_Forall (fun _ s => as_heartbeat_at s <= as_expires_at s)
                 (ow_sessions (sample_owner (take 3 sample_calls)))).
  { apply (bool_decide_unpack _). vm_compute. exact I. }
  pose proof (session_recovery_roundtrip (sample_owner (take 3 sample_calls))
    (sample_owner_reachable _) ltac:(vm_compute; reflexivity) Hl) as H.
  assert (He : ow_authority_epoch (sample_owner (take 3 sample_calls)) = sample_epoch)
    by (vm_compute; reflexivity).
  assert (Hf : ow_state_fence (sample_owner (take 3 sample_calls)) = sample_fence)
    by (vm_compute; reflexivity).
  rewrite He, Hf in H. rewrite H. reflexivity.
Defined.

(** The deadline condition of the round trip is needed, and calls alone
    can break it: activating a session after its deadline is accepted and
    refreshes the heartbeat past the deadline, and from then on the owner's
    own snapshot is refused on recovery. *)
Theorem session_late_activation_blocks_recovery :
  exists o c o' e, reachable o /\ call c o = (o', Ok e) /\
    is_ok (from_snapshot (ow_authority_epoch o) (ow_state_fence o) (snapshot o)) = true /\
    from_snapshot (ow_authority_epoch o') (ow_state_fence o') (snapshot o') = Err FenceMismatch.
Proof.
  exists (sample_owner [sample_register "r1" "s1" 10 100]),
    (CallApply "s1" (sample_context "r2" 150) Activate).
  do 2 eexists. split_and!.
  - apply sample_owner_reachable.
  - vm_compute. reflexivity.
  - vm_compute. reflexivity.
  - vm_compute. reflexivity.
Qed.

(** Recovery weakens the idempotency index: before recovery a command
    that reuses the request id of a heartbeat is refused as a conflict; after
    recovery the same command is answered with the heartbeat's event, whatever
    the command, and does not take effect. *)
Theorem session_recovered_heartbeat_id_answers_commands :
  exists o o' k cx event,
    reachable o /\
    from_snapshot (ow_authority_epoch o) (ow_state_fence o) (snapshot o) = Ok o' /\
    ev_command event = None /\
    forall c, apply k cx c o = (o, Err (IdempotencyConflict (cx_request_id cx))) /\
              apply k cx c o' = (o', Ok event).
Proof.
  exists (sample_owner (take 3 sample_calls)).
  eexists _, "s1", (sample_context "r3" 40),
    (call_event (sample_heartbeat "r3" "s1" 20 200) 3 (Some Active) Active). split_and!.
  - apply sample_owner_reachable.
  - vm_compute. reflexivity.
  - reflexivity.
  - intros []; split; vm_compute; reflexivity.
Qed.
