(* ===== verification/Professional.v ===== *)
(** * Professional execution state

    Contracts, attempts, abandonment signals and completion evidence of one
    professional task
    (crates/governor/eliot-task/src/professional_execution.rs). Every method
    that mutates makes all its checks before its first mutation, so a method
    is a function to a [result] of the new state. *)

From Stdlib Require Import Ascii String.
From S2P Require Import Prelude RustText Contracts.

#[local] Open Scope string_scope.
#[local] Open Scope Z_scope.

(** ** Data *)

Inductive ProfessionalExecutionError : Type :=
| PInvalidField (field : string)
| DuplicateRequirement (r : string)
| UnknownRequirement (r : string)
| ContractAlreadyExists
| ContractNotFound
| InvalidAttemptLineage
| InvalidApproachRevision
| SignalNotFound
| PFenceMismatch
| EvaluatorBoundaryUnresolved.

#[global] Instance ProfessionalExecutionError_eq_dec : EqDecision ProfessionalExecutionError.
Proof. solve_decision. Defined.

Record ProfessionalRoleOwners : Type := {
  ro_task_domain_owner : string;
  ro_bridge_environment_owner : string;
  ro_evaluator_owner : string;
}.

#[global] Instance ProfessionalRoleOwners_eq_dec : EqDecision ProfessionalRoleOwners.
Proof. solve_decision. Defined.

Inductive ProfessionalRequirementKind : Type :=
| Deliverable
| Verifier
| WorkflowBoundary.

#[global] Instance ProfessionalRequirementKind_eq_dec : EqDecision ProfessionalRequirementKind.
Proof. solve_decision. Defined.

Record ProfessionalRequirement : Type := {
  rq_requirement_ref : string;
  rq_kind : ProfessionalRequirementKind;
  rq_description : string;
}.

#[global] Instance ProfessionalRequirement_eq_dec : EqDecision ProfessionalRequirement.
Proof. solve_decision. Defined.

Record ProfessionalExecutionContract : Type := {
  pc_contract_ref : string;
  pc_revision : Z;
  pc_owners : ProfessionalRoleOwners;
  pc_domain_method : string;
  pc_target_software : string;
  pc_target_version : string;
  pc_input_asset_handles : list string;
  pc_source_reference_handles : list string;
  pc_output_workspace : string;
  pc_allowed_write_roots : list string;
  pc_expected_deliverable_manifest : list string;
  pc_allowed_substitutions : list string;
  pc_forbidden_shortcuts : list string;
  pc_reference_visibility : string;
  pc_evaluator_isolation : string;
  pc_evaluator_only_reference_handles : list string;
  pc_environment_profile : string;
  pc_professional_tool_route : string;
  pc_artifact_evaluator : string;
  pc_requirements : list ProfessionalRequirement;
  pc_proof_ceiling : string;
  pc_checkpoint_conditions : list string;
  pc_abandonment_conditions : list string;
  pc_rollback_conditions : list string;
  pc_delivery_conditions : list string;
}.

#[global] Instance ProfessionalExecutionContract_eq_dec : EqDecision ProfessionalExecutionContract.
Proof. solve_decision. Defined.

Inductive ProfessionalIsolationPrincipal : Type :=
| Worker
| Evaluator.

#[global] Instance ProfessionalIsolationPrincipal_eq_dec : EqDecision ProfessionalIsolationPrincipal.
Proof. solve_decision. Defined.

Record ProfessionalIsolationRoute : Type := {
  rt_tool_route : string;
  rt_environment_profile : string;
}.

#[global] Instance ProfessionalIsolationRoute_eq_dec : EqDecision ProfessionalIsolationRoute.
Proof. solve_decision. Defined.

Record ProfessionalPrincipalVisibility : Type := {
  pv_principal : ProfessionalIsolationPrincipal;
  pv_route : ProfessionalIsolationRoute;
  pv_visible_asset_handles : list string;
  pv_visible_reference_handles : list string;
}.

#[global] Instance ProfessionalPrincipalVisibility_eq_dec : EqDecision ProfessionalPrincipalVisibility.
Proof. solve_decision. Defined.

Record ProfessionalReferenceIsolationReceipt : Type := {
  ir_contract_ref : string;
  ir_contract_revision : Z;
  ir_evaluator_only_reference_handles : list string;
  ir_entries : list ProfessionalPrincipalVisibility;
}.

#[global] Instance ProfessionalReferenceIsolationReceipt_eq_dec :
  EqDecision ProfessionalReferenceIsolationReceipt.
Proof. solve_decision. Defined.

Record ProfessionalWorkerPacket : Type := {
  wp_contract_ref : string;
  wp_contract_revision : Z;
  wp_asset_handles : list string;
  wp_reference_handles : list string;
  wp_allowed_write_roots : list string;
  wp_output_workspace : string;
  wp_tool_route : string;
  wp_environment_profile : string;
}.

Record ProfessionalAttempt : Type := {
  at_attempt_ref : string;
  at_parent_attempt_ref : option string;
  at_partial_artifact_handles : list string;
  at_reason : string;
}.

#[global] Instance ProfessionalAttempt_eq_dec : EqDecision ProfessionalAttempt.
Proof. solve_decision. Defined.

Record ProfessionalArtifactEntry : Type := {
  ae_deliverable_ref : string;
  ae_observed_presence_handle : string;
  ae_checksum_sha256 : string;
}.

#[global] Instance ProfessionalArtifactEntry_eq_dec : EqDecision ProfessionalArtifactEntry.
Proof. solve_decision. Defined.

Record ProfessionalArtifactManifest : Type := {
  am_manifest_ref : string;
  am_contract_ref : string;
  am_contract_revision : Z;
  am_output_workspace : string;
  am_entries : list ProfessionalArtifactEntry;
}.

#[global] Instance ProfessionalArtifactManifest_eq_dec : EqDecision ProfessionalArtifactManifest.
Proof. solve_decision. Defined.

Inductive ProfessionalEvaluationOutcome : Type :=
| Accepted
| Rejected
| Inconclusive.

#[global] Instance ProfessionalEvaluationOutcome_eq_dec : EqDecision ProfessionalEvaluationOutcome.
Proof. solve_decision. Defined.

Record ProfessionalEvaluatorResult : Type := {
  er_manifest_ref : string;
  er_contract_ref : string;
  er_contract_revision : Z;
  er_evaluator_owner_ref : string;
  er_evaluator_ref : string;
  er_result_handle : string;
  er_outcome : ProfessionalEvaluationOutcome;
}.

#[global] Instance ProfessionalEvaluatorResult_eq_dec : EqDecision ProfessionalEvaluatorResult.
Proof. solve_decision. Defined.

Record ProfessionalCompletionEvidence : Type := {
  ce_artifact_manifest : ProfessionalArtifactManifest;
  ce_evaluator_result : option ProfessionalEvaluatorResult;
}.

#[global] Instance ProfessionalCompletionEvidence_eq_dec : EqDecision ProfessionalCompletionEvidence.
Proof. solve_decision. Defined.

Inductive ProfessionalAttemptOutcome : Type :=
| Stopped
| ReportedSuccess
| ApproachChanged.

#[global] Instance ProfessionalAttemptOutcome_eq_dec : EqDecision ProfessionalAttemptOutcome.
Proof. solve_decision. Defined.

Record PrematureAbandonmentSignal : Type := {
  sg_signal_ref : string;
  sg_task_id : TaskId;
  sg_contract_ref : string;
  sg_contract_revision : Z;
  sg_attempt_ref : string;
  sg_attempt_lineage : list string;
  sg_unresolved_requirements : list ProfessionalRequirement;
  sg_state_fence : StateFence;
  sg_partial_artifact_handles : list string;
  sg_reason : string;
  sg_outcome : ProfessionalAttemptOutcome;
}.

#[global] Instance PrematureAbandonmentSignal_eq_dec : EqDecision PrematureAbandonmentSignal.
Proof. solve_decision. Defined.

Record ProfessionalApproachRevision : Type := {
  ar_revision : Z;
  ar_previous_revision : Z;
  ar_approach : string;
  ar_rationale : string;
  ar_acceptance_impact : string;
  ar_preserved_partial_artifact_handles : list string;
}.

#[global] Instance ProfessionalApproachRevision_eq_dec : EqDecision ProfessionalApproachRevision.
Proof. solve_decision. Defined.

Inductive TaskControllerDisposition : Type :=
| Reframe (rationale : string)
| Supersede (rationale : string)
| AcceptPartial (acceptance_ref : string)
| RequestHumanInput (question : string).

#[global] Instance TaskControllerDisposition_eq_dec : EqDecision TaskControllerDisposition.
Proof. solve_decision. Defined.

Record ProfessionalAbandonmentDecision : Type := {
  ad_signal_ref : string;
  ad_disposition : TaskControllerDisposition;
  ad_unresolved_requirement_refs : list string;
  ad_preserved_partial_artifact_handles : list string;
}.

#[global] Instance ProfessionalAbandonmentDecision_eq_dec : EqDecision ProfessionalAbandonmentDecision.
Proof. solve_decision. Defined.

Record ProfessionalExecutionState : Type := {
  ps_contract : ProfessionalExecutionContract;
  ps_reference_isolation_receipt : ProfessionalReferenceIsolationReceipt;
  ps_completion_evidence : list ProfessionalCompletionEvidence;
  ps_attempts : list ProfessionalAttempt;
  ps_abandonment_signals : list PrematureAbandonmentSignal;
  ps_approach_revisions : list ProfessionalApproachRevision;
  ps_controller_decisions : list ProfessionalAbandonmentDecision;
}.

#[global] Instance ProfessionalExecutionState_eq_dec : EqDecision ProfessionalExecutionState.
Proof. solve_decision. Defined.

(** ** Contract validation *)

Abbreviation PR := (result ProfessionalExecutionError).

Definition required_text (value field : string) : PR unit :=
  if is_blank value || has_control value then Err (PInvalidField field) else Ok tt.

Definition validate_handles (handles : list string) (set_field item_field : string) : PR unit :=
  check? scan_distinct (fun h => required_text h item_field) id
           (fun _ => PInvalidField set_field) ∅ handles;
  Ok tt.

Definition workspace_in_roots (workspace : string) (roots : list string) : bool :=
  existsb (fun root =>
    let root := trim_end_matches "/"%char root in
    (workspace == root)
    || match strip_prefix root workspace with
       | Some rest => starts_with "/" rest
       | None => false
       end) roots.

Definition validate_handle_sets (c : ProfessionalExecutionContract) : PR unit :=
  check? validate_handles (pc_input_asset_handles c) "input_asset_handles" "input_asset_handle";
  check? validate_handles (pc_source_reference_handles c)
           "source_reference_handles" "source_reference_handle";
  check? validate_handles (pc_allowed_write_roots c) "allowed_write_roots" "allowed_write_root";
  check? guard_err (pc_allowed_write_roots c == []) (PInvalidField "allowed_write_roots");
  check? guard_err (negb (workspace_in_roots (pc_output_workspace c) (pc_allowed_write_roots c)))
           (PInvalidField "output_workspace");
  check? scan_distinct
           (fun h =>
              check? required_text h "evaluator_only_reference_handle";
              guard_err (negb (bool_decide (h ∈ pc_source_reference_handles c)))
                (PInvalidField "evaluator_only_reference_handles"))
           id (fun _ => PInvalidField "evaluator_only_reference_handles") ∅
           (pc_evaluator_only_reference_handles c);
  Ok tt.

Definition is_verifier_requirement (r : ProfessionalRequirement) : bool := rq_kind r == Verifier.

Definition required_fields (c : ProfessionalExecutionContract) : list (string * string) :=
  [(pc_contract_ref c, "contract_ref");
   (ro_task_domain_owner (pc_owners c), "task_domain_owner");
   (ro_bridge_environment_owner (pc_owners c), "bridge_environment_owner");
   (ro_evaluator_owner (pc_owners c), "evaluator_owner");
   (pc_domain_method c, "domain_method");
   (pc_target_software c, "target_software");
   (pc_target_version c, "target_version");
   (pc_output_workspace c, "output_workspace");
   (pc_reference_visibility c, "reference_visibility");
   (pc_evaluator_isolation c, "evaluator_isolation");
   (pc_environment_profile c, "environment_profile");
   (pc_professional_tool_route c, "professional_tool_route");
   (pc_artifact_evaluator c, "artifact_evaluator");
   (pc_proof_ceiling c, "proof_ceiling")].

Definition contract_owners (c : ProfessionalExecutionContract) : list string :=
  [ro_task_domain_owner (pc_owners c); ro_bridge_environment_owner (pc_owners c);
   ro_evaluator_owner (pc_owners c)].

Definition contract_validate (c : ProfessionalExecutionContract) : PR unit :=
  check? for_each (fun vf => required_text vf.1 vf.2) (required_fields c);
  check? guard_err ((pc_revision c =? 0) || (pc_requirements c == [])) (PInvalidField "contract");
  check? guard_err
           (negb (size (list_to_set (contract_owners c) : gset string)
                  =? length (contract_owners c))%nat)
           (PInvalidField "independent_owners");
  check? guard_err (negb (existsb is_verifier_requirement (pc_requirements c)))
           (PInvalidField "evaluator_requirement");
  check? guard_err (pc_expected_deliverable_manifest c == [])
           (PInvalidField "expected_deliverable_manifest");
  check? scan_distinct (fun d => required_text d "expected_deliverable") id
           (fun _ => PInvalidField "expected_deliverable_manifest") ∅
           (pc_expected_deliverable_manifest c);
  check? scan_distinct
           (fun r => check? required_text (rq_requirement_ref r) "requirement_ref";
                     required_text (rq_description r) "requirement_description")
           rq_requirement_ref (fun r => DuplicateRequirement (rq_requirement_ref r)) ∅
           (pc_requirements c);
  validate_handle_sets c.

(** ** Reference isolation *)

Definition is_evaluator_only_reference (c : ProfessionalExecutionContract) (handle : string) : bool :=
  existsb (fun hidden => hidden == handle) (pc_evaluator_only_reference_handles c).

Definition worker_visible_reference_handles (c : ProfessionalExecutionContract) : list string :=
  List.filter (fun h => negb (is_evaluator_only_reference c h)) (pc_source_reference_handles c).

Definition materialize_worker_packet (c : ProfessionalExecutionContract)
    : PR ProfessionalWorkerPacket :=
  check? contract_validate c;
  Ok {| wp_contract_ref := pc_contract_ref c; wp_contract_revision := pc_revision c;
        wp_asset_handles := pc_input_asset_handles c;
        wp_reference_handles := worker_visible_reference_handles c;
        wp_allowed_write_roots := pc_allowed_write_roots c;
        wp_output_workspace := pc_output_workspace c;
        wp_tool_route := pc_professional_tool_route c;
        wp_environment_profile := pc_environment_profile c |}.

Definition isolation_receipt (c : ProfessionalExecutionContract)
    : PR ProfessionalReferenceIsolationReceipt :=
  check? contract_validate c;
  let route := {| rt_tool_route := pc_professional_tool_route c;
                  rt_environment_profile := pc_environment_profile c |} in
  let worker := {| pv_principal := Worker; pv_route := route;
                   pv_visible_asset_handles := pc_input_asset_handles c;
                   pv_visible_reference_handles := worker_visible_reference_handles c |} in
  let evaluator := {| pv_principal := Evaluator; pv_route := route;
                      pv_visible_asset_handles := pc_input_asset_handles c;
                      pv_visible_reference_handles := pc_source_reference_handles c |} in
  Ok {| ir_contract_ref := pc_contract_ref c; ir_contract_revision := pc_revision c;
        ir_evaluator_only_reference_handles := pc_evaluator_only_reference_handles c;
        ir_entries := [worker; evaluator] |}.

Definition visibility_for (r : ProfessionalReferenceIsolationReceipt)
    (principal : ProfessionalIsolationPrincipal) : option ProfessionalPrincipalVisibility :=
  List.find (fun entry => pv_principal entry == principal) (ir_entries r).

(** ** State operations *)

Definition state_new (c : ProfessionalExecutionContract) : PR ProfessionalExecutionState :=
  check? contract_validate c;
  let? receipt := isolation_receipt c in
  Ok {| ps_contract := c; ps_reference_isolation_receipt := receipt;
        ps_completion_evidence := []; ps_attempts := []; ps_abandonment_signals := [];
        ps_approach_revisions := []; ps_controller_decisions := [] |}.

Definition worker_packet (s : ProfessionalExecutionState) : PR ProfessionalWorkerPacket :=
  materialize_worker_packet (ps_contract s).

(** The [while let] loop of [lineage_for], newest first. [fuel] bounds the
    rounds; [lineage_fuel_enough] below shows that one round per known
    attempt is enough for every state the operations build. *)
Fixpoint lineage_walk (fuel : nat) (attempts : list ProfessionalAttempt) (parent : option string)
    : list string :=
  match fuel, parent with
  | O, _ | _, None => []
  | S fuel', Some parent_ref =>
      match List.find (fun known => at_attempt_ref known == parent_ref) attempts with
      | None => []
      | Some known =>
          at_attempt_ref known :: lineage_walk fuel' attempts (at_parent_attempt_ref known)
      end
  end.

Definition lineage_for (attempts : list ProfessionalAttempt) (attempt : ProfessionalAttempt)
    : list string :=
  rev (lineage_walk (length attempts) attempts (at_parent_attempt_ref attempt))
  ++ [at_attempt_ref attempt].

(** Handles of the recorded attempts followed by those of [attempt]. *)
Definition known_handles (attempts : list ProfessionalAttempt) (attempt : ProfessionalAttempt)
    : gset string :=
  list_to_set (concat (at_partial_artifact_handles <$> attempts)
               ++ at_partial_artifact_handles attempt).

Definition knows_attempt (attempts : list ProfessionalAttempt) (r : string) : bool :=
  existsb (fun known => at_attempt_ref known == r) attempts.

Definition record_attempt (s : ProfessionalExecutionState) (task_id : TaskId) (fence : StateFence)
    (attempt : ProfessionalAttempt) (outcome : ProfessionalAttemptOutcome) (signal_ref : string)
    : PR (ProfessionalExecutionState * option PrematureAbandonmentSignal) :=
  check? required_text (at_attempt_ref attempt) "attempt_ref";
  check? required_text (at_reason attempt) "attempt_reason";
  check? required_text signal_ref "signal_ref";
  check? guard_err (knows_attempt (ps_attempts s) (at_attempt_ref attempt)) InvalidAttemptLineage;
  check? match at_parent_attempt_ref attempt with
         | Some p => guard_err (negb (knows_attempt (ps_attempts s) p)) InvalidAttemptLineage
         | None => guard_err (ps_attempts s != []) InvalidAttemptLineage
         end;
  check? for_each (fun h => required_text h "partial_artifact_handle")
           (at_partial_artifact_handles attempt);
  let unresolved := pc_requirements (ps_contract s) in
  let handles := btree_set_iter (known_handles (ps_attempts s) attempt) in
  let? signal :=
    match unresolved with
    | [] => Ok None
    | _ =>
        if existsb (fun known => sg_signal_ref known == signal_ref) (ps_abandonment_signals s)
        then Err (PInvalidField "signal_ref")
        else Ok (Some {|
          sg_signal_ref := signal_ref; sg_task_id := task_id;
          sg_contract_ref := pc_contract_ref (ps_contract s);
          sg_contract_revision := pc_revision (ps_contract s);
          sg_attempt_ref := at_attempt_ref attempt;
          sg_attempt_lineage := lineage_for (ps_attempts s) attempt;
          sg_unresolved_requirements := unresolved; sg_state_fence := fence;
          sg_partial_artifact_handles := handles; sg_reason := at_reason attempt;
          sg_outcome := outcome |})
    end in
  Ok ({| ps_contract := ps_contract s;
         ps_reference_isolation_receipt := ps_reference_isolation_receipt s;
         ps_completion_evidence := ps_completion_evidence s;
         ps_attempts := ps_attempts s ++ [attempt];
         ps_abandonment_signals := ps_abandonment_signals s ++ option_list signal;
         ps_approach_revisions := ps_approach_revisions s;
         ps_controller_decisions := ps_controller_decisions s |}, signal).

Definition current_revision (s : ProfessionalExecutionState) : Z :=
  match last (ps_approach_revisions s) with
  | Some previous => ar_revision previous
  | None => pc_revision (ps_contract s)
  end.

Definition push_revision (r : ProfessionalApproachRevision) (s : ProfessionalExecutionState)
    : ProfessionalExecutionState :=
  {| ps_contract := ps_contract s;
     ps_reference_isolation_receipt := ps_reference_isolation_receipt s;
     ps_completion_evidence := ps_completion_evidence s; ps_attempts := ps_attempts s;
     ps_abandonment_signals := ps_abandonment_signals s;
     ps_approach_revisions := ps_approach_revisions s ++ [r];
     ps_controller_decisions := ps_controller_decisions s |}.

Definition change_approach (s : ProfessionalExecutionState)
    (revision : ProfessionalApproachRevision) (task_id : TaskId) (fence : StateFence)
    (attempt : ProfessionalAttempt) (signal_ref : string)
    : PR (ProfessionalExecutionState * option PrematureAbandonmentSignal) :=
  check? required_text (ar_approach revision) "approach";
  check? required_text (ar_rationale revision) "rationale";
  check? required_text (ar_acceptance_impact revision) "acceptance_impact";
  check? guard_err ((checked_add (current_revision s) 1 != Some (ar_revision revision))
                    || negb (ar_previous_revision revision =? current_revision s))
           InvalidApproachRevision;
  check? guard_err ((list_to_set (ar_preserved_partial_artifact_handles revision) : gset string)
                    != known_handles (ps_attempts s) attempt)
           (PInvalidField "preserved_partial_artifact_handles");
  let? (s', signal) := record_attempt s task_id fence attempt ApproachChanged signal_ref in
  Ok (push_revision revision s', signal).

Definition decide_abandonment (s : ProfessionalExecutionState)
    (decision : ProfessionalAbandonmentDecision) : PR ProfessionalExecutionState :=
  let? signal := ok_or (List.find (fun g => sg_signal_ref g == ad_signal_ref decision)
                          (ps_abandonment_signals s)) SignalNotFound in
  check? guard_err
           ((ad_unresolved_requirement_refs decision
             != (rq_requirement_ref <$> sg_unresolved_requirements signal))
            || (ad_preserved_partial_artifact_handles decision
                != sg_partial_artifact_handles signal))
           (PInvalidField "preserved_boundary");
  check? match ad_disposition decision with
         | Reframe rationale | Supersede rationale => required_text rationale "rationale"
         | AcceptPartial acceptance_ref => required_text acceptance_ref "acceptance_ref"
         | RequestHumanInput question => required_text question "question"
         end;
  Ok {| ps_contract := ps_contract s;
        ps_reference_isolation_receipt := ps_reference_isolation_receipt s;
        ps_completion_evidence := ps_completion_evidence s; ps_attempts := ps_attempts s;
        ps_abandonment_signals := ps_abandonment_signals s;
        ps_approach_revisions := ps_approach_revisions s;
        ps_controller_decisions := ps_controller_decisions s ++ [decision] |}.

(** [is_ascii_digit() || (b'a'..=b'f').contains(&byte)] *)
Definition is_checksum_byte (b : Z) : bool :=
  is_ascii_digit b || ((97 <=? b) && (b <=? 102)).

Definition validate_entries (entries : list ProfessionalArtifactEntry) : PR (gset string) :=
  scan_distinct
    (fun e =>
       check? required_text (ae_deliverable_ref e) "deliverable_ref";
       check? required_text (ae_observed_presence_handle e) "observed_presence_handle";
       guard_err (negb (len (ae_checksum_sha256 e) =? 64)
                  || negb (forallb is_checksum_byte (bytes (ae_checksum_sha256 e))))
         (PInvalidField "artifact_entry"))
    ae_deliverable_ref (fun _ => PInvalidField "artifact_entry") ∅ entries.

Definition validate_evaluator_result (c : ProfessionalExecutionContract)
    (manifest : ProfessionalArtifactManifest) (result : ProfessionalEvaluatorResult) : PR unit :=
  check? required_text (er_manifest_ref result) "evaluator_manifest_ref";
  check? required_text (er_evaluator_owner_ref result) "evaluator_owner_ref";
  check? required_text (er_evaluator_ref result) "evaluator_ref";
  check? required_text (er_result_handle result) "evaluator_result_handle";
  guard_err ((er_manifest_ref result != am_manifest_ref manifest)
             || (er_contract_ref result != pc_contract_ref c)
             || negb (er_contract_revision result =? pc_revision c)
             || (er_evaluator_owner_ref result != ro_evaluator_owner (pc_owners c))
             || (er_evaluator_ref result != pc_artifact_evaluator c))
    (PInvalidField "evaluator_result_binding").

Definition validate_completion_evidence (c : ProfessionalExecutionContract)
    (evidence : ProfessionalCompletionEvidence) : PR unit :=
  let manifest := ce_artifact_manifest evidence in
  check? required_text (am_manifest_ref manifest) "manifest_ref";
  check? guard_err ((am_contract_ref manifest != pc_contract_ref c)
                    || negb (am_contract_revision manifest =? pc_revision c)
                    || (am_output_workspace manifest != pc_output_workspace c)
                    || (am_entries manifest == []))
           (PInvalidField "artifact_manifest");
  let? observed := validate_entries (am_entries manifest) in
  check? guard_err (observed != list_to_set (pc_expected_deliverable_manifest c))
           (PInvalidField "expected_deliverable_manifest");
  match ce_evaluator_result evidence with
  | Some result => validate_evaluator_result c manifest result
  | None => Ok tt
  end.

Definition require_evaluator_result (s : ProfessionalExecutionState) : PR unit :=
  if negb (existsb is_verifier_requirement (pc_requirements (ps_contract s))) then Ok tt
  else if existsb (fun evidence =>
            bool_decide (is_Some (ce_evaluator_result evidence))
            && is_ok (validate_completion_evidence (ps_contract s) evidence))
            (ps_completion_evidence s)
  then Ok tt
  else Err EvaluatorBoundaryUnresolved.

Definition record_completion_evidence (s : ProfessionalExecutionState)
    (evidence : ProfessionalCompletionEvidence) : PR ProfessionalExecutionState :=
  check? validate_completion_evidence (ps_contract s) evidence;
  Ok {| ps_contract := ps_contract s;
        ps_reference_isolation_receipt := ps_reference_isolation_receipt s;
        ps_completion_evidence := ps_completion_evidence s ++ [evidence];
        ps_attempts := ps_attempts s; ps_abandonment_signals := ps_abandonment_signals s;
        ps_approach_revisions := ps_approach_revisions s;
        ps_controller_decisions := ps_controller_decisions s |}.

Definition latest_attempt_stopped_with_signal (s : ProfessionalExecutionState) : bool :=
  match last (ps_attempts s) with
  | Some attempt =>
      existsb (fun signal => (sg_attempt_ref signal == at_attempt_ref attempt)
                             && (sg_outcome signal == Stopped)) (ps_abandonment_signals s)
  | None => false
  end.

(** ** Attempt lineage *)

(** References are distinct, the first attempt has no parent, and every
    later attempt names an earlier one. *)
Definition attempts_wf (l : list ProfessionalAttempt) : Prop :=
  NoDup (at_attempt_ref <$> l) /\
  forall i a, l !! i = Some a ->
    match at_parent_attempt_ref a with
    | None => i = 0%nat
    | Some p => exists j b, (j < i)%nat /\ l !! j = Some b /\ at_attempt_ref b = p
    end.

(** [is_lineage attempts path r]: [path] lists references from a root attempt
    down to [r], each attempt being a child of the one before it. *)
Inductive is_lineage (attempts : list ProfessionalAttempt) : list string -> string -> Prop :=
| lineage_root a :
    a ∈ attempts -> at_parent_attempt_ref a = None ->
    is_lineage attempts [at_attempt_ref a] (at_attempt_ref a)
| lineage_child path p a :
    is_lineage attempts path p -> a ∈ attempts -> at_parent_attempt_ref a = Some p ->
    is_lineage attempts (path ++ [at_attempt_ref a]) (at_attempt_ref a).

Section Lineage.
Lemma is_lineage_mono l l' path r : l ⊆ l' -> is_lineage l path r -> is_lineage l' path r.
Proof. intros Hl. induction 1; econstructor; eauto. Qed.

Lemma find_attempt l i a :
  NoDup (at_attempt_ref <$> l) -> l !! i = Some a ->
  List.find (fun known => at_attempt_ref known == at_attempt_ref a) l = Some a.
Proof.
  intros Hnd Ha. revert i Ha. induction l as [|b l IH]; intros i Ha; [done|].
  apply NoDup_cons in Hnd as [Hni Hnd]. destruct i as [|i]; simpl in *; simplify_eq.
  - by rewrite bool_decide_true.
  - rewrite bool_decide_false by (intros Heq; apply Hni; rewrite Heq;
      apply list_elem_of_fmap; exists a; split; [done|by eapply list_elem_of_lookup_2]).
    by eapply IH.
Qed.

Lemma knows_attempt_spec l r :
  knows_attempt l r = true <-> exists j b, l !! j = Some b /\ at_attempt_ref b = r.
Proof.
  unfold knows_attempt. rewrite existsb_exists. split.
  - intros (b & Hb & Heq). apply list_elem_of_In, list_elem_of_lookup in Hb as [j Hj].
    apply bool_decide_eq_true in Heq. eauto.
  - intros (j & b & Hj & <-). exists b. split; [|by apply bool_decide_eq_true].
    apply list_elem_of_In. by eapply list_elem_of_lookup_2.
Qed.

Lemma lineage_walk_known l i a fuel :
  attempts_wf l -> l !! i = Some a -> (i < fuel)%nat ->
  is_lineage l (rev (lineage_walk fuel l (Some (at_attempt_ref a)))) (at_attempt_ref a) /\
  lineage_walk fuel l (Some (at_attempt_ref a)) =
  lineage_walk (S i) l (Some (at_attempt_ref a)).
Proof.
  intros [Hnd Hp]. revert a fuel. induction (lt_wf i) as [i _ IH]. intros a fuel Ha Hf.
  destruct fuel as [|fuel]; [lia|]. simpl. rewrite (find_attempt l i a) by done.
  specialize (Hp i a Ha). destruct (at_parent_attempt_ref a) as [p|] eqn:Hpar.
  - destruct Hp as (j & b & Hj & Hb & <-). simpl.
    destruct (IH j ltac:(lia) b fuel Hb ltac:(lia)) as [Hl1 Hw1].
    destruct (IH j ltac:(lia) b i Hb ltac:(lia)) as [_ Hw2]. split; [|congruence].
    eapply lineage_child; [done| |done]. by eapply list_elem_of_lookup_2.
  - split; [|by destruct fuel, i]. destruct fuel; simpl;
      (apply lineage_root; [by eapply list_elem_of_lookup_2|done]).
Qed.

(** One round per known attempt is enough: more fuel changes nothing. *)
Lemma lineage_fuel_enough l parent fuel :
  attempts_wf l -> (length l <= fuel)%nat ->
  (forall p, parent = Some p -> knows_attempt l p = true) ->
  lineage_walk fuel l parent = lineage_walk (length l) l parent.
Proof.
  intros Hwf Hf Hk. destruct parent as [p|]; [|by destruct fuel, (length l)].
  destruct (proj1 (knows_attempt_spec _ _) (Hk p eq_refl)) as (j & b & Hj & <-).
  pose proof (lookup_lt_Some _ _ _ Hj).
  destruct (lineage_walk_known l j b fuel) as [_ ->]; [done..|lia|].
  by destruct (lineage_walk_known l j b (length l)) as [_ ->].
Qed.

Lemma lineage_for_path l a :
  attempts_wf (l ++ [a]) -> is_lineage (l ++ [a]) (lineage_for l a) (at_attempt_ref a).
Proof.
  intros [Hnd Hp]. unfold lineage_for.
  assert (Hwf : attempts_wf l).
  { rewrite fmap_app, NoDup_app in Hnd. split; [apply Hnd|]. intros i b Hb.
    specialize (Hp i b ltac:(by apply lookup_app_l_Some)). destruct (at_parent_attempt_ref b); [|done].
    destruct Hp as (j & c & Hj & Hc & ?). exists j, c. split_and!; [done| |done].
    rewrite lookup_app_l in Hc; [done|]. apply lookup_lt_Some in Hb. lia. }
  specialize (Hp (length l) a ltac:(by apply list_lookup_middle)).
  assert (Ha : a ∈ (l ++ [a])%list) by set_solver.
  destruct (at_parent_attempt_ref a) as [p|] eqn:Hpar.
  - destruct Hp as (j & b & Hj & Hb & <-). rewrite lookup_app_l in Hb by done.
    destruct (lineage_walk_known l j b (length l) Hwf Hb Hj) as [Hl _].
    eapply lineage_child; [|done|done]. eapply is_lineage_mono; [|done]. set_solver.
  - destruct l; [|done]. by apply lineage_root.
Qed.
End Lineage.

(** ** The state invariant *)

(** What an evidence admitted for contract [c] guarantees. *)
Definition evidence_complete (c : ProfessionalExecutionContract)
    (evidence : ProfessionalCompletionEvidence) : Prop :=
  let m := ce_artifact_manifest evidence in
  am_contract_ref m = pc_contract_ref c /\ am_contract_revision m = pc_revision c /\
  am_output_workspace m = pc_output_workspace c /\
  NoDup (ae_deliverable_ref <$> am_entries m) /\
  (forall d, d ∈ pc_expected_deliverable_manifest c <-> d ∈ ae_deliverable_ref <$> am_entries m) /\
  Forall (fun e => len (ae_checksum_sha256 e) = 64) (am_entries m).

Definition evaluator_bound (c : ProfessionalExecutionContract)
    (m : ProfessionalArtifactManifest) (r : ProfessionalEvaluatorResult) : Prop :=
  er_manifest_ref r = am_manifest_ref m /\ er_contract_ref r = pc_contract_ref c /\
  er_contract_revision r = pc_revision c /\
  er_evaluator_owner_ref r = ro_evaluator_owner (pc_owners c) /\
  er_evaluator_ref r = pc_artifact_evaluator c.

Record prof_wf (s : ProfessionalExecutionState) : Prop := {
  wf_contract : contract_validate (ps_contract s) = Ok tt;
  wf_receipt : isolation_receipt (ps_contract s) = Ok (ps_reference_isolation_receipt s);
  wf_attempts : attempts_wf (ps_attempts s);
  wf_signals : sg_attempt_ref <$> ps_abandonment_signals s = at_attempt_ref <$> ps_attempts s;
  wf_signal_refs : NoDup (sg_signal_ref <$> ps_abandonment_signals s);
  wf_lineage : Forall (fun g => is_lineage (ps_attempts s) (sg_attempt_lineage g) (sg_attempt_ref g))
                 (ps_abandonment_signals s);
  wf_evidence : Forall (fun e => validate_completion_evidence (ps_contract s) e = Ok tt)
                  (ps_completion_evidence s);
  wf_revisions : forall i r, ps_approach_revisions s !! i = Some r ->
    ar_revision r = pc_revision (ps_contract s) + Z.of_nat i + 1 /\
    ar_previous_revision r = pc_revision (ps_contract s) + Z.of_nat i;
}.

Section Invariant.
Implicit Types s : ProfessionalExecutionState.

Lemma validate_completion_evidence_ok c e :
  validate_completion_evidence c e = Ok tt ->
  evidence_complete c e /\
  (forall r, ce_evaluator_result e = Some r -> evaluator_bound c (ce_artifact_manifest e) r).
Proof.
  unfold validate_completion_evidence. intros H.
  apply rbind_ok in H as ([] & _ & H). apply rbind_ok in H as ([] & Hm & H).
  apply rbind_ok in H as (obs & Hobs & H). apply rbind_ok in H as ([] & Hexp & H).
  rewrite guard_err_ok in Hm, Hexp. bool_facts. apply scan_distinct_ok in Hobs as (Hf & Hnd & _ & ->).
  split.
  - unfold evidence_complete. rewrite Z.eqb_eq in *. split_and!; try done.
    + intros d. rewrite <- (elem_of_list_to_set (C:=gset string) _ (pc_expected_deliverable_manifest c)).
      rewrite <- Hexp, elem_of_union, elem_of_list_to_set. set_solver.
    + eapply Forall_impl; [exact Hf|]. intros x Hx. cbv beta in Hx.
      do 2 (apply rbind_ok in Hx as ([] & _ & Hx)). rewrite guard_err_ok in Hx. bool_facts. lia.
  - intros r Hr. rewrite Hr in H. unfold validate_evaluator_result in H. run. bool_facts.
    unfold evaluator_bound. rewrite Z.eqb_eq in *. done.
Qed.

Lemma contract_requirements_nonempty c : contract_validate c = Ok tt -> pc_requirements c <> [].
Proof.
  unfold contract_validate. intros H. apply rbind_ok in H as ([] & _ & H).
  apply rbind_ok in H as ([] & Hg & _). rewrite guard_err_ok in Hg. by bool_facts.
Qed.

Lemma contract_has_verifier c :
  contract_validate c = Ok tt -> existsb is_verifier_requirement (pc_requirements c) = true.
Proof.
  unfold contract_validate. intros H. do 3 (apply rbind_ok in H as ([] & _ & H)).
  apply rbind_ok in H as ([] & Hg & _). rewrite guard_err_ok in Hg. by bool_facts.
Qed.

Lemma require_evaluator_result_sound s :
  contract_validate (ps_contract s) = Ok tt -> require_evaluator_result s = Ok tt ->
  exists e r, e ∈ ps_completion_evidence s /\ ce_evaluator_result e = Some r /\
    evidence_complete (ps_contract s) e /\
    evaluator_bound (ps_contract s) (ce_artifact_manifest e) r.
Proof.
  unfold require_evaluator_result. intros Hc Hg. rewrite (contract_has_verifier _ Hc) in Hg.
  simpl in Hg. destruct (existsb _ _) eqn:Hex; [|done].
  apply existsb_exists in Hex as (e & He & Hv). bool_facts. destruct H as [r Hres].
  destruct (validate_completion_evidence (ps_contract s) e) as [[]|] eqn:Hval; [|done].
  apply validate_completion_evidence_ok in Hval as [Hcomp Hb]. exists e, r.
  split_and!; [by apply list_elem_of_In|done|done|by apply Hb].
Qed.

Lemma state_new_wf c s : state_new c = Ok s -> prof_wf s /\ ps_contract s = c.
Proof.
  unfold state_new. intros H. apply rbind_ok in H as ([] & Hc & H).
  apply rbind_ok in H as (r & Hr & [= <-]). split; [|done].
  split; simpl; try done; try constructor; try constructor.
  intros i a Ha. by rewrite lookup_nil in Ha.
Qed.

Lemma attempts_wf_snoc l a :
  attempts_wf l -> knows_attempt l (at_attempt_ref a) = false ->
  match at_parent_attempt_ref a with
  | Some p => knows_attempt l p = true
  | None => l = []
  end -> attempts_wf (l ++ [a]).
Proof.
  intros [Hnd Hp] Hnew Hpar. split.
  - rewrite fmap_app. apply NoDup_app. split_and!; [done| |apply NoDup_singleton].
    intros r Hr Hr'. apply list_elem_of_singleton in Hr' as ->.
    apply list_elem_of_fmap in Hr as (b & Hb & Hin). apply list_elem_of_lookup in Hin as [j Hj].
    apply not_true_iff_false in Hnew. apply Hnew, knows_attempt_spec. eauto.
  - intros i b Hb. apply lookup_app_Some in Hb as [Hb|[Hge Hb]].
    + specialize (Hp i b Hb). destruct (at_parent_attempt_ref b); [|done].
      destruct Hp as (j & c & Hj & Hc & ?). exists j, c. split_and!; [done| |done].
      by apply lookup_app_l_Some.
    + apply list_lookup_singleton_Some in Hb as [Hi <-].
      destruct (at_parent_attempt_ref a) as [p|].
      * apply knows_attempt_spec in Hpar as (j & c & Hj & Hc). exists j, c.
        split_and!; [apply lookup_lt_Some in Hj; lia|by apply lookup_app_l_Some|done].
      * subst l. simpl in *. lia.
Qed.

(** What a successful [record_attempt] does to a well-formed state. *)
Lemma record_attempt_ok s tid f a out sref s' sig :
  prof_wf s -> record_attempt s tid f a out sref = Ok (s', sig) ->
  exists g, sig = Some g /\ attempts_wf (ps_attempts s ++ [a]) /\
    sg_attempt_ref g = at_attempt_ref a /\ sg_outcome g = out /\ sg_signal_ref g = sref /\
    sg_attempt_lineage g = lineage_for (ps_attempts s) a /\
    sref ∉ sg_signal_ref <$> ps_abandonment_signals s /\
    s' = {| ps_contract := ps_contract s;
            ps_reference_isolation_receipt := ps_reference_isolation_receipt s;
            ps_completion_evidence := ps_completion_evidence s;
            ps_attempts := ps_attempts s ++ [a];
            ps_abandonment_signals := ps_abandonment_signals s ++ [g];
            ps_approach_revisions := ps_approach_revisions s;
            ps_controller_decisions := ps_controller_decisions s |}.
Proof.
  intros Hwf H. unfold record_attempt in H. do 3 (apply rbind_ok in H as ([] & _ & H)).
  apply rbind_ok in H as ([] & Hnew & H). rewrite guard_err_ok in Hnew.
  apply rbind_ok in H as ([] & Hpar & H). apply rbind_ok in H as ([] & _ & H).
  apply rbind_ok in H as (g & Hg & [= <- <-]).
  pose proof (contract_requirements_nonempty _ (wf_contract _ Hwf)) as Hne.
  destruct (pc_requirements (ps_contract s)) as [|rq rqs] eqn:Hreq; [done|].
  destruct (existsb _ _) eqn:Hdup; [done|]. simplify_eq. eexists. split_and!; try done.
  - apply attempts_wf_snoc; [apply Hwf|done|].
    destruct (at_parent_attempt_ref a); rewrite guard_err_ok in Hpar; by bool_facts.
  - simpl. intros Hin. apply list_elem_of_fmap in Hin as (k & Hk & Hin).
    rewrite existsb_false_iff, Forall_forall in Hdup. specialize (Hdup k Hin).
    apply bool_decide_eq_false in Hdup. by rewrite Hk in Hdup.
Qed.

Lemma record_attempt_wf s tid f a out sref s' sig :
  prof_wf s -> record_attempt s tid f a out sref = Ok (s', sig) -> prof_wf s'.
Proof.
  intros Hwf H. destruct (record_attempt_ok _ _ _ _ _ _ _ _ Hwf H)
    as (g & -> & Hatt & Hga & _ & Hgs & Hgl & Hni & ->).
  destruct Hwf as [Hc Hr Ha Hs Hsr Hl He Hv]. split; simpl; try done.
  - by rewrite !fmap_app, Hs; simpl; rewrite Hga.
  - rewrite fmap_app. apply NoDup_app. split_and!; [done| |apply NoDup_singleton].
    intros x Hx Hx'. simpl in Hx'. apply list_elem_of_singleton in Hx' as ->. by rewrite Hgs in Hx.
  - apply Forall_app. split.
    + eapply Forall_impl; [exact Hl|]. intros x Hx. eapply is_lineage_mono; [|exact Hx].
      set_solver.
    + apply Forall_singleton. rewrite Hgl, Hga. by apply lineage_for_path.
Qed.

Lemma change_approach_wf s r tid f a sref s' sig :
  prof_wf s -> change_approach s r tid f a sref = Ok (s', sig) -> prof_wf s'.
Proof.
  intros Hwf H. unfold change_approach in H. do 3 (apply rbind_ok in H as ([] & _ & H)).
  apply rbind_ok in H as ([] & Hrev & H). apply rbind_ok in H as ([] & _ & H).
  apply rbind_ok in H as ([s1 g] & H1 & [= <- <-]). rewrite guard_err_ok in Hrev. bool_facts.
  rewrite Z.eqb_eq, checked_add_some in *.
  pose proof (record_attempt_wf _ _ _ _ _ _ _ _ Hwf H1) as Hwf1.
  destruct (record_attempt_ok _ _ _ _ _ _ _ _ Hwf H1) as (g' & _ & _ & _ & _ & _ & _ & _ & ->).
  pose proof (wf_revisions _ Hwf) as Hold. destruct Hwf1 as [Hc Hr Ha Hs Hsr Hl He _].
  split; simpl in *; try done. intros i x Hx.
  apply lookup_app_Some in Hx as [Hx|[Hge Hx]]; [by apply Hold|].
  apply list_lookup_singleton_Some in Hx as [Hi <-]. unfold current_revision in *.
  rewrite last_lookup in *. destruct (ps_approach_revisions s) as [|y ys] eqn:Hys.
  - simpl in *. replace i with 0%nat by lia. lia.
  - destruct (lookup_lt_is_Some_2 (y :: ys) (Nat.pred (length (y :: ys)))) as [z Hz];
      [simpl; lia|]. rewrite Hz in *. destruct (Hold _ _ Hz) as [Hz1 _]. simpl in *. lia.
Qed.

Lemma decide_abandonment_wf s d s' :
  prof_wf s -> decide_abandonment s d = Ok s' -> prof_wf s'.
Proof.
  intros [Hc Hr Ha Hs Hsr Hl He Hv] H. unfold decide_abandonment in H.
  apply rbind_ok in H as (g & _ & H). do 2 (apply rbind_ok in H as ([] & _ & H)).
  simplify_eq. by split.
Qed.

Lemma record_completion_evidence_wf s e s' :
  prof_wf s -> record_completion_evidence s e = Ok s' -> prof_wf s'.
Proof.
  intros [Hc Hr Ha Hs Hsr Hl He Hv] H. unfold record_completion_evidence in H.
  apply rbind_ok in H as ([] & Hev & [= <-]). split; simpl; try done.
  apply Forall_app. by rewrite Forall_singleton.
Qed.
End Invariant.

#[export] Hint Resolve record_attempt_wf change_approach_wf decide_abandonment_wf
  record_completion_evidence_wf : eliot.

(** ** Reachable states *)

Inductive prof_reachable : ProfessionalExecutionState -> Prop :=
| prof_new c s : state_new c = Ok s -> prof_reachable s
| prof_attempt s tid f a out sref s' sig :
    prof_reachable s -> record_attempt s tid f a out sref = Ok (s', sig) -> prof_reachable s'
| prof_change s r tid f a sref s' sig :
    prof_reachable s -> change_approach s r tid f a sref = Ok (s', sig) -> prof_reachable s'
| prof_decide s d s' :
    prof_reachable s -> decide_abandonment s d = Ok s' -> prof_reachable s'
| prof_evidence s e s' :
    prof_reachable s -> record_completion_evidence s e = Ok s' -> prof_reachable s'.

Lemma prof_reachable_wf s : prof_reachable s -> prof_wf s.
Proof. induction 1; eauto with eliot. by eapply state_new_wf. Qed.

#[export] Hint Resolve prof_reachable_wf wf_contract : eliot.

(** ** The contract of the operations

    What each operation demands and what it makes of the state, as
    propositions on the data that share no check with the code, and the
    lemmas that the code decides them. *)

Lemma required_text_ok t f : required_text t f = Ok tt <-> plain_text t.
Proof.
  rewrite <- plain_text_check. unfold required_text. by destruct (_ || _).
Qed.

Definition distinct_texts (l : list string) : Prop := Forall plain_text l /\ NoDup l.

Definition inside_root (workspace root : string) : Prop :=
  workspace = trim_end_matches "/"%char root \/
  exists rest, workspace = (trim_end_matches "/"%char root ++ "/" ++ rest)%string.

Record contract_admitted (c : ProfessionalExecutionContract) : Prop := {
  ca_texts : Forall plain_text
    [pc_contract_ref c; ro_task_domain_owner (pc_owners c);
     ro_bridge_environment_owner (pc_owners c); ro_evaluator_owner (pc_owners c);
     pc_domain_method c; pc_target_software c; pc_target_version c; pc_output_workspace c;
     pc_reference_visibility c; pc_evaluator_isolation c; pc_environment_profile c;
     pc_professional_tool_route c; pc_artifact_evaluator c; pc_proof_ceiling c];
  ca_revision : pc_revision c <> 0;
  ca_owners : NoDup [ro_task_domain_owner (pc_owners c);
                     ro_bridge_environment_owner (pc_owners c); ro_evaluator_owner (pc_owners c)];
  ca_verifier : exists r, r ∈ pc_requirements c /\ rq_kind r = Verifier;
  ca_requirements :
    Forall (fun r => plain_text (rq_requirement_ref r) /\ plain_text (rq_description r))
      (pc_requirements c) /\ NoDup (rq_requirement_ref <$> pc_requirements c);
  ca_deliverables : pc_expected_deliverable_manifest c <> [] /\
    distinct_texts (pc_expected_deliverable_manifest c);
  ca_inputs : distinct_texts (pc_input_asset_handles c);
  ca_sources : distinct_texts (pc_source_reference_handles c);
  ca_roots : pc_allowed_write_roots c <> [] /\ distinct_texts (pc_allowed_write_roots c);
  ca_workspace : exists root, root ∈ pc_allowed_write_roots c /\
    inside_root (pc_output_workspace c) root;
  ca_hidden : distinct_texts (pc_evaluator_only_reference_handles c) /\
    pc_evaluator_only_reference_handles c ⊆ pc_source_reference_handles c;
}.

Lemma validate_handles_ok l sf itf : validate_handles l sf itf = Ok tt <-> distinct_texts l.
Proof.
  unfold validate_handles, distinct_texts.
  rewrite check_scan_distinct by (intros; apply required_text_ok).
  rewrite list_fmap_id. naive_solver.
Qed.

Lemma workspace_in_roots_ok w roots :
  workspace_in_roots w roots = true <-> exists root, root ∈ roots /\ inside_root w root.
Proof.
  unfold workspace_in_roots, inside_root. rewrite existsb_exists.
  apply exist_proper. intros root. rewrite list_elem_of_In. apply and_iff_compat_l.
  rewrite orb_true_iff, bool_decide_eq_true. apply or_iff_compat_l. split.
  - destruct (strip_prefix _ w) as [r|] eqn:Hr; [|done]. apply strip_prefix_some in Hr as ->.
    unfold starts_with. destruct (strip_prefix "/" r) as [r'|] eqn:Hr'; [|done].
    apply strip_prefix_some in Hr' as ->. by eexists.
  - intros [rest ->]. rewrite strip_prefix_app. unfold starts_with. by rewrite strip_prefix_app.
Qed.

Lemma existsb_verifier l :
  existsb is_verifier_requirement l = true <-> exists r, r ∈ l /\ rq_kind r = Verifier.
Proof.
  rewrite existsb_exists. apply exist_proper. intros r. rewrite list_elem_of_In.
  apply and_iff_compat_l. unfold is_verifier_requirement. apply bool_decide_eq_true.
Qed.

Lemma validate_handle_sets_ok c :
  validate_handle_sets c = Ok tt <->
  distinct_texts (pc_input_asset_handles c) /\ distinct_texts (pc_source_reference_handles c) /\
  (pc_allowed_write_roots c <> [] /\ distinct_texts (pc_allowed_write_roots c)) /\
  (exists root, root ∈ pc_allowed_write_roots c /\ inside_root (pc_output_workspace c) root) /\
  (distinct_texts (pc_evaluator_only_reference_handles c) /\
   pc_evaluator_only_reference_handles c ⊆ pc_source_reference_handles c).
Proof.
  unfold validate_handle_sets. rewrite !check_ok, !validate_handles_ok, !guard_err_ok.
  rewrite negb_false_iff, workspace_in_roots_ok, bool_decide_eq_false.
  rewrite (check_scan_distinct _ _ _ _
    (fun h => plain_text h /\ h ∈ pc_source_reference_handles c)).
  2: { intros h. by rewrite check_ok, required_text_ok, guard_err_ok, negb_false_iff,
         bool_decide_eq_true. }
  rewrite list_fmap_id, Forall_and. unfold distinct_texts.
  rewrite (Forall_forall (fun h => h ∈ _)). unfold subseteq, list_subseteq. naive_solver.
Qed.

Lemma contract_validate_iff c : contract_validate c = Ok tt <-> contract_admitted c.
Proof.
  unfold contract_validate. rewrite !check_ok, !guard_err_ok, for_each_ok, orb_false_iff.
  rewrite !negb_false_iff, size_list_to_set_distinct, existsb_verifier, Z.eqb_neq, !bool_decide_eq_false.
  rewrite (check_scan_distinct _ id _ _ plain_text) by (intros; apply required_text_ok).
  rewrite (check_scan_distinct _ rq_requirement_ref _ _
    (fun r => plain_text (rq_requirement_ref r) /\ plain_text (rq_description r)))
    by (intros; by rewrite check_ok, !required_text_ok).
  rewrite validate_handle_sets_ok, list_fmap_id. unfold required_fields, contract_owners.
  rewrite !Forall_cons, !Forall_nil, !required_text_ok. simpl. split.
  - intros H. split; rewrite ?Forall_cons, ?Forall_nil; unfold distinct_texts in *; tauto.
  - intros [H1 H2 H3 H4 H5 [H6 H7] H8 H9 H10 H11 H12].
    rewrite !Forall_cons in H1. unfold distinct_texts in *. split_and!; try tauto.
    destruct H4 as (r & Hr & _). intros He. rewrite He in Hr. by apply not_elem_of_nil in Hr.
Qed.

Record evidence_admitted (c : ProfessionalExecutionContract)
    (e : ProfessionalCompletionEvidence) : Prop := {
  ea_manifest : plain_text (am_manifest_ref (ce_artifact_manifest e)) /\
    am_contract_ref (ce_artifact_manifest e) = pc_contract_ref c /\
    am_contract_revision (ce_artifact_manifest e) = pc_revision c /\
    am_output_workspace (ce_artifact_manifest e) = pc_output_workspace c;
  ea_entries : am_entries (ce_artifact_manifest e) <> [] /\
    Forall (fun x => plain_text (ae_deliverable_ref x) /\
                     plain_text (ae_observed_presence_handle x) /\
                     hex_digest (ae_checksum_sha256 x)) (am_entries (ce_artifact_manifest e));
  ea_deliverables : NoDup (ae_deliverable_ref <$> am_entries (ce_artifact_manifest e)) /\
    forall d, d ∈ ae_deliverable_ref <$> am_entries (ce_artifact_manifest e) <->
              d ∈ pc_expected_deliverable_manifest c;
  ea_result : forall r, ce_evaluator_result e = Some r ->
    Forall plain_text [er_manifest_ref r; er_evaluator_owner_ref r; er_evaluator_ref r;
                       er_result_handle r] /\
    evaluator_bound c (ce_artifact_manifest e) r;
}.

Lemma entry_check_ok x :
  (check? required_text (ae_deliverable_ref x) "deliverable_ref";
   check? required_text (ae_observed_presence_handle x) "observed_presence_handle";
   guard_err (negb (len (ae_checksum_sha256 x) =? 64)
              || negb (forallb is_checksum_byte (bytes (ae_checksum_sha256 x))))
     (PInvalidField "artifact_entry")) = Ok tt <->
  plain_text (ae_deliverable_ref x) /\ plain_text (ae_observed_presence_handle x) /\
  hex_digest (ae_checksum_sha256 x).
Proof.
  rewrite !check_ok, !required_text_ok, guard_err_ok, hex_digest_check; [done|].
  intros b. unfold is_checksum_byte, is_ascii_digit. lia.
Qed.

Lemma validate_evaluator_result_ok c m r :
  validate_evaluator_result c m r = Ok tt <->
  Forall plain_text [er_manifest_ref r; er_evaluator_owner_ref r; er_evaluator_ref r;
                     er_result_handle r] /\ evaluator_bound c m r.
Proof.
  unfold validate_evaluator_result, evaluator_bound.
  rewrite !check_ok, !required_text_ok, guard_err_ok, !orb_false_iff, !negb_false_iff, Z.eqb_eq.
  rewrite !bool_decide_eq_true, !Forall_cons, Forall_nil. tauto.
Qed.

Lemma validate_completion_evidence_iff c e :
  validate_completion_evidence c e = Ok tt <-> evidence_admitted c e.
Proof.
  unfold validate_completion_evidence, validate_entries.
  rewrite !check_ok, required_text_ok, guard_err_ok, rbind_ok, !orb_false_iff, !negb_false_iff.
  rewrite !bool_decide_eq_true, Z.eqb_eq, bool_decide_eq_false.
  setoid_rewrite scan_distinct_ok. setoid_rewrite entry_check_ok.
  setoid_rewrite check_ok. setoid_rewrite guard_err_ok. setoid_rewrite negb_false_iff.
  setoid_rewrite bool_decide_eq_true.
  assert (Hres : match ce_evaluator_result e with
      | Some r => validate_evaluator_result c (ce_artifact_manifest e) r
      | None => Ok tt
      end = Ok tt <->
      forall r, ce_evaluator_result e = Some r ->
        Forall plain_text [er_manifest_ref r; er_evaluator_owner_ref r; er_evaluator_ref r;
                           er_result_handle r] /\
        evaluator_bound c (ce_artifact_manifest e) r).
  { setoid_rewrite <- validate_evaluator_result_ok. destruct (ce_evaluator_result e); naive_solver. }
  setoid_rewrite Hres. clear Hres. split.
  - intros (H1 & (((H2 & H3) & H4) & H5) & seen & (H6 & H7 & _ & ->) & H8 & H9).
    split; [done..| |done]. split; [done|]. intros d.
    assert (d ∈ (list_to_set (ae_deliverable_ref <$> am_entries (ce_artifact_manifest e)) ∪ ∅ : gset string)
      <-> d ∈ (list_to_set (pc_expected_deliverable_manifest c) : gset string)) as Hd by (by rewrite H8).
    set_solver.
  - intros [(H1 & H2 & H3 & H4) [H5 H6] [H7 H8] H9]. split_and!; try done.
    eexists. split_and!; [done|done|set_solver|done|set_solver|done].
Qed.

(** What recording attempt [a] makes of state [s]. *)
Record attempt_recorded (s : ProfessionalExecutionState) (k : TaskId) (f : StateFence)
    (a : ProfessionalAttempt) (outcome : ProfessionalAttemptOutcome) (signal_ref : string)
    (s' : ProfessionalExecutionState) : Prop := {
  rec_texts : Forall plain_text ([at_attempt_ref a; at_reason a; signal_ref]
                                 ++ at_partial_artifact_handles a);
  rec_fresh : at_attempt_ref a ∉ at_attempt_ref <$> ps_attempts s;
  rec_parent :
    match at_parent_attempt_ref a with
    | Some p => p ∈ at_attempt_ref <$> ps_attempts s
    | None => ps_attempts s = []
    end;
  rec_signal : signal_ref ∉ sg_signal_ref <$> ps_abandonment_signals s;
  rec_state : exists lineage,
    is_lineage (ps_attempts s ++ [a]) lineage (at_attempt_ref a) /\
    s' = {| ps_contract := ps_contract s;
            ps_reference_isolation_receipt := ps_reference_isolation_receipt s;
            ps_completion_evidence := ps_completion_evidence s;
            ps_attempts := ps_attempts s ++ [a];
            ps_abandonment_signals := ps_abandonment_signals s ++
              [{| sg_signal_ref := signal_ref; sg_task_id := k;
                  sg_contract_ref := pc_contract_ref (ps_contract s);
                  sg_contract_revision := pc_revision (ps_contract s);
                  sg_attempt_ref := at_attempt_ref a; sg_attempt_lineage := lineage;
                  sg_unresolved_requirements := pc_requirements (ps_contract s);
                  sg_state_fence := f;
                  sg_partial_artifact_handles := btree_set_iter (list_to_set
                    (concat (at_partial_artifact_handles <$> (ps_attempts s ++ [a])%list)));
                  sg_reason := at_reason a; sg_outcome := outcome |}];
            ps_approach_revisions := ps_approach_revisions s;
            ps_controller_decisions := ps_controller_decisions s |};
}.

Lemma known_handles_all l a :
  known_handles l a = list_to_set (concat (at_partial_artifact_handles <$> (l ++ [a])%list)).
Proof. unfold known_handles. by rewrite fmap_app, concat_app; simpl; rewrite app_nil_r. Qed.

Lemma knows_attempt_iff l r : knows_attempt l r = true <-> r ∈ at_attempt_ref <$> l.
Proof.
  rewrite knows_attempt_spec, list_elem_of_fmap. split.
  - intros (j & b & Hb & <-). exists b. split; [done|by eapply list_elem_of_lookup_2].
  - intros (b & -> & [j Hj]%list_elem_of_lookup). eauto.
Qed.

Lemma record_attempt_checks s a signal_ref :
  (check? required_text (at_attempt_ref a) "attempt_ref";
   check? required_text (at_reason a) "attempt_reason";
   check? required_text signal_ref "signal_ref";
   check? guard_err (knows_attempt (ps_attempts s) (at_attempt_ref a)) InvalidAttemptLineage;
   check? match at_parent_attempt_ref a with
          | Some p => guard_err (negb (knows_attempt (ps_attempts s) p)) InvalidAttemptLineage
          | None => guard_err (ps_attempts s != []) InvalidAttemptLineage
          end;
   for_each (fun h => required_text h "partial_artifact_handle")
     (at_partial_artifact_handles a)) = Ok tt <->
  Forall plain_text ([at_attempt_ref a; at_reason a; signal_ref]
                     ++ at_partial_artifact_handles a) /\
  at_attempt_ref a ∉ at_attempt_ref <$> ps_attempts s /\
  match at_parent_attempt_ref a with
  | Some p => p ∈ at_attempt_ref <$> ps_attempts s
  | None => ps_attempts s = []
  end.
Proof.
  rewrite !check_ok, !required_text_ok, guard_err_ok, for_each_ok, Forall_app, !Forall_cons, Forall_nil.
  setoid_rewrite required_text_ok. rewrite <- knows_attempt_iff, not_true_iff_false.
  destruct (at_parent_attempt_ref a) as [p|]; rewrite guard_err_ok, negb_false_iff;
    [rewrite knows_attempt_iff|rewrite bool_decide_eq_true]; tauto.
Qed.

Lemma signal_refs_fresh (l : list PrematureAbandonmentSignal) r :
  existsb (fun known => sg_signal_ref known == r) l = false <-> r ∉ sg_signal_ref <$> l.
Proof.
  rewrite existsb_false_iff, Forall_forall. rewrite list_elem_of_fmap.
  setoid_rewrite bool_decide_eq_false. naive_solver.
Qed.

Lemma record_attempt_sound s k f a outcome signal_ref s' sig :
  prof_wf s -> record_attempt s k f a outcome signal_ref = Ok (s', sig) ->
  attempt_recorded s k f a outcome signal_ref s'.
Proof.
  intros Hwf H.
  destruct (record_attempt_ok _ _ _ _ _ _ _ _ Hwf H) as (_ & _ & Hatt & _ & _ & _ & _ & Hni & _).
  unfold record_attempt in H. rewrite known_handles_all in H.
  do 3 (apply check_ok in H as [? H]). apply check_ok in H as [Hnew H].
  apply check_ok in H as [Hpar H]. apply check_ok in H as [Hh H].
  destruct (proj1 (record_attempt_checks s a signal_ref)) as (Ht & Hfr & Hp);
    [by rewrite !check_ok|].
  apply rbind_ok in H as (g & Hg & [= <- <-]).
  pose proof (contract_requirements_nonempty _ (wf_contract _ Hwf)) as Hne.
  destruct (pc_requirements (ps_contract s)) as [|rq rqs] eqn:Hreq; [done|]. rewrite <- Hreq in *.
  destruct (existsb _ _) eqn:Hdup; [done|]. injection Hg as <-.
  split; [done..|]. exists (lineage_for (ps_attempts s) a).
  split; [by apply lineage_for_path|done].
Qed.

Lemma record_attempt_complete s k f a outcome signal_ref s' :
  attempt_recorded s k f a outcome signal_ref s' ->
  exists s1 sig, record_attempt s k f a outcome signal_ref = Ok (s1, sig).
Proof.
  intros [H1 H2 H3 H4 _]. unfold record_attempt.
  pose proof (proj2 (record_attempt_checks s a signal_ref) (conj H1 (conj H2 H3))) as Hc.
  rewrite !check_ok in Hc. destruct Hc as (-> & -> & -> & -> & -> & ->). simpl.
  apply signal_refs_fresh in H4. rewrite H4.
  destruct (pc_requirements (ps_contract s)); simpl; eauto.
Qed.

Record approach_changed (s : ProfessionalExecutionState) (k : TaskId) (f : StateFence)
    (r : ProfessionalApproachRevision) (a : ProfessionalAttempt) (signal_ref : string)
    (s' : ProfessionalExecutionState) : Prop := {
  chg_texts : Forall plain_text [ar_approach r; ar_rationale r; ar_acceptance_impact r];
  chg_revision :
    ar_previous_revision r = pc_revision (ps_contract s) + Z.of_nat (length (ps_approach_revisions s)) /\
    ar_revision r = ar_previous_revision r + 1 /\ ar_revision r <= u64_max;
  chg_handles : forall h, h ∈ ar_preserved_partial_artifact_handles r <->
    exists b, b ∈ (ps_attempts s ++ [a])%list /\ h ∈ at_partial_artifact_handles b;
  chg_state : exists s1, attempt_recorded s k f a ApproachChanged signal_ref s1 /\
    s' = {| ps_contract := ps_contract s1;
            ps_reference_isolation_receipt := ps_reference_isolation_receipt s1;
            ps_completion_evidence := ps_completion_evidence s1;
            ps_attempts := ps_attempts s1; ps_abandonment_signals := ps_abandonment_signals s1;
            ps_approach_revisions := ps_approach_revisions s1 ++ [r];
            ps_controller_decisions := ps_controller_decisions s1 |};
}.

Lemma current_revision_counts s :
  prof_wf s ->
  current_revision s = pc_revision (ps_contract s) + Z.of_nat (length (ps_approach_revisions s)).
Proof.
  intros Hwf. unfold current_revision. rewrite last_lookup.
  destruct (ps_approach_revisions s) as [|y ys] eqn:Hys; [simpl; lia|].
  destruct (lookup_lt_is_Some_2 (y :: ys) (Nat.pred (length (y :: ys)))) as [z Hz]; [simpl; lia|].
  rewrite Hz. rewrite <- Hys in Hz. apply (wf_revisions _ Hwf) in Hz as [Hz _].
  rewrite Hz, Hys. simpl. lia.
Qed.

Lemma preserved_handles_ok l l' a :
  (list_to_set l : gset string) = known_handles l' a <->
  forall h, h ∈ l <-> exists b, b ∈ (l' ++ [a])%list /\ h ∈ at_partial_artifact_handles b.
Proof.
  rewrite known_handles_all.
  assert (Hc : forall h, h ∈ concat (at_partial_artifact_handles <$> (l' ++ [a])%list) <->
    exists b, b ∈ (l' ++ [a])%list /\ h ∈ at_partial_artifact_handles b).
  { intros h. rewrite list_elem_of_In, in_concat. setoid_rewrite <- list_elem_of_In.
    setoid_rewrite list_elem_of_fmap. naive_solver. }
  setoid_rewrite <- Hc. split.
  - intros He h. rewrite <- !(elem_of_list_to_set (C := gset string)). by rewrite He.
  - intros He. apply set_eq. intros h. by rewrite !elem_of_list_to_set.
Qed.

Lemma change_approach_checks s r a :
  prof_wf s ->
  (check? required_text (ar_approach r) "approach";
   check? required_text (ar_rationale r) "rationale";
   check? required_text (ar_acceptance_impact r) "acceptance_impact";
   check? guard_err ((checked_add (current_revision s) 1 != Some (ar_revision r))
                     || negb (ar_previous_revision r =? current_revision s))
            InvalidApproachRevision;
   guard_err ((list_to_set (ar_preserved_partial_artifact_handles r) : gset string)
              != known_handles (ps_attempts s) a)
     (PInvalidField "preserved_partial_artifact_handles")) = Ok tt <->
  Forall plain_text [ar_approach r; ar_rationale r; ar_acceptance_impact r] /\
  (ar_previous_revision r = pc_revision (ps_contract s) + Z.of_nat (length (ps_approach_revisions s)) /\
   ar_revision r = ar_previous_revision r + 1 /\ ar_revision r <= u64_max) /\
  (forall h, h ∈ ar_preserved_partial_artifact_handles r <->
    exists b, b ∈ (ps_attempts s ++ [a])%list /\ h ∈ at_partial_artifact_handles b).
Proof.
  intros Hwf. rewrite !check_ok, !required_text_ok, !guard_err_ok, orb_false_iff, !negb_false_iff.
  rewrite !bool_decide_eq_true, Z.eqb_eq, checked_add_some, current_revision_counts by done.
  rewrite preserved_handles_ok, !Forall_cons, Forall_nil.
  set (n := pc_revision _ + _). clearbody n. intuition lia.
Qed.

Lemma change_approach_sound s r k f a signal_ref s' sig :
  prof_wf s -> change_approach s r k f a signal_ref = Ok (s', sig) ->
  approach_changed s k f r a signal_ref s'.
Proof.
  intros Hwf H. unfold change_approach in H. do 5 (apply check_ok in H as [? H]).
  apply rbind_ok in H as ([s1 g] & Hrec & [= <- <-]).
  destruct (proj1 (change_approach_checks s r a Hwf)) as (Ht & Hr & Hh); [by rewrite !check_ok|].
  split; [done..|]. exists s1. split; [by eapply record_attempt_sound|done].
Qed.

Lemma change_approach_complete s r k f a signal_ref s' :
  prof_wf s -> approach_changed s k f r a signal_ref s' ->
  exists s1 sig, change_approach s r k f a signal_ref = Ok (s1, sig).
Proof.
  intros Hwf [H1 H2 H3 (s1 & Hs1 & _)]. unfold change_approach.
  pose proof (proj2 (change_approach_checks s r a Hwf) (conj H1 (conj H2 H3))) as Hc.
  rewrite !check_ok in Hc. destruct Hc as (-> & -> & -> & -> & ->). simpl.
  apply record_attempt_complete in Hs1 as (x & g & ->). simpl. eauto.
Qed.

Definition disposition_text (d : TaskControllerDisposition) : string :=
  match d with
  | Reframe t | Supersede t | AcceptPartial t | RequestHumanInput t => t
  end.

Record abandonment_decided (s : ProfessionalExecutionState)
    (d : ProfessionalAbandonmentDecision) (s' : ProfessionalExecutionState) : Prop := {
  dec_text : plain_text (disposition_text (ad_disposition d));
  dec_signal : exists g, g ∈ ps_abandonment_signals s /\ sg_signal_ref g = ad_signal_ref d /\
    ad_unresolved_requirement_refs d = rq_requirement_ref <$> sg_unresolved_requirements g /\
    ad_preserved_partial_artifact_handles d = sg_partial_artifact_handles g;
  dec_state :
    s' = {| ps_contract := ps_contract s;
            ps_reference_isolation_receipt := ps_reference_isolation_receipt s;
            ps_completion_evidence := ps_completion_evidence s; ps_attempts := ps_attempts s;
            ps_abandonment_signals := ps_abandonment_signals s;
            ps_approach_revisions := ps_approach_revisions s;
            ps_controller_decisions := ps_controller_decisions s ++ [d] |};
}.

Lemma find_signal (l : list PrematureAbandonmentSignal) r g :
  NoDup (sg_signal_ref <$> l) ->
  List.find (fun g => sg_signal_ref g == r) l = Some g <-> g ∈ l /\ sg_signal_ref g = r.
Proof.
  induction l as [|x l IH]; simpl; intros Hnd; [set_solver|].
  apply NoDup_cons in Hnd as [Hni Hnd]. rewrite elem_of_cons. case_bool_decide as Hx.
  - split; [intros [= ->]; auto|]. intros [[->|Hg] Hr]; [done|]. exfalso. apply Hni.
    apply list_elem_of_fmap. exists g. split; [congruence|done].
  - rewrite IH by done. naive_solver.
Qed.

Lemma decide_abandonment_iff s d s' :
  prof_wf s -> decide_abandonment s d = Ok s' <-> abandonment_decided s d s'.
Proof.
  intros Hwf. unfold decide_abandonment. rewrite rbind_ok.
  setoid_rewrite check_ok. setoid_rewrite check_ok. setoid_rewrite guard_err_ok.
  setoid_rewrite orb_false_iff. setoid_rewrite negb_false_iff. setoid_rewrite bool_decide_eq_true.
  assert (Ht : match ad_disposition d with
         | Reframe rationale | Supersede rationale => required_text rationale "rationale"
         | AcceptPartial acceptance_ref => required_text acceptance_ref "acceptance_ref"
         | RequestHumanInput question => required_text question "question"
         end = Ok tt <-> plain_text (disposition_text (ad_disposition d)))
    by (destruct (ad_disposition d); apply required_text_ok).
  setoid_rewrite Ht. clear Ht.
  assert (Hf : forall g, ok_or (List.find (fun g => sg_signal_ref g == ad_signal_ref d)
      (ps_abandonment_signals s)) SignalNotFound = Ok g <->
      g ∈ ps_abandonment_signals s /\ sg_signal_ref g = ad_signal_ref d).
  { intros g. rewrite <- find_signal by apply Hwf. destruct (List.find _ _); simpl; naive_solver. }
  setoid_rewrite Hf. split.
  - intros (g & [? ?] & [? ?] & ? & [= <-]). split; [done|eauto|done].
  - intros [Ht (g & ? & ? & ? & ?) ->]. by exists g.
Qed.

Lemma record_completion_evidence_iff s e s' :
  record_completion_evidence s e = Ok s' <->
  evidence_admitted (ps_contract s) e /\
  s' = {| ps_contract := ps_contract s;
          ps_reference_isolation_receipt := ps_reference_isolation_receipt s;
          ps_completion_evidence := ps_completion_evidence s ++ [e];
          ps_attempts := ps_attempts s; ps_abandonment_signals := ps_abandonment_signals s;
          ps_approach_revisions := ps_approach_revisions s;
          ps_controller_decisions := ps_controller_decisions s |}.
Proof.
  unfold record_completion_evidence. rewrite check_ok, validate_completion_evidence_iff.
  naive_solver.
Qed.

(** The state a contract starts with: the worker sees every input asset and
    the references not reserved for the evaluator, the evaluator sees all. *)
Definition contract_started (c : ProfessionalExecutionContract) (s : ProfessionalExecutionState)
    : Prop :=
  exists visible,
  (forall h, h ∈ visible <-> h ∈ pc_source_reference_handles c /\
                             h ∉ pc_evaluator_only_reference_handles c) /\
  visible `sublist_of` pc_source_reference_handles c /\
  let route := {| rt_tool_route := pc_professional_tool_route c;
                  rt_environment_profile := pc_environment_profile c |} in
  s = {| ps_contract := c;
         ps_reference_isolation_receipt :=
           {| ir_contract_ref := pc_contract_ref c; ir_contract_revision := pc_revision c;
              ir_evaluator_only_reference_handles := pc_evaluator_only_reference_handles c;
              ir_entries :=
                [{| pv_principal := Worker; pv_route := route;
                    pv_visible_asset_handles := pc_input_asset_handles c;
                    pv_visible_reference_handles := visible |};
                 {| pv_principal := Evaluator; pv_route := route;
                    pv_visible_asset_handles := pc_input_asset_handles c;
                    pv_visible_reference_handles := pc_source_reference_handles c |}] |};
         ps_completion_evidence := []; ps_attempts := []; ps_abandonment_signals := [];
         ps_approach_revisions := []; ps_controller_decisions := [] |}.

Lemma worker_visible_elem c h :
  h ∈ worker_visible_reference_handles c <->
  h ∈ pc_source_reference_handles c /\ h ∉ pc_evaluator_only_reference_handles c.
Proof.
  unfold worker_visible_reference_handles, is_evaluator_only_reference.
  rewrite list_elem_of_In, filter_In, negb_true_iff, <- list_elem_of_In, existsb_false_iff.
  rewrite Forall_forall. setoid_rewrite bool_decide_eq_false. naive_solver.
Qed.

Lemma state_new_sound c s : state_new c = Ok s -> contract_admitted c /\ contract_started c s.
Proof.
  unfold state_new, isolation_receipt. rewrite check_ok, rbind_ok, contract_validate_iff.
  intros (Hc & r & Hr & [= <-]). split; [done|].
  rewrite (proj2 (contract_validate_iff c) Hc) in Hr. injection Hr as <-.
  exists (worker_visible_reference_handles c).
  split_and!; [apply worker_visible_elem|apply filter_sublist|done].
Qed.

Lemma state_new_complete c : contract_admitted c -> exists s, state_new c = Ok s.
Proof.
  intros Hc%contract_validate_iff. unfold state_new, isolation_receipt. rewrite Hc. by eexists.
Qed.

Lemma require_evaluator_result_iff s :
  prof_wf s ->
  require_evaluator_result s = Ok tt <->
  exists e r, e ∈ ps_completion_evidence s /\ ce_evaluator_result e = Some r.
Proof.
  intros Hwf. unfold require_evaluator_result.
  rewrite (contract_has_verifier _ (wf_contract _ Hwf)). simpl.
  assert (Hv : existsb (fun e => bool_decide (is_Some (ce_evaluator_result e))
      && is_ok (validate_completion_evidence (ps_contract s) e)) (ps_completion_evidence s) = true <->
    exists e r, e ∈ ps_completion_evidence s /\ ce_evaluator_result e = Some r).
  { rewrite existsb_exists. split.
    - intros (e & He & Hb). bool_facts. destruct H as [r Hr]. exists e, r.
      by rewrite list_elem_of_In.
    - intros (e & r & He & Hr). exists e. rewrite <- list_elem_of_In. split; [done|].
      rewrite Hr. pose proof (wf_evidence _ Hwf) as Hall. rewrite Forall_forall in Hall.
      by rewrite (Hall e He). }
  rewrite <- Hv. by destruct (existsb _ _).
Qed.

Lemma latest_attempt_stopped_iff s :
  latest_attempt_stopped_with_signal s = true <->
  exists a g, last (ps_attempts s) = Some a /\ g ∈ ps_abandonment_signals s /\
    sg_attempt_ref g = at_attempt_ref a /\ sg_outcome g = Stopped.
Proof.
  unfold latest_attempt_stopped_with_signal. destruct (last (ps_attempts s)) as [a|]; [|naive_solver].
  rewrite existsb_exists. setoid_rewrite andb_true_iff. setoid_rewrite bool_decide_eq_true.
  setoid_rewrite <- list_elem_of_In. naive_solver.
Qed.

(** ** A sample contract, for the witnesses *)

Section Sample.
Definition sample_digest : string :=
  "0123456789abcdef0123456789abcdef0123456789abcdef0123456789abcdef".

Definition sample_contract (assets hidden : list string) : ProfessionalExecutionContract :=
  {| pc_contract_ref := "contract"; pc_revision := 4;
     pc_owners := {| ro_task_domain_owner := "domain"; ro_bridge_environment_owner := "bridge";
                     ro_evaluator_owner := "evaluator" |};
     pc_domain_method := "method"; pc_target_software := "software";
     pc_target_version := "1"; pc_input_asset_handles := assets;
     pc_source_reference_handles := ["ref-open"; "ref-hidden"];
     pc_output_workspace := "/work/out"; pc_allowed_write_roots := ["/work/"];
     pc_expected_deliverable_manifest := ["report"]; pc_allowed_substitutions := [];
     pc_forbidden_shortcuts := []; pc_reference_visibility := "declared";
     pc_evaluator_isolation := "separate"; pc_evaluator_only_reference_handles := hidden;
     pc_environment_profile := "profile"; pc_professional_tool_route := "route";
     pc_artifact_evaluator := "checker";
     pc_requirements := [{| rq_requirement_ref := "verified"; rq_kind := Verifier;
                            rq_description := "checked by the evaluator" |}];
     pc_proof_ceiling := "ceiling"; pc_checkpoint_conditions := [];
     pc_abandonment_conditions := []; pc_rollback_conditions := [];
     pc_delivery_conditions := [] |}.

Definition sample_evidence (outcome : ProfessionalEvaluationOutcome)
    : ProfessionalCompletionEvidence :=
  {| ce_artifact_manifest :=
       {| am_manifest_ref := "manifest"; am_contract_ref := "contract";
          am_contract_revision := 4; am_output_workspace := "/work/out";
          am_entries := [{| ae_deliverable_ref := "report";
                            ae_observed_presence_handle := "seen";
                            ae_checksum_sha256 := sample_digest |}] |};
     ce_evaluator_result := Some
       {| er_manifest_ref := "manifest"; er_contract_ref := "contract";
          er_contract_revision := 4; er_evaluator_owner_ref := "evaluator";
          er_evaluator_ref := "checker"; er_result_handle := "result";
          er_outcome := outcome |} |}.

Definition sample_attempt (r : string) (parent : option string) : ProfessionalAttempt :=
  {| at_attempt_ref := r; at_parent_attempt_ref := parent;
     at_partial_artifact_handles := ["partial-" ++ r]; at_reason := "ran out of time" |}.

Definition sample_prof_fence : StateFence :=
  StateFence_new {| lineage_id := {| lineage_text := "00000000-0000-0000-0000-00000000000a" |};
                    sequence := 7 |} 3.

(** A contract with two chained attempts and one piece of evidence. *)
Definition sample_state (outcome : ProfessionalEvaluationOutcome)
    : PR ProfessionalExecutionState :=
  let? s0 := state_new (sample_contract ["asset"] ["ref-hidden"]) in
  let? (s1, _) := record_attempt s0 "task" sample_prof_fence (sample_attempt "a" None) Stopped "g1" in
  let? (s2, _) := record_attempt s1 "task" sample_prof_fence (sample_attempt "b" (Some "a"))
                    ReportedSuccess "g2" in
  record_completion_evidence s2 (sample_evidence outcome).

Lemma sample_state_reachable outcome s : sample_state outcome = Ok s -> prof_reachable s.
Proof.
  unfold sample_state. intros H. apply rbind_ok in H as (s0 & H0 & H).
  apply rbind_ok in H as ([s1 g1] & H1 & H). apply rbind_ok in H as ([s2 g2] & H2 & H).
  eapply prof_evidence; [|exact H]. eapply prof_attempt; [|exact H2].
  eapply prof_attempt; [|exact H1]. by eapply prof_new.
Qed.
End Sample.

(** ** Theorems *)

(** Every professional state the operations build keeps its contract
    valid and its isolation receipt exact, has distinct attempts whose parents
    are earlier attempts, one abandonment signal per attempt carrying that
    attempt's lineage, only evidence that satisfies the contract, and
    approach revisions numbered consecutively from the contract revision. *)
Theorem professional_state_invariant (s : ProfessionalExecutionState) (Hr : prof_reachable s) :
  prof_wf s.
Proof. by apply prof_reachable_wf. Qed.

Lemma professional_state_invariant_witness :
  exists s, sample_state Accepted = Ok s /\ prof_wf s /\ length (ps_attempts s) = 2%nat.
Proof.
  eexists. split_and!; [vm_compute; reflexivity| |reflexivity].
  apply professional_state_invariant. apply (sample_state_reachable Accepted).
  vm_compute. reflexivity.
Defined.

(** The lineage walk terminates: on the attempts of any reachable state
    the loop follows known parents from any attempt the state would accept,
    ends within one round per recorded attempt (more rounds change nothing),
    and yields the path from the root attempt down to the new one. *)
Theorem lineage_walk_terminates (s s' : ProfessionalExecutionState) (tid : TaskId)
    (f : StateFence) (a : ProfessionalAttempt) (out : ProfessionalAttemptOutcome) (sref : string)
    (sig : option PrematureAbandonmentSignal) (Hr : prof_reachable s)
    (Ha : record_attempt s tid f a out sref = Ok (s', sig)) :
  is_lineage (ps_attempts s') (lineage_for (ps_attempts s) a) (at_attempt_ref a) /\
  forall fuel, (length (ps_attempts s) <= fuel)%nat ->
    (rev (lineage_walk fuel (ps_attempts s) (at_parent_attempt_ref a)) ++ [at_attempt_ref a])%list =
    lineage_for (ps_attempts s) a.
Proof.
  pose proof (prof_reachable_wf s Hr) as Hwf.
  destruct (record_attempt_ok _ _ _ _ _ _ _ _ Hwf Ha) as (g & _ & Hatt & _ & _ & _ & _ & _ & ->).
  split; [by apply lineage_for_path|]. intros fuel Hf. unfold lineage_for.
  rewrite (lineage_fuel_enough _ _ fuel); [done|apply Hwf|done|].
  intros p Hp. destruct Hatt as [_ Hpar].
  specialize (Hpar (length (ps_attempts s)) a ltac:(by apply list_lookup_middle)).
  rewrite Hp in Hpar. destruct Hpar as (j & b & Hj & Hb & Heq).
  rewrite lookup_app_l in Hb by done. apply knows_attempt_spec. eauto.
Qed.

Lemma lineage_walk_terminates_witness :
  exists s s' sig, sample_state Accepted = Ok s /\
    record_attempt s "task" sample_prof_fence (sample_attempt "c" (Some "b")) Stopped "g3"
      = Ok (s', sig) /\
    is_lineage (ps_attempts s') ["a"; "b"; "c"] "c".
Proof.
  destruct (sample_state Accepted) as [s|] eqn:E; [|vm_compute in E; discriminate].
  destruct (record_attempt s "task" sample_prof_fence (sample_attempt "c" (Some "b")) Stopped "g3")
    as [[s' sig]|] eqn:E2; [|vm_compute in E; injection E as <-; vm_compute in E2; discriminate].
  exists s, s', sig. split_and!; [done|done|].
  pose proof (proj1 (lineage_walk_terminates s s' "task" sample_prof_fence
    (sample_attempt "c" (Some "b")) Stopped "g3" sig (sample_state_reachable Accepted s E) E2)) as H.
  vm_compute in E. injection E as <-. exact H.
Defined.

(** Reference isolation: a worker packet is only produced for a valid
    contract, its reference handles are exactly the declared source references
    that are not evaluator-only, in declaration order, and they are what the
    isolation receipt records for the worker. *)
Theorem worker_packet_isolates_references (c : ProfessionalExecutionContract)
    (p : ProfessionalWorkerPacket) (Hp : materialize_worker_packet c = Ok p) :
  wp_reference_handles p = filter (fun h => h ∉ pc_evaluator_only_reference_handles c)
                             (pc_source_reference_handles c) /\
  exists receipt v, isolation_receipt c = Ok receipt /\ visibility_for receipt Worker = Some v /\
    pv_visible_reference_handles v = wp_reference_handles p.
Proof.
  unfold materialize_worker_packet in Hp. apply rbind_ok in Hp as ([] & Hc & [= <-]). simpl.
  split.
  - unfold worker_visible_reference_handles.
    induction (pc_source_reference_handles c) as [|h l IH]; simpl; [done|].
    assert (Hh : is_evaluator_only_reference c h = true <->
                 h ∈ pc_evaluator_only_reference_handles c).
    { unfold is_evaluator_only_reference. rewrite existsb_exists. split.
      - intros (x & Hx & Heq%bool_decide_eq_true). subst. by apply list_elem_of_In.
      - intros Hin. exists h. rewrite list_elem_of_In in Hin. by rewrite bool_decide_true. }
    rewrite filter_cons. destruct (is_evaluator_only_reference c h); simpl.
    + rewrite decide_False by (intros Hn; apply Hn; tauto). exact IH.
    + rewrite decide_True by (intros Hn; apply Hh in Hn; done). by rewrite IH.
  - unfold isolation_receipt. rewrite Hc. do 2 eexists. by split_and!.
Qed.

Lemma worker_packet_isolates_references_witness :
  exists p, materialize_worker_packet (sample_contract ["asset"] ["ref-hidden"]) = Ok p /\
    wp_reference_handles p = ["ref-open"].
Proof.
  eexists. split; [vm_compute; reflexivity|].
  rewrite (proj1 (worker_packet_isolates_references (sample_contract ["asset"] ["ref-hidden"]) _
                    ltac:(vm_compute; reflexivity))).
  vm_compute. reflexivity.
Defined.

(** The isolation covers the reference set only: a valid contract may
    list an evaluator-only handle among its input assets, and the packet then
    hands that very handle to the worker. *)
Theorem worker_packet_assets_can_carry_hidden_handle :
  exists c p h, contract_validate c = Ok tt /\ materialize_worker_packet c = Ok p /\
    h ∈ pc_evaluator_only_reference_handles c /\ h ∈ wp_asset_handles p.
Proof.
  exists (sample_contract ["ref-hidden"] ["ref-hidden"]). eexists. exists "ref-hidden".
  split_and!; [vm_compute; reflexivity|vm_compute; reflexivity|left|left].
Qed.

(** The completion gate: it opens on a reachable state only if some
    recorded evidence lists every expected deliverable exactly once, with a
    64-byte checksum, in the declared workspace of this contract revision, and
    carries a result of the contract's own evaluator for that manifest. *)
Theorem completion_gate_sound (s : ProfessionalExecutionState) (Hr : prof_reachable s)
    (Hg : require_evaluator_result s = Ok tt) :
  exists e r, e ∈ ps_completion_evidence s /\ ce_evaluator_result e = Some r /\
    evidence_complete (ps_contract s) e /\
    evaluator_bound (ps_contract s) (ce_artifact_manifest e) r.
Proof. apply require_evaluator_result_sound; eauto with eliot. Qed.

Lemma completion_gate_sound_witness :
  exists s e r, sample_state Accepted = Ok s /\ e ∈ ps_completion_evidence s /\
    ce_evaluator_result e = Some r /\ evidence_complete (ps_contract s) e /\
    evaluator_bound (ps_contract s) (ce_artifact_manifest e) r.
Proof.
  destruct (sample_state Accepted) as [s|] eqn:E; [|vm_compute in E; discriminate].
  destruct (completion_gate_sound s (sample_state_reachable Accepted s E)) as (e & r & ? & ? & ? & ?).
  - vm_compute in E. injection E as <-. vm_compute. reflexivity.
  - exists s, e, r. split_and!; [reflexivity|assumption..].
Defined.

(** The gate does not read the evaluator's verdict: it also opens when
    the only evidence is a rejection. *)
Theorem completion_gate_ignores_verdict :
  exists s, prof_reachable s /\ require_evaluator_result s = Ok tt /\
    Forall (fun e => exists r, ce_evaluator_result e = Some r /\ er_outcome r = Rejected)
      (ps_completion_evidence s).
Proof.
  destruct (sample_state Rejected) as [s|] eqn:E; [|vm_compute in E; discriminate].
  exists s. split; [by apply (sample_state_reachable Rejected)|].
  vm_compute in E. injection E as <-. split; [vm_compute; reflexivity|].
  simpl. apply Forall_singleton. by eexists.
Qed.
