(* ===== verification/Task.v ===== *)
(** * Task lifecycle owner

    The in-memory authority for task state transitions
    (crates/governor/eliot-task/src/lib.rs): proposals, guarded commands, the
    professional-execution sub-state carried with a task, the idempotency
    index and recovery from a snapshot. *)

From Stdlib Require Import String.
From S2P Require Import Prelude RustText Contracts CausalLog Professional.

#[local] Open Scope string_scope.
#[local] Open Scope Z_scope.

(** ** Data *)

Inductive TaskState : Type :=
| Proposed
| Open
| Framed
| UnderstandingRequired
| ActionAuthorized
| Executing
| Verifying
| DoneVerified
| Blocked
| Failed
| Partial.

#[global] Instance TaskState_eq_dec : EqDecision TaskState.
Proof. solve_decision. Defined.

Definition is_terminal (s : TaskState) : bool :=
  match s with
  | DoneVerified | Blocked | Failed | Partial => true
  | _ => false
  end.

Definition is_active (s : TaskState) : bool := negb (is_terminal s).

Inductive TaskError : Type :=
| InvalidField (field : string)
| DuplicateTask (id : TaskId)
| TaskNotFound (id : TaskId)
| IdempotencyConflict (key : string)
| RevisionMismatch (expected current : Z)
| FenceMismatch
| EpochMismatch
| IllegalTransition (from to : TaskState)
| MissingEvidence (field : string)
| CausalSequenceMismatch
| ProfessionalExecution (e : ProfessionalExecutionError).

#[global] Instance TaskError_eq_dec : EqDecision TaskError.
Proof. solve_decision. Defined.

Inductive TaskCommand : Type :=
| COpen
| CFrame (frame_ref : string)
| CRequireUnderstanding
| CAuthorizeAction (authority_ref understanding_ref : string)
| CBeginExecution
| CBeginVerification
| CVerify (verification_ref : string)
| CBlock (reason_ref : string)
| CFail (reason_ref : string)
| CMarkPartial (result_ref : string)
| CReopen (reopen_ref : string)
| CSetProfessionalExecutionContract (contract : ProfessionalExecutionContract)
| CReportProfessionalAttempt (attempt : ProfessionalAttempt)
    (outcome : ProfessionalAttemptOutcome) (signal_ref : string)
| CChangeProfessionalApproach (revision : ProfessionalApproachRevision)
    (attempt : ProfessionalAttempt) (signal_ref : string)
| CDecideProfessionalAbandonment (decision : ProfessionalAbandonmentDecision)
| CRecordProfessionalCompletionEvidence (evidence : ProfessionalCompletionEvidence).

#[global] Instance TaskCommand_eq_dec : EqDecision TaskCommand.
Proof. solve_decision. Defined.

Record TaskCommandContext : Type := {
  cx_request_id : string;
  cx_event_id : string;
  cx_actor_ref : string;
  cx_state_fence : StateFence;
  cx_authority_epoch : EpochId;
  cx_observed_at : ClockReading;
}.

Record TaskProposal : Type := {
  tp_task_id : TaskId;
  tp_project_ref : string;
  tp_goal : string;
  tp_context : TaskCommandContext;
}.

Record TaskLifecycleEvent : Type := {
  ev_sequence : Z;
  ev_event_id : string;
  ev_request_id : string;
  ev_task_id : TaskId;
  ev_actor_ref : string;
  ev_from : option TaskState;
  ev_to : TaskState;
  ev_command : option TaskCommand;
  ev_professional_execution : option ProfessionalExecutionState;
  ev_state_fence : StateFence;
  ev_authority_epoch : EpochId;
  ev_observed_at : ClockReading;
}.

#[global] Instance TaskLifecycleEvent_eq_dec : EqDecision TaskLifecycleEvent.
Proof. solve_decision. Defined.

Record TaskRecord : Type := {
  tr_task_id : TaskId;
  tr_project_ref : string;
  tr_goal : string;
  tr_state : TaskState;
  tr_revision : Z;
  tr_last_sequence : Z;
  tr_last_event_id : string;
  tr_state_fence : StateFence;
}.

#[global] Instance TaskRecord_eq_dec : EqDecision TaskRecord.
Proof. solve_decision. Defined.

Abbreviation ProfMap := (gmap TaskId ProfessionalExecutionState).
Abbreviation RequestEntry := (TaskId * option TaskCommand * TaskLifecycleEvent)%type.

Record TaskLifecycleSnapshot : Type := {
  snap_next_sequence : Z;
  snap_tasks : gmap TaskId TaskRecord;
  snap_events : list TaskLifecycleEvent;
  snap_professional_execution : ProfMap;
}.

Record TaskLifecycleOwner : Type := {
  ow_authority_epoch : EpochId;
  ow_state_fence : StateFence;
  ow_next_sequence : Z;
  ow_tasks : gmap TaskId TaskRecord;
  ow_events : list TaskLifecycleEvent;
  ow_professional_execution : ProfMap;
  ow_requests : gmap string RequestEntry;
}.

Definition set_tasks (m : gmap TaskId TaskRecord) (o : TaskLifecycleOwner) :=
  {| ow_authority_epoch := ow_authority_epoch o; ow_state_fence := ow_state_fence o;
     ow_next_sequence := ow_next_sequence o; ow_tasks := m; ow_events := ow_events o;
     ow_professional_execution := ow_professional_execution o; ow_requests := ow_requests o |}.

Definition set_professional (m : ProfMap) (o : TaskLifecycleOwner) :=
  {| ow_authority_epoch := ow_authority_epoch o; ow_state_fence := ow_state_fence o;
     ow_next_sequence := ow_next_sequence o; ow_tasks := ow_tasks o; ow_events := ow_events o;
     ow_professional_execution := m; ow_requests := ow_requests o |}.

Definition set_requests (m : gmap string RequestEntry) (o : TaskLifecycleOwner) :=
  {| ow_authority_epoch := ow_authority_epoch o; ow_state_fence := ow_state_fence o;
     ow_next_sequence := ow_next_sequence o; ow_tasks := ow_tasks o; ow_events := ow_events o;
     ow_professional_execution := ow_professional_execution o; ow_requests := m |}.

(** ** Commands *)

Definition text (value field : string) : result TaskError unit :=
  if is_blank value || has_control value then Err (InvalidField field) else Ok tt.

Definition target (c : TaskCommand) (current : TaskState) : TaskState :=
  match c with
  | COpen | CReopen _ => Open
  | CFrame _ => Framed
  | CRequireUnderstanding => UnderstandingRequired
  | CAuthorizeAction _ _ => ActionAuthorized
  | CBeginExecution => Executing
  | CBeginVerification => Verifying
  | CVerify _ => DoneVerified
  | CBlock _ => Blocked
  | CFail _ => Failed
  | CMarkPartial _ | CReportProfessionalAttempt _ Stopped _ => Partial
  | CDecideProfessionalAbandonment d =>
      match ad_disposition d with
      | AcceptPartial _ => Partial
      | _ => current
      end
  | CSetProfessionalExecutionContract _ | CReportProfessionalAttempt _ _ _
  | CChangeProfessionalApproach _ _ _ | CRecordProfessionalCompletionEvidence _ => current
  end.

Definition attempt_text (attempt : ProfessionalAttempt) (signal_ref : string)
    : result TaskError unit :=
  check? text (at_attempt_ref attempt) "attempt_ref";
  check? text (at_reason attempt) "attempt_reason";
  text signal_ref "signal_ref".

Definition command_validate (c : TaskCommand) : result TaskError unit :=
  match c with
  | CFrame frame_ref => text frame_ref "frame_ref"
  | CAuthorizeAction authority_ref understanding_ref =>
      check? text authority_ref "authority_ref"; text understanding_ref "understanding_ref"
  | CVerify verification_ref => text verification_ref "verification_ref"
  | CBlock reason_ref | CFail reason_ref => text reason_ref "reason_ref"
  | CMarkPartial result_ref => text result_ref "result_ref"
  | CReopen reopen_ref => text reopen_ref "reopen_ref"
  | CSetProfessionalExecutionContract contract =>
      map_err ProfessionalExecution (contract_validate contract)
  | CReportProfessionalAttempt attempt outcome signal_ref =>
      check? guard_err (outcome == ApproachChanged) (InvalidField "approach_revision_required");
      attempt_text attempt signal_ref
  | CChangeProfessionalApproach _ attempt signal_ref => attempt_text attempt signal_ref
  | CDecideProfessionalAbandonment decision =>
      match ad_disposition decision with
      | Reframe rationale | Supersede rationale => text rationale "rationale"
      | AcceptPartial acceptance_ref => text acceptance_ref "acceptance_ref"
      | RequestHumanInput question => text question "question"
      end
  | CRecordProfessionalCompletionEvidence evidence =>
      text (am_manifest_ref (ce_artifact_manifest evidence)) "manifest_ref"
  | COpen | CRequireUnderstanding | CBeginExecution | CBeginVerification => Ok tt
  end.

Definition allowed (from : TaskState) (c : TaskCommand) : bool :=
  match c with
  | COpen => from == Proposed
  | CFrame _ => from == Open
  | CRequireUnderstanding => from == Framed
  | CAuthorizeAction _ _ => from == UnderstandingRequired
  | CBeginExecution => from == ActionAuthorized
  | CBeginVerification => from == Executing
  | CVerify _ | CRecordProfessionalCompletionEvidence _ => from == Verifying
  | CBlock _ | CFail _ | CMarkPartial _ => is_active from
  | CReopen _ => is_terminal from
  | CSetProfessionalExecutionContract _ => is_active from
  | CReportProfessionalAttempt _ _ _ | CChangeProfessionalApproach _ _ _ =>
      (from == Executing) || (from == Verifying)
  | CDecideProfessionalAbandonment _ => from != DoneVerified
  end.

Definition context_validate (cx : TaskCommandContext) : result TaskError unit :=
  check? text (cx_request_id cx) "request_id";
  check? text (cx_event_id cx) "event_id";
  check? text (cx_actor_ref cx) "actor_ref";
  map_err (fun _ => FenceMismatch) (StateFence_validate (cx_state_fence cx)).

Definition check_context (o : TaskLifecycleOwner) (cx : TaskCommandContext)
    : result TaskError unit :=
  if negb (is_same_authority (cx_authority_epoch cx) (ow_authority_epoch o)) then Err EpochMismatch
  else if negb (is_compatible_with (ow_state_fence o) (cx_state_fence cx)) then Err FenceMismatch
  else Ok tt.

(** Update of the professional state of one task by a command. *)
Definition apply_professional_command (prof : ProfMap) (task_id : TaskId)
    (cx : TaskCommandContext) (c : TaskCommand) : result TaskError ProfMap :=
  let known := ok_or (prof !! task_id) (ProfessionalExecution ContractNotFound) in
  match c with
  | CSetProfessionalExecutionContract contract =>
      if bool_decide (is_Some (prof !! task_id))
      then Err (ProfessionalExecution ContractAlreadyExists)
      else let? s := map_err ProfessionalExecution (state_new contract) in
           Ok (<[task_id := s]> prof)
  | CReportProfessionalAttempt attempt outcome signal_ref =>
      let? s := known in
      let? (s', _) := map_err ProfessionalExecution
        (record_attempt s task_id (cx_state_fence cx) attempt outcome signal_ref) in
      Ok (<[task_id := s']> prof)
  | CChangeProfessionalApproach revision attempt signal_ref =>
      let? s := known in
      let? (s', _) := map_err ProfessionalExecution
        (change_approach s revision task_id (cx_state_fence cx) attempt signal_ref) in
      Ok (<[task_id := s']> prof)
  | CDecideProfessionalAbandonment decision =>
      let? s := known in
      let? s' := map_err ProfessionalExecution (decide_abandonment s decision) in
      Ok (<[task_id := s']> prof)
  | CRecordProfessionalCompletionEvidence evidence =>
      let? s := known in
      let? s' := map_err ProfessionalExecution (record_completion_evidence s evidence) in
      Ok (<[task_id := s']> prof)
  | _ => Ok prof
  end.

(** ** Construction and recovery *)

Definition owner_new (epoch : EpochId) (fence : StateFence) : result TaskError TaskLifecycleOwner :=
  check? map_err (fun _ => FenceMismatch) (StateFence_validate fence);
  if negb (is_same_authority epoch (authority_epoch fence)) then Err EpochMismatch
  else Ok {| ow_authority_epoch := epoch; ow_state_fence := fence; ow_next_sequence := 1;
             ow_tasks := ∅; ow_events := []; ow_professional_execution := ∅;
             ow_requests := ∅ |}.

Definition out_of_order (events : list TaskLifecycleEvent) : bool :=
  existsb (fun ie => negb (ev_sequence ie.2 =? wrap_u64 (Z.of_nat ie.1 + 1)))
    (zip (seq 0 (length events)) events).

Abbreviation EvidenceMap := (gmap TaskId (list ProfessionalCompletionEvidence)).

(** One round of the evidence-history loop over the recovered events. *)
Definition history_step (recorded : EvidenceMap) (event : TaskLifecycleEvent)
    : result TaskError EvidenceMap :=
  let bad := InvalidField "professional_completion_history" in
  let? recorded' :=
    match ev_command event with
    | Some (CRecordProfessionalCompletionEvidence evidence) =>
        let? state := ok_or (ev_professional_execution event) bad in
        let? checked := map_err ProfessionalExecution (state_new (ps_contract state)) in
        check? map_err ProfessionalExecution (record_completion_evidence checked evidence);
        Ok (<[ev_task_id event :=
                (default [] (recorded !! ev_task_id event) ++ [evidence])%list]> recorded)
    | _ => Ok recorded
    end in
  match ev_professional_execution event with
  | Some state =>
      if ps_completion_evidence state != default [] (recorded' !! ev_task_id event)
      then Err bad else Ok recorded'
  | None => Ok recorded'
  end.

Definition replay_professional (prof : ProfMap) (event : TaskLifecycleEvent) : ProfMap :=
  match ev_professional_execution event with
  | Some state => <[ev_task_id event := state]> prof
  | None => prof
  end.

Definition index_request (requests : gmap string RequestEntry) (event : TaskLifecycleEvent)
    : gmap string RequestEntry :=
  match ev_command event with
  | Some command =>
      <[ev_request_id event := (ev_task_id event, Some command, event)]> requests
  | None => requests
  end.

Definition record_recoverable (fence : StateFence) (r : TaskRecord) : bool :=
  negb ((tr_revision r =? 0) || (tr_last_sequence r =? 0) || (tr_state_fence r != fence)).

Definition from_snapshot (epoch : EpochId) (fence : StateFence) (snap : TaskLifecycleSnapshot)
    : result TaskError TaskLifecycleOwner :=
  let? owner := owner_new epoch fence in
  if (snap_next_sequence snap =? 0)
     || negb (snap_next_sequence snap =? wrap_u64 (usize_of_len (snap_events snap) + 1))
     || out_of_order (snap_events snap)
  then Err CausalSequenceMismatch
  else
    check? for_each (fun r =>
             if record_recoverable (ow_state_fence owner) r then Ok tt else Err FenceMismatch)
             (btree_values (snap_tasks snap));
    let tasks := insert_all tr_task_id id (btree_values (snap_tasks snap)) ∅ in
    check? guard_err (existsb (fun ks => negb (bool_decide (is_Some (tasks !! ks.1))))
                        (btree_iter (snap_professional_execution snap)))
             (InvalidField "professional_execution_task");
    let? recorded := fold_res history_step ∅ (snap_events snap) in
    check? for_each (fun ts =>
             if (ps_completion_evidence ts.2 != [])
                && (recorded !! ts.1 != Some (ps_completion_evidence ts.2))
             then Err (InvalidField "professional_completion_history") else Ok tt)
             (btree_iter (snap_professional_execution snap));
    Ok {| ow_authority_epoch := ow_authority_epoch owner;
          ow_state_fence := ow_state_fence owner;
          ow_next_sequence := snap_next_sequence snap; ow_tasks := tasks;
          ow_events := snap_events snap;
          ow_professional_execution :=
            fold_left replay_professional (snap_events snap) (snap_professional_execution snap);
          ow_requests := fold_left index_request (snap_events snap) ∅ |}.

Definition snapshot (o : TaskLifecycleOwner) : TaskLifecycleSnapshot :=
  {| snap_next_sequence := ow_next_sequence o; snap_tasks := ow_tasks o;
     snap_events := ow_events o; snap_professional_execution := ow_professional_execution o |}.

(** ** Operations *)

Abbreviation TM := (M TaskLifecycleOwner TaskError).

Definition emit (cx : TaskCommandContext) (task_id : TaskId) (from : option TaskState)
    (to : TaskState) (command : option TaskCommand)
    (prof : option ProfessionalExecutionState) : TM TaskLifecycleEvent :=
  fun o =>
    let event := {| ev_sequence := ow_next_sequence o; ev_event_id := cx_event_id cx;
                    ev_request_id := cx_request_id cx; ev_task_id := task_id;
                    ev_actor_ref := cx_actor_ref cx; ev_from := from; ev_to := to;
                    ev_command := command; ev_professional_execution := prof;
                    ev_state_fence := cx_state_fence cx;
                    ev_authority_epoch := cx_authority_epoch cx;
                    ev_observed_at := cx_observed_at cx |} in
    ({| ow_authority_epoch := ow_authority_epoch o; ow_state_fence := ow_state_fence o;
        ow_next_sequence := wrap_u64 (ow_next_sequence o + 1); ow_tasks := ow_tasks o;
        ow_events := ow_events o ++ [event];
        ow_professional_execution := ow_professional_execution o;
        ow_requests := ow_requests o |}, Ok event).

Definition remember (key : string) (entry : RequestEntry) : TM unit :=
  mmodify (fun o => set_requests (<[key := entry]> (ow_requests o)) o).

Definition propose (p : TaskProposal) : TM TaskLifecycleEvent :=
  let cx := tp_context p in
  let! o := mstate in
  do! mlift (context_validate cx);
  do! mlift (check_context o cx);
  do! mlift (text (tp_project_ref p) "project_ref");
  do! mlift (text (tp_goal p) "goal");
  match ow_requests o !! cx_request_id cx with
  | Some (known_task, known_command, event) =>
      if (known_task == tp_task_id p) && (known_command == None) then mret_ok event
      else mthrow (IdempotencyConflict (cx_request_id cx))
  | None =>
      if bool_decide (is_Some (ow_tasks o !! tp_task_id p))
      then mthrow (DuplicateTask (tp_task_id p))
      else
        let! event := emit cx (tp_task_id p) None Proposed None None in
        do! mmodify (fun o => set_tasks (<[tp_task_id p :=
              {| tr_task_id := tp_task_id p; tr_project_ref := tp_project_ref p;
                 tr_goal := tp_goal p; tr_state := Proposed; tr_revision := 1;
                 tr_last_sequence := ev_sequence event; tr_last_event_id := ev_event_id event;
                 tr_state_fence := ow_state_fence o |}]> (ow_tasks o)) o);
        do! remember (cx_request_id cx) (tp_task_id p, None, event);
        mret_ok event
  end.

(** What a professional contract on the task adds to the plain lifecycle:
    verification needs a bound evaluator result, blocking or failing needs a
    recorded stop, and a partial result needs a controller decision. *)
Definition professional_gates (prof : option ProfessionalExecutionState) (c : TaskCommand)
    : result TaskError unit :=
  check? match c, prof with
         | CVerify _, Some s => map_err ProfessionalExecution (require_evaluator_result s)
         | _, _ => Ok tt
         end;
  check? match c, prof with
         | (CBlock _ | CFail _), Some s =>
             guard_err (negb (latest_attempt_stopped_with_signal s))
               (MissingEvidence "premature_abandonment_signal")
         | _, _ => Ok tt
         end;
  match c, prof with
  | CMarkPartial _, Some _ => Err (MissingEvidence "task_controller_partial_disposition")
  | _, _ => Ok tt
  end.

(** The gates between finding the task and moving it. *)
Definition gates (o : TaskLifecycleOwner) (task_id : TaskId) (cx : TaskCommandContext)
    (c : TaskCommand) (cur : TaskRecord) : result TaskError unit :=
  let expected := default (tr_revision cur) (task_revision (cx_state_fence cx)) in
  check? guard_err (negb (expected =? tr_revision cur))
           (RevisionMismatch expected (tr_revision cur));
  check? professional_gates (ow_professional_execution o !! task_id) c;
  guard_err (negb (allowed (tr_state cur) c))
    (IllegalTransition (tr_state cur) (target c (tr_state cur))).

Definition move_record (to : TaskState) (event : TaskLifecycleEvent) (r : TaskRecord) : TaskRecord :=
  {| tr_task_id := tr_task_id r; tr_project_ref := tr_project_ref r; tr_goal := tr_goal r;
     tr_state := to; tr_revision := wrap_u64 (tr_revision r + 1);
     tr_last_sequence := ev_sequence event; tr_last_event_id := ev_event_id event;
     tr_state_fence := tr_state_fence r |}.

Definition apply (task_id : TaskId) (cx : TaskCommandContext) (command : TaskCommand)
    : TM TaskLifecycleEvent :=
  let! o := mstate in
  do! mlift (context_validate cx);
  do! mlift (command_validate command);
  do! mlift (check_context o cx);
  match ow_requests o !! cx_request_id cx with
  | Some (known_task, known_command, event) =>
      if (known_task == task_id) && (known_command == Some command) then mret_ok event
      else mthrow (IdempotencyConflict (cx_request_id cx))
  | None =>
      let! cur := mlift (ok_or (ow_tasks o !! task_id) (TaskNotFound task_id)) in
      do! mlift (gates o task_id cx command cur);
      let to := target command (tr_state cur) in
      let! prof := mlift (apply_professional_command (ow_professional_execution o)
                            task_id cx command) in
      let! event := emit cx task_id (Some (tr_state cur)) to (Some command) (prof !! task_id) in
      do! mmodify (set_professional prof);
      let! o' := mstate in
      let! r := mlift (ok_or (ow_tasks o' !! task_id) (TaskNotFound task_id)) in
      do! mmodify (fun o => set_tasks (<[task_id := move_record to event r]> (ow_tasks o)) o);
      do! remember (cx_request_id cx) (task_id, Some command, event);
      mret_ok event
  end.

(** ** One call of the owner *)

Inductive Call : Type :=
| CallPropose (p : TaskProposal)
| CallApply (task_id : TaskId) (cx : TaskCommandContext) (command : TaskCommand).

Definition call (c : Call) : TM TaskLifecycleEvent :=
  match c with
  | CallPropose p => propose p
  | CallApply task_id cx command => apply task_id cx command
  end.

Definition call_context (c : Call) : TaskCommandContext :=
  match c with
  | CallPropose p => tp_context p
  | CallApply _ cx _ => cx
  end.

Definition call_request_id (c : Call) : string := cx_request_id (call_context c).

Definition call_task_id (c : Call) : TaskId :=
  match c with
  | CallPropose p => tp_task_id p
  | CallApply task_id _ _ => task_id
  end.

Definition call_command (c : Call) : option TaskCommand :=
  match c with
  | CallPropose _ => None
  | CallApply _ _ command => Some command
  end.

Definition task_step (o o' : TaskLifecycleOwner) : Prop := exists c r, call c o = (o', r).

#[export] Instance task_causal_owner :
    CausalOwner TaskLifecycleOwner TaskLifecycleEvent RequestEntry := {
  owner_log := ow_events;
  event_sequence := ev_sequence;
  owner_next := ow_next_sequence;
  owner_requests := ow_requests;
  owner_step := task_step;
}.

(** ** Specification

    What one call promises, without the order of its side effects: an
    inadmissible call is refused; a request id seen before is answered from
    memory; otherwise the call moves one task one step and appends one
    event. *)

Definition admission (c : Call) (o : TaskLifecycleOwner) : result TaskError unit :=
  match c with
  | CallPropose p =>
      check? context_validate (tp_context p);
      check? check_context o (tp_context p);
      check? text (tp_project_ref p) "project_ref";
      text (tp_goal p) "goal"
  | CallApply _ cx command =>
      check? context_validate cx;
      check? command_validate command;
      check_context o cx
  end.

Definition answer (c : Call) (entry : RequestEntry) : result TaskError TaskLifecycleEvent :=
  let '(known_task, known_command, event) := entry in
  if (known_task == call_task_id c) && (known_command == call_command c) then Ok event
  else Err (IdempotencyConflict (call_request_id c)).

(** The state a call moves its task to, with the professional states after
    it. *)
Definition next_state (c : Call) (o : TaskLifecycleOwner) : result TaskError (TaskState * ProfMap) :=
  let prof := ow_professional_execution o in
  match c, ow_tasks o !! call_task_id c with
  | CallPropose p, Some _ => Err (DuplicateTask (tp_task_id p))
  | CallPropose _, None => Ok (Proposed, prof)
  | CallApply k _ _, None => Err (TaskNotFound k)
  | CallApply k cx command, Some cur =>
      check? gates o k cx command cur;
      let? prof' := apply_professional_command prof k cx command in
      Ok (target command (tr_state cur), prof')
  end.

Definition call_event (c : Call) (seq : Z) (from : option TaskState) (to : TaskState)
    (prof : ProfMap) : TaskLifecycleEvent :=
  let cx := call_context c in
  {| ev_sequence := seq; ev_event_id := cx_event_id cx; ev_request_id := cx_request_id cx;
     ev_task_id := call_task_id c; ev_actor_ref := cx_actor_ref cx; ev_from := from;
     ev_to := to; ev_command := call_command c;
     ev_professional_execution :=
       match c with
       | CallPropose _ => None
       | CallApply k _ _ => prof !! k
       end;
     ev_state_fence := cx_state_fence cx; ev_authority_epoch := cx_authority_epoch cx;
     ev_observed_at := cx_observed_at cx |}.

Definition next_record (c : Call) (event : TaskLifecycleEvent) (o : TaskLifecycleOwner)
    (old : option TaskRecord) : option TaskRecord :=
  match c, old with
  | CallPropose p, _ =>
      Some {| tr_task_id := tp_task_id p; tr_project_ref := tp_project_ref p;
              tr_goal := tp_goal p; tr_state := Proposed; tr_revision := 1;
              tr_last_sequence := ev_sequence event; tr_last_event_id := ev_event_id event;
              tr_state_fence := ow_state_fence o |}
  | CallApply _ _ _, Some r => Some (move_record (ev_to event) event r)
  | CallApply _ _ _, None => None
  end.

(** The owner after [c] has been accepted with [event]. *)
Definition advance (c : Call) (event : TaskLifecycleEvent) (prof : ProfMap)
    (o : TaskLifecycleOwner) : TaskLifecycleOwner :=
  {| ow_authority_epoch := ow_authority_epoch o; ow_state_fence := ow_state_fence o;
     ow_next_sequence := wrap_u64 (ow_next_sequence o + 1);
     ow_tasks := partial_alter (next_record c event o) (call_task_id c) (ow_tasks o);
     ow_events := ow_events o ++ [event];
     ow_professional_execution := prof;
     ow_requests :=
       <[call_request_id c := (call_task_id c, call_command c, event)]> (ow_requests o) |}.

Definition spec_call (c : Call) (o : TaskLifecycleOwner)
    : TaskLifecycleOwner * result TaskError TaskLifecycleEvent :=
  match admission c o with
  | Err e => (o, Err e)
  | Ok _ =>
      match ow_requests o !! call_request_id c with
      | Some entry => (o, answer c entry)
      | None =>
          match next_state c o with
          | Err e => (o, Err e)
          | Ok (to, prof) =>
              let event := call_event c (ow_next_sequence o)
                             (tr_state <$> ow_tasks o !! call_task_id c) to prof in
              (advance c event prof o, Ok event)
          end
      end
  end.

(** ** Lemmas *)

Lemma task_call_spec c o : call c o = spec_call c o.
Proof.
  unfold spec_call. destruct c as [p|k cx cmd]; unfold call_request_id; simpl.
  - unfold propose, emit, remember. unfold_monad.
    destruct (context_validate _) as [[]|]; [|done]. destruct (check_context _ _) as [[]|]; [|done].
    destruct (text (tp_project_ref p) _) as [[]|]; [|done].
    destruct (text (tp_goal p) _) as [[]|]; [|done].
    destruct (ow_requests o !! _) as [[[? ?] ?]|]; simpl; [by repeat case_bool_decide|].
    unfold next_state. simpl. destruct (ow_tasks o !! tp_task_id p) eqn:Ht; simpl; done.
  - unfold apply, emit, remember. unfold_monad.
    destruct (context_validate _) as [[]|]; [|done]. destruct (command_validate _) as [[]|]; [|done].
    destruct (check_context _ _) as [[]|]; [|done].
    destruct (ow_requests o !! _) as [[[? ?] ?]|]; simpl; [by destruct (_ && _)|].
    unfold next_state. simpl. destruct (ow_tasks o !! k) as [cur|] eqn:Ht; simpl; [|done].
    destruct (gates _ _ _ _ _) as [[]|]; simpl; [|done].
    destruct (apply_professional_command _ _ _ _) as [prof|]; simpl; [|done].
    unfold advance, set_requests, set_tasks, set_professional. simpl.
    repeat f_equal. symmetry. apply partial_alter_known. by rewrite Ht.
Qed.

(** The two ways a call can end. *)
Lemma task_call_cases c o o' r :
  call c o = (o', r) ->
  (o' = o /\ forall e, r = Ok e -> exists entry,
     ow_requests o !! call_request_id c = Some entry /\ answer c entry = Ok e) \/
  (exists to prof event, r = Ok event /\ admission c o = Ok tt /\
     ow_requests o !! call_request_id c = None /\ next_state c o = Ok (to, prof) /\
     event = call_event c (ow_next_sequence o)
               (tr_state <$> ow_tasks o !! call_task_id c) to prof /\
     o' = advance c event prof o).
Proof.
  rewrite task_call_spec. unfold spec_call. intros H.
  destruct (admission c o) as [[]|]; [|by left; simplify_eq].
  destruct (ow_requests o !! call_request_id c) eqn:Hr.
  - left. simplify_eq. split; [done|]. intros e He. eauto.
  - destruct (next_state c o) as [[to prof]|] eqn:Hn; [|by left; simplify_eq].
    right. simplify_eq. eauto 10.
Qed.

#[export] Instance task_causal_laws :
  CausalOwnerLaws TaskLifecycleOwner TaskLifecycleEvent RequestEntry.
Proof.
  split; intros o o' (c & r & Hc);
    apply task_call_cases in Hc as [[-> _]|(to & prof & e & _ & _ & Hr & _ & -> & ->)]; simpl.
  - by left.
  - right. eexists. by split_and!.
  - done.
  - by apply insert_subseteq.
Qed.

(** ** What the log determines *)

Section LogProjection.
Implicit Types (events : list TaskLifecycleEvent) (e : TaskLifecycleEvent) (k : TaskId).

(** The last event of a task, and how many it has. *)
Definition last_event k events : option TaskLifecycleEvent :=
  fold_left (fun acc e => if ev_task_id e == k then Some e else acc) events None.

Definition event_count k events : nat :=
  length (filter (fun e => ev_task_id e = k) events).

Definition logged_state k events : option TaskState := ev_to <$> last_event k events.

(** The professional states after a log. *)
Definition logged_prof events : ProfMap := fold_left replay_professional events ∅.

Lemma last_event_snoc k events e :
  last_event k (events ++ [e]) = if ev_task_id e == k then Some e else last_event k events.
Proof. unfold last_event. by rewrite fold_left_app. Qed.

Lemma event_count_snoc k events e :
  event_count k (events ++ [e]) =
  ((if ev_task_id e == k then 1 else 0) + event_count k events)%nat.
Proof.
  unfold event_count. rewrite filter_app, length_app, filter_cons, filter_nil.
  case_decide as Hd; case_bool_decide; simpl; try done; lia.
Qed.

Lemma event_count_le k events : (event_count k events <= length events)%nat.
Proof. apply length_filter. Qed.

Lemma event_count_prefix k events events' :
  events `prefix_of` events' -> (event_count k events <= event_count k events')%nat.
Proof. intros [l ->]. unfold event_count. rewrite filter_app, length_app. lia. Qed.

Lemma event_count_pos k events :
  is_Some (last_event k events) -> (0 < event_count k events)%nat.
Proof.
  induction events as [|e events IH] using rev_ind; [by intros [? ?]|].
  rewrite last_event_snoc, event_count_snoc. case_bool_decide; [lia|]. simpl. exact IH.
Qed.

Lemma event_count_none k events : last_event k events = None -> event_count k events = 0%nat.
Proof.
  induction events as [|e events IH] using rev_ind; [done|].
  rewrite last_event_snoc, event_count_snoc. case_bool_decide; [done|]. exact IH.
Qed.

Lemma last_event_elem k events e :
  last_event k events = Some e -> exists i, events !! i = Some e /\ ev_task_id e = k.
Proof.
  induction events as [|x events IH] using rev_ind; [done|]. rewrite last_event_snoc.
  case_bool_decide as Hk.
  - intros [= ->]. exists (length events). by rewrite list_lookup_middle.
  - intros (i & Hi & ?)%IH. exists i. split; [by apply lookup_app_l_Some|done].
Qed.

Lemma logged_prof_snoc events e :
  logged_prof (events ++ [e]) = replay_professional (logged_prof events) e.
Proof. unfold logged_prof. by rewrite fold_left_app. Qed.

(** Replaying a log over a base map is replaying it from scratch and
    falling back to the base. *)
Lemma replay_over events (m : ProfMap) :
  fold_left replay_professional events m = logged_prof events ∪ m.
Proof.
  induction events as [|e events IH] using rev_ind; [unfold logged_prof; simpl; by rewrite map_empty_union|].
  rewrite logged_prof_snoc, fold_left_app, IH. unfold replay_professional; simpl.
  destruct (ev_professional_execution e); [by rewrite insert_union_l|done].
Qed.
End LogProjection.

(** An event is legal in the log before it when it is the proposal of an
    unknown task, or the result of a command that the lifecycle allows in the
    state the task was in and that passes the professional gates. *)
Definition legal_event (before : list TaskLifecycleEvent) (e : TaskLifecycleEvent) : Prop :=
  let k := ev_task_id e in
  ev_from e = logged_state k before /\
  (forall s, ev_professional_execution e = Some s -> prof_reachable s) /\
  match ev_from e, ev_command e with
  | None, None => ev_to e = Proposed
  | Some s, Some c =>
      allowed s c = true /\ ev_to e = target c s /\
      professional_gates (logged_prof before !! k) c = Ok tt
  | _, _ => False
  end.

Definition legal_log (events : list TaskLifecycleEvent) : Prop :=
  forall i e, events !! i = Some e -> legal_event (take i events) e.

Lemma task_legal_log_snoc events e :
  legal_log events -> legal_event events e -> legal_log (events ++ [e]).
Proof.
  intros Hl He i x Hi. apply lookup_app_Some in Hi as [Hi|[Hge Hi]].
  - rewrite take_app_le by (apply lookup_lt_Some in Hi; lia). by apply Hl.
  - apply list_lookup_singleton_Some in Hi as [Hi <-]. by rewrite take_app_length' by lia.
Qed.

Lemma legal_log_prof events i :
  legal_log events -> map_Forall (fun _ s => prof_reachable s) (logged_prof (take i events)).
Proof.
  intros Hl. induction i as [|i IH]; [done|].
  destruct (events !! i) as [e|] eqn:He.
  - rewrite (take_S_r _ _ _ He), logged_prof_snoc. unfold replay_professional.
    destruct (Hl _ _ He) as (_ & Hr & _). destruct (ev_professional_execution e); [|done].
    apply map_Forall_insert_2; [by apply Hr|done].
  - apply lookup_ge_None in He. rewrite !take_ge in * by lia. done.
Qed.

(** Which commands lead to the verified state, out of a terminal state, and
    to abandonment. *)
Lemma reaches_verified s c :
  allowed s c = true -> target c s = DoneVerified ->
  s = Verifying /\ exists verification_ref, c = CVerify verification_ref.
Proof.
  intros Ha Ht. destruct c; simpl in *; repeat case_match; destruct s; try done; eauto.
Qed.

Lemma terminal_exit s c :
  allowed s c = true -> is_terminal s = true ->
  (exists r, c = CReopen r) \/ (exists d, c = CDecideProfessionalAbandonment d /\ s <> DoneVerified).
Proof.
  intros Ha Ht. destruct c; simpl in *; try (by destruct s); eauto.
  right. eexists. split; [done|]. by destruct s.
Qed.

Lemma abandonment_gated s c prof :
  professional_gates (Some prof) c = Ok tt -> Some s <> Some (target c s) ->
  (target c s = Blocked \/ target c s = Failed ->
     latest_attempt_stopped_with_signal prof = true) /\
  (target c s = Partial ->
     (exists a g, Some c = Some (CReportProfessionalAttempt a Stopped g)) \/
     (exists d r, Some c = Some (CDecideProfessionalAbandonment d) /\
                  ad_disposition d = AcceptPartial r)).
Proof.
  unfold professional_gates. intros Hg Hne.
  destruct c; simpl in *; repeat case_match; run; bool_facts; split;
    try done; try (by intros []); intros; try congruence; eauto.
Qed.

(** The record of a task is what its events say. *)
Definition record_matches (o : TaskLifecycleOwner) (k : TaskId) (r : TaskRecord) : Prop :=
  tr_task_id r = k /\ tr_state_fence r = ow_state_fence o /\
  tr_revision r = wrap_u64 (Z.of_nat (event_count k (ow_events o))) /\
  exists e, last_event k (ow_events o) = Some e /\ tr_state r = ev_to e /\
            tr_last_sequence r = ev_sequence e /\ tr_last_event_id r = ev_event_id e.

(** The evidence recorded by the log is the evidence each professional
    state holds. *)
Definition evidence_matches (recorded : EvidenceMap) (prof : ProfMap) : Prop :=
  forall k, default [] (recorded !! k) =
            match prof !! k with Some s => ps_completion_evidence s | None => [] end.

Definition carries_command (kv : string * RequestEntry) : Prop := is_Some kv.2.1.2.

#[global] Instance carries_command_dec kv : Decision (carries_command kv).
Proof. unfold carries_command. apply _. Defined.

Definition indexed_requests (o : TaskLifecycleOwner) : gmap string RequestEntry :=
  filter carries_command (ow_requests o).

Record task_inv (o : TaskLifecycleOwner) : Prop := {
  inv_causal : causal_wf o;
  inv_owner : is_ok (owner_new (ow_authority_epoch o) (ow_state_fence o)) = true;
  inv_tasks : forall k r, ow_tasks o !! k = Some r -> record_matches o k r;
  inv_known : forall k, is_Some (last_event k (ow_events o)) -> is_Some (ow_tasks o !! k);
  inv_log : legal_log (ow_events o);
  inv_prof : ow_professional_execution o = logged_prof (ow_events o);
  inv_prof_wf : map_Forall (fun _ s => prof_reachable s) (ow_professional_execution o);
  inv_prof_known : forall k, is_Some (ow_professional_execution o !! k) -> is_Some (ow_tasks o !! k);
  inv_evidence : exists recorded, fold_res history_step ∅ (ow_events o) = Ok recorded /\
                   evidence_matches recorded (ow_professional_execution o);
  inv_requests : indexed_requests o = fold_left index_request (ow_events o) ∅;
}.

(** ** Preservation *)

Definition recorded_by (c : TaskCommand) : list ProfessionalCompletionEvidence :=
  match c with
  | CRecordProfessionalCompletionEvidence e => [e]
  | _ => []
  end.

Definition evidence_of (prof : ProfMap) (k : TaskId) : list ProfessionalCompletionEvidence :=
  match prof !! k with
  | Some s => ps_completion_evidence s
  | None => []
  end.

Lemma change_approach_evidence s r tid f a sref s' sig :
  prof_wf s -> change_approach s r tid f a sref = Ok (s', sig) ->
  ps_completion_evidence s' = ps_completion_evidence s.
Proof.
  intros Hwf H. unfold change_approach in H. do 5 (apply rbind_ok in H as ([] & _ & H)).
  apply rbind_ok in H as ([s1 g] & H1 & [= <- <-]).
  by destruct (record_attempt_ok _ _ _ _ _ _ _ _ Hwf H1) as (? & _ & _ & _ & _ & _ & _ & _ & ->).
Qed.

(** A command leaves the professional states alone, or replaces the one of
    its task by a reachable state whose evidence grew by what the command
    records. *)
Lemma apply_professional_ok prof k cx c prof' :
  map_Forall (fun _ s => prof_reachable s) prof ->
  apply_professional_command prof k cx c = Ok prof' ->
  (prof' = prof /\ recorded_by c = []) \/
  (exists s', prof' = <[k := s']> prof /\ prof_reachable s' /\
     ps_completion_evidence s' = (evidence_of prof k ++ recorded_by c)%list).
Proof.
  unfold apply_professional_command, evidence_of.
  intros Hr H. destruct c; try (left; by simplify_eq); right.
  - case_bool_decide as Hnew; [done|]. apply rbind_ok in H as (s & Hs & [= <-]).
    apply map_err_ok in Hs. rewrite <- eq_None_not_Some in Hnew. rewrite Hnew.
    exists s. split_and!; [done|by eapply prof_new|].
    unfold state_new in Hs. apply rbind_ok in Hs as ([] & _ & Hs).
    apply rbind_ok in Hs as (r & _ & [= <-]). done.
  - apply rbind_ok in H as (s & Hk & H). destruct (prof !! k) as [s0|] eqn:Hs; [|done].
    simplify_eq/=. apply rbind_ok in H as ([s' g] & H & [= <-]). apply map_err_ok in H.
    specialize (Hr _ _ Hs). exists s'. split_and!; [done|by eapply prof_attempt|].
    destruct (record_attempt_ok _ _ _ _ _ _ _ _ (prof_reachable_wf _ Hr) H)
      as (? & _ & _ & _ & _ & _ & _ & _ & ->). by rewrite app_nil_r.
  - apply rbind_ok in H as (s & Hk & H). destruct (prof !! k) as [s0|] eqn:Hs; [|done].
    simplify_eq/=. apply rbind_ok in H as ([s' g] & H & [= <-]). apply map_err_ok in H.
    specialize (Hr _ _ Hs). exists s'. split_and!; [done|by eapply prof_change|].
    rewrite app_nil_r. by eapply change_approach_evidence; eauto with eliot.
  - apply rbind_ok in H as (s & Hk & H). destruct (prof !! k) as [s0|] eqn:Hs; [|done].
    simplify_eq/=. apply rbind_ok in H as (s' & H & [= <-]). apply map_err_ok in H.
    specialize (Hr _ _ Hs). exists s'. split_and!; [done|by eapply prof_decide|].
    rewrite app_nil_r. unfold decide_abandonment in H. apply rbind_ok in H as (g & _ & H).
    do 2 (apply rbind_ok in H as ([] & _ & H)). by simplify_eq.
  - apply rbind_ok in H as (s & Hk & H). destruct (prof !! k) as [s0|] eqn:Hs; [|done].
    simplify_eq/=. apply rbind_ok in H as (s' & H & [= <-]). apply map_err_ok in H.
    specialize (Hr _ _ Hs). exists s'. split_and!; [done|by eapply prof_evidence|].
    unfold record_completion_evidence in H. apply rbind_ok in H as ([] & _ & H). by simplify_eq.
Qed.

(** What [next_state] guarantees on acceptance. *)
Lemma next_state_ok c o to prof' :
  map_Forall (fun _ s => prof_reachable s) (ow_professional_execution o) ->
  next_state c o = Ok (to, prof') ->
  (prof' = ow_professional_execution o /\ default [] (recorded_by <$> call_command c) = [] \/
   exists s', prof' = <[call_task_id c := s']> (ow_professional_execution o) /\
     prof_reachable s' /\ is_Some (call_command c) /\
     ps_completion_evidence s' = (evidence_of (ow_professional_execution o) (call_task_id c) ++
                                  default [] (recorded_by <$> call_command c))%list) /\
  match ow_tasks o !! call_task_id c, call_command c with
  | None, None => to = Proposed
  | Some r, Some cmd =>
      allowed (tr_state r) cmd = true /\ to = target cmd (tr_state r) /\
      professional_gates (ow_professional_execution o !! call_task_id c) cmd = Ok tt /\
      default (tr_revision r) (task_revision (cx_state_fence (call_context c))) = tr_revision r
  | _, _ => False
  end.
Proof.
  unfold next_state. intros Hr H. destruct c as [p|k cx cmd]; simpl in *.
  - destruct (ow_tasks o !! tp_task_id p); [done|]. simplify_eq. auto.
  - destruct (ow_tasks o !! k) as [r|]; [|done]. apply rbind_ok in H as ([] & Hg & H).
    apply rbind_ok in H as (prof & Hp & [= <- <-]).
    apply (apply_professional_ok _ _ _ _ _ Hr) in Hp. split; [naive_solver|].
    unfold gates in Hg. apply rbind_ok in Hg as ([] & Hrev & Hg).
    apply rbind_ok in Hg as ([] & Hpg & Hg). rewrite guard_err_ok in Hrev, Hg. bool_facts.
    rewrite Z.eqb_eq in Hrev. done.
Qed.

(** What an event adds to the recorded evidence of its task. *)
Definition event_evidence (e : TaskLifecycleEvent) : list ProfessionalCompletionEvidence :=
  default [] (recorded_by <$> ev_command e).

Definition record_evidence (recorded : EvidenceMap) (e : TaskLifecycleEvent) : EvidenceMap :=
  match event_evidence e with
  | [] => recorded
  | new => <[ev_task_id e := (default [] (recorded !! ev_task_id e) ++ new)%list]> recorded
  end.

Lemma record_evidence_lookup recorded e j :
  default [] (record_evidence recorded e !! j) =
  if decide (j = ev_task_id e)
  then (default [] (recorded !! j) ++ event_evidence e)%list
  else default [] (recorded !! j).
Proof.
  unfold record_evidence. destruct (event_evidence e) as [|x l]; case_decide as Hj.
  - by rewrite app_nil_r.
  - done.
  - subst j. by rewrite lookup_insert_eq.
  - by rewrite lookup_insert_ne.
Qed.

(** The history loop accepts an event whose state is reachable and holds
    exactly the evidence recorded so far. *)
Lemma history_step_ok recorded e :
  (forall s, ev_professional_execution e = Some s -> prof_reachable s) ->
  (ev_professional_execution e = None -> event_evidence e = []) ->
  (forall s, ev_professional_execution e = Some s ->
     ps_completion_evidence s = (default [] (recorded !! ev_task_id e) ++ event_evidence e)%list) ->
  history_step recorded e = Ok (record_evidence recorded e).
Proof.
  intros Hr Hnone Hev. unfold history_step.
  assert (Hl : default [] (record_evidence recorded e !! ev_task_id e) =
    (default [] (recorded !! ev_task_id e) ++ event_evidence e)%list)
    by (rewrite record_evidence_lookup; by rewrite decide_True).
  match goal with |- rbind ?x _ = _ => assert (Hx : x = Ok (record_evidence recorded e)) end.
  { unfold record_evidence, event_evidence in *.
    destruct (ev_command e) as [[]|]; try done. simpl in *.
    destruct (ev_professional_execution e) as [s|]; [|by discriminate Hnone].
    specialize (Hr s eq_refl). specialize (Hev s eq_refl). simpl.
    apply prof_reachable_wf in Hr. destruct Hr as [Hc Hrec _ _ _ _ He _].
    unfold state_new. rewrite Hc. simpl. rewrite Hrec. simpl.
    unfold record_completion_evidence. simpl. rewrite Hev in He.
    apply Forall_app in He as [_ He]. rewrite Forall_singleton in He. by rewrite He. }
  rewrite Hx. simpl. destruct (ev_professional_execution e) as [s|]; [|done].
  by rewrite (Hev s eq_refl), Hl, bool_decide_true.
Qed.

Section Preservation.
Context (c : Call) (o : TaskLifecycleOwner) (to : TaskState) (prof' : ProfMap).
Context (Hinv : task_inv o) (Hnext : next_state c o = Ok (to, prof')).

Let k := call_task_id c.
Let e := call_event c (ow_next_sequence o) (tr_state <$> ow_tasks o !! k) to prof'.
Let prof := ow_professional_execution o.

Lemma next_prof_cases :
  (prof' = prof /\ default [] (recorded_by <$> call_command c) = []) \/
  (exists s', prof' = <[k := s']> prof /\ prof_reachable s' /\ is_Some (call_command c) /\
     ps_completion_evidence s' =
       (evidence_of prof k ++ default [] (recorded_by <$> call_command c))%list).
Proof. by apply next_state_ok in Hnext as [? _]; [|apply inv_prof_wf]. Qed.

(** The event carries the state of its task after the call. *)
Lemma event_prof : ev_professional_execution e = prof' !! k.
Proof.
  unfold e, k. destruct c as [p|t cx cmd]; [|done]. simpl.
  unfold next_state in Hnext. simpl in Hnext.
  destruct (ow_tasks o !! tp_task_id p) eqn:Ht; [done|]. simplify_eq. symmetry.
  apply eq_None_not_Some. intros H. apply (inv_prof_known _ Hinv) in H as [? H]. by rewrite Ht in H.
Qed.

Lemma next_prof_reachable : map_Forall (fun _ s => prof_reachable s) prof'.
Proof.
  destruct next_prof_cases as [[-> _]|(s' & -> & Hs' & _)]; [apply Hinv|].
  apply map_Forall_insert_2; [done|apply Hinv].
Qed.

Lemma next_prof_replayed : prof' = replay_professional prof e.
Proof.
  unfold replay_professional. rewrite event_prof. change (ev_task_id e) with k.
  destruct next_prof_cases as [[Heq _]|(s' & Heq & _)].
  - rewrite Heq. destruct (prof !! k) eqn:Hs; [|done]. by rewrite insert_id.
  - by rewrite Heq, lookup_insert_eq.
Qed.

Lemma next_prof_known j :
  is_Some (prof' !! j) -> is_Some (ow_tasks (advance c e prof' o) !! j).
Proof.
  intros Hj. simpl. pose proof (next_state_ok _ _ _ _ (inv_prof_wf _ Hinv) Hnext) as [_ Ht].
  fold k in Ht. destruct (decide (j = k)) as [->|Hne].
  - fold k. rewrite lookup_partial_alter_eq. unfold next_record.
    destruct c as [|? cx cmd]; [done|]. destruct (ow_tasks o !! k); done.
  - fold k. rewrite lookup_partial_alter_ne by done. apply (inv_prof_known _ Hinv).
    destruct next_prof_cases as [[Heq _]|(s' & Heq & _)]; rewrite Heq in Hj; [done|].
    by rewrite lookup_insert_ne in Hj.
Qed.

Lemma history_event recorded :
  evidence_matches recorded prof ->
  history_step recorded e = Ok (record_evidence recorded e) /\
  evidence_matches (record_evidence recorded e) prof'.
Proof.
  intros Hm. assert (Hold : default [] (recorded !! k) = evidence_of prof k) by apply Hm.
  assert (Hgrow : evidence_of prof' k = (evidence_of prof k ++ event_evidence e)%list /\
                  (prof' !! k = None -> event_evidence e = [])).
  { unfold event_evidence. change (ev_command e) with (call_command c).
    destruct next_prof_cases as [[-> ->]|(s' & -> & _ & _ & Hev)].
    - by rewrite app_nil_r.
    - unfold evidence_of at 1. by rewrite lookup_insert_eq. }
  destruct Hgrow as [Hgrow Hnone]. split.
  - apply history_step_ok; rewrite event_prof; change (ev_task_id e) with k.
    + intros s Hs. by apply next_prof_reachable in Hs.
    + intros Hn. by apply Hnone.
    + intros s Hs. unfold evidence_of in Hgrow. rewrite Hs in Hgrow. by rewrite Hold.
  - intros j. rewrite record_evidence_lookup. change (ev_task_id e) with k.
    case_decide as Hj; [subst j|]; fold (evidence_of prof' k).
    + rewrite Hold. symmetry. exact Hgrow.
    + rewrite Hm. destruct next_prof_cases as [[-> _]|(s' & -> & _)]; [done|].
      by rewrite lookup_insert_ne.
Qed.

Lemma next_legal : legal_event (ow_events o) e.
Proof.
  pose proof (next_state_ok _ _ _ _ (inv_prof_wf _ Hinv) Hnext) as [_ Ht]. fold k in Ht.
  assert (Hst : tr_state <$> ow_tasks o !! k = logged_state k (ow_events o)).
  { unfold logged_state. destruct (ow_tasks o !! k) as [r|] eqn:Hr.
    - destruct (inv_tasks _ Hinv _ _ Hr) as (_ & _ & _ & x & Hx & Hs & _).
      rewrite Hx. simpl. by rewrite Hs.
    - destruct (last_event k (ow_events o)) eqn:Hl; [|done].
      destruct (inv_known _ Hinv k) as [? Hk]; [by rewrite Hl|]. by rewrite Hr in Hk. }
  unfold legal_event. change (ev_task_id e) with k. split_and!; [exact Hst| |].
  { intros s Hs. rewrite event_prof in Hs. by apply next_prof_reachable in Hs. }
  change (ev_from e) with (tr_state <$> ow_tasks o !! k).
  change (ev_command e) with (call_command c). change (ev_to e) with to.
  rewrite <- (inv_prof _ Hinv).
  destruct (ow_tasks o !! k), (call_command c); simpl in *; tauto.
Qed.

Lemma next_records j r :
  ow_tasks (advance c e prof' o) !! j = Some r -> record_matches (advance c e prof' o) j r.
Proof.
  simpl. pose proof (next_state_ok _ _ _ _ (inv_prof_wf _ Hinv) Hnext) as [_ Ht]. fold k in Ht |- *.
  unfold record_matches. simpl. setoid_rewrite last_event_snoc. rewrite event_count_snoc.
  change (ev_task_id e) with k. destruct (decide (j = k)) as [->|Hne].
  - rewrite lookup_partial_alter_eq, bool_decide_true by done. intros Hr.
    unfold next_record in Hr. destruct c as [p|t cx cmd]; simpl in *.
    + destruct (ow_tasks o !! k) as [r0|] eqn:Hr0; [done|]. simplify_eq. simpl.
      split_and!; try done; [|by exists e].
      assert (event_count k (ow_events o) = 0%nat) as ->; [|done].
      destruct (last_event k (ow_events o)) eqn:Hl.
      * destruct (inv_known _ Hinv k) as [? Hk]; [by rewrite Hl|]. by rewrite Hr0 in Hk.
      * by apply event_count_none.
    + destruct (ow_tasks o !! k) as [r0|] eqn:Hr0; [|done]. simplify_eq.
      destruct (inv_tasks _ Hinv _ _ Hr0) as (Hid & Hf & Hrev & _). simpl.
      split_and!; try done; [|by exists e].
      rewrite Hrev, wrap_u64_succ. f_equal. lia.
  - rewrite lookup_partial_alter_ne, bool_decide_false by done. apply (inv_tasks _ Hinv).
Qed.

Lemma next_known j :
  is_Some (last_event j (ow_events o ++ [e])) -> is_Some (ow_tasks (advance c e prof' o) !! j).
Proof.
  pose proof (next_state_ok _ _ _ _ (inv_prof_wf _ Hinv) Hnext) as [_ Ht]. fold k in Ht.
  rewrite last_event_snoc. simpl. change (ev_task_id e) with k. fold k.
  case_bool_decide as Hj; [subst j|].
  - intros _. rewrite lookup_partial_alter_eq. unfold next_record.
    destruct c, (ow_tasks o !! k); done.
  - rewrite lookup_partial_alter_ne by done. apply (inv_known _ Hinv).
Qed.

Lemma next_requests :
  ow_requests o !! call_request_id c = None ->
  indexed_requests (advance c e prof' o) =
  fold_left index_request (ow_events o ++ [e]) ∅.
Proof.
  intros Hnew. rewrite fold_left_app. simpl. rewrite <- (inv_requests _ Hinv).
  unfold indexed_requests, index_request. simpl. change (ev_command e) with (call_command c).
  change (ev_request_id e) with (call_request_id c). change (ev_task_id e) with k. fold k.
  destruct (call_command c) as [cmd|].
  - by rewrite map_filter_insert_True by (by eexists).
  - rewrite map_filter_insert_False by (intros [? ?]; done).
    by rewrite delete_id.
Qed.
End Preservation.

Lemma task_inv_call c o o' r : call c o = (o', r) -> task_inv o -> task_inv o'.
Proof.
  intros Hc Hinv.
  assert (Hstep : task_step o o') by (do 2 eexists; exact Hc).
  apply task_call_cases in Hc as [[-> _]|(to & prof' & e & _ & Hadm & Hnew & Hn & -> & ->)]; [done|].
  pose proof (inv_evidence _ Hinv) as (recorded & Hfold & Hm).
  pose proof (history_event _ _ _ _ Hinv Hn _ Hm) as [Hh Hm'].
  split.
  - eapply (causal_wf_step o); [exact Hstep|apply Hinv].
  - apply Hinv.
  - by apply next_records.
  - by apply next_known.
  - apply task_legal_log_snoc; [apply Hinv|by apply next_legal].
  - simpl. rewrite logged_prof_snoc, <- (inv_prof _ Hinv). by apply next_prof_replayed.
  - by eapply next_prof_reachable.
  - by apply next_prof_known.
  - exists (record_evidence recorded (call_event c (ow_next_sequence o)
      (tr_state <$> ow_tasks o !! call_task_id c) to prof')).
    simpl. rewrite fold_res_snoc, Hfold. by split.
  - by apply next_requests.
Qed.

(** ** Reachable owners and recovery *)

Inductive reachable : TaskLifecycleOwner -> Prop :=
| reach_new e f o : owner_new e f = Ok o -> reachable o
| reach_call o c o' r : reachable o -> call c o = (o', r) -> reachable o'
| reach_recover o e f o' :
    reachable o -> from_snapshot e f (snapshot o) = Ok o' -> reachable o'.

Lemma task_owner_new_ok e f o :
  owner_new e f = Ok o ->
  o = {| ow_authority_epoch := e; ow_state_fence := f; ow_next_sequence := 1; ow_tasks := ∅;
         ow_events := []; ow_professional_execution := ∅; ow_requests := ∅ |}.
Proof. unfold owner_new. intros H. by run. Qed.

Lemma owner_new_is_ok e f :
  is_ok (owner_new e f) = true ->
  owner_new e f = Ok {| ow_authority_epoch := e; ow_state_fence := f; ow_next_sequence := 1;
    ow_tasks := ∅; ow_events := []; ow_professional_execution := ∅; ow_requests := ∅ |}.
Proof. destruct (owner_new e f) eqn:H; [|done]. by apply task_owner_new_ok in H as ->. Qed.

Lemma task_inv_new e f o : owner_new e f = Ok o -> task_inv o.
Proof.
  intros H. pose proof (task_owner_new_ok _ _ _ H) as Ho. subst o. split; simpl; try done.
  - by rewrite H.
  - by intros ? [? ?].
  - by intros ? [? ?].
  - exists ∅. split; [done|]. intros k. by rewrite !lookup_empty.
Qed.

(** What recovery rebuilds: everything but the answers to proposals. *)
Definition recovered (e : EpochId) (f : StateFence) (o : TaskLifecycleOwner) : TaskLifecycleOwner :=
  {| ow_authority_epoch := e; ow_state_fence := f; ow_next_sequence := ow_next_sequence o;
     ow_tasks := ow_tasks o; ow_events := ow_events o;
     ow_professional_execution := ow_professional_execution o;
     ow_requests := indexed_requests o |}.

Lemma task_out_of_order_false events :
  out_of_order events = false <->
  forall i e, events !! i = Some e -> ev_sequence e = wrap_u64 (Z.of_nat i + 1).
Proof. apply numbered_from_one. Qed.

Section Recovery.
Context (o : TaskLifecycleOwner) (Hinv : task_inv o).

Lemma rebuilt_tasks : insert_all tr_task_id id (btree_values (ow_tasks o)) ∅ = ow_tasks o.
Proof. apply insert_all_values. intros k r Hk. by apply (inv_tasks _ Hinv). Qed.

Lemma rebuilt_prof :
  fold_left replay_professional (ow_events o) (ow_professional_execution o) =
  ow_professional_execution o.
Proof. rewrite replay_over, (inv_prof _ Hinv). apply map_union_idemp. Qed.

(** A successful recovery, under any epoch and fence, rebuilds the owner
    without its answers to proposals. *)
Lemma from_snapshot_result e f o' :
  from_snapshot e f (snapshot o) = Ok o' ->
  o' = recovered e f o /\ is_ok (owner_new e f) = true /\
  map_Forall (fun _ r => tr_state_fence r = f) (ow_tasks o).
Proof.
  unfold from_snapshot. intros H. apply rbind_ok in H as (o0 & Hnew & H).
  pose proof (task_owner_new_ok _ _ _ Hnew) as Ho0. destruct (_ || _); [done|].
  apply rbind_ok in H as ([] & Hfe & H). apply rbind_ok in H as ([] & _ & H).
  apply rbind_ok in H as (rec & _ & H). apply rbind_ok in H as ([] & _ & [= <-]).
  subst o0. simpl in *. rewrite rebuilt_tasks, rebuilt_prof, <- (inv_requests _ Hinv).
  split_and!; [done|by rewrite Hnew|]. intros k r Hr.
  rewrite for_each_ok, Forall_forall in Hfe.
  specialize (Hfe r (proj2 (btree_values_elem _ _) (ex_intro _ _ Hr))).
  unfold record_recoverable in Hfe. case_match; [|done]. by bool_facts.
Qed.

Lemma task_inv_recovered e f :
  is_ok (owner_new e f) = true -> map_Forall (fun _ r => tr_state_fence r = f) (ow_tasks o) ->
  task_inv (recovered e f o).
Proof.
  intros Hok Hf. destruct Hinv. split; simpl; try done.
  - intros k r Hr. destruct (inv_tasks0 _ _ Hr) as (? & _ & ? & ?).
    split_and!; try done. by apply (Hf k).
  - rewrite <- inv_requests0. unfold indexed_requests at 1. simpl.
    apply map_filter_id. intros k x Hx. by apply map_lookup_filter_Some in Hx as [_ ?].
Qed.

Lemma record_recoverable_inv k r :
  Z.of_nat (length (ow_events o)) < u64_max -> ow_tasks o !! k = Some r ->
  record_recoverable (ow_state_fence o) r = true.
Proof.
  intros Hlen Hr. destruct (inv_tasks _ Hinv _ _ Hr) as (_ & Hf & Hrev & e & He & _ & Hseq & _).
  pose proof (event_count_pos k (ow_events o) ltac:(by rewrite He)) as Hpos.
  pose proof (event_count_le k (ow_events o)) as Hle.
  apply last_event_elem in He as (i & Hi & _). pose proof (lookup_lt_Some _ _ _ Hi) as Hlt.
  destruct (inv_causal _ Hinv) as [_ Hs]. specialize (Hs _ _ Hi). simpl in Hs.
  rewrite wrap_u64_small in Hs by (split; lia). rewrite wrap_u64_small in Hrev by (split; lia).
  unfold record_recoverable. rewrite Hf, bool_decide_true by done.
  rewrite (proj2 (Z.eqb_neq (tr_revision r) 0)) by lia.
  by rewrite (proj2 (Z.eqb_neq (tr_last_sequence r) 0)) by lia.
Qed.

Lemma evidence_recoverable recorded k s :
  evidence_matches recorded (ow_professional_execution o) ->
  ow_professional_execution o !! k = Some s ->
  (ps_completion_evidence s != [])
  && (recorded !! k != Some (ps_completion_evidence s)) = false.
Proof.
  intros Hm Hs. specialize (Hm k). rewrite Hs in Hm.
  destruct (recorded !! k) as [l|]; simpl in Hm; subst; repeat case_bool_decide; naive_solver.
Qed.

Lemma task_from_snapshot_recovers :
  Z.of_nat (length (ow_events o)) < u64_max ->
  from_snapshot (ow_authority_epoch o) (ow_state_fence o) (snapshot o) =
  Ok (recovered (ow_authority_epoch o) (ow_state_fence o) o).
Proof.
  intros Hlen. unfold from_snapshot. rewrite (owner_new_is_ok _ _ (inv_owner _ Hinv)). simpl.
  destruct (inv_causal _ Hinv) as [Hnext Hseq]. simpl in Hnext, Hseq.
  rewrite (proj2 (task_out_of_order_false _) Hseq), Hnext. unfold usize_of_len.
  rewrite Z.eqb_refl, wrap_u64_small by (split; lia).
  rewrite (proj2 (Z.eqb_neq _ 0)) by lia. simpl.
  rewrite (proj2 (for_each_ok _ _)); simpl.
  2: { apply Forall_forall. intros r [k Hk]%btree_values_elem.
       by rewrite (record_recoverable_inv k r). }
  rewrite rebuilt_tasks, rebuilt_prof.
  match goal with |- context [existsb ?p ?l] => assert (existsb p l = false) as -> end.
  { apply existsb_false_iff, Forall_forall. intros [k s] Hk%btree_iter_lookup. simpl.
    rewrite bool_decide_true; [done|]. apply (inv_prof_known _ Hinv). by rewrite Hk. }
  simpl. destruct (inv_evidence _ Hinv) as (recorded & -> & Hm). simpl.
  rewrite (proj2 (for_each_ok _ _)); simpl.
  2: { apply Forall_forall. intros [k s] Hk%btree_iter_lookup. simpl.
       by rewrite (evidence_recoverable _ _ _ Hm Hk). }
  unfold recovered. rewrite <- (inv_requests _ Hinv), Hnext.
  by rewrite wrap_u64_small by (split; lia).
Qed.
End Recovery.

Lemma task_reachable_inv o : reachable o -> task_inv o.
Proof.
  induction 1 as [| |o e f o' _ IH H]; eauto using task_inv_new, task_inv_call.
  destruct (from_snapshot_result _ IH _ _ _ H) as (-> & ? & ?). by apply task_inv_recovered.
Qed.

#[export] Hint Resolve task_reachable_inv task_inv_call : eliot.

(** The epoch and the fence of an owner never change, so a call stays as
    admissible as it was. *)
Lemma task_steps_same_fence o o' :
  rtc task_step o o' ->
  ow_authority_epoch o' = ow_authority_epoch o /\ ow_state_fence o' = ow_state_fence o.
Proof.
  induction 1 as [|o1 o2 o3 (c & r & Hc) _ [IH1 IH2]]; [done|]. rewrite IH1, IH2.
  by apply task_call_cases in Hc as [[-> _]|(? & ? & ? & _ & _ & _ & _ & _ & ->)].
Qed.

Lemma steps_inv o o' : rtc task_step o o' -> task_inv o -> task_inv o'.
Proof. induction 1 as [|? ? ? (? & ? & ?)]; eauto with eliot. Qed.

Lemma task_admission_fence c o o' :
  ow_authority_epoch o' = ow_authority_epoch o -> ow_state_fence o' = ow_state_fence o ->
  admission c o' = admission c o.
Proof. intros H1 H2. destruct c; simpl; unfold check_context; by rewrite H1, H2. Qed.

Lemma task_call_answered c o o' e :
  call c o = (o', Ok e) ->
  admission c o' = Ok tt /\
  exists entry, ow_requests o' !! call_request_id c = Some entry /\ answer c entry = Ok e.
Proof.
  intros H. pose proof H as H'.
  apply task_call_cases in H as [[-> Hans]|(to & prof & ev & [= <-] & Hadm & _ & _ & He & ->)].
  - split; [|by apply Hans]. rewrite task_call_spec in H'. unfold spec_call in H'.
    destruct (admission c o) as [[]|]; [done|]. by simplify_eq.
  - split; [by rewrite <- Hadm; apply task_admission_fence|]. simpl.
    rewrite lookup_insert_eq. eexists. split; [done|]. unfold answer.
    by rewrite !bool_decide_true.
Qed.

Lemma steps_reachable o o' : rtc task_step o o' -> reachable o -> reachable o'.
Proof. induction 1 as [|? ? ? (? & ? & ?)]; eauto using reach_call. Qed.

(** A fresh command that names a revision is accepted only at that revision,
    and leaves the task one revision further. *)
Lemma revision_of_accepted k cx c n o o' e :
  reachable o -> call (CallApply k cx c) o = (o', Ok e) ->
  ow_requests o !! cx_request_id cx = None -> task_revision (cx_state_fence cx) = Some n ->
  n = wrap_u64 (Z.of_nat (event_count k (ow_events o))) /\
  (event_count k (ow_events o) < event_count k (ow_events o'))%nat.
Proof.
  intros Hr Hc Hnew Hn.
  apply task_call_cases in Hc as [[_ Hans]|(to & prof & ev & _ & _ & _ & Hnx & -> & ->)].
  - destruct (Hans e eq_refl) as (x & Hx & _). unfold call_request_id in Hx. simpl in Hx. congruence.
  - pose proof (task_reachable_inv _ Hr) as Hinv.
    apply next_state_ok in Hnx as [_ Hm]; [|apply Hinv]. simpl in Hm.
    destruct (ow_tasks o !! k) as [r|] eqn:Hk; [|done]. destruct Hm as (_ & _ & _ & Hrev).
    rewrite Hn in Hrev. simpl in Hrev. destruct (inv_tasks _ Hinv _ _ Hk) as (_ & _ & Hcount & _).
    split; [congruence|]. simpl. rewrite event_count_snoc. simpl. rewrite bool_decide_true; [lia|done].
Qed.

(** ** The contract of the owner

    What a call may do, as a relation that shares no check with the code: the
    lifecycle as a table of arrows, the admission and the professional gates
    as propositions on the data, and the event and the owner after the call
    written out. *)

Definition unfinished : list TaskState :=
  [Proposed; Open; Framed; UnderstandingRequired; ActionAuthorized; Executing; Verifying].

Inductive task_lifecycle : TaskState -> TaskCommand -> TaskState -> Prop :=
| lc_open : task_lifecycle Proposed COpen Open
| lc_frame r : task_lifecycle Open (CFrame r) Framed
| lc_understand : task_lifecycle Framed CRequireUnderstanding UnderstandingRequired
| lc_authorize a u : task_lifecycle UnderstandingRequired (CAuthorizeAction a u) ActionAuthorized
| lc_execute : task_lifecycle ActionAuthorized CBeginExecution Executing
| lc_verification : task_lifecycle Executing CBeginVerification Verifying
| lc_verify r : task_lifecycle Verifying (CVerify r) DoneVerified
| lc_block s r : s ∈ unfinished -> task_lifecycle s (CBlock r) Blocked
| lc_fail s r : s ∈ unfinished -> task_lifecycle s (CFail r) Failed
| lc_partial s r : s ∈ unfinished -> task_lifecycle s (CMarkPartial r) Partial
| lc_reopen s r : s ∈ [DoneVerified; Blocked; Failed; Partial] -> task_lifecycle s (CReopen r) Open
| lc_contract s c :
    s ∈ unfinished -> task_lifecycle s (CSetProfessionalExecutionContract c) s
| lc_stopped s a g :
    s ∈ [Executing; Verifying] -> task_lifecycle s (CReportProfessionalAttempt a Stopped g) Partial
| lc_report s a out g :
    s ∈ [Executing; Verifying] -> out <> Stopped ->
    task_lifecycle s (CReportProfessionalAttempt a out g) s
| lc_change s r a g :
    s ∈ [Executing; Verifying] -> task_lifecycle s (CChangeProfessionalApproach r a g) s
| lc_accept_partial s d r :
    s <> DoneVerified -> ad_disposition d = AcceptPartial r ->
    task_lifecycle s (CDecideProfessionalAbandonment d) Partial
| lc_decide s d :
    s <> DoneVerified -> (forall r, ad_disposition d <> AcceptPartial r) ->
    task_lifecycle s (CDecideProfessionalAbandonment d) s
| lc_evidence e : task_lifecycle Verifying (CRecordProfessionalCompletionEvidence e) Verifying.

(** The texts a command carries and has to get right. *)
Definition command_texts (c : TaskCommand) : list string :=
  match c with
  | CFrame t | CVerify t | CBlock t | CFail t | CMarkPartial t | CReopen t => [t]
  | CAuthorizeAction a u => [a; u]
  | CReportProfessionalAttempt a _ g | CChangeProfessionalApproach _ a g =>
      [at_attempt_ref a; at_reason a; g]
  | CDecideProfessionalAbandonment d => [disposition_text (ad_disposition d)]
  | CRecordProfessionalCompletionEvidence e => [am_manifest_ref (ce_artifact_manifest e)]
  | COpen | CRequireUnderstanding | CBeginExecution | CBeginVerification
  | CSetProfessionalExecutionContract _ => []
  end.

Record command_admitted (c : TaskCommand) : Prop := {
  cm_texts : Forall plain_text (command_texts c);
  cm_contract : forall ct, c = CSetProfessionalExecutionContract ct -> contract_admitted ct;
  cm_revised : forall a g, c <> CReportProfessionalAttempt a ApproachChanged g;
}.

(** A caller speaks for the owner's epoch and sees the owner's fence; what
    the owner's fence leaves open, the caller may pin. *)
Record context_admitted (o : TaskLifecycleOwner) (cx : TaskCommandContext) : Prop := {
  cx_texts : Forall plain_text [cx_request_id cx; cx_event_id cx; cx_actor_ref cx];
  cx_epoch : cx_authority_epoch cx = ow_authority_epoch o;
  cx_fence_epoch : authority_epoch (cx_state_fence cx) = authority_epoch (ow_state_fence o);
  cx_generation : resource_generation (cx_state_fence cx) = resource_generation (ow_state_fence o) /\
    resource_generation (cx_state_fence cx) <> 0;
  cx_pins :
    (task_revision (ow_state_fence o) = None \/
     task_revision (ow_state_fence o) = task_revision (cx_state_fence cx)) /\
    (policy_revision (ow_state_fence o) = None \/
     policy_revision (ow_state_fence o) = policy_revision (cx_state_fence cx)) /\
    (integration_revision (ow_state_fence o) = None \/
     integration_revision (ow_state_fence o) = integration_revision (cx_state_fence cx));
}.

Definition call_admitted (o : TaskLifecycleOwner) (c : Call) : Prop :=
  match c with
  | CallPropose p =>
      context_admitted o (tp_context p) /\ plain_text (tp_project_ref p) /\ plain_text (tp_goal p)
  | CallApply _ cx cmd => context_admitted o cx /\ command_admitted cmd
  end.

(** What a professional contract on the task demands of a command. *)
Definition gate_open (prof : option ProfessionalExecutionState) (c : TaskCommand) : Prop :=
  match c with
  | CVerify _ => forall s, prof = Some s ->
      exists e r, e ∈ ps_completion_evidence s /\ ce_evaluator_result e = Some r
  | CBlock _ | CFail _ => forall s, prof = Some s ->
      exists a g, last (ps_attempts s) = Some a /\ g ∈ ps_abandonment_signals s /\
        sg_attempt_ref g = at_attempt_ref a /\ sg_outcome g = Stopped
  | CMarkPartial _ => prof = None
  | _ => True
  end.

(** What a command makes of the professional state of its task. *)
Inductive prof_effect (k : TaskId) (f : StateFence)
    : TaskCommand -> option ProfessionalExecutionState -> option ProfessionalExecutionState -> Prop :=
| pe_plain c p :
    (match c with
     | CSetProfessionalExecutionContract _ | CReportProfessionalAttempt _ _ _
     | CChangeProfessionalApproach _ _ _ | CDecideProfessionalAbandonment _
     | CRecordProfessionalCompletionEvidence _ => False
     | _ => True
     end) -> prof_effect k f c p p
| pe_contract ct s :
    contract_admitted ct -> contract_started ct s ->
    prof_effect k f (CSetProfessionalExecutionContract ct) None (Some s)
| pe_attempt a out g s s' :
    attempt_recorded s k f a out g s' ->
    prof_effect k f (CReportProfessionalAttempt a out g) (Some s) (Some s')
| pe_change r a g s s' :
    approach_changed s k f r a g s' ->
    prof_effect k f (CChangeProfessionalApproach r a g) (Some s) (Some s')
| pe_decide d s s' :
    abandonment_decided s d s' ->
    prof_effect k f (CDecideProfessionalAbandonment d) (Some s) (Some s')
| pe_evidence e s :
    evidence_admitted (ps_contract s) e ->
    prof_effect k f (CRecordProfessionalCompletionEvidence e) (Some s)
      (Some {| ps_contract := ps_contract s;
               ps_reference_isolation_receipt := ps_reference_isolation_receipt s;
               ps_completion_evidence := ps_completion_evidence s ++ [e];
               ps_attempts := ps_attempts s; ps_abandonment_signals := ps_abandonment_signals s;
               ps_approach_revisions := ps_approach_revisions s;
               ps_controller_decisions := ps_controller_decisions s |}).

Inductive task_accepted (o : TaskLifecycleOwner)
    : Call -> TaskLifecycleEvent -> TaskLifecycleOwner -> Prop :=
| acc_replay c e :
    call_admitted o c ->
    ow_requests o !! call_request_id c = Some (call_task_id c, call_command c, e) ->
    task_accepted o c e o
| acc_propose p e :
    call_admitted o (CallPropose p) ->
    ow_requests o !! cx_request_id (tp_context p) = None ->
    ow_tasks o !! tp_task_id p = None ->
    e = {| ev_sequence := ow_next_sequence o; ev_event_id := cx_event_id (tp_context p);
           ev_request_id := cx_request_id (tp_context p); ev_task_id := tp_task_id p;
           ev_actor_ref := cx_actor_ref (tp_context p); ev_from := None; ev_to := Proposed;
           ev_command := None; ev_professional_execution := None;
           ev_state_fence := cx_state_fence (tp_context p);
           ev_authority_epoch := cx_authority_epoch (tp_context p);
           ev_observed_at := cx_observed_at (tp_context p) |} ->
    task_accepted o (CallPropose p) e
      {| ow_authority_epoch := ow_authority_epoch o; ow_state_fence := ow_state_fence o;
         ow_next_sequence := wrap_u64 (ow_next_sequence o + 1);
         ow_tasks := <[tp_task_id p :=
           {| tr_task_id := tp_task_id p; tr_project_ref := tp_project_ref p;
              tr_goal := tp_goal p; tr_state := Proposed; tr_revision := 1;
              tr_last_sequence := ow_next_sequence o;
              tr_last_event_id := cx_event_id (tp_context p);
              tr_state_fence := ow_state_fence o |}]> (ow_tasks o);
         ow_events := ow_events o ++ [e];
         ow_professional_execution := ow_professional_execution o;
         ow_requests :=
           <[cx_request_id (tp_context p) := (tp_task_id p, None, e)]> (ow_requests o) |}
| acc_apply k cx cmd cur to prof profs e :
    call_admitted o (CallApply k cx cmd) ->
    ow_requests o !! cx_request_id cx = None ->
    ow_tasks o !! k = Some cur ->
    (forall n, task_revision (cx_state_fence cx) = Some n -> n = tr_revision cur) ->
    task_lifecycle (tr_state cur) cmd to ->
    gate_open (ow_professional_execution o !! k) cmd ->
    prof_effect k (cx_state_fence cx) cmd (ow_professional_execution o !! k) prof ->
    profs !! k = prof ->
    (forall j, j <> k -> profs !! j = ow_professional_execution o !! j) ->
    e = {| ev_sequence := ow_next_sequence o; ev_event_id := cx_event_id cx;
           ev_request_id := cx_request_id cx; ev_task_id := k;
           ev_actor_ref := cx_actor_ref cx; ev_from := Some (tr_state cur); ev_to := to;
           ev_command := Some cmd; ev_professional_execution := prof;
           ev_state_fence := cx_state_fence cx; ev_authority_epoch := cx_authority_epoch cx;
           ev_observed_at := cx_observed_at cx |} ->
    task_accepted o (CallApply k cx cmd) e
      {| ow_authority_epoch := ow_authority_epoch o; ow_state_fence := ow_state_fence o;
         ow_next_sequence := wrap_u64 (ow_next_sequence o + 1);
         ow_tasks := <[k :=
           {| tr_task_id := tr_task_id cur; tr_project_ref := tr_project_ref cur;
              tr_goal := tr_goal cur; tr_state := to;
              tr_revision := wrap_u64 (tr_revision cur + 1);
              tr_last_sequence := ow_next_sequence o; tr_last_event_id := cx_event_id cx;
              tr_state_fence := tr_state_fence cur |}]> (ow_tasks o);
         ow_events := ow_events o ++ [e];
         ow_professional_execution := profs;
         ow_requests := <[cx_request_id cx := (k, Some cmd, e)]> (ow_requests o) |}.

(** *** The code's checks decide the contract *)

Lemma task_text_ok t f : text t f = Ok tt <-> plain_text t.
Proof. rewrite <- plain_text_check. unfold text. by destruct (_ || _). Qed.

Lemma task_lifecycle_iff s c to : task_lifecycle s c to <-> allowed s c = true /\ target c s = to.
Proof.
  split.
  - destruct 1; unfold unfinished in *; simpl; rewrite ?elem_of_cons, ?elem_of_nil in *;
      try done; try (by destruct s; naive_solver).
    + by destruct out, s; naive_solver.
    + rewrite H0. by destruct s.
    + split; [by destruct s|]. by destruct (ad_disposition d); naive_solver.
  - intros [Ha <-]. destruct c; simpl in *; bool_facts; subst; try constructor;
      try (destruct s; try done; set_solver).
    + destruct outcome; constructor; try done; apply orb_true_iff in Ha as [Ha|Ha];
        bool_facts; subst; set_solver.
    + destruct (ad_disposition decision) eqn:Hd; econstructor; try done; congruence.
Qed.

Lemma command_validate_iff c : command_validate c = Ok tt <-> command_admitted c.
Proof.
  split.
  - intros H. split; [|intros ct ->|intros a g ->].
    + destruct c; simpl in H; rewrite ?check_ok in H; unfold attempt_text in H;
        rewrite ?check_ok, ?task_text_ok in H; simpl; rewrite ?Forall_cons, ?Forall_nil;
        try tauto; destruct (ad_disposition _); rewrite task_text_ok in H; done.
    + simpl in H. by apply map_err_ok, contract_validate_iff in H.
    + done.
  - intros [Ht Hc Hr]. destruct c; simpl in *; unfold attempt_text;
      rewrite ?check_ok, ?task_text_ok; rewrite ?Forall_cons in Ht; try tauto.
    + by apply map_err_ok, contract_validate_iff, Hc.
    + split; [|tauto]. apply guard_err_ok, bool_decide_eq_false. intros ->. by eapply Hr.
    + destruct Ht as [Ht _]. by destruct (ad_disposition _); rewrite task_text_ok.
Qed.

Lemma context_checks_iff o cx :
  context_validate cx = Ok tt /\ check_context o cx = Ok tt <-> context_admitted o cx.
Proof.
  unfold context_validate, check_context.
  rewrite !check_ok, !task_text_ok, map_err_ok, StateFence_validate_ok.
  pose proof (is_same_authority_eq (cx_authority_epoch cx) (ow_authority_epoch o)) as He.
  pose proof (is_compatible_with_spec (ow_state_fence o) (cx_state_fence cx)) as Hf.
  split.
  - intros [Ht Hc]. destruct (is_same_authority _ _); [|done].
    destruct (is_compatible_with _ _); [|done]. destruct Hf as [Hf _]. destruct Hf as (? & ? & ?); [done|].
    split; rewrite ?Forall_cons, ?Forall_nil; try tauto; [by symmetry|split; [by symmetry|tauto]].
  - intros [Ht Hep Hfe [Hg Hg0] Hp]. rewrite !Forall_cons in Ht. split; [tauto|].
    rewrite (proj2 He Hep). simpl. rewrite (proj2 Hf); [done|]. split_and!; try done; tauto.
Qed.

Lemma admission_iff c o : admission c o = Ok tt <-> call_admitted o c.
Proof.
  destruct c as [p|k cx cmd]; simpl; rewrite !check_ok, <- context_checks_iff.
  - rewrite !task_text_ok. tauto.
  - rewrite <- command_validate_iff. tauto.
Qed.

Lemma gate_open_iff prof c :
  (forall s, prof = Some s -> prof_wf s) ->
  professional_gates prof c = Ok tt <-> gate_open prof c.
Proof.
  intros Hwf. unfold professional_gates. rewrite !check_ok.
  destruct prof as [s|]; destruct c; simpl; try naive_solver;
    try (rewrite map_err_ok, require_evaluator_result_iff by auto; naive_solver);
    rewrite guard_err_ok, negb_false_iff, latest_attempt_stopped_iff; naive_solver.
Qed.

Lemma gates_iff o k cx c cur :
  (forall s, ow_professional_execution o !! k = Some s -> prof_wf s) ->
  gates o k cx c cur = Ok tt <->
  (forall n, task_revision (cx_state_fence cx) = Some n -> n = tr_revision cur) /\
  gate_open (ow_professional_execution o !! k) c /\ allowed (tr_state cur) c = true.
Proof.
  intros Hwf. unfold gates. rewrite !check_ok, !guard_err_ok, gate_open_iff, !negb_false_iff by done.
  rewrite Z.eqb_eq. destruct (task_revision _); naive_solver.
Qed.

(** The professional update of the code realises the effect, and succeeds
    whenever some effect is possible. *)
Lemma professional_sound prof k cx c prof' :
  (forall s, prof !! k = Some s -> prof_wf s) ->
  apply_professional_command prof k cx c = Ok prof' ->
  prof_effect k (cx_state_fence cx) c (prof !! k) (prof' !! k) /\
  (forall j, j <> k -> prof' !! j = prof !! j).
Proof.
  intros Hwf H. unfold apply_professional_command in H.
  destruct c; try (injection H as <-; split; [by apply pe_plain|done]).
  - case_bool_decide as Hn; [done|]. apply rbind_ok in H as (s & Hs & [= <-]).
    rewrite <- eq_None_not_Some in Hn. rewrite lookup_insert_eq, Hn.
    apply map_err_ok, state_new_sound in Hs as [? ?].
    split; [by constructor|]. intros j Hj. by rewrite lookup_insert_ne.
  - destruct (prof !! k) as [s|] eqn:Hs; [|done]. simpl in H.
    apply rbind_ok in H as ([s' g] & H & [= <-]). apply map_err_ok in H. rewrite lookup_insert_eq.
    split; [constructor; eapply record_attempt_sound; eauto|]. intros j Hj. by rewrite lookup_insert_ne.
  - destruct (prof !! k) as [s|] eqn:Hs; [|done]. simpl in H.
    apply rbind_ok in H as ([s' g] & H & [= <-]). apply map_err_ok in H. rewrite lookup_insert_eq.
    split; [constructor; eapply change_approach_sound; eauto|]. intros j Hj. by rewrite lookup_insert_ne.
  - destruct (prof !! k) as [s|] eqn:Hs; [|done]. simpl in H.
    apply rbind_ok in H as (s' & H & [= <-]). apply map_err_ok in H. rewrite lookup_insert_eq.
    split; [constructor; eapply decide_abandonment_iff; eauto|]. intros j Hj. by rewrite lookup_insert_ne.
  - destruct (prof !! k) as [s|] eqn:Hs; [|done]. simpl in H.
    apply rbind_ok in H as (s' & H & [= <-]). rewrite lookup_insert_eq.
    apply map_err_ok, record_completion_evidence_iff in H as [? ->].
    split; [by constructor|]. intros j Hj. by rewrite lookup_insert_ne.
Qed.

Lemma professional_complete prof k cx c p :
  (forall s, prof !! k = Some s -> prof_wf s) ->
  prof_effect k (cx_state_fence cx) c (prof !! k) p ->
  exists prof', apply_professional_command prof k cx c = Ok prof'.
Proof.
  intros Hwf H. unfold apply_professional_command. inversion H; subst.
  - destruct c; try done; by eexists.
  - rewrite bool_decide_false by (by rewrite <- eq_None_not_Some).
    destruct (state_new_complete ct) as [x ->]; [done|]. by eexists.
  - simpl. edestruct record_attempt_complete as (x & sg & ->); [done|]. by eexists.
  - simpl. edestruct change_approach_complete as (x & sg & ->); [by apply Hwf|done|]. by eexists.
  - simpl. rewrite (proj2 (decide_abandonment_iff s d s' ltac:(by apply Hwf))) by done. by eexists.
  - simpl. rewrite (proj2 (record_completion_evidence_iff s e _)) by done. by eexists.
Qed.

Lemma answer_iff c entry e :
  answer c entry = Ok e <-> entry = (call_task_id c, call_command c, e).
Proof.
  destruct entry as [[t cmd] e']. unfold answer. split.
  - destruct (_ && _) eqn:Hb; [|done]. bool_facts. by intros [= <-]; subst.
  - intros [= -> -> ->]. by rewrite !bool_decide_true.
Qed.

Lemma inv_prof_at o k s :
  task_inv o -> ow_professional_execution o !! k = Some s -> prof_wf s.
Proof. intros Hinv Hs. apply prof_reachable_wf. by apply (inv_prof_wf _ Hinv k). Qed.

Lemma call_accepted c o o' e : task_inv o -> call c o = (o', Ok e) -> task_accepted o c e o'.
Proof.
  intros Hinv H. rewrite task_call_spec in H. unfold spec_call in H.
  destruct (admission c o) as [[]|] eqn:Hadm; [|done]. apply admission_iff in Hadm.
  destruct (ow_requests o !! call_request_id c) as [entry|] eqn:Hreq.
  { injection H as <- H. apply answer_iff in H as ->. by constructor. }
  destruct (next_state c o) as [[to prof]|] eqn:Hn; [|done]. injection H as <- <-.
  unfold next_state in Hn. unfold advance. destruct c as [p|k cx cmd]; cbn [call_task_id] in *.
  - destruct (ow_tasks o !! tp_task_id p) eqn:Ht; [done|]. injection Hn as <- <-.
    erewrite partial_alter_known by (rewrite Ht; reflexivity). by apply acc_propose.
  - destruct (ow_tasks o !! k) as [cur|] eqn:Ht; [|done].
    apply check_ok in Hn as [Hg Hn]. apply rbind_ok in Hn as (prof1 & Hp & [= <- <-]).
    assert (Hwf : forall s, ow_professional_execution o !! k = Some s -> prof_wf s)
      by (intros; by eapply inv_prof_at).
    apply (gates_iff _ _ _ _ _ Hwf) in Hg as (Hrev & Hgate & Hal).
    apply (professional_sound _ _ _ _ _ Hwf) in Hp as [Hp Hothers].
    erewrite partial_alter_known by (rewrite Ht; reflexivity).
    eapply acc_apply; try done. by apply task_lifecycle_iff.
Qed.

Lemma accepted_call c o e o'' :
  task_inv o -> task_accepted o c e o'' -> exists o' e', call c o = (o', Ok e').
Proof.
  intros Hinv H. rewrite task_call_spec. unfold spec_call.
  destruct H as [c e Hadm Hreq|p e Hadm Hreq Ht _|k cx cmd cur to prof profs e Hadm Hreq Ht Hrev Hl Hg Hp _ _ _];
    rewrite (proj2 (admission_iff _ _) Hadm); unfold call_request_id; simpl.
  - unfold call_request_id in Hreq. rewrite Hreq. rewrite (proj2 (answer_iff c _ e)) by done. eauto.
  - rewrite Hreq. unfold next_state. simpl. rewrite Ht. eauto.
  - assert (Hwf : forall s, ow_professional_execution o !! k = Some s -> prof_wf s)
      by (intros; by eapply inv_prof_at).
    apply task_lifecycle_iff in Hl as [Hal <-].
    apply professional_complete in Hp as [prof' Hp]; [|done].
    rewrite Hreq. unfold next_state. simpl. rewrite Ht.
    rewrite (proj2 (gates_iff o k cx cmd cur Hwf)) by done. simpl. rewrite Hp. simpl. eauto.
Qed.

(** ** A sample run, for the witnesses *)

Section Sample.
Definition sample_context (rid : string) (rev : option Z) : TaskCommandContext :=
  {| cx_request_id := rid; cx_event_id := "event-" ++ rid; cx_actor_ref := "actor";
     cx_state_fence :=
       {| authority_epoch := authority_epoch sample_prof_fence;
          resource_generation := resource_generation sample_prof_fence;
          task_revision := rev; policy_revision := None; integration_revision := None |};
     cx_authority_epoch := authority_epoch sample_prof_fence;
     cx_observed_at := ClockReading_default |}.

Definition sample_propose (rid k : string) : Call :=
  CallPropose {| tp_task_id := k; tp_project_ref := "project"; tp_goal := "goal";
                 tp_context := sample_context rid None |}.

Definition run_calls (calls : list Call) (o : TaskLifecycleOwner) : TaskLifecycleOwner :=
  fold_left (fun o c => (call c o).1) calls o.

Definition sample_owner (calls : list Call) : TaskLifecycleOwner :=
  run_calls calls
    {| ow_authority_epoch := authority_epoch sample_prof_fence;
       ow_state_fence := sample_prof_fence; ow_next_sequence := 1; ow_tasks := ∅;
       ow_events := []; ow_professional_execution := ∅; ow_requests := ∅ |}.

Lemma task_run_calls_reachable calls o : reachable o -> reachable (run_calls calls o).
Proof.
  revert o. induction calls as [|c calls IH]; intros o Ho; [done|]. apply IH.
  destruct (call c o) as [o' r] eqn:E. simpl. by eapply reach_call.
Qed.

Lemma task_run_calls_steps calls o : rtc task_step o (run_calls calls o).
Proof.
  revert o. induction calls as [|c calls IH]; intros o; [done|]. simpl.
  destruct (call c o) as [o' r] eqn:E. simpl. eapply rtc_l; [|apply IH]. by exists c, r.
Qed.

Lemma task_sample_owner_reachable calls : reachable (sample_owner calls).
Proof.
  apply task_run_calls_reachable.
  apply (reach_new (authority_epoch sample_prof_fence) sample_prof_fence). vm_compute. done.
Qed.

Lemma task_sample_owner_steps calls calls' :
  rtc task_step (sample_owner calls) (sample_owner (calls ++ calls')).
Proof. unfold sample_owner, run_calls. rewrite fold_left_app. apply task_run_calls_steps. Qed.

(** A task with a professional contract, taken from proposal to verified. *)
Definition sample_calls : list Call :=
  let act rid c := CallApply "t1" (sample_context rid None) c in
  [sample_propose "r1" "t1"; act "r2" COpen; act "r3" (CFrame "frame");
   act "r4" CRequireUnderstanding; act "r5" (CAuthorizeAction "authority" "understanding");
   CallApply "t1" (sample_context "r6" (Some 5)) CBeginExecution;
   act "r7" (CSetProfessionalExecutionContract (sample_contract ["asset"] ["ref-hidden"]));
   act "r8" (CReportProfessionalAttempt (sample_attempt "a" None) ReportedSuccess "g1");
   act "r9" CBeginVerification;
   act "r10" (CRecordProfessionalCompletionEvidence (sample_evidence Accepted));
   act "r11" (CVerify "verification")].

Definition sample_abandoned : list Call :=
  take 7 sample_calls ++
  [CallApply "t1" (sample_context "s8" None)
     (CReportProfessionalAttempt (sample_attempt "a" None) Stopped "g1")].

Definition sample_reopened : list Call :=
  sample_calls ++ [CallApply "t1" (sample_context "r12" None) (CReopen "again")].
End Sample.

(** ** Theorems *)



(** C21. The log of a reachable owner is a legal history, and the owner is
    its projection: every event starts in the state the earlier events of its
    task left, takes a transition the lifecycle allows there and passed the
    professional gates; the owner knows exactly the tasks of the log, each
    record carries the state, sequence number and identity of the task's last
    event and counts its events as its revision, and the professional states
    are those the events carry. *)
Theorem task_log_determines_state (o : TaskLifecycleOwner) (Hr : reachable o) :
  legal_log (ow_events o) /\
  (forall k, is_Some (ow_tasks o !! k) <-> is_Some (last_event k (ow_events o))) /\
  (forall k r, ow_tasks o !! k = Some r -> record_matches o k r) /\
  ow_professional_execution o = logged_prof (ow_events o).
Proof.
  destruct (task_reachable_inv o Hr). split_and!; try done. intros k. split; [|apply inv_known0].
  intros [r Hk]. destruct (inv_tasks0 _ _ Hk) as (_ & _ & _ & e & -> & _). by eexists.
Qed.

Lemma task_log_determines_state_witness :
  legal_log (ow_events (sample_owner sample_calls)) /\
  length (ow_events (sample_owner sample_calls)) = 11%nat /\
  tr_state <$> ow_tasks (sample_owner sample_calls) !! "t1" = Some DoneVerified.
Proof.
  destruct (task_log_determines_state (sample_owner sample_calls) (task_sample_owner_reachable _))
    as (Hl & _ & _ & _).
  split; [exact Hl|]. split; vm_compute; reflexivity.
Defined.

(** The task log is append-only and gap-free: later logs extend earlier
    ones, and while the log fits the [u64] counter the event at position [i]
    carries sequence number [i + 1]. *)
Theorem task_log_contiguous (o o' : TaskLifecycleOwner) (Hr : reachable o)
    (Hs : rtc task_step o o') (Hlen : Z.of_nat (length (ow_events o')) < u64_max) :
  ow_events o `prefix_of` ow_events o' /\
  ow_next_sequence o' = Z.of_nat (length (ow_events o')) + 1 /\
  forall i e, ow_events o' !! i = Some e -> ev_sequence e = Z.of_nat i + 1.
Proof.
  split; [exact (@log_append_only _ _ _ task_causal_owner task_causal_laws o o' Hs)|].
  apply (@causal_wf_counts _ _ _ task_causal_owner); [|exact Hlen].
  exact (@causal_wf_steps _ _ _ task_causal_owner task_causal_laws o o' Hs
           (inv_causal _ (task_reachable_inv o Hr))).
Qed.

Lemma task_log_contiguous_witness : ow_next_sequence (sample_owner sample_calls) = 12.
Proof.
  destruct (task_log_contiguous (sample_owner []) (sample_owner sample_calls)
    (task_sample_owner_reachable _) (task_sample_owner_steps [] sample_calls)) as (_ & H & _);
    [vm_compute; reflexivity|]. rewrite H. vm_compute. reflexivity.
Defined.

(** Retry safety: once a proposal or command has succeeded, the same
    call made again, after any number of further calls, returns the same event
    and changes nothing. *)
Theorem task_retry_safe (c : Call) (o o1 o2 : TaskLifecycleOwner) (e : TaskLifecycleEvent)
    (Hc : call c o = (o1, Ok e)) (Hs : rtc task_step o1 o2) :
  call c o2 = (o2, Ok e).
Proof.
  destruct (task_call_answered _ _ _ _ Hc) as (Hadm & entry & He & Ha).
  destruct (task_steps_same_fence _ _ Hs) as [H1 H2].
  apply (@request_remembered _ _ _ task_causal_owner task_causal_laws o1 o2 _ _ Hs) in He.
  simpl in He. rewrite task_call_spec. unfold spec_call.
  by rewrite (task_admission_fence c o1 o2 H1 H2), Hadm, He, Ha.
Qed.

Lemma task_retry_safe_witness :
  exists e, call (sample_propose "r1" "t1") (sample_owner sample_calls) =
            (sample_owner sample_calls, Ok e) /\ ev_sequence e = 1.
Proof.
  eexists. split.
  - apply (task_retry_safe (sample_propose "r1" "t1") (sample_owner [])
             (sample_owner (take 1 sample_calls))).
    + vm_compute. reflexivity.
    + apply (task_sample_owner_steps (take 1 sample_calls) (drop 1 sample_calls)).
  - reflexivity.
Defined.

(** C22. Verified completion is earned: an event that ends in the verified
    state is a verification of a task that was being verified, and when the
    task has a professional contract some evidence recorded before it lists
    every expected deliverable exactly once and carries a result of the
    contract's own evaluator for that manifest. *)
Theorem task_verified_only_with_evaluator (o : TaskLifecycleOwner) (Hr : reachable o)
    (i : nat) (e : TaskLifecycleEvent) (Hi : ow_events o !! i = Some e)
    (Hto : ev_to e = DoneVerified) :
  ev_from e = Some Verifying /\
  (exists verification_ref, ev_command e = Some (CVerify verification_ref)) /\
  forall s, logged_prof (take i (ow_events o)) !! ev_task_id e = Some s ->
    exists ev r, ev ∈ ps_completion_evidence s /\ ce_evaluator_result ev = Some r /\
      evidence_complete (ps_contract s) ev /\
      evaluator_bound (ps_contract s) (ce_artifact_manifest ev) r.
Proof.
  pose proof (inv_log _ (task_reachable_inv o Hr)) as Hlog.
  destruct (Hlog _ _ Hi) as (_ & _ & Hm).
  destruct (ev_from e) as [s0|], (ev_command e) as [c|]; try done; [|congruence].
  destruct Hm as (Hall & Htgt & Hgate). rewrite Hto in Htgt.
  destruct (reaches_verified _ _ Hall (eq_sym Htgt)) as (-> & vref & ->).
  split_and!; [done|by eexists|]. intros s Hs. rewrite Hs in Hgate.
  apply require_evaluator_result_sound.
  - apply wf_contract, prof_reachable_wf. by apply (legal_log_prof _ i Hlog) in Hs.
  - unfold professional_gates in Hgate. apply rbind_ok in Hgate as ([] & Hgate & _).
    by apply map_err_ok in Hgate.
Qed.

Lemma task_verified_only_with_evaluator_witness :
  exists e, ow_events (sample_owner sample_calls) !! 10%nat = Some e /\
            ev_from e = Some Verifying.
Proof.
  destruct (ow_events (sample_owner sample_calls) !! 10%nat) as [e|] eqn:E;
    [|vm_compute in E; discriminate].
  exists e. split; [reflexivity|].
  refine (proj1 (task_verified_only_with_evaluator (sample_owner sample_calls)
                   (task_sample_owner_reachable _) 10 e E _)).
  vm_compute in E. injection E as <-. reflexivity.
Defined.

(** No silent abandonment: in a task with a professional contract, an
    event that blocks or fails it follows an attempt recorded as stopped, and
    one that moves it to the partial state is a stopped attempt or the
    controller's acceptance of a partial result. *)
Theorem task_no_silent_abandonment (o : TaskLifecycleOwner) (Hr : reachable o)
    (i : nat) (e : TaskLifecycleEvent) (s : ProfessionalExecutionState)
    (Hi : ow_events o !! i = Some e)
    (Hs : logged_prof (take i (ow_events o)) !! ev_task_id e = Some s)
    (Hmove : ev_from e <> Some (ev_to e)) :
  (ev_to e = Blocked \/ ev_to e = Failed -> latest_attempt_stopped_with_signal s = true) /\
  (ev_to e = Partial ->
     (exists a g, ev_command e = Some (CReportProfessionalAttempt a Stopped g)) \/
     (exists d r, ev_command e = Some (CDecideProfessionalAbandonment d) /\
                  ad_disposition d = AcceptPartial r)).
Proof.
  pose proof (inv_log _ (task_reachable_inv o Hr)) as Hlog.
  destruct (Hlog _ _ Hi) as (_ & _ & Hm).
  destruct (ev_from e) as [s0|], (ev_command e) as [c|]; try done; [|split; intros; intuition congruence].
  destruct Hm as (Hall & Htgt & Hgate). rewrite Hs in Hgate. rewrite Htgt in *.
  by apply abandonment_gated.
Qed.

Lemma task_no_silent_abandonment_witness :
  exists e, ow_events (sample_owner sample_abandoned) !! 7%nat = Some e /\ ev_to e = Partial /\
    ((exists a g, ev_command e = Some (CReportProfessionalAttempt a Stopped g)) \/
     (exists d r, ev_command e = Some (CDecideProfessionalAbandonment d) /\
                  ad_disposition d = AcceptPartial r)).
Proof.
  destruct (ow_events (sample_owner sample_abandoned) !! 7%nat) as [e|] eqn:E;
    [|vm_compute in E; discriminate].
  destruct (logged_prof (take 7 (ow_events (sample_owner sample_abandoned))) !! ev_task_id e)
    as [s|] eqn:Es; [|vm_compute in E; injection E as <-; vm_compute in Es; discriminate].
  exists e. split; [reflexivity|].
  assert (Hto : ev_to e = Partial) by (vm_compute in E; injection E as <-; reflexivity).
  split; [exact Hto|].
  refine (proj2 (task_no_silent_abandonment (sample_owner sample_abandoned)
                   (task_sample_owner_reachable _) 7 e s E Es _) Hto).
  vm_compute in E. injection E as <-. discriminate.
Defined.

(** Terminal states are left only on purpose: an event that starts in a
    terminal state is a reopening, which leads to the open state, or an
    abandonment decision, which never touches a verified task and leads
    nowhere or to the partial state. *)
Theorem task_terminal_exits (o : TaskLifecycleOwner) (Hr : reachable o)
    (i : nat) (e : TaskLifecycleEvent) (from : TaskState)
    (Hi : ow_events o !! i = Some e) (Hfrom : ev_from e = Some from)
    (Hterm : is_terminal from = true) :
  (exists r, ev_command e = Some (CReopen r) /\ ev_to e = Open) \/
  (exists d, ev_command e = Some (CDecideProfessionalAbandonment d) /\ from <> DoneVerified /\
             (ev_to e = from \/ ev_to e = Partial)).
Proof.
  destruct (inv_log _ (task_reachable_inv o Hr) _ _ Hi) as (_ & _ & Hm). rewrite Hfrom in Hm.
  destruct (ev_command e) as [c|]; [|done]. destruct Hm as (Hall & -> & _).
  destruct (terminal_exit _ _ Hall Hterm) as [[r ->]|(d & -> & Hne)]; [left; by exists r|].
  right. exists d. split_and!; [done|done|]. simpl. destruct (ad_disposition d); auto.
Qed.

Lemma task_terminal_exits_witness :
  exists e, ow_events (sample_owner sample_reopened) !! 11%nat = Some e /\
            ev_from e = Some DoneVerified /\ ev_to e = Open.
Proof.
  destruct (ow_events (sample_owner sample_reopened) !! 11%nat) as [e|] eqn:E;
    [|vm_compute in E; discriminate].
  assert (Hf : ev_from e = Some DoneVerified)
    by (vm_compute in E; injection E as <-; reflexivity).
  exists e. split; [reflexivity|]. split; [exact Hf|].
  destruct (task_terminal_exits (sample_owner sample_reopened) (task_sample_owner_reachable _)
              11 e DoneVerified E Hf eq_refl) as [(r & _ & H)|(d & _ & H & _)];
    [exact H|contradiction (H eq_refl)].
Defined.

(** Optimistic concurrency: a command that names the revision it was
    issued against and is accepted uses that revision up. Any later command
    for the same task that names the same revision is refused and changes
    nothing, whatever happens in between. *)
Theorem task_revision_exclusive (k : TaskId) (cx cx' : TaskCommandContext) (c c' : TaskCommand)
    (n : Z) (o o1 o2 : TaskLifecycleOwner) (e : TaskLifecycleEvent)
    (Hr : reachable o) (Hc : apply k cx c o = (o1, Ok e))
    (Hfresh : ow_requests o !! cx_request_id cx = None)
    (Hn : task_revision (cx_state_fence cx) = Some n)
    (Hs : rtc task_step o1 o2) (Hlen : Z.of_nat (length (ow_events o2)) < u64_max)
    (Hfresh' : ow_requests o2 !! cx_request_id cx' = None)
    (Hn' : task_revision (cx_state_fence cx') = Some n) :
  exists err, apply k cx' c' o2 = (o2, Err err).
Proof.
  change (apply k cx c o) with (call (CallApply k cx c) o) in Hc.
  destruct (apply k cx' c' o2) as [o3 r] eqn:Hc'.
  change (apply k cx' c' o2) with (call (CallApply k cx' c') o2) in Hc'.
  destruct (revision_of_accepted _ _ _ _ _ _ _ Hr Hc Hfresh Hn) as [Hrev Hlt].
  assert (Hr1 : reachable o1) by (by eapply reach_call).
  assert (Hr2 : reachable o2) by (by eapply steps_reachable).
  assert (Hle : (event_count k (ow_events o1) <= event_count k (ow_events o2))%nat)
    by (apply event_count_prefix, (@log_append_only _ _ _ task_causal_owner task_causal_laws o1 o2 Hs)).
  destruct r as [e'|err].
  - exfalso. destruct (revision_of_accepted _ _ _ _ _ _ _ Hr2 Hc' Hfresh' Hn') as [Hrev' Hlt'].
    pose proof (event_count_le k (ow_events o2)).
    rewrite wrap_u64_small in Hrev' by (split; lia).
    rewrite wrap_u64_small in Hrev by (split; lia). lia.
  - exists err. rewrite task_call_spec in Hc'. unfold spec_call in Hc'.
    repeat case_match; by simplify_eq.
Qed.

Lemma task_revision_exclusive_witness :
  exists err, apply "t1" (sample_context "late" (Some 5)) (CBlock "reason")
                (sample_owner sample_calls) = (sample_owner sample_calls, Err err).
Proof.
  destruct (apply "t1" (sample_context "r6" (Some 5)) CBeginExecution
              (sample_owner (take 5 sample_calls))) as [o1 [e|err]] eqn:E;
    [|vm_compute in E; discriminate].
  apply (task_revision_exclusive "t1" (sample_context "r6" (Some 5))
           (sample_context "late" (Some 5)) CBeginExecution (CBlock "reason") 5
           (sample_owner (take 5 sample_calls)) (sample_owner (take 6 sample_calls))
           (sample_owner sample_calls) e).
  - apply task_sample_owner_reachable.
  - rewrite E. f_equal. vm_compute in E. injection E as <- _. vm_compute. reflexivity.
  - vm_compute. reflexivity.
  - reflexivity.
  - apply (task_sample_owner_steps (take 6 sample_calls) (drop 6 sample_calls)).
  - vm_compute. reflexivity.
  - vm_compute. reflexivity.
  - reflexivity.
Defined.

(** Recovery round trip: rebuilding an owner from the snapshot of a
    reachable owner, under the same epoch and fence, passes every consistency
    check (sequence numbers, records, evidence history) and gives back the
    same tasks, log, sequence, professional states and the remembered answers
    to commands; only the answers to proposals are not rebuilt. *)
Theorem task_recovery_roundtrip (o : TaskLifecycleOwner) (Hr : reachable o)
    (Hlen : Z.of_nat (length (ow_events o)) < u64_max) :
  from_snapshot (ow_authority_epoch o) (ow_state_fence o) (snapshot o) =
  Ok (recovered (ow_authority_epoch o) (ow_state_fence o) o).
Proof. apply task_from_snapshot_recovers; [by apply task_reachable_inv|done]. Qed.

Lemma task_recovery_roundtrip_witness :
  is_ok (from_snapshot (authority_epoch sample_prof_fence) sample_prof_fence
           (snapshot (sample_owner sample_calls))) = true.
Proof.
  assert (He : ow_authority_epoch (sample_owner sample_calls) = authority_epoch sample_prof_fence)
    by (vm_compute; reflexivity).
  assert (Hf : ow_state_fence (sample_owner sample_calls) = sample_prof_fence)
    by (vm_compute; reflexivity).
  pose proof (task_recovery_roundtrip (sample_owner sample_calls)
    (task_sample_owner_reachable _) ltac:(vm_compute; reflexivity)) as H.
  rewrite He, Hf in H. rewrite H. reflexivity.
Defined.

(** Recovery forgets the answers to proposals: the retry of a proposal
    that is answered with its event before recovery is refused as a duplicate
    task after it, and its request id can then be taken by a command. *)
Theorem task_recovery_forgets_proposals :
  exists o o' p e cx,
    reachable o /\ propose p o = (o, Ok e) /\
    from_snapshot (ow_authority_epoch o) (ow_state_fence o) (snapshot o) = Ok o' /\
    propose p o' = (o', Err (DuplicateTask (tp_task_id p))) /\
    cx_request_id cx = cx_request_id (tp_context p) /\
    is_ok (apply (tp_task_id p) cx COpen o').2 = true /\
    (apply (tp_task_id p) cx COpen o).2 = Err (IdempotencyConflict (cx_request_id cx)).
Proof.
  exists (sample_owner (take 1 sample_calls)). eexists.
  exists {| tp_task_id := "t1"; tp_project_ref := "project"; tp_goal := "goal";
            tp_context := sample_context "r1" None |}.
  eexists. exists (sample_context "r1" None). split_and!.
  - apply task_sample_owner_reachable.
  - vm_compute. reflexivity.
  - vm_compute. reflexivity.
  - vm_compute. reflexivity.
  - reflexivity.
  - vm_compute. reflexivity.
  - vm_compute. reflexivity.
Qed.
