(* ===== verification/RoleLease.v ===== *)
(** * Role leases

    Compilation of agent roles into capability tokens, authorization against
    a token, and role transitions with their history
    (crates/kernel/eliot-ipc/src/role_lease.rs). [op] is the closed operation
    vocabulary; a [BTreeSet<String>] is a [gset string], listed in byte order
    where the code iterates over it. *)

From S2P Require Import Prelude RustText Contracts.
#[local] Open Scope string_scope.
#[local] Open Scope Z_scope.

(** ** Operation vocabulary *)

Module op.

Definition STATE_READ : string := "state.read".
Definition WORKGRAPH_READ : string := "workgraph.read".
Definition PLAN_READ : string := "plan.read".
Definition PLAN_REVISE : string := "plan.revise".
Definition PLAN_OVERWRITE : string := "plan.overwrite".
Definition TASK_ASSIGN : string := "task.assign".
Definition TASK_DISPOSITION_PROPOSE : string := "task.disposition.propose".
Definition TASK_FINISH : string := "task.finish".
Definition OUTCOME_REDEFINE : string := "outcome.redefine".
Definition EFFECT_EXECUTE : string := "effect.execute".
Definition EFFECT_LEASE_COVERED : string := "effect.lease_covered".
Definition MODULE_DEPLOY : string := "module.deploy".
Definition POLICY_WRITE : string := "policy.write".
Definition SCHEMA_WRITE : string := "schema.write".
Definition PROOF_PROMOTE : string := "proof.promote".
Definition PACKET_READ : string := "packet.read".
Definition QUERY : string := "query".
Definition OBSERVE : string := "observe".
Definition COORDINATE : string := "coordinate".
Definition WORK_ITEM_ACT : string := "work.item.act".
Definition EVIDENCE_SUBMIT : string := "evidence.submit".
Definition RESULT_CANDIDATE_SUBMIT : string := "result.candidate.submit".
Definition PATH_UNRELATED_WRITE : string := "path.unrelated.write".
Definition VERIFY : string := "verify".
Definition EVALUATION_CANDIDATE_CREATE : string := "evaluation.candidate.create".
Definition VERIFICATION_RUN : string := "verification.run".
Definition IMPLEMENTATION_MUTATE : string := "implementation.mutate".
Definition ACCEPTANCE_REDEFINE : string := "acceptance.redefine".
Definition VERIFIER_REDEFINE : string := "verifier.redefine".
Definition BUDGET_READ : string := "budget.read".
Definition CONFLICT_READ : string := "conflict.read".
Definition AGENT_COORDINATE : string := "agent.coordinate".

End op.

Definition KNOWN_OPERATIONS : list string :=
  [ op.STATE_READ; op.WORKGRAPH_READ; op.PLAN_READ; op.PLAN_REVISE; op.PLAN_OVERWRITE;
    op.TASK_ASSIGN; op.TASK_DISPOSITION_PROPOSE; op.TASK_FINISH; op.OUTCOME_REDEFINE;
    op.EFFECT_EXECUTE; op.EFFECT_LEASE_COVERED; op.MODULE_DEPLOY; op.POLICY_WRITE;
    op.SCHEMA_WRITE; op.PROOF_PROMOTE; op.PACKET_READ; op.QUERY; op.OBSERVE; op.COORDINATE;
    op.WORK_ITEM_ACT; op.EVIDENCE_SUBMIT; op.RESULT_CANDIDATE_SUBMIT; op.PATH_UNRELATED_WRITE;
    op.VERIFY; op.EVALUATION_CANDIDATE_CREATE; op.VERIFICATION_RUN; op.IMPLEMENTATION_MUTATE;
    op.ACCEPTANCE_REDEFINE; op.VERIFIER_REDEFINE; op.BUDGET_READ; op.CONFLICT_READ;
    op.AGENT_COORDINATE ].

(** [slice.contains(&item)] *)
Definition contains (l : list string) (x : string) : bool := bool_decide (x ∈ l).

(** ** Roles and errors *)

Inductive AgentRole : Type := TaskController | Worker | Verifier.

#[global] Instance AgentRole_eq_dec : EqDecision AgentRole.
Proof. solve_decision. Defined.

Inductive RoleLeaseError : Type :=
| Contract (e : ContractError)
| UnknownRole (label : string)
| RInvalidBinding (field : string)
| InvalidContextId
| ContextIdReused (context_id : string)
| RInvalidLeaseWindow (issued_at_unix_ms expires_at_unix_ms : Z)
| WorkItemRequired (role : AgentRole)
| ForbiddenGrantAttempted (role : AgentRole) (operation : string)
| UnknownNarrowingOperation (operation : string)
| LeaseEpochNotAdvanced (prev next : Z)
| DowngradeRecordRequired (from to : AgentRole)
| DowngradeMismatch (expected_from expected_to : AgentRole)
| DowngradeTargetNotMutating (to : AgentRole)
| DowngradeNotYetRecorded (recorded_at_unix_ms : Z)
| ContextRevoked (context_id : string)
| LeaseNotYetValid (context_id : string)
| LeaseExpired (context_id : string)
| UnknownOperation (operation : string)
| ForbiddenOperation (role : AgentRole) (operation : string)
| NotAuthorized (role : AgentRole) (operation : string).

#[global] Instance RoleLeaseError_eq_dec : EqDecision RoleLeaseError.
Proof. solve_decision. Defined.

(** [Display for AgentRole] *)
Definition AgentRole_to_string (r : AgentRole) : string :=
  match r with
  | TaskController => "task-controller"
  | Worker => "worker"
  | Verifier => "verifier"
  end.

Definition VERIFIER_LABEL : string := "verifier".

Definition AgentRole_parse (label : string) : result RoleLeaseError AgentRole :=
  if label == "task-controller" then Ok TaskController
  else if label == "worker" then Ok Worker
  else if label == VERIFIER_LABEL then Ok Verifier
  else Err (UnknownRole label).

Definition is_mutating (r : AgentRole) : bool :=
  match r with
  | Worker => true
  | _ => false
  end.

Definition default_allow (r : AgentRole) : list string :=
  match r with
  | TaskController =>
      [ op.STATE_READ; op.WORKGRAPH_READ; op.PLAN_READ; op.PLAN_REVISE; op.TASK_ASSIGN;
        op.TASK_DISPOSITION_PROPOSE; op.BUDGET_READ; op.CONFLICT_READ; op.AGENT_COORDINATE ]
  | Worker =>
      [ op.STATE_READ; op.PACKET_READ; op.QUERY; op.OBSERVE; op.COORDINATE; op.WORK_ITEM_ACT;
        op.EVIDENCE_SUBMIT; op.RESULT_CANDIDATE_SUBMIT; op.EFFECT_LEASE_COVERED ]
  | Verifier =>
      [ op.STATE_READ; op.QUERY; op.VERIFY; op.OBSERVE; op.EVALUATION_CANDIDATE_CREATE;
        op.VERIFICATION_RUN ]
  end.

Definition default_forbid (r : AgentRole) : list string :=
  match r with
  | TaskController =>
      [ op.OUTCOME_REDEFINE; op.TASK_FINISH; op.EFFECT_EXECUTE; op.MODULE_DEPLOY;
        op.POLICY_WRITE; op.PROOF_PROMOTE; op.PLAN_OVERWRITE; op.IMPLEMENTATION_MUTATE ]
  | Worker =>
      [ op.TASK_FINISH; op.PLAN_OVERWRITE; op.PLAN_REVISE; op.POLICY_WRITE; op.SCHEMA_WRITE;
        op.PATH_UNRELATED_WRITE; op.OUTCOME_REDEFINE; op.EFFECT_EXECUTE; op.TASK_ASSIGN ]
  | Verifier =>
      [ op.ACCEPTANCE_REDEFINE; op.VERIFIER_REDEFINE; op.IMPLEMENTATION_MUTATE; op.TASK_FINISH;
        op.PROOF_PROMOTE; op.PLAN_OVERWRITE; op.PLAN_REVISE; op.EFFECT_EXECUTE;
        op.EFFECT_LEASE_COVERED; op.WORK_ITEM_ACT ]
  end.

Definition requires_work_item (r : AgentRole) : bool :=
  match r with
  | Worker | Verifier => true
  | TaskController => false
  end.

(** ** Bindings, tokens and contexts *)

Record ScopeBinding : Type := {
  scope : string;
  sb_task_id : string;
  work_item_id : option string;
  sb_route : string;
  governance_revision : string;
  sb_state_fence : StateFence;
  lease_epoch : Z;
  issued_at_unix_ms : Z;
  expires_at_unix_ms : Z;
}.

Record WorkScopePolicy : Type := { ws_allow_subset : option (gset string) }.

Record DelegatedAuthority : Type := { da_allow_subset : option (gset string) }.

Record IndependenceDowngrade : Type := {
  from_role : AgentRole;
  to_role : AgentRole;
  reason : string;
  recorded_at_unix_ms : Z;
}.

Record IndependenceProfile : Type := {
  roles_held : list AgentRole;
  downgraded : bool;
  downgrade_records : list IndependenceDowngrade;
}.

Record CapabilityToken : Type := {
  context_id : string;
  role : AgentRole;
  binding : ScopeBinding;
  allowed : gset string;
  forbidden : gset string;
  revoked : bool;
  superseded_by : option string;
}.

Record RoleTransitionRecord : Type := {
  prev_context_id : string;
  new_context_id : string;
  prev_role : AgentRole;
  new_role : AgentRole;
  rt_lease_epoch : Z;
  independence_downgraded : bool;
}.

Record CapabilityContext : Type := {
  active : CapabilityToken;
  revoked_contexts : list CapabilityToken;
  independence : IndependenceProfile;
  transitions : list RoleTransitionRecord;
}.

(** ** Validation *)

Definition validate_non_empty (field value : string) : result RoleLeaseError unit :=
  guard_err (is_blank value || has_control value) (RInvalidBinding field).

Definition validate_context_id (context_id : string) : result RoleLeaseError unit :=
  guard_err (is_blank context_id || has_control context_id) InvalidContextId.

Definition validate_binding (r : AgentRole) (b : ScopeBinding) : result RoleLeaseError unit :=
  check? validate_non_empty "scope" (scope b);
  check? validate_non_empty "task_id" (sb_task_id b);
  check? validate_non_empty "route" (sb_route b);
  check? validate_non_empty "governance_revision" (governance_revision b);
  check? map_err Contract (StateFence_validate (sb_state_fence b));
  check? (if requires_work_item r then
            match work_item_id b with
            | Some item => validate_non_empty "work_item_id" item
            | None => Err (WorkItemRequired r)
            end
          else match work_item_id b with
               | Some item => validate_non_empty "work_item_id" item
               | None => Ok tt
               end);
  guard_err (expires_at_unix_ms b <=? issued_at_unix_ms b)
    (RInvalidLeaseWindow (issued_at_unix_ms b) (expires_at_unix_ms b)).

Definition IndependenceDowngrade_validate (self : IndependenceDowngrade) (from to : AgentRole)
    (now_unix_ms : Z) : result RoleLeaseError unit :=
  check? guard_err ((from_role self != from) || (to_role self != to)) (DowngradeMismatch from to);
  check? guard_err (negb (is_mutating (to_role self))) (DowngradeTargetNotMutating (to_role self));
  check? validate_non_empty "reason" (reason self);
  guard_err (now_unix_ms <? recorded_at_unix_ms self)
    (DowngradeNotYetRecorded (recorded_at_unix_ms self)).

(** ** Compilation *)

(** The body of the loop over one narrowing operation. *)
Definition check_narrowing_operation (r : AgentRole) (operation : string)
    : result RoleLeaseError unit :=
  check? guard_err (negb (contains KNOWN_OPERATIONS operation))
           (UnknownNarrowingOperation operation);
  guard_err (contains (default_forbid r) operation) (ForbiddenGrantAttempted r operation).

(** [if let Some(narrow) = subset { allowed.retain(|item| narrow.contains(item)) }] *)
Definition retain_in (subset : option (gset string)) (items : gset string) : gset string :=
  match subset with
  | Some narrow => filter (fun item => item ∈ narrow) items
  | None => items
  end.

Definition compile_capability (cid : string) (r : AgentRole) (b : ScopeBinding)
    (workscope : WorkScopePolicy) (delegated : DelegatedAuthority)
    : result RoleLeaseError CapabilityToken :=
  check? validate_context_id cid;
  check? validate_binding r b;
  check? for_each (fun narrowing => for_each (check_narrowing_operation r)
                                      (btree_set_iter narrowing))
           (omap id [ws_allow_subset workscope; da_allow_subset delegated]);
  let allow0 : gset string := list_to_set (default_allow r) in
  let allow1 := retain_in (ws_allow_subset workscope) allow0 in
  let allow2 := retain_in (da_allow_subset delegated) allow1 in
  let forbid : gset string := list_to_set (default_forbid r) in
  let allow3 := filter (fun item => item ∉ forbid) allow2 in
  Ok {| context_id := cid; role := r; binding := b; allowed := allow3; forbidden := forbid;
        revoked := false; superseded_by := None |}.

(** ** Authorization *)

Definition authorize (self : CapabilityToken) (operation : string) (now_unix_ms : Z)
    : result RoleLeaseError unit :=
  check? guard_err (revoked self) (ContextRevoked (context_id self));
  check? guard_err (now_unix_ms <? issued_at_unix_ms (binding self))
           (LeaseNotYetValid (context_id self));
  check? guard_err (expires_at_unix_ms (binding self) <=? now_unix_ms)
           (LeaseExpired (context_id self));
  check? guard_err (negb (contains KNOWN_OPERATIONS operation)) (UnknownOperation operation);
  check? guard_err (bool_decide (operation ∈ forbidden self))
           (ForbiddenOperation (role self) operation);
  if bool_decide (operation ∈ allowed self) then Ok tt
  else Err (NotAuthorized (role self) operation).

(** ** Admission and transition *)

Definition admit_capability (cid : string) (r : AgentRole) (b : ScopeBinding)
    (workscope : WorkScopePolicy) (delegated : DelegatedAuthority)
    : result RoleLeaseError CapabilityContext :=
  let? token := compile_capability cid r b workscope delegated in
  Ok {| active := token; revoked_contexts := [];
        independence := {| roles_held := [r]; downgraded := false; downgrade_records := [] |};
        transitions := [] |}.

(** The [match (&prev_role, new_role, downgrade)] of [transition]. *)
Definition select_downgrade (prev new : AgentRole) (downgrade : option IndependenceDowngrade)
    (now_unix_ms : Z) : result RoleLeaseError (option IndependenceDowngrade) :=
  match prev, downgrade with
  | Verifier, None =>
      if is_mutating new then Err (DowngradeRecordRequired prev new) else Ok None
  | _, Some record =>
      check? IndependenceDowngrade_validate record prev new now_unix_ms; Ok (Some record)
  | _, None => Ok None
  end.

(** The closing of the active token: [CapabilityToken { revoked: true,
    superseded_by: Some(new_context_id), ..self.active.clone() }]. *)
Definition close_token (t : CapabilityToken) (successor : string) : CapabilityToken :=
  {| context_id := context_id t; role := role t; binding := binding t; allowed := allowed t;
     forbidden := forbidden t; revoked := true; superseded_by := Some successor |}.

Definition note_role (p : IndependenceProfile) (r : AgentRole)
    (record : option IndependenceDowngrade) : IndependenceProfile :=
  match record with
  | Some d => {| roles_held := roles_held p ++ [r]; downgraded := true;
                 downgrade_records := downgrade_records p ++ [d] |}
  | None => {| roles_held := roles_held p ++ [r]; downgraded := downgraded p;
               downgrade_records := downgrade_records p |}
  end.

Definition transition (cid : string) (new : AgentRole) (new_binding : ScopeBinding)
    (workscope : WorkScopePolicy) (delegated : DelegatedAuthority)
    (downgrade : option IndependenceDowngrade) (now_unix_ms : Z)
    : M CapabilityContext RoleLeaseError RoleTransitionRecord :=
  let! self := mstate in
  let prev := role (active self) in
  let! downgrade_record := mlift (select_downgrade prev new downgrade now_unix_ms) in
  do! mlift (guard_err (lease_epoch new_binding <=? lease_epoch (binding (active self)))
               (LeaseEpochNotAdvanced (lease_epoch (binding (active self)))
                  (lease_epoch new_binding)));
  do! mlift (validate_context_id cid);
  do! mlift (guard_err ((cid == context_id (active self))
                        || existsb (fun context => context_id context == cid)
                             (revoked_contexts self))
               (ContextIdReused cid));
  let! token := mlift (compile_capability cid new new_binding workscope delegated) in
  let record :=
    {| prev_context_id := context_id (active self); new_context_id := cid; prev_role := prev;
       new_role := new; rt_lease_epoch := lease_epoch new_binding;
       independence_downgraded := is_some downgrade_record |} in
  do! mmodify (fun c =>
        {| active := token;
           revoked_contexts := revoked_contexts c ++ [close_token (active c) cid];
           independence := note_role (independence c) new downgrade_record;
           transitions := transitions c ++ [record] |});
  mret_ok record.

(** ** Specification of a compiled capability *)

Definition binding_valid (r : AgentRole) (b : ScopeBinding) : Prop :=
  text_ok (scope b) = true /\ text_ok (sb_task_id b) = true /\ text_ok (sb_route b) = true /\
  text_ok (governance_revision b) = true /\ resource_generation (sb_state_fence b) <> 0 /\
  (requires_work_item r = true -> is_Some (work_item_id b)) /\
  (forall item, work_item_id b = Some item -> text_ok item = true) /\
  issued_at_unix_ms b < expires_at_unix_ms b.

Definition narrowings (workscope : WorkScopePolicy) (delegated : DelegatedAuthority)
    : list (gset string) :=
  omap id [ws_allow_subset workscope; da_allow_subset delegated].

(** Every narrowing set names only known operations the role does not forbid. *)
Definition narrowing_admissible (r : AgentRole) (workscope : WorkScopePolicy)
    (delegated : DelegatedAuthority) : Prop :=
  forall s o, s ∈ narrowings workscope delegated -> o ∈ s ->
              o ∈ KNOWN_OPERATIONS /\ o ∉ default_forbid r.

(** The operations a role keeps after both narrowings. *)
Definition permitted (r : AgentRole) (workscope : WorkScopePolicy)
    (delegated : DelegatedAuthority) (o : string) : Prop :=
  o ∈ default_allow r /\ forall s, s ∈ narrowings workscope delegated -> o ∈ s.

Section Compilation.

Lemma text_guard_ok (E : Type) (v : string) (e : E) :
  guard_err (is_blank v || has_control v) e = Ok tt <-> text_ok v = true.
Proof. unfold text_ok. rewrite guard_err_ok, negb_true_iff. done. Qed.

Lemma contains_spec l x : contains l x = true <-> x ∈ l.
Proof. unfold contains. by rewrite bool_decide_eq_true. Qed.

(** The default sets are disjoint and inside the vocabulary. *)
Lemma default_allow_known r o :
  o ∈ default_allow r -> o ∈ KNOWN_OPERATIONS /\ o ∉ default_forbid r.
Proof.
  revert o. apply Forall_forall.
  destruct r; apply (bool_decide_unpack _); vm_compute; exact I.
Qed.

Lemma narrowings_elem ws da s :
  s ∈ narrowings ws da <-> ws_allow_subset ws = Some s \/ da_allow_subset da = Some s.
Proof.
  unfold narrowings. rewrite list_elem_of_omap. split.
  - intros (x & Hx & Hid). unfold id in Hid. subst x. rewrite !elem_of_cons in Hx.
    set_solver.
  - intros [H|H]; eexists; (split; [|exact H]); set_solver.
Qed.

Lemma validate_binding_ok r b : validate_binding r b = Ok tt <-> binding_valid r b.
Proof.
  unfold validate_binding, binding_valid, validate_non_empty.
  rewrite !check_ok, !text_guard_ok, map_err_ok, StateFence_validate_ok, guard_err_ok, Z.leb_gt.
  split; intros (? & ? & ? & ? & ? & H); split_and!; try done; try apply H.
  - intros Hr. destruct H as [H _]. rewrite Hr in H. destruct (work_item_id b); [eauto|done].
  - intros item Hi. destruct H as [H _]. rewrite Hi in H.
    destruct (requires_work_item r); by rewrite text_guard_ok in H.
  - destruct H as (Hr & Hi & _). destruct (requires_work_item r).
    + destruct (Hr eq_refl) as [item Hs]. rewrite Hs. apply text_guard_ok. eauto.
    + destruct (work_item_id b); [|done]. apply text_guard_ok. eauto.
Qed.

Lemma check_narrowing_ok r ws da :
  for_each (fun narrowing => for_each (check_narrowing_operation r) (btree_set_iter narrowing))
    (omap id [ws_allow_subset ws; da_allow_subset da]) = Ok tt <->
  narrowing_admissible r ws da.
Proof.
  rewrite for_each_ok, Forall_forall. unfold narrowing_admissible, narrowings.
  apply forall_proper; intros s. split.
  - intros H o Hs Ho. specialize (H Hs). rewrite for_each_ok, Forall_forall in H.
    assert (Hin : o ∈ btree_set_iter s).
    { unfold btree_set_iter. by rewrite merge_sort_Permutation, elem_of_elements. }
    specialize (H o Hin). unfold check_narrowing_operation in H.
    apply rbind_ok in H as ([] & H1 & H2). rewrite guard_err_ok in H1, H2.
    rewrite negb_false_iff, contains_spec in H1. split; [done|].
    intros Hf. apply contains_spec in Hf. congruence.
  - intros H Hs. rewrite for_each_ok, Forall_forall. intros o Ho.
    unfold btree_set_iter in Ho. rewrite merge_sort_Permutation, elem_of_elements in Ho.
    destruct (H o Hs Ho) as [Hk Hf]. unfold check_narrowing_operation.
    apply rbind_ok. exists tt. rewrite !guard_err_ok, negb_false_iff, contains_spec.
    split; [done|]. unfold contains. by rewrite bool_decide_eq_false.
Qed.

Lemma retain_in_elem subset items o :
  o ∈ retain_in subset items <-> o ∈ items /\ forall s, subset = Some s -> o ∈ s.
Proof. unfold retain_in. destruct subset; [rewrite elem_of_filter|]; naive_solver. Qed.

End Compilation.

(** The token a successful compilation returns, as a specification. *)
Definition token_of (cid : string) (r : AgentRole) (b : ScopeBinding) (ws : WorkScopePolicy)
    (da : DelegatedAuthority) (t : CapabilityToken) : Prop :=
  context_id t = cid /\ role t = r /\ binding t = b /\ revoked t = false /\
  superseded_by t = None /\
  (forall o, o ∈ allowed t <-> permitted r ws da o) /\
  (forall o, o ∈ forbidden t <-> o ∈ default_forbid r).

Lemma compile_ok cid r b ws da t :
  compile_capability cid r b ws da = Ok t <->
  text_ok cid = true /\ binding_valid r b /\ narrowing_admissible r ws da /\
  token_of cid r b ws da t.
Proof.
  unfold compile_capability, validate_context_id. cbv zeta. set (allow := filter _ _).
  assert (Ha : forall o, o ∈ allow <-> permitted r ws da o).
  { intros o. unfold allow. rewrite elem_of_filter, !retain_in_elem, !elem_of_list_to_set.
    unfold permitted. setoid_rewrite narrowings_elem. split; [naive_solver|].
    intros [Ho Hs]. destruct (default_allow_known r o Ho). naive_solver. }
  clearbody allow. split.
  - intros ([] & H1 & ([] & H2 & ([] & H3 & [= <-])%rbind_ok)%rbind_ok)%rbind_ok.
    rewrite text_guard_ok in H1. rewrite validate_binding_ok in H2.
    rewrite check_narrowing_ok in H3. unfold token_of; simpl. split_and!; try done.
    intros o. by rewrite elem_of_list_to_set.
  - intros (H1 & H2 & H3 & <- & <- & <- & Hr & Hsup & Hal & Hfo). destruct t; simpl in *; subst.
    apply rbind_ok. exists tt; split; [by apply text_guard_ok|].
    apply rbind_ok. exists tt; split; [by apply validate_binding_ok|].
    apply rbind_ok. exists tt; split; [by apply check_narrowing_ok|]. f_equal. f_equal.
    + apply set_eq. intros o. by rewrite Ha, Hal.
    + apply set_eq. intros o. by rewrite elem_of_list_to_set, Hfo.
Qed.

Lemma capability_authorize_ok t o now :
  authorize t o now = Ok tt <->
  revoked t = false /\ issued_at_unix_ms (binding t) <= now < expires_at_unix_ms (binding t) /\
  o ∈ KNOWN_OPERATIONS /\ o ∉ forbidden t /\ o ∈ allowed t.
Proof.
  unfold authorize. rewrite !check_guard_ok, Z.ltb_ge, Z.leb_gt, negb_false_iff, contains_spec,
    bool_decide_eq_false.
  split; [|intros (? & [? ?] & ? & ? & ?); rewrite bool_decide_eq_true_2 by done; by split_and!].
  intros (? & ? & ? & ? & ? & ?). case_bool_decide; naive_solver.
Qed.

(** ** Contexts over time *)

(** A call of [transition] with its arguments. *)
Record TransitionCall : Type := {
  tc_context_id : string;
  tc_role : AgentRole;
  tc_binding : ScopeBinding;
  tc_workscope : WorkScopePolicy;
  tc_delegated : DelegatedAuthority;
  tc_downgrade : option IndependenceDowngrade;
  tc_now : Z;
}.

Definition transition_call (a : TransitionCall)
    : M CapabilityContext RoleLeaseError RoleTransitionRecord :=
  transition (tc_context_id a) (tc_role a) (tc_binding a) (tc_workscope a) (tc_delegated a)
    (tc_downgrade a) (tc_now a).

(** Contexts produced by an admission and any calls after it, failed ones
    included. *)
Inductive context_reach : CapabilityContext -> Prop :=
| reach_admit cid r b ws da c :
    admit_capability cid r b ws da = Ok c -> context_reach c
| reach_transition c a c' res :
    context_reach c -> transition_call a c = (c', res) -> context_reach c'.

(** Every token the context ever held, oldest first. *)
Definition tokens (c : CapabilityContext) : list CapabilityToken :=
  revoked_contexts c ++ [active c].

(** One transition record ties a token to its successor. *)
Definition link (t u : CapabilityToken) (rec : RoleTransitionRecord) : Prop :=
  superseded_by t = Some (context_id u) /\
  lease_epoch (binding t) < lease_epoch (binding u) /\
  prev_context_id rec = context_id t /\ new_context_id rec = context_id u /\
  prev_role rec = role t /\ new_role rec = role u /\
  rt_lease_epoch rec = lease_epoch (binding u) /\
  (role t = Verifier -> is_mutating (role u) = true -> independence_downgraded rec = true).

Fixpoint linked (ts : list CapabilityToken) (recs : list RoleTransitionRecord) : Prop :=
  match ts, recs with
  | t :: ((u :: _) as ts'), rec :: recs' => link t u rec /\ linked ts' recs'
  | [_], [] => True
  | _, _ => False
  end.

(** What a token carries whatever narrowing it was compiled with. *)
Definition token_sound (t : CapabilityToken) : Prop :=
  text_ok (context_id t) = true /\ binding_valid (role t) (binding t) /\
  (forall o, o ∈ allowed t -> o ∈ default_allow (role t)) /\
  (forall o, o ∈ forbidden t <-> o ∈ default_forbid (role t)).

Record context_ok (c : CapabilityContext) : Prop := {
  ok_active : revoked (active c) = false /\ superseded_by (active c) = None;
  ok_revoked : Forall (fun t => revoked t = true) (revoked_contexts c);
  ok_sound : Forall token_sound (tokens c);
  ok_ids : NoDup (context_id <$> tokens c);
  ok_linked : linked (tokens c) (transitions c);
  ok_roles : roles_held (independence c) = role <$> tokens c;
  ok_downgraded :
    downgraded (independence c) = existsb independence_downgraded (transitions c);
  ok_records :
    length (downgrade_records (independence c)) =
    length (filter (fun rec => independence_downgraded rec = true) (transitions c));
  ok_records_mutating :
    Forall (fun d => is_mutating (to_role d) = true) (downgrade_records (independence c));
}.

Lemma compile_sound cid r b ws da t :
  compile_capability cid r b ws da = Ok t ->
  token_sound t /\ context_id t = cid /\ role t = r /\ binding t = b /\ revoked t = false /\
  superseded_by t = None.
Proof.
  intros (Hid & Hb & _ & <- & <- & <- & Hr & Hs & Ha & Hf)%compile_ok.
  split_and!; try done. unfold token_sound. split_and!; try done.
  intros o Ho. by apply Ha in Ho as [? _].
Qed.

Lemma admit_context_ok cid r b ws da c :
  admit_capability cid r b ws da = Ok c -> context_ok c.
Proof.
  unfold admit_capability. intros (t & Ht & [= <-])%rbind_ok.
  apply compile_sound in Ht as (Hs & Hid & Hr & Hb & Hv & Hsup).
  constructor; simpl; try done.
  - by apply Forall_singleton.
  - apply NoDup_singleton.
  - by rewrite Hr.
Qed.

Lemma linked_snoc ts t u recs rec :
  linked (ts ++ [t]) recs -> link (close_token t (context_id u)) u rec ->
  linked (ts ++ [close_token t (context_id u)] ++ [u]) (recs ++ [rec]).
Proof.
  revert recs. induction ts as [|t0 ts IH]; intros recs Hl Hk.
  - destruct recs; [done|]. by destruct Hl.
  - assert (Hsplit : exists h tl, (ts ++ [t] = h :: tl)%list) by (destruct ts; simpl; eauto).
    destruct Hsplit as (h & tl & Hh). simpl in Hl. rewrite Hh in Hl.
    destruct recs as [|r recs]; [done|]. destruct Hl as [H0 Hl].
    rewrite <- Hh in Hl. specialize (IH _ Hl Hk).
    destruct ts as [|t1 ts]; simpl in *; simplify_eq; split; done.
Qed.

(** What a successful transition checked and did. *)
Lemma role_transition_ok a c c' rec :
  transition_call a c = (c', Ok rec) ->
  exists d token,
    select_downgrade (role (active c)) (tc_role a) (tc_downgrade a) (tc_now a) = Ok d /\
    lease_epoch (binding (active c)) < lease_epoch (tc_binding a) /\
    tc_context_id a ∉ context_id <$> tokens c /\
    compile_capability (tc_context_id a) (tc_role a) (tc_binding a) (tc_workscope a)
      (tc_delegated a) = Ok token /\
    rec = {| prev_context_id := context_id (active c); new_context_id := tc_context_id a;
             prev_role := role (active c); new_role := tc_role a;
             rt_lease_epoch := lease_epoch (tc_binding a);
             independence_downgraded := is_some d |} /\
    c' = {| active := token;
            revoked_contexts := revoked_contexts c ++ [close_token (active c) (tc_context_id a)];
            independence := note_role (independence c) (tc_role a) d;
            transitions := transitions c ++ [rec] |}.
Proof.
  unfold transition_call, transition, validate_context_id. intros H. run. bool_facts.
  exists a0, a1. split_and!; try done; [lia|].
  unfold tokens. rewrite fmap_app, elem_of_app. simpl. rewrite list_elem_of_singleton.
  intros [Hin|Hin]; [|done]. apply list_elem_of_fmap in Hin as (t & Heq & Hin).
  apply existsb_false_iff in H0. rewrite Forall_forall in H0. specialize (H0 t Hin).
  bool_facts. congruence.
Qed.

(** A failed transition leaves the context as it was. *)
Lemma role_transition_err a c c' e : transition_call a c = (c', Err e) -> c' = c.
Proof. unfold transition_call, transition. intros H. by run. Qed.

Lemma select_downgrade_ok prev new d now o :
  select_downgrade prev new d now = Ok o ->
  o = d /\ (prev = Verifier -> is_mutating new = true -> is_some o = true) /\
  (forall r, o = Some r -> is_mutating (to_role r) = true).
Proof.
  intros H. assert (Hv : forall r, IndependenceDowngrade_validate r prev new now = Ok tt ->
                                  is_mutating (to_role r) = true).
  { intros r. unfold IndependenceDowngrade_validate. rewrite !check_guard_ok.
    intros (_ & Hm%negb_false_iff & _). done. }
  unfold select_downgrade in H. destruct d as [r|].
  - assert (H' : rbind (IndependenceDowngrade_validate r prev new now)
                   (fun _ => Ok (Some r)) = Ok o) by (destruct prev; exact H).
    apply check_ok in H' as [H1 [= <-]]. split_and!; [done..|]. intros ? [= <-]. by apply Hv.
  - destruct prev; [| |destruct (is_mutating new)]; simplify_eq/=; by split_and!.
Qed.

Lemma transition_context_ok a c c' res :
  context_ok c -> transition_call a c = (c', res) -> context_ok c'.
Proof.
  intros Hc H. destruct res as [rec|e]; [|by apply role_transition_err in H as ->].
  apply role_transition_ok in H as (d & t & Hd & He & Hid & Ht & Hrec & ->).
  apply compile_sound in Ht as (Hts & Hti & Htr & Htb & Htv & Htu).
  apply select_downgrade_ok in Hd as (_ & Hneed & Hmut). destruct Hc as [Ha Hr Hs Hn Hl Hro Hdg Hrc Hrm].
  assert (Htok : forall ind trs, tokens {| active := t;
      revoked_contexts := revoked_contexts c ++ [close_token (active c) (tc_context_id a)];
      independence := ind; transitions := trs |} =
      (revoked_contexts c ++ [close_token (active c) (tc_context_id a)] ++ [t])%list).
  { intros. unfold tokens. simpl. by rewrite <- app_assoc. }
  unfold tokens in Hs, Hn, Hl, Hro, Hid.
  rewrite fmap_app in Hn, Hid. rewrite Forall_app, Forall_singleton in Hs.
  constructor; rewrite ?Htok; simpl.
  - done.
  - by apply Forall_app, conj, Forall_singleton.
  - rewrite Forall_app, !Forall_cons. destruct Hs. split_and!; try done.
  - rewrite fmap_app. simpl.
    change [context_id (active c); context_id t] with ([context_id (active c)] ++ [context_id t])%list.
    rewrite app_assoc. apply NoDup_app. rewrite Hti. split_and!; [done| |apply NoDup_singleton].
    intros x Hx ->%list_elem_of_singleton. done.
  - rewrite <- Hti. apply linked_snoc; [done|]. subst rec. unfold link; simpl.
    rewrite Hti, Htr, Htb. by split_and!.
  - unfold note_role. destruct d; simpl; rewrite Hro, !fmap_app, <- app_assoc; simpl; by rewrite Htr.
  - rewrite existsb_app. subst rec. simpl. rewrite <- Hdg. destruct d; simpl.
    + by rewrite orb_true_r.
    + by rewrite orb_false_r.
  - rewrite filter_app, length_app, <- Hrc. subst rec. destruct d; simpl; [|lia].
    rewrite length_app. done.
  - unfold note_role. destruct d; simpl; [|done]. apply Forall_app, conj, Forall_singleton; eauto.
Qed.

Lemma compile_succeeds cid r b ws da :
  text_ok cid = true -> binding_valid r b -> narrowing_admissible r ws da ->
  exists t, compile_capability cid r b ws da = Ok t.
Proof.
  intros Hid Hb%validate_binding_ok Hn%check_narrowing_ok. unfold compile_capability.
  rewrite Hb, Hn. unfold validate_context_id.
  apply (text_guard_ok _ _ InvalidContextId) in Hid. rewrite Hid. simpl. eauto.
Qed.

(** Compilation succeeds exactly for a clean context identity, a valid
    binding and narrowing sets that name only known, non-forbidden
    operations; the token it returns authorizes an operation exactly inside
    the lease window and exactly when the role default and both narrowings
    keep it, so work scope and delegation only ever narrow. *)
Theorem capability_exact (cid : string) (r : AgentRole) (b : ScopeBinding)
    (ws : WorkScopePolicy) (da : DelegatedAuthority) :
  ((exists t, compile_capability cid r b ws da = Ok t) <->
   text_ok cid = true /\ binding_valid r b /\ narrowing_admissible r ws da) /\
  (forall t o now, compile_capability cid r b ws da = Ok t ->
     (authorize t o now = Ok tt <->
      issued_at_unix_ms b <= now < expires_at_unix_ms b /\ permitted r ws da o)).
Proof.
  split.
  - split; [intros [t (H1 & H2 & H3 & _)%compile_ok]; done|].
    intros (? & ? & ?). by apply compile_succeeds.
  - intros t o now (_ & _ & _ & _ & _ & Hb & Hr & _ & Ha & Hf)%compile_ok.
    rewrite capability_authorize_ok, Hb, Hr, Ha, Hf. split; [naive_solver|].
    intros [Hw Hp]. destruct (default_allow_known r o ltac:(apply Hp)). auto.
Qed.

(** A token that is retained but closed denies every operation. *)
Lemma authorize_revoked t o now :
  revoked t = true -> authorize t o now = Err (ContextRevoked (context_id t)).
Proof. intros H. unfold authorize. by rewrite H. Qed.

Lemma context_reach_ok c : context_reach c -> context_ok c.
Proof. induction 1; eauto using admit_context_ok, transition_context_ok. Qed.

(** Every context reachable by an admission and any sequence of role
    transitions, failed ones included, keeps its history exact: retained
    tokens are closed and name their successor, lease epochs strictly rise,
    context identities never repeat, each transition record ties its two
    tokens, the independence profile lists the roles in order and counts the
    downgrade records, and a direct move from Verifier to a mutating role
    carries one. *)
Theorem role_context_invariant (c : CapabilityContext) (H : context_reach c) : context_ok c.
Proof. by apply context_reach_ok. Qed.

(** Operations no role default grants. *)
Definition ungranted : list string :=
  [ op.TASK_FINISH; op.PLAN_OVERWRITE; op.OUTCOME_REDEFINE; op.EFFECT_EXECUTE;
    op.MODULE_DEPLOY; op.POLICY_WRITE; op.SCHEMA_WRITE; op.PROOF_PROMOTE;
    op.PATH_UNRELATED_WRITE; op.IMPLEMENTATION_MUTATE; op.ACCEPTANCE_REDEFINE;
    op.VERIFIER_REDEFINE ].

(** Operations that judge work, and operations that direct or produce it. *)
Definition judging : list string :=
  [ op.VERIFY; op.EVALUATION_CANDIDATE_CREATE; op.VERIFICATION_RUN ].

Definition producing : list string :=
  [ op.PLAN_REVISE; op.TASK_ASSIGN; op.WORK_ITEM_ACT; op.EVIDENCE_SUBMIT;
    op.RESULT_CANDIDATE_SUBMIT; op.EFFECT_LEASE_COVERED ].

Lemma default_allow_granted r : Forall (fun o => o ∉ ungranted) (default_allow r).
Proof. destruct r; apply (bool_decide_unpack _); vm_compute; exact I. Qed.

Lemma default_allow_separated r :
  Forall (fun o => Forall (fun p => ~ (o ∈ judging /\ p ∈ producing)) (default_allow r))
    (default_allow r).
Proof. destruct r; apply (bool_decide_unpack _); vm_compute; exact I. Qed.

(** In every reachable context only the active token can authorize
    anything, nothing outside the role defaults is ever authorized (no token
    finishes a task, deploys, writes policy or executes an uncovered
    effect), and one token never authorizes both judging work and producing
    it. *)
Theorem role_separation_of_duty (c : CapabilityContext) (H : context_reach c)
    (t : CapabilityToken) (Ht : t ∈ tokens c) (o : string) (now : Z)
    (Ho : authorize t o now = Ok tt) :
  t = active c /\ o ∉ ungranted /\
  (forall p now', authorize t p now' = Ok tt -> ~ (o ∈ judging /\ p ∈ producing)).
Proof.
  apply context_reach_ok in H as [_ Hr Hs _ _ _ _ _ _].
  rewrite Forall_forall in Hs. destruct (Hs t Ht) as (_ & _ & Hal & _).
  apply capability_authorize_ok in Ho as (Hv & _ & _ & _ & Ho). split_and!.
  - unfold tokens in Ht. apply elem_of_app in Ht as [Ht|Ht%list_elem_of_singleton]; [|done].
    rewrite Forall_forall in Hr. specialize (Hr t Ht). simpl in Hr. congruence.
  - pose proof (default_allow_granted (role t)) as Hg. rewrite Forall_forall in Hg. eauto.
  - intros p now' (_ & _ & _ & _ & Hp)%capability_authorize_ok.
    pose proof (default_allow_separated (role t)) as Hg. rewrite Forall_forall in Hg.
    specialize (Hg o (Hal o Ho)). rewrite Forall_forall in Hg. eauto.
Qed.

(** Role labels parse back to the role they print, and to nothing else. *)
Lemma role_label_roundtrip (r : AgentRole) (s : string) :
  AgentRole_parse s = Ok r <-> s = AgentRole_to_string r.
Proof.
  unfold AgentRole_parse, VERIFIER_LABEL. split.
  - repeat case_bool_decide; intros; by simplify_eq/=.
  - intros ->. destruct r; vm_compute; reflexivity.
Qed.

(** ** Concrete runs *)

Definition sample_fence : StateFence :=
  StateFence_new {| lineage_id := {| lineage_text := "0f0e0d0c-0b0a-0908-0706-050403020100" |};
                    sequence := 1 |} 1.

Definition sample_binding (epoch : Z) : ScopeBinding :=
  {| scope := "envelope"; sb_task_id := "task-1"; work_item_id := Some "item-1";
     sb_route := "route-1"; governance_revision := "rev-1"; sb_state_fence := sample_fence;
     lease_epoch := epoch; issued_at_unix_ms := 10; expires_at_unix_ms := 100 |}.

Definition no_workscope : WorkScopePolicy := {| ws_allow_subset := None |}.

Definition no_delegation : DelegatedAuthority := {| da_allow_subset := None |}.

Definition move_to (r : AgentRole) (cid : string) (epoch : Z)
    (d : option IndependenceDowngrade) : TransitionCall :=
  {| tc_context_id := cid; tc_role := r; tc_binding := sample_binding epoch;
     tc_workscope := no_workscope; tc_delegated := no_delegation; tc_downgrade := d;
     tc_now := 20 |}.

(** Runs the calls in order, keeping the last context. *)
Fixpoint run_calls (c : CapabilityContext) (calls : list TransitionCall) : CapabilityContext :=
  match calls with
  | [] => c
  | a :: calls' => run_calls (transition_call a c).1 calls'
  end.

Lemma run_calls_reach c calls : context_reach c -> context_reach (run_calls c calls).
Proof.
  revert c. induction calls as [|a calls IH]; intros c H; simpl; [done|].
  apply IH. destruct (transition_call a c) as [c' res] eqn:E. by eapply reach_transition.
Qed.

Definition sample_context (r : AgentRole) : option CapabilityContext :=
  match admit_capability "ctx-1" r (sample_binding 1) no_workscope no_delegation with
  | Ok c => Some c
  | Err _ => None
  end.

Definition sample_start (r : AgentRole) : CapabilityContext :=
  match sample_context r with
  | Some c => c
  | None => {| active := {| context_id := ""; role := r; binding := sample_binding 0;
                            allowed := ∅; forbidden := ∅; revoked := true;
                            superseded_by := None |};
               revoked_contexts := []; transitions := [];
               independence := {| roles_held := []; downgraded := false;
                                  downgrade_records := [] |} |}
  end.

Lemma sample_start_reach r : context_reach (sample_start r).
Proof.
  apply (reach_admit "ctx-1" r (sample_binding 1) no_workscope no_delegation).
  destruct r; vm_compute; reflexivity.
Qed.

Definition sample_moved : CapabilityContext :=
  run_calls (sample_start Worker) [move_to Verifier "ctx-2" 2 None].

Lemma role_context_invariant_witness : context_ok sample_moved.
Proof. apply role_context_invariant. apply run_calls_reach, sample_start_reach. Defined.

Lemma role_separation_of_duty_witness :
  authorize (active sample_moved) op.VERIFICATION_RUN 50 = Ok tt /\
  op.VERIFICATION_RUN ∉ ungranted.
Proof.
  assert (Ha : authorize (active sample_moved) op.VERIFICATION_RUN 50 = Ok tt)
    by (vm_compute; reflexivity).
  split; [exact Ha|].
  eapply (role_separation_of_duty sample_moved); [|unfold tokens; apply elem_of_app; right; left|exact Ha].
  apply run_calls_reach, sample_start_reach.
Defined.

(** The downgrade record is demanded only of a direct move from Verifier
    to Worker: from Verifier to Task Controller and on to Worker no record is
    asked for, and the resulting token executes lease-covered effects while
    the independence profile reports no downgrade. *)
Theorem verifier_downgrade_bypassed :
  exists c, context_reach c /\
    roles_held (independence c) = [Verifier; TaskController; Worker] /\
    downgraded (independence c) = false /\ downgrade_records (independence c) = [] /\
    authorize (active c) op.EFFECT_LEASE_COVERED 50 = Ok tt /\
    (transition_call (move_to Worker "ctx-2" 2 None) (sample_start Verifier)).2
      = Err (DowngradeRecordRequired Verifier Worker).
Proof.
  exists (run_calls (sample_start Verifier)
            [move_to TaskController "ctx-2" 2 None; move_to Worker "ctx-3" 3 None]).
  split; [apply run_calls_reach, sample_start_reach|].
  split_and!; vm_compute; reflexivity.
Qed.
