(* ===== verification/IpcSession.v ===== *)
(** * Application session authority

    The session the Kernel owns for one client, independent of the transport
    connections bound to it
    (crates/kernel/eliot-ipc/src/session_lifecycle.rs): lifecycle states,
    session-bound leases, the role capability context, transport
    observations and durable checkpoints. Every method is a computation on
    [ApplicationSession] that returns the state it leaves also when it fails. *)

From S2P Require Import Prelude RustText Contracts RoleLease.
#[local] Open Scope string_scope.
#[local] Open Scope Z_scope.

Definition MAX_TRANSPORT_BINDINGS : Z := 1024.

Definition MAX_DURABLE_CHECKPOINTS : Z := 1024.

(** ** Lifecycle states *)

Inductive ApplicationSessionState : Type :=
| Attaching
| Active
| Suspended
| Detached
| Expired
| Revoked.

#[global] Instance ApplicationSessionState_eq_dec : EqDecision ApplicationSessionState.
Proof. solve_decision. Defined.

(** [Display for ApplicationSessionState] *)
Definition ApplicationSessionState_to_string (s : ApplicationSessionState) : string :=
  match s with
  | Attaching => "ATTACHING"
  | Active => "ACTIVE"
  | Suspended => "SUSPENDED"
  | Detached => "DETACHED"
  | Expired => "EXPIRED"
  | Revoked => "REVOKED"
  end.

Definition is_terminal (s : ApplicationSessionState) : bool :=
  match s with
  | Detached | Expired | Revoked => true
  | _ => false
  end.

Inductive SessionLifecycleError : Type :=
| IllegalTransition (from to : ApplicationSessionState)
| InvalidBinding (field : string)
| InvalidBindingId
| RegistryFull
| InvalidLeaseWindow (issued_at_unix_ms expires_at_unix_ms : Z)
| EpochNotAdvanced (current : EpochId)
| ContinuationPolicyRequired
| InvalidContinuationTtl
| RoleLease (e : RoleLeaseError)
| RoleCapabilityAlreadyAdmitted
| RoleCapabilityNotAdmitted.

#[global] Instance SessionLifecycleError_eq_dec : EqDecision SessionLifecycleError.
Proof. solve_decision. Defined.

Definition state_transition_to (self next : ApplicationSessionState)
    : result SessionLifecycleError unit :=
  let legal :=
    match self with
    | Attaching => match next with Active => true | _ => false end
    | Active => match next with Suspended | Detached | Expired | Revoked => true | _ => false end
    | Suspended => match next with Active | Detached | Expired | Revoked => true | _ => false end
    | Detached | Expired | Revoked => false
    end in
  if legal then Ok tt else Err (IllegalTransition self next).

(** ** Session data *)

Inductive TransportKind : Type := Pipe | Stdio | Http.

Record TransportBindingObservation : Type := {
  binding_id : string;
  transport : TransportKind;
  session_epoch : Z;
  observed_at_unix_ms : Z;
}.

Record SessionLease : Type := {
  lease_id : string;
  sl_lease_epoch : Z;
  sl_issued_at_unix_ms : Z;
  sl_expires_at_unix_ms : Z;
  sl_revoked : bool;
}.

Record DurableWorkCheckpoint : Type := {
  checkpoint_id : string;
  work_ref : string;
  checkpointed_at_unix_ms : Z;
}.

Record ApplicationSession : Type := {
  session_id : string;
  session_authority_epoch : EpochId;
  state : ApplicationSessionState;
  transport_bindings : list TransportBindingObservation;
  bound_leases : gmap string SessionLease;
  durable_checkpoints : list DurableWorkCheckpoint;
  continuation_ttl_ms : option Z;
  role_capability : option CapabilityContext;
}.

(** Field assignments [self.field = value]. *)
Definition set_state (v : ApplicationSessionState) (s : ApplicationSession)
    : ApplicationSession :=
  {| session_id := session_id s; session_authority_epoch := session_authority_epoch s;
     state := v; transport_bindings := transport_bindings s; bound_leases := bound_leases s;
     durable_checkpoints := durable_checkpoints s;
     continuation_ttl_ms := continuation_ttl_ms s; role_capability := role_capability s |}.

Definition set_epoch (v : EpochId) (s : ApplicationSession) : ApplicationSession :=
  {| session_id := session_id s; session_authority_epoch := v; state := state s;
     transport_bindings := transport_bindings s; bound_leases := bound_leases s;
     durable_checkpoints := durable_checkpoints s;
     continuation_ttl_ms := continuation_ttl_ms s; role_capability := role_capability s |}.

Definition set_bindings (v : list TransportBindingObservation) (s : ApplicationSession)
    : ApplicationSession :=
  {| session_id := session_id s; session_authority_epoch := session_authority_epoch s;
     state := state s; transport_bindings := v; bound_leases := bound_leases s;
     durable_checkpoints := durable_checkpoints s;
     continuation_ttl_ms := continuation_ttl_ms s; role_capability := role_capability s |}.

Definition set_leases (v : gmap string SessionLease) (s : ApplicationSession)
    : ApplicationSession :=
  {| session_id := session_id s; session_authority_epoch := session_authority_epoch s;
     state := state s; transport_bindings := transport_bindings s; bound_leases := v;
     durable_checkpoints := durable_checkpoints s;
     continuation_ttl_ms := continuation_ttl_ms s; role_capability := role_capability s |}.

Definition set_checkpoints (v : list DurableWorkCheckpoint) (s : ApplicationSession)
    : ApplicationSession :=
  {| session_id := session_id s; session_authority_epoch := session_authority_epoch s;
     state := state s; transport_bindings := transport_bindings s;
     bound_leases := bound_leases s; durable_checkpoints := v;
     continuation_ttl_ms := continuation_ttl_ms s; role_capability := role_capability s |}.

Definition set_ttl (v : option Z) (s : ApplicationSession) : ApplicationSession :=
  {| session_id := session_id s; session_authority_epoch := session_authority_epoch s;
     state := state s; transport_bindings := transport_bindings s;
     bound_leases := bound_leases s; durable_checkpoints := durable_checkpoints s;
     continuation_ttl_ms := v; role_capability := role_capability s |}.

Definition set_role_capability (v : option CapabilityContext) (s : ApplicationSession)
    : ApplicationSession :=
  {| session_id := session_id s; session_authority_epoch := session_authority_epoch s;
     state := state s; transport_bindings := transport_bindings s;
     bound_leases := bound_leases s; durable_checkpoints := durable_checkpoints s;
     continuation_ttl_ms := continuation_ttl_ms s; role_capability := v |}.

(** ** Operations *)

Abbreviation SM := (M ApplicationSession SessionLifecycleError).

Definition validate_session_id (value : string) : result SessionLifecycleError unit :=
  guard_err (is_blank value || has_control value) (InvalidBinding "session_id").

Definition session_new (sid : string) (epoch : EpochId)
    : result SessionLifecycleError ApplicationSession :=
  check? validate_session_id sid;
  Ok {| session_id := sid; session_authority_epoch := epoch; state := Attaching;
        transport_bindings := []; bound_leases := ∅; durable_checkpoints := [];
        continuation_ttl_ms := None; role_capability := None |}.

Definition transition_to (next : ApplicationSessionState) : SM unit :=
  let! self := mstate in
  do! mlift (state_transition_to (state self) next);
  mmodify (set_state next).

Definition attach : SM unit := transition_to Active.

Definition suspend : SM unit := transition_to Suspended.

Definition resume : SM unit := transition_to Active.

(** [format!("{}-checkpoint-{}", session_id, n)] *)
Definition checkpoint_id_of (sid : string) (n : Z) : string :=
  sid ++ "-checkpoint-" ++ u64_to_string n.

Definition record_durable_checkpoint (ref : string) (now_unix_ms : Z) : SM unit :=
  let! self := mstate in
  do! mlift (guard_err (MAX_DURABLE_CHECKPOINTS <=? usize_of_len (durable_checkpoints self))
               RegistryFull);
  let cid := checkpoint_id_of (session_id self) (usize_of_len (durable_checkpoints self)) in
  mmodify (fun s => set_checkpoints
    (durable_checkpoints s ++
     [{| checkpoint_id := cid; work_ref := ref; checkpointed_at_unix_ms := now_unix_ms |}]) s).

(** [lease.revoked = true] *)
Definition revoke_lease (l : SessionLease) : SessionLease :=
  {| lease_id := lease_id l; sl_lease_epoch := sl_lease_epoch l;
     sl_issued_at_unix_ms := sl_issued_at_unix_ms l;
     sl_expires_at_unix_ms := sl_expires_at_unix_ms l; sl_revoked := true |}.

Definition lose_session (terminal_state : ApplicationSessionState) (now_unix_ms : Z) : SM unit :=
  let! self := mstate in
  do! mlift (state_transition_to (state self) terminal_state);
  do! record_durable_checkpoint (session_id self) now_unix_ms;
  do! mmodify (set_state terminal_state);
  do! mmodify (fun s => set_leases (revoke_lease <$> bound_leases s) s);
  mmodify (set_role_capability None).

Definition detach (now_unix_ms : Z) : SM unit := lose_session Detached now_unix_ms.

Definition expire (now_unix_ms : Z) : SM unit := lose_session Expired now_unix_ms.

Definition revoke (now_unix_ms : Z) : SM unit := lose_session Revoked now_unix_ms.

Definition reassign (new_epoch : EpochId) : SM unit :=
  let! self := mstate in
  do! mlift (guard_err (negb (is_terminal (state self)))
               (IllegalTransition (state self) Attaching));
  do! mlift (guard_err
               (match relation_to new_epoch (session_authority_epoch self) with
                | DirectParent | SameLineageNewer => false
                | _ => true
                end)
               (EpochNotAdvanced (session_authority_epoch self)));
  do! mmodify (set_epoch new_epoch);
  mmodify (set_state Attaching).

Definition bind_lease (lid : string) (epoch issued expires : Z) : SM unit :=
  let! self := mstate in
  do! mlift (guard_err (is_terminal (state self)) (IllegalTransition (state self) Active));
  do! mlift (validate_session_id lid);
  do! mlift (guard_err (expires <=? issued) (InvalidLeaseWindow issued expires));
  do! mlift (guard_err (is_some (bound_leases self !! lid)) (InvalidBinding "lease_id"));
  mmodify (fun s => set_leases
    (<[lid := {| lease_id := lid; sl_lease_epoch := epoch; sl_issued_at_unix_ms := issued;
                 sl_expires_at_unix_ms := expires; sl_revoked := false |}]> (bound_leases s)) s).

Definition admit_role_capability (cid : string) (r : AgentRole) (b : ScopeBinding)
    (workscope : WorkScopePolicy) (delegated : DelegatedAuthority) : SM unit :=
  let! self := mstate in
  do! mlift (guard_err (is_terminal (state self)) (IllegalTransition (state self) Active));
  do! mlift (guard_err (is_some (role_capability self)) RoleCapabilityAlreadyAdmitted);
  let! context := mlift (map_err RoleLease (admit_capability cid r b workscope delegated)) in
  mmodify (set_role_capability (Some context)).

(** [self.role_capability.as_mut()] hands out the context in place, so the
    context the transition leaves behind is stored also when it fails. *)
Definition transition_role_capability (a : TransitionCall) : SM RoleTransitionRecord :=
  let! self := mstate in
  do! mlift (guard_err (is_terminal (state self)) (IllegalTransition (state self) Active));
  match role_capability self with
  | None => mthrow RoleCapabilityNotAdmitted
  | Some context =>
      let '(context', record) := transition_call a context in
      do! mmodify (set_role_capability (Some context'));
      mlift (map_err RoleLease record)
  end.

Definition record_transport_binding (bid : string) (kind : TransportKind)
    (epoch observed : Z) : SM unit :=
  let! self := mstate in
  do! mlift (guard_err (is_terminal (state self)) (IllegalTransition (state self) Active));
  do! mlift (guard_err (is_blank bid || has_control bid) InvalidBindingId);
  do! mlift (guard_err (MAX_TRANSPORT_BINDINGS <=? usize_of_len (transport_bindings self))
               RegistryFull);
  mmodify (fun s => set_bindings
    (transport_bindings s ++
     [{| binding_id := bid; transport := kind; session_epoch := epoch;
         observed_at_unix_ms := observed |}]) s).

Definition checkpoint_durable_work (ref : string) (now_unix_ms : Z) : SM unit :=
  do! mlift (validate_session_id ref);
  record_durable_checkpoint ref now_unix_ms.

Definition set_continuation_ttl_policy (ttl_ms : Z) : SM unit :=
  do! mlift (guard_err (ttl_ms =? 0) InvalidContinuationTtl);
  mmodify (set_ttl (Some ttl_ms)).

(** [u64::saturating_add] *)
Definition saturating_add (a b : Z) : Z := Z.min (a + b) u64_max.

Definition continuation_state_retained (self : ApplicationSession)
    (retained_at_unix_ms now_unix_ms : Z) : bool :=
  match continuation_ttl_ms self with
  | Some ttl_ms => now_unix_ms <? saturating_add retained_at_unix_ms ttl_ms
  | None => false
  end.

(** ** Runs *)

Inductive SessionCall : Type :=
| CAttach
| CSuspend
| CResume
| CDetach (now : Z)
| CExpire (now : Z)
| CRevoke (now : Z)
| CReassign (epoch : EpochId)
| CBindLease (lid : string) (epoch issued expires : Z)
| CAdmitRole (cid : string) (r : AgentRole) (b : ScopeBinding) (workscope : WorkScopePolicy)
    (delegated : DelegatedAuthority)
| CTransitionRole (a : TransitionCall)
| CBindTransport (bid : string) (kind : TransportKind) (epoch observed : Z)
| CCheckpoint (ref : string) (now : Z)
| CSetTtl (ttl : Z).

(** The result of a call, the transition record dropped. *)
Definition session_call (a : SessionCall) : SM unit :=
  match a with
  | CAttach => attach
  | CSuspend => suspend
  | CResume => resume
  | CDetach now => detach now
  | CExpire now => expire now
  | CRevoke now => revoke now
  | CReassign epoch => reassign epoch
  | CBindLease lid epoch issued expires => bind_lease lid epoch issued expires
  | CAdmitRole cid r b ws da => admit_role_capability cid r b ws da
  | CTransitionRole a => do! transition_role_capability a; mret_ok tt
  | CBindTransport bid kind epoch observed => record_transport_binding bid kind epoch observed
  | CCheckpoint ref now => checkpoint_durable_work ref now
  | CSetTtl ttl => set_continuation_ttl_policy ttl
  end.

(** The session after a sequence of calls, whatever each returned. *)
Fixpoint run_session (s : ApplicationSession) (calls : list SessionCall) : ApplicationSession :=
  match calls with
  | [] => s
  | a :: calls' => run_session (session_call a s).1 calls'
  end.

Inductive session_reach : ApplicationSession -> Prop :=
| session_reach_new sid epoch s : session_new sid epoch = Ok s -> session_reach s
| session_reach_call s a s' r : session_reach s -> session_call a s = (s', r) -> session_reach s'.

Lemma run_session_app s l l' : run_session s (l ++ l') = run_session (run_session s l) l'.
Proof. revert s. induction l as [|a l IH]; intros s; simpl; [done|apply IH]. Qed.

Lemma run_session_ind (P : ApplicationSession -> Prop) s calls :
  (forall a s s' r, P s -> session_call a s = (s', r) -> P s') -> P s -> P (run_session s calls).
Proof.
  intros Hstep. revert s. induction calls as [|a calls IH]; intros s Hs; simpl; [done|].
  apply IH. destruct (session_call a s) as [s' r] eqn:E. eauto.
Qed.

Lemma run_session_reach s calls : session_reach s -> session_reach (run_session s calls).
Proof. apply run_session_ind. intros. by eapply session_reach_call. Qed.

(** ** The lifecycle a session promises *)

Definition Life : Type := ApplicationSessionState * EpochId.

Definition epoch_rises (old new : EpochId) : Prop :=
  lineage_id old = lineage_id new /\ sequence old < sequence new.

Inductive life_step : Life -> Life -> Prop :=
| life_stay l : life_step l l
| life_attach e : life_step (Attaching, e) (Active, e)
| life_suspend e : life_step (Active, e) (Suspended, e)
| life_resume e : life_step (Suspended, e) (Active, e)
| life_end s t e :
    s = Active \/ s = Suspended -> is_terminal t = true -> life_step (s, e) (t, e)
| life_reassign s e e' :
    is_terminal s = true -> epoch_rises e e' -> life_step (s, e) (Attaching, e').

Definition life (s : ApplicationSession) : Life := (state s, session_authority_epoch s).

Lemma relation_to_rises new old :
  match relation_to new old with DirectParent | SameLineageNewer => false | _ => true end = false ->
  epoch_rises old new.
Proof.
  unfold relation_to, epoch_rises. destruct (decide (lineage_id new = lineage_id old)) as [Hl|Hl].
  2: by rewrite bool_decide_false by done.
  rewrite bool_decide_true by done. simpl.
  destruct (Z.eqb_spec (sequence new) (sequence old)); [done|].
  case_bool_decide; [done|]. case_bool_decide as Hp.
  { apply checked_add_some in Hp. intros _. split; [done|lia]. }
  destruct (Z.ltb_spec (sequence new) (sequence old)); [done|]. intros _. split; [done|lia].
Qed.

(** [op_cases] opens one call and closes the branches that failed. *)
Ltac open_call H :=
  unfold attach, suspend, resume, detach, expire, revoke, reassign, bind_lease,
    admit_role_capability, transition_role_capability, record_transport_binding,
    checkpoint_durable_work, set_continuation_ttl_policy, lose_session, transition_to,
    record_durable_checkpoint, validate_session_id in H; run.

Lemma session_call_err a s s' e : session_call a s = (s', Err e) -> s' = s.
Proof.
  destruct a; simpl; intros H; open_call H; try done.
  destruct (transition_call a c) as [c' [rec|e']] eqn:Ht; run.
  apply role_transition_err in Ht as ->. destruct s; simpl in *; by subst.
Qed.

(** ** What each call does

    [session_effect a s s'] is the contract of a successful call: its
    admission conditions and the session it leaves. *)

Definition checkpoint_room (s : ApplicationSession) : Prop :=
  usize_of_len (durable_checkpoints s) < MAX_DURABLE_CHECKPOINTS.

Definition with_checkpoint (ref : string) (now : Z) (s : ApplicationSession)
    : ApplicationSession :=
  set_checkpoints (durable_checkpoints s ++
    [{| checkpoint_id := checkpoint_id_of (session_id s) (usize_of_len (durable_checkpoints s));
        work_ref := ref; checkpointed_at_unix_ms := now |}]) s.

(** The session after its loss: one more checkpoint, every lease revoked, no
    role context. *)
Definition lost (t : ApplicationSessionState) (now : Z) (s : ApplicationSession)
    : ApplicationSession :=
  let s1 := set_state t (with_checkpoint (session_id s) now s) in
  set_role_capability None (set_leases (revoke_lease <$> bound_leases s1) s1).

Definition loss_call (a : SessionCall) : option (ApplicationSessionState * Z) :=
  match a with
  | CDetach now => Some (Detached, now)
  | CExpire now => Some (Expired, now)
  | CRevoke now => Some (Revoked, now)
  | _ => None
  end.

Inductive session_effect : SessionCall -> ApplicationSession -> ApplicationSession -> Prop :=
| eff_activate a s :
    a = CAttach \/ a = CResume -> state s = Attaching \/ state s = Suspended ->
    session_effect a s (set_state Active s)
| eff_suspend s :
    state s = Active -> session_effect CSuspend s (set_state Suspended s)
| eff_lose a t now s :
    loss_call a = Some (t, now) -> state s = Active \/ state s = Suspended ->
    checkpoint_room s -> session_effect a s (lost t now s)
| eff_reassign e s :
    is_terminal (state s) = true -> epoch_rises (session_authority_epoch s) e ->
    session_effect (CReassign e) s (set_state Attaching (set_epoch e s))
| eff_bind_lease lid epoch issued expires s :
    is_terminal (state s) = false -> text_ok lid = true -> issued < expires ->
    bound_leases s !! lid = None ->
    session_effect (CBindLease lid epoch issued expires) s
      (set_leases (<[lid := {| lease_id := lid; sl_lease_epoch := epoch;
                               sl_issued_at_unix_ms := issued; sl_expires_at_unix_ms := expires;
                               sl_revoked := false |}]> (bound_leases s)) s)
| eff_admit_role cid r b ws da c s :
    is_terminal (state s) = false -> role_capability s = None ->
    admit_capability cid r b ws da = Ok c ->
    session_effect (CAdmitRole cid r b ws da) s (set_role_capability (Some c) s)
| eff_transition_role a c c' rec s :
    is_terminal (state s) = false -> role_capability s = Some c ->
    transition_call a c = (c', Ok rec) ->
    session_effect (CTransitionRole a) s (set_role_capability (Some c') s)
| eff_bind_transport bid kind epoch observed s :
    is_terminal (state s) = false -> text_ok bid = true ->
    usize_of_len (transport_bindings s) < MAX_TRANSPORT_BINDINGS ->
    session_effect (CBindTransport bid kind epoch observed) s
      (set_bindings (transport_bindings s ++
         [{| binding_id := bid; transport := kind; session_epoch := epoch;
             observed_at_unix_ms := observed |}]) s)
| eff_checkpoint ref now s :
    text_ok ref = true -> checkpoint_room s ->
    session_effect (CCheckpoint ref now) s (with_checkpoint ref now s)
| eff_set_ttl ttl s :
    ttl <> 0 -> session_effect (CSetTtl ttl) s (set_ttl (Some ttl) s).

Lemma rises_relation_to new old :
  epoch_rises old new ->
  match relation_to new old with DirectParent | SameLineageNewer => false | _ => true end = false.
Proof.
  unfold relation_to, epoch_rises. intros [Hl Hs]. rewrite bool_decide_true by done. simpl.
  destruct (Z.eqb_spec (sequence new) (sequence old)); [lia|].
  case_bool_decide as Hc; [apply checked_add_some in Hc; lia|].
  case_bool_decide; [done|]. destruct (Z.ltb_spec (sequence new) (sequence old)); [lia|done].
Qed.

Lemma state_transition_active st :
  state_transition_to st Active = Ok tt <-> st = Attaching \/ st = Suspended.
Proof. destruct st; simpl; naive_solver. Qed.

Lemma state_transition_terminal st t :
  is_terminal t = true -> (state_transition_to st t = Ok tt <-> st = Active \/ st = Suspended).
Proof. destruct st, t; simpl; naive_solver. Qed.

Lemma lose_session_ok t now s s' :
  is_terminal t = true ->
  (lose_session t now s = (s', Ok tt) <->
   (state s = Active \/ state s = Suspended) /\ checkpoint_room s /\ s' = lost t now s).
Proof.
  intros Ht. rewrite <- (state_transition_terminal _ t Ht).
  unfold lose_session, record_durable_checkpoint, checkpoint_room. unfold_monad. split.
  - intros H. run. apply Z.leb_gt in Heqb. done.
  - intros (H1 & H2 & ->). rewrite H1.
    destruct (Z.leb_spec MAX_DURABLE_CHECKPOINTS (usize_of_len (durable_checkpoints s))); [lia|].
    done.
Qed.

Lemma text_ok_of v : is_blank v = false -> has_control v = false -> text_ok v = true.
Proof. intros H1 H2. unfold text_ok. by rewrite H1, H2. Qed.

Lemma session_call_effect a s s' : session_call a s = (s', Ok tt) -> session_effect a s s'.
Proof.
  destruct a; simpl; intros H;
    try (apply lose_session_ok in H as (H1 & H2 & ->); [by eapply eff_lose|done]);
    open_call H; bool_facts; try (apply state_transition_active in Heqr);
    try (by econstructor; eauto using state_transition_active).
  - apply eff_suspend. by destruct (state s).
  - constructor; [done|]. apply relation_to_rises. by rewrite Heqe.
  - constructor; [done|]. apply relation_to_rises. by rewrite Heqe.
  - destruct (bound_leases s !! lid) eqn:El; [done|].
    constructor; auto; [by apply text_ok_of |lia].
  - destruct (role_capability s) eqn:Er; [done|]. by econstructor.
  - constructor; auto; [by apply text_ok_of|lia].
  - constructor; [by apply text_ok_of|]. unfold checkpoint_room. lia.
  - constructor. lia.
Qed.

Lemma text_ok_inv v : text_ok v = true -> is_blank v || has_control v = false.
Proof. unfold text_ok. by rewrite negb_true_iff. Qed.

Ltac pass_checks :=
  repeat match goal with
  | H : is_terminal _ = _ |- _ => rewrite H; clear H
  | H : text_ok _ = true |- _ => rewrite (text_ok_inv _ H); clear H
  | H : epoch_rises _ _ |- _ => rewrite (rises_relation_to _ _ H); clear H
  | H : bound_leases _ !! _ = None |- _ => rewrite H; clear H
  | H : role_capability _ = _ |- _ => rewrite H; clear H
  | H : admit_capability _ _ _ _ _ = _ |- _ => rewrite H; clear H
  | H : transition_call _ _ = _ |- _ => rewrite H; clear H
  end.

Lemma session_effect_call a s s' : session_effect a s s' -> session_call a s = (s', Ok tt).
Proof.
  destruct 1 as [a s Ha Hs|s Hs|a t now s Ha Hs Hr|e s|lid e i x s Hs Ht Hw| | |bid k e o s Hs Ht Hw
                |ref now s Ht Hr|ttl s Ht].
  - destruct Ha as [-> | ->]; destruct Hs as [Hs|Hs]; simpl;
      unfold attach, resume, transition_to; unfold_monad; by rewrite Hs.
  - simpl. unfold suspend, transition_to. unfold_monad. by rewrite Hs.
  - destruct a; simplify_eq/=; by apply lose_session_ok.
  - simpl. unfold reassign. unfold_monad. by pass_checks.
  - simpl. unfold bind_lease, validate_session_id. unfold_monad. pass_checks. simpl.
    apply Z.leb_gt in Hw. by rewrite Hw.
  - simpl. unfold admit_role_capability. unfold_monad. by pass_checks.
  - simpl. unfold transition_role_capability. unfold_monad. by pass_checks.
  - simpl. unfold record_transport_binding. unfold_monad. pass_checks.
    apply Z.leb_gt in Hw. by rewrite Hw.
  - simpl. unfold checkpoint_durable_work, record_durable_checkpoint, validate_session_id.
    unfold_monad. pass_checks. apply Z.leb_gt in Hr. by rewrite Hr.
  - simpl. unfold set_continuation_ttl_policy. unfold_monad. apply Z.eqb_neq in Ht. by rewrite Ht.
Qed.

(** A session seen later: observations and checkpoints only grow, leases
    stay and are at most revoked, the authority epoch stays or rises in its
    lineage, and a session that had ended is live again only under a higher
    epoch. *)
Record session_extends (s s' : ApplicationSession) : Prop := {
  ext_id : session_id s' = session_id s;
  ext_bindings : transport_bindings s `prefix_of` transport_bindings s';
  ext_checkpoints : durable_checkpoints s `prefix_of` durable_checkpoints s';
  ext_leases : forall k l, bound_leases s !! k = Some l ->
    bound_leases s' !! k = Some l \/ bound_leases s' !! k = Some (revoke_lease l);
  ext_epoch : session_authority_epoch s' = session_authority_epoch s \/
    epoch_rises (session_authority_epoch s) (session_authority_epoch s');
  ext_terminal : is_terminal (state s) = true ->
    is_terminal (state s') = true \/
    epoch_rises (session_authority_epoch s) (session_authority_epoch s');
}.

Lemma epoch_rises_trans a b c : epoch_rises a b -> epoch_rises b c -> epoch_rises a c.
Proof. unfold epoch_rises. intros [] []. split; [congruence|lia]. Qed.

#[export] Instance session_extends_preorder : PreOrder session_extends.
Proof.
  split.
  - intros s. split; auto.
  - intros s1 s2 s3 [i1 b1 c1 l1 e1 t1] [i2 b2 c2 l2 e2 t2]. split.
    + congruence.
    + by etrans.
    + by etrans.
    + intros k l [H|H]%l1; apply l2 in H; destruct l; naive_solver.
    + destruct e1 as [E1|E1], e2 as [E2|E2]; [left; congruence|right..];
        eauto using epoch_rises_trans; congruence.
    + intros Ht. destruct (t1 Ht) as [H|H].
      * destruct (t2 H) as [H'|H']; [by left|right].
        destruct e1 as [<-|]; eauto using epoch_rises_trans.
      * right. destruct e2 as [->|]; eauto using epoch_rises_trans.
Qed.

Lemma session_effect_extends a s s' : session_effect a s s' -> session_extends s s'.
Proof.
  destruct 1 as [a s Ha Hs|s Hs|a t now s Ha Hs Hr| | | | | | |]; split; simpl; auto;
    try by eexists.
  - intros Ht. destruct Hs as [Hs|Hs]; by rewrite Hs in Ht.
  - intros Ht. by rewrite Hs in Ht.
  - intros k l Hl. right. by rewrite lookup_fmap, Hl.
  - intros Ht. destruct Hs as [Hs|Hs]; by rewrite Hs in Ht.
  - intros k l Hl. left. rewrite lookup_insert_ne; congruence.
Qed.

Lemma session_call_extends a s s' r : session_call a s = (s', r) -> session_extends s s'.
Proof.
  destruct r as [[]|e]; intros H.
  - by eapply session_effect_extends, session_call_effect.
  - apply session_call_err in H as ->. reflexivity.
Qed.

Lemma run_session_extends s calls : session_extends s (run_session s calls).
Proof.
  apply (run_session_ind (session_extends s)); [|reflexivity].
  intros a s1 s2 r H1 H2%session_call_extends. by etrans.
Qed.

(** ** Invariant *)

Record session_ok (s : ApplicationSession) : Prop := {
  sok_id : text_ok (session_id s) = true;
  sok_bindings : usize_of_len (transport_bindings s) <= MAX_TRANSPORT_BINDINGS;
  sok_checkpoints : usize_of_len (durable_checkpoints s) <= MAX_DURABLE_CHECKPOINTS;
  sok_checkpoint_ids : forall i c, durable_checkpoints s !! i = Some c ->
    checkpoint_id c = checkpoint_id_of (session_id s) (Z.of_nat i);
  sok_leases : forall k l, bound_leases s !! k = Some l ->
    lease_id l = k /\ text_ok k = true /\ sl_issued_at_unix_ms l < sl_expires_at_unix_ms l;
  sok_ttl : forall ttl, continuation_ttl_ms s = Some ttl -> ttl <> 0;
  sok_terminal : is_terminal (state s) = true ->
    role_capability s = None /\ forall k l, bound_leases s !! k = Some l -> sl_revoked l = true;
  sok_role : forall c, role_capability s = Some c -> context_reach c;
}.

Lemma session_new_ok sid epoch s : session_new sid epoch = Ok s -> session_ok s.
Proof.
  unfold session_new, validate_session_id. rewrite check_guard_ok. intros [Ht [= <-]].
  split; simpl; try done. unfold text_ok. by rewrite Ht.
Qed.

Lemma checkpoint_snoc_ok s ref now :
  session_ok s -> checkpoint_room s ->
  usize_of_len (durable_checkpoints (with_checkpoint ref now s)) <= MAX_DURABLE_CHECKPOINTS /\
  forall i c, durable_checkpoints (with_checkpoint ref now s) !! i = Some c ->
    checkpoint_id c = checkpoint_id_of (session_id s) (Z.of_nat i).
Proof.
  intros Hs Hr. unfold checkpoint_room, usize_of_len in *. simpl. split.
  - rewrite length_app. simpl. lia.
  - intros i c. rewrite lookup_app_Some. intros [Hc|[Hi Hc]]; [by apply (sok_checkpoint_ids s Hs)|].
    apply list_lookup_singleton_Some in Hc as [Hi' <-].
    assert (i = length (durable_checkpoints s)) as -> by lia. done.
Qed.

Lemma session_effect_ok a s s' : session_ok s -> session_effect a s s' -> session_ok s'.
Proof.
  intros Hok Heff. pose proof Hok as [Hid Hb Hc Hci Hl Ht Htm Hro].
  destruct Heff as [a s Ha Hs|s Hs|a t now s Ha Hs Hr| e s Hs He|lid e i x s Hs Hx Hw Hn
    |cid r b ws da c s Hs Hn Hc'|a c c' rec s Hs Hn Hc'|bid k e o s Hs Hx Hw|ref now s Hx Hr|ttl s Hx];
    try (pose proof (checkpoint_snoc_ok s ref now Hok Hr) as [Hcl Hcc]);
    try (pose proof (checkpoint_snoc_ok s (session_id s) now Hok Hr) as [Hcl Hcc]);
    split; simpl in *; auto; try (by rewrite Hs); try done.
  - intros k l. rewrite lookup_fmap, fmap_Some. intros (l0 & H0 & ->). exact (Hl k l0 H0).
  - intros _. split; [done|]. intros k l. rewrite lookup_fmap, fmap_Some.
    by intros (l0 & H0 & ->).
  - intros k l. rewrite lookup_insert_Some. intros [[<- <-]|[_ H]]; [done|by apply Hl].
  - intros ? [= <-]. by eapply reach_admit.
  - intros ? [= <-]. eapply reach_transition; eauto.
  - unfold usize_of_len in *. rewrite length_app. simpl. lia.
  - by intros ? [= <-].
Qed.

Lemma session_reach_ok s : session_reach s -> session_ok s.
Proof.
  induction 1 as [|s a s' [[]|e] _ IH H]; [by eapply session_new_ok| |].
  - by eapply session_effect_ok, session_call_effect.
  - by apply session_call_err in H as ->.
Qed.

(** ** Properties *)

Lemma session_effect_life a s s' : session_effect a s s' -> life_step (life s) (life s').
Proof.
  unfold life. destruct 1 as [a s Ha Hs|s Hs|a t now s Ha Hs Hr| | | | | | |]; simpl;
    try apply life_stay.
  - destruct Hs as [-> | ->]; constructor.
  - rewrite Hs. constructor.
  - apply life_end; [done|]. by destruct a; simplify_eq/=.
  - by apply life_reassign.
Qed.

(** Every call on an application session meets its contract: it succeeds
    exactly when the contract admits it and then leaves exactly the session
    the contract names, it changes nothing when it fails, and either way the
    session's state and epoch make a step of the lifecycle Attaching to
    Active, Active to and from Suspended, either of these to a terminal
    state, and a terminal state back to Attaching only under a higher epoch
    of the same lineage. *)
Theorem ipc_session_call_refines (a : SessionCall) (s s' : ApplicationSession) :
  (session_call a s = (s', Ok tt) <-> session_effect a s s') /\
  (forall e, session_call a s = (s', Err e) -> s' = s) /\
  (forall r, session_call a s = (s', r) -> life_step (life s) (life s')).
Proof.
  split_and!.
  - split; [apply session_call_effect|apply session_effect_call].
  - apply session_call_err.
  - intros [[]|e] H.
    + by eapply session_effect_life, session_call_effect.
    + apply session_call_err in H as ->. apply life_stay.
Qed.

(** In every reachable session both registries stay within 1,024 entries,
    checkpoint identities are the session identity and their own position,
    leases are keyed by their identity with an open window, a retention
    policy is positive, the role context is one the role-lease rules can
    reach, and an ended session has no role context and no live lease. *)
Theorem ipc_session_invariant (s : ApplicationSession) (H : session_reach s) : session_ok s.
Proof. by apply session_reach_ok. Qed.

(** Losing a session is final for the authority it held: whatever calls
    follow, every lease bound at the loss is still there and revoked, the
    durable checkpoints and transport observations are still there with one
    checkpoint for the loss, and the session is live again only under a
    strictly higher epoch of the same lineage. *)
Theorem ipc_session_loss_final (a : SessionCall) (t : ApplicationSessionState) (now : Z)
    (s s1 : ApplicationSession) (calls : list SessionCall)
    (Ha : loss_call a = Some (t, now)) (Hc : session_call a s = (s1, Ok tt)) :
  let s2 := run_session s1 calls in
  state s1 = t /\ role_capability s1 = None /\
  (forall k l, bound_leases s !! k = Some l -> bound_leases s2 !! k = Some (revoke_lease l)) /\
  durable_checkpoints (with_checkpoint (session_id s) now s) `prefix_of` durable_checkpoints s2 /\
  transport_bindings s `prefix_of` transport_bindings s2 /\
  (is_terminal (state s2) = false ->
   epoch_rises (session_authority_epoch s) (session_authority_epoch s2)).
Proof.
  assert (Ht : is_terminal t = true) by (by destruct a; simplify_eq/=).
  assert (Hs1 : s1 = lost t now s).
  { apply (lose_session_ok t now s s1 Ht). by destruct a; simplify_eq/=. }
  intros s2. destruct (run_session_extends s1 calls) as [_ Hb Hck Hl He Htm].
  fold s2 in Hb, Hck, Hl, He, Htm. clearbody s2. subst s1. simpl in *. split_and!; try done.
  - intros k l H. destruct (Hl k (revoke_lease l)); [by rewrite lookup_fmap, H|done..].
  - intros Hn. destruct (Htm Ht) as [H|H]; [congruence|done].
Qed.

(** Once its checkpoint registry is full a live session can never end:
    whatever calls follow, detach, expiry and revocation are refused and
    every lease stays as it is. *)
Theorem ipc_full_registry_never_ends (s : ApplicationSession) (calls : list SessionCall)
    (Hfull : MAX_DURABLE_CHECKPOINTS <= usize_of_len (durable_checkpoints s))
    (Hlive : is_terminal (state s) = false) :
  let s' := run_session s calls in
  is_terminal (state s') = false /\
  (forall k l, bound_leases s !! k = Some l -> bound_leases s' !! k = Some l) /\
  (forall a t now, loss_call a = Some (t, now) -> is_ok (session_call a s').2 = false).
Proof.
  set (P := fun s' => MAX_DURABLE_CHECKPOINTS <= usize_of_len (durable_checkpoints s') /\
    is_terminal (state s') = false /\
    forall k l, bound_leases s !! k = Some l -> bound_leases s' !! k = Some l).
  assert (Hstep : forall a s0 s1 r, P s0 -> session_call a s0 = (s1, r) -> P s1).
  { intros a s0 s1 [[]|e] (Hf & Hn & Hl) Hc; [|by apply session_call_err in Hc as ->].
    apply session_call_effect in Hc. unfold P, checkpoint_room in *.
    destruct Hc as [| |a t now s0 Ha Hs Hr|e s0 Hs| lid e i x s0 Hs Hx Hw Hnone| | | | |]; simpl;
      try done; unfold checkpoint_room in *; try lia; try congruence.
    split_and!; try done. intros k l H%Hl. rewrite lookup_insert_ne; congruence. }
  assert (HP : P (run_session s calls)) by (apply run_session_ind; [exact Hstep|done]).
  cbv zeta. revert HP. generalize (run_session s calls). intros s' (Hf & Hn & Hl).
  split_and!; try done.
  intros a t now Ha. destruct (session_call a s') as [s1 [[]|e]] eqn:E; [|done].
  apply session_call_effect in E.
  destruct E as [a s' H|s'|a t' now' s' H Hs Hr| | | | | | |]; simplify_eq/=;
    [by destruct H as [-> | ->]|].
  unfold checkpoint_room in Hr. lia.
Qed.

(** ** Concrete runs *)

Definition sample_epoch (n : Z) : EpochId :=
  {| lineage_id := {| lineage_text := "0f0e0d0c-0b0a-0908-0706-050403020100" |}; sequence := n |}.

Definition sample_session : ApplicationSession :=
  {| session_id := "session-1"; session_authority_epoch := sample_epoch 1; state := Attaching;
     transport_bindings := []; bound_leases := ∅; durable_checkpoints := [];
     continuation_ttl_ms := None; role_capability := None |}.

Lemma sample_session_reach : session_reach sample_session.
Proof. apply (session_reach_new "session-1" (sample_epoch 1)). vm_compute. reflexivity. Qed.

Definition sample_live : ApplicationSession :=
  run_session sample_session [CAttach; CBindLease "lease-1" 1 10 20; CBindTransport "pipe-1" Pipe 1 5].

Lemma ipc_session_invariant_witness : session_ok sample_live.
Proof. apply ipc_session_invariant. apply run_session_reach, sample_session_reach. Defined.

(** After the loss, a reassignment to a higher epoch and a new attachment the
    old lease is still revoked. *)
Lemma ipc_session_loss_final_witness :
  bound_leases (run_session (lost Revoked 30 sample_live) [CReassign (sample_epoch 2); CAttach])
    !! "lease-1" = Some {| lease_id := "lease-1"; sl_lease_epoch := 1; sl_issued_at_unix_ms := 10;
                           sl_expires_at_unix_ms := 20; sl_revoked := true |}.
Proof.
  destruct (ipc_session_loss_final (CRevoke 30) Revoked 30 sample_live (lost Revoked 30 sample_live)
              [CReassign (sample_epoch 2); CAttach] eq_refl) as (_ & _ & H & _).
  - vm_compute. reflexivity.
  - apply (H "lease-1"
             {| lease_id := "lease-1"; sl_lease_epoch := 1; sl_issued_at_unix_ms := 10;
                sl_expires_at_unix_ms := 20; sl_revoked := false |}).
    vm_compute. reflexivity.
Defined.

Definition sample_full : ApplicationSession :=
  run_session sample_live (replicate 1024 (CCheckpoint "work-1" 7)).

Lemma ipc_full_registry_never_ends_witness :
  is_terminal (state (run_session sample_full [CRevoke 40; CExpire 41])) = false.
Proof.
  refine (proj1 (ipc_full_registry_never_ends sample_full [CRevoke 40; CExpire 41] _ _)).
  - vm_compute. discriminate.
  - vm_compute. reflexivity.
Defined.
