(* ===== verification/Protocol.v ===== *)
(** * Bridge protocol: frames, events and module control

    The semantic layer of the EBP/1 protocol
    (crates/foundation/eliot-protocol/src/lib.rs, from the error type to the
    lifecycle event route): versions and their negotiation, frame kinds and
    message types, request identities, payloads, event envelopes with their
    acknowledgements and replay ledger, frame validation and the module
    lifecycle driven by control frames.

    What serde_json and the crates that own the other payloads do is reached
    through the class [Wire]; receipts are the ones of [Receipts]. *)

From Stdlib Require Import Ascii String.
From S2P Require Import Prelude RustText Contracts Receipts.

#[local] Open Scope string_scope.
#[local] Open Scope Z_scope.

(** ** Constants *)

Definition EBP_MAJOR : Z := 1.
Definition EBP_MINOR : Z := 1.
Definition NATIVE_WORKER_FRAME_EBP_MINOR : Z := 1.
Definition NATIVE_WORKER_FRAME_V1_WIRE_VERSION : Z := 1.
Definition NATIVE_WORKER_PROTOCOL_VERSION : string := "eliot-native-worker/v2".
Definition MAX_FRAME_BYTES : Z := 4 * 1024 * 1024.
Definition HOT_RESPONSE_BYTES : Z := 64 * 1024.
Definition HARD_STRUCTURED_RESPONSE_BYTES : Z := 256 * 1024.
Definition FRAME_PREFIX_BYTES : Z := 4.
Definition OPENCODE_HOST_EVENT_PAYLOAD_TYPE : string := "eliot.opencode.host-event.v1".
Definition REACTIVE_CONTEXT_PAYLOAD_TYPE : string := "reactive-context/v1".
Definition BACKUP_PAYLOAD_TYPE : string := "backup/v1".

(** ** Acknowledgement phases and errors *)

Inductive AckPhase : Type :=
| PhaseReceived
| PhaseDurable
| PhaseNormalized
| PhaseApplied
| PhaseRejected
| PhaseUnknown.

#[global] Instance AckPhase_eq_dec : EqDecision AckPhase.
Proof. solve_decision. Defined.

Definition AckPhase_to_string (p : AckPhase) : string :=
  match p with
  | PhaseReceived => "RECEIVED"
  | PhaseDurable => "DURABLE"
  | PhaseNormalized => "NORMALIZED"
  | PhaseApplied => "APPLIED"
  | PhaseRejected => "REJECTED"
  | PhaseUnknown => "UNKNOWN"
  end.

Inductive ProtocolError : Type :=
| FoundationError (e : ContractError)
| Provider (provider reason : string)
| InvalidField (field reason : string)
| IncompatibleMajor
| IncompatibleMinor
| UnknownMessageType
| UnknownEventPayloadType
| UnsupportedEncoding (profile : string)
| ZeroLengthFrame
| OversizeFrame (actual maximum : Z)
| PartialFrame (expected actual : Z)
| TrailingBytes
| InvalidUtf8
| JsonError (message : string)
| IoError (message : string)
| ReplayConflict
| InvalidAckTransition (from to : AckPhase).

#[global] Instance ProtocolError_eq_dec : EqDecision ProtocolError.
Proof. solve_decision. Defined.

Abbreviation PR := (result ProtocolError).

Definition text (value field : string) : PR unit :=
  check? guard_err (is_blank value) (InvalidField field "must be non-blank");
  guard_err (has_control value) (InvalidField field "must not contain control characters").

Definition unique_texts (values : list string) (field : string) : PR unit :=
  check? scan_distinct (fun value => text value field) id
           (fun _ => InvalidField field "must not contain duplicate values") ∅ values;
  Ok tt.

(** ** Versions *)

Record ProtocolVersion : Type := { pv_major : Z; pv_minor : Z }.

#[global] Instance ProtocolVersion_eq_dec : EqDecision ProtocolVersion.
Proof. solve_decision. Defined.

Definition ProtocolVersion_CURRENT : ProtocolVersion :=
  {| pv_major := EBP_MAJOR; pv_minor := EBP_MINOR |}.

Definition ProtocolVersion_validate (v : ProtocolVersion) : PR unit :=
  if pv_major v =? EBP_MAJOR then Ok tt
  else Err (InvalidField "protocol_version.major" "must use the admitted EBP/1 major").

(** The derived order: major first, then minor. *)
Definition version_lt (a b : ProtocolVersion) : bool :=
  (pv_major a <? pv_major b) || ((pv_major a =? pv_major b) && (pv_minor a <? pv_minor b)).

Record ProtocolRange : Type := { minimum : ProtocolVersion; maximum : ProtocolVersion }.

Definition ProtocolRange_validate (r : ProtocolRange) : PR unit :=
  check? guard_err (negb (pv_major (minimum r) =? pv_major (maximum r))) IncompatibleMajor;
  check? guard_err (version_lt (maximum r) (minimum r)) IncompatibleMinor;
  check? ProtocolVersion_validate (minimum r);
  ProtocolVersion_validate (maximum r).

Definition ProtocolRange_select (self other : ProtocolRange) : PR ProtocolVersion :=
  check? ProtocolRange_validate self;
  check? ProtocolRange_validate other;
  check? guard_err (negb (pv_major (minimum self) =? pv_major (minimum other))) IncompatibleMajor;
  let low := if version_lt (minimum other) (minimum self) then minimum self else minimum other in
  let high := if version_lt (maximum self) (maximum other) then maximum self else maximum other in
  check? guard_err (version_lt high low) IncompatibleMinor;
  Ok high.

(** ** Frame vocabulary *)

Inductive EncodingProfile : Type := JsonV1.

#[global] Instance EncodingProfile_eq_dec : EqDecision EncodingProfile.
Proof. solve_decision. Defined.

Inductive FrameKind : Type :=
| KRequest
| KResponse
| KEvent
| KCancel
| KHeartbeat
| KControl.

#[global] Instance FrameKind_eq_dec : EqDecision FrameKind.
Proof. solve_decision. Defined.

Inductive MessageType : Type :=
| MChallenge
| MStart
| MReady
| MHealth
| MExecute
| MResult
| MEvent
| MEventAck
| MCancel
| MQuiesce
| MCheckpoint
| MRestoreCheckpoint
| MDrainStatus
| MShutdown
| MFatal
| MNativeWorkerHeartbeat
| MNativeWorkerReconnect
| MNativeWorkerReconcile
| MNativeWorkerAcknowledge.

#[global] Instance MessageType_eq_dec : EqDecision MessageType.
Proof. solve_decision. Defined.

(** The name serde gives each variant: the enum has no rename attribute. *)
Definition MessageType_name (m : MessageType) : string :=
  match m with
  | MChallenge => "Challenge"
  | MStart => "Start"
  | MReady => "Ready"
  | MHealth => "Health"
  | MExecute => "Execute"
  | MResult => "Result"
  | MEvent => "Event"
  | MEventAck => "EventAck"
  | MCancel => "Cancel"
  | MQuiesce => "Quiesce"
  | MCheckpoint => "Checkpoint"
  | MRestoreCheckpoint => "RestoreCheckpoint"
  | MDrainStatus => "DrainStatus"
  | MShutdown => "Shutdown"
  | MFatal => "Fatal"
  | MNativeWorkerHeartbeat => "NativeWorkerHeartbeat"
  | MNativeWorkerReconnect => "NativeWorkerReconnect"
  | MNativeWorkerReconcile => "NativeWorkerReconcile"
  | MNativeWorkerAcknowledge => "NativeWorkerAcknowledge"
  end.

Inductive NativeWorkerOperationV1 : Type :=
| OpExecute
| OpCancel
| OpHeartbeat
| OpHealth
| OpCheckpoint
| OpQuiesce
| OpReconnect
| OpReconcile
| OpAcknowledge
| OpShutdown.

Definition operation_frame_kind (o : NativeWorkerOperationV1) : FrameKind :=
  match o with
  | OpExecute | OpCheckpoint | OpQuiesce | OpReconnect | OpReconcile | OpShutdown => KRequest
  | OpCancel => KCancel
  | OpHeartbeat | OpHealth => KHeartbeat
  | OpAcknowledge => KControl
  end.

Definition operation_message_type (o : NativeWorkerOperationV1) : MessageType :=
  match o with
  | OpExecute => MExecute
  | OpCancel => MCancel
  | OpHeartbeat => MNativeWorkerHeartbeat
  | OpHealth => MHealth
  | OpCheckpoint => MCheckpoint
  | OpQuiesce => MQuiesce
  | OpReconnect => MNativeWorkerReconnect
  | OpReconcile => MNativeWorkerReconcile
  | OpAcknowledge => MNativeWorkerAcknowledge
  | OpShutdown => MShutdown
  end.

Definition operation_body_kind (o : NativeWorkerOperationV1) : string :=
  match o with
  | OpExecute => "EXECUTE"
  | OpCancel => "CANCEL"
  | OpHeartbeat => "HEARTBEAT"
  | OpHealth => "HEALTH"
  | OpCheckpoint => "CHECKPOINT"
  | OpQuiesce => "QUIESCE"
  | OpReconnect => "RECONNECT"
  | OpReconcile => "RECONCILE"
  | OpAcknowledge => "ACKNOWLEDGE"
  | OpShutdown => "SHUTDOWN"
  end.

(** ** Request identities *)

Record RequestIdentity : Type := {
  ri_request : RequestBinding;
  ri_idempotency_key : string;
  ri_deadline_unix_ms : Z;
  ri_cancellation_id : string;
}.

Definition RequestIdentity_validate (i : RequestIdentity) : PR unit :=
  check? map_err FoundationError (RequestMetadata_validate (rb_metadata (ri_request i)));
  check? map_err FoundationError (StateFence_validate (rb_state_fence (ri_request i)));
  check? guard_err (meta_state_fence (rb_metadata (ri_request i)) != rb_state_fence (ri_request i))
           (InvalidField "request.state_fence" "must match request metadata state_fence");
  check? text (ri_idempotency_key i) "idempotency_key";
  check? guard_err (ri_deadline_unix_ms i =? 0)
           (InvalidField "deadline_unix_ms" "must be greater than zero");
  text (ri_cancellation_id i) "cancellation_id".

(** ** Payloads and events *)

Inductive DeliveryClass : Type := DurableControl | DurableObservation | BestEffortTelemetry.

Inductive EventDisposition : Type :=
| DispAccepted
| DispDuplicate
| DispRejected
| DispConflict.

#[global] Instance EventDisposition_eq_dec : EqDecision EventDisposition.
Proof. solve_decision. Defined.

Record EventAckReceipt : Type := {
  ea_stream_id : string;
  ea_event_id : string;
  ea_phase : AckPhase;
  ea_disposition : EventDisposition;
  ea_state_fence : StateFence;
  ea_receipt : ReceiptEnvelope;
}.

(** The fields of an event envelope beside its payload. *)
Record EventHeader : Type := {
  ev_stream_id : string;
  ev_producer_id : string;
  ev_producer_generation : ResourceGeneration;
  ev_authority_epoch : EpochId;
  ev_event_id : string;
  ev_sequence : Z;
  ev_causal_predecessor_refs : list string;
  ev_delivery_class : DeliveryClass;
  ev_ack_required : bool;
  ev_payload_type : string;
  ev_state_fence : StateFence;
  ev_trace_context : gmap string string;
}.

(** [Value] is a serde_json value; [Owned] a payload whose type and
    validation belong to another crate. *)
Section Types.
Context (Value Owned : Type).

Record NativeWorkerFramePayloadV1 : Type := {
  nw_wire_version : Z;
  nw_native_protocol_version : string;
  nw_operation : NativeWorkerOperationV1;
  nw_deadline_unix_ms : Z;
  nw_authority_epoch : EpochId;
  nw_state_fence : StateFence;
  nw_lease_id : string;
  nw_admission_revision : string;
  nw_producer_generation : Z;
  nw_body : Value;
}.

Inductive ProtocolPayload : Type :=
| PJson (v : Value)
| PReceipt (r : ReceiptEnvelope)
| PEvidence (o : Owned)
| PInstrumentInvocation (o : Owned)
| PVerificationRun (o : Owned)
| PAgentMessage (o : Owned)
| PEvent (e : EventEnvelope)
| PEventAck (a : EventAckReceipt)
| PNativeWorkerFrameV1 (n : NativeWorkerFramePayloadV1)
with EventEnvelope : Type :=
| MkEvent (head : EventHeader) (payload_or_blob_ref : EventPayload)
with EventPayload : Type :=
| Inline (p : ProtocolPayload)
| BlobRef (reference : string).

Record Frame : Type := {
  protocol_version : ProtocolVersion;
  encoding_profile : EncodingProfile;
  connection_id : string;
  request_id : option RequestId;
  kind : FrameKind;
  message_type : MessageType;
  request_identity : option RequestIdentity;
  payload : ProtocolPayload;
  trace_context : gmap string string;
}.
End Types.

Arguments nw_wire_version {Value} _.
Arguments nw_native_protocol_version {Value} _.
Arguments nw_operation {Value} _.
Arguments nw_deadline_unix_ms {Value} _.
Arguments nw_authority_epoch {Value} _.
Arguments nw_state_fence {Value} _.
Arguments nw_lease_id {Value} _.
Arguments nw_admission_revision {Value} _.
Arguments nw_producer_generation {Value} _.
Arguments nw_body {Value} _.
Arguments PJson {Value Owned} _.
Arguments PReceipt {Value Owned} _.
Arguments PEvidence {Value Owned} _.
Arguments PInstrumentInvocation {Value Owned} _.
Arguments PVerificationRun {Value Owned} _.
Arguments PAgentMessage {Value Owned} _.
Arguments PEvent {Value Owned} _.
Arguments PEventAck {Value Owned} _.
Arguments PNativeWorkerFrameV1 {Value Owned} _.
Arguments MkEvent {Value Owned} _ _.
Arguments Inline {Value Owned} _.
Arguments BlobRef {Value Owned} _.
Arguments protocol_version {Value Owned} _.
Arguments encoding_profile {Value Owned} _.
Arguments connection_id {Value Owned} _.
Arguments request_id {Value Owned} _.
Arguments kind {Value Owned} _.
Arguments message_type {Value Owned} _.
Arguments request_identity {Value Owned} _.
Arguments payload {Value Owned} _.
Arguments trace_context {Value Owned} _.

(** What serde_json, sha2 and the crates owning other payloads provide. Each
    member is one call the protocol code makes. *)
Class Wire (Value Owned : Type) : Type := {
  (** [body.as_object().and_then(|b| b.get("kind")).and_then(Value::as_str)] *)
  value_kind : Value -> option string;
  (** the string under "message_type" of a JSON object *)
  value_message_type : Value -> option string;
  (** [serde_json::from_value::<EventEnvelope>] *)
  event_of_value : Value -> option (EventEnvelope Value Owned);
  (** [validate()] of a payload owned by another crate, error as text *)
  owned_validate : Owned -> result string unit;
  (** [Display] of the errors wrapped by [provider_error] *)
  contract_error_text : ContractError -> string;
  receipt_error_text : ReceiptError -> string;
  (** [Sha256::digest] *)
  wire_sha256 : list Z -> list Z;
  (** [canonical_json_bytes] of receipt cores, events and frames *)
  receipt_json : ReceiptCore -> result string (list Z);
  event_json : EventEnvelope Value Owned -> result string (list Z);
  frame_json : Frame Value Owned -> result string (list Z);
  (** [serde_json::from_slice::<Value>] and [serde_json::from_value::<Frame>] *)
  json_from_slice : list Z -> result string Value;
  frame_from_value : Value -> result string (Frame Value Owned);
  (** [serde_json::from_slice::<KindProbe>(body).ok()?.kind] *)
  probe_kind : list Z -> option FrameKind;
}.

Section Validation.
Context {Value Owned : Type} `{W : Wire Value Owned}.

Definition native_worker_validate (n : NativeWorkerFramePayloadV1 Value) : PR unit :=
  check? guard_err (negb (nw_wire_version n =? NATIVE_WORKER_FRAME_V1_WIRE_VERSION))
           (InvalidField "payload.wire_version"
              "unsupported native-worker frame payload version");
  check? guard_err (nw_native_protocol_version n != NATIVE_WORKER_PROTOCOL_VERSION)
           (InvalidField "payload.native_protocol_version"
              "unsupported native-worker protocol version");
  check? guard_err ((nw_deadline_unix_ms n =? 0) || (nw_producer_generation n =? 0))
           (InvalidField "payload.native_worker_identity"
              "deadline and producer generation must be greater than zero");
  check? text (nw_admission_revision n) "payload.admission_revision";
  check? map_err (fun e => Provider "eliot-contracts" (contract_error_text e))
           (StateFence_validate (nw_state_fence n));
  check? guard_err (negb (is_same_authority (nw_authority_epoch n)
                            (authority_epoch (nw_state_fence n))))
           (InvalidField "payload.authority_epoch"
              "must match payload.state_fence.authority_epoch");
  guard_err (value_kind (nw_body n) != Some (operation_body_kind (nw_operation n)))
    (InvalidField "payload.body.kind" "must match the native-worker operation discriminator").

Definition receipt_validate (r : ReceiptEnvelope) : PR unit :=
  map_err (fun e => Provider "eliot-receipts" (receipt_error_text e))
    (envelope_validate wire_sha256 receipt_json r).

Definition EventAckReceipt_validate (a : EventAckReceipt) : PR unit :=
  check? text (ea_stream_id a) "stream_id";
  check? text (ea_event_id a) "event_id";
  check? map_err FoundationError (StateFence_validate (ea_state_fence a));
  check? receipt_validate (ea_receipt a);
  check? guard_err (rc_kind (re_core (ea_receipt a)) != KindCoordination)
           (InvalidField "receipt.core.kind"
              "event acknowledgements require a coordination receipt");
  let? coordination := ok_or (rc_coordination (re_core (ea_receipt a)))
           (InvalidField "receipt.core.coordination"
              "event acknowledgement identity is required") in
  check? guard_err (co_event_id coordination != ea_event_id a)
           (InvalidField "receipt.core.coordination.event_id"
              "must match the acknowledged event_id");
  guard_err (ws_state_fence (rc_work_scope (re_core (ea_receipt a))) != ea_state_fence a)
    (InvalidField "receipt.core.work_scope.state_fence"
       "must match the acknowledgement state_fence").

(** The loop over a trace context, in key order. *)
Definition trace_validate (t : gmap string string) : PR unit :=
  for_each (fun kv => check? text kv.1 "trace_context.key"; text kv.2 "trace_context.value")
    (btree_iter t).

(** [EventEnvelope::validate] up to the payload, and after it. *)
Definition header_validate_head (h : EventHeader) : PR unit :=
  check? text (ev_stream_id h) "stream_id";
  check? text (ev_producer_id h) "producer_id";
  check? text (ev_event_id h) "event_id";
  check? text (ev_payload_type h) "payload_type";
  check? guard_err (ev_sequence h =? 0) (InvalidField "sequence" "must be greater than zero");
  unique_texts (ev_causal_predecessor_refs h) "causal_predecessor_refs".

Definition header_validate_tail (h : EventHeader) : PR unit :=
  check? map_err FoundationError (StateFence_validate (ev_state_fence h));
  check? guard_err (negb (is_same_authority (ev_authority_epoch h)
                            (authority_epoch (ev_state_fence h))))
           (InvalidField "authority_epoch" "must match state_fence.authority_epoch");
  trace_validate (ev_trace_context h).

Fixpoint payload_validate (p : ProtocolPayload Value Owned) : PR unit :=
  match p with
  | PJson _ => Ok tt
  | PReceipt r => receipt_validate r
  | PEvidence o => map_err (Provider "eliot-evidence") (owned_validate o)
  | PInstrumentInvocation o => map_err (Provider "eliot-instrument-api") (owned_validate o)
  | PVerificationRun o => map_err (Provider "eliot-instrument-api") (owned_validate o)
  | PAgentMessage o => map_err (Provider "eliot-agent-contracts") (owned_validate o)
  | PEvent e => EventEnvelope_validate e
  | PEventAck a => EventAckReceipt_validate a
  | PNativeWorkerFrameV1 n => native_worker_validate n
  end
with EventEnvelope_validate (e : EventEnvelope Value Owned) : PR unit :=
  match e with
  | MkEvent h p =>
      check? header_validate_head h;
      check? EventPayload_validate p;
      header_validate_tail h
  end
with EventPayload_validate (p : EventPayload Value Owned) : PR unit :=
  match p with
  | Inline p => payload_validate p
  | BlobRef reference => text reference "payload_or_blob_ref"
  end.

(** ** Frame validation *)

Definition validate_event_message (k : FrameKind) (m : MessageType)
    (p : ProtocolPayload Value Owned) : PR unit :=
  match k, m, p with
  | KEvent, MEvent, PEvent _ => Ok tt
  | KControl, MEventAck, PEventAck _ => Ok tt
  | KEvent, MEvent, PJson value =>
      let? event := ok_or (event_of_value value)
        (InvalidField "payload" "lifecycle Event JSON must encode an EventEnvelope") in
      EventEnvelope_validate event
  | _, _, PEvent _ =>
      Err (InvalidField "kind/message_type"
             "EventEnvelope payloads require the lifecycle Event frame")
  | _, _, PEventAck _ =>
      Err (InvalidField "kind/message_type"
             "EventAckReceipt payloads require the EventAck control frame")
  | KEvent, MEvent, _ =>
      Err (InvalidField "payload" "lifecycle Event frames require an EventEnvelope")
  | KEvent, _, _ =>
      Err (InvalidField "message_type" "Event frames require the lifecycle Event message type")
  | _, MEvent, _ =>
      Err (InvalidField "kind" "lifecycle Event messages require an Event frame")
  | KControl, MEventAck, _ =>
      Err (InvalidField "payload" "event acknowledgement frames require an EventAckReceipt")
  | _, MEventAck, _ =>
      Err (InvalidField "kind" "event acknowledgement messages require a Control frame")
  | _, _, _ => Ok tt
  end.

Definition is_native_worker_message (m : MessageType) : bool :=
  match m with
  | MNativeWorkerHeartbeat | MNativeWorkerReconnect | MNativeWorkerReconcile
  | MNativeWorkerAcknowledge => true
  | _ => false
  end.

Definition validate_native_worker_frame (f : Frame Value Owned) : PR bool :=
  let native_worker :=
    match payload f with
    | PNativeWorkerFrameV1 n => Some n
    | _ => None
    end in
  check? guard_err (is_native_worker_message (message_type f) && negb (is_some native_worker))
           (InvalidField "payload" "native-worker message types require NativeWorkerFrameV1");
  check? match native_worker with
         | None => Ok tt
         | Some n =>
             check? guard_err (pv_minor (protocol_version f) <? NATIVE_WORKER_FRAME_EBP_MINOR)
                      (InvalidField "protocol_version.minor"
                         "native-worker frames require EBP/1.1 or newer");
             check? guard_err (negb (is_some (request_id f)))
                      (InvalidField "request_id" "required for every native-worker frame");
             check? guard_err (is_some (request_identity f))
                      (InvalidField "request_identity"
                         "native-worker authority uses its versioned payload contract");
             guard_err ((kind f != operation_frame_kind (nw_operation n))
                        || (message_type f != operation_message_type (nw_operation n)))
               (InvalidField "kind/message_type" "must match the native-worker operation mapping")
         end;
  Ok (is_some native_worker).

(** The canonical frame kind of a message type. *)
Definition expected_kind (m : MessageType) : FrameKind :=
  match m with
  | MStart | MReady | MChallenge | MFatal | MEventAck | MNativeWorkerAcknowledge => KControl
  | MHealth | MNativeWorkerHeartbeat => KHeartbeat
  | MExecute | MQuiesce | MCheckpoint | MRestoreCheckpoint | MDrainStatus | MShutdown
  | MNativeWorkerReconnect | MNativeWorkerReconcile => KRequest
  | MResult => KResponse
  | MEvent => KEvent
  | MCancel => KCancel
  end.

Definition is_request_or_cancel (k : FrameKind) : bool :=
  match k with
  | KRequest | KCancel => true
  | _ => false
  end.

Definition Frame_validate (f : Frame Value Owned) : PR unit :=
  check? ProtocolVersion_validate (protocol_version f);
  check? text (connection_id f) "connection_id";
  let request_form :=
    (kind f == KRequest) && ((message_type f == MStart) || (message_type f == MHealth)) in
  check? guard_err ((kind f != expected_kind (message_type f)) && negb request_form)
           (InvalidField "kind/message_type" "message type requires its canonical frame kind");
  check? guard_err (is_request_or_cancel (kind f) && negb (is_some (request_id f)))
           (InvalidField "request_id" "required for request and cancel frames");
  let? native_worker := validate_native_worker_frame f in
  check? guard_err (is_request_or_cancel (kind f) && negb (is_some (request_identity f))
                    && negb native_worker)
           (InvalidField "request_identity" "required for request and cancel frames");
  check? match request_identity f with
         | None => Ok tt
         | Some identity =>
             check? RequestIdentity_validate identity;
             guard_err (request_id f
                        != Some (meta_request_id (rb_metadata (ri_request identity))))
               (InvalidField "request_identity.request_id" "must match frame request_id")
         end;
  check? validate_event_message (kind f) (message_type f) (payload f);
  check? payload_validate (payload f);
  trace_validate (trace_context f).

(** ** Event acknowledgement and replay *)

Definition is_known_event_payload_type (payload_type : string) : bool :=
  (payload_type == REACTIVE_CONTEXT_PAYLOAD_TYPE) || (payload_type == BACKUP_PAYLOAD_TYPE)
  || (payload_type == OPENCODE_HOST_EVENT_PAYLOAD_TYPE).

Definition event_header (e : EventEnvelope Value Owned) : EventHeader :=
  match e with MkEvent h _ => h end.

Definition require_known_payload_type (e : EventEnvelope Value Owned) : PR unit :=
  if is_known_event_payload_type (ev_payload_type (event_header e)) then Ok tt
  else Err UnknownEventPayloadType.
End Validation.

Definition can_advance (from to : AckPhase) : bool :=
  match from, to with
  | PhaseReceived, (PhaseDurable | PhaseRejected | PhaseUnknown) => true
  | PhaseDurable, (PhaseNormalized | PhaseRejected | PhaseUnknown) => true
  | PhaseNormalized, (PhaseApplied | PhaseRejected | PhaseUnknown) => true
  | PhaseApplied, PhaseApplied => true
  | PhaseRejected, PhaseRejected => true
  | PhaseUnknown, PhaseUnknown => true
  | l, r => l == r
  end.

Definition validate_advance (from to : AckPhase) : PR unit :=
  if can_advance from to then Ok tt else Err (InvalidAckTransition from to).

(** ** Event identities *)

Record EventIdentityKey : Type := { key_stream_id : string; key_event_id : string }.

#[global] Instance EventIdentityKey_eq_dec : EqDecision EventIdentityKey.
Proof. solve_decision. Defined.

#[global] Instance EventIdentityKey_countable : Countable EventIdentityKey.
Proof.
  apply (inj_countable' (fun k => (key_stream_id k, key_event_id k))
           (fun p => {| key_stream_id := p.1; key_event_id := p.2 |})).
  by intros [].
Defined.

(** [z.to_be_bytes()] of an [n]-byte integer, and its inverse. *)
Fixpoint to_be_bytes (n : nat) (z : Z) : list Z :=
  match n with
  | O => []
  | S n' => Z.shiftr z (8 * Z.of_nat n') mod 256 :: to_be_bytes n' z
  end.

Definition EVENT_IDENTITY_DOMAIN_TAG : list Z := bytes "eliot:event:v1".

Definition key_canonical_bytes (k : EventIdentityKey) : list Z :=
  EVENT_IDENTITY_DOMAIN_TAG ++ to_be_bytes 8 (len (key_stream_id k)) ++ bytes (key_stream_id k)
  ++ to_be_bytes 8 (len (key_event_id k)) ++ bytes (key_event_id k).

Section Replay.
Context {Value Owned : Type} `{W : Wire Value Owned}.

Definition key_canonical_hex (k : EventIdentityKey) : string :=
  sha256_hex wire_sha256 (key_canonical_bytes k).

Definition event_replay_key (stream_id event_id : string) : string :=
  key_canonical_hex {| key_stream_id := stream_id; key_event_id := event_id |}.

Definition replay_key (e : EventEnvelope Value Owned) : EventIdentityKey :=
  {| key_stream_id := ev_stream_id (event_header e); key_event_id := ev_event_id (event_header e) |}.

Record ReplayLedger : Type := { entries : gmap EventIdentityKey (Z * string) }.

Definition observe (event : EventEnvelope Value Owned)
    : M ReplayLedger ProtocolError EventDisposition :=
  do! mlift (EventEnvelope_validate event);
  let key := replay_key event in
  let! body := mlift (map_err JsonError (event_json event)) in
  let digest := sha256_hex wire_sha256 body in
  let! self := mstate in
  match entries self !! key with
  | Some (sequence, previous_digest) =>
      if (sequence =? ev_sequence (event_header event)) && (previous_digest == digest)
      then mret_ok DispDuplicate
      else mthrow ReplayConflict
  | None =>
      do! mmodify (fun s =>
            {| entries := <[key := (ev_sequence (event_header event), digest)]> (entries s) |});
      mret_ok DispAccepted
  end.

Definition ReplayLedger_new : ReplayLedger := {| entries := ∅ |}.

Definition route_lifecycle_event (f : Frame Value Owned)
    : M ReplayLedger ProtocolError EventDisposition :=
  do! mlift (Frame_validate f);
  let! envelope := mlift
    match kind f, message_type f, payload f with
    | KEvent, MEvent, PEvent envelope =>
        check? EventEnvelope_validate envelope; Ok envelope
    | KEvent, MEvent, PJson value =>
        let? envelope := ok_or (event_of_value value)
          (InvalidField "payload" "lifecycle Event JSON must encode an EventEnvelope") in
        check? EventEnvelope_validate envelope; Ok envelope
    | _, _, _ =>
        Err (InvalidField "kind/message_type"
               "lifecycle Event dispatch requires an Event frame carrying an EventEnvelope")
    end in
  do! mlift (require_known_payload_type envelope);
  observe envelope.
End Replay.

(** ** Module lifecycle *)

Inductive ModuleLifecyclePhase : Type := LActive | LQuiesced | LTerminated | LFailed.

#[global] Instance ModuleLifecyclePhase_eq_dec : EqDecision ModuleLifecyclePhase.
Proof. solve_decision. Defined.

Record ModuleCheckpoint : Type := {
  mc_checkpoint_id : string;
  mc_request_id : RequestId;
  mc_idempotency_key : string;
}.

#[global] Instance ModuleCheckpoint_eq_dec : EqDecision ModuleCheckpoint.
Proof. solve_decision. Defined.

Definition ModuleCheckpoint_validate (c : ModuleCheckpoint) : PR unit :=
  check? text (mc_checkpoint_id c) "module_checkpoint.checkpoint_id";
  check? text (mc_request_id c) "module_checkpoint.request_id";
  check? text (mc_idempotency_key c) "module_checkpoint.idempotency_key";
  guard_err (mc_checkpoint_id c != mc_request_id c)
    (InvalidField "module_checkpoint.checkpoint_id" "must match the originating request_id text").

Record ModuleDrainReport : Type := {
  dr_phase : ModuleLifecyclePhase;
  dr_quiesced : bool;
  dr_has_checkpoint : bool;
}.

Inductive ModuleControlEffect : Type :=
| Quiesced
| CheckpointRecorded (c : ModuleCheckpoint)
| CheckpointRestored (c : ModuleCheckpoint)
| DrainReported (r : ModuleDrainReport)
| ShutdownStarted
| FatalRecorded.

Record ModuleLifecycle : Type := {
  phase : ModuleLifecyclePhase;
  checkpoint : option ModuleCheckpoint;
}.

Definition ModuleLifecycle_new : ModuleLifecycle := {| phase := LActive; checkpoint := None |}.

Definition drain_report (l : ModuleLifecycle) : ModuleDrainReport :=
  {| dr_phase := phase l; dr_quiesced := phase l == LQuiesced;
     dr_has_checkpoint := is_some (checkpoint l) |}.

Definition set_phase (p : ModuleLifecyclePhase) (l : ModuleLifecycle) : ModuleLifecycle :=
  {| phase := p; checkpoint := checkpoint l |}.

Section Lifecycle.
Context {Value Owned : Type} `{W : Wire Value Owned}.

Abbreviation ML := (M ModuleLifecycle ProtocolError ModuleControlEffect).

Definition control_identity (f : Frame Value Owned) : PR RequestIdentity :=
  let? identity := ok_or (request_identity f)
    (InvalidField "request_identity" "required for lifecycle control requests") in
  check? RequestIdentity_validate identity;
  check? guard_err (negb (is_some (request_id f)))
           (InvalidField "request_id" "required for lifecycle control requests");
  Ok identity.

Definition apply_quiesce (f : Frame Value Owned) : ML :=
  do! mlift (control_identity f);
  let! self := mstate in
  do! mlift (guard_err (phase self != LActive)
               (InvalidField "module_lifecycle.phase" "quiesce requires the active phase"));
  do! mmodify (set_phase LQuiesced);
  mret_ok Quiesced.

Definition apply_checkpoint (f : Frame Value Owned) : ML :=
  let! identity := mlift (control_identity f) in
  let! self := mstate in
  do! mlift (guard_err (phase self != LQuiesced)
               (InvalidField "module_lifecycle.phase" "checkpoint requires the quiesced phase"));
  let! rid := mlift (ok_or (request_id f)
                (InvalidField "request_id" "required for lifecycle control requests")) in
  let c := {| mc_checkpoint_id := rid; mc_request_id := rid;
              mc_idempotency_key := ri_idempotency_key identity |} in
  do! mlift (ModuleCheckpoint_validate c);
  do! mmodify (fun s => {| phase := phase s; checkpoint := Some c |});
  mret_ok (CheckpointRecorded c).

Definition apply_restore (f : Frame Value Owned) : ML :=
  do! mlift (control_identity f);
  let! self := mstate in
  do! mlift (guard_err (phase self != LQuiesced)
               (InvalidField "module_lifecycle.phase" "restore requires the quiesced phase"));
  let! c := mlift (ok_or (checkpoint self)
              (InvalidField "module_lifecycle.checkpoint"
                 "restore requires a retained checkpoint")) in
  do! mlift (ModuleCheckpoint_validate c);
  mret_ok (CheckpointRestored c).

Definition apply_drain (f : Frame Value Owned) : ML :=
  do! mlift (control_identity f);
  let! self := mstate in
  mret_ok (DrainReported (drain_report self)).

Definition apply_shutdown (f : Frame Value Owned) : ML :=
  do! mlift (control_identity f);
  let! self := mstate in
  match phase self with
  | LActive | LQuiesced =>
      do! mmodify (set_phase LTerminated);
      mret_ok ShutdownStarted
  | _ => mthrow (InvalidField "module_lifecycle.phase"
                   "shutdown requires the active or quiesced phase")
  end.

Definition apply_fatal (f : Frame Value Owned) : ML :=
  let! self := mstate in
  do! mlift (guard_err ((phase self == LTerminated) || (phase self == LFailed))
               (InvalidField "module_lifecycle.phase" "fatal requires a non-terminal phase"));
  do! mmodify (set_phase LFailed);
  mret_ok FatalRecorded.

Definition apply_control (f : Frame Value Owned) : ML :=
  do! mlift (Frame_validate f);
  match message_type f with
  | MQuiesce => apply_quiesce f
  | MCheckpoint => apply_checkpoint f
  | MRestoreCheckpoint => apply_restore f
  | MDrainStatus => apply_drain f
  | MShutdown => apply_shutdown f
  | MFatal => apply_fatal f
  | _ => mthrow (InvalidField "message_type" "not a module lifecycle control message")
  end.
End Lifecycle.
