(* ===== verification/ProtocolLaws.v ===== *)
(** * Laws of the bridge protocol

    Theorems about [Protocol]: version negotiation, acknowledgement phases,
    the injectivity of event identity bytes, the replay ledger, what frame
    validation guarantees, and the module lifecycle over runs of control
    frames. *)

From Stdlib Require Import Ascii String.
From S2P Require Import Prelude RustText Contracts Receipts Protocol.

#[local] Open Scope string_scope.
#[local] Open Scope Z_scope.

(** ** Version negotiation *)

Definition in_range (v : ProtocolVersion) (r : ProtocolRange) : Prop :=
  version_lt v (minimum r) = false /\ version_lt (maximum r) v = false.

Lemma version_lt_spec a b :
  version_lt a b = true <->
  pv_major a < pv_major b \/ (pv_major a = pv_major b /\ pv_minor a < pv_minor b).
Proof.
  unfold version_lt. rewrite orb_true_iff, andb_true_iff, !Z.ltb_lt, Z.eqb_eq. done.
Qed.

Lemma version_lt_false a b :
  version_lt a b = false <->
  pv_major b < pv_major a \/ (pv_major a = pv_major b /\ pv_minor b <= pv_minor a).
Proof. rewrite <- not_true_iff_false, version_lt_spec. lia. Qed.

Lemma version_eq a b : pv_major a = pv_major b -> pv_minor a = pv_minor b -> a = b.
Proof. destruct a, b; simpl; congruence. Qed.

Lemma range_validate_ok r :
  ProtocolRange_validate r = Ok tt <->
  pv_major (minimum r) = EBP_MAJOR /\ pv_major (maximum r) = EBP_MAJOR /\
  pv_minor (minimum r) <= pv_minor (maximum r).
Proof.
  unfold ProtocolRange_validate, ProtocolVersion_validate.
  rewrite !check_guard_ok, check_ok, negb_false_iff, Z.eqb_eq, version_lt_false.
  destruct (Z.eqb_spec (pv_major (minimum r)) EBP_MAJOR),
    (Z.eqb_spec (pv_major (maximum r)) EBP_MAJOR); split; intros; destruct_and?;
    split_and?; try done; try lia.
Qed.

(** Negotiation selects a version exactly when both ranges are
    well-formed EBP/1 ranges and they overlap, and then it is the greatest
    version in both; the two sides select the same version. *)
Theorem negotiation_selects_greatest (a b : ProtocolRange) (v : ProtocolVersion) :
  (ProtocolRange_select a b = Ok v <->
   ProtocolRange_validate a = Ok tt /\ ProtocolRange_validate b = Ok tt /\
   in_range v a /\ in_range v b /\
   forall w, in_range w a -> in_range w b -> version_lt v w = false) /\
  (ProtocolRange_select a b = Ok v <-> ProtocolRange_select b a = Ok v).
Proof.
  assert (Hsel : forall a b, ProtocolRange_select a b = Ok v <->
    ProtocolRange_validate a = Ok tt /\ ProtocolRange_validate b = Ok tt /\
    in_range v a /\ in_range v b /\
    forall w, in_range w a -> in_range w b -> version_lt v w = false).
  { clear a b. intros a b. unfold ProtocolRange_select.
    rewrite !check_ok, !guard_err_ok, !range_validate_ok, negb_false_iff, Z.eqb_eq.
    unfold in_range. setoid_rewrite version_lt_false.
    destruct (version_lt (minimum b) (minimum a)) eqn:E1;
      destruct (version_lt (maximum a) (maximum b)) eqn:E2;
      rewrite ?version_lt_spec in E1; rewrite ?version_lt_false in E1;
      rewrite ?version_lt_spec in E2; rewrite ?version_lt_false in E2.
    all: split; [intros (Ha & Hb & Hm & Ho & [= <-]); split_and!; try lia; intros w; lia|].
    all: intros (Ha & Hb & Hva & Hvb & Hmax).
    all: split_and!; try lia; f_equal; apply version_eq.
    all: first [specialize (Hmax (maximum a)); lia | specialize (Hmax (maximum b)); lia]. }
  split; [apply Hsel|]. rewrite !Hsel. naive_solver.
Qed.

(** ** Acknowledgement phases *)

Definition ack_terminal (p : AckPhase) : bool :=
  match p with
  | PhaseApplied | PhaseRejected | PhaseUnknown => true
  | _ => false
  end.

(** A receiver's reported phases, oldest first: each advance was validated. *)
Fixpoint ack_run (from : AckPhase) (l : list AckPhase) : Prop :=
  match l with
  | [] => True
  | p :: l' => validate_advance from p = Ok tt /\ ack_run p l'
  end.

Lemma validate_advance_ok from to : validate_advance from to = Ok tt <-> can_advance from to = true.
Proof. unfold validate_advance. by destruct (can_advance from to). Qed.

Lemma ack_run_terminal from l :
  ack_terminal from = true -> ack_run from l -> Forall (fun p => p = from) l.
Proof.
  revert from. induction l as [|p l IH]; intros from Ht; [constructor|].
  intros [H%validate_advance_ok Hl]. assert (p = from) as -> by (by destruct from, p).
  constructor; [done|]. by apply IH.
Qed.

Lemma ack_run_applied from l :
  ack_run from l -> last l = Some PhaseApplied ->
  (from = PhaseReceived -> PhaseDurable ∈ l) /\
  (from = PhaseReceived \/ from = PhaseDurable -> PhaseNormalized ∈ l).
Proof.
  revert from. induction l as [|p l IH]; intros from; [done|].
  intros [H%validate_advance_ok Hl] Hlast. destruct l as [|q l].
  - simpl in Hlast. simplify_eq. destruct from; split; naive_solver.
  - assert (Hlast' : last (q :: l) = Some PhaseApplied) by done.
    destruct (IH p Hl Hlast') as [H1 H2].
    assert (Hp : ack_terminal p = true -> p = PhaseApplied).
    { intros Ht. apply (ack_run_terminal p _ Ht) in Hl. rewrite Forall_forall in Hl.
      symmetry. apply Hl, last_Some_elem_of. done. }
    destruct from, p; try discriminate H; try discriminate (Hp eq_refl);
      split; intros Hf; rewrite elem_of_cons;
      try (by left); try (by destruct Hf); right; (apply H1 || apply H2); auto.
Qed.

(** Acknowledgements never skip a phase: a run of validated advances that
    starts at Received and ends at Applied passes through Durable and
    Normalized, and once Applied, Rejected or Unknown is reported every later
    report repeats it. *)
Theorem ack_phases_never_skip (l : list AckPhase) (Hrun : ack_run PhaseReceived l) :
  (last l = Some PhaseApplied -> PhaseDurable ∈ l /\ PhaseNormalized ∈ l) /\
  (forall i j p q, l !! i = Some p -> l !! j = Some q -> (i <= j)%nat ->
     ack_terminal p = true -> q = p).
Proof.
  split; [intros H; destruct (ack_run_applied _ l Hrun H) as [H1 H2]; split; eauto|].
  revert Hrun. generalize PhaseReceived as from.
  induction l as [|x l IH]; intros from Hl i j p q Hi Hj Hij Ht; [done|].
  destruct Hl as [_ Hl].
  destruct i as [|i].
  - simpl in Hi. simplify_eq. destruct j as [|j]; [by simpl in Hj; simplify_eq|].
    apply (ack_run_terminal p l Ht) in Hl. rewrite Forall_lookup in Hl. exact (Hl j q Hj).
  - destruct j as [|j]; [lia|]. eapply (IH x Hl i j); eauto. lia.
Qed.

Lemma ack_phases_never_skip_witness :
  PhaseDurable ∈ [PhaseDurable; PhaseNormalized; PhaseApplied; PhaseApplied] /\
  PhaseNormalized ∈ [PhaseDurable; PhaseNormalized; PhaseApplied; PhaseApplied].
Proof.
  apply (ack_phases_never_skip [PhaseDurable; PhaseNormalized; PhaseApplied; PhaseApplied]).
  - repeat split.
  - reflexivity.
Defined.

(** ** Event identity bytes *)

Lemma to_be_bytes_length n z : length (to_be_bytes n z) = n.
Proof. induction n; simpl; congruence. Qed.

Fixpoint from_be_bytes (l : list Z) : Z :=
  match l with
  | [] => 0
  | b :: l' => b * 2 ^ (8 * Z.of_nat (length l')) + from_be_bytes l'
  end.

Lemma from_to_be_bytes n z : from_be_bytes (to_be_bytes n z) = z mod 2 ^ (8 * Z.of_nat n).
Proof.
  induction n as [|n IH]; [by rewrite Z.mod_1_r|]. cbn [to_be_bytes from_be_bytes].
  rewrite IH, to_be_bytes_length, Nat2Z.inj_succ, Z.mul_succ_r, Z.pow_add_r by lia.
  rewrite Z.rem_mul_r by lia. rewrite Z.shiftr_div_pow2 by lia.
  change (2 ^ 8) with 256. lia.
Qed.

Lemma to_be_bytes_inj n a b :
  0 <= a < 2 ^ (8 * Z.of_nat n) -> 0 <= b < 2 ^ (8 * Z.of_nat n) ->
  to_be_bytes n a = to_be_bytes n b -> a = b.
Proof.
  intros Ha Hb H%(f_equal from_be_bytes). rewrite !from_to_be_bytes in H.
  by rewrite !Z.mod_small in H.
Qed.

Lemma bytes_length s : length (bytes s) = String.length s.
Proof. unfold bytes. rewrite length_map. induction s; simpl; congruence. Qed.

Lemma byte_of_inj a b : byte_of a = byte_of b -> a = b.
Proof.
  unfold byte_of. intros H%N2Z.inj%(f_equal ascii_of_N). by rewrite !ascii_N_embedding in H.
Qed.

Lemma bytes_inj s t : bytes s = bytes t -> s = t.
Proof.
  revert t. induction s as [|a s IH]; intros [|b t]; try done.
  unfold bytes. simpl. intros [= H1%byte_of_inj H2]. f_equal; [done|]. by apply IH.
Qed.

(** A length-prefixed string is a prefix code. *)
Lemma prefixed_inj s t r r' :
  is_u64 (len s) -> is_u64 (len t) ->
  (to_be_bytes 8 (len s) ++ bytes s ++ r)%list = (to_be_bytes 8 (len t) ++ bytes t ++ r')%list ->
  s = t /\ r = r'.
Proof.
  intros Hs Ht H. apply app_inj_1 in H as [Hl H]; [|by rewrite !to_be_bytes_length].
  assert (Hlen : len s = len t).
  { apply (to_be_bytes_inj 8); [..|done]; unfold is_u64, u64_max in *;
      change (2 ^ (8 * Z.of_nat 8)) with (2 ^ 64); lia. }
  apply app_inj_1 in H as [Hb ->]; [by apply bytes_inj in Hb|].
  rewrite !bytes_length. unfold len in Hlen. lia.
Qed.

(** The canonical bytes of an event identity determine it: two keys whose
    texts are within a [u64] length and whose bytes agree are the same stream
    and event, so the hashed identity cannot confuse a boundary between the
    two texts. *)
Theorem event_identity_bytes_injective (k k' : EventIdentityKey)
    (Hk : is_u64 (len (key_stream_id k)) /\ is_u64 (len (key_event_id k)))
    (Hk' : is_u64 (len (key_stream_id k')) /\ is_u64 (len (key_event_id k')))
    (Heq : key_canonical_bytes k = key_canonical_bytes k') : k = k'.
Proof.
  destruct k as [s e], k' as [s' e'], Hk as [Hs He], Hk' as [Hs' He']; simpl in *.
  unfold key_canonical_bytes in Heq; simpl key_stream_id in Heq; simpl key_event_id in Heq.
  apply app_inj_1 in Heq as [_ Heq]; [|done].
  apply prefixed_inj in Heq as [-> Heq]; [|done..].
  rewrite <- (app_nil_r (bytes e)), <- (app_nil_r (bytes e')) in Heq.
  by apply prefixed_inj in Heq as [-> _].
Qed.

Lemma event_identity_bytes_injective_witness :
  {| key_stream_id := "a"; key_event_id := "bc" |} = {| key_stream_id := "a"; key_event_id := "bc" |} /\
  key_canonical_bytes {| key_stream_id := "ab"; key_event_id := "c" |}
    <> key_canonical_bytes {| key_stream_id := "a"; key_event_id := "bc" |}.
Proof.
  split.
  - apply event_identity_bytes_injective; [..|reflexivity];
      split; split; vm_compute; discriminate.
  - intros H. vm_compute in H. discriminate H.
Defined.

(** ** The replay ledger *)

Section ReplayLaws.
Context {Value Owned : Type} `{W : Wire Value Owned}.
Implicit Types e : EventEnvelope Value Owned.

(** What the ledger stores of an event. *)
Definition event_record e (body : list Z) : Z * string :=
  (ev_sequence (event_header e), sha256_hex wire_sha256 body).

Lemma observe_spec e s :
  match EventEnvelope_validate e, event_json e with
  | Ok _, Ok body =>
      match entries s !! replay_key e with
      | None => observe e s = ({| entries := <[replay_key e := event_record e body]> (entries s) |},
                               Ok DispAccepted)
      | Some v => observe e s = (s, if bool_decide (v = event_record e body)
                                    then Ok DispDuplicate else Err ReplayConflict)
      end
  | _, _ => exists err, observe e s = (s, Err err)
  end.
Proof.
  unfold observe, event_record. unfold_monad.
  destruct (EventEnvelope_validate e) as [[]|err]; [|eauto].
  destruct (event_json e) as [body|err]; [|eauto].
  destruct (entries s !! replay_key e) as [[n d]|]; [|done].
  destruct (Z.eqb_spec n (ev_sequence (event_header e))) as [->|Hn]; simpl.
  - case_bool_decide as Hd; case_bool_decide as Hp; naive_solver.
  - rewrite (bool_decide_eq_false_2 (_ = _)); [done|congruence].
Qed.

Lemma observe_grows e s : entries s ⊆ entries (observe e s).1.
Proof.
  pose proof (observe_spec e s) as H.
  destruct (EventEnvelope_validate e) as [[]|], (event_json e) as [body|];
    try (destruct H as [err ->]; done).
  destruct (entries s !! replay_key e) as [v|] eqn:Hk; rewrite H; simpl; [done|].
  by apply insert_subseteq.
Qed.

Fixpoint run_observe (s : ReplayLedger) (events : list (EventEnvelope Value Owned))
    : ReplayLedger :=
  match events with
  | [] => s
  | e :: events' => run_observe (observe e s).1 events'
  end.

Lemma run_observe_grows s events : entries s ⊆ entries (run_observe s events).
Proof.
  revert s. induction events as [|e events IH]; intros s; simpl; [done|].
  etrans; [apply observe_grows|apply IH].
Qed.

(** The replay ledger accepts an event identity once and for all: after an
    acceptance, whatever is observed next, the same event is a duplicate that
    changes nothing, and a valid event with the same identity but another
    sequence or another digest is refused as a conflict that changes
    nothing. *)
Theorem replay_ledger_accepts_once (e : EventEnvelope Value Owned) (s s1 : ReplayLedger)
    (later : list (EventEnvelope Value Owned)) (H : observe e s = (s1, Ok DispAccepted)) :
  let s2 := run_observe s1 later in
  observe e s2 = (s2, Ok DispDuplicate) /\
  (forall e' body body', replay_key e' = replay_key e -> EventEnvelope_validate e' = Ok tt ->
     event_json e = Ok body -> event_json e' = Ok body' ->
     event_record e' body' <> event_record e body -> observe e' s2 = (s2, Err ReplayConflict)).
Proof.
  pose proof (observe_spec e s) as Hs. rewrite H in Hs.
  destruct (EventEnvelope_validate e) as [[]|] eqn:Hv; [|by destruct Hs].
  destruct (event_json e) as [body|] eqn:Hj; [|by destruct Hs].
  destruct (entries s !! replay_key e) as [v|] eqn:Hk.
  { case_bool_decide; simplify_eq. }
  intros s2. assert (Hin : entries s2 !! replay_key e = Some (event_record e body)).
  { apply (lookup_weaken (entries s1)); [|apply run_observe_grows].
    simplify_eq/=. apply lookup_insert_eq. }
  clearbody s2. split.
  - pose proof (observe_spec e s2) as Hd. rewrite Hv, Hj, Hin in Hd.
    by rewrite bool_decide_eq_true_2 in Hd.
  - intros e' b b' Hke Hv' [= <-] Hj' Hne. pose proof (observe_spec e' s2) as Hd.
    rewrite Hv', Hj', Hke, Hin in Hd. by rewrite bool_decide_eq_false_2 in Hd by congruence.
Qed.
End ReplayLaws.

(** ** What a validated frame guarantees *)

Section FrameLaws.
Context {Value Owned : Type} `{W : Wire Value Owned}.
Implicit Types f : Frame Value Owned.

(** The event an Event frame carries, typed or as JSON. *)
Definition carried_event f : option (EventEnvelope Value Owned) :=
  match payload f with
  | PEvent e => Some e
  | PJson v => event_of_value v
  | _ => None
  end.

Definition native_payload f : option (NativeWorkerFramePayloadV1 Value) :=
  match payload f with
  | PNativeWorkerFrameV1 n => Some n
  | _ => None
  end.

(** A request identity is coherent and bound to the frame's request. *)
Definition identity_bound f (i : RequestIdentity) : Prop :=
  request_id f = Some (meta_request_id (rb_metadata (ri_request i))) /\
  meta_state_fence (rb_metadata (ri_request i)) = rb_state_fence (ri_request i) /\
  ri_deadline_unix_ms i <> 0 /\ text_ok (ri_idempotency_key i) = true /\
  text_ok (ri_cancellation_id i) = true.

(** A native-worker payload is coherent and matches the frame. *)
Definition native_bound f (n : NativeWorkerFramePayloadV1 Value) : Prop :=
  kind f = operation_frame_kind (nw_operation n) /\
  message_type f = operation_message_type (nw_operation n) /\
  is_Some (request_id f) /\ request_identity f = None /\
  nw_authority_epoch n = authority_epoch (nw_state_fence n) /\
  nw_deadline_unix_ms n <> 0 /\ nw_producer_generation n <> 0 /\
  value_kind (nw_body n) = Some (operation_body_kind (nw_operation n)).

Lemma text_pass v fld : text v fld = Ok tt <-> text_ok v = true.
Proof.
  unfold text, text_ok. rewrite check_guard_ok, guard_err_ok, negb_true_iff, orb_false_iff. done.
Qed.

Lemma identity_validate_bound f i :
  RequestIdentity_validate i = Ok tt ->
  request_id f = Some (meta_request_id (rb_metadata (ri_request i))) -> identity_bound f i.
Proof.
  unfold RequestIdentity_validate. rewrite !check_ok, !guard_err_ok, !text_pass. intros.
  destruct_and!. bool_facts. split_and!; try done. lia.
Qed.

Lemma native_validate_bound f n :
  payload f = PNativeWorkerFrameV1 n -> validate_native_worker_frame f = Ok true ->
  native_worker_validate n = Ok tt -> native_bound f n.
Proof.
  intros Hp. unfold validate_native_worker_frame, native_worker_validate. rewrite Hp.
  rewrite !check_ok, !guard_err_ok. intros. destruct_and!. bool_facts.
  unfold native_bound. split_and!; try done; try lia.
  - by destruct (request_id f).
  - by destruct (request_identity f).
  - by apply is_same_authority_eq.
Qed.

Lemma native_frame_result f b :
  validate_native_worker_frame f = Ok b -> b = is_some (native_payload f).
Proof.
  unfold validate_native_worker_frame, native_payload. rewrite check_ok. intros [_ H].
  apply check_ok in H as [_ H]. by destruct (payload f); simplify_eq/=.
Qed.

Lemma event_message_carried f :
  validate_event_message (kind f) (message_type f) (payload f) = Ok tt ->
  payload_validate (payload f) = Ok tt -> kind f = KEvent ->
  exists e, carried_event f = Some e /\ EventEnvelope_validate e = Ok tt.
Proof.
  unfold carried_event, validate_event_message. intros H Hp Hk. rewrite Hk in H.
  destruct (message_type f), (payload f) as [v| | | | | |e| |]; simplify_eq/=; try done.
  - destruct (event_of_value v) as [e|]; [|done]. eauto.
  - eauto.
Qed.

(** A validated frame means what its kind says: the message type has its
    canonical kind (or is the request form of Start or Health); a request or
    cancellation is correlated, either by a coherent identity for that same
    request or by a native-worker payload whose operation maps to this kind
    and message type; an Event frame carries a validated envelope; and an
    acknowledgement carries a receipt for that event under that fence. *)
Theorem frame_validated_sound (f : Frame Value Owned) (H : Frame_validate f = Ok tt) :
  (kind f = expected_kind (message_type f) \/
   (kind f = KRequest /\ (message_type f = MStart \/ message_type f = MHealth))) /\
  (kind f = KRequest \/ kind f = KCancel ->
   (exists i, request_identity f = Some i /\ identity_bound f i) \/
   (exists n, native_payload f = Some n /\ native_bound f n)) /\
  (kind f = KEvent -> exists e, carried_event f = Some e /\ EventEnvelope_validate e = Ok tt) /\
  (forall a, payload f = PEventAck a ->
     exists c, rc_coordination (re_core (ea_receipt a)) = Some c /\ co_event_id c = ea_event_id a /\
       ws_state_fence (rc_work_scope (re_core (ea_receipt a))) = ea_state_fence a /\
       receipt_validate (ea_receipt a) = Ok tt).
Proof.
  unfold Frame_validate in H. apply check_ok in H as [_ H]. apply check_ok in H as [_ H].
  cbv zeta in H. apply check_guard_ok in H as [Hkind H]. apply check_guard_ok in H as [Hrid H].
  apply rbind_ok in H as (b & Hn & H). apply check_guard_ok in H as [Hid H].
  apply check_ok in H as [Hident H]. apply check_ok in H as [Hev H]. apply check_ok in H as [Hp _].
  pose proof (native_frame_result f b Hn) as ->. split_and!.
  - clear -Hkind. repeat case_bool_decide; naive_solver.
  - intros Hk. assert (Hr : is_request_or_cancel (kind f) = true) by (by destruct Hk as [-> | ->]).
    rewrite Hr in Hid. simpl in Hid. destruct (request_identity f) as [i|] eqn:Hi.
    + left. exists i. split; [done|]. apply check_ok in Hident as [Hv Hm].
      rewrite guard_err_ok in Hm. bool_facts. by apply identity_validate_bound.
    + right. destruct (native_payload f) as [n|] eqn:Hnp; [|done]. exists n. split; [done|].
      assert (Hpay : payload f = PNativeWorkerFrameV1 n)
        by (unfold native_payload in Hnp; destruct (payload f); by simplify_eq).
      apply native_validate_bound; [done|done|]. by rewrite Hpay in Hp.
  - by apply event_message_carried.
  - intros a Ha. rewrite Ha in Hp. simpl in Hp. unfold EventAckReceipt_validate in Hp.
    rewrite !check_ok in Hp. destruct Hp as (_ & _ & _ & Hrec & _ & Hp).
    apply rbind_ok in Hp as (c & Hc & Hp). apply check_guard_ok in Hp as [He Hf].
    rewrite guard_err_ok in Hf. bool_facts. exists c.
    destruct (rc_coordination (re_core (ea_receipt a))); by simplify_eq/=.
Qed.
End FrameLaws.

(** ** The module lifecycle *)

Definition lifecycle_terminal (p : ModuleLifecyclePhase) : bool :=
  match p with
  | LTerminated | LFailed => true
  | _ => false
  end.

(** The moves the lifecycle promises. *)
Inductive phase_step : ModuleLifecyclePhase -> ModuleLifecyclePhase -> Prop :=
| phase_stay p : phase_step p p
| phase_quiesce : phase_step LActive LQuiesced
| phase_shutdown p : lifecycle_terminal p = false -> phase_step p LTerminated
| phase_fatal p : lifecycle_terminal p = false -> phase_step p LFailed.

Section LifecycleLaws.
Context {Value Owned : Type} `{W : Wire Value Owned}.
Implicit Types f : Frame Value Owned.

Ltac open_control H :=
  unfold apply_control, apply_quiesce, apply_checkpoint, apply_restore, apply_drain,
    apply_shutdown, apply_fatal in H.

(** The successful cases of a control frame. *)
Lemma apply_control_ok f s s' eff :
  apply_control f s = (s', Ok eff) ->
  Frame_validate f = Ok tt /\
  match eff with
  | Quiesced => phase s = LActive /\ s' = set_phase LQuiesced s
  | CheckpointRecorded c =>
      phase s = LQuiesced /\ request_id f = Some (mc_request_id c) /\
      ModuleCheckpoint_validate c = Ok tt /\ s' = {| phase := phase s; checkpoint := Some c |}
  | CheckpointRestored c => phase s = LQuiesced /\ checkpoint s = Some c /\ s' = s
  | DrainReported r => r = drain_report s /\ s' = s
  | ShutdownStarted => lifecycle_terminal (phase s) = false /\ s' = set_phase LTerminated s
  | FatalRecorded => lifecycle_terminal (phase s) = false /\ s' = set_phase LFailed s
  end.
Proof.
  intros H. open_control H. unfold_monad.
  destruct (Frame_validate f) as [[]|]; [|done]. split; [done|].
  destruct (message_type f); try done.
  all: try (destruct (control_identity f) as [i|]; [|done]).
  - destruct (phase s) eqn:Hp; simpl in H; simplify_eq. done.
  - destruct (phase s) eqn:Hp; simpl in H; simplify_eq.
    destruct (request_id f) as [rid|]; [|done].
    destruct (ModuleCheckpoint_validate _) as [[]|] eqn:Hv in H; by simplify_eq.
  - destruct (phase s) eqn:Hp; simpl in H; simplify_eq.
    destruct (checkpoint s) as [c|] eqn:Hc; [|done].
    destruct (ModuleCheckpoint_validate c) as [[]|]; by simplify_eq.
  - by simplify_eq.
  - destruct (phase s) eqn:Hp; by simplify_eq.
  - destruct (phase s) eqn:Hp; by simplify_eq/=.
Qed.

Lemma apply_control_err f s s' e : apply_control f s = (s', Err e) -> s' = s.
Proof. intros H. open_control H. by run. Qed.

(** The lifecycle and the effects of a sequence of frames, latest first. *)
Fixpoint run_control (s : ModuleLifecycle) (trace : list ModuleControlEffect)
    (frames : list (Frame Value Owned)) : ModuleLifecycle * list ModuleControlEffect :=
  match frames with
  | [] => (s, trace)
  | f :: frames' =>
      match apply_control f s with
      | (s', Ok eff) => run_control s' (eff :: trace) frames'
      | (s', Err _) => run_control s' trace frames'
      end
  end.

(** The checkpoint of the latest recording effect. *)
Fixpoint latest_checkpoint (trace : list ModuleControlEffect) : option ModuleCheckpoint :=
  match trace with
  | [] => None
  | CheckpointRecorded c :: _ => Some c
  | _ :: trace' => latest_checkpoint trace'
  end.

Lemma run_control_checkpoint frames s trace s' trace' :
  checkpoint s = latest_checkpoint trace -> run_control s trace frames = (s', trace') ->
  checkpoint s' = latest_checkpoint trace'.
Proof.
  revert s trace. induction frames as [|f frames IH]; intros s trace Hs H; simpl in H.
  - by simplify_eq.
  - destruct (apply_control f s) as [s1 [eff|e]] eqn:E.
    + eapply IH; [|exact H]. apply apply_control_ok in E as [_ E].
      destruct eff; naive_solver.
    + apply apply_control_err in E as ->. eapply IH; eauto.
Qed.

(** A module's lifecycle moves only as promised: each control frame makes
    one legal phase move or none, a refused frame changes nothing, a frame
    has an effect only if it validates, and after shutdown or a fatal failure
    nothing moves any more and only drain reports are answered. *)
Theorem module_lifecycle_refines (f : Frame Value Owned) (s s' : ModuleLifecycle)
    (r : PR ModuleControlEffect) (H : apply_control f s = (s', r)) :
  phase_step (phase s) (phase s') /\
  (forall e, r = Err e -> s' = s) /\
  (forall eff, r = Ok eff -> Frame_validate f = Ok tt) /\
  (lifecycle_terminal (phase s) = true ->
   s' = s /\ forall eff, r = Ok eff -> eff = DrainReported (drain_report s)).
Proof.
  destruct r as [eff|e].
  - apply apply_control_ok in H as [Hv H]. split_and!; [|done|done|].
    + destruct eff; destruct_and?; subst; simpl;
        repeat match goal with Hp : phase s = _ |- _ => rewrite Hp end; by constructor.
    + intros Ht. destruct eff; destruct_and?; subst; try congruence;
        try match goal with Hp : phase s = _ |- _ => rewrite Hp in Ht; done end.
      split; [done|]. by intros ? [= <-].
  - apply apply_control_err in H as ->. split_and!; [constructor|done|done|].
    intros _. split; [done|]. intros eff [=].
Qed.

(** Restoring gives back the latest checkpoint: whatever frames came
    before, a restore that succeeds returns exactly the checkpoint recorded
    last, under the request identity that recorded it, and changes nothing. *)
Theorem module_restore_latest (frames : list (Frame Value Owned)) (f : Frame Value Owned)
    (s s' : ModuleLifecycle) (trace : list ModuleControlEffect) (c : ModuleCheckpoint)
    (Hrun : run_control ModuleLifecycle_new [] frames = (s, trace))
    (Hf : apply_control f s = (s', Ok (CheckpointRestored c))) :
  latest_checkpoint trace = Some c /\ s' = s.
Proof.
  apply run_control_checkpoint in Hrun; [|done].
  apply apply_control_ok in Hf as (_ & _ & Hc & ->). by rewrite <- Hrun.
Qed.
End LifecycleLaws.

(** ** A concrete wire

    Bodies of one byte, values that are texts: enough to run the protocol. *)

Definition sample_request_fence : StateFence :=
  StateFence_new {| lineage_id := {| lineage_text := "0f0e0d0c-0b0a-0908-0706-050403020100" |};
                    sequence := 1 |} 1.

Definition sample_request_identity (rid : string) : RequestIdentity :=
  {| ri_request :=
       {| rb_metadata :=
            {| meta_request_id := rid; meta_session_id := None; meta_task_id := None;
               meta_product_id := "product"; meta_source_id := "source";
               meta_state_fence := sample_request_fence; meta_clock := ClockReading_default |};
          rb_state_fence := sample_request_fence |};
     ri_idempotency_key := "key"; ri_deadline_unix_ms := 9; ri_cancellation_id := "cancel" |}.

Definition sample_frame (m : MessageType) (rid : string) : Frame string unit :=
  {| protocol_version := ProtocolVersion_CURRENT; encoding_profile := JsonV1;
     connection_id := "connection-1"; request_id := Some rid; kind := expected_kind m;
     message_type := m; request_identity := Some (sample_request_identity rid);
     payload := PJson "body"; trace_context := ∅ |}.

Definition sample_event (event_id : string) : EventEnvelope string unit :=
  MkEvent
    {| ev_stream_id := "stream-1"; ev_producer_id := "producer"; ev_producer_generation := 1;
       ev_authority_epoch := authority_epoch sample_request_fence; ev_event_id := event_id;
       ev_sequence := 1; ev_causal_predecessor_refs := []; ev_delivery_class := DurableControl;
       ev_ack_required := true; ev_payload_type := BACKUP_PAYLOAD_TYPE;
       ev_state_fence := sample_request_fence; ev_trace_context := ∅ |}
    (BlobRef "blob-1").

#[local] Instance sample_wire : Wire string unit := {|
  value_kind := Some;
  value_message_type := fun v => if v == "body" then Some "Execute" else None;
  event_of_value := fun _ => None;
  owned_validate := fun _ => Ok tt;
  contract_error_text := fun _ => "contract error";
  receipt_error_text := fun _ => "receipt error";
  wire_sha256 := zero_sha256;
  receipt_json := no_json;
  event_json := fun _ => Ok [123; 125];
  frame_json := fun _ => Ok [123; 125];
  json_from_slice := fun _ => Ok "body";
  frame_from_value := fun _ => Ok (sample_frame MExecute "request-1");
  probe_kind := fun _ => Some KRequest;
|}.

Lemma replay_ledger_accepts_once_witness :
  exists s1, observe (sample_event "event-1") ReplayLedger_new = (s1, Ok DispAccepted) /\
    observe (sample_event "event-1") (run_observe s1 [sample_event "event-2"])
      = (run_observe s1 [sample_event "event-2"], Ok DispDuplicate).
Proof.
  eexists. assert (Ha : observe (sample_event "event-1") ReplayLedger_new =
    ({| entries := {[ replay_key (sample_event "event-1") :=
                        event_record (sample_event "event-1") [123; 125] ]} |}, Ok DispAccepted))
    by (vm_compute; reflexivity).
  split; [exact Ha|]. exact (proj1 (replay_ledger_accepts_once _ _ _ [sample_event "event-2"] Ha)).
Defined.

Lemma frame_validated_sound_witness :
  kind (sample_frame MQuiesce "request-1") = expected_kind MQuiesce \/
  kind (sample_frame MQuiesce "request-1") = KRequest /\ (MQuiesce = MStart \/ MQuiesce = MHealth).
Proof.
  exact (proj1 (frame_validated_sound (sample_frame MQuiesce "request-1")
                  ltac:(vm_compute; reflexivity))).
Defined.

Lemma module_lifecycle_refines_witness :
  phase_step LActive (phase (apply_control (sample_frame MQuiesce "request-1") ModuleLifecycle_new).1).
Proof.
  exact (proj1 (module_lifecycle_refines (sample_frame MQuiesce "request-1") ModuleLifecycle_new
    _ _ (surjective_pairing (apply_control (sample_frame MQuiesce "request-1") ModuleLifecycle_new)))).
Defined.

Lemma module_restore_latest_witness :
  latest_checkpoint (run_control ModuleLifecycle_new []
    [sample_frame MQuiesce "request-1"; sample_frame MCheckpoint "request-2";
     sample_frame MCheckpoint "request-3"]).2
  = Some {| mc_checkpoint_id := "request-3"; mc_request_id := "request-3";
            mc_idempotency_key := "key" |}.
Proof.
  refine (proj1 (module_restore_latest
    [sample_frame MQuiesce "request-1"; sample_frame MCheckpoint "request-2";
     sample_frame MCheckpoint "request-3"] (sample_frame MRestoreCheckpoint "request-4")
    _ _ _ _ (surjective_pairing _) _)).
  vm_compute. reflexivity.
Defined.
