(* ===== verification/FrameCodec.v ===== *)
(** * Wire framing

    The JSON codec of crates/foundation/eliot-protocol/src/lib.rs
    ([JsonCodec]), the transport limits and inline ceilings of
    crates/kernel/eliot-ipc/src/lib.rs, and the incremental frame decoder of
    crates/kernel/eliot-ipc/src/frame_codec.rs. A byte buffer is a list of
    bytes as [Z]; [usize] is sixty-four bits wide, so the conversions from a
    [u32] length never fail. *)

From S2P Require Import Prelude RustText Contracts Receipts Protocol.

#[local] Open Scope string_scope.
#[local] Open Scope Z_scope.

Definition u32_max : Z := 2 ^ 32 - 1.

(** [u32::to_le_bytes] and [u32::from_le_bytes] for [n] bytes. *)
Fixpoint to_le_bytes (n : nat) (z : Z) : list Z :=
  match n with
  | O => []
  | S n' => Z.land z 255 :: to_le_bytes n' (Z.shiftr z 8)
  end.

Fixpoint from_le_bytes (l : list Z) : Z :=
  match l with
  | [] => 0
  | b :: l' => b + Z.shiftl (from_le_bytes l') 8
  end.

(** ** The JSON codec *)

Record JsonCodec : Type := { codec_max_frame_bytes : Z }.

Definition JsonCodec_new : JsonCodec := {| codec_max_frame_bytes := MAX_FRAME_BYTES |}.

Definition with_max_frame_bytes (n : Z) : JsonCodec := {| codec_max_frame_bytes := n |}.

Definition check_body_length (self : JsonCodec) (length : Z) : PR unit :=
  check? guard_err (length =? 0) ZeroLengthFrame;
  let maximum := Z.min (codec_max_frame_bytes self) MAX_FRAME_BYTES in
  guard_err (maximum <? length) (OversizeFrame length maximum).

Definition is_known_message_type (value : string) : bool :=
  existsb (fun known => value == known)
    [ "Challenge"; "Start"; "Ready"; "Health"; "Execute"; "Result"; "Event"; "EventAck"; "Cancel";
      "Quiesce"; "Checkpoint"; "RestoreCheckpoint"; "DrainStatus"; "Shutdown"; "Fatal" ].

Section Codec.
Context {Value Owned : Type} `{W : Wire Value Owned}.

Definition codec_encode (self : JsonCodec) (f : Frame Value Owned) : PR (list Z) :=
  check? Frame_validate f;
  check? guard_err (encoding_profile f != JsonV1) (UnsupportedEncoding "JsonV1");
  let? body := map_err JsonError (frame_json f) in
  let length := usize_of_len body in
  check? check_body_length self length;
  check? guard_err (u32_max <? length) (OversizeFrame length (codec_max_frame_bytes self));
  Ok (to_le_bytes 4 length ++ body)%list.

Definition decode_body (self : JsonCodec) (body : list Z) : PR (Frame Value Owned) :=
  check? check_body_length self (usize_of_len body);
  check? guard_err (negb (utf8_valid body)) InvalidUtf8;
  let? value := map_err JsonError (json_from_slice body) in
  check? match value_message_type value with
         | Some name => guard_err (negb (is_known_message_type name)) UnknownMessageType
         | None => Ok tt
         end;
  let? f := map_err JsonError (frame_from_value value) in
  check? Frame_validate f;
  Ok f.

Definition codec_decode (self : JsonCodec) (wire : list Z) : PR (Frame Value Owned) :=
  check? guard_err (usize_of_len wire <? FRAME_PREFIX_BYTES)
           (PartialFrame FRAME_PREFIX_BYTES (usize_of_len wire));
  let length := from_le_bytes (take 4 wire) in
  check? check_body_length self length;
  let available := usize_of_len wire - FRAME_PREFIX_BYTES in
  check? guard_err (available <? length) (PartialFrame length available);
  check? guard_err (length <? available) TrailingBytes;
  decode_body self (drop 4 wire).
End Codec.

(** ** Transport limits and errors *)

Record BackpressureSignal : Type := {
  dimension : string;
  recovery_action : string;
  shed_work : string;
}.

#[global] Instance BackpressureSignal_eq_dec : EqDecision BackpressureSignal.
Proof. solve_decision. Defined.

Inductive TransportError : Type :=
| InvalidLimits
| UnauthenticatedPeer
| PeerIdentityUnavailable
| TransportProtocol (e : ProtocolError)
| SessionFenced
| Backpressure
| AttributedBackpressure (signal : BackpressureSignal)
| Timeout
| Cancelled
| InvalidPipeName
| UnknownOutcome
| TransportIo (message : string)
| PlanGap (dependency reason : string)
| UnknownRequest
| IdentityConflict
| LegacyCorrelationUnresolved
| TransportRegistryFull.

#[global] Instance TransportError_eq_dec : EqDecision TransportError.
Proof. solve_decision. Defined.

(** [operation_timeout] is a [Duration], in nanoseconds. *)
Record TransportLimits : Type := {
  max_frame_bytes : Z;
  queue_capacity : Z;
  queue_bytes : Z;
  control_reserve : Z;
  operation_timeout : Z;
}.

Definition TransportLimits_default : TransportLimits :=
  {| max_frame_bytes := MAX_FRAME_BYTES; queue_capacity := 128; queue_bytes := 8 * 1024 * 1024;
     control_reserve := 4; operation_timeout := 30 * 10 ^ 9 |}.

Definition FRAME_MAX_BYTES : Z := MAX_FRAME_BYTES.
Definition HOT_RESPONSE_MAX_BYTES : Z := HOT_RESPONSE_BYTES.
Definition STRUCTURED_RESPONSE_MAX_BYTES : Z := HARD_STRUCTURED_RESPONSE_BYTES.

Definition TransportLimits_validate (l : TransportLimits) : result TransportError TransportLimits :=
  if (max_frame_bytes l =? 0) || (MAX_FRAME_BYTES <? max_frame_bytes l) || (queue_capacity l =? 0)
     || (queue_bytes l <? max_frame_bytes l) || (control_reserve l =? 0)
     || (queue_capacity l <=? control_reserve l) || (operation_timeout l =? 0)
  then Err InvalidLimits
  else Ok l.

Definition is_control_kind (k : FrameKind) : bool :=
  match k with
  | KCancel | KHeartbeat | KControl => true
  | _ => false
  end.

Definition inline_ceiling_for_kind (k : FrameKind) (max_frame : Z) : Z :=
  match k with
  | KRequest => max_frame
  | KCancel | KHeartbeat | KControl =>
      if HOT_RESPONSE_MAX_BYTES <? max_frame then HOT_RESPONSE_MAX_BYTES else max_frame
  | KResponse | KEvent =>
      if STRUCTURED_RESPONSE_MAX_BYTES <? max_frame then STRUCTURED_RESPONSE_MAX_BYTES
      else max_frame
  end.

Section Framing.
Context {Value Owned : Type} `{W : Wire Value Owned}.

Definition is_control_capacity_frame (f : Frame Value Owned) : bool := is_control_kind (kind f).

Definition check_inline_response_ceiling (f : Frame Value Owned) (body_len max_frame : Z)
    : result TransportError unit :=
  let maximum := inline_ceiling_for_kind (kind f) max_frame in
  guard_err (maximum <? body_len) (TransportProtocol (OversizeFrame body_len maximum)).

(** ** One-shot encoding and decoding *)

Definition FRAME_PREFIX_LEN : Z := 4.

Definition saturating_sub (a b : Z) : Z := Z.max 0 (a - b).

Definition encode_frame (f : Frame Value Owned) (limits : TransportLimits)
    : result TransportError (list Z) :=
  let? limits := TransportLimits_validate limits in
  let? wire := map_err TransportProtocol
                 (codec_encode (with_max_frame_bytes (max_frame_bytes limits)) f) in
  let body_len := saturating_sub (usize_of_len wire) FRAME_PREFIX_LEN in
  check? check_inline_response_ceiling f body_len (max_frame_bytes limits);
  Ok wire.

Definition tier_ceiling_for_wire (wire : list Z) (max_frame : Z) : Z :=
  if usize_of_len wire <? FRAME_PREFIX_LEN then max_frame
  else
    let declared := from_le_bytes (take 4 wire) in
    if (declared =? 0) || (max_frame <? declared) then max_frame
    else match checked_add FRAME_PREFIX_LEN declared with
    | None => max_frame
    | Some total =>
        if negb (usize_of_len wire =? total) then max_frame
        else match probe_kind (drop 4 wire) with
        | Some k => inline_ceiling_for_kind k max_frame
        | None => max_frame
        end
    end.

Definition decode_frame (wire : list Z) (limits : TransportLimits)
    : result TransportError (Frame Value Owned) :=
  let? limits := TransportLimits_validate limits in
  let ceiling := tier_ceiling_for_wire wire (max_frame_bytes limits) in
  let? f := map_err TransportProtocol (codec_decode (with_max_frame_bytes ceiling) wire) in
  let body_len := saturating_sub (usize_of_len wire) FRAME_PREFIX_LEN in
  check? check_inline_response_ceiling f body_len (max_frame_bytes limits);
  Ok f.

(** ** The incremental decoder *)

Record FrameDecoder : Type := { decoder_bytes : list Z }.

Definition FrameDecoder_new : FrameDecoder := {| decoder_bytes := [] |}.

Definition set_bytes (b : list Z) (_ : FrameDecoder) : FrameDecoder := {| decoder_bytes := b |}.

(** [slice.get(..n)] *)
Definition get_to (n : Z) (l : list Z) : option (list Z) :=
  if n <=? usize_of_len l then Some (take (Z.to_nat n) l) else None.

(** The first half of [push]: the declared body length, or [None] when the
    prefix is still incomplete and the fragment was buffered. *)
Definition declared_length (fragment : list Z) (limits : TransportLimits)
    : M FrameDecoder TransportError (option Z) :=
  let! self := mstate in
  if usize_of_len (decoder_bytes self) <? FRAME_PREFIX_LEN then
    let existing := usize_of_len (decoder_bytes self) in
    let! buffered_total := mlift (ok_or (checked_add existing (usize_of_len fragment))
                                    Backpressure) in
    if buffered_total <? FRAME_PREFIX_LEN then
      do! mmodify (set_bytes (decoder_bytes self ++ fragment));
      mret_ok None
    else
      let! needed := mlift (ok_or (checked_sub FRAME_PREFIX_LEN existing)
        (TransportProtocol (OversizeFrame u64_max (max_frame_bytes limits)))) in
      let! head := mlift (ok_or (get_to needed fragment)
        (TransportProtocol (PartialFrame FRAME_PREFIX_LEN buffered_total))) in
      mret_ok (Some (from_le_bytes (decoder_bytes self ++ head)%list))
  else
    let! prefix := mlift (ok_or (get_to FRAME_PREFIX_LEN (decoder_bytes self))
      (TransportProtocol (OversizeFrame u64_max (max_frame_bytes limits)))) in
    mret_ok (Some (from_le_bytes prefix)).

(** The second half: the checks on the declared length, the admission of the
    fragment and the decoding of a complete frame. *)
Definition admit_fragment (fragment : list Z) (limits : TransportLimits) (declared : Z)
    : M FrameDecoder TransportError (option (Frame Value Owned)) :=
  if declared =? 0 then
    do! mmodify (set_bytes []);
    mthrow (TransportProtocol ZeroLengthFrame)
  else if max_frame_bytes limits <? declared then
    do! mmodify (set_bytes []);
    mthrow (TransportProtocol (OversizeFrame declared (max_frame_bytes limits)))
  else
    let! total := mlift (ok_or (checked_add FRAME_PREFIX_LEN declared)
      (TransportProtocol (OversizeFrame u64_max (max_frame_bytes limits)))) in
    let! self := mstate in
    let! incoming_total :=
      mlift (ok_or (checked_add (usize_of_len (decoder_bytes self)) (usize_of_len fragment))
               Backpressure) in
    do! mlift (guard_err (total <? incoming_total) Backpressure);
    do! mmodify (set_bytes (decoder_bytes self ++ fragment));
    let! self := mstate in
    if usize_of_len (decoder_bytes self) <? total then mret_ok None
    else
      let wire := take (Z.to_nat total) (decoder_bytes self) in
      do! mmodify (set_bytes (drop (Z.to_nat total) (decoder_bytes self)));
      let! f := mlift (decode_frame wire limits) in
      mret_ok (Some f).

Definition push (fragment : list Z) (limits : TransportLimits)
    : M FrameDecoder TransportError (option (Frame Value Owned)) :=
  let! limits := mlift (TransportLimits_validate limits) in
  if usize_of_len fragment =? 0 then mret_ok None
  else
    let! declared := declared_length fragment limits in
    match declared with
    | None => mret_ok None
    | Some declared => admit_fragment fragment limits declared
    end.
End Framing.
