(* ===== verification/FrameCodecLaws.v ===== *)
(** * Laws of the wire framing

    Round trip of the length-prefixed codec, what a decoded frame guarantees,
    the equivalence of the incremental decoder with decoding the whole wire
    image, and the bound on what the decoder buffers. *)

From S2P Require Import Prelude RustText Contracts Receipts Protocol ProtocolLaws FrameCodec.

#[local] Open Scope Z_scope.

Lemma frame_sizes :
  u32_max = 4294967295 /\ MAX_FRAME_BYTES = 4194304 /\ u64_max = 18446744073709551615.
Proof. done. Qed.

Ltac sizes := pose proof frame_sizes as (?Hu32 & ?Hmaxf & ?Hu64); lia.

(** ** Little-endian lengths *)

Lemma to_le_bytes_length n z : length (to_le_bytes n z) = n.
Proof. revert z. induction n; intros z; simpl; [done|]. by rewrite IHn. Qed.

Lemma from_to_le_bytes n z :
  0 <= z -> from_le_bytes (to_le_bytes n z) = z mod 2 ^ (8 * Z.of_nat n).
Proof.
  revert z. induction n as [|n IH]; intros z Hz; [by rewrite Z.mod_1_r|].
  cbn [to_le_bytes from_le_bytes]. rewrite IH by (apply Z.shiftr_nonneg; lia).
  change 255 with (Z.ones 8). rewrite Z.land_ones, Z.shiftl_mul_pow2, Z.shiftr_div_pow2 by lia.
  rewrite Nat2Z.inj_succ, Z.mul_succ_r, Z.add_comm, (Z.add_comm _ 8), Z.pow_add_r by lia.
  rewrite Z.rem_mul_r by lia. lia.
Qed.

Lemma prefix_length_roundtrip n (body : list Z) :
  0 <= n <= u32_max -> from_le_bytes (take 4 (to_le_bytes 4 n ++ body)) = n.
Proof.
  intros Hn. rewrite take_app_le by (rewrite to_le_bytes_length; lia).
  rewrite firstn_all2 by (rewrite to_le_bytes_length; lia).
  rewrite from_to_le_bytes by lia. apply Z.mod_small. unfold u32_max in Hn.
  change (2 ^ (8 * Z.of_nat 4)) with (2 ^ 32). lia.
Qed.

Lemma drop_prefix n (body : list Z) : drop 4 (to_le_bytes 4 n ++ body)%list = body.
Proof. by rewrite drop_app_length' by (by rewrite to_le_bytes_length). Qed.

Lemma usize_of_len_app {A} (l l' : list A) :
  usize_of_len (l ++ l') = usize_of_len l + usize_of_len l'.
Proof. unfold usize_of_len. rewrite length_app. lia. Qed.

Lemma usize_of_len_nonneg {A} (l : list A) : 0 <= usize_of_len l.
Proof. unfold usize_of_len. lia. Qed.

Lemma check_body_length_ok c n :
  check_body_length c n = Ok tt <-> n <> 0 /\ n <= Z.min (codec_max_frame_bytes c) MAX_FRAME_BYTES.
Proof.
  unfold check_body_length. cbv zeta.
  rewrite check_guard_ok, guard_err_ok, Z.eqb_neq, Z.ltb_ge. done.
Qed.

Lemma limits_valid l l' :
  TransportLimits_validate l = Ok l' ->
  l' = l /\ max_frame_bytes l <> 0 /\ max_frame_bytes l <= MAX_FRAME_BYTES /\
  queue_capacity l <> 0 /\ max_frame_bytes l <= queue_bytes l /\ control_reserve l <> 0 /\
  control_reserve l < queue_capacity l /\ operation_timeout l <> 0.
Proof.
  unfold TransportLimits_validate. intros H. run. bool_facts. split_and!; try done; lia.
Qed.

Section CodecLaws.
Context {Value Owned : Type} `{W : Wire Value Owned}.
Implicit Types f : Frame Value Owned.

(** What serde documents of a value it serialized: the bytes are UTF-8, parse
    back to the same frame, and show the kind and the message type name. *)
Definition reads_back f (body : list Z) : Prop :=
  frame_json f = Ok body /\ utf8_valid body = true /\ probe_kind body = Some (kind f) /\
  exists v, json_from_slice body = Ok v /\ frame_from_value v = Ok f /\
            value_message_type v = Some (MessageType_name (message_type f)).

Lemma ceiling_pos k m : 0 < inline_ceiling_for_kind k m -> 0 < m.
Proof.
  unfold inline_ceiling_for_kind, HOT_RESPONSE_MAX_BYTES, STRUCTURED_RESPONSE_MAX_BYTES,
    HOT_RESPONSE_BYTES, HARD_STRUCTURED_RESPONSE_BYTES.
  destruct k; try done; match goal with |- context [?a <? ?b] => destruct (Z.ltb_spec a b) end; lia.
Qed.

Lemma ceiling_le k m : inline_ceiling_for_kind k m <= m.
Proof.
  destruct k; simpl; try lia;
    match goal with |- context [?a <? ?b] => destruct (Z.ltb_spec a b) end; lia.
Qed.

(** A message type the decoder knows by name. *)
Lemma known_message_types m :
  is_known_message_type (MessageType_name m) = negb (is_native_worker_message m).
Proof. destruct m; vm_compute; reflexivity. Qed.

Lemma encode_frame_ok f l wire :
  encode_frame f l = Ok wire ->
  exists body, frame_json f = Ok body /\ wire = (to_le_bytes 4 (usize_of_len body) ++ body)%list /\
    TransportLimits_validate l = Ok l /\ Frame_validate f = Ok tt /\
    0 < usize_of_len body <= inline_ceiling_for_kind (kind f) (max_frame_bytes l) /\
    usize_of_len body <= MAX_FRAME_BYTES.
Proof.
  unfold encode_frame, codec_encode. intros (l' & Hl & H)%rbind_ok.
  pose proof (limits_valid _ _ Hl) as (-> & _).
  apply rbind_ok in H as (w & Hw & H). apply map_err_ok in Hw. cbv zeta in H.
  apply check_ok in H as [Hc [= <-]].
  apply check_ok in Hw as [Hv Hw]. apply check_ok in Hw as [_ Hw].
  apply rbind_ok in Hw as (body & Hb & Hw). apply map_err_ok in Hb. cbv zeta in Hw.
  apply check_ok in Hw as [Hlen Hw]. apply check_ok in Hw as [_ Hw].
  assert (Hwire : w = (to_le_bytes 4 (usize_of_len body) ++ body)%list) by congruence.
  clear Hw. subst w. rewrite check_body_length_ok in Hlen. simpl in Hlen. unfold check_inline_response_ceiling in Hc. cbv zeta in Hc.
  rewrite guard_err_ok, Z.ltb_ge, usize_of_len_app in Hc.
  unfold usize_of_len in Hc at 1. rewrite to_le_bytes_length in Hc.
  unfold saturating_sub, FRAME_PREFIX_LEN in Hc.
  pose proof (usize_of_len_nonneg body). exists body. split_and!; try done; lia.
Qed.

(** Encoding and decoding round trip: for a frame whose JSON reads back,
    an encoded wire image is a four-byte little-endian length and the body,
    within the ceiling of the frame's kind, and decoding it gives back the
    same frame, except that a native-worker message type, which the decoder's
    list of names does not contain, is refused as unknown. *)
Theorem frame_wire_roundtrip (f : Frame Value Owned) (l : TransportLimits) (body wire : list Z)
    (Hjson : reads_back f body) (Henc : encode_frame f l = Ok wire) :
  wire = (to_le_bytes 4 (usize_of_len body) ++ body)%list /\
  usize_of_len body <= inline_ceiling_for_kind (kind f) (max_frame_bytes l) /\
  decode_frame wire l =
    if is_native_worker_message (message_type f) then Err (TransportProtocol UnknownMessageType)
    else Ok f.
Proof.
  destruct Hjson as (Hj & Hutf & Hk & v & Hv & Hf & Hm).
  apply encode_frame_ok in Henc as (body' & Hj' & -> & Hl & Hval & Hlen & Hmax).
  rewrite Hj in Hj'. simplify_eq. rename body' into body. split_and!; [done|lia|].
  pose proof (limits_valid _ _ Hl) as (_ & Hm0 & Hm1 & _).
  pose proof (ceiling_le (kind f) (max_frame_bytes l)) as Hceil.
  assert (Hu : 0 <= usize_of_len body <= u32_max) by sizes.
  assert (Hw : usize_of_len (to_le_bytes 4 (usize_of_len body) ++ body) = 4 + usize_of_len body)
    by (rewrite usize_of_len_app; unfold usize_of_len at 1; by rewrite to_le_bytes_length).
  pose proof (ceiling_pos (kind f) (max_frame_bytes l)) as Hmf.
  unfold decode_frame. rewrite Hl. cbn [rbind]. cbv zeta.
  assert (Htier : tier_ceiling_for_wire (to_le_bytes 4 (usize_of_len body) ++ body)
                    (max_frame_bytes l) = inline_ceiling_for_kind (kind f) (max_frame_bytes l)).
  { unfold tier_ceiling_for_wire. rewrite Hw, prefix_length_roundtrip, drop_prefix by done.
    unfold FRAME_PREFIX_LEN. cbv zeta.
    destruct (Z.ltb_spec (4 + usize_of_len body) 4); [lia|].
    destruct (Z.eqb_spec (usize_of_len body) 0); [lia|].
    destruct (Z.ltb_spec (max_frame_bytes l) (usize_of_len body)); [lia|]. simpl.
    unfold checked_add. rewrite (proj2 (Z.leb_le _ _)) by sizes.
    rewrite Z.eqb_refl. simpl. by rewrite Hk. }
  rewrite Htier. unfold codec_decode. rewrite Hw, prefix_length_roundtrip, drop_prefix by done.
  unfold FRAME_PREFIX_BYTES, with_max_frame_bytes, decode_body. cbv zeta.
  rewrite (proj2 (Z.ltb_ge _ _)) by lia. cbn [guard_err rbind].
  rewrite (proj2 (check_body_length_ok _ _)) by (simpl; lia). cbn [rbind].
  replace (4 + usize_of_len body - 4) with (usize_of_len body) by lia.
  rewrite Z.ltb_irrefl. cbn [guard_err rbind].
  rewrite Hutf, Hv. cbn [negb guard_err rbind map_err]. rewrite Hm, known_message_types, negb_involutive.
  destruct (is_native_worker_message (message_type f)); [done|]. cbn [guard_err rbind].
  rewrite Hf. cbn [map_err rbind]. rewrite Hval. cbn [rbind map_err].
  unfold check_inline_response_ceiling, saturating_sub, FRAME_PREFIX_LEN. cbv zeta.
  rewrite (proj2 (Z.ltb_ge _ _)) by lia. done.
Qed.

(** ** The incremental decoder *)

(** What one push does, read off the buffer and the fragment together. *)
Definition push_reference (buffered fragment : list Z) (l : TransportLimits)
    : list Z * result TransportError (option (Frame Value Owned)) :=
  let all := (buffered ++ fragment)%list in
  let n := usize_of_len all in
  let declared := from_le_bytes (take 4 all) in
  if n <? 4 then (all, Ok None)
  else if declared =? 0 then ([], Err (TransportProtocol ZeroLengthFrame))
  else if max_frame_bytes l <? declared then
    ([], Err (TransportProtocol (OversizeFrame declared (max_frame_bytes l))))
  else if 4 + declared <? n then (buffered, Err Backpressure)
  else if n <? 4 + declared then (all, Ok None)
  else ([], rbind (decode_frame all l) (fun f => Ok (Some f))).

Lemma take_prefix_app (b g : list Z) n :
  usize_of_len b < 4 -> n = 4 - usize_of_len b ->
  (b ++ take (Z.to_nat n) g)%list = take 4 (b ++ g)%list.
Proof.
  unfold usize_of_len. intros Hb ->. rewrite take_app. f_equal.
  - by rewrite firstn_all2 by lia.
  - f_equal. lia.
Qed.

Lemma declared_length_spec (b g : list Z) l :
  usize_of_len b + usize_of_len g <= u64_max ->
  declared_length g l {| decoder_bytes := b |} =
  if usize_of_len b + usize_of_len g <? 4
  then ({| decoder_bytes := (b ++ g)%list |}, Ok None)
  else ({| decoder_bytes := b |}, Ok (Some (from_le_bytes (take 4 (b ++ g)%list)))).
Proof.
  intros Hu. pose proof (usize_of_len_nonneg b). pose proof (usize_of_len_nonneg g).
  unfold declared_length, FRAME_PREFIX_LEN. unfold_monad. cbn [decoder_bytes].
  unfold checked_add, checked_sub, get_to.
  destruct (Z.ltb_spec (usize_of_len b) 4) as [Hb|Hb].
  - rewrite (proj2 (Z.leb_le _ u64_max)) by lia.
    destruct (Z.ltb_spec (usize_of_len b + usize_of_len g) 4) as [Hn|Hn]; [done|].
    rewrite (proj2 (Z.leb_le _ 4)) by lia.
    rewrite (proj2 (Z.leb_le _ (usize_of_len g))) by lia. by rewrite take_prefix_app.
  - rewrite (proj2 (Z.leb_le 4 _)) by lia. rewrite (proj2 (Z.ltb_ge _ 4)) by lia.
    rewrite take_app_le; [done|]. unfold usize_of_len in Hb. lia.
Qed.

Lemma admit_fragment_spec (b g : list Z) l declared :
  max_frame_bytes l <= MAX_FRAME_BYTES -> usize_of_len b + usize_of_len g <= u64_max ->
  admit_fragment g l declared {| decoder_bytes := b |} =
  (if declared =? 0 then ({| decoder_bytes := [] |}, Err (TransportProtocol ZeroLengthFrame))
   else if max_frame_bytes l <? declared then
     ({| decoder_bytes := [] |},
      Err (TransportProtocol (OversizeFrame declared (max_frame_bytes l))))
   else if 4 + declared <? usize_of_len b + usize_of_len g
   then ({| decoder_bytes := b |}, Err Backpressure)
   else if usize_of_len b + usize_of_len g <? 4 + declared
   then ({| decoder_bytes := (b ++ g)%list |}, Ok None)
   else ({| decoder_bytes := [] |},
         rbind (decode_frame (b ++ g)%list l) (fun f => Ok (Some f)))).
Proof.
  intros Hm Hu. unfold admit_fragment, FRAME_PREFIX_LEN. unfold_monad. cbn [decoder_bytes].
  destruct (declared =? 0); [done|].
  destruct (Z.ltb_spec (max_frame_bytes l) declared) as [Hd|Hd]; [done|].
  unfold checked_add. rewrite (proj2 (Z.leb_le (4 + declared) _)) by sizes.
  cbn [decoder_bytes set_bytes]. rewrite (proj2 (Z.leb_le (_ + usize_of_len g) _)) by lia.
  destruct (Z.ltb_spec (4 + declared) (usize_of_len b + usize_of_len g)) as [Hb|Hb]; [done|].
  rewrite usize_of_len_app.
  destruct (Z.ltb_spec (usize_of_len b + usize_of_len g) (4 + declared)) as [Hn|Hn]; [done|].
  assert (Hall : Z.to_nat (4 + declared) = length (b ++ g)).
  { rewrite length_app. unfold usize_of_len in *. lia. }
  rewrite Hall, firstn_all, drop_all. destruct (decode_frame (b ++ g) l); done.
Qed.

(** A push on non-empty input is the reference. *)
Lemma push_is_reference (b g : list Z) l :
  TransportLimits_validate l = Ok l -> g <> [] -> usize_of_len b + usize_of_len g <= u64_max ->
  push g l {| decoder_bytes := b |} =
  ({| decoder_bytes := (push_reference b g l).1 |}, (push_reference b g l).2).
Proof.
  intros Hl Hg Hu. pose proof (limits_valid _ _ Hl) as (_ & _ & Hm1 & _).
  assert (Hg0 : (usize_of_len g =? 0) = false).
  { destruct g; [done|]. unfold usize_of_len. simpl. lia. }
  unfold push, push_reference. unfold mseq at 1. unfold mlift. rewrite Hl, Hg0.
  unfold mseq. rewrite declared_length_spec by done. cbv zeta. rewrite usize_of_len_app.
  destruct (Z.ltb_spec (usize_of_len b + usize_of_len g) 4) as [Hn|Hn]; [done|].
  rewrite admit_fragment_spec by done.
  repeat (match goal with |- context [if ?c then _ else _] => destruct c end; [done|]). done.
Qed.

(** Feeds fragments in order and collects what each push reported, leaving
    out the pushes that report no frame yet. *)
Fixpoint feed (d : FrameDecoder) (l : TransportLimits) (fragments : list (list Z))
    : FrameDecoder * list (result TransportError (option (Frame Value Owned))) :=
  match fragments with
  | [] => (d, [])
  | g :: fragments' =>
      let '(d1, r) := push g l d in
      let '(d2, rs) := feed d1 l fragments' in
      (d2, match r with Ok None => rs | _ => r :: rs end)
  end.

Lemma push_empty d l : TransportLimits_validate l = Ok l -> push [] l d = (d, Ok None).
Proof. intros Hl. unfold push, mseq, mlift. by rewrite Hl. Qed.

Lemma feed_empty d l fragments :
  TransportLimits_validate l = Ok l -> concat fragments = [] -> feed d l fragments = (d, []).
Proof.
  intros Hl. induction fragments as [|g fs IH]; [done|]. simpl. intros [-> H]%app_nil.
  rewrite push_empty by done. by rewrite IH.
Qed.

(** One complete frame within the limits. *)
Definition complete_wire (wire : list Z) (l : TransportLimits) : Prop :=
  0 < from_le_bytes (take 4 wire) <= max_frame_bytes l /\
  usize_of_len wire = 4 + from_le_bytes (take 4 wire).

Lemma feed_wire l wire fragments b :
  TransportLimits_validate l = Ok l -> complete_wire wire l ->
  (b ++ concat fragments)%list = wire -> usize_of_len b < usize_of_len wire ->
  feed {| decoder_bytes := b |} l fragments
  = (FrameDecoder_new, [rbind (decode_frame wire l) (fun f => Ok (Some f))]).
Proof.
  intros Hl [Hd Hlen] Hcat Hb. pose proof (limits_valid _ _ Hl) as (_ & _ & Hm1 & _).
  revert b Hcat Hb. induction fragments as [|g fs IH]; intros b Hcat Hb; simpl in *.
  { rewrite app_nil_r in Hcat. subst. lia. }
  rewrite app_assoc in Hcat.
  assert (Hn : usize_of_len b + usize_of_len g + usize_of_len (concat fs) = usize_of_len wire)
    by (rewrite <- Hcat, !usize_of_len_app; lia).
  pose proof (usize_of_len_nonneg (concat fs)) as Hc0.
  destruct (decide (g = [])) as [->|Hg].
  { rewrite push_empty by done. rewrite app_nil_r in Hcat. by rewrite IH. }
  rewrite push_is_reference by (try done; sizes). unfold push_reference. cbv zeta.
  rewrite usize_of_len_app.
  destruct (Z.ltb_spec (usize_of_len b + usize_of_len g) 4) as [H4|H4].
  { simpl. rewrite IH; [done|done|]. rewrite usize_of_len_app. lia. }
  assert (Htake : take 4 (b ++ g)%list = take 4 wire).
  { rewrite <- Hcat, (take_app_le (b ++ g)); [done|]. rewrite length_app.
    unfold usize_of_len in H4. lia. }
  rewrite Htake.
  destruct (Z.eqb_spec (from_le_bytes (take 4 wire)) 0); [lia|].
  destruct (Z.ltb_spec (max_frame_bytes l) (from_le_bytes (take 4 wire))); [lia|].
  destruct (Z.ltb_spec (4 + from_le_bytes (take 4 wire)) (usize_of_len b + usize_of_len g)); [lia|].
  destruct (Z.ltb_spec (usize_of_len b + usize_of_len g) (4 + from_le_bytes (take 4 wire))).
  { simpl. rewrite IH; [done|done|]. rewrite usize_of_len_app. lia. }
  assert (Hrest : concat fs = []) by (apply length_zero_iff_nil; unfold usize_of_len in *; lia).
  rewrite Hrest, app_nil_r in Hcat. rewrite Hcat. cbn [fst snd].
  rewrite feed_empty by done. destruct (decode_frame wire l); done.
Qed.

(** C40. The incremental decoder is equivalent to decoding the whole wire
    image: however one complete frame within the limits is cut into
    fragments, empty ones included, the pushes report exactly once, namely
    what decoding the concatenation reports, and leave an empty buffer. *)
Theorem decoder_fragmentation_invariant (l : TransportLimits) (wire : list Z)
    (fragments : list (list Z)) (Hl : TransportLimits_validate l = Ok l)
    (Hw : complete_wire wire l) (Hcat : concat fragments = wire) :
  feed FrameDecoder_new l fragments
  = (FrameDecoder_new, [rbind (decode_frame wire l) (fun f => Ok (Some f))]).
Proof.
  apply feed_wire; [done..|]. destruct Hw as [? ->]. unfold usize_of_len. simpl. lia.
Qed.

Lemma push_bytes g l b :
  let b' := decoder_bytes (push g l {| decoder_bytes := b |}).1 in
  b' = b \/ b' = [] \/
  (b' = (b ++ g)%list /\ usize_of_len (b ++ g) <= 3 + Z.max 0 (max_frame_bytes l)).
Proof.
  cbv zeta. destruct (TransportLimits_validate l) as [l'|e] eqn:Hl.
  2: { unfold push, mseq, mlift. rewrite Hl. by left. }
  pose proof (limits_valid _ _ Hl) as (-> & _ & Hm1 & _).
  destruct (decide (g = [])) as [->|Hg]; [rewrite push_empty by done; by left|].
  destruct (Z.leb_spec (usize_of_len b + usize_of_len g) u64_max) as [Hu|Hu].
  - rewrite push_is_reference by done. unfold push_reference. cbv zeta. cbn [fst].
    rewrite usize_of_len_app.
    repeat match goal with |- context [if ?c then _ else _] => destruct c eqn:? end; cbn; auto;
      right; right; (split; [done|lia]).
  - assert (Hca : checked_add (usize_of_len b) (usize_of_len g) = None)
      by (unfold checked_add; destruct (Z.leb_spec (usize_of_len b + usize_of_len g) u64_max); [lia|done]).
    unfold push, declared_length, admit_fragment. unfold_monad. rewrite Hl.
    destruct (usize_of_len g =? 0); [by left|].
    change (decoder_bytes {| decoder_bytes := b |}) with b.
    destruct (usize_of_len b <? FRAME_PREFIX_LEN); [rewrite Hca; by left|].
    destruct (get_to FRAME_PREFIX_LEN b); [|by left].
    repeat match goal with |- context [if ?c then _ else _] => destruct c end; cbn; auto.
    destruct (checked_add FRAME_PREFIX_LEN _); cbn [decoder_bytes]; rewrite ?Hca; cbn; auto.
Qed.

Fixpoint push_all (d : FrameDecoder) (pushes : list (list Z * TransportLimits)) : FrameDecoder :=
  match pushes with
  | [] => d
  | (g, l) :: pushes' => push_all (push g l d).1 pushes'
  end.

(** The decoder's buffer is bounded by the frame limit, whatever is pushed:
    after any sequence of fragments of any size and content, under any
    limits up to [m] body bytes, fewer than [4 + m] bytes are retained. *)
Theorem decoder_buffer_bounded (pushes : list (list Z * TransportLimits)) (m : Z)
    (Hm : 0 <= m) (Hl : Forall (fun p => max_frame_bytes p.2 <= m) pushes) :
  usize_of_len (decoder_bytes (push_all FrameDecoder_new pushes)) < 4 + m.
Proof.
  assert (H : forall d, usize_of_len (decoder_bytes d) < 4 + m ->
                        usize_of_len (decoder_bytes (push_all d pushes)) < 4 + m).
  2: { apply H. unfold usize_of_len. simpl. lia. }
  induction pushes as [|[g l] pushes IH]; intros [b] Hd; simpl; [done|].
  apply Forall_cons in Hl as [Hl0 Hl]. apply IH; [done|]. simpl in Hl0.
  destruct (push_bytes g l b) as [->|[->|[-> Hb]]]; [done|unfold usize_of_len; simpl; lia|lia].
Qed.

(** A decoded frame was exactly one frame within its ceiling: the wire
    image is a four-byte length and that many bytes of UTF-8, neither empty
    nor above the inline ceiling of the frame's kind, and the frame passes
    validation. *)
Theorem decoded_frame_sound (wire : list Z) (l : TransportLimits) (f : Frame Value Owned)
    (H : decode_frame wire l = Ok f) :
  Frame_validate f = Ok tt /\
  usize_of_len wire = 4 + from_le_bytes (take 4 wire) /\ utf8_valid (drop 4 wire) = true /\
  from_le_bytes (take 4 wire) <> 0 /\
  from_le_bytes (take 4 wire) <= inline_ceiling_for_kind (kind f) (max_frame_bytes l) /\
  from_le_bytes (take 4 wire) <= MAX_FRAME_BYTES.
Proof.
  unfold decode_frame in H. apply rbind_ok in H as (l' & Hl & H).
  pose proof (limits_valid _ _ Hl) as (-> & _ & Hm1 & _). cbv zeta in H.
  apply rbind_ok in H as (f' & Hd & H). apply check_ok in H as [Hc [= <-]].
  apply map_err_ok in Hd. unfold codec_decode in Hd. cbv zeta in Hd.
  apply check_guard_ok in Hd as [H4 Hd]. apply check_ok in Hd as [Hlen Hd].
  apply check_guard_ok in Hd as [Ha Hd]. apply check_guard_ok in Hd as [Hb Hd].
  unfold decode_body in Hd. apply check_ok in Hd as [_ Hd]. apply check_guard_ok in Hd as [Hu Hd].
  apply rbind_ok in Hd as (v & _ & Hd). apply check_ok in Hd as [_ Hd].
  apply rbind_ok in Hd as (f0 & _ & Hd). apply check_ok in Hd as [Hv [= <-]].
  apply check_body_length_ok in Hlen. unfold check_inline_response_ceiling in Hc. cbv zeta in Hc.
  rewrite guard_err_ok in Hc. apply Z.ltb_ge in Hc, H4, Ha, Hb. bool_facts.
  unfold saturating_sub, FRAME_PREFIX_LEN, FRAME_PREFIX_BYTES in *. split_and!; try done; lia.
Qed.
End CodecLaws.

(** ** Concrete frames *)

#[local] Existing Instance sample_wire.

Definition sample_wire_image : list Z := [2; 0; 0; 0; 123; 125].

Lemma sample_reads_back : reads_back (sample_frame MExecute "request-1") [123; 125].
Proof. split_and!; [done..|]. exists "body"%string. done. Qed.

Lemma frame_wire_roundtrip_witness :
  decode_frame sample_wire_image TransportLimits_default
  = Ok (sample_frame MExecute "request-1").
Proof.
  destruct (frame_wire_roundtrip (sample_frame MExecute "request-1") TransportLimits_default
              [123; 125] sample_wire_image sample_reads_back) as (_ & _ & H).
  - vm_compute. reflexivity.
  - exact H.
Defined.

Lemma decoder_fragmentation_invariant_witness :
  feed FrameDecoder_new TransportLimits_default [[2; 0]; []; [0; 0; 123]; [125]; []]
  = (FrameDecoder_new, [Ok (Some (sample_frame MExecute "request-1"))]).
Proof.
  rewrite (decoder_fragmentation_invariant TransportLimits_default sample_wire_image
             [[2; 0]; []; [0; 0; 123]; [125]; []]).
  - vm_compute. reflexivity.
  - vm_compute. reflexivity.
  - split; [|vm_compute; reflexivity]. split; vm_compute; [reflexivity|discriminate].
  - reflexivity.
Defined.

Lemma decoder_buffer_bounded_witness :
  usize_of_len (decoder_bytes (push_all FrameDecoder_new
    [([255; 255], TransportLimits_default); ([0; 0; 1], TransportLimits_default)]))
  < 4 + MAX_FRAME_BYTES.
Proof.
  apply decoder_buffer_bounded; [vm_compute; discriminate|].
  repeat constructor; vm_compute; discriminate.
Defined.

Lemma decoded_frame_sound_witness :
  Frame_validate (sample_frame MExecute "request-1") = Ok tt /\
  usize_of_len sample_wire_image = 4 + from_le_bytes (take 4 sample_wire_image).
Proof.
  destruct (decoded_frame_sound sample_wire_image TransportLimits_default
              (sample_frame MExecute "request-1")) as (H1 & H2 & _).
  - vm_compute. reflexivity.
  - exact (conj H1 H2).
Defined.

(** A native-worker heartbeat that validates and encodes, and the wire on
    which it does. *)
Definition native_heartbeat : Frame string unit :=
  {| protocol_version := ProtocolVersion_CURRENT; encoding_profile := JsonV1;
     connection_id := "connection-1"; request_id := Some "request-1"; kind := KHeartbeat;
     message_type := MNativeWorkerHeartbeat; request_identity := None;
     payload := PNativeWorkerFrameV1
       {| nw_wire_version := 1; nw_native_protocol_version := NATIVE_WORKER_PROTOCOL_VERSION;
          nw_operation := OpHeartbeat; nw_deadline_unix_ms := 9;
          nw_authority_epoch := authority_epoch sample_request_fence;
          nw_state_fence := sample_request_fence; nw_lease_id := "lease-1";
          nw_admission_revision := "rev-1"; nw_producer_generation := 1;
          nw_body := "HEARTBEAT" |};
     trace_context := ∅ |}.

Definition native_wire : Wire string unit := {|
  value_kind := Some;
  value_message_type := fun _ => Some "NativeWorkerHeartbeat"%string;
  event_of_value := fun _ => None;
  owned_validate := fun _ => Ok tt;
  contract_error_text := fun _ => "contract error"%string;
  receipt_error_text := fun _ => "receipt error"%string;
  wire_sha256 := zero_sha256;
  receipt_json := no_json;
  event_json := fun _ => Ok [123; 125];
  frame_json := fun _ => Ok [123; 125];
  json_from_slice := fun _ => Ok "body"%string;
  frame_from_value := fun _ => Ok native_heartbeat;
  probe_kind := fun _ => Some KHeartbeat;
|}.

(** The native-worker exception of the round trip is not vacuous. *)
Lemma native_heartbeat_undecodable :
  @reads_back _ _ native_wire native_heartbeat [123; 125] /\
  @encode_frame _ _ native_wire native_heartbeat TransportLimits_default = Ok sample_wire_image /\
  @decode_frame _ _ native_wire sample_wire_image TransportLimits_default
  = Err (TransportProtocol UnknownMessageType).
Proof.
  split_and!; [split_and!; [done..|]; by exists "body"%string|vm_compute; reflexivity..].
Qed.
