(* ===== verification/Transport.v ===== *)
(** * Transport bookkeeping

    The per-connection ledgers of crates/kernel/eliot-ipc/src/lib.rs: the
    bounded admission queue with its control reserve, the replay ledger, the
    cancellation registry, the identity order that keys the bound variants of
    both, the byte-boundary state of an endpoint, and the classification of
    interrupted writes. Module generations come from
    crates/foundation/eliot-runtime-contracts/src/lib.rs. *)

From Stdlib Require Import String.
From S2P Require Import Prelude RustText Contracts Protocol FrameCodec.

#[local] Open Scope string_scope.
#[local] Open Scope Z_scope.

(** ** Outcomes *)

Definition BACKPRESSURE_BRIDGE_DISPATCH : BackpressureSignal :=
  {| dimension := "bridge-host-request-dispatch";
     recovery_action :=
       "retain the admitted session; run gap/reconcile recovery, then resubmit duplicate-safe";
     shed_work :=
       "this frame shed; its commit fate is unknown, never denied; the session is retained" |}.

Definition backpressure_signal (e : TransportError) : option BackpressureSignal :=
  match e with
  | Backpressure => Some BACKPRESSURE_BRIDGE_DISPATCH
  | AttributedBackpressure signal => Some signal
  | _ => None
  end.

Inductive DeliveryOutcome : Type := Delivered | DeliveryUnknown.

Inductive OperationOutcome : Type := NotStarted | Partial | PostCommitUnknown.

Definition classify_write (after_write_started : bool) : OperationOutcome :=
  if after_write_started then PostCommitUnknown else NotStarted.

Definition classify_write_progress (write_started frame_complete : bool) : OperationOutcome :=
  if negb write_started then NotStarted
  else if frame_complete then PostCommitUnknown
  else Partial.

Definition classify_disconnect (after_write_started : bool) : DeliveryOutcome := DeliveryUnknown.

(** ** Admission queue *)

Record AdmissionQueue : Type := {
  limits : TransportLimits;
  identity : Z;
  normal_items : Z;
  control_items : Z;
  normal_bytes : Z;
  control_bytes : Z;
}.

Record QueueReservation : Type := {
  owner : Z;
  encoded_bytes : Z;
  control : bool;
}.

Definition AdmissionQueue_new (l : TransportLimits) : result TransportError AdmissionQueue :=
  let? l := TransportLimits_validate l in
  Ok {| limits := l; identity := 1; normal_items := 0; control_items := 0; normal_bytes := 0;
        control_bytes := 0 |}.

(** [u64::saturating_mul] *)
Definition saturating_mul (a b : Z) : Z := Z.min (a * b) u64_max.

Definition control_reserve_bytes (l : TransportLimits) : Z :=
  Z.max (saturating_mul (queue_bytes l) (control_reserve l) / queue_capacity l) 1.

Definition normal_byte_limit (l : TransportLimits) : Z :=
  saturating_sub (queue_bytes l) (control_reserve_bytes l).

(** The counters after one admission. *)
Definition charge (q : AdmissionQueue) (n : Z) (lane : bool) : AdmissionQueue :=
  if lane then
    {| limits := limits q; identity := identity q; normal_items := normal_items q;
       control_items := control_items q + 1; normal_bytes := normal_bytes q;
       control_bytes := control_bytes q + n |}
  else
    {| limits := limits q; identity := identity q; normal_items := normal_items q + 1;
       control_items := control_items q; normal_bytes := normal_bytes q + n;
       control_bytes := control_bytes q |}.

Definition queue_admit (n : Z) (lane : bool) : M AdmissionQueue TransportError QueueReservation :=
  let! self := mstate in
  do! mlift (guard_err (n =? 0) (TransportProtocol ZeroLengthFrame));
  do! mlift (guard_err (max_frame_bytes (limits self) <? n)
               (TransportProtocol (OversizeFrame n (max_frame_bytes (limits self)))));
  let! items := mlift (ok_or (checked_add (normal_items self) (control_items self)) Backpressure) in
  let normal_limit := queue_capacity (limits self) - control_reserve (limits self) in
  let! total_bytes := mlift (ok_or
    (match checked_add (normal_bytes self) (control_bytes self) with
     | Some bytes => checked_add bytes n
     | None => None
     end) Backpressure) in
  let admitted_limit :=
    if lane then queue_bytes (limits self) else normal_byte_limit (limits self) in
  do! mlift (guard_err ((admitted_limit <? total_bytes)
                        || (queue_capacity (limits self) <=? items)
                        || (negb lane && (normal_limit <=? normal_items self)))
               Backpressure);
  do! mmodify (fun q => charge q n lane);
  mret_ok {| owner := identity self; encoded_bytes := n; control := lane |}.

Definition admit_frame {Value Owned} `{W : Wire Value Owned} (f : Frame Value Owned) (n : Z)
    : M AdmissionQueue TransportError QueueReservation :=
  do! mlift (map_err TransportProtocol (Frame_validate f));
  let body_len := saturating_sub n FRAME_PREFIX_LEN in
  let! self := mstate in
  do! mlift (check_inline_response_ceiling f body_len (max_frame_bytes (limits self)));
  queue_admit n (is_control_capacity_frame f).

Definition lane_items (q : AdmissionQueue) (lane : bool) : Z :=
  if lane then control_items q else normal_items q.

Definition lane_bytes (q : AdmissionQueue) (lane : bool) : Z :=
  if lane then control_bytes q else normal_bytes q.

(** The counters after one release. *)
Definition discharge (q : AdmissionQueue) (n : Z) (lane : bool) : AdmissionQueue :=
  if lane then
    {| limits := limits q; identity := identity q; normal_items := normal_items q;
       control_items := control_items q - 1; normal_bytes := normal_bytes q;
       control_bytes := control_bytes q - n |}
  else
    {| limits := limits q; identity := identity q; normal_items := normal_items q - 1;
       control_items := control_items q; normal_bytes := normal_bytes q - n;
       control_bytes := control_bytes q |}.

Definition release (r : QueueReservation) : M AdmissionQueue TransportError unit :=
  let! self := mstate in
  do! mlift (guard_err (negb (owner r =? identity self)) Backpressure);
  do! mlift (guard_err ((lane_items self (control r) =? 0)
                        || (lane_bytes self (control r) <? encoded_bytes r)) Backpressure);
  mmodify (fun q => discharge q (encoded_bytes r) (control r)).

Definition usage (q : AdmissionQueue) : Z * Z :=
  (normal_items q + control_items q, normal_bytes q + control_bytes q).

(** ** Module generations and bound identities *)

Inductive ModuleGenerationState : Type :=
| GDiscovered
| GStaged
| GStarting
| GRecovering
| GReady
| GActive
| GDegraded
| GQuiescing
| GDrained
| GStopped
| GRetired
| GFailed
| GRestartWait
| GQuarantined
| GManualRecovery.

Inductive HealthDimension : Type := HUnknown | HHealthy | HDegraded | HFailed.

Record HealthVector : Type := {
  liveness : HealthDimension;
  readiness : HealthDimension;
  freshness : HealthDimension;
  compatibility : HealthDimension;
  integrity : HealthDimension;
  capacity : HealthDimension;
}.

Record ModuleGeneration : Type := {
  module_id : ContractId;
  generation : ResourceGeneration;
  artifact_id : ArtifactId;
  generation_state : ModuleGenerationState;
  health : HealthVector;
  generation_fence : StateFence;
}.

(** [ModuleGeneration::validate().is_ok()] *)
Definition ModuleGeneration_valid (g : ModuleGeneration) : bool :=
  text_ok (module_id g) && text_ok (artifact_id g)
  && is_ok (StateFence_validate (generation_fence g)).

Record BoundIdentity : Type := {
  stream_id : string;
  module_generation : ModuleGeneration;
  bound_id : string;
}.

Definition BoundIdentity_new (stream : string) (g : ModuleGeneration) (i : string)
    : result TransportError BoundIdentity :=
  check? guard_err (is_blank stream || is_blank i) IdentityConflict;
  check? guard_err (negb (ModuleGeneration_valid g)) IdentityConflict;
  Ok {| stream_id := stream; module_generation := g; bound_id := i |}.

Definition module_generation_state_rank (s : ModuleGenerationState) : Z :=
  match s with
  | GDiscovered => 0
  | GStaged => 1
  | GStarting => 2
  | GRecovering => 3
  | GReady => 4
  | GActive => 5
  | GDegraded => 6
  | GQuiescing => 7
  | GDrained => 8
  | GStopped => 9
  | GRetired => 10
  | GFailed => 11
  | GRestartWait => 12
  | GQuarantined => 13
  | GManualRecovery => 14
  end.

Definition health_dimension_rank (d : HealthDimension) : Z :=
  match d with
  | HUnknown => 0
  | HHealthy => 1
  | HDegraded => 2
  | HFailed => 3
  end.

(** [Ordering::then_with] *)
Definition then_with (c next : comparison) : comparison :=
  match c with
  | Eq => next
  | _ => c
  end.

(** The derived order of [Option<u64>]: [None] first. *)
Definition option_cmp (a b : option Z) : comparison :=
  match a, b with
  | None, None => Eq
  | None, Some _ => Lt
  | Some _, None => Gt
  | Some x, Some y => Z.compare x y
  end.

Section BoundOrder.
(** [StateFence::canonical_epoch_digest(epoch).ok()] *)
Context (canonical_epoch_digest : EpochId -> option string).

(** [map(to_string).unwrap_or_default()] *)
Definition epoch_digest_key (e : EpochId) : string :=
  match canonical_epoch_digest e with
  | Some d => d
  | None => ""
  end.

Definition compare_module_generation (l r : ModuleGeneration) : comparison :=
  then_with (String.compare (module_id l) (module_id r))
  (then_with (Z.compare (generation l) (generation r))
  (then_with (String.compare (artifact_id l) (artifact_id r))
  (then_with (Z.compare (module_generation_state_rank (generation_state l))
                (module_generation_state_rank (generation_state r)))
  (then_with (Z.compare (health_dimension_rank (liveness (health l)))
                (health_dimension_rank (liveness (health r))))
  (then_with (Z.compare (health_dimension_rank (readiness (health l)))
                (health_dimension_rank (readiness (health r))))
  (then_with (Z.compare (health_dimension_rank (freshness (health l)))
                (health_dimension_rank (freshness (health r))))
  (then_with (Z.compare (health_dimension_rank (compatibility (health l)))
                (health_dimension_rank (compatibility (health r))))
  (then_with (Z.compare (health_dimension_rank (integrity (health l)))
                (health_dimension_rank (integrity (health r))))
  (then_with (Z.compare (health_dimension_rank (capacity (health l)))
                (health_dimension_rank (capacity (health r))))
  (then_with (String.compare (epoch_digest_key (authority_epoch (generation_fence l)))
                (epoch_digest_key (authority_epoch (generation_fence r))))
  (then_with (Z.compare (resource_generation (generation_fence l))
                (resource_generation (generation_fence r)))
  (then_with (option_cmp (task_revision (generation_fence l)) (task_revision (generation_fence r)))
  (then_with (option_cmp (policy_revision (generation_fence l))
                (policy_revision (generation_fence r)))
    (option_cmp (integration_revision (generation_fence l))
       (integration_revision (generation_fence r)))))))))))))))).

Definition BoundIdentity_cmp (a b : BoundIdentity) : comparison :=
  then_with (String.compare (stream_id a) (stream_id b))
  (then_with (compare_module_generation (module_generation a) (module_generation b))
     (String.compare (bound_id a) (bound_id b))).

(** The fields the order looks at. A [BTreeMap<BoundIdentity, V>] finds an
    entry by the order, so it is a map keyed by them. *)
Definition OrdKey : Type :=
  string * (string * Z * string * Z * (Z * Z * Z * Z * Z * Z)
            * (string * Z * option Z * option Z * option Z)) * string.

Definition ord_key (b : BoundIdentity) : OrdKey :=
  let g := module_generation b in
  let h := health g in
  let f := generation_fence g in
  (stream_id b,
   (module_id g, generation g, artifact_id g, module_generation_state_rank (generation_state g),
    (health_dimension_rank (liveness h), health_dimension_rank (readiness h),
     health_dimension_rank (freshness h), health_dimension_rank (compatibility h),
     health_dimension_rank (integrity h), health_dimension_rank (capacity h)),
    (epoch_digest_key (authority_epoch f), resource_generation f, task_revision f,
     policy_revision f, integration_revision f)),
   bound_id b).
End BoundOrder.

(** ** Replay ledger *)

Inductive ReplayDisposition : Type := ReplayNew | ReplayDuplicate | ReplayConflicting.

(** [F] is the frame type; only its derived equality is used. *)
Section ReplayLedger.
Context {F : Type} `{EqDecision F} (canonical_epoch_digest : EpochId -> option string).

Record TransportReplayLedger : Type := {
  replay_entries : gmap string F;
  replay_bound_entries : gmap OrdKey F;
  replay_capacity : Z;
}.

Definition TransportReplayLedger_default : TransportReplayLedger :=
  {| replay_entries := ∅; replay_bound_entries := ∅; replay_capacity := 1024 |}.

Definition replay_with_capacity (n : Z) : result TransportError TransportReplayLedger :=
  check? guard_err (n =? 0) TransportRegistryFull;
  Ok {| replay_entries := ∅; replay_bound_entries := ∅; replay_capacity := n |}.

Definition replay_observe (id : string) (f : F)
    : M TransportReplayLedger TransportError ReplayDisposition :=
  let! self := mstate in
  match replay_entries self !! id with
  | Some previous => mret_ok (if previous == f then ReplayDuplicate else ReplayConflicting)
  | None =>
      if replay_capacity self <=? Z.of_nat (size (replay_entries self))
      then mthrow TransportRegistryFull
      else
        do! mmodify (fun s => {| replay_entries := <[id := f]> (replay_entries s);
                                 replay_bound_entries := replay_bound_entries s;
                                 replay_capacity := replay_capacity s |});
        mret_ok ReplayNew
  end.

Definition replay_observe_bound (b : BoundIdentity) (f : F)
    : M TransportReplayLedger TransportError ReplayDisposition :=
  let! self := mstate in
  match replay_bound_entries self !! ord_key canonical_epoch_digest b with
  | Some previous => mret_ok (if previous == f then ReplayDuplicate else ReplayConflicting)
  | None =>
      if replay_capacity self <=? Z.of_nat (size (replay_bound_entries self))
      then mthrow TransportRegistryFull
      else
        do! mmodify (fun s =>
              {| replay_entries := replay_entries s;
                 replay_bound_entries :=
                   <[ord_key canonical_epoch_digest b := f]> (replay_bound_entries s);
                 replay_capacity := replay_capacity s |});
        mret_ok ReplayNew
  end.
End ReplayLedger.

(** ** Cancellation registry *)

Inductive CancellationState : Type := CActive | CCancelled | CExpired | CReaped.

#[global] Instance CancellationState_eq_dec : EqDecision CancellationState.
Proof. solve_decision. Defined.

Inductive CancellationDisposition : Type :=
| CancelNew
| CancelDuplicate
| CancelConflict
| CancelUnknown.

#[global] Instance CancellationDisposition_eq_dec : EqDecision CancellationDisposition.
Proof. solve_decision. Defined.

Record CancellationRegistry : Type := {
  cancel_entries : gmap string CancellationState;
  cancel_bound_entries : gmap OrdKey (string * CancellationState);
  cancel_capacity : Z;
}.

Definition CancellationRegistry_default : CancellationRegistry :=
  {| cancel_entries := ∅; cancel_bound_entries := ∅; cancel_capacity := 0 |}.

Definition cancel_with_capacity (n : Z) : result TransportError CancellationRegistry :=
  check? guard_err (n =? 0) TransportRegistryFull;
  Ok {| cancel_entries := ∅; cancel_bound_entries := ∅; cancel_capacity := n |}.

Definition effective_capacity (r : CancellationRegistry) : Z :=
  if cancel_capacity r =? 0 then 1024 else cancel_capacity r.

Definition set_entry (id : string) (st : CancellationState) (r : CancellationRegistry)
    : CancellationRegistry :=
  {| cancel_entries := <[id := st]> (cancel_entries r);
     cancel_bound_entries := cancel_bound_entries r; cancel_capacity := cancel_capacity r |}.

Definition set_bound_entry (k : OrdKey) (v : string * CancellationState)
    (r : CancellationRegistry) : CancellationRegistry :=
  {| cancel_entries := cancel_entries r;
     cancel_bound_entries := <[k := v]> (cancel_bound_entries r);
     cancel_capacity := cancel_capacity r |}.

Abbreviation CM := (M CancellationRegistry TransportError).

Definition register (id : string) : CM unit :=
  do! mlift (guard_err (is_blank id) IdentityConflict);
  let! self := mstate in
  do! mlift (guard_err (negb (is_some (cancel_entries self !! id))
                        && (effective_capacity self <=? Z.of_nat (size (cancel_entries self))))
               TransportRegistryFull);
  match cancel_entries self !! id with
  | Some _ => mret_ok tt
  | None => mmodify (set_entry id CActive)
  end.

Definition cancel (id : string) : CM unit :=
  let! self := mstate in
  match cancel_entries self !! id with
  | Some CActive => mmodify (set_entry id CCancelled)
  | _ => mthrow UnknownRequest
  end.

Definition reap (id : string) : CM unit :=
  let! self := mstate in
  match cancel_entries self !! id with
  | Some (CCancelled | CExpired) => mmodify (set_entry id CReaped)
  | _ => mthrow UnknownRequest
  end.

Definition cancel_stable (id : string) : CM CancellationDisposition :=
  let! self := mstate in
  match cancel_entries self !! id with
  | Some CActive => do! mmodify (set_entry id CCancelled); mret_ok CancelNew
  | Some _ => mret_ok CancelDuplicate
  | None => mret_ok CancelUnknown
  end.

Definition expire_request (id : string) : CM CancellationDisposition :=
  let! self := mstate in
  match cancel_entries self !! id with
  | Some CActive => do! mmodify (set_entry id CExpired); mret_ok CancelNew
  | Some _ => mret_ok CancelDuplicate
  | None => mret_ok CancelUnknown
  end.

Section BoundCancellation.
Context (canonical_epoch_digest : EpochId -> option string).

Definition register_bound (b : BoundIdentity) (fingerprint : string) : CM CancellationDisposition :=
  do! mlift (guard_err (is_blank fingerprint) IdentityConflict);
  let! self := mstate in
  match cancel_bound_entries self !! ord_key canonical_epoch_digest b with
  | Some (previous, _) =>
      mret_ok (if previous == fingerprint then CancelDuplicate else CancelConflict)
  | None =>
      if effective_capacity self <=? Z.of_nat (size (cancel_bound_entries self))
      then mthrow TransportRegistryFull
      else
        do! mmodify (set_bound_entry (ord_key canonical_epoch_digest b) (fingerprint, CActive));
        mret_ok CancelNew
  end.

Definition cancel_bound (b : BoundIdentity) : CM CancellationDisposition :=
  let! self := mstate in
  match cancel_bound_entries self !! ord_key canonical_epoch_digest b with
  | Some (fp, CActive) =>
      do! mmodify (set_bound_entry (ord_key canonical_epoch_digest b) (fp, CCancelled));
      mret_ok CancelNew
  | Some (_, (CCancelled | CExpired | CReaped)) => mret_ok CancelDuplicate
  | None => mret_ok CancelUnknown
  end.

Definition expire_bound (b : BoundIdentity) : CM CancellationDisposition :=
  let! self := mstate in
  match cancel_bound_entries self !! ord_key canonical_epoch_digest b with
  | Some (fp, CActive) =>
      do! mmodify (set_bound_entry (ord_key canonical_epoch_digest b) (fp, CExpired));
      mret_ok CancelNew
  | Some (_, (CCancelled | CExpired | CReaped)) => mret_ok CancelDuplicate
  | None => mret_ok CancelUnknown
  end.

Definition reap_bound (b : BoundIdentity) : CM CancellationDisposition :=
  let! self := mstate in
  match cancel_bound_entries self !! ord_key canonical_epoch_digest b with
  | Some (fp, (CCancelled | CExpired)) =>
      do! mmodify (set_bound_entry (ord_key canonical_epoch_digest b) (fp, CReaped));
      mret_ok CancelNew
  | Some (_, CReaped) => mret_ok CancelDuplicate
  | Some (_, CActive) => mret_ok CancelConflict
  | None => mret_ok CancelUnknown
  end.

Definition state_bound (r : CancellationRegistry) (b : BoundIdentity) : option CancellationState :=
  snd <$> cancel_bound_entries r !! ord_key canonical_epoch_digest b.
End BoundCancellation.

(** ** Byte-boundary state of an endpoint *)

Inductive ConnectionBoundaryState : Type := Usable | InProgress | Unusable.

Definition begin_transfer (s : ConnectionBoundaryState)
    : result TransportError ConnectionBoundaryState :=
  match s with
  | Usable => Ok InProgress
  | InProgress | Unusable => Err UnknownOutcome
  end.

Definition complete_transfer (s : ConnectionBoundaryState) : ConnectionBoundaryState :=
  match s with
  | Usable | InProgress => Usable
  | Unusable => Unusable
  end.

Definition fail_transfer (s : ConnectionBoundaryState) : ConnectionBoundaryState := Unusable.

Definition permits_io (s : ConnectionBoundaryState) : bool :=
  match s with
  | Usable | InProgress => true
  | Unusable => false
  end.
