(* ===== verification/TransportLaws.v ===== *)
(** * Laws of the transport bookkeeping

    Conservation and bounds of the admission queue and the availability of
    its control reserve; the order on bound identities; first-terminal-wins
    and the bound of the cancellation registry; the replay ledger's bound;
    the stickiness of a poisoned endpoint. *)

From Stdlib Require Import String.
From S2P Require Import Prelude RustText Contracts Protocol FrameCodec FrameCodecLaws Transport.

#[local] Open Scope string_scope.
#[local] Open Scope Z_scope.

(** ** Admission queue *)

(** A queue with the reservations it has issued and not taken back. *)
Definition QueueRun : Type := AdmissionQueue * list QueueReservation.

Inductive queue_step : QueueRun -> QueueRun -> Prop :=
| step_admit n lane q q' r out :
    is_u64 n -> queue_admit n lane q = (q', Ok r) -> queue_step (q, out) (q', r :: out)
| step_refused n lane q q' e out :
    queue_admit n lane q = (q', Err e) -> queue_step (q, out) (q', out)
| step_release q q' r res out1 out2 :
    release r q = (q', res) -> queue_step (q, out1 ++ r :: out2)%list (q', out1 ++ out2)%list.

Inductive queue_reach (l : TransportLimits) : QueueRun -> Prop :=
| queue_reach_new q : AdmissionQueue_new l = Ok q -> queue_reach l (q, [])
| queue_reach_step s s' : queue_reach l s -> queue_step s s' -> queue_reach l s'.

Definition in_lane (lane : bool) (r : QueueReservation) : Prop := control r = lane.

#[local] Instance in_lane_dec lane r : Decision (in_lane lane r).
Proof. unfold in_lane. apply _. Defined.

Definition lane_count (lane : bool) (out : list QueueReservation) : Z :=
  Z.of_nat (length (filter (in_lane lane) out)).

Definition lane_sum (lane : bool) (out : list QueueReservation) : Z :=
  sum_list (encoded_bytes <$> filter (in_lane lane) out).

Definition limits_u64 (l : TransportLimits) : Prop :=
  is_u64 (max_frame_bytes l) /\ is_u64 (queue_capacity l) /\ is_u64 (queue_bytes l) /\
  is_u64 (control_reserve l).

(** Counters equal what is outstanding, within the limits. *)
Record queue_ok (l : TransportLimits) (s : QueueRun) : Prop := {
  qok_limits : limits s.1 = l;
  qok_valid : TransportLimits_validate l = Ok l;
  qok_items : forall lane, lane_items s.1 lane = lane_count lane s.2;
  qok_bytes : forall lane, lane_bytes s.1 lane = lane_sum lane s.2;
  qok_tokens : Forall (fun r => owner r = identity s.1 /\ 0 < encoded_bytes r) s.2;
  qok_normal_items : normal_items s.1 <= queue_capacity l - control_reserve l;
  qok_total_items : normal_items s.1 + control_items s.1 <= queue_capacity l;
  qok_normal_bytes : normal_bytes s.1 <= normal_byte_limit l;
  qok_total_bytes : normal_bytes s.1 + control_bytes s.1 <= queue_bytes l;
}.

Lemma lane_count_cons lane r out :
  lane_count lane (r :: out) = (if Bool.eqb (control r) lane then 1 else 0) + lane_count lane out.
Proof.
  unfold lane_count. rewrite filter_cons.
  destruct (decide (in_lane lane r)) as [H|H]; unfold in_lane in H.
  - rewrite (proj2 (Bool.eqb_true_iff _ _) H). simpl. lia.
  - by rewrite (proj2 (Bool.eqb_false_iff _ _) H).
Qed.

Lemma lane_sum_cons lane r out :
  lane_sum lane (r :: out)
  = (if Bool.eqb (control r) lane then encoded_bytes r else 0) + lane_sum lane out.
Proof.
  unfold lane_sum. rewrite filter_cons.
  destruct (decide (in_lane lane r)) as [H|H]; unfold in_lane in H.
  - rewrite (proj2 (Bool.eqb_true_iff _ _) H). by rewrite fmap_cons.
  - by rewrite (proj2 (Bool.eqb_false_iff _ _) H).
Qed.

Lemma lane_count_middle lane r out1 out2 :
  lane_count lane (out1 ++ r :: out2) = lane_count lane (r :: out1 ++ out2).
Proof. unfold lane_count. rewrite <- Permutation_middle. done. Qed.

Lemma lane_sum_middle lane r out1 out2 :
  lane_sum lane (out1 ++ r :: out2) = lane_sum lane (r :: out1 ++ out2).
Proof. unfold lane_sum. apply sum_list_perm. rewrite <- Permutation_middle. done. Qed.

Lemma lane_count_nonneg lane out : 0 <= lane_count lane out.
Proof. unfold lane_count. lia. Qed.

Lemma lane_sum_nonneg lane out :
  Forall (fun r => 0 < encoded_bytes r) out -> 0 <= lane_sum lane out.
Proof.
  intros H. apply sum_list_nonneg, Forall_fmap. apply Forall_forall. intros r Hr.
  apply list_elem_of_filter in Hr as [_ Hr]. rewrite Forall_forall in H. simpl. specialize (H r Hr). lia.
Qed.

Lemma admit_ok n lane q q' r :
  queue_admit n lane q = (q', Ok r) ->
  n <> 0 /\ n <= max_frame_bytes (limits q) /\
  normal_items q + control_items q < queue_capacity (limits q) /\
  normal_bytes q + control_bytes q + n <=
    (if lane then queue_bytes (limits q) else normal_byte_limit (limits q)) /\
  (lane = false -> normal_items q < queue_capacity (limits q) - control_reserve (limits q)) /\
  q' = charge q n lane /\ r = {| owner := identity q; encoded_bytes := n; control := lane |}.
Proof.
  unfold queue_admit. intros H. run; bool_facts;
    repeat match goal with Hc : checked_add _ _ = Some _ |- _ =>
      apply checked_add_some in Hc as [-> ?] end;
    split_and!; try done; lia.
Qed.

Lemma admit_err n lane q q' e : queue_admit n lane q = (q', Err e) -> q' = q.
Proof. unfold queue_admit. intros H. by run. Qed.

Lemma release_err r q q' e : release r q = (q', Err e) -> q' = q.
Proof. unfold release. intros H. by run. Qed.

Lemma release_ok_of r q :
  owner r = identity q -> lane_items q (control r) <> 0 ->
  encoded_bytes r <= lane_bytes q (control r) ->
  release r q = (discharge q (encoded_bytes r) (control r), Ok tt).
Proof.
  intros Ho Hi Hb. unfold release. unfold_monad.
  rewrite Ho, Z.eqb_refl. simpl. rewrite (proj2 (Z.eqb_neq _ _)), (proj2 (Z.ltb_ge _ _)) by done.
  done.
Qed.

Lemma normal_limit_le l :
  limits_u64 l -> TransportLimits_validate l = Ok l ->
  1 <= control_reserve_bytes l <= queue_bytes l /\
  normal_byte_limit l = queue_bytes l - control_reserve_bytes l.
Proof.
  intros ([] & [] & [] & []) (_ & V1 & V2 & V3 & V4 & V5 & V6 & _)%limits_valid.
  unfold normal_byte_limit, control_reserve_bytes, saturating_sub, saturating_mul.
  assert (0 <= Z.min (queue_bytes l * control_reserve l) u64_max / queue_capacity l <= queue_bytes l).
  { split; [apply Z.div_pos; [apply Z.min_glb; [nia|lia]|lia]|].
    apply Z.div_le_upper_bound; [lia|].
    etrans; [apply Z.le_min_l|]. rewrite (Z.mul_comm (queue_capacity l)).
    apply Z.mul_le_mono_nonneg_l; lia. }
  lia.
Qed.

Lemma queue_ok_bounds l s :
  queue_ok l s -> forall lane, 0 <= lane_items s.1 lane /\ 0 <= lane_bytes s.1 lane.
Proof.
  intros H lane. rewrite (qok_items _ _ H), (qok_bytes _ _ H). split; [apply lane_count_nonneg|].
  apply lane_sum_nonneg. eapply Forall_impl; [apply (qok_tokens _ _ H)|]. naive_solver.
Qed.

Lemma queue_admit_ok l q out n lane q' r :
  limits_u64 l -> is_u64 n -> queue_ok l (q, out) -> queue_admit n lane q = (q', Ok r) ->
  queue_ok l (q', r :: out).
Proof.
  intros Hu [Hn0 _] Hok H. destruct (queue_ok_bounds _ _ Hok true) as [Hb3 Hb4].
  pose proof Hok as [Hl Hv Hi Hb Ht H1 H2 H3 H4]; simpl in *.
  destruct (normal_limit_le l Hu Hv) as [Hr Hnl].
  apply admit_ok in H as (Hn & Hm & Hit & Hby & Hno & -> & ->). rewrite Hl in *.
  split; simpl; try done.
  - by destruct lane.
  - intros lane'. rewrite lane_count_cons, <- Hi. simpl.
    destruct lane, lane'; simpl; lia.
  - intros lane'. rewrite lane_sum_cons, <- Hb. simpl. destruct lane, lane'; simpl; lia.
  - constructor; [simpl; split; [by destruct lane|lia]|].
    eapply Forall_impl; [exact Ht|]. simpl. by destruct lane.
  - destruct lane; simpl; [done|]. specialize (Hno eq_refl). lia.
  - destruct lane; simpl; lia.
  - destruct lane; simpl; lia.
  - destruct lane; simpl; lia.
Qed.

(** An outstanding reservation is always released. *)
Lemma queue_release_succeeds l q out1 r out2 :
  queue_ok l (q, out1 ++ r :: out2)%list ->
  release r q = (discharge q (encoded_bytes r) (control r), Ok tt).
Proof.
  intros [_ _ Hi Hb Ht _ _ _ _]. simpl in *.
  rewrite Forall_app, Forall_cons in Ht. destruct Ht as (Ht1 & [Ho Hp] & Ht2).
  assert (Hpos : Forall (fun r => 0 < encoded_bytes r) (out1 ++ out2)).
  { apply Forall_app. split; eapply Forall_impl; try eassumption; naive_solver. }
  apply release_ok_of; [done| |].
  - rewrite Hi, lane_count_middle, lane_count_cons, Bool.eqb_reflx.
    pose proof (lane_count_nonneg (control r) (out1 ++ out2)). lia.
  - rewrite Hb, lane_sum_middle, lane_sum_cons, Bool.eqb_reflx.
    pose proof (lane_sum_nonneg (control r) (out1 ++ out2) Hpos). lia.
Qed.

Lemma queue_release_ok l q out1 r out2 :
  queue_ok l (q, out1 ++ r :: out2)%list ->
  queue_ok l (discharge q (encoded_bytes r) (control r), out1 ++ out2)%list.
Proof.
  intros [Hl Hv Hi Hb Ht H1 H2 H3 H4]. simpl in *.
  rewrite Forall_app, Forall_cons in Ht. destruct Ht as (Ht1 & [Ho Hp] & Ht2).
  assert (Hi' : forall lane, lane_items (discharge q (encoded_bytes r) (control r)) lane
                             = lane_count lane (out1 ++ out2)).
  { intros lane. specialize (Hi lane). rewrite lane_count_middle, lane_count_cons in Hi.
    unfold lane_items in *. destruct (control r), lane; simpl in *; lia. }
  assert (Hb' : forall lane, lane_bytes (discharge q (encoded_bytes r) (control r)) lane
                             = lane_sum lane (out1 ++ out2)).
  { intros lane. specialize (Hb lane). rewrite lane_sum_middle, lane_sum_cons in Hb.
    unfold lane_bytes in *. destruct (control r), lane; simpl in *; lia. }
  split; simpl; try done; try (destruct (control r); simpl; (done || lia)).
  apply Forall_app. split; eapply Forall_impl; try eassumption; by destruct (control r).
Qed.

Lemma queue_reach_ok l s : limits_u64 l -> queue_reach l s -> queue_ok l s.
Proof.
  intros Hu. induction 1 as [q H|s s' _ IH Hstep].
  - unfold AdmissionQueue_new in H. apply rbind_ok in H as (l' & Hl & [= <-]).
    pose proof (limits_valid _ _ Hl) as (-> & V1 & V2 & V3 & V4 & V5 & V6 & _).
    destruct (normal_limit_le l Hu Hl) as [Hr Hnl]. destruct Hu as ([] & [] & [] & []).
    split; simpl; try done; try lia; by intros [].
  - destruct Hstep as [n lane q q' r out Hn H|n lane q q' e out H|q q' r res out1 out2 H].
    + by eapply queue_admit_ok.
    + by apply admit_err in H as ->.
    + pose proof (queue_release_succeeds l q out1 r out2 IH) as Hs. rewrite H in Hs.
      simplify_eq. by apply queue_release_ok.
Qed.

(** The admission queue's books balance: in every reachable state the item
    and byte counters of each lane are exactly those of the reservations
    outstanding, items and bytes stay within the configured bounds with the
    control share untouched by ordinary traffic, and releasing any
    outstanding reservation succeeds. *)
Theorem admission_queue_balanced (l : TransportLimits) (s : QueueRun) (Hu : limits_u64 l)
    (H : queue_reach l s) :
  queue_ok l s /\
  (forall out1 r out2, s.2 = (out1 ++ r :: out2)%list -> is_ok (release r s.1).2 = true).
Proof.
  pose proof (queue_reach_ok l s Hu H) as Hok. split; [done|]. intros out1 r out2 Hs.
  destruct s as [q out]; simpl in *; subst. by rewrite (queue_release_succeeds l q out1 r out2).
Qed.

(** Saturation never closes the control lane: in every reachable state,
    however much ordinary traffic is in flight, a control frame within the
    frame limit is admitted as long as the control lane itself is below its
    reserved items and stays within its reserved share of bytes. *)
Theorem control_lane_available (l : TransportLimits) (s : QueueRun) (n : Z) (Hu : limits_u64 l)
    (H : queue_reach l s) (Hn : 0 < n <= max_frame_bytes l)
    (Hitems : control_items s.1 < control_reserve l)
    (Hbytes : control_bytes s.1 + n <= control_reserve_bytes l) :
  exists q', queue_admit n true s.1
    = (q', Ok {| owner := identity s.1; encoded_bytes := n; control := true |}).
Proof.
  pose proof (queue_reach_ok l s Hu H) as Hok.
  destruct (queue_ok_bounds _ _ Hok false) as [Hb1 Hb2].
  destruct (queue_ok_bounds _ _ Hok true) as [Hb3 Hb4].
  destruct Hok as [Hl Hv _ _ _ H1 H2 H3 H4]. destruct (normal_limit_le l Hu Hv) as [Hr Hnl].
  destruct Hu as ([] & [] & [] & []). unfold lane_items, lane_bytes in *. simpl in *.
  eexists. unfold queue_admit. unfold_monad. rewrite Hl. unfold checked_add.
  rewrite (proj2 (Z.eqb_neq n 0)) by lia. rewrite (proj2 (Z.ltb_ge _ n)) by lia.
  repeat rewrite (proj2 (Z.leb_le _ u64_max)) by lia.
  rewrite (proj2 (Z.ltb_ge _ _)) by lia. rewrite (proj2 (Z.leb_gt _ _)) by lia. done.
Qed.

(** Every queue has the same identity, so a queue takes back a reservation
    that another queue issued; its own reservation is then refused. *)
Definition sample_queue : AdmissionQueue :=
  {| limits := TransportLimits_default; identity := 1; normal_items := 0; control_items := 0;
     normal_bytes := 0; control_bytes := 0 |}.

(** Reservations are not bound to their queue: two queues created alike
    each admit one frame, the second queue takes back the reservation of the
    first, and is left with no items, fifty bytes that nothing can release
    and its own reservation refused. *)
Theorem foreign_reservation_accepted :
  AdmissionQueue_new TransportLimits_default = Ok sample_queue /\
  exists q1 r1 q2 r2 q3,
    queue_admit 50 false sample_queue = (q1, Ok r1) /\ queue_admit 100 false sample_queue = (q2, Ok r2) /\
    release r1 q2 = (q3, Ok tt) /\ usage q3 = (0, 50) /\ release r2 q3 = (q3, Err Backpressure).
Proof.
  split; [vm_compute; reflexivity|].
  exists (charge sample_queue 50 false), {| owner := 1; encoded_bytes := 50; control := false |},
    (charge sample_queue 100 false), {| owner := 1; encoded_bytes := 100; control := false |},
    (discharge (charge sample_queue 100 false) 50 false).
  split_and!; vm_compute; reflexivity.
Qed.

Lemma default_limits_u64 : limits_u64 TransportLimits_default.
Proof. repeat split; vm_compute; discriminate. Qed.

Lemma sample_queue_reach : queue_reach TransportLimits_default (sample_queue, []).
Proof. constructor. vm_compute. reflexivity. Qed.

Definition sample_reservation : QueueReservation :=
  {| owner := 1; encoded_bytes := 100; control := false |}.

Lemma sample_charged_reach :
  queue_reach TransportLimits_default (charge sample_queue 100 false, [sample_reservation]).
Proof.
  eapply queue_reach_step; [apply sample_queue_reach|].
  apply (step_admit 100 false); [split; vm_compute; discriminate|vm_compute; reflexivity].
Qed.

Lemma admission_queue_balanced_witness :
  is_ok (release sample_reservation (charge sample_queue 100 false)).2 = true.
Proof.
  exact (proj2 (admission_queue_balanced TransportLimits_default
    (charge sample_queue 100 false, [sample_reservation]) default_limits_u64 sample_charged_reach)
    [] sample_reservation [] eq_refl).
Defined.

Lemma control_lane_available_witness :
  exists q', queue_admit 1000 true (charge sample_queue 100 false)
    = (q', Ok {| owner := 1; encoded_bytes := 1000; control := true |}).
Proof.
  refine (control_lane_available TransportLimits_default
    (charge sample_queue 100 false, [sample_reservation]) 1000 default_limits_u64
    sample_charged_reach _ _ _); vm_compute; try split; congruence.
Defined.

(** ** The order of bound identities *)

(** A comparison that is a total preorder. *)
Class TotalCmp {A} (c : A -> A -> comparison) : Prop := {
  cmp_antisym : forall a b, c b a = CompOpp (c a b);
  cmp_trans : forall a b d, c a b <> Gt -> c b d <> Gt -> c a d <> Gt;
}.

#[local] Instance Z_compare_total : TotalCmp Z.compare.
Proof.
  split; [intros; apply Z.compare_antisym|]. intros a b d. rewrite !Z.compare_ngt_iff. lia.
Qed.

#[local] Instance String_compare_total : TotalCmp String.compare.
Proof.
  split; [intros; apply String.compare_antisym|].
  assert (Hle : forall s t, String.compare s t <> Gt <-> String.le s t).
  { intros s t. unfold String.le, String.leb. destruct (String.compare s t); done. }
  intros a b d. rewrite !Hle. apply transitivity.
Qed.

#[local] Instance option_cmp_total : TotalCmp option_cmp.
Proof.
  split.
  - intros [a|] [b|]; simpl; try done. apply Z.compare_antisym.
  - intros [a|] [b|] [d|]; simpl; try done. rewrite !Z.compare_ngt_iff. lia.
Qed.

#[local] Instance compare_on_total {A B} (p : A -> B) (c : B -> B -> comparison) `{!TotalCmp c} :
  TotalCmp (fun a b => c (p a) (p b)).
Proof. split; intros; [apply cmp_antisym|]. by eapply (cmp_trans (c := c)). Qed.

#[local] Instance then_with_total {A} (c d : A -> A -> comparison) `{!TotalCmp c, !TotalCmp d} :
  TotalCmp (fun a b => then_with (c a b) (d a b)).
Proof.
  split.
  - intros a b. rewrite (cmp_antisym (c := c) a b), (cmp_antisym (c := d) a b).
    by destruct (c a b).
  - intros x y z.
    pose proof (cmp_antisym (c := c) x y). pose proof (cmp_antisym (c := c) y z).
    pose proof (cmp_antisym (c := c) x z).
    pose proof (cmp_trans (c := c) x y z). pose proof (cmp_trans (c := c) z x y).
    pose proof (cmp_trans (c := c) y z x). pose proof (cmp_trans (c := d) x y z).
    destruct (c x y), (c y z), (c x z); simpl in *; intuition congruence.
Qed.

Lemma then_with_eq c d : then_with c d = Eq <-> c = Eq /\ d = Eq.
Proof. destruct c; simpl; naive_solver. Qed.

Lemma string_compare_eq a b : String.compare a b = Eq <-> a = b.
Proof.
  split; [apply String.compare_eq_iff|]. intros ->.
  pose proof (String.compare_antisym b b). by destruct (String.compare b b).
Qed.

Lemma option_cmp_eq a b : option_cmp a b = Eq <-> a = b.
Proof. destruct a, b; simpl; rewrite ?Z.compare_eq_iff; naive_solver. Qed.

Lemma state_rank_inj s t :
  module_generation_state_rank s = module_generation_state_rank t -> s = t.
Proof. by destruct s, t. Qed.

Lemma health_rank_inj s t : health_dimension_rank s = health_dimension_rank t -> s = t.
Proof. by destruct s, t. Qed.

Section BoundOrderLaws.
Context (digest : EpochId -> option string).

#[local] Instance module_generation_total : TotalCmp (compare_module_generation digest).
Proof.
  unfold compare_module_generation.
  repeat (apply then_with_total; [apply (compare_on_total _ _)|]); apply (compare_on_total _ _).
Qed.

Lemma bound_cmp_total : TotalCmp (BoundIdentity_cmp digest).
Proof.
  unfold BoundIdentity_cmp.
  repeat (apply then_with_total; [apply (compare_on_total _ _)|]); apply (compare_on_total _ _).
Qed.

Lemma bound_cmp_eq a b : BoundIdentity_cmp digest a b = Eq <-> ord_key digest a = ord_key digest b.
Proof.
  unfold BoundIdentity_cmp, compare_module_generation, ord_key.
  rewrite !then_with_eq, !string_compare_eq, !Z.compare_eq_iff, !option_cmp_eq.
  split; [intros; destruct_and!; congruence|]. intros H. simplify_eq. naive_solver.
Qed.
End BoundOrderLaws.

(** The order that keys bound registries is a total order on identities:
    reversing the arguments reverses the answer, it is transitive, and two
    identities compare equal exactly when every field the order reads is
    equal, which, when distinct epochs have distinct digests, means that they
    are the same identity. *)
Theorem bound_identity_order_total (digest : EpochId -> option string) (a b d : BoundIdentity) :
  BoundIdentity_cmp digest b a = CompOpp (BoundIdentity_cmp digest a b) /\
  (BoundIdentity_cmp digest a b <> Gt -> BoundIdentity_cmp digest b d <> Gt ->
   BoundIdentity_cmp digest a d <> Gt) /\
  (BoundIdentity_cmp digest a b = Eq <-> ord_key digest a = ord_key digest b) /\
  ((forall e e', epoch_digest_key digest e = epoch_digest_key digest e' -> e = e') ->
   (BoundIdentity_cmp digest a b = Eq <-> a = b)).
Proof.
  destruct (bound_cmp_total digest) as [Ha Ht]. split_and!.
  - apply Ha.
  - apply Ht.
  - apply bound_cmp_eq.
  - intros Hinj. rewrite bound_cmp_eq. split; [|by intros ->].
    destruct a as [s [m g ar st [] [e rg tr pr ir]] i], b as [s' [m' g' ar' st' [] [e' rg' tr' pr' ir']] i'].
    unfold ord_key; simpl. intros H.
    injection H as -> -> -> -> Hst H1 H2 H3 H4 H5 H6 He -> -> -> -> ->.
    apply state_rank_inj in Hst. apply health_rank_inj in H1, H2, H3, H4, H5, H6. apply Hinj in He.
    by subst.
Qed.

(** ** The cancellation registry *)

Inductive CancelCall : Type :=
| CallRegister (id : string)
| CallCancel (id : string)
| CallReap (id : string)
| CallCancelStable (id : string)
| CallExpire (id : string)
| CallRegisterBound (b : BoundIdentity) (fingerprint : string)
| CallCancelBound (b : BoundIdentity)
| CallExpireBound (b : BoundIdentity)
| CallReapBound (b : BoundIdentity).

(** The states a recorded state may still become. *)
Definition state_advances (s t : CancellationState) : Prop :=
  match s, t with
  | CActive, _ => True
  | CCancelled, (CCancelled | CReaped) => True
  | CExpired, (CExpired | CReaped) => True
  | CReaped, CReaped => True
  | _, _ => False
  end.

#[local] Instance state_advances_preorder : PreOrder state_advances.
Proof. split; [by intros []|]. by intros [] [] []. Qed.

(** A registry seen later. *)
Record registry_extends (r r' : CancellationRegistry) : Prop := {
  rx_capacity : cancel_capacity r' = cancel_capacity r;
  rx_entries : forall id s, cancel_entries r !! id = Some s ->
    exists t, cancel_entries r' !! id = Some t /\ state_advances s t;
  rx_bound : forall k fp s, cancel_bound_entries r !! k = Some (fp, s) ->
    exists t, cancel_bound_entries r' !! k = Some (fp, t) /\ state_advances s t;
}.

#[local] Instance registry_extends_preorder : PreOrder registry_extends.
Proof.
  split.
  - intros r. split; [done|..]; intros; eexists; (split; [done|reflexivity]).
  - intros r1 r2 r3 [c1 e1 b1] [c2 e2 b2]. split; [congruence|..].
    + intros id s (t & Ht & Hs)%e1. apply e2 in Ht as (u & Hu & Htu). exists u. split; [done|]. by etrans.
    + intros k fp s (t & Ht & Hs)%b1. apply b2 in Ht as (u & Hu & Htu). exists u. split; [done|]. by etrans.
Qed.

Definition registry_bounded (r : CancellationRegistry) : Prop :=
  Z.of_nat (size (cancel_entries r)) <= effective_capacity r /\
  Z.of_nat (size (cancel_bound_entries r)) <= effective_capacity r.

Section CancellationLaws.
Context (digest : EpochId -> option string).

Definition cancel_call (a : CancelCall) (r : CancellationRegistry) : CancellationRegistry :=
  match a with
  | CallRegister id => (register id r).1
  | CallCancel id => (cancel id r).1
  | CallReap id => (reap id r).1
  | CallCancelStable id => (cancel_stable id r).1
  | CallExpire id => (expire_request id r).1
  | CallRegisterBound b fp => (register_bound digest b fp r).1
  | CallCancelBound b => (cancel_bound digest b r).1
  | CallExpireBound b => (expire_bound digest b r).1
  | CallReapBound b => (reap_bound digest b r).1
  end.

(** Each call leaves the registry, adds an active entry where there was none
    and there is room, or advances one entry. *)
Inductive registry_change (r : CancellationRegistry) : CancellationRegistry -> Prop :=
| change_none : registry_change r r
| change_new id :
    cancel_entries r !! id = None ->
    Z.of_nat (size (cancel_entries r)) < effective_capacity r ->
    registry_change r (set_entry id CActive r)
| change_entry id s t :
    cancel_entries r !! id = Some s -> state_advances s t ->
    registry_change r (set_entry id t r)
| change_bound_new k fp :
    cancel_bound_entries r !! k = None ->
    Z.of_nat (size (cancel_bound_entries r)) < effective_capacity r ->
    registry_change r (set_bound_entry k (fp, CActive) r)
| change_bound_entry k fp s t :
    cancel_bound_entries r !! k = Some (fp, s) -> state_advances s t ->
    registry_change r (set_bound_entry k (fp, t) r).

Lemma cancel_call_change a r : registry_change r (cancel_call a r).
Proof.
  destruct a; simpl;
    unfold register, cancel, reap, cancel_stable, expire_request, register_bound, cancel_bound,
      expire_bound, reap_bound; unfold_monad;
    repeat match goal with
    | |- context [match ?x with _ => _ end] =>
        lazymatch x with context [match _ with _ => _ end] => fail | _ => destruct x eqn:? end
    end; simpl; try apply change_none;
    try (eapply change_entry; [eassumption|done]);
    try (eapply change_bound_entry; [eassumption|done]).
  - apply change_new; [done|]. simpl in *. lia.
  - apply change_bound_new; [done|]. lia.
Qed.

Lemma change_extends r r' : registry_change r r' -> registry_extends r r'.
Proof.
  destruct 1 as [|id H _|id s t H Hst|k fp H _|k fp s t H Hst]; [reflexivity|..];
    (split; [done|..]); simpl; intros; try (eexists; split; [done|reflexivity]).
  - exists s. rewrite lookup_insert_ne by congruence. split; [done|reflexivity].
  - destruct (decide (id0 = id)) as [->|Hne].
    + exists t. rewrite lookup_insert_eq. by simplify_eq.
    + exists s0. rewrite lookup_insert_ne by done. split; [done|reflexivity].
  - exists s. rewrite lookup_insert_ne by congruence. split; [done|reflexivity].
  - destruct (decide (k0 = k)) as [->|Hne].
    + exists t. rewrite lookup_insert_eq. by simplify_eq.
    + exists s0. rewrite lookup_insert_ne by done. split; [done|reflexivity].
Qed.

Lemma change_bounded r r' : registry_bounded r -> registry_change r r' -> registry_bounded r'.
Proof.
  intros [H1 H2]. unfold registry_bounded.
  destruct 1 as [|id H Hc|id s t H Hst|k fp H Hc|k fp s t H Hst]; simpl; try done;
    unfold effective_capacity in *; simpl.
  - rewrite map_size_insert_None by done. split; lia.
  - rewrite map_size_insert_Some by eauto. done.
  - rewrite map_size_insert_None by done. split; lia.
  - rewrite map_size_insert_Some by eauto. done.
Qed.

Lemma calls_ind (P : CancellationRegistry -> Prop) calls r :
  (forall a r, P r -> P (cancel_call a r)) -> P r ->
  P (fold_left (fun r a => cancel_call a r) calls r).
Proof. intros Hs. revert r. induction calls as [|a calls IH]; simpl; auto. Qed.

(** In the cancellation registry the first terminal state wins for good:
    from any bounded registry, whatever calls follow in whatever order, both
    maps stay within the capacity, no entry is ever removed, a fingerprint
    never changes, and a recorded state only advances from active to
    cancelled or expired and from there to reaped. *)
Theorem cancellation_first_terminal_wins (calls : list CancelCall) (r : CancellationRegistry)
    (H : registry_bounded r) :
  let r' := fold_left (fun r a => cancel_call a r) calls r in
  registry_bounded r' /\ registry_extends r r'.
Proof.
  apply (calls_ind (fun r' => registry_bounded r' /\ registry_extends r r')).
  - intros a r1 [Hb He]. pose proof (cancel_call_change a r1) as Hc.
    split; [by eapply change_bounded|]. etrans; [done|by apply change_extends].
  - split; [done|reflexivity].
Qed.

(** Reaping frees nothing: a full registry refuses every new identity, and
    goes on refusing it whatever calls follow, reaping included. *)
Theorem full_registry_stays_full (calls : list CancelCall) (r : CancellationRegistry) (id : string)
    (Hfull : effective_capacity r <= Z.of_nat (size (cancel_entries r)))
    (Hnew : cancel_entries r !! id = None) (Hid : is_blank id = false) (Hb : registry_bounded r) :
  let r' := fold_left (fun r a => cancel_call a r) calls r in
  register id r' = (r', Err TransportRegistryFull).
Proof.
  cbv zeta. set (P := fun r' => registry_bounded r' /\ effective_capacity r' = effective_capacity r /\
    dom (cancel_entries r') = dom (cancel_entries r)).
  assert (HP : P (fold_left (fun r a => cancel_call a r) calls r)).
  { apply calls_ind; [|by split_and!]. intros a r0 (Hb0 & Hcap & Hdom).
    pose proof (cancel_call_change a r0) as Hc.
    assert (Hsz : size (cancel_entries r0) = size (cancel_entries r))
      by (by rewrite <- !size_dom, Hdom).
    split; [by eapply change_bounded|].
    destruct Hc as [|i Hi Hlt|i s t Hi| |]; simpl; try done; try lia.
    split; [done|]. rewrite dom_insert_lookup_L; [done|eauto]. }
  destruct HP as (_ & Hcap & Hdom). set (r' := fold_left _ _ _) in *.
  assert (Hn : cancel_entries r' !! id = None)
    by (apply not_elem_of_dom; rewrite Hdom; by apply not_elem_of_dom).
  assert (Hs : size (cancel_entries r') = size (cancel_entries r)) by (by rewrite <- !size_dom, Hdom).
  unfold register. unfold_monad. rewrite Hid, Hn. simpl. rewrite Hcap, Hs.
  rewrite (proj2 (Z.leb_le _ _)) by done. done.
Qed.
End CancellationLaws.

Definition no_digest (_ : EpochId) : option string := None.

Lemma cancellation_first_terminal_wins_witness :
  registry_bounded (fold_left (fun r a => cancel_call no_digest a r)
    [CallRegister "a"; CallExpire "a"; CallCancelStable "a"; CallReap "a"]
    CancellationRegistry_default).
Proof.
  exact (proj1 (cancellation_first_terminal_wins no_digest
    [CallRegister "a"; CallExpire "a"; CallCancelStable "a"; CallReap "a"]
    CancellationRegistry_default
    ltac:(split; vm_compute; discriminate))).
Defined.

(** One registered, cancelled and reaped request fills a registry of one. *)
Lemma full_registry_stays_full_witness :
  let r := fold_left (fun r a => cancel_call no_digest a r) [CallCancel "a"; CallReap "a"]
    {| cancel_entries := {["a" := CActive]}; cancel_bound_entries := ∅; cancel_capacity := 1 |} in
  cancel_entries r !! "a" = Some CReaped /\ register "b" r = (r, Err TransportRegistryFull).
Proof.
  split; [vm_compute; reflexivity|].
  apply (full_registry_stays_full no_digest [CallCancel "a"; CallReap "a"]).
  - vm_compute. discriminate.
  - vm_compute. reflexivity.
  - vm_compute. reflexivity.
  - split; vm_compute; discriminate.
Defined.

(** ** The replay ledger *)

Section ReplayBound.
Context {F : Type} `{EqDecision F} (digest : EpochId -> option string).

Definition replay_bounded (l : TransportReplayLedger (F := F)) : Prop :=
  Z.of_nat (size (replay_entries l)) <= replay_capacity l /\
  Z.of_nat (size (replay_bound_entries l)) <= replay_capacity l.

(** An observation keeps the bound, keeps every recorded frame, and reports a
    duplicate or a conflict by comparing with the frame recorded first. *)
Lemma replay_observe_sound id f l :
  replay_bounded l ->
  replay_bounded (replay_observe id f l).1 /\
  replay_entries l ⊆ replay_entries (replay_observe id f l).1 /\
  (forall g, replay_entries l !! id = Some g ->
     replay_observe id f l = (l, Ok (if bool_decide (g = f) then ReplayDuplicate
                                     else ReplayConflicting))).
Proof.
  intros [H1 H2]. unfold replay_observe, replay_bounded in *. unfold_monad.
  destruct (replay_entries l !! id) as [g|] eqn:E; simpl.
  - split_and!; [done..|]. by intros ? [= ->].
  - destruct (Z.leb_spec (replay_capacity l) (Z.of_nat (size (replay_entries l)))); simpl.
    + by split_and!.
    + rewrite map_size_insert_None by done. split_and!; [lia|done|by apply insert_subseteq|done].
Qed.
End ReplayBound.

(** ** Endpoint boundaries *)

Inductive BoundaryCall : Type := BBegin | BComplete | BFail.

(** A refused start leaves the state. *)
Definition boundary_call (s : ConnectionBoundaryState) (a : BoundaryCall)
    : ConnectionBoundaryState :=
  match a with
  | BBegin => match begin_transfer s with Ok s' => s' | Err _ => s end
  | BComplete => complete_transfer s
  | BFail => fail_transfer s
  end.

(** A poisoned endpoint stays poisoned, and a transfer whose completion is
    never reported blocks every later one. *)
Lemma boundary_poison_sticky calls :
  fold_left boundary_call calls Unusable = Unusable /\
  permits_io (fold_left boundary_call calls Unusable) = false /\
  (BComplete ∉ calls -> begin_transfer (fold_left boundary_call (BBegin :: calls) Usable)
                        = Err UnknownOutcome).
Proof.
  assert (H : forall calls, fold_left boundary_call calls Unusable = Unusable)
    by (intros cs; induction cs as [|[] cs IH]; done).
  rewrite H. split_and!; [done|done|]. simpl.
  induction calls as [|[] cs IH]; intros Hn; simpl; [done| |set_solver|by rewrite H].
  apply IH. set_solver.
Qed.
