(* ===== verification/Mailbox.v ===== *)
(** The bounded two-lane mailbox of src/crates/kernel/eliot-runtime/src/lib.rs.

    A mailbox is two bounded channels, one for data and one for control
    signals, whose receiver alternates between them with a fairness quantum.
    The channels are tokio's [mpsc], which is not part of the repository: they
    are the class [Mpsc], its documented behaviour the class [MpscLaws], and
    the theorems hold for every implementation of it. [queue_mpsc] is one.

    The sending and the receiving half share the channels, so a [Mailbox]
    holds both; an [async] method is its poll. *)

From S2P Require Import Prelude.

(** ** Channels *)

(** The outcome of polling a future once. *)
Inductive Poll (A : Type) : Type :=
| Ready (a : A)
| Pending.

Arguments Ready {A} _.
Arguments Pending {A}.

Inductive TrySend : Type := Sent | Full | Disconnected.

#[global] Instance TrySend_eq_dec : EqDecision TrySend.
Proof. solve_decision. Defined.

(** [tokio::sync::mpsc] with a bound: [try_send], a poll of [send] and of
    [recv], and the end of the last sender and of the receiver. *)
Class Mpsc (Chan : Type -> Type) : Type := {
  channel {T : Type} : Z -> Chan T;
  chan_try_send {T : Type} : T -> Chan T -> Chan T * TrySend;
  chan_poll_send {T : Type} : T -> Chan T -> Chan T * Poll (result unit unit);
  chan_poll_recv {T : Type} : Chan T -> Chan T * Poll (option T);
  chan_drop_senders {T : Type} : Chan T -> Chan T;
  chan_drop_receiver {T : Type} : Chan T -> Chan T;
  (** What the documentation speaks of: the buffered items, the bound, and
      whether a sender and the receiver are alive. *)
  items {T : Type} : Chan T -> list T;
  capacity {T : Type} : Chan T -> Z;
  senders {T : Type} : Chan T -> bool;
  receiver {T : Type} : Chan T -> bool;
}.

(** A channel whose observable parts are these. *)
Definition chan_is `{Mpsc Chan} {T} (c : Chan T) (l : list T) (n : Z) (tx rx : bool) : Prop :=
  items c = l /\ capacity c = n /\ senders c = tx /\ receiver c = rx.

Class MpscLaws (Chan : Type -> Type) `{Mpsc Chan} : Prop := {
  channel_spec T n : 0 < n -> chan_is (@channel Chan _ T n) [] n true true;
  try_send_closed T (x : T) c :
    receiver c = false -> chan_try_send x c = (c, Disconnected);
  try_send_full T (x : T) c :
    receiver c = true -> capacity c <= usize_of_len (items c) ->
    chan_try_send x c = (c, Full);
  try_send_sent T (x : T) c :
    receiver c = true -> usize_of_len (items c) < capacity c ->
    exists c', chan_try_send x c = (c', Sent) /\
      chan_is c' (items c ++ [x]) (capacity c) (senders c) true;
  poll_send_spec T (x : T) c :
    chan_poll_send x c =
      match chan_try_send x c with
      | (c', Sent) => (c', Ready (Ok tt))
      | (_, Full) => (c, Pending)
      | (_, Disconnected) => (c, Ready (Err tt))
      end;
  poll_recv_item T (x : T) l c :
    items c = x :: l ->
    exists c', chan_poll_recv c = (c', Ready (Some x)) /\
      chan_is c' l (capacity c) (senders c) (receiver c);
  poll_recv_empty T (c : Chan T) :
    items c = [] -> chan_poll_recv c = (c, if senders c then Pending else Ready None);
  drop_senders_spec T (c : Chan T) :
    chan_is (chan_drop_senders c) (items c) (capacity c) false (receiver c);
  drop_receiver_spec T (c : Chan T) :
    chan_is (chan_drop_receiver c) [] (capacity c) (senders c) false;
}.

(** ** Data *)

Inductive ControlSignal : Type := Cancel | Shutdown.

Inductive MailboxItem (T : Type) : Type :=
| Data (x : T)
| Control (s : ControlSignal).

Arguments Data {T} _.
Arguments Control {T} _.

Inductive SendResult : Type := Accepted | Saturated | Closed.

Inductive Lane : Type := DataLane | ControlLane.

Inductive ConfigError : Type := ZeroCapacity | ZeroDuration.

#[global] Instance ControlSignal_eq_dec : EqDecision ControlSignal.
Proof. solve_decision. Defined.
#[global] Instance Lane_eq_dec : EqDecision Lane.
Proof. solve_decision. Defined.
#[global] Instance SendResult_eq_dec : EqDecision SendResult.
Proof. solve_decision. Defined.
#[global] Instance ConfigError_eq_dec : EqDecision ConfigError.
Proof. solve_decision. Defined.
#[global] Instance MailboxItem_eq_dec `{EqDecision T} : EqDecision (MailboxItem T).
Proof. solve_decision. Defined.

(** [Mailbox] and [MailboxReceiver] over their common channels. *)
Record Mailbox (Chan : Type -> Type) (T : Type) : Type := {
  data : Chan T;
  control : Chan ControlSignal;
  preferred : Lane;
  last : option Lane;
  streak : Z;
  fairness_quantum : Z;
  data_closed : bool;
  control_closed : bool;
}.

Arguments data {Chan T} _.
Arguments control {Chan T} _.
Arguments preferred {Chan T} _.
Arguments last {Chan T} _.
Arguments streak {Chan T} _.
Arguments fairness_quantum {Chan T} _.
Arguments data_closed {Chan T} _.
Arguments control_closed {Chan T} _.

Section Operations.
Context {Chan : Type -> Type} `{Mpsc Chan} {T : Type}.

Implicit Type m : Mailbox Chan T.

Definition set_data (c : Chan T) m : Mailbox Chan T :=
  {| data := c; control := control m; preferred := preferred m; last := last m;
     streak := streak m; fairness_quantum := fairness_quantum m;
     data_closed := data_closed m; control_closed := control_closed m |}.

Definition set_control (c : Chan ControlSignal) m : Mailbox Chan T :=
  {| data := data m; control := c; preferred := preferred m; last := last m;
     streak := streak m; fairness_quantum := fairness_quantum m;
     data_closed := data_closed m; control_closed := control_closed m |}.

Definition set_data_closed m : Mailbox Chan T :=
  {| data := data m; control := control m; preferred := preferred m; last := last m;
     streak := streak m; fairness_quantum := fairness_quantum m;
     data_closed := true; control_closed := control_closed m |}.

Definition set_control_closed m : Mailbox Chan T :=
  {| data := data m; control := control m; preferred := preferred m; last := last m;
     streak := streak m; fairness_quantum := fairness_quantum m;
     data_closed := data_closed m; control_closed := true |}.

Definition bounded (data_capacity control_reserve quantum : Z)
    : result ConfigError (Mailbox Chan T) :=
  check? guard_err ((data_capacity =? 0) || (control_reserve =? 0) || (quantum =? 0)) ZeroCapacity;
  Ok {| data := channel data_capacity; control := channel control_reserve;
        preferred := ControlLane; last := None; streak := 0; fairness_quantum := quantum;
        data_closed := false; control_closed := false |}.

(** The answer to a [try_send]. *)
Definition send_result (r : TrySend) : SendResult :=
  match r with
  | Sent => Accepted
  | Full => Saturated
  | Disconnected => Closed
  end.

Definition try_send (item : T) m : Mailbox Chan T * SendResult :=
  let '(c, r) := chan_try_send item (data m) in (set_data c m, send_result r).

Definition try_send_control (signal : ControlSignal) m : Mailbox Chan T * SendResult :=
  let '(c, r) := chan_try_send signal (control m) in (set_control c m, send_result r).

(** The answer to a [send(..).await]. *)
Definition awaited (p : Poll (result unit unit)) : Poll SendResult :=
  match p with
  | Ready (Ok tt) => Ready Accepted
  | Ready (Err _) => Ready Closed
  | Pending => Pending
  end.

Definition send (item : T) m : Mailbox Chan T * Poll SendResult :=
  let '(c, p) := chan_poll_send item (data m) in (set_data c m, awaited p).

Definition send_control (signal : ControlSignal) m : Mailbox Chan T * Poll SendResult :=
  let '(c, p) := chan_poll_send signal (control m) in (set_control c m, awaited p).

Definition other_lane (l : Lane) : Lane :=
  match l with
  | DataLane => ControlLane
  | ControlLane => DataLane
  end.

Definition record (lane : Lane) m : Mailbox Chan T :=
  let streak' := if last m == Some lane then streak m + 1 else 1 in
  {| data := data m; control := control m;
     preferred := if fairness_quantum m <=? streak' then other_lane lane else lane;
     last := Some lane; streak := streak'; fairness_quantum := fairness_quantum m;
     data_closed := data_closed m; control_closed := control_closed m |}.

Definition data_item (item : option T) m : Mailbox Chan T * option (MailboxItem T) :=
  match item with
  | Some x => (record DataLane m, Some (Data x))
  | None => (set_data_closed m, None)
  end.

Definition control_item (item : option ControlSignal) m
    : Mailbox Chan T * option (MailboxItem T) :=
  match item with
  | Some s => (record ControlLane m, Some (Control s))
  | None => (set_control_closed m, None)
  end.

(** One branch of the [select!]: disabled by its guard, pending, or ready. *)
Definition poll_lane (lane : Lane) m : Mailbox Chan T * Poll (option (MailboxItem T)) :=
  match lane with
  | DataLane =>
      if data_closed m then (m, Pending)
      else match chan_poll_recv (data m) with
           | (c, Ready v) => let '(m', item) := data_item v (set_data c m) in (m', Ready item)
           | (c, Pending) => (set_data c m, Pending)
           end
  | ControlLane =>
      if control_closed m then (m, Pending)
      else match chan_poll_recv (control m) with
           | (c, Ready v) => let '(m', item) := control_item v (set_control c m) in (m', Ready item)
           | (c, Pending) => (set_control c m, Pending)
           end
  end.

(** The biased [select!]: the preferred branch first, then the other. *)
Definition select_biased m : Mailbox Chan T * Poll (option (MailboxItem T)) :=
  match poll_lane (preferred m) m with
  | (m', Ready item) => (m', Ready item)
  | (m', Pending) => poll_lane (other_lane (preferred m)) m'
  end.

(** The loop of [recv]: an inner [None] only marks a lane closed, so three
    rounds are enough. [Ready None] is the end of the mailbox. *)
Fixpoint recv_rounds (fuel : nat) m : option (Mailbox Chan T * Poll (option (MailboxItem T))) :=
  match fuel with
  | O => None
  | S fuel =>
      if data_closed m && control_closed m then Some (m, Ready None)
      else match select_biased m with
           | (m', Pending) => Some (m', Pending)
           | (m', Ready (Some item)) => Some (m', Ready (Some item))
           | (m', Ready None) => recv_rounds fuel m'
           end
  end.

Definition recv m : Mailbox Chan T * Poll (option (MailboxItem T)) :=
  match recv_rounds 3 m with
  | Some r => r
  | None => (m, Pending)
  end.

(** ** Runs

    What the holders of the two halves can do, in any order. Sending needs a
    live sender, receiving the receiver. *)

Inductive MailboxCall : Type :=
| CallTrySend (x : T)
| CallTrySendControl (s : ControlSignal)
| CallSend (x : T)
| CallSendControl (s : ControlSignal)
| CallRecv
| CallDropSenders.

(** What a run has seen: items accepted on each lane, and items delivered. *)
Record Seen : Type := {
  accepted_data : list T;
  accepted_control : list ControlSignal;
  delivered : list (MailboxItem T);
}.

Definition seen_none : Seen :=
  {| accepted_data := []; accepted_control := []; delivered := [] |}.

Definition note_data (x : T) (ok : bool) (s : Seen) : Seen :=
  if ok then {| accepted_data := accepted_data s ++ [x]; accepted_control := accepted_control s;
                delivered := delivered s |}
  else s.

Definition note_control (x : ControlSignal) (ok : bool) (s : Seen) : Seen :=
  if ok then {| accepted_data := accepted_data s; accepted_control := accepted_control s ++ [x];
                delivered := delivered s |}
  else s.

Definition note_item (r : Poll (option (MailboxItem T))) (s : Seen) : Seen :=
  match r with
  | Ready (Some i) => {| accepted_data := accepted_data s; accepted_control := accepted_control s;
                         delivered := delivered s ++ [i] |}
  | _ => s
  end.

Definition was_accepted (p : Poll SendResult) : bool :=
  match p with
  | Ready r => r == Accepted
  | Pending => false
  end.

Definition drop_senders m : Mailbox Chan T :=
  set_control (chan_drop_senders (control m)) (set_data (chan_drop_senders (data m)) m).

Definition mailbox_call (a : MailboxCall) (s : Mailbox Chan T * Seen) : Mailbox Chan T * Seen :=
  let '(m, seen) := s in
  match a with
  | CallTrySend x =>
      if senders (data m) then
        let '(m', r) := try_send x m in (m', note_data x (r == Accepted) seen)
      else s
  | CallTrySendControl x =>
      if senders (control m) then
        let '(m', r) := try_send_control x m in (m', note_control x (r == Accepted) seen)
      else s
  | CallSend x =>
      if senders (data m) then
        let '(m', p) := send x m in (m', note_data x (was_accepted p) seen)
      else s
  | CallSendControl x =>
      if senders (control m) then
        let '(m', p) := send_control x m in (m', note_control x (was_accepted p) seen)
      else s
  | CallRecv => let '(m', r) := recv m in (m', note_item r seen)
  | CallDropSenders => (drop_senders m, seen)
  end.

Definition run_mailbox (calls : list MailboxCall) (s : Mailbox Chan T * Seen)
    : Mailbox Chan T * Seen :=
  fold_left (fun s a => mailbox_call a s) calls s.
End Operations.

Arguments MailboxCall : clear implicits.
Arguments Seen : clear implicits.
