(* ===== verification/MailboxLaws.v ===== *)
(** Laws of the mailbox: no item is lost, duplicated or reordered, both lanes
    stay within their bounds, and no lane waits longer than the fairness
    quantum allows. Proved against the interface [MpscLaws] of the channels. *)

From S2P Require Import Prelude Mailbox.

(** ** Views of a run *)

Definition data_of {T} (i : MailboxItem T) : option T :=
  match i with
  | Data x => Some x
  | Control _ => None
  end.

Definition control_of {T} (i : MailboxItem T) : option ControlSignal :=
  match i with
  | Data _ => None
  | Control s => Some s
  end.

Definition delivered_data {T} (s : Seen T) : list T := omap data_of (delivered s).
Definition delivered_control {T} (s : Seen T) : list ControlSignal := omap control_of (delivered s).

Section Laws.
Context {Chan : Type -> Type} `{HM : Mpsc Chan} {HL : MpscLaws Chan} {T : Type}.

Implicit Type m : Mailbox Chan T.

(** The lane the receiver turns to next, from the lane and the length of the
    latest run of one lane. *)
Definition next_lane (q : Z) (l : option Lane) (k : Z) : Lane :=
  match l with
  | None => ControlLane
  | Some l => if q <=? k then other_lane l else l
  end.

(** One lane: what was accepted is what was delivered and what is buffered. *)
Record lane_ok {A} (c : Chan A) (n : Z) (closed : bool) (acc del : list A) : Prop := {
  lane_flow : acc = (del ++ items c)%list;
  lane_bound : usize_of_len (items c) <= n;
  lane_capacity : capacity c = n;
  lane_receiver : receiver c = true;
  lane_closed : closed = true -> items c = [] /\ senders c = false;
}.

Record mailbox_ok (dc cc q : Z) (s : Mailbox Chan T * Seen T) : Prop := {
  ok_quantum : 0 < q /\ fairness_quantum s.1 = q;
  ok_data : lane_ok (data s.1) dc (data_closed s.1) (accepted_data s.2) (delivered_data s.2);
  ok_control :
    lane_ok (control s.1) cc (control_closed s.1) (accepted_control s.2) (delivered_control s.2);
  ok_senders : senders (data s.1) = senders (control s.1);
  ok_turn : preferred s.1 = next_lane q (last s.1) (streak s.1);
  ok_streak : last s.1 <> None -> 1 <= streak s.1;
}.

(** ** Receiving *)

(** The receiver's turn after an item of [lane]. *)
Definition turn_after (lane : Lane) m m' : Prop :=
  fairness_quantum m' = fairness_quantum m /\ last m' = Some lane /\
  streak m' = (if last m == Some lane then streak m + 1 else 1) /\
  preferred m' = next_lane (fairness_quantum m) (last m') (streak m').

(** A lane that did not deliver: untouched, or found empty and closed. *)
Definition lane_idle {A} (c c' : Chan A) (closed closed' : bool) : Prop :=
  c' = c /\ (closed' = closed \/ (closed' = true /\ items c = [] /\ senders c = false)).

Definition lane_delivers {A} (x : A) (c c' : Chan A) : Prop :=
  items c = x :: items c' /\ capacity c' = capacity c /\ senders c' = senders c /\
  receiver c' = receiver c.

Definition delivers_data (x : T) m m' : Prop :=
  lane_delivers x (data m) (data m') /\ data_closed m' = data_closed m /\
  lane_idle (control m) (control m') (control_closed m) (control_closed m') /\
  turn_after DataLane m m'.

Definition delivers_control (x : ControlSignal) m m' : Prop :=
  lane_delivers x (control m) (control m') /\ control_closed m' = control_closed m /\
  lane_idle (data m) (data m') (data_closed m) (data_closed m') /\ turn_after ControlLane m m'.

Definition idle_turn m m' : Prop :=
  fairness_quantum m' = fairness_quantum m /\ last m' = last m /\ streak m' = streak m /\
  preferred m' = preferred m.

(** What [recv] does, by what is buffered and whose turn it is. *)
Definition recv_reference m (r : Mailbox Chan T * Poll (option (MailboxItem T))) : Prop :=
  let '(m', p) := r in
  match items (data m), items (control m) with
  | [], [] =>
      p = (if senders (data m) then Pending else Ready None) /\ idle_turn m m' /\
      lane_idle (data m) (data m') (data_closed m) (data_closed m') /\
      lane_idle (control m) (control m') (control_closed m) (control_closed m')
  | x :: _, [] => p = Ready (Some (Data x)) /\ delivers_data x m m'
  | [], s :: _ => p = Ready (Some (Control s)) /\ delivers_control s m m'
  | x :: _, s :: _ =>
      match preferred m with
      | DataLane => p = Ready (Some (Data x)) /\ delivers_data x m m'
      | ControlLane => p = Ready (Some (Control s)) /\ delivers_control s m m'
      end
  end.

Lemma poll_data_item x l m :
  items (data m) = x :: l -> data_closed m = false ->
  exists c, poll_lane DataLane m = (record DataLane (set_data c m), Ready (Some (Data x))) /\
    chan_is c l (capacity (data m)) (senders (data m)) (receiver (data m)).
Proof.
  intros Hi Hc. destruct (poll_recv_item _ _ _ _ Hi) as (c & Hr & Hs).
  exists c. split; [|done]. simpl. by rewrite Hc, Hr.
Qed.

Lemma poll_control_item x l m :
  items (control m) = x :: l -> control_closed m = false ->
  exists c, poll_lane ControlLane m = (record ControlLane (set_control c m), Ready (Some (Control x))) /\
    chan_is c l (capacity (control m)) (senders (control m)) (receiver (control m)).
Proof.
  intros Hi Hc. destruct (poll_recv_item _ _ _ _ Hi) as (c & Hr & Hs).
  exists c. split; [|done]. simpl. by rewrite Hc, Hr.
Qed.

Lemma poll_data_empty m :
  items (data m) = [] ->
  poll_lane DataLane m =
    if data_closed m then (m, Pending)
    else if senders (data m) then (m, Pending) else (set_data_closed m, Ready None).
Proof.
  intros Hi. simpl. rewrite (poll_recv_empty _ _ Hi).
  destruct m; simpl in *. by repeat case_match; simplify_eq/=.
Qed.

Lemma poll_control_empty m :
  items (control m) = [] ->
  poll_lane ControlLane m =
    if control_closed m then (m, Pending)
    else if senders (control m) then (m, Pending) else (set_control_closed m, Ready None).
Proof.
  intros Hi. simpl. rewrite (poll_recv_empty _ _ Hi).
  destruct m; simpl in *. by repeat case_match; simplify_eq/=.
Qed.

Definition closed_empty m : Prop :=
  (data_closed m = true -> items (data m) = [] /\ senders (data m) = false) /\
  (control_closed m = true -> items (control m) = [] /\ senders (control m) = false) /\
  senders (data m) = senders (control m).

(** One poll on a mailbox whose buffers are known. *)
Ltac poll_step :=
  match goal with
  | E : items ?d = [] |- context [poll_lane DataLane ?m] => rewrite (poll_data_empty m) by exact E
  | E : items ?d = [] |- context [poll_lane ControlLane ?m] =>
      rewrite (poll_control_empty m) by exact E
  | E : items ?d = _ :: _ |- context [poll_lane DataLane ?m] =>
      destruct (poll_data_item _ _ m E eq_refl) as (? & -> & ? & ? & ? & ?)
  | E : items ?d = _ :: _ |- context [poll_lane ControlLane ?m] =>
      destruct (poll_control_item _ _ m E eq_refl) as (? & -> & ? & ? & ? & ?)
  end.

Ltac mailbox_cbn :=
  cbn [preferred other_lane data_closed control_closed andb data control
       set_data_closed set_control_closed].

Ltac poll_simpl :=
  mailbox_cbn;
  repeat match goal with E : senders ?d = _ |- context [senders ?d] => rewrite E end;
  mailbox_cbn.

Ltac poll_round := cbn [recv_rounds]; unfold select_biased; poll_simpl; repeat (poll_step; poll_simpl).

Lemma recv_rounds_spec m k :
  closed_empty m -> exists r, recv_rounds (S (S (S k))) m = Some r /\ recv_reference m r.
Proof.
  destruct m as [d c pf la st q dcl ccl]. intros (Hd & Hc & Hs); simpl in Hd, Hc, Hs.
  unfold recv_reference. cbn [data control preferred data_closed control_closed].
  destruct (senders d) eqn:Esd; symmetry in Hs;
    (destruct dcl; [destruct (Hd eq_refl) as [Ed ?]; try congruence; rewrite Ed|
                    destruct (items d) as [|x ld] eqn:Ed]);
    (destruct ccl; [destruct (Hc eq_refl) as [Ec ?]; try congruence; rewrite Ec|
                    destruct (items c) as [|s lc] eqn:Ec]); clear Hd Hc;
    destruct pf; poll_round;
    eexists; (split; [reflexivity|]);
    unfold delivers_data, delivers_control, lane_delivers, lane_idle, turn_after, idle_turn; simpl;
    split_and?; try congruence; auto; by case_bool_decide.
Qed.

Lemma recv_total m k : closed_empty m -> recv_rounds (S (S (S k))) m = Some (recv m).
Proof.
  intros Hm. destruct (recv_rounds_spec m 0 Hm) as ([m1 p1] & H1 & _).
  unfold recv. rewrite H1.
  revert m m1 p1 Hm H1. assert (Hmono : forall n m r, recv_rounds n m = Some r ->
    recv_rounds (n + k) m = Some r).
  { induction n as [|n IH]; intros m r H; [done|]. simpl in H |- *.
    repeat case_match; simplify_eq/=; auto. }
  intros m m1 p1 _ H. apply (Hmono 3%nat) in H. exact H.
Qed.

Lemma recv_spec m : closed_empty m -> recv_reference m (recv m).
Proof.
  intros Hm. destruct (recv_rounds_spec m 0 Hm) as (r & H & Hr).
  rewrite (recv_total m 0 Hm) in H. by simplify_eq.
Qed.

Lemma ok_closed dc cc q s : mailbox_ok dc cc q s -> closed_empty s.1.
Proof. intros []. split_and!; eauto using lane_closed. Qed.

(** ** The invariant *)

Lemma lane_try_send {A} (c c' : Chan A) n closed acc del x r :
  lane_ok c n closed acc del -> senders c = true -> chan_try_send x c = (c', r) ->
  lane_ok c' n closed (if r == Sent then acc ++ [x] else acc) del /\ senders c' = true.
Proof.
  intros [Hf Hb Hc Hr Hcl] Hs H.
  destruct (decide (usize_of_len (items c) < capacity c)).
  - destruct (try_send_sent _ x c Hr ltac:(lia)) as (c1 & H1 & Hi & Hcap & Hs1 & Hr1).
    rewrite H1 in H. simplify_eq/=. split; [|congruence]. split.
    + by rewrite Hi, (assoc_L (++)).
    + rewrite Hi. unfold usize_of_len in *. rewrite length_app. simpl. lia.
    + done.
    + done.
    + intros Hx. destruct (Hcl Hx) as [_ ?]. congruence.
  - rewrite try_send_full in H by (done || lia). by simplify_eq/=.
Qed.

Lemma lane_poll_send {A} (c c' : Chan A) n closed acc del x p :
  lane_ok c n closed acc del -> senders c = true -> chan_poll_send x c = (c', p) ->
  lane_ok c' n closed (if was_accepted (awaited p) then acc ++ [x] else acc) del /\
  senders c' = true.
Proof.
  intros Hok Hs H. rewrite poll_send_spec in H.
  destruct (chan_try_send x c) as [c1 r] eqn:E. eapply lane_try_send in E as [? ?]; [|done..].
  destruct r; simplify_eq/=; done.
Qed.

Lemma lane_take {A} (c c' : Chan A) n closed acc del x :
  lane_ok c n closed acc del -> lane_delivers x c c' -> lane_ok c' n closed acc (del ++ [x]).
Proof.
  intros [Hf Hb Hc Hr Hcl] (Hi & ? & ? & ?). split; try congruence.
  - by rewrite Hf, Hi, <- (assoc_L (++)).
  - rewrite Hi in Hb. unfold usize_of_len in *. simpl in Hb. lia.
  - intros Hx. destruct (Hcl Hx). congruence.
Qed.

Lemma lane_rest {A} (c c' : Chan A) n closed closed' acc del :
  lane_ok c n closed acc del -> lane_idle c c' closed closed' -> lane_ok c' n closed' acc del.
Proof. intros [Hf Hb Hc Hr Hcl] [-> [->|(? & ? & ?)]]; by split. Qed.

Lemma lane_drop_senders {A} (c : Chan A) n closed acc del :
  lane_ok c n closed acc del ->
  lane_ok (chan_drop_senders c) n closed acc del /\ senders (chan_drop_senders c) = false.
Proof.
  intros [Hf Hb Hc Hr Hcl]. destruct (drop_senders_spec A c) as (Hi & ? & ? & ?).
  split; [|done]. split; try congruence. intros Hx. destruct (Hcl Hx). split; congruence.
Qed.

Lemma omap_snoc {A B} (f : A -> option B) l x :
  omap f (l ++ [x]) = (omap f l ++ match f x with Some y => [y] | None => [] end)%list.
Proof. rewrite omap_app. simpl. by destruct (f x). Qed.

Lemma turn_ok lane m m' q :
  0 < q -> fairness_quantum m = q -> (last m <> None -> 1 <= streak m) -> turn_after lane m m' ->
  (0 < q /\ fairness_quantum m' = q) /\ preferred m' = next_lane q (last m') (streak m') /\
  (last m' <> None -> 1 <= streak m').
Proof.
  intros Hq Hm Hst (H1 & H2 & H3 & H4). rewrite H1, H4, Hm. split_and!; try done.
  intros _. rewrite H3. case_bool_decide as E; [|lia]. rewrite E in Hst. specialize (Hst ltac:(done)). lia.
Qed.

Lemma idle_ok dc cc q m m' seen :
  mailbox_ok dc cc q (m, seen) -> idle_turn m m' ->
  lane_idle (data m) (data m') (data_closed m) (data_closed m') ->
  lane_idle (control m) (control m') (control_closed m) (control_closed m') ->
  mailbox_ok dc cc q (m', seen).
Proof.
  intros [[Hq Hm] Hd Hc Hs Ht Hst] (H1 & H2 & H3 & H4) Hid Hic; simpl in *.
  split; simpl; rewrite ?H1, ?H2, ?H3, ?H4; try done.
  - by eapply lane_rest.
  - by eapply lane_rest.
  - by destruct Hid as [-> _], Hic as [-> _].
Qed.

Lemma recv_ok dc cc q m seen :
  mailbox_ok dc cc q (m, seen) -> mailbox_ok dc cc q ((recv m).1, note_item (recv m).2 seen).
Proof.
  intros Hok. pose proof (recv_spec m (ok_closed _ _ _ _ Hok)) as Hr.
  pose proof Hok as Hok0. destruct Hok as [[Hq Hm] Hd Hc Hs Ht Hst]; simpl in *.
  destruct (recv m) as [m' p]. unfold recv_reference in Hr. simpl fst. simpl snd.
  assert (HD : forall x, p = Ready (Some (Data x)) -> delivers_data x m m' ->
    mailbox_ok dc cc q (m', note_item p seen)).
  { intros x -> (Hx & Hcl & Hi & Hturn). eapply turn_ok in Hturn as (? & ? & ?); [|done..].
    split; simpl; try done.
    - unfold delivered_data; simpl. rewrite omap_snoc. simpl. rewrite Hcl. by eapply lane_take.
    - unfold delivered_control; simpl. rewrite omap_snoc. simpl. rewrite (right_id_L [] (++)). by eapply lane_rest.
    - destruct Hi as [-> _]. destruct Hx as (_ & _ & -> & _). done. }
  assert (HC : forall x, p = Ready (Some (Control x)) -> delivers_control x m m' ->
    mailbox_ok dc cc q (m', note_item p seen)).
  { intros x -> (Hx & Hcl & Hi & Hturn). eapply turn_ok in Hturn as (? & ? & ?); [|done..].
    split; simpl; try done.
    - unfold delivered_data; simpl. rewrite omap_snoc. simpl. rewrite (right_id_L [] (++)). by eapply lane_rest.
    - unfold delivered_control; simpl. rewrite omap_snoc. simpl. rewrite Hcl. by eapply lane_take.
    - destruct Hi as [-> _]. destruct Hx as (_ & _ & -> & _). done. }
  repeat case_match; destruct_and?; eauto; subst p; simpl; by eapply idle_ok.
Qed.

Lemma data_lane_ok dc cc q m seen c seen' :
  mailbox_ok dc cc q (m, seen) ->
  lane_ok c dc (data_closed m) (accepted_data seen') (delivered_data seen) ->
  senders c = senders (data m) -> accepted_control seen' = accepted_control seen ->
  delivered seen' = delivered seen -> mailbox_ok dc cc q (set_data c m, seen').
Proof.
  intros [Hq Hd Hc Hs Ht Hst] Hl Hsc Ha Hdel; simpl in *.
  split; simpl; rewrite ?Hsc, ?Ha; unfold delivered_data, delivered_control in *;
    rewrite ?Hdel; done.
Qed.

Lemma control_lane_ok dc cc q m seen c seen' :
  mailbox_ok dc cc q (m, seen) ->
  lane_ok c cc (control_closed m) (accepted_control seen') (delivered_control seen) ->
  senders c = senders (control m) -> accepted_data seen' = accepted_data seen ->
  delivered seen' = delivered seen -> mailbox_ok dc cc q (set_control c m, seen').
Proof.
  intros [Hq Hd Hc Hs Ht Hst] Hl Hsc Ha Hdel; simpl in *.
  split; simpl; rewrite ?Hsc, ?Ha; unfold delivered_data, delivered_control in *;
    rewrite ?Hdel; done.
Qed.

Lemma send_result_accepted r : (send_result r == Accepted) = (r == Sent).
Proof. by destruct r. Qed.

Lemma mailbox_call_ok dc cc q a s :
  mailbox_ok dc cc q s -> mailbox_ok dc cc q (mailbox_call a s).
Proof.
  destruct s as [m seen]. intros Hok. pose proof Hok as [Hq Hd Hc Hs Ht Hst]; simpl in *.
  destruct a; simpl.
  - destruct (senders (data m)) eqn:E; [|done]. unfold try_send.
    destruct (chan_try_send x (data m)) as [c r] eqn:Ec. rewrite send_result_accepted.
    eapply lane_try_send in Ec as [? ?]; [|done..].
    apply (data_lane_ok _ _ _ _ seen); destruct (bool_decide _); simpl; congruence || done.
  - destruct (senders (control m)) eqn:E; [|done]. unfold try_send_control.
    destruct (chan_try_send s (control m)) as [c r] eqn:Ec. rewrite send_result_accepted.
    eapply lane_try_send in Ec as [? ?]; [|done..].
    apply (control_lane_ok _ _ _ _ seen); destruct (bool_decide _); simpl; congruence || done.
  - destruct (senders (data m)) eqn:E; [|done]. unfold send.
    destruct (chan_poll_send x (data m)) as [c r] eqn:Ec.
    eapply lane_poll_send in Ec as [? ?]; [|done..].
    apply (data_lane_ok _ _ _ _ seen); destruct (was_accepted _); simpl; congruence || done.
  - destruct (senders (control m)) eqn:E; [|done]. unfold send_control.
    destruct (chan_poll_send s (control m)) as [c r] eqn:Ec.
    eapply lane_poll_send in Ec as [? ?]; [|done..].
    apply (control_lane_ok _ _ _ _ seen); destruct (was_accepted _); simpl; congruence || done.
  - pose proof (recv_ok _ _ _ _ _ Hok) as Hr. by destruct (recv m).
  - apply lane_drop_senders in Hd as [? ?], Hc as [? ?]. split; simpl; congruence || done.
Qed.

Lemma run_mailbox_ok dc cc q calls s :
  mailbox_ok dc cc q s -> mailbox_ok dc cc q (run_mailbox calls s).
Proof.
  revert s. induction calls as [|a calls IH]; intros s Hs; [done|]. by apply IH, mailbox_call_ok.
Qed.

Lemma bounded_ok dc cc q m :
  0 <= dc -> 0 <= cc -> 0 <= q -> bounded dc cc q = Ok m ->
  0 < dc /\ 0 < cc /\ mailbox_ok dc cc q (m, seen_none).
Proof.
  unfold bounded. intros Hd Hc Hq H. apply check_guard_ok in H as [Hz [= <-]].
  apply orb_false_iff in Hz as [[Hz1 Hz2]%orb_false_iff Hz3].
  destruct (channel_spec T dc ltac:(lia)) as (Hi & Hcap & Hs & Hr).
  destruct (channel_spec ControlSignal cc ltac:(lia)) as (Hi' & Hcap' & Hs' & Hr').
  split_and!; [lia|lia|]. split; simpl; try done.
  - lia.
  - split; try congruence. { by rewrite Hi. } rewrite Hi. unfold usize_of_len; simpl; lia.
  - split; try congruence. { by rewrite Hi'. } rewrite Hi'. unfold usize_of_len; simpl; lia.
  - congruence.
Qed.

(** What a further call adds to what was accepted and delivered. *)
Lemma mailbox_call_extends a (s : Mailbox Chan T * Seen T) :
  accepted_data s.2 `prefix_of` accepted_data (mailbox_call a s).2 /\
  accepted_control s.2 `prefix_of` accepted_control (mailbox_call a s).2 /\
  (a <> CallRecv -> delivered (mailbox_call a s).2 = delivered s.2).
Proof.
  destruct s as [m seen], a; simpl; unfold try_send, try_send_control, send, send_control,
    note_data, note_control, note_item; repeat case_match; simplify_eq/=;
    split_and!; try done; by eexists.
Qed.

Lemma run_mailbox_extends calls (s : Mailbox Chan T * Seen T) :
  accepted_data s.2 `prefix_of` accepted_data (run_mailbox calls s).2 /\
  accepted_control s.2 `prefix_of` accepted_control (run_mailbox calls s).2.
Proof.
  revert s. induction calls as [|a calls IH]; intros s; [done|]. simpl.
  destruct (IH (mailbox_call a s)). destruct (mailbox_call_extends a s) as (? & ? & _).
  split; by etrans.
Qed.

(** ** Fairness *)

Definition lane_of (i : MailboxItem T) : Lane :=
  match i with
  | Data _ => DataLane
  | Control _ => ControlLane
  end.

Definition lane_len (lane : Lane) m : nat :=
  match lane with
  | DataLane => length (items (data m))
  | ControlLane => length (items (control m))
  end.

(** How many items of the other lane can still come before one of [lane]. *)
Definition turns_left (lane : Lane) m : Z :=
  if preferred m == lane then 0
  else if last m == Some (other_lane lane) then fairness_quantum m - streak m
  else fairness_quantum m.

Lemma turns_left_bounds dc cc q s lane :
  mailbox_ok dc cc q s -> 0 <= turns_left lane s.1 <= q.
Proof.
  intros [[Hq Hm] _ _ _ Ht Hst]. unfold turns_left. rewrite Hm.
  case_bool_decide as E1; [lia|]. case_bool_decide as E2; [|lia].
  rewrite E2 in Ht, Hst. specialize (Hst ltac:(done)). simpl in Ht.
  destruct (Z.leb_spec q (streak s.1)); destruct lane; simpl in *; congruence || lia.
Qed.

Lemma turn_after_other lane m m' q :
  0 < q -> fairness_quantum m = q -> preferred m = next_lane q (last m) (streak m) ->
  turn_after (other_lane lane) m m' -> preferred m <> lane ->
  turns_left lane m' <= turns_left lane m - 1.
Proof.
  intros Hq Hm Ht (H1 & H2 & H3 & H4) Hne. unfold turns_left.
  rewrite H1, H2, H4, H2, Hm. rewrite (bool_decide_eq_false_2 (preferred m = lane)) by done.
  rewrite H3. simpl. destruct (Z.leb_spec q (if last m == Some (other_lane lane) then streak m + 1 else 1));
    rewrite ?(bool_decide_eq_true_2 (Some _ = Some _)) by done;
    repeat case_bool_decide; destruct lane; simpl in *; try congruence; try lia;
    rewrite H0 in Ht; simpl in Ht; destruct (Z.leb_spec q (streak m)); congruence || lia.
Qed.

(** With an item buffered on [lane], a receive delivers: an item of [lane], or
    one of the other lane on its remaining turns. *)
Lemma recv_turn dc cc q s lane :
  mailbox_ok dc cc q s -> (0 < lane_len lane s.1)%nat ->
  exists m' i, recv s.1 = (m', Ready (Some i)) /\
    ((lane_of i = lane /\ lane_len lane s.1 = S (lane_len lane m')) \/
     (lane_of i <> lane /\ lane_len lane m' = lane_len lane s.1 /\
      turns_left lane m' <= turns_left lane s.1 - 1)).
Proof.
  intros Hok Hlen. pose proof (recv_spec s.1 (ok_closed _ _ _ _ Hok)) as Hr.
  destruct Hok as [[Hq Hm] _ _ _ Ht _]. destruct s as [m seen]; simpl in *.
  destruct (recv m) as [m' p]. unfold recv_reference in Hr.
  assert (HD : forall x, p = Ready (Some (Data x)) -> delivers_data x m m' ->
    lane = DataLane \/ preferred m <> lane -> exists m'0 i, (m', p) = (m'0, Ready (Some i)) /\
    ((lane_of i = lane /\ lane_len lane m = S (lane_len lane m'0)) \/
     (lane_of i <> lane /\ lane_len lane m'0 = lane_len lane m /\
      turns_left lane m'0 <= turns_left lane m - 1))).
  { intros x -> ((Hx & _) & _ & [Hi _] & Hturn) Hl. exists m', (Data x). split; [done|].
    destruct lane; simpl in *; [left; by rewrite Hx|right].
    split_and!; [done|by rewrite Hi|]. destruct Hl as [|Hl]; [done|].
    eapply (turn_after_other ControlLane); eauto. }
  assert (HC : forall x, p = Ready (Some (Control x)) -> delivers_control x m m' ->
    lane = ControlLane \/ preferred m <> lane -> exists m'0 i, (m', p) = (m'0, Ready (Some i)) /\
    ((lane_of i = lane /\ lane_len lane m = S (lane_len lane m'0)) \/
     (lane_of i <> lane /\ lane_len lane m'0 = lane_len lane m /\
      turns_left lane m'0 <= turns_left lane m - 1))).
  { intros x -> ((Hx & _) & _ & [Hi _] & Hturn) Hl. exists m', (Control x). split; [done|].
    destruct lane; simpl in *; [right|left; by rewrite Hx].
    split_and!; [done|by rewrite Hi|]. destruct Hl as [|Hl]; [done|].
    eapply (turn_after_other DataLane); eauto. }
  destruct (items (data m)) as [|x ld] eqn:Ed, (items (control m)) as [|c lc] eqn:Ec.
  - destruct lane; simpl in Hlen; rewrite ?Ed, ?Ec in Hlen; simpl in Hlen; lia.
  - destruct Hr. apply (HC c); try done. left.
    destruct lane; [|done]. simpl in Hlen. rewrite Ed in Hlen. simpl in Hlen. lia.
  - destruct Hr. apply (HD x); try done. left.
    destruct lane; [done|]. simpl in Hlen. rewrite Ec in Hlen. simpl in Hlen. lia.
  - destruct (preferred m) eqn:Ep, Hr.
    + apply (HD x); try done. destruct lane; [by left|by right].
    + apply (HC c); try done. destruct lane; [by right|by left].
Qed.

Definition lane_count (lane : Lane) (l : list (MailboxItem T)) : nat :=
  length (filter (fun i => lane_of i = lane) l).

Definition is_recv (a : MailboxCall T) : Prop :=
  match a with
  | CallRecv => True
  | _ => False
  end.

#[export] Instance is_recv_dec a : Decision (is_recv a).
Proof. destruct a; apply _. Defined.

(** How many of the calls receive. *)
Definition recvs (calls : list (MailboxCall T)) : Z := usize_of_len (filter is_recv calls).

Lemma call_keeps_turn a (s : Mailbox Chan T * Seen T) lane :
  ~ is_recv a -> turns_left lane (mailbox_call a s).1 = turns_left lane s.1.
Proof.
  destruct s as [m seen], a; simpl; intros Ha; try done;
    unfold try_send, try_send_control, send, send_control; by repeat case_match; simplify_eq/=.
Qed.

Lemma call_keeps_items dc cc q a s :
  mailbox_ok dc cc q s -> ~ is_recv a ->
  items (data s.1) `prefix_of` items (data (mailbox_call a s).1) /\
  items (control s.1) `prefix_of` items (control (mailbox_call a s).1).
Proof.
  intros Hok Ha. destruct (mailbox_call_extends a s) as (Hp & Hp' & Hdel).
  pose proof (mailbox_call_ok _ _ _ a _ Hok) as [_ [Hf' _ _ _ _] [Hg' _ _ _ _] _ _ _].
  destruct Hok as [_ [Hf _ _ _ _] [Hg _ _ _ _] _ _ _].
  assert (Hd : delivered (mailbox_call a s).2 = delivered s.2) by (apply Hdel; by intros ->).
  unfold delivered_data, delivered_control in *. rewrite Hd in Hf', Hg'.
  rewrite Hf, Hf' in Hp. rewrite Hg, Hg' in Hp'. split; by eapply prefix_app_inv.
Qed.

Lemma lane_len_grows dc cc q a s lane :
  mailbox_ok dc cc q s -> ~ is_recv a ->
  (lane_len lane s.1 <= lane_len lane (mailbox_call a s).1)%nat.
Proof.
  intros Hok Ha. destruct (call_keeps_items _ _ _ a s Hok Ha) as [Hd Hc].
  destruct lane; simpl; by apply prefix_length.
Qed.

Lemma deliveries_extend calls (s : Mailbox Chan T * Seen T) :
  delivered s.2 `prefix_of` delivered (run_mailbox calls s).2.
Proof.
  revert s. induction calls as [|a calls IH]; intros s; [done|]. simpl. etrans; [|apply IH].
  destruct (decide (is_recv a)) as [Ha|Ha].
  - destruct a; try done. destruct s as [m seen]. simpl. destruct (recv m) as [m' [[i|]|]]; simpl; try done.
    by eexists.
  - destruct (mailbox_call_extends a s) as (_ & _ & ->); [done|]. by intros ->.
Qed.

Lemma mailbox_count_cons lane i l : lane_count lane (i :: l) = (lane_count lane [i] + lane_count lane l)%nat.
Proof. unfold lane_count. rewrite !filter_cons. by case_decide. Qed.

(** With [k + 1] items buffered on a lane, that many of its items are
    delivered once the remaining turns and [k] full rounds are over. *)
Lemma bounded_wait dc cc q calls s lane k :
  mailbox_ok dc cc q s -> (k < lane_len lane s.1)%nat ->
  turns_left lane s.1 + 1 + Z.of_nat k * (q + 1) <= recvs calls ->
  exists l, delivered (run_mailbox calls s).2 = (delivered s.2 ++ l)%list /\
            (k < lane_count lane l)%nat.
Proof.
  revert s k. induction calls as [|a calls IH]; intros s k Hok Hlen Hn.
  { pose proof (turns_left_bounds _ _ _ _ lane Hok). unfold recvs, usize_of_len in Hn. simpl in Hn. nia. }
  pose proof (mailbox_call_ok _ _ _ a _ Hok) as Hok'. simpl.
  pose proof (turns_left_bounds _ _ _ _ lane Hok) as Hb.
  pose proof (turns_left_bounds _ _ _ _ lane Hok') as Hb'.
  destruct (decide (is_recv a)) as [Ha|Ha].
  - destruct a; try done. destruct s as [m seen].
    destruct (recv_turn _ _ _ _ lane Hok ltac:(simpl in *; lia)) as (m' & i & Hr & Hcase).
    simpl in Hr, Hcase, Hok', Hb', Hlen, Hn |- *. rewrite Hr in Hok', Hb' |- *. simpl in Hok', Hb' |- *.
    unfold recvs in *. rewrite filter_cons_True in Hn by done. unfold usize_of_len in *. simpl in Hn.
    destruct Hcase as [[Hi Hl]|(Hi & Hl & Ht)].
    + assert (Hone : lane_count lane [i] = 1%nat).
      { unfold lane_count. by rewrite filter_cons_True. }
      destruct k as [|k].
      * destruct (deliveries_extend calls (m', note_item (Ready (Some i)) seen)) as [l Hd].
        exists (i :: l). simpl in Hd. rewrite Hd, <- (assoc_L (++)). split; [done|].
        rewrite mailbox_count_cons. lia.
      * rewrite Nat2Z.inj_succ, Z.mul_succ_l in Hn.
        destruct (IH (m', note_item (Ready (Some i)) seen) k) as (l & Hd & Hc);
          [done|simpl; lia|simpl in Hb, Hb' |- *; lia|].
        exists (i :: l). simpl in Hd. rewrite Hd, <- (assoc_L (++)). split; [done|].
        rewrite mailbox_count_cons. lia.
    + destruct (IH (m', note_item (Ready (Some i)) seen) k) as (l & Hd & Hc);
        [done|simpl; lia|simpl; lia|].
      exists (i :: l). simpl in Hd. rewrite Hd, <- (assoc_L (++)). split; [done|].
      rewrite mailbox_count_cons. lia.
  - destruct (IH (mailbox_call a s) k) as (l & Hd & Hc); [done| | |].
    + pose proof (lane_len_grows _ _ _ a s lane Hok Ha). lia.
    + rewrite call_keeps_turn by done. unfold recvs in *. by rewrite filter_cons_False in Hn by done.
    + exists l. rewrite Hd. split; [|done].
      destruct (mailbox_call_extends a s) as (_ & _ & ->); [done|]. by intros ->.
Qed.

Lemma taken_prefix {A} (del buffered new rest acc acc' : list A) (k : nat) :
  acc = (del ++ buffered)%list -> acc' = (del ++ new ++ rest)%list -> acc `prefix_of` acc' ->
  (k <= length new)%nat -> take k buffered `prefix_of` new.
Proof.
  intros -> -> [l H] Hk. rewrite <- (assoc_L (++)) in H. apply (inj (del ++.)) in H.
  destruct (prefix_weak_total (take k buffered) new (new ++ rest)) as [|Hp]; [|by eexists|done|].
  { rewrite H. exists (drop k buffered ++ l)%list. by rewrite (assoc_L (++)), take_drop. }
  rewrite (prefix_length_eq _ _ Hp); [done|]. rewrite length_take. lia.
Qed.

Lemma mailbox_count_data l : lane_count DataLane l = length (omap data_of l).
Proof.
  induction l as [|[x|c] l IH]; [done| |]; rewrite mailbox_count_cons, IH; done.
Qed.

Lemma mailbox_count_control l : lane_count ControlLane l = length (omap control_of l).
Proof.
  induction l as [|[x|c] l IH]; [done| |]; rewrite mailbox_count_cons, IH; done.
Qed.

Lemma take_min_length {A} k (l : list A) : take k l = take (min k (length l)) l.
Proof.
  destruct (decide (k <= length l)%nat); [by rewrite Nat.min_l by lia|].
  rewrite Nat.min_r by lia. by rewrite !take_ge by lia.
Qed.

(** Both lanes at once: after enough receives the first [k] buffered items of
    each lane are among what was delivered, in order. *)
Lemma run_delivers dc cc q s later k :
  mailbox_ok dc cc q s -> Z.of_nat k * (q + 1) <= recvs later ->
  exists l, delivered (run_mailbox later s).2 = (delivered s.2 ++ l)%list /\
    take k (items (data s.1)) `prefix_of` omap data_of l /\
    take k (items (control s.1)) `prefix_of` omap control_of l.
Proof.
  intros Hok Hk. destruct (deliveries_extend later s) as [l Hl]. exists l. split; [done|].
  pose proof (run_mailbox_ok _ _ _ later s Hok) as [_ [Hf _ _ _ _] [Hg _ _ _ _] _ _ _].
  pose proof (run_mailbox_extends later s) as [Hpd Hpc].
  assert (Hcount : forall lane, (min k (lane_len lane s.1) <= lane_count lane l)%nat).
  { intros lane. destruct (min k (lane_len lane s.1)) as [|j] eqn:Ej; [lia|].
    destruct (bounded_wait _ _ _ later s lane j Hok) as (l' & Hl' & Hc); [lia| |].
    - pose proof (turns_left_bounds _ _ _ _ lane Hok). destruct Hok as [[Hq _] _ _ _ _ _]. nia.
    - rewrite Hl in Hl'. simplify_list_eq. lia. }
  pose proof Hok as [_ [Hf0 _ _ _ _] [Hg0 _ _ _ _] _ _ _].
  unfold delivered_data, delivered_control in *.
  rewrite Hl, omap_app, <- (assoc_L (++)) in Hf. rewrite Hl, omap_app, <- (assoc_L (++)) in Hg.
  split; rewrite take_min_length; (eapply taken_prefix; [done..|]).
  - rewrite <- mailbox_count_data. apply (Hcount DataLane).
  - rewrite <- mailbox_count_control. apply (Hcount ControlLane).
Qed.

(** No item is lost, duplicated or reordered: in every run of a bounded
    mailbox, what each lane accepted is what it delivered followed by what it
    still buffers, both buffers stay within their capacities, the receive loop
    always ends within three rounds, and it reports the end of the mailbox
    exactly when both lanes are drained and no sender is left. *)
Theorem mailbox_conserves_items (dc cc q : Z) (m : Mailbox Chan T) (calls : list (MailboxCall T))
    (Hdc : is_u64 dc) (Hcc : is_u64 cc) (Hq : is_u64 q) (Hb : bounded dc cc q = Ok m) :
  let s := run_mailbox calls (m, seen_none) in
  accepted_data s.2 = (delivered_data s.2 ++ items (data s.1))%list /\
  accepted_control s.2 = (delivered_control s.2 ++ items (control s.1))%list /\
  usize_of_len (items (data s.1)) <= dc /\ usize_of_len (items (control s.1)) <= cc /\
  (forall k, recv_rounds (3 + k) s.1 = Some (recv s.1)) /\
  ((recv s.1).2 = Ready None <->
   items (data s.1) = [] /\ items (control s.1) = [] /\ senders (data s.1) = false).
Proof.
  apply bounded_ok in Hb as (_ & _ & Hok); [|unfold is_u64 in *; lia..].
  intros s. pose proof (run_mailbox_ok _ _ _ calls _ Hok) as Hs. fold s in Hs. clearbody s.
  pose proof (ok_closed _ _ _ _ Hs) as Hcl. pose proof (recv_spec _ Hcl) as Hr.
  pose proof (fun k => recv_total s.1 k Hcl) as Htot.
  destruct Hs as [_ [Hf Hbd _ _ _] [Hg Hbc _ _ _] _ _ _]. split_and!; try done.
  unfold recv_reference in Hr. destruct (recv s.1) as [m' p]. simpl.
  repeat case_match; destruct_and?; subst p; naive_solver.
Qed.

(** No lane starves: in every run of a bounded mailbox with fairness
    quantum [q], once [k * (q + 1)] further receives have been made, between
    whatever sends on either lane, the first [k] items that each lane had
    buffered have been delivered, in order. *)
Theorem mailbox_bounded_wait (dc cc q : Z) (m : Mailbox Chan T)
    (calls later : list (MailboxCall T)) (k : nat)
    (Hdc : is_u64 dc) (Hcc : is_u64 cc) (Hq : is_u64 q) (Hb : bounded dc cc q = Ok m)
    (Hk : Z.of_nat k * (q + 1) <= recvs later) :
  let s := run_mailbox calls (m, seen_none) in
  exists l, delivered (run_mailbox later s).2 = (delivered s.2 ++ l)%list /\
    take k (items (data s.1)) `prefix_of` omap data_of l /\
    take k (items (control s.1)) `prefix_of` omap control_of l.
Proof.
  apply bounded_ok in Hb as (_ & _ & Hok); [|unfold is_u64 in *; lia..].
  eapply run_delivers; [by apply run_mailbox_ok|done].
Qed.
End Laws.

(** ** A channel

    The plain queue meets the documented behaviour. *)

Record QueueChan (T : Type) : Type := {
  q_items : list T;
  q_capacity : Z;
  q_senders : bool;
  q_receiver : bool;
}.

Arguments q_items {T} _.
Arguments q_capacity {T} _.
Arguments q_senders {T} _.
Arguments q_receiver {T} _.

Definition q_with {T} (l : list T) (c : QueueChan T) : QueueChan T :=
  {| q_items := l; q_capacity := q_capacity c; q_senders := q_senders c;
     q_receiver := q_receiver c |}.

Definition q_try_send {T} (x : T) (c : QueueChan T) : QueueChan T * TrySend :=
  if negb (q_receiver c) then (c, Disconnected)
  else if usize_of_len (q_items c) <? q_capacity c then (q_with (q_items c ++ [x]) c, Sent)
  else (c, Full).

#[export] Instance queue_mpsc : Mpsc QueueChan := {
  channel T n := {| q_items := []; q_capacity := n; q_senders := true; q_receiver := true |};
  chan_try_send T x c := q_try_send x c;
  chan_poll_send T x c :=
    match q_try_send x c with
    | (c', Sent) => (c', Ready (Ok tt))
    | (_, Full) => (c, Pending)
    | (_, Disconnected) => (c, Ready (Err tt))
    end;
  chan_poll_recv T c :=
    match q_items c with
    | x :: l => (q_with l c, Ready (Some x))
    | [] => (c, if q_senders c then Pending else Ready None)
    end;
  chan_drop_senders T c :=
    {| q_items := q_items c; q_capacity := q_capacity c; q_senders := false;
       q_receiver := q_receiver c |};
  chan_drop_receiver T c :=
    {| q_items := []; q_capacity := q_capacity c; q_senders := q_senders c; q_receiver := false |};
  items T c := q_items c;
  capacity T c := q_capacity c;
  senders T c := q_senders c;
  receiver T c := q_receiver c;
}.

#[export] Instance queue_mpsc_laws : MpscLaws QueueChan.
Proof.
  split; unfold chan_is; simpl; try done; unfold q_try_send.
  - by intros T x c ->.
  - intros T x c -> H. simpl. by destruct (Z.ltb_spec (usize_of_len (q_items c)) (q_capacity c)); [lia|].
  - intros T x c Hr H. rewrite Hr. simpl.
    destruct (Z.ltb_spec (usize_of_len (q_items c)) (q_capacity c)); [|lia]. by eexists.
  - intros T x l c Hi. rewrite Hi. by eexists.
  - by intros T c ->.
Qed.

Definition sample_mailbox : Mailbox QueueChan nat :=
  {| data := channel 4; control := channel 2; preferred := ControlLane; last := None; streak := 0;
     fairness_quantum := 2; data_closed := false; control_closed := false |}.

(** A full data lane, an empty and then a busy control lane. *)
Definition sample_calls : list (MailboxCall nat) :=
  [ CallTrySend 1%nat; CallTrySend 2%nat; CallSend 3%nat; CallTrySend 4%nat; CallTrySend 5%nat;
    CallRecv; CallTrySendControl Cancel; CallSendControl Shutdown; CallTrySendControl Cancel ].

Lemma mailbox_conserves_items_witness :
  let s := run_mailbox sample_calls (sample_mailbox, seen_none) in
  accepted_data s.2 = [1; 2; 3; 4]%nat /\ accepted_control s.2 = [Cancel; Shutdown] /\
  (recv s.1).2 <> Ready None.
Proof.
  destruct (mailbox_conserves_items 4 2 2 sample_mailbox sample_calls) as (_ & _ & _ & _ & _ & H);
    [split; vm_compute; discriminate..|reflexivity|].
  split_and!; [reflexivity..|]. intros Hr. apply H in Hr as (Hi & _). vm_compute in Hi. discriminate Hi.
Defined.

Lemma mailbox_bounded_wait_witness :
  let s := run_mailbox sample_calls (sample_mailbox, seen_none) in
  exists l, delivered (run_mailbox [CallRecv; CallTrySend 6%nat; CallRecv; CallRecv] s).2
              = (delivered s.2 ++ l)%list /\
    [2%nat] `prefix_of` omap data_of l /\ [Cancel] `prefix_of` omap control_of l.
Proof.
  destruct (mailbox_bounded_wait 4 2 2 sample_mailbox sample_calls
              [CallRecv; CallTrySend 6%nat; CallRecv; CallRecv] 1) as (l & Hl & Hd & Hc);
    [split; vm_compute; discriminate..|reflexivity|vm_compute; discriminate|].
  exists l. split_and!; [exact Hl|vm_compute in Hd; exact Hd|vm_compute in Hc; exact Hc].
Defined.
