(* ===== verification/Runtime.v ===== *)
(** The runtime facade of src/crates/kernel/eliot-runtime/src/lib.rs:
    cancellation tokens, the task registry with spawn admission and ordered
    shutdown, and supervised restarts.

    Tokens are shared and hierarchical, so they live in an arena and a token
    is an index. Spawning, finishing tasks, aborting and shutting down run
    concurrently: each atomic action of the code is one function on the shared
    state, and [rt_step] interleaves them in any order that the admission
    lock allows. A task's own progress (when it starts, ends, is dropped) is
    an action of the environment. A supervised task is run against the list of
    what its attempts did. Mailboxes are in Mailbox.v; tokio's wakeups and
    semaphores are not modelled. *)

From S2P Require Import Prelude Mailbox.

(** ** Configuration *)

(** A [Duration] in nanoseconds. *)
Definition duration_max : Z := u64_max * 1000000000 + 999999999.

Record RuntimeConfig : Type := {
  mailbox_capacity : Z;
  control_reserve : Z;
  concurrency : Z;
  control_concurrency_reserve : Z;
  cfg_fairness_quantum : Z;
  restart_budget : Z;
  restart_window : Z;
  restart_backoff : Z;
  shutdown_grace : Z;
}.

Definition RuntimeConfig_validate (self : RuntimeConfig) : result ConfigError unit :=
  check? guard_err ((mailbox_capacity self =? 0) || (control_reserve self =? 0)
                    || (concurrency self =? 0) || (control_concurrency_reserve self =? 0)
                    || (cfg_fairness_quantum self =? 0)) ZeroCapacity;
  guard_err ((restart_window self =? 0) || (shutdown_grace self =? 0)) ZeroDuration.

(** [Runtime::mailbox] *)
Definition runtime_mailbox `{Mpsc Chan} {T} (config : RuntimeConfig)
    : result ConfigError (Mailbox Chan T) :=
  bounded (mailbox_capacity config) (control_reserve config) (cfg_fairness_quantum config).

Inductive TaskFailure : Type :=
| Failed (reason : string)
| Panicked
| Cancelled.

#[global] Instance TaskFailure_eq_dec : EqDecision TaskFailure.
Proof. solve_decision. Defined.

(** ** Cancellation tokens *)

(** A node of the arena: its own signal and the [Arc] to its parent. *)
Record CancellationInner : Type := {
  local_requested : bool;
  parent : option nat;
}.

Notation Tokens := (list CancellationInner).

Definition token_new (p : option nat) (ts : Tokens) : Tokens * nat :=
  ((ts ++ [{| local_requested := false; parent := p |}])%list, length ts).

(** [CancellationToken::root] and [child] *)
Definition root_token (ts : Tokens) : Tokens * nat := token_new None ts.
Definition child_token (t : nat) (ts : Tokens) : Tokens * nat := token_new (Some t) ts.

(** [Signal::request]: [!self.requested.swap(true)]. *)
Definition token_request (t : nat) (ts : Tokens) : Tokens * bool :=
  match ts !! t with
  | Some n => (<[t := {| local_requested := true; parent := parent n |}]> ts,
               negb (local_requested n))
  | None => (ts, false)
  end.

(** [CancellationInner::is_cancelled] follows the parents; a parent exists
    before its child, so [t + 1] steps are enough from index [t]. *)
Fixpoint is_cancelled_from (fuel : nat) (t : nat) (ts : Tokens) : bool :=
  match fuel with
  | O => false
  | S fuel =>
      match ts !! t with
      | None => false
      | Some n =>
          local_requested n ||
          match parent n with
          | Some p => is_cancelled_from fuel p ts
          | None => false
          end
      end
  end.

Definition token_is_cancelled (t : nat) (ts : Tokens) : bool := is_cancelled_from (S t) t ts.

Definition checkpoint (t : nat) (ts : Tokens) : result TaskFailure unit :=
  if token_is_cancelled t ts then Err Cancelled else Ok tt.

(** ** Registry, spawning and shutdown *)

Inductive Lifecycle : Type := RUNNING | SHUTTING_DOWN | TERMINATED.

#[global] Instance Lifecycle_eq_dec : EqDecision Lifecycle.
Proof. solve_decision. Defined.

(** Where a spawned future is: its guard taken, handed to the executor and
    registered, released to run, its guard being dropped (unregistered), and
    finished. *)
Inductive TaskPhase : Type := Reserved | Registered | Started | Dropping | Finished.

#[global] Instance TaskPhase_eq_dec : EqDecision TaskPhase.
Proof. solve_decision. Defined.

Record TaskState : Type := {
  task_token : nat;
  phase : TaskPhase;
  aborted : bool;
}.

Inductive CancellationDisposition : Type :=
  CancelRequested | AlreadyRequested | AlreadyFinished | ForcedAbort.

Inductive ShutdownDisposition : Type := Graceful | Forced | Incomplete.

#[global] Instance ShutdownDisposition_eq_dec : EqDecision ShutdownDisposition.
Proof. solve_decision. Defined.

Record ShutdownOutcome : Type := {
  disposition : ShutdownDisposition;
  forced_tasks : Z;
  no_orphans : bool;
}.

(** The holder of the admission lock, between its steps. *)
Inductive GateHolder : Type :=
| SpawnChecked
| SpawnReserved (id : Z)
| SpawnRegistered (id : Z).

(** A caller of [shutdown] after [begin_shutdown]: waiting for the grace
    period, past it, after the forced abortion, with its answer, returned. *)
Inductive ShutdownPc : Type :=
| Waiting
| Expired
| ForcedWaiting (forced : Z)
| Decided (o : ShutdownOutcome)
| Returned (o : ShutdownOutcome).

Record RuntimeShared : Type := {
  lifecycle : Lifecycle;
  gate : option GateHolder;
  tokens : Tokens;
  cancellation : nat;
  next_id : Z;
  entries : list Z;
  active : Z;
  tasks : gmap Z TaskState;
  shutdowns : gmap nat ShutdownPc;
}.

Definition RuntimeShared_new : RuntimeShared :=
  let '(ts, root) := root_token [] in
  {| lifecycle := RUNNING; gate := None; tokens := ts; cancellation := root; next_id := 1;
     entries := []; active := 0; tasks := ∅; shutdowns := ∅ |}.

Definition set_gate (g : option GateHolder) (s : RuntimeShared) : RuntimeShared :=
  {| lifecycle := lifecycle s; gate := g; tokens := tokens s; cancellation := cancellation s;
     next_id := next_id s; entries := entries s; active := active s; tasks := tasks s;
     shutdowns := shutdowns s |}.

Definition set_tokens (ts : Tokens) (s : RuntimeShared) : RuntimeShared :=
  {| lifecycle := lifecycle s; gate := gate s; tokens := ts; cancellation := cancellation s;
     next_id := next_id s; entries := entries s; active := active s; tasks := tasks s;
     shutdowns := shutdowns s |}.

Definition set_lifecycle (l : Lifecycle) (s : RuntimeShared) : RuntimeShared :=
  {| lifecycle := l; gate := gate s; tokens := tokens s; cancellation := cancellation s;
     next_id := next_id s; entries := entries s; active := active s; tasks := tasks s;
     shutdowns := shutdowns s |}.

Definition set_tasks (ts : gmap Z TaskState) (s : RuntimeShared) : RuntimeShared :=
  {| lifecycle := lifecycle s; gate := gate s; tokens := tokens s;
     cancellation := cancellation s; next_id := next_id s; entries := entries s;
     active := active s; tasks := ts; shutdowns := shutdowns s |}.

Definition set_entries (l : list Z) (s : RuntimeShared) : RuntimeShared :=
  {| lifecycle := lifecycle s; gate := gate s; tokens := tokens s;
     cancellation := cancellation s; next_id := next_id s; entries := l;
     active := active s; tasks := tasks s; shutdowns := shutdowns s |}.

Definition set_shutdown (c : nat) (pc : ShutdownPc) (s : RuntimeShared) : RuntimeShared :=
  {| lifecycle := lifecycle s; gate := gate s; tokens := tokens s;
     cancellation := cancellation s; next_id := next_id s; entries := entries s;
     active := active s; tasks := tasks s; shutdowns := <[c := pc]> (shutdowns s) |}.

Definition set_phase (p : TaskPhase) (t : TaskState) : TaskState :=
  {| task_token := task_token t; phase := p; aborted := aborted t |}.

Definition set_aborted (t : TaskState) : TaskState :=
  {| task_token := task_token t; phase := phase t; aborted := true |}.

Definition is_running (s : RuntimeShared) : bool := lifecycle s == RUNNING.

(** [RuntimeShared::begin_shutdown], under the admission lock. *)
Definition begin_shutdown (s : RuntimeShared) : RuntimeShared * bool :=
  if is_running s then
    let '(ts, _) := token_request (cancellation s) (tokens s) in
    (set_tokens ts (set_lifecycle SHUTTING_DOWN s), true)
  else (s, false).

(** [TaskRegistry::reserve] with the child token of the new task. *)
Definition reserve (s : RuntimeShared) : RuntimeShared * Z :=
  let '(ts, t) := child_token (cancellation s) (tokens s) in
  let id := next_id s in
  ({| lifecycle := lifecycle s; gate := gate s; tokens := ts; cancellation := cancellation s;
      next_id := wrap_u64 (id + 1); entries := entries s; active := wrap_u64 (active s + 1);
      tasks := <[id := {| task_token := t; phase := Reserved; aborted := false |}]> (tasks s);
      shutdowns := shutdowns s |}, id).

(** [TaskRegistry::register] *)
Definition register (id : Z) (s : RuntimeShared) : RuntimeShared :=
  set_entries (entries s ++ [id]) s.

(** The two steps of [TaskRegistry::finish]. *)
Definition finish_retain (id : Z) (s : RuntimeShared) : RuntimeShared :=
  set_entries (filter (fun e => e <> id) (entries s)) s.

Definition finish_release (s : RuntimeShared) : RuntimeShared :=
  {| lifecycle := lifecycle s; gate := gate s; tokens := tokens s;
     cancellation := cancellation s; next_id := next_id s; entries := entries s;
     active := wrap_u64 (active s - 1); tasks := tasks s; shutdowns := shutdowns s |}.

(** [AbortHandle::is_finished] *)
Definition is_finished (id : Z) (s : RuntimeShared) : bool :=
  match tasks s !! id with
  | Some t => phase t == Finished
  | None => true
  end.

Definition move_task (id : Z) (p : TaskPhase) (s : RuntimeShared) : RuntimeShared :=
  set_tasks (alter (set_phase p) id (tasks s)) s.

(** [AbortHandle::abort]: the future is dropped at the executor's next turn. *)
Definition abort (id : Z) (s : RuntimeShared) : RuntimeShared :=
  set_tasks (alter set_aborted id (tasks s)) s.

(** [TaskRegistry::abort_all] *)
Definition abort_entry (acc : RuntimeShared * Z) (id : Z) : RuntimeShared * Z :=
  let '(s, forced) := acc in
  if is_finished id s then (s, forced) else (abort id s, forced + 1).

Definition abort_all (s : RuntimeShared) : RuntimeShared * Z :=
  fold_left abort_entry (entries s) (s, 0).

(** [CancelHandle::cancel] and [force_abort] *)
Definition handle_cancel (id : Z) (t : nat) (s : RuntimeShared)
    : RuntimeShared * CancellationDisposition :=
  if is_finished id s then (s, AlreadyFinished)
  else let '(ts, first) := token_request t (tokens s) in
       (set_tokens ts s, if first : bool then CancelRequested else AlreadyRequested).

Definition handle_force_abort (id : Z) (t : nat) (s : RuntimeShared)
    : RuntimeShared * CancellationDisposition :=
  if is_finished id s then (s, AlreadyFinished)
  else let '(ts, _) := token_request t (tokens s) in
       (abort id (set_tokens ts s), ForcedAbort).

(** The end of [shutdown]: its disposition from the two waits. *)
Definition shutdown_outcome (graceful : bool) (forced : Z) (no_orphans : bool) : ShutdownOutcome :=
  {| disposition := if graceful then Graceful else if no_orphans then Forced else Incomplete;
     forced_tasks := forced; no_orphans := no_orphans |}.

(** One atomic action of some thread or task. *)
Inductive rt_step : RuntimeShared -> RuntimeShared -> Prop :=
(** [spawn_in] and [Supervisor::spawn], under the lock *)
| step_spawn_denied s : gate s = None -> is_running s = false -> rt_step s s
| step_spawn_check s :
    gate s = None -> is_running s = true -> rt_step s (set_gate (Some SpawnChecked) s)
| step_spawn_reserve s s' id :
    gate s = Some SpawnChecked -> reserve s = (s', id) ->
    rt_step s (set_gate (Some (SpawnReserved id)) s')
| step_spawn_register s id :
    gate s = Some (SpawnReserved id) ->
    rt_step s (set_gate (Some (SpawnRegistered id)) (move_task id Registered (register id s)))
| step_spawn_start s id t :
    gate s = Some (SpawnRegistered id) -> tasks s !! id = Some t -> phase t = Registered ->
    rt_step s (set_gate None (move_task id Started s))
| step_spawn_dropped s id t :
    gate s = Some (SpawnRegistered id) -> tasks s !! id = Some t -> phase t <> Registered ->
    rt_step s (set_gate None s)
(** the future ends, or is dropped once aborted *)
| step_task_end s id t :
    tasks s !! id = Some t -> phase t = Started \/ (phase t = Registered /\ aborted t = true) ->
    rt_step s (move_task id Dropping (finish_retain id s))
| step_task_finish s id t :
    tasks s !! id = Some t -> phase t = Dropping ->
    rt_step s (move_task id Finished (finish_release s))
(** handles of admitted tasks, and tokens of their attempts *)
| step_cancel s s' id t d :
    tasks s !! id = Some t -> handle_cancel id (task_token t) s = (s', d) -> rt_step s s'
| step_force_abort s s' id t d :
    tasks s !! id = Some t -> phase t <> Reserved ->
    handle_force_abort id (task_token t) s = (s', d) -> rt_step s s'
| step_child_token s ts c id t :
    tasks s !! id = Some t -> child_token (task_token t) (tokens s) = (ts, c) ->
    rt_step s (set_tokens ts s)
(** [ShutdownHandle::request], the drop of the runtime and [shutdown] *)
| step_request_shutdown s s' b : gate s = None -> begin_shutdown s = (s', b) -> rt_step s s'
| step_drop_abort s s' n : is_running s = false -> abort_all s = (s', n) -> rt_step s s'
| step_shutdown_begin s s' b c :
    gate s = None -> shutdowns s !! c = None -> begin_shutdown s = (s', b) ->
    rt_step s (set_shutdown c Waiting s')
| step_shutdown_graceful s c :
    shutdowns s !! c = Some Waiting -> active s = 0 ->
    rt_step s (set_shutdown c (Decided (shutdown_outcome true 0 true)) s)
| step_shutdown_expired s c :
    shutdowns s !! c = Some Waiting -> active s <> 0 -> rt_step s (set_shutdown c Expired s)
| step_shutdown_abort s s' n c :
    shutdowns s !! c = Some Expired -> abort_all s = (s', n) ->
    rt_step s (set_shutdown c (ForcedWaiting n) s')
| step_shutdown_decide s n c :
    shutdowns s !! c = Some (ForcedWaiting n) ->
    rt_step s (set_shutdown c (Decided (shutdown_outcome false n (active s =? 0))) s)
| step_shutdown_return s o c :
    shutdowns s !! c = Some (Decided o) ->
    rt_step s (set_shutdown c (Returned o) (set_lifecycle TERMINATED s)).

Inductive rt_reach : RuntimeShared -> Prop :=
| rt_init : rt_reach RuntimeShared_new
| rt_next s s' : rt_reach s -> rt_step s s' -> rt_reach s'.

(** ** Supervision *)

Inductive SupervisionOutcome : Type := Completed | Quarantined.

Inductive ChildClass : Type := Worker | Service | Critical.

Inductive SupervisionStrategy : Type := OneForOne | RestForOne | OneForAll.

Definition ChildClass_debug (c : ChildClass) : string :=
  match c with
  | Worker => "Worker"
  | Service => "Service"
  | Critical => "Critical"
  end.

Inductive ObservationKind : Type :=
  AgentFeedback | ContextPacket | MemoryDelivery | ToolOrRoute | TaskProgress | LoopOrNoProgress
| FailureOrRepair | QueueResource | Configuration | Maintenance | Security | ProductOutcome
| UserCorrection.

Inductive ServiceProcessState : Type :=
  SvcStopped | SvcStarting | SvcRecovering | SvcReady | SvcDegraded | SvcQuiescing | SvcFailed
| SvcRestartWait | SvcQuarantined | SvcManualRecovery.

Record RuntimeObservation : Type := {
  obs_kind : ObservationKind;
  subject : string;
  detail : string;
  state : ServiceProcessState;
}.

Inductive ObservationDisposition : Type := Delivered | NoSink | SinkPanicked.

(** A sink is what it does with an observation: [false] when it panics. *)
Definition observe_safely (sink : option (RuntimeObservation -> bool)) (o : RuntimeObservation)
    : ObservationDisposition :=
  match sink with
  | None => NoSink
  | Some observe => if observe o then Delivered else SinkPanicked
  end.

(** The children a failure restarts, in order. *)
Definition affected_children (strategy : SupervisionStrategy) (failed_index child_count : nat)
    : list nat :=
  if (child_count <=? failed_index)%nat then []
  else match strategy with
       | OneForOne => [failed_index]
       | RestForOne => seq failed_index (child_count - failed_index)
       | OneForAll => seq 0 child_count
       end.

(** [Duration::saturating_mul] by two *)
Definition saturating_double (d : Z) : Z := Z.min (d * 2) duration_max.

(** [Instant::duration_since], zero for a later instant *)
Definition duration_since (now started : Z) : Z := Z.max 0 (now - started).

Section Supervision.
(** [{:?}] of a text, from the standard library. *)
Variable debug_str : string -> string.
Variables (sink : option (RuntimeObservation -> bool)) (sub : string) (class : ChildClass).
Variables (budget window backoff : Z).

Definition TaskFailure_debug (e : TaskFailure) : string :=
  match e with
  | Failed reason => "Failed(" +:+ debug_str reason +:+ ")"
  | Panicked => "Panicked"
  | Cancelled => "Cancelled"
  end.

(** The failures kept, whether to quarantine, and the observation's fate. *)
Definition restart_or_quarantine (failures : list Z) (now : Z) (error : TaskFailure)
    : list Z * bool * ObservationDisposition :=
  let failures := filter (fun started => duration_since now started <= window) failures in
  if budget <=? usize_of_len failures then
    (failures, true,
     observe_safely sink
       {| obs_kind := FailureOrRepair; subject := sub;
          detail := ChildClass_debug class +:+ " quarantined after restart budget";
          state := SvcQuarantined |})
  else
    ((failures ++ [now])%list, false,
     observe_safely sink
       {| obs_kind := FailureOrRepair; subject := sub;
          detail := ChildClass_debug class +:+ " restarting after " +:+ TaskFailure_debug error;
          state := SvcRestartWait |}).

(** What one round of the loop meets: cancellation at the checkpoint, a
    panicking factory, the attempt's result (with a panic caught and an
    observed cancellation), the instant a failure is noticed, and cancellation
    during the delay. *)
Record Round : Type := {
  cancelled_at_checkpoint : bool;
  factory_panics : bool;
  attempt : result TaskFailure unit;
  now : Z;
  cancelled_in_delay : bool;
}.

(** The loop's variables, with the restarts granted and the delays slept. *)
Record SupervisorState : Type := {
  failures : list Z;
  delay : Z;
  restarts : list Z;
  slept : list Z;
}.

Definition supervisor_start : SupervisorState :=
  {| failures := []; delay := backoff; restarts := []; slept := [] |}.

(** A failure in the loop: quarantine, or a delay and the next round. *)
Definition after_failure (r : Round) (error : TaskFailure) (s : SupervisorState)
    : SupervisorState * option (result TaskFailure SupervisionOutcome) :=
  let '(kept, quarantine, _) := restart_or_quarantine (failures s) (now r) error in
  if quarantine : bool then
    ({| failures := kept; delay := delay s; restarts := restarts s; slept := slept s |},
     Some (Ok Quarantined))
  else
    if cancelled_in_delay r then
      ({| failures := kept; delay := delay s; restarts := restarts s; slept := slept s |},
       Some (Err Cancelled))
    else
      ({| failures := kept; delay := saturating_double (delay s);
          restarts := (restarts s ++ [now r])%list; slept := (slept s ++ [delay s])%list |}, None).

(** One round: [None] goes round again. *)
Definition supervise_round (r : Round) (s : SupervisorState)
    : SupervisorState * option (result TaskFailure SupervisionOutcome) :=
  if cancelled_at_checkpoint r then (s, Some (Err Cancelled))
  else if factory_panics r then after_failure r Panicked s
  else match attempt r with
       | Ok tt => (s, Some (Ok Completed))
       | Err Cancelled => (s, Some (Err Cancelled))
       | Err error => after_failure r error s
       end.

(** The loop against what its rounds meet; [None] while it is still running. *)
Fixpoint supervise (rounds : list Round) (s : SupervisorState)
    : SupervisorState * option (result TaskFailure SupervisionOutcome) :=
  match rounds with
  | [] => (s, None)
  | r :: rounds' =>
      match supervise_round r s with
      | (s', None) => supervise rounds' s'
      | ended => ended
      end
  end.
End Supervision.

(** ** Outcomes of the platform *)

Inductive RuntimeFailure : Type :=
  RtInvalidInput | RtConflict | RtUnavailable | RtPermissionDenied | RtTimeout | RtProviderFailed.

Inductive RuntimeResult : Type :=
| RtCompleted
| RtSaturated
| RtDegraded
| RtCancelled
| RtFailed (f : RuntimeFailure).

Inductive UnknownReason : Type := Unsupported | NotObserved | Indeterminate.

Inductive ProviderErrorCode : Type :=
  CodeUnavailable | CodePermissionDenied | CodeInvalidRequest | CodeTimeout | CodeFailed.

Record ProviderError : Type := { code : ProviderErrorCode; retryable : bool }.

Inductive PortError : Type :=
| PortInvalidText (field : string)
| PortDuplicate (field : string)
| PortAmbiguous (field : string)
| PortInvalidFence
| PortInvalidRequestMetadata
| PortIdentityConflict
| PortInvalidServiceProcessRecord
| PortInvalidPath
| PortProvider (e : ProviderError)
| PortProviderReference (e : ProviderError) (reference : string).

Inductive PortOutcome (A : Type) : Type :=
| Known (a : A)
| Unknown (r : UnknownReason)
| Partial (a : A) (missing : list string)
| PortFailed (e : PortError).

Arguments Known {A} _.
Arguments Unknown {A} _.
Arguments Partial {A} _ _.
Arguments PortFailed {A} _.

Definition provider_runtime_failure (p : ProviderError) : RuntimeFailure :=
  match code p with
  | CodeUnavailable => RtUnavailable
  | CodePermissionDenied => RtPermissionDenied
  | CodeInvalidRequest => RtInvalidInput
  | CodeTimeout => RtTimeout
  | CodeFailed => RtProviderFailed
  end.

Definition platform_result {A} (r : PortOutcome A) : RuntimeResult :=
  match r with
  | Known _ => RtCompleted
  | Partial _ _ | Unknown _ => RtDegraded
  | PortFailed e =>
      RtFailed match e with
               | PortInvalidText _ | PortDuplicate _ | PortAmbiguous _ | PortInvalidFence
               | PortInvalidRequestMetadata | PortInvalidServiceProcessRecord
               | PortInvalidPath => RtInvalidInput
               | PortIdentityConflict => RtConflict
               | PortProvider p | PortProviderReference p _ => provider_runtime_failure p
               end
  end.
