(* ===== verification/RuntimeLaws.v ===== *)
(** Laws of the runtime facade: cancellation reaches exactly the descendants
    and is sticky; the registry accounts for every task under every
    interleaving, so that a shutdown reporting no orphans left none; restarts
    stay within their rolling budget. *)

From S2P Require Import Prelude Mailbox Runtime.

(** ** Cancellation *)

(** A parent was created before its child. *)
Definition tokens_wf (ts : Tokens) : Prop :=
  forall t n p, ts !! t = Some n -> parent n = Some p -> (p < t)%nat.

(** [a] is [t] or one of its ancestors. *)
Inductive descends (ts : Tokens) : nat -> nat -> Prop :=
| descends_refl t : descends ts t t
| descends_parent t n p a :
    ts !! t = Some n -> parent n = Some p -> descends ts p a -> descends ts t a.

Definition requested (ts : Tokens) (t : nat) : Prop :=
  exists n, ts !! t = Some n /\ local_requested n = true.

Lemma is_cancelled_from_iff ts fuel t :
  tokens_wf ts -> (t < fuel)%nat ->
  is_cancelled_from fuel t ts = true <-> exists a, descends ts t a /\ requested ts a.
Proof.
  intros Hwf. revert t. induction fuel as [|fuel IH]; intros t Ht; [lia|]. simpl.
  destruct (ts !! t) as [n|] eqn:En.
  - rewrite orb_true_iff. destruct (parent n) as [p|] eqn:Ep.
    + pose proof (Hwf _ _ _ En Ep). rewrite IH by lia. split.
      * intros [Hn|(a & Ha & Hr)]; [exists t; split; [constructor|by exists n]|].
        exists a. split; [by econstructor|done].
      * intros (a & Ha & Hr). inversion Ha; simplify_eq; [|right; by exists a].
        left. destruct Hr as (n' & ? & ?). by simplify_eq.
    + split.
      * intros [Hn|[=]]. exists t. split; [constructor|by exists n].
      * intros (a & Ha & Hr). inversion Ha; simplify_eq.
        left. destruct Hr as (n' & ? & ?). by simplify_eq.
  - split; [done|]. intros (a & Ha & (n & Hn & _)). inversion Ha; simplify_eq.
Qed.

Lemma is_cancelled_iff ts t :
  tokens_wf ts ->
  token_is_cancelled t ts = true <-> exists a, descends ts t a /\ requested ts a.
Proof. intros Hwf. apply is_cancelled_from_iff; [done|lia]. Qed.

(** What the arena undergoes: new tokens and requests. *)
Inductive TokenOp : Type :=
| OpRoot
| OpChild (t : nat)
| OpRequest (t : nat).

(** A handle is an index of the arena; a child of anything else is not made. *)
Definition token_op (o : TokenOp) (ts : Tokens) : Tokens :=
  match o with
  | OpRoot => (root_token ts).1
  | OpChild t => if (t <? length ts)%nat then (child_token t ts).1 else ts
  | OpRequest t => (token_request t ts).1
  end.

Definition run_tokens (ops : list TokenOp) (ts : Tokens) : Tokens :=
  fold_left (fun ts o => token_op o ts) ops ts.

(** Later arenas keep every node's parent and every request. *)
Definition tokens_extend (ts ts' : Tokens) : Prop :=
  forall t n, ts !! t = Some n ->
    exists n', ts' !! t = Some n' /\ parent n' = parent n /\
               (local_requested n = true -> local_requested n' = true).

#[export] Instance tokens_extend_preorder : PreOrder tokens_extend.
Proof.
  split.
  - intros ts t n H. by exists n.
  - intros ts1 ts2 ts3 H12 H23 t n H. destruct (H12 _ _ H) as (n2 & H2 & Hp2 & Hr2).
    destruct (H23 _ _ H2) as (n3 & H3 & Hp3 & Hr3). exists n3. split_and!; [done|congruence|auto].
Qed.

Lemma token_new_extend p ts : tokens_extend ts (token_new p ts).1.
Proof. intros t n H. exists n. split; [|done]. simpl. by apply lookup_app_l_Some. Qed.

Lemma token_request_extend t ts : tokens_extend ts (token_request t ts).1.
Proof.
  unfold token_request. destruct (ts !! t) as [m|] eqn:Em; [|reflexivity].
  intros u n H. cbn [fst]. destruct (decide (u = t)) as [->|Hne].
  - simplify_eq. eexists. split; [apply list_lookup_insert_eq; by eapply lookup_lt_Some|done].
  - exists n. by rewrite list_lookup_insert_ne.
Qed.

Lemma token_new_wf p ts :
  tokens_wf ts -> (forall q, p = Some q -> (q < length ts)%nat) -> tokens_wf (token_new p ts).1.
Proof.
  intros Hwf Hp t n q Ht Hq. simpl in Ht. apply lookup_app_Some in Ht as [Ht|[Hl Ht]]; [by eapply Hwf|].
  apply list_lookup_singleton_Some in Ht as [Hz <-]. simpl in Hq. specialize (Hp _ Hq). lia.
Qed.

Lemma token_request_wf t ts : tokens_wf ts -> tokens_wf (token_request t ts).1.
Proof.
  intros Hwf u n p Hu Hp. unfold token_request in Hu. destruct (ts !! t) as [m|] eqn:Em; [|by eapply Hwf].
  cbn [fst] in Hu. destruct (decide (u = t)) as [->|Hne].
  - rewrite list_lookup_insert_eq in Hu by (by eapply lookup_lt_Some). simplify_eq/=. by eapply Hwf.
  - rewrite list_lookup_insert_ne in Hu by done. by eapply Hwf.
Qed.

Lemma token_op_ok o ts : tokens_wf ts -> tokens_wf (token_op o ts) /\ tokens_extend ts (token_op o ts).
Proof.
  intros Hwf. destruct o as [|t|t]; simpl.
  - split; [by apply token_new_wf|apply token_new_extend].
  - destruct (Nat.ltb_spec t (length ts)); [|done].
    split; [apply token_new_wf; [done|by intros q [= <-]]|apply token_new_extend].
  - split; [by apply token_request_wf|apply token_request_extend].
Qed.

Lemma run_tokens_ok ops ts :
  tokens_wf ts -> tokens_wf (run_tokens ops ts) /\ tokens_extend ts (run_tokens ops ts).
Proof.
  revert ts. induction ops as [|o ops IH]; intros ts Hwf; [done|]. simpl.
  destruct (token_op_ok o ts Hwf) as [Hwf1 He1]. destruct (IH _ Hwf1) as [Hwf2 He2].
  split; [done|by etrans].
Qed.

Lemma descends_extend ts ts' t a : tokens_extend ts ts' -> descends ts t a -> descends ts' t a.
Proof.
  intros He. induction 1 as [|t n p a Ht Hp _ IH]; [constructor|].
  destruct (He _ _ Ht) as (n' & Ht' & Hp' & _). eapply descends_parent; [exact Ht'|by rewrite Hp'|done].
Qed.

Lemma requested_extend ts ts' t : tokens_extend ts ts' -> requested ts t -> requested ts' t.
Proof. intros He (n & Hn & Hr). destruct (He _ _ Hn) as (n' & Hn' & _ & Hr'). exists n'. auto. Qed.

Lemma cancelled_extend ts ts' t :
  tokens_wf ts -> tokens_wf ts' -> tokens_extend ts ts' ->
  token_is_cancelled t ts = true -> token_is_cancelled t ts' = true.
Proof.
  intros Hwf Hwf' He. rewrite !is_cancelled_iff by done. intros (a & Ha & Hr).
  exists a. split; [by eapply descends_extend|by eapply requested_extend].
Qed.

Lemma token_request_requested t ts :
  (t < length ts)%nat -> requested (token_request t ts).1 t.
Proof.
  intros Ht. apply lookup_lt_is_Some in Ht as [n Hn]. unfold token_request. rewrite Hn. simpl.
  eexists. split; [apply list_lookup_insert_eq; by eapply lookup_lt_Some|done].
Qed.

Lemma token_request_back t u ts :
  requested (token_request t ts).1 u -> u = t \/ requested ts u.
Proof.
  unfold token_request. destruct (ts !! t) as [m|] eqn:Em; [|by right].
  intros (n & Hn & Hr). cbn [fst] in Hn. destruct (decide (u = t)) as [->|Hne]; [by left|].
  rewrite list_lookup_insert_ne in Hn by done. right. by exists n.
Qed.

Lemma request_descends t u a ts : descends (token_request t ts).1 u a -> descends ts u a.
Proof.
  unfold token_request. destruct (ts !! t) as [m|] eqn:Em; [|done]. cbn [fst].
  induction 1 as [|u n p a Hu Hp _ IH]; [constructor|].
  destruct (decide (u = t)) as [->|Hne].
  - rewrite list_lookup_insert_eq in Hu by (by eapply lookup_lt_Some). simplify_eq/=. by econstructor.
  - rewrite list_lookup_insert_ne in Hu by done. by econstructor.
Qed.

(** Cancelling a token cancels exactly its descendants and stays: on every
    arena that creations and requests build, a request makes cancelled exactly
    what was cancelled or descends from the token, whatever happens later
    those stay cancelled, and only the first request answers that it was. *)
Theorem cancellation_reaches_descendants (ops later : list TokenOp) (t u : nat)
    (Ht : (t < length (run_tokens ops []))%nat) :
  let ts := run_tokens ops [] in
  let ts1 := (token_request t ts).1 in
  let ts2 := run_tokens later ts1 in
  (token_is_cancelled u ts1 = true <-> token_is_cancelled u ts = true \/ descends ts u t) /\
  (token_is_cancelled u ts1 = true -> token_is_cancelled u ts2 = true) /\
  ((token_request t ts).2 = true <-> ~ requested ts t) /\ (token_request t ts2).2 = false.
Proof.
  intros ts ts1 ts2. destruct (run_tokens_ok ops [] ltac:(done)) as [Hwf _]. fold ts in Hwf, Ht.
  assert (Hwf1 : tokens_wf ts1) by (by apply token_request_wf).
  destruct (run_tokens_ok later ts1 Hwf1) as [Hwf2 He2]. fold ts2 in Hwf2, He2.
  pose proof (token_request_extend t ts) as He1. fold ts1 in He1.
  pose proof (token_request_requested t ts Ht) as Hreq. split_and!.
  - rewrite !is_cancelled_iff by done. split.
    + intros (a & Ha & [->|Hr]%token_request_back).
      * right. by eapply request_descends.
      * left. exists a. split; [by eapply request_descends|done].
    + intros [(a & Ha & Hr)|Hd].
      * exists a. split; [by eapply descends_extend|by eapply requested_extend].
      * exists t. split; [by eapply descends_extend|done].
  - by apply cancelled_extend.
  - apply lookup_lt_is_Some in Ht as [n Hn]. unfold token_request, requested. rewrite Hn. simpl.
    destruct (local_requested n) eqn:E; simpl; split; try done.
    + intros H. destruct H. by exists n.
    + intros _ (n' & [= <-] & Hr). congruence.
  - apply (requested_extend _ _ _ He2) in Hreq as (n & Hn & Hr).
    unfold token_request. rewrite Hn. simpl. by rewrite Hr.
Qed.

Lemma cancellation_reaches_descendants_witness :
  token_is_cancelled 2 (token_request 1 (run_tokens [OpRoot; OpChild 0; OpChild 1; OpChild 0] [])).1 = true /\
  token_is_cancelled 3 (token_request 1 (run_tokens [OpRoot; OpChild 0; OpChild 1; OpChild 0] [])).1 = false.
Proof.
  split; [|reflexivity].
  destruct (cancellation_reaches_descendants [OpRoot; OpChild 0; OpChild 1; OpChild 0] [] 1 2) as [H _].
  - apply (Nat.ltb_lt 1 4). reflexivity.
  - apply H. right. eapply descends_parent; [reflexivity..|constructor].
Defined.

(** ** Registry and shutdown *)

Definition runs (p : TaskPhase) : Prop := p = Registered \/ p = Started.

(** How many guards are still held. *)
Definition unfinished (m : gmap Z TaskState) : Z :=
  Z.of_nat (size (filter (fun kv => phase kv.2 <> Finished) m)).

Definition all_finished (m : gmap Z TaskState) : Prop :=
  forall id t, m !! id = Some t -> phase t = Finished.

Definition all_aborted (m : gmap Z TaskState) : Prop :=
  forall id t, m !! id = Some t -> runs (phase t) -> aborted t = true.

(** An answer of [shutdown] that the tasks bear out. *)
Definition outcome_ok (m : gmap Z TaskState) (o : ShutdownOutcome) : Prop :=
  (no_orphans o = true <-> disposition o <> Incomplete) /\
  (disposition o = Graceful -> forced_tasks o = 0) /\
  (if no_orphans o then all_finished m else all_aborted m).

Definition pc_ok (m : gmap Z TaskState) (pc : ShutdownPc) : Prop :=
  match pc with
  | Waiting | Expired => True
  | ForcedWaiting _ => all_aborted m
  | Decided o | Returned o => outcome_ok m o
  end.

Definition gate_ok (s : RuntimeShared) : Prop :=
  match gate s with
  | None => True
  | Some SpawnChecked => lifecycle s = RUNNING
  | Some (SpawnReserved id) =>
      lifecycle s = RUNNING /\ exists t, tasks s !! id = Some t /\ phase t = Reserved
  | Some (SpawnRegistered id) =>
      lifecycle s = RUNNING /\ exists t, tasks s !! id = Some t /\ phase t <> Reserved
  end.

Record rt_ok (s : RuntimeShared) : Prop := {
  rt_tokens : tokens_wf (tokens s) /\ (cancellation s < length (tokens s))%nat;
  rt_ids : next_id s = 1 + Z.of_nat (size (tasks s)) /\
           forall id, is_Some (tasks s !! id) -> 1 <= id < next_id s;
  rt_entries : NoDup (entries s) /\
    forall id, id ∈ entries s <-> exists t, tasks s !! id = Some t /\ runs (phase t);
  rt_active : active s = unfinished (tasks s);
  rt_gate : gate_ok s;
  rt_reserved id t :
    tasks s !! id = Some t -> phase t = Reserved -> gate s = Some (SpawnReserved id);
  rt_registered id t :
    tasks s !! id = Some t -> phase t = Registered -> gate s = Some (SpawnRegistered id);
  rt_task_token id t :
    tasks s !! id = Some t -> descends (tokens s) (task_token t) (cancellation s);
  rt_down : lifecycle s <> RUNNING -> requested (tokens s) (cancellation s);
  rt_shutdowns c pc :
    shutdowns s !! c = Some pc -> lifecycle s <> RUNNING /\ pc_ok (tasks s) pc;
}.

(** *** Counting guards *)

Lemma unfinished_insert_new m id t :
  m !! id = None -> phase t <> Finished -> unfinished (<[id := t]> m) = unfinished m + 1.
Proof.
  intros Hn Hp. unfold unfinished. rewrite map_filter_insert_True by done.
  rewrite map_size_insert_None; [lia|]. apply map_lookup_filter_None. by left.
Qed.

Lemma unfinished_insert_same m id t t' :
  m !! id = Some t -> phase t <> Finished -> phase t' <> Finished ->
  unfinished (<[id := t']> m) = unfinished m.
Proof.
  intros Hn Hp Hp'. unfold unfinished. rewrite map_filter_insert_True by done.
  rewrite map_size_insert_Some; [done|]. exists t. by apply map_lookup_filter_Some.
Qed.

Lemma unfinished_insert_done m id t t' :
  m !! id = Some t -> phase t <> Finished -> phase t' = Finished ->
  unfinished (<[id := t']> m) = unfinished m - 1.
Proof.
  intros Hn Hp Hp'. unfold unfinished. rewrite map_filter_insert_False by (simpl; tauto).
  rewrite map_filter_delete, map_size_delete_Some; [|exists t; by apply map_lookup_filter_Some].
  assert (size (filter (fun kv => phase kv.2 <> Finished) m) <> 0%nat); [|lia].
  intros H. apply map_size_empty_inv in H.
  assert (Hl : filter (fun kv => phase kv.2 <> Finished) m !! id = Some t)
    by (by apply map_lookup_filter_Some). by rewrite H, lookup_empty in Hl.
Qed.

Lemma unfinished_zero m : unfinished m = 0 <-> all_finished m.
Proof.
  unfold unfinished, all_finished. split.
  - intros H id t Ht. destruct (decide (phase t = Finished)) as [|Hp]; [done|].
    assert (Hl : filter (fun kv => phase kv.2 <> Finished) m !! id = Some t)
      by (by apply map_lookup_filter_Some).
    assert (H0 : size (filter (fun kv => phase kv.2 <> Finished) m) = 0%nat) by lia.
    apply map_size_empty_inv in H0. by rewrite H0, lookup_empty in Hl.
  - intros H. assert (H0 : filter (fun kv => phase kv.2 <> Finished) m = ∅).
    { apply map_empty. intros id. apply map_lookup_filter_None. right. intros t Ht Hp. by apply Hp, (H id). }
    by rewrite H0, map_size_empty.
Qed.

Lemma unfinished_bounds m : 0 <= unfinished m <= Z.of_nat (size m).
Proof.
  unfold unfinished. split; [lia|]. apply inj_le, map_subseteq_size, map_filter_subseteq.
Qed.

Lemma alter_known {A} (f : A -> A) (m : gmap Z A) id t :
  m !! id = Some t -> alter f id m = <[id := f t]> m.
Proof.
  intros H. apply map_eq. intros j. destruct (decide (j = id)) as [->|Hne].
  - by rewrite lookup_alter_eq, lookup_insert_eq, H.
  - by rewrite lookup_alter_ne, lookup_insert_ne by done.
Qed.

(** *** Changes that keep the invariant *)

(** Tasks as they were, up to their abort flags. *)
Definition same_tasks (m m' : gmap Z TaskState) : Prop :=
  forall id, match m !! id, m' !! id with
             | Some t, Some t' => task_token t' = task_token t /\ phase t' = phase t /\
                                  (aborted t = true -> aborted t' = true)
             | None, None => True
             | _, _ => False
             end.

Lemma same_tasks_back m m' id t' :
  same_tasks m m' -> m' !! id = Some t' ->
  exists t, m !! id = Some t /\ task_token t' = task_token t /\ phase t' = phase t /\
            (aborted t = true -> aborted t' = true).
Proof. intros Hs Ht. specialize (Hs id). rewrite Ht in Hs. destruct (m !! id) as [t|]; [by exists t|done]. Qed.

Lemma same_tasks_forth m m' id t :
  same_tasks m m' -> m !! id = Some t ->
  exists t', m' !! id = Some t' /\ task_token t' = task_token t /\ phase t' = phase t /\
            (aborted t = true -> aborted t' = true).
Proof. intros Hs Ht. specialize (Hs id). rewrite Ht in Hs. destruct (m' !! id) as [t'|]; [by exists t'|done]. Qed.

Lemma same_tasks_dom m m' : same_tasks m m' -> dom m' = dom m.
Proof.
  intros Hs. apply set_eq. intros id. rewrite !elem_of_dom. specialize (Hs id).
  destruct (m !! id), (m' !! id); naive_solver.
Qed.

Lemma same_tasks_unfinished m m' : same_tasks m m' -> unfinished m' = unfinished m.
Proof.
  intros Hs. unfold unfinished. rewrite <- !(size_dom (D := gset Z)). do 2 f_equal.
  apply set_eq. intros id. rewrite !elem_of_dom. unfold is_Some.
  split; intros [t [Ht Hp]%map_lookup_filter_Some].
  - destruct (same_tasks_back _ _ _ _ Hs Ht) as (t0 & ? & _ & Hph & _). exists t0.
    apply map_lookup_filter_Some. simpl in *. by rewrite <- Hph.
  - destruct (same_tasks_forth _ _ _ _ Hs Ht) as (t0 & ? & _ & Hph & _). exists t0.
    apply map_lookup_filter_Some. simpl in *. by rewrite Hph.
Qed.

Lemma same_tasks_pc m m' pc : same_tasks m m' -> pc_ok m pc -> pc_ok m' pc.
Proof.
  intros Hs.
  assert (Hf : all_finished m -> all_finished m').
  { intros H id t' Ht. destruct (same_tasks_back _ _ _ _ Hs Ht) as (t & H1 & _ & Hp & _).
    rewrite Hp. by eapply H. }
  assert (Ha : all_aborted m -> all_aborted m').
  { intros H id t' Ht Hr. destruct (same_tasks_back _ _ _ _ Hs Ht) as (t & H1 & _ & Hp & Hab).
    rewrite Hp in Hr. apply Hab. by eapply H. }
  destruct pc; simpl; unfold outcome_ok; try destruct (no_orphans o); naive_solver.
Qed.

Lemma rt_ok_tasks s m :
  rt_ok s -> same_tasks (tasks s) m -> rt_ok (set_tasks m s).
Proof.
  intros [Htok [Hid1 Hid2] [Hnd He] Hact Hg Hres Hreg Htt Hdn Hsh] Hs.
  pose proof (same_tasks_dom _ _ Hs) as Hdom. split; simpl; try done.
  - rewrite <- !(size_dom (D := gset Z)) in *. rewrite Hdom. split; [done|].
    intros id. rewrite <- elem_of_dom, Hdom, elem_of_dom. apply Hid2.
  - split; [done|]. intros id. rewrite He. split; intros (t & Ht & Hr).
    + destruct (same_tasks_forth _ _ _ _ Hs Ht) as (t' & ? & _ & Hp & _). exists t'. by rewrite Hp.
    + destruct (same_tasks_back _ _ _ _ Hs Ht) as (t' & ? & _ & Hp & _). exists t'. by rewrite <- Hp.
  - by rewrite (same_tasks_unfinished _ _ Hs).
  - unfold gate_ok in *; simpl. destruct (gate s) as [[| |]|]; try done.
    + destruct Hg as (? & t & Ht & Hp). destruct (same_tasks_forth _ _ _ _ Hs Ht) as (t' & ? & _ & Hq & _).
      split; [done|]. exists t'. by rewrite Hq.
    + destruct Hg as (? & t & Ht & Hp). destruct (same_tasks_forth _ _ _ _ Hs Ht) as (t' & ? & _ & Hq & _).
      split; [done|]. exists t'. by rewrite Hq.
  - intros id t' Ht. destruct (same_tasks_back _ _ _ _ Hs Ht) as (t & ? & _ & -> & _). by eapply Hres.
  - intros id t' Ht. destruct (same_tasks_back _ _ _ _ Hs Ht) as (t & ? & _ & -> & _). by eapply Hreg.
  - intros id t' Ht. destruct (same_tasks_back _ _ _ _ Hs Ht) as (t & ? & -> & _). by eapply Htt.
  - intros c pc Hc. destruct (Hsh _ _ Hc). split; [done|by eapply same_tasks_pc].
Qed.

Lemma rt_ok_tokens s ts :
  rt_ok s -> tokens_extend (tokens s) ts -> tokens_wf ts -> rt_ok (set_tokens ts s).
Proof.
  intros [[Hwf Hc] Hid He Hact Hg Hres Hreg Htt Hdn Hsh] Hx Hwf'. split; simpl; try done.
  - split; [done|]. apply lookup_lt_is_Some in Hc as [n Hn]. destruct (Hx _ _ Hn) as (n' & Hn' & _).
    by eapply lookup_lt_Some.
  - intros id t Ht. eapply descends_extend; [done|by eapply Htt].
  - intros Hl. eapply requested_extend; [done|by apply Hdn].
Qed.

Lemma rt_ok_shutdown s c pc :
  rt_ok s -> lifecycle s <> RUNNING -> pc_ok (tasks s) pc -> rt_ok (set_shutdown c pc s).
Proof.
  intros [Htok Hid He Hact Hg Hres Hreg Htt Hdn Hsh] Hl Hpc. split; simpl; try done.
  intros c' pc' [[<- <-]|[_ H]]%lookup_insert_Some; [done|]. by eapply Hsh.
Qed.

Lemma set_tasks_id s : set_tasks (tasks s) s = s.
Proof. by destruct s. Qed.

Lemma same_tasks_refl m : same_tasks m m.
Proof. intros id. by destruct (m !! id). Qed.

Lemma same_tasks_trans m1 m2 m3 : same_tasks m1 m2 -> same_tasks m2 m3 -> same_tasks m1 m3.
Proof.
  intros H12 H23 id. specialize (H12 id). specialize (H23 id).
  destruct (m1 !! id), (m2 !! id), (m3 !! id); try done. destruct_and!. split_and!; [congruence..|auto].
Qed.

Lemma abort_same id m : same_tasks m (alter set_aborted id m).
Proof.
  intros j. destruct (decide (j = id)) as [->|Hne].
  - rewrite lookup_alter_eq. by destruct (m !! id).
  - rewrite lookup_alter_ne by done. by destruct (m !! j).
Qed.

Lemma abort_fold l s n :
  exists m, fold_left abort_entry l (s, n) = (set_tasks m s, (fold_left abort_entry l (s, n)).2) /\
    same_tasks (tasks s) m /\ n <= (fold_left abort_entry l (s, n)).2 /\
    forall id t, id ∈ l -> m !! id = Some t -> phase t <> Finished -> aborted t = true.
Proof.
  revert s n. induction l as [|e l IH]; intros s n.
  { exists (tasks s). simpl. rewrite set_tasks_id. split_and!; [done|apply same_tasks_refl|lia|].
    by intros id t ?%elem_of_nil. }
  simpl. destruct (is_finished e s) eqn:Ef.
  - destruct (IH s n) as (m & Hm & Hs & Hn & Ha). exists m. split_and!; try done.
    intros id t [->|Hin]%elem_of_cons Ht Hp; [|by eapply Ha].
    destruct (same_tasks_back _ _ _ _ Hs Ht) as (t0 & Ht0 & _ & Hph & _).
    unfold is_finished in Ef. rewrite Ht0 in Ef. apply bool_decide_eq_true in Ef. congruence.
  - destruct (IH (abort e s) (n + 1)) as (m & Hm & Hs & Hn & Ha). exists m. split_and!.
    + rewrite Hm at 1. done.
    + eapply same_tasks_trans; [apply (abort_same e)|done].
    + lia.
    + intros id t [->|Hin]%elem_of_cons Ht Hp; [|by eapply Ha].
      destruct (same_tasks_back _ _ _ _ Hs Ht) as (t0 & Ht0 & _ & _ & Hab). apply Hab.
      simpl in Ht0. rewrite lookup_alter_eq in Ht0. by destruct (tasks s !! e); simplify_eq/=.
Qed.

Lemma abort_all_ok s s' n :
  rt_ok s -> abort_all s = (s', n) ->
  rt_ok s' /\ lifecycle s' = lifecycle s /\ shutdowns s' = shutdowns s /\ gate s' = gate s /\
  same_tasks (tasks s) (tasks s') /\ all_aborted (tasks s').
Proof.
  intros Hok H. unfold abort_all in H.
  destruct (abort_fold (entries s) s 0) as (m & Hm & Hs & _ & Ha).
  rewrite Hm in H. simplify_eq. split_and!; try done; [by apply rt_ok_tasks|].
  intros id t Ht Hr. simpl in Ht. eapply Ha; [|done|by destruct Hr as [->| ->]].
  apply (rt_entries _ Hok). destruct (same_tasks_back _ _ _ _ Hs Ht) as (t0 & ? & _ & Hp & _).
  exists t0. by rewrite <- Hp.
Qed.

Lemma begin_shutdown_ok s s' b :
  rt_ok s -> gate s = None -> begin_shutdown s = (s', b) ->
  rt_ok s' /\ lifecycle s' <> RUNNING /\ tasks s' = tasks s /\ shutdowns s' = shutdowns s.
Proof.
  intros Hok Hgate H. unfold begin_shutdown, is_running in H. case_bool_decide as Hl; simplify_eq; [|done].
  destruct (token_request (cancellation s) (tokens s)) as [ts first] eqn:Er. simplify_eq/=.
  pose proof (token_request_extend (cancellation s) (tokens s)) as Hx. rewrite Er in Hx. simpl in Hx.
  split; [|done].
  assert (Hwf : tokens_wf ts).
  { pose proof (token_request_wf (cancellation s) (tokens s) (proj1 (rt_tokens _ Hok))) as H.
    by rewrite Er in H. }
  assert (Hreq : requested ts (cancellation s)).
  { pose proof (token_request_requested _ _ (proj2 (rt_tokens _ Hok))) as H. by rewrite Er in H. }
  apply (rt_ok_tokens _ ts) in Hok; [|done..].
  destruct Hok as [Htok Hid He Hact Hg Hres Hreg Htt Hdn Hsh]. split; simpl in *; try done.
  - unfold gate_ok in *; simpl in *. by rewrite Hgate in *.
  - intros c pc Hc. destruct (Hsh _ _ Hc). split; [done|done].
Qed.

(** *** One task moves on *)

(** The phases a move may enter: never back, and never to running unless it
    was on the way. *)
Definition moves (t : TaskState) (p : TaskPhase) : Prop :=
  phase t <> Finished /\ (runs p -> runs (phase t) \/ phase t = Reserved).

Lemma moved_pc m id t p pc :
  m !! id = Some t -> phase t <> Reserved -> moves t p -> pc_ok m pc ->
  pc_ok (<[id := set_phase p t]> m) pc.
Proof.
  intros Ht Hnr [Hnf Hp].
  assert (Ha : all_aborted m -> all_aborted (<[id := set_phase p t]> m)).
  { intros H j u [[<- <-]|[_ Hu]]%lookup_insert_Some Hr; [|by eapply H].
    simpl in *. destruct (Hp Hr); [|done]. by eapply H. }
  destruct pc as [| |n|o|o]; simpl; auto; intros (H1 & H2 & H3); split_and!; try done;
    destruct (no_orphans o); auto; by destruct Hnf; eapply H3.
Qed.

Lemma no_shutdown_running s c : rt_ok s -> lifecycle s = RUNNING -> shutdowns s !! c = None.
Proof.
  intros Hok Hl. destruct (shutdowns s !! c) as [pc|] eqn:E; [|done].
  by destruct (rt_shutdowns _ Hok _ _ E).
Qed.

Lemma gate_none_ok s g :
  rt_ok s -> gate s = None -> (match g with Some SpawnChecked => lifecycle s = RUNNING | None => True | _ => False end) ->
  rt_ok (set_gate g s).
Proof.
  intros [Htok Hid He Hact Hg Hres Hreg Htt Hdn Hsh] Hn Hg'. split; simpl; try done.
  - unfold gate_ok; simpl. by destruct g as [[]|].
  - intros id t Ht Hp. specialize (Hres _ _ Ht Hp). congruence.
  - intros id t Ht Hp. specialize (Hreg _ _ Ht Hp). congruence.
Qed.

Lemma reserve_ok s s' id :
  rt_ok s -> gate s = Some SpawnChecked -> reserve s = (s', id) ->
  Z.of_nat (size (tasks s')) < u64_max -> rt_ok (set_gate (Some (SpawnReserved id)) s').
Proof.
  intros Hok Hgate H Hsize. pose proof Hok as [[Hwf Hc] [Hid1 Hid2] [Hnd He] Hact Hg Hres Hreg Htt Hdn Hsh].
  unfold gate_ok in Hg. rewrite Hgate in Hg. unfold reserve in H. simpl in H. simplify_eq/=.
  assert (Hfresh : tasks s !! next_id s = None).
  { destruct (tasks s !! next_id s) eqn:E; [|done]. assert (is_Some (tasks s !! next_id s)) as H by eauto.
    apply Hid2 in H. lia. }
  rewrite map_size_insert_None in Hsize by done.
  pose proof (unfinished_bounds (tasks s)).
  pose proof (token_new_extend (Some (cancellation s)) (tokens s)) as Hx.
  split; simpl; try done.
  - split; [apply (token_new_wf (Some (cancellation s)) (tokens s)); [done|by intros q [= <-]]|].
    rewrite length_app. lia.
  - rewrite map_size_insert_None by done. rewrite wrap_u64_small by (unfold is_u64; lia). split; [lia|].
    intros id [t [[<- _]|[_ Ht]]%lookup_insert_Some]; [lia|].
    assert (is_Some (tasks s !! id)) as Hs by eauto. apply Hid2 in Hs. lia.
  - split; [done|]. intros id. rewrite He. split; intros (t & Ht & Hr).
    + exists t. split; [|done]. rewrite lookup_insert_ne; [done|]. intros <-. congruence.
    + apply lookup_insert_Some in Ht as [[_ <-]|[_ Ht]]; [by destruct Hr|by exists t].
  - rewrite unfinished_insert_new by done. rewrite Hact, wrap_u64_small; [done|]. unfold is_u64. lia.
  - split; [done|]. eexists. split; [apply lookup_insert_eq|done].
  - intros id t [[<- <-]|[_ Ht]]%lookup_insert_Some Hp; [done|].
    specialize (Hres _ _ Ht Hp). congruence.
  - intros id t [[<- <-]|[_ Ht]]%lookup_insert_Some Hp; [done|].
    specialize (Hreg _ _ Ht Hp). congruence.
  - intros id t [[<- <-]|[_ Ht]]%lookup_insert_Some.
    + simpl. eapply descends_parent; [by apply list_lookup_middle|done|constructor].
    + eapply descends_extend; [exact Hx|by eapply Htt].
  - intros c pc Hcp. rewrite (no_shutdown_running s c) in Hcp by done. done.
Qed.

(** A known task enters phase [p]; the caller accounts for the registry, the
    counter and the lock. *)
Lemma task_move_ok s id t p g l a :
  rt_ok s -> tasks s !! id = Some t -> phase t <> Finished -> p <> Reserved ->
  NoDup l /\ (forall j, j ∈ l <-> (j = id /\ runs p) \/ (j <> id /\ j ∈ entries s)) ->
  a = (if p == Finished then active s - 1 else active s) ->
  (p = Registered -> g = Some (SpawnRegistered id)) ->
  (forall j t', j <> id -> tasks s !! j = Some t' ->
     (phase t' = Reserved -> g = Some (SpawnReserved j)) /\
     (phase t' = Registered -> g = Some (SpawnRegistered j))) ->
  (lifecycle s <> RUNNING -> phase t <> Reserved /\ moves t p) ->
  let s' := {| lifecycle := lifecycle s; gate := g; tokens := tokens s;
               cancellation := cancellation s; next_id := next_id s; entries := l; active := a;
               tasks := <[id := set_phase p t]> (tasks s); shutdowns := shutdowns s |} in
  gate_ok s' -> rt_ok s'.
Proof.
  intros Hok Ht Hnf Hnr [Hnd' Hl'] Ha Hg1 Hg2 Hdown s' Hgs.
  pose proof Hok as [[Hwf Hc] [Hid1 Hid2] [Hnd He] Hact Hg Hres Hreg Htt Hdn Hsh].
  subst s'. split; simpl; try done.
  - rewrite map_size_insert_Some by eauto. split; [done|].
    intros j Hj. apply Hid2. apply lookup_insert_is_Some in Hj as [<-|[_ Hj]]; eauto.
  - split; [done|]. intros j. rewrite Hl'. destruct (decide (j = id)) as [->|Hne].
    + rewrite lookup_insert_eq. naive_solver.
    + rewrite He, lookup_insert_ne by done. naive_solver.
  - subst a. case_bool_decide as Hp.
    + rewrite (unfinished_insert_done _ _ t) by done. by rewrite Hact.
    + by rewrite (unfinished_insert_same _ _ t) by done.
  - intros j t' [[<- <-]|[Hne Ht']]%lookup_insert_Some Hp'; [done|]. by apply (Hg2 j t').
  - intros j t' [[<- <-]|[Hne Ht']]%lookup_insert_Some Hp'; [by apply Hg1|]. by apply (Hg2 j t').
  - intros j t' [[<- <-]|[Hne Ht']]%lookup_insert_Some; [exact (Htt _ _ Ht)|exact (Htt _ _ Ht')].
  - intros c pc Hcp. destruct (Hsh _ _ Hcp) as [Hl Hpc]. split; [done|].
    destruct (Hdown Hl). by eapply moved_pc.
Qed.

Lemma register_step_ok s id :
  rt_ok s -> gate s = Some (SpawnReserved id) ->
  rt_ok (set_gate (Some (SpawnRegistered id)) (move_task id Registered (register id s))).
Proof.
  intros Hok Hgate. pose proof Hok as [_ _ [Hnd He] _ Hg Hres Hreg _ _ _].
  unfold gate_ok in Hg. rewrite Hgate in Hg. destruct Hg as (Hl & t & Ht & Hp).
  unfold move_task, register, set_gate, set_tasks, set_entries; simpl.
  rewrite (alter_known _ _ _ _ Ht).
  assert (Hin : id ∉ entries s).
  { rewrite He. intros (t' & ? & Hr). simplify_eq. rewrite Hp in Hr. by destruct Hr. }
  apply (task_move_ok s id t Registered); try done; try congruence.
  - split.
    + apply NoDup_app. split_and!; [done| |apply NoDup_singleton].
      by intros x Hx ->%list_elem_of_singleton.
    + intros j. rewrite elem_of_app, list_elem_of_singleton.
      destruct (decide (j = id)) as [->|]; unfold runs; naive_solver.
  - intros j t' Hne Ht'. split; intros Hp'.
    + specialize (Hres _ _ Ht' Hp'). congruence.
    + specialize (Hreg _ _ Ht' Hp'). congruence.
  - split; [done|]. eexists. split; [apply lookup_insert_eq|done].
Qed.

Lemma start_step_ok s id t :
  rt_ok s -> gate s = Some (SpawnRegistered id) -> tasks s !! id = Some t -> phase t = Registered ->
  rt_ok (set_gate None (move_task id Started s)).
Proof.
  intros Hok Hgate Ht Hp. pose proof Hok as [_ _ [Hnd He] _ Hg Hres Hreg _ _ _].
  unfold move_task, set_gate, set_tasks; simpl. rewrite (alter_known _ _ _ _ Ht).
  apply (task_move_ok s id t Started); try done; try congruence.
  - split; [done|]. intros j. destruct (decide (j = id)) as [->|]; [|unfold runs; naive_solver].
    rewrite He. unfold runs. naive_solver.
  - intros j t' Hne Ht'. split; intros Hp'.
    + specialize (Hres _ _ Ht' Hp'). congruence.
    + specialize (Hreg _ _ Ht' Hp'). congruence.
  - intros _. unfold moves, runs. rewrite Hp. naive_solver.
Qed.

(** Ends of tasks leave the lock alone. *)
Lemma end_gate_ok s id t p (l : list Z) (a : Z) :
  rt_ok s -> tasks s !! id = Some t -> phase t <> Reserved -> p <> Reserved ->
  gate_ok {| lifecycle := lifecycle s; gate := gate s; tokens := tokens s;
             cancellation := cancellation s; next_id := next_id s; entries := l; active := a;
             tasks := <[id := set_phase p t]> (tasks s); shutdowns := shutdowns s |}.
Proof.
  intros Hok Ht Hp Hp'. pose proof (rt_gate _ Hok) as Hg. unfold gate_ok in *; simpl.
  destruct (gate s) as [[|j|j]|]; try done; destruct Hg as (Hl & u & Hu & Hph); split; try done.
  - exists u. rewrite lookup_insert_ne; [done|]. intros <-. congruence.
  - destruct (decide (j = id)) as [->|Hne]; [|exists u; by rewrite lookup_insert_ne].
    eexists. split; [apply lookup_insert_eq|done].
Qed.

Lemma end_step_ok s id t :
  rt_ok s -> tasks s !! id = Some t -> runs (phase t) ->
  rt_ok (move_task id Dropping (finish_retain id s)).
Proof.
  intros Hok Ht Hr. pose proof Hok as [_ _ [Hnd He] _ Hg Hres Hreg _ _ _].
  unfold move_task, finish_retain, set_tasks, set_entries; simpl. rewrite (alter_known _ _ _ _ Ht).
  assert (Hph : phase t <> Finished /\ phase t <> Reserved) by (destruct Hr as [-> | ->]; done).
  destruct Hph. apply (task_move_ok s id t Dropping); try done.
  - split; [by apply NoDup_filter|]. intros j. rewrite list_elem_of_filter. unfold runs. naive_solver.
  - intros j t' Hne Ht'. split; intros Hp'; by eauto.
  - intros _. split; [done|]. split; [done|]. by intros [|].
  - by apply end_gate_ok.
Qed.

Lemma finish_step_ok s id t :
  rt_ok s -> Z.of_nat (size (tasks s)) < u64_max -> tasks s !! id = Some t -> phase t = Dropping ->
  rt_ok (move_task id Finished (finish_release s)).
Proof.
  intros Hok Hsize Ht Hp. pose proof Hok as [_ _ [Hnd He] Hact Hg Hres Hreg _ _ _].
  unfold move_task, finish_release, set_tasks; simpl. rewrite (alter_known _ _ _ _ Ht).
  apply (task_move_ok s id t Finished); try done; try congruence.
  - split; [done|]. intros j. rewrite He. unfold runs.
    destruct (decide (j = id)) as [->|]; [|naive_solver]. split; [|naive_solver].
    intros (t' & ? & Hr). simplify_eq. rewrite Hp in Hr. naive_solver.
  - simpl. pose proof (unfinished_bounds (tasks s)). rewrite wrap_u64_small; [done|].
    assert (unfinished (tasks s) <> 0).
    { rewrite unfinished_zero. intros Hz. specialize (Hz _ _ Ht). congruence. }
    unfold is_u64. lia.
  - intros j t' Hne Ht'. split; intros Hp'; by eauto.
  - intros _. rewrite Hp. split; [done|]. split; [congruence|]. by intros [|].
  - apply end_gate_ok; try done. congruence.
Qed.

Lemma force_abort_ok s s' id t d :
  rt_ok s -> handle_force_abort id t s = (s', d) -> rt_ok s'.
Proof.
  intros Hok H. unfold handle_force_abort in H. destruct (is_finished id s); simplify_eq; [done|].
  destruct (token_request t (tokens s)) as [ts first] eqn:E. simplify_eq.
  apply rt_ok_tasks; [|apply abort_same]. apply rt_ok_tokens; [done|..].
  - pose proof (token_request_extend t (tokens s)) as Hx. by rewrite E in Hx.
  - pose proof (token_request_wf t (tokens s) (proj1 (rt_tokens _ Hok))) as Hx. by rewrite E in Hx.
Qed.

Lemma cancel_ok s s' id t d : rt_ok s -> handle_cancel id t s = (s', d) -> rt_ok s'.
Proof.
  intros Hok H. unfold handle_cancel in H. destruct (is_finished id s); simplify_eq; [done|].
  destruct (token_request t (tokens s)) as [ts first] eqn:E. simplify_eq.
  apply rt_ok_tokens; [done|..].
  - pose proof (token_request_extend t (tokens s)) as Hx. by rewrite E in Hx.
  - pose proof (token_request_wf t (tokens s) (proj1 (rt_tokens _ Hok))) as Hx. by rewrite E in Hx.
Qed.

Lemma child_step_ok s ts c id t :
  rt_ok s -> tasks s !! id = Some t -> child_token (task_token t) (tokens s) = (ts, c) ->
  rt_ok (set_tokens ts s).
Proof.
  intros Hok Ht H. unfold child_token, token_new in H. simplify_eq. pose proof (rt_tokens _ Hok) as [Hwf Hc].
  apply rt_ok_tokens; [done|apply (token_new_extend (Some (task_token t)))|].
  apply (token_new_wf (Some (task_token t))); [done|]. intros q [= <-].
  pose proof (rt_task_token _ Hok _ _ Ht) as Hd. inversion Hd; subst; [congruence|].
  by eapply lookup_lt_Some.
Qed.

Lemma shutdown_return_ok s o c :
  rt_ok s -> shutdowns s !! c = Some (Decided o) ->
  rt_ok (set_shutdown c (Returned o) (set_lifecycle TERMINATED s)).
Proof.
  intros Hok Hc. destruct (rt_shutdowns _ Hok _ _ Hc) as [Hl Hpc].
  apply rt_ok_shutdown; [|done|done].
  destruct Hok as [Htok Hid He Hact Hg Hres Hreg Htt Hdn Hsh]. split; simpl; try done.
  - unfold gate_ok in *; simpl. destruct (gate s) as [[| |]|]; try done; by destruct Hl; destruct_and?.
  - intros _. by apply Hdn.
  - intros c' pc' Hc'. by destruct (Hsh _ _ Hc').
Qed.

Lemma rt_step_size s s' : rt_step s s' -> (size (tasks s) <= size (tasks s'))%nat.
Proof.
  assert (Halter : forall f id (m : gmap Z TaskState), size (alter f id m) = size m).
  { intros f id m. rewrite <- !(size_dom (D := gset Z)). by rewrite dom_alter_L. }
  assert (Habort : forall s s' n, abort_all s = (s', n) -> size (tasks s') = size (tasks s)).
  { intros s0 s1 n H. unfold abort_all in H. destruct (abort_fold (entries s0) s0 0) as (m & Hm & Hs & _).
    rewrite Hm in H. simplify_eq/=. apply same_tasks_dom in Hs.
    rewrite <- !(size_dom (D := gset Z)). by rewrite Hs. }
  assert (Hbegin : forall s s' b, begin_shutdown s = (s', b) -> tasks s' = tasks s).
  { intros s0 s1 b H. unfold begin_shutdown in H. repeat case_match; by simplify_eq/=. }
  intros [ ]; simpl; rewrite ?Halter; simpl; try lia;
    repeat match goal with
    | H : abort_all _ = _ |- _ => rewrite (Habort _ _ _ H); lia
    | H : begin_shutdown _ = _ |- _ => rewrite (Hbegin _ _ _ H); lia
    | H : reserve ?s = _ |- _ =>
        unfold reserve in H; simplify_eq/=; rewrite map_size_insert; destruct (tasks s !! _); simpl; lia
    | H : handle_cancel _ _ _ = _ |- _ => unfold handle_cancel in H; repeat case_match; by simplify_eq/=
    | H : handle_force_abort _ _ _ = _ |- _ =>
        unfold handle_force_abort in H; repeat case_match; simplify_eq/=; rewrite ?Halter; done
    end.
Qed.

Lemma rt_step_ok s s' :
  rt_ok s -> rt_step s s' -> Z.of_nat (size (tasks s')) < u64_max -> rt_ok s'.
Proof.
  intros Hok Hst Hsize. pose proof (rt_step_size _ _ Hst) as Hle.
  assert (Hs : Z.of_nat (size (tasks s)) < u64_max) by lia. clear Hle.
  destruct Hst.
  - done.
  - apply gate_none_ok; [done..|]. by apply bool_decide_eq_true in H0.
  - by eapply reserve_ok.
  - by apply register_step_ok.
  - by eapply start_step_ok.
  - pose proof Hok as [Htok Hid He Hact Hg Hres Hreg Htt Hdn Hsh]. split; simpl; try done.
    + intros j t' Ht' Hp. specialize (Hres _ _ Ht' Hp). congruence.
    + intros j t' Ht' Hp. specialize (Hreg _ _ Ht' Hp). simplify_eq.
  - eapply end_step_ok; [done..|]. unfold runs. naive_solver.
  - by eapply finish_step_ok.
  - by eapply cancel_ok.
  - by eapply force_abort_ok.
  - by eapply child_step_ok.
  - by eapply begin_shutdown_ok.
  - by eapply abort_all_ok.
  - eapply begin_shutdown_ok in H1 as (? & ? & ? & ?); [|done..]. by apply rt_ok_shutdown.
  - destruct (rt_shutdowns _ Hok _ _ H) as [Hl _]. apply rt_ok_shutdown; [done..|].
    split_and!; [done|done|]. simpl. apply unfinished_zero. by rewrite <- (rt_active _ Hok).
  - destruct (rt_shutdowns _ Hok _ _ H) as [Hl _]. by apply rt_ok_shutdown.
  - destruct (rt_shutdowns _ Hok _ _ H) as [Hl _].
    eapply abort_all_ok in H0 as (? & ? & ? & ? & ? & ?); [|done]. apply rt_ok_shutdown; [done|congruence|done].
  - destruct (rt_shutdowns _ Hok _ _ H) as [Hl Hpc]. apply rt_ok_shutdown; [done..|].
    unfold pc_ok, outcome_ok; simpl. destruct (Z.eqb_spec (active s) 0) as [Hz|Hz]; simpl.
    + split_and!; [done|done|]. apply unfinished_zero. by rewrite <- (rt_active _ Hok).
    + by split_and!.
  - by apply shutdown_return_ok.
Qed.

Lemma rt_init_ok : rt_ok RuntimeShared_new.
Proof.
  split; simpl; try done.
  - split; [|lia]. intros t n p Ht. apply list_lookup_singleton_Some in Ht as [-> <-]. done.
  - split; [done|]. intros id [t Ht]. by rewrite lookup_empty in Ht.
  - split; [constructor|]. intros id. split; [by intros ?%elem_of_nil|].
    intros (t & Ht & _). by rewrite lookup_empty in Ht.
Qed.

Lemma rt_reach_ok s : rt_reach s -> Z.of_nat (size (tasks s)) < u64_max -> rt_ok s.
Proof.
  induction 1 as [|s s' _ IH Hst]; [intros _; apply rt_init_ok|].
  intros Hsize. eapply rt_step_ok; [|done..]. apply IH. pose proof (rt_step_size _ _ Hst). lia.
Qed.

(** Once shutdown has begun: no task is added, and answers stand. *)
Lemma down_step s s' :
  rt_ok s -> lifecycle s <> RUNNING -> rt_step s s' ->
  lifecycle s' <> RUNNING /\ dom (tasks s') = dom (tasks s) /\
  (forall c o, shutdowns s !! c = Some (Returned o) -> shutdowns s' !! c = Some (Returned o)).
Proof.
  intros Hok Hl Hst.
  assert (Hbegin : forall s1 b, begin_shutdown s = (s1, b) -> s1 = s).
  { intros s1 b H. unfold begin_shutdown, is_running in H. case_bool_decide; by simplify_eq. }
  assert (Habort : forall s1 n, abort_all s = (s1, n) -> lifecycle s1 = lifecycle s /\
    dom (tasks s1) = dom (tasks s) /\ shutdowns s1 = shutdowns s).
  { intros s1 n H. eapply abort_all_ok in H as (_ & ? & ? & _ & Hs & _); [|done].
    by rewrite (same_tasks_dom _ _ Hs). }
  assert (Hpc : forall c c' pc o, shutdowns s !! c' = Some pc \/ shutdowns s !! c' = None ->
    (forall o, pc <> Returned o) -> forall pc', shutdowns s !! c = Some (Returned o) ->
    <[c' := pc']> (shutdowns s) !! c = Some (Returned o)).
  { intros c c' pc o Hc' Hne pc' Hc. rewrite lookup_insert_ne; [done|]. intros ->.
    destruct Hc' as [Hc'|Hc']; rewrite Hc in Hc'; [|done]. simplify_eq. by eapply Hne. }
  pose proof (rt_gate _ Hok) as Hg. unfold gate_ok in Hg.
  destruct Hst; simpl; rewrite ?dom_alter_L; try done;
    try match goal with
    | H : begin_shutdown _ = _ |- _ => apply Hbegin in H as ->
    | H : abort_all _ = _ |- _ => apply Habort in H as (-> & -> & ->)
    | H : gate _ = Some _ |- _ => rewrite H in Hg; destruct_and?; done
    | H : handle_cancel _ _ _ = _ |- _ => unfold handle_cancel in H; repeat case_match; by simplify_eq/=
    | H : handle_force_abort _ _ _ = _ |- _ =>
        unfold handle_force_abort in H; repeat case_match; simplify_eq/=; by rewrite ?dom_alter_L
    end; split_and!; try done; intros c0 o0;
    first [eapply Hpc; [left; eassumption|done] | apply (Hpc _ _ Waiting); [by right|done]].
Qed.

Lemma down_steps s s' :
  rtc rt_step s s' -> rt_ok s -> lifecycle s <> RUNNING -> Z.of_nat (size (tasks s)) < u64_max ->
  rt_ok s' /\ lifecycle s' <> RUNNING /\ dom (tasks s') = dom (tasks s) /\
  (forall c o, shutdowns s !! c = Some (Returned o) -> shutdowns s' !! c = Some (Returned o)).
Proof.
  induction 1 as [s|s s1 s2 Hst _ IH]; intros Hok Hl Hsize; [done|].
  destruct (down_step _ _ Hok Hl Hst) as (Hl1 & Hd1 & Hr1).
  assert (Hsz1 : size (tasks s1) = size (tasks s))
    by (rewrite <- !(size_dom (D := gset Z)); by rewrite Hd1).
  destruct IH as (? & ? & Hd2 & Hr2); [eapply rt_step_ok; [done..|lia]|done|lia|].
  split_and!; [done|done|congruence|auto].
Qed.

Lemma all_finished_entries s : rt_ok s -> all_finished (tasks s) -> entries s = [] /\ active s = 0.
Proof.
  intros Hok Hf. split.
  - apply elem_of_nil_inv. intros id (t & Ht & Hr)%(rt_entries _ Hok).
    rewrite (Hf _ _ Ht) in Hr. by destruct Hr.
  - rewrite (rt_active _ Hok). by apply unfinished_zero.
Qed.

Lemma down_cancelled s id t :
  rt_ok s -> lifecycle s <> RUNNING -> tasks s !! id = Some t ->
  token_is_cancelled (task_token t) (tokens s) = true /\ phase t <> Reserved.
Proof.
  intros Hok Hl Ht. split.
  - apply is_cancelled_iff; [apply (rt_tokens _ Hok)|]. eexists. split; [by eapply rt_task_token|].
    by apply rt_down.
  - intros Hp. pose proof (rt_reserved _ Hok _ _ Ht Hp) as Hg. pose proof (rt_gate _ Hok) as Hgo.
    unfold gate_ok in Hgo. rewrite Hg in Hgo. by destruct Hgo.
Qed.

(** The registry accounts for every task under every interleaving: the
    active counter is the number of guards still held and never wraps, the
    registered entries are exactly the tasks that may run, each once, and from
    the moment shutdown begins every task, whenever it was spawned, is
    registered and has its token cancelled. *)
Theorem registry_accounts_for_tasks (s : RuntimeShared) (H : rt_reach s)
    (Hn : Z.of_nat (size (tasks s)) < u64_max) :
  active s = unfinished (tasks s) /\ NoDup (entries s) /\
  (forall id, id ∈ entries s <-> exists t, tasks s !! id = Some t /\ runs (phase t)) /\
  (lifecycle s <> RUNNING -> forall id t, tasks s !! id = Some t ->
     token_is_cancelled (task_token t) (tokens s) = true /\ phase t <> Reserved).
Proof.
  pose proof (rt_reach_ok s H Hn) as Hok. split_and!.
  - apply (rt_active _ Hok).
  - apply (rt_entries _ Hok).
  - apply (rt_entries _ Hok).
  - intros Hl id t. by apply down_cancelled.
Qed.

(** Shutdown leaves no orphans it does not report: when [shutdown] has
    returned, and for ever after under every interleaving, no task is admitted
    any more; if it answered that no orphan remains then every task has
    finished, the registry is empty and the counter zero; otherwise every task
    that may still run was aborted and its token cancelled. *)
Theorem shutdown_leaves_no_orphans (s s' : RuntimeShared) (c : nat) (o : ShutdownOutcome)
    (H : rt_reach s) (Hn : Z.of_nat (size (tasks s)) < u64_max)
    (Hc : shutdowns s !! c = Some (Returned o)) (Hs : rtc rt_step s s') :
  dom (tasks s') = dom (tasks s) /\ outcome_ok (tasks s') o /\
  (if no_orphans o then all_finished (tasks s') /\ entries s' = [] /\ active s' = 0
   else forall id t, tasks s' !! id = Some t -> runs (phase t) ->
          aborted t = true /\ token_is_cancelled (task_token t) (tokens s') = true).
Proof.
  pose proof (rt_reach_ok s H Hn) as Hok. destruct (rt_shutdowns _ Hok _ _ Hc) as [Hl _].
  destruct (down_steps s s' Hs Hok Hl Hn) as (Hok' & Hl' & Hd & Hr). apply Hr in Hc.
  destruct (rt_shutdowns _ Hok' _ _ Hc) as [_ Ho]. simpl in Ho. split_and!; [done|done|].
  destruct Ho as (_ & _ & Ho). destruct (no_orphans o).
  - split; [done|]. by apply all_finished_entries.
  - intros id t Ht Hrun. split; [by eapply Ho|]. by eapply down_cancelled.
Qed.

(** A run: one task is spawned, outlives the grace period and is aborted. *)
Definition sample_spawned : RuntimeShared :=
  let s1 := set_gate (Some SpawnChecked) RuntimeShared_new in
  let s2 := set_gate (Some (SpawnReserved 1)) (reserve s1).1 in
  let s3 := set_gate (Some (SpawnRegistered 1)) (move_task 1 Registered (register 1 s2)) in
  set_gate None (move_task 1 Started s3).

Definition sample_aborted : RuntimeShared :=
  let s5 := set_shutdown 0 Waiting (begin_shutdown sample_spawned).1 in
  set_shutdown 0 (ForcedWaiting 1) (abort_all (set_shutdown 0 Expired s5)).1.

Definition sample_outcome : ShutdownOutcome := shutdown_outcome false 1 true.

Definition sample_down : RuntimeShared :=
  let s8 := move_task 1 Dropping (finish_retain 1 sample_aborted) in
  let s9 := move_task 1 Finished (finish_release s8) in
  let s10 := set_shutdown 0 (Decided (shutdown_outcome false 1 (active s9 =? 0))) s9 in
  set_shutdown 0 (Returned sample_outcome) (set_lifecycle TERMINATED s10).

Lemma sample_spawned_reach : rt_reach sample_spawned.
Proof.
  eapply rt_next; [|eapply (step_spawn_start _ 1); reflexivity].
  eapply rt_next; [|apply step_spawn_register; reflexivity].
  eapply rt_next; [|apply (step_spawn_reserve (set_gate (Some SpawnChecked) RuntimeShared_new)); reflexivity].
  eapply rt_next; [apply rt_init|]. apply step_spawn_check; reflexivity.
Qed.

Lemma sample_aborted_reach : rt_reach sample_aborted.
Proof.
  eapply rt_next; [|apply (step_shutdown_abort (set_shutdown 0 Expired
    (set_shutdown 0 Waiting (begin_shutdown sample_spawned).1))); reflexivity].
  eapply rt_next; [|apply step_shutdown_expired; [reflexivity|discriminate]].
  eapply rt_next; [|eapply (step_shutdown_begin sample_spawned); reflexivity].
  apply sample_spawned_reach.
Qed.

Lemma sample_down_reach : rt_reach sample_down.
Proof.
  eapply rt_next; [|apply step_shutdown_return; reflexivity].
  eapply rt_next; [|apply step_shutdown_decide; reflexivity].
  eapply rt_next; [|eapply step_task_finish; reflexivity].
  eapply rt_next; [|eapply step_task_end; [reflexivity|left; reflexivity]].
  apply sample_aborted_reach.
Qed.

Lemma registry_accounts_for_tasks_witness :
  active sample_aborted = 1 /\ entries sample_aborted = [1] /\
  token_is_cancelled 1 (tokens sample_aborted) = true.
Proof.
  split_and!; [reflexivity..|].
  destruct (registry_accounts_for_tasks sample_aborted sample_aborted_reach) as (_ & _ & _ & H);
    [vm_compute; reflexivity|].
  refine (proj1 (H _ 1 {| task_token := 1; phase := Started; aborted := true |} _)).
  - discriminate.
  - reflexivity.
Defined.

Lemma shutdown_leaves_no_orphans_witness :
  disposition sample_outcome = Forced /\ all_finished (tasks sample_down) /\ entries sample_down = [].
Proof.
  destruct (shutdown_leaves_no_orphans sample_down sample_down 0 sample_outcome sample_down_reach)
    as (_ & _ & H1 & H2 & _); [vm_compute; reflexivity|reflexivity|apply rtc_refl|].
  split_and!; [reflexivity|exact H1|exact H2].
Defined.

(** ** Supervision *)

(** The restarts of [l] granted between two instants. *)
Definition granted (lo hi : Z) (l : list Z) : list Z := filter (fun r => lo <= r <= hi) l.

Section SupervisionLaws.
Variables (debug_str : string -> string) (sink : option (RuntimeObservation -> bool)).
Variables (sub : string) (class : ChildClass) (budget window backoff : Z).

Notation loop := (supervise debug_str sink sub class budget window).
Notation one_round := (supervise_round debug_str sink sub class budget window).

(** The failures the loop still looks at, at a later instant. *)
Definition recent (now : Z) (l : list Z) : list Z :=
  filter (fun started => duration_since now started <= window) l.

Lemma recent_recent m n l : m <= n -> recent n (recent m l) = recent n l.
Proof.
  intros Hmn. unfold recent. rewrite list_filter_filter. apply list_filter_iff. intros x.
  unfold duration_since. lia.
Qed.

Lemma recent_app n l l' : recent n (l ++ l') = (recent n l ++ recent n l')%list.
Proof. apply filter_app. Qed.

Lemma granted_all lo hi l : Forall (fun r => lo <= r <= hi) l -> granted lo hi l = l.
Proof.
  unfold granted. induction 1 as [|x l Hx _ IH]; [done|]. rewrite filter_cons_True by done. by f_equal.
Qed.

(** What a loop that has not ended keeps: the failures it remembers are the
    restarts that still matter, and the restarts kept to the budget. *)
Record loop_ok (m : Z) (s : SupervisorState) : Prop := {
  loop_recent now : m <= now -> recent now (failures s) = recent now (restarts s);
  loop_past r : r ∈ restarts s -> r <= m;
  loop_rate lo hi : hi - lo <= window -> usize_of_len (granted lo hi (restarts s)) <= budget;
  loop_delay : delay s = Z.min (backoff * 2 ^ usize_of_len (slept s)) duration_max;
  loop_slept k d : slept s !! k = Some d -> d = Z.min (backoff * 2 ^ Z.of_nat k) duration_max;
  loop_lengths : length (slept s) = length (restarts s);
}.

Lemma round_continues r s s' :
  one_round r s = (s', None) ->
  usize_of_len (recent (now r) (failures s)) < budget /\
  s' = {| failures := (recent (now r) (failures s) ++ [now r])%list;
          delay := saturating_double (delay s); restarts := (restarts s ++ [now r])%list;
          slept := (slept s ++ [delay s])%list |}.
Proof.
  assert (Ha : forall e, after_failure debug_str sink sub class budget window r e s = (s', None) ->
    usize_of_len (recent (now r) (failures s)) < budget /\
    s' = {| failures := (recent (now r) (failures s) ++ [now r])%list;
            delay := saturating_double (delay s); restarts := (restarts s ++ [now r])%list;
            slept := (slept s ++ [delay s])%list |}).
  { intros e. unfold after_failure, restart_or_quarantine. cbv zeta. fold (recent (now r) (failures s)).
    destruct (Z.leb_spec budget (usize_of_len (recent (now r) (failures s)))); [done|].
    destruct (cancelled_in_delay r); [done|]. by intros [= <-]. }
  unfold supervise_round. destruct (cancelled_at_checkpoint r); [done|].
  destruct (factory_panics r); [apply Ha|]. destruct (attempt r) as [[]|[| |]]; by try apply Ha.
Qed.

Lemma round_ends r s s' o :
  one_round r s = (s', Some o) -> restarts s' = restarts s /\ slept s' = slept s.
Proof.
  assert (Ha : forall e, after_failure debug_str sink sub class budget window r e s = (s', Some o) ->
    restarts s' = restarts s /\ slept s' = slept s).
  { intros e. unfold after_failure, restart_or_quarantine. repeat case_match; by intros [= <- <-]. }
  unfold supervise_round. destruct (cancelled_at_checkpoint r); [by intros [= <- <-]|].
  destruct (factory_panics r); [apply Ha|].
  destruct (attempt r) as [[]|[| |]]; first [apply Ha | by intros [= <- <-]].
Qed.

Lemma granted_within lo hi m n l :
  hi - lo <= window -> lo <= n <= hi -> (forall r, r ∈ l -> r <= m) -> m <= n ->
  usize_of_len (granted lo hi l) <= usize_of_len (recent n l).
Proof.
  intros Hw Hn Hm Hmn. unfold usize_of_len. apply inj_le.
  induction l as [|x l IH]; [done|]. unfold granted, recent in *. rewrite !filter_cons.
  assert (x <= m) by (apply Hm; by left).
  specialize (IH ltac:(intros r Hr; apply Hm; by right)).
  repeat case_decide; simpl; unfold duration_since in *; lia.
Qed.

Lemma continue_ok m r s s' :
  0 <= backoff <= duration_max -> loop_ok m s -> m <= now r -> one_round r s = (s', None) ->
  loop_ok (now r) s'.
Proof.
  intros Hbo [Hre Hpa Hra Hde Hsl Hle] Hm Hr. apply round_continues in Hr as [Hlt ->].
  rewrite Hre in Hlt by done. split; simpl.
  - intros n Hn. rewrite !recent_app, recent_recent by done. by rewrite Hre by lia.
  - intros x [Hx| ->%list_elem_of_singleton]%elem_of_app; [|done]. specialize (Hpa x Hx). lia.
  - intros lo hi Hw. specialize (Hra lo hi Hw). unfold granted, usize_of_len in *.
    rewrite filter_app, length_app. simpl. rewrite filter_cons. case_decide as Hin; simpl; [|lia].
    pose proof (granted_within lo hi m (now r) (restarts s) Hw Hin Hpa Hm) as Hg.
    unfold granted, usize_of_len in Hg. lia.
  - unfold saturating_double. rewrite Hde. unfold usize_of_len. rewrite length_app. simpl.
    rewrite Nat2Z.inj_add, Z.pow_add_r by lia. change (2 ^ Z.of_nat 1) with 2.
    pose proof (Z.pow_pos_nonneg 2 (Z.of_nat (length (slept s)))). nia.
  - intros k d [Hk|[Hk Hd]]%lookup_app_Some; [by apply Hsl|].
    apply list_lookup_singleton_Some in Hd as [Hz <-]. rewrite Hde. unfold usize_of_len.
    by replace (length (slept s)) with k by lia.
  - rewrite !length_app, Hle. done.
Qed.

Lemma start_loop_ok m :
  0 <= budget -> 0 <= backoff <= duration_max -> loop_ok m (supervisor_start backoff).
Proof.
  intros Hb Hbo. split; simpl; try done; try (by intros r ?%elem_of_nil).
  change (2 ^ usize_of_len []) with 1. lia.
Qed.

(** The instants at which failures are noticed never go back. *)
Fixpoint clock_from (m : Z) (rounds : list Round) : Prop :=
  match rounds with
  | [] => True
  | r :: rounds' => m <= now r /\ clock_from (now r) rounds'
  end.

Lemma loop_runs m rounds s s' o :
  0 <= backoff <= duration_max -> loop_ok m s -> clock_from m rounds -> loop rounds s = (s', o) ->
  (forall lo hi, hi - lo <= window -> usize_of_len (granted lo hi (restarts s')) <= budget) /\
  (forall k d, slept s' !! k = Some d -> d = Z.min (backoff * 2 ^ Z.of_nat k) duration_max) /\
  length (slept s') = length (restarts s') /\
  (o = None -> restarts s' = (restarts s ++ map now rounds)%list).
Proof.
  intros Hbo. revert m s. induction rounds as [|r rounds IH]; intros m s Hok Hc H; simpl in H.
  - simplify_eq. destruct Hok. split_and!; try done. intros _. simpl.
    by rewrite (right_id_L [] (++)).
  - destruct Hc as [Hm Hc]. destruct (one_round r s) as [s1 [o1|]] eqn:E.
    + simplify_eq. apply round_ends in E as [-> ->]. by destruct Hok.
    + pose proof (continue_ok _ _ _ _ Hbo Hok Hm E) as Hok1.
      destruct (IH _ _ Hok1 Hc H) as (? & ? & ? & Hres). split_and!; try done.
      intros Ho. rewrite (Hres Ho). apply round_continues in E as [_ ->]. simpl.
      by rewrite <- (assoc_L (++)).
Qed.

(** Supervision keeps to its restart budget: whatever the attempts do, as
    long as the clock does not go back, no stretch of time of the length of
    the rolling window ever contains more granted restarts than the budget,
    and the delay before restart [k] is the initial back-off doubled [k]
    times, up to the largest duration. *)
Theorem supervisor_restart_rate (rounds : list Round) (m lo hi : Z) (k : nat) (d : Z)
    (Hb : 0 <= budget) (Hbo : 0 <= backoff <= duration_max) (Hc : clock_from m rounds)
    (Hw : hi - lo <= window) :
  let s := (loop rounds (supervisor_start backoff)).1 in
  usize_of_len (granted lo hi (restarts s)) <= budget /\
  length (slept s) = length (restarts s) /\
  (slept s !! k = Some d -> d = Z.min (backoff * 2 ^ Z.of_nat k) duration_max).
Proof.
  destruct (loop rounds (supervisor_start backoff)) as [s o] eqn:E. simpl.
  eapply loop_runs in E as (Hr & Hd & Hl & _); [|done|by apply start_loop_ok|exact Hc].
  split_and!; [by apply Hr|done|apply Hd].
Qed.

(** A task that keeps failing is given up: if the failures of more attempts
    than the budget all fall into one window, the loop has ended, with
    completion, cancellation or quarantine. *)
Theorem supervisor_gives_up (rounds : list Round) (m lo hi : Z)
    (Hb : 0 <= budget) (Hbo : 0 <= backoff <= duration_max) (Hc : clock_from m rounds)
    (Hw : hi - lo <= window) (Hin : Forall (fun r => lo <= now r <= hi) rounds)
    (Hn : budget < usize_of_len rounds) :
  exists o, (loop rounds (supervisor_start backoff)).2 = Some o.
Proof.
  destruct (loop rounds (supervisor_start backoff)) as [s [o|]] eqn:E; [by exists o|exfalso].
  eapply loop_runs in E as (Hr & _ & _ & Hres); [|done|by apply start_loop_ok|exact Hc].
  specialize (Hr lo hi Hw). rewrite (Hres eq_refl) in Hr. simpl in Hr.
  rewrite granted_all in Hr by (by rewrite Forall_map).
  unfold usize_of_len in *. rewrite length_map in Hr. lia.
Qed.
End SupervisionLaws.

(** A worker that keeps failing, on a budget of two
    restarts per ten time units. *)
Definition failing (t : Z) : Round :=
  {| cancelled_at_checkpoint := false; factory_panics := false; attempt := Err (Failed "lost");
     now := t; cancelled_in_delay := false |}.

Lemma supervisor_restart_rate_witness :
  slept (supervise id None "w" Worker 2 10 [failing 1; failing 2; failing 12; failing 12]
           (supervisor_start 5)).1 = [5; 10; 20] /\
  usize_of_len (granted 2 12 (restarts (supervise id None "w" Worker 2 10
    [failing 1; failing 2; failing 12; failing 12] (supervisor_start 5)).1)) <= 2.
Proof.
  split; [reflexivity|].
  refine (proj1 (supervisor_restart_rate id None "w" Worker 2 10 5
    [failing 1; failing 2; failing 12; failing 12] 0 2 12 0 5 _ _ _ _)); simpl.
  - discriminate.
  - split; vm_compute; discriminate.
  - repeat split; discriminate.
  - discriminate.
Defined.

Lemma supervisor_gives_up_witness :
  exists o, (supervise id None "w" Worker 2 10 [failing 1; failing 2; failing 5]
               (supervisor_start 5)).2 = Some o.
Proof.
  apply (supervisor_gives_up id None "w" Worker 2 10 5 [failing 1; failing 2; failing 5] 0 1 5).
  - discriminate.
  - split; vm_compute; discriminate.
  - repeat split; discriminate.
  - discriminate.
  - repeat constructor; discriminate.
  - reflexivity.
Defined.

(** The children a failure restarts: the failed one, with the scope of the
    strategy, in order. *)
Lemma affected_children_spec strategy f n i :
  i ∈ affected_children strategy f n <->
  (f < n)%nat /\ (i < n)%nat /\
  match strategy with OneForOne => i = f | RestForOne => (f <= i)%nat | OneForAll => True end.
Proof.
  unfold affected_children. destruct (Nat.leb_spec n f); [rewrite elem_of_nil; lia|].
  destruct strategy; rewrite ?elem_of_seq, ?list_elem_of_singleton; lia.
Qed.
