(* ===== verification/Grants.v ===== *)
(** * Capability grants and root transitions

    The grant lineage of crates/governor/eliot-authority/src/grants.rs and the
    root crossings of root_transition.rs: authority sets and their narrowing,
    grants, the evidence that lets a delegation edge leave its authority root,
    the grant graph with its construction checks, revocation, closures,
    effective paths, and the introductions compiled from them. Canonical JSON
    and SHA-256 come from third-party crates and are parameters. *)

From Stdlib Require Import Ascii String.
From S2P Require Import Prelude RustText Contracts Receipts.

#[local] Open Scope string_scope.
#[local] Open Scope Z_scope.

(** ** Errors and text *)

Abbreviation GrantId := string (only parsing).
Abbreviation SnapshotId := string (only parsing).
Abbreviation IntroductionId := string (only parsing).
Abbreviation PrincipalRef := string (only parsing).
Abbreviation LogicalTime := Z (only parsing).

(** [AuthorityError], less [BoundedRevocation], which only the bounded
    influence evaluator's callers return. *)
Inductive AuthorityError : Type :=
| AInvalidField (field : string)
| DuplicateGrant (id : GrantId)
| MissingParent (id : GrantId)
| GrantCycle (id : GrantId)
| GrantNotNarrower (id : GrantId)
| GrantInactive (id : GrantId)
| GrantRevoked (id : GrantId)
| NoEffectivePath
| SupportingPathMissing
| AFenceMismatch
| AEpochMismatch
| AExpired
| ARevoked
| AConsumed
| UseBudgetExhausted
| UnauthorizedOperation
| UnauthorizedResource
| UnauthorizedDataClass
| EffectCeilingExceeded
| AIdentityConflict
| StaleTransitionEvidence (field : string)
| UnreconciledTransitionEvidence (field : string)
| StaleQuarantineEvidence (field : string)
| StaleEffectAuthority (field : string)
| InvalidLifecycleTransition
| ReceiptMismatch
| P07Unavailable.

#[global] Instance AuthorityError_eq_dec : EqDecision AuthorityError.
Proof. solve_decision. Defined.

Abbreviation AR := (result AuthorityError).

Definition authority_text (value field : string) : AR unit :=
  guard_err (is_blank value || has_control value) (AInvalidField field).

Definition authority_digest (value field : string) : AR unit :=
  guard_err (negb (len value =? 64) || negb (forallb is_lower_hex (bytes value)))
    (AInvalidField field).

(** The constructors of the [text_id!] types. *)
Definition text_id_new (field value : string) : AR string :=
  check? authority_text value field; Ok value.

Definition GrantId_new (value : string) : AR GrantId := text_id_new "grant_id" value.
Definition SnapshotId_new (value : string) : AR SnapshotId := text_id_new "snapshot_id" value.
Definition PrincipalRef_new (value : string) : AR PrincipalRef := text_id_new "principal_ref" value.

Inductive ReceiptObligation : Type :=
| CanonicalEffectReceipt
| ExternalReadback
| IndependentVerification
| Named (value : string).

#[global] Instance ReceiptObligation_eq_dec : EqDecision ReceiptObligation.
Proof. solve_decision. Defined.

Definition obligation_validate (o : ReceiptObligation) : AR unit :=
  match o with
  | Named value => authority_text value "receipt_obligation"
  | _ => Ok tt
  end.

(** ** Authority sets *)

Definition grant_effect_rank (effect : EffectClass) : Z :=
  match effect with
  | Read => 0
  | Candidate => 1
  | ReversibleMutation => 2
  | ExternalEffect => 3
  end.

Inductive EffectCeiling : Type :=
| ReadOnly
| CandidateOnly
| NoExternalEffect.

#[global] Instance EffectCeiling_eq_dec : EqDecision EffectCeiling.
Proof. solve_decision. Defined.

Definition source_effect_rank (ceiling : EffectCeiling) : Z :=
  match ceiling with
  | ReadOnly => 0
  | CandidateOnly => 1
  | NoExternalEffect => 2
  end.

Record AuthoritySet : Type := {
  as_operations : gset string;
  as_resources : gset string;
  as_max_effect : EffectClass;
}.

#[global] Instance AuthoritySet_eq_dec : EqDecision AuthoritySet.
Proof. solve_decision. Defined.

(** The arguments are the sets the iterators collect into. *)
Definition AuthoritySet_new (operations resources : gset string) (max_effect : EffectClass)
    : AR AuthoritySet :=
  check? guard_err (operations == ∅) (AInvalidField "allowed_operations");
  check? guard_err (resources == ∅) (AInvalidField "allowed_resources");
  check? for_each (fun o => authority_text o "allowed_operations") (btree_set_iter operations);
  check? for_each (fun r => authority_text r "allowed_resources") (btree_set_iter resources);
  Ok {| as_operations := operations; as_resources := resources; as_max_effect := max_effect |}.

Definition allows (a : AuthoritySet) (operation resource : string) (effect : EffectClass) : bool :=
  bool_decide (operation ∈ as_operations a)
  && bool_decide (resource ∈ as_resources a)
  && (grant_effect_rank effect <=? grant_effect_rank (as_max_effect a)).

Definition is_subset_of (a parent : AuthoritySet) : bool :=
  bool_decide (as_operations a ⊆ as_operations parent)
  && bool_decide (as_resources a ⊆ as_resources parent)
  && (grant_effect_rank (as_max_effect a) <=? grant_effect_rank (as_max_effect parent)).

Definition is_strict_subset_of (a parent : AuthoritySet) : bool :=
  is_subset_of a parent && (a != parent).

Definition AuthoritySet_intersection (a other : AuthoritySet) : AR AuthoritySet :=
  AuthoritySet_new
    (as_operations a ∩ as_operations other)
    (as_resources a ∩ as_resources other)
    (if grant_effect_rank (as_max_effect a) <=? grant_effect_rank (as_max_effect other)
     then as_max_effect a else as_max_effect other).

(** ** Grants *)

Inductive GrantStatus : Type :=
| PendingActivation
| GActive
| GRevoked
| GExpired
| GStale.

#[global] Instance GrantStatus_eq_dec : EqDecision GrantStatus.
Proof. solve_decision. Defined.

Record CapabilityGrant : Type := {
  cg_grant_id : GrantId;
  cg_parent_grant_id : option GrantId;
  cg_authority_root_ref : string;
  cg_issuer : PrincipalRef;
  cg_holder : PrincipalRef;
  cg_authority : AuthoritySet;
  cg_inherited_source_ceiling : option EffectCeiling;
  cg_binding : AuthorityBinding;
  cg_issued_at : LogicalTime;
  cg_expires_at : LogicalTime;
  cg_max_uses : Z;
  cg_status : GrantStatus;
}.

#[global] Instance CapabilityGrant_eq_dec : EqDecision CapabilityGrant.
Proof. solve_decision. Defined.

Definition fence_check (f : StateFence) : AR unit :=
  map_err (fun _ => AFenceMismatch) (StateFence_validate f).

Definition validate_local (g : CapabilityGrant) : AR unit :=
  check? authority_text (cg_authority_root_ref g) "authority_root_ref";
  check? fence_check (ab_state_fence (cg_binding g));
  check? guard_err (negb (is_same_authority (ab_authority_epoch (cg_binding g))
                            (authority_epoch (ab_state_fence (cg_binding g))))) AEpochMismatch;
  check? guard_err (grant_effect_rank (ab_allowed_effect (cg_binding g))
                      <? grant_effect_rank (as_max_effect (cg_authority g))) EffectCeilingExceeded;
  check? guard_err
    match cg_inherited_source_ceiling g with
    | Some source_ceiling =>
        source_effect_rank source_ceiling <? grant_effect_rank (as_max_effect (cg_authority g))
    | None => false
    end EffectCeilingExceeded;
  check? guard_err (cg_expires_at g <=? cg_issued_at g) (AInvalidField "issued_at_expires_at");
  guard_err (cg_max_uses g =? 0) (AInvalidField "max_uses").

Definition crosses_authority_root (from_root to_root : string) : bool := from_root != to_root.

Definition check_narrowing (parent child : CapabilityGrant) : AR unit :=
  guard_err ((cg_issuer child != cg_holder parent)
             || negb (is_strict_subset_of (cg_authority child) (cg_authority parent))
             || (cg_expires_at parent <? cg_expires_at child)
             || (cg_max_uses parent <? cg_max_uses child))
    (GrantNotNarrower (cg_grant_id child)).

(** The wire form of a grant, which its commitment digests as well. *)
Record GrantRecoveryRecord : Type := {
  gr_grant_id : string;
  gr_parent_grant_id : option string;
  gr_authority_root_ref : string;
  gr_issuer : string;
  gr_holder : string;
  gr_allowed_operations : list string;
  gr_allowed_resources : list string;
  gr_max_effect : EffectClass;
  gr_inherited_source_ceiling : option EffectCeiling;
  gr_binding : AuthorityBinding;
  gr_issued_at : Z;
  gr_expires_at : Z;
  gr_max_uses : Z;
  gr_status : GrantStatus;
}.

Definition grant_to_recovery_record (g : CapabilityGrant) : GrantRecoveryRecord :=
  {| gr_grant_id := cg_grant_id g;
     gr_parent_grant_id := cg_parent_grant_id g;
     gr_authority_root_ref := cg_authority_root_ref g;
     gr_issuer := cg_issuer g;
     gr_holder := cg_holder g;
     gr_allowed_operations := btree_set_iter (as_operations (cg_authority g));
     gr_allowed_resources := btree_set_iter (as_resources (cg_authority g));
     gr_max_effect := as_max_effect (cg_authority g);
     gr_inherited_source_ceiling := cg_inherited_source_ceiling g;
     gr_binding := cg_binding g;
     gr_issued_at := cg_issued_at g;
     gr_expires_at := cg_expires_at g;
     gr_max_uses := cg_max_uses g;
     gr_status := cg_status g |}.

(** [record.parent_grant_id.as_ref().map(GrantId::new).transpose()?] *)
Definition optional_grant_id (id : option string) : AR (option GrantId) :=
  match id with
  | Some value => let? id := GrantId_new value in Ok (Some id)
  | None => Ok None
  end.

Definition grant_from_recovery_record (r : GrantRecoveryRecord) : AR CapabilityGrant :=
  let? grant_id := GrantId_new (gr_grant_id r) in
  let? parent_grant_id := optional_grant_id (gr_parent_grant_id r) in
  let? issuer := PrincipalRef_new (gr_issuer r) in
  let? holder := PrincipalRef_new (gr_holder r) in
  let? authority := AuthoritySet_new (list_to_set (gr_allowed_operations r))
                      (list_to_set (gr_allowed_resources r)) (gr_max_effect r) in
  Ok {| cg_grant_id := grant_id;
        cg_parent_grant_id := parent_grant_id;
        cg_authority_root_ref := gr_authority_root_ref r;
        cg_issuer := issuer;
        cg_holder := holder;
        cg_authority := authority;
        cg_inherited_source_ceiling := gr_inherited_source_ceiling r;
        cg_binding := gr_binding r;
        cg_issued_at := gr_issued_at r;
        cg_expires_at := gr_expires_at r;
        cg_max_uses := gr_max_uses r;
        cg_status := gr_status r |}.

(** ** Root transitions *)

Definition ROOT_TRANSITION_OPERATION_KIND : string := "authority.root_transition.activate".
Definition ROOT_TRANSITION_RECEIPT_SCHEMA : string := "eliot.authority.root-transition-activation".
Definition ROOT_TRANSITION_RECEIPT_VERSION : Z := 1.

Inductive RootTransitionDisposition : Type :=
| Committed
| UnknownOutcome
| Terminal.

#[global] Instance RootTransitionDisposition_eq_dec : EqDecision RootTransitionDisposition.
Proof. solve_decision. Defined.

Record RootTransitionRecord : Type := {
  rt_transition_id : string;
  rt_operation_id : string;
  rt_idempotency_key : string;
  rt_parent_grant_id : string;
  rt_child_grant_id : string;
  rt_parent_grant_commitment : string;
  rt_child_grant_commitment : string;
  rt_from_authority_root_ref : string;
  rt_to_authority_root_ref : string;
  rt_issuer : string;
  rt_graph_snapshot_id : string;
  rt_predecessor_graph_revision : Z;
  rt_expected_next_graph_revision : Z;
  rt_admitted_at_revision : Z;
  rt_policy_revision : string;
  rt_deadline_unix_ms : Z;
  rt_effect_ceiling : EffectClass;
  rt_semantic_decision_ref : string;
  rt_binding : AuthorityBinding;
}.

#[global] Instance RootTransitionRecord_eq_dec : EqDecision RootTransitionRecord.
Proof. solve_decision. Defined.

Definition validate_shape (r : RootTransitionRecord) : AR unit :=
  check? for_each (fun p : string * string => authority_text p.1 p.2)
    [(rt_transition_id r, "root_transition.transition_id");
     (rt_operation_id r, "root_transition.operation_id");
     (rt_idempotency_key r, "root_transition.idempotency_key");
     (rt_parent_grant_id r, "root_transition.parent_grant_id");
     (rt_child_grant_id r, "root_transition.child_grant_id");
     (rt_from_authority_root_ref r, "root_transition.from_authority_root_ref");
     (rt_to_authority_root_ref r, "root_transition.to_authority_root_ref");
     (rt_issuer r, "root_transition.issuer");
     (rt_graph_snapshot_id r, "root_transition.graph_snapshot_id");
     (rt_policy_revision r, "root_transition.policy_revision");
     (rt_semantic_decision_ref r, "root_transition.semantic_decision_ref")];
  check? authority_digest (rt_parent_grant_commitment r) "root_transition.parent_grant_commitment";
  check? authority_digest (rt_child_grant_commitment r) "root_transition.child_grant_commitment";
  check? guard_err (rt_from_authority_root_ref r == rt_to_authority_root_ref r)
    (AInvalidField "root_transition.roots");
  check? guard_err ((rt_predecessor_graph_revision r =? 0)
                    || (rt_admitted_at_revision r =? 0)
                    || (rt_expected_next_graph_revision r <=? rt_predecessor_graph_revision r))
    (AInvalidField "root_transition.revision");
  check? fence_check (ab_state_fence (rt_binding r));
  guard_err (ab_authority_epoch (rt_binding r)
               != authority_epoch (ab_state_fence (rt_binding r))) AEpochMismatch.

Record RootTransitionActivationRequest : Type := {
  rq_record : RootTransitionRecord;
  rq_subject : AuthorityRequestSubject;
  rq_canonical_request_digest : string;
  rq_snapshot_id : SnapshotId;
}.

Inductive AuthorityState : Type :=
| SProposed
| SPendingKernelActivation
| SActive
| SExpired
| SRevoked
| SSuperseded
| SRejected
| SCancelled
| SStale.

#[global] Instance AuthorityState_eq_dec : EqDecision AuthorityState.
Proof. solve_decision. Defined.

Record AuthorityActivationReceipt : Type := {
  ka_activation_id : string;
  ka_snapshot_id : string;
  ka_authority_epoch : EpochId;
  ka_state : AuthorityState;
}.

(** Whether [AuthorityActivationReceipt::validate] succeeds; its callers here
    discard the error. *)
Definition activation_receipt_valid (k : AuthorityActivationReceipt) : bool :=
  text_ok (ka_activation_id k) && text_ok (ka_snapshot_id k) && (ka_state k == SActive).

Record RootTransitionActivationReceipt : Type := {
  rr_schema : string;
  rr_version : Z;
  rr_transition_id : string;
  rr_operation_id : string;
  rr_canonical_request_digest : string;
  rr_parent_grant_id : string;
  rr_child_grant_id : string;
  rr_parent_grant_commitment : string;
  rr_child_grant_commitment : string;
  rr_from_authority_root_ref : string;
  rr_to_authority_root_ref : string;
  rr_graph_snapshot_id : string;
  rr_admitted_graph_revision : Z;
  rr_binding : AuthorityBinding;
  rr_kernel_activation : AuthorityActivationReceipt;
  rr_ors_record_ref : string;
  rr_disposition : RootTransitionDisposition;
}.

Definition validate_against_record (s : RootTransitionActivationReceipt)
    (record : RootTransitionRecord) (canonical_request_digest : string) : AR unit :=
  check? guard_err ((rr_schema s != ROOT_TRANSITION_RECEIPT_SCHEMA)
                    || negb (rr_version s =? ROOT_TRANSITION_RECEIPT_VERSION))
    (AInvalidField "root_transition_receipt.schema");
  check? for_each (fun p : string * string => authority_text p.1 p.2)
    [(rr_transition_id s, "root_transition_receipt.transition_id");
     (rr_operation_id s, "root_transition_receipt.operation_id");
     (rr_parent_grant_id s, "root_transition_receipt.parent_grant_id");
     (rr_child_grant_id s, "root_transition_receipt.child_grant_id");
     (rr_from_authority_root_ref s, "root_transition_receipt.from_authority_root_ref");
     (rr_to_authority_root_ref s, "root_transition_receipt.to_authority_root_ref");
     (rr_graph_snapshot_id s, "root_transition_receipt.graph_snapshot_id");
     (rr_ors_record_ref s, "root_transition_receipt.ors_record_ref")];
  check? guard_err (rr_admitted_graph_revision s =? 0)
    (AInvalidField "root_transition_receipt.revision");
  check? guard_err ((rr_transition_id s != rt_transition_id record)
                    || (rr_operation_id s != rt_operation_id record)
                    || (rr_canonical_request_digest s != canonical_request_digest)
                    || (rr_parent_grant_id s != rt_parent_grant_id record)
                    || (rr_child_grant_id s != rt_child_grant_id record)
                    || (rr_parent_grant_commitment s != rt_parent_grant_commitment record)
                    || (rr_child_grant_commitment s != rt_child_grant_commitment record)
                    || (rr_from_authority_root_ref s != rt_from_authority_root_ref record)
                    || (rr_to_authority_root_ref s != rt_to_authority_root_ref record)
                    || (rr_graph_snapshot_id s != rt_graph_snapshot_id record)
                    || (rr_binding s != rt_binding record)) AIdentityConflict;
  check? guard_err (negb (activation_receipt_valid (rr_kernel_activation s))) ReceiptMismatch;
  check? guard_err ((ka_snapshot_id (rr_kernel_activation s) != rt_graph_snapshot_id record)
                    || negb (is_same_authority (ka_authority_epoch (rr_kernel_activation s))
                               (authority_epoch (ab_state_fence (rt_binding record)))))
    ReceiptMismatch;
  match rr_disposition s with
  | Committed => Ok tt
  | UnknownOutcome =>
      Err (UnreconciledTransitionEvidence "root_transition_receipt.outcome_unknown")
  | Terminal => Err (StaleTransitionEvidence "root_transition_receipt.disposition")
  end.

(** The admitted form; its stored row leaves the disposition out. *)
Record AdmittedRootTransition : Type := {
  at_record : RootTransitionRecord;
  at_canonical_request_digest : string;
  at_kernel_activation_id : string;
  at_ors_record_ref : string;
  at_disposition : RootTransitionDisposition;
}.

Record AdmittedRootTransitionRecord : Type := {
  ar_record : RootTransitionRecord;
  ar_canonical_request_digest : string;
  ar_kernel_activation_id : string;
  ar_ors_record_ref : string;
}.

Definition to_recovery_record (t : AdmittedRootTransition) : AdmittedRootTransitionRecord :=
  {| ar_record := at_record t;
     ar_canonical_request_digest := at_canonical_request_digest t;
     ar_kernel_activation_id := at_kernel_activation_id t;
     ar_ors_record_ref := at_ors_record_ref t |}.

Definition validate_restored (s : RootTransitionActivationReceipt)
    (row : AdmittedRootTransitionRecord) : AR unit :=
  check? guard_err ((rr_canonical_request_digest s != ar_canonical_request_digest row)
                    || (ka_activation_id (rr_kernel_activation s) != ar_kernel_activation_id row)
                    || (rr_ors_record_ref s != ar_ors_record_ref row)) AIdentityConflict;
  validate_against_record s (ar_record row) (ar_canonical_request_digest row).

Record CurrentTransitionReadback : Type := {
  rb_policy_revision : string;
  rb_semantic_decisions : gmap string RootTransitionRecord;
}.

Section Transitions.
Variable sha256 : list Z -> list Z.
Variable grant_json : GrantRecoveryRecord -> option (list Z).
Variable preimage_json : string -> RootTransitionRecord -> AuthorityRequestSubject -> option (list Z).

Definition grant_commitment (g : CapabilityGrant) : AR string :=
  let? bytes := ok_or (grant_json (grant_to_recovery_record g))
                  (AInvalidField "root_transition.grant_commitment") in
  Ok (sha256_hex sha256 bytes).

Definition canonical_request_digest (record : RootTransitionRecord)
    (subject : AuthorityRequestSubject) : AR string :=
  let? bytes := ok_or (preimage_json ROOT_TRANSITION_OPERATION_KIND record subject)
                  (AInvalidField "root_transition.canonical_request_digest") in
  Ok (sha256_hex sha256 bytes).

Definition activation_request_new (record : RootTransitionRecord)
    (subject : AuthorityRequestSubject) : AR RootTransitionActivationRequest :=
  check? validate_shape record;
  check? map_err (fun _ => AInvalidField "root_transition.subject") (subject_validate subject);
  let? digest := canonical_request_digest record subject in
  let? snapshot_id := SnapshotId_new (rt_graph_snapshot_id record) in
  Ok {| rq_record := record; rq_subject := subject; rq_canonical_request_digest := digest;
        rq_snapshot_id := snapshot_id |}.

(** [AdmittedRootTransition::admit_record] *)
Definition transition_admit_record (record : RootTransitionRecord)
    (digest kernel_activation_id ors_record_ref : string)
    (disposition : RootTransitionDisposition) (parent child : CapabilityGrant)
    (current_revision : Z) (current_fence : StateFence) (readback : CurrentTransitionReadback)
    : AR AdmittedRootTransition :=
  check? validate_shape record;
  check? authority_digest digest "root_transition.canonical_request_digest";
  check? authority_text kernel_activation_id "root_transition.kernel_activation_id";
  check? authority_text ors_record_ref "root_transition.ors_record_ref";
  let? retained_decision := ok_or (rb_semantic_decisions readback !! rt_semantic_decision_ref record)
    (StaleTransitionEvidence "root_transition.semantic_decision_unretained") in
  check? guard_err (retained_decision != record) AIdentityConflict;
  check? guard_err ((cg_grant_id child != rt_child_grant_id record)
                    || (cg_parent_grant_id child != Some (cg_grant_id parent)))
    (AInvalidField "root_transition.edge");
  check? guard_err ((cg_authority_root_ref parent != rt_from_authority_root_ref record)
                    || (cg_authority_root_ref child != rt_to_authority_root_ref record))
    (AInvalidField "root_transition.roots");
  check? guard_err (cg_holder parent != rt_issuer record) (AInvalidField "root_transition.issuer");
  check? check_narrowing parent child;
  check? guard_err (ab_state_fence (rt_binding record) != ab_state_fence (cg_binding child))
    AFenceMismatch;
  check? guard_err (negb (is_same_authority (ab_authority_epoch (rt_binding record))
                            (ab_authority_epoch (cg_binding child)))) AEpochMismatch;
  check? guard_err (ab_state_fence (cg_binding child) != current_fence)
    (StaleTransitionEvidence "root_transition.current_fence");
  check? guard_err (rt_policy_revision record != rb_policy_revision readback)
    (StaleTransitionEvidence "root_transition.current_policy_revision");
  let? parent_commitment := grant_commitment parent in
  check? (if rt_parent_grant_commitment record != parent_commitment then Err AIdentityConflict
          else let? child_commitment := grant_commitment child in
               guard_err (rt_child_grant_commitment record != child_commitment) AIdentityConflict);
  check? guard_err ((grant_effect_rank (as_max_effect (cg_authority child))
                       <? grant_effect_rank (rt_effect_ceiling record))
                    || (grant_effect_rank (ab_allowed_effect (rt_binding record))
                          <? grant_effect_rank (rt_effect_ceiling record))) EffectCeilingExceeded;
  check? guard_err ((rt_admitted_at_revision record =? 0)
                    || (current_revision <? rt_admitted_at_revision record))
    (StaleTransitionEvidence "root_transition.admitted_at_revision");
  Ok {| at_record := record; at_canonical_request_digest := digest;
        at_kernel_activation_id := kernel_activation_id; at_ors_record_ref := ors_record_ref;
        at_disposition := disposition |}.

(** [AdmittedRootTransition::admit]; [current_revision + 1] wraps. *)
Definition transition_admit (request : RootTransitionActivationRequest)
    (receipt : RootTransitionActivationReceipt) (parent child : CapabilityGrant)
    (current_revision : Z) (current_fence : StateFence) (readback : CurrentTransitionReadback)
    : AR AdmittedRootTransition :=
  check? validate_against_record receipt (rq_record request) (rq_canonical_request_digest request);
  let? admitted := transition_admit_record (rq_record request)
    (rq_canonical_request_digest request) (ka_activation_id (rr_kernel_activation receipt))
    (rr_ors_record_ref receipt) (rr_disposition receipt) parent child current_revision
    current_fence readback in
  check? guard_err
    ((rr_admitted_graph_revision receipt <? rt_predecessor_graph_revision (rq_record request))
     || negb (rt_expected_next_graph_revision (rq_record request)
                =? wrap_u64 (current_revision + 1)))
    (StaleTransitionEvidence "root_transition.expected_next_graph_revision");
  Ok admitted.

(** [AdmittedRootTransition::admit_restored] *)
Definition transition_admit_restored (row : AdmittedRootTransitionRecord)
    (receipt : RootTransitionActivationReceipt) (parent child : CapabilityGrant)
    (current_revision : Z) (current_fence : StateFence) (readback : CurrentTransitionReadback)
    : AR AdmittedRootTransition :=
  check? validate_restored receipt row;
  let? admitted := transition_admit_record (ar_record row) (ar_canonical_request_digest row)
    (ar_kernel_activation_id row) (ar_ors_record_ref row) (rr_disposition receipt) parent child
    current_revision current_fence readback in
  check? guard_err
    (rr_admitted_graph_revision receipt <? rt_predecessor_graph_revision (ar_record row))
    (StaleTransitionEvidence "root_transition.admitted_graph_revision");
  Ok admitted.
End Transitions.

(** The structural pass over one record against the live grants. *)
Definition admit_transition_record (grants : gmap string CapabilityGrant)
    (record : RootTransitionRecord) (revision : Z) : AR unit :=
  check? validate_shape record;
  check? guard_err (revision <? rt_admitted_at_revision record)
    (AInvalidField "root_transition.revision");
  let? parent_id := GrantId_new (rt_parent_grant_id record) in
  let? child_id := GrantId_new (rt_child_grant_id record) in
  let? parent := ok_or (grants !! parent_id) (AInvalidField "root_transition.parent") in
  let? child := ok_or (grants !! child_id) (AInvalidField "root_transition.child") in
  check? guard_err (cg_parent_grant_id child != Some parent_id)
    (AInvalidField "root_transition.edge");
  check? guard_err ((cg_authority_root_ref parent != rt_from_authority_root_ref record)
                    || (cg_authority_root_ref child != rt_to_authority_root_ref record))
    (AInvalidField "root_transition.roots");
  check? guard_err (cg_holder parent != rt_issuer record) (AInvalidField "root_transition.issuer");
  check? guard_err (ab_state_fence (rt_binding record) != ab_state_fence (cg_binding child))
    AFenceMismatch;
  guard_err (negb (is_same_authority (ab_authority_epoch (rt_binding record))
                     (ab_authority_epoch (cg_binding child)))) AEpochMismatch.
