(* ===== verification/GrantGraph.v ===== *)
(** * The grant graph

    [GrantGraph] of crates/governor/eliot-authority/src/grants.rs: assembly
    with its cycle and edge checks, revocation, the descendant closure of a
    grant, the recovery snapshot and its restoration with the quarantine of
    cross-root lineage, effective paths, and the introductions compiled from
    them. The theorems are in GrantGraphLaws. *)

From Stdlib Require Import Ascii String.
From S2P Require Import Prelude RustText Contracts Receipts Grants.

#[local] Open Scope string_scope.
#[local] Open Scope Z_scope.

(** A delegation edge: the parent's and the child's identifier. *)
Abbreviation Edge := (string * string)%type (only parsing).

(** The order of a [BTreeMap<(GrantId, GrantId), _>]. *)
Definition edge_le {V} (a b : Edge * V) : Prop :=
  a.1.1 <> b.1.1 /\ String.le a.1.1 b.1.1 \/ a.1.1 = b.1.1 /\ String.le a.1.2 b.1.2.

#[global] Instance edge_le_dec {V} : RelDecision (@edge_le V).
Proof. intros a b. unfold edge_le. apply _. Defined.

Definition edge_iter {V} (m : gmap Edge V) : list (Edge * V) := merge_sort edge_le (map_to_list m).

Definition edge_is_authorized (parent child : CapabilityGrant)
    (transitions : gmap Edge AdmittedRootTransition) : bool :=
  negb (crosses_authority_root (cg_authority_root_ref parent) (cg_authority_root_ref child))
  || is_some (transitions !! (cg_grant_id parent, cg_grant_id child)).

(** ** Quarantined relations *)

Inductive CrossRootRelationDisposition : Type :=
| Quarantined.

Record QuarantinedCrossRootRelation : Type := {
  qr_relation_id : string;
  qr_parent_grant_id : GrantId;
  qr_parent_authority_root_ref : string;
  qr_child : CapabilityGrant;
  qr_quarantined_at_revision : Z;
  qr_disposition : CrossRootRelationDisposition;
}.

Record QuarantinedCrossRootRecord : Type := {
  qw_relation_id : string;
  qw_parent_grant_id : string;
  qw_parent_authority_root_ref : string;
  qw_child : GrantRecoveryRecord;
  qw_quarantined_at_revision : Z;
  qw_disposition : CrossRootRelationDisposition;
}.

Definition quarantine_relation_id (parent child : GrantId) : string :=
  "cross_root_quarantine:" ++ parent ++ ":" ++ child.

Definition migrate_to_quarantine (parent child : CapabilityGrant) (revision : Z)
    : AR QuarantinedCrossRootRelation :=
  check? check_narrowing parent child;
  Ok {| qr_relation_id := quarantine_relation_id (cg_grant_id parent) (cg_grant_id child);
        qr_parent_grant_id := cg_grant_id parent;
        qr_parent_authority_root_ref := cg_authority_root_ref parent;
        qr_child := child;
        qr_quarantined_at_revision := revision;
        qr_disposition := Quarantined |}.

(** ** The graph *)

Record GrantGraph : Type := {
  gg_grants : gmap string CapabilityGrant;
  gg_revoked : gset string;
  gg_revision : Z;
  gg_transitions : gmap Edge AdmittedRootTransition;
  gg_unreadable_transitions : gset Edge;
  gg_quarantined : gmap string QuarantinedCrossRootRelation;
}.

(** One round of the [while let] of [validate_cycles]: the identifiers seen
    and the cursor. *)
Definition cycle_step (grants : gmap string CapabilityGrant) (s : gset string * option GrantId)
    : (gset string * option GrantId) + AR unit :=
  let (seen, cursor) := s in
  match cursor with
  | None => inr (Ok tt)
  | Some id =>
      if bool_decide (id ∈ seen) then inr (Err (GrantCycle id))
      else inl ({[id]} ∪ seen, grants !! id ≫= cg_parent_grant_id)
  end.

(** A walk sees each grant at most once, and one identifier outside the map. *)
Definition cycle_walk (grants : gmap string CapabilityGrant) (start : GrantId)
    : option (AR unit) :=
  loop (3 + size grants) (cycle_step grants) (∅, Some start).

Definition validate_cycles (g : GrantGraph) : AR unit :=
  for_each (fun start => default (Ok tt) (cycle_walk (gg_grants g) start))
    (btree_iter (gg_grants g)).*1.

Definition validate_edge (grants : gmap string CapabilityGrant)
    (transitions : gmap Edge AdmittedRootTransition) (child : CapabilityGrant) : AR unit :=
  match cg_parent_grant_id child with
  | None => Ok tt
  | Some parent_id =>
      let? parent := ok_or (grants !! parent_id) (MissingParent parent_id) in
      check? guard_err (crosses_authority_root (cg_authority_root_ref parent)
                          (cg_authority_root_ref child)
                        && negb (is_some (transitions !! (cg_grant_id parent, cg_grant_id child))))
        (GrantNotNarrower (cg_grant_id child));
      check_narrowing parent child
  end.

Definition validate_edges (g : GrantGraph) : AR unit :=
  for_each (validate_edge (gg_grants g) (gg_transitions g)) (btree_values (gg_grants g)).

(** The loop that fills [by_id]. *)
Definition insert_grant (by_id : gmap string CapabilityGrant) (grant : CapabilityGrant)
    : AR (gmap string CapabilityGrant) :=
  check? validate_local grant;
  check? guard_err (is_some (by_id !! cg_grant_id grant)) (DuplicateGrant (cg_grant_id grant));
  Ok (<[cg_grant_id grant := grant]> by_id).

Definition check_transition (by_id : gmap string CapabilityGrant) (revision : Z)
    (kv : Edge * AdmittedRootTransition) : AR unit :=
  let record := at_record kv.2 in
  check? admit_transition_record by_id record revision;
  guard_err ((rt_parent_grant_id record != kv.1.1) || (rt_child_grant_id record != kv.1.2))
    (AInvalidField "root_transition.edge").

Definition assemble (grants : list CapabilityGrant) (transitions : gmap Edge AdmittedRootTransition)
    (unreadable_transitions : gset Edge) (revision : Z) : AR GrantGraph :=
  check? guard_err (revision =? 0) (AInvalidField "grant_graph_revision");
  let? by_id := fold_res insert_grant ∅ grants in
  check? for_each (check_transition by_id revision) (edge_iter transitions);
  let graph := {| gg_grants := by_id; gg_revoked := ∅; gg_revision := revision;
                  gg_transitions := transitions;
                  gg_unreadable_transitions := unreadable_transitions;
                  gg_quarantined := ∅ |} in
  check? validate_cycles graph;
  check? validate_edges graph;
  Ok graph.

Definition from_grants (grants : list CapabilityGrant) (revision : Z) : AR GrantGraph :=
  assemble grants ∅ ∅ revision.

(** The loop over the admitted evidence in [with_admitted_transitions]. *)
Definition insert_evidence (transitions : gmap Edge AdmittedRootTransition)
    (evidence : AdmittedRootTransition) : AR (gmap Edge AdmittedRootTransition) :=
  let record := at_record evidence in
  let? parent_id := GrantId_new (rt_parent_grant_id record) in
  let? child_id := GrantId_new (rt_child_grant_id record) in
  let duplicate_identity :=
    existsb (fun kv : Edge * AdmittedRootTransition =>
      (rt_transition_id (at_record kv.2) == rt_transition_id record)
      || ((rt_operation_id (at_record kv.2) == rt_operation_id record)
          && (at_canonical_request_digest kv.2 != at_canonical_request_digest evidence)))
      (edge_iter transitions) in
  check? guard_err (duplicate_identity || is_some (transitions !! (parent_id, child_id)))
    AIdentityConflict;
  Ok (<[(parent_id, child_id) := evidence]> transitions).

Definition with_admitted_transitions (grants : list CapabilityGrant)
    (admitted : list AdmittedRootTransition) (revision : Z) : AR GrantGraph :=
  let? transitions := fold_res insert_evidence ∅ admitted in
  assemble grants transitions ∅ revision.

(** ** Revocation *)

Definition set_revoked (revoked : gset string) (g : GrantGraph) : GrantGraph :=
  {| gg_grants := gg_grants g; gg_revoked := revoked; gg_revision := gg_revision g;
     gg_transitions := gg_transitions g;
     gg_unreadable_transitions := gg_unreadable_transitions g;
     gg_quarantined := gg_quarantined g |}.

Definition set_revision (revision : Z) (g : GrantGraph) : GrantGraph :=
  {| gg_grants := gg_grants g; gg_revoked := gg_revoked g; gg_revision := revision;
     gg_transitions := gg_transitions g;
     gg_unreadable_transitions := gg_unreadable_transitions g;
     gg_quarantined := gg_quarantined g |}.

(** [self.revision = self.revision.checked_add(1).ok_or(...)?] *)
Definition bump_revision : M GrantGraph AuthorityError unit :=
  let! g := mstate in
  let! revision := mlift (ok_or (checked_add (gg_revision g) 1)
                            (AInvalidField "grant_graph_revision")) in
  mmodify (set_revision revision).

Definition revoke (grant_id : GrantId) : M GrantGraph AuthorityError unit :=
  let! g := mstate in
  do! mlift (guard_err (negb (is_some (gg_grants g !! grant_id))) (MissingParent grant_id));
  do! mmodify (set_revoked ({[grant_id]} ∪ gg_revoked g));
  bump_revision.

(** The loop that resolves the declared members before anything is changed. *)
Definition resolve_member (grants : gmap string CapabilityGrant) (declared : list GrantId)
    (member : string) : AR (list GrantId) :=
  let? grant_id := GrantId_new member in
  check? guard_err (negb (is_some (grants !! grant_id))) (MissingParent grant_id);
  Ok (declared ++ [grant_id])%list.

Definition revoke_declared_closure (target : GrantId) (members : list string)
    : M GrantGraph AuthorityError unit :=
  let! g := mstate in
  do! mlift (guard_err (negb (is_some (gg_grants g !! target))) (MissingParent target));
  let! declared := mlift (fold_res (resolve_member (gg_grants g)) [] members) in
  do! mmodify (set_revoked (list_to_set declared ∪ gg_revoked g));
  bump_revision.

(** ** Descendant closure *)

Record GrantClosureMemberRef : Type := {
  mr_grant_id : GrantId;
  mr_parent_grant_id : option GrantId;
}.

Record GrantClosureDelegation : Type := {
  gd_authority_root_ref : string;
  gd_revision : Z;
  gd_members : list GrantClosureMemberRef;
}.

Definition member_ref (g : CapabilityGrant) : GrantClosureMemberRef :=
  {| mr_grant_id := cg_grant_id g; mr_parent_grant_id := cg_parent_grant_id g |}.

Definition grant_id_le (a b : CapabilityGrant) : Prop := String.le (cg_grant_id a) (cg_grant_id b).

#[global] Instance grant_id_le_dec : RelDecision grant_id_le.
Proof. intros a b. unfold grant_id_le. apply _. Defined.

(** The children of [current] on the closure's root, by grant identifier. *)
Definition closure_children (grants : gmap string CapabilityGrant) (root : string)
    (current : GrantId) : list CapabilityGrant :=
  merge_sort grant_id_le
    (filter (fun g => cg_parent_grant_id g = Some current /\
                      crosses_authority_root (cg_authority_root_ref g) root = false)
       (btree_values grants)).

(** The variables of the traversal; the head of [cl_frontier] is the top of
    the stack. *)
Record ClosureState : Type := {
  cl_frontier : list GrantId;
  cl_seen : gset string;
  cl_members : list GrantClosureMemberRef;
}.

Definition visit_child (s : ClosureState) (child : CapabilityGrant) : ClosureState :=
  if bool_decide (cg_grant_id child ∈ cl_seen s) then s
  else {| cl_frontier := cg_grant_id child :: cl_frontier s;
          cl_seen := {[cg_grant_id child]} ∪ cl_seen s;
          cl_members := (cl_members s ++ [member_ref child])%list |}.

Definition closure_step (grants : gmap string CapabilityGrant) (root : string) (s : ClosureState)
    : ClosureState + list GrantClosureMemberRef :=
  match cl_frontier s with
  | [] => inr (cl_members s)
  | current :: frontier =>
      inl (fold_left visit_child (closure_children grants root current)
             {| cl_frontier := frontier; cl_seen := cl_seen s; cl_members := cl_members s |})
  end.

(** Each round pops one grant, and each grant is pushed at most once. *)
Definition closure_walk (grants : gmap string CapabilityGrant) (target : CapabilityGrant)
    : option (list GrantClosureMemberRef) :=
  loop (2 + size grants) (closure_step grants (cg_authority_root_ref target))
    {| cl_frontier := [cg_grant_id target]; cl_seen := {[cg_grant_id target]};
       cl_members := [member_ref target] |}.

Definition delegated_closure (g : GrantGraph) (grant_id : GrantId) : AR GrantClosureDelegation :=
  let? target := ok_or (gg_grants g !! grant_id) (MissingParent grant_id) in
  Ok {| gd_authority_root_ref := cg_authority_root_ref target;
        gd_revision := gg_revision g;
        gd_members := default [] (closure_walk (gg_grants g) target) |}.

(** ** Effective paths *)

Record EffectiveCapabilityPath : Type := {
  ep_grant_path : list GrantId;
  ep_authority : AuthoritySet;
}.

Record EffectiveCapabilitySnapshot : Type := {
  es_snapshot_id : SnapshotId;
  es_holder : PrincipalRef;
  es_work_scope : WorkScopeBinding;
  es_session : SessionBinding;
  es_grant_graph_revision : Z;
  es_paths : list EffectiveCapabilityPath;
}.

Definition snapshot_allows (s : EffectiveCapabilitySnapshot) (operation resource : string)
    (effect : EffectClass) : bool :=
  existsb (fun path => allows (ep_authority path) operation resource effect) (es_paths s).

Definition has_supporting_grant (s : EffectiveCapabilitySnapshot) (grant_id : GrantId) : bool :=
  existsb (fun path => bool_decide (grant_id ∈ ep_grant_path path)) (es_paths s).

(** [EffectiveCapabilitySnapshot::validate_context] *)
Definition snapshot_validate_context (s : EffectiveCapabilitySnapshot)
    (work_scope : WorkScopeBinding) (session : SessionBinding) : AR unit :=
  check? guard_err ((ws_state_fence (es_work_scope s) != ws_state_fence work_scope)
                    || (sb_state_fence (es_session s) != sb_state_fence session)
                    || (ws_state_fence work_scope != sb_state_fence session)) AFenceMismatch;
  guard_err (negb (is_same_authority (sb_authority_epoch session)
                     (authority_epoch (sb_state_fence session)))) AEpochMismatch.

(** The free function [validate_context]. *)
Definition validate_context (work_scope : WorkScopeBinding) (session : SessionBinding) : AR unit :=
  check? fence_check (ws_state_fence work_scope);
  check? fence_check (sb_state_fence session);
  check? guard_err (ws_state_fence work_scope != sb_state_fence session) AFenceMismatch;
  guard_err (negb (is_same_authority (sb_authority_epoch session)
                     (authority_epoch (sb_state_fence session)))) AEpochMismatch.

Definition validate_active (g : GrantGraph) (grant : CapabilityGrant)
    (work_scope : WorkScopeBinding) (session : SessionBinding) (now : LogicalTime) : AR unit :=
  check? guard_err (bool_decide (cg_grant_id grant ∈ gg_revoked g) || (cg_status grant == GRevoked))
    (GrantRevoked (cg_grant_id grant));
  check? guard_err (cg_status grant != GActive) (GrantInactive (cg_grant_id grant));
  check? guard_err (cg_expires_at grant <=? now) AExpired;
  check? guard_err ((ab_state_fence (cg_binding grant) != ws_state_fence work_scope)
                    || (ab_state_fence (cg_binding grant) != sb_state_fence session))
    AFenceMismatch;
  guard_err (negb (is_same_authority (ab_authority_epoch (cg_binding grant))
                     (sb_authority_epoch session))) AEpochMismatch.

(** The variables of the loop of [effective_path]. *)
Record PathState : Type := {
  ps_cursor : CapabilityGrant;
  ps_path : list GrantId;
  ps_effective : AuthoritySet;
}.

Definition path_step (g : GrantGraph) (work_scope : WorkScopeBinding) (session : SessionBinding)
    (now : LogicalTime) (s : PathState) : PathState + AR EffectiveCapabilityPath :=
  let cursor := ps_cursor s in
  match validate_active g cursor work_scope session now with
  | Err e => inr (Err e)
  | Ok _ =>
      let path := (ps_path s ++ [cg_grant_id cursor])%list in
      match cg_parent_grant_id cursor with
      | None => inr (Ok {| ep_grant_path := reverse path; ep_authority := ps_effective s |})
      | Some parent_id =>
          match gg_grants g !! parent_id with
          | None => inr (Err (MissingParent parent_id))
          | Some parent =>
              if negb (edge_is_authorized parent cursor (gg_transitions g))
              then inr (Err (GrantNotNarrower (cg_grant_id cursor)))
              else match AuthoritySet_intersection (ps_effective s) (cg_authority parent) with
                   | Err e => inr (Err e)
                   | Ok effective =>
                       inl {| ps_cursor := parent; ps_path := path; ps_effective := effective |}
                   end
          end
      end
  end.

(** The loop follows parent links and has no guard of its own against a
    cycle: [None] is a walk longer than the number of grants. *)
Definition effective_path (g : GrantGraph) (leaf : CapabilityGrant) (work_scope : WorkScopeBinding)
    (session : SessionBinding) (now : LogicalTime) : option (AR EffectiveCapabilityPath) :=
  loop (2 + size (gg_grants g)) (path_step g work_scope session now)
    {| ps_cursor := leaf; ps_path := []; ps_effective := cg_authority leaf |}.

(** [if let Ok(path) = self.effective_path(...) { paths.push(path) }] *)
Fixpoint collect_paths (g : GrantGraph) (work_scope : WorkScopeBinding) (session : SessionBinding)
    (now : LogicalTime) (l : list CapabilityGrant) : option (list EffectiveCapabilityPath) :=
  match l with
  | [] => Some []
  | grant :: l' =>
      match effective_path g grant work_scope session now with
      | None => None
      | Some (Err _) => collect_paths g work_scope session now l'
      | Some (Ok path) => cons path <$> collect_paths g work_scope session now l'
      end
  end.

Definition graph_snapshot (g : GrantGraph) (snapshot_id : SnapshotId) (holder : PrincipalRef)
    (work_scope : WorkScopeBinding) (session : SessionBinding) (now : LogicalTime)
    : option (AR EffectiveCapabilitySnapshot) :=
  match validate_context work_scope session with
  | Err e => Some (Err e)
  | Ok _ =>
      match collect_paths g work_scope session now
              (filter (fun grant => cg_holder grant = holder) (btree_values (gg_grants g))) with
      | None => None
      | Some [] => Some (Err NoEffectivePath)
      | Some paths =>
          Some (Ok {| es_snapshot_id := snapshot_id; es_holder := holder;
                      es_work_scope := work_scope; es_session := session;
                      es_grant_graph_revision := gg_revision g; es_paths := paths |})
      end
  end.

(** ** Introductions *)

Inductive IntroductionStatus : Type :=
| IActive
| ISuspended
| IRevoked
| IStale
| IConsumed
| IExpired.

#[global] Instance IntroductionStatus_eq_dec : EqDecision IntroductionStatus.
Proof. solve_decision. Defined.

Record CapabilityIntroduction : Type := {
  ci_introduction_id : IntroductionId;
  ci_holder : PrincipalRef;
  ci_supporting_grant_refs : gset string;
  ci_resource_handle : string;
  ci_facet_manifest_ref : string;
  ci_introduced_authority : AuthoritySet;
  ci_work_scope : WorkScopeBinding;
  ci_session : SessionBinding;
  ci_grant_graph_revision : Z;
  ci_expires_at : LogicalTime;
  ci_remaining_calls : Z;
  ci_status : IntroductionStatus;
}.

Definition introduction_compile (introduction_id : IntroductionId) (holder : PrincipalRef)
    (supporting_grant_refs : list GrantId) (resource_handle facet_manifest_ref : string)
    (introduced_authority : AuthoritySet) (snapshot : EffectiveCapabilitySnapshot)
    (expires_at : LogicalTime) (max_calls : Z) : AR CapabilityIntroduction :=
  check? authority_text resource_handle "resource_handle";
  check? authority_text facet_manifest_ref "facet_manifest_ref";
  check? guard_err ((holder != es_holder snapshot) || (max_calls =? 0))
    (AInvalidField "introduction_holder_or_budget");
  let supporting : gset string := list_to_set supporting_grant_refs in
  check? guard_err ((supporting == ∅)
                    || existsb (fun grant => negb (has_supporting_grant snapshot grant))
                         (btree_set_iter supporting)) SupportingPathMissing;
  let path_covers := existsb (fun path =>
      forallb (fun grant => bool_decide (grant ∈ ep_grant_path path)) (btree_set_iter supporting)
      && is_subset_of introduced_authority (ep_authority path)) (es_paths snapshot) in
  check? guard_err (negb path_covers) NoEffectivePath;
  Ok {| ci_introduction_id := introduction_id; ci_holder := holder;
        ci_supporting_grant_refs := supporting; ci_resource_handle := resource_handle;
        ci_facet_manifest_ref := facet_manifest_ref;
        ci_introduced_authority := introduced_authority;
        ci_work_scope := es_work_scope snapshot; ci_session := es_session snapshot;
        ci_grant_graph_revision := es_grant_graph_revision snapshot;
        ci_expires_at := expires_at; ci_remaining_calls := max_calls; ci_status := IActive |}.

Definition set_intro (status : IntroductionStatus) (remaining : Z) (i : CapabilityIntroduction)
    : CapabilityIntroduction :=
  {| ci_introduction_id := ci_introduction_id i; ci_holder := ci_holder i;
     ci_supporting_grant_refs := ci_supporting_grant_refs i;
     ci_resource_handle := ci_resource_handle i;
     ci_facet_manifest_ref := ci_facet_manifest_ref i;
     ci_introduced_authority := ci_introduced_authority i;
     ci_work_scope := ci_work_scope i; ci_session := ci_session i;
     ci_grant_graph_revision := ci_grant_graph_revision i; ci_expires_at := ci_expires_at i;
     ci_remaining_calls := remaining; ci_status := status |}.

Definition set_intro_status (status : IntroductionStatus) (i : CapabilityIntroduction)
    : CapabilityIntroduction := set_intro status (ci_remaining_calls i) i.

(** [if reject { self.status = status; return Err(e) }] *)
Definition intro_guard (reject : bool) (status : IntroductionStatus) (e : AuthorityError)
    : M CapabilityIntroduction AuthorityError unit :=
  if reject then do! mmodify (set_intro_status status); mthrow e else mret_ok tt.

Definition authorize_call (operation resource : string) (effect : EffectClass)
    (snapshot : EffectiveCapabilitySnapshot) (now : LogicalTime)
    : M CapabilityIntroduction AuthorityError unit :=
  let! i := mstate in
  do! mlift (guard_err (ci_status i != IActive) ARevoked);
  do! intro_guard (ci_expires_at i <=? now) IExpired AExpired;
  do! intro_guard (ci_remaining_calls i =? 0) IConsumed UseBudgetExhausted;
  do! mlift (snapshot_validate_context snapshot (ci_work_scope i) (ci_session i));
  do! intro_guard
    (negb (es_grant_graph_revision snapshot =? ci_grant_graph_revision i)
     || existsb (fun grant => negb (has_supporting_grant snapshot grant))
          (btree_set_iter (ci_supporting_grant_refs i)))
    IStale
    match btree_set_iter (ci_supporting_grant_refs i) with
    | first :: _ => GrantRevoked first
    | [] => SupportingPathMissing
    end;
  do! mlift (guard_err (negb (bool_decide (operation ∈ as_operations (ci_introduced_authority i))))
               UnauthorizedOperation);
  do! mlift (guard_err (negb (bool_decide (resource ∈ as_resources (ci_introduced_authority i))))
               UnauthorizedResource);
  do! mlift (guard_err (grant_effect_rank (as_max_effect (ci_introduced_authority i))
                          <? grant_effect_rank effect) EffectCeilingExceeded);
  let remaining := ci_remaining_calls i - 1 in
  mmodify (set_intro (if remaining =? 0 then IConsumed else ci_status i) remaining).
