(* ===== verification/GrantRecovery.v ===== *)
(** * Recovery of the grant graph

    The recovery snapshot of crates/governor/eliot-authority/src/grants.rs:
    its wire checks, the partition of a restored map into live authority and
    quarantined cross-root lineage, explicit quarantine records, and the
    snapshot and restore entry points. *)

From Stdlib Require Import Ascii String.
From S2P Require Import Prelude RustText Contracts Receipts Grants GrantGraph.

#[local] Open Scope string_scope.
#[local] Open Scope Z_scope.

Definition GRANT_GRAPH_RECOVERY_SCHEMA : string := "eliot.authority.grant-graph-recovery".
Definition GRANT_GRAPH_RECOVERY_VERSION : Z := 2.
Definition LEGACY_GRANT_GRAPH_RECOVERY_VERSION : Z := 1.

Record GrantGraphRecoverySnapshot : Type := {
  rs_schema : string;
  rs_version : Z;
  rs_revision : Z;
  rs_grants : list GrantRecoveryRecord;
  rs_revoked : list string;
  rs_admitted_root_transitions : list AdmittedRootTransitionRecord;
  rs_quarantined_cross_root : list QuarantinedCrossRootRecord;
}.

(** [previous >= current] on [&str] *)
Definition str_ge (a b : string) : bool := bool_decide (String.le b a).

(** The scan [if previous >= key(x) { return Err(e) }], with a check made on
    each item first. *)
Fixpoint scan_ascending {A} (pre : A -> AR unit) (key : A -> string) (e : AuthorityError)
    (previous : option string) (l : list A) : AR unit :=
  match l with
  | [] => Ok tt
  | x :: l' =>
      check? pre x;
      check? guard_err match previous with Some p => str_ge p (key x) | None => false end e;
      scan_ascending pre key e (Some (key x)) l'
  end.

Definition validate_wire (s : GrantGraphRecoverySnapshot) : AR unit :=
  check? guard_err (rs_schema s != GRANT_GRAPH_RECOVERY_SCHEMA)
    (AInvalidField "grant_graph_recovery.schema");
  check? guard_err (negb ((rs_version s =? GRANT_GRAPH_RECOVERY_VERSION)
                          || (rs_version s =? LEGACY_GRANT_GRAPH_RECOVERY_VERSION)))
    (AInvalidField "grant_graph_recovery.version");
  check? guard_err (negb (rs_version s =? GRANT_GRAPH_RECOVERY_VERSION))
    (AInvalidField "grant_graph_recovery.version_legacy_unqualified");
  check? guard_err (rs_revision s =? 0) (AInvalidField "grant_graph_revision");
  check? scan_ascending (fun r => authority_text (gr_grant_id r) "grant_id") gr_grant_id
    (AInvalidField "grant_graph_recovery.grants") None (rs_grants s);
  check? scan_ascending (fun r => authority_text r "revoked_grant_id") id
    (AInvalidField "grant_graph_recovery.revoked") None (rs_revoked s);
  check? scan_ascending (fun r => validate_shape (ar_record r))
    (fun r => rt_transition_id (ar_record r))
    (AInvalidField "grant_graph_recovery.admitted_root_transitions") None
    (rs_admitted_root_transitions s);
  scan_ascending (fun r => authority_text (qw_relation_id r) "quarantined_cross_root.relation_id")
    qw_relation_id (AInvalidField "grant_graph_recovery.quarantined_cross_root") None
    (rs_quarantined_cross_root s).

(** ** Partition of a restored map *)

(** The variables of the fixpoint of [partition_restored]. *)
Record Partition : Type := {
  pt_admitted : gmap string CapabilityGrant;
  pt_quarantined_ids : gset string;
  pt_quarantined : gmap string QuarantinedCrossRootRelation;
  pt_progressed : bool;
}.

Definition partition_accept (id : GrantId) (grant : CapabilityGrant) (p : Partition) : Partition :=
  {| pt_admitted := <[id := grant]> (pt_admitted p); pt_quarantined_ids := pt_quarantined_ids p;
     pt_quarantined := pt_quarantined p; pt_progressed := true |}.

Definition partition_quarantine (g : GrantGraph) (id : GrantId) (parent grant : CapabilityGrant)
    (p : Partition) : AR Partition :=
  let? relation := migrate_to_quarantine parent grant (gg_revision g) in
  Ok {| pt_admitted := pt_admitted p; pt_quarantined_ids := {[id]} ∪ pt_quarantined_ids p;
        pt_quarantined := <[qr_relation_id relation := relation]> (pt_quarantined p);
        pt_progressed := true |}.

(** The body of the [for] loop, on one entry of the full map. *)
Definition partition_one (g : GrantGraph) (p : Partition) (kv : string * CapabilityGrant)
    : AR Partition :=
  let (id, grant) := kv in
  if is_some (pt_admitted p !! id) || bool_decide (id ∈ pt_quarantined_ids p) then Ok p
  else match cg_parent_grant_id grant with
  | None => Ok p
  | Some parent_id =>
      let? parent := ok_or (gg_grants g !! parent_id) (MissingParent parent_id) in
      if bool_decide (parent_id ∈ pt_quarantined_ids p)
      then partition_quarantine g id parent grant p
      else if is_some (pt_admitted p !! parent_id)
      then if edge_is_authorized parent grant (gg_transitions g)
              && negb (bool_decide ((parent_id, cg_grant_id grant) ∈ gg_unreadable_transitions g))
           then Ok (partition_accept id grant p)
           else partition_quarantine g id parent grant p
      else Ok p
  end.

Definition partition_round (g : GrantGraph) (p : Partition) : AR Partition :=
  fold_res (partition_one g)
    {| pt_admitted := pt_admitted p; pt_quarantined_ids := pt_quarantined_ids p;
       pt_quarantined := pt_quarantined p; pt_progressed := false |}
    (btree_iter (gg_grants g)).

Definition partition_step (g : GrantGraph) (p : Partition) : Partition + AR Partition :=
  match partition_round g p with
  | Err e => inr (Err e)
  | Ok p' => if pt_progressed p' then inl p' else inr (Ok p')
  end.

Definition partition_start (g : GrantGraph) : Partition :=
  {| pt_admitted := filter (fun kv => cg_parent_grant_id kv.2 = None) (gg_grants g);
     pt_quarantined_ids := ∅; pt_quarantined := gg_quarantined g; pt_progressed := false |}.

(** Every round but the last places at least one more grant. *)
Definition partition_loop (g : GrantGraph) : option (AR Partition) :=
  loop (2 + size (gg_grants g)) (partition_step g) (partition_start g).

Definition partition_restored (g : GrantGraph) : AR GrantGraph :=
  let? p := default (Ok (partition_start g)) (partition_loop g) in
  check? guard_err (negb (Nat.eqb (size (pt_admitted p) + size (pt_quarantined_ids p))
                            (size (gg_grants g))))
    (AInvalidField "grant_graph_recovery.partition");
  Ok {| gg_grants := pt_admitted p; gg_revoked := gg_revoked g; gg_revision := gg_revision g;
        gg_transitions := filter (fun kv => is_Some (pt_admitted p !! kv.1.1) /\
                                            is_Some (pt_admitted p !! kv.1.2)) (gg_transitions g);
        gg_unreadable_transitions := gg_unreadable_transitions g;
        gg_quarantined := pt_quarantined p |}.

(** ** Explicit quarantine records *)

Definition find_quarantined (g : GrantGraph) (id : GrantId) : option CapabilityGrant :=
  qr_child <$> List.find (fun known => cg_grant_id (qr_child known) == id)
                 (btree_values (gg_quarantined g)).

Definition insert_quarantined (relation : QuarantinedCrossRootRelation) (g : GrantGraph)
    : GrantGraph :=
  {| gg_grants := gg_grants g; gg_revoked := gg_revoked g; gg_revision := gg_revision g;
     gg_transitions := gg_transitions g;
     gg_unreadable_transitions := gg_unreadable_transitions g;
     gg_quarantined := <[qr_relation_id relation := relation]> (gg_quarantined g) |}.

Definition restore_quarantine_record (explicit : gmap string CapabilityGrant) (g : GrantGraph)
    (record : QuarantinedCrossRootRecord) : AR GrantGraph :=
  check? authority_text (qw_relation_id record) "quarantined_cross_root.relation_id";
  check? authority_text (qw_parent_authority_root_ref record) "quarantined_cross_root.root";
  check? guard_err ((qw_quarantined_at_revision record =? 0)
                    || (gg_revision g <? qw_quarantined_at_revision record))
    (AInvalidField "quarantined_cross_root.revision");
  let? parent_id := GrantId_new (qw_parent_grant_id record) in
  let? child := grant_from_recovery_record (qw_child record) in
  check? validate_local child;
  check? guard_err (cg_parent_grant_id child != Some parent_id)
    (AInvalidField "quarantined_cross_root.edge");
  check? guard_err (is_some (gg_grants g !! cg_grant_id child)) AIdentityConflict;
  check? guard_err (is_some (find_quarantined g (cg_grant_id child))) AIdentityConflict;
  let? parent :=
    match gg_grants g !! parent_id with
    | Some parent => Ok parent
    | None =>
        match find_quarantined g parent_id with
        | Some parent => Ok parent
        | None => ok_or (explicit !! parent_id) (MissingParent parent_id)
        end
    end in
  check? guard_err (cg_authority_root_ref parent != qw_parent_authority_root_ref record)
    (AInvalidField "quarantined_cross_root.root");
  check? guard_err (negb (crosses_authority_root (cg_authority_root_ref parent)
                            (cg_authority_root_ref child)))
    (AInvalidField "quarantined_cross_root.edge");
  check? check_narrowing parent child;
  check? guard_err (is_some (gg_quarantined g !! qw_relation_id record)) AIdentityConflict;
  Ok (insert_quarantined
        {| qr_relation_id := qw_relation_id record; qr_parent_grant_id := parent_id;
           qr_parent_authority_root_ref := qw_parent_authority_root_ref record;
           qr_child := child; qr_quarantined_at_revision := qw_quarantined_at_revision record;
           qr_disposition := qw_disposition record |} g).

(** ** Restoration *)

Definition insert_restored (map : gmap string CapabilityGrant) (record : GrantRecoveryRecord)
    : AR (gmap string CapabilityGrant) :=
  let? grant := grant_from_recovery_record record in
  insert_grant map grant.

Definition parent_present (map : gmap string CapabilityGrant) (grant : CapabilityGrant) : AR unit :=
  match cg_parent_grant_id grant with
  | Some parent_id => guard_err (negb (is_some (map !! parent_id))) (MissingParent parent_id)
  | None => Ok tt
  end.

(** The second loop over the transition rows: the identities seen and the
    edges left unreadable. *)
Definition mark_unreadable (acc : gset string * gset Edge) (row : AdmittedRootTransitionRecord)
    : AR (gset string * gset Edge) :=
  let record := ar_record row in
  let? parent_id := GrantId_new (rt_parent_grant_id record) in
  let? child_id := GrantId_new (rt_child_grant_id record) in
  check? guard_err (bool_decide (rt_transition_id record ∈ acc.1)) AIdentityConflict;
  Ok ({[rt_transition_id record]} ∪ acc.1, {[(parent_id, child_id)]} ∪ acc.2).

Definition insert_explicit (explicit : gmap string CapabilityGrant)
    (record : QuarantinedCrossRootRecord) : AR (gmap string CapabilityGrant) :=
  let? child := grant_from_recovery_record (qw_child record) in
  check? validate_local child;
  check? guard_err (is_some (explicit !! cg_grant_id child)) AIdentityConflict;
  Ok (<[cg_grant_id child := child]> explicit).

Definition restore_revoked (g : GrantGraph) (revoked : string) : AR GrantGraph :=
  let? grant_id := GrantId_new revoked in
  check? guard_err (negb (is_some (gg_grants g !! grant_id)
                          || is_some (find_quarantined g grant_id))) (MissingParent grant_id);
  Ok (set_revoked ({[grant_id]} ∪ gg_revoked g) g).

Definition restore_owned (s : GrantGraphRecoverySnapshot) : AR GrantGraph :=
  let? full_map := fold_res insert_restored ∅ (rs_grants s) in
  check? for_each (parent_present full_map) (btree_values full_map);
  check? for_each (fun row => admit_transition_record full_map (ar_record row) (rs_revision s))
    (rs_admitted_root_transitions s);
  let? marks := fold_res mark_unreadable (∅, ∅) (rs_admitted_root_transitions s) in
  let probe := {| gg_grants := full_map; gg_revoked := ∅; gg_revision := rs_revision s;
                  gg_transitions := ∅; gg_unreadable_transitions := marks.2;
                  gg_quarantined := ∅ |} in
  check? validate_cycles probe;
  let? graph := partition_restored probe in
  let? explicit := fold_res insert_explicit ∅ (rs_quarantined_cross_root s) in
  let? graph := fold_res (restore_quarantine_record explicit) graph (rs_quarantined_cross_root s) in
  check? validate_edges graph;
  fold_res restore_revoked graph (rs_revoked s).

Definition recovery_validate (s : GrantGraphRecoverySnapshot) : AR unit :=
  check? validate_wire s;
  let? _ := restore_owned s in Ok tt.

Definition require_owner_readback_for_restore (s : GrantGraphRecoverySnapshot) : AR unit :=
  match rs_admitted_root_transitions s with
  | [] => Ok tt
  | _ => Err (StaleTransitionEvidence
                "grant_graph_recovery.root_transition_owner_readback_required")
  end.

Definition from_recovery_snapshot (s : GrantGraphRecoverySnapshot) : AR GrantGraph :=
  check? validate_wire s;
  check? require_owner_readback_for_restore s;
  restore_owned s.

(** ** Emission *)

Definition transition_id_le (a b : AdmittedRootTransitionRecord) : Prop :=
  String.le (rt_transition_id (ar_record a)) (rt_transition_id (ar_record b)).

#[global] Instance transition_id_le_dec : RelDecision transition_id_le.
Proof. intros a b. unfold transition_id_le. apply _. Defined.

Definition quarantine_record (r : QuarantinedCrossRootRelation) : QuarantinedCrossRootRecord :=
  {| qw_relation_id := qr_relation_id r; qw_parent_grant_id := qr_parent_grant_id r;
     qw_parent_authority_root_ref := qr_parent_authority_root_ref r;
     qw_child := grant_to_recovery_record (qr_child r);
     qw_quarantined_at_revision := qr_quarantined_at_revision r;
     qw_disposition := qr_disposition r |}.

(** The snapshot before its self-check. *)
Definition emit_snapshot (g : GrantGraph) : GrantGraphRecoverySnapshot :=
  {| rs_schema := GRANT_GRAPH_RECOVERY_SCHEMA;
     rs_version := GRANT_GRAPH_RECOVERY_VERSION;
     rs_revision := gg_revision g;
     rs_grants := grant_to_recovery_record <$> btree_values (gg_grants g);
     rs_revoked := btree_set_iter (gg_revoked g);
     rs_admitted_root_transitions :=
       merge_sort transition_id_le
         ((fun kv : Edge * AdmittedRootTransition => to_recovery_record kv.2)
            <$> edge_iter (gg_transitions g));
     rs_quarantined_cross_root := quarantine_record <$> btree_values (gg_quarantined g) |}.

Definition recovery_snapshot (g : GrantGraph) : AR GrantGraphRecoverySnapshot :=
  let snapshot := emit_snapshot g in
  check? recovery_validate snapshot;
  Ok snapshot.
