(* ===== verification/GrantGraphLaws.v ===== *)
(** * Laws of the grant graph

    What assembly establishes (a forest whose edges narrow), what an effective
    path is (the active lineage of a grant, with the grant's own authority),
    what revocation and the descendant closure do to it, and how far an
    introduction carries it. *)

From Stdlib Require Import Ascii String.
From S2P Require Import Prelude RustText Contracts Receipts Grants GrantGraph.
From stdpp Require Import relations.

#[local] Open Scope Z_scope.

(** ** Authority sets are ordered by inclusion *)

Section AuthoritySets.
Implicit Types a b c : AuthoritySet.

Lemma grant_effect_rank_inj : Inj (=) (=) grant_effect_rank.
Proof. by intros [] []. Qed.

Lemma is_subset_of_spec a b :
  is_subset_of a b = true <->
  as_operations a ⊆ as_operations b /\ as_resources a ⊆ as_resources b /\
  grant_effect_rank (as_max_effect a) <= grant_effect_rank (as_max_effect b).
Proof.
  unfold is_subset_of. rewrite !andb_true_iff, !bool_decide_eq_true, Z.leb_le. tauto.
Qed.

(** Inclusion of the authority one set carries in that of another. *)
Definition authority_le a b : Prop := is_subset_of a b = true.

#[export] Instance authority_le_po : PartialOrder authority_le.
Proof.
  unfold authority_le. split; [split|].
  - intros a. apply is_subset_of_spec. split_and!; [done|done|lia].
  - intros a b c. rewrite !is_subset_of_spec. intros (? & ? & ?) (? & ? & ?).
    split_and!; [set_solver|set_solver|lia].
  - intros [o r e] [o' r' e']. rewrite !is_subset_of_spec. simpl.
    intros (? & ? & ?) (? & ? & ?). f_equal; [set_solver|set_solver|].
    apply grant_effect_rank_inj. lia.
Qed.

Lemma is_strict_subset_of_spec a b :
  is_strict_subset_of a b = true <-> authority_le a b /\ a <> b.
Proof.
  unfold is_strict_subset_of, authority_le.
  by rewrite andb_true_iff, negb_true_iff, bool_decide_eq_false.
Qed.

(** What a smaller set allows the larger one allows. *)
Lemma allows_mono a b operation resource effect :
  authority_le a b -> allows a operation resource effect = true ->
  allows b operation resource effect = true.
Proof.
  unfold authority_le, allows. rewrite is_subset_of_spec. intros (Ho & Hr & He).
  rewrite !andb_true_iff, !bool_decide_eq_true, !Z.leb_le. intros [[? ?] ?].
  split_and!; [set_solver|set_solver|lia].
Qed.

(** The invariant the private fields of [AuthoritySet] keep. *)
Definition authority_wf a : Prop :=
  AuthoritySet_new (as_operations a) (as_resources a) (as_max_effect a) = Ok a.

Lemma AuthoritySet_new_ok operations resources effect a :
  AuthoritySet_new operations resources effect = Ok a ->
  authority_wf a /\
  a = {| as_operations := operations; as_resources := resources; as_max_effect := effect |}.
Proof.
  intros H. assert (Ha : a = {| as_operations := operations; as_resources := resources;
    as_max_effect := effect |}).
  { unfold AuthoritySet_new in H. by run. }
  split; [|done]. subst a. exact H.
Qed.

(** Meeting a set with one that includes it changes nothing. *)
Lemma intersection_absorb a b :
  authority_wf a -> authority_le a b -> AuthoritySet_intersection a b = Ok a.
Proof.
  intros Hwf Hle. apply is_subset_of_spec in Hle as (Ho & Hr & He).
  unfold AuthoritySet_intersection. rewrite (proj2 (Z.leb_le _ _) He).
  replace (as_operations a ∩ as_operations b) with (as_operations a) by set_solver.
  replace (as_resources a ∩ as_resources b) with (as_resources a) by set_solver.
  exact Hwf.
Qed.
End AuthoritySets.

(** ** Lineage *)

Section Lineage.
Context (grants : gmap string CapabilityGrant).

(** [edge c p]: the grant [c] names [p] as its parent. *)
Definition edge (c p : GrantId) : Prop :=
  exists g, grants !! c = Some g /\ cg_parent_grant_id g = Some p.

(** The grants from a root down to [leaf], as parent links give them. *)
Inductive lineage : CapabilityGrant -> list CapabilityGrant -> Prop :=
| lineage_root leaf : cg_parent_grant_id leaf = None -> lineage leaf [leaf]
| lineage_child leaf p parent chain :
    cg_parent_grant_id leaf = Some p -> grants !! p = Some parent ->
    lineage parent chain -> lineage leaf (chain ++ [leaf]).

Lemma lineage_fun leaf chain chain' : lineage leaf chain -> lineage leaf chain' -> chain = chain'.
Proof.
  intros H. revert chain'. induction H as [leaf Hr|leaf p parent chain Hp Hg H IH];
    intros chain' H'; inversion H'; simplify_eq; [done|].
  f_equal. by apply IH.
Qed.

Lemma lineage_self leaf chain : lineage leaf chain -> leaf ∈ chain.
Proof. destruct 1; set_solver. Qed.
End Lineage.

(** The invariant the types of a grant's fields keep: identifiers and
    principals are checked text, authority sets come from their constructor. *)
Record grant_typed (gr : CapabilityGrant) : Prop := {
  ty_id : text_ok (cg_grant_id gr) = true;
  ty_parent : forall p, cg_parent_grant_id gr = Some p -> text_ok p = true;
  ty_issuer : text_ok (cg_issuer gr) = true;
  ty_holder : text_ok (cg_holder gr) = true;
  ty_authority : authority_wf (cg_authority gr);
}.

(** A graph as its constructors leave it: grants filed under their own
    identifier, locally valid, every edge narrowing inside one root or on
    recorded evidence. *)
Record graph_wf (g : GrantGraph) : Prop := {
  wf_key : forall id gr, gg_grants g !! id = Some gr -> cg_grant_id gr = id;
  wf_local : forall id gr, gg_grants g !! id = Some gr -> validate_local gr = Ok tt;
  wf_typed : forall id gr, gg_grants g !! id = Some gr -> grant_typed gr;
  wf_edge : forall id gr, gg_grants g !! id = Some gr ->
    validate_edge (gg_grants g) (gg_transitions g) gr = Ok tt;
}.

(** What an accepted edge says. *)
Lemma grant_narrowing_ok parent child :
  check_narrowing parent child = Ok tt <->
  cg_issuer child = cg_holder parent /\
  authority_le (cg_authority child) (cg_authority parent) /\
  cg_authority child <> cg_authority parent /\
  cg_expires_at child <= cg_expires_at parent /\ cg_max_uses child <= cg_max_uses parent.
Proof.
  unfold check_narrowing. rewrite guard_err_ok, !orb_false_iff, !negb_false_iff, bool_decide_eq_true,
    is_strict_subset_of_spec, !Z.ltb_ge. tauto.
Qed.

Lemma validate_edge_ok grants transitions child :
  validate_edge grants transitions child = Ok tt <->
  forall p, cg_parent_grant_id child = Some p ->
    exists parent, grants !! p = Some parent /\
      edge_is_authorized parent child transitions = true /\ check_narrowing parent child = Ok tt.
Proof.
  unfold validate_edge, edge_is_authorized.
  destruct (cg_parent_grant_id child) as [p|]; [|split; [intros _ p [=]|done]].
  destruct (grants !! p) as [parent|] eqn:Hp; simpl.
  2: { split; [done|]. intros H. destruct (H p eq_refl) as (? & ? & _). congruence. }
  rewrite check_guard_ok. split.
  - intros [Hc Hn] q [= <-]. exists parent. split_and!; [done| |done].
    by destruct (crosses_authority_root _ _), (is_some _).
  - intros H. destruct (H p eq_refl) as (parent' & Hp' & He & Hn).
    assert (parent' = parent) as -> by congruence. split; [|done].
    by destruct (crosses_authority_root _ _), (is_some _).
Qed.

(** ** Assembly *)

Section Assembly.

Lemma insert_grant_ok m gr m' :
  insert_grant m gr = Ok m' <->
  validate_local gr = Ok tt /\ m !! cg_grant_id gr = None /\ m' = <[cg_grant_id gr := gr]> m.
Proof.
  unfold insert_grant. rewrite check_ok, check_guard_ok.
  destruct (m !! cg_grant_id gr); simpl; naive_solver.
Qed.

(** Grants filed under their own identifier, each passing [ok]. *)
Definition filed (ok : CapabilityGrant -> Prop) (m : gmap string CapabilityGrant) : Prop :=
  map_Forall (fun id gr => cg_grant_id gr = id /\ ok gr) m.

Lemma insert_grants_filed (ok : CapabilityGrant -> Prop) grants : forall m m',
  Forall ok grants -> filed (fun gr => ok gr /\ validate_local gr = Ok tt) m ->
  fold_res insert_grant m grants = Ok m' ->
  filed (fun gr => ok gr /\ validate_local gr = Ok tt) m'.
Proof.
  induction grants as [|gr grants IH]; intros m m' Hok Hm H; simpl in H; [naive_solver|].
  apply Forall_cons in Hok as [Hgr Hok].
  apply rbind_ok in H as (m1 & H1 & H2). apply insert_grant_ok in H1 as (Hl & Hn & ->).
  eapply IH; [done| |exact H2]. by apply map_Forall_insert_2.
Qed.

Lemma validate_edges_ok g :
  validate_edges g = Ok tt <->
  forall id gr, gg_grants g !! id = Some gr ->
    validate_edge (gg_grants g) (gg_transitions g) gr = Ok tt.
Proof.
  unfold validate_edges. rewrite for_each_ok, Forall_forall. split.
  - intros H id gr Hg. apply H, btree_values_elem. eauto.
  - intros H gr [id Hg]%btree_values_elem. eauto.
Qed.

Lemma assemble_wf grants transitions unreadable revision g :
  Forall grant_typed grants -> assemble grants transitions unreadable revision = Ok g ->
  graph_wf g /\ gg_revoked g = ∅ /\ gg_revision g = revision /\
  gg_transitions g = transitions /\ gg_unreadable_transitions g = unreadable /\
  gg_quarantined g = ∅.
Proof.
  intros Ht H. unfold assemble in H. apply check_guard_ok in H as [_ H].
  apply rbind_ok in H as (m & Hm & H). apply check_ok in H as [_ H].
  apply check_ok in H as [_ H]. apply check_ok in H as [He [= <-]]. simpl.
  rewrite validate_edges_ok in He. simpl in He.
  pose proof (insert_grants_filed _ grants ∅ m Ht (map_Forall_empty _) Hm) as Hf.
  split_and!; try done. split; simpl; intros id gr Hg; [| | |by eapply He];
    by destruct (Hf id gr Hg) as (? & ? & ?).
Qed.
End Assembly.

(** ** Narrowing makes the graph a forest *)

Section Forest.
Context (g : GrantGraph) (Hwf : graph_wf g).

Lemma edge_narrows c p gc :
  gg_grants g !! c = Some gc -> edge (gg_grants g) c p ->
  exists gp, gg_grants g !! p = Some gp /\ edge_is_authorized gp gc (gg_transitions g) = true /\
    check_narrowing gp gc = Ok tt.
Proof.
  intros Hc (gc' & Hc' & Hp). assert (gc' = gc) as -> by congruence.
  by apply (proj1 (validate_edge_ok _ _ _) (wf_edge g Hwf c gc Hc)).
Qed.

(** Along any chain of delegations authority strictly shrinks. *)
Lemma ancestors_narrow c d :
  tc (edge (gg_grants g)) c d ->
  exists gc gd, gg_grants g !! c = Some gc /\ gg_grants g !! d = Some gd /\
    authority_le (cg_authority gc) (cg_authority gd) /\ cg_authority gc <> cg_authority gd /\
    cg_expires_at gc <= cg_expires_at gd /\ cg_max_uses gc <= cg_max_uses gd.
Proof.
  induction 1 as [c p He|c p d He Ht IH].
  - pose proof He as (gc & Hc & _). destruct (edge_narrows c p gc Hc He) as (gp & Hp & _ & Hn).
    apply grant_narrowing_ok in Hn as (_ & ? & ? & ? & ?). by exists gc, gp.
  - pose proof He as (gc & Hc & _). destruct (edge_narrows c p gc Hc He) as (gp & Hp & _ & Hn).
    apply grant_narrowing_ok in Hn as (_ & Hle & Hne & ? & ?).
    destruct IH as (gp' & gd & Hp' & Hd & Hle' & Hne' & ? & ?).
    assert (gp' = gp) as -> by congruence. exists gc, gd. split_and!; try done.
    + by etrans.
    + intros Heq. apply Hne'. apply (anti_symm authority_le); [done|]. by rewrite <- Heq.
    + lia.
    + lia.
Qed.

Lemma edge_acyclic : Irreflexive (tc (edge (gg_grants g))).
Proof. intros c H. destruct (ancestors_narrow c c H) as (? & ? & ? & ? & _ & ? & _). congruence. Qed.

Lemma ancestors_finite c : pred_finite (tc (edge (gg_grants g)) c).
Proof.
  exists (elements (dom (gg_grants g))). intros d H.
  destruct (ancestors_narrow c d H) as (_ & gd & _ & Hd & _).
  apply elem_of_elements, elem_of_dom. eauto.
Qed.

(** Every grant has a lineage. *)
Lemma lineage_exists id gr :
  gg_grants g !! id = Some gr -> exists chain, lineage (gg_grants g) gr chain.
Proof.
  pose proof (tc_finite_sn id edge_acyclic (ancestors_finite id)) as Hsn.
  revert gr. induction Hsn as [id _ IH]. intros gr Hg.
  destruct (cg_parent_grant_id gr) as [p|] eqn:Hp.
  - assert (edge (gg_grants g) id p) as He by (by exists gr).
    destruct (edge_narrows id p gr Hg He) as (gp & Hgp & _).
    destruct (IH p He gp Hgp) as [chain Hl]. eexists. by eapply lineage_child.
  - eexists. by constructor.
Qed.

(** The members of a lineage are the grant and its ancestors. *)
Lemma lineage_elem leaf chain :
  lineage (gg_grants g) leaf chain -> gg_grants g !! cg_grant_id leaf = Some leaf ->
  forall x, x ∈ chain <->
    gg_grants g !! cg_grant_id x = Some x /\
    rtc (edge (gg_grants g)) (cg_grant_id leaf) (cg_grant_id x).
Proof.
  induction 1 as [leaf Hr|leaf p parent chain Hp Hg H IH]; intros Hleaf x.
  - rewrite list_elem_of_singleton. split; [intros ->; by split|].
    intros [Hx Ht]. inversion Ht as [|? y ? (gl & Hl & Hpl) _]; simplify_eq; congruence.
  - pose proof (wf_key g Hwf p parent Hg) as Hk. rewrite <- Hk in Hg.
    assert (edge (gg_grants g) (cg_grant_id leaf) (cg_grant_id parent)) as He.
    { exists leaf. split; [done|congruence]. }
    rewrite elem_of_app, list_elem_of_singleton, (IH Hg). split.
    + intros [[Hx Ht]| ->]; split; try done. by eapply rtc_l.
    + intros [Hx Ht]. inversion Ht as [|? y ? (gl & Hl & Hpl) Ht']; simplify_eq.
      * right. congruence.
      * left. split; [done|]. by simplify_eq.
Qed.

Lemma lineage_NoDup leaf chain :
  lineage (gg_grants g) leaf chain -> gg_grants g !! cg_grant_id leaf = Some leaf ->
  NoDup (cg_grant_id <$> chain).
Proof.
  induction 1 as [leaf Hr|leaf p parent chain Hp Hg H IH]; intros Hleaf.
  - simpl. apply NoDup_singleton.
  - pose proof (wf_key g Hwf p parent Hg) as Hk. rewrite <- Hk in Hg.
    rewrite fmap_app. apply NoDup_app. split_and!; [by apply IH| |apply NoDup_singleton].
    intros id (x & -> & Hx)%list_elem_of_fmap Hin. simpl in Hin.
    apply list_elem_of_singleton in Hin.
    apply (proj1 (lineage_elem parent chain H Hg x)) in Hx as [_ Ht]. rewrite Hin in Ht.
    apply (edge_acyclic (cg_grant_id leaf)). eapply tc_rtc_r; [|exact Ht].
    apply tc_once. exists leaf. split; [done|congruence].
Qed.

(** A lineage is no longer than the map, the bound on the loops that walk it. *)
Lemma lineage_length leaf chain :
  lineage (gg_grants g) leaf chain -> gg_grants g !! cg_grant_id leaf = Some leaf ->
  (length chain <= size (gg_grants g))%nat.
Proof.
  intros H Hleaf. rewrite <- (length_fmap cg_grant_id), <- size_dom.
  rewrite <- (size_list_to_set (C := gset string)) by (by eapply lineage_NoDup).
  apply subseteq_size. intros id Hid. apply elem_of_list_to_set in Hid.
  apply list_elem_of_fmap in Hid as (x & -> & Hx).
  apply (proj1 (lineage_elem leaf chain H Hleaf x)) in Hx as [Hx _].
  apply elem_of_dom. eauto.
Qed.
End Forest.

(** ** The cycle check *)

Section Cycles.
Context (grants : gmap string CapabilityGrant).

(** The walk always ends: each round sees a grant not seen before. *)
Lemma cycle_walk_total start : is_Some (cycle_walk grants start).
Proof.
  unfold cycle_walk.
  apply (loop_total _ (fun _ => True)
    (fun s => match s.2 with Some _ => S (size (dom grants ∖ s.1)) | None => O end)); [|done|].
  - intros [seen [id|]] s' _; simpl; [|done]. case_bool_decide as Hs; [done|]. intros [= <-].
    split; [done|]. simpl. destruct (grants !! id) as [gr|] eqn:Hg; simpl; [|lia].
    destruct (cg_parent_grant_id gr); [|lia].
    apply -> Nat.succ_lt_mono. apply subset_size.
    assert (id ∈ dom grants) by (apply elem_of_dom; eauto). set_solver.
  - simpl. pose proof (subseteq_size (dom grants ∖ ∅) (dom grants)) as Hle.
    rewrite size_dom in Hle. rewrite difference_empty_L in *. rewrite size_dom. lia.
Qed.

Lemma edge_lookup c p : edge grants c p <-> grants !! c ≫= cg_parent_grant_id = Some p.
Proof.
  unfold edge. destruct (grants !! c) as [gr|]; simpl; [|split; [intros (? & ? & _)|]; done].
  split; [by intros (? & [= <-] & ?)|eauto].
Qed.

Lemma cycle_walk_sound start id :
  cycle_walk grants start = Some (Err (GrantCycle id)) -> tc (edge grants) id id.
Proof.
  intros H. refine (loop_invariant (cycle_step grants)
    (fun s => forall x c, x ∈ s.1 -> s.2 = Some c -> tc (edge grants) x c)
    (fun r => r = Err (GrantCycle id) -> tc (edge grants) id id) _ (∅, Some start) _ _ _ H eq_refl).
  - intros [seen [c|]] HI; simpl in *; [|done]. case_bool_decide as Hs.
    + intros [= ->]. by apply HI.
    + intros x p Hx Hp. simpl in Hx, Hp. apply edge_lookup in Hp. apply elem_of_union in Hx as [Hx|Hx].
      * apply elem_of_singleton in Hx as ->. by apply tc_once.
      * eapply tc_r; [by apply HI|done].
  - set_solver.
Qed.

(** A parent link of a grant on a cycle stays on the cycle. *)
Lemma cycle_parent c : tc (edge grants) c c -> exists p, edge grants c p /\ tc (edge grants) p p.
Proof.
  intros H. inversion H as [? ? He|? p ? He Ht]; subst; [by exists c|].
  exists p. split; [done|]. by eapply tc_r.
Qed.

Lemma cycle_walk_complete start :
  tc (edge grants) start start -> cycle_walk grants start <> Some (Ok tt).
Proof.
  intros Hc H. refine (loop_invariant (cycle_step grants)
    (fun s => exists c, s.2 = Some c /\ tc (edge grants) c c)
    (fun r => r <> Ok tt) _ (∅, Some start) _ _ _ H eq_refl); [|by exists start].
  intros [seen cur] (c & Hcur & Hcc); simpl in *. subst cur. case_bool_decide; [done|].
  destruct (cycle_parent c Hcc) as (p & He & Hp). apply edge_lookup in He. by exists p.
Qed.

Lemma cycle_walk_ok start :
  cycle_walk grants start = Some (Ok tt) <->
  forall id, cycle_walk grants start <> Some (Err (GrantCycle id)).
Proof.
  split; [intros -> id; done|]. intros H.
  destruct (cycle_walk_total start) as [r Hr].
  assert (r = Ok tt \/ exists id, r = Err (GrantCycle id)) as [->|[id ->]]; [|done|naive_solver].
  refine (loop_invariant (cycle_step grants) (fun _ => True)
    (fun r => r = Ok tt \/ exists id, r = Err (GrantCycle id)) _ _ _ _ I Hr).
  intros [seen [c|]] _; simpl; [|by left]. case_bool_decide; [right; eauto|done].
Qed.
End Cycles.

(** The cycle check accepts exactly the maps without a cycle of parent links. *)
Lemma validate_cycles_exact g :
  validate_cycles g = Ok tt <-> Irreflexive (tc (edge (gg_grants g))).
Proof.
  unfold validate_cycles. rewrite for_each_ok, Forall_forall. split.
  - intros H c Hc.
    assert (c ∈ (btree_iter (gg_grants g)).*1) as Hin.
    { inversion Hc as [? ? (gc & Hg & _)|? ? ? (gc & Hg & _)]; subst;
        apply list_elem_of_fmap; exists (c, gc); (split; [done|by apply btree_iter_lookup]). }
    specialize (H c Hin). destruct (cycle_walk_total (gg_grants g) c) as [r Hr].
    rewrite Hr in H. simpl in H. subst r. by eapply cycle_walk_complete.
  - intros Hirr start _. rewrite (proj2 (cycle_walk_ok _ start)); [done|].
    intros id Hid. by apply cycle_walk_sound, Hirr in Hid.
Qed.

(** ** Effective paths *)

Section Paths.
Context (g : GrantGraph) (Hwf : graph_wf g).
Context (work_scope : WorkScopeBinding) (session : SessionBinding) (now : LogicalTime).

(** The standing of a lineage, tested from the leaf upwards. *)
Definition lineage_active (chain : list CapabilityGrant) : AR unit :=
  for_each (fun gr => validate_active g gr work_scope session now) (reverse chain).

Lemma path_loop cursor chain : forall path effective fuel,
  lineage (gg_grants g) cursor chain -> gg_grants g !! cg_grant_id cursor = Some cursor ->
  authority_wf effective -> authority_le effective (cg_authority cursor) ->
  (length chain <= fuel)%nat ->
  loop fuel (path_step g work_scope session now)
    {| ps_cursor := cursor; ps_path := path; ps_effective := effective |}
  = Some (check? lineage_active chain;
          Ok {| ep_grant_path := ((cg_grant_id <$> chain) ++ reverse path)%list;
                ep_authority := effective |}).
Proof.
  intros path effective fuel H. revert path fuel.
  induction H as [leaf Hr|leaf p parent chain Hp Hg H IH]; intros path fuel Hc Ha Hle Hf.
  - destruct fuel as [|fuel]; [simpl in Hf; lia|]. unfold lineage_active. simpl. unfold path_step. simpl.
    destruct (validate_active _ _ _ _ _) as [[]|e]; simpl; [|done]. rewrite Hr. simpl.
    by rewrite reverse_app.
  - rewrite length_app in Hf. simpl in Hf. destruct fuel as [|fuel]; [lia|].
    unfold lineage_active. rewrite reverse_app. simpl. unfold path_step at 1. simpl.
    destruct (validate_active _ _ _ _ _) as [[]|e]; simpl; [|done]. rewrite Hp, Hg.
    destruct (edge_narrows g Hwf _ p leaf Hc) as (gp & Hgp & Hauth & Hn); [by exists leaf|].
    assert (gp = parent) as -> by congruence. rewrite Hauth. simpl.
    apply grant_narrowing_ok in Hn as (_ & Hnar & _).
    rewrite intersection_absorb by (try done; by etrans).
    pose proof (wf_key g Hwf p parent Hg) as Hk. rewrite <- Hk in Hg.
    rewrite IH by (try done; try lia; by etrans). unfold lineage_active.
    rewrite fmap_app, reverse_app. simpl. by rewrite <- app_assoc.
Qed.

(** The loop of [effective_path] computes the standing of the lineage. *)
Lemma effective_path_spec leaf chain :
  gg_grants g !! cg_grant_id leaf = Some leaf -> lineage (gg_grants g) leaf chain ->
  effective_path g leaf work_scope session now
  = Some (check? lineage_active chain;
          Ok {| ep_grant_path := cg_grant_id <$> chain; ep_authority := cg_authority leaf |}).
Proof.
  intros Hleaf Hl. unfold effective_path.
  pose proof (lineage_length g Hwf leaf chain Hl Hleaf).
  rewrite (path_loop leaf chain); [|done|done|by eapply ty_authority, wf_typed|done|lia].
  simpl. by rewrite app_nil_r.
Qed.
End Paths.

(** ** The descendant closure *)

Section Closure.
Context (grants : gmap string CapabilityGrant) (Hkey : filed (fun _ => True) grants).
Context (root : string).

(** [child_on p c]: the grant [c] on [root] names [p] as its parent. *)
Definition child_on (p c : GrantId) : Prop :=
  exists gr, grants !! c = Some gr /\ cg_parent_grant_id gr = Some p /\
    cg_authority_root_ref gr = root.

Lemma closure_children_elem current gr :
  gr ∈ closure_children grants root current <->
  grants !! cg_grant_id gr = Some gr /\ child_on current (cg_grant_id gr).
Proof.
  unfold closure_children, child_on, crosses_authority_root.
  rewrite merge_sort_Permutation, list_elem_of_filter, btree_values_elem.
  rewrite negb_false_iff, bool_decide_eq_true. split.
  - intros [[Hp Hr] [k Hk]]. destruct (Hkey k gr Hk) as [<- _]. eauto 10.
  - intros (Hg & gr' & Hg' & Hp & Hr). assert (gr' = gr) as -> by congruence. eauto.
Qed.

Abbreviation ids l := (mr_grant_id <$> l).

(** Every member but the first follows its parent. *)
Definition parents_first (members : list GrantClosureMemberRef) : Prop :=
  forall pre m post, members = (pre ++ m :: post)%list -> pre <> [] ->
    exists p, mr_parent_grant_id m = Some p /\ p ∈ ids pre.

(** The state of the traversal from [target]; [open] is the grant whose
    children are being visited. *)
Record closure_inv (target : GrantId) (open : GrantId -> Prop) (s : ClosureState) : Prop := {
  cv_nodup : NoDup (ids (cl_members s));
  cv_seen : forall id, id ∈ cl_seen s <-> id ∈ ids (cl_members s);
  cv_frontier : forall id, id ∈ cl_frontier s -> id ∈ ids (cl_members s);
  cv_sound : forall m, m ∈ cl_members s -> exists gr, grants !! cg_grant_id gr = Some gr /\
    m = member_ref gr /\ rtc child_on target (cg_grant_id gr);
  cv_first : mr_grant_id <$> head (cl_members s) = Some target;
  cv_placed : parents_first (cl_members s);
  cv_closed : forall id c, id ∈ ids (cl_members s) -> id ∉ cl_frontier s -> ~ open id ->
    child_on id c -> c ∈ ids (cl_members s);
}.

Lemma visit_child_inv target open s gr p :
  closure_inv target open s -> p ∈ ids (cl_members s) ->
  grants !! cg_grant_id gr = Some gr -> child_on p (cg_grant_id gr) ->
  closure_inv target open (visit_child s gr).
Proof.
  intros H Hp Hg Hc. unfold visit_child. case_bool_decide as Hs; [done|].
  rewrite (cv_seen _ _ _ H) in Hs. pose proof Hc as (gr' & Hg' & Hpar & _).
  assert (gr' = gr) as -> by congruence.
  split; simpl; rewrite ?fmap_app; simpl.
  - apply NoDup_app. split_and!; [apply H| |apply NoDup_singleton]. set_solver.
  - intros id. rewrite elem_of_union, (cv_seen _ _ _ H). set_solver.
  - intros id Hid. pose proof (cv_frontier _ _ _ H). set_solver.
  - intros m [Hm|Hm]%elem_of_app; [by apply (cv_sound _ _ _ H)|].
    apply list_elem_of_singleton in Hm as ->. exists gr. split_and!; [done|done|].
    apply list_elem_of_fmap in Hp as (m & -> & Hm).
    destruct (cv_sound _ _ _ H m Hm) as (gp & _ & -> & Ht). by eapply rtc_r.
  - pose proof (cv_first _ _ _ H). by destruct (cl_members s).
  - intros pre m post Heq Hpre. apply app_eq_app in Heq as (l & [[Hm Hl]|[-> Hl]]).
    + destruct l as [|x l]; simpl in Hl; injection Hl as -> Hl.
      * exists p. rewrite app_nil_r in Hm. rewrite <- Hm. by split.
      * by apply (cv_placed _ _ _ H pre x l).
    + destruct l as [|x l]; simpl in Hl; injection Hl as Hx Hl.
      * subst m. rewrite app_nil_r. exists p. by split.
      * symmetry in Hl. by apply app_eq_nil in Hl as [_ ?].
  - intros id c Hid Hf Ho Hch. apply elem_of_app.
    apply elem_of_app in Hid as [Hid|Hid]; [|set_solver].
    left. eapply (cv_closed _ _ _ H); [done|set_solver|done|done].
Qed.

Lemma visit_children_inv target open p l : forall s,
  closure_inv target open s -> p ∈ ids (cl_members s) ->
  Forall (fun gr => grants !! cg_grant_id gr = Some gr /\ child_on p (cg_grant_id gr)) l ->
  let s' := fold_left visit_child l s in
  closure_inv target open s' /\
  (forall id, id ∈ ids (cl_members s) -> id ∈ ids (cl_members s')) /\
  (forall gr, gr ∈ l -> cg_grant_id gr ∈ ids (cl_members s')) /\
  (length (cl_frontier s') + size (dom grants ∖ cl_seen s')
   = length (cl_frontier s) + size (dom grants ∖ cl_seen s))%nat.
Proof.
  induction l as [|gr l IH]; intros s H Hp Hl; simpl; [split_and!; [done|done|set_solver|done]|].
  apply Forall_cons in Hl as [[Hg Hc] Hl].
  pose proof (visit_child_inv target open s gr p H Hp Hg Hc) as H1.
  assert (Hk : forall id, id ∈ ids (cl_members s) -> id ∈ ids (cl_members (visit_child s gr))).
  { intros id Hid. unfold visit_child. case_bool_decide; [done|]. simpl.
    rewrite fmap_app. apply elem_of_app. by left. }
  assert (Hin : cg_grant_id gr ∈ ids (cl_members (visit_child s gr))).
  { unfold visit_child. case_bool_decide as Hs; [by apply (cv_seen _ _ _ H)|]. simpl.
    rewrite fmap_app. apply elem_of_app. right. set_solver. }
  destruct (IH _ H1 (Hk p Hp) Hl) as (H2 & Hk2 & Hin2 & Hm2). split_and!; [done|auto| |].
  - intros x [->|Hx]%elem_of_cons; auto.
  - rewrite Hm2. unfold visit_child. case_bool_decide as Hs; [done|]. simpl.
    assert (cg_grant_id gr ∈ dom grants) by (apply elem_of_dom; eauto).
    rewrite (size_difference_insert (cg_grant_id gr) (dom grants) (cl_seen s)) by done. lia.
Qed.

Lemma closure_step_inv target s s' :
  closure_inv target (fun _ => False) s -> closure_step grants root s = inl s' ->
  closure_inv target (fun _ => False) s' /\
  (length (cl_frontier s') + size (dom grants ∖ cl_seen s')
   < length (cl_frontier s) + size (dom grants ∖ cl_seen s))%nat.
Proof.
  intros H Hstep. unfold closure_step in Hstep.
  destruct (cl_frontier s) as [|current frontier] eqn:Hf; [done|]. injection Hstep as <-.
  set (s0 := {| cl_frontier := frontier; cl_seen := cl_seen s; cl_members := cl_members s |}).
  assert (Hcur : current ∈ ids (cl_members s)).
  { apply (cv_frontier _ _ _ H). rewrite Hf. by left. }
  assert (H0 : closure_inv target (fun id => id = current) s0).
  { split; simpl; try apply H.
    - intros id Hid. apply (cv_frontier _ _ _ H). rewrite Hf. by right.
    - intros id c Hid Hnf Ho. apply (cv_closed _ _ _ H); [done| |tauto]. rewrite Hf. set_solver. }
  destruct (visit_children_inv target _ current (closure_children grants root current) s0 H0 Hcur)
    as (H1 & _ & Hall & Hm).
  { apply Forall_forall. intros gr. by rewrite closure_children_elem. }
  split; [|rewrite Hm; simpl; lia].
  split; try apply H1. intros id c Hid Hnf _ Hc.
  destruct (decide (id = current)) as [->|Hne]; [|by apply (cv_closed _ _ _ H1 id)].
  pose proof Hc as (gr & Hg & _). destruct (Hkey c gr Hg) as [<- _].
  apply Hall, closure_children_elem. by split.
Qed.

(** The traversal ends, and lists the target, its descendants on [root] and
    nothing else, parents first. *)
Lemma closure_walk_spec target :
  grants !! cg_grant_id target = Some target -> cg_authority_root_ref target = root ->
  exists members, closure_walk grants target = Some members /\
    NoDup (ids members) /\
    (forall id, id ∈ ids members <-> rtc child_on (cg_grant_id target) id) /\
    mr_grant_id <$> head members = Some (cg_grant_id target) /\
    parents_first members /\
    (forall m, m ∈ members -> exists gr, grants !! mr_grant_id m = Some gr /\ m = member_ref gr).
Proof.
  intros Ht Hr.
  set (s0 := {| cl_frontier := [cg_grant_id target]; cl_seen := {[cg_grant_id target]};
                cl_members := [member_ref target] |}).
  assert (H0 : closure_inv (cg_grant_id target) (fun _ => False) s0).
  { split; simpl.
    - apply NoDup_singleton.
    - set_solver.
    - set_solver.
    - intros m ->%list_elem_of_singleton. by exists target.
    - done.
    - intros [|x [|]] m post Heq Hpre; simplify_eq/=.
    - set_solver. }
  assert (Htot : is_Some (closure_walk grants target)).
  { unfold closure_walk. rewrite Hr.
    apply (loop_total _ (closure_inv (cg_grant_id target) (fun _ => False))
      (fun s => length (cl_frontier s) + size (dom grants ∖ cl_seen s))%nat); [|done|].
    - intros s s'. apply closure_step_inv.
    - simpl. assert (size (dom grants ∖ {[cg_grant_id target]}) <= size (dom grants))%nat.
      { apply subseteq_size. set_solver. }
      rewrite size_dom in *. lia. }
  destruct Htot as [members Hw]. exists members. split; [done|].
  assert (Hend : exists s, closure_inv (cg_grant_id target) (fun _ => False) s /\
                   cl_frontier s = [] /\ cl_members s = members).
  { unfold closure_walk in Hw. rewrite Hr in Hw.
    refine (loop_invariant (closure_step grants root)
      (closure_inv (cg_grant_id target) (fun _ => False))
      (fun r => exists s, closure_inv (cg_grant_id target) (fun _ => False) s /\
                  cl_frontier s = [] /\ cl_members s = r) _ _ _ _ H0 Hw).
    intros s Hs. destruct (closure_step grants root s) as [s'|r] eqn:E.
    - by eapply closure_step_inv.
    - exists s. unfold closure_step in E. destruct (cl_frontier s); by simplify_eq. }
  destruct Hend as (s & Hs & Hf & <-). split_and!; try apply Hs.
  - intros id. split.
    + intros (m & -> & Hm)%list_elem_of_fmap.
      by destruct (cv_sound _ _ _ Hs m Hm) as (gr & _ & -> & Hreach).
    + apply (rtc_ind_r (fun id => id ∈ ids (cl_members s))).
      * pose proof (cv_first _ _ _ Hs) as Hh. destruct (cl_members s) as [|m l]; [done|].
        injection Hh as Hh. rewrite <- Hh. left.
      * intros p c _ Hc Hp. apply (cv_closed _ _ _ Hs p); [done|rewrite Hf; set_solver|tauto|done].
  - intros m Hm. destruct (cv_sound _ _ _ Hs m Hm) as (gr & Hg & -> & _). by exists gr.
Qed.
End Closure.

(** ** Revocation *)

(** The calls that change a graph after its construction. *)
Inductive GraphCall : Type :=
| CallRevoke (grant_id : GrantId)
| CallRevokeClosure (target : GrantId) (members : list string).

Definition graph_call (c : GraphCall) : M GrantGraph AuthorityError unit :=
  match c with
  | CallRevoke grant_id => revoke grant_id
  | CallRevokeClosure target members => revoke_declared_closure target members
  end.

Definition graph_calls (calls : list GraphCall) (g : GrantGraph) : GrantGraph :=
  fold_left (fun g c => (graph_call c g).1) calls g.

(** A graph that differs at most in its revision and in more revocations. *)
Record extends_revocations (g g' : GrantGraph) : Prop := {
  er_grants : gg_grants g' = gg_grants g;
  er_transitions : gg_transitions g' = gg_transitions g;
  er_unreadable : gg_unreadable_transitions g' = gg_unreadable_transitions g;
  er_quarantined : gg_quarantined g' = gg_quarantined g;
  er_revoked : gg_revoked g ⊆ gg_revoked g';
  er_known : gg_revoked g' ⊆ gg_revoked g ∪ dom (gg_grants g);
}.

#[export] Instance extends_revocations_preorder : PreOrder extends_revocations.
Proof.
  split.
  - intros g. split; set_solver.
  - intros g1 g2 g3 [] []. split; try congruence; [set_solver|].
    rewrite er_grants0 in er_known1. set_solver.
Qed.

Lemma bump_revision_state g :
  bump_revision g
  = match checked_add (gg_revision g) 1 with
    | Some r => (set_revision r g, Ok tt)
    | None => (g, Err (AInvalidField "grant_graph_revision"))
    end.
Proof. unfold bump_revision. unfold_monad. by destruct (checked_add _ _). Qed.

Lemma revoke_eq id g :
  revoke id g
  = if is_some (gg_grants g !! id)
    then bump_revision (set_revoked ({[id]} ∪ gg_revoked g) g)
    else (g, Err (MissingParent id)).
Proof. unfold revoke. unfold_monad. by destruct (is_some _). Qed.

Lemma resolve_members grants members : forall declared l,
  fold_res (resolve_member grants) declared members = Ok l ->
  l = (declared ++ members)%list /\ Forall (fun m => is_Some (grants !! m)) members.
Proof.
  induction members as [|m members IH]; intros declared l H; simpl in H.
  - injection H as <-. by rewrite app_nil_r.
  - apply rbind_ok in H as (d & Hd & H). unfold resolve_member, GrantId_new, text_id_new in Hd.
    apply rbind_ok in Hd as (id & Hid & Hd). apply check_ok in Hid as [_ [= <-]].
    apply check_guard_ok in Hd as [Hm [= <-]]. apply IH in H as [-> Hl].
    split; [by rewrite <- app_assoc|]. constructor; [|done].
    destruct (grants !! m); [by eexists|done].
Qed.

Lemma revoke_closure_eq target members g :
  (exists e, revoke_declared_closure target members g = (g, Err e)) \/
  is_Some (gg_grants g !! target) /\ Forall (fun m => is_Some (gg_grants g !! m)) members /\
  revoke_declared_closure target members g
  = bump_revision (set_revoked (list_to_set members ∪ gg_revoked g) g).
Proof.
  unfold revoke_declared_closure. unfold mseq, mstate, mlift, mmodify.
  destruct (gg_grants g !! target) eqn:Ht; simpl; [|left; eauto].
  destruct (fold_res _ _ _) as [l|e] eqn:Hf; simpl; [|left; eauto].
  apply resolve_members in Hf as [-> Hm]. right. split_and!; [by eexists|done|done].
Qed.

Lemma bump_extends g g0 :
  extends_revocations g g0 -> extends_revocations g (bump_revision g0).1.
Proof. intros H. rewrite bump_revision_state. destruct (checked_add _ _); [|done]. by destruct H. Qed.

Lemma set_revoked_extends g s :
  s ⊆ dom (gg_grants g) -> extends_revocations g (set_revoked (s ∪ gg_revoked g) g).
Proof. intros Hs. split; simpl; set_solver. Qed.

Lemma graph_call_extends c g : extends_revocations g (graph_call c g).1.
Proof.
  destruct c as [id|target members]; simpl.
  - rewrite revoke_eq. destruct (gg_grants g !! id) eqn:Hid; simpl; [|done].
    apply bump_extends, set_revoked_extends.
    assert (id ∈ dom (gg_grants g)) by (apply elem_of_dom; eauto). set_solver.
  - destruct (revoke_closure_eq target members g) as [[e ->]|(_ & Hm & ->)]; [done|].
    apply bump_extends, set_revoked_extends. intros id Hid.
    apply elem_of_list_to_set in Hid. rewrite Forall_forall in Hm.
    apply elem_of_dom. by apply Hm.
Qed.

Lemma graph_calls_extends calls : forall g, extends_revocations g (graph_calls calls g).
Proof.
  induction calls as [|c calls IH]; intros g; simpl; [done|].
  etrans; [apply graph_call_extends|apply IH].
Qed.

Lemma extends_wf g g' : extends_revocations g g' -> graph_wf g -> graph_wf g'.
Proof. intros [Hg Ht _ _ _ _] []. split; rewrite Hg, ?Ht; done. Qed.

Section Revoked.
Context (g g' : GrantGraph) (Hwf : graph_wf g) (Hext : extends_revocations g g').
Context (work_scope : WorkScopeBinding) (session : SessionBinding) (now : LogicalTime).

Lemma lineage_active_revoked chain x :
  x ∈ chain -> cg_grant_id x ∈ gg_revoked g ->
  exists e, lineage_active g work_scope session now chain = Err e.
Proof.
  intros Hx Hr. unfold lineage_active.
  destruct (for_each _ _) as [[]|e] eqn:Hf; [|by exists e]. exfalso.
  rewrite for_each_ok, Forall_forall in Hf.
  specialize (Hf x ltac:(by apply elem_of_reverse)). unfold validate_active in Hf.
  apply check_guard_ok in Hf as [Hf _]. by rewrite bool_decide_eq_true_2 in Hf.
Qed.

(** The standing of a lineage depends on the revocations of its members only. *)
Lemma lineage_active_frame chain :
  (forall x, x ∈ chain -> (cg_grant_id x ∈ gg_revoked g' <-> cg_grant_id x ∈ gg_revoked g)) ->
  lineage_active g' work_scope session now chain = lineage_active g work_scope session now chain.
Proof.
  intros H. unfold lineage_active.
  assert (Hr : forall x, x ∈ reverse chain ->
    (cg_grant_id x ∈ gg_revoked g' <-> cg_grant_id x ∈ gg_revoked g)).
  { intros x Hx. apply H. by apply elem_of_reverse. }
  induction (reverse chain) as [|x l IH]; simpl; [done|].
  rewrite IH by (intros; apply Hr; by right). f_equal. unfold validate_active.
  assert (bool_decide (cg_grant_id x ∈ gg_revoked g') = bool_decide (cg_grant_id x ∈ gg_revoked g))
    as ->; [|done]. apply bool_decide_ext, Hr. left.
Qed.
End Revoked.

(** ** Snapshots *)

Section Snapshots.
Context (g : GrantGraph) (Hwf : graph_wf g).
Context (work_scope : WorkScopeBinding) (session : SessionBinding) (now : LogicalTime).

(** A grant whose whole lineage is in standing. *)
Definition stands (leaf : CapabilityGrant) (chain : list CapabilityGrant) : Prop :=
  gg_grants g !! cg_grant_id leaf = Some leaf /\ lineage (gg_grants g) leaf chain /\
  lineage_active g work_scope session now chain = Ok tt.

Definition path_of (leaf : CapabilityGrant) (chain : list CapabilityGrant)
    : EffectiveCapabilityPath :=
  {| ep_grant_path := cg_grant_id <$> chain; ep_authority := cg_authority leaf |}.

Lemma collect_paths_spec l :
  Forall (fun gr => gg_grants g !! cg_grant_id gr = Some gr) l ->
  exists paths, collect_paths g work_scope session now l = Some paths /\
    forall path, path ∈ paths <->
      exists leaf chain, leaf ∈ l /\ stands leaf chain /\ path = path_of leaf chain.
Proof.
  induction 1 as [|leaf l Hleaf Hl (paths & IH & Hspec)]; simpl.
  { exists []. split; [done|]. set_solver. }
  destruct (lineage_exists g Hwf _ leaf Hleaf) as [chain Hc].
  rewrite (effective_path_spec g Hwf work_scope session now leaf chain Hleaf Hc). rewrite IH.
  destruct (lineage_active g work_scope session now chain) as [[]|e] eqn:Ha; simpl.
  - eexists. split; [done|]. intros path. rewrite elem_of_cons, Hspec. split.
    + intros [->|(x & ch & Hx & Hs & ->)]; [by exists leaf, chain; repeat split; [left| | |]|].
      exists x, ch. split; [by right|done].
    + intros (x & ch & [->|Hx]%elem_of_cons & Hs & ->); [left|right; eauto 10].
      destruct Hs as (_ & Hch & _). by rewrite (lineage_fun _ _ _ _ Hch Hc).
  - eexists. split; [done|]. intros path. rewrite Hspec. split.
    + intros (x & ch & Hx & Hs & ->). exists x, ch. split; [by right|done].
    + intros (x & ch & [->|Hx]%elem_of_cons & Hs & ->); [|eauto 10].
      destruct Hs as (_ & Hch & Hact). rewrite (lineage_fun _ _ _ _ Hch Hc) in Hact. congruence.
Qed.

(** A snapshot is always produced or refused, and its paths are exactly the
    lineages in standing of the grants the holder has. *)
Lemma graph_snapshot_spec snapshot_id holder :
  validate_context work_scope session = Ok tt ->
  exists r, graph_snapshot g snapshot_id holder work_scope session now = Some r /\
    match r with
    | Ok s =>
        es_snapshot_id s = snapshot_id /\ es_holder s = holder /\ es_work_scope s = work_scope /\
        es_session s = session /\ es_grant_graph_revision s = gg_revision g /\ es_paths s <> [] /\
        (forall path, path ∈ es_paths s <->
           exists leaf chain, cg_holder leaf = holder /\ stands leaf chain /\
             path = path_of leaf chain)
    | Err e => e = NoEffectivePath /\
        forall leaf chain, cg_holder leaf = holder -> ~ stands leaf chain
    end.
Proof.
  intros Hctx. unfold graph_snapshot. rewrite Hctx.
  destruct (collect_paths_spec
    (filter (fun grant => cg_holder grant = holder) (btree_values (gg_grants g))))
    as (paths & -> & Hspec).
  { apply Forall_forall. intros gr [_ [k Hk]%btree_values_elem]%list_elem_of_filter.
    by rewrite (wf_key g Hwf k gr Hk). }
  assert (Hin : forall leaf chain, stands leaf chain ->
    (leaf ∈ filter (fun grant => cg_holder grant = holder) (btree_values (gg_grants g))
     <-> cg_holder leaf = holder)).
  { intros leaf chain (Hl & _). rewrite list_elem_of_filter, btree_values_elem. naive_solver. }
  destruct paths as [|p paths]; eexists; (split; [done|]); simpl.
  - split; [done|]. intros leaf chain Hh Hs. apply (not_elem_of_nil (path_of leaf chain)).
    apply Hspec. exists leaf, chain. split; [by eapply Hin|done].
  - split_and!; try done. intros path. rewrite Hspec.
    split; intros (leaf & chain & H1 & Hs & ->); exists leaf, chain; (split; [|done]);
      by eapply Hin.
Qed.
End Snapshots.
