(* ===== verification/GrantRecoveryLaws.v ===== *)
(** * Laws of grant-graph recovery

    A restored graph satisfies the invariant of assembled ones and carries no
    root crossing; the partition of a restored map terminates and places every
    grant; a graph without crossings survives the round trip through its
    snapshot; and the theorems on every graph a sequence of constructions,
    revocations and restarts can reach. *)

From Stdlib Require Import Ascii String.
From S2P Require Import Prelude RustText Contracts Receipts Grants GrantGraph GrantRecovery.
From S2P Require Import GrantGraphLaws.
From stdpp Require Import relations.

#[local] Open Scope string_scope.
#[local] Open Scope Z_scope.

(** ** Records *)

Section Records.
Lemma authority_text_ok value field : authority_text value field = Ok tt <-> text_ok value = true.
Proof. unfold authority_text, text_ok. rewrite guard_err_ok. by destruct (_ || _). Qed.

Lemma text_id_new_ok field value id :
  text_id_new field value = Ok id <-> id = value /\ text_ok value = true.
Proof. unfold text_id_new. rewrite check_ok, authority_text_ok. naive_solver. Qed.

Lemma GrantId_new_ok value id : GrantId_new value = Ok id <-> id = value /\ text_ok value = true.
Proof. apply text_id_new_ok. Qed.

Lemma PrincipalRef_new_ok value id :
  PrincipalRef_new value = Ok id <-> id = value /\ text_ok value = true.
Proof. apply text_id_new_ok. Qed.

Lemma btree_set_iter_set s : list_to_set (btree_set_iter s) = s.
Proof.
  apply set_eq. intros x. unfold btree_set_iter.
  by rewrite elem_of_list_to_set, merge_sort_Permutation, elem_of_elements.
Qed.

Lemma optional_grant_id_ok id o :
  optional_grant_id id = Ok o <-> o = id /\ (forall p, id = Some p -> text_ok p = true).
Proof.
  destruct id as [value|]; simpl; [|naive_solver]. rewrite rbind_ok. split.
  - intros (v & [-> Hv]%GrantId_new_ok & [= <-]). naive_solver.
  - intros [-> Ht]. exists value. rewrite GrantId_new_ok. naive_solver.
Qed.

(** A decoded record is a typed grant. *)
Lemma grant_from_record_typed r gr : grant_from_recovery_record r = Ok gr -> grant_typed gr.
Proof.
  intros H. unfold grant_from_recovery_record in H.
  apply rbind_ok in H as (id & [-> Hid]%GrantId_new_ok & H).
  apply rbind_ok in H as (parent & [-> Hp]%optional_grant_id_ok & H).
  apply rbind_ok in H as (issuer & [-> Hi]%PrincipalRef_new_ok & H).
  apply rbind_ok in H as (holder & [-> Hh]%PrincipalRef_new_ok & H).
  apply rbind_ok in H as (a & [Ha _]%AuthoritySet_new_ok & [= <-]). by split.
Qed.

(** The wire form of a typed grant decodes to it. *)
Lemma grant_record_roundtrip gr :
  grant_typed gr -> grant_from_recovery_record (grant_to_recovery_record gr) = Ok gr.
Proof.
  intros []. destruct gr as [id parent root issuer holder authority ceiling binding t0 t1 uses st].
  unfold grant_from_recovery_record. simpl in *.
  rewrite (proj2 (GrantId_new_ok id id)) by done. simpl.
  rewrite (proj2 (optional_grant_id_ok parent parent)) by done. simpl.
  rewrite (proj2 (PrincipalRef_new_ok issuer issuer)) by done. simpl.
  rewrite (proj2 (PrincipalRef_new_ok holder holder)) by done. simpl.
  rewrite !btree_set_iter_set, ty_authority. done.
Qed.
End Records.

(** ** Partition *)

Section Partition.
Context (g : GrantGraph).

(** The grants a partition has placed. *)
Definition placed (p : Partition) : gset string := dom (pt_admitted p) ∪ pt_quarantined_ids p.

Record part_inv (p : Partition) : Prop := {
  pi_admitted : pt_admitted p ⊆ gg_grants g;
  pi_quarantined : pt_quarantined_ids p ⊆ dom (gg_grants g);
  pi_disjoint : dom (pt_admitted p) ## pt_quarantined_ids p;
}.

Lemma placed_bound p : part_inv p -> placed p ⊆ dom (gg_grants g).
Proof.
  intros [Ha Hq _]. unfold placed. apply union_subseteq. split; [|done].
  by apply subseteq_dom.
Qed.

Lemma placed_size p :
  part_inv p -> size (placed p) = (size (pt_admitted p) + size (pt_quarantined_ids p))%nat.
Proof. intros [_ _ Hd]. unfold placed. by rewrite size_union, size_dom by done. Qed.

(** One entry is left where it was, or placed for the first time. *)
Lemma partition_one_spec p id gr p' :
  part_inv p -> gg_grants g !! id = Some gr -> partition_one g p (id, gr) = Ok p' ->
  part_inv p' /\ (p' = p \/ pt_progressed p' = true /\ id ∉ placed p /\ placed p' = {[id]} ∪ placed p).
Proof.
  intros Hp Hg H. unfold partition_one in H. case_match eqn:Hcase; simplify_eq/=; [by auto|].
  apply orb_false_iff in Hcase as [Hna Hnq]. apply bool_decide_eq_false in Hnq.
  assert (Hnew : id ∉ placed p).
  { unfold placed. rewrite elem_of_union, elem_of_dom. destruct (pt_admitted p !! id); naive_solver. }
  assert (Hq : forall parent p', partition_quarantine g id parent gr p = Ok p' ->
    part_inv p' /\ (p' = p \/ pt_progressed p' = true /\ id ∉ placed p /\
                    placed p' = {[id]} ∪ placed p)).
  { intros parent p1 (r & _ & [= <-])%rbind_ok. destruct Hp as [Ha Hd Hx]. unfold placed in *. split.
    - split; simpl; [done| |set_solver]. assert (id ∈ dom (gg_grants g)) by (apply elem_of_dom; eauto).
      set_solver.
    - right. simpl. split_and!; [done|done|set_solver]. }
  destruct (cg_parent_grant_id gr) as [parent_id|]; [|naive_solver].
  apply rbind_ok in H as (parent & _ & H).
  case_match; [by eapply Hq|]. case_match; [|naive_solver]. case_match; [|by eapply Hq].
  injection H as <-. destruct Hp as [Ha Hd Hx]. unfold placed in *. split.
  - split; simpl; [by apply insert_subseteq_l|done|]. rewrite dom_insert. set_solver.
  - right. simpl. split_and!; [done|done|]. rewrite dom_insert_L. set_solver.
Qed.

(** A round keeps what is placed, and says truly whether it placed more. *)
Lemma partition_round_spec p p' :
  part_inv p -> partition_round g p = Ok p' ->
  part_inv p' /\ placed p ⊆ placed p' /\
  (if pt_progressed p' then (size (placed p) < size (placed p'))%nat else placed p' = placed p).
Proof.
  intros Hp H. unfold partition_round in H.
  eapply (fold_res_inv (fun q => part_inv q /\ placed p ⊆ placed q /\
    (if pt_progressed q then (size (placed p) < size (placed q))%nat else placed q = placed p)));
    [| |exact H].
  - intros q [id gr] q' Hin (Hq & Hsub & Hs) Hone. apply btree_iter_lookup in Hin.
    destruct (partition_one_spec q id gr q' Hq Hin Hone) as [Hq' [->|(Hpr & Hni & Hpl)]]; [done|].
    rewrite Hpr. split_and!; [done|set_solver|].
    rewrite Hpl, size_union, size_singleton by set_solver.
    destruct (pt_progressed q); [lia|]. rewrite Hs. lia.
  - simpl. split_and!; [by destruct Hp|done|done].
Qed.

Lemma partition_start_inv : part_inv (partition_start g).
Proof. split; simpl; [apply map_filter_subseteq|set_solver|set_solver]. Qed.

(** The fixpoint is reached within one round per grant. *)
Lemma partition_loop_total : is_Some (partition_loop g).
Proof.
  unfold partition_loop.
  apply (loop_total _ part_inv (fun p => size (gg_grants g) - size (placed p))%nat);
    [|apply partition_start_inv|lia].
  intros p p' Hp Hs. unfold partition_step in Hs.
  destruct (partition_round g p) as [q|e] eqn:Hr; [|done].
  destruct (pt_progressed q) eqn:Hpr; simplify_eq.
  destruct (partition_round_spec p p' Hp Hr) as (Hp' & _ & Hlt). rewrite Hpr in Hlt.
  split; [done|]. pose proof (subseteq_size _ _ (placed_bound p' Hp')) as Hb.
  rewrite size_dom in Hb. lia.
Qed.

(** What the accepted partition is: both parts come from the map and cover it. *)
Lemma partition_restored_ok g' :
  partition_restored g = Ok g' ->
  exists p, partition_loop g = Some (Ok p) /\ part_inv p /\ placed p = dom (gg_grants g) /\
    gg_grants g' = pt_admitted p /\ gg_quarantined g' = pt_quarantined p /\
    gg_revoked g' = gg_revoked g /\ gg_revision g' = gg_revision g /\
    gg_unreadable_transitions g' = gg_unreadable_transitions g /\
    gg_transitions g' ⊆ gg_transitions g.
Proof.
  intros H. unfold partition_restored in H. destruct partition_loop_total as [r Hr].
  rewrite Hr in H. simpl in H.
  apply rbind_ok in H as (p & Hrp & H). subst r. apply check_guard_ok in H as [Hsz [= <-]].
  assert (Hp : part_inv p).
  { refine (loop_invariant (partition_step g) part_inv
      (fun r => forall p, r = Ok p -> part_inv p) _ _ _ _ partition_start_inv Hr p eq_refl).
    intros q Hq. unfold partition_step.
    destruct (partition_round g q) as [q'|e] eqn:Hrd; [|done].
    apply (partition_round_spec q q' Hq) in Hrd as [? _]. destruct (pt_progressed q'); naive_solver. }
  exists p. simpl. split_and!; try done; [|apply map_filter_subseteq].
  apply negb_false_iff, Nat.eqb_eq in Hsz.
  apply (set_subseteq_size_eq (placed p) (dom (gg_grants g))); [by apply placed_bound|].
  rewrite size_dom, placed_size by done. lia.
Qed.
End Partition.

(** ** Restored graphs *)

Section Restored.

(** Two graphs with the same live authority, transitions and revision. *)
Definition same_live (g g' : GrantGraph) : Prop :=
  gg_grants g' = gg_grants g /\ gg_transitions g' = gg_transitions g /\
  gg_unreadable_transitions g' = gg_unreadable_transitions g /\ gg_revision g' = gg_revision g.

#[local] Instance same_live_preorder : PreOrder same_live.
Proof. split; [done|]. intros ? ? ? (? & ? & ? & ?) (? & ? & ? & ?). split_and!; congruence. Qed.

Lemma restore_quarantine_live explicit g record g' :
  restore_quarantine_record explicit g record = Ok g' ->
  same_live g g' /\ gg_revoked g' = gg_revoked g.
Proof.
  intros H. unfold restore_quarantine_record in H. do 3 apply check_ok in H as [_ H].
  apply rbind_ok in H as (? & _ & H). apply rbind_ok in H as (? & _ & H).
  do 4 apply check_ok in H as [_ H]. apply rbind_ok in H as (? & _ & H).
  do 4 apply check_ok in H as [_ H]. by injection H as <-.
Qed.

(** The revoked set of a graph names only grants it knows. *)
Definition revoked_known (g : GrantGraph) : Prop :=
  forall id, id ∈ gg_revoked g -> is_Some (gg_grants g !! id) \/ is_Some (find_quarantined g id).

Lemma restore_revoked_live g id g' :
  restore_revoked g id = Ok g' ->
  same_live g g' /\ gg_quarantined g' = gg_quarantined g /\ (revoked_known g -> revoked_known g').
Proof.
  intros H. unfold restore_revoked in H. apply rbind_ok in H as (v & [-> _]%GrantId_new_ok & H).
  apply check_guard_ok in H as [Hk [= <-]]. split_and!; [done|done|].
  intros Hg x. simpl. intros [->%elem_of_singleton|Hx]%elem_of_union; [|by apply Hg].
  apply negb_false_iff, orb_true_iff in Hk. unfold find_quarantined. simpl.
  destruct Hk as [Hk|Hk]; [left|right].
  - by destruct (gg_grants g !! id).
  - change (is_Some (find_quarantined g id)). by destruct (find_quarantined g id).
Qed.

Lemma insert_restored_filed s m :
  fold_res insert_restored ∅ s = Ok m ->
  filed (fun gr => grant_typed gr /\ validate_local gr = Ok tt) m.
Proof.
  intros H. eapply (fold_res_inv (filed _)); [| |exact H]; [|apply map_Forall_empty].
  intros acc r acc' _ Hacc Hr. unfold insert_restored in Hr.
  apply rbind_ok in Hr as (gr & Hgr%grant_from_record_typed & Hr).
  apply insert_grant_ok in Hr as (Hl & _ & ->). by apply map_Forall_insert_2.
Qed.

(** Whatever the snapshot says, the restored graph satisfies the invariant of
    assembled graphs and holds no crossing. *)
Lemma restore_owned_wf s g :
  restore_owned s = Ok g ->
  graph_wf g /\ gg_transitions g = ∅ /\ gg_revision g = rs_revision s /\ revoked_known g.
Proof.
  intros H. unfold restore_owned in H. apply rbind_ok in H as (m & Hm & H).
  do 2 apply check_ok in H as [_ H]. apply rbind_ok in H as (marks & _ & H).
  apply check_ok in H as [_ H]. apply rbind_ok in H as (g1 & Hg1 & H).
  apply rbind_ok in H as (explicit & _ & H). apply rbind_ok in H as (g2 & Hg2 & H).
  apply check_ok in H as [He H]. rewrite validate_edges_ok in He.
  apply insert_restored_filed in Hm. apply partition_restored_ok in Hg1
    as (p & _ & Hp & _ & Hgr & _ & Hrv & Hrev & _ & Htr). simpl in *.
  assert (Hl2 : same_live g1 g2 /\ gg_revoked g2 = gg_revoked g1).
  { eapply (fold_res_inv (fun q => same_live g1 q /\ gg_revoked q = gg_revoked g1));
      [|split; done|exact Hg2].
    intros q r q' _ [Hq Hqr] Hs. apply restore_quarantine_live in Hs as [? ?].
    split; [by etrans|congruence]. }
  assert (Hl3 : same_live g2 g /\ revoked_known g).
  { eapply (fold_res_inv (fun q => same_live g2 q /\ revoked_known q)); [|split; [done|]|exact H].
    - intros q r q' _ [Hq Hk] Hs. apply restore_revoked_live in Hs as (? & _ & Hk').
      split; [by etrans|auto].
    - destruct Hl2 as [_ Hl2]. intros id. rewrite Hl2, Hrv. set_solver. }
  destruct Hl2 as [(Hg12 & Ht12 & _ & Hr12) _], Hl3 as [(Hg23 & Ht23 & _ & Hr23) Hk].
  assert (Hsub : gg_grants g ⊆ m) by (rewrite Hg23, Hg12, Hgr; apply Hp).
  assert (Htr0 : gg_transitions g = ∅).
  { rewrite Ht23, Ht12. apply (anti_symm (⊆)); [done|apply map_empty_subseteq]. }
  split_and!; [|done|congruence|done].
  assert (Hf : forall id gr, gg_grants g !! id = Some gr -> cg_grant_id gr = id /\ grant_typed gr /\
    validate_local gr = Ok tt).
  { intros id gr Hid. apply Hm. by eapply lookup_weaken. }
  split; try (intros id gr Hid; by destruct (Hf id gr Hid) as (? & ? & ?)).
  rewrite Hg23, Ht23. exact He.
Qed.
End Restored.

(** ** Graphs without crossings *)

Section Plain.
Context (g : GrantGraph) (Hwf : graph_wf g).
Context (Hun : gg_unreadable_transitions g = ∅).

(** Nothing is quarantined so far. *)
Definition unquarantined (p : Partition) : Prop :=
  pt_quarantined_ids p = ∅ /\ pt_quarantined p = gg_quarantined g.

(** On an accepted edge the loop body admits the child of an admitted parent. *)
Lemma plain_one p id gr :
  unquarantined p -> gg_grants g !! id = Some gr ->
  partition_one g p (id, gr)
  = Ok (if is_some (pt_admitted p !! id) then p
        else match cg_parent_grant_id gr with
             | Some q => if is_some (pt_admitted p !! q) then partition_accept id gr p else p
             | None => p
             end).
Proof.
  intros [Hq _] Hg. unfold partition_one. rewrite Hq.
  rewrite (bool_decide_eq_false_2 (id ∈ _)) by set_solver. rewrite orb_false_r.
  destruct (is_some (pt_admitted p !! id)); [done|].
  destruct (cg_parent_grant_id gr) as [q|] eqn:Hpar; [|done].
  destruct (edge_narrows g Hwf id q gr Hg) as (gp & Hgp & He & _); [by exists gr|].
  rewrite Hgp. simpl. rewrite (bool_decide_eq_false_2 (q ∈ _)) by set_solver.
  rewrite He, Hun. rewrite (bool_decide_eq_false_2 (_ ∈ _)) by set_solver. simpl.
  by destruct (is_some _).
Qed.

Lemma plain_round p l :
  unquarantined p -> (forall x, x ∈ l -> gg_grants g !! x.1 = Some x.2) ->
  exists p', fold_res (partition_one g) p l = Ok p' /\ unquarantined p' /\
    (pt_progressed p' = false -> p' = p /\ forall x, x ∈ l -> partition_one g p x = Ok p).
Proof.
  revert p. induction l as [|[id gr] l IH]; intros p Hp Hl; cbn [fold_res].
  { exists p. split_and!; [done|done|]. intros _. split; [done|]. set_solver. }
  pose proof (Hl (id, gr) ltac:(left)) as Hg. simpl in Hg.
  rewrite (plain_one p id gr Hp Hg). cbn [rbind].
  match goal with |- exists _, fold_res _ ?q _ = _ /\ _ => set (p1 := q) end.
  assert (H1 : unquarantined p1 /\ (p1 = p \/ pt_progressed p1 = true)).
  { subst p1. destruct (is_some _); [by auto|]. destruct (cg_parent_grant_id gr); [|by auto].
    destruct (is_some _); [|by auto]. split; [exact Hp|by right]. }
  destruct H1 as [H1 Hcase].
  destruct (IH p1 H1 (fun x Hx => Hl x (list_elem_of_further _ _ _ Hx))) as (p' & Hf & Hu & Hnp).
  exists p'. split_and!; [done|done|]. intros Hpr. destruct (Hnp Hpr) as [-> Hall].
  destruct Hcase as [Heq|Heq]; [|congruence]. split; [done|].
  intros x [->|Hx]%elem_of_cons; [|by rewrite <- Heq; apply Hall].
  rewrite (plain_one p id gr Hp Hg). fold p1. by rewrite Heq.
Qed.

(** One round from [p], with the body's outcome where it placed nothing. *)
Lemma plain_partition_round p :
  unquarantined p ->
  exists q, partition_round g p = Ok q /\ unquarantined q /\
    (pt_progressed q = false ->
     forall x, x ∈ btree_iter (gg_grants g) -> partition_one g q x = Ok q).
Proof.
  intros Hu. unfold partition_round.
  match goal with |- exists _, fold_res _ ?p0 _ = _ /\ _ =>
    destruct (plain_round p0 (btree_iter (gg_grants g)) Hu) as (q & Hf & Hu' & Hnp) end.
  { intros [k v] Hk. by apply btree_iter_lookup in Hk. }
  exists q. split_and!; [done|done|]. intros Hpr. destruct (Hnp Hpr) as [Heq Hall].
  by rewrite Heq.
Qed.

(** The loop is left at a fixpoint that admits at least the roots. *)
Lemma plain_exit :
  exists p, partition_loop g = Some (Ok p) /\ part_inv g p /\ unquarantined p /\
    placed (partition_start g) ⊆ placed p /\
    forall x, x ∈ btree_iter (gg_grants g) -> partition_one g p x = Ok p.
Proof.
  destruct (partition_loop_total g) as [r Hr]. rewrite Hr.
  assert (Hend : exists p, r = Ok p /\ part_inv g p /\ unquarantined p /\
    placed (partition_start g) ⊆ placed p /\
    forall x, x ∈ btree_iter (gg_grants g) -> partition_one g p x = Ok p);
    [|destruct Hend as (p & -> & ?); eauto].
  refine (loop_invariant (partition_step g)
    (fun p => part_inv g p /\ unquarantined p /\ placed (partition_start g) ⊆ placed p)
    (fun r => exists p, r = Ok p /\ part_inv g p /\ unquarantined p /\
       placed (partition_start g) ⊆ placed p /\
       forall x, x ∈ btree_iter (gg_grants g) -> partition_one g p x = Ok p)
    _ _ _ _ _ Hr); [|split_and!; [apply partition_start_inv|done|done]].
  intros p (Hp & Hu & Hs). unfold partition_step.
  destruct (plain_partition_round p Hu) as (q & Hround & Hu' & Hnp). rewrite Hround.
  destruct (partition_round_spec g p q Hp Hround) as (Hq & Hpq & _).
  destruct (pt_progressed q) eqn:Hpr; [split_and!; [done|done|set_solver]|].
  exists q. split_and!; [done|done|done|set_solver|by apply Hnp].
Qed.

(** A fixpoint that admits the roots admits every lineage. *)
Lemma plain_fixpoint p :
  unquarantined p -> placed (partition_start g) ⊆ placed p ->
  (forall x, x ∈ btree_iter (gg_grants g) -> partition_one g p x = Ok p) ->
  forall gr chain, lineage (gg_grants g) gr chain ->
    gg_grants g !! cg_grant_id gr = Some gr -> is_Some (pt_admitted p !! cg_grant_id gr).
Proof.
  intros Hu Hstart Hfix. induction 1 as [leaf Hroot|leaf q parent chain Hpar Hq _ IH]; intros Hleaf.
  - assert (Hin : cg_grant_id leaf ∈ placed p).
    { apply Hstart. unfold placed. simpl. apply elem_of_union_l, elem_of_dom.
      exists leaf. by apply map_lookup_filter_Some. }
    destruct Hu as [Hq _]. unfold placed in Hin. rewrite Hq, union_empty_r_L in Hin.
    by apply elem_of_dom.
  - specialize (Hfix (cg_grant_id leaf, leaf) ltac:(by apply btree_iter_lookup)).
    rewrite (plain_one p _ leaf Hu Hleaf), Hpar in Hfix.
    pose proof (wf_key g Hwf q parent Hq) as Hk. subst q. destruct (IH Hq) as [a Ha].
    destruct (pt_admitted p !! cg_grant_id leaf) eqn:Hl; [by eexists|]. exfalso. simpl in Hfix.
    rewrite Ha in Hfix. simpl in Hfix. injection Hfix as Hfix.
    rewrite <- Hfix in Hl. simpl in Hl. by rewrite lookup_insert_eq in Hl.
Qed.

(** The partition of a plain map ends with every grant admitted. *)
Lemma plain_partition :
  exists p, partition_loop g = Some (Ok p) /\ pt_admitted p = gg_grants g /\ unquarantined p.
Proof.
  destruct plain_exit as (p & Hl & Hp & Hu & Hstart & Hfix). exists p. split_and!; [done| |done].
  apply (anti_symm (⊆)); [apply Hp|]. apply map_subseteq_spec. intros id gr Hg.
  destruct (lineage_exists g Hwf id gr Hg) as [chain Hc].
  pose proof (wf_key g Hwf id gr Hg) as Hk. subst id.
  destruct (plain_fixpoint p Hu Hstart Hfix gr chain Hc Hg) as [gr' Hgr'].
  pose proof (lookup_weaken _ _ _ _ Hgr' (pi_admitted g p Hp)). congruence.
Qed.
End Plain.

(** ** The round trip *)

Section RoundTrip.
Lemma scan_ascending_ok {A} (pre : A -> AR unit) key e l : forall previous,
  Forall (fun x => pre x = Ok tt) l -> StronglySorted String.le (key <$> l) -> NoDup (key <$> l) ->
  (forall p x, previous = Some p -> x ∈ l -> String.le p (key x) /\ p <> key x) ->
  scan_ascending pre key e previous l = Ok tt.
Proof.
  induction l as [|x l IH]; intros previous Hpre Hs Hnd Hprev; simpl; [done|].
  apply Forall_cons in Hpre as [-> Hpre]. simpl in *. apply NoDup_cons in Hnd as [Hni Hnd].
  apply StronglySorted_inv in Hs as [Hs Hle].
  assert (match previous with Some p => str_ge p (key x) | None => false end = false) as ->.
  { destruct previous as [p|]; [|done]. destruct (Hprev p x eq_refl ltac:(left)) as [Hpx Hne].
    apply bool_decide_eq_false_2. intros Hge. by apply Hne, (anti_symm String.le). }
  simpl. apply IH; [done|done|done|]. intros p y [= <-] Hy. rewrite Forall_forall in Hle. split.
  - apply Hle, list_elem_of_fmap. eauto.
  - intros Heq. apply Hni, list_elem_of_fmap. eauto.
Qed.

Lemma btree_keys_sorted {V} (m : gmap string V) : StronglySorted String.le (btree_iter m).*1.
Proof.
  pose proof (btree_iter_sorted m) as H. induction H as [|x l Hs IH Hx]; simpl; constructor; [done|].
  rewrite Forall_fmap. exact Hx.
Qed.

Lemma btree_values_keys ok m : filed ok m -> cg_grant_id <$> btree_values m = (btree_iter m).*1.
Proof.
  intros Hf. unfold btree_values. rewrite <- list_fmap_compose. apply list_fmap_ext.
  intros i [k v] Hi. apply list_elem_of_lookup_2, btree_iter_lookup in Hi.
  by destruct (Hf k v Hi).
Qed.

Lemma insert_records l : forall acc,
  Forall (fun gr => grant_typed gr /\ validate_local gr = Ok tt) l ->
  NoDup (cg_grant_id <$> l) -> (forall gr, gr ∈ l -> acc !! cg_grant_id gr = None) ->
  fold_res insert_restored acc (grant_to_recovery_record <$> l)
  = Ok (insert_all cg_grant_id id l acc).
Proof.
  induction l as [|gr l IH]; intros acc Hl Hnd Hacc; simpl; [done|].
  apply Forall_cons in Hl as [[Ht Hloc] Hl]. apply NoDup_cons in Hnd as [Hni Hnd].
  unfold insert_restored at 1. rewrite grant_record_roundtrip by done. simpl.
  rewrite (proj2 (insert_grant_ok acc gr _)) by (split_and!; [done|apply Hacc; left|done]). simpl.
  rewrite IH; [done|done|done|]. intros x Hx. rewrite lookup_insert_ne.
  - apply Hacc. by right.
  - intros Heq. apply Hni. rewrite Heq. apply list_elem_of_fmap. eauto.
Qed.

(** Re-reading the emitted grants rebuilds the map. *)
Lemma restore_map m :
  filed (fun gr => grant_typed gr /\ validate_local gr = Ok tt) m ->
  fold_res insert_restored ∅ (grant_to_recovery_record <$> btree_values m) = Ok m.
Proof.
  intros Hf. rewrite insert_records.
  - rewrite insert_all_values; [done|]. intros k v Hk. by destruct (Hf k v Hk).
  - apply Forall_forall. intros gr [k Hk]%btree_values_elem. by destruct (Hf k gr Hk).
  - rewrite (btree_values_keys _ _ Hf). apply btree_iter_NoDup.
  - intros gr _. apply lookup_empty.
Qed.

Lemma restore_revoked_all l : forall g,
  Forall (fun id => text_ok id = true /\ is_Some (gg_grants g !! id)) l ->
  fold_res restore_revoked g l = Ok (set_revoked (list_to_set l ∪ gg_revoked g) g).
Proof.
  induction l as [|id l IH]; intros g Hl; simpl.
  - rewrite union_empty_l_L. by destruct g.
  - apply Forall_cons in Hl as [[Ht [gr Hg]] Hl]. unfold restore_revoked at 1.
    rewrite (proj2 (GrantId_new_ok id id)) by done. simpl. rewrite Hg. simpl.
    rewrite IH by done. unfold set_revoked. simpl. do 2 f_equal. set_solver.
Qed.
End RoundTrip.

(** A graph without crossings or quarantined lineage. *)
Record plain (g : GrantGraph) : Prop := {
  pl_transitions : gg_transitions g = ∅;
  pl_unreadable : gg_unreadable_transitions g = ∅;
  pl_quarantined : gg_quarantined g = ∅;
}.

Section PlainRoundTrip.
Context (g : GrantGraph) (Hwf : graph_wf g) (Hplain : plain g).
Context (Hrev : gg_revision g <> 0) (Hknown : gg_revoked g ⊆ dom (gg_grants g)).

Lemma grants_filed : filed (fun gr => grant_typed gr /\ validate_local gr = Ok tt) (gg_grants g).
Proof. intros id gr Hg. split_and!; by eapply Hwf. Qed.

Lemma revoked_texts :
  Forall (fun id => text_ok id = true /\ is_Some (gg_grants g !! id)) (btree_set_iter (gg_revoked g)).
Proof.
  apply Forall_forall. intros id Hid. unfold btree_set_iter in Hid.
  rewrite merge_sort_Permutation, elem_of_elements in Hid. apply Hknown, elem_of_dom in Hid as [gr Hg].
  rewrite <- (wf_key g Hwf id gr Hg) at 1. split; [by eapply ty_id, wf_typed|by eexists].
Qed.

Lemma emit_plain :
  rs_admitted_root_transitions (emit_snapshot g) = [] /\ rs_quarantined_cross_root (emit_snapshot g) = [].
Proof.
  destruct Hplain as [Ht _ Hq]. simpl. rewrite Ht, Hq. unfold edge_iter, btree_values, btree_iter.
  by rewrite !map_to_list_empty.
Qed.

Lemma plain_wire : validate_wire (emit_snapshot g) = Ok tt.
Proof.
  destruct emit_plain as [Et Eq]. unfold validate_wire. rewrite Et, Eq. simpl.
  rewrite (proj2 (Z.eqb_neq _ _) Hrev). simpl.
  rewrite scan_ascending_ok; simpl; [| | | |done].
  - rewrite scan_ascending_ok; simpl; [done| | | |done].
    + eapply Forall_impl; [apply revoked_texts|]. intros id [Hid _]. by apply authority_text_ok.
    + rewrite list_fmap_id. apply (StronglySorted_merge_sort _).
    + rewrite list_fmap_id. unfold btree_set_iter. rewrite merge_sort_Permutation.
      apply NoDup_elements.
  - apply Forall_fmap, Forall_forall. intros gr [k Hk]%btree_values_elem. simpl.
    by eapply authority_text_ok, ty_id, wf_typed.
  - rewrite <- list_fmap_compose. change (gr_grant_id ∘ grant_to_recovery_record) with cg_grant_id.
    rewrite (btree_values_keys _ _ grants_filed). apply btree_keys_sorted.
  - rewrite <- list_fmap_compose. change (gr_grant_id ∘ grant_to_recovery_record) with cg_grant_id.
    rewrite (btree_values_keys _ _ grants_filed). apply btree_iter_NoDup.
Qed.

Lemma plain_restore : restore_owned (emit_snapshot g) = Ok g.
Proof.
  destruct emit_plain as [Et Eq]. unfold restore_owned. rewrite Et, Eq. simpl.
  rewrite (restore_map _ grants_filed). simpl.
  set (probe := {| gg_grants := gg_grants g; gg_revoked := ∅; gg_revision := gg_revision g;
    gg_transitions := ∅; gg_unreadable_transitions := ∅; gg_quarantined := ∅ |}).
  assert (Hw : graph_wf probe).
  { destruct Hwf, Hplain as [Ht _ _]. split; simpl; try done. by rewrite <- Ht. }
  assert (Hpp : for_each (parent_present (gg_grants g)) (btree_values (gg_grants g)) = Ok tt).
  { apply for_each_ok, Forall_forall. intros gr [k Hk]%btree_values_elem. unfold parent_present.
    destruct (cg_parent_grant_id gr) as [q|] eqn:Hq; [|done].
    destruct (edge_narrows g Hwf k q gr Hk) as (gp & -> & _); [by exists gr|done]. }
  rewrite Hpp. simpl.
  rewrite (proj2 (validate_cycles_exact probe) (edge_acyclic probe Hw)). simpl.
  destruct (plain_partition probe Hw eq_refl) as (p & Hl & Ha & Hq1 & Hq2).
  unfold partition_restored. rewrite Hl. simpl. rewrite Hq1, Ha, size_empty, Nat.add_0_r, Nat.eqb_refl.
  simpl. rewrite map_filter_empty, Hq2. simpl. fold probe.
  rewrite (proj2 (validate_edges_ok probe) (wf_edge probe Hw)). simpl.
  rewrite restore_revoked_all by apply revoked_texts. rewrite btree_set_iter_set. simpl.
  rewrite union_empty_r_L. unfold set_revoked. simpl. destruct g, Hplain; simpl in *. by subst.
Qed.
End PlainRoundTrip.

(** ** Reachable graphs *)

(** The graphs that construction, revocation and restarts produce. *)
Inductive graph_reachable : GrantGraph -> Prop :=
| reach_from_grants grants revision g :
    Forall grant_typed grants -> 0 <= revision -> from_grants grants revision = Ok g ->
    graph_reachable g
| reach_with_admitted grants admitted revision g :
    Forall grant_typed grants -> 0 <= revision ->
    with_admitted_transitions grants admitted revision = Ok g -> graph_reachable g
| reach_restored s g :
    0 <= rs_revision s -> from_recovery_snapshot s = Ok g -> graph_reachable g
| reach_call c g : graph_reachable g -> graph_reachable (graph_call c g).1.

Lemma assemble_revision grants transitions unreadable revision g :
  assemble grants transitions unreadable revision = Ok g -> revision <> 0.
Proof. intros H. apply check_guard_ok in H as [H _]. lia. Qed.

Lemma find_quarantined_ext g g' id :
  gg_quarantined g' = gg_quarantined g -> find_quarantined g' id = find_quarantined g id.
Proof. intros H. unfold find_quarantined. by rewrite H. Qed.

Lemma bump_revision_pos g : 0 < gg_revision g -> 0 < gg_revision (bump_revision g).1.
Proof.
  intros H. rewrite bump_revision_state. destruct (checked_add _ _) eqn:E; simpl; [|done].
  apply checked_add_some in E as [-> _]. lia.
Qed.

Lemma graph_call_revision c g : 0 < gg_revision g -> 0 < gg_revision (graph_call c g).1.
Proof.
  intros H. destruct c as [id|target members]; simpl.
  - rewrite revoke_eq. destruct (is_some _); [|done]. by apply bump_revision_pos.
  - destruct (revoke_closure_eq target members g) as [[e ->]|(_ & _ & ->)]; [done|].
    by apply bump_revision_pos.
Qed.

Lemma graph_reachable_inv g :
  graph_reachable g -> graph_wf g /\ revoked_known g /\ 0 < gg_revision g.
Proof.
  assert (Hasm : forall grants transitions revision g, Forall grant_typed grants -> 0 <= revision ->
    assemble grants transitions ∅ revision = Ok g ->
    graph_wf g /\ revoked_known g /\ 0 < gg_revision g).
  { intros grants transitions revision g0 Ht H0 H. pose proof (assemble_revision _ _ _ _ _ H).
    destruct (assemble_wf _ _ _ _ _ Ht H) as (Hwf & Hr & Hv & _). split_and!; [done| |lia].
    intros id. rewrite Hr. set_solver. }
  induction 1 as [grants revision g Ht H0 H|grants admitted revision g Ht H0 H|s g H0 H|c g _ IH].
  - by eapply Hasm.
  - apply rbind_ok in H as (tr & _ & H). by eapply Hasm.
  - unfold from_recovery_snapshot in H. apply check_ok in H as [Hw H]. apply check_ok in H as [_ H].
    apply restore_owned_wf in H as (Hwf & _ & Hv & Hk). split_and!; [done|done|].
    unfold validate_wire in Hw. do 3 apply check_ok in Hw as [_ Hw].
    apply check_guard_ok in Hw as [Hz _]. lia.
  - destruct IH as (Hwf & Hk & Hv). pose proof (graph_call_extends c g) as He.
    split_and!; [by eapply extends_wf| |by apply graph_call_revision].
    intros id Hid. apply (er_known _ _ He) in Hid. rewrite (er_grants _ _ He).
    rewrite (find_quarantined_ext g) by apply He.
    apply elem_of_union in Hid as [Hid|Hid]; [by apply Hk|left; by apply elem_of_dom].
Qed.
