(* ===== verification/GrantTheorems.v ===== *)
(** * What the grant graph guarantees

    The theorems on reachable grant graphs and on the introductions compiled
    from their snapshots, with a sample lineage for the witnesses, and the
    places where recovery and introductions depart from their description. *)

From Stdlib Require Import Ascii String.
From S2P Require Import Prelude RustText Contracts Receipts Grants GrantGraph GrantRecovery.
From S2P Require Import GrantGraphLaws GrantRecoveryLaws.
From stdpp Require Import relations.

#[local] Open Scope string_scope.
#[local] Open Scope Z_scope.

(** ** A sample lineage *)

Section Sample.
Definition sample_set (operations resources : list string) (effect : EffectClass) : AuthoritySet :=
  {| as_operations := list_to_set operations; as_resources := list_to_set resources;
     as_max_effect := effect |}.

Definition sample_binding : AuthorityBinding :=
  {| ab_authority_id := "authority-1"; ab_authority_owner := "governor";
     ab_authority_epoch := authority_epoch sample_receipt_fence;
     ab_state_fence := sample_receipt_fence; ab_allowed_effect := ExternalEffect;
     ab_proof_ceiling := ObservedExternalEffect |}.

Definition sample_grant (id : string) (parent : option string) (root issuer holder : string)
    (operations : list string) (expires : Z) : CapabilityGrant :=
  {| cg_grant_id := id; cg_parent_grant_id := parent; cg_authority_root_ref := root;
     cg_issuer := issuer; cg_holder := holder;
     cg_authority := sample_set operations ["repo"] ReversibleMutation;
     cg_inherited_source_ceiling := None; cg_binding := sample_binding;
     cg_issued_at := 0; cg_expires_at := expires; cg_max_uses := 5; cg_status := GActive |}.

Definition sample_root := sample_grant "g-root" None "root-a" "owner" "alice" ["read"; "write"; "list"] 100.
Definition sample_mid := sample_grant "g-mid" (Some "g-root") "root-a" "alice" "bob" ["read"; "write"] 90.
Definition sample_leaf := sample_grant "g-leaf" (Some "g-mid") "root-a" "bob" "carol" ["read"] 80.
Definition sample_side := sample_grant "g-side" (Some "g-root") "root-a" "alice" "carol" ["list"] 100.

Definition sample_grants : list CapabilityGrant := [sample_root; sample_mid; sample_leaf; sample_side].

Definition sample_graph : GrantGraph :=
  {| gg_grants := list_to_map ((fun gr => (cg_grant_id gr, gr)) <$> sample_grants);
     gg_revoked := ∅; gg_revision := 1; gg_transitions := ∅; gg_unreadable_transitions := ∅;
     gg_quarantined := ∅ |}.

Definition sample_scope : WorkScopeBinding :=
  {| ws_scope_id := "scope-1"; ws_product_id := "product-1"; ws_resource_generation := 1;
     ws_state_fence := sample_receipt_fence |}.

Definition sample_session : SessionBinding :=
  {| sb_session_id := "session-1"; sb_authority_epoch := authority_epoch sample_receipt_fence;
     sb_state_fence := sample_receipt_fence |}.

Lemma sample_grant_typed id parent root issuer holder operations expires :
  text_ok id = true -> (forall p, parent = Some p -> text_ok p = true) ->
  text_ok issuer = true -> text_ok holder = true ->
  authority_wf (sample_set operations ["repo"] ReversibleMutation) ->
  grant_typed (sample_grant id parent root issuer holder operations expires).
Proof. by split. Qed.

Lemma sample_typed : Forall grant_typed sample_grants.
Proof.
  repeat constructor; apply sample_grant_typed; try (intros ? [= <-]); by vm_compute.
Qed.

Lemma sample_assembled : from_grants sample_grants 1 = Ok sample_graph.
Proof. by vm_compute. Qed.

Lemma sample_reachable : graph_reachable sample_graph.
Proof. apply (reach_from_grants sample_grants 1); [apply sample_typed|lia|apply sample_assembled]. Qed.

Lemma sample_lineage :
  lineage (gg_grants sample_graph) sample_leaf [sample_root; sample_mid; sample_leaf].
Proof.
  apply (lineage_child _ sample_leaf "g-mid" sample_mid [sample_root; sample_mid]);
    [done|by vm_compute|].
  apply (lineage_child _ sample_mid "g-root" sample_root [sample_root]); [done|by vm_compute|].
  by constructor.
Qed.
End Sample.

(** ** Lineage *)

(** C33. On every reachable grant graph parent links have no cycle; along any chain
    of delegations the authority strictly shrinks and neither lifetime nor use
    count grows; and each delegation is issued by its parent's holder, inside
    one authority root or on evidence recorded for exactly that edge. *)
Theorem grant_graph_invariant (g : GrantGraph) :
  graph_reachable g ->
  (forall id, ~ tc (edge (gg_grants g)) id id) /\
  (forall c d, tc (edge (gg_grants g)) c d ->
     exists gc gd, gg_grants g !! c = Some gc /\ gg_grants g !! d = Some gd /\
       authority_le (cg_authority gc) (cg_authority gd) /\ cg_authority gc <> cg_authority gd /\
       cg_expires_at gc <= cg_expires_at gd /\ cg_max_uses gc <= cg_max_uses gd) /\
  (forall c p gc, gg_grants g !! c = Some gc -> cg_parent_grant_id gc = Some p ->
     exists gp, gg_grants g !! p = Some gp /\ cg_issuer gc = cg_holder gp /\
       (cg_authority_root_ref gc = cg_authority_root_ref gp \/ is_Some (gg_transitions g !! (p, c)))).
Proof.
  intros Hr. destruct (graph_reachable_inv g Hr) as [Hwf _]. split_and!.
  - apply (edge_acyclic g Hwf).
  - apply (ancestors_narrow g Hwf).
  - intros c p gc Hc Hp. destruct (edge_narrows g Hwf c p gc Hc) as (gp & Hgp & He & Hn);
      [by exists gc|].
    apply grant_narrowing_ok in Hn as (Hi & _). exists gp. split_and!; [done|done|].
    unfold edge_is_authorized, crosses_authority_root in He.
    rewrite (wf_key g Hwf _ _ Hc), (wf_key g Hwf _ _ Hgp) in He.
    rewrite negb_involutive in He. apply orb_true_iff in He as [He|He].
    + left. by apply bool_decide_eq_true in He.
    + right. by destruct (gg_transitions g !! (p, c)).
Qed.

Lemma grant_graph_invariant_witness :
  graph_reachable sample_graph /\ ~ tc (edge (gg_grants sample_graph)) "g-leaf" "g-leaf".
Proof.
  split; [apply sample_reachable|].
  exact (proj1 (grant_graph_invariant sample_graph sample_reachable) "g-leaf").
Defined.

(** The walk behind an effective path always ends, and returns exactly what
    the lineage of the grant says: the first standing check to fail, from the
    leaf upwards, or the whole lineage from its root with the authority of the
    leaf itself. *)
Theorem effective_path_exact (g : GrantGraph) (id : GrantId) (leaf : CapabilityGrant)
    (work_scope : WorkScopeBinding) (session : SessionBinding) (now : LogicalTime) :
  graph_reachable g -> gg_grants g !! id = Some leaf ->
  exists chain, lineage (gg_grants g) leaf chain /\ NoDup (cg_grant_id <$> chain) /\
    effective_path g leaf work_scope session now
    = Some (check? for_each (fun gr => validate_active g gr work_scope session now) (reverse chain);
            Ok {| ep_grant_path := cg_grant_id <$> chain; ep_authority := cg_authority leaf |}).
Proof.
  intros Hr Hg. destruct (graph_reachable_inv g Hr) as [Hwf _].
  destruct (lineage_exists g Hwf id leaf Hg) as [chain Hc]. exists chain.
  pose proof (wf_key g Hwf id leaf Hg) as Hk. subst id.
  split_and!; [done|by eapply lineage_NoDup|]. by apply effective_path_spec.
Qed.

Lemma effective_path_exact_witness :
  gg_grants sample_graph !! "g-leaf" = Some sample_leaf /\
  (exists chain, lineage (gg_grants sample_graph) sample_leaf chain) /\
  effective_path sample_graph sample_leaf sample_scope sample_session 10
  = Some (Ok {| ep_grant_path := ["g-root"; "g-mid"; "g-leaf"];
                ep_authority := cg_authority sample_leaf |}).
Proof.
  assert (Hg : gg_grants sample_graph !! "g-leaf" = Some sample_leaf) by (by vm_compute).
  split; [exact Hg|]. split; [|by vm_compute].
  destruct (effective_path_exact sample_graph "g-leaf" sample_leaf sample_scope sample_session 10
    sample_reachable Hg) as (chain & Hc & _).
  exists chain. exact Hc.
Defined.

(** What a holder's snapshot allows is what some grant of the holder, with its
    whole lineage in standing, allows by itself: authority of separate paths
    is never combined. The snapshot is refused exactly when no such grant is
    in standing. *)
Theorem grant_snapshot_exact (g : GrantGraph) (snapshot_id : SnapshotId) (holder : PrincipalRef)
    (work_scope : WorkScopeBinding) (session : SessionBinding) (now : LogicalTime) :
  graph_reachable g -> validate_context work_scope session = Ok tt ->
  exists r, graph_snapshot g snapshot_id holder work_scope session now = Some r /\
    match r with
    | Ok s => es_grant_graph_revision s = gg_revision g /\
        forall operation resource effect,
          snapshot_allows s operation resource effect = true <->
          exists leaf chain, cg_holder leaf = holder /\
            stands g work_scope session now leaf chain /\
            allows (cg_authority leaf) operation resource effect = true
    | Err e => e = NoEffectivePath /\
        forall leaf chain, cg_holder leaf = holder -> ~ stands g work_scope session now leaf chain
    end.
Proof.
  intros Hr Hctx. destruct (graph_reachable_inv g Hr) as [Hwf _].
  destruct (graph_snapshot_spec g Hwf work_scope session now snapshot_id holder Hctx) as (r & -> & H).
  exists r. split; [done|]. destruct r as [s|e]; [|exact H].
  destruct H as (_ & _ & _ & _ & Hrev & _ & Hpaths). split; [done|].
  intros operation resource effect. unfold snapshot_allows. rewrite existsb_exists. split.
  - intros (path & Hin & Ha). apply list_elem_of_In, Hpaths in Hin as (leaf & chain & Hh & Hs & ->).
    eauto.
  - intros (leaf & chain & Hh & Hs & Ha). exists (path_of leaf chain). split; [|done].
    apply list_elem_of_In, Hpaths. eauto.
Qed.

Lemma grant_snapshot_exact_witness :
  validate_context sample_scope sample_session = Ok tt /\
  exists r, graph_snapshot sample_graph "s" "carol" sample_scope sample_session 10 = Some r.
Proof.
  assert (Hc : validate_context sample_scope sample_session = Ok tt) by (by vm_compute).
  split; [exact Hc|].
  destruct (grant_snapshot_exact sample_graph "s" "carol" sample_scope sample_session 10
    sample_reachable Hc) as (r & Hs & _). exists r. exact Hs.
Defined.

(** ** Revocation *)

(** C31. Revocation reaches the whole subtree and is final: whatever revocations
    follow, a grant with a revoked grant in its lineage has no effective path
    in any context; and revocations outside a lineage leave its path, with its
    errors, untouched. *)
Theorem revocation_cuts_lineage (g : GrantGraph) (calls : list GraphCall) (id : GrantId)
    (leaf : CapabilityGrant) (chain : list CapabilityGrant)
    (work_scope : WorkScopeBinding) (session : SessionBinding) (now : LogicalTime) :
  graph_reachable g -> gg_grants g !! id = Some leaf -> lineage (gg_grants g) leaf chain ->
  ((exists x, x ∈ chain /\ cg_grant_id x ∈ gg_revoked g) ->
   exists e, effective_path (graph_calls calls g) leaf work_scope session now = Some (Err e)) /\
  ((forall x, x ∈ chain -> cg_grant_id x ∈ gg_revoked (graph_calls calls g) ->
      cg_grant_id x ∈ gg_revoked g) ->
   effective_path (graph_calls calls g) leaf work_scope session now
   = effective_path g leaf work_scope session now).
Proof.
  intros Hr Hg Hc. destruct (graph_reachable_inv g Hr) as [Hwf _].
  pose proof (wf_key g Hwf id leaf Hg) as Hk. subst id.
  pose proof (graph_calls_extends calls g) as He. pose proof (extends_wf _ _ He Hwf) as Hwf'.
  pose proof Hc as Hc'. pose proof Hg as Hg'. rewrite <- (er_grants _ _ He) in Hc', Hg'.
  rewrite (effective_path_spec _ Hwf' work_scope session now leaf chain Hg' Hc').
  rewrite (effective_path_spec _ Hwf work_scope session now leaf chain Hg Hc). split.
  - intros (x & Hx & Hrv). apply (er_revoked _ _ He) in Hrv.
    destruct (lineage_active_revoked _ work_scope session now chain x Hx Hrv) as [e ->].
    by exists e.
  - intros Hnew. rewrite (lineage_active_frame g); [done|]. intros x Hx.
    split; [by apply Hnew|apply He].
Qed.

Lemma revocation_cuts_lineage_witness :
  let g := (revoke "g-mid" sample_graph).1 in
  exists e, effective_path (graph_calls [CallRevoke "g-side"] g) sample_leaf sample_scope
              sample_session 10 = Some (Err e).
Proof.
  intros g.
  assert (Hr : graph_reachable g) by (exact (reach_call (CallRevoke "g-mid") _ sample_reachable)).
  assert (Hg : gg_grants g !! "g-leaf" = Some sample_leaf) by (by vm_compute).
  refine (proj1 (revocation_cuts_lineage g [CallRevoke "g-side"] "g-leaf" sample_leaf
    [sample_root; sample_mid; sample_leaf] sample_scope sample_session 10 Hr Hg _) _).
  - exact sample_lineage.
  - exists sample_mid. split; [by right; left|by vm_compute].
Defined.

Section ClosureRevocation.
Context (g : GrantGraph) (Hwf : graph_wf g).

Lemma wf_filed : filed (fun _ => True) (gg_grants g).
Proof. intros id gr Hg. split; [by eapply wf_key|done]. Qed.

Lemma delegated_closure_spec target gt :
  gg_grants g !! target = Some gt ->
  exists d, delegated_closure g target = Ok d /\
    gd_authority_root_ref d = cg_authority_root_ref gt /\ gd_revision d = gg_revision g /\
    NoDup (mr_grant_id <$> gd_members d) /\
    (forall id, id ∈ mr_grant_id <$> gd_members d <->
       rtc (child_on (gg_grants g) (cg_authority_root_ref gt)) target id) /\
    mr_grant_id <$> head (gd_members d) = Some target /\ parents_first (gd_members d) /\
    (forall m, m ∈ gd_members d ->
       exists gr, gg_grants g !! mr_grant_id m = Some gr /\ m = member_ref gr).
Proof.
  intros Ht. pose proof (wf_key g Hwf target gt Ht) as Hk. subst target.
  destruct (closure_walk_spec (gg_grants g) wf_filed _ gt Ht eq_refl) as (members & Hw & H).
  unfold delegated_closure. rewrite Ht. simpl. rewrite Hw. eexists. by split.
Qed.

(** A descendant on one root has the target in its lineage. *)
Lemma descendant_lineage root target gt leaf chain x :
  gg_grants g !! cg_grant_id leaf = Some leaf -> lineage (gg_grants g) leaf chain ->
  gg_grants g !! target = Some gt -> x ∈ chain ->
  rtc (child_on (gg_grants g) root) target (cg_grant_id x) -> gt ∈ chain.
Proof.
  intros Hl Hc Ht Hx Hd. pose proof (wf_key g Hwf target gt Ht) as Hk. subst target.
  apply (lineage_elem g Hwf leaf chain Hc Hl) in Hx as [_ Hx].
  apply (lineage_elem g Hwf leaf chain Hc Hl). split; [done|]. etrans; [exact Hx|].
  clear Hx Ht. induction Hd as [|p c d (gr & Hg & Hp & _) _ IH]; [done|].
  etrans; [exact IH|]. apply rtc_once. by exists gr.
Qed.

Lemma resolve_members_ok members : forall declared,
  Forall (fun m => text_ok m = true /\ is_Some (gg_grants g !! m)) members ->
  fold_res (resolve_member (gg_grants g)) declared members = Ok (declared ++ members)%list.
Proof.
  induction members as [|m members IH]; intros declared Hm; simpl; [by rewrite app_nil_r|].
  apply Forall_cons in Hm as [[Ht [gr Hg]] Hm]. unfold resolve_member at 1.
  rewrite (proj2 (GrantId_new_ok m m)) by done. simpl. rewrite Hg. simpl.
  rewrite IH by done. by rewrite <- app_assoc.
Qed.
End ClosureRevocation.

(** The descendant closure of a grant is enumerated completely and in order:
    the walk ends, lists the grant first, lists exactly the descendants
    reached inside its authority root, each once and after its parent. *)
Theorem delegated_closure_exact (g : GrantGraph) (target : GrantId) (gt : CapabilityGrant) :
  graph_reachable g -> gg_grants g !! target = Some gt ->
  exists d, delegated_closure g target = Ok d /\
    gd_authority_root_ref d = cg_authority_root_ref gt /\ gd_revision d = gg_revision g /\
    NoDup (mr_grant_id <$> gd_members d) /\
    (forall id, id ∈ mr_grant_id <$> gd_members d <->
       rtc (child_on (gg_grants g) (cg_authority_root_ref gt)) target id) /\
    mr_grant_id <$> head (gd_members d) = Some target /\ parents_first (gd_members d).
Proof.
  intros Hr Ht. destruct (graph_reachable_inv g Hr) as [Hwf _].
  destruct (delegated_closure_spec g Hwf target gt Ht) as (d & Hd & ? & ? & ? & ? & ? & ? & _).
  exists d. by split_and!.
Qed.

Lemma delegated_closure_exact_witness :
  (exists d, delegated_closure sample_graph "g-root" = Ok d /\
     parents_first (gd_members d)) /\
  mr_grant_id <$> default [] (closure_walk (gg_grants sample_graph) sample_root)
  = ["g-root"; "g-mid"; "g-side"; "g-leaf"].
Proof.
  split; [|by vm_compute].
  destruct (delegated_closure_exact sample_graph "g-root" sample_root sample_reachable)
    as (d & Hd & _ & _ & _ & _ & _ & Hp); [by vm_compute|].
  exists d. split; [exact Hd|exact Hp].
Defined.

(** C32. Fencing the enumerated closure of a grant succeeds in one revision step;
    afterwards exactly the grants with that grant in their lineage have lost
    their paths, and every other grant's path, with its errors, is what it was. *)
Theorem closure_revocation_exact (g : GrantGraph) (target : GrantId) (d : GrantClosureDelegation) :
  graph_reachable g -> gg_revision g < u64_max -> delegated_closure g target = Ok d ->
  exists g', revoke_declared_closure target (mr_grant_id <$> gd_members d) g = (g', Ok tt) /\
    gg_revision g' = gg_revision g + 1 /\
    forall id leaf chain work_scope session now,
      gg_grants g !! id = Some leaf -> lineage (gg_grants g) leaf chain ->
      (target ∈ cg_grant_id <$> chain ->
       exists e, effective_path g' leaf work_scope session now = Some (Err e)) /\
      (target ∉ cg_grant_id <$> chain ->
       effective_path g' leaf work_scope session now
       = effective_path g leaf work_scope session now).
Proof.
  intros Hr Hrev Hd. destruct (graph_reachable_inv g Hr) as (Hwf & _ & Hpos).
  assert (Ht : exists gt, gg_grants g !! target = Some gt).
  { unfold delegated_closure in Hd. destruct (gg_grants g !! target); [by eexists|done]. }
  destruct Ht as [gt Ht].
  destruct (delegated_closure_spec g Hwf target gt Ht) as (d' & Hd' & _ & _ & _ & Hin & _ & _ & Hmem).
  assert (d' = d) as -> by congruence.
  set (ids := mr_grant_id <$> gd_members d) in *.
  assert (Hres : fold_res (resolve_member (gg_grants g)) [] ids = Ok ids).
  { apply resolve_members_ok, Forall_forall. intros id (m & -> & Hm)%list_elem_of_fmap.
    destruct (Hmem m Hm) as (gr & Hg & _). rewrite <- (wf_key g Hwf _ _ Hg) at 1.
    split; [by eapply ty_id, wf_typed|by eexists]. }
  set (g' := set_revision (gg_revision g + 1) (set_revoked (list_to_set ids ∪ gg_revoked g) g)).
  exists g'. split; [|split; [done|]].
  { unfold revoke_declared_closure, mseq, mstate, mlift, mmodify. rewrite Ht. simpl. rewrite Hres.
    rewrite bump_revision_state. unfold checked_add. simpl.
    by rewrite (proj2 (Z.leb_le _ _)) by lia. }
  intros id leaf chain work_scope session now Hg Hc.
  pose proof (wf_key g Hwf id leaf Hg) as Hk. subst id.
  assert (Hwf' : graph_wf g') by (by destruct Hwf).
  rewrite (effective_path_spec g' Hwf' work_scope session now leaf chain Hg Hc).
  rewrite (effective_path_spec g Hwf work_scope session now leaf chain Hg Hc). split.
  - intros (x & Hx & Hxc)%list_elem_of_fmap.
    destruct (lineage_active_revoked g' work_scope session now chain x Hxc) as [e ->]; [|by eexists].
    rewrite <- Hx. simpl. apply elem_of_union_l, elem_of_list_to_set, Hin. done.
  - intros Hni. rewrite (lineage_active_frame g); [done|]. intros x Hx. simpl.
    rewrite elem_of_union, elem_of_list_to_set, Hin. split; [|by right]. intros [Hdesc|]; [|done].
    exfalso. apply Hni, list_elem_of_fmap. exists gt. split; [by rewrite (wf_key g Hwf target gt)|].
    by eapply descendant_lineage.
Qed.

Lemma closure_revocation_exact_witness :
  exists d g', delegated_closure sample_graph "g-mid" = Ok d /\
    revoke_declared_closure "g-mid" (mr_grant_id <$> gd_members d) sample_graph = (g', Ok tt).
Proof.
  destruct (delegated_closure sample_graph "g-mid") as [d|e] eqn:Hd; [|vm_compute in Hd; discriminate].
  assert (Hrev : gg_revision sample_graph < u64_max) by (by vm_compute).
  destruct (closure_revocation_exact sample_graph "g-mid" d sample_reachable Hrev Hd) as (g' & H & _).
  exists d, g'. split; [reflexivity|exact H].
Defined.

(** ** Recovery *)

(** C34. A graph without root crossings survives a restart: its snapshot is
    accepted by its own check, and restoring it gives back the same graph with
    its revocations and its revision. *)
Theorem grant_recovery_roundtrip (g : GrantGraph) :
  graph_reachable g -> plain g ->
  recovery_snapshot g = Ok (emit_snapshot g) /\ from_recovery_snapshot (emit_snapshot g) = Ok g.
Proof.
  intros Hr Hp. destruct (graph_reachable_inv g Hr) as (Hwf & Hk & Hpos).
  assert (Hrev : gg_revision g <> 0) by lia.
  assert (Hknown : gg_revoked g ⊆ dom (gg_grants g)).
  { intros id Hid. apply elem_of_dom. destruct (Hk id Hid) as [?|[x Hx]]; [done|].
    unfold find_quarantined in Hx. by rewrite (pl_quarantined g Hp) in Hx. }
  pose proof (plain_wire g Hwf Hp Hrev Hknown) as Hw.
  pose proof (plain_restore g Hwf Hp Hrev Hknown) as Ho.
  unfold recovery_snapshot, recovery_validate, from_recovery_snapshot,
    require_owner_readback_for_restore.
  rewrite Hw, Ho. by rewrite (proj1 (emit_plain g Hp)).
Qed.

Lemma grant_recovery_roundtrip_witness :
  let g := (revoke "g-mid" sample_graph).1 in
  plain g /\ from_recovery_snapshot (emit_snapshot g) = Ok g.
Proof.
  intros g. assert (Hp : plain g) by (by split; vm_compute).
  split; [exact Hp|].
  refine (proj2 (grant_recovery_roundtrip g _ Hp)).
  exact (reach_call (CallRevoke "g-mid") _ sample_reachable).
Defined.

(** ** Introductions *)

Record IntroCall : Type := {
  ic_operation : string;
  ic_resource : string;
  ic_effect : EffectClass;
  ic_snapshot : EffectiveCapabilitySnapshot;
  ic_now : LogicalTime;
}.

Definition intro_call (c : IntroCall) : M CapabilityIntroduction AuthorityError unit :=
  authorize_call (ic_operation c) (ic_resource c) (ic_effect c) (ic_snapshot c) (ic_now c).

(** The outcomes of a sequence of calls on one introduction. *)
Fixpoint intro_run (calls : list IntroCall) (i : CapabilityIntroduction)
    : list (IntroCall * AR unit) :=
  match calls with
  | [] => []
  | c :: calls' => let (i', r) := intro_call c i in (c, r) :: intro_run calls' i'
  end.

Definition authorized (outcomes : list (IntroCall * AR unit)) : list IntroCall :=
  (filter (fun o => o.2 = Ok tt) outcomes).*1.

Section Introductions.

(** What an authorized call has passed. *)
Record call_covered (i : CapabilityIntroduction) (c : IntroCall) : Prop := {
  cc_allows : allows (ci_introduced_authority i) (ic_operation c) (ic_resource c) (ic_effect c) = true;
  cc_revision : es_grant_graph_revision (ic_snapshot c) = ci_grant_graph_revision i;
  cc_support : forall grant, grant ∈ ci_supporting_grant_refs i ->
    has_supporting_grant (ic_snapshot c) grant = true;
  cc_time : ic_now c < ci_expires_at i;
}.

(** The parts of an introduction that no call changes. *)
Definition same_terms (i i' : CapabilityIntroduction) : Prop :=
  ci_introduced_authority i' = ci_introduced_authority i /\
  ci_grant_graph_revision i' = ci_grant_graph_revision i /\
  ci_supporting_grant_refs i' = ci_supporting_grant_refs i /\
  ci_expires_at i' = ci_expires_at i.

Lemma supports_all s refs :
  existsb (fun grant => negb (has_supporting_grant s grant)) (btree_set_iter refs) = false ->
  forall grant, grant ∈ refs -> has_supporting_grant s grant = true.
Proof.
  rewrite existsb_false_iff, Forall_forall. intros H grant Hg. apply negb_false_iff, H.
  unfold btree_set_iter. by rewrite merge_sort_Permutation, elem_of_elements.
Qed.

Lemma allows_intro a operation resource effect :
  operation ∈ as_operations a -> resource ∈ as_resources a ->
  (grant_effect_rank (as_max_effect a) <? grant_effect_rank effect) = false ->
  allows a operation resource effect = true.
Proof. intros Ho Hr He. unfold allows. rewrite !bool_decide_eq_true_2 by done. simpl. lia. Qed.

Lemma intro_call_spec c i :
  let (i', r) := intro_call c i in
  same_terms i i' /\
  match r with
  | Ok _ => call_covered i c /\ ci_remaining_calls i <> 0 /\
            ci_remaining_calls i' = ci_remaining_calls i - 1
  | Err _ => ci_remaining_calls i' = ci_remaining_calls i
  end.
Proof.
  unfold intro_call, authorize_call, intro_guard, mseq, mstate, mlift, mmodify, mthrow, mret_ok, guard_err.
  destruct (ci_status i != IActive); [done|].
  destruct (ci_expires_at i <=? ic_now c) eqn:Htime; [done|].
  destruct (ci_remaining_calls i =? 0) eqn:Hrem; [done|].
  destruct (snapshot_validate_context _ _ _); [|done].
  destruct (_ || existsb _ _) eqn:Hstale; [done|].
  destruct (negb (bool_decide (_ ∈ as_operations _))) eqn:Hop; [done|].
  destruct (negb (bool_decide (_ ∈ as_resources _))) eqn:Hres; [done|].
  destruct (_ <? grant_effect_rank _) eqn:Heff; [done|].
  bool_facts. split; [done|]. split_and!; [|lia|done].
  split; [by apply allows_intro|lia|by apply supports_all|lia].
Qed.

Lemma covered_terms i i' c : same_terms i i' -> call_covered i' c -> call_covered i c.
Proof. intros (H1 & H2 & H3 & H4) []. rewrite ?H1, ?H2, ?H3, ?H4 in *. by split. Qed.

Lemma intro_run_spec calls : forall i,
  0 <= ci_remaining_calls i ->
  Z.of_nat (length (authorized (intro_run calls i))) <= ci_remaining_calls i /\
  (forall c, c ∈ authorized (intro_run calls i) -> call_covered i c).
Proof.
  induction calls as [|c calls IH]; intros i Hi; simpl; [split; [done|set_solver]|].
  pose proof (intro_call_spec c i) as Hs. destruct (intro_call c i) as [i' r].
  destruct Hs as [Hsame Hr]. destruct r as [[]|e].
  - destruct Hr as (Hcov & Hne & Hrem). destruct (IH i' ltac:(lia)) as [Hlen Hall].
    unfold authorized in *. rewrite filter_cons_True by done. cbn [fmap list_fmap length fst].
    split; [lia|]. intros x [->|Hx]%elem_of_cons; [done|]. by eapply covered_terms, Hall.
  - destruct (IH i' ltac:(lia)) as [Hlen Hall].
    unfold authorized in *. rewrite filter_cons_False by done.
    split; [lia|]. intros x Hx. by eapply covered_terms, Hall.
Qed.
End Introductions.

(** An introduction authorizes at most its budget of calls, whatever calls are
    made; each authorized call is for an operation, resource and effect inside
    the introduced authority, which one single path of the snapshot it was
    compiled from covers together with all its supporting grants, and is made
    before its expiry against a snapshot of the same graph revision. *)
Theorem introduction_bounded (introduction_id : IntroductionId) (holder : PrincipalRef)
    (supporting : list GrantId) (resource_handle facet_manifest_ref : string)
    (introduced : AuthoritySet) (snapshot : EffectiveCapabilitySnapshot) (expires_at : LogicalTime)
    (max_calls : Z) (i : CapabilityIntroduction) (calls : list IntroCall) :
  0 <= max_calls ->
  introduction_compile introduction_id holder supporting resource_handle facet_manifest_ref
    introduced snapshot expires_at max_calls = Ok i ->
  Z.of_nat (length (authorized (intro_run calls i))) <= max_calls /\
  exists path, path ∈ es_paths snapshot /\ authority_le introduced (ep_authority path) /\
    (forall grant, grant ∈ supporting -> grant ∈ ep_grant_path path) /\
    forall c, c ∈ authorized (intro_run calls i) ->
      allows introduced (ic_operation c) (ic_resource c) (ic_effect c) = true /\
      allows (ep_authority path) (ic_operation c) (ic_resource c) (ic_effect c) = true /\
      es_grant_graph_revision (ic_snapshot c) = es_grant_graph_revision snapshot /\
      ic_now c < expires_at.
Proof.
  intros Hmax H. unfold introduction_compile in H. do 4 apply check_ok in H as [_ H].
  apply check_guard_ok in H as [Hcov [= <-]].
  match goal with |- context [intro_run calls ?x] => set (i := x) end.
  destruct (intro_run_spec calls i Hmax) as [Hlen Hall]. split; [exact Hlen|].
  apply negb_false_iff, existsb_exists in Hcov as (path & Hp & Hc).
  apply andb_true_iff in Hc as [Hsup Hle]. rewrite forallb_true_iff, Forall_forall in Hsup.
  exists path. split_and!; [by apply list_elem_of_In|exact Hle| |].
  - intros grant Hg. eapply bool_decide_eq_true, Hsup. unfold btree_set_iter.
    by rewrite merge_sort_Permutation, elem_of_elements, elem_of_list_to_set.
  - intros c Hc. destruct (Hall c Hc) as [Ha Hrev _ Ht]. split_and!; [done| |done|done].
    by eapply allows_mono.
Qed.

Section IntroSample.
(** The snapshot of a holder at a time, where it is produced. *)
Definition sample_snapshot (g : GrantGraph) (holder : PrincipalRef) (now : LogicalTime)
    : EffectiveCapabilitySnapshot :=
  match graph_snapshot g "snapshot-1" holder sample_scope sample_session now with
  | Some (Ok s) => s
  | _ => {| es_snapshot_id := ""; es_holder := ""; es_work_scope := sample_scope;
            es_session := sample_session; es_grant_graph_revision := 0; es_paths := [] |}
  end.

Definition sample_intro : CapabilityIntroduction :=
  {| ci_introduction_id := "intro-1"; ci_holder := "carol";
     ci_supporting_grant_refs := {["g-root"]}; ci_resource_handle := "handle";
     ci_facet_manifest_ref := "facet"; ci_introduced_authority := cg_authority sample_leaf;
     ci_work_scope := sample_scope; ci_session := sample_session; ci_grant_graph_revision := 1;
     ci_expires_at := 200; ci_remaining_calls := 2; ci_status := IActive |}.

Definition read_call (now : LogicalTime) : IntroCall :=
  {| ic_operation := "read"; ic_resource := "repo"; ic_effect := Read;
     ic_snapshot := sample_snapshot sample_graph "carol" now; ic_now := now |}.

Lemma sample_intro_compiled :
  introduction_compile "intro-1" "carol" ["g-root"] "handle" "facet" (cg_authority sample_leaf)
    (sample_snapshot sample_graph "carol" 10) 200 2 = Ok sample_intro.
Proof. by vm_compute. Qed.
End IntroSample.

Lemma introduction_bounded_witness :
  Z.of_nat (length (authorized (intro_run [read_call 10; read_call 20; read_call 30] sample_intro)))
    <= 2 /\
  snd <$> intro_run [read_call 10; read_call 20; read_call 30] sample_intro
  = [Ok tt; Ok tt; Err ARevoked].
Proof.
  split; [|by vm_compute].
  assert (H2 : 0 <= 2) by lia.
  exact (proj1 (introduction_bounded "intro-1" "carol" ["g-root"] "handle" "facet"
    (cg_authority sample_leaf) (sample_snapshot sample_graph "carol" 10) 200 2 sample_intro
    [read_call 10; read_call 20; read_call 30] H2 sample_intro_compiled)).
Defined.

(** ** Departures from the description *)

(** A call is authorized against any snapshot of the same revision that still
    shows the supporting grants; the path that covered the introduced
    authority need not be in standing any more. Here the covering grant expired
    at 80 and the snapshot at 90 allows nothing of what the call is allowed. *)
Theorem introduction_outlives_its_path :
  introduction_compile "intro-1" "carol" ["g-root"] "handle" "facet" (cg_authority sample_leaf)
    (sample_snapshot sample_graph "carol" 10) 200 2 = Ok sample_intro /\
  snapshot_allows (sample_snapshot sample_graph "carol" 90) "read" "repo" Read = false /\
  (intro_call (read_call 90) sample_intro).2 = Ok tt.
Proof. split_and!; by vm_compute. Qed.

(** The refusal of a declared closure at the last revision comes after the
    fence: the members are revoked although the call fails. *)
Theorem refused_closure_still_revokes (g : GrantGraph) (target member : GrantId) :
  gg_revision g = u64_max -> is_Some (gg_grants g !! target) -> is_Some (gg_grants g !! member) ->
  text_ok member = true ->
  revoke_declared_closure target [member] g
  = (set_revoked ({[member]} ∪ gg_revoked g) g, Err (AInvalidField "grant_graph_revision")).
Proof.
  intros Hrev [gt Ht] [gm Hm] Htext.
  unfold revoke_declared_closure, mseq, mstate, mlift, mmodify. rewrite Ht. simpl.
  unfold resolve_member. rewrite (proj2 (GrantId_new_ok member member)) by done. simpl. rewrite Hm.
  simpl. rewrite bump_revision_state. simpl. rewrite Hrev.
  replace (checked_add u64_max 1) with (@None Z) by done.
  by rewrite union_empty_r_L.
Qed.

Lemma refused_closure_still_revokes_witness :
  let g := set_revision u64_max sample_graph in
  "g-mid" ∉ gg_revoked g /\
  "g-mid" ∈ gg_revoked (revoke_declared_closure "g-mid" ["g-mid"] g).1.
Proof.
  intros g. split; [by vm_compute|].
  rewrite (refused_closure_still_revokes g "g-mid" "g-mid"); [set_solver|done| | |by vm_compute];
    (exists sample_mid; by vm_compute).
Defined.

Section Quarantine.
(** A snapshot with a cross-root child [g-x] of the root grant, and below it a
    grant [g-y] on the child's own root. *)
Definition crossing : CapabilityGrant :=
  sample_grant "g-x" (Some "g-root") "root-b" "alice" "bob" ["read"; "write"] 90.
Definition below_crossing : CapabilityGrant :=
  sample_grant "g-y" (Some "g-x") "root-b" "bob" "carol" ["read"] 80.

Definition snapshot_of (grants : list CapabilityGrant) : GrantGraphRecoverySnapshot :=
  {| rs_schema := GRANT_GRAPH_RECOVERY_SCHEMA; rs_version := GRANT_GRAPH_RECOVERY_VERSION;
     rs_revision := 1; rs_grants := grant_to_recovery_record <$> grants; rs_revoked := [];
     rs_admitted_root_transitions := []; rs_quarantined_cross_root := [] |}.

(** Two crossings whose relation identifiers coincide: parent [a] with child
    [b:c] and parent [a:b] with child [c]. *)
Definition parent_a : CapabilityGrant :=
  sample_grant "a" None "root-a" "owner" "alice" ["read"; "write"] 100.
Definition parent_ab : CapabilityGrant :=
  sample_grant "a:b" None "root-a" "owner" "alice" ["read"; "write"] 100.
Definition child_bc : CapabilityGrant :=
  sample_grant "b:c" (Some "a") "root-b" "alice" "bob" ["read"] 90.
Definition child_c : CapabilityGrant :=
  sample_grant "c" (Some "a:b") "root-b" "alice" "bob" ["read"] 90.
End Quarantine.

(** Restoring a snapshot migrates a cross-root child and everything below it
    to quarantine; a descendant on the child's own root is then refused by the
    check of the next snapshot, because its edge does not cross a root. Such a
    graph can be restored but not saved again. *)
Theorem quarantined_descendant_blocks_snapshot :
  exists g, from_recovery_snapshot (snapshot_of [sample_root; crossing; below_crossing]) = Ok g /\
    recovery_snapshot g = Err (AInvalidField "quarantined_cross_root.edge").
Proof.
  destruct (from_recovery_snapshot (snapshot_of [sample_root; crossing; below_crossing]))
    as [g|e] eqn:H; [|vm_compute in H; discriminate].
  exists g. split; [done|]. vm_compute in H. injection H as <-. by vm_compute.
Qed.

(** Quarantined relations are filed under an identifier that joins the two
    grant identifiers with a colon, which grant identifiers may contain: of two
    relations with one identifier the second replaces the first, and the grant
    of the first is in neither part of the restored graph. *)
Theorem quarantine_identifier_collision :
  quarantine_relation_id "a" "b:c" = quarantine_relation_id "a:b" "c" /\
  exists g, from_recovery_snapshot (snapshot_of [parent_a; parent_ab; child_bc; child_c]) = Ok g /\
    gg_grants g !! "b:c" = None /\ find_quarantined g "b:c" = None.
Proof.
  split; [done|].
  destruct (from_recovery_snapshot (snapshot_of [parent_a; parent_ab; child_bc; child_c]))
    as [g|e] eqn:H; [|vm_compute in H; discriminate].
  exists g. vm_compute in H. injection H as <-. split_and!; by vm_compute.
Qed.

(** ** Root transitions

    What a crossing has to prove before it becomes executable authority, as
    propositions on the record, the receipt and the live grants that share no
    check with the code. *)

Definition effects_up_to (e : EffectClass) : list EffectClass :=
  match e with
  | Read => [Read]
  | Candidate => [Read; Candidate]
  | ReversibleMutation => [Read; Candidate; ReversibleMutation]
  | ExternalEffect => [Read; Candidate; ReversibleMutation; ExternalEffect]
  end.

(** The child holds strictly less authority than the parent, handed to it by
    the parent's holder, for no longer and no more often. *)
Record narrows (parent child : CapabilityGrant) : Prop := {
  nw_issuer : cg_issuer child = cg_holder parent;
  nw_operations : as_operations (cg_authority child) ⊆ as_operations (cg_authority parent);
  nw_resources : as_resources (cg_authority child) ⊆ as_resources (cg_authority parent);
  nw_effect : as_max_effect (cg_authority child) ∈ effects_up_to (as_max_effect (cg_authority parent));
  nw_strict : as_operations (cg_authority child) <> as_operations (cg_authority parent) \/
              as_resources (cg_authority child) <> as_resources (cg_authority parent) \/
              as_max_effect (cg_authority child) <> as_max_effect (cg_authority parent);
  nw_lifetime : cg_expires_at child <= cg_expires_at parent;
  nw_uses : cg_max_uses child <= cg_max_uses parent;
}.

(** The record describes a crossing: named, between two roots, digests for
    commitments, revisions in order, and a fence of its own epoch. *)
Record crossing_shape (r : RootTransitionRecord) : Prop := {
  sh_texts : Forall plain_text
    [rt_transition_id r; rt_operation_id r; rt_idempotency_key r; rt_parent_grant_id r;
     rt_child_grant_id r; rt_from_authority_root_ref r; rt_to_authority_root_ref r; rt_issuer r;
     rt_graph_snapshot_id r; rt_policy_revision r; rt_semantic_decision_ref r];
  sh_digests : hex_digest (rt_parent_grant_commitment r) /\ hex_digest (rt_child_grant_commitment r);
  sh_roots : rt_from_authority_root_ref r <> rt_to_authority_root_ref r;
  sh_revisions : rt_predecessor_graph_revision r <> 0 /\ rt_admitted_at_revision r <> 0 /\
    rt_predecessor_graph_revision r < rt_expected_next_graph_revision r;
  sh_fence : resource_generation (ab_state_fence (rt_binding r)) <> 0 /\
    ab_authority_epoch (rt_binding r) = authority_epoch (ab_state_fence (rt_binding r));
}.

(** The receipt is a committed activation of exactly this record, with an
    active kernel activation for its snapshot and epoch. *)
Record receipt_proves (s : RootTransitionActivationReceipt) (r : RootTransitionRecord)
    (digest : string) : Prop := {
  rp_schema : rr_schema s = "eliot.authority.root-transition-activation" /\ rr_version s = 1;
  rp_operation : rr_transition_id s = rt_transition_id r /\ rr_operation_id s = rt_operation_id r /\
    rr_canonical_request_digest s = digest;
  rp_grants : rr_parent_grant_id s = rt_parent_grant_id r /\
    rr_child_grant_id s = rt_child_grant_id r /\
    rr_parent_grant_commitment s = rt_parent_grant_commitment r /\
    rr_child_grant_commitment s = rt_child_grant_commitment r;
  rp_roots : rr_from_authority_root_ref s = rt_from_authority_root_ref r /\
    rr_to_authority_root_ref s = rt_to_authority_root_ref r;
  rp_snapshot : rr_graph_snapshot_id s = rt_graph_snapshot_id r /\
    rr_admitted_graph_revision s <> 0 /\
    rt_predecessor_graph_revision r <= rr_admitted_graph_revision s;
  rp_binding : rr_binding s = rt_binding r;
  rp_kernel : ka_state (rr_kernel_activation s) = SActive /\
    plain_text (ka_activation_id (rr_kernel_activation s)) /\
    ka_snapshot_id (rr_kernel_activation s) = rt_graph_snapshot_id r /\
    ka_authority_epoch (rr_kernel_activation s) = authority_epoch (ab_state_fence (rt_binding r));
  rp_ors : plain_text (rr_ors_record_ref s);
  rp_committed : rr_disposition s = Committed;
}.

Section RootTransitions.
Context (sha256 : list Z -> list Z) (grant_json : GrantRecoveryRecord -> option (list Z)).

(** The commitment digests the whole grant, every field of it. *)
Definition commits_to (g : CapabilityGrant) (commitment : string) : Prop :=
  exists bytes,
    grant_json {| gr_grant_id := cg_grant_id g; gr_parent_grant_id := cg_parent_grant_id g;
                  gr_authority_root_ref := cg_authority_root_ref g; gr_issuer := cg_issuer g;
                  gr_holder := cg_holder g;
                  gr_allowed_operations := btree_set_iter (as_operations (cg_authority g));
                  gr_allowed_resources := btree_set_iter (as_resources (cg_authority g));
                  gr_max_effect := as_max_effect (cg_authority g);
                  gr_inherited_source_ceiling := cg_inherited_source_ceiling g;
                  gr_binding := cg_binding g; gr_issued_at := cg_issued_at g;
                  gr_expires_at := cg_expires_at g; gr_max_uses := cg_max_uses g;
                  gr_status := cg_status g |} = Some bytes /\
    commitment = hex_encode (sha256 bytes).

(** The record still stands against the owner's current state: the decision
    the owner retains under its reference is this very record, the policy,
    fence and epoch are the current ones, and it describes the live edge. *)
Record crossing_current (r : RootTransitionRecord) (parent child : CapabilityGrant)
    (current_revision : Z) (current_fence : StateFence) (readback : CurrentTransitionReadback)
    : Prop := {
  xc_decision : rb_semantic_decisions readback !! rt_semantic_decision_ref r = Some r;
  xc_policy : rt_policy_revision r = rb_policy_revision readback;
  xc_edge : cg_grant_id child = rt_child_grant_id r /\
    cg_parent_grant_id child = Some (cg_grant_id parent);
  xc_roots : cg_authority_root_ref parent = rt_from_authority_root_ref r /\
    cg_authority_root_ref child = rt_to_authority_root_ref r;
  xc_issuer : cg_holder parent = rt_issuer r;
  xc_narrows : narrows parent child;
  xc_fence : ab_state_fence (cg_binding child) = current_fence /\
    ab_state_fence (rt_binding r) = current_fence /\
    ab_authority_epoch (rt_binding r) = ab_authority_epoch (cg_binding child);
  xc_commitments : commits_to parent (rt_parent_grant_commitment r) /\
    commits_to child (rt_child_grant_commitment r);
  xc_ceiling : rt_effect_ceiling r ∈ effects_up_to (as_max_effect (cg_authority child)) /\
    rt_effect_ceiling r ∈ effects_up_to (ab_allowed_effect (rt_binding r));
  xc_revision : rt_admitted_at_revision r <= current_revision;
}.

Lemma effects_up_to_rank a b : grant_effect_rank a <= grant_effect_rank b <-> a ∈ effects_up_to b.
Proof.
  destruct a, b; simpl; rewrite ?elem_of_cons, ?elem_of_nil; split;
    first [intros H; exfalso; lia | naive_solver lia].
Qed.

Lemma check_narrowing_narrows parent child :
  check_narrowing parent child = Ok tt -> narrows parent child.
Proof.
  unfold check_narrowing, is_strict_subset_of, is_subset_of. rewrite guard_err_ok. intros H.
  bool_facts. split; try done; try lia; [by apply effects_up_to_rank; lia|].
  destruct (cg_authority child) as [o1 r1 e1], (cg_authority parent) as [o2 r2 e2]. simpl in *.
  destruct (decide (o1 = o2)), (decide (r1 = r2)); auto. right. right. congruence.
Qed.

Lemma authority_text_plain t field : authority_text t field = Ok tt <-> plain_text t.
Proof. unfold authority_text. by rewrite guard_err_ok, plain_text_check. Qed.

Lemma authority_digest_hex t field : authority_digest t field = Ok tt <-> hex_digest t.
Proof.
  unfold authority_digest. rewrite guard_err_ok. apply hex_digest_check. intros b.
  unfold is_lower_hex, is_ascii_hexdigit, is_ascii_uppercase, is_ascii_digit. lia.
Qed.

Lemma validate_shape_crossing r : validate_shape r = Ok tt -> crossing_shape r.
Proof.
  unfold validate_shape. rewrite !check_ok, for_each_ok, !authority_digest_hex, !guard_err_ok.
  unfold fence_check. rewrite map_err_ok, StateFence_validate_ok.
  intros (Ht & Hd1 & Hd2 & Hr & Hrev & Hf & He). bool_facts.
  split; try done; [|split_and!; lia].
  rewrite !Forall_cons, !Forall_nil in *. simpl in Ht. by rewrite !authority_text_plain in Ht.
Qed.

Lemma grant_commitment_commits g c :
  grant_commitment sha256 grant_json g = Ok c -> commits_to g c.
Proof.
  unfold grant_commitment. intros (bytes & Hb & [= <-])%rbind_ok. exists bytes.
  by destruct (grant_json _) as [x|] eqn:E; simplify_eq/=.
Qed.

Lemma admit_record_current record digest kid ors disposition parent child revision fence
    readback t :
  transition_admit_record sha256 grant_json record digest kid ors disposition parent child revision
    fence readback = Ok t ->
  t = {| at_record := record; at_canonical_request_digest := digest;
         at_kernel_activation_id := kid; at_ors_record_ref := ors; at_disposition := disposition |} /\
  hex_digest digest /\ crossing_shape record /\
  crossing_current record parent child revision fence readback.
Proof.
  intros H. unfold transition_admit_record in H. apply check_ok in H as [Hshape H].
  apply validate_shape_crossing in Hshape. apply check_ok in H as [Hdig H].
  apply authority_digest_hex in Hdig. do 2 apply check_ok in H as [_ H].
  apply rbind_ok in H as (retained & Hret & H). apply check_guard_ok in H as [Hdec H].
  apply check_guard_ok in H as [Hedge H]. apply check_guard_ok in H as [Hroots H].
  apply check_guard_ok in H as [Hiss H]. apply check_ok in H as [Hn H].
  apply check_guard_ok in H as [Hf1 H]. apply check_guard_ok in H as [Hep H].
  apply check_guard_ok in H as [Hf2 H]. apply check_guard_ok in H as [Hpol H].
  apply rbind_ok in H as (pc & Hpc & H). apply check_ok in H as [Hcom H].
  apply check_guard_ok in H as [Hceil H]. apply check_guard_ok in H as [Hrev [= <-]].
  destruct (rt_parent_grant_commitment record != pc) eqn:Hp; [done|].
  apply rbind_ok in Hcom as (cc & Hcc & Hcom). apply guard_err_ok in Hcom.
  apply grant_commitment_commits in Hpc, Hcc. apply check_narrowing_narrows in Hn. bool_facts.
  apply is_same_authority_eq in Hep. subst.
  split_and!; [done|done|done|]. split; try done.
  - destruct (_ !! _) as [r|] eqn:E; simpl in Hret; [|done]. congruence.
  - split; apply effects_up_to_rank; lia.
  - lia.
Qed.

Lemma validate_against_proves s record digest :
  validate_against_record s record digest = Ok tt ->
  rt_predecessor_graph_revision record <= rr_admitted_graph_revision s ->
  receipt_proves s record digest.
Proof.
  unfold validate_against_record. rewrite !check_ok, !guard_err_ok, for_each_ok.
  intros (Hsch & Ht & Hrev & Heq & Hk & Hk2 & Hd) Hpred. rewrite !Forall_cons in Ht.
  unfold activation_receipt_valid in Hk. bool_facts. rewrite !text_ok_plain in *.
  match goal with H : is_same_authority _ _ = true |- _ => apply is_same_authority_eq in H end.
  unfold ROOT_TRANSITION_RECEIPT_VERSION in *. simpl in Ht. rewrite !authority_text_plain in Ht.
  split; try done; try (split_and!; done || lia); [tauto|].
  by destruct (rr_disposition s).
Qed.
End RootTransitions.

(** C35. A root crossing becomes executable authority only by one of two
    constructors, and both prove the same: a committed receipt for exactly
    this record with an active kernel activation for its snapshot and epoch;
    the decision the owner still retains is this very record; policy, fence
    and epoch are the current ones; the live edge narrows, handed on by the
    parent's holder; both commitments digest every field of the live grants;
    and the effect ceiling stays within the child and the binding. The live
    constructor also demands that the record expects the next graph revision,
    the restoring one that the stored row names the receipt's own digest,
    activation and durable record. *)
Theorem root_transition_admission_sound (sha256 : list Z -> list Z)
    (grant_json : GrantRecoveryRecord -> option (list Z))
    (receipt : RootTransitionActivationReceipt) (parent child : CapabilityGrant)
    (current_revision : Z) (current_fence : StateFence) (readback : CurrentTransitionReadback)
    (t : AdmittedRootTransition) :
  (forall request,
     transition_admit sha256 grant_json request receipt parent child current_revision current_fence
       readback = Ok t ->
     let record := rq_record request in
     receipt_proves receipt record (rq_canonical_request_digest request) /\
     crossing_shape record /\
     crossing_current sha256 grant_json record parent child current_revision current_fence readback /\
     rt_expected_next_graph_revision record = wrap_u64 (current_revision + 1) /\
     t = {| at_record := record;
            at_canonical_request_digest := rq_canonical_request_digest request;
            at_kernel_activation_id := ka_activation_id (rr_kernel_activation receipt);
            at_ors_record_ref := rr_ors_record_ref receipt; at_disposition := Committed |}) /\
  (forall row,
     transition_admit_restored sha256 grant_json row receipt parent child current_revision
       current_fence readback = Ok t ->
     let record := ar_record row in
     receipt_proves receipt record (ar_canonical_request_digest row) /\
     crossing_shape record /\
     crossing_current sha256 grant_json record parent child current_revision current_fence readback /\
     ar_kernel_activation_id row = ka_activation_id (rr_kernel_activation receipt) /\
     ar_ors_record_ref row = rr_ors_record_ref receipt /\
     t = {| at_record := record; at_canonical_request_digest := ar_canonical_request_digest row;
            at_kernel_activation_id := ka_activation_id (rr_kernel_activation receipt);
            at_ors_record_ref := rr_ors_record_ref receipt; at_disposition := Committed |}).
Proof.
  split.
  - intros request H. unfold transition_admit in H. apply check_ok in H as [Hrec H].
    apply rbind_ok in H as (a & Ha & H). apply check_guard_ok in H as [Hrev [= <-]].
    apply admit_record_current in Ha as (-> & _ & Hshape & Hcur). bool_facts.
    apply validate_against_proves in Hrec; [|lia]. rewrite (rp_committed _ _ _ Hrec).
    split_and!; try done. lia.
  - intros row H. unfold transition_admit_restored, validate_restored in H.
    apply check_ok in H as [Hrec H]. apply check_guard_ok in Hrec as [Hids Hrec].
    apply rbind_ok in H as (a & Ha & H). apply check_guard_ok in H as [Hrev [= <-]].
    apply admit_record_current in Ha as (-> & _ & Hshape & Hcur). bool_facts.
    apply validate_against_proves in Hrec; [|lia]. rewrite (rp_committed _ _ _ Hrec).
    split_and!; try done; congruence.
Qed.

Section TransitionSample.
Definition sample_commitment : string :=
  "0000000000000000000000000000000000000000000000000000000000000000".

Definition sample_transition : RootTransitionRecord :=
  {| rt_transition_id := "t-1"; rt_operation_id := "op-1"; rt_idempotency_key := "key-1";
     rt_parent_grant_id := "g-root"; rt_child_grant_id := "g-x";
     rt_parent_grant_commitment := sample_commitment;
     rt_child_grant_commitment := sample_commitment;
     rt_from_authority_root_ref := "root-a"; rt_to_authority_root_ref := "root-b";
     rt_issuer := "alice"; rt_graph_snapshot_id := "snap-1"; rt_predecessor_graph_revision := 1;
     rt_expected_next_graph_revision := 2; rt_admitted_at_revision := 1;
     rt_policy_revision := "policy-1"; rt_deadline_unix_ms := 0; rt_effect_ceiling := Read;
     rt_semantic_decision_ref := "decision-1"; rt_binding := sample_binding |}.

Definition sample_request : RootTransitionActivationRequest :=
  {| rq_record := sample_transition;
     rq_subject := {| su_principal := "alice"; su_session_id := "session-1"; su_scope_id := "scope-1" |};
     rq_canonical_request_digest := sample_commitment; rq_snapshot_id := "snap-1" |}.

Definition sample_receipt : RootTransitionActivationReceipt :=
  {| rr_schema := ROOT_TRANSITION_RECEIPT_SCHEMA; rr_version := 1; rr_transition_id := "t-1";
     rr_operation_id := "op-1"; rr_canonical_request_digest := sample_commitment;
     rr_parent_grant_id := "g-root"; rr_child_grant_id := "g-x";
     rr_parent_grant_commitment := sample_commitment;
     rr_child_grant_commitment := sample_commitment;
     rr_from_authority_root_ref := "root-a"; rr_to_authority_root_ref := "root-b";
     rr_graph_snapshot_id := "snap-1"; rr_admitted_graph_revision := 1; rr_binding := sample_binding;
     rr_kernel_activation :=
       {| ka_activation_id := "activation-1"; ka_snapshot_id := "snap-1";
          ka_authority_epoch := authority_epoch sample_receipt_fence; ka_state := SActive |};
     rr_ors_record_ref := "ors-1"; rr_disposition := Committed |}.

Definition sample_readback : CurrentTransitionReadback :=
  {| rb_policy_revision := "policy-1";
     rb_semantic_decisions := {["decision-1" := sample_transition]} |}.
End TransitionSample.

Lemma root_transition_admission_sound_witness :
  (exists t, transition_admit zero_sha256 (fun _ => Some []) sample_request sample_receipt sample_root
               crossing 1 sample_receipt_fence sample_readback = Ok t) /\
  receipt_proves sample_receipt sample_transition sample_commitment /\
  narrows sample_root crossing.
Proof.
  destruct (transition_admit zero_sha256 (fun _ => Some []) sample_request sample_receipt sample_root
    crossing 1 sample_receipt_fence sample_readback) as [t|e] eqn:H; [|vm_compute in H; discriminate].
  split; [exists t; reflexivity|].
  destruct (proj1 (root_transition_admission_sound _ _ _ _ _ _ _ _ _) _ H) as (Hp & _ & Hc & _).
  split; [exact Hp|exact (xc_narrows _ _ _ _ _ _ _ _ Hc)].
Defined.

(** The deadline of a transition is never compared with a clock: a record
    whose deadline is the beginning of time is admitted. *)
Example lapsed_transition_admitted :
  rt_deadline_unix_ms sample_transition = 0 /\
  is_ok (transition_admit zero_sha256 (fun _ => Some []) sample_request sample_receipt sample_root
           crossing 1 sample_receipt_fence sample_readback) = true.
Proof. split; vm_compute; reflexivity. Qed.
