(* ===== verification/Effects.v ===== *)
(** * Leases, effects and break-glass authority

    The use of authority in crates/governor/eliot-authority/src: capability
    tokens and action leases (leases.rs), one-shot break-glass authorizations
    (break_glass.rs), and the effect authorizer with its idempotency ledger,
    the contesting of dependent effects, its recovery snapshot and effect
    receipts (effects.rs). The theorems are in EffectsLaws. *)

From Stdlib Require Import Ascii String.
From S2P Require Import Prelude RustText Contracts Receipts Grants.

#[local] Open Scope string_scope.
#[local] Open Scope Z_scope.

Abbreviation LeaseId := string (only parsing).
Abbreviation TokenId := string (only parsing).

(** ** Proposed effects *)

Record ProposedEffect : Type := {
  pe_action_id : string;
  pe_operation : OperationBinding;
  pe_operation_name : string;
  pe_resource_ref : string;
  pe_canonical_payload_sha256 : string;
}.

#[global] Instance ProposedEffect_eq_dec : EqDecision ProposedEffect.
Proof. solve_decision. Defined.

Definition ProposedEffect_new (action_id : string) (operation : OperationBinding)
    (operation_name resource_ref canonical_payload_sha256 : string) : AR ProposedEffect :=
  check? authority_text action_id "action_id";
  check? authority_text operation_name "operation_name";
  check? authority_text resource_ref "resource_ref";
  check? authority_text (op_idempotency_key operation) "idempotency_key";
  check? authority_text (op_operation_kind operation) "operation_kind";
  check? authority_digest canonical_payload_sha256 "canonical_payload_sha256";
  check? fence_check (op_state_fence operation);
  Ok {| pe_action_id := action_id; pe_operation := operation; pe_operation_name := operation_name;
        pe_resource_ref := resource_ref; pe_canonical_payload_sha256 := canonical_payload_sha256 |}.

Inductive ImpactClass : Type :=
| Observe
| Reversible
| Material
| Critical
| Forbidden.

Definition requires_action_model (c : ImpactClass) : bool :=
  match c with Material | Critical => true | _ => false end.

Definition is_forbidden (c : ImpactClass) : bool :=
  match c with Forbidden => true | _ => false end.

Definition effect_rank_for_impact (impact : ImpactClass) : Z :=
  match impact with
  | Observe => grant_effect_rank Read
  | Reversible => grant_effect_rank ReversibleMutation
  | Material | Critical => grant_effect_rank ExternalEffect
  | Forbidden => 0
  end.

Record ActionContract : Type := {
  ac_action_id : string;
  ac_task_id : string;
  ac_intent : string;
  ac_work_scope : WorkScopeBinding;
  ac_authority_ref : string;
  ac_read_set : gset string;
  ac_effect_set : gset string;
  ac_impact_class : ImpactClass;
  ac_preserved_invariants : gset string;
  ac_expected_observable : string;
  ac_verifier_ref : string;
  ac_rollback_or_compensation : string;
  ac_stop_conditions : gset string;
}.

(** The checks of [ActionContract::new] on the assembled contract. *)
Definition ActionContract_new (contract : ActionContract) : AR ActionContract :=
  check? for_each (fun p : string * string => authority_text p.1 p.2)
    [(ac_action_id contract, "action_id");
     (ac_task_id contract, "task_id");
     (ac_intent contract, "intent");
     (ac_authority_ref contract, "authority_ref");
     (ac_expected_observable contract, "expected_observable");
     (ac_verifier_ref contract, "verifier_ref");
     (ac_rollback_or_compensation contract, "rollback_or_compensation")];
  check? guard_err ((ac_effect_set contract == ∅) || (ac_stop_conditions contract == ∅))
    (AInvalidField "effect_set_or_stop_conditions");
  check? for_each (fun value => authority_text value "action_contract_set")
    (btree_set_iter (ac_read_set contract) ++ btree_set_iter (ac_effect_set contract)
     ++ btree_set_iter (ac_preserved_invariants contract)
     ++ btree_set_iter (ac_stop_conditions contract))%list;
  check? fence_check (ws_state_fence (ac_work_scope contract));
  Ok contract.

(** ** Bindings, tokens and leases *)

(** [leases.rs: validate_bindings] *)
Definition lease_bindings (authority : AuthorityBinding) (work_scope : WorkScopeBinding)
    (session : SessionBinding) : AR unit :=
  check? fence_check (ab_state_fence authority);
  check? guard_err ((ab_state_fence authority != ws_state_fence work_scope)
                    || (ab_state_fence authority != sb_state_fence session)) AFenceMismatch;
  guard_err (negb (is_same_authority (ab_authority_epoch authority) (sb_authority_epoch session))
             || negb (is_same_authority (ab_authority_epoch authority)
                        (authority_epoch (ab_state_fence authority)))) AEpochMismatch.

Record CapabilityToken : Type := {
  ct_token_id : TokenId;
  ct_holder : PrincipalRef;
  ct_authority_set : AuthoritySet;
  ct_authority_binding : AuthorityBinding;
  ct_work_scope : WorkScopeBinding;
  ct_session : SessionBinding;
  ct_expires_at : LogicalTime;
  ct_remaining_uses : Z;
  ct_receipt_obligations : list ReceiptObligation;
  ct_revoked : bool;
}.

(** The checks [CapabilityToken::new] and [ActionLease::new] share. *)
Definition authority_limits (authority_set : AuthoritySet) (authority_binding : AuthorityBinding)
    (max_uses : Z) (receipt_obligations : list ReceiptObligation) (field : string) : AR unit :=
  check? guard_err ((max_uses =? 0) || (receipt_obligations == [])) (AInvalidField field);
  check? for_each obligation_validate receipt_obligations;
  guard_err (grant_effect_rank (ab_allowed_effect authority_binding)
               <? grant_effect_rank (as_max_effect authority_set)) EffectCeilingExceeded.

Definition CapabilityToken_new (token_id : TokenId) (holder : PrincipalRef)
    (authority_set : AuthoritySet) (authority_binding : AuthorityBinding)
    (work_scope : WorkScopeBinding) (session : SessionBinding) (expires_at : LogicalTime)
    (max_uses : Z) (receipt_obligations : list ReceiptObligation) : AR CapabilityToken :=
  check? lease_bindings authority_binding work_scope session;
  check? authority_limits authority_set authority_binding max_uses receipt_obligations
    "token_budget_or_obligations";
  Ok {| ct_token_id := token_id; ct_holder := holder; ct_authority_set := authority_set;
        ct_authority_binding := authority_binding; ct_work_scope := work_scope;
        ct_session := session; ct_expires_at := expires_at; ct_remaining_uses := max_uses;
        ct_receipt_obligations := receipt_obligations; ct_revoked := false |}.

Definition set_token (revoked : bool) (remaining : Z) (t : CapabilityToken) : CapabilityToken :=
  {| ct_token_id := ct_token_id t; ct_holder := ct_holder t;
     ct_authority_set := ct_authority_set t; ct_authority_binding := ct_authority_binding t;
     ct_work_scope := ct_work_scope t; ct_session := ct_session t;
     ct_expires_at := ct_expires_at t; ct_remaining_uses := remaining;
     ct_receipt_obligations := ct_receipt_obligations t; ct_revoked := revoked |}.

(** [CapabilityToken::validate_current] *)
Definition token_validate_current (t : CapabilityToken) (work_scope : WorkScopeBinding)
    (session : SessionBinding) (now : LogicalTime) : AR unit :=
  check? guard_err (ct_revoked t) ARevoked;
  check? guard_err (ct_expires_at t <=? now) AExpired;
  check? guard_err (ct_remaining_uses t =? 0) UseBudgetExhausted;
  check? lease_bindings (ct_authority_binding t) work_scope session;
  guard_err ((ws_state_fence (ct_work_scope t) != ws_state_fence work_scope)
             || (sb_session_id (ct_session t) != sb_session_id session)) AFenceMismatch.

Definition token_consume (operation resource : string) (effect : EffectClass)
    (work_scope : WorkScopeBinding) (session : SessionBinding) (now : LogicalTime)
    : M CapabilityToken AuthorityError unit :=
  let! t := mstate in
  do! mlift (token_validate_current t work_scope session now);
  do! mlift (guard_err (negb (bool_decide (operation ∈ as_operations (ct_authority_set t))))
               UnauthorizedOperation);
  do! mlift (guard_err (negb (bool_decide (resource ∈ as_resources (ct_authority_set t))))
               UnauthorizedResource);
  do! mlift (guard_err (negb (allows (ct_authority_set t) operation resource effect))
               EffectCeilingExceeded);
  mmodify (set_token (ct_revoked t) (ct_remaining_uses t - 1)).

Definition token_revoke (t : CapabilityToken) : CapabilityToken :=
  set_token true (ct_remaining_uses t) t.

Record ActionLease : Type := {
  al_lease_id : LeaseId;
  al_holder : PrincipalRef;
  al_exact_idempotency_key : string;
  al_authority_set : AuthoritySet;
  al_authority_binding : AuthorityBinding;
  al_work_scope : WorkScopeBinding;
  al_session : SessionBinding;
  al_expires_at : LogicalTime;
  al_remaining_uses : Z;
  al_receipt_obligations : list ReceiptObligation;
  al_revoked : bool;
}.

Definition ActionLease_new (lease_id : LeaseId) (holder : PrincipalRef)
    (exact_idempotency_key : string) (authority_set : AuthoritySet)
    (authority_binding : AuthorityBinding) (work_scope : WorkScopeBinding)
    (session : SessionBinding) (expires_at : LogicalTime) (max_uses : Z)
    (receipt_obligations : list ReceiptObligation) : AR ActionLease :=
  check? authority_text exact_idempotency_key "exact_idempotency_key";
  check? lease_bindings authority_binding work_scope session;
  check? authority_limits authority_set authority_binding max_uses receipt_obligations
    "lease_budget_or_obligations";
  Ok {| al_lease_id := lease_id; al_holder := holder;
        al_exact_idempotency_key := exact_idempotency_key; al_authority_set := authority_set;
        al_authority_binding := authority_binding; al_work_scope := work_scope;
        al_session := session; al_expires_at := expires_at; al_remaining_uses := max_uses;
        al_receipt_obligations := receipt_obligations; al_revoked := false |}.

Definition set_lease (revoked : bool) (remaining : Z) (l : ActionLease) : ActionLease :=
  {| al_lease_id := al_lease_id l; al_holder := al_holder l;
     al_exact_idempotency_key := al_exact_idempotency_key l;
     al_authority_set := al_authority_set l; al_authority_binding := al_authority_binding l;
     al_work_scope := al_work_scope l; al_session := al_session l;
     al_expires_at := al_expires_at l; al_remaining_uses := remaining;
     al_receipt_obligations := al_receipt_obligations l; al_revoked := revoked |}.

Definition lease_revoke (l : ActionLease) : ActionLease := set_lease true (al_remaining_uses l) l.

(** The current binding of a lease and a proposal, tested alike by
    [authorize] and [still_current]. *)
Definition lease_context (l : ActionLease) (proposed : ProposedEffect)
    (work_scope : WorkScopeBinding) (session : SessionBinding) : AR unit :=
  check? lease_bindings (al_authority_binding l) work_scope session;
  check? guard_err ((ws_state_fence (al_work_scope l) != ws_state_fence work_scope)
                    || (sb_session_id (al_session l) != sb_session_id session)
                    || (op_state_fence (pe_operation proposed) != ws_state_fence work_scope))
    AFenceMismatch;
  guard_err (op_idempotency_key (pe_operation proposed) != al_exact_idempotency_key l)
    AIdentityConflict.

(** [ActionLease::authorize] *)
Definition lease_authorize (proposed : ProposedEffect) (work_scope : WorkScopeBinding)
    (session : SessionBinding) (now : LogicalTime) (l : ActionLease) : AR ActionLease :=
  check? guard_err (al_revoked l) ARevoked;
  check? guard_err (al_expires_at l <=? now) AExpired;
  check? guard_err (al_remaining_uses l =? 0) UseBudgetExhausted;
  check? lease_context l proposed work_scope session;
  check? guard_err (negb (bool_decide (pe_operation_name proposed
                                         ∈ as_operations (al_authority_set l))))
    UnauthorizedOperation;
  check? guard_err (negb (bool_decide (pe_resource_ref proposed
                                         ∈ as_resources (al_authority_set l))))
    UnauthorizedResource;
  check? guard_err (negb (allows (al_authority_set l) (pe_operation_name proposed)
                            (pe_resource_ref proposed) (op_effect (pe_operation proposed))))
    EffectCeilingExceeded;
  Ok (set_lease (al_revoked l) (al_remaining_uses l - 1) l).

Definition still_current (l : ActionLease) (proposed : ProposedEffect)
    (work_scope : WorkScopeBinding) (session : SessionBinding) (now : LogicalTime) : AR unit :=
  check? guard_err (al_revoked l) ARevoked;
  check? guard_err (al_expires_at l <=? now) AExpired;
  check? lease_context l proposed work_scope session;
  guard_err (negb (allows (al_authority_set l) (pe_operation_name proposed)
                     (pe_resource_ref proposed) (op_effect (pe_operation proposed))))
    EffectCeilingExceeded.

(** ** Break-glass authorizations *)

Inductive BreakGlassState : Type :=
| BAvailable
| BConsumed
| BRevoked
| BExpired.

#[global] Instance BreakGlassState_eq_dec : EqDecision BreakGlassState.
Proof. solve_decision. Defined.

Record BreakGlassAuthorization : Type := {
  bg_authorization_id : string;
  bg_recovery_principal : PrincipalRef;
  bg_exact_operation : OperationBinding;
  bg_authority_binding : AuthorityBinding;
  bg_work_scope : WorkScopeBinding;
  bg_session : SessionBinding;
  bg_expires_at : LogicalTime;
  bg_audit_obligations : list ReceiptObligation;
  bg_state : BreakGlassState;
}.

Record BreakGlassPermit : Type := {
  bp_authorization_id : string;
  bp_exact_operation : OperationBinding;
  bp_audit_obligations : list ReceiptObligation;
}.

(** [break_glass.rs: validate_binding] *)
Definition break_glass_binding (authority : AuthorityBinding) (work_scope : WorkScopeBinding)
    (session : SessionBinding) : AR unit :=
  check? guard_err ((ab_state_fence authority != ws_state_fence work_scope)
                    || (ab_state_fence authority != sb_state_fence session)) AFenceMismatch;
  guard_err (negb (is_same_authority (ab_authority_epoch authority) (sb_authority_epoch session))
             || negb (is_same_authority (ab_authority_epoch authority)
                        (authority_epoch (ab_state_fence authority)))) AEpochMismatch.

Definition BreakGlassAuthorization_new (authorization_id : string)
    (recovery_principal : PrincipalRef) (exact_operation : OperationBinding)
    (authority_binding : AuthorityBinding) (work_scope : WorkScopeBinding)
    (session : SessionBinding) (expires_at : LogicalTime)
    (audit_obligations : list ReceiptObligation) : AR BreakGlassAuthorization :=
  check? guard_err (audit_obligations == []) (AInvalidField "break_glass_audit_obligations");
  check? for_each obligation_validate audit_obligations;
  check? break_glass_binding authority_binding work_scope session;
  check? guard_err ((op_state_fence exact_operation != ws_state_fence work_scope)
                    || (op_effect exact_operation != ab_allowed_effect authority_binding))
    AFenceMismatch;
  Ok {| bg_authorization_id := authorization_id; bg_recovery_principal := recovery_principal;
        bg_exact_operation := exact_operation; bg_authority_binding := authority_binding;
        bg_work_scope := work_scope; bg_session := session; bg_expires_at := expires_at;
        bg_audit_obligations := audit_obligations; bg_state := BAvailable |}.

Definition set_break_glass (state : BreakGlassState) (b : BreakGlassAuthorization)
    : BreakGlassAuthorization :=
  {| bg_authorization_id := bg_authorization_id b;
     bg_recovery_principal := bg_recovery_principal b;
     bg_exact_operation := bg_exact_operation b; bg_authority_binding := bg_authority_binding b;
     bg_work_scope := bg_work_scope b; bg_session := bg_session b;
     bg_expires_at := bg_expires_at b; bg_audit_obligations := bg_audit_obligations b;
     bg_state := state |}.

Definition authorize_once (principal : PrincipalRef) (operation : OperationBinding)
    (work_scope : WorkScopeBinding) (session : SessionBinding) (now : LogicalTime)
    : M BreakGlassAuthorization AuthorityError BreakGlassPermit :=
  let! b := mstate in
  do! mlift match bg_state b with
            | BAvailable => Ok tt
            | BConsumed => Err AConsumed
            | BRevoked => Err ARevoked
            | BExpired => Err AExpired
            end;
  do! (if bg_expires_at b <=? now
       then do! mmodify (set_break_glass BExpired); mthrow AExpired
       else mret_ok tt);
  do! mlift (break_glass_binding (bg_authority_binding b) work_scope session);
  do! mlift (guard_err ((principal != bg_recovery_principal b)
                        || (operation != bg_exact_operation b)
                        || (ws_state_fence (bg_work_scope b) != ws_state_fence work_scope)
                        || (sb_session_id (bg_session b) != sb_session_id session))
               UnauthorizedOperation);
  do! mmodify (set_break_glass BConsumed);
  mret_ok {| bp_authorization_id := bg_authorization_id b;
             bp_exact_operation := bg_exact_operation b;
             bp_audit_obligations := bg_audit_obligations b |}.

Definition break_glass_revoke (b : BreakGlassAuthorization) : BreakGlassAuthorization :=
  if bg_state b == BAvailable then set_break_glass BRevoked b else b.

(** ** The effect authorizer *)

Record AuthorizedEffect : Type := {
  ae_proposal : ProposedEffect;
  ae_lease_id : LeaseId;
  ae_executor_boundary : string;
  ae_receipt_obligations : list ReceiptObligation;
}.

#[global] Instance AuthorizedEffect_eq_dec : EqDecision AuthorizedEffect.
Proof. solve_decision. Defined.

Record SealedEffectDispatch : Type := {
  sd_authorized : AuthorizedEffect;
}.

Inductive DependentEffectState : Type :=
| Admissible
| Contestable (revoked_roots : gset string)
| Reopened (revoked_roots : gset string).

(** [DependentEffectState::revoked_roots] *)
Definition contested_roots (s : DependentEffectState) : option (gset string) :=
  match s with
  | Admissible => None
  | Contestable roots | Reopened roots => Some roots
  end.

Definition is_contested (s : DependentEffectState) : bool :=
  match s with Admissible => false | _ => true end.

Record ContestedEffectAnnotation : Type := {
  an_idempotency_key : string;
  an_revoked_roots : gset string;
  an_reopened : bool;
}.

Record EffectAuthorizer : Type := {
  ea_authorized_by_idempotency : gmap string AuthorizedEffect;
  ea_contest_state : gmap string DependentEffectState;
  ea_contest_annotations : list ContestedEffectAnnotation;
}.

Definition EffectAuthorizer_default : EffectAuthorizer :=
  {| ea_authorized_by_idempotency := ∅; ea_contest_state := ∅; ea_contest_annotations := [] |}.

Definition EFFECT_AUTHORIZER_RECOVERY_SCHEMA : string :=
  "eliot.authority.effect-authorizer-recovery".
Definition EFFECT_AUTHORIZER_RECOVERY_VERSION : Z := 1.

Record AuthorizedEffectRecoveryRecord : Type := {
  er_idempotency_key : string;
  er_action_id : string;
  er_operation : OperationBinding;
  er_operation_name : string;
  er_resource_ref : string;
  er_canonical_payload_sha256 : string;
  er_lease_id : string;
  er_executor_boundary : string;
  er_receipt_obligations : list ReceiptObligation;
}.

Record EffectAuthorizerRecoverySnapshot : Type := {
  es_schema : string;
  es_version : Z;
  es_records : list AuthorizedEffectRecoveryRecord;
}.

Fixpoint scan_effect_keys (previous : option string) (l : list AuthorizedEffectRecoveryRecord)
    : AR unit :=
  match l with
  | [] => Ok tt
  | record :: l' =>
      check? authority_text (er_idempotency_key record) "idempotency_key";
      check? guard_err match previous with
                       | Some p => bool_decide (String.le (er_idempotency_key record) p)
                       | None => false
                       end (AInvalidField "effect_authorizer_recovery.records");
      scan_effect_keys (Some (er_idempotency_key record)) l'
  end.

Definition effects_validate_wire (s : EffectAuthorizerRecoverySnapshot) : AR unit :=
  check? guard_err (es_schema s != EFFECT_AUTHORIZER_RECOVERY_SCHEMA)
    (AInvalidField "effect_authorizer_recovery.schema");
  check? guard_err (negb (es_version s =? EFFECT_AUTHORIZER_RECOVERY_VERSION))
    (AInvalidField "effect_authorizer_recovery.version");
  scan_effect_keys None (es_records s).

(** The body of the loop of [restore_records]. *)
Definition restore_effect (m : gmap string AuthorizedEffect)
    (record : AuthorizedEffectRecoveryRecord) : AR (gmap string AuthorizedEffect) :=
  check? guard_err (er_idempotency_key record != op_idempotency_key (er_operation record))
    (AInvalidField "effect_authorizer_recovery.idempotency_key");
  let? proposal := ProposedEffect_new (er_action_id record) (er_operation record)
    (er_operation_name record) (er_resource_ref record) (er_canonical_payload_sha256 record) in
  let? lease_id := text_id_new "lease_id" (er_lease_id record) in
  check? guard_err (er_receipt_obligations record == []) (AInvalidField "receipt_obligations");
  check? for_each obligation_validate (er_receipt_obligations record);
  check? authority_text (er_executor_boundary record) "executor_boundary";
  check? guard_err (is_some (m !! er_idempotency_key record)) AIdentityConflict;
  Ok (<[er_idempotency_key record :=
        {| ae_proposal := proposal; ae_lease_id := lease_id;
           ae_executor_boundary := er_executor_boundary record;
           ae_receipt_obligations := er_receipt_obligations record |}]> m).

Definition restore_records (records : list AuthorizedEffectRecoveryRecord) : AR EffectAuthorizer :=
  let? authorized := fold_res restore_effect ∅ records in
  Ok {| ea_authorized_by_idempotency := authorized; ea_contest_state := ∅;
        ea_contest_annotations := [] |}.

Definition effects_validate (s : EffectAuthorizerRecoverySnapshot) : AR unit :=
  check? effects_validate_wire s;
  let? _ := restore_records (es_records s) in Ok tt.

Definition effect_record (kv : string * AuthorizedEffect) : AuthorizedEffectRecoveryRecord :=
  let (idempotency_key, authorized) := kv in
  {| er_idempotency_key := idempotency_key;
     er_action_id := pe_action_id (ae_proposal authorized);
     er_operation := pe_operation (ae_proposal authorized);
     er_operation_name := pe_operation_name (ae_proposal authorized);
     er_resource_ref := pe_resource_ref (ae_proposal authorized);
     er_canonical_payload_sha256 := pe_canonical_payload_sha256 (ae_proposal authorized);
     er_lease_id := ae_lease_id authorized;
     er_executor_boundary := ae_executor_boundary authorized;
     er_receipt_obligations := ae_receipt_obligations authorized |}.

Definition effects_snapshot (a : EffectAuthorizer) : AR EffectAuthorizerRecoverySnapshot :=
  let snapshot := {| es_schema := EFFECT_AUTHORIZER_RECOVERY_SCHEMA;
                     es_version := EFFECT_AUTHORIZER_RECOVERY_VERSION;
                     es_records := effect_record <$> btree_iter (ea_authorized_by_idempotency a) |} in
  check? effects_validate snapshot;
  Ok snapshot.

Definition effects_from_snapshot (s : EffectAuthorizerRecoverySnapshot) : AR EffectAuthorizer :=
  check? effects_validate_wire s;
  restore_records (es_records s).

Definition dependent_revoked_roots (authorized : AuthorizedEffect) (revoked_roots : gset string)
    : gset string :=
  let proposal := ae_proposal authorized in
  list_to_set (filter (fun candidate => candidate ∈ revoked_roots)
    [pe_action_id proposal; pe_operation_name proposal; pe_resource_ref proposal;
     op_operation_kind (pe_operation proposal); op_idempotency_key (pe_operation proposal);
     op_operation_id (pe_operation proposal); op_request_id (pe_operation proposal);
     ae_lease_id authorized; ae_executor_boundary authorized]).

Definition same_logical_effect (existing : AuthorizedEffect) (proposed : ProposedEffect)
    (executor_boundary : string) (lease_id : LeaseId) : bool :=
  (pe_action_id (ae_proposal existing) == pe_action_id proposed)
  && (pe_canonical_payload_sha256 (ae_proposal existing) == pe_canonical_payload_sha256 proposed)
  && (pe_operation_name (ae_proposal existing) == pe_operation_name proposed)
  && (pe_resource_ref (ae_proposal existing) == pe_resource_ref proposed)
  && (pe_operation (ae_proposal existing) == pe_operation proposed)
  && (ae_executor_boundary existing == executor_boundary)
  && (ae_lease_id existing == lease_id).

(** The loop body of [contest_dependent_effects]; [changed] counts along. *)
Definition contest_one (acc : EffectAuthorizer * Z) (challenged : string * gset string)
    : EffectAuthorizer * Z :=
  let (a, changed) := acc in
  let (key, matched) := challenged in
  let contest (merged : gset string) (reopened : bool) :=
    ({| ea_authorized_by_idempotency := ea_authorized_by_idempotency a;
        ea_contest_state :=
          <[key := if reopened then Reopened merged else Contestable merged]> (ea_contest_state a);
        ea_contest_annotations :=
          (ea_contest_annotations a ++
           [{| an_idempotency_key := key; an_revoked_roots := merged;
               an_reopened := reopened |}])%list |}, changed + 1) in
  match ea_contest_state a !! key with
  | None => contest matched false
  | Some previous =>
      match contested_roots previous with
      | None => (a, changed)
      | Some previous_roots =>
          if bool_decide (matched ⊆ previous_roots) then (a, changed)
          else contest (previous_roots ∪ matched) true
      end
  end.

Definition challenged_effects (a : EffectAuthorizer) (revoked_roots : gset string)
    : list (string * gset string) :=
  omap (fun kv : string * AuthorizedEffect =>
          let matched := dependent_revoked_roots kv.2 revoked_roots in
          if matched == ∅ then None else Some (kv.1, matched))
    (btree_iter (ea_authorized_by_idempotency a)).

Definition contest_dependent_effects (revoked_roots : gset string) (a : EffectAuthorizer)
    : EffectAuthorizer * Z :=
  if revoked_roots == ∅ then (a, 0)
  else fold_left contest_one (challenged_effects a revoked_roots) (a, 0).

Definition dependent_effect_state (a : EffectAuthorizer) (idempotency_key : string)
    : DependentEffectState :=
  default Admissible (ea_contest_state a !! idempotency_key).

Definition contested_effect_keys (a : EffectAuthorizer) : list string :=
  (btree_iter (ea_contest_state a)).*1.

Definition store_effect (authorized : AuthorizedEffect) (a : EffectAuthorizer) : EffectAuthorizer :=
  {| ea_authorized_by_idempotency :=
       <[op_idempotency_key (pe_operation (ae_proposal authorized)) := authorized]>
         (ea_authorized_by_idempotency a);
     ea_contest_state := ea_contest_state a;
     ea_contest_annotations := ea_contest_annotations a |}.

(** The authorizer and the lease the caller passes are both updated. *)
Abbreviation AM := (M (EffectAuthorizer * ActionLease) AuthorityError).

Definition authorize_with_revoked_roots (proposed : ProposedEffect) (executor_boundary : string)
    (work_scope : WorkScopeBinding) (session : SessionBinding) (now : LogicalTime)
    (revoked_roots : option (gset string)) : AM AuthorizedEffect :=
  let! s := mstate in
  let a := s.1 in
  let lease := s.2 in
  do! mlift (authority_text executor_boundary "executor_boundary");
  match ea_authorized_by_idempotency a !! op_idempotency_key (pe_operation proposed) with
  | Some existing =>
      do! mlift (guard_err (negb (same_logical_effect existing proposed executor_boundary
                                    (al_lease_id lease))) AIdentityConflict);
      do! mlift (still_current lease (ae_proposal existing) work_scope session now);
      mret_ok existing
  | None =>
      let! proposed := mlift (ProposedEffect_new (pe_action_id proposed) (pe_operation proposed)
        (pe_operation_name proposed) (pe_resource_ref proposed)
        (pe_canonical_payload_sha256 proposed)) in
      do! mlift (guard_err (al_receipt_obligations lease == [])
                   (AInvalidField "receipt_obligations"));
      do! mlift (for_each obligation_validate (al_receipt_obligations lease));
      let! charged := mlift (lease_authorize proposed work_scope session now lease) in
      let authorized := {| ae_proposal := proposed; ae_lease_id := al_lease_id lease;
                           ae_executor_boundary := executor_boundary;
                           ae_receipt_obligations := al_receipt_obligations lease |} in
      let stored := store_effect authorized a in
      do! mmodify (fun _ => (stored, charged));
      do! mlift (effects_snapshot stored);
      do! mmodify (fun s => match revoked_roots with
                            | Some roots => ((contest_dependent_effects roots s.1).1, s.2)
                            | None => s
                            end);
      mret_ok authorized
  end.

(** [EffectAuthorizer::authorize] *)
Definition effect_authorize (proposed : ProposedEffect) (executor_boundary : string)
    (work_scope : WorkScopeBinding) (session : SessionBinding) (now : LogicalTime)
    : AM AuthorizedEffect :=
  authorize_with_revoked_roots proposed executor_boundary work_scope session now None.

(** [EffectAuthorizer::admit_effect_execution] *)
Definition effect_execution (a : EffectAuthorizer) (authorized : AuthorizedEffect)
    (lease : ActionLease) (work_scope : WorkScopeBinding) (session : SessionBinding)
    (executor_boundary : string) (now : LogicalTime) : AR SealedEffectDispatch :=
  let? stored := ok_or (ea_authorized_by_idempotency a
                          !! op_idempotency_key (pe_operation (ae_proposal authorized)))
                   (StaleEffectAuthority "effect_authorization_absent") in
  check? guard_err (stored != authorized) (StaleEffectAuthority "effect_authorization_substituted");
  check? guard_err (ae_lease_id stored != al_lease_id lease)
    (StaleEffectAuthority "effect_lease_substituted");
  check? guard_err (ae_executor_boundary stored != executor_boundary)
    (StaleEffectAuthority "effect_executor_substituted");
  check? guard_err (is_contested (dependent_effect_state a
                      (op_idempotency_key (pe_operation (ae_proposal stored)))))
    (StaleEffectAuthority "effect_authorization_contested");
  check? still_current lease (ae_proposal stored) work_scope session now;
  Ok {| sd_authorized := stored |}.

(** ** Effect receipts *)

Inductive EffectOutcome : Type :=
| OCommitted
| ORejected
| OCompensated
| OUnknownOutcome (reason : string).

Record EffectReceipt : Type := {
  ef_authorized_effect : AuthorizedEffect;
  ef_outcome : EffectOutcome;
  ef_canonical_receipt : option ReceiptEnvelope;
}.

Definition is_unknown (o : EffectOutcome) : bool :=
  match o with OUnknownOutcome _ => true | _ => false end.

Definition effect_unknown (authorized : AuthorizedEffect) (reason : string) : AR EffectReceipt :=
  check? authority_text reason "unknown_outcome_reason";
  Ok {| ef_authorized_effect := authorized; ef_outcome := OUnknownOutcome reason;
        ef_canonical_receipt := None |}.

Record CompiledEffect : Type := {
  ce_authorized : AuthorizedEffect;
  ce_receipt : EffectReceipt;
}.

Section Receipted.
Variable sha256 : list Z -> list Z.
Variable core_json : ReceiptCore -> result string (list Z).
Variable contract_json : ActionContract -> option (list Z).

Definition validate_terminal_receipt (authorized : AuthorizedEffect) (outcome : EffectOutcome)
    (receipt : ReceiptEnvelope) : AR unit :=
  check? map_err (fun _ => ReceiptMismatch) (envelope_validate sha256 core_json receipt);
  let operation := rc_operation (re_core receipt) in
  let mine := pe_operation (ae_proposal authorized) in
  check? guard_err ((op_operation_id operation != op_operation_id mine)
                    || (op_idempotency_key operation != op_idempotency_key mine)
                    || (op_state_fence operation != op_state_fence mine)) ReceiptMismatch;
  let disposition := disposition_kind (rc_disposition (re_core receipt)) in
  guard_err (negb match outcome with
                  | OCommitted | OCompensated => disposition == Success
                  | ORejected => (disposition == Failure) || (disposition == Cancelled)
                  | OUnknownOutcome _ => false
                  end) ReceiptMismatch.

Definition effect_terminal (authorized : AuthorizedEffect) (outcome : EffectOutcome)
    (canonical_receipt : ReceiptEnvelope) : AR EffectReceipt :=
  check? guard_err (is_unknown outcome) InvalidLifecycleTransition;
  check? validate_terminal_receipt authorized outcome canonical_receipt;
  Ok {| ef_authorized_effect := authorized; ef_outcome := outcome;
        ef_canonical_receipt := Some canonical_receipt |}.

(** [EffectReceipt::reconcile] *)
Definition effect_reconcile (r : EffectReceipt) (outcome : EffectOutcome)
    (canonical_receipt : ReceiptEnvelope) : AR EffectReceipt :=
  check? guard_err (negb (is_unknown (ef_outcome r))) InvalidLifecycleTransition;
  effect_terminal (ef_authorized_effect r) outcome canonical_receipt.

(** [CompiledEffect::reconcile] *)
Definition compiled_reconcile (outcome : EffectOutcome) (canonical_receipt : ReceiptEnvelope)
    : M CompiledEffect AuthorityError unit :=
  let! c := mstate in
  let! reconciled := mlift (effect_reconcile (ce_receipt c) outcome canonical_receipt) in
  mmodify (fun c => {| ce_authorized := ce_authorized c; ce_receipt := reconciled |}).

Definition compile_proposal (contract : ActionContract) (operation : OperationBinding)
    (operation_name resource_ref : string) : AR ProposedEffect :=
  check? guard_err (is_forbidden (ac_impact_class contract)) EffectCeilingExceeded;
  check? authority_text operation_name "operation_name";
  check? authority_text resource_ref "resource_ref";
  check? guard_err (negb (bool_decide (resource_ref ∈ ac_effect_set contract))) UnauthorizedResource;
  check? guard_err (op_state_fence operation != ws_state_fence (ac_work_scope contract))
    AFenceMismatch;
  check? guard_err (effect_rank_for_impact (ac_impact_class contract)
                      <? grant_effect_rank (op_effect operation)) EffectCeilingExceeded;
  let? bytes := ok_or (contract_json contract) (AInvalidField "canonical_payload") in
  ProposedEffect_new (ac_action_id contract) operation operation_name resource_ref
    (sha256_hex sha256 bytes).

Definition compile_effectful_action (contract : ActionContract) (operation : OperationBinding)
    (operation_name resource_ref executor_boundary : string) (work_scope : WorkScopeBinding)
    (session : SessionBinding) (now : LogicalTime) : AM CompiledEffect :=
  let! proposed := mlift (compile_proposal contract operation operation_name resource_ref) in
  let! authorized := effect_authorize proposed executor_boundary work_scope session now in
  let! receipt := mlift (effect_unknown authorized "effect compiled; outcome pending observation") in
  mret_ok {| ce_authorized := authorized; ce_receipt := receipt |}.
End Receipted.
