(* ===== verification/EffectsLaws.v ===== *)
(** * Laws of effect authority

    The effect authorizer's ledger invariant and what follows for its calls:
    refused calls change nothing, retries return the stored decision, the
    ledger only grows, contested effects are not dispatched, and a restart
    keeps the ledger; break-glass and effect-receipt state machines. *)

From Stdlib Require Import Ascii String.
From S2P Require Import Prelude RustText Contracts Receipts Grants GrantGraph GrantRecovery.
From S2P Require Import GrantGraphLaws GrantRecoveryLaws Effects.
From stdpp Require Import relations.

#[local] Open Scope string_scope.
#[local] Open Scope Z_scope.

(** ** The ledger invariant *)

(** A stored authorization passes every check of the recovery snapshot. *)
Record effect_stored (key : string) (e : AuthorizedEffect) : Prop := {
  so_key : op_idempotency_key (pe_operation (ae_proposal e)) = key;
  so_proposal : ProposedEffect_new (pe_action_id (ae_proposal e)) (pe_operation (ae_proposal e))
    (pe_operation_name (ae_proposal e)) (pe_resource_ref (ae_proposal e))
    (pe_canonical_payload_sha256 (ae_proposal e)) = Ok (ae_proposal e);
  so_lease : text_ok (ae_lease_id e) = true;
  so_obligations : ae_receipt_obligations e <> [] /\
    for_each obligation_validate (ae_receipt_obligations e) = Ok tt;
  so_executor : text_ok (ae_executor_boundary e) = true;
}.

Record authorizer_inv (a : EffectAuthorizer) : Prop := {
  ai_ledger : map_Forall effect_stored (ea_authorized_by_idempotency a);
  ai_contest : forall key s, ea_contest_state a !! key = Some s ->
    is_contested s = true /\ is_Some (ea_authorized_by_idempotency a !! key);
}.

Lemma ProposedEffect_new_ok action operation name resource digest p :
  ProposedEffect_new action operation name resource digest = Ok p ->
  p = {| pe_action_id := action; pe_operation := operation; pe_operation_name := name;
         pe_resource_ref := resource; pe_canonical_payload_sha256 := digest |} /\
  text_ok (op_idempotency_key operation) = true.
Proof.
  intros H. unfold ProposedEffect_new in H. do 3 apply check_ok in H as [_ H].
  apply check_ok in H as [Hk H]. apply authority_text_ok in Hk. do 3 apply check_ok in H as [_ H].
  by injection H as <-.
Qed.

Lemma stored_text key e : effect_stored key e -> text_ok key = true.
Proof. intros [<- Hp _ _ _]. by apply ProposedEffect_new_ok in Hp as [_ ?]. Qed.

(** ** Snapshots *)

Section Snapshots.
Implicit Types l : list (string * AuthorizedEffect).

Lemma scan_effect_keys_ascending previous r :
  scan_effect_keys previous r
  = scan_ascending (fun x => authority_text (er_idempotency_key x) "idempotency_key")
      er_idempotency_key (AInvalidField "effect_authorizer_recovery.records") previous r.
Proof.
  revert previous. induction r as [|x r IH]; intros previous; simpl; [done|]. by rewrite IH.
Qed.

Lemma restore_effect_stored m key e :
  effect_stored key e -> m !! key = None ->
  restore_effect m (effect_record (key, e)) = Ok (<[key := e]> m).
Proof.
  intros [Hk Hp Hl [Ho1 Ho2] He] Hm. unfold restore_effect. simpl.
  rewrite (bool_decide_eq_true_2 (key = _)) by done. simpl. rewrite Hp. simpl.
  rewrite (proj2 (text_id_new_ok _ _ (ae_lease_id e))) by done. simpl.
  rewrite bool_decide_eq_false_2 by done. simpl. rewrite Ho2. simpl.
  rewrite (proj2 (authority_text_ok _ _)) by done. simpl. rewrite Hm. simpl. by destruct e.
Qed.

Lemma restore_effects l : forall m,
  Forall (fun kv => effect_stored kv.1 kv.2) l -> NoDup l.*1 ->
  (forall kv, kv ∈ l -> m !! kv.1 = None) ->
  fold_res restore_effect m (effect_record <$> l) = Ok (insert_all fst snd l m).
Proof.
  induction l as [|[k e] l IH]; intros m Hl Hnd Hm; cbn [fmap list_fmap fold_res]; [done|].
  apply Forall_cons in Hl as [Hk Hl]. simpl in Hk. apply NoDup_cons in Hnd as [Hni Hnd].
  rewrite (restore_effect_stored m k e Hk (Hm (k, e) ltac:(left))). cbn [rbind].
  rewrite IH; [done|done|done|]. intros [k' e'] Hin. simpl. rewrite lookup_insert_ne.
  - apply (Hm (k', e')). by right.
  - intros <-. apply Hni, list_elem_of_fmap. by exists (k, e').
Qed.

(** A ledger that keeps the invariant can be saved and read back. *)
Lemma effects_restore a :
  authorizer_inv a ->
  let s := {| es_schema := EFFECT_AUTHORIZER_RECOVERY_SCHEMA;
              es_version := EFFECT_AUTHORIZER_RECOVERY_VERSION;
              es_records := effect_record <$> btree_iter (ea_authorized_by_idempotency a) |} in
  effects_validate_wire s = Ok tt /\
  restore_records (es_records s)
  = Ok {| ea_authorized_by_idempotency := ea_authorized_by_idempotency a;
          ea_contest_state := ∅; ea_contest_annotations := [] |} /\
  effects_snapshot a = Ok s.
Proof.
  intros [Hl _] s. set (m := ea_authorized_by_idempotency a) in *.
  assert (Hst : Forall (fun kv => effect_stored kv.1 kv.2) (btree_iter m)).
  { apply Forall_forall. intros [k e] Hin. apply Hl. by apply btree_iter_lookup. }
  assert (Hkeys : er_idempotency_key <$> (effect_record <$> btree_iter m) = (btree_iter m).*1).
  { rewrite <- list_fmap_compose. apply list_fmap_ext. by intros ? [k e] _. }
  assert (Hw : effects_validate_wire s = Ok tt).
  { unfold effects_validate_wire. subst s. simpl. rewrite scan_effect_keys_ascending.
    apply scan_ascending_ok.
    - apply Forall_fmap. eapply Forall_impl; [exact Hst|]. intros [k e] Hk. simpl in *.
      by eapply authority_text_ok, stored_text.
    - rewrite Hkeys. apply btree_keys_sorted.
    - rewrite Hkeys. apply btree_iter_NoDup.
    - done. }
  assert (Hr : restore_records (es_records s)
    = Ok {| ea_authorized_by_idempotency := m; ea_contest_state := ∅;
            ea_contest_annotations := [] |}).
  { unfold restore_records. subst s. simpl.
    rewrite restore_effects; [|done|apply btree_iter_NoDup|intros; apply lookup_empty].
    by rewrite insert_all_iter. }
  split_and!; [done|done|]. unfold effects_snapshot, effects_validate. fold m. fold s.
  by rewrite Hw, Hr.
Qed.
End Snapshots.

(** ** Authorization *)

Section Authorize.
Context (proposed : ProposedEffect) (executor_boundary : string) (work_scope : WorkScopeBinding).
Context (session : SessionBinding) (now : LogicalTime) (roots : option (gset string)).

(** The key of a request. *)
Definition request_key : string := op_idempotency_key (pe_operation proposed).

(** The decision made for a new request: what is stored, and the lease after
    one use. *)
Definition new_decision (lease : ActionLease) : AR (AuthorizedEffect * ActionLease) :=
  check? authority_text executor_boundary "executor_boundary";
  let? p := ProposedEffect_new (pe_action_id proposed) (pe_operation proposed)
    (pe_operation_name proposed) (pe_resource_ref proposed)
    (pe_canonical_payload_sha256 proposed) in
  check? guard_err (al_receipt_obligations lease == []) (AInvalidField "receipt_obligations");
  check? for_each obligation_validate (al_receipt_obligations lease);
  let? charged := lease_authorize p work_scope session now lease in
  Ok ({| ae_proposal := p; ae_lease_id := al_lease_id lease;
         ae_executor_boundary := executor_boundary;
         ae_receipt_obligations := al_receipt_obligations lease |}, charged).

(** The decision a retry gets: the stored one, while the lease is current. *)
Definition replay_decision (existing : AuthorizedEffect) (lease : ActionLease)
    : AR AuthorizedEffect :=
  check? authority_text executor_boundary "executor_boundary";
  check? guard_err (negb (same_logical_effect existing proposed executor_boundary
                            (al_lease_id lease))) AIdentityConflict;
  check? still_current lease (ae_proposal existing) work_scope session now;
  Ok existing.

Definition contested (a : EffectAuthorizer) : EffectAuthorizer :=
  match roots with
  | Some r => (contest_dependent_effects r a).1
  | None => a
  end.

Lemma new_decision_ok lease e lease' :
  text_ok (al_lease_id lease) = true -> new_decision lease = Ok (e, lease') ->
  effect_stored request_key e /\ ae_proposal e = proposed /\ ae_lease_id e = al_lease_id lease /\
  ae_executor_boundary e = executor_boundary /\
  lease_authorize proposed work_scope session now lease = Ok lease'.
Proof.
  intros Hid H. unfold new_decision in H. apply check_ok in H as [Hex H].
  apply authority_text_ok in Hex. apply rbind_ok in H as (p & Hp & H).
  pose proof (ProposedEffect_new_ok _ _ _ _ _ _ Hp) as [-> _].
  assert (Heta : {| pe_action_id := pe_action_id proposed; pe_operation := pe_operation proposed;
    pe_operation_name := pe_operation_name proposed; pe_resource_ref := pe_resource_ref proposed;
    pe_canonical_payload_sha256 := pe_canonical_payload_sha256 proposed |} = proposed)
    by (by destruct proposed).
  rewrite Heta in *. apply check_guard_ok in H as [Hob H]. apply bool_decide_eq_false in Hob.
  apply check_ok in H as [Hov H]. apply rbind_ok in H as (charged & Hc & [= <- <-]).
  split_and!; [|done..]. by split.
Qed.

(** Storing a checked decision under a free key keeps the invariant. *)
Lemma store_effect_inv a e :
  authorizer_inv a -> effect_stored request_key e -> authorizer_inv (store_effect e a).
Proof.
  intros [Hl Hc] He. pose proof (so_key _ _ He) as Hk. split; simpl; rewrite Hk.
  - by apply map_Forall_insert_2.
  - intros key s Hs. destruct (Hc key s Hs) as [Hcs Hin]. split; [done|].
    apply lookup_insert_is_Some. destruct (decide (request_key = key)); [by left|by right].
Qed.

(** The call, as the two decisions: the self-check of the ledger never fails
    once the decision is made, so nothing is charged or stored on an error. *)
Lemma authorize_eq a lease :
  authorizer_inv a -> text_ok (al_lease_id lease) = true ->
  authorize_with_revoked_roots proposed executor_boundary work_scope session now roots (a, lease)
  = match ea_authorized_by_idempotency a !! request_key with
    | Some existing => ((a, lease), replay_decision existing lease)
    | None =>
        match new_decision lease with
        | Ok (e, lease') => ((contested (store_effect e a), lease'), Ok e)
        | Err err => ((a, lease), Err err)
        end
    end.
Proof.
  intros Ha Hid. unfold authorize_with_revoked_roots, request_key.
  destruct (ea_authorized_by_idempotency a !! _) as [existing|] eqn:Hk.
  - unfold replay_decision. unfold_monad. simpl. rewrite Hk.
    repeat case_match; simplify_eq/=; done.
  - destruct (new_decision lease) as [[e lease']|err] eqn:Hn.
    + destruct (new_decision_ok lease e lease' Hid Hn) as (He & _).
      pose proof (effects_restore (store_effect e a) (store_effect_inv a e Ha He)) as (_ & _ & Hs).
      unfold new_decision in Hn. unfold mseq, mlift, mmodify, mret_ok, mstate. simpl. rewrite Hk.
      apply check_ok in Hn as [-> Hn]. apply rbind_ok in Hn as (p & -> & Hn).
      apply check_ok in Hn as [-> Hn]. apply check_ok in Hn as [-> Hn].
      apply rbind_ok in Hn as (c & -> & [= <- <-]). rewrite Hs. unfold contested. by destruct roots.
    + unfold new_decision in Hn. unfold mseq, mlift, mmodify, mret_ok, mstate. simpl. rewrite Hk.
      destruct (authority_text _ _); simpl in *; [|congruence].
      destruct (ProposedEffect_new _ _ _ _ _); simpl in *; [|congruence].
      destruct (guard_err _ _); simpl in *; [|congruence].
      destruct (for_each _ _); simpl in *; [|congruence].
      destruct (lease_authorize _ _ _ _ _); simpl in *; congruence.
Qed.
End Authorize.

(** ** Contesting *)

Section Contest.
(** The effect under [key] is contested on account of all of [matched]. *)
Definition contest_covers (a : EffectAuthorizer) (key : string) (matched : gset string) : Prop :=
  exists s roots, ea_contest_state a !! key = Some s /\ contested_roots s = Some roots /\
    matched ⊆ roots.

Lemma contest_one_ledger acc x :
  ea_authorized_by_idempotency (contest_one acc x).1 = ea_authorized_by_idempotency acc.1.
Proof. destruct acc as [a n], x as [key m]. simpl. by repeat case_match. Qed.

Lemma contest_one_mono acc x key m :
  contest_covers acc.1 key m -> contest_covers (contest_one acc x).1 key m.
Proof.
  destruct acc as [a n], x as [k m']. intros (s & roots & Hs & Hr & Hm). simpl in *.
  unfold contest_covers. repeat case_match; simplify_eq/=; try (by exists s, roots).
  - destruct (decide (k = key)) as [->|Hne].
    + simplify_eq. eexists _, _. rewrite lookup_insert_eq. split_and!; [done|done|set_solver].
    + exists s, roots. by rewrite lookup_insert_ne.
  - destruct (decide (k = key)) as [->|Hne]; [congruence|].
    exists s, roots. by rewrite lookup_insert_ne.
Qed.

Lemma contest_one_covers acc key m :
  (forall s, ea_contest_state acc.1 !! key = Some s -> is_contested s = true) ->
  contest_covers (contest_one acc (key, m)).1 key m.
Proof.
  destruct acc as [a n]. intros Hc. simpl in *. unfold contest_covers.
  destruct (ea_contest_state a !! key) as [s|] eqn:Hs; simpl.
  - specialize (Hc s eq_refl). destruct (contested_roots s) as [roots|] eqn:Hr; [|by destruct s].
    case_bool_decide; simpl; [by exists s, roots|].
    eexists _, _. rewrite lookup_insert_eq. split_and!; [done|done|set_solver].
  - eexists _, _. rewrite lookup_insert_eq. by split_and!.
Qed.

Lemma contest_one_inv acc x :
  authorizer_inv acc.1 -> is_Some (ea_authorized_by_idempotency acc.1 !! x.1) ->
  authorizer_inv (contest_one acc x).1.
Proof.
  intros [Hl Hc] Hx. split; rewrite contest_one_ledger; [done|].
  destruct acc as [a n], x as [key m]. simpl in *. intros k s.
  repeat case_match; simplify_eq/=; try apply Hc;
    (intros [[<- <-]|[_ Hs]]%lookup_insert_Some; [by split|by apply Hc]).
Qed.

(** The whole loop, on challenges that name ledger entries. *)
Lemma contest_all l : forall acc,
  authorizer_inv acc.1 ->
  (forall x, x ∈ l -> is_Some (ea_authorized_by_idempotency acc.1 !! x.1)) ->
  let a' := (fold_left contest_one l acc).1 in
  ea_authorized_by_idempotency a' = ea_authorized_by_idempotency acc.1 /\ authorizer_inv a' /\
  (forall key m, contest_covers acc.1 key m -> contest_covers a' key m) /\
  (forall key m, (key, m) ∈ l -> contest_covers a' key m).
Proof.
  induction l as [|x l IH]; intros acc Ha Hl; simpl; [split_and!; [done|done|done|set_solver]|].
  pose proof (contest_one_inv acc x Ha (Hl x ltac:(left))) as H1.
  destruct (IH (contest_one acc x) H1) as (Hled & Hinv & Hmono & Hcov).
  { intros y Hy. rewrite contest_one_ledger. apply Hl. by right. }
  rewrite contest_one_ledger in Hled. split_and!; [done|done| |].
  - intros key m Hc. by apply Hmono, contest_one_mono.
  - intros key m [Heq|Hin]%elem_of_cons; [|by apply Hcov]. subst x.
    apply Hmono, contest_one_covers. intros s Hs. by destruct (ai_contest _ Ha key s Hs).
Qed.

Lemma contest_dependent_spec roots a :
  authorizer_inv a ->
  let a' := (contest_dependent_effects roots a).1 in
  ea_authorized_by_idempotency a' = ea_authorized_by_idempotency a /\ authorizer_inv a' /\
  (forall key m, contest_covers a key m -> contest_covers a' key m) /\
  (forall key e, ea_authorized_by_idempotency a !! key = Some e ->
     dependent_revoked_roots e roots <> ∅ ->
     contest_covers a' key (dependent_revoked_roots e roots)).
Proof.
  intros Ha. unfold contest_dependent_effects. case_bool_decide as Hr.
  { split_and!; [done|done|done|]. intros key e _ Hd. exfalso. apply Hd. subst roots.
    unfold dependent_revoked_roots. apply set_eq. intros x.
    rewrite elem_of_list_to_set, list_elem_of_filter. set_solver. }
  destruct (contest_all (challenged_effects a roots) (a, 0) Ha) as (H1 & H2 & H3 & H4).
  { intros [key m] Hin. unfold challenged_effects in Hin.
    apply list_elem_of_omap in Hin as ([k e] & Hk & Hm). apply btree_iter_lookup in Hk. simpl in Hm.
    case_match; simplify_eq/=. by eexists. }
  split_and!; [done|done|done|]. intros key e He Hd. apply H4. unfold challenged_effects.
  apply list_elem_of_omap. exists (key, e). split; [by apply btree_iter_lookup|]. simpl.
  by rewrite bool_decide_eq_false_2.
Qed.
End Contest.

(** ** Runs of the authorizer *)

(** One call while the process lives, with any lease the caller holds. *)
Inductive effect_step (a : EffectAuthorizer) : EffectAuthorizer -> Prop :=
| step_authorize proposed executor_boundary work_scope session now roots lease :
    text_ok (al_lease_id lease) = true ->
    effect_step a (authorize_with_revoked_roots proposed executor_boundary work_scope session now
                     roots (a, lease)).1.1
| step_contest roots : effect_step a (contest_dependent_effects roots a).1.

(** A restart through the recovery snapshot. *)
Definition effect_restart (a a' : EffectAuthorizer) : Prop :=
  exists s, effects_snapshot a = Ok s /\ effects_from_snapshot s = Ok a'.

Inductive effects_reachable : EffectAuthorizer -> Prop :=
| effects_start : effects_reachable EffectAuthorizer_default
| effects_step a a' : effects_reachable a -> effect_step a a' -> effects_reachable a'
| effects_restarted a a' : effects_reachable a -> effect_restart a a' -> effects_reachable a'.

Lemma default_inv : authorizer_inv EffectAuthorizer_default.
Proof.
  split; [apply map_Forall_empty|]. intros key s Hs. simpl in Hs. by rewrite lookup_empty in Hs.
Qed.

(** What one step keeps: the ledger grows, contests are never lifted. *)
Lemma effect_step_spec a a' :
  authorizer_inv a -> effect_step a a' ->
  authorizer_inv a' /\
  ea_authorized_by_idempotency a ⊆ ea_authorized_by_idempotency a' /\
  (forall key m, contest_covers a key m -> contest_covers a' key m).
Proof.
  intros Ha [proposed ex ws se now roots lease Hid|roots].
  - rewrite authorize_eq by done.
    destruct (ea_authorized_by_idempotency a !! _) as [existing|] eqn:Hk; simpl; [done|].
    destruct (new_decision _ _ _ _ _ lease) as [[e lease']|err] eqn:Hn; simpl; [|done].
    destruct (new_decision_ok _ _ _ _ _ lease e lease' Hid Hn) as (He & _).
    pose proof (store_effect_inv proposed a e Ha He) as Hs.
    assert (Hsub : ea_authorized_by_idempotency a
                     ⊆ ea_authorized_by_idempotency (store_effect e a)).
    { simpl. rewrite (so_key _ _ He). by apply insert_subseteq. }
    unfold contested. destruct roots as [r|]; [|by split_and!].
    destruct (contest_dependent_spec r _ Hs) as (-> & Hi & Hm & _). split_and!; [done|done|].
    intros key m Hc. by apply Hm.
  - destruct (contest_dependent_spec roots a Ha) as (-> & Hi & Hm & _). by split_and!.
Qed.

Lemma effect_restart_spec a a' :
  authorizer_inv a -> effect_restart a a' ->
  authorizer_inv a' /\
  a' = {| ea_authorized_by_idempotency := ea_authorized_by_idempotency a;
          ea_contest_state := ∅; ea_contest_annotations := [] |}.
Proof.
  intros Ha (s & Hs & Hr). destruct (effects_restore a Ha) as (Hw & Hrec & Hsnap).
  rewrite Hsnap in Hs. injection Hs as <-. unfold effects_from_snapshot in Hr.
  rewrite Hw in Hr. cbn [rbind] in Hr. rewrite Hrec in Hr. injection Hr as <-. split; [|done].
  split; simpl; [by apply ai_ledger|]. intros key s Hs. by rewrite lookup_empty in Hs.
Qed.

Lemma effects_reachable_inv a : effects_reachable a -> authorizer_inv a.
Proof.
  induction 1 as [|a a' _ IH Hs|a a' _ IH Hs]; [apply default_inv| |].
  - by apply (effect_step_spec a a' IH Hs).
  - by apply (effect_restart_spec a a' IH Hs).
Qed.

Lemma effect_steps_spec a a' :
  authorizer_inv a -> rtc effect_step a a' ->
  authorizer_inv a' /\ ea_authorized_by_idempotency a ⊆ ea_authorized_by_idempotency a' /\
  (forall key m, contest_covers a key m -> contest_covers a' key m).
Proof.
  intros Ha H. induction H as [|a b c Hs _ IH]; [by split_and!|].
  destruct (effect_step_spec a b Ha Hs) as (Hb & Hl & Hc). destruct (IH Hb) as (? & ? & ?).
  split_and!; [done|by etrans|auto].
Qed.

(** ** Theorems *)

Section Samples.
Definition lease_fence : StateFence := sample_receipt_fence.

Definition effect_operation (key : string) : OperationBinding :=
  {| op_operation_id := "operation-1"; op_request_id := "request-1"; op_idempotency_key := key;
     op_operation_kind := "file.write"; op_effect := ReversibleMutation;
     op_state_fence := lease_fence |}.

Definition sample_proposal : ProposedEffect :=
  {| pe_action_id := "action-1"; pe_operation := effect_operation "key-1";
     pe_operation_name := "write"; pe_resource_ref := "repo";
     pe_canonical_payload_sha256 := sample_hex |}.

Definition lease_binding : AuthorityBinding :=
  {| ab_authority_id := "authority-1"; ab_authority_owner := "governor";
     ab_authority_epoch := authority_epoch lease_fence; ab_state_fence := lease_fence;
     ab_allowed_effect := ExternalEffect; ab_proof_ceiling := ObservedExternalEffect |}.

Definition lease_scope : WorkScopeBinding :=
  {| ws_scope_id := "scope-1"; ws_product_id := "product-1"; ws_resource_generation := 1;
     ws_state_fence := lease_fence |}.

Definition lease_session : SessionBinding :=
  {| sb_session_id := "session-1"; sb_authority_epoch := authority_epoch lease_fence;
     sb_state_fence := lease_fence |}.

Definition sample_lease : ActionLease :=
  {| al_lease_id := "lease-1"; al_holder := "alice"; al_exact_idempotency_key := "key-1";
     al_authority_set := {| as_operations := {["write"]}; as_resources := {["repo"]};
                            as_max_effect := ReversibleMutation |};
     al_authority_binding := lease_binding; al_work_scope := lease_scope;
     al_session := lease_session; al_expires_at := 100; al_remaining_uses := 1;
     al_receipt_obligations := [CanonicalEffectReceipt]; al_revoked := false |}.

Definition sample_call (roots : option (gset string)) : AM AuthorizedEffect :=
  authorize_with_revoked_roots sample_proposal "executor-1" lease_scope lease_session 10 roots.

Definition sample_effect : AuthorizedEffect :=
  {| ae_proposal := sample_proposal; ae_lease_id := "lease-1"; ae_executor_boundary := "executor-1";
     ae_receipt_obligations := [CanonicalEffectReceipt] |}.

Definition sample_authorizer : EffectAuthorizer :=
  (sample_call None (EffectAuthorizer_default, sample_lease)).1.1.

Lemma sample_authorizer_reachable : effects_reachable sample_authorizer.
Proof.
  eapply effects_step; [apply effects_start|]. apply step_authorize. by vm_compute.
Qed.

Lemma sample_authorizer_ledger :
  ea_authorized_by_idempotency sample_authorizer !! "key-1" = Some sample_effect.
Proof. by vm_compute. Qed.
End Samples.

(** What an effect rests on: the names and references its validity depends
    on when one of them is revoked. *)
Definition effect_rests_on (e : AuthorizedEffect) (root : string) : Prop :=
  let p := ae_proposal e in
  root ∈ [pe_action_id p; pe_operation_name p; pe_resource_ref p;
          op_operation_kind (pe_operation p); op_idempotency_key (pe_operation p);
          op_operation_id (pe_operation p); op_request_id (pe_operation p);
          ae_lease_id e; ae_executor_boundary e].

(** [root] is recorded as a reason to contest the effect stored under [key]. *)
Definition contested_for (a : EffectAuthorizer) (key root : string) : Prop :=
  exists roots, root ∈ roots /\
    (ea_contest_state a !! key = Some (Contestable roots) \/
     ea_contest_state a !! key = Some (Reopened roots)).

Lemma contest_covers_for a key matched root :
  contest_covers a key matched -> root ∈ matched -> contested_for a key root.
Proof.
  intros (s & roots & Hs & Hr & Hsub) Hin. exists roots. split; [by apply Hsub|].
  destruct s; simpl in Hr; simplify_eq; auto.
Qed.

Lemma dependent_revoked_roots_elem e roots root :
  root ∈ dependent_revoked_roots e roots <-> root ∈ roots /\ effect_rests_on e root.
Proof.
  unfold dependent_revoked_roots, effect_rests_on. by rewrite elem_of_list_to_set, list_elem_of_filter.
Qed.

Lemma contest_reaches rs a :
  authorizer_inv a ->
  let a' := (contest_dependent_effects rs a).1 in
  ea_authorized_by_idempotency a' = ea_authorized_by_idempotency a /\
  forall key x root, ea_authorized_by_idempotency a !! key = Some x -> root ∈ rs ->
    effect_rests_on x root -> contested_for a' key root.
Proof.
  intros Ha a'. destruct (contest_dependent_spec rs a Ha) as (Hl & _ & _ & Hc). split; [done|].
  intros key x root Hx Hin Hon.
  assert (Hd : root ∈ dependent_revoked_roots x rs) by (by apply dependent_revoked_roots_elem).
  eapply contest_covers_for; [|exact Hd]. apply Hc; [done|]. set_solver.
Qed.

(** C36. Every authorization call is decided at once: a refused call changes
    neither the ledger nor the lease. A call for a stored request returns the
    stored decision, leaves the ledger's decisions as they are and consumes
    nothing, and without revoked roots changes nothing at all. A call for a
    new request stores exactly its decision, under the one key its lease
    names, takes one use from the lease, and contests every stored effect,
    the new one included, that rests on a revoked root; without revoked roots
    it contests nothing. The self-check of the ledger never fails. *)
Theorem effect_authorize_atomic (a : EffectAuthorizer) (lease : ActionLease)
    (proposed : ProposedEffect) (executor_boundary : string) (work_scope : WorkScopeBinding)
    (session : SessionBinding) (now : LogicalTime) (roots : option (gset string)) :
  effects_reachable a -> text_ok (al_lease_id lease) = true ->
  let key := op_idempotency_key (pe_operation proposed) in
  let '((a', lease'), r) :=
    authorize_with_revoked_roots proposed executor_boundary work_scope session now roots (a, lease) in
  match r with
  | Err _ => a' = a /\ lease' = lease
  | Ok e =>
      ea_authorized_by_idempotency a' !! key = Some e /\
      (ea_authorized_by_idempotency a !! key = Some e /\
       ea_authorized_by_idempotency a' = ea_authorized_by_idempotency a /\ lease' = lease /\
       (default ∅ roots = ∅ -> a' = a) \/
       ea_authorized_by_idempotency a !! key = None /\
       ea_authorized_by_idempotency a' = <[key := e]> (ea_authorized_by_idempotency a) /\
       key = al_exact_idempotency_key lease /\ al_remaining_uses lease <> 0 /\
       al_remaining_uses lease' = al_remaining_uses lease - 1 /\
       (default ∅ roots = ∅ -> ea_contest_state a' = ea_contest_state a) /\
       (forall k x root, ea_authorized_by_idempotency a' !! k = Some x -> root ∈ default ∅ roots ->
          effect_rests_on x root -> contested_for a' k root))
  end.
Proof.
  intros Hr Hid key. pose proof (effects_reachable_inv a Hr) as Ha.
  rewrite authorize_eq by done. fold (request_key proposed). change (request_key proposed) with key.
  destruct (ea_authorized_by_idempotency a !! key) as [existing|] eqn:Hk.
  - unfold replay_decision. destruct (rbind _ _) as [e|err] eqn:Hd; [|done].
    do 3 apply check_ok in Hd as [_ Hd]. injection Hd as <-. split; [done|]. by left.
  - destruct (new_decision _ _ _ _ _ lease) as [[e lease']|err] eqn:Hn; [|done].
    destruct (new_decision_ok _ _ _ _ _ lease e lease' Hid Hn) as (He & Hp & _ & _ & Hl).
    pose proof (store_effect_inv proposed a e Ha He) as Hs.
    destruct (contest_reaches (default ∅ roots) _ Hs) as [Hled Hcon].
    assert (Hfin : contested roots (store_effect e a) =
      (contest_dependent_effects (default ∅ roots) (store_effect e a)).1) by (by destruct roots).
    rewrite Hfin, Hled in *. clear Hfin. simpl in Hcon |- *. rewrite (so_key _ _ He) in *.
    rewrite lookup_insert_eq. split; [done|]. right. unfold lease_authorize in Hl.
    do 2 apply check_ok in Hl as [_ Hl]. apply check_guard_ok in Hl as [Hu Hl].
    apply check_ok in Hl as [Hc Hl]. do 3 apply check_ok in Hl as [_ Hl]. injection Hl as <-.
    unfold lease_context in Hc. do 2 apply check_ok in Hc as [_ Hc]. apply guard_err_ok in Hc.
    bool_facts. split_and!; [done|done|done|lia|done| |done].
    intros ->. by unfold contest_dependent_effects.
Qed.

Lemma effect_authorize_atomic_witness :
  ea_authorized_by_idempotency sample_authorizer !! "key-1" = Some sample_effect /\
  contested_for (sample_call (Some {["repo"]}) (EffectAuthorizer_default, sample_lease)).1.1
    "key-1" "repo".
Proof.
  assert (Hid : text_ok (al_lease_id sample_lease) = true) by (by vm_compute).
  split; [by vm_compute|].
  pose proof (effect_authorize_atomic EffectAuthorizer_default sample_lease sample_proposal
    "executor-1" lease_scope lease_session 10 (Some {["repo"]}) effects_start Hid) as H.
  change (authorize_with_revoked_roots _ _ _ _ _ (Some {["repo"]}) (_, _))
    with (sample_call (Some {["repo"]}) (EffectAuthorizer_default, sample_lease)) in H.
  assert (Hr : (sample_call (Some {["repo"]}) (EffectAuthorizer_default, sample_lease)).2
               = Ok sample_effect) by (by vm_compute).
  destruct (sample_call (Some {["repo"]}) (EffectAuthorizer_default, sample_lease))
    as [[a' l'] r]. simpl in Hr. subst r.
  destruct H as [Hs [(Hold & _)|(_ & _ & _ & _ & _ & _ & Hc)]]; [discriminate Hold|].
  apply (Hc "key-1" sample_effect "repo"); [exact Hs|by apply elem_of_singleton|].
  unfold effect_rests_on. simpl. set_solver.
Defined.

(** A stored request that is repeated with revoked roots returns its decision
    and contests nothing: the set is dropped, although the stored effect
    rests on the revoked root and contesting would mark it. *)
Example replay_drops_revoked_roots :
  let s := (sample_authorizer, sample_lease) in
  sample_call (Some {["repo"]}) s = (s, Ok sample_effect) /\
  dependent_effect_state sample_authorizer "key-1" = Admissible /\
  contested_for (contest_dependent_effects {["repo"]} sample_authorizer).1 "key-1" "repo".
Proof.
  split; [by vm_compute|]. split; [by vm_compute|].
  apply (contest_reaches {["repo"]} sample_authorizer
    (effects_reachable_inv _ sample_authorizer_reachable)) with (x := sample_effect);
    [apply sample_authorizer_ledger|by apply elem_of_singleton|].
  unfold effect_rests_on. simpl. set_solver.
Qed.

(** Decisions are durable: whatever calls and restarts follow, a stored effect
    stays stored as it is, and the same request presented again with a current
    lease gets it back. *)
Theorem effect_ledger_append_only (a a' : EffectAuthorizer) (key : string) (e : AuthorizedEffect) :
  effects_reachable a ->
  rtc (fun x y => effect_step x y \/ effect_restart x y) a a' ->
  ea_authorized_by_idempotency a !! key = Some e ->
  ea_authorized_by_idempotency a' !! key = Some e /\
  forall lease work_scope session now roots,
    text_ok (al_lease_id lease) = true -> al_lease_id lease = ae_lease_id e ->
    still_current lease (ae_proposal e) work_scope session now = Ok tt ->
    authorize_with_revoked_roots (ae_proposal e) (ae_executor_boundary e) work_scope session now
      roots (a', lease) = ((a', lease), Ok e).
Proof.
  intros Hr Hsteps He. pose proof (effects_reachable_inv a Hr) as Ha.
  assert (H : authorizer_inv a' /\ ea_authorized_by_idempotency a ⊆ ea_authorized_by_idempotency a').
  { clear He Hr. induction Hsteps as [|x y z [Hs|Hs] _ IH]; [done| |].
    - destruct (effect_step_spec x y Ha Hs) as (Hy & Hl & _). destruct (IH Hy). split; [done|by etrans].
    - destruct (effect_restart_spec x y Ha Hs) as (Hy & ->). destruct (IH Hy). by split. }
  destruct H as [Ha' Hsub]. pose proof (lookup_weaken _ _ _ _ He Hsub) as He'. split; [done|].
  intros lease ws se now roots Hid Hl Hcur. rewrite authorize_eq by done.
  destruct (ai_ledger _ Ha' key e He') as [Hk Hp Hlt Ho Hex]. unfold request_key. rewrite Hk, He'.
  unfold replay_decision. rewrite (proj2 (authority_text_ok _ _)) by done. simpl.
  unfold same_logical_effect. rewrite !bool_decide_eq_true_2 by done. simpl. by rewrite Hcur.
Qed.

Lemma effect_ledger_append_only_witness :
  (sample_call None (sample_authorizer, sample_lease)).2 = Ok sample_effect.
Proof.
  assert (Hid : text_ok (al_lease_id sample_lease) = true) by (by vm_compute).
  destruct (effect_ledger_append_only sample_authorizer sample_authorizer "key-1" sample_effect
    sample_authorizer_reachable (rtc_refl _ _) sample_authorizer_ledger) as [_ H].
  change (sample_call None) with (authorize_with_revoked_roots (ae_proposal sample_effect)
    (ae_executor_boundary sample_effect) lease_scope lease_session 10 None).
  rewrite (H sample_lease lease_scope lease_session 10 None Hid); [done|done|by vm_compute].
Defined.

(** An effect is dispatched only as the stored decision, to the executor and
    under the lease it was made for, while that lease is unrevoked, unexpired,
    on the current fence and still allows it; and once an effect depends on a
    revoked root it is never dispatched again while the process lives, whatever
    calls follow. *)
Theorem effect_dispatch_sound (a a' : EffectAuthorizer) (e : AuthorizedEffect) (lease : ActionLease)
    (work_scope : WorkScopeBinding) (session : SessionBinding) (executor_boundary : string)
    (now : LogicalTime) (d : SealedEffectDispatch) :
  effects_reachable a -> rtc effect_step a a' ->
  effect_execution a' e lease work_scope session executor_boundary now = Ok d ->
  sd_authorized d = e /\
  ea_authorized_by_idempotency a' !! op_idempotency_key (pe_operation (ae_proposal e)) = Some e /\
  ae_lease_id e = al_lease_id lease /\ ae_executor_boundary e = executor_boundary /\
  al_revoked lease = false /\ now < al_expires_at lease /\
  op_state_fence (pe_operation (ae_proposal e)) = ws_state_fence work_scope /\
  op_idempotency_key (pe_operation (ae_proposal e)) = al_exact_idempotency_key lease /\
  allows (al_authority_set lease) (pe_operation_name (ae_proposal e))
    (pe_resource_ref (ae_proposal e)) (op_effect (pe_operation (ae_proposal e))) = true /\
  forall roots, ea_authorized_by_idempotency a !! op_idempotency_key (pe_operation (ae_proposal e))
                = Some e ->
    rtc effect_step (contest_dependent_effects roots a).1 a' -> dependent_revoked_roots e roots = ∅.
Proof.
  intros Hr Hsteps H. pose proof (effects_reachable_inv a Hr) as Ha. unfold effect_execution in H.
  destruct (ea_authorized_by_idempotency a' !! _) as [stored|] eqn:Hs; [|done]. cbn [ok_or rbind] in H.
  apply check_guard_ok in H as [Heq H]. apply negb_false_iff, bool_decide_eq_true in Heq. subst stored.
  apply check_guard_ok in H as [Hl H]. apply check_guard_ok in H as [Hx H].
  apply check_guard_ok in H as [Hc H]. apply check_ok in H as [Hcur [= <-]].
  unfold still_current in Hcur. apply check_guard_ok in Hcur as [Hrev Hcur].
  apply check_guard_ok in Hcur as [Hexp Hcur]. apply check_ok in Hcur as [Hctx Hall].
  apply guard_err_ok in Hall. unfold lease_context in Hctx. apply check_ok in Hctx as [_ Hctx].
  apply check_guard_ok in Hctx as [Hf Hkey]. apply guard_err_ok in Hkey. bool_facts.
  split_and!; try done; [lia|]. intros roots He Hafter.
  destruct (contest_dependent_spec roots a Ha) as (_ & Hi & _ & Hcov).
  destruct (effect_steps_spec _ _ Hi Hafter) as (_ & _ & Hmono).
  destruct (decide (dependent_revoked_roots e roots = ∅)) as [|Hne]; [done|].
  destruct (Hmono _ _ (Hcov _ e He Hne)) as (s & rs & Hst & Hrs & _).
  unfold dependent_effect_state in Hc. rewrite Hst in Hc. by destruct s.
Qed.

Lemma effect_dispatch_sound_witness :
  exists d, effect_execution sample_authorizer sample_effect sample_lease lease_scope lease_session
              "executor-1" 20 = Ok d /\ sd_authorized d = sample_effect.
Proof.
  destruct (effect_execution sample_authorizer sample_effect sample_lease lease_scope lease_session
    "executor-1" 20) as [d|e] eqn:H; [|vm_compute in H; discriminate].
  exists d. split; [reflexivity|].
  destruct (effect_dispatch_sound sample_authorizer sample_authorizer sample_effect sample_lease
    lease_scope lease_session "executor-1" 20 d sample_authorizer_reachable (rtc_refl _ _) H)
    as [Hd _]. exact Hd.
Defined.

(** The ledger survives a restart exactly; what was contested does not: a
    restored authorizer starts with nothing contested, until the revoked roots
    are propagated to it again. *)
Theorem effect_recovery_roundtrip (a : EffectAuthorizer) :
  effects_reachable a ->
  exists s, effects_snapshot a = Ok s /\
    effects_from_snapshot s
    = Ok {| ea_authorized_by_idempotency := ea_authorized_by_idempotency a;
            ea_contest_state := ∅; ea_contest_annotations := [] |}.
Proof.
  intros Hr. destruct (effects_restore a (effects_reachable_inv a Hr)) as (Hw & Hrec & Hsnap).
  eexists. split; [exact Hsnap|]. unfold effects_from_snapshot. rewrite Hw. cbn [rbind]. exact Hrec.
Qed.

Lemma effect_recovery_roundtrip_witness :
  exists s, effects_snapshot sample_authorizer = Ok s /\ length (es_records s) = 1%nat.
Proof.
  destruct (effect_recovery_roundtrip sample_authorizer sample_authorizer_reachable) as (s & Hs & _).
  exists s. split; [exact Hs|]. vm_compute in Hs. injection Hs as <-. reflexivity.
Defined.

(** ** Break-glass runs *)

Record GlassCall : Type := {
  gc_principal : PrincipalRef;
  gc_operation : OperationBinding;
  gc_work_scope : WorkScopeBinding;
  gc_session : SessionBinding;
  gc_now : LogicalTime;
}.

(** A presentation of the authorization, or ([None]) its revocation. *)
Definition glass_call (c : option GlassCall) (b : BreakGlassAuthorization)
    : BreakGlassAuthorization * option (GlassCall * BreakGlassPermit) :=
  match c with
  | None => (break_glass_revoke b, None)
  | Some c =>
      let (b', r) := authorize_once (gc_principal c) (gc_operation c) (gc_work_scope c)
                       (gc_session c) (gc_now c) b in
      (b', match r with Ok p => Some (c, p) | Err _ => None end)
  end.

Fixpoint glass_run (calls : list (option GlassCall)) (b : BreakGlassAuthorization)
    : list (GlassCall * BreakGlassPermit) :=
  match calls with
  | [] => []
  | c :: calls' =>
      let (b', p) := glass_call c b in
      match p with
      | Some p => p :: glass_run calls' b'
      | None => glass_run calls' b'
      end
  end.

Section BreakGlass.
(** What a granted permit has passed. *)
Definition glass_granted (b : BreakGlassAuthorization) (x : GlassCall * BreakGlassPermit) : Prop :=
  gc_principal x.1 = bg_recovery_principal b /\ gc_operation x.1 = bg_exact_operation b /\
  bp_exact_operation x.2 = bg_exact_operation b /\
  bp_audit_obligations x.2 = bg_audit_obligations b /\ gc_now x.1 < bg_expires_at b.

Lemma glass_call_spec c b :
  let (b', p) := glass_call c b in
  (exists state, b' = set_break_glass state b) /\
  match p with
  | Some x => bg_state b = BAvailable /\ bg_state b' <> BAvailable /\ glass_granted b x
  | None => bg_state b <> BAvailable -> bg_state b' <> BAvailable
  end.
Proof.
  destruct c as [c|]; simpl.
  - unfold authorize_once, mseq, mstate, mlift, mmodify, mthrow, mret_ok.
    destruct (bg_state b) eqn:Hs; try (split; [exists (bg_state b); by destruct b|congruence]).
    destruct (bg_expires_at b <=? gc_now c) eqn:Ht; [by split; [eexists|]|].
    destruct (break_glass_binding _ _ _); [|by split; [exists BAvailable; rewrite <- Hs; destruct b|]].
    destruct (_ || _) eqn:Hg; simpl; [by split; [exists BAvailable; rewrite <- Hs; destruct b|]|].
    bool_facts. split; [by eexists|]. unfold glass_granted. simpl. split_and!; try done. lia.
  - unfold break_glass_revoke. case_bool_decide; [by split; [eexists|]|].
    split; [exists (bg_state b); by destruct b|done].
Qed.

Lemma glass_run_spec calls : forall b,
  Forall (glass_granted b) (glass_run calls b) /\
  (length (glass_run calls b) <= if decide (bg_state b = BAvailable) then 1 else 0)%nat.
Proof.
  induction calls as [|c calls IH]; intros b; simpl; [split; [done|case_decide; lia]|].
  pose proof (glass_call_spec c b) as Hs. destruct (glass_call c b) as [b' p].
  destruct Hs as [[state ->] Hp]. destruct (IH (set_break_glass state b)) as [Hall Hlen].
  destruct p as [x|].
  - destruct Hp as (Hav & Hna & Hgr). rewrite decide_False in Hlen by done.
    rewrite decide_True by done. split; [by constructor|]. simpl. lia.
  - split; [done|]. case_decide as H1; case_decide as H2; try lia. exfalso. by apply Hp in H1.
Qed.
End BreakGlass.

(** A break-glass authorization yields at most one permit over its whole life,
    however it is presented; the permit goes to the recovery principal, before
    expiry, for exactly the operation it was issued for, with its audit
    obligations. *)
Theorem break_glass_once (authorization_id : string) (recovery_principal : PrincipalRef)
    (exact_operation : OperationBinding) (authority_binding : AuthorityBinding)
    (work_scope : WorkScopeBinding) (session : SessionBinding) (expires_at : LogicalTime)
    (audit_obligations : list ReceiptObligation) (b : BreakGlassAuthorization)
    (calls : list (option GlassCall)) :
  BreakGlassAuthorization_new authorization_id recovery_principal exact_operation authority_binding
    work_scope session expires_at audit_obligations = Ok b ->
  (length (glass_run calls b) <= 1)%nat /\
  forall c p, (c, p) ∈ glass_run calls b ->
    gc_principal c = recovery_principal /\ gc_operation c = exact_operation /\
    bp_exact_operation p = exact_operation /\ bp_audit_obligations p = audit_obligations /\
    gc_now c < expires_at.
Proof.
  intros H. unfold BreakGlassAuthorization_new in H. do 4 apply check_ok in H as [_ H].
  injection H as <-. match goal with |- context [glass_run calls ?x] => set (b := x) end.
  destruct (glass_run_spec calls b) as [Hall Hlen]. split; [done|].
  intros c p Hin. rewrite Forall_forall in Hall. exact (Hall (c, p) Hin).
Qed.

Section GlassSample.
Definition glass_operation : OperationBinding :=
  {| op_operation_id := "operation-1"; op_request_id := "request-1"; op_idempotency_key := "key-1";
     op_operation_kind := "recover"; op_effect := ExternalEffect; op_state_fence := lease_fence |}.

Definition sample_glass : BreakGlassAuthorization :=
  {| bg_authorization_id := "glass-1"; bg_recovery_principal := "operator";
     bg_exact_operation := glass_operation; bg_authority_binding := lease_binding;
     bg_work_scope := lease_scope; bg_session := lease_session; bg_expires_at := 50;
     bg_audit_obligations := [ExternalReadback]; bg_state := BAvailable |}.

Definition glass_use : GlassCall :=
  {| gc_principal := "operator"; gc_operation := glass_operation; gc_work_scope := lease_scope;
     gc_session := lease_session; gc_now := 10 |}.
End GlassSample.

Lemma break_glass_once_witness :
  (length (glass_run [Some glass_use; None; Some glass_use] sample_glass) <= 1)%nat /\
  length (glass_run [Some glass_use; None; Some glass_use] sample_glass) = 1%nat.
Proof.
  assert (H : BreakGlassAuthorization_new "glass-1" "operator" glass_operation lease_binding
    lease_scope lease_session 50 [ExternalReadback] = Ok sample_glass) by (by vm_compute).
  split; [|by vm_compute].
  exact (proj1 (break_glass_once _ _ _ _ _ _ _ _ _ [Some glass_use; None; Some glass_use] H)).
Defined.

(** ** Effect receipts *)

Section EffectReceipts.
Context (sha256 : list Z -> list Z) (core_json : ReceiptCore -> result string (list Z)).

Definition reconcile_all (attempts : list (EffectOutcome * ReceiptEnvelope)) (c : CompiledEffect)
    : CompiledEffect :=
  fold_left (fun c x => (compiled_reconcile sha256 core_json x.1 x.2 c).1) attempts c.

(** The outcome is still unknown, or terminal on a receipt of this effect. *)
Definition outcome_proved (e : AuthorizedEffect) (r : EffectReceipt) : Prop :=
  ef_authorized_effect r = e /\
  (is_unknown (ef_outcome r) = true /\ ef_canonical_receipt r = None \/
   is_unknown (ef_outcome r) = false /\ exists receipt, ef_canonical_receipt r = Some receipt /\
     validate_terminal_receipt sha256 core_json e (ef_outcome r) receipt = Ok tt).

Lemma compiled_reconcile_spec outcome receipt c :
  outcome_proved (ce_authorized c) (ce_receipt c) ->
  let (c', r) := compiled_reconcile sha256 core_json outcome receipt c in
  ce_authorized c' = ce_authorized c /\ outcome_proved (ce_authorized c) (ce_receipt c') /\
  (is_unknown (ef_outcome (ce_receipt c)) = false ->
   c' = c /\ r = Err InvalidLifecycleTransition) /\
  (r = Ok tt -> ef_outcome (ce_receipt c') = outcome /\
                ef_canonical_receipt (ce_receipt c') = Some receipt).
Proof.
  intros Hc. pose proof Hc as [Heq _]. unfold compiled_reconcile, mseq, mstate, mlift, mmodify, effect_reconcile.
  destruct (is_unknown (ef_outcome (ce_receipt c))) eqn:Hu; cbn [negb guard_err rbind].
  2: { split_and!; [done|done|done|done]. }
  unfold effect_terminal. destruct (is_unknown outcome) eqn:Ho; cbn [guard_err rbind].
  { split_and!; [done|done|done|done]. }
  destruct (validate_terminal_receipt _ _ _ _ _) as [[]|err] eqn:Hv; cbn [rbind].
  - split_and!; [done| |done|done]. split; [done|]. right. simpl. split; [done|].
    exists receipt. split; [done|]. by rewrite <- Heq.
  - split_and!; [done|done|done|done].
Qed.

Lemma reconcile_all_spec attempts : forall c,
  outcome_proved (ce_authorized c) (ce_receipt c) ->
  ce_authorized (reconcile_all attempts c) = ce_authorized c /\
  outcome_proved (ce_authorized c) (ce_receipt (reconcile_all attempts c)) /\
  (is_unknown (ef_outcome (ce_receipt c)) = false -> reconcile_all attempts c = c).
Proof.
  induction attempts as [|[o r] attempts IH]; intros c Hc; simpl; [done|].
  pose proof (compiled_reconcile_spec o r c Hc) as Hs.
  destruct (compiled_reconcile sha256 core_json o r c) as [c1 res]. simpl.
  destruct Hs as (Ha & H1 & Hfin & _). rewrite <- Ha in H1. destruct (IH c1 H1) as (Ha' & H2 & Hf).
  rewrite Ha in *. split_and!; [done|done|]. intros Hu. destruct (Hfin Hu) as [-> _]. by apply Hf.
Qed.
End EffectReceipts.

(** The outcome of a compiled effect stays unknown until a receipt that
    validates and names this operation, key and fence proves one, and is then
    final: from any state that attempts at reconciliation reach, later attempts
    are refused once the outcome is terminal and change nothing. *)
Theorem effect_outcome_final (sha256 : list Z -> list Z)
    (core_json : ReceiptCore -> result string (list Z)) (contract_json : ActionContract -> option (list Z))
    (contract : ActionContract) (operation : OperationBinding)
    (operation_name resource_ref executor_boundary : string) (work_scope : WorkScopeBinding)
    (session : SessionBinding) (now : LogicalTime) (s s' : EffectAuthorizer * ActionLease)
    (c : CompiledEffect) (before after : list (EffectOutcome * ReceiptEnvelope)) :
  compile_effectful_action sha256 contract_json contract operation operation_name resource_ref
    executor_boundary work_scope session now s = (s', Ok c) ->
  let c1 := reconcile_all sha256 core_json before c in
  is_unknown (ef_outcome (ce_receipt c)) = true /\
  outcome_proved sha256 core_json (ce_authorized c) (ce_receipt c1) /\
  (is_unknown (ef_outcome (ce_receipt c1)) = false -> reconcile_all sha256 core_json after c1 = c1).
Proof.
  intros H c1.
  assert (Hc : outcome_proved sha256 core_json (ce_authorized c) (ce_receipt c) /\
               is_unknown (ef_outcome (ce_receipt c)) = true).
  { unfold compile_effectful_action, mseq, mlift, mret_ok in H.
    destruct (compile_proposal _ _ _ _ _ _) as [p|err]; [|done].
    destruct (effect_authorize _ _ _ _ _ s) as [s1 [e|err]]; [|done].
    destruct (effect_unknown _ _) as [r|err] eqn:Hu; [|done]. injection H as <- <-.
    unfold effect_unknown in Hu. apply check_ok in Hu as [_ [= <-]]. split; [|done].
    split; [done|]. by left. }
  destruct Hc as [Hc Hu]. destruct (reconcile_all_spec sha256 core_json before c Hc) as (Ha & H1 & _).
  split_and!; [done|done|]. intros Hf.
  rewrite <- Ha in H1. by apply (reconcile_all_spec sha256 core_json after c1).
Qed.

Section CompiledSample.
Definition sample_contract : ActionContract :=
  {| ac_action_id := "action-1"; ac_task_id := "task-1"; ac_intent := "write a file";
     ac_work_scope := lease_scope; ac_authority_ref := "authority-1"; ac_read_set := ∅;
     ac_effect_set := {["repo"]}; ac_impact_class := Reversible; ac_preserved_invariants := ∅;
     ac_expected_observable := "file changed"; ac_verifier_ref := "verifier-1";
     ac_rollback_or_compensation := "restore"; ac_stop_conditions := {["done"]} |}.

Definition sample_compile : (EffectAuthorizer * ActionLease) * AR CompiledEffect :=
  compile_effectful_action zero_sha256 (fun _ => Some []) sample_contract (effect_operation "key-1")
    "write" "repo" "executor-1" lease_scope lease_session 10 (EffectAuthorizer_default, sample_lease).
End CompiledSample.

Lemma effect_outcome_final_witness :
  exists s' c, sample_compile = (s', Ok c) /\ is_unknown (ef_outcome (ce_receipt c)) = true.
Proof.
  destruct sample_compile as [s' [c|e]] eqn:H; [|vm_compute in H; discriminate].
  exists s', c. split; [reflexivity|].
  destruct (effect_outcome_final zero_sha256 no_json (fun _ => Some []) sample_contract
    (effect_operation "key-1") "write" "repo" "executor-1" lease_scope lease_session 10
    (EffectAuthorizer_default, sample_lease) s' c [] [] H) as [Hu _]. exact Hu.
Defined.
