(* ===== verification/CoordinationData.v ===== *)
(** * Coordination: data

    The records of the multi-actor coordination owner
    (crates/governor/eliot-coordination/src/lib.rs, integration_candidate.rs,
    work_lease_issuance.rs) and the retained reviews it reads
    (peer_communication.rs). [co_*] are the fields of [CoordinationOwner]; its
    peer messaging maps (messages, streams, cursors, boards, conflicts, live
    obligations) are left out: no operation modelled here reads or writes
    them. *)

From Stdlib Require Import String.
From S2P Require Import Prelude RustText Contracts.

#[local] Open Scope string_scope.
#[local] Open Scope Z_scope.

(** ** Errors *)

Inductive CoordinationError : Type :=
| InvalidField (field : string)
| NotFound (kind id : string)
| IdempotencyConflict (request : string)
| FenceMismatch
| EpochMismatch
| LeaseOwnerMismatch (holder : string)
| LeaseExpired
| SessionExpired
| LeaseNotYetValid
| WorkAlreadyOwned
| IllegalTransition (from to : string)
| Duplicate (id : string)
| CausalPredecessorMismatch
| InvalidState
| NoActiveBinding
| AmbiguousActiveBinding
| ActiveWorkLeaseSelectionCeilingExceeded (limit : Z)
| LegacyWorkLeaseCannotBeCanonicalized
| IssuanceEvidenceEncoding
| UnknownPeerKind (kind : string)
| UnknownPeerSchema (schema : string)
| UnknownPeerField (field : string)
| DuplicatePeerField (field : string)
| MissingPeerField (field : string)
| PeerSemanticConflict (id : string)
| PeerBackpressure (scope : string) (limit : Z)
| PeerExpired (id : string)
| PeerDeliveryUnknown (id : string)
| PeerPrivacyDenied (id : string)
| LivePeerDurabilityRequired
| PeerSafeBoundaryUnavailable (id : string)
| PeerCrossScopeRejected (id : string)
| PeerAuthorityRejected (id : string)
| PeerReviewAnchorInvalid (id : string)
| PeerResolutionRequiresExternal (id : string)
| PeerCompactionRequiresPolicy (scope : string)
| PeerRetractionRejected (id : string).

#[global] Instance CoordinationError_eq_dec : EqDecision CoordinationError.
Proof. solve_decision. Defined.

Abbreviation CR := (result CoordinationError).

(** ** States *)

Inductive SessionState : Type :=
| Active
| Quiescing
| Lost
| Closed.

#[global] Instance SessionState_eq_dec : EqDecision SessionState.
Proof. solve_decision. Defined.

Inductive WorkState : Type :=
| Ready
| Claimed
| Running
| Checkpointed
| Submitted
| Reassigned
| Cancelled
| Failed.

#[global] Instance WorkState_eq_dec : EqDecision WorkState.
Proof. solve_decision. Defined.

(** [{:?}] of a work state. *)
Definition work_state_debug (s : WorkState) : string :=
  match s with
  | Ready => "Ready"
  | Claimed => "Claimed"
  | Running => "Running"
  | Checkpointed => "Checkpointed"
  | Submitted => "Submitted"
  | Reassigned => "Reassigned"
  | Cancelled => "Cancelled"
  | Failed => "Failed"
  end.

(** The pattern [Claimed | Running | Checkpointed | Reassigned]. *)
Definition work_active (s : WorkState) : bool :=
  match s with
  | Claimed | Running | Checkpointed | Reassigned => true
  | _ => false
  end.

Inductive CoordinationEventKind : Type :=
| EvSessionRegistered
| EvWorkRegistered
| EvWorkClaimed
| EvHeartbeat
| EvMessageSent
| EvCheckpointed
| EvResultSubmitted
| EvIntegrationCandidateSubmitted
| EvIntegrationCandidateStaled
| EvIntegrationClaimed
| EvWorkReassigned
| EvReadyAdmitted
| EvBoardEntryPosted
| EvBoardEntryRevised
| EvReviewItemSubmitted
| EvPeerConflictRecorded.

#[global] Instance CoordinationEventKind_eq_dec : EqDecision CoordinationEventKind.
Proof. solve_decision. Defined.

(** ** Records of the owner *)

Record CoordinationEvent : Type := {
  ce_sequence : Z;
  ce_event_id : string;
  ce_idempotency_key : string;
  ce_kind : CoordinationEventKind;
  ce_subject_id : string;
  ce_actor_id : string;
  ce_predecessor : option Z;
  ce_state_fence : StateFence;
  ce_authority_epoch : EpochId;
  ce_payload_digest : string;
  ce_observed_at : ClockReading;
}.

#[global] Instance CoordinationEvent_eq_dec : EqDecision CoordinationEvent.
Proof. solve_decision. Defined.

Record AgentSession : Type := {
  as_session_id : string;
  as_principal_id : string;
  as_route_ref : string;
  as_state : SessionState;
  as_authority_epoch : EpochId;
  as_state_fence : StateFence;
  as_last_heartbeat : Z;
  as_heartbeat_deadline : Z;
}.

#[global] Instance AgentSession_eq_dec : EqDecision AgentSession.
Proof. solve_decision. Defined.

Record WorkItem : Type := {
  wi_work_item_id : string;
  wi_task_id : string;
  wi_state : WorkState;
  wi_state_fence : StateFence;
  wi_owner_session_id : option string;
  wi_lease_id : option string;
  wi_attempt : Z;
  wi_checkpoint_ref : option string;
  wi_result_ref : option string;
}.

#[global] Instance WorkItem_eq_dec : EqDecision WorkItem.
Proof. solve_decision. Defined.

Record FinishCoordinationProjection : Type := {
  fp_task_id : string;
  fp_state_fence : StateFence;
  fp_artifact_refs : list string;
  fp_unresolved_refs : list string;
  fp_descendant_receipt_ref : option string;
}.

Record WorkLease : Type := {
  wl_lease_id : string;
  wl_work_item_id : string;
  wl_holder_session_id : string;
  wl_authority_epoch : EpochId;
  wl_state_fence : StateFence;
  wl_issued_at : Z;
  wl_expires_at : Z;
  wl_last_heartbeat : Z;
  wl_retired_at : option Z;
}.

#[global] Instance WorkLease_eq_dec : EqDecision WorkLease.
Proof. solve_decision. Defined.

Record ActiveWorkLeaseProjection : Type := {
  ap_session : AgentSession;
  ap_work_item : WorkItem;
  ap_lease : WorkLease;
}.

Definition ACTIVE_WORK_LEASE_SELECTION_CEILING : Z := 64.

Inductive ActiveWorkLeaseSelection : Type :=
| SelNone
| SelUnique (projection : ActiveWorkLeaseProjection)
| SelAmbiguous (projections : list ActiveWorkLeaseProjection).

(** ** Requests and receipts *)

Record WorkLeaseRequest : Type := {
  wr_request_id : string;
  wr_lease_id : string;
  wr_work_item_id : string;
  wr_session_id : string;
  wr_authority_epoch : EpochId;
  wr_state_fence : StateFence;
  wr_now : Z;
  wr_lease_duration : Z;
}.

#[global] Instance WorkLeaseRequest_eq_dec : EqDecision WorkLeaseRequest.
Proof. solve_decision. Defined.

Record WorkLeaseDecision : Type := { wd_lease : WorkLease; wd_event : CoordinationEvent }.

#[global] Instance WorkLeaseDecision_eq_dec : EqDecision WorkLeaseDecision.
Proof. solve_decision. Defined.

Record RegisterSession : Type := {
  rg_request_id : string;
  rg_session_id : string;
  rg_principal_id : string;
  rg_route_ref : string;
  rg_authority_epoch : EpochId;
  rg_state_fence : StateFence;
  rg_now : Z;
  rg_heartbeat_deadline : Z;
}.

Record AgentHeartbeat : Type := {
  hb_request_id : string;
  hb_session_id : string;
  hb_lease_id : string;
  hb_authority_epoch : EpochId;
  hb_state_fence : StateFence;
  hb_now : Z;
  hb_extend_to : Z;
}.

Record HeartbeatAck : Type := { ha_lease : WorkLease; ha_event : CoordinationEvent }.

Record MailboxMessageDraft : Type := {
  md_request_id : string;
  md_message_id : string;
  md_sender_session_id : string;
  md_recipient_session_id : string;
  md_work_item_id : string;
  md_authority_epoch : EpochId;
  md_state_fence : StateFence;
  md_payload_digest : string;
  md_now : Z;
}.

Record MailboxMessage : Type := {
  mm_message_id : string;
  mm_sender_session_id : string;
  mm_recipient_session_id : string;
  mm_work_item_id : string;
  mm_payload_digest : string;
  mm_delivered : bool;
}.

Record MailboxReceipt : Type := { mr_message : MailboxMessage; mr_event : CoordinationEvent }.

Record WorkCheckpoint : Type := {
  ck_request_id : string;
  ck_checkpoint_id : string;
  ck_lease_id : string;
  ck_session_id : string;
  ck_work_item_id : string;
  ck_authority_epoch : EpochId;
  ck_state_fence : StateFence;
  ck_checkpoint_ref : string;
  ck_now : Z;
}.

Record CheckpointReceipt : Type := {
  cr_checkpoint_id : string;
  cr_work_item_id : string;
  cr_event : CoordinationEvent;
}.

Inductive ResultAdmissionCeiling : Type := CandidateArtifact.

Record AgentResultDraft : Type := {
  rd_request_id : string;
  rd_result_id : string;
  rd_lease_id : string;
  rd_session_id : string;
  rd_work_item_id : string;
  rd_authority_epoch : EpochId;
  rd_state_fence : StateFence;
  rd_result_ref : string;
  rd_ceiling : ResultAdmissionCeiling;
  rd_now : Z;
}.

Record AgentResultReceipt : Type := {
  rr_result_id : string;
  rr_work_item_id : string;
  rr_ceiling : ResultAdmissionCeiling;
  rr_event : CoordinationEvent;
}.

Record IntegrationLeaseRequest : Type := {
  ir_request_id : string;
  ir_lease_id : string;
  ir_candidate_id : string;
  ir_target_scope : string;
  ir_session_id : string;
  ir_authority_epoch : EpochId;
  ir_state_fence : StateFence;
  ir_now : Z;
  ir_lease_duration : Z;
}.

Record IntegrationLease : Type := {
  il_lease_id : string;
  il_candidate_id : option string;
  il_target_scope : string;
  il_holder_session_id : string;
  il_authority_epoch : EpochId;
  il_state_fence : StateFence;
  il_expires_at : Z;
}.

Record IntegrationLeaseDecision : Type := {
  id_lease : IntegrationLease;
  id_event : CoordinationEvent;
}.

Record ReassignWorkRequest : Type := {
  ra_request_id : string;
  ra_work_item_id : string;
  ra_old_lease_id : string;
  ra_new_lease_id : string;
  ra_new_session_id : string;
  ra_authority_epoch : EpochId;
  ra_state_fence : StateFence;
  ra_now : Z;
  ra_lease_duration : Z;
}.

Record CoordinationEventDraft : Type := {
  ed_request_id : string;
  ed_event_id : string;
  ed_kind : CoordinationEventKind;
  ed_subject_id : string;
  ed_actor_id : string;
  ed_predecessor : option Z;
  ed_authority_epoch : EpochId;
  ed_state_fence : StateFence;
  ed_payload_digest : string;
  ed_observed_at : ClockReading;
}.

Record CoordinationEventReceipt : Type := { er_event : CoordinationEvent }.

(** ** Integration candidates *)

Inductive IntegrationCandidateStatus : Type :=
| CandProposed
| CandReady
| CandStale
| CandIntegrating
| CandAccepted
| CandRejected
| CandConflicted
| CandUnknownOutcome.

#[global] Instance IntegrationCandidateStatus_eq_dec : EqDecision IntegrationCandidateStatus.
Proof. solve_decision. Defined.

(** [{:?}] of a candidate status. *)
Definition candidate_status_debug (s : IntegrationCandidateStatus) : string :=
  match s with
  | CandProposed => "Proposed"
  | CandReady => "Ready"
  | CandStale => "Stale"
  | CandIntegrating => "Integrating"
  | CandAccepted => "Accepted"
  | CandRejected => "Rejected"
  | CandConflicted => "Conflicted"
  | CandUnknownOutcome => "UnknownOutcome"
  end.

Record IntegrationCandidateRevision : Type := {
  cv_event_sequence : Z;
  cv_status : IntegrationCandidateStatus;
  cv_lease_id : option string;
  cv_observed_at : Z;
  cv_evidence_refs : list string;
  cv_unresolved_conflicts : list string;
  cv_unknowns : list string;
}.

Record IntegrationCandidate : Type := {
  ic_candidate_id : string;
  ic_task_id : string;
  ic_source_work_item_id : string;
  ic_producer_attempt : string;
  ic_producer_lineage : list string;
  ic_base_commit : string;
  ic_state_fence : StateFence;
  ic_worktree_or_artifact_refs : list string;
  ic_diff_ref : string;
  ic_changed_paths : gset string;
  ic_declared_read_effects : gset string;
  ic_declared_write_effects : gset string;
  ic_evidence_refs : list string;
  ic_verification_refs : list string;
  ic_unresolved_conflicts : list string;
  ic_unknowns : list string;
  ic_rollback_or_compensation : option string;
  ic_target_scope : string;
  ic_submitted_at : Z;
  ic_status : IntegrationCandidateStatus;
  ic_history : list IntegrationCandidateRevision;
}.

Record IntegrationCandidateDraft : Type := {
  cd_request_id : string;
  cd_candidate_id : string;
  cd_task_id : string;
  cd_source_work_item_id : string;
  cd_producer_attempt : string;
  cd_producer_lineage : list string;
  cd_session_id : string;
  cd_authority_epoch : EpochId;
  cd_state_fence : StateFence;
  cd_base_commit : string;
  cd_worktree_or_artifact_refs : list string;
  cd_diff_ref : string;
  cd_changed_paths : gset string;
  cd_declared_read_effects : gset string;
  cd_declared_write_effects : gset string;
  cd_evidence_refs : list string;
  cd_verification_refs : list string;
  cd_unresolved_conflicts : list string;
  cd_unknowns : list string;
  cd_rollback_or_compensation : option string;
  cd_target_scope : string;
  cd_now : Z;
}.

Record IntegrationCandidateReceipt : Type := {
  ct_candidate_id : string;
  ct_target_scope : string;
  ct_candidate : IntegrationCandidate;
  ct_event : CoordinationEvent;
}.

Record IntegrationQueue : Type := {
  iq_candidates : list IntegrationCandidate;
  iq_active_leases : list IntegrationLease;
}.

Record StaleIntegrationCandidateRequest : Type := {
  st_request_id : string;
  st_candidate_id : string;
  st_changed_from_base_commit : string;
  st_current_base_commit : string;
  st_target_scope : string;
  st_lease_id : string;
  st_session_id : string;
  st_authority_epoch : EpochId;
  st_state_fence : StateFence;
  st_now : Z;
}.

Record StagedIntegrationClaim : Type := {
  sc_lease : IntegrationLease;
  sc_candidate : IntegrationCandidate;
  sc_event : CoordinationEvent;
}.

(** ** Retained reviews *)

Inductive ReviewTargetKind : Type :=
| TargetPublicMessage
| TargetPublicPlan
| TargetPublicRationale
| TargetToolResult
| TargetDiff
| TargetSource
| TargetVerifierResult.

Inductive ReviewKind : Type :=
| Question
| Correction
| Objection
| RequestedChange
| MissingEvidence
| ScopeIssue
| AcceptanceIssue.

#[global] Instance ReviewKind_eq_dec : EqDecision ReviewKind.
Proof. solve_decision. Defined.

Inductive PeerReviewLifecycle : Type :=
| ReviewDraft
| PendingDelivery
| Delivered
| Answered
| Resolved
| RejectedWithReason
| ReviewStale
| Superseded.

#[global] Instance PeerReviewLifecycle_eq_dec : EqDecision PeerReviewLifecycle.
Proof. solve_decision. Defined.

Inductive ReviewCompleteness : Type :=
| Complete
| Partial
| Abstain.

Inductive PeerReviewStanding : Type :=
| StandingComplete
| StandingPartial
| StandingAbstained
| StandingExpired.

Inductive ReviewRecommendation : Type :=
| Approve
| ApproveWithChanges
| RequestChanges
| RecommendAbstain.

Inductive AnchorResolution : Type :=
| AnchorExact
| AnchorMoved
| AnchorModified
| AnchorAmbiguous
| AnchorStale
| AnchorDeleted
| AnchorUnavailable.

Definition satisfies_required_review (r : AnchorResolution) : bool :=
  match r with
  | AnchorExact | AnchorMoved | AnchorModified => true
  | AnchorAmbiguous | AnchorStale | AnchorDeleted | AnchorUnavailable => false
  end.

Inductive PeerDurability : Type :=
| Durable (owner_receipt : string)
| Volatile
| DurabilityUnavailable (reason : string).

Record PublicReference : Type := {
  pr_kind : string;
  pr_id : string;
  pr_revision : string;
  pr_digest : option string;
}.

Record PeerReviewCorrection : Type := {
  pc_review_id : string;
  pc_request_id : string;
  pc_correction_index : Z;
  pc_anchor_field : string;
  pc_anchor_resolution : AnchorResolution;
  pc_evidence_refs : list string;
  pc_author_session_id : string;
  pc_author_principal : string;
  pc_authority_epoch : EpochId;
  pc_state_fence : StateFence;
  pc_created_at : Z;
  pc_submission_sequence : Z;
  pc_durability : PeerDurability;
}.

Record AnchoredReview : Type := {
  rv_review_id : string;
  rv_request_id : string;
  rv_artifact_id : string;
  rv_artifact_revision : Z;
  rv_artifact_digest : string;
  rv_reviewer_session_id : string;
  rv_reviewer_principal : string;
  rv_operation : string;
  rv_target_kind : ReviewTargetKind;
  rv_kind : ReviewKind;
  rv_content : string;
  rv_criteria : list string;
  rv_proof_refs : list string;
  rv_anchor_field : string;
  rv_anchor_resolution : AnchorResolution;
  rv_findings : list string;
  rv_evidence_refs : list string;
  rv_response_refs : list PublicReference;
  rv_change_refs : list PublicReference;
  rv_verifier_refs : list PublicReference;
  rv_dissent : option string;
  rv_uncertainty : option string;
  rv_recommendation : ReviewRecommendation;
  rv_completeness : ReviewCompleteness;
  rv_standing : PeerReviewStanding;
  rv_lifecycle : PeerReviewLifecycle;
  rv_rejection_reason : option string;
  rv_expires_at : option Z;
  rv_conflict_id : option string;
  rv_authority_epoch : EpochId;
  rv_state_fence : StateFence;
  rv_created_at : Z;
  rv_submission_sequence : Z;
  rv_durability : PeerDurability;
  rv_corrections : list PeerReviewCorrection;
}.

Record PeerArtifactHead : Type := {
  ph_artifact_id : string;
  ph_revision : Z;
  ph_digest : string;
  ph_admitted_at : Z;
}.

(** ** Recorded origins *)

Record CorrelatedReview : Type := {
  cw_review_id : string;
  cw_operation : string;
  cw_artifact_revision : Z;
  cw_artifact_digest : string;
  cw_lifecycle : PeerReviewLifecycle;
  cw_matched_ref : string;
}.

Record CorrelatedCandidate : Type := {
  cc_candidate_id : string;
  cc_matched_ref : string;
  cc_diff_ref : string;
  cc_base_commit : string;
}.

Record RetainedArtifactRevision : Type := { ar_revision : Z; ar_digest : string }.

Record CandidateProvenance : Type := {
  cp_candidate_id : string;
  cp_submission_event_sequence : option Z;
  cp_lease_ids : list string;
  cp_diff_ref : string;
  cp_base_commit : string;
  cp_correlated_reviews : list CorrelatedReview;
  cp_verification_refs : list string;
  cp_gaps : list string;
}.

Record ArtifactProvenance : Type := {
  av_artifact_id : string;
  av_requested_revision : option Z;
  av_current_revision : option Z;
  av_current_digest : option string;
  av_retained_revisions : list RetainedArtifactRevision;
  av_reviews : list CorrelatedReview;
  av_correlated_candidates : list CorrelatedCandidate;
  av_gaps : list string;
}.

(** ** Issuance evidence *)

Inductive WorkLeaseIdError : Type :=
| IdBlank (field : string)
| IdControlCharacter (field : string)
| IdBoundaryWhitespace (field : string)
| IdTooLong (field : string).

Inductive WorkLeaseNamespace : Type := GovernorWorkLease.

#[global] Instance WorkLeaseNamespace_eq_dec : EqDecision WorkLeaseNamespace.
Proof. solve_decision. Defined.

Inductive WorkLeaseWireRevision : Type := V1.

#[global] Instance WorkLeaseWireRevision_eq_dec : EqDecision WorkLeaseWireRevision.
Proof. solve_decision. Defined.

Record WorkLeaseId : Type := {
  li_namespace : WorkLeaseNamespace;
  li_revision : WorkLeaseWireRevision;
  li_value : string;
}.

#[global] Instance WorkLeaseId_eq_dec : EqDecision WorkLeaseId.
Proof. solve_decision. Defined.

Inductive WorkLeaseIssuanceError : Type :=
| PostHocIssuanceRejected
| InconsistentOwnerEvidence
| EvidenceEncodingRejected
| CanonicalContractRejected.

Inductive WorkLeaseIssuanceFailure : Type :=
| FCoordination (e : CoordinationError)
| FEvidence (e : WorkLeaseIssuanceError).

Record WorkLeaseIssuanceProvenance : Type := {
  ip_canonical_work_lease_id : WorkLeaseId;
  ip_source_request : WorkLeaseRequest;
  ip_source_decision : WorkLeaseDecision;
  ip_evidence_commitment_sha256 : string;
}.

#[global] Instance WorkLeaseIssuanceProvenance_eq_dec : EqDecision WorkLeaseIssuanceProvenance.
Proof. solve_decision. Defined.

Record WorkLeaseIssuanceResult : Type := {
  is_decision : WorkLeaseDecision;
  is_provenance : WorkLeaseIssuanceProvenance;
}.

(** ** The owner *)

Record CoordinationOwner : Type := {
  co_sequence : Z;
  co_sessions : gmap string AgentSession;
  co_work : gmap string WorkItem;
  co_leases : gmap string WorkLease;
  co_integrations : gmap string IntegrationLease;
  co_integration_candidates : gmap string IntegrationCandidate;
  co_integration_lease_by_request : gmap string IntegrationLease;
  co_messages : gmap string MailboxMessage;
  co_event_by_request : gmap string CoordinationEvent;
  co_events : list CoordinationEvent;
  co_work_lease_issuance_by_request : gmap string WorkLeaseIssuanceProvenance;
  co_peer_reviews : gmap string AnchoredReview;
  co_peer_review_resolutions : gmap string AnchorResolution;
  co_peer_artifact_heads : gmap string PeerArtifactHead;
  co_peer_artifact_revisions : gmap (string * Z) string;
}.

Definition owner_new : CoordinationOwner :=
  {| co_sequence := 0; co_sessions := ∅; co_work := ∅; co_leases := ∅; co_integrations := ∅;
     co_integration_candidates := ∅; co_integration_lease_by_request := ∅; co_messages := ∅;
     co_event_by_request := ∅; co_events := []; co_work_lease_issuance_by_request := ∅;
     co_peer_reviews := ∅; co_peer_review_resolutions := ∅; co_peer_artifact_heads := ∅;
     co_peer_artifact_revisions := ∅ |}.

(** Assignments to fields of [self]. *)

Definition set_log (seq : Z) (by_request : gmap string CoordinationEvent)
    (events : list CoordinationEvent) (o : CoordinationOwner) : CoordinationOwner :=
  {| co_sequence := seq; co_sessions := co_sessions o; co_work := co_work o;
     co_leases := co_leases o; co_integrations := co_integrations o;
     co_integration_candidates := co_integration_candidates o;
     co_integration_lease_by_request := co_integration_lease_by_request o;
     co_messages := co_messages o; co_event_by_request := by_request; co_events := events;
     co_work_lease_issuance_by_request := co_work_lease_issuance_by_request o;
     co_peer_reviews := co_peer_reviews o;
     co_peer_review_resolutions := co_peer_review_resolutions o;
     co_peer_artifact_heads := co_peer_artifact_heads o;
     co_peer_artifact_revisions := co_peer_artifact_revisions o |}.

Definition set_records (sessions : gmap string AgentSession) (work : gmap string WorkItem)
    (leases : gmap string WorkLease) (messages : gmap string MailboxMessage)
    (o : CoordinationOwner) : CoordinationOwner :=
  {| co_sequence := co_sequence o; co_sessions := sessions; co_work := work;
     co_leases := leases; co_integrations := co_integrations o;
     co_integration_candidates := co_integration_candidates o;
     co_integration_lease_by_request := co_integration_lease_by_request o;
     co_messages := messages; co_event_by_request := co_event_by_request o;
     co_events := co_events o;
     co_work_lease_issuance_by_request := co_work_lease_issuance_by_request o;
     co_peer_reviews := co_peer_reviews o;
     co_peer_review_resolutions := co_peer_review_resolutions o;
     co_peer_artifact_heads := co_peer_artifact_heads o;
     co_peer_artifact_revisions := co_peer_artifact_revisions o |}.

Definition set_integration (integrations by_request : gmap string IntegrationLease)
    (candidates : gmap string IntegrationCandidate) (o : CoordinationOwner) : CoordinationOwner :=
  {| co_sequence := co_sequence o; co_sessions := co_sessions o; co_work := co_work o;
     co_leases := co_leases o; co_integrations := integrations;
     co_integration_candidates := candidates;
     co_integration_lease_by_request := by_request;
     co_messages := co_messages o; co_event_by_request := co_event_by_request o;
     co_events := co_events o;
     co_work_lease_issuance_by_request := co_work_lease_issuance_by_request o;
     co_peer_reviews := co_peer_reviews o;
     co_peer_review_resolutions := co_peer_review_resolutions o;
     co_peer_artifact_heads := co_peer_artifact_heads o;
     co_peer_artifact_revisions := co_peer_artifact_revisions o |}.

Definition set_issuance (issuance : gmap string WorkLeaseIssuanceProvenance)
    (o : CoordinationOwner) : CoordinationOwner :=
  {| co_sequence := co_sequence o; co_sessions := co_sessions o; co_work := co_work o;
     co_leases := co_leases o; co_integrations := co_integrations o;
     co_integration_candidates := co_integration_candidates o;
     co_integration_lease_by_request := co_integration_lease_by_request o;
     co_messages := co_messages o; co_event_by_request := co_event_by_request o;
     co_events := co_events o; co_work_lease_issuance_by_request := issuance;
     co_peer_reviews := co_peer_reviews o;
     co_peer_review_resolutions := co_peer_review_resolutions o;
     co_peer_artifact_heads := co_peer_artifact_heads o;
     co_peer_artifact_revisions := co_peer_artifact_revisions o |}.

Definition set_sessions (m : gmap string AgentSession) (o : CoordinationOwner) : CoordinationOwner :=
  set_records m (co_work o) (co_leases o) (co_messages o) o.
Definition set_work (m : gmap string WorkItem) (o : CoordinationOwner) : CoordinationOwner :=
  set_records (co_sessions o) m (co_leases o) (co_messages o) o.
Definition set_leases (m : gmap string WorkLease) (o : CoordinationOwner) : CoordinationOwner :=
  set_records (co_sessions o) (co_work o) m (co_messages o) o.
Definition set_messages (m : gmap string MailboxMessage) (o : CoordinationOwner)
    : CoordinationOwner :=
  set_records (co_sessions o) (co_work o) (co_leases o) m o.

(** A claimed item: [item.state], [owner_session_id], [lease_id] and
    [attempt] are assigned. *)
Definition set_assignment (state : WorkState) (session lease : string) (attempt : Z)
    (w : WorkItem) : WorkItem :=
  {| wi_work_item_id := wi_work_item_id w; wi_task_id := wi_task_id w; wi_state := state;
     wi_state_fence := wi_state_fence w; wi_owner_session_id := Some session;
     wi_lease_id := Some lease; wi_attempt := attempt;
     wi_checkpoint_ref := wi_checkpoint_ref w; wi_result_ref := wi_result_ref w |}.

Definition set_progress (state : WorkState) (checkpoint_ref result_ref : option string)
    (w : WorkItem) : WorkItem :=
  {| wi_work_item_id := wi_work_item_id w; wi_task_id := wi_task_id w; wi_state := state;
     wi_state_fence := wi_state_fence w; wi_owner_session_id := wi_owner_session_id w;
     wi_lease_id := wi_lease_id w; wi_attempt := wi_attempt w;
     wi_checkpoint_ref := checkpoint_ref; wi_result_ref := result_ref |}.

Definition set_lease_term (last_heartbeat expires_at : Z) (l : WorkLease) : WorkLease :=
  {| wl_lease_id := wl_lease_id l; wl_work_item_id := wl_work_item_id l;
     wl_holder_session_id := wl_holder_session_id l; wl_authority_epoch := wl_authority_epoch l;
     wl_state_fence := wl_state_fence l; wl_issued_at := wl_issued_at l;
     wl_expires_at := expires_at; wl_last_heartbeat := last_heartbeat;
     wl_retired_at := wl_retired_at l |}.

Definition retire (now : Z) (l : WorkLease) : WorkLease :=
  {| wl_lease_id := wl_lease_id l; wl_work_item_id := wl_work_item_id l;
     wl_holder_session_id := wl_holder_session_id l; wl_authority_epoch := wl_authority_epoch l;
     wl_state_fence := wl_state_fence l; wl_issued_at := wl_issued_at l;
     wl_expires_at := wl_expires_at l; wl_last_heartbeat := wl_last_heartbeat l;
     wl_retired_at := Some now |}.

(** [candidate.status = status; candidate.history.push(revision)] *)
Definition push_revision (status : IntegrationCandidateStatus)
    (revision : IntegrationCandidateRevision) (c : IntegrationCandidate) : IntegrationCandidate :=
  {| ic_candidate_id := ic_candidate_id c; ic_task_id := ic_task_id c;
     ic_source_work_item_id := ic_source_work_item_id c;
     ic_producer_attempt := ic_producer_attempt c; ic_producer_lineage := ic_producer_lineage c;
     ic_base_commit := ic_base_commit c; ic_state_fence := ic_state_fence c;
     ic_worktree_or_artifact_refs := ic_worktree_or_artifact_refs c;
     ic_diff_ref := ic_diff_ref c; ic_changed_paths := ic_changed_paths c;
     ic_declared_read_effects := ic_declared_read_effects c;
     ic_declared_write_effects := ic_declared_write_effects c;
     ic_evidence_refs := ic_evidence_refs c; ic_verification_refs := ic_verification_refs c;
     ic_unresolved_conflicts := ic_unresolved_conflicts c; ic_unknowns := ic_unknowns c;
     ic_rollback_or_compensation := ic_rollback_or_compensation c;
     ic_target_scope := ic_target_scope c; ic_submitted_at := ic_submitted_at c;
     ic_status := status; ic_history := ic_history c ++ [revision] |}.
