(* ===== verification/Coordination.v ===== *)
(** * Coordination: sessions, work and leases

    The operations of [CoordinationOwner] in
    crates/governor/eliot-coordination/src/lib.rs: sessions, work items, their
    leases, heartbeats, mailbox items, checkpoints, results, reassignment and
    caller-supplied events, with the reads over them. Each state-changing
    operation is a function to the owner it leaves and its result. *)

From Stdlib Require Import String.
From S2P Require Import Prelude RustText Contracts CoordinationData.

#[local] Open Scope string_scope.
#[local] Open Scope Z_scope.

Abbreviation CM := (M CoordinationOwner CoordinationError).

(** ** Field checks *)

Definition text (value field : string) : CR unit :=
  guard_err (is_blank value || has_control value) (InvalidField field).

Definition nonzero (value : Z) (field : string) : CR unit :=
  guard_err (value =? 0) (InvalidField field).

Definition validate_active_session_heartbeat (session : AgentSession) (now : option Z) : CR unit :=
  check? guard_err ((as_heartbeat_deadline session =? 0)
                    || (as_heartbeat_deadline session <? as_last_heartbeat session))
           (InvalidField "heartbeat_deadline");
  match now with
  | Some now =>
      check? guard_err (now <? as_last_heartbeat session) (InvalidField "last_heartbeat");
      guard_err (as_heartbeat_deadline session <? now) SessionExpired
  | None => Ok tt
  end.

(** ** Shared checks of the owner *)

Definition common (epoch : EpochId) (fence : StateFence) : CR unit :=
  check? guard_err (negb (is_same_authority epoch (authority_epoch fence))) EpochMismatch;
  map_err (fun _ => FenceMismatch) (StateFence_validate fence).

Definition request (id : string) : CR unit := text id "request_id".

(** [(self.sequence != 0).then_some(self.sequence)] *)
Definition predecessor_of (o : CoordinationOwner) : option Z :=
  if co_sequence o =? 0 then None else Some (co_sequence o).

Definition commit (request_id : string) (event : CoordinationEvent) : CM CoordinationEvent :=
  let! o := mstate in
  do! mlift (request request_id);
  match co_event_by_request o !! request_id with
  | Some old =>
      if (ce_payload_digest old == ce_payload_digest event) && (ce_kind old == ce_kind event)
         && (ce_subject_id old == ce_subject_id event)
      then mret_ok old
      else mthrow (IdempotencyConflict request_id)
  | None =>
      do! mmodify (fun o => set_log (ce_sequence event)
                              (<[request_id := event]> (co_event_by_request o))
                              (co_events o ++ [event]) o);
      mret_ok event
  end.

Definition event (o : CoordinationOwner) (request_id event_id : string)
    (kind : CoordinationEventKind) (subject actor : string) (predecessor : option Z)
    (epoch : EpochId) (fence : StateFence) (digest : string) (observed : ClockReading)
    : CR CoordinationEvent :=
  check? text event_id "event_id";
  check? text subject "subject_id";
  check? text actor "actor_id";
  check? text digest "payload_digest";
  check? map_err (fun _ => InvalidField "observed_at") (ClockReading_validate observed);
  check? guard_err ((predecessor != Some (co_sequence o)) && negb (co_sequence o =? 0))
           CausalPredecessorMismatch;
  let? seq := ok_or (checked_add (co_sequence o) 1) (InvalidField "sequence") in
  Ok {| ce_sequence := seq; ce_event_id := event_id; ce_idempotency_key := request_id;
        ce_kind := kind; ce_subject_id := subject; ce_actor_id := actor;
        ce_predecessor := predecessor; ce_state_fence := fence; ce_authority_epoch := epoch;
        ce_payload_digest := digest; ce_observed_at := observed |}.

Definition session (o : CoordinationOwner) (id : string) (epoch : EpochId) (fence : StateFence)
    : CR AgentSession :=
  let? s := ok_or (co_sessions o !! id) (NotFound "session" id) in
  check? common epoch fence;
  check? guard_err (negb (is_same_authority (as_authority_epoch s) epoch)
                    || negb (is_compatible_with (as_state_fence s) fence)
                    || (as_state s != Active)) FenceMismatch;
  Ok s.

Definition lease (o : CoordinationOwner) (id holder : string) (now : Z) (epoch : EpochId)
    (fence : StateFence) : CR WorkLease :=
  let? l := ok_or (co_leases o !! id) (NotFound "lease" id) in
  check? guard_err (wl_holder_session_id l != holder)
           (LeaseOwnerMismatch (wl_holder_session_id l));
  check? guard_err (wl_expires_at l <? now) LeaseExpired;
  check? guard_err (negb (is_same_authority (wl_authority_epoch l) epoch)
                    || (wl_state_fence l != fence)) FenceMismatch;
  check? guard_err (is_some (wl_retired_at l)) InvalidState;
  Ok l.

Definition validate_integration_lease (o : CoordinationOwner)
    (target_scope lease_id session_id : string) (now : Z) (epoch : EpochId) (fence : StateFence)
    : CR unit :=
  let? s := session o session_id epoch fence in
  check? validate_active_session_heartbeat s (Some now);
  let? l := ok_or (co_integrations o !! target_scope) WorkAlreadyOwned in
  check? guard_err ((il_lease_id l != lease_id) || (il_holder_session_id l != session_id))
           (LeaseOwnerMismatch (il_holder_session_id l));
  check? guard_err (il_expires_at l <? now) LeaseExpired;
  guard_err ((il_state_fence l != fence)
             || negb (is_same_authority (il_authority_epoch l) epoch)) FenceMismatch.

(** ** Reads *)

Definition current_sequence (o : CoordinationOwner) : Z := co_sequence o.

Definition events (o : CoordinationOwner) : list CoordinationEvent := co_events o.

Definition read_active_session (o : CoordinationOwner) (session_id : string) (now : Z)
    (epoch : EpochId) (fence : StateFence) : CR AgentSession :=
  check? text session_id "session_id";
  check? common epoch fence;
  let? s := ok_or (co_sessions o !! session_id) (NotFound "session" session_id) in
  check? guard_err ((as_session_id s != session_id)
                    || negb (is_same_authority (as_authority_epoch s) epoch)
                    || (as_state_fence s != fence)) FenceMismatch;
  check? guard_err (as_state s != Active) InvalidState;
  check? validate_active_session_heartbeat s (Some now);
  Ok s.

(** [lease.issued_at == 0 || lease.expires_at == 0 || lease.issued_at > lease.expires_at] *)
Definition bad_interval (l : WorkLease) : bool :=
  (wl_issued_at l =? 0) || (wl_expires_at l =? 0) || (wl_expires_at l <? wl_issued_at l).

Definition read_active_work_lease (o : CoordinationOwner) (work_item_id session_id : string)
    (now : Z) (epoch : EpochId) (fence : StateFence) : CR ActiveWorkLeaseProjection :=
  check? text work_item_id "work_item_id";
  check? text session_id "session_id";
  check? common epoch fence;
  let? s := read_active_session o session_id now epoch fence in
  let? w := ok_or (co_work o !! work_item_id) (NotFound "work_item" work_item_id) in
  check? guard_err ((wi_work_item_id w != work_item_id) || (wi_state_fence w != fence))
           FenceMismatch;
  check? guard_err (negb (work_active (wi_state w))) InvalidState;
  check? guard_err (wi_owner_session_id w != Some session_id)
           (LeaseOwnerMismatch (default "" (wi_owner_session_id w)));
  let? lease_id := ok_or (wi_lease_id w) InvalidState in
  let? l := ok_or (co_leases o !! lease_id) (NotFound "lease" lease_id) in
  check? guard_err ((wl_lease_id l != lease_id) || (wl_work_item_id l != work_item_id)
                    || (wl_holder_session_id l != session_id))
           (LeaseOwnerMismatch (wl_holder_session_id l));
  check? guard_err (negb (is_same_authority (wl_authority_epoch l) epoch)
                    || (wl_state_fence l != fence)) FenceMismatch;
  check? guard_err (is_some (wl_retired_at l)) InvalidState;
  check? guard_err (bad_interval l) (InvalidField "lease_interval");
  check? guard_err ((wl_last_heartbeat l <? wl_issued_at l)
                    || (wl_expires_at l <? wl_last_heartbeat l)
                    || (now <? wl_last_heartbeat l)) (InvalidField "lease_last_heartbeat");
  check? guard_err (now <? wl_issued_at l) LeaseNotYetValid;
  check? guard_err (wl_expires_at l <? now) LeaseExpired;
  Ok {| ap_session := s; ap_work_item := w; ap_lease := l |}.

(** One work item of the selection: the lease identifiers linked so far and
    the projections kept. *)
Definition select_item (o : CoordinationOwner) (now : Z) (epoch : EpochId) (fence : StateFence)
    (acc : gset string * list ActiveWorkLeaseProjection) (kw : string * WorkItem)
    : CR (gset string * list ActiveWorkLeaseProjection) :=
  let (linked, projections) := acc in
  let (work_item_id, w) := kw in
  let linked' := match wi_lease_id w with Some l => {[l]} ∪ linked | None => linked end in
  if negb (work_active (wi_state w)) then Ok (linked', projections)
  else
    let? session_id := ok_or (wi_owner_session_id w) InvalidState in
    check? guard_err (negb (is_some (wi_lease_id w))) InvalidState;
    let? p := read_active_work_lease o work_item_id session_id now epoch fence in
    Ok (linked',
        if usize_of_len projections <? ACTIVE_WORK_LEASE_SELECTION_CEILING
        then (projections ++ [p])%list else projections).

(** One lease of the selection: retired leases must be unlinked, live ones
    linked. *)
Definition select_lease (now : Z) (linked : gset string) (kl : string * WorkLease) : CR unit :=
  let (lease_id, l) := kl in
  if is_some (wl_retired_at l)
  then guard_err (bool_decide (lease_id ∈ linked)) InvalidState
  else guard_err ((now <=? wl_expires_at l) && negb (bool_decide (lease_id ∈ linked))) InvalidState.

Definition active_count (o : CoordinationOwner) : Z :=
  usize_of_len (List.filter (fun w => work_active (wi_state w)) (btree_values (co_work o))).

Definition read_active_work_lease_selection (o : CoordinationOwner) (now : Z) (epoch : EpochId)
    (fence : StateFence) : CR ActiveWorkLeaseSelection :=
  check? common epoch fence;
  check? for_each (fun ks =>
           if as_state ks.2 == Active
           then (let? _ := read_active_session o ks.1 now epoch fence in Ok tt)
           else Ok tt) (btree_iter (co_sessions o));
  let? (linked, projections) :=
    fold_res (select_item o now epoch fence) (∅, []) (btree_iter (co_work o)) in
  check? for_each (select_lease now linked) (btree_iter (co_leases o));
  check? guard_err (ACTIVE_WORK_LEASE_SELECTION_CEILING <? active_count o)
           (ActiveWorkLeaseSelectionCeilingExceeded ACTIVE_WORK_LEASE_SELECTION_CEILING);
  Ok match projections with
     | [] => SelNone
     | [p] => SelUnique p
     | _ => SelAmbiguous projections
     end.

Definition read_unique_active_work_lease (o : CoordinationOwner) (now : Z) (epoch : EpochId)
    (fence : StateFence) : CR ActiveWorkLeaseProjection :=
  let? selection := read_active_work_lease_selection o now epoch fence in
  match selection with
  | SelNone => Err NoActiveBinding
  | SelUnique p => Ok p
  | SelAmbiguous _ => Err AmbiguousActiveBinding
  end.

(** ** Sessions and work items *)

(** The event an operation records at its own point of the log. *)
Definition own_event (o : CoordinationOwner) (request_id event_id : string)
    (kind : CoordinationEventKind) (subject actor : string) (epoch : EpochId)
    (fence : StateFence) (digest : string) : CR CoordinationEvent :=
  event o request_id event_id kind subject actor (predecessor_of o) epoch fence digest
    ClockReading_default.

Definition admitted_session (req : RegisterSession) : AgentSession :=
  {| as_session_id := rg_session_id req; as_principal_id := rg_principal_id req;
     as_route_ref := rg_route_ref req; as_state := Active;
     as_authority_epoch := rg_authority_epoch req; as_state_fence := rg_state_fence req;
     as_last_heartbeat := rg_now req; as_heartbeat_deadline := rg_heartbeat_deadline req |}.

Definition register_session (req : RegisterSession) : CM AgentSession :=
  let! o := mstate in
  do! mlift (text (rg_session_id req) "session_id");
  do! mlift (text (rg_principal_id req) "principal_id");
  do! mlift (text (rg_route_ref req) "route_ref");
  do! mlift (nonzero (rg_heartbeat_deadline req) "heartbeat_deadline");
  do! mlift (common (rg_authority_epoch req) (rg_state_fence req));
  match co_sessions o !! rg_session_id req with
  | Some old =>
      if (as_principal_id old == rg_principal_id req) && (as_state_fence old == rg_state_fence req)
      then mret_ok old
      else mthrow (Duplicate (rg_session_id req))
  | None =>
      let s := admitted_session req in
      let! e := mlift (own_event o (rg_request_id req) ("session:" ++ rg_session_id req)
                         EvSessionRegistered (rg_session_id req) (as_principal_id s)
                         (rg_authority_epoch req) (rg_state_fence req) (as_route_ref s)) in
      do! commit (rg_request_id req) e;
      do! mmodify (fun o => set_sessions (<[rg_session_id req := s]> (co_sessions o)) o);
      mret_ok s
  end.

Definition register_work (item : WorkItem) (request_id actor_id : string)
    (observed_at : ClockReading) : CM unit :=
  let! o := mstate in
  do! mlift (text (wi_work_item_id item) "work_item_id");
  do! mlift (text (wi_task_id item) "task_id");
  do! mlift (common (authority_epoch (wi_state_fence item)) (wi_state_fence item));
  do! mlift (guard_err ((wi_state item != Ready)
                        || is_some (co_work o !! wi_work_item_id item))
               (Duplicate (wi_work_item_id item)));
  let! e := mlift (event o request_id ("work:" ++ wi_work_item_id item) EvWorkRegistered
                     (wi_work_item_id item) actor_id (predecessor_of o)
                     (authority_epoch (wi_state_fence item)) (wi_state_fence item)
                     (wi_task_id item) observed_at) in
  do! commit request_id e;
  mmodify (fun o => set_work (<[wi_work_item_id item := item]> (co_work o)) o).

(** ** Claims *)

Definition exact_claim_event (req : WorkLeaseRequest) (e : CoordinationEvent) : bool :=
  (ce_kind e == EvWorkClaimed)
  && (ce_idempotency_key e == wr_request_id req)
  && (ce_event_id e == "claim:" ++ wr_lease_id req)
  && (ce_subject_id e == wr_work_item_id req)
  && (ce_actor_id e == wr_session_id req)
  && is_same_authority (ce_authority_epoch e) (wr_authority_epoch req)
  && (ce_state_fence e == wr_state_fence req)
  && (ce_payload_digest e == wr_lease_id req).

Definition exact_claim_lease (req : WorkLeaseRequest) (l : WorkLease) : bool :=
  (Some (wl_expires_at l) == checked_add (wr_now req) (wr_lease_duration req))
  && (wl_lease_id l == wr_lease_id req)
  && (wl_work_item_id l == wr_work_item_id req)
  && (wl_holder_session_id l == wr_session_id req)
  && is_same_authority (wl_authority_epoch l) (wr_authority_epoch req)
  && (wl_state_fence l == wr_state_fence req)
  && (wl_issued_at l =? wr_now req)
  && (wl_last_heartbeat l =? wr_now req).

Definition exact_claim_item (req : WorkLeaseRequest) (w : WorkItem) : bool :=
  (wi_work_item_id w == wr_work_item_id req)
  && (wi_owner_session_id w == Some (wr_session_id req))
  && (wi_lease_id w == Some (wr_lease_id req)).

(** [Option::is_some_and] *)
Definition is_some_and {A} (f : A -> bool) (o : option A) : bool :=
  match o with
  | Some a => f a
  | None => false
  end.

Definition exact_work_replay (o : CoordinationOwner) (req : WorkLeaseRequest)
    : CR (option WorkLeaseDecision) :=
  match co_event_by_request o !! wr_request_id req with
  | None => Ok None
  | Some e =>
      check? guard_err (negb (exact_claim_event req e
                              && is_some_and (exact_claim_lease req) (co_leases o !! wr_lease_id req)
                              && is_some_and (exact_claim_item req) (co_work o !! wr_work_item_id req)))
               (IdempotencyConflict (wr_request_id req));
      let? l := ok_or (co_leases o !! wr_lease_id req) InvalidState in
      Ok (Some {| wd_lease := l; wd_event := e |})
  end.

Definition u32_max : Z := 2 ^ 32 - 1.

Definition saturating_add_u32 (a b : Z) : Z := Z.min (a + b) u32_max.

Definition claimed_lease (req : WorkLeaseRequest) (holder : string) (expires_at : Z) : WorkLease :=
  {| wl_lease_id := wr_lease_id req; wl_work_item_id := wr_work_item_id req;
     wl_holder_session_id := holder; wl_authority_epoch := wr_authority_epoch req;
     wl_state_fence := wr_state_fence req; wl_issued_at := wr_now req;
     wl_expires_at := expires_at; wl_last_heartbeat := wr_now req; wl_retired_at := None |}.

(** [self.work.get_mut(id).ok_or(InvalidState)?] and the assignments to the item. *)
Definition update_work (id : string) (f : WorkItem -> WorkItem) : CM unit :=
  let! o := mstate in
  let! w := mlift (ok_or (co_work o !! id) InvalidState) in
  mmodify (fun o => set_work (<[id := f w]> (co_work o)) o).

Definition acquire_work (req : WorkLeaseRequest) : CM WorkLeaseDecision :=
  let! o := mstate in
  if is_some (co_event_by_request o !! wr_request_id req) then
    let! replay := mlift (exact_work_replay o req) in
    let! decision := mlift (ok_or replay InvalidState) in
    do! mlift (common (wr_authority_epoch req) (wr_state_fence req));
    mret_ok decision
  else
    do! mlift (common (wr_authority_epoch req) (wr_state_fence req));
    do! mlift (nonzero (wr_lease_duration req) "lease_duration");
    let! s := mlift (session o (wr_session_id req) (wr_authority_epoch req) (wr_state_fence req)) in
    let! w := mlift (ok_or (co_work o !! wr_work_item_id req)
                       (NotFound "work_item" (wr_work_item_id req))) in
    do! mlift (guard_err (wi_state w != Ready) WorkAlreadyOwned);
    do! mlift (text (wr_lease_id req) "lease_id");
    let! expires_at := mlift (ok_or (checked_add (wr_now req) (wr_lease_duration req))
                                (InvalidField "lease_duration")) in
    let l := claimed_lease req (as_session_id s) expires_at in
    let! e := mlift (own_event o (wr_request_id req) ("claim:" ++ wr_lease_id req) EvWorkClaimed
                       (wr_work_item_id req) (wr_session_id req) (wr_authority_epoch req)
                       (wr_state_fence req) (wr_lease_id req)) in
    let! e := commit (wr_request_id req) e in
    do! update_work (wr_work_item_id req) (fun w =>
          set_assignment Claimed (wr_session_id req) (wr_lease_id req)
            (saturating_add_u32 (wi_attempt w) 1) w);
    do! mmodify (fun o => set_leases (<[wr_lease_id req := l]> (co_leases o)) o);
    mret_ok {| wd_lease := l; wd_event := e |}.

(** ** Heartbeats and mailbox items *)

Definition heartbeat (req : AgentHeartbeat) : CM HeartbeatAck :=
  let! o := mstate in
  do! mlift (common (hb_authority_epoch req) (hb_state_fence req));
  do! mlift (read_active_session o (hb_session_id req) (hb_now req) (hb_authority_epoch req)
               (hb_state_fence req));
  let! l := mlift (lease o (hb_lease_id req) (hb_session_id req) (hb_now req)
                     (hb_authority_epoch req) (hb_state_fence req)) in
  do! mlift (nonzero (hb_extend_to req) "extend_to");
  do! mlift (guard_err (hb_extend_to req <? hb_now req) (InvalidField "extend_to"));
  let l := set_lease_term (hb_now req) (hb_extend_to req) l in
  let! e := mlift (own_event o (hb_request_id req)
                     ("heartbeat:" ++ hb_lease_id req ++ ":" ++ u64_to_string (hb_now req))
                     EvHeartbeat (hb_lease_id req) (hb_session_id req) (hb_authority_epoch req)
                     (hb_state_fence req) (hb_lease_id req)) in
  let! e := commit (hb_request_id req) e in
  do! mmodify (fun o => set_leases (<[wl_lease_id l := l]> (co_leases o)) o);
  mret_ok {| ha_lease := l; ha_event := e |}.

Definition send_message (req : MailboxMessageDraft) : CM MailboxReceipt :=
  let! o := mstate in
  do! mlift (common (md_authority_epoch req) (md_state_fence req));
  do! mlift (session o (md_sender_session_id req) (md_authority_epoch req) (md_state_fence req));
  do! mlift (session o (md_recipient_session_id req) (md_authority_epoch req) (md_state_fence req));
  do! mlift (text (md_message_id req) "message_id");
  match co_messages o !! md_message_id req with
  | Some old =>
      if mm_payload_digest old == md_payload_digest req then
        let! e := mlift (ok_or (co_event_by_request o !! md_request_id req) InvalidState) in
        mret_ok {| mr_message := old; mr_event := e |}
      else mthrow (Duplicate (md_message_id req))
  | None =>
      let m := {| mm_message_id := md_message_id req;
                  mm_sender_session_id := md_sender_session_id req;
                  mm_recipient_session_id := md_recipient_session_id req;
                  mm_work_item_id := md_work_item_id req;
                  mm_payload_digest := md_payload_digest req; mm_delivered := true |} in
      let! e := mlift (own_event o (md_request_id req) ("message:" ++ md_message_id req)
                         EvMessageSent (md_message_id req) (md_sender_session_id req)
                         (md_authority_epoch req) (md_state_fence req) (md_payload_digest req)) in
      let! e := commit (md_request_id req) e in
      do! mmodify (fun o => set_messages (<[mm_message_id m := m]> (co_messages o)) o);
      mret_ok {| mr_message := m; mr_event := e |}
  end.

(** ** Progress of a work item *)

(** The transitions [advance_item] lets through. *)
Definition may_advance (current target : WorkState) : bool :=
  work_active current && match target with Checkpointed | Submitted => true | _ => false end.

Definition advance_item (work_item_id lease_id session_id : string) (epoch : EpochId)
    (fence : StateFence) (now : Z) (state : WorkState) (reference request_id : string)
    (kind : CoordinationEventKind) : CM CoordinationEvent :=
  let! o := mstate in
  do! mlift (common epoch fence);
  do! mlift (lease o lease_id session_id now epoch fence);
  let! current := mlift (ok_or (co_work o !! work_item_id) (NotFound "work_item" work_item_id)) in
  do! mlift (guard_err (negb (may_advance (wi_state current) state)) InvalidState);
  let! e := mlift (own_event o request_id (work_item_id ++ ":" ++ request_id) kind work_item_id
                     session_id epoch fence reference) in
  let! e := commit request_id e in
  do! update_work work_item_id (fun w =>
        if state == Checkpointed
        then set_progress state (Some reference) (wi_result_ref w) w
        else set_progress state (wi_checkpoint_ref w) (Some reference) w);
  mret_ok e.

Definition checkpoint (req : WorkCheckpoint) : CM CheckpointReceipt :=
  do! mlift (text (ck_checkpoint_ref req) "checkpoint_ref");
  let! e := advance_item (ck_work_item_id req) (ck_lease_id req) (ck_session_id req)
    (ck_authority_epoch req) (ck_state_fence req) (ck_now req) Checkpointed
    (ck_checkpoint_ref req) (ck_request_id req) EvCheckpointed in
  mret_ok {| cr_checkpoint_id := ck_checkpoint_id req; cr_work_item_id := ck_work_item_id req;
             cr_event := e |}.

Definition submit_result (req : AgentResultDraft) : CM AgentResultReceipt :=
  do! mlift (text (rd_result_ref req) "result_ref");
  let! e := advance_item (rd_work_item_id req) (rd_lease_id req) (rd_session_id req)
    (rd_authority_epoch req) (rd_state_fence req) (rd_now req) Submitted
    (rd_result_ref req) (rd_request_id req) EvResultSubmitted in
  mret_ok {| rr_result_id := rd_result_id req; rr_work_item_id := rd_work_item_id req;
             rr_ceiling := CandidateArtifact; rr_event := e |}.

Definition admit_candidate_result (draft : AgentResultDraft) : CM AgentResultReceipt :=
  let! o := mstate in
  do! mlift (guard_err (negb (is_some_and (fun w => work_active (wi_state w))
                                (co_work o !! rd_work_item_id draft))) InvalidState);
  submit_result draft.

(** ** Reassignment *)

Definition reassignment_payload (req : ReassignWorkRequest) : string :=
  ra_old_lease_id req ++ ":" ++ ra_new_lease_id req.

Definition reassignment_event_matches_request (e : CoordinationEvent) (req : ReassignWorkRequest)
    : bool :=
  (ce_kind e == EvWorkReassigned)
  && (ce_idempotency_key e == ra_request_id req)
  && (ce_event_id e == "reassign:" ++ ra_work_item_id req)
  && (ce_subject_id e == ra_work_item_id req)
  && (ce_actor_id e == ra_new_session_id req)
  && is_same_authority (ce_authority_epoch e) (ra_authority_epoch req)
  && (ce_state_fence e == ra_state_fence req)
  && (ce_payload_digest e == reassignment_payload req).

Definition reassignment_retry (o : CoordinationOwner) (req : ReassignWorkRequest) (expires_at : Z)
    (existing : CoordinationEvent) : CR WorkLeaseDecision :=
  check? guard_err (negb (reassignment_event_matches_request existing req))
           (IdempotencyConflict (ra_request_id req));
  let? w := ok_or (co_work o !! ra_work_item_id req) InvalidState in
  let? l := ok_or (co_leases o !! ra_new_lease_id req) InvalidState in
  check? guard_err ((wi_state w != Reassigned)
                    || (wi_owner_session_id w != Some (ra_new_session_id req))
                    || (wi_lease_id w != Some (ra_new_lease_id req))
                    || is_some (wl_retired_at l)
                    || (wl_work_item_id l != ra_work_item_id req)
                    || (wl_holder_session_id l != ra_new_session_id req)
                    || negb (is_same_authority (wl_authority_epoch l) (ra_authority_epoch req))
                    || (wl_state_fence l != ra_state_fence req)
                    || negb (wl_issued_at l =? ra_now req)
                    || negb (wl_expires_at l =? expires_at)
                    || negb (wl_last_heartbeat l =? ra_now req))
           (IdempotencyConflict (ra_request_id req));
  Ok {| wd_lease := l; wd_event := existing |}.

Definition validate_reassignment_source (o : CoordinationOwner) (req : ReassignWorkRequest)
    : CR unit :=
  let? old := ok_or (co_leases o !! ra_old_lease_id req) (NotFound "lease" (ra_old_lease_id req)) in
  check? guard_err (is_some (wl_retired_at old)) InvalidState;
  check? guard_err ((wl_lease_id old != ra_old_lease_id req)
                    || (wl_work_item_id old != ra_work_item_id req)
                    || negb (is_same_authority (wl_authority_epoch old) (ra_authority_epoch req))
                    || (wl_state_fence old != ra_state_fence req)) FenceMismatch;
  check? guard_err (bad_interval old) (InvalidField "lease_interval");
  check? guard_err ((wl_last_heartbeat old <? wl_issued_at old)
                    || (wl_expires_at old <? wl_last_heartbeat old))
           (InvalidField "lease_last_heartbeat");
  check? guard_err (ra_now req <? wl_issued_at old) LeaseNotYetValid;
  let? w := ok_or (co_work o !! ra_work_item_id req)
              (NotFound "work_item" (ra_work_item_id req)) in
  guard_err ((wi_state_fence w != ra_state_fence req)
             || negb (work_active (wi_state w))
             || (wi_lease_id w != Some (ra_old_lease_id req))
             || (wi_owner_session_id w != Some (wl_holder_session_id old)))
    (LeaseOwnerMismatch (default "" (wi_owner_session_id w))).

Definition reassigned_lease (req : ReassignWorkRequest) (expires_at : Z) : WorkLease :=
  {| wl_lease_id := ra_new_lease_id req; wl_work_item_id := ra_work_item_id req;
     wl_holder_session_id := ra_new_session_id req; wl_authority_epoch := ra_authority_epoch req;
     wl_state_fence := ra_state_fence req; wl_issued_at := ra_now req;
     wl_expires_at := expires_at; wl_last_heartbeat := ra_now req; wl_retired_at := None |}.

(** The field checks [reassign] starts with; they give the new expiry. *)
Definition validate_reassignment_fields (req : ReassignWorkRequest) : CR Z :=
  check? for_each (fun vf => text vf.1 vf.2)
           [(ra_request_id req, "request_id"); (ra_work_item_id req, "work_item_id");
            (ra_old_lease_id req, "old_lease_id"); (ra_new_lease_id req, "new_lease_id");
            (ra_new_session_id req, "new_session_id")];
  check? common (ra_authority_epoch req) (ra_state_fence req);
  check? nonzero (ra_now req) "now";
  check? nonzero (ra_lease_duration req) "lease_duration";
  let? expires_at := ok_or (checked_add (ra_now req) (ra_lease_duration req))
                       (InvalidField "lease_duration") in
  check? guard_err (ra_old_lease_id req == ra_new_lease_id req) (Duplicate (ra_new_lease_id req));
  Ok expires_at.

Definition reassign (req : ReassignWorkRequest) : CM WorkLeaseDecision :=
  let! o := mstate in
  let! expires_at := mlift (validate_reassignment_fields req) in
  match co_event_by_request o !! ra_request_id req with
  | Some existing => mlift (reassignment_retry o req expires_at existing)
  | None =>
      do! mlift (validate_reassignment_source o req);
      do! mlift (read_active_session o (ra_new_session_id req) (ra_now req)
                   (ra_authority_epoch req) (ra_state_fence req));
      do! mlift (guard_err (is_some (co_leases o !! ra_new_lease_id req))
                   (Duplicate (ra_new_lease_id req)));
      let l := reassigned_lease req expires_at in
      let! e := mlift (own_event o (ra_request_id req) ("reassign:" ++ ra_work_item_id req)
                         EvWorkReassigned (ra_work_item_id req) (ra_new_session_id req)
                         (ra_authority_epoch req) (ra_state_fence req)
                         (reassignment_payload req)) in
      let! e := commit (ra_request_id req) e in
      let! o := mstate in
      let! old := mlift (ok_or (co_leases o !! ra_old_lease_id req) InvalidState) in
      do! mmodify (fun o => set_leases
            (<[ra_old_lease_id req := retire (ra_now req) old]> (co_leases o)) o);
      do! update_work (ra_work_item_id req) (fun w =>
            set_assignment Reassigned (ra_new_session_id req) (ra_new_lease_id req)
              (wi_attempt w) w);
      do! mmodify (fun o => set_leases (<[ra_new_lease_id req := l]> (co_leases o)) o);
      mret_ok {| wd_lease := l; wd_event := e |}
  end.

(** ** Caller-supplied events *)

Definition record_coordination_event (req : CoordinationEventDraft) : CM CoordinationEventReceipt :=
  let! o := mstate in
  do! mlift (common (ed_authority_epoch req) (ed_state_fence req));
  let! e := mlift (event o (ed_request_id req) (ed_event_id req) (ed_kind req) (ed_subject_id req)
                     (ed_actor_id req) (ed_predecessor req) (ed_authority_epoch req)
                     (ed_state_fence req) (ed_payload_digest req) (ed_observed_at req)) in
  let! e := commit (ed_request_id req) e in
  mret_ok {| er_event := e |}.
