(* ===== verification/IntegrationCandidate.v ===== *)
(** * Coordination: integration candidates

    Candidates for integration and the single integration writer of a scope
    (crates/governor/eliot-coordination/src/integration_candidate.rs and the
    candidate operations of lib.rs): submission, the integration lease,
    staleness, the routes from retained reviews, the queue view, the recorded
    origins, and the checks made on a recovered owner. *)

From Stdlib Require Import String.
From S2P Require Import Prelude RustText Contracts CoordinationData Coordination.

#[local] Open Scope string_scope.
#[local] Open Scope Z_scope.

(** ** Submission *)

Definition validate_candidate_text (draft : IntegrationCandidateDraft) : CR unit :=
  check? for_each (fun vf => text vf.1 vf.2)
           [(cd_task_id draft, "task_id"); (cd_candidate_id draft, "candidate_id");
            (cd_producer_attempt draft, "producer_attempt"); (cd_base_commit draft, "base_commit");
            (cd_diff_ref draft, "diff_ref"); (cd_target_scope draft, "target_scope")];
  check? for_each (for_each (fun value => text value "candidate_reference"))
           [cd_producer_lineage draft; cd_worktree_or_artifact_refs draft;
            cd_evidence_refs draft; cd_verification_refs draft;
            cd_unresolved_conflicts draft; cd_unknowns draft];
  check? match cd_rollback_or_compensation draft with
         | Some value => text value "rollback_or_compensation"
         | None => Ok tt
         end;
  for_each (fun values => for_each (fun value => text value "candidate_effect")
                            (btree_set_iter values))
    [cd_changed_paths draft; cd_declared_read_effects draft; cd_declared_write_effects draft].

Definition proposed_revision (draft : IntegrationCandidateDraft) (sequence : Z)
    : IntegrationCandidateRevision :=
  {| cv_event_sequence := sequence; cv_status := CandProposed; cv_lease_id := None;
     cv_observed_at := cd_now draft; cv_evidence_refs := cd_evidence_refs draft;
     cv_unresolved_conflicts := cd_unresolved_conflicts draft;
     cv_unknowns := cd_unknowns draft |}.

Definition candidate_of (draft : IntegrationCandidateDraft) : IntegrationCandidate :=
  {| ic_candidate_id := cd_candidate_id draft; ic_task_id := cd_task_id draft;
     ic_source_work_item_id := cd_source_work_item_id draft;
     ic_producer_attempt := cd_producer_attempt draft;
     ic_producer_lineage := cd_producer_lineage draft; ic_base_commit := cd_base_commit draft;
     ic_state_fence := cd_state_fence draft;
     ic_worktree_or_artifact_refs := cd_worktree_or_artifact_refs draft;
     ic_diff_ref := cd_diff_ref draft; ic_changed_paths := cd_changed_paths draft;
     ic_declared_read_effects := cd_declared_read_effects draft;
     ic_declared_write_effects := cd_declared_write_effects draft;
     ic_evidence_refs := cd_evidence_refs draft; ic_verification_refs := cd_verification_refs draft;
     ic_unresolved_conflicts := cd_unresolved_conflicts draft; ic_unknowns := cd_unknowns draft;
     ic_rollback_or_compensation := cd_rollback_or_compensation draft;
     ic_target_scope := cd_target_scope draft; ic_submitted_at := cd_now draft;
     ic_status := CandProposed; ic_history := [] |}.

Definition candidate_receipt (c : IntegrationCandidate) (e : CoordinationEvent)
    : IntegrationCandidateReceipt :=
  {| ct_candidate_id := ic_candidate_id c; ct_target_scope := ic_target_scope c;
     ct_candidate := c; ct_event := e |}.

Definition exact_candidate_replay (candidates : gmap string IntegrationCandidate)
    (draft : IntegrationCandidateDraft) (e : CoordinationEvent)
    : CR IntegrationCandidateReceipt :=
  let? c := ok_or (candidates !! cd_candidate_id draft)
              (IdempotencyConflict (cd_request_id draft)) in
  check? guard_err
    ((ce_kind e != EvIntegrationCandidateSubmitted)
     || (ce_event_id e != "candidate:" ++ cd_candidate_id draft)
     || (ce_subject_id e != cd_candidate_id draft)
     || (ce_actor_id e != cd_session_id draft)
     || (ce_payload_digest e != cd_candidate_id draft)
     || (ce_state_fence e != cd_state_fence draft)
     || (ce_authority_epoch e != cd_authority_epoch draft)
     || (ic_task_id c != cd_task_id draft)
     || (ic_source_work_item_id c != cd_source_work_item_id draft)
     || (ic_producer_attempt c != cd_producer_attempt draft)
     || (ic_producer_lineage c != cd_producer_lineage draft)
     || (ic_base_commit c != cd_base_commit draft)
     || (ic_state_fence c != cd_state_fence draft)
     || (ic_worktree_or_artifact_refs c != cd_worktree_or_artifact_refs draft)
     || (ic_diff_ref c != cd_diff_ref draft)
     || (ic_changed_paths c != cd_changed_paths draft)
     || (ic_declared_read_effects c != cd_declared_read_effects draft)
     || (ic_declared_write_effects c != cd_declared_write_effects draft)
     || (ic_evidence_refs c != cd_evidence_refs draft)
     || (ic_verification_refs c != cd_verification_refs draft)
     || (ic_unresolved_conflicts c != cd_unresolved_conflicts draft)
     || (ic_unknowns c != cd_unknowns draft)
     || (ic_rollback_or_compensation c != cd_rollback_or_compensation draft)
     || (ic_target_scope c != cd_target_scope draft)
     || negb (ic_submitted_at c =? cd_now draft)
     || negb (existsb (fun r => (cv_event_sequence r =? ce_sequence e)
                                && (cv_status r == CandProposed)
                                && negb (is_some (cv_lease_id r))
                                && (cv_observed_at r =? cd_now draft)) (ic_history c)))
    (IdempotencyConflict (cd_request_id draft));
  Ok (candidate_receipt c e).

Definition submit_integration_candidate (req : IntegrationCandidateDraft)
    : CM IntegrationCandidateReceipt :=
  let! o := mstate in
  do! mlift (validate_candidate_text req);
  do! mlift (request (cd_request_id req));
  do! mlift (nonzero (cd_now req) "now");
  do! mlift (common (cd_authority_epoch req) (cd_state_fence req));
  match co_event_by_request o !! cd_request_id req with
  | Some existing => mlift (exact_candidate_replay (co_integration_candidates o) req existing)
  | None =>
      do! mlift (guard_err (is_some (co_integration_candidates o !! cd_candidate_id req))
                   (Duplicate (cd_candidate_id req)));
      do! mlift (guard_err (negb (is_some_and (fun w => wi_task_id w == cd_task_id req)
                                    (co_work o !! cd_source_work_item_id req))) InvalidState);
      do! mlift (read_active_work_lease o (cd_source_work_item_id req) (cd_session_id req)
                   (cd_now req) (cd_authority_epoch req) (cd_state_fence req));
      let! e := mlift (own_event o (cd_request_id req) ("candidate:" ++ cd_candidate_id req)
                         EvIntegrationCandidateSubmitted (cd_candidate_id req) (cd_session_id req)
                         (cd_authority_epoch req) (cd_state_fence req) (cd_candidate_id req)) in
      let! e := commit (cd_request_id req) e in
      let c := push_revision CandProposed (proposed_revision req (ce_sequence e))
                 (candidate_of req) in
      do! mmodify (fun o => set_integration (co_integrations o)
                              (co_integration_lease_by_request o)
                              (<[ic_candidate_id c := c]> (co_integration_candidates o)) o);
      mret_ok (candidate_receipt c e)
  end.

(** ** The integration writer of a scope *)

Definition validate_integration_request (req : IntegrationLeaseRequest) : CR Z :=
  check? for_each (fun vf => text vf.1 vf.2)
           [(ir_request_id req, "request_id"); (ir_lease_id req, "lease_id");
            (ir_candidate_id req, "candidate_id"); (ir_target_scope req, "target_scope")];
  check? nonzero (ir_now req) "now";
  check? nonzero (ir_lease_duration req) "lease_duration";
  let? expires_at := ok_or (checked_add (ir_now req) (ir_lease_duration req))
                       (InvalidField "lease_duration") in
  check? common (ir_authority_epoch req) (ir_state_fence req);
  check? request (ir_request_id req);
  Ok expires_at.

Definition exact_integration_replay (o : CoordinationOwner) (req : IntegrationLeaseRequest)
    (expires_at : Z) : CR (option IntegrationLeaseDecision) :=
  match co_event_by_request o !! ir_request_id req with
  | None => Ok None
  | Some e =>
      let? l := ok_or (co_integration_lease_by_request o !! ir_request_id req)
                  (IdempotencyConflict (ir_request_id req)) in
      check? guard_err
        ((ce_kind e != EvIntegrationClaimed)
         || (ce_event_id e != "integration:" ++ ir_target_scope req ++ ":" ++ ir_lease_id req)
         || (ce_subject_id e != ir_target_scope req)
         || (ce_actor_id e != ir_session_id req)
         || (ce_payload_digest e != ir_lease_id req)
         || (ce_state_fence e != ir_state_fence req)
         || (ce_authority_epoch e != ir_authority_epoch req)
         || (il_lease_id l != ir_lease_id req)
         || (il_candidate_id l != Some (ir_candidate_id req))
         || (il_target_scope l != ir_target_scope req)
         || (il_holder_session_id l != ir_session_id req)
         || negb (il_expires_at l =? expires_at)
         || (il_state_fence l != ir_state_fence req)
         || (il_authority_epoch l != ir_authority_epoch req))
        (IdempotencyConflict (ir_request_id req));
      Ok (Some {| id_lease := l; id_event := e |})
  end.

(** The candidate can be integrated now: proposed or ready, or left
    integrating by a lease of this scope that has expired. *)
Definition candidate_available (o : CoordinationOwner) (req : IntegrationLeaseRequest)
    (c : IntegrationCandidate) : bool :=
  let expired_same_candidate_lease :=
    is_some_and (fun l => (il_candidate_id l == Some (ir_candidate_id req))
                          && (il_expires_at l <? ir_now req))
      (co_integrations o !! ir_target_scope req) in
  match ic_status c with
  | CandProposed | CandReady => true
  | CandIntegrating => expired_same_candidate_lease
  | _ => false
  end.

Definition claimed_integration_lease (req : IntegrationLeaseRequest) (expires_at : Z)
    : IntegrationLease :=
  {| il_lease_id := ir_lease_id req; il_candidate_id := Some (ir_candidate_id req);
     il_target_scope := ir_target_scope req; il_holder_session_id := ir_session_id req;
     il_authority_epoch := ir_authority_epoch req; il_state_fence := ir_state_fence req;
     il_expires_at := expires_at |}.

(** A revision of a candidate that carries its evidence along. *)
Definition lease_revision (c : IntegrationCandidate) (sequence : Z)
    (status : IntegrationCandidateStatus) (lease_id : string) (observed_at : Z)
    : IntegrationCandidateRevision :=
  {| cv_event_sequence := sequence; cv_status := status; cv_lease_id := Some lease_id;
     cv_observed_at := observed_at; cv_evidence_refs := ic_evidence_refs c;
     cv_unresolved_conflicts := ic_unresolved_conflicts c; cv_unknowns := ic_unknowns c |}.

Definition stage_integration_claim (o : CoordinationOwner) (req : IntegrationLeaseRequest)
    (expires_at : Z) : CR StagedIntegrationClaim :=
  let? c := ok_or (co_integration_candidates o !! ir_candidate_id req)
              (NotFound "integration_candidate" (ir_candidate_id req)) in
  check? guard_err ((ic_target_scope c != ir_target_scope req)
                    || (ic_state_fence c != ir_state_fence req)
                    || negb (candidate_available o req c)) InvalidState;
  check? guard_err (existsb (fun e => (ce_kind e == EvIntegrationClaimed)
                                      && (ce_payload_digest e == ir_lease_id req)) (co_events o))
           (Duplicate (ir_lease_id req));
  check? guard_err (is_some_and (fun old => ir_now req <=? il_expires_at old)
                      (co_integrations o !! ir_target_scope req)) WorkAlreadyOwned;
  let l := claimed_integration_lease req expires_at in
  let? e := own_event o (ir_request_id req)
              ("integration:" ++ ir_target_scope req ++ ":" ++ ir_lease_id req)
              EvIntegrationClaimed (ir_target_scope req) (ir_session_id req)
              (ir_authority_epoch req) (ir_state_fence req) (ir_lease_id req) in
  Ok {| sc_lease := l;
        sc_candidate := push_revision CandIntegrating
          (lease_revision c (ce_sequence e) CandIntegrating (il_lease_id l) (ir_now req)) c;
        sc_event := e |}.

Definition acquire_integration (req : IntegrationLeaseRequest) : CM IntegrationLeaseDecision :=
  let! o := mstate in
  let! expires_at := mlift (validate_integration_request req) in
  let! s := mlift (session o (ir_session_id req) (ir_authority_epoch req) (ir_state_fence req)) in
  do! mlift (validate_active_session_heartbeat s (Some (ir_now req)));
  let! replay := mlift (exact_integration_replay o req expires_at) in
  match replay with
  | Some decision => mret_ok decision
  | None =>
      let! staged := mlift (stage_integration_claim o req expires_at) in
      let! e := commit (ir_request_id req) (sc_event staged) in
      do! mmodify (fun o => set_integration
            (<[ir_target_scope req := sc_lease staged]> (co_integrations o))
            (<[ir_request_id req := sc_lease staged]> (co_integration_lease_by_request o))
            (<[ir_candidate_id req := sc_candidate staged]> (co_integration_candidates o)) o);
      mret_ok {| id_lease := sc_lease staged; id_event := e |}
  end.

(** ** Staleness *)

Definition validate_stale_candidate_request (req : StaleIntegrationCandidateRequest) : CR unit :=
  check? request (st_request_id req);
  check? for_each (fun vf => text vf.1 vf.2)
           [(st_candidate_id req, "candidate_id");
            (st_changed_from_base_commit req, "changed_from_base_commit");
            (st_current_base_commit req, "current_base_commit");
            (st_target_scope req, "target_scope"); (st_lease_id req, "lease_id");
            (st_session_id req, "session_id")];
  check? common (st_authority_epoch req) (st_state_fence req);
  nonzero (st_now req) "now".

Definition exact_stale_candidate_replay (o : CoordinationOwner)
    (req : StaleIntegrationCandidateRequest) : CR (option IntegrationCandidateReceipt) :=
  match co_event_by_request o !! st_request_id req with
  | None => Ok None
  | Some e =>
      let? c := ok_or (co_integration_candidates o !! st_candidate_id req) InvalidState in
      check? guard_err (negb
        ((ce_kind e == EvIntegrationCandidateStaled)
         && (ce_event_id e == "candidate-stale:" ++ st_candidate_id req)
         && (ce_idempotency_key e == st_request_id req)
         && (ce_subject_id e == st_candidate_id req)
         && (ce_actor_id e == st_session_id req)
         && (ce_payload_digest e == st_current_base_commit req)
         && (ce_state_fence e == st_state_fence req)
         && (ce_authority_epoch e == st_authority_epoch req)
         && ((ic_base_commit c == st_changed_from_base_commit req)
             && (ic_base_commit c != st_current_base_commit req)
             && (ic_target_scope c == st_target_scope req)
             && (ic_status c == CandStale)
             && existsb (fun r => (cv_event_sequence r =? ce_sequence e)
                                  && (cv_status r == CandStale)
                                  && (cv_lease_id r == Some (st_lease_id req))
                                  && (cv_observed_at r =? st_now req)) (ic_history c))))
        (IdempotencyConflict (st_request_id req));
      Ok (Some (candidate_receipt c e))
  end.

Definition stage_stale_candidate (o : CoordinationOwner) (req : StaleIntegrationCandidateRequest)
    : CR (IntegrationCandidate * CoordinationEvent) :=
  let? c := ok_or (co_integration_candidates o !! st_candidate_id req)
              (NotFound "integration_candidate" (st_candidate_id req)) in
  check? guard_err ((ic_base_commit c != st_changed_from_base_commit req)
                    || (ic_base_commit c == st_current_base_commit req)
                    || (ic_target_scope c != st_target_scope req)) InvalidState;
  check? guard_err (negb ((ic_status c == CandProposed) || (ic_status c == CandReady)))
           (IllegalTransition (candidate_status_debug (ic_status c)) "Stale");
  check? validate_integration_lease o (st_target_scope req) (st_lease_id req) (st_session_id req)
           (st_now req) (st_authority_epoch req) (st_state_fence req);
  let? e := own_event o (st_request_id req) ("candidate-stale:" ++ st_candidate_id req)
              EvIntegrationCandidateStaled (st_candidate_id req) (st_session_id req)
              (st_authority_epoch req) (st_state_fence req) (st_current_base_commit req) in
  Ok (push_revision CandStale
        (lease_revision c (ce_sequence e) CandStale (st_lease_id req) (st_now req)) c, e).

Definition mark_integration_candidate_stale (req : StaleIntegrationCandidateRequest)
    : CM IntegrationCandidateReceipt :=
  let! o := mstate in
  do! mlift (validate_stale_candidate_request req);
  let! replay := mlift (exact_stale_candidate_replay o req) in
  match replay with
  | Some receipt => mret_ok receipt
  | None =>
      let! (c, e) := mlift (stage_stale_candidate o req) in
      let! e := commit (st_request_id req) e in
      do! mmodify (fun o => set_integration (co_integrations o)
                              (co_integration_lease_by_request o)
                              (<[st_candidate_id req := c]> (co_integration_candidates o)) o);
      mret_ok (candidate_receipt c e)
  end.

(** ** From a retained review *)

Definition route_review_requested_change (review_id : string) (draft : IntegrationCandidateDraft)
    : CM IntegrationCandidateReceipt :=
  let! o := mstate in
  do! mlift (text review_id "review_id");
  let! review := mlift (ok_or (co_peer_reviews o !! review_id)
                          (NotFound "peer_review" review_id)) in
  do! mlift (guard_err (rv_kind review != RequestedChange) InvalidState);
  do! mlift (guard_err (negb ((rv_lifecycle review == PendingDelivery)
                              || (rv_lifecycle review == Delivered)
                              || (rv_lifecycle review == Answered))) InvalidState);
  submit_integration_candidate draft.

Definition submit_review_effects (review_id : string) (req : IntegrationLeaseRequest)
    : CM IntegrationLeaseDecision :=
  let! o := mstate in
  do! mlift (text review_id "review_id");
  let! review := mlift (ok_or (co_peer_reviews o !! review_id)
                          (NotFound "peer_review" review_id)) in
  do! mlift (guard_err (rv_kind review != RequestedChange) InvalidState);
  do! mlift (guard_err (rv_lifecycle review != Answered) InvalidState);
  do! mlift (guard_err (negb (is_some_and (fun c => negb (ic_verification_refs c == []))
                                (co_integration_candidates o !! ir_candidate_id req)))
               InvalidState);
  acquire_integration req.

(** ** Views *)

Definition lease_is_active (o : CoordinationOwner) (now : Z) (l : IntegrationLease) : bool :=
  (now <=? il_expires_at l)
  && is_some_and (fun s => (as_state s == Active) && (now <=? as_heartbeat_deadline s)
                           && (as_state_fence s == il_state_fence l)
                           && is_same_authority (as_authority_epoch s) (il_authority_epoch l))
       (co_sessions o !! il_holder_session_id l).

Definition integration_queue (o : CoordinationOwner) (now : Z) : IntegrationQueue :=
  {| iq_candidates := btree_values (co_integration_candidates o);
     iq_active_leases := List.filter (lease_is_active o now) (btree_values (co_integrations o)) |}.

(** [self.events.get(sequence - 1)] *)
Definition event_at (o : CoordinationOwner) (sequence : Z) : option CoordinationEvent :=
  match checked_sub sequence 1 with
  | Some index => co_events o !! Z.to_nat index
  | None => None
  end.

Definition submission_sequence (o : CoordinationOwner) (c : IntegrationCandidate) : option Z :=
  match ic_history c with
  | [] => None
  | revision :: _ =>
      match event_at o (cv_event_sequence revision) with
      | Some e =>
          if (ce_sequence e =? cv_event_sequence revision)
             && (ce_kind e == EvIntegrationCandidateSubmitted)
             && (ce_subject_id e == ic_candidate_id c)
          then Some (ce_sequence e) else None
      | None => None
      end
  end.

Definition correlated_review (r : AnchoredReview) : CorrelatedReview :=
  {| cw_review_id := rv_review_id r; cw_operation := rv_operation r;
     cw_artifact_revision := rv_artifact_revision r; cw_artifact_digest := rv_artifact_digest r;
     cw_lifecycle := rv_lifecycle r; cw_matched_ref := rv_artifact_id r |}.

(** [if missing { gaps.push(reason) }] *)
Definition gap (missing : bool) (reason : string) : list string :=
  if missing then [reason] else [].

Definition is_nil {A} (l : list A) : bool :=
  match l with
  | [] => true
  | _ => false
  end.

Definition candidate_provenance (o : CoordinationOwner) (candidate_id : string)
    : option CandidateProvenance :=
  match co_integration_candidates o !! candidate_id with
  | None => None
  | Some c =>
      let submission := submission_sequence o c in
      let lease_ids := sort_dedup (map il_lease_id
        (List.filter (fun l => il_candidate_id l == Some (ic_candidate_id c))
           (btree_values (co_integration_lease_by_request o)))) in
      let identity_strings : gset string :=
        list_to_set (ic_worktree_or_artifact_refs c ++ ic_producer_lineage c)%list in
      let reviews := map correlated_review
        (List.filter (fun r => bool_decide (rv_artifact_id r ∈ identity_strings))
           (btree_values (co_peer_reviews o))) in
      Some {| cp_candidate_id := ic_candidate_id c;
              cp_submission_event_sequence := submission;
              cp_lease_ids := lease_ids; cp_diff_ref := ic_diff_ref c;
              cp_base_commit := ic_base_commit c; cp_correlated_reviews := reviews;
              cp_verification_refs := ic_verification_refs c;
              cp_gaps :=
                (gap (negb (is_some submission))
                   "submission event absent from the retained event stream"
                 ++ gap (is_nil lease_ids)
                      "no integration lease decision recorded against this candidate"
                 ++ gap (is_nil reviews)
                      "no retained review shares an exact recorded identity string with this candidate"
                 ++ ["public conversation references are not retained by this owner";
                     "verification refs bind no artifact revision here; this owner records no verifier outcome"])%list |}
  end.

(** [retained_revisions.sort_by_key(|entry| entry.revision)] *)
Definition revision_le (a b : RetainedArtifactRevision) : Prop := ar_revision a <= ar_revision b.

#[global] Instance revision_le_dec : RelDecision revision_le.
Proof. intros a b. unfold revision_le. apply _. Defined.

Definition correlated_candidate (artifact_id : string) (c : IntegrationCandidate)
    : option CorrelatedCandidate :=
  match List.find (fun entry => entry == artifact_id)
          (ic_worktree_or_artifact_refs c ++ ic_producer_lineage c)%list with
  | Some matched => Some {| cc_candidate_id := ic_candidate_id c; cc_matched_ref := matched;
                            cc_diff_ref := ic_diff_ref c; cc_base_commit := ic_base_commit c |}
  | None => None
  end.

Definition artifact_provenance (o : CoordinationOwner) (artifact_id : string)
    (revision : option Z) : ArtifactProvenance :=
  let head := co_peer_artifact_heads o !! artifact_id in
  let retained := merge_sort revision_le
    (map (fun kd => {| ar_revision := kd.1.2; ar_digest := kd.2 |})
       (List.filter (fun kd => kd.1.1 == artifact_id)
          (map_to_list (co_peer_artifact_revisions o)))) in
  let reviews := map correlated_review
    (List.filter (fun r => rv_artifact_id r == artifact_id) (btree_values (co_peer_reviews o))) in
  let candidates := omap (correlated_candidate artifact_id)
                      (btree_values (co_integration_candidates o)) in
  {| av_artifact_id := artifact_id; av_requested_revision := revision;
     av_current_revision := ph_revision <$> head; av_current_digest := ph_digest <$> head;
     av_retained_revisions := retained; av_reviews := reviews;
     av_correlated_candidates := candidates;
     av_gaps :=
       (gap (negb (is_some head)) "no admitted head for this artifact identity"
        ++ gap (is_nil retained) "no retained revision digests for this artifact identity"
        ++ gap (is_some_and (fun requested =>
                  negb (existsb (fun entry => ar_revision entry =? requested) retained)) revision)
             "requested revision is not retained for this artifact identity"
        ++ gap (is_nil reviews) "no retained reviews for this artifact identity"
        ++ gap (is_nil candidates)
             "no retained candidate shares an exact recorded identity string with this artifact"
        ++ ["public conversation references are not retained by this owner"])%list |}.

(** ** Checks on a recovered owner *)

Definition candidate_revision_matches_event (o : CoordinationOwner) (c : IntegrationCandidate)
    (revision : IntegrationCandidateRevision) (e : CoordinationEvent) : bool :=
  match cv_status revision with
  | CandProposed =>
      (ce_kind e == EvIntegrationCandidateSubmitted)
      && (ce_subject_id e == ic_candidate_id c)
      && negb (is_some (cv_lease_id revision))
  | CandStale =>
      (ce_kind e == EvIntegrationCandidateStaled)
      && (ce_subject_id e == ic_candidate_id c)
      && is_some_and (fun lease_id =>
           existsb (fun l => (il_lease_id l == lease_id)
                             && (il_target_scope l == ic_target_scope c))
             (btree_values (co_integration_lease_by_request o))) (cv_lease_id revision)
  | CandIntegrating =>
      (ce_kind e == EvIntegrationClaimed)
      && is_some_and (fun l => (il_candidate_id l == Some (ic_candidate_id c))
                               && (il_target_scope l == ic_target_scope c)
                               && (cv_lease_id revision == Some (il_lease_id l)))
           (co_integration_lease_by_request o !! ce_idempotency_key e)
  | CandReady | CandAccepted | CandRejected | CandConflicted | CandUnknownOutcome => false
  end.

(** [history.windows(2).any(|pair| pair[0].event_sequence >= pair[1].event_sequence)] *)
Fixpoint out_of_order (history : list IntegrationCandidateRevision) : bool :=
  match history with
  | r :: ((r' :: _) as rest) =>
      (cv_event_sequence r' <=? cv_event_sequence r) || out_of_order rest
  | _ => false
  end.

Definition validate_revision (o : CoordinationOwner) (c : IntegrationCandidate)
    (revision : IntegrationCandidateRevision) : CR unit :=
  let? e := ok_or (event_at o (cv_event_sequence revision)) InvalidState in
  guard_err (negb (ce_sequence e =? cv_event_sequence revision)
             || (cv_observed_at revision =? 0)
             || negb (candidate_revision_matches_event o c revision e)
             || (cv_evidence_refs revision != ic_evidence_refs c)
             || (cv_unresolved_conflicts revision != ic_unresolved_conflicts c)
             || (cv_unknowns revision != ic_unknowns c)) InvalidState.

Definition validate_candidate_record (o : CoordinationOwner) (kc : string * IntegrationCandidate)
    : CR unit :=
  let (candidate_id, c) := kc in
  check? guard_err ((candidate_id != ic_candidate_id c)
                    || is_nil (ic_history c)
                    || ((cv_status <$> last (ic_history c)) != Some (ic_status c))
                    || negb (is_ok (StateFence_validate (ic_state_fence c)))
                    || out_of_order (ic_history c)
                    || negb (is_some_and (fun r => cv_status r == CandProposed)
                               (head (ic_history c)))) InvalidState;
  for_each (validate_revision o c) (ic_history c).

Definition validate_integration_lease_history (o : CoordinationOwner) : CR unit :=
  for_each (fun kl =>
    let (request_id, l) := kl : string * IntegrationLease in
    let? e := ok_or (co_event_by_request o !! request_id) InvalidState in
    guard_err ((ce_kind e != EvIntegrationClaimed)
               || (ce_idempotency_key e != request_id)
               || (ce_event_id e != "integration:" ++ il_target_scope l ++ ":" ++ il_lease_id l)
               || (ce_subject_id e != il_target_scope l)
               || (ce_actor_id e != il_holder_session_id l)
               || (ce_payload_digest e != il_lease_id l)
               || (ce_state_fence e != il_state_fence l)) InvalidState)
    (btree_iter (co_integration_lease_by_request o)).

(** The candidate a current lease names exists in its scope, was integrated,
    and the lease is one of the leases issued for it. *)
Definition lease_backed_by (o : CoordinationOwner) (l : IntegrationLease) (candidate_id : string)
    : bool :=
  is_some_and (fun c =>
    (ic_target_scope c == il_target_scope l)
    && existsb (fun revision =>
         (cv_status revision == CandIntegrating)
         && existsb (fun h => (il_lease_id h == il_lease_id l)
                              && (il_candidate_id h == Some candidate_id))
              (btree_values (co_integration_lease_by_request o))) (ic_history c))
    (co_integration_candidates o !! candidate_id).

Definition validate_current_integration_leases (o : CoordinationOwner) : CR unit :=
  for_each (fun kl =>
    let (target_scope, l) := kl : string * IntegrationLease in
    guard_err ((target_scope != il_target_scope l)
               || is_some_and (fun cid => negb (lease_backed_by o l cid)) (il_candidate_id l))
      InvalidState)
    (btree_iter (co_integrations o)).

Definition validate_candidate_snapshot (o : CoordinationOwner) : CR unit :=
  check? for_each (validate_candidate_record o) (btree_iter (co_integration_candidates o));
  check? validate_integration_lease_history o;
  validate_current_integration_leases o.
