(* ===== verification/WorkLeaseIssuance.v ===== *)
(** * Coordination: issued leases and recovery

    Claims that issue a canonical lease identity in the same call
    (crates/governor/eliot-coordination/src/work_lease_issuance.rs), and the
    recovery of the whole owner from an image (lib.rs). SHA-256 and the
    canonical JSON of the issuance evidence are parameters. *)

From Stdlib Require Import String.
From S2P Require Import Prelude RustText Contracts Receipts.
From S2P Require Import CoordinationData Coordination IntegrationCandidate.

#[local] Open Scope string_scope.
#[local] Open Scope Z_scope.

(** ** The canonical identity *)

Definition WORK_LEASE_MAX_VALUE_LENGTH : Z := 128.

Definition validate_work_lease_value (value : string) : result WorkLeaseIdError unit :=
  let field := "work_lease_id.value" in
  check? guard_err (is_blank value) (IdBlank field);
  check? guard_err (has_control value) (IdControlCharacter field);
  check? guard_err (chars value != trim (chars value)) (IdBoundaryWhitespace field);
  guard_err (WORK_LEASE_MAX_VALUE_LENGTH <? usize_of_len (chars value)) (IdTooLong field).

(** Decoding the wire value built from the two fixed tags and [value]: the
    tags decode, the value is checked. *)
Definition canonical_work_lease_id (value : string) : result WorkLeaseIssuanceError WorkLeaseId :=
  check? map_err (fun _ => CanonicalContractRejected) (validate_work_lease_value value);
  Ok {| li_namespace := GovernorWorkLease; li_revision := V1; li_value := value |}.

(** ** Evidence *)

Section Issuance.
Variable sha256 : list Z -> list Z.
Variable evidence_json : WorkLeaseRequest -> WorkLeaseDecision -> result unit (list Z).

Definition validate_request_binding (req : WorkLeaseRequest) (decision : WorkLeaseDecision)
    : result WorkLeaseIssuanceError unit :=
  let? expires_at := ok_or (checked_add (wr_now req) (wr_lease_duration req))
                       InconsistentOwnerEvidence in
  let l := wd_lease decision in
  let e := wd_event decision in
  check? guard_err ((wl_lease_id l != wr_lease_id req)
                    || (wl_work_item_id l != wr_work_item_id req)
                    || (wl_holder_session_id l != wr_session_id req)
                    || negb (is_same_authority (wl_authority_epoch l) (wr_authority_epoch req))
                    || (wl_state_fence l != wr_state_fence req)
                    || negb (wl_issued_at l =? wr_now req)
                    || negb (wl_expires_at l =? expires_at)
                    || (wl_expires_at l <=? wl_issued_at l)
                    || negb (wl_last_heartbeat l =? wr_now req)
                    || negb (exact_claim_event req e)
                    || (ce_sequence e =? 0)
                    || (ce_predecessor e != checked_sub (ce_sequence e) 1))
           InconsistentOwnerEvidence;
  map_err (fun _ => InconsistentOwnerEvidence) (StateFence_validate (wr_state_fence req)).

Definition issue_provenance (req : WorkLeaseRequest) (decision : WorkLeaseDecision)
    : result WorkLeaseIssuanceError WorkLeaseIssuanceProvenance :=
  let? bytes := map_err (fun _ => EvidenceEncodingRejected) (evidence_json req decision) in
  let commitment := sha256_hex sha256 bytes in
  let? id := canonical_work_lease_id commitment in
  Ok {| ip_canonical_work_lease_id := id; ip_source_request := req;
        ip_source_decision := decision; ip_evidence_commitment_sha256 := commitment |}.

Definition provenance_validate (p : WorkLeaseIssuanceProvenance)
    : result WorkLeaseIssuanceError unit :=
  check? validate_request_binding (ip_source_request p) (ip_source_decision p);
  let? expected := issue_provenance (ip_source_request p) (ip_source_decision p) in
  guard_err ((ip_canonical_work_lease_id expected != ip_canonical_work_lease_id p)
             || (ip_evidence_commitment_sha256 expected != ip_evidence_commitment_sha256 p))
    InconsistentOwnerEvidence.

(** ** Issued claims *)

Definition validate_fresh_request (o : CoordinationOwner) (req : WorkLeaseRequest) : CR unit :=
  check? for_each (fun vf => text vf.1 vf.2)
           [(wr_request_id req, "request_id"); (wr_lease_id req, "lease_id");
            (wr_work_item_id req, "work_item_id"); (wr_session_id req, "session_id")];
  check? common (wr_authority_epoch req) (wr_state_fence req);
  check? nonzero (wr_now req) "now";
  check? guard_err ((wr_lease_duration req =? 0)
                    || negb (is_some (checked_add (wr_now req) (wr_lease_duration req))))
           (InvalidField "lease_duration");
  let? s := read_active_session o (wr_session_id req) (wr_now req) (wr_authority_epoch req)
              (wr_state_fence req) in
  guard_err (as_state_fence s != wr_state_fence req) FenceMismatch.

Definition reject_legacy_replay (o : CoordinationOwner) (req : WorkLeaseRequest)
    : result WorkLeaseIssuanceFailure unit :=
  match List.find (fun e => ce_idempotency_key e == wr_request_id req) (co_events o) with
  | None => Ok tt
  | Some e =>
      if exact_claim_event req e then Err (FEvidence PostHocIssuanceRejected)
      else Err (FCoordination (IdempotencyConflict (wr_request_id req)))
  end.

Definition validate_candidate_records (o : CoordinationOwner) (req : WorkLeaseRequest)
    (decision : WorkLeaseDecision) : result WorkLeaseIssuanceError unit :=
  let? s := ok_or (co_sessions o !! wr_session_id req) InconsistentOwnerEvidence in
  let? w := ok_or (co_work o !! wr_work_item_id req) InconsistentOwnerEvidence in
  let? l := ok_or (co_leases o !! wr_lease_id req) InconsistentOwnerEvidence in
  check? guard_err ((as_state s != Active)
                    || negb (is_same_authority (as_authority_epoch s) (wr_authority_epoch req))
                    || (as_state_fence s != wr_state_fence req)
                    || (wi_state w != Claimed)
                    || (wi_owner_session_id w != Some (wr_session_id req))
                    || (wi_lease_id w != Some (wr_lease_id req))
                    || (wi_state_fence w != wr_state_fence req)
                    || (l != wd_lease decision)) InconsistentOwnerEvidence;
  validate_request_binding req decision.

(** The claim is tried on a copy of the owner and published only after its
    evidence has been issued and checked. *)
Definition acquire_work_with_issuance (req : WorkLeaseRequest)
    : M CoordinationOwner WorkLeaseIssuanceFailure WorkLeaseIssuanceResult :=
  let! o := mstate in
  match co_work_lease_issuance_by_request o !! wr_request_id req with
  | Some existing =>
      do! mlift (guard_err (ip_source_request existing != req)
                   (FCoordination (IdempotencyConflict (wr_request_id req))));
      do! mlift (map_err FEvidence (provenance_validate existing));
      mret_ok {| is_decision := ip_source_decision existing; is_provenance := existing |}
  | None =>
      do! mlift (reject_legacy_replay o req);
      do! mlift (map_err FCoordination (validate_fresh_request o req));
      do! mlift (guard_err (is_some (co_leases o !! wr_lease_id req))
                   (FCoordination (Duplicate (wr_lease_id req))));
      let (candidate, claimed) := acquire_work req o in
      let! decision := mlift (map_err FCoordination claimed) in
      do! mlift (map_err FEvidence (validate_candidate_records candidate req decision));
      let! p := mlift (map_err FEvidence (issue_provenance req decision)) in
      do! mlift (map_err FEvidence (provenance_validate p));
      do! mlift (guard_err (existsb (fun old => ip_canonical_work_lease_id old
                                                == ip_canonical_work_lease_id p)
                              (btree_values (co_work_lease_issuance_by_request o)))
                   (FEvidence InconsistentOwnerEvidence));
      do! mlift (guard_err (is_some (co_work_lease_issuance_by_request o !! wr_request_id req))
                   (FEvidence InconsistentOwnerEvidence));
      do! mmodify (fun o =>
            set_issuance (<[wr_request_id req := p]> (co_work_lease_issuance_by_request o))
              (set_log (co_sequence candidate) (co_event_by_request candidate)
                 (co_events candidate)
                 (set_records (co_sessions candidate) (co_work candidate) (co_leases candidate)
                    (co_messages candidate)
                    (set_integration (co_integrations candidate)
                       (co_integration_lease_by_request o) (co_integration_candidates o) o))));
      mret_ok {| is_decision := decision; is_provenance := p |}
  end.

Definition work_lease_issuance (o : CoordinationOwner) (request_id : string)
    : option WorkLeaseIssuanceProvenance :=
  co_work_lease_issuance_by_request o !! request_id.

(** ** Recovery *)

(** The loop of [validate_issuance_snapshot] for one recorded issuance; the
    canonical identities met before are [seen]. *)
Definition validate_issuance (o : CoordinationOwner) (seen : list WorkLeaseId)
    (kp : string * WorkLeaseIssuanceProvenance) : CR (list WorkLeaseId) :=
  let (request_id, p) := kp in
  let req := ip_source_request p in
  let decision := ip_source_decision p in
  check? guard_err (is_blank request_id || (wr_request_id req != request_id)) InvalidState;
  check? map_err (fun _ => InvalidState) (provenance_validate p);
  check? guard_err (bool_decide (ip_canonical_work_lease_id p ∈ seen)) InvalidState;
  check? guard_err ((co_event_by_request o !! request_id != Some (wd_event decision))
                    || negb (bool_decide (wd_event decision ∈ co_events o))) InvalidState;
  let? l := ok_or (co_leases o !! wl_lease_id (wd_lease decision)) InvalidState in
  let d := wd_lease decision in
  check? guard_err ((wl_lease_id l != wl_lease_id d)
                    || (wl_work_item_id l != wl_work_item_id d)
                    || (wl_holder_session_id l != wl_holder_session_id d)
                    || negb (is_same_authority (wl_authority_epoch l) (wl_authority_epoch d))
                    || (wl_state_fence l != wl_state_fence d)
                    || negb (wl_issued_at l =? wl_issued_at d)
                    || (wl_expires_at l =? 0)
                    || (wl_expires_at l <? wl_issued_at l)
                    || (wl_last_heartbeat l <? wl_issued_at l)
                    || (wl_expires_at l <? wl_last_heartbeat l)) InvalidState;
  let? s := ok_or (co_sessions o !! wr_session_id req) InvalidState in
  check? guard_err ((as_session_id s != wr_session_id req)
                    || negb (is_same_authority (as_authority_epoch s) (wr_authority_epoch req))
                    || (as_state_fence s != wr_state_fence req)) InvalidState;
  let? w := ok_or (co_work o !! wr_work_item_id req) InvalidState in
  check? guard_err ((wi_work_item_id w != wr_work_item_id req)
                    || (wi_state_fence w != wr_state_fence req)) InvalidState;
  Ok (ip_canonical_work_lease_id p :: seen).

Definition validate_issuance_snapshot (o : CoordinationOwner) : CR unit :=
  let? _ := fold_res (validate_issuance o) [] (btree_iter (co_work_lease_issuance_by_request o)) in
  Ok tt.

(** One active item of [validate_active_bindings]. *)
Definition validate_active_binding (o : CoordinationOwner) (kw : string * WorkItem) : CR unit :=
  let (work_item_id, w) := kw in
  if negb (work_active (wi_state w)) then Ok tt
  else
    let? session_id := ok_or (wi_owner_session_id w) InvalidState in
    let? lease_id := ok_or (wi_lease_id w) InvalidState in
    let? s := ok_or (co_sessions o !! session_id) InvalidState in
    let? l := ok_or (co_leases o !! lease_id) InvalidState in
    guard_err ((wi_work_item_id w != work_item_id)
               || negb (is_ok (StateFence_validate (wi_state_fence w)))
               || (as_state s != Active)
               || (as_session_id s != session_id)
               || negb (is_same_authority (as_authority_epoch s)
                          (authority_epoch (wi_state_fence w)))
               || (as_state_fence s != wi_state_fence w)
               || (wl_lease_id l != lease_id)
               || (wl_work_item_id l != wi_work_item_id w)
               || (wl_holder_session_id l != session_id)
               || negb (is_same_authority (wl_authority_epoch l)
                          (authority_epoch (wi_state_fence w)))
               || (wl_state_fence l != wi_state_fence w)
               || bad_interval l
               || (wl_last_heartbeat l <? wl_issued_at l)
               || (wl_expires_at l <? wl_last_heartbeat l)) InvalidState.

Definition validate_active_bindings (o : CoordinationOwner) : CR unit :=
  for_each (validate_active_binding o) (btree_iter (co_work o)).

(** One active item of [validate_current_bindings]. *)
Definition validate_current_binding (o : CoordinationOwner) (epoch : EpochId) (fence : StateFence)
    (w : WorkItem) : CR unit :=
  if negb (work_active (wi_state w)) then Ok tt
  else
    let? session_id := ok_or (wi_owner_session_id w) InvalidState in
    let? lease_id := ok_or (wi_lease_id w) InvalidState in
    check? guard_err (wi_state_fence w != fence) FenceMismatch;
    let? s := ok_or (co_sessions o !! session_id) InvalidState in
    let? l := ok_or (co_leases o !! lease_id) InvalidState in
    guard_err ((as_state s != Active)
               || negb (is_same_authority (as_authority_epoch s) epoch)
               || (as_state_fence s != fence)
               || (wl_lease_id l != lease_id)
               || (wl_work_item_id l != wi_work_item_id w)
               || (wl_holder_session_id l != session_id)
               || negb (is_same_authority (wl_authority_epoch l) epoch)
               || (wl_state_fence l != fence)
               || is_some (wl_retired_at l)
               || bad_interval l
               || (wl_last_heartbeat l <? wl_issued_at l)
               || (wl_expires_at l <? wl_last_heartbeat l)) FenceMismatch.

Definition validate_current_bindings (o : CoordinationOwner) (epoch : EpochId)
    (fence : StateFence) : CR unit :=
  check? for_each (fun s =>
           if as_state s == Active then
             check? guard_err (negb (is_same_authority (as_authority_epoch s) epoch)
                               || (as_state_fence s != fence)) FenceMismatch;
             validate_active_session_heartbeat s None
           else Ok tt) (btree_values (co_sessions o));
  for_each (validate_current_binding o epoch fence) (btree_values (co_work o)).

Definition misnumbered_event (ie : nat * CoordinationEvent) : bool :=
  let (index, e) := ie in
  negb (ce_sequence e =? Z.of_nat index + 1)
  || negb (is_ok (StateFence_validate (ce_state_fence e)))
  || negb (is_same_authority (ce_authority_epoch e) (authority_epoch (ce_state_fence e))).

(** The scan over the events that links each to its predecessor and to the
    request index; [seen] are the request identities met before. *)
Fixpoint unlinked_event (index : gmap string CoordinationEvent) (seen : gset string)
    (l : list CoordinationEvent) : bool :=
  match l with
  | [] => false
  | e :: l' =>
      (ce_predecessor e != (if ce_sequence e =? 1 then None
                            else Some (Z.max 0 (ce_sequence e - 1))))
      || bool_decide (ce_idempotency_key e ∈ seen)
      || (index !! ce_idempotency_key e != Some e)
      || unlinked_event index ({[ce_idempotency_key e]} ∪ seen) l'
  end.

Definition from_snapshot (snapshot : CoordinationOwner) : CR CoordinationOwner :=
  check? guard_err (existsb misnumbered_event
                      (zip (seq 0 (length (co_events snapshot))) (co_events snapshot)))
           CausalPredecessorMismatch;
  check? guard_err (negb (co_sequence snapshot =? usize_of_len (co_events snapshot)))
           CausalPredecessorMismatch;
  check? guard_err (existsb (fun l => is_some_and (fun retired_at =>
                               (retired_at =? 0) || (retired_at <? wl_issued_at l))
                               (wl_retired_at l)) (btree_values (co_leases snapshot)))
           InvalidState;
  check? for_each (fun s => if as_state s == Active
                            then validate_active_session_heartbeat s None else Ok tt)
           (btree_values (co_sessions snapshot));
  check? guard_err (unlinked_event (co_event_by_request snapshot) ∅ (co_events snapshot)
                    || negb (Z.of_nat (size (co_event_by_request snapshot))
                             =? usize_of_len (co_events snapshot))
                    || existsb (fun ke : string * CoordinationEvent =>
                         (ke.1 != ce_idempotency_key ke.2)
                         || negb (bool_decide (ke.2 ∈ co_events snapshot)))
                         (btree_iter (co_event_by_request snapshot))) InvalidState;
  check? guard_err (existsb (fun r => (rv_lifecycle r == RejectedWithReason)
                                      && negb (is_some_and (fun reason => negb (is_blank reason))
                                                 (rv_rejection_reason r)))
                      (btree_values (co_peer_reviews snapshot))) InvalidState;
  check? guard_err (existsb satisfies_required_review
                      (btree_values (co_peer_review_resolutions snapshot))
                    || existsb (fun kr : string * AnchorResolution =>
                         negb (is_some (co_peer_reviews snapshot !! kr.1)))
                         (btree_iter (co_peer_review_resolutions snapshot))) InvalidState;
  check? validate_active_bindings snapshot;
  check? validate_issuance_snapshot snapshot;
  check? validate_candidate_snapshot snapshot;
  Ok snapshot.

Definition from_snapshot_at (snapshot : CoordinationOwner) (epoch : EpochId) (fence : StateFence)
    : CR CoordinationOwner :=
  let? owner := from_snapshot snapshot in
  check? common epoch fence;
  check? validate_current_bindings owner epoch fence;
  Ok owner.
End Issuance.
