(* ===== verification/CoordinationLaws.v ===== *)
(** * Coordination: the log and the effect of each call

    One type of calls for the operations of the coordination owner, what a
    call may do to the log, the sessions, the work items, the leases and the
    integration records, and that a refused call changes nothing. *)

From Stdlib Require Import String.
From S2P Require Import Prelude RustText Contracts CausalLog Receipts.
From S2P Require Import CoordinationData Coordination IntegrationCandidate WorkLeaseIssuance.

#[local] Open Scope string_scope.
#[local] Open Scope Z_scope.

(** ** Calls *)

Inductive Call : Type :=
| CallRegisterSession (req : RegisterSession)
| CallRegisterWork (item : WorkItem) (request_id actor_id : string) (observed_at : ClockReading)
| CallAcquireWork (req : WorkLeaseRequest)
| CallAcquireIssued (req : WorkLeaseRequest)
| CallHeartbeat (req : AgentHeartbeat)
| CallSendMessage (req : MailboxMessageDraft)
| CallCheckpoint (req : WorkCheckpoint)
| CallSubmitResult (req : AgentResultDraft)
| CallAdmitResult (draft : AgentResultDraft)
| CallReassign (req : ReassignWorkRequest)
| CallSubmitCandidate (req : IntegrationCandidateDraft)
| CallAcquireIntegration (req : IntegrationLeaseRequest)
| CallMarkStale (req : StaleIntegrationCandidateRequest)
| CallRouteReview (review_id : string) (draft : IntegrationCandidateDraft)
| CallReviewEffects (review_id : string) (req : IntegrationLeaseRequest)
| CallRecordEvent (req : CoordinationEventDraft).

Section Calls.
Variable sha256 : list Z -> list Z.
Variable evidence_json : WorkLeaseRequest -> WorkLeaseDecision -> result unit (list Z).

Definition forget {S E F A} (f : E -> F) (m : M S E A) : M S F unit :=
  fun s => let (s', r) := m s in
           (s', match r with Ok _ => Ok tt | Err e => Err (f e) end).

Definition call (c : Call) : M CoordinationOwner WorkLeaseIssuanceFailure unit :=
  match c with
  | CallRegisterSession req => forget FCoordination (register_session req)
  | CallRegisterWork item rid actor at_ => forget FCoordination (register_work item rid actor at_)
  | CallAcquireWork req => forget FCoordination (acquire_work req)
  | CallAcquireIssued req => forget id (acquire_work_with_issuance sha256 evidence_json req)
  | CallHeartbeat req => forget FCoordination (heartbeat req)
  | CallSendMessage req => forget FCoordination (send_message req)
  | CallCheckpoint req => forget FCoordination (checkpoint req)
  | CallSubmitResult req => forget FCoordination (submit_result req)
  | CallAdmitResult draft => forget FCoordination (admit_candidate_result draft)
  | CallReassign req => forget FCoordination (reassign req)
  | CallSubmitCandidate req => forget FCoordination (submit_integration_candidate req)
  | CallAcquireIntegration req => forget FCoordination (acquire_integration req)
  | CallMarkStale req => forget FCoordination (mark_integration_candidate_stale req)
  | CallRouteReview rid draft => forget FCoordination (route_review_requested_change rid draft)
  | CallReviewEffects rid req => forget FCoordination (submit_review_effects rid req)
  | CallRecordEvent req => forget FCoordination (record_coordination_event req)
  end.
End Calls.

(** Splits a run on every condition it meets and drops the branches that
    contradict the result in [H]. *)
Ltac run_in H :=
  repeat match type of H with
  | context [match ?x with _ => _ end] =>
      lazymatch x with
      | context [match _ with _ => _ end] => fail
      | _ => let E := fresh "E" in destruct x eqn:E; cbn beta iota in H; try discriminate H
      end
  end.

(** ** Events and the log *)

Lemma text_ok_spec v f : text v f = Ok tt <-> is_blank v = false /\ has_control v = false.
Proof. unfold text. rewrite guard_err_ok, orb_false_iff. done. Qed.

Lemma common_ok epoch fence :
  common epoch fence = Ok tt <->
  epoch = authority_epoch fence /\ StateFence_validate fence = Ok tt.
Proof.
  unfold common. rewrite check_guard_ok, map_err_ok, negb_false_iff, is_same_authority_eq. done.
Qed.

(** What an event built at [o] looks like. *)
Definition fresh_event (o : CoordinationOwner) (e : CoordinationEvent) : Prop :=
  ce_sequence e = co_sequence o + 1 /\ co_sequence o + 1 <= u64_max /\
  (co_sequence o <> 0 -> ce_predecessor e = Some (co_sequence o)).

Lemma event_fresh o rid eid kind subj actor pred epoch fence digest obs e :
  event o rid eid kind subj actor pred epoch fence digest obs = Ok e ->
  fresh_event o e /\ ce_idempotency_key e = rid /\ ce_event_id e = eid /\ ce_kind e = kind /\
  ce_subject_id e = subj /\ ce_actor_id e = actor /\ ce_predecessor e = pred /\
  ce_state_fence e = fence /\ ce_authority_epoch e = epoch /\ ce_payload_digest e = digest.
Proof.
  unfold event, fresh_event. rewrite !check_ok. intros (_ & _ & _ & _ & _ & Hp & H).
  apply rbind_ok in H as (seq & Hs & [= <-]). simpl.
  destruct (checked_add _ _) eqn:Hc; simplify_eq/=. apply checked_add_some in Hc as [-> ?].
  apply guard_err_ok in Hp. split_and!; try done.
  intros Hn. apply andb_false_iff in Hp as [Hp|Hp]; [by bool_facts|].
  apply negb_false_iff, Z.eqb_eq in Hp. done.
Qed.

Lemma own_event_fresh o rid eid kind subj actor epoch fence digest e :
  own_event o rid eid kind subj actor epoch fence digest = Ok e ->
  fresh_event o e /\ ce_idempotency_key e = rid /\ ce_event_id e = eid /\ ce_kind e = kind /\
  ce_subject_id e = subj /\ ce_actor_id e = actor /\ ce_predecessor e = predecessor_of o /\
  ce_state_fence e = fence /\ ce_authority_epoch e = epoch /\ ce_payload_digest e = digest.
Proof. apply event_fresh. Qed.

(** The log of [o] with [e] appended and remembered. *)
Definition append_event (e : CoordinationEvent) (o : CoordinationOwner) : CoordinationOwner :=
  set_log (ce_sequence e) (<[ce_idempotency_key e := e]> (co_event_by_request o))
    (co_events o ++ [e])%list o.

Definition same_request (old e : CoordinationEvent) : Prop :=
  ce_payload_digest old = ce_payload_digest e /\ ce_kind old = ce_kind e /\
  ce_subject_id old = ce_subject_id e.

(** A commit answers from memory or appends the event; a refused commit
    leaves the owner as it was. *)
Lemma commit_cases rid e o o' r :
  ce_idempotency_key e = rid -> commit rid e o = (o', r) ->
  (exists err, r = Err err /\ o' = o) \/
  (exists old, r = Ok old /\ o' = o /\ co_event_by_request o !! rid = Some old /\
               same_request old e) \/
  (r = Ok e /\ co_event_by_request o !! rid = None /\ o' = append_event e o /\
   request rid = Ok tt).
Proof.
  intros Hk H. unfold commit in H. unfold mseq, mstate, mlift in H.
  destruct (request rid) as [[]|err] eqn:Hr; [|simplify_eq; left; by eexists].
  destruct (co_event_by_request o !! rid) as [old|] eqn:Hl.
  - destruct (_ && _ && _) eqn:Hb; unfold mret_ok, mthrow in H; simplify_eq.
    + right; left. exists old. unfold same_request. bool_facts. done.
    + left. by eexists.
  - unfold mmodify, mret_ok in H. simplify_eq. right; right.
    unfold append_event. done.
Qed.

Lemma commit_ok rid e o o' e' :
  ce_idempotency_key e = rid -> commit rid e o = (o', Ok e') ->
  (o' = o /\ co_event_by_request o !! rid = Some e' /\ same_request e' e) \/
  (e' = e /\ co_event_by_request o !! rid = None /\ o' = append_event e o /\ request rid = Ok tt).
Proof. intros Hk H. apply commit_cases in H; naive_solver. Qed.

Lemma commit_err rid e o o' err :
  ce_idempotency_key e = rid -> commit rid e o = (o', Err err) -> o' = o.
Proof. intros Hk H. apply commit_cases in H; naive_solver. Qed.

(** ** What a successful call does

    [logged o rid kind subject payload e o1]: the request [rid] is answered by
    the event [e], remembered from before ([o1] is [o]) or appended now. *)

Definition event_sound (e : CoordinationEvent) : Prop :=
  StateFence_validate (ce_state_fence e) = Ok tt /\
  ce_authority_epoch e = authority_epoch (ce_state_fence e).

Definition appended (o : CoordinationOwner) (rid : string) (pred : option Z)
    (e : CoordinationEvent) (o1 : CoordinationOwner) : Prop :=
  co_event_by_request o !! rid = None /\ ce_idempotency_key e = rid /\ fresh_event o e /\
  event_sound e /\ ce_predecessor e = pred /\ o1 = append_event e o.

Definition about (kind : CoordinationEventKind) (subject payload : string) (e : CoordinationEvent)
    : Prop :=
  ce_kind e = kind /\ ce_subject_id e = subject /\ ce_payload_digest e = payload.

Definition logged (o : CoordinationOwner) (rid : string) (kind : CoordinationEventKind)
    (subject payload : string) (e : CoordinationEvent) (o1 : CoordinationOwner) : Prop :=
  about kind subject payload e /\
  ((co_event_by_request o !! rid = Some e /\ o1 = o) \/ appended o rid (predecessor_of o) e o1).

(** The arguments with which a call reaches [advance_item]. *)
Inductive advances : Call -> string -> string -> string -> EpochId -> StateFence -> Z -> WorkState ->
    string -> string -> CoordinationEventKind -> Prop :=
| advances_checkpoint req :
    advances (CallCheckpoint req) (ck_work_item_id req) (ck_lease_id req) (ck_session_id req)
      (ck_authority_epoch req) (ck_state_fence req) (ck_now req) Checkpointed
      (ck_checkpoint_ref req) (ck_request_id req) EvCheckpointed
| advances_submit req c :
    c = CallSubmitResult req \/ c = CallAdmitResult req ->
    advances c (rd_work_item_id req) (rd_lease_id req) (rd_session_id req)
      (rd_authority_epoch req) (rd_state_fence req) (rd_now req) Submitted
      (rd_result_ref req) (rd_request_id req) EvResultSubmitted.

Section Steps.
Variable sha256 : list Z -> list Z.
Variable evidence_json : WorkLeaseRequest -> WorkLeaseDecision -> result unit (list Z).

(** The step relation: one rule per operation that took effect, with the
    guards that were passed and the owner that is left. *)
Inductive step (o : CoordinationOwner) : Call -> CoordinationOwner -> Prop :=
| step_register_session req e o1 :
    common (rg_authority_epoch req) (rg_state_fence req) = Ok tt ->
    rg_heartbeat_deadline req <> 0 ->
    co_sessions o !! rg_session_id req = None ->
    logged o (rg_request_id req) EvSessionRegistered (rg_session_id req) (rg_route_ref req) e o1 ->
    step o (CallRegisterSession req)
      (set_sessions (<[rg_session_id req := admitted_session req]> (co_sessions o)) o1)
| step_register_work item rid actor at_ e o1 :
    common (authority_epoch (wi_state_fence item)) (wi_state_fence item) = Ok tt ->
    wi_state item = Ready ->
    co_work o !! wi_work_item_id item = None ->
    logged o rid EvWorkRegistered (wi_work_item_id item) (wi_task_id item) e o1 ->
    step o (CallRegisterWork item rid actor at_)
      (set_work (<[wi_work_item_id item := item]> (co_work o)) o1)
| step_acquire req s w e o1 :
    session o (wr_session_id req) (wr_authority_epoch req) (wr_state_fence req) = Ok s ->
    co_work o !! wr_work_item_id req = Some w -> wi_state w = Ready ->
    wr_now req + wr_lease_duration req <= u64_max -> wr_lease_duration req <> 0 ->
    about EvWorkClaimed (wr_work_item_id req) (wr_lease_id req) e ->
    appended o (wr_request_id req) (predecessor_of o) e o1 ->
    step o (CallAcquireWork req)
      (set_leases (<[wr_lease_id req := claimed_lease req (as_session_id s)
                                          (wr_now req + wr_lease_duration req)]> (co_leases o))
         (set_work (<[wr_work_item_id req :=
                        set_assignment Claimed (wr_session_id req) (wr_lease_id req)
                          (saturating_add_u32 (wi_attempt w) 1) w]> (co_work o)) o1))
| step_heartbeat req s l e o1 :
    read_active_session o (hb_session_id req) (hb_now req) (hb_authority_epoch req)
      (hb_state_fence req) = Ok s ->
    lease o (hb_lease_id req) (hb_session_id req) (hb_now req) (hb_authority_epoch req)
      (hb_state_fence req) = Ok l ->
    hb_extend_to req <> 0 -> hb_now req <= hb_extend_to req ->
    logged o (hb_request_id req) EvHeartbeat (hb_lease_id req) (hb_lease_id req) e o1 ->
    step o (CallHeartbeat req)
      (set_leases (<[wl_lease_id l := set_lease_term (hb_now req) (hb_extend_to req) l]>
                     (co_leases o)) o1)
| step_send req e o1 :
    co_messages o !! md_message_id req = None ->
    logged o (md_request_id req) EvMessageSent (md_message_id req) (md_payload_digest req) e o1 ->
    step o (CallSendMessage req)
      (set_messages (<[md_message_id req :=
         {| mm_message_id := md_message_id req; mm_sender_session_id := md_sender_session_id req;
            mm_recipient_session_id := md_recipient_session_id req;
            mm_work_item_id := md_work_item_id req; mm_payload_digest := md_payload_digest req;
            mm_delivered := true |}]> (co_messages o)) o1)
| step_advance c wid lid sid epoch fence now target reference rid kind l w e o1 :
    advances c wid lid sid epoch fence now target reference rid kind ->
    lease o lid sid now epoch fence = Ok l ->
    co_work o !! wid = Some w -> may_advance (wi_state w) target = true ->
    logged o rid kind wid reference e o1 ->
    step o c
      (set_work (<[wid := if target == Checkpointed
                          then set_progress target (Some reference) (wi_result_ref w) w
                          else set_progress target (wi_checkpoint_ref w) (Some reference) w]>
                   (co_work o)) o1)
| step_reassign req s old w e o1 :
    validate_reassignment_source o req = Ok tt ->
    read_active_session o (ra_new_session_id req) (ra_now req) (ra_authority_epoch req)
      (ra_state_fence req) = Ok s ->
    co_leases o !! ra_old_lease_id req = Some old ->
    co_work o !! ra_work_item_id req = Some w ->
    co_leases o !! ra_new_lease_id req = None ->
    ra_now req <> 0 -> ra_lease_duration req <> 0 ->
    ra_now req + ra_lease_duration req <= u64_max ->
    about EvWorkReassigned (ra_work_item_id req) (reassignment_payload req) e ->
    appended o (ra_request_id req) (predecessor_of o) e o1 ->
    step o (CallReassign req)
      (set_leases (<[ra_new_lease_id req :=
                       reassigned_lease req (ra_now req + ra_lease_duration req)]>
                     (<[ra_old_lease_id req := retire (ra_now req) old]> (co_leases o)))
         (set_work (<[ra_work_item_id req :=
                        set_assignment Reassigned (ra_new_session_id req) (ra_new_lease_id req)
                          (wi_attempt w) w]> (co_work o)) o1))
| step_candidate c req p e o1 :
    c = CallSubmitCandidate req \/ (exists rid, c = CallRouteReview rid req) ->
    common (cd_authority_epoch req) (cd_state_fence req) = Ok tt -> cd_now req <> 0 ->
    co_integration_candidates o !! cd_candidate_id req = None ->
    read_active_work_lease o (cd_source_work_item_id req) (cd_session_id req) (cd_now req)
      (cd_authority_epoch req) (cd_state_fence req) = Ok p ->
    about EvIntegrationCandidateSubmitted (cd_candidate_id req) (cd_candidate_id req) e ->
    appended o (cd_request_id req) (predecessor_of o) e o1 ->
    step o c
      (set_integration (co_integrations o) (co_integration_lease_by_request o)
         (<[cd_candidate_id req :=
              push_revision CandProposed (proposed_revision req (ce_sequence e))
                (candidate_of req)]> (co_integration_candidates o)) o1)
| step_integration c req s staged o1 :
    c = CallAcquireIntegration req \/ (exists rid, c = CallReviewEffects rid req) ->
    session o (ir_session_id req) (ir_authority_epoch req) (ir_state_fence req) = Ok s ->
    validate_active_session_heartbeat s (Some (ir_now req)) = Ok tt ->
    ir_now req <> 0 -> ir_lease_duration req <> 0 ->
    stage_integration_claim o req (ir_now req + ir_lease_duration req) = Ok staged ->
    appended o (ir_request_id req) (predecessor_of o) (sc_event staged) o1 ->
    step o c
      (set_integration (<[ir_target_scope req := sc_lease staged]> (co_integrations o))
         (<[ir_request_id req := sc_lease staged]> (co_integration_lease_by_request o))
         (<[ir_candidate_id req := sc_candidate staged]> (co_integration_candidates o)) o1)
| step_stale req c e o1 :
    stage_stale_candidate o req = Ok (c, e) -> st_now req <> 0 ->
    appended o (st_request_id req) (predecessor_of o) e o1 ->
    step o (CallMarkStale req)
      (set_integration (co_integrations o) (co_integration_lease_by_request o)
         (<[st_candidate_id req := c]> (co_integration_candidates o)) o1)
| step_record req e o1 :
    appended o (ed_request_id req) (ed_predecessor req) e o1 ->
    step o (CallRecordEvent req) o1
| step_issued req p decision o1 :
    step o (CallAcquireWork req) o1 ->
    co_work_lease_issuance_by_request o !! wr_request_id req = None ->
    validate_fresh_request o req = Ok tt ->
    co_leases o !! wr_lease_id req = None ->
    validate_candidate_records o1 req decision = Ok tt ->
    co_event_by_request o1 !! wr_request_id req = Some (wd_event decision) ->
    co_leases o1 !! wr_lease_id req = Some (wd_lease decision) ->
    issue_provenance sha256 evidence_json req decision = Ok p ->
    provenance_validate sha256 evidence_json p = Ok tt ->
    Forall (fun old => ip_canonical_work_lease_id old <> ip_canonical_work_lease_id p)
      (btree_values (co_work_lease_issuance_by_request o)) ->
    step o (CallAcquireIssued req)
      (set_issuance (<[wr_request_id req := p]> (co_work_lease_issuance_by_request o)) o1).

(** A refused call leaves [o]; an accepted one leaves [o] or takes the step
    of its rule. *)
Definition outcome {A E} (c : Call) (o o' : CoordinationOwner) (r : result E A) : Prop :=
  (exists err, r = Err err /\ o' = o) \/ (exists a, r = Ok a /\ (o' = o \/ step o c o')).

Lemma outcome_err {A E} c o (err : E) : @outcome A E c o o (Err err).
Proof. left. by eexists. Qed.

Lemma outcome_same {A E} c o (a : A) : @outcome A E c o o (Ok a).
Proof. right. eexists. split; [done|by left]. Qed.

Lemma outcome_step {A E} c o o' (a : A) : step o c o' -> @outcome A E c o o' (Ok a).
Proof. right. eexists. split; [done|by right]. Qed.

(** Splits a run on the next condition it meets; refused branches close. *)
Ltac op_close H :=
  lazymatch type of H with
  | (_, Err _) = (_, Ok _) => discriminate H
  | (_, Ok _) = (_, Err _) => discriminate H
  | (?a, Err _) = (_, _) => injection H as <- <-; first [apply outcome_err | idtac]
  | (?a, Ok _) = (_, _) => injection H as <- <-; first [apply outcome_same | idtac]
  | _ => idtac
  end.

Ltac op_step H :=
  match type of H with
  | context [match ?x with _ => _ end] =>
      lazymatch x with
      | context [match _ with _ => _ end] => fail
      | _ => let E := fresh "E" in destruct x eqn:E; cbn beta iota in H; op_close H
      end
  end.

Ltac op_run H :=
  unfold mseq, mlift, mstate, mmodify, mret_ok, mthrow in H; cbn beta iota zeta in H;
  op_close H; repeat op_step H; destruct_units.

Lemma logged_of_commit o rid kind subj payload e e' o1 :
  ce_idempotency_key e = rid -> about kind subj payload e -> fresh_event o e -> event_sound e ->
  ce_predecessor e = predecessor_of o ->
  commit rid e o = (o1, Ok e') -> logged o rid kind subj payload e' o1.
Proof.
  intros Hk Ha Hf Hs Hp Hc. destruct (commit_ok _ _ _ _ _ Hk Hc) as [(-> & Hr & Hsame)|(-> & Hr & -> & _)].
  - split; [|by left]. destruct Ha as (<- & <- & <-), Hsame as (? & ? & ?). done.
  - split; [done|]. by right.
Qed.

Lemma appended_of_commit o rid pred e e' o1 :
  ce_idempotency_key e = rid -> fresh_event o e -> event_sound e -> ce_predecessor e = pred ->
  co_event_by_request o !! rid = None -> commit rid e o = (o1, Ok e') ->
  e' = e /\ appended o rid pred e o1.
Proof.
  intros Hk Hf Hs Hp Hn Hc.
  destruct (commit_ok _ _ _ _ _ Hk Hc) as [(_ & Hr & _)|(-> & _ & -> & _)]; [congruence|done].
Qed.

Lemma event_sound_of epoch fence e :
  common epoch fence = Ok tt -> ce_state_fence e = fence -> ce_authority_epoch e = epoch ->
  event_sound e.
Proof. intros [He Hf]%common_ok <- <-. split; done. Qed.

(** Only the log changes when an event is committed. *)
Record same_records (o o1 : CoordinationOwner) : Prop := {
  same_sessions : co_sessions o1 = co_sessions o;
  same_work : co_work o1 = co_work o;
  same_leases : co_leases o1 = co_leases o;
  same_messages : co_messages o1 = co_messages o;
  same_integrations : co_integrations o1 = co_integrations o;
  same_candidates : co_integration_candidates o1 = co_integration_candidates o;
  same_lease_history :
    co_integration_lease_by_request o1 = co_integration_lease_by_request o;
  same_issuance : co_work_lease_issuance_by_request o1 = co_work_lease_issuance_by_request o;
  same_reviews : co_peer_reviews o1 = co_peer_reviews o;
  same_resolutions : co_peer_review_resolutions o1 = co_peer_review_resolutions o;
}.

Lemma same_records_refl o : same_records o o.
Proof. by split. Qed.

Lemma append_event_records e o : same_records o (append_event e o).
Proof. by split. Qed.

Lemma commit_frame rid e o o1 r : commit rid e o = (o1, r) -> same_records o o1.
Proof.
  intros H. unfold commit, mseq, mstate, mlift in H.
  destruct (request rid); [|injection H as <- <-; apply same_records_refl].
  destruct (_ !! _); [case_match|]; injection H as <- <-; by split.
Qed.

Ltac event_facts E :=
  let Hf := fresh "Hfresh" in let Hk := fresh "Hkey" in let Hkind := fresh "Hkind" in
  let Hs := fresh "Hsubject" in let Hfe := fresh "Hfence" in let He := fresh "Hepoch" in
  let Hp := fresh "Hpayload" in let Hpr := fresh "Hpredecessor" in
  (apply own_event_fresh in E || apply event_fresh in E);
  destruct E as (Hf & Hk & _ & Hkind & Hs & _ & Hpr & Hfe & He & Hp).

(** Ends a run at its commit: a refused commit changed nothing, an accepted
    one leaves the records alone. *)
Ltac op_commit C :=
  lazymatch type of C with
  | commit _ _ _ = (_, Err _) =>
      apply commit_err in C; [rewrite C; apply outcome_err|done]
  | commit _ _ _ = (_, Ok _) =>
      let F := fresh "F" in pose proof (commit_frame _ _ _ _ _ C) as F;
      rewrite ?(same_sessions _ _ F), ?(same_work _ _ F), ?(same_leases _ _ F),
        ?(same_messages _ _ F), ?(same_integrations _ _ F), ?(same_candidates _ _ F),
        ?(same_lease_history _ _ F)
  end.

Lemma register_session_outcome req o o' r :
  register_session req o = (o', r) -> outcome (CallRegisterSession req) o o' r.
Proof.
  intros H. unfold register_session in H. op_run H; event_facts E5; op_commit E6.
  apply outcome_step.
  eapply step_register_session; [done| |done|].
  - unfold nonzero in E2. apply guard_err_ok in E2. lia.
  - eapply logged_of_commit; [exact Hkey|done|done| |done|exact E6]. by eapply event_sound_of.
Qed.

Lemma register_work_outcome item rid actor at_ o o' r :
  register_work item rid actor at_ o = (o', r) ->
  outcome (CallRegisterWork item rid actor at_) o o' r.
Proof.
  intros H. unfold register_work in H. op_run H; event_facts E3; op_commit E4.
  apply guard_err_ok, orb_false_iff in E2 as [E2 Hn]. bool_facts.
  apply outcome_step.
  eapply step_register_work; [done|done| |].
  - by destruct (co_work o !! _).
  - eapply logged_of_commit; [exact Hkey|done|done| |done|exact E4]. by eapply event_sound_of.
Qed.

Lemma nonzero_ok v f : nonzero v f = Ok tt <-> v <> 0.
Proof. unfold nonzero. rewrite guard_err_ok, Z.eqb_neq. done. Qed.

Lemma ok_or_ok {A E} (m : option A) (e : E) a : ok_or m e = Ok a <-> m = Some a.
Proof. destruct m; simpl; naive_solver. Qed.

Lemma is_some_false {A} (m : option A) : is_some m = false <-> m = None.
Proof. by destruct m. Qed.

(** Reads the conditions met on the way. *)
Ltac op_facts :=
  repeat match goal with
  | H : ok_or _ _ = Ok _ |- _ => apply ok_or_ok in H
  | H : guard_err _ _ = Ok _ |- _ => apply guard_err_ok in H
  | H : nonzero _ _ = Ok _ |- _ => apply nonzero_ok in H
  | H : is_some _ = false |- _ => apply is_some_false in H
  | H : checked_add _ _ = Some _ |- _ => apply checked_add_some in H as [-> H]
  end; bool_facts.

Lemma acquire_work_outcome req o o' r :
  acquire_work req o = (o', r) -> outcome (CallAcquireWork req) o o' r.
Proof.
  intros H. unfold acquire_work, update_work in H. op_run H; event_facts E7; op_facts; op_commit E8.
  - rewrite (same_work _ _ F), E3 in E10. injection E10 as <-.
    eapply appended_of_commit in E8 as [-> Ha]; [|done|done|by eapply event_sound_of|done|done].
    apply outcome_step. by eapply step_acquire.
  - rewrite (same_work _ _ F), E3 in E10. done.
Qed.

Lemma heartbeat_outcome req o o' r :
  heartbeat req o = (o', r) -> outcome (CallHeartbeat req) o o' r.
Proof.
  intros H. unfold heartbeat in H. op_run H; event_facts E4; op_facts; op_commit E5.
  apply outcome_step. eapply step_heartbeat; [done|done|done|lia|].
  eapply logged_of_commit; [exact Hkey|done|done| |done|exact E5]. by eapply event_sound_of.
Qed.

Lemma send_message_outcome req o o' r :
  send_message req o = (o', r) -> outcome (CallSendMessage req) o o' r.
Proof.
  intros H. unfold send_message in H. op_run H; event_facts E4; op_facts; op_commit E5.
  apply outcome_step. eapply step_send; [done|].
  eapply logged_of_commit; [exact Hkey|done|done| |done|exact E5]. by eapply event_sound_of.
Qed.

Lemma advance_item_outcome c wid lid sid epoch fence now target reference rid kind o o' r :
  advances c wid lid sid epoch fence now target reference rid kind ->
  advance_item wid lid sid epoch fence now target reference rid kind o = (o', r) ->
  outcome c o o' r.
Proof.
  intros Hadv H. unfold advance_item, update_work in H.
  op_run H; event_facts E3; op_facts; op_commit E4.
  - rewrite (same_work _ _ F), E1 in E6. injection E6 as <-.
    apply outcome_step. eapply step_advance; [exact Hadv|done|done|done|].
    eapply logged_of_commit; [exact Hkey|done|done| |done|exact E4]. by eapply event_sound_of.
  - rewrite (same_work _ _ F), E1 in E6. done.
Qed.

(** The outcome does not depend on the value returned. *)
Lemma outcome_ok {A B E F} c o o' (a : A) (b : B) :
  @outcome A E c o o' (Ok a) -> @outcome B F c o o' (Ok b).
Proof.
  intros [(err & ? & _)|(a' & _ & H)]; [done|]. right. by exists b.
Qed.

Lemma outcome_refused {A B E F} c o o' (e : E) (f : F) :
  @outcome A E c o o' (Err e) -> @outcome B F c o o' (Err f).
Proof. intros [(err & _ & ->)|(a' & ? & _)]; [apply outcome_err|done]. Qed.

Lemma checkpoint_outcome req o o' r :
  checkpoint req o = (o', r) -> outcome (CallCheckpoint req) o o' r.
Proof.
  intros H. unfold checkpoint in H.
  op_run H; eapply advance_item_outcome in E0; try apply advances_checkpoint;
    eauto using outcome_ok, outcome_refused.
Qed.

Lemma submit_result_outcome c req o o' r :
  c = CallSubmitResult req \/ c = CallAdmitResult req ->
  submit_result req o = (o', r) -> outcome c o o' r.
Proof.
  intros Hc H. unfold submit_result in H.
  op_run H; eapply advance_item_outcome in E0; try (by apply advances_submit);
    eauto using outcome_ok, outcome_refused.
Qed.

Lemma admit_candidate_result_outcome req o o' r :
  admit_candidate_result req o = (o', r) -> outcome (CallAdmitResult req) o o' r.
Proof.
  intros H. unfold admit_candidate_result in H. op_run H.
  eapply submit_result_outcome; [by right|done].
Qed.

(** What the source of a reassignment has to look like. *)
Record reassignable (o : CoordinationOwner) (req : ReassignWorkRequest) (old : WorkLease)
    (w : WorkItem) : Prop := {
  src_lease : co_leases o !! ra_old_lease_id req = Some old;
  src_live : wl_retired_at old = None;
  src_lease_id : wl_lease_id old = ra_old_lease_id req;
  src_lease_item : wl_work_item_id old = ra_work_item_id req;
  src_lease_fence : wl_state_fence old = ra_state_fence req;
  src_issued : wl_issued_at old <= ra_now req;
  src_item : co_work o !! ra_work_item_id req = Some w;
  src_item_fence : wi_state_fence w = ra_state_fence req;
  src_active : work_active (wi_state w) = true;
  src_item_lease : wi_lease_id w = Some (ra_old_lease_id req);
  src_owner : wi_owner_session_id w = Some (wl_holder_session_id old);
}.

Lemma validate_reassignment_source_ok o req :
  validate_reassignment_source o req = Ok tt -> exists old w, reassignable o req old w.
Proof.
  unfold validate_reassignment_source. intros H.
  apply rbind_ok in H as (old & Hold & H). rewrite !check_guard_ok in H.
  destruct H as (Hr & Hid & _ & _ & Hi & H). apply rbind_ok in H as (w & Hw & H).
  apply guard_err_ok in H. exists old, w. apply ok_or_ok in Hold, Hw.
  apply is_some_false in Hr. bool_facts. split; try done. lia.
Qed.

Lemma outcome_lift {A E} c o o' (r r' : result E A) : (o, r) = (o', r') -> outcome c o o' r'.
Proof. intros [= <- <-]. destruct r; [apply outcome_same|apply outcome_err]. Qed.

Lemma validate_reassignment_fields_ok req expires_at :
  validate_reassignment_fields req = Ok expires_at ->
  expires_at = ra_now req + ra_lease_duration req /\ expires_at <= u64_max /\
  common (ra_authority_epoch req) (ra_state_fence req) = Ok tt /\
    ra_now req <> 0 /\ ra_lease_duration req <> 0 /\ ra_old_lease_id req <> ra_new_lease_id req.
Proof.
  unfold validate_reassignment_fields. rewrite !check_ok, !nonzero_ok.
  intros (_ & Hc & Hn & Hd & H). apply rbind_ok in H as (e & He & H).
  apply check_guard_ok in H as [Hne [= <-]]. apply ok_or_ok, checked_add_some in He as [-> ?].
  bool_facts. done.
Qed.

Lemma reassign_outcome req o o' r :
  reassign req o = (o', r) -> outcome (CallReassign req) o o' r.
Proof.
  intros H. unfold reassign, update_work in H. op_run H; [by eapply outcome_lift|..];
    apply validate_reassignment_fields_ok in E as (-> & Hmax & Hc & Hn & Hd & _);
    event_facts E4; op_facts;
    pose proof E1 as (old & w & Hsrc)%validate_reassignment_source_ok; op_commit E5.
  - rewrite (same_leases _ _ F), (src_lease _ _ _ _ Hsrc) in E7. injection E7 as <-.
    simpl in E8. rewrite (same_work _ _ F), (src_item _ _ _ _ Hsrc) in E8. injection E8 as <-.
    eapply appended_of_commit in E5 as [-> Ha]; [|done|done|by eapply event_sound_of|done|done].
    apply outcome_step.
    assert (Hset : forall m1 m2 w c, set_leases m1 (set_work w (set_leases m2 c)) =
              set_leases m1 (set_work w c)) by done. rewrite Hset.
    eapply step_reassign; try done; apply Hsrc.
  - simpl in E8. rewrite (same_work _ _ F), (src_item _ _ _ _ Hsrc) in E8. done.
  - rewrite (same_leases _ _ F), (src_lease _ _ _ _ Hsrc) in E7. done.
Qed.

Lemma submit_integration_candidate_outcome c req o o' r :
  c = CallSubmitCandidate req \/ (exists rid, c = CallRouteReview rid req) ->
  submit_integration_candidate req o = (o', r) -> outcome c o o' r.
Proof.
  intros Hcall H. unfold submit_integration_candidate in H. op_run H; [by eapply outcome_lift|..];
    event_facts E7; op_facts; op_commit E8.
  eapply appended_of_commit in E8 as [-> Ha]; [|done|done|by eapply event_sound_of|done|done].
  apply outcome_step. by eapply step_candidate.
Qed.

Lemma validate_integration_request_ok req expires_at :
  validate_integration_request req = Ok expires_at ->
  expires_at = ir_now req + ir_lease_duration req /\ expires_at <= u64_max /\
  common (ir_authority_epoch req) (ir_state_fence req) = Ok tt /\
    ir_now req <> 0 /\ ir_lease_duration req <> 0.
Proof.
  unfold validate_integration_request. rewrite !check_ok, !nonzero_ok.
  intros (_ & Hn & Hd & H). apply rbind_ok in H as (e & He & H).
  rewrite !check_ok in H. destruct H as (Hc & _ & [= <-]).
  apply ok_or_ok, checked_add_some in He as [-> ?]. done.
Qed.

Lemma exact_integration_replay_none o req expires_at :
  exact_integration_replay o req expires_at = Ok None ->
  co_event_by_request o !! ir_request_id req = None.
Proof.
  unfold exact_integration_replay. intros H. destruct (_ !! _); [|done].
  apply rbind_ok in H as (l & _ & H). by apply check_guard_ok in H as [_ H].
Qed.

(** What a staged claim found, and what it records. *)
Lemma stage_integration_claim_ok o req expires_at staged :
  stage_integration_claim o req expires_at = Ok staged ->
  exists c, co_integration_candidates o !! ir_candidate_id req = Some c /\
  ic_target_scope c = ir_target_scope req /\ ic_state_fence c = ir_state_fence req /\
    candidate_available o req c = true /\
    Forall (fun e => ~ (ce_kind e = EvIntegrationClaimed /\ ce_payload_digest e = ir_lease_id req))
      (co_events o) /\
  (forall old, co_integrations o !! ir_target_scope req = Some old ->
                 il_expires_at old < ir_now req) /\
  own_event o (ir_request_id req)
      ("integration:" ++ ir_target_scope req ++ ":" ++ ir_lease_id req)
      EvIntegrationClaimed (ir_target_scope req) (ir_session_id req)
      (ir_authority_epoch req) (ir_state_fence req) (ir_lease_id req) = Ok (sc_event staged) /\
  sc_lease staged = claimed_integration_lease req expires_at /\
    sc_candidate staged = push_revision CandIntegrating
      (lease_revision c (ce_sequence (sc_event staged)) CandIntegrating (ir_lease_id req)
         (ir_now req)) c.
Proof.
  unfold stage_integration_claim. intros H. apply rbind_ok in H as (c & Hc & H).
  rewrite !check_guard_ok in H. destruct H as (Hg & Hdup & Hown & H).
  apply rbind_ok in H as (e & He & [= <-]). apply ok_or_ok in Hc. bool_facts.
  exists c. split_and!; try done.
  - apply existsb_false_iff in Hdup. eapply Forall_impl; [exact Hdup|].
    intros x Hx [Hk Hp]. simpl in Hx. rewrite !bool_decide_eq_true_2 in Hx by done. done.
  - intros old Hold. rewrite Hold in Hown. simpl in Hown. lia.
Qed.

Lemma acquire_integration_outcome c req o o' r :
  c = CallAcquireIntegration req \/ (exists rid, c = CallReviewEffects rid req) ->
  acquire_integration req o = (o', r) -> outcome c o o' r.
Proof.
  intros Hcall H. unfold acquire_integration in H. op_run H;
    apply validate_integration_request_ok in E as (-> & Hmax & Hc & Hn & Hd);
    apply exact_integration_replay_none in E2;
    pose proof E4 as (cand & _ & _ & _ & _ & _ & _ & Hev & _)%stage_integration_claim_ok;
    event_facts Hev; op_commit E5.
  eapply appended_of_commit in E5 as [-> Ha]; [|done|done|by eapply event_sound_of|done|done].
  apply outcome_step. by eapply step_integration.
Qed.

Lemma exact_stale_candidate_replay_none o req :
  exact_stale_candidate_replay o req = Ok None ->
  co_event_by_request o !! st_request_id req = None.
Proof.
  unfold exact_stale_candidate_replay. intros H. destruct (_ !! _); [|done].
  apply rbind_ok in H as (l & _ & H). by apply check_guard_ok in H as [_ H].
Qed.

Lemma validate_integration_lease_ok o scope lid sid now epoch fence :
  validate_integration_lease o scope lid sid now epoch fence = Ok tt ->
  exists l, co_integrations o !! scope = Some l /\ il_lease_id l = lid /\
    il_holder_session_id l = sid /\ now <= il_expires_at l /\ il_state_fence l = fence.
Proof.
  unfold validate_integration_lease. intros H. apply rbind_ok in H as (s & _ & H).
  apply check_ok in H as [_ H]. apply rbind_ok in H as (l & Hl & H).
  rewrite !check_guard_ok, guard_err_ok in H. destruct H as (H1 & H2 & H3).
  apply ok_or_ok in Hl. bool_facts. exists l. split_and!; try done. lia.
Qed.

Lemma stage_stale_candidate_ok o req c e :
  stage_stale_candidate o req = Ok (c, e) ->
  exists cand l, co_integration_candidates o !! st_candidate_id req = Some cand /\
    ic_base_commit cand = st_changed_from_base_commit req /\
    ic_base_commit cand <> st_current_base_commit req /\
    ic_target_scope cand = st_target_scope req /\
    (ic_status cand = CandProposed \/ ic_status cand = CandReady) /\
    co_integrations o !! st_target_scope req = Some l /\ il_lease_id l = st_lease_id req /\
    il_holder_session_id l = st_session_id req /\ st_now req <= il_expires_at l /\
    own_event o (st_request_id req) ("candidate-stale:" ++ st_candidate_id req)
      EvIntegrationCandidateStaled (st_candidate_id req) (st_session_id req)
      (st_authority_epoch req) (st_state_fence req) (st_current_base_commit req) = Ok e /\
    c = push_revision CandStale
          (lease_revision cand (ce_sequence e) CandStale (st_lease_id req) (st_now req)) cand.
Proof.
  unfold stage_stale_candidate. intros H. apply rbind_ok in H as (cand & Hc & H).
  rewrite !check_guard_ok, check_ok in H. destruct H as (Hg & Hs & Hl & H).
  apply rbind_ok in H as (e' & He & [= <- <-]). apply ok_or_ok in Hc.
  apply validate_integration_lease_ok in Hl as (l & Hl & Hid & Hh & Hx & _). bool_facts.
  exists cand, l. split_and!; try done. apply orb_true_iff in Hs as [Hs|Hs]; bool_facts; auto.
Qed.

Lemma validate_stale_candidate_request_ok req :
  validate_stale_candidate_request req = Ok tt ->
  common (st_authority_epoch req) (st_state_fence req) = Ok tt /\ st_now req <> 0.
Proof.
  unfold validate_stale_candidate_request. rewrite !check_ok, nonzero_ok. tauto.
Qed.

Lemma mark_stale_outcome req o o' r :
  mark_integration_candidate_stale req o = (o', r) -> outcome (CallMarkStale req) o o' r.
Proof.
  intros H. unfold mark_integration_candidate_stale in H. op_run H;
    apply validate_stale_candidate_request_ok in E as [Hc Hn];
    apply exact_stale_candidate_replay_none in E0;
    pose proof E2 as (cand & l & _ & _ & _ & _ & _ & _ & _ & _ & _ & Hev & _)%stage_stale_candidate_ok;
    event_facts Hev; op_commit E4.
  eapply appended_of_commit in E4 as [-> Ha]; [|done|done|by eapply event_sound_of|done|done].
  apply outcome_step. by eapply step_stale.
Qed.

Lemma route_review_outcome rid req o o' r :
  route_review_requested_change rid req o = (o', r) -> outcome (CallRouteReview rid req) o o' r.
Proof.
  intros H. unfold route_review_requested_change in H. op_run H.
  eapply submit_integration_candidate_outcome; [by right; eexists|done].
Qed.

Lemma review_effects_outcome rid req o o' r :
  submit_review_effects rid req o = (o', r) -> outcome (CallReviewEffects rid req) o o' r.
Proof.
  intros H. unfold submit_review_effects in H. op_run H.
  eapply acquire_integration_outcome; [by right; eexists|done].
Qed.

Lemma record_event_outcome req o o' r :
  record_coordination_event req o = (o', r) -> outcome (CallRecordEvent req) o o' r.
Proof.
  intros H. unfold record_coordination_event in H. op_run H; event_facts E0; op_commit E1.
  destruct (co_event_by_request o !! ed_request_id req) as [old|] eqn:Hold.
  - apply commit_ok in E1 as [(-> & _)|(_ & ? & _)]; [apply outcome_same|congruence|done].
  - eapply appended_of_commit in E1 as [-> Ha]; [|done|done|by eapply event_sound_of|done|done].
    apply outcome_step. by eapply step_record.
Qed.

(** A claim on an unused lease identifier is never a replay. *)
Lemma acquire_work_fresh req o o' d :
  acquire_work req o = (o', Ok d) -> co_leases o !! wr_lease_id req = None ->
  step o (CallAcquireWork req) o' /\
  co_event_by_request o' !! wr_request_id req = Some (wd_event d) /\
  co_leases o' !! wr_lease_id req = Some (wd_lease d) /\
  co_work_lease_issuance_by_request o' = co_work_lease_issuance_by_request o.
Proof.
  intros H Hl. pose proof (acquire_work_outcome _ _ _ _ H) as Hout.
  destruct (co_event_by_request o !! wr_request_id req) as [old|] eqn:Hold.
  - unfold acquire_work, exact_work_replay, mseq, mstate, mlift in H.
    rewrite Hold, Hl in H. simpl in H. rewrite andb_false_r in H. simpl in H. done.
  - unfold acquire_work, update_work, mseq, mstate, mlift, mmodify, mret_ok in H.
    rewrite Hold in H. cbn beta iota zeta delta [is_some] in H.
    repeat op_step H. destruct_units. event_facts E6. op_facts.
    eapply appended_of_commit in E7 as [-> (_ & _ & _ & _ & _ & ->)]; [|done|done|by eapply event_sound_of|done|done].
    split_and!.
    + destruct Hout as [(? & ? & _)|(? & _ & [Heq|Hs])]; [done| |done].
      exfalso. apply (f_equal (fun x => co_leases x !! wr_lease_id req)) in Heq. simpl in Heq.
      rewrite lookup_insert_eq, Hl in Heq. done.
    + simpl. rewrite Hkey. by rewrite lookup_insert_eq.
    + simpl. by rewrite lookup_insert_eq.
    + done.
Qed.

Lemma step_acquire_shape o req o1 :
  step o (CallAcquireWork req) o1 ->
  exists leases work e, o1 = set_leases leases (set_work work (append_event e o)).
Proof.
  inversion 1; subst;
    repeat match goal with
    | A : appended _ _ _ _ _ |- _ => destruct A as (_ & _ & _ & _ & _ & ->)
    | A : advances _ _ _ _ _ _ _ _ _ _ _ |- _ => inversion A; naive_solver
    | A : _ \/ _ |- _ => naive_solver
    end.
  by do 3 eexists.
Qed.

Lemma acquire_issued_outcome req o o' r :
  acquire_work_with_issuance sha256 evidence_json req o = (o', r) ->
  outcome (CallAcquireIssued req) o o' r.
Proof.
  intros H. unfold acquire_work_with_issuance in H.
  unfold mseq, mlift, mstate, mmodify, mret_ok in H. cbn beta iota zeta in H.
  repeat (op_step H; try discriminate). destruct_units. op_facts.
  repeat match goal with H : map_err _ _ = Ok _ |- _ => apply map_err_ok in H end. subst.
  match goal with A : acquire_work _ _ = _, L : co_leases o !! _ = None |- _ =>
    destruct (acquire_work_fresh _ _ _ _ A L) as (Hstep & Hev & Hls & Hiss) end.
  apply outcome_step.
  match goal with |- step _ _ (set_issuance _ ?x) => replace x with c end.
  - eapply step_issued; try done.
    match goal with D : existsb _ _ = false |- _ => apply existsb_false_iff in D;
      eapply Forall_impl; [exact D|] end.
    intros old Hd. simpl in Hd. by bool_facts.
  - by apply step_acquire_shape in Hstep as (? & ? & ? & ->).
Qed.

Lemma call_outcome c o o' r : call sha256 evidence_json c o = (o', r) -> outcome c o o' r.
Proof.
  intros H. destruct c; simpl in H; unfold forget in H;
    match type of H with context [?m o] => destruct (m o) as [o1 res] eqn:E end;
    injection H as <- <-;
    match goal with |- outcome ?c _ _ _ =>
      assert (Ho : outcome c o o1 res) by eauto using register_session_outcome,
        register_work_outcome, acquire_work_outcome, acquire_issued_outcome, heartbeat_outcome,
        send_message_outcome, checkpoint_outcome, submit_result_outcome,
        admit_candidate_result_outcome, reassign_outcome, submit_integration_candidate_outcome,
        acquire_integration_outcome, mark_stale_outcome, route_review_outcome,
        review_effects_outcome, record_event_outcome
    end;
    (destruct res; [eapply outcome_ok|eapply outcome_refused]; exact Ho).
Qed.
End Steps.

(** A committed event touches no record. *)
Lemma appended_records o rid pred e o1 : appended o rid pred e o1 -> same_records o o1.
Proof. intros (_ & _ & _ & _ & _ & ->). apply append_event_records. Qed.

Lemma logged_records o rid kind subj payload e o1 :
  logged o rid kind subj payload e o1 -> same_records o o1.
Proof. intros (_ & [[_ ->]|H]); [apply same_records_refl|by eapply appended_records]. Qed.

Ltac frame :=
  repeat match goal with
  | H : logged _ _ _ _ _ _ _ |- _ => apply logged_records in H
  | H : appended _ _ _ _ _ |- _ => apply appended_records in H
  end.
