(* ===== verification/CoordinationTheorems.v ===== *)
(** * Coordination: invariants and theorems

    What holds of every owner the operations can reach: its log is a causal
    chain that the request index mirrors, work items follow their lifecycle,
    a reassigned item belongs to its new holder only, integration writers of
    a scope never overlap, and an owner fed by disciplined callers is accepted
    by its own recovery. The last section shows what undisciplined callers
    can do. *)

From Stdlib Require Import String.
From S2P Require Import Prelude RustText Contracts CausalLog Receipts.
From S2P Require Import CoordinationData Coordination IntegrationCandidate WorkLeaseIssuance.
From S2P Require Import CoordinationLaws.

#[local] Open Scope string_scope.
#[local] Open Scope Z_scope.

(** ** The log *)

Definition log_of (o : CoordinationOwner)
    : Z * gmap string CoordinationEvent * list CoordinationEvent :=
  (co_sequence o, co_event_by_request o, co_events o).

(** What one call may do to the log. *)
Definition log_step (o o' : CoordinationOwner) : Prop :=
  log_of o' = log_of o \/
  exists e, co_event_by_request o !! ce_idempotency_key e = None /\ fresh_event o e /\
            event_sound e /\ log_of o' = log_of (append_event e o).

Record log_wf (o : CoordinationOwner) : Prop := {
  log_counts : co_sequence o = Z.of_nat (length (co_events o));
  log_events : forall i e, co_events o !! i = Some e ->
    ce_sequence e = Z.of_nat i + 1 /\ event_sound e /\
    co_event_by_request o !! ce_idempotency_key e = Some e /\
    (i <> 0%nat -> ce_predecessor e = Some (Z.of_nat i));
  log_index : forall k e, co_event_by_request o !! k = Some e ->
    ce_idempotency_key e = k /\ e ∈ co_events o;
}.

Lemma owner_new_log : log_wf owner_new.
Proof. split; [done| |]; intros ? ? H; simpl in H; [|rewrite lookup_empty in H]; done. Qed.

Lemma log_wf_step o o' : log_step o o' -> log_wf o -> log_wf o'.
Proof.
  intros [Heq|(e & Hn & (Hseq & Hmax & Hpred) & Hs & Heq)] [Hc He Hi].
  - injection Heq as H1 H2 H3. split; rewrite ?H1, ?H2, ?H3; done.
  - injection Heq as H1 H2 H3. split; rewrite ?H1, ?H2, ?H3.
    + rewrite length_app. simpl. lia.
    + intros i x Hx. apply lookup_app_Some in Hx as [Hx|[Hge Hx]].
      * destruct (He _ _ Hx) as (? & ? & Hk & ?). split_and!; try done.
        rewrite lookup_insert_ne; [done|]. intros Heqk. rewrite Heqk in Hn. congruence.
      * apply list_lookup_singleton_Some in Hx as [Hx <-].
        assert (i = length (co_events o)) as -> by lia.
        split_and!; [lia|done|by rewrite lookup_insert_eq|].
        intros Hnz. rewrite Hpred by lia. f_equal. lia.
    + intros k x Hk. apply lookup_insert_Some in Hk as [[<- <-]|[_ Hk]].
      * split; [done|]. set_solver.
      * destruct (Hi _ _ Hk). split; [done|]. set_solver.
Qed.

(** The events of a well-formed log, read by position. *)
Lemma event_at_lookup o s e :
  log_wf o -> event_at o s = Some e <->
  exists i, co_events o !! i = Some e /\ s = Z.of_nat i + 1.
Proof.
  intros Hwf. unfold event_at. split.
  - intros H. destruct (checked_sub s 1) as [j|] eqn:Hs; [|done].
    apply checked_sub_some in Hs as [-> Hle].
    exists (Z.to_nat (s - 1)). split; [done|]. lia.
  - intros (i & Hi & ->). replace (checked_sub (Z.of_nat i + 1) 1) with (Some (Z.of_nat i)).
    + by rewrite Nat2Z.id.
    + symmetry. apply checked_sub_some. lia.
Qed.

Lemma index_lookup o k e :
  log_wf o -> co_event_by_request o !! k = Some e ->
  ce_idempotency_key e = k /\ 1 <= ce_sequence e <= co_sequence o /\
  event_at o (ce_sequence e) = Some e /\ event_sound e.
Proof.
  intros Hwf Hk. destruct (log_index _ Hwf _ _ Hk) as [Hkey Hin].
  apply list_elem_of_lookup_1 in Hin as [i Hi].
  destruct (log_events _ Hwf _ _ Hi) as (Hseq & Hs & _ & _).
  pose proof (lookup_lt_Some _ _ _ Hi). pose proof (log_counts _ Hwf).
  split_and!; [done|lia|lia| |done]. apply event_at_lookup; [done|]. by exists i.
Qed.

Section Reachable.
Variable sha256 : list Z -> list Z.
Variable evidence_json : WorkLeaseRequest -> WorkLeaseDecision -> result unit (list Z).

Abbreviation step := (step sha256 evidence_json).
Abbreviation call := (call sha256 evidence_json).

Lemma appended_log o rid pred e o1 : appended o rid pred e o1 -> log_step o o1.
Proof. intros (Hn & Hk & Hf & Hs & _ & ->). right. exists e. by rewrite Hk. Qed.

Lemma logged_log o rid kind subj payload e o1 :
  logged o rid kind subj payload e o1 -> log_step o o1.
Proof. intros (_ & [[_ ->]|H]); [by left|by eapply appended_log]. Qed.

Lemma step_log o c o' : step o c o' -> log_step o o'.
Proof.
  induction 1;
    try match goal with
    | H : logged _ _ _ _ _ _ _ |- _ => exact (logged_log _ _ _ _ _ _ _ H)
    | H : appended _ _ _ _ _ |- _ => exact (appended_log _ _ _ _ _ H)
    | H : log_step _ _ |- _ => exact H
    end.
Qed.

(** The owner after the calls [cs], in this order, each of them accepted or
    refused. *)
Fixpoint exec (cs : list Call) (o : CoordinationOwner) : CoordinationOwner :=
  match cs with
  | [] => o
  | c :: cs' => exec cs' (call c o).1
  end.

(** [P] holds of every call, at the owner it is made on. *)
Fixpoint along (P : CoordinationOwner -> Call -> bool) (cs : list Call) (o : CoordinationOwner)
    : bool :=
  match cs with
  | [] => true
  | c :: cs' => P o c && along P cs' (call c o).1
  end.

Lemma coordination_call_step c o : (call c o).1 = o \/ step o c (call c o).1.
Proof.
  destruct (call c o) as [o1 r] eqn:Hcall. simpl.
  apply call_outcome in Hcall as [(? & _ & ->)|(? & _ & [->|Hs])]; auto.
Qed.

(** What each accepted step keeps holds after any calls. *)
Lemma exec_invariant (P : CoordinationOwner -> Call -> bool) (I : CoordinationOwner -> Prop) cs :
  forall o, (forall o c o', P o c = true -> I o -> step o c o' -> I o') ->
  along P cs o = true -> I o -> I (exec cs o).
Proof.
  induction cs as [|c cs IH]; intros o Hstep HP Ho; simpl in *; [done|].
  apply andb_true_iff in HP as [Hc HP]. apply IH; [done|done|].
  destruct (coordination_call_step c o) as [->|Hs]; [done|by eapply Hstep].
Qed.

Lemma along_true cs : forall o, along (fun _ _ => true) cs o = true.
Proof. induction cs; intros o; simpl; auto. Qed.

Lemma exec_always (I : CoordinationOwner -> Prop) cs o :
  (forall o c o', I o -> step o c o' -> I o') -> I o -> I (exec cs o).
Proof.
  intros Hstep. apply (exec_invariant (fun _ _ => true)); [by eauto|apply along_true].
Qed.

Lemma exec_log cs o : log_wf o -> log_wf (exec cs o).
Proof.
  apply exec_always. intros ? ? ? Hwf Hs. eapply log_wf_step; [by eapply step_log|done].
Qed.

(** Two calls apart or many: the log only grows, and answers stay. *)
Lemma exec_grows cs o :
  co_events o `prefix_of` co_events (exec cs o) /\
  co_event_by_request o ⊆ co_event_by_request (exec cs o).
Proof.
  apply (exec_always (fun o' => co_events o `prefix_of` co_events o' /\
                               co_event_by_request o ⊆ co_event_by_request o')); [|done].
  intros o1 c o2 [Hp Hi] Hs. apply step_log in Hs as [Heq|(e & Hn & _ & _ & Heq)];
    injection Heq as H1 H2 H3; rewrite H2, H3; [done|]. split; [by apply prefix_app_r|].
  etrans; [exact Hi|]. by apply insert_subseteq.
Qed.

(** ** Work items *)

Inductive work_moves : WorkState -> WorkState -> Prop :=
| moves_claim : work_moves Ready Claimed
| moves_checkpoint s : work_active s = true -> work_moves s Checkpointed
| moves_submit s : work_active s = true -> work_moves s Submitted
| moves_reassign s : work_active s = true -> work_moves s Reassigned.

(** [w'] is [w] later in its life. *)
Definition same_item (w w' : WorkItem) : Prop :=
  wi_work_item_id w' = wi_work_item_id w /\ wi_task_id w' = wi_task_id w /\
  wi_state_fence w' = wi_state_fence w.

Definition item_follows (w w' : WorkItem) : Prop :=
  w' = w \/ (same_item w w' /\ work_moves (wi_state w) (wi_state w')).

(** A step leaves the work items alone, adds a ready one, or moves one. *)
Definition work_effect (o o' : CoordinationOwner) : Prop :=
  co_work o' = co_work o \/
  (exists item, wi_state item = Ready /\ co_work o !! wi_work_item_id item = None /\
                StateFence_validate (wi_state_fence item) = Ok tt /\
                co_work o' = <[wi_work_item_id item := item]> (co_work o)) \/
  (exists id w w', co_work o !! id = Some w /\ same_item w w' /\
                   work_moves (wi_state w) (wi_state w') /\ co_work o' = <[id := w']> (co_work o)).

Lemma advances_target c wid lid sid epoch fence now target reference rid kind :
  advances c wid lid sid epoch fence now target reference rid kind ->
  target = Checkpointed \/ target = Submitted.
Proof. intros []; auto. Qed.

Lemma step_work o c o' : step o c o' -> work_effect o o'.
Proof.
  induction 1 as [req e o1 _ _ _ Hl|item rid actor at_ e o1 Hc Hr Hn Hl
    |req s w e o1 _ Hw Hr _ _ _ Hl|req s l e o1 _ _ _ _ Hl|req e o1 _ Hl
    |c wid lid sid epoch fence now target reference rid kind l w e o1 Ha _ Hw Hm Hl
    |req s old w e o1 Hv _ _ Hw _ _ _ _ _ Hl|c req p e o1 _ _ _ _ _ _ Hl
    |c req s staged o1 _ _ _ _ _ _ Hl|req c e o1 _ _ Hl|req e o1 Hl|req p decision o1 _ IH];
    frame; try (left; exact (same_work _ _ Hl)); try exact IH; right.
  - left. exists item. apply common_ok in Hc as [_ Hc]. done.
  - right. exists (wr_work_item_id req), w. eexists. split_and!; [done| | |reflexivity]; [done|].
    rewrite Hr. constructor.
  - right. exists wid, w. unfold may_advance in Hm. apply andb_true_iff in Hm as [Hact _].
    apply advances_target in Ha as [->| ->]; eexists; (split_and!; [done| | |reflexivity]);
      done || by constructor.
  - apply validate_reassignment_source_ok in Hv as (old' & w' & Hsrc).
    rewrite (src_item _ _ _ _ Hsrc) in Hw. injection Hw as ->.
    right. exists (ra_work_item_id req), w. eexists. split_and!; [apply Hsrc| | |reflexivity]; [done|].
    constructor. apply Hsrc.
Qed.

Lemma work_moves_inv s s' : work_moves s s' -> s <> Submitted.
Proof. intros Hm ->. by inversion Hm. Qed.

(** One call moves an item at most one step of its life. *)
Lemma step_work_item o c o' id w :
  step o c o' -> co_work o !! id = Some w ->
  exists w', co_work o' !! id = Some w' /\ item_follows w w'.
Proof.
  intros Hs Hw. apply step_work in Hs as [->|[(item & _ & Hn & _ & ->)|(k & x & x' & Hx & Hsame & Hm & ->)]].
  - exists w. split; [done|by left].
  - exists w. split; [|by left]. rewrite lookup_insert_ne; [done|]. intros Heq. rewrite Heq in Hn. congruence.
  - destruct (decide (k = id)) as [->|Hne].
    + exists x'. rewrite lookup_insert_eq. split; [done|]. right. simplify_eq. done.
    + exists w. rewrite lookup_insert_ne by done. split; [done|by left].
Qed.

(** A work item is never lost, keeps its identity, task and fence,
    moves only along the lifecycle, and is frozen once its result has been
    submitted. *)
Theorem work_item_lifecycle (cs : list Call) (o : CoordinationOwner) (id : string) (w : WorkItem)
    (Hw : co_work o !! id = Some w) :
  exists w', co_work (exec cs o) !! id = Some w' /\ same_item w w' /\
    rtc work_moves (wi_state w) (wi_state w') /\ (wi_state w = Submitted -> w' = w).
Proof.
  apply (exec_always (fun o' => exists w', co_work o' !! id = Some w' /\ same_item w w' /\
    rtc work_moves (wi_state w) (wi_state w') /\ (wi_state w = Submitted -> w' = w))); [|by exists w].
  intros o1 c o2 (w1 & Hw1 & Hsame & Hm & Hsub) Hs.
  destruct (step_work_item _ _ _ _ _ Hs Hw1) as (w2 & Hw2 & [->|[Hsame2 Hm2]]); [by exists w1|].
  exists w2. split_and!; [done| |by eapply rtc_r|].
  - destruct Hsame as (? & ? & ?), Hsame2 as (? & ? & ?). repeat split; congruence.
  - intros Hw0. specialize (Hsub Hw0) as ->. by apply work_moves_inv in Hm2.
Qed.

(** ** Leases *)

Lemma lease_ok o id holder now epoch fence l :
  lease o id holder now epoch fence = Ok l <->
  co_leases o !! id = Some l /\ wl_holder_session_id l = holder /\ now <= wl_expires_at l /\
  wl_authority_epoch l = epoch /\ wl_state_fence l = fence /\ wl_retired_at l = None.
Proof.
  unfold lease. rewrite rbind_ok. split.
  - intros (x & Hx & H). rewrite !check_guard_ok in H. destruct H as (H1 & H2 & H3 & H4 & [= <-]).
    apply ok_or_ok in Hx. apply is_some_false in H4. bool_facts.
    apply is_same_authority_eq in H. split_and!; try done. lia.
  - intros (Hl & Hh & Hx & He & Hf & Hr). exists l. split; [by apply ok_or_ok|].
    rewrite !check_guard_ok, Hr, Hh, He, Hf, is_same_authority_refl.
    rewrite !bool_decide_eq_true_2 by done. split_and!; try done. lia.
Qed.

(** Every lease is stored under its identifier; the item of a lease that is
    not retired points back at it. *)
Record leases_wf (o : CoordinationOwner) : Prop := {
  leases_keyed : forall k l, co_leases o !! k = Some l -> wl_lease_id l = k;
  leases_linked : forall k l, co_leases o !! k = Some l -> wl_retired_at l = None ->
    exists w, co_work o !! wl_work_item_id l = Some w /\ wi_lease_id w = Some k /\
              wi_state w <> Ready;
}.

(** Adding or moving work items keeps the links of the leases that stay. *)
Lemma leases_wf_frame o o' :
  leases_wf o -> co_leases o' = co_leases o ->
  (forall id w, co_work o !! id = Some w -> wi_state w <> Ready ->
     exists w', co_work o' !! id = Some w' /\ wi_lease_id w' = wi_lease_id w /\
                wi_state w' <> Ready) ->
  leases_wf o'.
Proof.
  intros [Hk Hl] Heq Hw. split; rewrite Heq; [done|].
  intros k l Hkl Hr. destruct (Hl k l Hkl Hr) as (w & Hw1 & Hlk & Hst).
  destruct (Hw _ _ Hw1 Hst) as (w' & ? & ? & ?). exists w'. split_and!; congruence.
Qed.

Lemma step_leases o c o' : step o c o' -> leases_wf o -> leases_wf o'.
Proof.
  intros Hstep Hwf.
  induction Hstep as [req e o1 _ _ _ Hl|item rid actor at_ e o1 Hc Hr Hn Hl
    |req s w e o1 _ Hw Hr _ _ _ Hl|req s l e o1 _ Hle _ _ Hl|req e o1 _ Hl
    |c wid lid sid epoch fence now target reference rid kind l w e o1 Ha _ Hw Hm Hl
    |req s old w e o1 Hv _ Hold Hw Hnew _ _ _ _ Hl|c req p e o1 _ _ _ _ _ _ Hl
    |c req s staged o1 _ _ _ _ _ _ Hl|req c e o1 _ _ Hl|req e o1 Hl|req p decision o1 _ IH];
    frame; try (apply (leases_wf_frame o); [done|exact (same_leases _ _ Hl)|];
                intros id0 w0 H0 ?; exists w0; change (co_work o1 !! id0 = Some w0 /\
                  wi_lease_id w0 = wi_lease_id w0 /\ wi_state w0 <> Ready);
                by rewrite (same_work _ _ Hl)).
  - apply (leases_wf_frame o); [done|exact (same_leases _ _ Hl)|].
    intros id0 w0 H0 ?. exists w0. simpl. rewrite lookup_insert_ne; [done|congruence].
  - split; simpl.
    + intros k l [[<- <-]|[_ Hk]]%lookup_insert_Some; [done|by apply Hwf].
    + intros k l [[<- <-]|[Hne Hk]]%lookup_insert_Some Hret; simpl.
      * eexists. rewrite lookup_insert_eq. split_and!; [done|done|done].
      * destruct (leases_linked _ Hwf _ _ Hk Hret) as (w0 & Hw0 & Hlk & Hst).
        exists w0. rewrite lookup_insert_ne; [done|]. congruence.
  - apply lease_ok in Hle as (Hle & _ & _ & _ & _ & Hret).
    pose proof (leases_keyed _ Hwf _ _ Hle) as Hid. split; simpl.
    + intros k l0 [[<- <-]|[_ Hk]]%lookup_insert_Some; [done|by apply Hwf].
    + intros k l0 [[<- <-]|[_ Hk]]%lookup_insert_Some Hr0;
        change (co_work (set_leases _ o1)) with (co_work o1); rewrite (same_work _ _ Hl).
      * rewrite Hid. exact (leases_linked _ Hwf _ _ Hle Hret).
      * by apply Hwf.
  - apply (leases_wf_frame o); [done|exact (same_leases _ _ Hl)|].
    intros id0 w0 H0 ?. simpl. destruct (decide (wid = id0)) as [->|].
    + rewrite lookup_insert_eq. eexists. split; [done|]. simplify_eq.
      apply advances_target in Ha as [->| ->]; done.
    + rewrite lookup_insert_ne by done. by exists w0.
  - apply validate_reassignment_source_ok in Hv as (old' & w' & Hsrc).
    rewrite (src_item _ _ _ _ Hsrc) in Hw. injection Hw as ->. split; simpl.
    + intros k l [[<- <-]|[_ [[<- <-]|[_ Hk]]%lookup_insert_Some]]%lookup_insert_Some;
        [done|exact (leases_keyed _ Hwf _ _ Hold)|by apply Hwf].
    + intros k l [[<- <-]|[Hne [[<- <-]|[Hne' Hk]]%lookup_insert_Some]]%lookup_insert_Some Hret;
        [|done|].
      * eexists. simpl. rewrite lookup_insert_eq. done.
      * destruct (leases_linked _ Hwf _ _ Hk Hret) as (w0 & Hw0 & Hlk & Hst).
        exists w0. rewrite lookup_insert_ne; [done|]. intros Heq. rewrite <- Heq in Hw0.
        rewrite (src_item _ _ _ _ Hsrc) in Hw0. injection Hw0 as <-.
        rewrite (src_item_lease _ _ _ _ Hsrc) in Hlk. congruence.
  - destruct IH. by split.
Qed.

Lemma owner_new_leases : leases_wf owner_new.
Proof. split; intros k l H; simpl in H; by rewrite lookup_empty in H. Qed.

Lemma exec_leases cs : leases_wf (exec cs owner_new).
Proof. apply exec_always; [eauto using step_leases|apply owner_new_leases]. Qed.

(** C28. A work item has at most one lease that is not retired, whatever
    the callers do: two leases on one item that are not retired are the same
    lease, under the same identifier. *)
Theorem single_live_lease (cs : list Call) (k1 k2 : string) (l1 l2 : WorkLease)
    (H1 : co_leases (exec cs owner_new) !! k1 = Some l1)
    (H2 : co_leases (exec cs owner_new) !! k2 = Some l2)
    (Hr1 : wl_retired_at l1 = None) (Hr2 : wl_retired_at l2 = None)
    (Hitem : wl_work_item_id l1 = wl_work_item_id l2) :
  k1 = k2 /\ l1 = l2.
Proof.
  pose proof (exec_leases cs) as Hwf.
  destruct (leases_linked _ Hwf _ _ H1 Hr1) as (w1 & Hw1 & Hl1 & _).
  destruct (leases_linked _ Hwf _ _ H2 Hr2) as (w2 & Hw2 & Hl2 & _).
  rewrite Hitem in Hw1. assert (k1 = k2) as -> by congruence. split; congruence.
Qed.

(** ** Reassignment *)

(** Calls that never claim through the plain path under the identifier [k]. *)
Definition spares_lease (k : string) (c : Call) : bool :=
  match c with
  | CallAcquireWork req => wr_lease_id req != k
  | _ => true
  end.

Lemma step_retired o c o' k l :
  spares_lease k c = true -> leases_wf o -> step o c o' ->
  co_leases o !! k = Some l -> is_some (wl_retired_at l) = true ->
  co_leases o' !! k = Some l.
Proof.
  intros Hsp Hwf Hstep Hk Hret.
  induction Hstep as [req e o1 _ _ _ Hl|item rid actor at_ e o1 Hc Hr Hn Hl
    |req s w e o1 _ Hw Hr _ _ _ Hl|req s l0 e o1 _ Hle _ _ Hl|req e o1 _ Hl
    |c wid lid sid epoch fence now target reference rid kind l0 w e o1 Ha _ Hw Hm Hl
    |req s old w e o1 Hv _ Hold Hw Hnew _ _ _ _ Hl|c req p e o1 _ _ _ _ _ _ Hl
    |c req s staged o1 _ _ _ _ _ _ Hl|req c e o1 _ _ Hl|req e o1 Hl
    |req p decision o1 Hacq IH _ _ Hfree];
    frame; try (change (co_leases o1 !! k = Some l); by rewrite (same_leases _ _ Hl)); simpl.
  - simpl in Hsp. bool_facts. by rewrite lookup_insert_ne.
  - apply lease_ok in Hle as (Hle & _ & _ & _ & _ & Hr0). rewrite lookup_insert_ne; [done|].
    intros Heq. rewrite (leases_keyed _ Hwf _ _ Hle) in Heq. rewrite Heq, Hk in Hle.
    injection Hle as ->. by rewrite Hr0 in Hret.
  - apply validate_reassignment_source_ok in Hv as (old' & w' & Hsrc).
    rewrite !lookup_insert_ne; [done| |congruence].
    intros Heq. pose proof (src_lease _ _ _ _ Hsrc) as Hs. rewrite Heq, Hk in Hs.
    injection Hs as ->. by rewrite (src_live _ _ _ _ Hsrc) in Hret.
  - apply IH. simpl. apply negb_true_iff, bool_decide_eq_false. congruence.
Qed.

(** A lease that was retired authorizes nothing any more. *)
Lemma lease_retired o k l holder now epoch fence :
  co_leases o !! k = Some l -> is_some (wl_retired_at l) = true ->
  is_ok (lease o k holder now epoch fence) = false.
Proof.
  intros Hk Hret. destruct (lease _ _ _ _ _ _) as [l'|] eqn:Hl; [|done].
  apply lease_ok in Hl as (Hl & _ & _ & _ & _ & Hr). rewrite Hk in Hl. injection Hl as ->.
  by rewrite Hr in Hret.
Qed.

Lemma step_reassign_inv o req o' :
  step o (CallReassign req) o' ->
  exists old w, reassignable o req old w /\ co_leases o !! ra_new_lease_id req = None /\
    common (ra_authority_epoch req) (ra_state_fence req) = Ok tt /\
    co_leases o' = <[ra_new_lease_id req :=
                       reassigned_lease req (ra_now req + ra_lease_duration req)]>
                     (<[ra_old_lease_id req := retire (ra_now req) old]> (co_leases o)) /\
    co_work o' = <[ra_work_item_id req :=
                     set_assignment Reassigned (ra_new_session_id req) (ra_new_lease_id req)
                       (wi_attempt w) w]> (co_work o).
Proof.
  inversion 1 as [| | | | |? ? ? ? ? ? ? ? ? ? ? ? ? ? ? Ha
    |? ? old w e o1 Hv Hrs Hold Hw Hnew _ _ _ _ Hl|? ? ? ? ? Hc|? ? ? ? ? Hc| | |]; subst;
    try (inversion Ha; naive_solver); try naive_solver.
  apply validate_reassignment_source_ok in Hv as (old' & w' & Hsrc).
  rewrite (src_lease _ _ _ _ Hsrc) in Hold. injection Hold as ->.
  rewrite (src_item _ _ _ _ Hsrc) in Hw. injection Hw as ->.
  exists old, w. split_and!; try done.
  unfold read_active_session in Hrs. by apply check_ok in Hrs as [_ [Hc _]%check_ok].
Qed.

(** A reassignment under a request not seen before takes its step. *)
Lemma reassign_fresh req o o' d :
  reassign req o = (o', Ok d) -> co_event_by_request o !! ra_request_id req = None ->
  step o (CallReassign req) o' /\
  wd_lease d = reassigned_lease req (ra_now req + ra_lease_duration req).
Proof.
  intros H Hn. pose proof (reassign_outcome sha256 evidence_json _ _ _ _ H) as Hout.
  unfold reassign, update_work, mseq, mstate, mlift, mmodify, mret_ok in H.
  rewrite Hn in H. cbn beta iota zeta in H. run_in H. injection H as <- <-. destruct_units.
  apply validate_reassignment_fields_ok in E as (-> & _). split; [|done].
  destruct Hout as [(? & ? & _)|(? & _ & [Heq|Hs])]; [done| |done].
  exfalso. apply (f_equal (fun x => co_leases x !! ra_new_lease_id req)) in Heq. simpl in Heq.
  rewrite lookup_insert_eq in Heq. apply guard_err_ok, is_some_false in E2. congruence.
Qed.

(** A reassignment moves the authority over an item in one step:
    from then on the old lease authorizes nothing, in whatever the callers do
    next as long as none of them claims under the old lease identifier again,
    while the new holder can advance the item until the new lease expires. *)
Theorem reassign_transfers_authority (cs cs' : list Call) (req : ReassignWorkRequest)
    (o1 : CoordinationOwner) (d : WorkLeaseDecision)
    (Hfresh : co_event_by_request (exec cs owner_new) !! ra_request_id req = None)
    (Hre : reassign req (exec cs owner_new) = (o1, Ok d))
    (Hsp : forallb (spares_lease (ra_old_lease_id req)) cs' = true) :
  (forall holder now epoch fence,
     is_ok (lease (exec cs' o1) (ra_old_lease_id req) holder now epoch fence) = false) /\
  (forall now, now <= ra_now req + ra_lease_duration req ->
     lease o1 (ra_new_lease_id req) (ra_new_session_id req) now (ra_authority_epoch req)
       (ra_state_fence req) = Ok (wd_lease d)) /\
  (exists w, co_work o1 !! ra_work_item_id req = Some w /\ wi_state w = Reassigned /\
     wi_owner_session_id w = Some (ra_new_session_id req) /\
     wi_lease_id w = Some (ra_new_lease_id req)).
Proof.
  destruct (reassign_fresh _ _ _ _ Hre Hfresh) as [Hs Hd].
  pose proof (step_leases _ _ _ Hs (exec_leases cs)) as Hwf1.
  apply step_reassign_inv in Hs as (old & w & Hsrc & Hnew & _ & Hl & Hw).
  assert (Hne : ra_old_lease_id req <> ra_new_lease_id req).
  { intros Heq. pose proof (src_lease _ _ _ _ Hsrc). congruence. }
  split_and!.
  - intros holder now epoch fence. eapply (lease_retired _ _ (retire (ra_now req) old)); [|done].
    assert (Hinv : leases_wf (exec cs' o1) /\
                   co_leases (exec cs' o1) !! ra_old_lease_id req = Some (retire (ra_now req) old));
      [|apply Hinv].
    apply (exec_invariant (fun _ c => spares_lease (ra_old_lease_id req) c)
             (fun o => leases_wf o /\
                co_leases o !! ra_old_lease_id req = Some (retire (ra_now req) old))).
    + intros o c o' Hc [Hwf Hk] Hs. split; [by eapply step_leases|by eapply step_retired].
    + clear -Hsp. revert o1. induction cs' as [|c cs' IH]; intros o; simpl in *; [done|].
      apply andb_true_iff in Hsp as [-> Hsp]. by apply IH.
    + split; [done|]. rewrite Hl, lookup_insert_ne, lookup_insert_eq by done. done.
  - intros now Hnow. apply lease_ok. rewrite Hl, lookup_insert_eq, Hd. done.
  - eexists. rewrite Hw, lookup_insert_eq. done.
Qed.
End Reachable.
