(* ===== verification/IntegrationLaws.v ===== *)
(** * Coordination: integration candidates, invariants

    Every candidate's history is backed by the events of the log and by the
    leases issued for it, every current integration lease by a candidate that
    was integrated under it, and the writers of one scope never overlap. *)

From Stdlib Require Import String.
From S2P Require Import Prelude RustText Contracts CausalLog Receipts.
From S2P Require Import CoordinationData Coordination IntegrationCandidate WorkLeaseIssuance.
From S2P Require Import CoordinationLaws CoordinationTheorems.

#[local] Open Scope string_scope.
#[local] Open Scope Z_scope.

(** ** Candidates *)

(** What a revision of a candidate never touches. *)
Definition same_candidate (c c' : IntegrationCandidate) : Prop :=
  ic_candidate_id c' = ic_candidate_id c /\ ic_target_scope c' = ic_target_scope c /\
  ic_state_fence c' = ic_state_fence c /\ ic_evidence_refs c' = ic_evidence_refs c /\
  ic_unresolved_conflicts c' = ic_unresolved_conflicts c /\ ic_unknowns c' = ic_unknowns c.

Definition extends (o o' : CoordinationOwner) : Prop :=
  co_events o `prefix_of` co_events o' /\
  co_event_by_request o ⊆ co_event_by_request o' /\
  co_integration_lease_by_request o ⊆ co_integration_lease_by_request o'.

Lemma event_at_extends o o' s e :
  co_events o `prefix_of` co_events o' -> event_at o s = Some e -> event_at o' s = Some e.
Proof.
  intros Hp. unfold event_at. destruct (checked_sub s 1); [|done]. intros He. by eapply prefix_lookup_Some.
Qed.

Lemma existsb_values_mono {V} (f : V -> bool) (m m' : gmap string V) :
  m ⊆ m' -> existsb f (btree_values m) = true -> existsb f (btree_values m') = true.
Proof.
  intros Hm. rewrite !existsb_exists. intros (v & Hv & Hf). exists v. split; [|done].
  apply list_elem_of_In, btree_values_elem in Hv as [k Hk].
  apply list_elem_of_In, btree_values_elem. exists k. by eapply lookup_weaken.
Qed.

Lemma matches_event_mono o o' c c' r e :
  extends o o' -> same_candidate c c' ->
  candidate_revision_matches_event o c r e = true ->
  candidate_revision_matches_event o' c' r e = true.
Proof.
  intros (_ & _ & Hl) (Hid & Hsc & _). unfold candidate_revision_matches_event.
  rewrite Hid, Hsc. destruct (cv_status r); try done.
  - rewrite !andb_true_iff. intros [[H1 H2] H3]. split; [done|].
    destruct (cv_lease_id r); [|done]. simpl in *. by eapply existsb_values_mono.
  - rewrite !andb_true_iff. intros [H1 H2]. split; [done|].
    destruct (co_integration_lease_by_request o !! _) as [l|] eqn:E; [|done].
    by rewrite (lookup_weaken _ _ _ _ E Hl).
Qed.

Lemma validate_revision_ok o c r :
  validate_revision o c r = Ok tt <->
  exists e, event_at o (cv_event_sequence r) = Some e /\ ce_sequence e = cv_event_sequence r /\
    cv_observed_at r <> 0 /\ candidate_revision_matches_event o c r e = true /\
    cv_evidence_refs r = ic_evidence_refs c /\
    cv_unresolved_conflicts r = ic_unresolved_conflicts c /\ cv_unknowns r = ic_unknowns c.
Proof.
  unfold validate_revision. rewrite rbind_ok. setoid_rewrite ok_or_ok. setoid_rewrite guard_err_ok.
  f_equiv. intros e. rewrite !orb_false_iff, !negb_false_iff, Z.eqb_eq, Z.eqb_neq.
  rewrite !bool_decide_eq_true. naive_solver.
Qed.

Lemma validate_revision_mono o o' c c' r :
  extends o o' -> same_candidate c c' ->
  validate_revision o c r = Ok tt -> validate_revision o' c' r = Ok tt.
Proof.
  rewrite !validate_revision_ok. intros Hx Hs (e & He & H1 & H2 & H3 & H4 & H5 & H6).
  exists e. split_and!; try done.
  - eapply event_at_extends; [apply Hx|done].
  - by eapply matches_event_mono.
  - destruct Hs as (_ & _ & _ & -> & _). done.
  - destruct Hs as (_ & _ & _ & _ & -> & _). done.
  - destruct Hs as (_ & _ & _ & _ & _ & ->). done.
Qed.

Record candidate_sound (o : CoordinationOwner) (k : string) (c : IntegrationCandidate) : Prop := {
  cs_key : ic_candidate_id c = k;
  cs_status : cv_status <$> last (ic_history c) = Some (ic_status c);
  cs_head : exists r rest, ic_history c = r :: rest /\ cv_status r = CandProposed;
  cs_fence : StateFence_validate (ic_state_fence c) = Ok tt;
  cs_order : out_of_order (ic_history c) = false;
  cs_past : Forall (fun r => cv_event_sequence r <= co_sequence o) (ic_history c);
  cs_revisions : Forall (fun r => validate_revision o c r = Ok tt) (ic_history c);
}.

Lemma candidate_sound_mono o o' k c :
  extends o o' -> co_sequence o <= co_sequence o' -> candidate_sound o k c ->
  candidate_sound o' k c.
Proof.
  intros Hx Hseq []. split; try done.
  - eapply Forall_impl; [exact cs_past0|]. intros r Hr. simpl in Hr. lia.
  - eapply Forall_impl; [exact cs_revisions0|]. intros r Hr. by eapply validate_revision_mono.
Qed.

Lemma out_of_order_snoc l r :
  out_of_order l = false -> Forall (fun r' => cv_event_sequence r' < cv_event_sequence r) l ->
  out_of_order (l ++ [r]) = false.
Proof.
  induction l as [|a [|b l] IH]; [done| |].
  - intros _ [Ha _]%Forall_cons. simpl in *. rewrite orb_false_r. lia.
  - intros H [Ha Hf]%Forall_cons.
    change (out_of_order ((a :: b :: l) ++ [r])%list) with
      ((cv_event_sequence b <=? cv_event_sequence a) || out_of_order ((b :: l) ++ [r])%list).
    change (out_of_order (a :: b :: l)) with
      ((cv_event_sequence b <=? cv_event_sequence a) || out_of_order (b :: l)) in H.
    apply orb_false_iff in H as [-> H]. simpl. by apply IH.
Qed.

Lemma push_revision_same status r c : same_candidate c (push_revision status r c).
Proof. done. Qed.

(** A candidate with one more revision, made at the event just appended. *)
Lemma candidate_sound_push o o' k c status r :
  extends o o' -> co_sequence o' = co_sequence o + 1 -> candidate_sound o k c ->
  cv_status r = status -> cv_event_sequence r = co_sequence o' ->
  validate_revision o' (push_revision status r c) r = Ok tt ->
  candidate_sound o' k (push_revision status r c).
Proof.
  intros Hx Hseq [] Hst Hsq Hv. split; try done; simpl.
  - by rewrite last_snoc, <- Hst.
  - destruct cs_head0 as (r0 & rest & -> & ?). exists r0, (rest ++ [r])%list. done.
  - apply out_of_order_snoc; [done|]. eapply Forall_impl; [exact cs_past0|]. intros x Hr. simpl in Hr. lia.
  - apply Forall_app. split; [|constructor; [lia|done]].
    eapply Forall_impl; [exact cs_past0|]. intros x Hr. simpl in Hr. lia.
  - apply Forall_app. split; [|by constructor].
    eapply Forall_impl; [exact cs_revisions0|]. intros x Hr.
    eapply (validate_revision_mono o _ c); [done|apply push_revision_same|done].
Qed.

(** ** The integration records *)

Record integration_wf (o : CoordinationOwner) : Prop := {
  int_candidates : forall k c, co_integration_candidates o !! k = Some c -> candidate_sound o k c;
  int_history : forall r l, co_integration_lease_by_request o !! r = Some l ->
    exists e, co_event_by_request o !! r = Some e /\ ce_kind e = EvIntegrationClaimed /\
      ce_event_id e = "integration:" ++ il_target_scope l ++ ":" ++ il_lease_id l /\
      ce_subject_id e = il_target_scope l /\ ce_actor_id e = il_holder_session_id l /\
      ce_payload_digest e = il_lease_id l /\ ce_state_fence e = il_state_fence l;
  int_current : forall scope l, co_integrations o !! scope = Some l ->
    il_target_scope l = scope /\
    exists cid r c rev, il_candidate_id l = Some cid /\
      co_integration_lease_by_request o !! r = Some l /\
      co_integration_candidates o !! cid = Some c /\ ic_target_scope c = scope /\
      rev ∈ ic_history c /\ cv_status rev = CandIntegrating;
  int_latest : forall r l, co_integration_lease_by_request o !! r = Some l ->
    exists cur, co_integrations o !! il_target_scope l = Some cur /\
      il_expires_at l <= il_expires_at cur;
}.

(** Nothing but the log changed. *)
Lemma integration_wf_frame o o' :
  integration_wf o -> extends o o' -> co_sequence o <= co_sequence o' ->
  co_integrations o' = co_integrations o ->
  co_integration_candidates o' = co_integration_candidates o ->
  co_integration_lease_by_request o' = co_integration_lease_by_request o -> integration_wf o'.
Proof.
  intros [Hc Hh Hcur Hlat] Hx Hseq Hi Hcand Hl. split; rewrite ?Hi, ?Hcand, ?Hl; try done.
  - intros k c Hk. by eapply candidate_sound_mono; [..|apply Hc].
  - intros r l Hr. destruct (Hh _ _ Hr) as (e & He & ?). exists e. split; [|done].
    eapply lookup_weaken; [done|apply Hx].
Qed.

(** A candidate is added or revised; the leases stay. *)
Lemma integration_wf_candidate o o' k c :
  integration_wf o -> extends o o' -> co_sequence o <= co_sequence o' ->
  co_integrations o' = co_integrations o ->
  co_integration_lease_by_request o' = co_integration_lease_by_request o ->
  co_integration_candidates o' = <[k := c]> (co_integration_candidates o) ->
  candidate_sound o' k c ->
  (forall old, co_integration_candidates o !! k = Some old ->
     ic_target_scope c = ic_target_scope old /\ (forall r, r ∈ ic_history old -> r ∈ ic_history c)) ->
  integration_wf o'.
Proof.
  intros [Hc Hh Hcur Hlat] Hx Hseq Hi Hl Hcand Hs Hold. split; rewrite ?Hi, ?Hcand, ?Hl; try done.
  - intros j d [[<- <-]|[_ Hj]]%lookup_insert_Some; [done|].
    by eapply candidate_sound_mono; [..|apply Hc].
  - intros r l Hr. destruct (Hh _ _ Hr) as (e & He & ?). exists e. split; [|done].
    eapply lookup_weaken; [done|apply Hx].
  - intros scope l Hk. destruct (Hcur _ _ Hk) as (Hsc & cid & r & d & rev & H1 & H2 & H3 & H4 & H5 & H6).
    split; [done|]. destruct (decide (cid = k)) as [->|].
    + destruct (Hold _ H3) as [Hts Hin]. exists k, r, c, rev.
      rewrite lookup_insert_eq. split_and!; try done; [congruence|by apply Hin].
    + exists cid, r, d, rev. rewrite lookup_insert_ne by done. done.
Qed.

(** The [u64] arguments the proofs rely on are non-negative. *)
Definition u64_args (c : Call) : bool :=
  match c with
  | CallAcquireIssued req => 0 <=? wr_now req
  | CallReassign req => (0 <=? ra_now req) && (0 <=? ra_lease_duration req)
  | CallAcquireIntegration req | CallReviewEffects _ req =>
      (0 <=? ir_now req) && (0 <=? ir_lease_duration req)
  | _ => true
  end.

Lemma event_at_append o e :
  log_wf o -> fresh_event o e -> event_at (append_event e o) (ce_sequence e) = Some e.
Proof.
  intros Hwf (Hseq & _). unfold event_at. simpl. rewrite Hseq.
  replace (checked_sub (co_sequence o + 1) 1) with (Some (co_sequence o)).
  - rewrite (log_counts _ Hwf), Nat2Z.id. by apply list_lookup_middle.
  - symmetry. apply checked_sub_some. pose proof (log_counts _ Hwf). lia.
Qed.

Section Steps.
Variable sha256 : list Z -> list Z.
Variable evidence_json : WorkLeaseRequest -> WorkLeaseDecision -> result unit (list Z).

Abbreviation step := (step sha256 evidence_json).
Abbreviation exec := (exec sha256 evidence_json).

Lemma step_extends_log o c o' :
  step o c o' -> co_events o `prefix_of` co_events o' /\
  co_event_by_request o ⊆ co_event_by_request o' /\ co_sequence o <= co_sequence o'.
Proof.
  intros Hs. apply step_log in Hs as [Heq|(e & Hn & (Hseq & _) & _ & Heq)]; injection Heq as H1 H2 H3;
    rewrite H1, H2, H3; [done|]. split_and!; [by apply prefix_app_r|by apply insert_subseteq|lia].
Qed.

(** A claim that took effect: the writer of the scope, the lease history and
    the candidate move together. *)
Lemma integration_wf_claim o req staged o1 m :
  log_wf o -> integration_wf o -> 0 <= ir_now req -> 0 <= ir_lease_duration req ->
  ir_now req <> 0 ->
  stage_integration_claim o req (ir_now req + ir_lease_duration req) = Ok staged ->
  appended o (ir_request_id req) (predecessor_of o) (sc_event staged) o1 ->
  m = set_integration (<[ir_target_scope req := sc_lease staged]> (co_integrations o))
        (<[ir_request_id req := sc_lease staged]> (co_integration_lease_by_request o))
        (<[ir_candidate_id req := sc_candidate staged]> (co_integration_candidates o)) o1 ->
  integration_wf m.
Proof.
  intros Hlog Hwf Hn0 Hd0 Hn Hst (Hreq & Hkey & Hfresh & _ & _ & ->) ->.
  apply stage_integration_claim_ok in Hst as (c & Hc & Hsc & Hfe & _ & _ & Hexp & Hev & Hle & Hca).
  pose proof Hev as Hev'. unfold own_event in Hev'.
  apply event_fresh in Hev' as (_ & _ & Heid & Hk & Hsub & Hact & _ & Hef & _ & Hpay).
  assert (Hnone : co_integration_lease_by_request o !! ir_request_id req = None).
  { destruct (co_integration_lease_by_request o !! _) as [l|] eqn:E; [|done].
    destruct (int_history _ Hwf _ _ E) as (e & ? & _). congruence. }
  set (o' := set_integration _ _ _ _).
  assert (Hx : extends o o').
  { split_and!; simpl; [by apply prefix_app_r| |by apply insert_subseteq].
    apply insert_subseteq. by rewrite Hkey. }
  destruct Hfresh as (Hseq & Hmax & Hpred).
  assert (Hsnd : candidate_sound o' (ir_candidate_id req) (sc_candidate staged)).
  { rewrite Hca. eapply (candidate_sound_push o); try done; [by apply Hwf|].
    apply validate_revision_ok. exists (sc_event staged). simpl. split_and!; try done.
    - change (event_at (append_event (sc_event staged) o) (ce_sequence (sc_event staged)) =
              Some (sc_event staged)). by apply event_at_append.
    - unfold candidate_revision_matches_event. simpl. rewrite Hk, Hkey, lookup_insert_eq, Hle. simpl.
      rewrite (cs_key _ _ _ (int_candidates _ Hwf _ _ Hc)), Hsc.
      by rewrite !bool_decide_eq_true_2. }
  split; simpl.
  - intros k d [[<- <-]|[_ Hd]]%lookup_insert_Some; [done|].
    eapply (candidate_sound_mono o); [done|simpl; lia|by apply Hwf].
  - intros r l [[<- <-]|[Hne Hl]]%lookup_insert_Some.
    + exists (sc_event staged). rewrite Hkey, lookup_insert_eq, Hle. simpl. by split_and!.
    + destruct (int_history _ Hwf _ _ Hl) as (e & He & ?). exists e. split; [|done].
      rewrite lookup_insert_ne; [done|]. congruence.
  - intros scope l [[<- <-]|[Hne Hl]]%lookup_insert_Some.
    + rewrite Hle. simpl. split; [done|].
      exists (ir_candidate_id req), (ir_request_id req), (sc_candidate staged). eexists.
      rewrite !lookup_insert_eq, Hca. simpl. split_and!; try done.
      * apply elem_of_app. right. apply list_elem_of_singleton. reflexivity.
      * done.
    + destruct (int_current _ Hwf _ _ Hl) as (Hs & cid & r & d & rev & H1 & H2 & H3 & H4 & H5 & H6).
      split; [done|]. destruct (decide (cid = ir_candidate_id req)) as [->|].
      * exfalso. rewrite Hc in H3. injection H3 as <-. congruence.
      * exists cid, r, d, rev. rewrite !lookup_insert_ne; [done|done|]. congruence.
  - intros r l [[<- <-]|[Hne Hl]]%lookup_insert_Some.
    + eexists. rewrite Hle. simpl. rewrite lookup_insert_eq. split; [done|]. simpl. lia.
    + destruct (int_latest _ Hwf _ _ Hl) as (cur & Hcur & Hlt).
      destruct (decide (ir_target_scope req = il_target_scope l)) as [He|].
      * rewrite He, lookup_insert_eq. eexists. split; [done|]. rewrite Hle. simpl.
        rewrite <- He in Hcur. specialize (Hexp _ Hcur). lia.
      * exists cur. by rewrite lookup_insert_ne.
Qed.

Lemma step_integration_wf o c o' :
  u64_args c = true -> log_wf o -> integration_wf o -> step o c o' -> integration_wf o'.
Proof.
  intros Hu Hlog Hwf Hstep. pose proof (step_extends_log _ _ _ Hstep) as (Hp & Hi & Hseq).
  assert (Hx : co_integration_lease_by_request o ⊆ co_integration_lease_by_request o' ->
               extends o o') by done.
  destruct Hstep as [req e o1 _ _ _ Hl|item rid actor at_ e o1 _ _ _ Hl
    |req s w e o1 _ _ _ _ _ _ Hl|req s l0 e o1 _ _ _ _ Hl|req e o1 _ Hl
    |c wid lid sid epoch fence now target reference rid kind l0 w e o1 _ _ _ _ Hl
    |req s old w e o1 _ _ _ _ _ _ _ _ _ Hl|c req p e o1 _ Hcm Hn Hnew _ Hab Hl
    |c req s staged o1 Hc _ _ Hn _ Hst Hl|req c e o1 Hst Hn Hl|req e o1 Hl
    |req p decision o1 Hacq];
    try (frame; apply (integration_wf_frame o); [done| |done|exact (same_integrations _ _ Hl)|
           exact (same_candidates _ _ Hl)|exact (same_lease_history _ _ Hl)]; apply Hx;
         match goal with |- _ ⊆ ?x => change x with (co_integration_lease_by_request o1) end;
         by rewrite (same_lease_history _ _ Hl)).
  - destruct Hl as (Hreq & Hkey & Hfresh & _ & _ & ->). destruct Hab as (Hk & Hsub & _).
    destruct Hfresh as (Hsq & Hmax & Hpred).
    eapply (integration_wf_candidate o); [done|by apply Hx|done|done|done|reflexivity| |congruence].
    apply common_ok in Hcm as [_ Hf].
    split; try done; simpl; [by do 2 eexists|constructor; [simpl; lia|constructor]|].
    constructor; [|constructor]. apply validate_revision_ok. exists e. simpl. split_and!; try done.
    + change (event_at (append_event e o) (ce_sequence e) = Some e). by apply event_at_append.
    + unfold candidate_revision_matches_event. simpl. by rewrite Hk, Hsub, !bool_decide_eq_true_2.
  - assert (Hu' : 0 <= ir_now req /\ 0 <= ir_lease_duration req).
    { destruct Hc as [->|[rid ->]]; simpl in Hu; bool_facts; lia. }
    by eapply (integration_wf_claim o); [done|done|apply Hu'|apply Hu'|..].
  - apply stage_stale_candidate_ok in Hst
      as (cand & l & Hc & _ & _ & Hsc & _ & Hint & Hlid & _ & _ & Hev & ->).
    apply own_event_fresh in Hev as (_ & _ & _ & Hk & Hsub & _).
    destruct Hl as (Hreq & Hkey & Hfresh & _ & _ & ->). destruct Hfresh as (Hsq & Hmax & Hpred).
    destruct (int_current _ Hwf _ _ Hint) as (Hts & cid & r & d & rev & _ & Hlr & _).
    pose proof (int_candidates _ Hwf _ _ Hc) as Hcs.
    eapply (integration_wf_candidate o); [done|by apply Hx|done|done|done|reflexivity| |].
    + eapply (candidate_sound_push o); try done.
      apply validate_revision_ok. exists e. simpl. split_and!; try done.
      * change (event_at (append_event e o) (ce_sequence e) = Some e). by apply event_at_append.
      * unfold candidate_revision_matches_event. simpl.
        rewrite Hk, Hsub, (cs_key _ _ _ Hcs), !bool_decide_eq_true_2 by done. simpl.
        apply existsb_exists. exists l. split.
        { apply list_elem_of_In, btree_values_elem. by exists r. }
        rewrite !bool_decide_eq_true_2; [done|congruence|done].
    + intros old Hold. rewrite Hc in Hold. injection Hold as <-. split; [done|].
      intros x Hin. simpl. apply elem_of_app. by left.
  - apply step_acquire_shape in Hacq as (leases & work & e & ->).
    by apply (integration_wf_frame o); [|apply Hx|..].
Qed.

Lemma owner_new_integration : integration_wf owner_new.
Proof. split; intros k c H; simpl in H; by rewrite lookup_empty in H. Qed.

(** The checks on a recovered owner, from the invariant. *)
Lemma validate_candidate_record_sound o k c :
  candidate_sound o k c -> validate_candidate_record o (k, c) = Ok tt.
Proof.
  intros [Hk Hst (r & rest & Hh & Hr) Hf Ho _ Hrev]. unfold validate_candidate_record.
  rewrite check_guard_ok, for_each_ok. split; [|done].
  rewrite Hst, Hf, Ho, Hh. simpl. rewrite Hk, Hr.
  by rewrite !bool_decide_eq_true_2.
Qed.

Lemma validate_candidate_snapshot_sound o :
  integration_wf o -> log_wf o -> validate_candidate_snapshot o = Ok tt.
Proof.
  intros Hwf Hlog. unfold validate_candidate_snapshot, validate_integration_lease_history,
    validate_current_integration_leases. rewrite !check_ok, !for_each_ok, !Forall_forall.
  split_and!.
  - intros [k c] Hk. apply btree_iter_lookup in Hk.
    by apply validate_candidate_record_sound, Hwf.
  - intros [r l] Hl. apply btree_iter_lookup in Hl.
    destruct (int_history _ Hwf _ _ Hl) as (e & He & H1 & H2 & H3 & H4 & H5 & H6). rewrite He. simpl.
    apply guard_err_ok. rewrite H1, H2, H3, H4, H5, H6.
    destruct (index_lookup _ _ _ Hlog He) as [Hkey _]. rewrite Hkey.
    by rewrite !bool_decide_eq_true_2.
  - intros [scope l] Hl. apply btree_iter_lookup in Hl.
    destruct (int_current _ Hwf _ _ Hl) as (Hs & cid & r & c & rev & H1 & H2 & H3 & H4 & H5 & H6).
    apply guard_err_ok. rewrite Hs, H1, bool_decide_eq_true_2 by done. simpl.
    apply negb_false_iff. unfold lease_backed_by. rewrite H3. simpl.
    rewrite H4, Hs, bool_decide_eq_true_2 by done. simpl.
    apply existsb_exists. exists rev. split; [by apply list_elem_of_In|].
    rewrite H6, bool_decide_eq_true_2 by done. simpl. apply existsb_exists. exists l.
    split; [apply list_elem_of_In, btree_values_elem; by exists r|].
    by rewrite H1, !bool_decide_eq_true_2.
Qed.

Definition u64_run (cs : list Call) : bool := forallb u64_args cs.

Lemma along_forallb (P : Call -> bool) cs : forall o,
  forallb P cs = true -> along sha256 evidence_json (fun _ c => P c) cs o = true.
Proof.
  induction cs as [|c cs IH]; intros o H; simpl in *; [done|].
  apply andb_true_iff in H as [-> H]. by apply IH.
Qed.

Lemma exec_integration cs :
  u64_run cs = true -> log_wf (exec cs owner_new) /\ integration_wf (exec cs owner_new).
Proof.
  intros Hu. apply (exec_invariant _ _ (fun _ c => u64_args c)
    (fun o => log_wf o /\ integration_wf o)).
  - intros o c o' Hc [Hlog Hwf] Hs. split; [|by eapply step_integration_wf].
    eapply log_wf_step; [by eapply step_log|done].
  - by apply along_forallb.
  - split; [apply owner_new_log|apply owner_new_integration].
Qed.

(** C29. The integration writers of a scope never overlap: when a claim
    on a scope is granted (not replayed) at a time, every lease ever issued on
    that scope has expired before that time, and the claim names a candidate
    of that scope. *)
Theorem integration_writers_disjoint (cs : list Call) (req : IntegrationLeaseRequest)
    (o1 : CoordinationOwner) (d : IntegrationLeaseDecision)
    (Hu : u64_run cs = true)
    (Hfresh : co_event_by_request (exec cs owner_new) !! ir_request_id req = None)
    (Hacq : acquire_integration req (exec cs owner_new) = (o1, Ok d)) :
  (forall r l, co_integration_lease_by_request (exec cs owner_new) !! r = Some l ->
     il_target_scope l = ir_target_scope req -> il_expires_at l < ir_now req) /\
  co_integrations o1 !! ir_target_scope req = Some (id_lease d) /\
  exists c, co_integration_candidates o1 !! ir_candidate_id req = Some c /\
    ic_status c = CandIntegrating /\ ic_target_scope c = ir_target_scope req.
Proof.
  destruct (exec_integration cs Hu) as [Hlog Hwf]. revert Hlog Hwf Hfresh Hacq.
  generalize (exec cs owner_new). intros o Hlog Hwf Hfresh H.
  unfold acquire_integration, mseq, mstate, mlift, mmodify, mret_ok in H.
  cbn beta iota zeta in H. run_in H; destruct_units.
  { exfalso. unfold exact_integration_replay in E2. by rewrite Hfresh in E2. }
  injection H as <- <-.
  apply stage_integration_claim_ok in E4
    as (cand & Hc & Hsc & _ & _ & _ & Hexp & _ & Hle & Hca). split_and!.
  - intros rid l Hr Hts. destruct (int_latest _ Hwf _ _ Hr) as (cur & Hcur & Hlt).
    rewrite Hts in Hcur. specialize (Hexp _ Hcur). lia.
  - simpl. by rewrite lookup_insert_eq.
  - eexists. simpl. rewrite lookup_insert_eq. split; [done|]. by rewrite Hca.
Qed.
End Steps.
