(* ===== verification/CoordinationRecovery.v ===== *)
(** * Coordination: recovery

    Disciplined callers (they claim through issuance only, register sessions
    before their deadline, send heartbeats no older than the lease, and do not
    invent a predecessor for the first event) never lead the owner to a state
    its own recovery refuses. *)

From Stdlib Require Import String.
From S2P Require Import Prelude RustText Contracts CausalLog Receipts.
From S2P Require Import CoordinationData Coordination IntegrationCandidate WorkLeaseIssuance.
From S2P Require Import CoordinationLaws CoordinationTheorems IntegrationLaws.

#[local] Open Scope string_scope.
#[local] Open Scope Z_scope.

(** ** Duties of the callers *)

Definition disciplined (o : CoordinationOwner) (c : Call) : bool :=
  u64_args c &&
  match c with
  | CallAcquireWork _ => false
  | CallRegisterSession req => rg_now req <=? rg_heartbeat_deadline req
  | CallHeartbeat req =>
      match co_leases o !! hb_lease_id req with
      | Some l => wl_issued_at l <=? hb_now req
      | None => true
      end
  | CallRecordEvent req =>
      negb (co_sequence o =? 0) || negb (is_some (ed_predecessor req))
  | _ => true
  end.

(** ** Sessions, leases and bindings *)

Definition session_sound (k : string) (s : AgentSession) : Prop :=
  as_session_id s = k /\ as_state s = Active /\ as_heartbeat_deadline s <> 0 /\
  as_last_heartbeat s <= as_heartbeat_deadline s.

Definition lease_sound (l : WorkLease) : Prop :=
  wl_issued_at l <> 0 /\ wl_expires_at l <> 0 /\ wl_issued_at l <= wl_last_heartbeat l /\
  wl_last_heartbeat l <= wl_expires_at l /\
  (forall t, wl_retired_at l = Some t -> t <> 0 /\ wl_issued_at l <= t).

(** The session and the lease an active item points at agree with it. *)
Record bound (o : CoordinationOwner) (k : string) (w : WorkItem) (sid lid : string)
    (s : AgentSession) (l : WorkLease) : Prop := {
  bound_owner : wi_owner_session_id w = Some sid;
  bound_lease : wi_lease_id w = Some lid;
  bound_session : co_sessions o !! sid = Some s;
  bound_session_epoch : as_authority_epoch s = authority_epoch (wi_state_fence w);
  bound_session_fence : as_state_fence s = wi_state_fence w;
  bound_lookup : co_leases o !! lid = Some l;
  bound_item : wl_work_item_id l = k;
  bound_holder : wl_holder_session_id l = sid;
  bound_lease_epoch : wl_authority_epoch l = authority_epoch (wi_state_fence w);
  bound_lease_fence : wl_state_fence l = wi_state_fence w;
}.

Record records_wf (o : CoordinationOwner) : Prop := {
  rec_sessions : forall k s, co_sessions o !! k = Some s -> session_sound k s;
  rec_leases : forall k l, co_leases o !! k = Some l -> lease_sound l;
  rec_items : forall k w, co_work o !! k = Some w ->
    wi_work_item_id w = k /\ StateFence_validate (wi_state_fence w) = Ok tt;
  rec_bound : forall k w, co_work o !! k = Some w -> work_active (wi_state w) = true ->
    exists sid lid s l, bound o k w sid lid s l;
}.

Lemma bound_sessions o o' k w sid lid s l :
  co_sessions o ⊆ co_sessions o' -> co_leases o' !! lid = Some l ->
  bound o k w sid lid s l -> bound o' k w sid lid s l.
Proof. intros Hs Hl []. split; try done. by eapply lookup_weaken. Qed.

Lemma read_active_session_ok o id now epoch fence s :
  read_active_session o id now epoch fence = Ok s ->
  co_sessions o !! id = Some s /\ as_session_id s = id /\ as_authority_epoch s = epoch /\
  as_state_fence s = fence /\ as_state s = Active /\ epoch = authority_epoch fence /\
  StateFence_validate fence = Ok tt /\
  as_last_heartbeat s <= now <= as_heartbeat_deadline s.
Proof.
  unfold read_active_session. rewrite !check_ok, common_ok. intros (_ & [He Hf] & H).
  apply rbind_ok in H as (x & Hx & H). rewrite !check_guard_ok, check_ok in H.
  destruct H as (Hg & Ha & Hh & [= <-]). apply ok_or_ok in Hx. bool_facts.
  apply is_same_authority_eq in H1.
  unfold validate_active_session_heartbeat in Hh. rewrite !check_guard_ok, guard_err_ok in Hh.
  destruct Hh as (_ & Hn & Hd). split_and!; try done; lia.
Qed.

Lemma guard_ok {E} (b : bool) (e : E) : b = false -> guard_err b e = Ok tt.
Proof. by intros ->. Qed.

Section Recovery.
Variable sha256 : list Z -> list Z.
Variable evidence_json : WorkLeaseRequest -> WorkLeaseDecision -> result unit (list Z).

Abbreviation step := (step sha256 evidence_json).
Abbreviation exec := (exec sha256 evidence_json).

(** Steps that touch neither sessions nor leases, and move items without
    touching their links, keep the records sound. *)
Lemma records_wf_frame o o' :
  records_wf o -> co_sessions o' = co_sessions o -> co_leases o' = co_leases o ->
  (forall k w', co_work o' !! k = Some w' ->
     (wi_work_item_id w' = k /\ StateFence_validate (wi_state_fence w') = Ok tt) /\
     (work_active (wi_state w') = true ->
      exists w, co_work o !! k = Some w /\ work_active (wi_state w) = true /\
        wi_owner_session_id w' = wi_owner_session_id w /\ wi_lease_id w' = wi_lease_id w /\
        wi_state_fence w' = wi_state_fence w)) ->
  records_wf o'.
Proof.
  intros Hwf Hs Hl Hw. split; rewrite ?Hs, ?Hl; [apply Hwf..| |].
  - intros k w Hk. by apply Hw.
  - intros k w' Hk Hact. destruct (Hw _ _ Hk) as [_ Hw']. destruct (Hw' Hact) as (w & H1 & H2 & H3 & H4 & H5).
    destruct (rec_bound _ Hwf _ _ H1 H2) as (sid & lid & s & l & []).
    exists sid, lid, s, l. split; rewrite ?Hs, ?Hl; congruence.
Qed.

Lemma records_same o o' :
  records_wf o -> co_sessions o' = co_sessions o -> co_leases o' = co_leases o ->
  co_work o' = co_work o -> records_wf o'.
Proof.
  intros Hwf Hs Hl Hw. apply (records_wf_frame o); [done..|]. rewrite Hw. intros k w Hk.
  split; [by apply Hwf|]. intros. by exists w.
Qed.

(** A lease rewritten without touching what it is bound to. *)
Lemma records_lease_update o o' lid l l' :
  records_wf o -> co_leases o !! lid = Some l -> lease_sound l' ->
  wl_work_item_id l' = wl_work_item_id l -> wl_holder_session_id l' = wl_holder_session_id l ->
  wl_authority_epoch l' = wl_authority_epoch l -> wl_state_fence l' = wl_state_fence l ->
  co_sessions o' = co_sessions o -> co_work o' = co_work o ->
  co_leases o' = <[lid := l']> (co_leases o) -> records_wf o'.
Proof.
  intros Hwf Hl Hsound H1 H2 H3 H4 Hs Hw Hls. split; rewrite ?Hs, ?Hw, ?Hls.
  - apply Hwf.
  - intros k x [[<- <-]|[_ Hx]]%lookup_insert_Some; [done|by eapply Hwf].
  - apply Hwf.
  - intros k w Hk Hact. destruct (rec_bound _ Hwf _ _ Hk Hact) as (sid & lid0 & s & l0 & []).
    destruct (decide (lid0 = lid)) as [->|Hne].
    + exists sid, lid, s, l'. split; rewrite ?Hs, ?Hls, ?lookup_insert_eq; congruence.
    + exists sid, lid0, s, l0. split; rewrite ?Hs, ?Hls, ?lookup_insert_ne by done; done.
Qed.

Lemma step_acquire_inv o req o1 :
  step o (CallAcquireWork req) o1 ->
  exists s w e, session o (wr_session_id req) (wr_authority_epoch req) (wr_state_fence req) = Ok s /\
    co_work o !! wr_work_item_id req = Some w /\ wi_state w = Ready /\
    appended o (wr_request_id req) (predecessor_of o) e (append_event e o) /\
    o1 = set_leases (<[wr_lease_id req := claimed_lease req (as_session_id s)
                                            (wr_now req + wr_lease_duration req)]> (co_leases o))
           (set_work (<[wr_work_item_id req :=
                          set_assignment Claimed (wr_session_id req) (wr_lease_id req)
                            (saturating_add_u32 (wi_attempt w) 1) w]> (co_work o))
              (append_event e o)).
Proof.
  inversion 1; subst;
    repeat match goal with
    | A : advances _ _ _ _ _ _ _ _ _ _ _ |- _ => inversion A; naive_solver
    | A : _ \/ _ |- _ => naive_solver
    end.
  match goal with A : appended _ _ _ ?e ?o1 |- _ =>
    assert (o1 = append_event e o) as -> by (by destruct A as (_ & _ & _ & _ & _ & ->)) end.
  do 3 eexists. split_and!; try done.
Qed.

(** What the checks before publication establish about an issued claim. *)
Lemma validate_candidate_records_ok o req d :
  validate_candidate_records o req d = Ok tt ->
  exists s w, co_sessions o !! wr_session_id req = Some s /\
    as_authority_epoch s = wr_authority_epoch req /\ as_state_fence s = wr_state_fence req /\
    co_work o !! wr_work_item_id req = Some w /\ wi_state_fence w = wr_state_fence req /\
    co_leases o !! wr_lease_id req = Some (wd_lease d) /\
    validate_request_binding req d = Ok tt.
Proof.
  unfold validate_candidate_records. intros H. apply rbind_ok in H as (s & Hs & H).
  apply rbind_ok in H as (w & Hw & H). apply rbind_ok in H as (l & Hl & H).
  apply check_guard_ok in H as [Hg Hb]. apply ok_or_ok in Hs, Hw, Hl. bool_facts.
  repeat match goal with H : is_same_authority _ _ = true |- _ => apply is_same_authority_eq in H end.
  exists s, w. split_and!; congruence.
Qed.

Lemma validate_request_binding_ok req d :
  validate_request_binding req d = Ok tt ->
  let l := wd_lease d in
  wl_lease_id l = wr_lease_id req /\ wl_work_item_id l = wr_work_item_id req /\
  wl_holder_session_id l = wr_session_id req /\ wl_authority_epoch l = wr_authority_epoch req /\
  wl_state_fence l = wr_state_fence req /\ wl_issued_at l = wr_now req /\
  wl_issued_at l < wl_expires_at l /\ wl_last_heartbeat l = wr_now req.
Proof.
  unfold validate_request_binding. intros H. apply rbind_ok in H as (x & _ & H).
  apply check_guard_ok in H as [Hg _]. bool_facts.
  repeat match goal with H : is_same_authority _ _ = true |- _ => apply is_same_authority_eq in H end.
  simpl. split_and!; try done; lia.
Qed.

Lemma validate_fresh_request_ok o req :
  validate_fresh_request o req = Ok tt ->
  wr_now req <> 0 /\ wr_authority_epoch req = authority_epoch (wr_state_fence req) /\
  is_blank (wr_request_id req) = false.
Proof.
  unfold validate_fresh_request. rewrite !check_ok, common_ok, nonzero_ok.
  intros (Ht & [He _] & Hn & _ & _). split_and!; [done|done|].
  simpl in Ht. apply check_ok in Ht as [Ht _]. by apply text_ok_spec in Ht as [-> _].
Qed.

Lemma claimed_binding o req d s w e leases work :
  records_wf o -> leases_wf o -> co_leases o !! wr_lease_id req = None ->
  co_work o !! wr_work_item_id req = Some w ->
  leases = <[wr_lease_id req := wd_lease d]> (co_leases o) ->
  work = <[wr_work_item_id req :=
             set_assignment Claimed (wr_session_id req) (wr_lease_id req)
               (saturating_add_u32 (wi_attempt w) 1) w]> (co_work o) ->
  co_sessions o !! wr_session_id req = Some s ->
  as_authority_epoch s = wr_authority_epoch req -> as_state_fence s = wr_state_fence req ->
  wi_state_fence w = wr_state_fence req ->
  wr_authority_epoch req = authority_epoch (wr_state_fence req) ->
  0 < wr_now req -> validate_request_binding req d = Ok tt -> wl_retired_at (wd_lease d) = None ->
  records_wf (set_leases leases (set_work work (append_event e o))).
Proof.
  intros Hwf Hlw Hfree Hw -> -> Hs Hse Hsf Hwfe Hep Hnow Hb Hret.
  apply validate_request_binding_ok in Hb as (H1 & H2 & H3 & H4 & H5 & H6 & H7 & H8).
  split; simpl.
  - apply Hwf.
  - intros k l [[<- <-]|[_ Hk]]%lookup_insert_Some; [|by eapply Hwf].
    split_and!; [lia|lia|lia|lia|by rewrite Hret].
  - intros k w' [[<- <-]|[_ Hk]]%lookup_insert_Some; [|by apply Hwf]. simpl. by apply Hwf.
  - intros k w' [[<- <-]|[Hne Hk]]%lookup_insert_Some Hact.
    + exists (wr_session_id req), (wr_lease_id req), s, (wd_lease d).
      split; simpl; rewrite ?lookup_insert_eq; congruence.
    + destruct (rec_bound _ Hwf _ _ Hk Hact) as (sid & lid & s0 & l0 & Hb0).
      exists sid, lid, s0, l0. eapply (bound_sessions o); [done| |done]. simpl.
      rewrite lookup_insert_ne; [apply Hb0|]. intros <-. pose proof (bound_lookup _ _ _ _ _ _ _ Hb0).
      congruence.
Qed.

Lemma step_records o c o' :
  disciplined o c = true -> leases_wf o -> records_wf o -> step o c o' -> records_wf o'.
Proof.
  intros Hd Hlw Hwf Hstep. unfold disciplined in Hd. apply andb_true_iff in Hd as [Hu Hd].
  destruct Hstep as [req e o1 Hc Hdl Hn Hl|item rid actor at_ e o1 Hc Hr Hn Hl
    |req s w e o1 _ Hw Hr _ _ _ Hl|req s l e o1 _ Hle Hx0 Hx Hl|req e o1 _ Hl
    |c wid lid sid epoch fence now target reference rid kind l w e o1 Ha _ Hw Hm Hl
    |req s old w e o1 Hv Hrs Hold Hw Hnew Hn0 Hd0 _ _ Hl|c req p e o1 _ _ _ _ _ _ Hl
    |c req s staged o1 _ _ _ _ _ _ Hl|req c e o1 _ _ Hl|req e o1 Hl
    |req p decision o1 Hacq _ Hfr Hfree Hval _ _ _ _ _]; frame;
    try (apply (records_same o); [done|exact (same_sessions _ _ Hl)|exact (same_leases _ _ Hl)|
           exact (same_work _ _ Hl)]).
  - assert (Hsub : co_sessions o ⊆ <[rg_session_id req := admitted_session req]> (co_sessions o))
      by (by apply insert_subseteq).
    split; change (co_leases (set_sessions ?m o1)) with (co_leases o1);
      change (co_work (set_sessions ?m o1)) with (co_work o1); simpl;
      rewrite ?(same_leases _ _ Hl), ?(same_work _ _ Hl); try apply Hwf.
    + intros k s [[<- <-]|[_ Hk]]%lookup_insert_Some; [|by apply Hwf].
      split_and!; try done. simpl. lia.
    + intros k w Hk Hact. destruct (rec_bound _ Hwf _ _ Hk Hact) as (sid & lid & s & l & Hb).
      exists sid, lid, s, l. apply (bound_sessions o); [done| |done]. simpl.
      rewrite (same_leases _ _ Hl). apply Hb.
  - apply (records_wf_frame o); [done|exact (same_sessions _ _ Hl)|exact (same_leases _ _ Hl)|].
    apply common_ok in Hc as [_ Hf]. simpl. intros k w' [[<- <-]|[_ Hk]]%lookup_insert_Some.
    + split; [done|]. by rewrite Hr.
    + split; [by apply Hwf|]. intros. by exists w'.
  - done.
  - apply lease_ok in Hle as (Hle & _ & _ & _ & _ & Hret). simpl in Hd. rewrite Hle in Hd.
    destruct (rec_leases _ Hwf _ _ Hle) as (Hi & Hxx & H1 & H2 & H3).
    eapply (records_lease_update o _ (wl_lease_id l) l); [done| | | | | | | |exact (same_work _ _ Hl)|reflexivity];
      try done; [by rewrite (leases_keyed _ Hlw _ _ Hle)| |exact (same_sessions _ _ Hl)].
    split_and!; simpl; try done; lia.
  - apply (records_wf_frame o); [done|exact (same_sessions _ _ Hl)|exact (same_leases _ _ Hl)|].
    simpl. apply andb_true_iff in Hm as [Hact _].
    intros k w' [[<- <-]|[_ Hk]]%lookup_insert_Some.
    + destruct (rec_items _ Hwf _ _ Hw). apply advances_target in Ha as [->| ->]; (split; [done|]);
        intros; by exists w.
    + split; [by apply Hwf|]. intros. by exists w'.
  - apply validate_reassignment_source_ok in Hv as (old' & w' & Hsrc).
    rewrite (src_lease _ _ _ _ Hsrc) in Hold. injection Hold as ->.
    rewrite (src_item _ _ _ _ Hsrc) in Hw. injection Hw as ->.
    apply read_active_session_ok in Hrs as (Hss & _ & Hse & Hsf & _ & Hef & _).
    simpl in Hu. bool_facts.
    pose proof (rec_leases _ Hwf _ _ (src_lease _ _ _ _ Hsrc)) as (Hi & Hxx & H1 & H2 & _).
    pose proof (src_issued _ _ _ _ Hsrc).
    split; change (co_sessions (set_leases ?m (set_work ?m' o1))) with (co_sessions o1); simpl;
      rewrite ?(same_sessions _ _ Hl).
    + apply Hwf.
    + intros k l [[<- <-]|[_ [[<- <-]|[_ Hk]]%lookup_insert_Some]]%lookup_insert_Some;
        [| |by eapply Hwf]; split_and!; simpl; try done; try lia.
      intros t [= <-]. split; [done|lia].
    + intros k x [[<- <-]|[_ Hk]]%lookup_insert_Some; [|by apply Hwf]. simpl.
      destruct (rec_items _ Hwf _ _ (src_item _ _ _ _ Hsrc)). done.
    + intros k x [[<- <-]|[Hne Hk]]%lookup_insert_Some Hact.
      * exists (ra_new_session_id req), (ra_new_lease_id req), s.
        eexists. pose proof (src_item_fence _ _ _ _ Hsrc) as Hif.
        split; simpl; rewrite ?lookup_insert_eq, ?(same_sessions _ _ Hl), ?Hif; try done; congruence.
      * destruct (rec_bound _ Hwf _ _ Hk Hact) as (sid & lid & s0 & l0 & Hb0).
        exists sid, lid, s0, l0. apply (bound_sessions o); [|simpl|done].
        { change (co_sessions o ⊆ co_sessions o1). by rewrite (same_sessions _ _ Hl). }
        pose proof (bound_lookup _ _ _ _ _ _ _ Hb0) as Hlk.
        rewrite !lookup_insert_ne; [done| |]; intros <-; [|congruence].
        rewrite (src_lease _ _ _ _ Hsrc) in Hlk. injection Hlk as <-.
        pose proof (bound_item _ _ _ _ _ _ _ Hb0). pose proof (src_lease_item _ _ _ _ Hsrc).
        congruence.
  - destruct (step_acquire_inv _ _ _ Hacq) as (s & w & e & _ & Hw & _ & _ & ->).
    apply validate_fresh_request_ok in Hfr as (Hn & Hep & _). simpl in Hu.
    apply validate_candidate_records_ok in Hval as (s' & w2 & Hs' & Hse & Hsf & Hw2 & Hwfe & Hlk & Hb).
    simpl in Hs', Hw2, Hlk.
    rewrite lookup_insert_eq in Hw2. rewrite (lookup_insert_eq (co_leases o)) in Hlk.
    injection Hw2 as <-. injection Hlk as Hlk.
    assert (Hrec : records_wf (set_leases (<[wr_lease_id req := wd_lease decision]> (co_leases o))
              (set_work (<[wr_work_item_id req :=
                 set_assignment Claimed (wr_session_id req) (wr_lease_id req)
                   (saturating_add_u32 (wi_attempt w) 1) w]> (co_work o)) (append_event e o)))).
    { eapply claimed_binding; try done; [lia|]. by rewrite <- Hlk. }
    rewrite Hlk. by eapply records_same; [exact Hrec|..].
Qed.

(** ** What a step never undoes *)

Definition same_lease (l l' : WorkLease) : Prop :=
  wl_lease_id l' = wl_lease_id l /\ wl_work_item_id l' = wl_work_item_id l /\
  wl_holder_session_id l' = wl_holder_session_id l /\
  wl_authority_epoch l' = wl_authority_epoch l /\ wl_state_fence l' = wl_state_fence l /\
  wl_issued_at l' = wl_issued_at l.

Lemma step_sessions o c o' : step o c o' -> co_sessions o ⊆ co_sessions o'.
Proof.
  induction 1 as [req e o1 _ _ Hn Hl| | | | | | | | | | |]; frame;
    try match goal with
    | H : same_records _ ?o1 |- _ => change (co_sessions o ⊆ co_sessions o1);
                                     by rewrite (same_sessions _ _ H)
    | H : co_sessions _ ⊆ _ |- _ => exact H
    end.
  by apply insert_subseteq.
Qed.

Lemma step_lease_kept o c o' k l :
  disciplined o c = true -> leases_wf o -> step o c o' -> co_leases o !! k = Some l ->
  exists l', co_leases o' !! k = Some l' /\ same_lease l l'.
Proof.
  intros Hd Hlw Hstep Hk. apply andb_true_iff in Hd as [_ Hd].
  destruct Hstep as [req e o1 _ _ _ Hl|item rid actor at_ e o1 _ _ _ Hl
    |req s w e o1 _ Hw Hr _ _ _ Hl|req s l0 e o1 _ Hle _ _ Hl|req e o1 _ Hl
    |c wid lid sid epoch fence now target reference rid kind l0 w e o1 Ha _ Hw Hm Hl
    |req s old w e o1 Hv _ Hold Hw Hnew _ _ _ _ Hl|c req p e o1 _ _ _ _ _ _ Hl
    |c req s staged o1 _ _ _ _ _ _ Hl|req c e o1 _ _ Hl|req e o1 Hl
    |req p decision o1 Hacq _ _ Hfree]; frame;
    try (exists l; split; [change (co_leases o1 !! k = Some l); by rewrite (same_leases _ _ Hl)|done]).
  - done.
  - apply lease_ok in Hle as (Hle & _). simpl. rewrite (leases_keyed _ Hlw _ _ Hle).
    destruct (decide (hb_lease_id req = k)) as [<-|].
    + eexists. rewrite lookup_insert_eq. split; [done|]. by simplify_eq.
    + exists l. by rewrite lookup_insert_ne.
  - simpl. rewrite lookup_insert_ne by congruence.
    destruct (decide (ra_old_lease_id req = k)) as [<-|].
    + eexists. rewrite lookup_insert_eq. split; [done|]. by simplify_eq.
    + exists l. by rewrite lookup_insert_ne.
  - destruct (step_acquire_inv _ _ _ Hacq) as (s & w & e & _ & _ & _ & _ & ->). simpl.
    exists l. rewrite lookup_insert_ne by congruence. done.
Qed.

(** ** Issued claims *)

Definition issued_sound (o : CoordinationOwner) (r : string) (p : WorkLeaseIssuanceProvenance)
    : Prop :=
  let req := ip_source_request p in
  let d := ip_source_decision p in
  wr_request_id req = r /\ is_blank r = false /\
  provenance_validate sha256 evidence_json p = Ok tt /\
  co_event_by_request o !! r = Some (wd_event d) /\
  (exists l, co_leases o !! wl_lease_id (wd_lease d) = Some l /\ same_lease (wd_lease d) l) /\
  (exists s, co_sessions o !! wr_session_id req = Some s /\
     as_authority_epoch s = wr_authority_epoch req /\ as_state_fence s = wr_state_fence req) /\
  (exists w, co_work o !! wr_work_item_id req = Some w /\ wi_state_fence w = wr_state_fence req).

Record issuance_wf (o : CoordinationOwner) : Prop := {
  iss_each : forall r p, co_work_lease_issuance_by_request o !! r = Some p -> issued_sound o r p;
  iss_distinct : forall r1 r2 p1 p2,
    co_work_lease_issuance_by_request o !! r1 = Some p1 ->
    co_work_lease_issuance_by_request o !! r2 = Some p2 ->
    ip_canonical_work_lease_id p1 = ip_canonical_work_lease_id p2 -> r1 = r2;
}.

Lemma same_lease_trans l1 l2 l3 : same_lease l1 l2 -> same_lease l2 l3 -> same_lease l1 l3.
Proof. unfold same_lease. intros (? & ? & ? & ? & ? & ?) (? & ? & ? & ? & ? & ?). split_and!; congruence. Qed.

Lemma issued_sound_step o c o' r p :
  disciplined o c = true -> leases_wf o -> step o c o' -> issued_sound o r p ->
  issued_sound o' r p.
Proof.
  intros Hd Hlw Hs (H1 & H2 & H3 & H4 & (l & Hl & Hsame) & (s & Hss & H5) & (w & Hw & H6)).
  split_and!; try done.
  - pose proof (step_log _ _ _ _ _ Hs) as [Heq|(e & Hn & _ & _ & Heq)]; injection Heq as _ -> _;
      [done|]. rewrite lookup_insert_ne by congruence. done.
  - destruct (step_lease_kept _ _ _ _ _ Hd Hlw Hs Hl) as (l' & ? & ?).
    exists l'. split; [done|]. by eapply same_lease_trans.
  - exists s. split; [|done]. eapply lookup_weaken; [done|by eapply step_sessions].
  - destruct (step_work_item _ _ _ _ _ _ _ Hs Hw) as (w' & Hw' & [->|[(_ & _ & Hf) _]]);
      [by exists w|]. exists w'. split; [done|]. congruence.
Qed.

(** Only an issued claim records an issuance. *)
Lemma step_issuance o c o' :
  step o c o' ->
  co_work_lease_issuance_by_request o' = co_work_lease_issuance_by_request o \/
  exists req p, c = CallAcquireIssued req /\
    co_work_lease_issuance_by_request o' =
      <[wr_request_id req := p]> (co_work_lease_issuance_by_request o) /\
    co_work_lease_issuance_by_request o !! wr_request_id req = None /\
    issued_sound o' (wr_request_id req) p /\
    Forall (fun old => ip_canonical_work_lease_id old <> ip_canonical_work_lease_id p)
      (btree_values (co_work_lease_issuance_by_request o)).
Proof.
  destruct 1; frame;
    try match goal with
    | H : same_records _ _ |- _ => left; exact (same_issuance _ _ H)
    end.
  right. exists req, p. split_and!; try done.
  match goal with V : validate_candidate_records _ _ _ = _ |- _ =>
    apply validate_candidate_records_ok in V as (s & w & Hs & Hse & Hsf & Hw & Hwf & _ & Hb) end.
  match goal with V : validate_fresh_request _ _ = _ |- _ =>
    apply validate_fresh_request_ok in V as (_ & _ & Hblank) end.
  match goal with P : issue_provenance _ _ _ _ = Ok p |- _ =>
    unfold issue_provenance in P; apply rbind_ok in P as (bs & _ & P);
    apply rbind_ok in P as (id0 & _ & [= <-]) end.
  apply validate_request_binding_ok in Hb as (Hlid & _).
  unfold issued_sound. simpl. split_and!; try done.
  - eexists. rewrite Hlid. split; [done|]. done.
  - by exists s.
  - by exists w.
Qed.

Lemma step_issuance_wf o c o' :
  disciplined o c = true -> leases_wf o -> step o c o' -> issuance_wf o -> issuance_wf o'.
Proof.
  intros Hd Hlw Hs [He Hdis].
  destruct (step_issuance _ _ _ Hs) as [Heq|(req & p & -> & Heq & Hn & Hp & Hne)];
    split; rewrite Heq.
  - intros r p Hp. by eapply issued_sound_step; [..|by apply He].
  - done.
  - intros r p0 [[<- <-]|[_ Hp0]]%lookup_insert_Some; [done|].
    by eapply issued_sound_step; [..|by apply He].
  - rewrite Forall_forall in Hne.
    intros r1 r2 p1 p2 [[<- <-]|[_ H1]]%lookup_insert_Some [[<- <-]|[_ H2]]%lookup_insert_Some Hid;
      [done| | |by eapply Hdis].
    + exfalso. apply (Hne p2); [apply btree_values_elem; by eexists|done].
    + exfalso. apply (Hne p1); [apply btree_values_elem; by eexists|done].
Qed.

(** ** The log of disciplined callers *)

Definition rooted (o : CoordinationOwner) : Prop :=
  forall e, co_events o !! 0%nat = Some e -> ce_predecessor e = None.

Lemma predecessor_of_root o : co_sequence o = 0 -> predecessor_of o = None.
Proof. intros H. unfold predecessor_of. by rewrite H. Qed.

Lemma appended_rooted o rid pred e o1 :
  log_wf o -> rooted o -> (co_sequence o = 0 -> pred = None) -> appended o rid pred e o1 ->
  forall e0, co_events o1 !! 0%nat = Some e0 -> ce_predecessor e0 = None.
Proof.
  intros Hlog Hr Hp (_ & _ & _ & _ & <- & ->) e0 He. simpl in He.
  destruct (co_events o) as [|x l] eqn:Hev; [|by apply Hr; rewrite Hev].
  simpl in He. injection He as <-. apply Hp. rewrite (log_counts _ Hlog), Hev. done.
Qed.

Lemma step_rooted o c o' :
  disciplined o c = true -> log_wf o -> rooted o -> step o c o' -> rooted o'.
Proof.
  intros Hd Hlog Hr Hstep. apply andb_true_iff in Hd as [_ Hd].
  assert (Hroot := predecessor_of_root o).
  destruct Hstep; unfold logged in *;
    try match goal with
    | H : appended _ _ (predecessor_of o) _ _ |- _ =>
        exact (appended_rooted _ _ _ _ _ Hlog Hr Hroot H)
    | H : _ /\ (_ \/ _) |- _ =>
        destruct H as (_ & [[_ ->]|H]); [exact Hr|exact (appended_rooted _ _ _ _ _ Hlog Hr Hroot H)]
    end.
  - match goal with H : appended _ _ _ _ _ |- _ =>
      refine (appended_rooted _ _ _ _ _ Hlog Hr _ H) end.
    intros Hz. rewrite Hz in Hd. simpl in Hd. by apply negb_true_iff, is_some_false in Hd.
  - match goal with A : CoordinationLaws.step _ _ _ _ _ |- _ =>
      destruct (step_acquire_inv _ _ _ A) as (s & w & e & _ & _ & _ & Happ & ->) end.
    exact (appended_rooted _ _ _ _ _ Hlog Hr Hroot Happ).
Qed.

Lemma step_reviews o c o' :
  step o c o' -> co_peer_reviews o' = co_peer_reviews o /\
                 co_peer_review_resolutions o' = co_peer_review_resolutions o.
Proof.
  induction 1; frame;
    try match goal with
    | H : same_records _ _ |- _ => exact (conj (same_reviews _ _ H) (same_resolutions _ _ H))
    end; done.
Qed.

(** ** Recovery of the log *)

Lemma log_keys_NoDup o : log_wf o -> NoDup (ce_idempotency_key <$> co_events o).
Proof.
  intros Hwf. apply NoDup_alt. intros i j k Hi Hj.
  apply list_lookup_fmap_Some in Hi as (e1 & -> & He1). apply list_lookup_fmap_Some in Hj as (e2 & Hk & He2).
  destruct (log_events _ Hwf _ _ He1) as (Hs1 & _ & Hi1 & _).
  destruct (log_events _ Hwf _ _ He2) as (Hs2 & _ & Hi2 & _).
  rewrite Hk in Hi1. assert (e1 = e2) as -> by congruence. lia.
Qed.

Lemma log_index_size o :
  log_wf o -> size (co_event_by_request o) = length (co_events o).
Proof.
  intros Hwf. rewrite <- size_dom.
  assert (Hdom : dom (co_event_by_request o) = list_to_set (ce_idempotency_key <$> co_events o)).
  { apply set_eq. intros k. rewrite elem_of_dom, elem_of_list_to_set, list_elem_of_fmap. split.
    - intros [e He]. destruct (log_index _ Hwf _ _ He) as [<- Hin]. by exists e.
    - intros (e & -> & Hin). apply list_elem_of_lookup_1 in Hin as [i Hi].
      destruct (log_events _ Hwf _ _ Hi) as (_ & _ & ? & _). by eexists. }
  rewrite Hdom, size_list_to_set by (by apply log_keys_NoDup). by rewrite length_fmap.
Qed.

Lemma unlinked_event_false index l : forall seen,
  NoDup (ce_idempotency_key <$> l) -> (forall e, e ∈ l -> ce_idempotency_key e ∉ seen) ->
  Forall (fun e => ce_predecessor e = (if ce_sequence e =? 1 then None
                                       else Some (Z.max 0 (ce_sequence e - 1))) /\
                   index !! ce_idempotency_key e = Some e) l ->
  unlinked_event index seen l = false.
Proof.
  induction l as [|e l IH]; intros seen Hnd Hs Hf; simpl; [done|].
  apply NoDup_cons in Hnd as [Hni Hnd]. apply Forall_cons in Hf as [[Hp Hi] Hf].
  rewrite !orb_false_iff, !negb_false_iff, !bool_decide_eq_true, bool_decide_eq_false.
  split_and!; [done|by apply Hs; left|done|]. apply IH; [done| |done]. intros x Hx Hin.
  apply elem_of_union in Hin as [Heq%elem_of_singleton|Hin]; [|by apply (Hs x); [right|]].
  apply Hni. apply list_elem_of_fmap. by exists x.
Qed.

Lemma misnumbered_false o : log_wf o ->
  existsb misnumbered_event (zip (seq 0 (length (co_events o))) (co_events o)) = false.
Proof.
  intros Hwf. apply existsb_false_iff, Forall_lookup. intros i [j e].
  rewrite lookup_zip_with_Some. intros (x & y & [= -> ->] & Hj & He).
  apply lookup_seq in Hj as [-> _]. destruct (log_events _ Hwf _ _ He) as (Hs & [Hv Ha] & _).
  unfold misnumbered_event. rewrite Hv, Ha, is_same_authority_refl, Hs. simpl.
  rewrite !orb_false_r, negb_false_iff. lia.
Qed.

Lemma linked_events o :
  log_wf o -> rooted o ->
  Forall (fun e => ce_predecessor e = (if ce_sequence e =? 1 then None
                                       else Some (Z.max 0 (ce_sequence e - 1))) /\
                   co_event_by_request o !! ce_idempotency_key e = Some e) (co_events o).
Proof.
  intros Hwf Hr. apply Forall_lookup. intros i e He.
  destruct (log_events _ Hwf _ _ He) as (Hs & _ & Hi & Hp). split; [|done].
  rewrite Hs. destruct i as [|i]; [by apply Hr|].
  rewrite Hp by done. destruct (Z.eqb_spec (Z.of_nat (S i) + 1) 1); [lia|]. f_equal. lia.
Qed.

Lemma validate_active_bindings_sound o :
  leases_wf o -> records_wf o -> validate_active_bindings o = Ok tt.
Proof.
  intros Hlw Hwf. unfold validate_active_bindings. rewrite for_each_ok, Forall_forall.
  intros [k w] Hk. apply btree_iter_lookup in Hk. unfold validate_active_binding.
  destruct (work_active (wi_state w)) eqn:Hact; [|done]. simpl.
  destruct (rec_bound _ Hwf _ _ Hk Hact) as (sid & lid & s & l & []).
  destruct (rec_items _ Hwf _ _ Hk) as [Hid Hf].
  destruct (rec_sessions _ Hwf _ _ bound_session0) as (Hsid & Hsa & _).
  destruct (rec_leases _ Hwf _ _ bound_lookup0) as (H1 & H2 & H3 & H4 & _).
  rewrite bound_owner0, bound_lease0. simpl. rewrite bound_session0. simpl.
  rewrite bound_lookup0. simpl. apply guard_err_ok. unfold bad_interval.
  rewrite Hid, Hf, Hsa, Hsid, bound_session_epoch0, bound_session_fence0, bound_item0, bound_holder0,
    bound_lease_epoch0, bound_lease_fence0, (leases_keyed _ Hlw _ _ bound_lookup0),
    is_same_authority_refl, !bool_decide_eq_true_2 by done. simpl.
  rewrite !orb_false_iff. split_and!; lia.
Qed.

Lemma validate_issuance_snapshot_sound o :
  log_wf o -> leases_wf o -> records_wf o -> issuance_wf o ->
  validate_issuance_snapshot sha256 evidence_json o = Ok tt.
Proof.
  intros Hlog Hlw Hrec [He Hd]. unfold validate_issuance_snapshot.
  assert (H : forall l seen, NoDup l.*1 ->
    Forall (fun kp => co_work_lease_issuance_by_request o !! kp.1 = Some kp.2) l ->
    Forall (fun kp => Forall (fun id => id <> ip_canonical_work_lease_id kp.2) seen) l ->
    exists seen', fold_res (validate_issuance sha256 evidence_json o) seen l = Ok seen').
  2: { destruct (H (btree_iter (co_work_lease_issuance_by_request o)) []) as [seen' ->];
         [apply btree_iter_NoDup| | |done].
       - apply Forall_forall. intros [k p] Hk. by apply btree_iter_lookup.
       - apply Forall_forall. intros. constructor. }
  induction l as [|[r p] l IH]; intros seen Hnd Hl Hseen; [by exists seen|].
  apply NoDup_cons in Hnd as [Hni Hnd]. apply Forall_cons in Hl as [Hp Hl].
  apply Forall_cons in Hseen as [Hs Hseen]. simpl in Hp, Hs.
  assert (Hstep : validate_issuance sha256 evidence_json o seen (r, p) =
                  Ok (ip_canonical_work_lease_id p :: seen)).
  { destruct (He _ _ Hp) as (H1 & H2 & H3 & H4 & (l0 & H5 & Hsame) & (s & H6 & H7 & H8) & (w & H9 & H10)).
    destruct (rec_leases _ Hrec _ _ H5) as (L1 & L2 & L3 & L4 & _).
    destruct (rec_sessions _ Hrec _ _ H6) as (S1 & _). destruct (rec_items _ Hrec _ _ H9) as (W1 & _).
    destruct Hsame as (A1 & A2 & A3 & A4 & A5 & A6).
    assert (Hin : wd_event (ip_source_decision p) ∈ co_events o) by (by apply (log_index _ Hlog _ _ H4)).
    unfold validate_issuance. rewrite H1, H2, H3. simpl. rewrite bool_decide_eq_true_2 by done. simpl.
    rewrite bool_decide_eq_false_2 by (intros Hx; rewrite Forall_forall in Hs; by apply (Hs _ Hx)). simpl.
    rewrite H4, !bool_decide_eq_true_2 by done. simpl. rewrite H5. simpl.
    rewrite A1, A2, A3, A4, A5, is_same_authority_refl, !bool_decide_eq_true_2 by done. simpl.
    rewrite guard_ok by (rewrite !orb_false_iff; split_and!; lia). simpl.
    rewrite H6. simpl. rewrite S1, H7, H8, is_same_authority_refl, !bool_decide_eq_true_2 by done. simpl.
    rewrite H9. simpl. rewrite W1, H10, !bool_decide_eq_true_2 by done. done. }
  cbn [fold_res]. rewrite Hstep. cbn [rbind]. apply IH; [done|done|].
  apply Forall_forall. intros [r' p'] Hin. rewrite Forall_forall in Hl, Hseen.
  constructor; [|by apply Hseen]. simpl. intros Heq. apply Hni.
  assert (r = r') as -> by (eapply Hd; [exact Hp|exact (Hl _ Hin)|done]).
  apply list_elem_of_fmap. by exists (r', p').
Qed.

(** ** The owner of disciplined callers *)

Record owner_wf (o : CoordinationOwner) : Prop := {
  wf_log : log_wf o;
  wf_rooted : rooted o;
  wf_leases : leases_wf o;
  wf_records : records_wf o;
  wf_issuance : issuance_wf o;
  wf_integration : integration_wf o;
  wf_reviews : co_peer_reviews o = ∅ /\ co_peer_review_resolutions o = ∅;
}.

Lemma owner_new_wf : owner_wf owner_new.
Proof.
  split; [apply owner_new_log|done|apply owner_new_leases| | |apply owner_new_integration|done];
    split; intros; simpl in *; by rewrite lookup_empty in *.
Qed.

Lemma step_owner_wf o c o' :
  disciplined o c = true -> owner_wf o -> step o c o' -> owner_wf o'.
Proof.
  intros Hd [] Hs. destruct (step_reviews _ _ _ Hs) as [Hr1 Hr2]. split.
  - eapply log_wf_step; [by eapply step_log|done].
  - by eapply step_rooted.
  - by eapply step_leases.
  - by eapply step_records.
  - by eapply step_issuance_wf.
  - eapply step_integration_wf; try done. by apply andb_true_iff in Hd as [? _].
  - by rewrite Hr1, Hr2.
Qed.

Lemma validate_active_session_sound k s :
  session_sound k s -> validate_active_session_heartbeat s None = Ok tt.
Proof.
  intros (_ & _ & Hd & Hle). unfold validate_active_session_heartbeat. rewrite guard_ok; [done|].
  rewrite orb_false_iff. split; lia.
Qed.

Lemma from_snapshot_sound o : owner_wf o -> from_snapshot sha256 evidence_json o = Ok o.
Proof.
  intros [Hlog Hr Hlw Hrec Hiss Hint [Hv1 Hv2]]. unfold from_snapshot.
  rewrite misnumbered_false by done. cbn [guard_err rbind].
  rewrite (log_counts _ Hlog) at 1. rewrite Z.eqb_refl. cbn [negb guard_err rbind].
  rewrite guard_ok.
  2: { apply existsb_false_iff, Forall_forall. intros l [k Hk]%btree_values_elem.
       destruct (rec_leases _ Hrec _ _ Hk) as (_ & _ & _ & _ & Hret).
       destruct (wl_retired_at l) as [t|]; [|done]. destruct (Hret t) as [??]; [done|]. simpl.
       rewrite orb_false_iff. split; lia. }
  cbn [rbind].
  match goal with |- rbind (for_each ?f ?l) _ = _ => assert (for_each f l = Ok tt) as -> end.
  { apply for_each_ok, Forall_forall. intros s [k Hk]%btree_values_elem. case_bool_decide; [|done].
    by eapply validate_active_session_sound, Hrec. }
  cbn [rbind]. rewrite guard_ok.
  2: { rewrite !orb_false_iff. split_and!.
       - apply unlinked_event_false; [by apply log_keys_NoDup|set_solver|by apply linked_events].
       - rewrite negb_false_iff, (log_index_size _ Hlog). unfold usize_of_len. lia.
       - apply existsb_false_iff, Forall_forall. intros [k e] Hk%btree_iter_lookup.
         destruct (log_index _ Hlog _ _ Hk) as [<- Hin]. simpl.
         by rewrite !bool_decide_eq_true_2. }
  cbn [rbind]. rewrite Hv1, Hv2. cbn -[validate_active_bindings validate_issuance_snapshot
    validate_candidate_snapshot].
  rewrite validate_active_bindings_sound, validate_issuance_snapshot_sound,
    validate_candidate_snapshot_sound by done. done.
Qed.

(** C30. Whatever disciplined callers do, the image of the owner is
    accepted by its own recovery and rebuilds the same owner. Disciplined are
    callers that pass u64 values, claim work through issuance only, register a
    session with a deadline that is not past, send no heartbeat dated before
    the issue of its lease, and name no predecessor for the event they record
    first on an empty log. *)
Theorem disciplined_owner_recovers (cs : list Call)
    (Hd : along sha256 evidence_json disciplined cs owner_new = true) :
  from_snapshot sha256 evidence_json (exec cs owner_new) = Ok (exec cs owner_new).
Proof.
  apply from_snapshot_sound.
  apply (exec_invariant _ _ disciplined owner_wf); [|done|apply owner_new_wf].
  intros. by eapply step_owner_wf.
Qed.
End Recovery.
