(* ===== verification/CoordinationFindings.v ===== *)
(** * Coordination: reads, retries, and what undisciplined callers can do

    The selection of active work is exact; retries of claims and
    reassignments are answered from memory. The examples at the end show the
    behaviours that the code's comments exclude, each on a concrete run. *)

From Stdlib Require Import String.
From S2P Require Import Prelude RustText Contracts CausalLog Receipts.
From S2P Require Import CoordinationData Coordination IntegrationCandidate WorkLeaseIssuance.
From S2P Require Import CoordinationLaws CoordinationTheorems IntegrationLaws CoordinationRecovery.

#[local] Open Scope string_scope.
#[local] Open Scope Z_scope.

(** ** The log, as one statement *)

Section Log.
Variable sha256 : list Z -> list Z.
Variable evidence_json : WorkLeaseRequest -> WorkLeaseDecision -> result unit (list Z).
Abbreviation exec := (exec sha256 evidence_json).

(** Whatever the callers do, the log is a causal chain: the sequence
    counter is its length, the event at position i carries sequence i + 1 and
    names its predecessor, every event carries a valid fence of its own epoch,
    the request index holds exactly the events of the log under their request
    identities, no identity occurs twice, and further calls only extend the
    log. *)
Theorem coordination_log_causal (cs cs' : list Call) :
  let o := exec cs owner_new in
  co_sequence o = Z.of_nat (length (co_events o)) /\
  (forall i e, co_events o !! i = Some e ->
     ce_sequence e = Z.of_nat i + 1 /\ event_sound e /\
     (i <> 0%nat -> ce_predecessor e = Some (Z.of_nat i))) /\
  (forall k e, co_event_by_request o !! k = Some e <->
     e ∈ co_events o /\ ce_idempotency_key e = k) /\
  NoDup (ce_idempotency_key <$> co_events o) /\
  co_events o `prefix_of` co_events (exec cs' o).
Proof.
  intros o. pose proof (exec_log sha256 evidence_json cs _ owner_new_log) as Hwf.
  split_and!.
  - apply Hwf.
  - intros i e He. destruct (log_events _ Hwf _ _ He) as (? & ? & _ & ?). done.
  - intros k e. split.
    + intros Hk. destruct (log_index _ Hwf _ _ Hk). done.
    + intros [[i Hi]%list_elem_of_lookup_1 <-]. by destruct (log_events _ Hwf _ _ Hi) as (_ & _ & ? & _).
  - by apply log_keys_NoDup.
  - apply exec_grows.
Qed.

(** A refused call changes nothing, whichever operation it is and
    however far it got. *)
Theorem coordination_refused_unchanged (c : Call) (o o' : CoordinationOwner)
    (e : WorkLeaseIssuanceFailure) (H : call sha256 evidence_json c o = (o', Err e)) :
  o' = o.
Proof. apply call_outcome in H as [(? & _ & ->)|(? & ? & _)]; done. Qed.
End Log.

(** The coordination owner meets the contract of the causal log. *)
#[export] Instance coordination_causal_owner :
    CausalOwner CoordinationOwner CoordinationEvent CoordinationEvent := {
  owner_log := co_events;
  event_sequence := ce_sequence;
  owner_next := fun o => wrap_u64 (co_sequence o + 1);
  owner_requests := co_event_by_request;
  owner_step := fun o o' => 0 <= co_sequence o /\
    exists sha256 evidence_json c r, call sha256 evidence_json c o = (o', r);
}.

#[export] Instance coordination_causal_laws :
  CausalOwnerLaws CoordinationOwner CoordinationEvent CoordinationEvent.
Proof.
  split; intros o o' (Hz & sha & ej & c & r & Hc);
    apply call_outcome in Hc as [(? & _ & ->)|(? & _ & [->|Hs])]; try (by left); try done;
    apply step_log in Hs as [Heq|(e & Hn & (Hseq & Hmax & _) & _ & Heq)];
    injection Heq as H1 H2 H3; simpl; rewrite ?H1, ?H2, ?H3; try (by left); try done.
  - right. exists e. split_and!; [done| |].
    + rewrite wrap_u64_small; [done|]. split; lia.
    + rewrite Hseq. by rewrite wrap_u64_succ.
  - by apply insert_subseteq.
Qed.

(** ** The selection of active work *)

(** A work item, its owner session and its lease, all live at [now]. *)
Record live_binding (o : CoordinationOwner) (now : Z) (epoch : EpochId) (fence : StateFence)
    (p : ActiveWorkLeaseProjection) : Prop := {
  lb_session : co_sessions o !! as_session_id (ap_session p) = Some (ap_session p);
  lb_active : as_state (ap_session p) = Active;
  lb_alive : as_last_heartbeat (ap_session p) <= now <= as_heartbeat_deadline (ap_session p);
  lb_item : co_work o !! wi_work_item_id (ap_work_item p) = Some (ap_work_item p);
  lb_work_active : work_active (wi_state (ap_work_item p)) = true;
  lb_owner : wi_owner_session_id (ap_work_item p) = Some (as_session_id (ap_session p));
  lb_linked : wi_lease_id (ap_work_item p) = Some (wl_lease_id (ap_lease p));
  lb_lease : co_leases o !! wl_lease_id (ap_lease p) = Some (ap_lease p);
  lb_lease_item : wl_work_item_id (ap_lease p) = wi_work_item_id (ap_work_item p);
  lb_holder : wl_holder_session_id (ap_lease p) = as_session_id (ap_session p);
  lb_not_retired : wl_retired_at (ap_lease p) = None;
  lb_term : wl_issued_at (ap_lease p) <= now <= wl_expires_at (ap_lease p);
  lb_fences : as_state_fence (ap_session p) = fence /\ wi_state_fence (ap_work_item p) = fence /\
              wl_state_fence (ap_lease p) = fence;
  lb_epochs : as_authority_epoch (ap_session p) = epoch /\ wl_authority_epoch (ap_lease p) = epoch;
}.

Lemma read_active_work_lease_ok o wid sid now epoch fence p :
  read_active_work_lease o wid sid now epoch fence = Ok p ->
  live_binding o now epoch fence p /\ wi_work_item_id (ap_work_item p) = wid /\
  as_session_id (ap_session p) = sid.
Proof.
  unfold read_active_work_lease. rewrite !check_ok. intros (_ & _ & _ & H).
  apply rbind_ok in H as (s & Hs & H). apply rbind_ok in H as (w & Hw & H).
  rewrite !check_guard_ok in H. destruct H as (Hf & Ha & Ho & H).
  apply rbind_ok in H as (lid & Hlid & H). apply rbind_ok in H as (l & Hl & H).
  rewrite !check_guard_ok in H. destruct H as (H1 & H2 & H3 & H4 & H5 & H6 & H7 & [= <-]).
  apply read_active_session_ok in Hs as (Hss & Hsid & Hse & Hsf & Hsa & _ & _ & Hsl).
  apply ok_or_ok in Hw, Hlid, Hl. apply is_some_false in H3. bool_facts.
  repeat match goal with H : is_same_authority _ _ = true |- _ => apply is_same_authority_eq in H end.
  subst. split; [|done]. split; simpl; try done; try congruence. lia.
Qed.

(** The active items in map order. *)
Definition active_items (o : CoordinationOwner) : list WorkItem :=
  List.filter (fun w => work_active (wi_state w)) (btree_values (co_work o)).

Lemma select_items_ok o now epoch fence l : forall linked ps linked' ps',
  (forall k w, (k, w) ∈ l -> co_work o !! k = Some w) ->
  fold_res (select_item o now epoch fence) (linked, ps) l = Ok (linked', ps') ->
  Z.of_nat (length ps + length (List.filter (fun w => work_active (wi_state w)) l.*2))
    <= ACTIVE_WORK_LEASE_SELECTION_CEILING ->
  exists qs, ps' = (ps ++ qs)%list /\
    map ap_work_item qs = List.filter (fun w => work_active (wi_state w)) l.*2 /\
    Forall (live_binding o now epoch fence) qs.
Proof.
  induction l as [|[k w] l IH]; intros linked ps linked' ps' Hin H Hlen.
  - injection H as _ <-. exists []. by rewrite app_nil_r.
  - cbn [fold_res] in H. apply rbind_ok in H as ([linked1 ps1] & Hstep & H).
    unfold select_item in Hstep. cbn [fmap list_fmap snd List.filter] in Hlen |- *.
    destruct (work_active (wi_state w)) eqn:Hact; cbn [negb] in Hstep.
    + apply rbind_ok in Hstep as (sid & Hsid & Hstep). apply check_guard_ok in Hstep as [_ Hstep].
      apply rbind_ok in Hstep as (p & Hp & Hstep).
      destruct (read_active_work_lease_ok _ _ _ _ _ _ _ Hp) as (Hlive & Hwid & _).
      assert (Hw : ap_work_item p = w).
      { pose proof (Hin k w ltac:(left)) as Hk. pose proof (lb_item _ _ _ _ _ Hlive) as Hi.
        rewrite Hwid in Hi. congruence. }
      simpl in Hlen. unfold usize_of_len in Hstep.
      destruct (Z.ltb_spec (Z.of_nat (length ps)) ACTIVE_WORK_LEASE_SELECTION_CEILING); [|lia].
      injection Hstep as <- <-.
      apply IH in H as (qs & -> & Hm & Hf).
      * exists (p :: qs). rewrite <- app_assoc. simpl. rewrite Hm, Hw. split_and!; [done|done|].
        by constructor.
      * intros; apply Hin; by right.
      * rewrite length_app. simpl. lia.
    + injection Hstep as <- <-. eapply IH; [|exact H|done]. intros; apply Hin; by right.
Qed.

Definition selected (sel : ActiveWorkLeaseSelection) : list ActiveWorkLeaseProjection :=
  match sel with
  | SelNone => []
  | SelUnique p => [p]
  | SelAmbiguous ps => ps
  end.

(** The selection of active work is complete: it lists exactly the
    active work items, in map order, each with a session and a lease that are
    live at the time of the read and agree with it; it reports the unique
    binding only when there is exactly one active item, and never more than
    the ceiling. *)
Theorem active_selection_exact (o : CoordinationOwner) (now : Z) (epoch : EpochId)
    (fence : StateFence) (sel : ActiveWorkLeaseSelection)
    (H : read_active_work_lease_selection o now epoch fence = Ok sel) :
  map ap_work_item (selected sel) = active_items o /\
  Forall (live_binding o now epoch fence) (selected sel) /\
  Z.of_nat (length (selected sel)) <= ACTIVE_WORK_LEASE_SELECTION_CEILING /\
  (forall p, read_unique_active_work_lease o now epoch fence = Ok p <-> sel = SelUnique p) /\
  (forall p, sel = SelUnique p <-> selected sel = [p]).
Proof.
  pose proof H as Hread. unfold read_active_work_lease_selection in H.
  rewrite !check_ok in H. destruct H as (_ & _ & H).
  apply rbind_ok in H as ([linked ps] & Hfold & H). rewrite !check_ok in H.
  destruct H as (_ & Hceil & [= <-]). apply guard_err_ok in Hceil.
  assert (Hc : Z.of_nat (length (active_items o)) <= ACTIVE_WORK_LEASE_SELECTION_CEILING).
  { unfold active_count, usize_of_len in Hceil. unfold active_items. lia. }
  apply select_items_ok in Hfold as (qs & -> & Hm & Hf); cycle 1.
  { intros k w. apply btree_iter_lookup. }
  { exact Hc. }
  change ((btree_iter (co_work o)).*2) with (btree_values (co_work o)) in Hm.
  change (List.filter _ _) with (active_items o) in Hm. simpl in *.
  assert (Hsel : selected match qs with [] => SelNone | [p] => SelUnique p | _ => SelAmbiguous qs end = qs)
    by (by destruct qs as [|? [|? ?]]).
  rewrite Hsel, Hm. split_and!; try done.
  - by rewrite <- Hm, length_map in Hc.
  - intros p. unfold read_unique_active_work_lease. rewrite Hread. simpl.
    destruct qs as [|? [|? ?]]; naive_solver.
  - intros p. destruct qs as [|? [|? ?]]; naive_solver.
Qed.

(** ** Sample runs *)

Definition sample_epoch : EpochId :=
  {| lineage_id := {| lineage_text := "550e8400-e29b-41d4-a716-446655440000" |}; sequence := 1 |}.

Definition sample_fence : StateFence := StateFence_new sample_epoch 1.

(** A stand-in hash of thirty-two bytes and the request identity as evidence. *)
Definition padded_hash (bs : list Z) : list Z := take 32 (bs ++ repeat 0 32)%list.

Definition request_bytes (req : WorkLeaseRequest) (_ : WorkLeaseDecision) : result unit (list Z) :=
  Ok (bytes (wr_request_id req)).

Definition sample_session (id : string) : Call :=
  CallRegisterSession {| rg_request_id := "register-" ++ id; rg_session_id := id;
    rg_principal_id := "principal"; rg_route_ref := "route"; rg_authority_epoch := sample_epoch;
    rg_state_fence := sample_fence; rg_now := 10; rg_heartbeat_deadline := 1000 |}.

Definition sample_work (id : string) : Call :=
  CallRegisterWork {| wi_work_item_id := id; wi_task_id := "task"; wi_state := Ready;
    wi_state_fence := sample_fence; wi_owner_session_id := None; wi_lease_id := None;
    wi_attempt := 0; wi_checkpoint_ref := None; wi_result_ref := None |}
    ("work-" ++ id) "principal" ClockReading_default.

Definition sample_claim (request lease work session : string) : WorkLeaseRequest :=
  {| wr_request_id := request; wr_lease_id := lease; wr_work_item_id := work;
     wr_session_id := session; wr_authority_epoch := sample_epoch; wr_state_fence := sample_fence;
     wr_now := 20; wr_lease_duration := 40 |}.

Definition sample_reassign : ReassignWorkRequest :=
  {| ra_request_id := "move-1"; ra_work_item_id := "item-1"; ra_old_lease_id := "lease-1";
     ra_new_lease_id := "lease-3"; ra_new_session_id := "session-2";
     ra_authority_epoch := sample_epoch; ra_state_fence := sample_fence; ra_now := 30;
     ra_lease_duration := 50 |}.

Definition sample_result (request lease session work : string) : AgentResultDraft :=
  {| rd_request_id := request; rd_result_id := "result"; rd_lease_id := lease;
     rd_session_id := session; rd_work_item_id := work; rd_authority_epoch := sample_epoch;
     rd_state_fence := sample_fence; rd_result_ref := "blob"; rd_ceiling := CandidateArtifact;
     rd_now := 35 |}.

Definition sample_beat (request : string) (extend_to : Z) : AgentHeartbeat :=
  {| hb_request_id := request; hb_session_id := "session-1"; hb_lease_id := "lease-1";
     hb_authority_epoch := sample_epoch; hb_state_fence := sample_fence; hb_now := 25;
     hb_extend_to := extend_to |}.

Definition sample_candidate : IntegrationCandidateDraft :=
  {| cd_request_id := "candidate-1"; cd_candidate_id := "cand"; cd_task_id := "task";
     cd_source_work_item_id := "item-1"; cd_producer_attempt := "1"; cd_producer_lineage := [];
     cd_session_id := "session-1"; cd_authority_epoch := sample_epoch;
     cd_state_fence := sample_fence; cd_base_commit := "base"; cd_worktree_or_artifact_refs := [];
     cd_diff_ref := "diff"; cd_changed_paths := ∅; cd_declared_read_effects := ∅;
     cd_declared_write_effects := ∅; cd_evidence_refs := []; cd_verification_refs := [];
     cd_unresolved_conflicts := []; cd_unknowns := []; cd_rollback_or_compensation := None;
     cd_target_scope := "main"; cd_now := 26 |}.

Definition sample_writer (request lease : string) (now : Z) : IntegrationLeaseRequest :=
  {| ir_request_id := request; ir_lease_id := lease; ir_candidate_id := "cand";
     ir_target_scope := "main"; ir_session_id := "session-1"; ir_authority_epoch := sample_epoch;
     ir_state_fence := sample_fence; ir_now := now; ir_lease_duration := 10 |}.

(** Two sessions, two items, one issued claim each. *)
Definition two_claims : list Call :=
  [sample_session "session-1"; sample_session "session-2"; sample_work "item-1";
   sample_work "item-2";
   CallAcquireIssued (sample_claim "claim-1" "lease-1" "item-1" "session-1");
   CallAcquireIssued (sample_claim "claim-2" "lease-2" "item-2" "session-2")].

Abbreviation run := (exec padded_hash request_bytes).

(** Reading a value off a run by computation. *)
Lemma found {A} (x : option A) (P : A -> bool) :
  from_option P false x = true -> exists a, x = Some a /\ P a = true.
Proof. destruct x as [a|]; simpl; [by exists a|done]. Qed.

Lemma accepted {E A} (c : M CoordinationOwner E A) o :
  is_ok (c o).2 = true -> exists o' a, c o = (o', Ok a).
Proof. destruct (c o) as [o' [a|e]]; simpl; [by exists o', a|done]. Qed.

Definition submit_one : list Call :=
  [CallSubmitResult (sample_result "submit-1" "lease-1" "session-1" "item-1")].

Lemma work_item_lifecycle_witness :
  exists w w', co_work (run two_claims owner_new) !! "item-1" = Some w /\
    co_work (run submit_one (run two_claims owner_new)) !! "item-1" = Some w' /\ same_item w w' /\
    rtc work_moves (wi_state w) (wi_state w').
Proof.
  destruct (found (co_work (run two_claims owner_new) !! "item-1") (fun _ => true))
    as (w & E & _); [vm_compute; reflexivity|].
  destruct (work_item_lifecycle padded_hash request_bytes submit_one
    (run two_claims owner_new) "item-1" w E) as (w' & H1 & H2 & H3 & _).
  exists w, w'. exact (conj E (conj H1 (conj H2 H3))).
Defined.

Definition moved : list Call := (two_claims ++ [CallReassign sample_reassign])%list.

Lemma single_live_lease_witness :
  exists l, co_leases (run moved owner_new) !! "lease-3" = Some l /\
    wl_work_item_id l = "item-1" /\ "lease-3" = "lease-3" /\ l = l.
Proof.
  destruct (found (co_leases (run moved owner_new) !! "lease-3")
    (fun l => negb (is_some (wl_retired_at l)) && String.eqb (wl_work_item_id l) "item-1"))
    as (l & E & [Hr Hi]%andb_true_iff); [vm_compute; reflexivity|].
  exists l. refine (conj E (conj _ _)).
  - by apply String.eqb_eq.
  - apply (single_live_lease padded_hash request_bytes moved "lease-3" "lease-3" l l E E).
    + by destruct (wl_retired_at l).
    + by destruct (wl_retired_at l).
    + reflexivity.
Defined.

Lemma reassign_transfers_authority_witness :
  exists o1 d, reassign sample_reassign (run two_claims owner_new) = (o1, Ok d) /\
    (forall holder now epoch fence,
       is_ok (lease (run submit_one o1) "lease-1" holder now epoch fence) = false) /\
    exists w, co_work o1 !! "item-1" = Some w /\ wi_owner_session_id w = Some "session-2".
Proof.
  destruct (accepted (reassign sample_reassign) (run two_claims owner_new)
    ltac:(vm_compute; reflexivity)) as (o1 & d & E).
  destruct (reassign_transfers_authority padded_hash request_bytes two_claims submit_one
    sample_reassign o1 d ltac:(vm_compute; reflexivity) E ltac:(vm_compute; reflexivity))
    as (H1 & _ & w & Hw & _ & Ho & _).
  exists o1, d. refine (conj E (conj H1 _)). exists w. exact (conj Hw Ho).
Defined.

(** A candidate, a first writer at 40, whose lease runs to 50. *)
Definition one_writer : list Call :=
  (two_claims ++ [CallSubmitCandidate sample_candidate;
                  CallAcquireIntegration (sample_writer "write-1" "ilease-1" 40)])%list.

Lemma integration_writers_disjoint_witness :
  exists o1 d, acquire_integration (sample_writer "write-2" "ilease-2" 51)
      (run one_writer owner_new) = (o1, Ok d) /\
    (forall r l, co_integration_lease_by_request (run one_writer owner_new) !! r = Some l ->
       il_target_scope l = "main" -> il_expires_at l < 51) /\
    size (co_integration_lease_by_request (run one_writer owner_new)) = 1%nat.
Proof.
  destruct (accepted (acquire_integration (sample_writer "write-2" "ilease-2" 51))
    (run one_writer owner_new) ltac:(vm_compute; reflexivity)) as (o1 & d & E).
  destruct (integration_writers_disjoint padded_hash request_bytes one_writer
    (sample_writer "write-2" "ilease-2" 51) o1 d ltac:(vm_compute; reflexivity)
    ltac:(vm_compute; reflexivity) E) as (H1 & _).
  exists o1, d. refine (conj E (conj H1 _)). vm_compute. reflexivity.
Defined.

Lemma disciplined_owner_recovers_witness :
  from_snapshot padded_hash request_bytes (run moved owner_new) = Ok (run moved owner_new).
Proof.
  apply (disciplined_owner_recovers padded_hash request_bytes moved). vm_compute. reflexivity.
Defined.

Lemma coordination_refused_unchanged_witness :
  exists o e, call padded_hash request_bytes
      (CallAcquireIssued (sample_claim "claim-3" "lease-9" "item-1" "session-2"))
      (run two_claims owner_new) = (o, Err e) /\ o = run two_claims owner_new.
Proof.
  destruct (call padded_hash request_bytes
      (CallAcquireIssued (sample_claim "claim-3" "lease-9" "item-1" "session-2"))
      (run two_claims owner_new)) as [o [a|e]] eqn:E.
  - exfalso. apply (f_equal (fun x => is_ok x.2)) in E. vm_compute in E. discriminate.
  - exists o, e. split; [reflexivity|].
    exact (coordination_refused_unchanged padded_hash request_bytes _ _ _ _ E).
Defined.

Lemma active_selection_exact_witness :
  exists sel, read_active_work_lease_selection (run two_claims owner_new) 30 sample_epoch
      sample_fence = Ok sel /\
    Forall (live_binding (run two_claims owner_new) 30 sample_epoch sample_fence) (selected sel) /\
    length (active_items (run two_claims owner_new)) = 2%nat.
Proof.
  destruct (read_active_work_lease_selection (run two_claims owner_new) 30 sample_epoch
      sample_fence) as [sel|e] eqn:E.
  - exists sel. split; [reflexivity|].
    destruct (active_selection_exact _ _ _ _ _ E) as (_ & H & _). split; [exact H|].
    vm_compute. reflexivity.
  - exfalso. apply (f_equal is_ok) in E. vm_compute in E. discriminate.
Defined.

(** ** What undisciplined callers can do *)

Abbreviation does := (call padded_hash request_bytes).
Abbreviation recovers := (from_snapshot padded_hash request_bytes).

(** The state and the result of an item. *)
Definition item_result (o : CoordinationOwner) (id : string) : option (WorkState * option string) :=
  (fun w => (wi_state w, wi_result_ref w)) <$> co_work o !! id.

(** The end of a lease. *)
Definition lease_end (o : CoordinationOwner) (id : string) : option Z :=
  wl_expires_at <$> co_leases o !! id.

(** An accepted call, with its owner. *)
Definition accepts (c : Call) (o : CoordinationOwner) : bool := is_ok (does c o).2.

(** Submitting a result checks that the session holds the lease it names, but
    not that this lease is on the item: the holder of one item submits the
    result of another. *)
Theorem foreign_lease_submits :
  let o := run two_claims owner_new in
  let c := CallSubmitResult (sample_result "steal" "lease-1" "session-1" "item-2") in
  wi_owner_session_id <$> co_work o !! "item-2" = Some (Some "session-2") /\
  accepts c o = true /\
  item_result (does c o).1 "item-2" = Some (Submitted, Some "blob").
Proof. vm_compute. done. Qed.

(** A plain claim does not refuse a lease identifier in use: it overwrites
    the lease of another item, which keeps pointing at it, and the owner can
    no longer be recovered from its own image. *)
Theorem plain_claim_overwrites_lease :
  let o := run (two_claims ++ [sample_work "item-3"]) owner_new in
  let c := CallAcquireWork (sample_claim "claim-4" "lease-1" "item-3" "session-2") in
  accepts c o = true /\
  wl_work_item_id <$> co_leases (does c o).1 !! "lease-1" = Some "item-3" /\
  (co_work (does c o).1 !! "item-1" ≫= wi_lease_id) = Some "lease-1" /\
  is_ok (recovers o) = true /\ is_ok (recovers (does c o).1) = false.
Proof. vm_compute. done. Qed.

(** A heartbeat repeated under one request identity with another extension
    moves the end of the lease, and the log does not show it. *)
Theorem heartbeat_replay_extends_unlogged :
  let o := run (two_claims ++ [CallHeartbeat (sample_beat "beat" 100)]) owner_new in
  let c := CallHeartbeat (sample_beat "beat" 900) in
  accepts c o = true /\
  lease_end o "lease-1" = Some 100 /\ lease_end (does c o).1 "lease-1" = Some 900 /\
  co_events (does c o).1 = co_events o.
Proof. vm_compute. done. Qed.

(** A heartbeat dated before the lease was issued is accepted, and the owner
    can no longer be recovered. *)
Theorem early_heartbeat_unrecoverable :
  let o := run two_claims owner_new in
  let c := CallHeartbeat {| hb_request_id := "early"; hb_session_id := "session-1";
    hb_lease_id := "lease-1"; hb_authority_epoch := sample_epoch;
    hb_state_fence := sample_fence; hb_now := 15; hb_extend_to := 100 |} in
  accepts c o = true /\ is_ok (recovers o) = true /\ is_ok (recovers (does c o).1) = false.
Proof. vm_compute. done. Qed.

(** A session registered with a deadline in its past is accepted, and the
    owner can no longer be recovered. *)
Theorem expired_registration_unrecoverable :
  let c := CallRegisterSession {| rg_request_id := "late"; rg_session_id := "session-9";
    rg_principal_id := "principal"; rg_route_ref := "route"; rg_authority_epoch := sample_epoch;
    rg_state_fence := sample_fence; rg_now := 50; rg_heartbeat_deadline := 40 |} in
  let o := run two_claims owner_new in
  accepts c o = true /\ is_ok (recovers o) = true /\ is_ok (recovers (does c o).1) = false.
Proof. vm_compute. done. Qed.

(** A submission repeated under its own request identity is refused, although
    its event was recorded: unlike claims and reassignments it has no retry
    path. *)
Theorem submit_retry_refused :
  let c := CallSubmitResult (sample_result "submit-1" "lease-1" "session-1" "item-1") in
  let o := run (two_claims ++ [c]) owner_new in
  is_some (co_event_by_request o !! "submit-1") = true /\
  (does c o).2 = Err (FCoordination InvalidState).
Proof. vm_compute. done. Qed.

(** The first event of a log may name a predecessor, although there is none:
    the owner accepts it and its recovery does not. *)
Theorem first_event_names_predecessor :
  let c := CallRecordEvent {| ed_request_id := "first"; ed_event_id := "first";
    ed_kind := EvSessionRegistered; ed_subject_id := "subject"; ed_actor_id := "actor";
    ed_predecessor := Some 7; ed_authority_epoch := sample_epoch; ed_state_fence := sample_fence;
    ed_payload_digest := "digest"; ed_observed_at := ClockReading_default |} in
  accepts c owner_new = true /\ is_ok (recovers (does c owner_new).1) = false.
Proof. vm_compute. done. Qed.
