(* ===== verification/Finish.v ===== *)
(** * Finish decisions

    The derivation of a finish decision from rehydrated evidence
    (crates/governor/eliot-canonical/src/lib.rs, the finish types and
    [derive_finish_decision]) and the finish service that binds it to the
    current task, its fence and its descendants
    (crates/governor/eliot-finish/src/lib.rs).

    The canonical JSON of proofs, attempts and receipts and SHA-256 are the
    class [FinishWire]; [StoreError] and [Value] are the store's error type,
    which no finish operation produces, and a serde_json value, which the
    service only refuses. *)

From Stdlib Require Import String.
From S2P Require Import Prelude RustText Contracts Receipts.

#[local] Open Scope string_scope.
#[local] Open Scope Z_scope.

(** ** Canonical finish types *)

Inductive CanonicalError (StoreError : Type) : Type :=
| CeFoundation (e : ContractError)
| CeStore (e : StoreError)
| CeInvalidField (field reason : string)
| CeEmpty (field : string)
| CeDuplicate (field : string)
| CeFenceMismatch
| CeTaskBindingMismatch
| CeCommandClassMismatch
| CeEffectCeilingExceeded
| CeIdentityConflict
| CeStaleTaskRevision
| CeInsufficientFinishEvidence.

Arguments CeFoundation {_} _.
Arguments CeStore {_} _.
Arguments CeInvalidField {_} _ _.
Arguments CeEmpty {_} _.
Arguments CeDuplicate {_} _.
Arguments CeFenceMismatch {_}.
Arguments CeTaskBindingMismatch {_}.
Arguments CeCommandClassMismatch {_}.
Arguments CeEffectCeilingExceeded {_}.
Arguments CeIdentityConflict {_}.
Arguments CeStaleTaskRevision {_}.
Arguments CeInsufficientFinishEvidence {_}.

Inductive RequestedFinishOutcome : Type :=
| ReqCompleteCandidate
| ReqPartial
| ReqBlocked
| ReqFailedVerification
| ReqDegradedNoProof
| ReqUnsafeToFinish
| ReqCancelled
| ReqSuperseded.

#[global] Instance RequestedFinishOutcome_eq_dec : EqDecision RequestedFinishOutcome.
Proof. solve_decision. Defined.

Inductive FinishDecisionOutcome : Type :=
| OutVerifiedComplete
| OutPartial
| OutBlocked
| OutFailedVerification
| OutDegradedNoProof
| OutUnsafeToFinish
| OutCancelled
| OutSuperseded.

#[global] Instance FinishDecisionOutcome_eq_dec : EqDecision FinishDecisionOutcome.
Proof. solve_decision. Defined.

Record FinishAttemptDraft : Type := {
  fd_task_id : string;
  fd_expected_task_revision : Z;
  fd_requested_outcome : RequestedFinishOutcome;
  fd_artifact_refs : list string;
  fd_observation_refs : list string;
  fd_verifier_run_refs : list string;
  fd_remaining_unknowns_declared_by_caller : list string;
  fd_rationale_candidate : string;
}.

Record AcceptanceCoverage : Type := {
  av_item_id : string;
  av_satisfied : bool;
  av_evidence_refs : list string;
  av_verifier_run_refs : list string;
  av_requires_verifier : bool;
}.

Record FinishEvidence : Type := {
  fe_task_id : string;
  fe_current_task_revision : Z;
  fe_artifact_refs : list string;
  fe_acceptance : list AcceptanceCoverage;
  fe_executed_verifier_run_refs : list string;
  fe_stale_verifier_run_refs : list string;
  fe_unresolved_effect_refs : list string;
}.

Inductive ProofCeiling : Type := ObservationProof | ScopedVerification | Completion.

#[global] Instance ProofCeiling_eq_dec : EqDecision ProofCeiling.
Proof. solve_decision. Defined.

Record DerivedCompletionProof : Type := {
  dp_task_id : string;
  dp_task_revision : Z;
  dp_per_acceptance_coverage : list string;
  dp_artifact_and_verifier_bindings : list string;
  dp_checks_not_executed_or_stale : list string;
  dp_unresolved_effects_and_unknowns : list string;
  dp_proof_ceiling : ProofCeiling;
  dp_derivation_digest : string;
}.

Record FinishDecision : Type := {
  fn_outcome : FinishDecisionOutcome;
  fn_proof : DerivedCompletionProof;
  fn_next_allowed_action : string;
}.

(** ** Finish service types *)

Inductive FinishError (StoreError : Type) : Type :=
| FeFoundation (e : ContractError)
| FeCanonical (e : CanonicalError StoreError)
| FeInvalidField (field reason : string)
| FeEmpty (field : string)
| FeDuplicate (field : string)
| FeFenceMismatch
| FeIdentityConflict
| FeClosedTask
| FeDescendantUnreconciled
| FeMissingClosureAuthority
| FeCallerProofRejected.

Arguments FeFoundation {_} _.
Arguments FeCanonical {_} _.
Arguments FeInvalidField {_} _ _.
Arguments FeEmpty {_} _.
Arguments FeDuplicate {_} _.
Arguments FeFenceMismatch {_}.
Arguments FeIdentityConflict {_}.
Arguments FeClosedTask {_}.
Arguments FeDescendantUnreconciled {_}.
Arguments FeMissingClosureAuthority {_}.
Arguments FeCallerProofRejected {_}.

Inductive TaskLifecycleState : Type :=
| LcProposed
| LcOpen
| LcFramed
| LcActive
| LcVerifying
| LcSuspended
| LcBlocked
| LcClosing
| LcClosed
| LcReopened.

#[global] Instance TaskLifecycleState_eq_dec : EqDecision TaskLifecycleState.
Proof. solve_decision. Defined.

Definition is_closed (s : TaskLifecycleState) : bool :=
  match s with LcClosed => true | _ => false end.

Inductive FinishClosureIntent : Type :=
| IntentContinue
| IntentClosePartial
| IntentCancel
| IntentSupersede.

#[global] Instance FinishClosureIntent_eq_dec : EqDecision FinishClosureIntent.
Proof. solve_decision. Defined.

Inductive DescendantClosure : Type :=
| Complete (receipt_ref : string)
| Incomplete (unresolved_refs : list string)
| Unknown (reason_ref : string).

Inductive FinishLifecycleAction : Type :=
| CloseCompleted
| ContinueActive
| EnterSuspended
| EnterBlocked
| ClosePartial
| CloseCancelled
| CloseSuperseded.

#[global] Instance FinishLifecycleAction_eq_dec : EqDecision FinishLifecycleAction.
Proof. solve_decision. Defined.

Record FinishContext : Type := {
  fc_task_id : string;
  fc_current_task_revision : Z;
  fc_current_state_fence : StateFence;
  fc_lifecycle : TaskLifecycleState;
  fc_finish_authority_ref : string;
  fc_closure_authority_ref : option string;
  fc_descendant_closure : DescendantClosure;
  fc_evidence : FinishEvidence;
}.

Record FinishAttempt (Value : Type) : Type := {
  fa_attempt_id : string;
  fa_state_fence : StateFence;
  fa_draft : FinishAttemptDraft;
  fa_closure_intent : FinishClosureIntent;
  fa_completion_proof : option Value;
}.

Arguments fa_attempt_id {_} _.
Arguments fa_state_fence {_} _.
Arguments fa_draft {_} _.
Arguments fa_closure_intent {_} _.
Arguments fa_completion_proof {_} _.

Record FinishDecisionReceipt : Type := {
  fr_decision_id : string;
  fr_attempt_id : string;
  fr_task_id : string;
  fr_task_revision : Z;
  fr_state_fence : StateFence;
  fr_finish_authority_ref : string;
  fr_closure_authority_ref : option string;
  fr_requested_outcome : RequestedFinishOutcome;
  fr_decision : FinishDecision;
  fr_lifecycle_action : FinishLifecycleAction;
  fr_unresolved_descendant_refs : list string;
  fr_attempt_digest : string;
  fr_receipt_digest : string;
}.

Inductive FinishAdmission : Type :=
| Accepted (receipt : FinishDecisionReceipt)
| Replayed (receipt : FinishDecisionReceipt).

Record FinishService : Type := { fs_receipts : gmap string FinishDecisionReceipt }.

Definition FinishService_default : FinishService := {| fs_receipts := ∅ |}.

(** ** The bytes that are digested *)

Abbreviation ProofShape :=
  (string * Z * list string * list string * list string * list string * ProofCeiling)%type.

Abbreviation ReceiptShape :=
  (string * string * string * Z * StateFence * string * option string * RequestedFinishOutcome
   * FinishDecision * FinishLifecycleAction * list string * string)%type.

Class FinishWire (Value : Type) := {
  finish_sha256 : list Z -> list Z;
  proof_json : ProofShape -> result unit (list Z);
  attempt_json : FinishAttempt Value -> result unit (list Z);
  receipt_json : ReceiptShape -> result unit (list Z);
}.

(** ** Field checks *)

(** [values.into_iter().any(|value| !seen.insert(value))] *)
Fixpoint repeats (seen : gset string) (values : list string) : bool :=
  match values with
  | [] => false
  | v :: values' =>
      if bool_decide (v ∈ seen) then true else repeats ({[v]} ∪ seen) values'
  end.

Section Finish.
Context {StoreError Value : Type} `{FinishWire Value}.

Abbreviation CanR := (result (CanonicalError StoreError)).
Abbreviation FinR := (result (FinishError StoreError)).

Definition text_reason : string := "must be non-blank and contain no control characters".

Definition canonical_text (value field : string) : CanR unit :=
  guard_err (is_blank value || has_control value) (CeInvalidField field text_reason).

Definition canonical_unique (values : list string) (field : string) : CanR unit :=
  guard_err (repeats ∅ values) (CeDuplicate field).

Definition finish_text (value field : string) : FinR unit :=
  guard_err (is_blank value || has_control value) (FeInvalidField field text_reason).

Definition finish_unique (values : list string) (field : string) : FinR unit :=
  guard_err (repeats ∅ values) (FeDuplicate field).

(** ** The canonical derivation *)

Definition draft_validate (d : FinishAttemptDraft) : CanR unit :=
  check? canonical_text (fd_task_id d) "finish.task_id";
  check? guard_err (fd_expected_task_revision d =? 0)
           (CeInvalidField "finish.expected_task_revision" "must be non-zero");
  check? canonical_text (fd_rationale_candidate d) "finish.rationale_candidate";
  for_each (fun vf : list string * string =>
      check? canonical_unique vf.1 vf.2;
      for_each (fun v => canonical_text v vf.2) vf.1)
    [(fd_artifact_refs d, "finish.artifact_refs");
     (fd_observation_refs d, "finish.observation_refs");
     (fd_verifier_run_refs d, "finish.verifier_run_refs");
     (fd_remaining_unknowns_declared_by_caller d, "finish.remaining_unknowns_declared_by_caller")].

(** One acceptance item of [FinishEvidence::validate]. *)
Definition coverage_validate (item : AcceptanceCoverage) : CanR unit :=
  check? canonical_text (av_item_id item) "finish.evidence.acceptance.item_id";
  check? canonical_unique (av_evidence_refs item) "finish.evidence.acceptance.evidence_refs";
  check? canonical_unique (av_verifier_run_refs item)
           "finish.evidence.acceptance.verifier_run_refs";
  check? for_each (fun r => canonical_text r "finish.evidence.reference")
           (av_evidence_refs item ++ av_verifier_run_refs item);
  guard_err (bool_decide (av_evidence_refs item = [])) CeInsufficientFinishEvidence.

Definition evidence_validate (e : FinishEvidence) : CanR unit :=
  check? canonical_text (fe_task_id e) "finish.evidence.task_id";
  check? guard_err (fe_current_task_revision e =? 0)
           (CeInvalidField "finish.evidence.current_task_revision" "must be non-zero");
  check? canonical_unique (fe_artifact_refs e) "finish.evidence.artifact_refs";
  check? for_each (fun r => canonical_text r "finish.evidence.artifact_ref") (fe_artifact_refs e);
  check? guard_err (match fe_acceptance e with [] => true | _ => false end)
           (CeEmpty "finish.evidence.acceptance");
  check? canonical_unique (map av_item_id (fe_acceptance e)) "finish.evidence.acceptance";
  check? for_each coverage_validate (fe_acceptance e);
  check? canonical_unique (fe_executed_verifier_run_refs e)
           "finish.evidence.executed_verifier_run_refs";
  check? canonical_unique (fe_stale_verifier_run_refs e)
           "finish.evidence.stale_verifier_run_refs";
  check? canonical_unique (fe_unresolved_effect_refs e) "finish.evidence.unresolved_effect_refs";
  for_each (fun r => canonical_text r "finish.evidence.reference")
    (fe_executed_verifier_run_refs e ++ fe_stale_verifier_run_refs e
     ++ fe_unresolved_effect_refs e).

(** The variables [derive_finish_decision] updates in its loops. *)
Record Derivation : Type := {
  dv_coverage : list string;
  dv_missing : list string;
  dv_verifier_gap : bool;
  dv_artifact_gap : bool;
  dv_all_satisfied : bool;
  dv_bindings : list string;
}.

Definition note_missing (reason : string) (dv : Derivation) : Derivation :=
  {| dv_coverage := dv_coverage dv; dv_missing := dv_missing dv ++ [reason];
     dv_verifier_gap := dv_verifier_gap dv; dv_artifact_gap := dv_artifact_gap dv;
     dv_all_satisfied := dv_all_satisfied dv; dv_bindings := dv_bindings dv |}.

Definition open_artifact_gap (dv : Derivation) : Derivation :=
  {| dv_coverage := dv_coverage dv; dv_missing := dv_missing dv;
     dv_verifier_gap := dv_verifier_gap dv; dv_artifact_gap := true;
     dv_all_satisfied := dv_all_satisfied dv; dv_bindings := dv_bindings dv |}.

Definition open_verifier_gap (dv : Derivation) : Derivation :=
  {| dv_coverage := dv_coverage dv; dv_missing := dv_missing dv;
     dv_verifier_gap := true; dv_artifact_gap := dv_artifact_gap dv;
     dv_all_satisfied := dv_all_satisfied dv; dv_bindings := dv_bindings dv |}.

Definition unsatisfied (dv : Derivation) : Derivation :=
  {| dv_coverage := dv_coverage dv; dv_missing := dv_missing dv;
     dv_verifier_gap := dv_verifier_gap dv; dv_artifact_gap := dv_artifact_gap dv;
     dv_all_satisfied := false; dv_bindings := dv_bindings dv |}.

Definition cover (entry : string) (dv : Derivation) : Derivation :=
  {| dv_coverage := dv_coverage dv ++ [entry]; dv_missing := dv_missing dv;
     dv_verifier_gap := dv_verifier_gap dv; dv_artifact_gap := dv_artifact_gap dv;
     dv_all_satisfied := dv_all_satisfied dv; dv_bindings := dv_bindings dv |}.

Definition bind_ref (r : string) (dv : Derivation) : Derivation :=
  {| dv_coverage := dv_coverage dv; dv_missing := dv_missing dv;
     dv_verifier_gap := dv_verifier_gap dv; dv_artifact_gap := dv_artifact_gap dv;
     dv_all_satisfied := dv_all_satisfied dv; dv_bindings := dv_bindings dv ++ [r] |}.

Definition derivation_start (e : FinishEvidence) : Derivation :=
  {| dv_coverage := []; dv_missing := []; dv_verifier_gap := false; dv_artifact_gap := false;
     dv_all_satisfied := true;
     dv_bindings := fe_artifact_refs e ++ fe_executed_verifier_run_refs e |}.

(** [executed.difference(&stale)] *)
Definition executed_current (e : FinishEvidence) : gset string :=
  list_to_set (fe_executed_verifier_run_refs e) ∖ list_to_set (fe_stale_verifier_run_refs e).

Definition check_artifact (e : FinishEvidence) (dv : Derivation) (artifact : string) : Derivation :=
  if existsb (String.eqb artifact) (fe_artifact_refs e) then dv
  else note_missing ("artifact:" ++ artifact) (open_artifact_gap dv).

Definition check_known_run (e : FinishEvidence) (dv : Derivation) (verifier : string) : Derivation :=
  if existsb (String.eqb verifier) (fe_executed_verifier_run_refs e) then dv
  else open_verifier_gap dv.

Definition check_current_run (e : FinishEvidence) (dv : Derivation) (verifier : string)
    : Derivation :=
  if bool_decide (verifier ∈ executed_current e) then dv
  else note_missing ("verifier:" ++ verifier) (open_verifier_gap dv).

(** One verifier of an acceptance item. *)
Definition check_item_run (e : FinishEvidence) (item : AcceptanceCoverage) (dv : Derivation)
    (verifier : string) : Derivation :=
  let dv := bind_ref verifier dv in
  if av_requires_verifier item && negb (bool_decide (verifier ∈ executed_current e))
  then note_missing ("verifier:" ++ verifier) (open_verifier_gap dv)
  else dv.

Definition bool_to_string (b : bool) : string := if b then "true" else "false".

Definition check_item (e : FinishEvidence) (dv : Derivation) (item : AcceptanceCoverage)
    : Derivation :=
  let dv := if av_satisfied item then dv
            else note_missing ("acceptance:" ++ av_item_id item) (unsatisfied dv) in
  let dv := cover (av_item_id item ++ "=" ++ bool_to_string (av_satisfied item)) dv in
  let dv := fold_left (check_item_run e item) (av_verifier_run_refs item) dv in
  if av_requires_verifier item && bool_decide (av_verifier_run_refs item = [])
  then note_missing ("verifier:" ++ av_item_id item) (open_verifier_gap dv)
  else dv.

(** The four loops. *)
Definition derivation (d : FinishAttemptDraft) (e : FinishEvidence) : Derivation :=
  let dv := fold_left (check_artifact e) (fd_artifact_refs d) (derivation_start e) in
  let dv := fold_left (check_known_run e) (fd_verifier_run_refs d) dv in
  let dv := fold_left (check_current_run e) (fd_verifier_run_refs d) dv in
  fold_left (check_item e) (fe_acceptance e) dv.

Definition verifier_items_proven (e : FinishEvidence) : bool :=
  forallb (fun item =>
      negb (bool_decide (av_verifier_run_refs item = []))
      && forallb (fun v => bool_decide (v ∈ executed_current e)) (av_verifier_run_refs item))
    (List.filter av_requires_verifier (fe_acceptance e)).

Definition outcome_of (requested : RequestedFinishOutcome) (proven : bool) (dv : Derivation)
    (unresolved : list string) : FinishDecisionOutcome :=
  match requested with
  | ReqCompleteCandidate =>
      if dv_all_satisfied dv && proven && negb (dv_verifier_gap dv) && negb (dv_artifact_gap dv)
         && bool_decide (unresolved = [])
      then OutVerifiedComplete
      else if dv_verifier_gap dv then OutFailedVerification
      else if negb (bool_decide (unresolved = [])) then OutBlocked
      else OutDegradedNoProof
  | ReqDegradedNoProof => OutDegradedNoProof
  | ReqPartial => OutPartial
  | ReqBlocked => OutBlocked
  | ReqFailedVerification => OutFailedVerification
  | ReqUnsafeToFinish => OutUnsafeToFinish
  | ReqCancelled => OutCancelled
  | ReqSuperseded => OutSuperseded
  end.

Definition derive_finish_decision (d : FinishAttemptDraft) (e : FinishEvidence)
    : CanR FinishDecision :=
  check? draft_validate d;
  check? evidence_validate e;
  check? guard_err (fd_task_id d != fe_task_id e) CeTaskBindingMismatch;
  check? guard_err (negb (fd_expected_task_revision d =? fe_current_task_revision e))
           CeStaleTaskRevision;
  let dv := derivation d e in
  let bindings := sort_dedup (dv_bindings dv) in
  let unresolved := sort_dedup (fe_unresolved_effect_refs e
                                ++ fd_remaining_unknowns_declared_by_caller d) in
  let outcome := outcome_of (fd_requested_outcome d) (verifier_items_proven e) dv unresolved in
  let proof_ceiling :=
    if outcome == OutVerifiedComplete then Completion
    else if negb (bool_decide (bindings = [])) then ScopedVerification
    else ObservationProof in
  let checks := sort_dedup (dv_missing dv) in
  let? proof_bytes :=
    map_err (fun _ => CeInvalidField "finish.derived_proof" "cannot serialize derived proof")
      (proof_json (fd_task_id d, fe_current_task_revision e, dv_coverage dv, bindings, checks,
                   unresolved, proof_ceiling)) in
  Ok {| fn_outcome := outcome;
        fn_proof := {| dp_task_id := fd_task_id d;
                       dp_task_revision := fe_current_task_revision e;
                       dp_per_acceptance_coverage := dv_coverage dv;
                       dp_artifact_and_verifier_bindings := bindings;
                       dp_checks_not_executed_or_stale := checks;
                       dp_unresolved_effects_and_unknowns := unresolved;
                       dp_proof_ceiling := proof_ceiling;
                       dp_derivation_digest := sha256_hex finish_sha256 proof_bytes |};
        fn_next_allowed_action :=
          if outcome == OutVerifiedComplete
          then "record verified completion through the canonical transition"
          else "address the uncovered evidence or declared continuation before retrying finish" |}.

(** ** The finish service *)

Definition closure_validate (c : DescendantClosure) : FinR unit :=
  match c with
  | Complete r => finish_text r "descendant_closure.receipt_ref"
  | Incomplete refs =>
      check? guard_err (bool_decide (refs = [])) (FeEmpty "descendant_closure.unresolved_refs");
      check? finish_unique refs "descendant_closure.unresolved_refs";
      for_each (fun r => finish_text r "descendant_closure.unresolved_ref") refs
  | Unknown r => finish_text r "descendant_closure.reason_ref"
  end.

Definition closure_unresolved_refs (c : DescendantClosure) : list string :=
  match c with
  | Complete _ => []
  | Incomplete refs => refs
  | Unknown r => ["unknown-descendants:" ++ r]
  end.

Definition is_complete (c : DescendantClosure) : bool :=
  match c with Complete _ => true | _ => false end.

Definition check_ref (r : option string) (field : string) : FinR unit :=
  match r with Some r => finish_text r field | None => Ok tt end.

Definition context_validate (c : FinishContext) : FinR unit :=
  check? finish_text (fc_task_id c) "finish_context.task_id";
  check? guard_err (fc_current_task_revision c =? 0)
           (FeInvalidField "finish_context.current_task_revision" "must be non-zero");
  check? map_err FeFoundation (StateFence_validate (fc_current_state_fence c));
  check? finish_text (fc_finish_authority_ref c) "finish_context.finish_authority_ref";
  check? check_ref (fc_closure_authority_ref c) "finish_context.closure_authority_ref";
  check? closure_validate (fc_descendant_closure c);
  check? map_err FeCanonical (evidence_validate (fc_evidence c));
  check? guard_err (fe_task_id (fc_evidence c) != fc_task_id c)
           (FeCanonical CeTaskBindingMismatch);
  guard_err (negb (fe_current_task_revision (fc_evidence c) =? fc_current_task_revision c))
    (FeCanonical CeStaleTaskRevision).

Definition intent_matches (outcome : RequestedFinishOutcome) (intent : FinishClosureIntent)
    : bool :=
  match outcome with
  | ReqCompleteCandidate | ReqBlocked | ReqFailedVerification | ReqDegradedNoProof
  | ReqUnsafeToFinish => intent == IntentContinue
  | ReqPartial => match intent with IntentContinue | IntentClosePartial => true | _ => false end
  | ReqCancelled => intent == IntentCancel
  | ReqSuperseded => intent == IntentSupersede
  end.

Definition validate_closure_intent (outcome : RequestedFinishOutcome)
    (intent : FinishClosureIntent) : FinR unit :=
  guard_err (negb (intent_matches outcome intent))
    (FeInvalidField "finish_attempt.closure_intent" "does not match requested outcome").

Definition attempt_validate (a : FinishAttempt Value) : FinR unit :=
  check? finish_text (fa_attempt_id a) "finish_attempt.attempt_id";
  check? map_err FeFoundation (StateFence_validate (fa_state_fence a));
  check? map_err FeCanonical (draft_validate (fa_draft a));
  validate_closure_intent (fd_requested_outcome (fa_draft a)) (fa_closure_intent a).

Definition attempt_digest (a : FinishAttempt Value) : FinR string :=
  check? attempt_validate a;
  let? bytes := map_err (fun _ => FeInvalidField "finish_attempt" "cannot serialize finish attempt")
                  (attempt_json a) in
  Ok (sha256_hex finish_sha256 bytes).

Definition receipt_digest (shape : ReceiptShape) : FinR string :=
  let? bytes := map_err (fun _ => FeInvalidField "finish_decision_receipt"
                                    "cannot serialize decision receipt") (receipt_json shape) in
  Ok (sha256_hex finish_sha256 bytes).

(** The fields of a receipt that its digest covers. *)
Definition receipt_shape (r : FinishDecisionReceipt) : ReceiptShape :=
  (fr_decision_id r, fr_attempt_id r, fr_task_id r, fr_task_revision r, fr_state_fence r,
   fr_finish_authority_ref r, fr_closure_authority_ref r, fr_requested_outcome r, fr_decision r,
   fr_lifecycle_action r, fr_unresolved_descendant_refs r, fr_attempt_digest r).

Definition receipt_validate (r : FinishDecisionReceipt) : FinR unit :=
  check? finish_text (fr_decision_id r) "finish_receipt.decision_id";
  check? finish_text (fr_attempt_id r) "finish_receipt.attempt_id";
  check? finish_text (fr_task_id r) "finish_receipt.task_id";
  check? guard_err (fr_task_revision r =? 0)
           (FeInvalidField "finish_receipt.task_revision" "must be non-zero");
  check? map_err FeFoundation (StateFence_validate (fr_state_fence r));
  check? finish_text (fr_finish_authority_ref r) "finish_receipt.finish_authority_ref";
  check? check_ref (fr_closure_authority_ref r) "finish_receipt.closure_authority_ref";
  check? guard_err ((dp_task_id (fn_proof (fr_decision r)) != fr_task_id r)
                    || negb (dp_task_revision (fn_proof (fr_decision r)) =? fr_task_revision r))
           (FeInvalidField "finish_receipt.decision.proof"
              "proof task binding does not match receipt");
  check? finish_text (fn_next_allowed_action (fr_decision r)) "finish_receipt.next_allowed_action";
  check? finish_unique (fr_unresolved_descendant_refs r)
           "finish_receipt.unresolved_descendant_refs";
  check? for_each (fun v => finish_text v "finish_receipt.unresolved_descendant_ref")
           (fr_unresolved_descendant_refs r);
  check? finish_text (fr_attempt_digest r) "finish_receipt.attempt_digest";
  check? finish_text (fr_receipt_digest r) "finish_receipt.receipt_digest";
  check? guard_err (fr_decision_id r != ("finish:" ++ fr_attempt_id r))
           (FeInvalidField "finish_receipt.decision_id" "must be derived from attempt identity");
  let? expected := receipt_digest (receipt_shape r) in
  guard_err (expected != fr_receipt_digest r)
    (FeInvalidField "finish_receipt.receipt_digest" "does not match receipt content").

Definition closes (action : FinishLifecycleAction) : bool :=
  match action with
  | CloseCompleted | ClosePartial | CloseCancelled | CloseSuperseded => true
  | _ => false
  end.

Definition lifecycle_action (outcome : FinishDecisionOutcome) (intent : FinishClosureIntent)
    (lifecycle : TaskLifecycleState) (closure_authority_ref : option string)
    : FinR FinishLifecycleAction :=
  let action :=
    match outcome with
    | OutVerifiedComplete => CloseCompleted
    | OutPartial => if intent == IntentClosePartial then ClosePartial else EnterSuspended
    | OutDegradedNoProof => EnterSuspended
    | OutBlocked | OutUnsafeToFinish => EnterBlocked
    | OutFailedVerification => if lifecycle == LcBlocked then EnterBlocked else ContinueActive
    | OutCancelled => CloseCancelled
    | OutSuperseded => CloseSuperseded
    end in
  check? guard_err (closes action && negb (is_some closure_authority_ref))
           FeMissingClosureAuthority;
  Ok action.

(** The evidence with the descendants that are still open added to it. *)
Definition joined_evidence (c : FinishContext) : FinishEvidence :=
  let e := fc_evidence c in
  match closure_unresolved_refs (fc_descendant_closure c) with
  | [] => e
  | refs =>
      {| fe_task_id := fe_task_id e; fe_current_task_revision := fe_current_task_revision e;
         fe_artifact_refs := fe_artifact_refs e; fe_acceptance := fe_acceptance e;
         fe_executed_verifier_run_refs := fe_executed_verifier_run_refs e;
         fe_stale_verifier_run_refs := fe_stale_verifier_run_refs e;
         fe_unresolved_effect_refs := sort_dedup (fe_unresolved_effect_refs e ++ refs) |}
  end.

Definition set_requested_outcome (o : RequestedFinishOutcome) (d : FinishAttemptDraft)
    : FinishAttemptDraft :=
  {| fd_task_id := fd_task_id d; fd_expected_task_revision := fd_expected_task_revision d;
     fd_requested_outcome := o; fd_artifact_refs := fd_artifact_refs d;
     fd_observation_refs := fd_observation_refs d; fd_verifier_run_refs := fd_verifier_run_refs d;
     fd_remaining_unknowns_declared_by_caller := fd_remaining_unknowns_declared_by_caller d;
     fd_rationale_candidate := fd_rationale_candidate d |}.

(** The draft with a closing request turned into a blocked one while
    descendants are open. *)
Definition guarded_draft (d : FinishAttemptDraft) (c : FinishContext) : FinishAttemptDraft :=
  if negb (is_complete (fc_descendant_closure c))
     && match fd_requested_outcome d with
        | ReqCompleteCandidate | ReqCancelled | ReqSuperseded => true
        | _ => false
        end
  then set_requested_outcome ReqBlocked d
  else d.

(** The decision, the lifecycle action and the receipt of a fresh attempt. *)
Definition derive_receipt (a : FinishAttempt Value) (digest : string) (c : FinishContext)
    : FinR FinishDecisionReceipt :=
  check? context_validate c;
  check? guard_err (is_closed (fc_lifecycle c)) FeClosedTask;
  check? guard_err (fa_state_fence a != fc_current_state_fence c) FeFenceMismatch;
  check? guard_err (fd_task_id (fa_draft a) != fc_task_id c) (FeCanonical CeTaskBindingMismatch);
  check? guard_err (negb (fd_expected_task_revision (fa_draft a) =? fc_current_task_revision c))
           (FeCanonical CeStaleTaskRevision);
  let unresolved := closure_unresolved_refs (fc_descendant_closure c) in
  let? decision := map_err FeCanonical
                     (derive_finish_decision (guarded_draft (fa_draft a) c) (joined_evidence c)) in
  let? action := lifecycle_action (fn_outcome decision) (fa_closure_intent a) (fc_lifecycle c)
                   (fc_closure_authority_ref c) in
  let decision_id := "finish:" ++ fa_attempt_id a in
  let? rd := receipt_digest
               (decision_id, fa_attempt_id a, fc_task_id c, fc_current_task_revision c,
                fa_state_fence a, fc_finish_authority_ref c, fc_closure_authority_ref c,
                fd_requested_outcome (fa_draft a), decision, action, unresolved, digest) in
  Ok {| fr_decision_id := decision_id; fr_attempt_id := fa_attempt_id a;
        fr_task_id := fc_task_id c; fr_task_revision := fc_current_task_revision c;
        fr_state_fence := fa_state_fence a;
        fr_finish_authority_ref := fc_finish_authority_ref c;
        fr_closure_authority_ref := fc_closure_authority_ref c;
        fr_requested_outcome := fd_requested_outcome (fa_draft a); fr_decision := decision;
        fr_lifecycle_action := action; fr_unresolved_descendant_refs := unresolved;
        fr_attempt_digest := digest; fr_receipt_digest := rd |}.

Definition evaluate (a : FinishAttempt Value) (c : FinishContext)
    : M FinishService (FinishError StoreError) FinishAdmission :=
  do! mlift (guard_err (is_some (fa_completion_proof a)) FeCallerProofRejected);
  do! mlift (attempt_validate a);
  let! digest := mlift (attempt_digest a) in
  let! s := mstate in
  match fs_receipts s !! fa_attempt_id a with
  | Some existing =>
      do! mlift (guard_err (fr_attempt_digest existing != digest) FeIdentityConflict);
      mret_ok (Replayed existing)
  | None =>
      let! receipt := mlift (derive_receipt a digest c) in
      do! mmodify (fun s =>
            {| fs_receipts := <[fa_attempt_id a := receipt]> (fs_receipts s) |});
      mret_ok (Accepted receipt)
  end.

Definition receipt (s : FinishService) (attempt_id : string) : option FinishDecisionReceipt :=
  fs_receipts s !! attempt_id.

Definition receipts (s : FinishService) : list FinishDecisionReceipt := btree_values (fs_receipts s).

Definition insert_receipt (s : FinishService) (r : FinishDecisionReceipt) : FinR FinishService :=
  check? receipt_validate r;
  check? guard_err (is_some (fs_receipts s !! fr_attempt_id r)) FeIdentityConflict;
  Ok {| fs_receipts := <[fr_attempt_id r := r]> (fs_receipts s) |}.

Definition from_receipts (rs : list FinishDecisionReceipt) : FinR FinishService :=
  fold_res insert_receipt FinishService_default rs.
End Finish.
