(* ===== verification/FinishLaws.v ===== *)
(** * Finish decisions: theorems

    When exactly a decision is a verified completion, what the finish service
    keeps over any sequence of evaluations, that its receipts rebuild it, and
    that an attempt evaluated once is answered from memory ever after. *)

From Stdlib Require Import String.
From S2P Require Import Prelude RustText Contracts Receipts Finish.

#[local] Open Scope string_scope.
#[local] Open Scope Z_scope.

(** ** Loops that only accumulate *)

Section Folds.
Context {S A B : Type} (g : S -> A -> S).

Lemma fold_left_orb (f : S -> bool) (p : A -> bool) :
  (forall s x, f (g s x) = f s || p x) ->
  forall l s, f (fold_left g l s) = f s || existsb p l.
Proof.
  intros Hg l. induction l as [|x l IH]; intros s; simpl; [by rewrite orb_false_r|].
  by rewrite IH, Hg, orb_assoc.
Qed.

Lemma fold_left_andb (f : S -> bool) (p : A -> bool) :
  (forall s x, f (g s x) = f s && p x) ->
  forall l s, f (fold_left g l s) = f s && forallb p l.
Proof.
  intros Hg l. induction l as [|x l IH]; intros s; simpl; [by rewrite andb_true_r|].
  by rewrite IH, Hg, andb_assoc.
Qed.

Lemma fold_left_same (f : S -> B) :
  (forall s x, f (g s x) = f s) -> forall l s, f (fold_left g l s) = f s.
Proof. intros Hg l. induction l as [|x l IH]; intros s; simpl; [done|]. by rewrite IH, Hg. Qed.

(** The list a loop appends to, item by item. *)
Lemma fold_left_appends (f : S -> list B) (h : A -> list B) :
  (forall s x, f (g s x) = f s ++ h x)%list ->
  forall l s, f (fold_left g l s) = (f s ++ concat (map h l))%list.
Proof.
  intros Hg l. induction l as [|x l IH]; intros s; simpl; [by rewrite app_nil_r|].
  by rewrite IH, Hg, <- app_assoc.
Qed.
End Folds.

Lemma repeats_spec l : forall seen,
  repeats seen l = false <-> NoDup l /\ (forall x, x ∈ l -> x ∉ seen).
Proof.
  induction l as [|x l IH]; intros seen; simpl.
  - split; [|done]. intros _. split; [constructor|]. set_solver.
  - case_bool_decide as Hx.
    + split; [done|]. intros [_ Hs]. exfalso. apply (Hs x); [left|done].
    + rewrite IH, NoDup_cons. split.
      * intros [Hnd Hs]. split_and!; [|done|]; set_solver.
      * intros [[Hx' Hnd] Hs]. split; [done|]. intros y Hy. rewrite elem_of_union. intros [Hyx|Hys].
        -- apply elem_of_singleton in Hyx as ->. done.
        -- by apply (Hs y); [right|].
Qed.

Lemma repeats_NoDup l : repeats ∅ l = false <-> NoDup l.
Proof. rewrite repeats_spec. set_solver. Qed.

Lemma existsb_eqb_elem x l : existsb (String.eqb x) l = true <-> x ∈ l.
Proof.
  rewrite existsb_exists. split.
  - intros (y & Hy & ->%String.eqb_eq). by apply list_elem_of_In.
  - intros Hx. exists x. split; [by apply list_elem_of_In|apply String.eqb_refl].
Qed.

(** ** The derivation *)

Section Derivation.
Implicit Types (d : FinishAttemptDraft) (e : FinishEvidence) (item : AcceptanceCoverage).

(** What leaves a verifier gap at an acceptance item. *)
Definition item_gap e item : bool :=
  av_requires_verifier item
  && (existsb (fun v => negb (bool_decide (v ∈ executed_current e))) (av_verifier_run_refs item)
      || bool_decide (av_verifier_run_refs item = [])).

Definition unknown_artifact e (a : string) : bool := negb (existsb (String.eqb a) (fe_artifact_refs e)).

Definition unproven_run e (v : string) : bool := negb (bool_decide (v ∈ executed_current e)).

Lemma check_item_verifier_gap e dv item :
  dv_verifier_gap (check_item e dv item) = dv_verifier_gap dv || item_gap e item.
Proof.
  unfold check_item, item_gap.
  assert (Hf : forall dv', dv_verifier_gap (fold_left (check_item_run e item)
                (av_verifier_run_refs item) dv') =
              dv_verifier_gap dv' || (av_requires_verifier item && existsb (unproven_run e)
                (av_verifier_run_refs item))).
  { intros dv'.
    rewrite (fold_left_orb _ dv_verifier_gap (fun v => av_requires_verifier item && unproven_run e v)).
    - f_equal. induction (av_verifier_run_refs item) as [|v l IH]; simpl; [by rewrite andb_false_r|].
      rewrite IH. by destruct (av_requires_verifier item).
    - intros s v. unfold check_item_run, unproven_run. case_match; simpl;
        [by rewrite orb_true_r|by rewrite orb_false_r]. }
  case_match eqn:Hc; [apply andb_true_iff in Hc as [Hr Hn]; rewrite Hr|].
  - simpl. rewrite Hn, !orb_true_r. done.
  - rewrite Hf. change (dv_verifier_gap (cover _ ?x)) with (dv_verifier_gap x).
    replace (dv_verifier_gap (if av_satisfied item then dv else _)) with (dv_verifier_gap dv)
      by (by destruct (av_satisfied item)).
    f_equal. destruct (av_requires_verifier item); [|done]. simpl in *. by rewrite Hc, orb_false_r.
Qed.

Lemma derivation_verifier_gap d e :
  dv_verifier_gap (derivation d e) =
  existsb (unproven_run e) (fd_verifier_run_refs d) || existsb (item_gap e) (fe_acceptance e).
Proof.
  unfold derivation. rewrite (fold_left_orb _ dv_verifier_gap (item_gap e)) by apply check_item_verifier_gap.
  f_equal.
  rewrite (fold_left_orb _ dv_verifier_gap (unproven_run e)).
  2: { intros s v. unfold check_current_run, unproven_run. by destruct (bool_decide _); simpl; rewrite ?orb_true_r, ?orb_false_r. }
  rewrite (fold_left_orb _ dv_verifier_gap
             (fun v => negb (existsb (String.eqb v) (fe_executed_verifier_run_refs e)))).
  2: { intros s v. unfold check_known_run. by destruct (existsb _ _); simpl; rewrite ?orb_true_r, ?orb_false_r. }
  rewrite (fold_left_same _ dv_verifier_gap).
  2: { intros s v. unfold check_artifact. by destruct (existsb _ _). }
  simpl. generalize (fd_verifier_run_refs d). intros l.
  induction l as [|v l IH]; cbn [existsb]; [done|].
  assert (Hv : existsb (String.eqb v) (fe_executed_verifier_run_refs e) = false ->
               unproven_run e v = true).
  { rewrite <- not_true_iff_false, existsb_eqb_elem. intros Hn.
    unfold unproven_run, executed_current. rewrite negb_true_iff, bool_decide_eq_false. set_solver. }
  destruct (existsb (String.eqb v) _).
  - destruct (unproven_run e v); simpl; [by rewrite orb_true_r|exact IH].
  - rewrite Hv by done. done.
Qed.

Lemma derivation_artifact_gap d e :
  dv_artifact_gap (derivation d e) = existsb (unknown_artifact e) (fd_artifact_refs d).
Proof.
  unfold derivation. rewrite (fold_left_same _ dv_artifact_gap).
  2: { intros s item. unfold check_item. set (s1 := fold_left _ _ _).
       assert (Hs : dv_artifact_gap s1 = dv_artifact_gap s).
       { unfold s1. rewrite (fold_left_same _ dv_artifact_gap).
         - by destruct (av_satisfied item).
         - intros s' v. unfold check_item_run. by case_match. }
       case_match; done. }
  rewrite (fold_left_same _ dv_artifact_gap) by (intros; unfold check_current_run; by case_match).
  rewrite (fold_left_same _ dv_artifact_gap) by (intros; unfold check_known_run; by case_match).
  rewrite (fold_left_orb _ dv_artifact_gap (unknown_artifact e)); [done|].
  intros s a. unfold check_artifact, unknown_artifact.
  by destruct (existsb _ _); simpl; rewrite ?orb_true_r, ?orb_false_r.
Qed.

Lemma derivation_all_satisfied d e :
  dv_all_satisfied (derivation d e) = forallb av_satisfied (fe_acceptance e).
Proof.
  unfold derivation. rewrite (fold_left_andb _ dv_all_satisfied av_satisfied).
  - rewrite (fold_left_same _ dv_all_satisfied) by (intros; unfold check_current_run; by case_match).
    rewrite (fold_left_same _ dv_all_satisfied) by (intros; unfold check_known_run; by case_match).
    by rewrite (fold_left_same _ dv_all_satisfied) by (intros; unfold check_artifact; by case_match).
  - intros s item. unfold check_item. set (s1 := fold_left _ _ _).
    assert (Hs : dv_all_satisfied s1 = dv_all_satisfied s && av_satisfied item).
    { unfold s1. rewrite (fold_left_same _ dv_all_satisfied).
      - destruct (av_satisfied item); simpl; [by rewrite andb_true_r|by rewrite andb_false_r].
      - intros s' v. unfold check_item_run. by case_match. }
    case_match; done.
Qed.

Lemma item_gap_false e item :
  item_gap e item = false <->
  (av_requires_verifier item = true -> av_verifier_run_refs item <> [] /\
     forall v, v ∈ av_verifier_run_refs item -> v ∈ executed_current e).
Proof.
  unfold item_gap. destruct (av_requires_verifier item); simpl; [|naive_solver].
  rewrite orb_false_iff, bool_decide_eq_false, existsb_false_iff, Forall_forall.
  setoid_rewrite negb_false_iff. setoid_rewrite bool_decide_eq_true. naive_solver.
Qed.

(** When the verifiers leave no gap, every verifier-bound item is proven. *)
Lemma no_gap_proven e :
  existsb (item_gap e) (fe_acceptance e) = false -> verifier_items_proven e = true.
Proof.
  rewrite existsb_false_iff. intros Hg. unfold verifier_items_proven.
  apply forallb_true_iff, Forall_forall. intros item (Hin & Hr)%list_elem_of_In%filter_In.
  rewrite Forall_forall in Hg. specialize (Hg item ltac:(by apply list_elem_of_In)).
  apply item_gap_false in Hg as [Hne Hall]; [|done].
  rewrite bool_decide_eq_false_2 by done. simpl. apply forallb_true_iff, Forall_forall.
  intros v Hv. apply bool_decide_eq_true. auto.
Qed.

(** What a draft asking for completion and the evidence have to show. *)
Record complete_for (d : FinishAttemptDraft) (e : FinishEvidence) : Prop := {
  cf_satisfied : forall item, item ∈ fe_acceptance e -> av_satisfied item = true;
  cf_proven : forall item v, item ∈ fe_acceptance e -> av_requires_verifier item = true ->
    v ∈ av_verifier_run_refs item ->
    v ∈ fe_executed_verifier_run_refs e /\ v ∉ fe_stale_verifier_run_refs e;
  cf_bound : forall item, item ∈ fe_acceptance e -> av_requires_verifier item = true ->
    av_verifier_run_refs item <> [];
  cf_cited : forall v, v ∈ fd_verifier_run_refs d ->
    v ∈ fe_executed_verifier_run_refs e /\ v ∉ fe_stale_verifier_run_refs e;
  cf_artifacts : forall a, a ∈ fd_artifact_refs d -> a ∈ fe_artifact_refs e;
  cf_effects : fe_unresolved_effect_refs e = [];
  cf_unknowns : fd_remaining_unknowns_declared_by_caller d = [];
}.

Lemma executed_current_elem e v :
  v ∈ executed_current e <->
  v ∈ fe_executed_verifier_run_refs e /\ v ∉ fe_stale_verifier_run_refs e.
Proof. unfold executed_current. rewrite elem_of_difference, !elem_of_list_to_set. done. Qed.

(** The test of the code is the declarative condition. *)
Lemma complete_test d e :
  dv_all_satisfied (derivation d e) && verifier_items_proven e
  && negb (dv_verifier_gap (derivation d e)) && negb (dv_artifact_gap (derivation d e))
  && bool_decide (sort_dedup (fe_unresolved_effect_refs e
                              ++ fd_remaining_unknowns_declared_by_caller d) = []) = true
  <-> complete_for d e.
Proof.
  rewrite !andb_true_iff, !negb_true_iff, bool_decide_eq_true, sort_dedup_nil.
  rewrite derivation_all_satisfied, derivation_verifier_gap, derivation_artifact_gap.
  rewrite orb_false_iff, forallb_true_iff, !existsb_false_iff, !Forall_forall. split.
  - intros ((((Hs & _) & (Hc & Hi)) & Ha) & Hu). apply app_nil in Hu as [Hu1 Hu2]. split; try done.
    + intros item v Hitem Hr Hv. apply executed_current_elem.
      apply (proj1 (item_gap_false e item) (Hi _ Hitem)); done.
    + intros item Hitem Hr. by apply (proj1 (item_gap_false e item) (Hi _ Hitem)).
    + intros v Hv. apply executed_current_elem. specialize (Hc v Hv). unfold unproven_run in Hc.
      by rewrite negb_false_iff, bool_decide_eq_true in Hc.
    + intros a Haa. specialize (Ha a Haa). unfold unknown_artifact in Ha.
      by rewrite negb_false_iff, existsb_eqb_elem in Ha.
  - intros [Hs Hp Hb Hc Ha Hu1 Hu2].
    assert (Hi : forall item, item ∈ fe_acceptance e -> item_gap e item = false).
    { intros item Hitem. apply item_gap_false. intros Hr. split; [by apply Hb|].
      intros v Hv. apply executed_current_elem. by eapply Hp. }
    split_and!; [done| | |done| |by rewrite Hu1, Hu2].
    + apply no_gap_proven, existsb_false_iff, Forall_forall. auto.
    + intros v Hv. unfold unproven_run. rewrite negb_false_iff, bool_decide_eq_true.
      by apply executed_current_elem, Hc.
    + intros a Haa. unfold unknown_artifact. rewrite negb_false_iff, existsb_eqb_elem. auto.
Qed.

(** Whether anything was noted as missing. *)
Definition lacks (dv : Derivation) : bool := negb (bool_decide (dv_missing dv = [])).

Lemma lacks_note r dv : lacks (note_missing r dv) = true.
Proof. unfold lacks. simpl. rewrite bool_decide_eq_false_2; [done|]. by destruct (dv_missing dv). Qed.

Lemma check_item_lacks e dv item :
  lacks (check_item e dv item) = lacks dv || (negb (av_satisfied item) || item_gap e item).
Proof.
  unfold check_item, item_gap. set (s0 := cover _ _). set (s1 := fold_left _ _ _).
  assert (H0 : lacks s0 = lacks dv || negb (av_satisfied item)).
  { unfold s0. destruct (av_satisfied item); simpl.
    - by rewrite orb_false_r.
    - rewrite orb_true_r. apply (lacks_note _ (unsatisfied dv)). }
  assert (H1 : lacks s1 = lacks s0 || (av_requires_verifier item
                 && existsb (unproven_run e) (av_verifier_run_refs item))).
  { unfold s1. rewrite (fold_left_orb _ lacks (fun v => av_requires_verifier item && unproven_run e v)).
    - f_equal. induction (av_verifier_run_refs item) as [|v l IH]; simpl; [by rewrite andb_false_r|].
      rewrite IH. by destruct (av_requires_verifier item).
    - intros s v. unfold check_item_run, unproven_run. case_match; simpl.
      + rewrite orb_true_r. apply (lacks_note _ (open_verifier_gap (bind_ref v s))).
      + by rewrite orb_false_r. }
  change (existsb (fun v => negb _) ?l) with (existsb (unproven_run e) l).
  case_match eqn:Hc.
  - apply andb_true_iff in Hc as [-> ->]. rewrite lacks_note, !orb_true_r. done.
  - rewrite H1, H0. destruct (av_requires_verifier item); simpl in *;
      rewrite ?Hc, ?orb_false_r; by rewrite ?orb_assoc.
Qed.

Lemma derivation_lacks d e :
  lacks (derivation d e) =
  existsb (unknown_artifact e) (fd_artifact_refs d) || existsb (unproven_run e) (fd_verifier_run_refs d)
  || existsb (fun item => negb (av_satisfied item) || item_gap e item) (fe_acceptance e).
Proof.
  unfold derivation. rewrite (fold_left_orb _ lacks _ (check_item_lacks e)). f_equal.
  rewrite (fold_left_orb _ lacks (unproven_run e)).
  2: { intros s v. unfold check_current_run, unproven_run. case_match; simpl.
       - by rewrite orb_false_r.
       - rewrite orb_true_r. apply (lacks_note _ (open_verifier_gap s)). }
  f_equal. rewrite (fold_left_same _ lacks) by (intros; unfold check_known_run; by case_match).
  rewrite (fold_left_orb _ lacks (unknown_artifact e)); [done|].
  intros s a. unfold check_artifact, unknown_artifact. case_match; simpl.
  - by rewrite orb_false_r.
  - rewrite orb_true_r. apply (lacks_note _ (open_artifact_gap s)).
Qed.

(** Nothing missing and nothing unresolved is completeness. *)
Lemma complete_nothing_lacks d e :
  complete_for d e <->
  lacks (derivation d e) = false /\
  sort_dedup (fe_unresolved_effect_refs e ++ fd_remaining_unknowns_declared_by_caller d) = [].
Proof.
  rewrite <- complete_test, derivation_all_satisfied, derivation_verifier_gap,
    derivation_artifact_gap, derivation_lacks.
  rewrite !andb_true_iff, !negb_true_iff, bool_decide_eq_true, !orb_false_iff, forallb_true_iff,
    !existsb_false_iff, !Forall_forall.
  setoid_rewrite orb_false_iff. setoid_rewrite negb_false_iff. split; [naive_solver|].
  intros [((Ha & Hv) & Hi) Hu]. split_and!; try done; [by intros; apply Hi| |by intros; apply Hi].
  apply no_gap_proven, existsb_false_iff, Forall_forall. by intros; apply Hi.
Qed.
End Derivation.

Section Decision.
Context {StoreError Value : Type} `{FinishWire Value}.

Lemma derive_ok d e dec :
  derive_finish_decision (StoreError := StoreError) d e = Ok dec ->
  evidence_validate (StoreError := StoreError) e = Ok tt /\
  draft_validate (StoreError := StoreError) d = Ok tt /\
  fd_task_id d = fe_task_id e /\ fd_expected_task_revision d = fe_current_task_revision e /\
  fn_outcome dec = outcome_of (fd_requested_outcome d) (verifier_items_proven e) (derivation d e)
    (dp_unresolved_effects_and_unknowns (fn_proof dec)) /\
  dp_task_id (fn_proof dec) = fd_task_id d /\
  dp_task_revision (fn_proof dec) = fe_current_task_revision e /\
  dp_checks_not_executed_or_stale (fn_proof dec) = sort_dedup (dv_missing (derivation d e)) /\
  dp_unresolved_effects_and_unknowns (fn_proof dec) =
    sort_dedup (fe_unresolved_effect_refs e ++ fd_remaining_unknowns_declared_by_caller d) /\
  (dp_proof_ceiling (fn_proof dec) = Completion <-> fn_outcome dec = OutVerifiedComplete) /\
  text_ok (fn_next_allowed_action dec) = true.
Proof.
  unfold derive_finish_decision. rewrite !check_ok, !guard_err_ok. cbn zeta.
  intros (Hd & He & Ht & Hr & Hk). apply rbind_ok in Hk as (bytes & _ & [= <-]). bool_facts.
  cbn [fn_outcome fn_proof dp_task_id dp_task_revision dp_checks_not_executed_or_stale
       dp_unresolved_effects_and_unknowns dp_proof_ceiling fn_next_allowed_action].
  split_and!; try done; try lia.
  - repeat case_bool_decide; simpl; naive_solver.
  - by case_bool_decide.
Qed.
End Decision.

(** ** Texts that pass the checks *)

Lemma text_ok_cons c s :
  byte_of c < 128 -> is_control (byte_of c) = false -> is_whitespace (byte_of c) = false ->
  has_control s = false -> text_ok (String c s) = true.
Proof.
  intros Hc Hctl Hw Hs. unfold text_ok, has_control in *. rewrite is_blank_spec. unfold chars in *.
  change (String c s) with (String.append EmptyString (String c s)).
  rewrite decode_app_ascii by done. cbn [decode Nat.eqb app forallb existsb]. by rewrite Hw, Hctl, Hs.
Qed.

Lemma lower_hex_not_space b : is_lower_hex b = true -> is_whitespace b = false.
Proof.
  unfold is_lower_hex, is_ascii_hexdigit, is_ascii_uppercase, is_ascii_digit, is_whitespace.
  intros H. lia.
Qed.

Lemma sha256_hex_text sha256 bs : sha256_output sha256 -> text_ok (sha256_hex sha256 bs) = true.
Proof.
  intros Hsha. destruct (Hsha bs) as [Hlen Hb]. unfold sha256_hex.
  destruct (sha256 bs) as [|b l] eqn:E; [done|].
  pose proof (hex_encode_clean _ Hb) as Hclean. apply Forall_cons in Hb as [Hb Hl].
  destruct (nibbles _ Hb) as (H1 & H2 & _). destruct (hex_digit_spec _ H1) as (_ & Hlow & H128 & Hctl).
  apply text_ok_cons; [done|done|by apply lower_hex_not_space|].
  pose proof Hclean as Hc. unfold has_control, chars in Hc |- *. simpl hex_encode in Hc.
  change (String (hex_digit (Z.shiftr b 4)) ?s) with
    (String.append EmptyString (String (hex_digit (Z.shiftr b 4)) s)) in Hc.
  rewrite decode_app_ascii in Hc by done. cbn [decode Nat.eqb app existsb] in Hc.
  by apply orb_false_iff in Hc as [_ Hc].
Qed.

Lemma text_ok_tagged tag c s :
  text_ok tag = true -> byte_of c < 128 -> is_control (byte_of c) = false ->
  text_ok s = true -> text_ok (tag ++ String c s) = true.
Proof.
  intros Ht Hc Hctl Hs. apply text_ok_app_ascii; [done|done| |done].
  unfold text_ok in Hs. by apply negb_true_iff, orb_false_iff in Hs as [_ Hs].
Qed.

Section Checks.
Context {StoreError : Type}.

Lemma finish_text_ok v field : finish_text (StoreError := StoreError) v field = Ok tt <-> text_ok v = true.
Proof. unfold finish_text, text_ok. by rewrite guard_err_ok, negb_true_iff. Qed.

Lemma finish_unique_ok l field :
  finish_unique (StoreError := StoreError) l field = Ok tt <-> NoDup l.
Proof. unfold finish_unique. by rewrite guard_err_ok, repeats_NoDup. Qed.

Lemma check_ref_ok r field :
  check_ref (StoreError := StoreError) r field = Ok tt <-> forall v, r = Some v -> text_ok v = true.
Proof.
  destruct r as [v|]; simpl; [|naive_solver]. rewrite finish_text_ok. naive_solver.
Qed.

Lemma finish_texts_ok l field :
  for_each (fun v => finish_text (StoreError := StoreError) v field) l = Ok tt <->
  Forall (fun v => text_ok v = true) l.
Proof. rewrite for_each_ok. by setoid_rewrite finish_text_ok. Qed.

(** The descendants a valid closure reports as open. *)
Lemma closure_refs_ok c :
  closure_validate (StoreError := StoreError) c = Ok tt ->
  NoDup (closure_unresolved_refs c) /\ Forall (fun v => text_ok v = true) (closure_unresolved_refs c) /\
  (closure_unresolved_refs c = [] <-> is_complete c = true).
Proof.
  destruct c as [r|refs|r]; simpl.
  - intros _. split_and!; [constructor|constructor|done].
  - rewrite check_guard_ok, check_ok, finish_unique_ok, finish_texts_ok. intros (Hne & Hnd & Ht).
    bool_facts. split_and!; done.
  - rewrite finish_text_ok. intros Ht. split_and!.
    + apply NoDup_singleton.
    + constructor; [|constructor]. by apply (text_ok_tagged "unknown-descendants").
    + done.
Qed.
End Checks.

(** ** The service *)

Section Service.
Context {StoreError Value : Type} `{FinishWire Value}.

Abbreviation FinR := (result (FinishError StoreError)).
Abbreviation evaluate := (evaluate (StoreError := StoreError)).

(** The service after the evaluations [calls], in this order. *)
Fixpoint evaluations (calls : list (FinishAttempt Value * FinishContext)) (s : FinishService)
    : FinishService :=
  match calls with
  | [] => s
  | (a, c) :: calls' => evaluations calls' (evaluate a c s).1
  end.

(** What an accepted receipt says. *)
Record receipt_sound (r : FinishDecisionReceipt) : Prop := {
  rs_authority : closes (fr_lifecycle_action r) = true -> is_Some (fr_closure_authority_ref r);
  rs_complete : fr_lifecycle_action r = CloseCompleted <->
    fn_outcome (fr_decision r) = OutVerifiedComplete;
  rs_requested : fn_outcome (fr_decision r) = OutVerifiedComplete ->
    fr_requested_outcome r = ReqCompleteCandidate /\
    dp_checks_not_executed_or_stale (fn_proof (fr_decision r)) = [] /\
    dp_unresolved_effects_and_unknowns (fn_proof (fr_decision r)) = [] /\
    dp_proof_ceiling (fn_proof (fr_decision r)) = Completion;
  rs_descendants : closes (fr_lifecycle_action r) = true -> fr_lifecycle_action r <> ClosePartial ->
    fr_unresolved_descendant_refs r = [];
}.

Lemma lifecycle_action_ok outcome intent lifecycle auth action :
  lifecycle_action (StoreError := StoreError) outcome intent lifecycle auth = Ok action ->
  (closes action = true -> is_Some auth) /\
  (action = CloseCompleted <-> outcome = OutVerifiedComplete) /\
  (action = CloseCancelled <-> outcome = OutCancelled) /\
  (action = CloseSuperseded <-> outcome = OutSuperseded).
Proof.
  unfold lifecycle_action. cbn zeta. rewrite check_guard_ok. intros [Hg [= <-]].
  destruct auth as [auth|]; simpl in Hg.
  - split; [by eexists|]. destruct outcome; repeat case_bool_decide; naive_solver.
  - rewrite andb_true_r in Hg. split; [by rewrite Hg|].
    destruct outcome; repeat case_bool_decide; naive_solver.
Qed.

(** While descendants are open, no closing outcome can be derived. *)
Lemma guarded_outcome (d : FinishAttemptDraft) (c : FinishContext) proven dv unresolved :
  is_complete (fc_descendant_closure c) = false ->
  outcome_of (fd_requested_outcome (guarded_draft d c)) proven dv unresolved
    ∉ [OutVerifiedComplete; OutCancelled; OutSuperseded].
Proof.
  intros Hc. unfold guarded_draft. rewrite Hc. simpl.
  destruct (fd_requested_outcome d) eqn:E; simpl; rewrite ?E; simpl; set_solver.
Qed.

Lemma guarded_complete (d : FinishAttemptDraft) (c : FinishContext) :
  is_complete (fc_descendant_closure c) = true -> guarded_draft d c = d.
Proof. intros Hc. unfold guarded_draft. by rewrite Hc. Qed.

Lemma decision_complete d e dec :
  derive_finish_decision (StoreError := StoreError) d e = Ok dec ->
  fn_outcome dec = OutVerifiedComplete <->
  fd_requested_outcome d = ReqCompleteCandidate /\ complete_for d e.
Proof.
  intros Hd. apply derive_ok in Hd as (_ & _ & _ & _ & Ho & _ & _ & _ & Hu & _).
  rewrite Ho, Hu, <- complete_test. destruct (fd_requested_outcome d); cbn [outcome_of];
    try (split; [discriminate|by intros [? _]]).
  case_match eqn:Hb; [done|]. split; [repeat case_match; discriminate|by intros [_ ?]].
Qed.

(** The parts of a derived receipt. *)
Lemma derive_receipt_ok a digest c r :
  derive_receipt (StoreError := StoreError) a digest c = Ok r ->
  context_validate (StoreError := StoreError) c = Ok tt /\
  derive_finish_decision (StoreError := StoreError) (guarded_draft (fa_draft a) c)
    (joined_evidence c) = Ok (fr_decision r) /\
  lifecycle_action (StoreError := StoreError) (fn_outcome (fr_decision r)) (fa_closure_intent a)
    (fc_lifecycle c) (fc_closure_authority_ref c) = Ok (fr_lifecycle_action r) /\
  fr_attempt_id r = fa_attempt_id a /\ fr_attempt_digest r = digest /\
  fr_closure_authority_ref r = fc_closure_authority_ref c /\
  fr_requested_outcome r = fd_requested_outcome (fa_draft a) /\
  fr_unresolved_descendant_refs r = closure_unresolved_refs (fc_descendant_closure c).
Proof.
  unfold derive_receipt. rewrite !check_ok. cbn zeta. intros (Hc & _ & _ & _ & _ & Hk).
  apply rbind_ok in Hk as (dec & Hdec & Hk). apply map_err_ok in Hdec.
  apply rbind_ok in Hk as (action & Hact & Hk). by apply rbind_ok in Hk as (rd & _ & [= <-]).
Qed.

Lemma context_closure_ok c :
  context_validate (StoreError := StoreError) c = Ok tt ->
  closure_unresolved_refs (fc_descendant_closure c) = [] <->
  is_complete (fc_descendant_closure c) = true.
Proof.
  unfold context_validate. rewrite !check_ok. intros (_ & _ & _ & _ & _ & Hclosure & _).
  by apply closure_refs_ok in Hclosure as (_ & _ & Hopen).
Qed.

Lemma derive_receipt_sound a digest c r :
  derive_receipt (StoreError := StoreError) a digest c = Ok r -> receipt_sound r.
Proof.
  intros Hr. apply derive_receipt_ok in Hr as (Hc & Hdec & Hact & _ & _ & Hca & Hrq & Hunr).
  apply lifecycle_action_ok in Hact as (Hauth & Hcomp & Hcan & Hsup).
  pose proof Hdec as Hdec'. apply derive_ok in Hdec' as (_ & _ & _ & _ & Ho & _ & _ & Hch & Hun & Hceil & _).
  apply context_closure_ok in Hc. split.
  - by rewrite Hca.
  - done.
  - intros Hv. pose proof (proj1 (decision_complete _ _ _ Hdec) Hv) as [Hreq Hcf].
    apply complete_nothing_lacks in Hcf as [Hl Hs]. rewrite Hch, Hun, Hs, Hrq.
    split_and!; [| |done|by apply Hceil].
    + unfold guarded_draft in Hreq. case_match; done.
    + apply sort_dedup_nil. unfold lacks in Hl. by apply negb_false_iff, bool_decide_eq_true in Hl.
  - intros Hcl Hnp. rewrite Hunr. apply Hc.
    destruct (is_complete (fc_descendant_closure c)) eqn:Hic; [done|].
    exfalso. apply (guarded_outcome (fa_draft a) c (verifier_items_proven (joined_evidence c))
      (derivation (guarded_draft (fa_draft a) c) (joined_evidence c))
      (dp_unresolved_effects_and_unknowns (fn_proof (fr_decision r))) Hic). rewrite <- Ho.
    destruct (fr_lifecycle_action r); simpl in *; try done; set_solver.
Qed.

(** Every receipt the service derives passes its own validation. *)
Lemma derive_receipt_validates a bytes c r :
  sha256_output finish_sha256 -> attempt_validate (StoreError := StoreError) a = Ok tt ->
  derive_receipt (StoreError := StoreError) a (sha256_hex finish_sha256 bytes) c = Ok r ->
  receipt_validate (StoreError := StoreError) r = Ok tt.
Proof.
  intros Hsha Ha. unfold derive_receipt. rewrite !check_ok. cbn zeta.
  intros (Hc & _ & Hf & Ht & Hr & Hk).
  apply rbind_ok in Hk as (dec & Hdec & Hk). apply map_err_ok in Hdec.
  apply rbind_ok in Hk as (action & _ & Hk). apply rbind_ok in Hk as (rd & Hrd & [= <-]).
  apply derive_ok in Hdec as (_ & _ & Htid & Hrev & _ & Hp1 & Hp2 & _ & _ & _ & Hnext).
  unfold context_validate in Hc. rewrite !check_ok, !finish_text_ok, check_ref_ok in Hc.
  destruct Hc as (Hc1 & Hc2 & _ & Hc4 & Hc5 & Hc6 & _ & _ & _).
  apply closure_refs_ok in Hc6 as (Hnd & Htx & _).
  unfold attempt_validate in Ha. rewrite !check_ok, finish_text_ok, map_err_ok in Ha.
  destruct Ha as (Ha1 & Ha2 & _). apply guard_err_ok in Ht, Hr. bool_facts.
  assert (Hg : fd_task_id (guarded_draft (fa_draft a) c) = fd_task_id (fa_draft a))
    by (unfold guarded_draft; by case_match).
  assert (Hg' : fe_current_task_revision (joined_evidence c) = fc_current_task_revision c).
  { rewrite <- Hrev. unfold guarded_draft. case_match; simpl; lia. }
  unfold receipt_validate, receipt_shape. simpl. rewrite !check_ok.
  rewrite !finish_text_ok, check_ref_ok, finish_unique_ok, finish_texts_ok, map_err_ok.
  rewrite Hp1, Hg, Ht, Hp2, Hg', !bool_decide_eq_true_2, Z.eqb_refl by done. simpl.
  split_and!; try done.
  - by apply (text_ok_tagged "finish").
  - apply guard_err_ok in Hc2. by rewrite Hc2.
  - by apply sha256_hex_text.
  - unfold receipt_digest in Hrd. apply rbind_ok in Hrd as (bs & _ & [= <-]). by apply sha256_hex_text.
  - rewrite Hrd. simpl. by rewrite bool_decide_eq_true_2.
Qed.

(** One evaluation: refused, answered from memory, or a fresh receipt. *)
Lemma evaluate_cases a c s s' r :
  evaluate a c s = (s', r) ->
  (exists e, r = Err e /\ s' = s) \/
  attempt_validate (StoreError := StoreError) a = Ok tt /\
  exists bytes, attempt_json a = Ok bytes /\
    ((exists rc, fs_receipts s !! fa_attempt_id a = Some rc /\
        fr_attempt_digest rc = sha256_hex finish_sha256 bytes /\ s' = s /\ r = Ok (Replayed rc)) \/
     (exists rc, fs_receipts s !! fa_attempt_id a = None /\
        derive_receipt (StoreError := StoreError) a (sha256_hex finish_sha256 bytes) c = Ok rc /\
        s' = {| fs_receipts := <[fa_attempt_id a := rc]> (fs_receipts s) |} /\
        r = Ok (Accepted rc))).
Proof.
  unfold Finish.evaluate, mseq, mstate, mlift, mmodify, mret_ok. intros He.
  destruct (guard_err _ _) as [[]|e]; [|injection He as <- <-; left; by eexists].
  destruct (attempt_validate a) as [[]|e] eqn:Hv; [|injection He as <- <-; left; by eexists].
  destruct (attempt_digest a) as [dg|e] eqn:Hd; [|injection He as <- <-; left; by eexists].
  unfold attempt_digest in Hd. rewrite check_ok in Hd. destruct Hd as [_ Hd].
  apply rbind_ok in Hd as (bytes & Hj & [= <-]). apply map_err_ok in Hj.
  destruct (fs_receipts s !! fa_attempt_id a) as [rc|] eqn:Hl.
  - destruct (guard_err _ _) as [[]|e] eqn:Hg; injection He as <- <-; [|left; by eexists].
    apply guard_err_ok in Hg. bool_facts. right. split; [done|]. exists bytes. split; [done|].
    left. by exists rc.
  - destruct (derive_receipt a _ c) as [rc|e] eqn:Hdr; injection He as <- <-; [|left; by eexists].
    right. split; [done|]. exists bytes. split; [done|]. right. by exists rc.
Qed.

(** What holds of a service reached by evaluations. *)
Definition service_wf (s : FinishService) : Prop :=
  forall k r, fs_receipts s !! k = Some r ->
    fr_attempt_id r = k /\ receipt_sound r /\ receipt_validate (StoreError := StoreError) r = Ok tt.

Lemma evaluate_wf a c s :
  sha256_output finish_sha256 -> service_wf s -> service_wf (evaluate a c s).1.
Proof.
  intros Hsha Hs. destruct (evaluate a c s) as [s' r] eqn:He. simpl.
  apply evaluate_cases in He as [(e & _ & ->)|(Hv & bytes & _ & [(rc & _ & _ & -> & _)
    |(rc & _ & Hd & -> & _)])]; [done|done|].
  intros k r0 Hk. simpl in Hk. apply lookup_insert_Some in Hk as [[<- <-]|[_ Hk]]; [|by apply Hs].
  split_and!.
  - by apply derive_receipt_ok in Hd as (_ & _ & _ & -> & _).
  - by eapply derive_receipt_sound.
  - by eapply derive_receipt_validates.
Qed.

Lemma evaluations_wf calls : forall s,
  sha256_output finish_sha256 -> service_wf s -> service_wf (evaluations calls s).
Proof.
  induction calls as [|[a c] calls IH]; intros s Hsha Hs; simpl; [done|].
  apply IH; [done|]. by apply evaluate_wf.
Qed.

Lemma default_wf : service_wf FinishService_default.
Proof. intros k r Hk. simpl in Hk. by rewrite lookup_empty in Hk. Qed.

(** Receipts are never changed or dropped. *)
Lemma evaluations_keep calls : forall s k r,
  fs_receipts s !! k = Some r -> fs_receipts (evaluations calls s) !! k = Some r.
Proof.
  induction calls as [|[a c] calls IH]; intros s k r Hk; simpl; [done|]. apply IH.
  destruct (evaluate a c s) as [s' rr] eqn:He. simpl.
  apply evaluate_cases in He as [(e & _ & ->)|(_ & bytes & _ & [(rc & _ & _ & -> & _)
    |(rc & Hn & _ & -> & _)])]; [done|done|].
  simpl. rewrite lookup_insert_ne; [done|]. intros <-. congruence.
Qed.

(** Inserting validated receipts under distinct identities succeeds. *)
Lemma insert_receipts_ok rs : forall s,
  Forall (fun r => receipt_validate (StoreError := StoreError) r = Ok tt) rs ->
  NoDup (fr_attempt_id <$> rs) -> (forall r, r ∈ rs -> fs_receipts s !! fr_attempt_id r = None) ->
  fold_res (insert_receipt (StoreError := StoreError)) s rs =
    Ok {| fs_receipts := insert_all fr_attempt_id id rs (fs_receipts s) |}.
Proof.
  induction rs as [|r rs IH]; intros [m] Hv Hnd Hfresh; simpl; [done|].
  apply Forall_cons in Hv as [Hv Hvs]. apply NoDup_cons in Hnd as [Hr Hnd].
  pose proof (Hfresh r ltac:(left)) as Hn. simpl in Hn. unfold insert_receipt at 1.
  simpl. rewrite Hv, Hn. simpl. rewrite IH; [done|done|done|].
  intros r' Hr'. simpl. rewrite lookup_insert_ne.
  - apply (Hfresh r'). by right.
  - intros Heq. apply Hr. rewrite Heq. by apply list_elem_of_fmap_2.
Qed.
End Service.

(** ** Claims *)

Section Claims.
Context {StoreError Value : Type} `{FinishWire Value}.

(** A derived decision is a verified completion exactly when one
    was requested and the evidence is complete: every acceptance item
    satisfied, every item that needs a verifier bound to runs that were all
    executed and none of them stale, every cited run and artifact known, and
    neither unresolved effects nor declared unknowns. The proof then claims
    completion, and otherwise never does; a completion that is refused says
    what is missing or unresolved. *)
Theorem verified_complete_exact (d : FinishAttemptDraft) (e : FinishEvidence) (dec : FinishDecision)
    (Hdec : derive_finish_decision (StoreError := StoreError) d e = Ok dec) :
  (fn_outcome dec = OutVerifiedComplete <->
   fd_requested_outcome d = ReqCompleteCandidate /\ complete_for d e) /\
  (dp_proof_ceiling (fn_proof dec) = Completion <-> fn_outcome dec = OutVerifiedComplete) /\
  (fd_requested_outcome d = ReqCompleteCandidate -> fn_outcome dec <> OutVerifiedComplete ->
   dp_checks_not_executed_or_stale (fn_proof dec) <> [] \/
   dp_unresolved_effects_and_unknowns (fn_proof dec) <> []).
Proof.
  pose proof (decision_complete _ _ _ Hdec) as Hex.
  apply derive_ok in Hdec as (_ & _ & _ & _ & _ & _ & _ & Hch & Hun & Hceil & _).
  split_and!; [done|done|]. intros Hreq Hno. rewrite Hch, Hun.
  destruct (decide (sort_dedup (dv_missing (derivation d e)) = [])) as [Hm|]; [|by left]. right.
  intros Hu. apply Hno, Hex. split; [done|]. apply complete_nothing_lacks. split; [|done].
  unfold lacks. apply (proj1 (sort_dedup_nil _)) in Hm. by rewrite Hm.
Qed.

(** C27. In every service reached by evaluations, whatever the callers
    present, each receipt is kept under its attempt, passes its own
    validation, closes a task only with a closure authority, closes it as
    completed exactly when the decision is a verified completion that was
    asked for and lacks nothing, and closes it in any way but as partial only
    when no descendant is open. *)
Theorem finish_service_sound (calls : list (FinishAttempt Value * FinishContext))
    (Hsha : sha256_output finish_sha256) :
  service_wf (StoreError := StoreError)
    (evaluations (StoreError := StoreError) calls FinishService_default).
Proof. apply evaluations_wf; [done|apply default_wf]. Qed.

(** The receipts of a service reached by evaluations rebuild it. *)
Theorem finish_receipts_rebuild (calls : list (FinishAttempt Value * FinishContext))
    (Hsha : sha256_output finish_sha256) :
  let s := evaluations (StoreError := StoreError) calls FinishService_default in
  from_receipts (StoreError := StoreError) (receipts s) = Ok s.
Proof.
  cbn zeta. pose proof (evaluations_wf (StoreError := StoreError) calls _ Hsha default_wf) as Hwf.
  revert Hwf. generalize (evaluations (StoreError := StoreError) calls FinishService_default).
  intros [m] Hwf. unfold from_receipts, receipts, service_wf in *. simpl in *.
  assert (Hkey : forall kv, kv ∈ btree_iter m -> fr_attempt_id kv.2 = kv.1).
  { intros [k r] Hk%btree_iter_lookup. by apply Hwf in Hk as [? _]. }
  rewrite insert_receipts_ok.
  - simpl. by rewrite insert_all_values; [|intros k r Hk; by apply Hwf in Hk as [? _]].
  - apply Forall_forall. intros r [k Hk]%btree_values_elem. by apply Hwf in Hk as (_ & _ & ?).
  - unfold btree_values. rewrite <- list_fmap_compose.
    replace (_ <$> btree_iter m) with (btree_iter m).*1; [apply btree_iter_NoDup|].
    symmetry. apply list_fmap_ext. intros i kv Hi. apply Hkey. by eapply list_elem_of_lookup_2.
  - intros r _. apply lookup_empty.
Qed.

(** An attempt that was answered is answered with the same receipt
    ever after, whatever is evaluated in between and whatever context it is
    presented with, and nothing changes; another attempt under its identity
    is a conflict as soon as its digest differs. *)
Theorem finish_retry_safe (a a' : FinishAttempt Value) (c c' : FinishContext) (s s' : FinishService)
    (adm : FinishAdmission) (calls : list (FinishAttempt Value * FinishContext))
    (Hok : evaluate (StoreError := StoreError) a c s = (s', Ok adm)) :
  let s2 := evaluations (StoreError := StoreError) calls s' in
  (exists r, (adm = Accepted r \/ adm = Replayed r) /\
     evaluate (StoreError := StoreError) a c' s2 = (s2, Ok (Replayed r))) /\
  (fa_attempt_id a' = fa_attempt_id a -> fa_completion_proof a' = None ->
   attempt_validate (StoreError := StoreError) a' = Ok tt ->
   forall bytes bytes', attempt_json a = Ok bytes -> attempt_json a' = Ok bytes' ->
   sha256_hex finish_sha256 bytes' <> sha256_hex finish_sha256 bytes ->
   evaluate (StoreError := StoreError) a' c' s2 = (s2, Err FeIdentityConflict)).
Proof.
  assert (Hproof : fa_completion_proof a = None).
  { unfold evaluate, mseq, mlift in Hok. by destruct (fa_completion_proof a). }
  apply evaluate_cases in Hok as [(e & [=] & _)|(Hv & bytes & Hj & Hr)].
  assert (exists r, fs_receipts s' !! fa_attempt_id a = Some r /\
            fr_attempt_digest r = sha256_hex finish_sha256 bytes /\
            (adm = Accepted r \/ adm = Replayed r)) as (r & Hk & Hdg & Hadm).
  { destruct Hr as [(r & Hk & Hdg & -> & [= ->])|(r & Hn & Hd & -> & [= ->])].
    - exists r. auto.
    - exists r. apply derive_receipt_ok in Hd as (_ & _ & _ & _ & Hd & _). simpl. rewrite lookup_insert_eq. auto. }
  cbn zeta. apply (evaluations_keep (StoreError := StoreError) calls) in Hk.
  revert Hk. generalize (evaluations (StoreError := StoreError) calls s'). intros s2 Hk.
  unfold evaluate, mseq, mlift, mstate, mret_ok, attempt_digest. split.
  - exists r. split; [done|]. rewrite Hproof, Hv, Hj. simpl. rewrite Hk, Hdg.
    by rewrite bool_decide_eq_true_2.
  - intros Hid Hp' Hv' bytes0 bytes' Hj0 Hj' Hne. rewrite Hp', Hv', Hj', Hid. simpl. rewrite Hk.
    rewrite bool_decide_eq_false_2; [done|]. rewrite Hdg.
    assert (bytes0 = bytes) as -> by congruence. congruence.
Qed.
End Claims.
