(* ===== verification/FinishOwners.v ===== *)
(** * Finishing a task against its owners

    The finish projection of the coordination owner
    (crates/governor/eliot-coordination/src/lib.rs, [finish_projection]) and
    the parts of the governor's finish path that join the task owner, the
    coordination owner and the finish service
    (crates/governor/eliot-governor/src/finish_attempt.rs): the scan of the
    task's own events, the closure authority, the descendant closure, the
    lifecycle and closure-intent maps and the context of an evaluation.

    The verifier facts, observations and plans that the governor joins to the
    same evidence are the arguments of [evidence_of]. *)

From Stdlib Require Import String.
From S2P Require Import Prelude RustText Contracts Receipts Professional Task.
From S2P Require Import CoordinationData Coordination Finish.

#[local] Open Scope string_scope.
#[local] Open Scope Z_scope.

(** ** The coordination owner's projection *)

(** A work item, and the sequence, identity and payload of its last event. *)
Abbreviation TerminalBinding := (string * Z * string * string)%type.

(** The derived order of the tuples. *)
Definition binding_le (a b : TerminalBinding) : Prop :=
  let '(w, s, e, p) := a in
  let '(w', s', e', p') := b in
  (if bool_decide (w = w') then
     if s =? s' then if bool_decide (e = e') then String.le p p' else String.le e e'
     else s < s'
   else String.le w w').

#[global] Instance binding_le_dec : RelDecision binding_le.
Proof.
  intros [[[w s] e] p] [[[w' s'] e'] p']. unfold binding_le.
  repeat match goal with |- context [if ?b then _ else _] => destruct b end; apply _.
Defined.

(** [max_by_key(|event| event.sequence)]: the last of the greatest. *)
Definition max_by_sequence (events : list CoordinationEvent) : option CoordinationEvent :=
  fold_left (fun best e =>
      match best with
      | None => Some e
      | Some b => if ce_sequence b <=? ce_sequence e then Some e else Some b
      end) events None.

Definition latest_event (o : CoordinationOwner) (work_item_id : string) : option CoordinationEvent :=
  max_by_sequence (List.filter (fun e => ce_subject_id e == work_item_id) (co_events o)).

(** Whether the last event of a submitted item carries its result. *)
Definition joins (fence : StateFence) (result_ref : string) (e : CoordinationEvent) : bool :=
  (ce_kind e == EvResultSubmitted) && (ce_state_fence e == fence)
  && (ce_authority_epoch e == authority_epoch fence) && (ce_payload_digest e == result_ref)
  && negb (ce_sequence e =? 0).

(** The vectors [finish_projection] fills. *)
Record Projection : Type := {
  pj_artifact_refs : list string;
  pj_unresolved_refs : list string;
  pj_bindings : list TerminalBinding;
}.

Definition push_artifacts (rs : list string) (p : Projection) : Projection :=
  {| pj_artifact_refs := pj_artifact_refs p ++ rs; pj_unresolved_refs := pj_unresolved_refs p;
     pj_bindings := pj_bindings p |}.

Definition push_unresolved (r : string) (p : Projection) : Projection :=
  {| pj_artifact_refs := pj_artifact_refs p; pj_unresolved_refs := pj_unresolved_refs p ++ [r];
     pj_bindings := pj_bindings p |}.

Definition push_binding (b : TerminalBinding) (p : Projection) : Projection :=
  {| pj_artifact_refs := pj_artifact_refs p; pj_unresolved_refs := pj_unresolved_refs p;
     pj_bindings := pj_bindings p ++ [b] |}.

(** One work item of the task. *)
Definition project_item (o : CoordinationOwner) (fence : StateFence) (p : Projection) (w : WorkItem)
    : CR Projection :=
  check? guard_err (wi_state_fence w != fence) CoordinationData.FenceMismatch;
  let? p :=
    match wi_checkpoint_ref w with
    | Some r =>
        check? guard_err (is_blank r) CoordinationData.InvalidState;
        Ok (push_artifacts [r] p)
    | None => Ok p
    end in
  match wi_state w with
  | Submitted =>
      let? result_ref :=
        ok_or (match wi_result_ref w with
               | Some r => if is_blank r then None else Some r
               | None => None
               end) CoordinationData.InvalidState in
      match latest_event o (wi_work_item_id w) with
      | Some e =>
          if joins fence result_ref e then
            Ok (push_binding (wi_work_item_id w, ce_sequence e, ce_event_id e, ce_payload_digest e)
                  (push_artifacts [result_ref; "coordination:event:" ++ ce_event_id e] p))
          else Ok (push_unresolved ("work:" ++ wi_work_item_id w
                                    ++ ":result-not-joined-to-current-terminal-event") p)
      | None => Ok (push_unresolved ("work:" ++ wi_work_item_id w
                                     ++ ":result-not-joined-to-current-terminal-event") p)
      end
  | Cancelled | CoordinationData.Failed =>
      Ok (push_unresolved ("work:" ++ wi_work_item_id w
                           ++ ":terminal-state-has-no-owner-receipt") p)
  | st => Ok (push_unresolved ("work:" ++ wi_work_item_id w ++ ":" ++ work_state_debug st) p)
  end.

Section Projection.
Variable sha256 : list Z -> list Z.
Variable descendants_json : string -> StateFence -> list TerminalBinding -> result unit (list Z).

Definition task_items (o : CoordinationOwner) (task_id : string) : list WorkItem :=
  List.filter (fun w => wi_task_id w == task_id) (btree_values (co_work o)).

Definition finish_projection (o : CoordinationOwner) (task_id : string) (fence : StateFence)
    : CR FinishCoordinationProjection :=
  check? Coordination.text task_id "finish.task_id";
  check? map_err (fun _ => CoordinationData.FenceMismatch) (StateFence_validate fence);
  let items := task_items o task_id in
  let? p := fold_res (project_item o fence)
              {| pj_artifact_refs := []; pj_unresolved_refs := []; pj_bindings := [] |} items in
  let found := match items with [] => false | _ => true end in
  let artifact_refs := sort_dedup (pj_artifact_refs p) in
  let unresolved_refs := sort_dedup (pj_unresolved_refs p) in
  let bindings := dedup (merge_sort binding_le (pj_bindings p)) in
  let? descendant_receipt_ref :=
    if found && bool_decide (unresolved_refs = []) && negb (bool_decide (bindings = [])) then
      let? bytes := map_err (fun _ => CoordinationData.InvalidState)
                      (descendants_json task_id fence bindings) in
      Ok (Some ("coordination:descendants:" ++ sha256_hex sha256 bytes))
    else Ok None in
  Ok {| fp_task_id := task_id; fp_state_fence := fence; fp_artifact_refs := artifact_refs;
        fp_unresolved_refs :=
          if found then unresolved_refs
          else unresolved_refs ++ ["coordination:no-descendants:" ++ task_id];
        fp_descendant_receipt_ref := descendant_receipt_ref |}.
End Projection.

(** ** The governor's joins *)

(** A task event of this task, fence and committed range. *)
Definition in_task_range (task_id : TaskId) (task : TaskRecord) (fence : StateFence)
    (e : TaskLifecycleEvent) : bool :=
  (ev_task_id e == task_id) && (ev_state_fence e == fence)
  && (ev_authority_epoch e == authority_epoch fence)
  && (0 <? ev_sequence e) && (ev_sequence e <=? tr_last_sequence task).

Definition scan_task_frame_and_authority (events : list TaskLifecycleEvent) (task_id : TaskId)
    (task : TaskRecord) (fence : StateFence) : gset string * option string :=
  fold_left (fun '(frame_refs, authority) e =>
      match ev_command e with
      | Some (CFrame frame_ref) => ({[frame_ref]} ∪ frame_refs, authority)
      | Some (CAuthorizeAction authority_ref _) => (frame_refs, Some authority_ref)
      | _ => (frame_refs, authority)
      end)
    (List.filter (in_task_range task_id task fence) events) (∅, None).

(** The last event of the task, as its record states it. *)
Definition is_last_event (task_id : TaskId) (task : TaskRecord) (fence : StateFence)
    (e : TaskLifecycleEvent) : bool :=
  (ev_task_id e == task_id) && (ev_sequence e =? tr_last_sequence task)
  && (ev_event_id e == tr_last_event_id task) && (ev_to e == tr_state task)
  && (ev_state_fence e == fence) && (ev_authority_epoch e == authority_epoch fence).

Definition owner_disposition_matches (state : TaskState) (command : option TaskCommand)
    (verifier_run_ref : string) : bool :=
  match state, command with
  | DoneVerified, Some (CVerify verification_ref) => verification_ref == verifier_run_ref
  | Task.Partial, Some (CMarkPartial _) => true
  | Task.Failed, Some (CFail _) => true
  | _, _ => false
  end.

Definition task_closure_authority_ref (task_id : TaskId) (task : TaskRecord)
    (events : list TaskLifecycleEvent) (fence : StateFence) (verifier_run_ref : string)
    : option string :=
  match List.find (is_last_event task_id task fence) events with
  | None => None
  | Some e =>
      if owner_disposition_matches (tr_state task) (ev_command e) verifier_run_ref
      then Some ("task-lifecycle:event:" ++ task_id ++ ":" ++ u64_to_string (ev_sequence e)
                 ++ ":" ++ ev_event_id e)
      else None
  end.

(** The projection decides the closure: the receipt of all descendants, or
    the references that are still open. *)
Definition descendant_closure_of (p : FinishCoordinationProjection) : DescendantClosure :=
  match fp_descendant_receipt_ref p with
  | Some receipt_ref => Complete receipt_ref
  | None => Incomplete (sort_dedup (fp_unresolved_refs p))
  end.

(** The evidence of [produce_finish_evidence]; [acceptance], [run_ref] and
    [certified] come from the verifier owner, [observation_refs] from the
    observation owner. *)
Definition evidence_of (task : TaskRecord) (p : FinishCoordinationProjection)
    (frame_refs observation_refs : gset string) (acceptance : list AcceptanceCoverage)
    (run_ref : string) (certified : bool) : FinishEvidence :=
  {| fe_task_id := tr_task_id task; fe_current_task_revision := tr_revision task;
     fe_artifact_refs := sort_dedup (fp_artifact_refs p ++ btree_set_iter frame_refs
       ++ btree_set_iter observation_refs
       ++ match fp_descendant_receipt_ref p with Some r => [r] | None => [] end);
     fe_acceptance := acceptance;
     fe_executed_verifier_run_refs := [run_ref];
     fe_stale_verifier_run_refs := if certified then [] else [run_ref];
     fe_unresolved_effect_refs := sort_dedup (fp_unresolved_refs p) |}.

Definition lifecycle_state (s : TaskState) : TaskLifecycleState :=
  match s with
  | Task.Proposed => LcProposed
  | Open => LcOpen
  | Framed => LcFramed
  | Verifying => LcVerifying
  | Task.Blocked => LcBlocked
  | UnderstandingRequired | ActionAuthorized | Executing => LcActive
  | DoneVerified | Task.Failed | Task.Partial => LcClosing
  end.

Definition closure_intent (outcome : RequestedFinishOutcome) : FinishClosureIntent :=
  match outcome with
  | ReqCancelled => IntentCancel
  | ReqSuperseded => IntentSupersede
  | _ => IntentContinue
  end.

(** The context of [prepare_finish_decision]. The code fills closure
    authority, descendant closure and evidence from the image the attempt has
    persisted, checked again for its task and revision only; here they are
    arguments. *)
Definition finish_context_of (task : TaskRecord) (fence : StateFence) (authority_ref : string)
    (closure_ref : option string) (closure : DescendantClosure) (evidence : FinishEvidence)
    : FinishContext :=
  {| fc_task_id := tr_task_id task; fc_current_task_revision := tr_revision task;
     fc_current_state_fence := fence; fc_lifecycle := lifecycle_state (tr_state task);
     fc_finish_authority_ref := authority_ref; fc_closure_authority_ref := closure_ref;
     fc_descendant_closure := closure; fc_evidence := evidence |}.

(** The attempt of [prepare_finish_decision]. *)
Definition finish_attempt_of {Value} (attempt_id : string) (fence : StateFence)
    (draft : FinishAttemptDraft) : FinishAttempt Value :=
  {| fa_attempt_id := attempt_id; fa_state_fence := fence; fa_draft := draft;
     fa_closure_intent := closure_intent (fd_requested_outcome draft);
     fa_completion_proof := None |}.
