(* ===== verification/FinishTheorems.v ===== *)
(** * Finishing a task: theorems across the owners

    A task is closed only when the coordination owner shows every work item
    of it submitted under the current fence and the task owner's own last
    event carries the disposition. *)

From Stdlib Require Import String.
From S2P Require Import Prelude RustText Contracts Receipts Professional Task.
From S2P Require Import CoordinationData Coordination Finish FinishLaws FinishOwners.

#[local] Open Scope string_scope.
#[local] Open Scope Z_scope.

(** ** The last event of an item *)

Lemma max_by_sequence_spec l : forall best e,
  fold_left (fun best e =>
      match best with
      | None => Some e
      | Some b => if ce_sequence b <=? ce_sequence e then Some e else Some b
      end) l best = Some e ->
  (best = Some e \/ e ∈ l) /\ (forall b, best = Some b -> ce_sequence b <= ce_sequence e) /\
  (forall x, x ∈ l -> ce_sequence x <= ce_sequence e).
Proof.
  induction l as [|x l IH]; intros best e H; simpl in H.
  - subst. split_and!; [by left|naive_solver lia|set_solver].
  - apply IH in H as ([Hin|Hin] & Hb & Hl); destruct best as [b|].
    + destruct (Z.leb_spec (ce_sequence b) (ce_sequence x)).
      * injection Hin as <-. split_and!; [right; left|naive_solver lia|].
        intros y [->|Hy]%elem_of_cons; [lia|auto].
      * injection Hin as <-. split_and!; [by left|naive_solver lia|].
        intros y [->|Hy]%elem_of_cons; [lia|auto].
    + injection Hin as <-. split_and!; [right; left|done|].
      intros y [->|Hy]%elem_of_cons; [lia|auto].
    + split_and!; [right; by right| |].
      * intros b' [= <-]. destruct (Z.leb_spec (ce_sequence b) (ce_sequence x));
          specialize (Hb _ eq_refl); lia.
      * intros y [->|Hy]%elem_of_cons; [|auto].
        destruct (Z.leb_spec (ce_sequence b) (ce_sequence x)); specialize (Hb _ eq_refl); lia.
    + split_and!; [right; by right|done|]. intros y [->|Hy]%elem_of_cons; [|auto]. by apply Hb.
Qed.

Lemma latest_event_spec o id e :
  latest_event o id = Some e ->
  e ∈ co_events o /\ ce_subject_id e = id /\
  (forall x, x ∈ co_events o -> ce_subject_id x = id -> ce_sequence x <= ce_sequence e).
Proof.
  unfold latest_event, max_by_sequence. intros H. apply max_by_sequence_spec in H as ([H|H] & _ & Hm); [done|].
  apply list_elem_of_In, filter_In in H as [Hin Hs]. bool_facts. split_and!; [by apply list_elem_of_In|done|].
  intros x Hx Hxs. apply Hm, list_elem_of_In, filter_In. split; [by apply list_elem_of_In|].
  by apply bool_decide_eq_true.
Qed.

(** ** What a projection shows *)

(** A work item whose submitted result is the last thing the log says of it,
    under this fence. *)
Definition settled (o : CoordinationOwner) (fence : StateFence) (w : WorkItem) : Prop :=
  wi_state w = Submitted /\
  exists r e, wi_result_ref w = Some r /\ is_blank r = false /\
    latest_event o (wi_work_item_id w) = Some e /\
    ce_kind e = EvResultSubmitted /\ ce_payload_digest e = r /\ ce_state_fence e = fence /\
    ce_authority_epoch e = authority_epoch fence /\ ce_sequence e <> 0.

(** The same, on the log itself. *)
Definition submission_is_last (o : CoordinationOwner) (fence : StateFence) (w : WorkItem) : Prop :=
  wi_state w = Submitted /\
  exists e, e ∈ co_events o /\ ce_subject_id e = wi_work_item_id w /\
    (forall x, x ∈ co_events o -> ce_subject_id x = wi_work_item_id w ->
       ce_sequence x <= ce_sequence e) /\
    ce_kind e = EvResultSubmitted /\ wi_result_ref w = Some (ce_payload_digest e) /\
    ce_state_fence e = fence.

Lemma settled_last o fence w : settled o fence w -> submission_is_last o fence w.
Proof.
  intros (Hs & r & e & Hr & _ & (Hin & Hsub & Hmax)%latest_event_spec & Hk & <- & Hf & _).
  split; [done|]. by exists e.
Qed.

Lemma joins_iff fence r e :
  joins fence r e = true <->
  ce_kind e = EvResultSubmitted /\ ce_payload_digest e = r /\ ce_state_fence e = fence /\
  ce_authority_epoch e = authority_epoch fence /\ ce_sequence e <> 0.
Proof.
  unfold joins. rewrite !andb_true_iff, !bool_decide_eq_true, negb_true_iff, Z.eqb_neq. tauto.
Qed.

Lemma project_item_ok o fence p w p' :
  project_item o fence p w = Ok p' ->
  wi_state_fence w = fence /\
  ((settled o fence w /\ pj_unresolved_refs p' = pj_unresolved_refs p /\
    length (pj_bindings p') = S (length (pj_bindings p))) \/
   (~ settled o fence w /\ pj_unresolved_refs p' <> [] /\ pj_bindings p' = pj_bindings p)).
Proof.
  unfold project_item. rewrite check_guard_ok. intros [Hf H]. bool_facts. split; [done|].
  apply rbind_ok in H as (p0 & Hp0 & H).
  assert (Hu : pj_unresolved_refs p0 = pj_unresolved_refs p /\ pj_bindings p0 = pj_bindings p).
  { destruct (wi_checkpoint_ref w); [|by injection Hp0 as <-].
    rewrite check_guard_ok in Hp0. by destruct Hp0 as [_ [= <-]]. }
  destruct Hu as [Hu Hb].
  assert (Hpush : forall r, pj_unresolved_refs (push_unresolved r p0) <> [])
    by (intros r; simpl; by destruct (pj_unresolved_refs p0)).
  destruct (wi_state w) eqn:Hs; try (injection H as <-; right; split_and!;
    [by intros [? _]; congruence|apply Hpush|done]).
  apply rbind_ok in H as (r & Hr & H).
  destruct (wi_result_ref w) as [r'|] eqn:Hres; [|done].
  destruct (is_blank r') eqn:Hbl; [done|]. injection Hr as ->.
  destruct (latest_event o (wi_work_item_id w)) as [e|] eqn:He; [destruct (joins fence r e) eqn:Hj|];
    injection H as <-.
  - left. split_and!; [|done|].
    + split; [done|]. exists r, e. by rewrite <- joins_iff.
    + simpl. rewrite length_app, Hb. simpl. lia.
  - right. split_and!; [|apply Hpush|done]. intros (_ & r0 & e0 & Hr0 & _ & He0 & Hj0%joins_iff). congruence.
  - right. split_and!; [|apply Hpush|done]. intros (_ & r0 & e0 & Hr0 & _ & He0 & Hj0%joins_iff). congruence.
Qed.

Lemma project_items_ok o fence l : forall p p',
  fold_res (project_item o fence) p l = Ok p' ->
  Forall (fun w => wi_state_fence w = fence) l /\
  (pj_unresolved_refs p' = [] <-> pj_unresolved_refs p = [] /\ Forall (settled o fence) l) /\
  (Forall (settled o fence) l -> length (pj_bindings p') = (length (pj_bindings p) + length l)%nat).
Proof.
  induction l as [|w l IH]; intros p p' H; simpl in H.
  - injection H as <-. split_and!; [constructor| |simpl; lia]. split; [|by intros [? _]].
    intros Hu. split; [done|constructor].
  - apply rbind_ok in H as (p1 & Hp1 & H). apply IH in H as (Hf & Hu & Hb).
    apply project_item_ok in Hp1 as (Hw & [(Hs & Hu1 & Hb1)|(Hs & Hu1 & Hb1)]).
    + split_and!; [by constructor| |].
      * rewrite Hu, Hu1, Forall_cons. naive_solver.
      * intros [_ Hl]%Forall_cons. rewrite Hb, Hb1 by done. simpl. lia.
    + split_and!; [by constructor| |].
      * rewrite Hu, Forall_cons. naive_solver.
      * intros [Hs' _]%Forall_cons. done.
Qed.

Lemma merge_dedup_nil {A} `{EqDecision A} (R : relation A) `{!RelDecision R} l :
  dedup (merge_sort R l) = [] <-> l = [].
Proof.
  split; [|by intros ->]. intros H. destruct l as [|x l]; [done|]. exfalso.
  apply (not_elem_of_nil x). rewrite <- H, elem_of_dedup, merge_sort_Permutation. left.
Qed.

Lemma task_items_elem o task_id w :
  w ∈ task_items o task_id <-> (exists k, co_work o !! k = Some w) /\ wi_task_id w = task_id.
Proof.
  unfold task_items. rewrite list_elem_of_In, filter_In, <- list_elem_of_In, btree_values_elem.
  by rewrite bool_decide_eq_true.
Qed.

Section Finishing.
Variable sha256 : list Z -> list Z.
Variable descendants_json : string -> StateFence -> list TerminalBinding -> result unit (list Z).

Abbreviation finish_projection := (finish_projection sha256 descendants_json).

(** The projection, item by item. *)
Lemma finish_projection_cases (o : CoordinationOwner) (task_id : string) (fence : StateFence)
    (p : FinishCoordinationProjection) (H : finish_projection o task_id fence = Ok p) :
  (is_Some (fp_descendant_receipt_ref p) <->
   (exists k w, co_work o !! k = Some w /\ wi_task_id w = task_id) /\
   forall k w, co_work o !! k = Some w -> wi_task_id w = task_id -> settled o fence w) /\
  (fp_descendant_receipt_ref p = None <-> fp_unresolved_refs p <> []) /\
  (forall k w, co_work o !! k = Some w -> wi_task_id w = task_id -> wi_state_fence w = fence).
Proof.
  unfold FinishOwners.finish_projection in H. rewrite !check_ok in H. destruct H as (_ & _ & H).
  cbn zeta in H. apply rbind_ok in H as (pj & Hpj & H). apply rbind_ok in H as (rcpt & Hr & [= <-]).
  apply project_items_ok in Hpj as (Hf & Hu & Hb). simpl in *.
  assert (Hall : Forall (settled o fence) (task_items o task_id) <->
    forall k w, co_work o !! k = Some w -> wi_task_id w = task_id -> settled o fence w).
  { rewrite Forall_forall. setoid_rewrite task_items_elem. naive_solver. }
  assert (Hne : task_items o task_id <> [] <->
    exists k w, co_work o !! k = Some w /\ wi_task_id w = task_id).
  { split.
    - destruct (task_items o task_id) as [|w l] eqn:E; [done|]. intros _.
      assert (Hw : w ∈ task_items o task_id) by (rewrite E; left).
      apply task_items_elem in Hw as [[k Hk] Ht]. by exists k, w.
    - intros (k & w & Hk & Ht) E. apply (not_elem_of_nil w). rewrite <- E.
      apply task_items_elem. eauto. }
  rewrite <- Hall, <- Hne. revert Hr Hb Hu Hf.
  destruct (task_items o task_id) as [|w l] eqn:E; intros Hr Hb Hu Hf.
  - simpl in Hr. injection Hr as <-. split_and!.
    + split; [by intros [? ?]|by intros [? _]].
    + split; [|done]. intros _. by destruct (sort_dedup _).
    + intros k w Hk Ht. exfalso. apply (proj2 Hne); [by eauto|done].
  - simpl in Hr. rewrite (bool_decide_ext _ (pj_unresolved_refs pj = [])) in Hr by apply sort_dedup_nil.
    assert (Hwf : forall k w', co_work o !! k = Some w' -> wi_task_id w' = task_id ->
                  wi_state_fence w' = fence).
    { intros k w' Hk Ht. rewrite Forall_forall in Hf. apply Hf. rewrite <- E. apply task_items_elem. eauto. }
    destruct (bool_decide (pj_unresolved_refs pj = [])) eqn:Hbd; bool_facts.
    + apply Hu in Hbd as Hs. destruct Hs as [_ Hs]. specialize (Hb Hs).
      rewrite bool_decide_eq_false_2 in Hr.
      2: { rewrite merge_dedup_nil. intros Hn. rewrite Hn in Hb. simpl in Hb. lia. }
      simpl in Hr. apply rbind_ok in Hr as (bytes & _ & [= <-]). split_and!; [|split; [done|]|done].
      * split; [done|]. intros _. by eexists.
      * intros Hn. exfalso. apply Hn. by apply sort_dedup_nil.
    + injection Hr as <-. split_and!; [|split; [|done]|done].
      * split; [by intros [? ?]|]. intros [_ Hs]. exfalso. apply Hbd, Hu. done.
      * intros _ Hn. by apply (proj1 (sort_dedup_nil _)) in Hn.
Qed.

(** The coordination owner certifies the descendants of a task
    exactly when the task has work and each item of it is settled: submitted
    under the fence, with the submission of that very result as the last
    event of the log about it. Without a certificate it names what is open. *)
Theorem finish_projection_exact (o : CoordinationOwner) (task_id : string) (fence : StateFence)
    (p : FinishCoordinationProjection) (H : finish_projection o task_id fence = Ok p) :
  (is_Some (fp_descendant_receipt_ref p) <->
   (exists k w, co_work o !! k = Some w /\ wi_task_id w = task_id) /\
   forall k w, co_work o !! k = Some w -> wi_task_id w = task_id -> settled o fence w) /\
  (fp_descendant_receipt_ref p = None <-> fp_unresolved_refs p <> []) /\
  (forall k w, co_work o !! k = Some w -> wi_task_id w = task_id -> wi_state_fence w = fence).
Proof. exact (finish_projection_cases _ _ _ _ H). Qed.

(** The disposition that lets a task be closed: its own last event, under the
    fence, is the verification by this run, or declares the task partial or
    failed. *)
Definition disposed (task : TaskRecord) (events : list TaskLifecycleEvent) (fence : StateFence)
    (run_ref : string) : Prop :=
  exists e, e ∈ events /\ ev_task_id e = tr_task_id task /\ ev_sequence e = tr_last_sequence task /\
    ev_to e = tr_state task /\ ev_state_fence e = fence /\
    ((tr_state task = DoneVerified /\ ev_command e = Some (CVerify run_ref)) \/
     (tr_state task = Task.Partial /\ exists ref, ev_command e = Some (CMarkPartial ref)) \/
     (tr_state task = Task.Failed /\ exists ref, ev_command e = Some (CFail ref))).

Lemma closure_authority_disposed task events fence run_ref ref :
  task_closure_authority_ref (tr_task_id task) task events fence run_ref = Some ref ->
  disposed task events fence run_ref.
Proof.
  unfold task_closure_authority_ref.
  destruct (List.find _ events) as [e|] eqn:Hfind; [|done].
  apply List.find_some in Hfind as [Hin Hlast]. unfold is_last_event in Hlast. bool_facts.
  case_match eqn:Hm; [|done]. intros _. exists e. split; [by apply list_elem_of_In|].
  split_and!; try done; [lia|]. unfold owner_disposition_matches in Hm.
  destruct (tr_state task); try done; destruct (ev_command e) as [[]|]; try done; bool_facts;
    subst; eauto 6.
Qed.

(** C26. The governor's finish path closes a task only when it is
    settled everywhere: the coordination owner has work for it, and every
    item is submitted, with that submission under the current fence as the
    last event about it; the task owner's own last event carries the
    disposition; and a closure as completed moreover has every acceptance
    item satisfied and, if any of them needs a verifier, the run certified. *)
Theorem finish_closes_only_settled {StoreError Value : Type} `{FinishWire Value}
    (o : CoordinationOwner) (task : TaskRecord) (events : list TaskLifecycleEvent)
    (fence : StateFence) (p : FinishCoordinationProjection) (attempt_id authority_ref run_ref : string)
    (frames observations : gset string) (acceptance : list AcceptanceCoverage) (certified : bool)
    (draft : FinishAttemptDraft) (s s' : FinishService) (r : FinishDecisionReceipt)
    (Hp : finish_projection o (tr_task_id task) fence = Ok p)
    (Hev : evaluate (StoreError := StoreError) (Value := Value)
             (finish_attempt_of attempt_id fence draft)
             (finish_context_of task fence authority_ref
                (task_closure_authority_ref (tr_task_id task) task events fence run_ref)
                (descendant_closure_of p)
                (evidence_of task p frames observations acceptance run_ref certified)) s
           = (s', Ok (Accepted r)))
    (Hcl : closes (fr_lifecycle_action r) = true) :
  (exists k w, co_work o !! k = Some w /\ wi_task_id w = tr_task_id task) /\
  (forall k w, co_work o !! k = Some w -> wi_task_id w = tr_task_id task ->
     submission_is_last o fence w) /\
  disposed task events fence run_ref /\
  (fr_lifecycle_action r = CloseCompleted ->
   forall item, item ∈ acceptance -> av_satisfied item = true /\
     (av_requires_verifier item = true -> certified = true /\ run_ref ∈ av_verifier_run_refs item)).
Proof.
  set (a := finish_attempt_of attempt_id fence draft) in Hev.
  set (c := finish_context_of _ _ _ _ _ _) in Hev.
  apply evaluate_cases in Hev as [(e & [=] & _)|(Hv & bytes & _ & [(rc & _ & _ & _ & [=])
    |(rc & _ & Hd & _ & [= <-])])].
  pose proof (derive_receipt_sound _ _ _ _ Hd) as Hsound.
  apply derive_receipt_ok in Hd as (Hc & Hdec & Hact & _ & _ & Hauth & _ & Hunr).
  assert (Hnp : fr_lifecycle_action r <> ClosePartial).
  { intros Hcp. rewrite Hcp in Hact. unfold lifecycle_action in Hact. cbn zeta in Hact.
    rewrite check_guard_ok in Hact. destruct Hact as [_ [= Hact]].
    destruct (fn_outcome (fr_decision r)); try done; [case_bool_decide as Hi; [|done]|case_bool_decide; done].
    unfold a, finish_attempt_of in Hi. simpl in Hi. by destruct (fd_requested_outcome draft). }
  pose proof (rs_descendants _ Hsound Hcl Hnp) as Hopen. rewrite Hunr in Hopen.
  pose proof (proj1 (context_closure_ok _ Hc) Hopen) as Hcomp.
  assert (Hrcpt : is_Some (fp_descendant_receipt_ref p)).
  { unfold c in Hcomp. simpl in Hcomp. unfold descendant_closure_of in Hcomp.
    destruct (fp_descendant_receipt_ref p); [by eexists|done]. }
  apply (finish_projection_cases _ _ _ _ Hp) in Hrcpt as [Hsome Hall].
  destruct (rs_authority _ Hsound Hcl) as [ref Href]. rewrite Hauth in Href.
  split_and!; [done|by eauto using settled_last|by eapply closure_authority_disposed|].
  intros Hcc item Hitem.
  apply (rs_complete _ Hsound) in Hcc. apply (decision_complete _ _ _ Hdec) in Hcc as [_ Hcf].
  assert (He : joined_evidence c = fc_evidence c) by (unfold joined_evidence; by rewrite Hopen).
  rewrite He in Hcf. split; [by apply (cf_satisfied _ _ Hcf)|]. intros Hreq.
  pose proof (cf_bound _ _ Hcf item Hitem Hreq) as Hne.
  pose proof (fun v => cf_proven _ _ Hcf item v Hitem Hreq) as Hpr. simpl in Hpr.
  destruct (av_verifier_run_refs item) as [|v l]; [done|]. destruct (Hpr v ltac:(left)) as [Hx Hst].
  apply list_elem_of_singleton in Hx as ->. split; [|left]. destruct certified; [done|]. set_solver.
Qed.
End Finishing.
