(* ===== verification/FinishFindings.v ===== *)
(** * Finishing a task: sample runs

    The theorems of the finish path at concrete owners, and what the code
    lets through or blocks against its own documentation. *)

From Stdlib Require Import String.
From S2P Require Import Prelude RustText Contracts Receipts Professional Task.
From S2P Require Import CoordinationData Coordination WorkLeaseIssuance CoordinationLaws.
From S2P Require Import CoordinationTheorems CoordinationFindings.
From S2P Require Import Finish FinishLaws FinishOwners FinishTheorems.

#[local] Open Scope string_scope.
#[local] Open Scope Z_scope.

(** ** Samples *)

(** A wire whose proofs and receipts are empty and whose attempts are their
    identity, and a store that never fails. *)
#[local] Instance sample_wire : FinishWire Empty_set := {
  finish_sha256 := zero_sha256;
  proof_json := fun _ => Ok [];
  attempt_json := fun a => Ok (bytes (fa_attempt_id a));
  receipt_json := fun _ => Ok [];
}.

Abbreviation SampleAttempt := (FinishAttempt Empty_set).
Abbreviation eval := (evaluate (StoreError := Empty_set)).
Abbreviation evals := (evaluations (StoreError := Empty_set)).
Abbreviation projection := (finish_projection padded_hash (fun _ _ _ => Ok [])).

Definition sample_draft (outcome : RequestedFinishOutcome) : FinishAttemptDraft :=
  {| fd_task_id := "task"; fd_expected_task_revision := 3; fd_requested_outcome := outcome;
     fd_artifact_refs := ["blob"]; fd_observation_refs := []; fd_verifier_run_refs := ["run-1"];
     fd_remaining_unknowns_declared_by_caller := []; fd_rationale_candidate := "done" |}.

Definition sample_coverage : AcceptanceCoverage :=
  {| av_item_id := "a-1"; av_satisfied := true; av_evidence_refs := ["ev-1"];
     av_verifier_run_refs := ["run-1"]; av_requires_verifier := true |}.

Definition sample_evidence : FinishEvidence :=
  {| fe_task_id := "task"; fe_current_task_revision := 3; fe_artifact_refs := ["blob"];
     fe_acceptance := [sample_coverage]; fe_executed_verifier_run_refs := ["run-1"];
     fe_stale_verifier_run_refs := []; fe_unresolved_effect_refs := [] |}.

Definition sample_context (closure : DescendantClosure) : FinishContext :=
  {| fc_task_id := "task"; fc_current_task_revision := 3; fc_current_state_fence := sample_fence;
     fc_lifecycle := LcClosing; fc_finish_authority_ref := "authority";
     fc_closure_authority_ref := Some "owner"; fc_descendant_closure := closure;
     fc_evidence := sample_evidence |}.

Definition sample_attempt (id : string) (outcome : RequestedFinishOutcome)
    (intent : FinishClosureIntent) : SampleAttempt :=
  {| fa_attempt_id := id; fa_state_fence := sample_fence; fa_draft := sample_draft outcome;
     fa_closure_intent := intent; fa_completion_proof := None |}.

Definition sample_calls : list (SampleAttempt * FinishContext) :=
  [(sample_attempt "f-1" ReqCompleteCandidate IntentContinue, sample_context (Complete "all"));
   (sample_attempt "f-2" ReqCancelled IntentCancel, sample_context (Incomplete ["work:x"]))].

Lemma verified_complete_exact_witness :
  exists dec, derive_finish_decision (StoreError := Empty_set) (sample_draft ReqCompleteCandidate)
      sample_evidence = Ok dec /\ fn_outcome dec = OutVerifiedComplete /\
    complete_for (sample_draft ReqCompleteCandidate) sample_evidence.
Proof.
  destruct (derive_finish_decision (StoreError := Empty_set) (sample_draft ReqCompleteCandidate)
    sample_evidence) as [dec|e] eqn:E; [|vm_compute in E; discriminate].
  exists dec. split; [reflexivity|].
  destruct (verified_complete_exact _ _ _ E) as (Hex & _ & _).
  assert (Ho : fn_outcome dec = OutVerifiedComplete)
    by (vm_compute in E; injection E as <-; reflexivity).
  split; [exact Ho|]. apply (proj1 Hex Ho).
Defined.

Lemma finish_service_sound_witness :
  sha256_output zero_sha256 /\
  service_wf (StoreError := Empty_set) (evals sample_calls FinishService_default) /\
  size (fs_receipts (evals sample_calls FinishService_default)) = 2%nat.
Proof.
  split; [exact zero_sha256_output|]. split; [|vm_compute; reflexivity].
  apply (finish_service_sound sample_calls). exact zero_sha256_output.
Defined.

Lemma finish_receipts_rebuild_witness :
  from_receipts (StoreError := Empty_set) (receipts (evals sample_calls FinishService_default)) =
  Ok (evals sample_calls FinishService_default).
Proof. apply (finish_receipts_rebuild sample_calls). exact zero_sha256_output. Defined.

Lemma finish_retry_safe_witness :
  exists s adm, eval (sample_attempt "f-1" ReqCompleteCandidate IntentContinue)
      (sample_context (Complete "all")) FinishService_default = (s, Ok adm) /\
    exists r, (adm = Accepted r \/ adm = Replayed r) /\
      eval (sample_attempt "f-1" ReqCompleteCandidate IntentContinue)
        (sample_context (Unknown "lost")) (evals sample_calls s) =
      (evals sample_calls s, Ok (Replayed r)).
Proof.
  destruct (eval (sample_attempt "f-1" ReqCompleteCandidate IntentContinue)
    (sample_context (Complete "all")) FinishService_default) as [s [adm|e]] eqn:E.
  - exists s, adm. split; [reflexivity|].
    exact (proj1 (finish_retry_safe _ (sample_attempt "f-9" ReqPartial IntentContinue) _
      (sample_context (Unknown "lost")) _ _ _ sample_calls E)).
  - exfalso. apply (f_equal (fun x => is_ok x.2)) in E. vm_compute in E. discriminate.
Defined.

(** Both items of the task submitted by their holders. *)
Definition all_submitted : list Call :=
  (two_claims ++ [CallSubmitResult (sample_result "submit-1" "lease-1" "session-1" "item-1");
                  CallSubmitResult (sample_result "submit-2" "lease-2" "session-2" "item-2")])%list.

Lemma finish_projection_exact_witness :
  exists p, projection (run all_submitted owner_new) "task" sample_fence = Ok p /\
    is_Some (fp_descendant_receipt_ref p) /\
    forall k w, co_work (run all_submitted owner_new) !! k = Some w -> wi_task_id w = "task" ->
      settled (run all_submitted owner_new) sample_fence w.
Proof.
  destruct (projection (run all_submitted owner_new) "task" sample_fence) as [p|e] eqn:E.
  - exists p. split; [reflexivity|].
    destruct (finish_projection_exact _ _ _ _ _ _ E) as (Hex & _ & _).
    assert (Hs : is_some (fp_descendant_receipt_ref p) = true).
    { apply (f_equal (fun x => match x with Ok p => is_some (fp_descendant_receipt_ref p)
                                          | Err _ => true end)) in E.
      vm_compute in E. symmetry. exact E. }
    assert (Hi : is_Some (fp_descendant_receipt_ref p))
      by (destruct (fp_descendant_receipt_ref p); [by eexists|discriminate]).
    split; [exact Hi|]. exact (proj2 (proj1 Hex Hi)).
  - exfalso. apply (f_equal is_ok) in E. vm_compute in E. discriminate.
Defined.

(** The task owner with the task proposed, opened, framed and authorized, and
    then taken further by the commands [cs]. *)
Definition task_cx (rid : string) : TaskCommandContext :=
  {| cx_request_id := rid; cx_event_id := "ev-" ++ rid; cx_actor_ref := "controller";
     cx_state_fence := sample_fence; cx_authority_epoch := sample_epoch;
     cx_observed_at := ClockReading_default |}.

Definition task_run (cs : list (string * TaskCommand)) : TaskLifecycleOwner :=
  run_calls
    (Task.CallPropose {| tp_task_id := "task"; tp_project_ref := "project"; tp_goal := "goal";
                         tp_context := task_cx "t-0" |}
     :: map (fun rc => Task.CallApply "task" (task_cx rc.1) rc.2)
          ([("t-1", COpen); ("t-2", CFrame "frame"); ("t-3", CRequireUnderstanding);
            ("t-4", CAuthorizeAction "authority" "understanding")] ++ cs))%list
    {| ow_authority_epoch := sample_epoch; ow_state_fence := sample_fence; ow_next_sequence := 1;
       ow_tasks := ∅; ow_events := []; ow_professional_execution := ∅; ow_requests := ∅ |}.

Definition verified_task : TaskLifecycleOwner :=
  task_run [("t-5", CBeginExecution); ("t-6", CBeginVerification); ("t-7", CVerify "run-1")].

Definition failed_task : TaskLifecycleOwner := task_run [("t-5", CFail "broken")].

(** The governor's evaluation of a draft against a task owner and a
    coordination owner; [None] when the task is absent or the projection is
    refused. *)
Definition finish_draft (task : TaskRecord) (outcome : RequestedFinishOutcome) : FinishAttemptDraft :=
  {| fd_task_id := tr_task_id task; fd_expected_task_revision := tr_revision task;
     fd_requested_outcome := outcome; fd_artifact_refs := ["blob"];
     fd_observation_refs := []; fd_verifier_run_refs := ["run-1"];
     fd_remaining_unknowns_declared_by_caller := []; fd_rationale_candidate := "done" |}.

Definition finish_task (t : TaskLifecycleOwner) (o : CoordinationOwner)
    (outcome : RequestedFinishOutcome)
    : option (FinishService * result (FinishError Empty_set) FinishAdmission) :=
  match ow_tasks t !! "task" with
  | Some task =>
      match projection o (tr_task_id task) sample_fence with
      | Ok p =>
          let scan := scan_task_frame_and_authority (ow_events t) (tr_task_id task) task sample_fence in
          Some (eval (finish_attempt_of "f-1" sample_fence (finish_draft task outcome))
            (finish_context_of task sample_fence (default "" scan.2)
               (task_closure_authority_ref (tr_task_id task) task (ow_events t) sample_fence "run-1")
               (descendant_closure_of p)
               (evidence_of task p scan.1 ∅ [sample_coverage] "run-1" true)) FinishService_default)
      | Err _ => None
      end
  | None => None
  end.

Definition finish_action (x : option (FinishService * result (FinishError Empty_set) FinishAdmission))
    : option FinishLifecycleAction :=
  match x with
  | Some (_, Ok (Accepted r)) => Some (fr_lifecycle_action r)
  | _ => None
  end.

(** A verified task with its work submitted is closed as completed. *)
Example verified_task_closes :
  finish_action (finish_task verified_task (run all_submitted owner_new) ReqCompleteCandidate)
  = Some CloseCompleted.
Proof. vm_compute. reflexivity. Qed.

(** With one item still claimed it is blocked. *)
Example open_work_blocks :
  finish_action (finish_task verified_task
    (run (two_claims ++ submit_one)%list owner_new) ReqCompleteCandidate) = Some EnterBlocked.
Proof. vm_compute. reflexivity. Qed.

(** A task whose owner declared it failed is closed as completed when the
    evidence is complete: the disposition that the closure authority stands
    for is not compared with the action it authorizes. *)
Theorem failed_task_closes_completed :
  tr_state <$> ow_tasks failed_task !! "task" = Some Task.Failed /\
  finish_action (finish_task failed_task (run all_submitted owner_new) ReqCompleteCandidate)
  = Some CloseCompleted.
Proof. vm_compute. done. Qed.

(** Work items, sessions, candidates and scopes share one name space of
    subjects: a session registered under the name of a submitted item is the
    last event about it, so that the result no longer joins and the task
    cannot be finished. *)
Theorem shared_subject_blocks_finish :
  let o := run all_submitted owner_new in
  let o' := run (all_submitted ++ [sample_session "item-1"])%list owner_new in
  finish_action (finish_task verified_task o ReqCompleteCandidate) = Some CloseCompleted /\
  finish_action (finish_task verified_task o' ReqCompleteCandidate) = Some EnterBlocked /\
  (fp_unresolved_refs <$> match projection o' "task" sample_fence with Ok p => Some p | Err _ => None end)
  = Some ["work:item-1:result-not-joined-to-current-terminal-event"].
Proof. vm_compute. done. Qed.

(** A partial closure is accepted while descendants are open. *)
Theorem partial_closure_leaves_descendants :
  exists s r,
    eval (sample_attempt "f-1" ReqPartial IntentClosePartial) (sample_context (Incomplete ["work:x"]))
      FinishService_default = (s, Ok (Accepted r)) /\
    fr_lifecycle_action r = ClosePartial /\ fr_unresolved_descendant_refs r = ["work:x"].
Proof.
  destruct (eval (sample_attempt "f-1" ReqPartial IntentClosePartial)
    (sample_context (Incomplete ["work:x"])) FinishService_default) as [s x] eqn:E.
  vm_compute in E. injection E as <- <-. by eexists _, _.
Qed.

(** The accepted receipt of an evaluation. *)
Definition accepted_receipt (x : option (FinishService * result (FinishError Empty_set) FinishAdmission))
    : option FinishDecisionReceipt :=
  match x with
  | Some (_, Ok (Accepted r)) => Some r
  | _ => None
  end.

Lemma finish_task_evaluates t o outcome r :
  accepted_receipt (finish_task t o outcome) = Some r ->
  exists task p scan s, ow_tasks t !! "task" = Some task /\
    projection o (tr_task_id task) sample_fence = Ok p /\
    eval (finish_attempt_of "f-1" sample_fence (finish_draft task outcome))
      (finish_context_of task sample_fence (default "" scan.2)
         (task_closure_authority_ref (tr_task_id task) task (ow_events t) sample_fence "run-1")
         (descendant_closure_of p)
         (evidence_of task p scan.1 ∅ [sample_coverage] "run-1" true)) FinishService_default
    = (s, Ok (Accepted r)).
Proof.
  unfold finish_task. destruct (ow_tasks t !! "task") as [task|]; [|done].
  destruct (projection o (tr_task_id task) sample_fence) as [p|] eqn:Hp; [|done].
  cbn zeta. set (scan := scan_task_frame_and_authority _ _ _ _).
  destruct (eval _ _ _) as [s [[r'|r']|e]] eqn:He; simpl; try done. intros [= ->].
  exists task, p, scan, s. exact (conj eq_refl (conj Hp He)).
Qed.

Lemma finish_closes_only_settled_witness :
  exists task r,
    ow_tasks verified_task !! "task" = Some task /\
    accepted_receipt (finish_task verified_task (run all_submitted owner_new) ReqCompleteCandidate)
      = Some r /\
    (forall k w, co_work (run all_submitted owner_new) !! k = Some w ->
       wi_task_id w = tr_task_id task -> submission_is_last (run all_submitted owner_new) sample_fence w) /\
    disposed task (ow_events verified_task) sample_fence "run-1".
Proof.
  destruct (found (accepted_receipt (finish_task verified_task (run all_submitted owner_new)
    ReqCompleteCandidate)) (fun r => closes (fr_lifecycle_action r))) as (r & Hr & Hcl);
    [vm_compute; reflexivity|].
  destruct (finish_task_evaluates _ _ _ _ Hr) as (task & p & scan & s & Ht & Hp & He).
  exists task, r. refine (conj Ht (conj Hr _)).
  destruct (finish_closes_only_settled padded_hash (fun _ _ _ => Ok []) _ task _ _ p _ _ _ _ _ _ _ _ _ _
    r Hp He Hcl) as (_ & H1 & H2 & _).
  exact (conj H1 H2).
Defined.
