(* ===== verification/RestartPolicy.v ===== *)
(** * Restart policy and the restart-intensity ledger

    Versioned restart declarations, the eligibility of an automatic restart,
    the identity and the record of a decided restart, and the durable ledger
    that debits each attempt before it is dispatched
    (crates/foundation/eliot-runtime-contracts/src/restart_policy.rs).

    The canonical JSON of policies and operation identities and SHA-256 are
    the class [RestartWire]. *)

From Stdlib Require Import String.
From S2P Require Import Prelude RustText Contracts Receipts RuntimeErrors CapacityContracts.

#[local] Open Scope string_scope.
#[local] Open Scope Z_scope.

(** ** Data *)

Inductive RestartPolicyError : Type :=
| RpContract (e : RuntimeContractError)
| RpEncoding (message : string).

Inductive RestartClass : Type := Permanent | Transient | Temporary.

#[global] Instance RestartClass_eq_dec : EqDecision RestartClass.
Proof. solve_decision. Defined.

Inductive RestartGroupStrategy : Type := OneForOne | RestForOne | OneForAll.

#[global] Instance RestartGroupStrategy_eq_dec : EqDecision RestartGroupStrategy.
Proof. solve_decision. Defined.

Inductive RestartDependencyKind : Type := DepRequired | DepOptional | DepAdvisory.

#[global] Instance RestartDependencyKind_eq_dec : EqDecision RestartDependencyKind.
Proof. solve_decision. Defined.

Inductive RestartInvalidationTrigger : Type :=
| RequiredProtocolDigestMismatch
| OperationalStateInvalidated
| StateFenceInvalidated
| HealthContractFailed.

#[global] Instance RestartInvalidationTrigger_eq_dec : EqDecision RestartInvalidationTrigger.
Proof. solve_decision. Defined.

Record RestartDependency : Type := {
  rd_dependency_id : string;
  rd_kind : RestartDependencyKind;
  rd_invalidation_triggers : list RestartInvalidationTrigger;
}.

Record RestartIntensityPolicy : Type := {
  ri_max_attempts_in_window : Z;
  ri_window_millis : Z;
  ri_backoff_initial_millis : Z;
  ri_backoff_max_millis : Z;
  ri_jitter_max_millis : Z;
  ri_cooldown_millis : Z;
  ri_reset_after_healthy_millis : Z;
  ri_quarantine_after_attempts : Z;
  ri_escalation_target : string;
}.

Record RestartPolicyV1 : Type := {
  rp_policy_version : Z;
  rp_subject_id : string;
  rp_restart_class : RestartClass;
  rp_group_id : string;
  rp_group_strategy : RestartGroupStrategy;
  rp_one_for_all_rationale : option string;
  rp_dependencies : list RestartDependency;
  rp_intensity : RestartIntensityPolicy;
  rp_source_manifest_revision : Z;
  rp_source_profile_revision : Z;
}.

Record RestartPolicyAdmissionBinding : Type := {
  pa_policy_digest : string;
  pa_source_manifest_revision : Z;
  pa_source_profile_revision : Z;
  pa_admitted_generation : Z;
  pa_state_fence : StateFence;
}.

Inductive RestartPolicyDisposition : Type :=
| RdAdmitted (policy_digest : string)
| RdWithheld (declared_version : option Z) (reason : string).

Inductive RestartOwnerLifecycle : Type :=
| OwnerRunning
| PlannedShutdown
| Cancellation
| Quiescing
| Retiring.

#[global] Instance RestartOwnerLifecycle_eq_dec : EqDecision RestartOwnerLifecycle.
Proof. solve_decision. Defined.

Inductive RestartIdentityEvidence : Type := IdentityExact | MissingOrAmbiguous.

#[global] Instance RestartIdentityEvidence_eq_dec : EqDecision RestartIdentityEvidence.
Proof. solve_decision. Defined.

Inductive RestartFailureEvidence : Type :=
| NormalExit
| AbnormalExit
| ExitedWithoutReadiness
| FailedHealthContract
| NoRestartCondition.

#[global] Instance RestartFailureEvidence_eq_dec : EqDecision RestartFailureEvidence.
Proof. solve_decision. Defined.

Inductive AutomaticRestartDecision : Type :=
| Eligible
| SuppressedByOwnerLifecycle
| TemporaryChild
| NoMatchingFailureCondition
| BlockedByUncertainIdentity.

#[global] Instance AutomaticRestartDecision_eq_dec : EqDecision AutomaticRestartDecision.
Proof. solve_decision. Defined.

Record RestartOperationIdentity : Type := {
  ro_subject_id : string;
  ro_original_generation : Z;
  ro_original_state_fence : StateFence;
  ro_policy_digest : string;
  ro_failure : RestartFailureEvidence;
  ro_selected_dependents : list string;
  ro_unresolved_effects : list string;
}.

Record RestartDecisionRecord : Type := {
  rr_operation : RestartOperationIdentity;
  rr_policy_admission : RestartPolicyAdmissionBinding;
  rr_restart_operation_id : string;
  rr_source_manifest_revision : Z;
  rr_source_profile_revision : Z;
  rr_capacity_class : CapacityClass;
  rr_exhausted_bottlenecks : list CapacityBottleneck;
  rr_decided_at_millis : Z;
  rr_next_allowed_at_millis : Z;
}.

Inductive RestartAttemptOutcome : Type := AttemptReserved | LaunchFailed | ReplacementAdmitted.

#[global] Instance RestartAttemptOutcome_eq_dec : EqDecision RestartAttemptOutcome.
Proof. solve_decision. Defined.

Record RestartAttemptRecord : Type := {
  at_restart_operation_id : string;
  at_subject_id : string;
  at_reserved_at_millis : Z;
  at_next_allowed_at_millis : Z;
  at_unresolved_effects : list string;
  at_outcome : RestartAttemptOutcome;
}.

Inductive RestartDenial : Type :=
| Quarantined (attempts_in_window quarantine_after_attempts : Z)
| IntensityBudgetExhausted (attempts_in_window max_attempts_in_window : Z)
| ClockRegressed (now_millis window_started_at_millis : Z).

Inductive RestartReservation : Type :=
| ResAdmitted (attempt : RestartAttemptRecord)
| ResReplayed (attempt : RestartAttemptRecord)
| ResDenied (denial : RestartDenial).

Record RestartIntensityLedger : Type := {
  rl_subject_id : string;
  rl_policy_digest : string;
  rl_window_started_at_millis : Z;
  rl_quarantined : bool;
  rl_attempts : list RestartAttemptRecord;
}.

Definition set_window (t : Z) (l : RestartIntensityLedger) : RestartIntensityLedger :=
  {| rl_subject_id := rl_subject_id l; rl_policy_digest := rl_policy_digest l;
     rl_window_started_at_millis := t; rl_quarantined := rl_quarantined l;
     rl_attempts := rl_attempts l |}.

Definition set_quarantined (l : RestartIntensityLedger) : RestartIntensityLedger :=
  {| rl_subject_id := rl_subject_id l; rl_policy_digest := rl_policy_digest l;
     rl_window_started_at_millis := rl_window_started_at_millis l; rl_quarantined := true;
     rl_attempts := rl_attempts l |}.

Definition set_attempts (attempts : list RestartAttemptRecord) (l : RestartIntensityLedger)
    : RestartIntensityLedger :=
  {| rl_subject_id := rl_subject_id l; rl_policy_digest := rl_policy_digest l;
     rl_window_started_at_millis := rl_window_started_at_millis l;
     rl_quarantined := rl_quarantined l; rl_attempts := attempts |}.

Definition set_policy_digest (d : string) (l : RestartIntensityLedger) : RestartIntensityLedger :=
  {| rl_subject_id := rl_subject_id l; rl_policy_digest := d;
     rl_window_started_at_millis := rl_window_started_at_millis l;
     rl_quarantined := rl_quarantined l; rl_attempts := rl_attempts l |}.

Definition set_attempt_outcome (o : RestartAttemptOutcome) (a : RestartAttemptRecord)
    : RestartAttemptRecord :=
  {| at_restart_operation_id := at_restart_operation_id a; at_subject_id := at_subject_id a;
     at_reserved_at_millis := at_reserved_at_millis a;
     at_next_allowed_at_millis := at_next_allowed_at_millis a;
     at_unresolved_effects := at_unresolved_effects a; at_outcome := o |}.

(** The bytes that are digested. *)
Class RestartWire := {
  restart_sha256 : list Z -> list Z;
  policy_json : RestartPolicyV1 -> result string (list Z);
  operation_json : RestartOperationIdentity -> result string (list Z);
}.

(** ** Field checks *)

Abbreviation RcR := (result RuntimeContractError).
Abbreviation RpR := (result RestartPolicyError).

Definition invalid (field reason : string) : RuntimeContractError := RInvalidField field reason.

Definition restart_text (value field : string) : RcR unit :=
  guard_err (is_blank value || has_control value)
    (invalid field "must be non-blank and contain no control characters").

Definition restart_unique_texts (values : list string) (field : string) : RcR unit :=
  check? scan_distinct (fun v => restart_text v field) id
           (fun _ => invalid field "values must be unique") ∅ values;
  Ok tt.

(** [values.any(|v| !seen.insert(v))] on a fresh set. *)
Fixpoint any_repeated {A} `{EqDecision A} (seen : list A) (values : list A) : bool :=
  match values with
  | [] => false
  | v :: values' => if bool_decide (v ∈ seen) then true else any_repeated (v :: seen) values'
  end.

(** ** The declared policy *)

Definition rationale_check (policy : RestartPolicyV1) : RcR unit :=
  match rp_group_strategy policy, rp_one_for_all_rationale policy with
  | OneForAll, Some rationale => restart_text rationale "one_for_all_rationale"
  | OneForAll, None =>
      Err (invalid "one_for_all_rationale" "one_for_all requires a named rationale")
  | _, Some _ =>
      Err (invalid "one_for_all_rationale" "rationale is only valid for one_for_all")
  | _, None => Ok tt
  end.

Fixpoint dependencies_check (subject_id : string) (dependency_ids : gset string)
    (dependencies : list RestartDependency) : RcR unit :=
  match dependencies with
  | [] => Ok tt
  | d :: rest =>
      check? restart_text (rd_dependency_id d) "dependency_id";
      check? guard_err (rd_dependency_id d == subject_id)
               (invalid "dependency_id" "self dependency is invalid");
      check? guard_err (bool_decide (rd_dependency_id d ∈ dependency_ids))
               (invalid "dependencies" "dependency ids must be unique");
      check? guard_err (rd_invalidation_triggers d == [])
               (invalid "invalidation_triggers"
                  "each declared edge requires an invalidation trigger");
      check? guard_err (any_repeated [] (rd_invalidation_triggers d))
               (invalid "invalidation_triggers" "invalidation triggers must be unique");
      dependencies_check subject_id ({[rd_dependency_id d]} ∪ dependency_ids) rest
  end.

Definition intensity_check (i : RestartIntensityPolicy) : RcR unit :=
  check? guard_err ((ri_max_attempts_in_window i =? 0) || (ri_window_millis i =? 0)
                    || (ri_reset_after_healthy_millis i =? 0)
                    || (ri_quarantine_after_attempts i =? 0)
                    || (ri_max_attempts_in_window i <? ri_quarantine_after_attempts i))
           (invalid "intensity" "attempt, window, reset, and quarantine values are inconsistent");
  check? guard_err (ri_backoff_max_millis i <? ri_backoff_initial_millis i)
           (invalid "backoff_max_millis" "maximum backoff must not be below initial backoff");
  restart_text (ri_escalation_target i) "escalation_target".

Definition policy_validate (policy : RestartPolicyV1) : RcR unit :=
  check? guard_err (negb (rp_policy_version policy =? 1))
           (invalid "policy_version" "unsupported restart policy version");
  check? restart_text (rp_subject_id policy) "subject_id";
  check? restart_text (rp_group_id policy) "group_id";
  check? guard_err ((rp_source_manifest_revision policy =? 0)
                    || (rp_source_profile_revision policy =? 0))
           (invalid "source_revision" "manifest and profile revisions must be non-zero");
  check? rationale_check policy;
  check? dependencies_check (rp_subject_id policy) ∅ (rp_dependencies policy);
  intensity_check (rp_intensity policy).

(** ** Eligibility *)

Definition class_matches (class : RestartClass) (failure : RestartFailureEvidence) : bool :=
  match class with
  | Permanent =>
      match failure with
      | NormalExit | AbnormalExit | ExitedWithoutReadiness => true
      | _ => false
      end
  | Transient =>
      match failure with
      | AbnormalExit | ExitedWithoutReadiness | FailedHealthContract => true
      | _ => false
      end
  | Temporary => false
  end.

Definition decide_automatic_restart (policy : RestartPolicyV1)
    (owner_lifecycle : RestartOwnerLifecycle) (identity : RestartIdentityEvidence)
    (failure : RestartFailureEvidence) : RcR AutomaticRestartDecision :=
  check? policy_validate policy;
  if owner_lifecycle != OwnerRunning then Ok SuppressedByOwnerLifecycle
  else if rp_restart_class policy == Temporary then Ok TemporaryChild
  else if identity != IdentityExact then Ok BlockedByUncertainIdentity
  else if class_matches (rp_restart_class policy) failure then Ok Eligible
  else Ok NoMatchingFailureCondition.

Fixpoint dependents_declared (edges : list RestartDependency) (selected : list string)
    : RcR unit :=
  match selected with
  | [] => Ok tt
  | dependent :: rest =>
      match list_find (fun edge => rd_dependency_id edge = dependent) edges with
      | None =>
          Err (invalid "selected_dependents"
                 "a selected dependent is not a declared dependency of the admitted policy")
      | Some (_, edge) =>
          check? guard_err (rd_kind edge != DepRequired)
                   (invalid "selected_dependents"
                      "only a declared required dependency may join a selected recovery");
          dependents_declared edges rest
      end
  end.

Definition validate_selected_dependents (policy : RestartPolicyV1) (selected : list string)
    : RcR unit :=
  if rp_group_strategy policy == OneForOne then
    guard_err (negb (selected == []))
      (invalid "selected_dependents"
         "one_for_one is the independent-child strategy and selects no dependent")
  else dependents_declared (rp_dependencies policy) selected.

(** ** Identity and record of a decided restart *)

Definition operation_validate (o : RestartOperationIdentity) : RcR unit :=
  check? restart_text (ro_subject_id o) "subject_id";
  check? restart_text (ro_policy_digest o) "policy_digest";
  check? map_err RFoundation (StateFence_validate (ro_original_state_fence o));
  check? guard_err (negb (ro_original_generation o =?
                          resource_generation (ro_original_state_fence o)))
           (invalid "original_generation"
              "original generation must match the state fence generation");
  check? restart_unique_texts (ro_selected_dependents o) "selected_dependents";
  check? guard_err (existsb (fun dependent => dependent == ro_subject_id o)
                      (ro_selected_dependents o))
           (invalid "selected_dependents" "a child cannot be its own selected dependent");
  restart_unique_texts (ro_unresolved_effects o) "unresolved_effects".

(** A fence check where the [From] conversions of both error types apply. *)
Definition restart_fence_validate (f : StateFence) : RpR unit :=
  map_err (fun e => RpContract (RFoundation e)) (StateFence_validate f).

Definition rp_invalid (field reason : string) : RestartPolicyError :=
  RpContract (invalid field reason).

Section Digests.
Context `{RestartWire}.

Definition policy_digest (policy : RestartPolicyV1) : RpR string :=
  check? map_err RpContract (policy_validate policy);
  let? bytes := map_err RpEncoding (policy_json policy) in
  Ok (sha256_hex restart_sha256 bytes).

Definition policy_bind (policy : RestartPolicyV1) (admitted_generation : Z)
    (state_fence : StateFence) : RpR RestartPolicyAdmissionBinding :=
  check? restart_fence_validate state_fence;
  check? guard_err (negb (admitted_generation =? resource_generation state_fence))
           (rp_invalid "restart_policy_binding"
              "admitted generation must match the state fence generation");
  let? digest := policy_digest policy in
  Ok {| pa_policy_digest := digest;
        pa_source_manifest_revision := rp_source_manifest_revision policy;
        pa_source_profile_revision := rp_source_profile_revision policy;
        pa_admitted_generation := admitted_generation;
        pa_state_fence := state_fence |}.

Definition admission_validate_for (b : RestartPolicyAdmissionBinding) (policy : RestartPolicyV1)
    (admitted_generation : Z) (state_fence : StateFence) : RpR unit :=
  check? restart_fence_validate state_fence;
  let? digest := policy_digest policy in
  guard_err ((pa_policy_digest b != digest)
             || negb (pa_source_manifest_revision b =? rp_source_manifest_revision policy)
             || negb (pa_source_profile_revision b =? rp_source_profile_revision policy)
             || negb (pa_admitted_generation b =? admitted_generation)
             || (pa_state_fence b != state_fence)
             || negb (pa_admitted_generation b =? resource_generation (pa_state_fence b)))
    (rp_invalid "restart_policy_binding"
       "policy, source revision, generation, or state fence does not match").

Definition permits_automatic_restart (d : RestartPolicyDisposition) : bool :=
  match d with
  | RdAdmitted _ => true
  | RdWithheld _ _ => false
  end.

Definition disposition_policy_digest (d : RestartPolicyDisposition) : option string :=
  match d with
  | RdAdmitted digest => Some digest
  | RdWithheld _ _ => None
  end.

Definition disposition_validate (d : RestartPolicyDisposition) : RcR unit :=
  match d with
  | RdAdmitted digest => restart_text digest "policy_digest"
  | RdWithheld _ reason => restart_text reason "reason"
  end.

Definition dispose_restart_policy (declared : option RestartPolicyV1)
    : RpR RestartPolicyDisposition :=
  match declared with
  | None =>
      Ok (RdWithheld None "the desired manifest declares no versioned restart policy")
  | Some policy =>
      match policy_validate policy with
      | Err rejection =>
          Ok (RdWithheld (Some (rp_policy_version policy)) (runtime_error_text rejection))
      | Ok _ =>
          let? digest := policy_digest policy in
          Ok (RdAdmitted digest)
      end
  end.

Definition operation_derive (o : RestartOperationIdentity) : RpR string :=
  check? map_err RpContract (operation_validate o);
  let? bytes := map_err RpEncoding (operation_json o) in
  Ok (sha256_hex restart_sha256 bytes).

Definition decision_validate_for (d : RestartDecisionRecord) (policy : RestartPolicyV1)
    (admitted_generation : Z) (state_fence : StateFence) : RpR unit :=
  let o := rr_operation d in
  check? map_err RpContract (policy_validate policy);
  check? map_err RpContract (operation_validate o);
  check? restart_fence_validate state_fence;
  check? admission_validate_for (rr_policy_admission d) policy admitted_generation state_fence;
  check? guard_err ((ro_subject_id o != rp_subject_id policy)
                    || (ro_original_state_fence o != state_fence)
                    || negb (ro_original_generation o =? admitted_generation)
                    || (ro_policy_digest o != pa_policy_digest (rr_policy_admission d))
                    || negb (rr_source_manifest_revision d =? rp_source_manifest_revision policy)
                    || negb (rr_source_profile_revision d =? rp_source_profile_revision policy))
           (rp_invalid "restart_decision_record"
              "child, generation, state fence, policy digest, or source revision does not match the admitted policy");
  check? map_err RpContract (validate_selected_dependents policy (ro_selected_dependents o));
  let? derived := operation_derive o in
  check? guard_err (rr_restart_operation_id d != derived)
           (rp_invalid "restart_operation_id"
              "recorded operation identity does not match its own content");
  check? guard_err ((rr_source_manifest_revision d =? 0) || (rr_source_profile_revision d =? 0))
           (rp_invalid "source_revision" "manifest and profile revisions must be non-zero");
  check? guard_err (rr_next_allowed_at_millis d <? rr_decided_at_millis d)
           (rp_invalid "next_allowed_at_millis"
              "next allowed time must not precede the decision");
  guard_err (any_repeated [] (rr_exhausted_bottlenecks d))
    (rp_invalid "exhausted_bottlenecks" "exhausted bottlenecks must be unique").
End Digests.
