(* ===== verification/RestartLedger.v ===== *)
(** * The restart-intensity ledger

    The durable record that debits a restart attempt before it is dispatched:
    the window and its count, reservation, outcomes, policy rebinding and the
    pruning of history ([RestartAttemptRecord] and [RestartIntensityLedger] of
    crates/foundation/eliot-runtime-contracts/src/restart_policy.rs). *)

From Stdlib Require Import String.
From S2P Require Import Prelude RustText Contracts Receipts RuntimeErrors RestartPolicy.

#[local] Open Scope string_scope.
#[local] Open Scope Z_scope.

Definition attempt_validate (subject_id : string) (a : RestartAttemptRecord) : RcR unit :=
  check? restart_text (at_restart_operation_id a) "restart_operation_id";
  check? guard_err (at_subject_id a != subject_id)
           (invalid "subject_id" "retained attempt belongs to a different child");
  check? guard_err (at_next_allowed_at_millis a <? at_reserved_at_millis a)
           (invalid "next_allowed_at_millis"
              "next allowed time must not precede the reservation");
  restart_unique_texts (at_unresolved_effects a) "unresolved_effects".

Definition ledger_unbound (subject_id digest : string) (window_started_at_millis : Z)
    : RpR RestartIntensityLedger :=
  check? map_err RpContract (restart_text subject_id "subject_id");
  check? map_err RpContract (restart_text digest "policy_digest");
  Ok {| rl_subject_id := subject_id; rl_policy_digest := digest;
        rl_window_started_at_millis := window_started_at_millis;
        rl_quarantined := false; rl_attempts := [] |}.

Definition ledger_validate (l : RestartIntensityLedger) : RcR unit :=
  check? restart_text (rl_subject_id l) "subject_id";
  check? restart_text (rl_policy_digest l) "policy_digest";
  check? scan_distinct (attempt_validate (rl_subject_id l)) at_restart_operation_id
           (fun _ => invalid "attempts" "an operation identity is debited more than once")
           ∅ (rl_attempts l);
  Ok tt.

Definition window_endpoint_millis (l : RestartIntensityLedger) (window_millis : Z) : Z :=
  Z.min (rl_window_started_at_millis l + window_millis) u64_max.

Definition max_u32 : Z := 2 ^ 32 - 1.

Definition in_window (window_started_at : Z) (a : RestartAttemptRecord) : bool :=
  window_started_at <=? at_reserved_at_millis a.

Definition attempts_in_window (l : RestartIntensityLedger) : Z :=
  Z.min (usize_of_len (List.filter (in_window (rl_window_started_at_millis l)) (rl_attempts l)))
    max_u32.

Abbreviation LM := (M RestartIntensityLedger RestartPolicyError).

Definition roll_window (now_millis window_millis : Z) : LM bool := fun l =>
  if now_millis <? rl_window_started_at_millis l then
    (l, Err (rp_invalid "now_millis"
               "elapsed time moved backwards against the durable window start"))
  else if now_millis <? window_endpoint_millis l window_millis then (l, Ok false)
  else (set_window now_millis l, Ok true).

Definition has_operation (operation_id : string) (a : RestartAttemptRecord) : Prop :=
  at_restart_operation_id a = operation_id.

#[global] Instance has_operation_dec operation_id a : Decision (has_operation operation_id a).
Proof. unfold has_operation. apply _. Defined.

Definition reserve_attempt `{RestartWire} (policy : RestartPolicyV1)
    (decision : RestartDecisionRecord) (admitted_generation : Z) (state_fence : StateFence)
    (now_millis : Z) : LM RestartReservation :=
  do! mlift (decision_validate_for decision policy admitted_generation state_fence);
  let! l := mstate in
  do! mlift (map_err RpContract (ledger_validate l));
  do! mlift (guard_err ((rl_subject_id l != ro_subject_id (rr_operation decision))
                        || (rl_policy_digest l != ro_policy_digest (rr_operation decision)))
               (rp_invalid "restart_intensity_ledger"
                  "decision and durable ledger cover a different child or policy"));
  if now_millis <? rl_window_started_at_millis l then
    mret_ok (ResDenied (ClockRegressed now_millis (rl_window_started_at_millis l)))
  else match list_find (has_operation (rr_restart_operation_id decision)) (rl_attempts l) with
  | Some (_, existing) => mret_ok (ResReplayed existing)
  | None =>
      do! roll_window now_millis (ri_window_millis (rp_intensity policy));
      let! rolled := mstate in
      let count := attempts_in_window rolled in
      if rl_quarantined rolled || (ri_quarantine_after_attempts (rp_intensity policy) <=? count)
      then do! mmodify set_quarantined;
           mret_ok (ResDenied (Quarantined count
                                 (ri_quarantine_after_attempts (rp_intensity policy))))
      else if ri_max_attempts_in_window (rp_intensity policy) <=? count then
        mret_ok (ResDenied (IntensityBudgetExhausted count
                              (ri_max_attempts_in_window (rp_intensity policy))))
      else
        let attempt :=
          {| at_restart_operation_id := rr_restart_operation_id decision;
             at_subject_id := rl_subject_id rolled;
             at_reserved_at_millis := now_millis;
             at_next_allowed_at_millis := rr_next_allowed_at_millis decision;
             at_unresolved_effects := ro_unresolved_effects (rr_operation decision);
             at_outcome := AttemptReserved |} in
        do! mmodify (set_attempts (rl_attempts rolled ++ [attempt]));
        mret_ok (ResAdmitted attempt)
  end.

(** [iter_mut().find(..)] with an assignment to the outcome found. *)
Definition record_outcome (outcome : RestartAttemptOutcome) (operation_id : string)
    : LM RestartAttemptRecord := fun l =>
  match list_find (has_operation operation_id) (rl_attempts l) with
  | None =>
      (l, Err (rp_invalid "restart_operation_id"
                 "no reserved attempt carries this operation identity"))
  | Some (i, attempt) =>
      (set_attempts (<[i := set_attempt_outcome outcome attempt]> (rl_attempts l)) l,
       Ok (set_attempt_outcome outcome attempt))
  end.

Definition record_launch_failure : string -> LM RestartAttemptRecord :=
  record_outcome LaunchFailed.

Definition record_replacement_admitted : string -> LM RestartAttemptRecord :=
  record_outcome ReplacementAdmitted.

Definition rebind_policy (digest : string) : LM unit :=
  do! mlift (map_err RpContract (restart_text digest "policy_digest"));
  mmodify (set_policy_digest digest).

(** What history always keeps. *)
Definition must_keep (window_started_at : Z) (a : RestartAttemptRecord) : bool :=
  in_window window_started_at a || (at_outcome a == AttemptReserved)
  || negb (at_unresolved_effects a == []).

(** The second loop, over the flags from the newest to the oldest. *)
Fixpoint retain_recent (retain_limit retained : Z) (newest_first : list bool) : list bool :=
  match newest_first with
  | [] => []
  | true :: rest => true :: retain_recent retain_limit retained rest
  | false :: rest =>
      if retained <? retain_limit then true :: retain_recent retain_limit (retained + 1) rest
      else false :: retain_recent retain_limit retained rest
  end.

Definition keep_flags (retain_limit window_started_at : Z) (attempts : list RestartAttemptRecord)
    : list bool :=
  reverse (retain_recent retain_limit 0 (reverse (must_keep window_started_at <$> attempts))).

Definition prune_history (retain_limit now_millis : Z) : LM Z := fun l =>
  if now_millis <? rl_window_started_at_millis l then
    (l, Err (rp_invalid "now_millis"
               "elapsed time moved backwards against the durable window start"))
  else
    let keep := keep_flags retain_limit (rl_window_started_at_millis l) (rl_attempts l) in
    let dropped := usize_of_len (List.filter negb keep) in
    (set_attempts (List.filter snd (zip (rl_attempts l) keep)).*1 l, Ok dropped).
