(* ===== verification/RestartLaws.v ===== *)
(** * Restart intensity: theorems

    What the ledger bounds (how often a child restarts, once per operation,
    never out of quarantine) and what an admitted reservation rests on. *)

From Stdlib Require Import String.
From S2P Require Import Prelude RustText Contracts Receipts RuntimeErrors RestartPolicy RestartLedger.

#[local] Open Scope string_scope.
#[local] Open Scope list_scope.
#[local] Open Scope Z_scope.

(** ** Runs of a ledger *)

Inductive LedgerCall : Type :=
| CallReserve (policy : RestartPolicyV1) (decision : RestartDecisionRecord) (generation : Z)
    (fence : StateFence) (now : Z)
| CallRoll (now window : Z)
| CallLaunchFailure (operation_id : string)
| CallReplacementAdmitted (operation_id : string)
| CallRebind (digest : string)
| CallPrune (retain_limit now : Z).

Section Runs.
Context `{RestartWire}.

Definition admitted_of (r : RestartIntensityLedger * result RestartPolicyError RestartReservation)
    : list RestartAttemptRecord :=
  match r.2 with
  | Ok (ResAdmitted a) => [a]
  | _ => []
  end.

Definition ledger_step (l : RestartIntensityLedger) (c : LedgerCall)
    : RestartIntensityLedger * list RestartAttemptRecord :=
  match c with
  | CallReserve policy decision generation fence now =>
      let r := reserve_attempt policy decision generation fence now l in (r.1, admitted_of r)
  | CallRoll now window => ((roll_window now window l).1, [])
  | CallLaunchFailure id => ((record_launch_failure id l).1, [])
  | CallReplacementAdmitted id => ((record_replacement_admitted id l).1, [])
  | CallRebind digest => ((rebind_policy digest l).1, [])
  | CallPrune limit now => ((prune_history limit now l).1, [])
  end.

(** The ledger after some calls, and the attempts they had debited, in order. *)
Fixpoint ledger_run (calls : list LedgerCall) (l : RestartIntensityLedger)
    : RestartIntensityLedger * list RestartAttemptRecord :=
  match calls with
  | [] => (l, [])
  | c :: calls' =>
      let r := ledger_step l c in
      let r' := ledger_run calls' r.1 in (r'.1, r.2 ++ r'.2)
  end.

(** A property of the ledger and the debits so far that every call keeps
    holds after any run. *)
Lemma ledger_run_inv (P : LedgerCall -> Prop)
    (I : RestartIntensityLedger -> list RestartAttemptRecord -> Prop) :
  (forall l past c, P c -> I l past -> I (ledger_step l c).1 (past ++ (ledger_step l c).2)) ->
  forall calls l past, Forall P calls -> I l past ->
    I (ledger_run calls l).1 (past ++ (ledger_run calls l).2).
Proof.
  intros Hstep calls. induction calls as [|c calls IH]; intros l past Hc HI; simpl.
  - by rewrite app_nil_r.
  - apply Forall_cons in Hc as [Hc Hcs]. rewrite app_assoc. apply IH; [done|]. by apply Hstep.
Qed.

(** ** What one call does *)

Inductive reserve_effect (policy : RestartPolicyV1) (decision : RestartDecisionRecord) (now : Z)
    (l : RestartIntensityLedger)
    : RestartIntensityLedger * result RestartPolicyError RestartReservation -> Prop :=
| ReRefused e : reserve_effect policy decision now l (l, Err e)
| ReRegressed :
    now < rl_window_started_at_millis l ->
    reserve_effect policy decision now l
      (l, Ok (ResDenied (ClockRegressed now (rl_window_started_at_millis l))))
| ReReplayed i a :
    rl_window_started_at_millis l <= now ->
    rl_attempts l !! i = Some a -> at_restart_operation_id a = rr_restart_operation_id decision ->
    reserve_effect policy decision now l (l, Ok (ResReplayed a))
| ReQuarantined l1 :
    rl_window_started_at_millis l <= now ->
    (roll_window now (ri_window_millis (rp_intensity policy)) l).1 = l1 ->
    rl_quarantined l = true
    \/ ri_quarantine_after_attempts (rp_intensity policy) <= attempts_in_window l1 ->
    reserve_effect policy decision now l
      (set_quarantined l1,
       Ok (ResDenied (Quarantined (attempts_in_window l1)
                        (ri_quarantine_after_attempts (rp_intensity policy)))))
| ReAdmitted l1 a :
    rl_window_started_at_millis l <= now ->
    (roll_window now (ri_window_millis (rp_intensity policy)) l).1 = l1 ->
    rl_quarantined l = false ->
    attempts_in_window l1 < ri_quarantine_after_attempts (rp_intensity policy) ->
    rr_restart_operation_id decision ∉ at_restart_operation_id <$> rl_attempts l ->
    at_restart_operation_id a = rr_restart_operation_id decision ->
    at_subject_id a = rl_subject_id l -> at_reserved_at_millis a = now ->
    at_next_allowed_at_millis a = rr_next_allowed_at_millis decision ->
    at_unresolved_effects a = ro_unresolved_effects (rr_operation decision) ->
    at_outcome a = AttemptReserved ->
    reserve_effect policy decision now l
      (set_attempts (rl_attempts l1 ++ [a]) l1, Ok (ResAdmitted a)).

Lemma roll_window_attempts now window l :
  rl_attempts (roll_window now window l).1 = rl_attempts l /\
  rl_quarantined (roll_window now window l).1 = rl_quarantined l /\
  rl_subject_id (roll_window now window l).1 = rl_subject_id l /\
  rl_policy_digest (roll_window now window l).1 = rl_policy_digest l.
Proof. unfold roll_window. repeat case_match; done. Qed.

Lemma roll_window_ok now window l :
  rl_window_started_at_millis l <= now ->
  exists b, roll_window now window l = ((roll_window now window l).1, Ok b).
Proof.
  intros Hle. unfold roll_window. destruct (Z.ltb_spec now (rl_window_started_at_millis l)); [lia|].
  case_match; by eexists.
Qed.

Lemma list_find_has_none id attempts :
  list_find (has_operation id) attempts = None -> id ∉ at_restart_operation_id <$> attempts.
Proof.
  rewrite list_find_None, Forall_forall. intros Hn (a & -> & Ha)%list_elem_of_fmap. by apply (Hn a).
Qed.

Lemma decision_valid_policy decision policy generation fence :
  decision_validate_for decision policy generation fence = Ok tt -> policy_validate policy = Ok tt.
Proof. unfold decision_validate_for. by intros [Hp%map_err_ok _]%check_ok. Qed.

Lemma policy_valid_intensity policy :
  policy_validate policy = Ok tt ->
  let i := rp_intensity policy in
  ri_window_millis i <> 0 /\ ri_quarantine_after_attempts i <> 0 /\
  ri_quarantine_after_attempts i <= ri_max_attempts_in_window i.
Proof.
  unfold policy_validate, intensity_check. rewrite !check_ok, !guard_err_ok.
  intros (_ & _ & _ & _ & _ & _ & Hi & _). simpl. rewrite !orb_false_iff, !Z.eqb_neq, Z.ltb_ge in Hi.
  naive_solver.
Qed.

(** Every reservation has one of five effects; the attempt budget is never
    what denies it. *)
Lemma reserve_attempt_effect policy decision generation fence now l :
  reserve_effect policy decision now l (reserve_attempt policy decision generation fence now l).
Proof.
  unfold reserve_attempt, mseq at 1, mlift at 1.
  destruct (decision_validate_for decision policy generation fence) as [[]|e] eqn:Hd;
    [|apply ReRefused].
  apply decision_valid_policy, policy_valid_intensity in Hd as (_ & _ & Hmax).
  unfold mseq at 1, mstate at 1, mseq at 1, mlift at 1.
  destruct (ledger_validate l) as [[]|e]; cbn [map_err]; [|apply ReRefused].
  unfold mseq at 1, mlift at 1, guard_err.
  destruct (_ || _); [apply ReRefused|].
  destruct (Z.ltb_spec now (rl_window_started_at_millis l)) as [Hlt|Hle]; [by apply ReRegressed|].
  destruct (list_find _ _) as [[i a]|] eqn:Hf.
  { apply list_find_Some in Hf as (Hi & Hid & _). by eapply ReReplayed. }
  apply list_find_has_none in Hf.
  destruct (roll_window_ok now (ri_window_millis (rp_intensity policy)) l Hle) as [b Hr].
  destruct (roll_window_attempts now (ri_window_millis (rp_intensity policy)) l)
    as (Ha & Hq & Hs & _).
  unfold mseq at 1. rewrite Hr. unfold mseq at 1, mstate at 1.
  set (l1 := (roll_window _ _ l).1) in *. rewrite Hq.
  destruct (rl_quarantined l || _) eqn:Hquar.
  { unfold mseq, mmodify, mret_ok. apply ReQuarantined; [done..|].
    apply orb_true_iff in Hquar as [?|?%Z.leb_le]; auto. }
  apply orb_false_iff in Hquar as [Hnq Hlt%Z.leb_gt].
  destruct (Z.leb_spec (ri_max_attempts_in_window (rp_intensity policy)) (attempts_in_window l1));
    [lia|].
  unfold mseq, mmodify, mret_ok. by apply ReAdmitted.
Qed.

(** ** Counting debits *)

Definition count (p : Z -> bool) (ts : list Z) : Z := usize_of_len (List.filter p ts).

(** [t] lies in the half-open interval from [lo] to [hi]. *)
Definition between (lo hi t : Z) : bool := (lo <=? t) && (t <? hi).

Lemma filter_fmap {A B} (f : A -> B) (p : B -> bool) (xs : list A) :
  List.filter p (f <$> xs) = f <$> List.filter (fun a => p (f a)) xs.
Proof.
  induction xs as [|x xs IH]; [done|]. rewrite fmap_cons. cbn [List.filter]. rewrite IH.
  by destruct (p (f x)).
Qed.

Lemma filter_filter {A} (p q : A -> bool) (xs : list A) :
  (forall x, p x = true -> q x = true) -> List.filter p (List.filter q xs) = List.filter p xs.
Proof.
  intros Hpq. induction xs as [|x xs IH]; simpl; [done|].
  specialize (Hpq x). destruct (q x), (p x) eqn:Hp; simpl; rewrite ?Hp, ?IH; naive_solver.
Qed.

Lemma count_nonneg p ts : 0 <= count p ts.
Proof. unfold count, usize_of_len. lia. Qed.

Lemma count_app p ts us : count p (ts ++ us) = count p ts + count p us.
Proof. unfold count, usize_of_len. rewrite List.filter_app, length_app. lia. Qed.

Lemma count_one p t : count p [t] = if p t then 1 else 0.
Proof. unfold count. simpl. by destruct (p t). Qed.

Lemma count_le_sum p q r ts :
  (forall t, p t = true -> q t = true \/ r t = true) -> count p ts <= count q ts + count r ts.
Proof.
  intros Hp. induction ts as [|t ts IH]; [by vm_compute|].
  change (t :: ts) with ([t] ++ ts). rewrite !count_app, !count_one.
  specialize (Hp t). destruct (p t), (q t), (r t); lia || naive_solver.
Qed.

Lemma count_le p q ts : (forall t, p t = true -> q t = true) -> count p ts <= count q ts.
Proof.
  intros Hp. induction ts as [|t ts IH]; [by vm_compute|].
  change (t :: ts) with ([t] ++ ts). rewrite !count_app, !count_one.
  specialize (Hp t). destruct (p t), (q t); lia || naive_solver.
Qed.

(** ** The rate of restarts *)

Section Rate.
Context (W q : Z).

(** The policies presented never allow more than [q] attempts in a window, nor
    a window shorter than [W], and the clock stays below its last value. *)
Definition call_within (c : LedgerCall) : Prop :=
  match c with
  | CallReserve policy _ _ _ now =>
      W <= ri_window_millis (rp_intensity policy)
      /\ ri_quarantine_after_attempts (rp_intensity policy) <= q /\ now < u64_max
  | CallRoll now window => W <= window /\ now < u64_max
  | _ => True
  end.

Record rate_inv (l : RestartIntensityLedger) (past : list RestartAttemptRecord) : Prop := {
  rate_current :
    List.filter (Z.leb (rl_window_started_at_millis l)) (at_reserved_at_millis <$> rl_attempts l)
    = List.filter (Z.leb (rl_window_started_at_millis l)) (at_reserved_at_millis <$> past);
  rate_window :
    count (Z.leb (rl_window_started_at_millis l)) (at_reserved_at_millis <$> past) <= q;
  rate_previous :
    count (between (rl_window_started_at_millis l - W) (rl_window_started_at_millis l))
      (at_reserved_at_millis <$> past) <= q;
  rate_all lo :
    count (between lo (lo + W)) (at_reserved_at_millis <$> past) <= 2 * q;
}.

(** Calls that keep the window and the times of its attempts keep the invariant. *)
Lemma rate_inv_same l l' past :
  rate_inv l past ->
  rl_window_started_at_millis l' = rl_window_started_at_millis l ->
  List.filter (Z.leb (rl_window_started_at_millis l)) (at_reserved_at_millis <$> rl_attempts l')
  = List.filter (Z.leb (rl_window_started_at_millis l)) (at_reserved_at_millis <$> rl_attempts l) ->
  rate_inv l' past.
Proof. intros [Hc Hw Hp Ha] Ew Ef. split; rewrite ?Ew; congruence || done. Qed.

Lemma rate_inv_roll l past now window :
  W <= window -> now < u64_max -> rate_inv l past ->
  rate_inv (roll_window now window l).1 past.
Proof.
  intros HW Hnow Hinv. unfold roll_window, window_endpoint_millis.
  destruct (Z.ltb_spec now (rl_window_started_at_millis l)); [done|].
  destruct (Z.ltb_spec now (Z.min (rl_window_started_at_millis l + window) u64_max)); [done|].
  destruct Hinv as [Hc Hw _ Ha]. split; simpl; [| | |done].
  - assert (Himp : forall t, (now <=? t) = true -> (rl_window_started_at_millis l <=? t) = true)
      by (intros t; rewrite !Z.leb_le; lia).
    by rewrite <- (filter_filter _ _ _ Himp), Hc, (filter_filter _ _ _ Himp).
  - etrans; [apply count_le|exact Hw]. intros t. rewrite !Z.leb_le. lia.
  - etrans; [apply count_le|exact Hw]. intros t. unfold between.
    rewrite andb_true_iff, !Z.leb_le. lia.
Qed.

Lemma rate_inv_push l past a :
  rate_inv l past -> rl_window_started_at_millis l <= at_reserved_at_millis a ->
  count (Z.leb (rl_window_started_at_millis l)) (at_reserved_at_millis <$> past) < q ->
  rate_inv (set_attempts (rl_attempts l ++ [a]) l) (past ++ [a]).
Proof.
  intros [Hc Hw Hp Ha] Hle Hlt.
  assert (Hw' : count (Z.leb (rl_window_started_at_millis l))
                  (at_reserved_at_millis <$> past ++ [a]) <= q).
  { rewrite fmap_app, count_app. simpl. rewrite count_one. case_match; lia. }
  assert (Hp' : count (between (rl_window_started_at_millis l - W) (rl_window_started_at_millis l))
                  (at_reserved_at_millis <$> past ++ [a]) <= q).
  { rewrite fmap_app, count_app. simpl. rewrite count_one. unfold between at 2.
    destruct (Z.ltb_spec (at_reserved_at_millis a) (rl_window_started_at_millis l)); [lia|].
    rewrite andb_false_r. lia. }
  split; simpl; [|done|done|].
  - by rewrite !fmap_app, !List.filter_app, Hc.
  - intros lo. destruct (between lo (lo + W) (at_reserved_at_millis a)) eqn:Hb.
    + etrans; [apply (count_le_sum _ (Z.leb (rl_window_started_at_millis l))
                 (between (rl_window_started_at_millis l - W) (rl_window_started_at_millis l)))|lia].
      unfold between in *. intros t. rewrite !andb_true_iff, !Z.leb_le, !Z.ltb_lt in *. lia.
    + rewrite fmap_app, count_app. simpl. rewrite count_one, Hb. specialize (Ha lo). lia.
Qed.

(** *** Outcomes and pruning keep the attempts of the window *)

Lemma record_outcome_cases outcome id l :
  (record_outcome outcome id l).1 = l \/
  exists i a, rl_attempts l !! i = Some a /\
    (record_outcome outcome id l).1
    = set_attempts (<[i := set_attempt_outcome outcome a]> (rl_attempts l)) l.
Proof.
  unfold record_outcome. destruct (list_find _ _) as [[i a]|] eqn:Hf; [right|by left].
  apply list_find_Some in Hf as (Hi & _). by exists i, a.
Qed.

(** Whatever projection of an attempt ignores its outcome is unchanged. *)
Lemma record_outcome_fmap {B} (f : RestartAttemptRecord -> B) outcome id l :
  (forall a, f (set_attempt_outcome outcome a) = f a) ->
  f <$> rl_attempts (record_outcome outcome id l).1 = f <$> rl_attempts l.
Proof.
  intros Hf. destruct (record_outcome_cases outcome id l) as [->|(i & a & Hi & ->)]; [done|].
  simpl. rewrite list_fmap_insert, Hf, list_insert_id; [done|]. by rewrite list_lookup_fmap, Hi.
Qed.

Lemma record_outcome_frame outcome id l :
  rl_window_started_at_millis (record_outcome outcome id l).1 = rl_window_started_at_millis l /\
  rl_quarantined (record_outcome outcome id l).1 = rl_quarantined l.
Proof. by destruct (record_outcome_cases outcome id l) as [->|(i & a & Hi & ->)]. Qed.

Lemma retain_recent_keeps limit flags : forall retained,
  Forall2 (fun b k : bool => b = true -> k = true) flags (retain_recent limit retained flags).
Proof.
  induction flags as [|[] flags IH]; intros retained; simpl; [constructor|by constructor|].
  case_match; by constructor.
Qed.

Lemma keep_flags_keeps limit ws attempts :
  Forall2 (fun a k => must_keep ws a = true -> k = true) attempts (keep_flags limit ws attempts).
Proof.
  unfold keep_flags. apply (Forall2_fmap_l (must_keep ws) (fun b k : bool => b = true -> k = true)).
  rewrite <- (reverse_involutive (must_keep ws <$> attempts)) at 1.
  apply Forall2_reverse, retain_recent_keeps.
Qed.

(** Dropping flagged items keeps, in order, all that satisfy a test whose
    items are never flagged. *)
Lemma filter_kept {A} (p : A -> bool) (xs : list A) ks :
  Forall2 (fun x k => p x = true -> k = true) xs ks ->
  List.filter p (List.filter snd (zip xs ks)).*1 = List.filter p xs.
Proof.
  induction 1 as [|x k xs ks Hk _ IH]; simpl; [done|].
  destruct k, (p x) eqn:Hp; simpl; rewrite ?Hp; [by f_equal|done|by discriminate Hk|done].
Qed.

Lemma prune_history_cases limit now l :
  (prune_history limit now l).1 = l \/
  exists ks, (prune_history limit now l).1
      = set_attempts (List.filter snd (zip (rl_attempts l) ks)).*1 l /\
    Forall2 (fun a k => must_keep (rl_window_started_at_millis l) a = true -> k = true)
      (rl_attempts l) ks.
Proof.
  unfold prune_history. case_match; [by left|right]. eexists. split; [done|].
  apply keep_flags_keeps.
Qed.

Lemma rebind_policy_cases digest l :
  (rebind_policy digest l).1 = l \/ (rebind_policy digest l).1 = set_policy_digest digest l.
Proof. unfold rebind_policy, mseq, mlift, mmodify. destruct (map_err _ _); auto. Qed.

Lemma rate_inv_outcome outcome id l past :
  rate_inv l past -> rate_inv (record_outcome outcome id l).1 past.
Proof.
  intros Hinv. eapply rate_inv_same; [done|apply record_outcome_frame|].
  by rewrite record_outcome_fmap.
Qed.

Lemma rate_inv_prune limit now l past : rate_inv l past -> rate_inv (prune_history limit now l).1 past.
Proof.
  intros Hinv. destruct (prune_history_cases limit now l) as [->|(ks & -> & Hks)]; [done|].
  eapply rate_inv_same; [done|done|]. simpl. rewrite 2!(filter_fmap at_reserved_at_millis). f_equal.
  apply filter_kept.
  eapply Forall2_impl; [exact Hks|]. intros a k Hk Hin. apply Hk. unfold must_keep, in_window.
  by rewrite Hin.
Qed.

Lemma attempts_in_window_count l past :
  rate_inv l past ->
  attempts_in_window l
  = Z.min (count (Z.leb (rl_window_started_at_millis l)) (at_reserved_at_millis <$> past)) max_u32.
Proof.
  intros [Hc _ _ _]. unfold attempts_in_window, count. rewrite <- Hc, filter_fmap.
  unfold usize_of_len. by rewrite length_fmap.
Qed.

Lemma rate_inv_reserve policy decision generation fence now l past :
  q <= max_u32 -> call_within (CallReserve policy decision generation fence now) ->
  rate_inv l past ->
  let r := reserve_attempt policy decision generation fence now l in
  rate_inv r.1 (past ++ admitted_of r).
Proof.
  intros Hq (HW & Hqa & Hnow) Hinv r. subst r.
  destruct (reserve_attempt_effect policy decision generation fence now l)
    as [e|?|i a ? ? ?|l1 ? Hroll ?|l1 a ? Hroll ? Hlt ? ? ? Ht ? ? ?]; unfold admitted_of;
    cbn [fst snd]; rewrite ?app_nil_r; try done; subst l1;
    pose proof (rate_inv_roll l past now _ HW Hnow Hinv) as Hinv1.
  - by eapply rate_inv_same.
  - apply rate_inv_push; [done| |].
    + rewrite Ht. unfold roll_window. repeat case_match; simpl; lia.
    + rewrite (attempts_in_window_count _ _ Hinv1) in Hlt. lia.
Qed.

Lemma rate_inv_step l past c :
  q <= max_u32 -> call_within c -> rate_inv l past ->
  rate_inv (ledger_step l c).1 (past ++ (ledger_step l c).2).
Proof.
  intros Hq Hc Hinv. destruct c; cbn [ledger_step fst snd]; rewrite ?app_nil_r.
  - by apply rate_inv_reserve.
  - destruct Hc. by apply rate_inv_roll.
  - by apply rate_inv_outcome.
  - by apply rate_inv_outcome.
  - destruct (rebind_policy_cases digest l) as [-> | ->]; [done|]. by eapply rate_inv_same.
  - by apply rate_inv_prune.
Qed.

Lemma rate_inv_unbound subject digest start l :
  0 <= q -> ledger_unbound subject digest start = Ok l -> rate_inv l [].
Proof.
  unfold ledger_unbound. rewrite !check_ok. intros Hq (_ & _ & [= <-]).
  split; simpl; unfold count, usize_of_len; simpl; lia || done.
Qed.

(** C37. Over any calls on a fresh ledger (reservations
    under any policies and rebindings between them, window rolls, outcomes,
    prunes), if every policy presented has a window of at least [W]
    milliseconds and a quarantine threshold of at most [q], no interval of [W]
    milliseconds holds more than [2 * q] debited attempts, whether or not
    their records are still retained. *)
Theorem restart_rate_bounded subject digest start l calls lo
  (Hq : 0 <= q <= max_u32)
  (Hnew : ledger_unbound subject digest start = Ok l)
  (Hcalls : Forall call_within calls) :
  count (between lo (lo + W)) (at_reserved_at_millis <$> (ledger_run calls l).2) <= 2 * q.
Proof.
  apply (rate_all (ledger_run calls l).1).
  apply (ledger_run_inv call_within rate_inv) with (past := []); [|done|].
  - intros. apply rate_inv_step; [lia|done..].
  - eapply rate_inv_unbound; [lia|done].
Qed.
End Rate.

(** ** One debit per operation *)

Definition prunes (c : LedgerCall) : bool :=
  match c with
  | CallPrune _ _ => true
  | _ => false
  end.

Record debit_inv (l : RestartIntensityLedger) (past : list RestartAttemptRecord) : Prop := {
  debit_recorded : at_restart_operation_id <$> rl_attempts l = at_restart_operation_id <$> past;
  debit_distinct : NoDup (at_restart_operation_id <$> past);
}.

Lemma debit_inv_step l past c :
  prunes c = false -> debit_inv l past ->
  debit_inv (ledger_step l c).1 (past ++ (ledger_step l c).2).
Proof.
  intros Hc [Hr Hd]. destruct c; cbn [ledger_step fst snd]; rewrite ?app_nil_r; [| | | | |done].
  - destruct (reserve_attempt_effect policy decision generation fence now l)
      as [e|?|i a ? ? ?|l1 ? Hroll ?|l1 a ? Hroll ? ? Hni Hid ? ? ? ? ?]; unfold admitted_of;
      cbn [fst snd]; rewrite ?app_nil_r; try done; subst l1;
      destruct (roll_window_attempts now (ri_window_millis (rp_intensity policy)) l) as (Ha & _).
    + split; [|done]. simpl. by rewrite Ha.
    + split; simpl; rewrite ?Ha, !fmap_app; simpl; [by rewrite Hr|].
      apply NoDup_app. split_and!; [done| |apply NoDup_singleton].
      intros x Hx ->%list_elem_of_singleton. apply Hni. by rewrite <- Hid, Hr.
  - destruct (roll_window_attempts now window l) as (Ha & _). split; [|done]. by rewrite Ha.
  - split; [|done]. unfold record_launch_failure. by rewrite record_outcome_fmap.
  - split; [|done]. unfold record_replacement_admitted. by rewrite record_outcome_fmap.
  - by destruct (rebind_policy_cases digest l) as [-> | ->].
Qed.

(** As long as history is not pruned, no operation
    identity is debited twice: neither replays, nor failures, nor a new policy
    revision charge the same restart again, and every debit ever taken is
    still recorded. *)
Theorem restart_debited_once subject digest start l calls
  (Hnew : ledger_unbound subject digest start = Ok l)
  (Hcalls : Forall (fun c => prunes c = false) calls) :
  let '(l', debits) := ledger_run calls l in
  NoDup (at_restart_operation_id <$> debits) /\
  at_restart_operation_id <$> rl_attempts l' = at_restart_operation_id <$> debits.
Proof.
  pose proof (ledger_run_inv (fun c => prunes c = false) debit_inv debit_inv_step calls l [] Hcalls)
    as Hinv.
  destruct (ledger_run calls l) as [l' debits]. simpl in Hinv.
  unfold ledger_unbound in Hnew. rewrite !check_ok in Hnew. destruct Hnew as (_ & _ & [= <-]).
  destruct Hinv; [|done]. split; [done|constructor].
Qed.

(** ** Quarantine *)

Lemma quarantine_step l c :
  rl_quarantined l = true ->
  rl_quarantined (ledger_step l c).1 = true /\ (ledger_step l c).2 = [].
Proof.
  intros Hq. destruct c; cbn [ledger_step fst snd].
  - destruct (reserve_attempt_effect policy decision generation fence now l); simpl;
      congruence || done.
  - split; [|done]. by destruct (roll_window_attempts now window l) as (_ & -> & _).
  - split; [|done]. unfold record_launch_failure. by rewrite (proj2 (record_outcome_frame _ _ _)).
  - split; [|done]. unfold record_replacement_admitted.
    by rewrite (proj2 (record_outcome_frame _ _ _)).
  - split; [|done]. by destruct (rebind_policy_cases digest l) as [-> | ->].
  - split; [|done]. by destruct (prune_history_cases retain_limit now l) as [->|(ks & -> & _)].
Qed.

(** A reservation answered with [Quarantined] leaves a
    ledger on which no later call, of any kind and under any policy, debits an
    attempt again. *)
Theorem quarantine_is_final policy decision generation fence now l n threshold calls
  (Hden : (reserve_attempt policy decision generation fence now l).2
          = Ok (ResDenied (Quarantined n threshold))) :
  let l' := (reserve_attempt policy decision generation fence now l).1 in
  rl_quarantined (ledger_run calls l').1 = true /\ (ledger_run calls l').2 = [].
Proof.
  destruct (reserve_attempt_effect policy decision generation fence now l); simplify_eq/=.
  match goal with |- context [ledger_run calls ?l0] =>
    apply (ledger_run_inv (fun _ => True)
             (fun l past => rl_quarantined l = true /\ past = [])) with (past := []) (l := l0) end.
  - intros l2 past c _ [Hq ->]. by apply quarantine_step.
  - by apply Forall_true.
  - done.
Qed.

(** ** What an admitted attempt rests on *)

(** The decision holds under the policy and the ledger is about it. *)
Definition covers (policy : RestartPolicyV1) (decision : RestartDecisionRecord) (generation : Z)
    (fence : StateFence) (l : RestartIntensityLedger) : Prop :=
  decision_validate_for decision policy generation fence = Ok tt /\
  ledger_validate l = Ok tt /\
  rl_subject_id l = ro_subject_id (rr_operation decision) /\
  rl_policy_digest l = ro_policy_digest (rr_operation decision).

(** A reservation is answered exactly then. *)
Lemma reserve_attempt_answers policy decision generation fence now l :
  is_ok (reserve_attempt policy decision generation fence now l).2 = true <->
  covers policy decision generation fence l.
Proof.
  unfold covers, reserve_attempt, mseq at 1, mlift at 1.
  destruct (decision_validate_for decision policy generation fence) as [[]|e]; [|naive_solver].
  unfold mseq at 1, mstate at 1, mseq at 1, mlift at 1.
  destruct (ledger_validate l) as [[]|e]; cbn [map_err]; [|naive_solver].
  unfold mseq at 1, mlift at 1, guard_err.
  destruct (_ || _) eqn:Hg.
  { split; [done|]. intros (_ & _ & Hs & Hp). rewrite Hs, Hp, !bool_decide_true in Hg; done. }
  bool_facts. split; [done|intros _].
  destruct (Z.ltb_spec now (rl_window_started_at_millis l)) as [|Hle]; [done|].
  destruct (list_find _ _) as [[i a]|]; [done|].
  destruct (roll_window_ok now (ri_window_millis (rp_intensity policy)) l Hle) as [b Hr].
  unfold mseq at 1. rewrite Hr. unfold mseq, mstate, mmodify, mret_ok. by repeat case_match.
Qed.

(** A reservation debits an attempt exactly when the
    decision validates under the policy, the ledger is coherent and covers the
    decision's child and policy, the clock has not gone back, the operation
    holds no debit, the ledger is not quarantined and the (possibly rolled)
    window holds fewer attempts than the quarantine threshold; the declared
    attempt budget never decides. *)
Theorem restart_debit_exact policy decision generation fence now l :
  (exists a, (reserve_attempt policy decision generation fence now l).2 = Ok (ResAdmitted a)) <->
  decision_validate_for decision policy generation fence = Ok tt /\
  ledger_validate l = Ok tt /\
  rl_subject_id l = ro_subject_id (rr_operation decision) /\
  rl_policy_digest l = ro_policy_digest (rr_operation decision) /\
  rl_window_started_at_millis l <= now /\
  rr_restart_operation_id decision ∉ at_restart_operation_id <$> rl_attempts l /\
  rl_quarantined l = false /\
  attempts_in_window (roll_window now (ri_window_millis (rp_intensity policy)) l).1
  < ri_quarantine_after_attempts (rp_intensity policy).
Proof.
  pose proof (reserve_attempt_answers policy decision generation fence now l) as Hans.
  unfold covers in Hans.
  destruct (reserve_attempt_effect policy decision generation fence now l)
    as [e|?|i a ? Hi Hid|l1 ? Hroll Hq|l1 a ? Hroll ? ? ? ? ? ? ? ? ?]; simpl in *; subst.
  - naive_solver.
  - split; [naive_solver|]. lia.
  - split; [naive_solver|]. intros (_ & _ & _ & _ & _ & Hni & _). destruct Hni.
    rewrite <- Hid. apply list_elem_of_fmap_2. by eapply list_elem_of_lookup_2.
  - split; [naive_solver|]. intros (_ & _ & _ & _ & _ & _ & Hnq & Hlt).
    destruct Hq; [congruence|lia].
  - split; [|by eexists]. intros _. by destruct (proj1 Hans eq_refl) as (? & ? & ? & ?).
Qed.

Lemma dependents_declared_ok edges selected :
  dependents_declared edges selected = Ok tt ->
  Forall (fun d => exists edge, edge ∈ edges /\ rd_dependency_id edge = d
                                /\ rd_kind edge = DepRequired) selected.
Proof.
  induction selected as [|d rest IH]; simpl; [constructor|].
  destruct (list_find _ edges) as [[i edge]|] eqn:Hf; [|done].
  apply list_find_Some in Hf as (Hi & Hid & _).
  intros [Hk Hrest]%check_guard_ok. constructor; [|by apply IH].
  bool_facts. exists edge. split_and!; [by eapply list_elem_of_lookup_2|done..].
Qed.

Lemma unique_texts_ok values field :
  restart_unique_texts values field = Ok tt -> NoDup values.
Proof.
  unfold restart_unique_texts. intros (s & Hs & _)%rbind_ok.
  apply scan_distinct_ok in Hs as (_ & Hnd & _). by rewrite list_fmap_id in Hnd.
Qed.

(** A decision that validates is bound to the exact
    admitted policy (its digest, its child, the generation and fence it was
    admitted with), and the children it takes along are distinct, not the
    failed child itself, and all declared by that policy as required
    dependencies; an independent child takes nobody along. *)
Theorem recovery_set_declared decision policy generation fence
  (Hok : decision_validate_for decision policy generation fence = Ok tt) :
  let o := rr_operation decision in
  policy_digest policy = Ok (ro_policy_digest o) /\
  operation_derive o = Ok (rr_restart_operation_id decision) /\
  ro_subject_id o = rp_subject_id policy /\
  ro_original_generation o = generation /\ ro_original_state_fence o = fence /\
  resource_generation fence = generation /\ generation <> 0 /\
  NoDup (ro_selected_dependents o) /\ ro_subject_id o ∉ ro_selected_dependents o /\
  Forall (fun d => exists edge, edge ∈ rp_dependencies policy /\ rd_dependency_id edge = d
                                /\ rd_kind edge = DepRequired) (ro_selected_dependents o) /\
  (rp_group_strategy policy = OneForOne -> ro_selected_dependents o = []).
Proof.
  unfold decision_validate_for, operation_validate, admission_validate_for,
    restart_fence_validate in Hok.
  rewrite !check_ok in Hok.
  destruct Hok as (_ & Hop%map_err_ok & Hf%map_err_ok & Hadm & Hg%guard_err_ok & Hsel%map_err_ok & Hok).
  apply rbind_ok in Hok as (derived & Hder & Hok). apply check_guard_ok in Hok as [Hid _].
  destruct Hadm as [_ (digest & Hdig & Hadm)%rbind_ok].
  rewrite ?map_err_ok, ?check_ok in Hop.
  destruct Hop as (_ & _ & _ & Hgen%guard_err_ok & Hu%unique_texts_ok & Hself%guard_err_ok & _).
  apply guard_err_ok in Hadm. bool_facts. rewrite Z.eqb_eq in *.
  apply StateFence_validate_ok in Hf. rewrite existsb_false_iff in Hself.
  unfold validate_selected_dependents in Hsel. simpl.
  rewrite Forall_forall in Hself. split_and!; try congruence.
  - intros Hin. specialize (Hself _ Hin). simpl in Hself. by rewrite bool_decide_true in Hself.
  - case_bool_decide; [|by apply dependents_declared_ok].
    apply guard_err_ok, negb_false_iff, bool_decide_eq_true in Hsel. by rewrite Hsel.
  - intros HO. rewrite bool_decide_true in Hsel by done.
    by apply guard_err_ok, negb_false_iff, bool_decide_eq_true in Hsel.
Qed.
End Runs.
