(* ===== verification/RestartFindings.v ===== *)
(** * Restart intensity: concrete runs

    The bounds at work on a small policy, and the behaviours of the ledger
    that the comments of restart_policy.rs exclude. *)

From Stdlib Require Import String.
From S2P Require Import Prelude RustText Contracts Receipts RuntimeErrors CapacityContracts.
From S2P Require Import RestartPolicy RestartLedger RestartLaws.

#[local] Open Scope string_scope.
#[local] Open Scope list_scope.
#[local] Open Scope Z_scope.

(** ** A small system *)

(** Encoders that tell operations apart by the generation they replace. *)
#[local] Instance sample_wire : RestartWire := {|
  restart_sha256 := fun bytes => bytes;
  policy_json := fun p => Ok (bytes (rp_subject_id p));
  operation_json := fun o => Ok [ro_original_generation o];
|}.

Definition child_epoch : EpochId :=
  {| lineage_id := {| lineage_text := "550e8400-e29b-41d4-a716-446655440000" |}; sequence := 1 |}.

Definition child_fence (generation : Z) : StateFence := StateFence_new child_epoch generation.

Definition sample_intensity : RestartIntensityPolicy :=
  {| ri_max_attempts_in_window := 5; ri_window_millis := 100; ri_backoff_initial_millis := 1;
     ri_backoff_max_millis := 10; ri_jitter_max_millis := 1; ri_cooldown_millis := 50;
     ri_reset_after_healthy_millis := 1000; ri_quarantine_after_attempts := 2;
     ri_escalation_target := "operator" |}.

Definition sample_policy : RestartPolicyV1 :=
  {| rp_policy_version := 1; rp_subject_id := "child"; rp_restart_class := Permanent;
     rp_group_id := "group"; rp_group_strategy := RestForOne; rp_one_for_all_rationale := None;
     rp_dependencies :=
       [{| rd_dependency_id := "store"; rd_kind := DepRequired;
           rd_invalidation_triggers := [StateFenceInvalidated] |};
        {| rd_dependency_id := "cache"; rd_kind := DepOptional;
           rd_invalidation_triggers := [HealthContractFailed] |}];
     rp_intensity := sample_intensity; rp_source_manifest_revision := 1;
     rp_source_profile_revision := 1 |}.

Definition child_digest : string := hex_encode (bytes "child").

Definition sample_binding (generation : Z) : RestartPolicyAdmissionBinding :=
  {| pa_policy_digest := child_digest; pa_source_manifest_revision := 1;
     pa_source_profile_revision := 1; pa_admitted_generation := generation;
     pa_state_fence := child_fence generation |}.

(** The replacement of one generation, decided and dispatchable at the given times. *)
Definition decided (generation at_millis next_allowed : Z) : RestartDecisionRecord :=
  {| rr_operation :=
       {| ro_subject_id := "child"; ro_original_generation := generation;
          ro_original_state_fence := child_fence generation; ro_policy_digest := child_digest;
          ro_failure := AbnormalExit; ro_selected_dependents := ["store"];
          ro_unresolved_effects := [] |};
     rr_policy_admission := sample_binding generation;
     rr_restart_operation_id := hex_encode [generation];
     rr_source_manifest_revision := 1; rr_source_profile_revision := 1;
     rr_capacity_class := ProtectedControl; rr_exhausted_bottlenecks := [];
     rr_decided_at_millis := at_millis; rr_next_allowed_at_millis := next_allowed |}.

(** A restart of one generation, reserved when it is decided. *)
Definition restart (generation at_millis : Z) : LedgerCall :=
  CallReserve sample_policy (decided generation at_millis (at_millis + 10)) generation
    (child_fence generation) at_millis.

Definition fresh_ledger : RestartIntensityLedger :=
  {| rl_subject_id := "child"; rl_policy_digest := child_digest; rl_window_started_at_millis := 0;
     rl_quarantined := false; rl_attempts := [] |}.

Lemma fresh_ledger_unbound : ledger_unbound "child" child_digest 0 = Ok fresh_ledger.
Proof. by vm_compute. Qed.

(** ** The rate *)

(** Twice the quarantine threshold is reached: two attempts at the end of a
    window and two at the start of the next one, within one window's length. *)
Definition burst : list LedgerCall :=
  [restart 1 98; restart 2 99; restart 3 100; restart 4 101].

Example restart_rate_reached :
  count (between 98 (98 + 100)) (at_reserved_at_millis <$> (ledger_run burst fresh_ledger).2) = 4.
Proof. by vm_compute. Qed.

Lemma burst_within : Forall (call_within 100 2) burst.
Proof. repeat constructor; vm_compute; congruence. Qed.

Lemma restart_rate_bounded_witness :
  count (between 98 (98 + 100)) (at_reserved_at_millis <$> (ledger_run burst fresh_ledger).2)
  <= 2 * 2.
Proof.
  apply (restart_rate_bounded 100 2 "child" child_digest 0 fresh_ledger burst 98).
  - by vm_compute.
  - apply fresh_ledger_unbound.
  - apply burst_within.
Defined.

Definition fresh_id (generation : Z) : string := hex_encode [generation].

Definition retried : list LedgerCall :=
  [restart 1 10; CallLaunchFailure (fresh_id 1); CallRebind child_digest; restart 1 20; restart 2 30].

Lemma restart_debited_once_witness :
  let '(l', debits) := ledger_run retried fresh_ledger in
  NoDup (at_restart_operation_id <$> debits) /\
  at_restart_operation_id <$> rl_attempts l' = at_restart_operation_id <$> debits.
Proof.
  apply (restart_debited_once "child" child_digest 0 fresh_ledger retried).
  - apply fresh_ledger_unbound.
  - repeat constructor.
Defined.

Definition full_ledger : RestartIntensityLedger :=
  (ledger_run [restart 1 10; restart 2 20] fresh_ledger).1.

Lemma quarantine_is_final_witness :
  (reserve_attempt sample_policy (decided 3 30 40) 3 (child_fence 3) 30 full_ledger).2
  = Ok (ResDenied (Quarantined 2 2)) /\
  (ledger_run [restart 4 500; CallRebind "other"; restart 5 1000]
     (reserve_attempt sample_policy (decided 3 30 40) 3 (child_fence 3) 30 full_ledger).1).2 = [].
Proof.
  split; [by vm_compute|].
  apply (quarantine_is_final sample_policy (decided 3 30 40) 3 (child_fence 3) 30 full_ledger 2 2
           [restart 4 500; CallRebind "other"; restart 5 1000]).
  by vm_compute.
Defined.

Lemma recovery_set_declared_witness :
  ro_selected_dependents (rr_operation (decided 1 10 20)) = ["store"] /\
  exists edge, edge ∈ rp_dependencies sample_policy /\ rd_dependency_id edge = "store"
               /\ rd_kind edge = DepRequired.
Proof.
  split; [done|].
  destruct (recovery_set_declared (decided 1 10 20) sample_policy 1 (child_fence 1)) as
    (_ & _ & _ & _ & _ & _ & _ & _ & _ & Hdep & _); [by vm_compute|].
  by apply Forall_cons in Hdep as [Hdep _].
Defined.

(** ** Behaviours that the comments exclude *)

Lemma attempt_validate_times subject a :
  attempt_validate subject a = Ok tt -> at_reserved_at_millis a <= at_next_allowed_at_millis a.
Proof.
  unfold attempt_validate. rewrite !check_ok, !guard_err_ok.
  by intros (_ & _ & Hlt%Z.ltb_ge & _).
Qed.

(** A reservation taken after the earliest dispatch time that the decision
    names (the time the owner has to wait for) records an attempt that the
    ledger's own validation rejects: from then on every reservation is
    refused with an error. *)
Theorem late_reservation_bricks_ledger `{RestartWire} policy decision generation fence now l a
    policy' decision' generation' fence' now' :
  (reserve_attempt policy decision generation fence now l).2 = Ok (ResAdmitted a) ->
  rr_next_allowed_at_millis decision < now ->
  is_ok (reserve_attempt policy' decision' generation' fence' now'
           (reserve_attempt policy decision generation fence now l).1).2 = false.
Proof.
  intros Hadm Hlate. apply not_true_iff_false. rewrite reserve_attempt_answers. intros (_ & Hv & _).
  destruct (reserve_attempt_effect policy decision generation fence now l)
    as [| | | |l1 b ? Hroll ? ? ? ? ? Ht Hn ? ?]; simplify_eq/=.
  unfold ledger_validate in Hv. rewrite !check_ok in Hv.
  destruct Hv as (_ & _ & (s & Hs & _)%rbind_ok).
  apply scan_distinct_ok in Hs as (Hall & _). cbn [rl_attempts set_attempts] in Hall.
  apply Forall_app in Hall as [_ Hall]. apply Forall_cons in Hall as [Hall _].
  apply attempt_validate_times in Hall. lia.
Qed.

(** It happens on the small system: decided at 10, dispatchable from 20,
    reserved at 25. *)
Example late_reservation_happens :
  let r := reserve_attempt sample_policy (decided 1 10 20) 1 (child_fence 1) 25 fresh_ledger in
  (exists a, r.2 = Ok (ResAdmitted a)) /\
  is_ok (reserve_attempt sample_policy (decided 2 500 600) 2 (child_fence 2) 500 r.1).2 = false.
Proof.
  split; [eexists; by vm_compute|].
  eapply late_reservation_bricks_ledger; [by vm_compute|by vm_compute].
Qed.

(** Pruning discards attempts, and a discarded operation is debited again. *)
Example pruned_operation_debited_again :
  let debits := (ledger_run [restart 1 10; CallReplacementAdmitted (fresh_id 1); restart 2 200;
                             CallPrune 0 200; restart 1 210] fresh_ledger).2 in
  at_restart_operation_id <$> debits = [fresh_id 1; fresh_id 2; fresh_id 1].
Proof. by vm_compute. Qed.

(** A window that reached the quarantine threshold is not recorded as
    quarantined; if nothing is reserved before it ends, the child goes on. *)
Example threshold_reached_not_quarantined :
  attempts_in_window full_ledger = ri_quarantine_after_attempts sample_intensity /\
  rl_quarantined full_ledger = false /\
  length (ledger_run [restart 3 110] full_ledger).2 = 1%nat.
Proof. by vm_compute. Qed.
