(* ===== verification/ModuleGraph.v ===== *)
(** * Module contracts and the required-capability graph

    The contract of a module and its validation
    (crates/foundation/eliot-runtime-contracts/src/lib.rs), and the resolution
    of a module set: providers, edges, external bindings, degradations, the
    depth-first search for a cycle and the startup order
    (src/module_graph.rs of the same crate).

    The recursion of the search and the loop of the order take fuel; they
    answer [None] without it, which does not happen with the fuel given here
    (one unit more than there are modules). *)

From Stdlib Require Import String.
From S2P Require Import Prelude RustText Contracts Receipts RuntimeErrors.

#[local] Open Scope string_scope.
#[local] Open Scope list_scope.
#[local] Open Scope Z_scope.

Abbreviation GrR := (result RuntimeContractError).

(** ** The contract of a module *)

Record ModuleContract : Type := {
  mc_module_id : ContractId;
  mc_version : ContractVersion;
  mc_artifact_id : ArtifactId;
  mc_protocols : list string;
  mc_capabilities : list string;
  mc_required_capabilities : list string;
  mc_optional_capabilities : list string;
  mc_advisory_capabilities : list string;
  mc_state_owner : string;
  mc_failure_domain : string;
  mc_owner : string;
  mc_hot_replace : bool;
  mc_startup_after : list string;
  mc_drain_before : list string;
  mc_invalidation_triggers : list string;
  mc_supervision_plan : string;
  mc_child_restart : string;
  mc_restart_intensity : string;
  mc_resource_profile : string;
  mc_privacy_classes : list string;
  mc_permissions : list string;
  mc_health_contract : string;
  mc_checkpoint_contract : string;
  mc_compatibility_state : string;
  mc_independent_test_profile : string;
  mc_contract_fixture_set : string;
  mc_affected_test_tags : list string;
  mc_architecture : list string;
  mc_telemetry : string;
  mc_removal_boundary : string;
}.

#[global] Instance ModuleContract_eq_dec : EqDecision ModuleContract.
Proof. solve_decision. Defined.

Definition contract_text (value field : string) : GrR unit :=
  check? guard_err (is_blank value) (RBlank field);
  guard_err (has_control value) (RInvalidField field "must not contain control characters").

Definition capability_list (values : list string) (field : string) : GrR (gset string) :=
  scan_distinct (fun v => contract_text v field) id
    (fun _ => RInvalidField field "must not contain duplicates") ∅ values.

(** The first element of [a.intersection(b)]. *)
Definition first_common (a b : gset string) : option string := head (btree_set_iter (a ∩ b)).

Definition no_common (a b : gset string) (e : string -> RuntimeContractError) : GrR unit :=
  match first_common a b with
  | Some capability => Err (e capability)
  | None => Ok tt
  end.

(** Every value is a required capability. *)
Definition order_list (required : gset string) (values : list string) (field : string)
    : GrR unit :=
  for_each (fun capability =>
    guard_err (bool_decide (capability ∉ required))
      (RInvalidField field "must be a required capability of this module")) values.

Definition contract_validate (c : ModuleContract) : GrR unit :=
  check? contract_text (mc_module_id c) "module_id";
  check? contract_text (mc_artifact_id c) "artifact_id";
  check? contract_text (mc_state_owner c) "state_owner";
  check? contract_text (mc_failure_domain c) "failure_domain";
  check? contract_text (mc_owner c) "owner";
  check? guard_err (bool_decide (mc_protocols c = []))
           (RInvalidField "protocols" "at least one protocol is required");
  let? _ := capability_list (mc_protocols c) "protocols" in
  let? provided := capability_list (mc_capabilities c) "capabilities" in
  let? required := capability_list (mc_required_capabilities c) "required_capabilities" in
  let? optional := capability_list (mc_optional_capabilities c) "optional_capabilities" in
  let? advisory := capability_list (mc_advisory_capabilities c) "advisory_capabilities" in
  check? no_common provided required (RSelfCapabilityDependency (mc_module_id c));
  check? no_common required optional (RCapabilityRoleConflict (mc_module_id c));
  check? no_common required advisory (RCapabilityRoleConflict (mc_module_id c));
  let? _ := capability_list (mc_startup_after c) "startup_after" in
  let? _ := capability_list (mc_drain_before c) "drain_before" in
  check? order_list required (mc_startup_after c) "startup_after";
  check? order_list required (mc_drain_before c) "drain_before";
  let? _ := capability_list (mc_invalidation_triggers c) "invalidation_triggers" in
  check? contract_text (mc_supervision_plan c) "supervision_plan";
  check? contract_text (mc_child_restart c) "child_restart";
  check? contract_text (mc_restart_intensity c) "restart_intensity";
  check? contract_text (mc_resource_profile c) "resource_profile";
  let? _ := capability_list (mc_privacy_classes c) "privacy_classes" in
  let? _ := capability_list (mc_permissions c) "permissions" in
  check? contract_text (mc_health_contract c) "health_contract";
  check? contract_text (mc_checkpoint_contract c) "checkpoint_contract";
  check? contract_text (mc_compatibility_state c) "compatibility_state";
  check? contract_text (mc_independent_test_profile c) "independent_test_profile";
  check? contract_text (mc_contract_fixture_set c) "contract_fixture_set";
  let? _ := capability_list (mc_affected_test_tags c) "affected_test_tags" in
  let? _ := capability_list (mc_architecture c) "architecture" in
  check? contract_text (mc_telemetry c) "telemetry";
  contract_text (mc_removal_boundary c) "removal_boundary".

(** ** Graph data *)

Inductive CapabilityRole : Type := RoleRequired | RoleOptional | RoleAdvisory.

#[global] Instance CapabilityRole_eq_dec : EqDecision CapabilityRole.
Proof. solve_decision. Defined.

Record RequiredCapabilityEdge : Type := {
  ge_consumer : ContractId;
  ge_capability : string;
  ge_provider : ContractId;
}.

#[global] Instance RequiredCapabilityEdge_eq_dec : EqDecision RequiredCapabilityEdge.
Proof. solve_decision. Defined.

Record ExternalCapabilityBinding : Type := {
  gb_consumer : ContractId;
  gb_capability : string;
  gb_owner : string;
}.

#[global] Instance ExternalCapabilityBinding_eq_dec : EqDecision ExternalCapabilityBinding.
Proof. solve_decision. Defined.

Record UnresolvedCapability : Type := {
  gu_consumer : ContractId;
  gu_capability : string;
  gu_kind : CapabilityRole;
}.

#[global] Instance UnresolvedCapability_eq_dec : EqDecision UnresolvedCapability.
Proof. solve_decision. Defined.

Record RequiredCapabilityGraph : Type := {
  rg_edges : list RequiredCapabilityEdge;
  rg_external_bindings : list ExternalCapabilityBinding;
  rg_startup_order : list ContractId;
  rg_drain_order : list ContractId;
  rg_degraded : list UnresolvedCapability;
}.

#[global] Instance RequiredCapabilityGraph_eq_dec : EqDecision RequiredCapabilityGraph.
Proof. solve_decision. Defined.

Definition edges_for (g : RequiredCapabilityGraph) (module_id : ContractId)
    : list RequiredCapabilityEdge :=
  filter (fun e => ge_consumer e = module_id) (rg_edges g).

Definition degraded_for (g : RequiredCapabilityGraph) (module_id : ContractId)
    : list UnresolvedCapability :=
  filter (fun u => gu_consumer u = module_id) (rg_degraded g).

Record CapabilityResolution : Type := {
  cr_edges : list RequiredCapabilityEdge;
  cr_external_bindings : list ExternalCapabilityBinding;
  cr_degraded : list UnresolvedCapability;
}.

Definition resolution_default : CapabilityResolution :=
  {| cr_edges := []; cr_external_bindings := []; cr_degraded := [] |}.

Definition push_edge (e : RequiredCapabilityEdge) (r : CapabilityResolution)
    : CapabilityResolution :=
  {| cr_edges := cr_edges r ++ [e]; cr_external_bindings := cr_external_bindings r;
     cr_degraded := cr_degraded r |}.

Definition push_external (b : ExternalCapabilityBinding) (r : CapabilityResolution)
    : CapabilityResolution :=
  {| cr_edges := cr_edges r; cr_external_bindings := cr_external_bindings r ++ [b];
     cr_degraded := cr_degraded r |}.

Definition push_degraded (u : UnresolvedCapability) (r : CapabilityResolution)
    : CapabilityResolution :=
  {| cr_edges := cr_edges r; cr_external_bindings := cr_external_bindings r;
     cr_degraded := cr_degraded r ++ [u] |}.

(** ** Sorting

    [slice::sort_by] is stable: an element is inserted before the first that
    is not smaller, from the right. *)

Section StableSort.
Context {A : Type} (le : A -> A -> bool).

Fixpoint insert_sorted (x : A) (l : list A) : list A :=
  match l with
  | [] => [x]
  | y :: l' => if le x y then x :: l else y :: insert_sorted x l'
  end.

Definition stable_sort (l : list A) : list A := foldr insert_sorted [] l.
End StableSort.

(** [str::cmp] as a test. *)
Definition string_leb (a b : string) : bool := bool_decide (String.le a b).

Definition sort_by_consumer_and_capability {A} (consumer capability : A -> string) : list A -> list A :=
  stable_sort (fun l r =>
    if consumer l == consumer r then string_leb (capability l) (capability r)
    else string_leb (consumer l) (consumer r)).

Definition resolution_sort (r : CapabilityResolution) : CapabilityResolution :=
  {| cr_edges := sort_by_consumer_and_capability ge_consumer ge_capability (cr_edges r);
     cr_external_bindings :=
       sort_by_consumer_and_capability gb_consumer gb_capability (cr_external_bindings r);
     cr_degraded := sort_by_consumer_and_capability gu_consumer gu_capability (cr_degraded r) |}.

Definition sorted_contracts : list ModuleContract -> list ModuleContract :=
  stable_sort (fun l r => string_leb (mc_module_id l) (mc_module_id r)).

(** ** Providers *)

Abbreviation CapabilityProviders := (gmap string (gset ContractId)).

(** [map.entry(key).or_default().insert(value)] *)
Definition entry_insert (m : gmap string (gset string)) (key value : string)
    : gmap string (gset string) :=
  <[key := {[value]} ∪ default ∅ (m !! key)]> m.

Definition declare_capabilities (c : ModuleContract) (providers : CapabilityProviders)
    : CapabilityProviders :=
  foldl (fun m capability => entry_insert m capability (mc_module_id c)) providers
    (mc_capabilities c).

Definition index_module (acc : gset ContractId * CapabilityProviders) (c : ModuleContract)
    : GrR (gset ContractId * CapabilityProviders) :=
  let '(module_ids, providers) := acc in
  if bool_decide (mc_module_id c ∈ module_ids) then
    Err (RInvalidField "module_id" "module contracts must be unique")
  else Ok ({[mc_module_id c]} ∪ module_ids, declare_capabilities c providers).

Definition index_capability_providers (contracts : list ModuleContract)
    : GrR (gset ContractId * CapabilityProviders) :=
  fold_res index_module (∅, ∅) contracts.

(** ** Resolution *)

(** [iter.join(separator)] *)
Fixpoint join_strings (separator : string) (parts : list string) : string :=
  match parts with
  | [] => ""
  | [p] => p
  | p :: rest => p +:+ separator +:+ join_strings separator rest
  end.

Definition candidates (module_id : ContractId) (capability : string)
    (providers : CapabilityProviders) : list ContractId :=
  match providers !! capability with
  | Some declared => filter (fun p => p <> module_id) (btree_set_iter declared)
  | None => []
  end.

Section Resolution.
Variable external_providers : gmap string string.

Definition resolve_required_capability (c : ModuleContract) (providers : CapabilityProviders)
    (r : CapabilityResolution) (capability : string) : GrR CapabilityResolution :=
  match candidates (mc_module_id c) capability providers with
  | provider :: additional =>
      check? guard_err (negb (bool_decide (additional = [])))
               (RAmbiguousRequiredCapability (mc_module_id c) capability
                  (join_strings ", " (provider :: additional)));
      Ok (push_edge {| ge_consumer := mc_module_id c; ge_capability := capability;
                       ge_provider := provider |} r)
  | [] =>
      if bool_decide (mc_module_id c ∈ default ∅ (providers !! capability)) then
        Err (RSelfCapabilityDependency (mc_module_id c) capability)
      else match external_providers !! capability with
      | Some owner =>
          Ok (push_external {| gb_consumer := mc_module_id c; gb_capability := capability;
                               gb_owner := owner |} r)
      | None => Err (RUnresolvedRequiredCapability (mc_module_id c) capability)
      end
  end.

Definition collect_degraded (c : ModuleContract) (role : CapabilityRole)
    (providers : CapabilityProviders) (r : CapabilityResolution) (capability : string)
    : CapabilityResolution :=
  if negb (is_some (providers !! capability)) && negb (is_some (external_providers !! capability))
  then push_degraded {| gu_consumer := mc_module_id c; gu_capability := capability;
                        gu_kind := role |} r
  else r.

Definition collect_degraded_capabilities (c : ModuleContract) (capabilities : list string)
    (role : CapabilityRole) (providers : CapabilityProviders) (r : CapabilityResolution)
    : CapabilityResolution :=
  foldl (collect_degraded c role providers) r capabilities.

Definition resolve_contract_dependencies (providers : CapabilityProviders)
    (r : CapabilityResolution) (c : ModuleContract) : GrR CapabilityResolution :=
  let? r := fold_res (resolve_required_capability c providers) r (mc_required_capabilities c) in
  let r := collect_degraded_capabilities c (mc_optional_capabilities c) RoleOptional providers r in
  Ok (collect_degraded_capabilities c (mc_advisory_capabilities c) RoleAdvisory providers r).
End Resolution.

Definition edge_adjacency (edges : list RequiredCapabilityEdge) : gmap ContractId (gset ContractId) :=
  foldl (fun m e => entry_insert m (ge_consumer e) (ge_provider e)) ∅ edges.

(** ** Cycle search *)

Inductive VisitColor : Type := White | Gray | Black.

#[global] Instance VisitColor_eq_dec : EqDecision VisitColor.
Proof. solve_decision. Defined.

Abbreviation Colors := (gmap ContractId VisitColor).

(** The colours and the stack that a visit leaves, and the cycle it found. *)
Definition Visit : Type := Colors * list ContractId * option (list ContractId).

(** [&stack[position(provider)..]] *)
Definition stack_from (provider : ContractId) (stack : list ContractId) : list ContractId :=
  drop (default 0%nat (fst <$> list_find (eq provider) stack)) stack.

Fixpoint visit_providers (visit : ContractId -> Colors -> list ContractId -> option Visit)
    (providers : list ContractId) (color : Colors) (stack : list ContractId) : option Visit :=
  match providers with
  | [] => Some (color, stack, None)
  | provider :: rest =>
      match color !! provider with
      | Some Gray => Some (color, stack, Some (stack_from provider stack))
      | Some White =>
          match visit provider color stack with
          | None => None
          | Some (color', stack', Some cycle) => Some (color', stack', Some cycle)
          | Some (color', stack', None) => visit_providers visit rest color' stack'
          end
      | Some Black | None => visit_providers visit rest color stack
      end
  end.

Fixpoint visit_capability_graph (fuel : nat) (adjacency : gmap ContractId (gset ContractId))
    (node : ContractId) (color : Colors) (stack : list ContractId) : option Visit :=
  match fuel with
  | O => None
  | S fuel' =>
      match visit_providers (visit_capability_graph fuel' adjacency)
              (btree_set_iter (default ∅ (adjacency !! node)))
              (<[node := Gray]> color) (stack ++ [node]) with
      | None => None
      | Some (color', stack', Some cycle) => Some (color', stack', Some cycle)
      | Some (color', stack', None) =>
          Some (<[node := Black]> color', removelast stack', None)
      end
  end.

Fixpoint search_nodes (fuel : nat) (adjacency : gmap ContractId (gset ContractId))
    (nodes : list ContractId) (color : Colors) (stack : list ContractId)
    : option (option (list ContractId)) :=
  match nodes with
  | [] => Some None
  | node :: rest =>
      if bool_decide (color !! node = Some White) then
        match visit_capability_graph fuel adjacency node color stack with
        | None => None
        | Some (_, _, Some cycle) => Some (Some cycle)
        | Some (color', stack', None) => search_nodes fuel adjacency rest color' stack'
        end
      else search_nodes fuel adjacency rest color stack
  end.

Definition find_required_capability_cycle (module_ids : gset ContractId)
    (adjacency : gmap ContractId (gset ContractId)) : option (option (list ContractId)) :=
  search_nodes (S (size module_ids)) adjacency (btree_set_iter module_ids)
    (gset_to_gmap White module_ids) [].

(** ** Startup order *)

Definition count_edge (in_degree : gmap ContractId Z) (e : RequiredCapabilityEdge)
    : gmap ContractId Z :=
  <[ge_consumer e := default 0 (in_degree !! ge_consumer e) + 1]> in_degree.

Definition reverse_edges (edges : list RequiredCapabilityEdge)
    : gmap ContractId (gset ContractId) :=
  foldl (fun m e => entry_insert m (ge_provider e) (ge_consumer e)) ∅ edges.

Definition in_degrees (module_ids : gset ContractId) (edges : list RequiredCapabilityEdge)
    : gmap ContractId Z :=
  foldl count_edge (gset_to_gmap 0 module_ids) edges.

Record OrderState : Type := {
  os_in_degree : gmap ContractId Z;
  os_ready : gset ContractId;
  os_startup_order : list ContractId;
}.

(** One waiting consumer of a module that was just started. *)
Definition release_consumer (s : OrderState) (consumer : ContractId) : OrderState :=
  match os_in_degree s !! consumer with
  | None => s
  | Some degree =>
      let degree := Z.max 0 (degree - 1) in
      {| os_in_degree := <[consumer := degree]> (os_in_degree s);
         os_ready := if degree =? 0 then {[consumer]} ∪ os_ready s else os_ready s;
         os_startup_order := os_startup_order s |}
  end.

Definition start_next (reverse : gmap ContractId (gset ContractId)) (s : OrderState)
    : OrderState + list ContractId :=
  match btree_set_iter (os_ready s) with
  | [] => inr (os_startup_order s)
  | next :: _ =>
      inl (foldl release_consumer
             {| os_in_degree := os_in_degree s; os_ready := os_ready s ∖ {[next]};
                os_startup_order := os_startup_order s ++ [next] |}
             (btree_set_iter (default ∅ (reverse !! next))))
  end.

Definition order_start (module_ids : gset ContractId) (edges : list RequiredCapabilityEdge)
    : OrderState :=
  {| os_in_degree := in_degrees module_ids edges;
     os_ready := dom (filter (fun kv => kv.2 = 0) (in_degrees module_ids edges));
     os_startup_order := [] |}.

Definition topological_orders (module_ids : gset ContractId) (edges : list RequiredCapabilityEdge)
    : option (list ContractId * list ContractId) :=
  match loop (S (size module_ids)) (start_next (reverse_edges edges))
          (order_start module_ids edges) with
  | None => None
  | Some startup_order => Some (startup_order, reverse startup_order)
  end.

(** ** The resolver *)

Definition resolve_edges (contracts : list ModuleContract) (external_providers : gmap string string)
    : GrR (gset ContractId * CapabilityResolution) :=
  check? for_each contract_validate contracts;
  let? (module_ids, providers) := index_capability_providers contracts in
  let? r := fold_res (resolve_contract_dependencies external_providers providers)
              resolution_default (sorted_contracts contracts) in
  Ok (module_ids, resolution_sort r).

Definition resolve_required_capability_graph (contracts : list ModuleContract)
    (external_providers : gmap string string) : option (GrR RequiredCapabilityGraph) :=
  match resolve_edges contracts external_providers with
  | Err e => Some (Err e)
  | Ok (module_ids, r) =>
      match find_required_capability_cycle module_ids (edge_adjacency (cr_edges r)) with
      | None => None
      | Some (Some path) => Some (Err (RRequiredCapabilityCycle (join_strings " -> " path)))
      | Some None =>
          match topological_orders module_ids (cr_edges r) with
          | None => None
          | Some (startup_order, drain_order) =>
              Some (Ok {| rg_edges := cr_edges r;
                          rg_external_bindings := cr_external_bindings r;
                          rg_startup_order := startup_order; rg_drain_order := drain_order;
                          rg_degraded := cr_degraded r |})
          end
      end
  end.
