(* ===== verification/ModuleGraphLaws.v ===== *)
(** * Required-capability graph: the search and the order

    The depth-first search finds a cycle exactly when there is one, and the
    startup order is the largest one in which every provider precedes its
    consumers, up to the way the code counts edges. *)

From Stdlib Require Import String.
From stdpp Require Import relations.
From S2P Require Import Prelude RustText Contracts Receipts RuntimeErrors ModuleGraph.

#[local] Open Scope list_scope.
#[local] Open Scope Z_scope.

Lemma elem_of_btree_set_iter (s : gset string) x : x ∈ btree_set_iter s <-> x ∈ s.
Proof. unfold btree_set_iter. by rewrite (merge_sort_Permutation String.le), elem_of_elements. Qed.

Lemma btree_set_iter_NoDup (s : gset string) : NoDup (btree_set_iter s).
Proof. unfold btree_set_iter. rewrite (merge_sort_Permutation String.le). apply NoDup_elements. Qed.

(** A step to the right closes a cycle through its first step. *)
Lemma tc_first {A} (R : relation A) x z : tc R x z -> exists y, R x y /\ rtc R y z.
Proof. intros [y Hy|y ? Hy Hr]; eauto using rtc_refl, tc_rtc. Qed.

(** ** Depth-first search *)

Section Search.
Context (ids : gset string) (adjacency : gmap string (gset string)).

(** [x] requires something of [y]. *)
Definition linked (x y : string) : Prop := y ∈ default ∅ (adjacency !! x).

Definition path_of (l : list string) : Prop :=
  forall i x y, l !! i = Some x -> l !! S i = Some y -> linked x y.

Definition is_cycle (l : list string) : Prop :=
  path_of l /\ Forall (.∈ ids) l /\
  exists first final, head l = Some first /\ last l = Some final /\ linked final first.

Hypothesis linked_ids : forall x y, linked x y -> x ∈ ids /\ y ∈ ids.

Definition whites (color : Colors) : gset string := dom (filter (fun kv => kv.2 = White) color).

Lemma elem_of_whites color x : x ∈ whites color <-> color !! x = Some White.
Proof.
  unfold whites. rewrite elem_of_dom. unfold is_Some. setoid_rewrite map_lookup_filter_Some.
  simpl. naive_solver.
Qed.

Record dfs_inv (color : Colors) (stack : list string) : Prop := {
  dfs_dom : dom color = ids;
  dfs_gray x : color !! x = Some Gray <-> x ∈ stack;
  dfs_nodup : NoDup stack;
  dfs_path : path_of stack;
  dfs_black x y : color !! x = Some Black -> linked x y -> color !! y = Some Black;
  dfs_acyclic x : color !! x = Some Black -> ~ tc linked x x;
}.

(** What later colours keep of earlier ones. *)
Definition darker (color color' : Colors) : Prop :=
  (forall x, color !! x = Some Black -> color' !! x = Some Black) /\
  whites color' ⊆ whites color.

#[local] Instance darker_preorder : PreOrder darker.
Proof.
  split; [by intros c; split|]. intros c1 c2 c3 [H1 H2] [H3 H4]. split; [auto|set_solver].
Qed.

(** A visit ends with a cycle, or with the stack restored and [done] black. *)
Definition visit_post (done : list string) (color : Colors) (stack : list string) (r : Visit)
    : Prop :=
  match r with
  | (_, _, Some cycle) => is_cycle cycle
  | (color', stack', None) =>
      stack' = stack /\ dfs_inv color' stack /\ darker color color' /\
      Forall (fun x => color' !! x = Some Black) done
  end.

Definition follows (stack : list string) (node : string) : Prop :=
  forall top, last stack = Some top -> linked top node.

Lemma path_of_snoc stack node : path_of stack -> follows stack node -> path_of (stack ++ [node]).
Proof.
  intros Hp Hf i x y Hx Hy.
  destruct (decide (S i < length stack)%nat) as [Hlt|Hge].
  - rewrite lookup_app_l in Hx by lia. rewrite lookup_app_l in Hy by lia. by eapply Hp.
  - assert (length stack = S i) as Hl.
    { apply lookup_lt_Some in Hy. rewrite length_app in Hy. simpl in Hy. lia. }
    rewrite lookup_app_l in Hx by lia. rewrite lookup_app_r, Hl, Nat.sub_diag in Hy by lia.
    simplify_eq/=. apply Hf. by rewrite last_lookup, Hl.
Qed.

Lemma stack_from_cycle color stack top node :
  dfs_inv color stack -> last stack = Some top -> linked top node -> node ∈ stack ->
  is_cycle (stack_from node stack).
Proof.
  intros Hinv Htop Hl Hin. unfold stack_from.
  destruct (list_find (eq node) stack) as [[i z]|] eqn:Hf.
  2: { apply list_find_None in Hf. rewrite Forall_forall in Hf. by destruct (Hf node Hin). }
  apply list_find_Some in Hf as (Hi & <- & _). simpl.
  split_and!.
  - intros j x y. rewrite !lookup_drop, Nat.add_succ_r. apply (dfs_path _ _ Hinv).
  - apply Forall_drop, Forall_forall. intros x Hx. rewrite <- (dfs_dom _ _ Hinv).
    apply elem_of_dom. exists Gray. by apply (dfs_gray _ _ Hinv).
  - exists node, top. split_and!; [| |done].
    + by rewrite head_lookup, lookup_drop, Nat.add_0_r.
    + apply lookup_lt_Some in Hi. rewrite <- Htop, !last_lookup, lookup_drop, length_drop.
      f_equal. lia.
Qed.

Section Providers.
Context (n : nat) (visit : string -> Colors -> list string -> option Visit).

Hypothesis visit_ok : forall node color stack,
  dfs_inv color stack -> color !! node = Some White -> follows stack node ->
  (size (whites color) <= n)%nat ->
  exists r, visit node color stack = Some r /\ visit_post [node] color stack r.

Lemma visit_providers_post top ps : forall color stack,
  dfs_inv color stack -> last stack = Some top -> Forall (linked top) ps ->
  (size (whites color) <= n)%nat ->
  exists r, visit_providers visit ps color stack = Some r /\ visit_post ps color stack r.
Proof.
  induction ps as [|p ps IH]; intros color stack Hinv Htop Hps Hn; simpl.
  { eexists. by split_and!. }
  apply Forall_cons in Hps as [Hp Hps].
  assert (Hskip : color !! p = Some Black ->
    exists r, visit_providers visit ps color stack = Some r
              /\ visit_post (p :: ps) color stack r).
  { intros Hb. destruct (IH color stack Hinv Htop Hps Hn) as ([[c' s'] [cyc|]] & Hr & Hpost);
      eexists; (split; [exact Hr|]); [done|].
    destruct Hpost as (-> & Hinv' & Hd & Hall). split_and!; try done.
    constructor; [|done]. by apply Hd. }
  destruct (color !! p) as [[]|] eqn:Hc.
  - destruct (visit_ok p color stack) as ([[c' s'] [cyc|]] & -> & Hpost); try done.
    { intros top' Ht. by simplify_eq. }
    { by eexists. }
    destruct Hpost as (-> & Hinv' & Hd & [Hb _]%Forall_cons).
    destruct (IH c' stack Hinv' Htop Hps) as ([[c2 s2] [cyc|]] & Hr & Hpost).
    { etrans; [apply subseteq_size, Hd|done]. }
    { eexists. by split; [exact Hr|]. }
    eexists. split; [exact Hr|]. destruct Hpost as (-> & Hinv2 & Hd2 & Hall). split_and!; try done.
    + by etrans.
    + constructor; [|done]. by apply Hd2.
  - eexists. split; [done|]. simpl. eapply stack_from_cycle; [done..|]. by apply (dfs_gray _ _ Hinv).
  - by apply Hskip.
  - exfalso. apply linked_ids in Hp as [_ Hp]. rewrite <- (dfs_dom _ _ Hinv) in Hp.
    by apply not_elem_of_dom in Hc.
Qed.
End Providers.

Lemma darker_enter color node : color !! node = Some White -> darker color (<[node := Gray]> color).
Proof.
  intros Hw. split.
  - intros x Hx. rewrite lookup_insert_ne; [done|congruence].
  - intros x. rewrite !elem_of_whites. intros Hx. destruct (decide (x = node)) as [->|]; [done|].
    by rewrite lookup_insert_ne in Hx.
Qed.

Lemma whites_enter color node :
  color !! node = Some White ->
  (size (whites (<[node := Gray]> color)) < size (whites color))%nat.
Proof.
  intros Hw. apply subset_size. split; [by apply darker_enter|]. intros Hsub.
  assert (node ∈ whites (<[node := Gray]> color)) as Hin by (apply Hsub; by apply elem_of_whites).
  apply elem_of_whites in Hin. by rewrite lookup_insert_eq in Hin.
Qed.

Lemma dfs_inv_enter color stack node :
  dfs_inv color stack -> color !! node = Some White -> follows stack node ->
  dfs_inv (<[node := Gray]> color) (stack ++ [node]).
Proof.
  intros [Hd Hg Hn Hp Hb Ha] Hw Hf.
  assert (Hne : forall x, color !! x = Some Black -> x <> node) by congruence.
  assert (Hni : node ∉ stack) by (rewrite <- Hg; congruence).
  assert (Hblack : forall x, <[node := Gray]> color !! x = Some Black <-> color !! x = Some Black).
  { intros x. rewrite lookup_insert. case_decide; naive_solver. }
  split.
  - rewrite dom_insert_L. assert (node ∈ dom color) by (by apply elem_of_dom). set_solver.
  - intros x. rewrite elem_of_app, list_elem_of_singleton, <- Hg, lookup_insert.
    case_decide; naive_solver.
  - apply NoDup_app. split_and!; [done| |apply NoDup_singleton].
    by intros x Hx ->%list_elem_of_singleton.
  - by apply path_of_snoc.
  - intros x y. rewrite !Hblack. apply Hb.
  - intros x. rewrite Hblack. apply Ha.
Qed.

(** From a black node only black nodes are reached. *)
Lemma black_reach color stack x y :
  dfs_inv color stack -> color !! x = Some Black -> rtc linked x y -> color !! y = Some Black.
Proof. intros Hinv Hx Hr. induction Hr; [done|]. eauto using dfs_black. Qed.

Lemma dfs_inv_leave color stack node :
  dfs_inv color (stack ++ [node]) -> (forall y, linked node y -> color !! y = Some Black) ->
  dfs_inv (<[node := Black]> color) stack.
Proof.
  intros Hinv Hsucc. pose proof Hinv as [Hd Hg Hn Hp Hb Ha].
  assert (Hgn : color !! node = Some Gray) by (apply Hg; set_solver).
  apply NoDup_app in Hn as (Hn & Hni & _).
  split.
  - rewrite dom_insert_L. assert (node ∈ dom color) by (by apply elem_of_dom). set_solver.
  - intros x. rewrite lookup_insert. case_decide as Hx.
    + subst x. split; [done|]. intros Hin. destruct (Hni node Hin). set_solver.
    + rewrite Hg. set_solver.
  - done.
  - intros i x y Hx Hy. apply (Hp i); apply lookup_app_l_Some; done.
  - intros x y. rewrite !lookup_insert. do 2 case_decide; subst; eauto.
  - intros x. rewrite lookup_insert. case_decide as Hx; [subst x|by apply Ha].
    intros _ (y & Hy & Hr)%tc_first. apply Hsucc in Hy.
    by rewrite (black_reach _ _ _ _ Hinv Hy Hr) in Hgn.
Qed.

Lemma visit_capability_graph_post fuel : forall node color stack,
  dfs_inv color stack -> color !! node = Some White -> follows stack node ->
  (size (whites color) < fuel)%nat ->
  exists r, visit_capability_graph fuel adjacency node color stack = Some r
            /\ visit_post [node] color stack r.
Proof.
  induction fuel as [|fuel IH]; intros node color stack Hinv Hw Hf Hlt; [lia|].
  pose proof (whites_enter _ _ Hw) as Hdec. simpl.
  destruct (visit_providers_post (fuel - 1) (visit_capability_graph fuel adjacency)
              ltac:(intros; apply IH; auto; lia) node
              (btree_set_iter (default ∅ (adjacency !! node)))
              (<[node := Gray]> color) (stack ++ [node]))
    as ([[c' s'] [cyc|]] & -> & Hpost).
  { by apply dfs_inv_enter. }
  { by rewrite last_snoc. }
  { apply Forall_forall. intros y. by rewrite elem_of_btree_set_iter. }
  { lia. }
  { by eexists. }
  destruct Hpost as (-> & Hinv' & [Hb Hwh] & Hall). eexists. split; [done|].
  rewrite Forall_forall in Hall.
  assert (Hgn : c' !! node = Some Gray) by (apply (dfs_gray _ _ Hinv'); set_solver).
  split_and!.
  - by rewrite removelast_last.
  - apply dfs_inv_leave; [done|]. intros y Hy. apply Hall. by rewrite elem_of_btree_set_iter.
  - destruct (darker_enter _ _ Hw) as [Hb0 Hw0]. split.
    + intros x Hx%Hb0%Hb. rewrite lookup_insert_ne; [done|congruence].
    + etrans; [|exact Hw0]. etrans; [|exact Hwh]. intros x. rewrite !elem_of_whites, lookup_insert.
      by case_decide.
  - apply Forall_singleton. by rewrite lookup_insert_eq.
Qed.

Lemma search_nodes_post fuel nodes : forall color,
  dfs_inv color [] -> (size (whites color) < fuel)%nat -> Forall (.∈ ids) nodes ->
  exists r, search_nodes fuel adjacency nodes color [] = Some r /\
    match r with
    | Some cycle => is_cycle cycle
    | None => exists color', dfs_inv color' [] /\ darker color color' /\
                Forall (fun x => color' !! x = Some Black) nodes
    end.
Proof.
  induction nodes as [|node nodes IH]; intros color Hinv Hlt Hids; simpl.
  { eexists. split; [done|]. by exists color. }
  apply Forall_cons in Hids as [Hid Hids].
  assert (Hstep : forall c, dfs_inv c [] -> darker color c -> c !! node = Some Black ->
    exists r, search_nodes fuel adjacency nodes c [] = Some r /\
      match r with
      | Some cycle => is_cycle cycle
      | None => exists color', dfs_inv color' [] /\ darker color color' /\
                  Forall (fun x => color' !! x = Some Black) (node :: nodes)
      end).
  { intros c Hc Hd Hb. destruct (IH c Hc) as ([cyc|] & Hr & Hpost); [|done|by eexists|].
    { eapply Nat.le_lt_trans; [apply subseteq_size, Hd|done]. }
    exists None. split; [done|]. destruct Hpost as (c' & Hc' & Hd' & Hall). exists c'.
    split_and!; [done|by etrans|]. constructor; [by apply Hd'|done]. }
  case_bool_decide as Hw.
  - destruct (visit_capability_graph_post fuel node color [] Hinv Hw ltac:(done) Hlt)
      as ([[c' s'] [cyc|]] & -> & Hpost); [by eexists|].
    destruct Hpost as (-> & Hinv' & Hd & [Hb _]%Forall_cons). by apply Hstep.
  - apply Hstep; [done..|]. rewrite <- (dfs_dom _ _ Hinv) in Hid. apply elem_of_dom in Hid as [[] Hc];
      [done| |done]. by apply (dfs_gray _ _ Hinv), elem_of_nil in Hc.
Qed.

Lemma dfs_inv_start : dfs_inv (gset_to_gmap White ids) [].
Proof.
  split; [apply dom_gset_to_gmap|intros x|apply NoDup_nil_2|by intros i x y Hx|intros x y|intros x];
    rewrite lookup_gset_to_gmap_Some; try naive_solver.
  split; [naive_solver|]. by intros ?%elem_of_nil.
Qed.

(** The search ends, finds only cycles, and misses none. *)
Lemma cycle_search_correct :
  exists r, find_required_capability_cycle ids adjacency = Some r /\
    match r with
    | Some cycle => is_cycle cycle
    | None => forall x, ~ tc linked x x
    end.
Proof.
  unfold find_required_capability_cycle.
  destruct (search_nodes_post (S (size ids)) (btree_set_iter ids) (gset_to_gmap White ids))
    as ([cyc|] & -> & Hpost); [apply dfs_inv_start| | |by eexists|].
  - apply Nat.lt_succ_r, subseteq_size. intros x. rewrite elem_of_whites, lookup_gset_to_gmap_Some.
    naive_solver.
  - apply Forall_forall. intros x. by rewrite elem_of_btree_set_iter.
  - eexists. split; [done|]. destruct Hpost as (c & Hinv & _ & Hall). intros x Hc.
    rewrite Forall_forall in Hall. apply (dfs_acyclic _ _ Hinv x); [|done].
    apply Hall, elem_of_btree_set_iter. apply tc_first in Hc as (y & Hy & _).
    by apply linked_ids in Hy as [? _].
Qed.
End Search.

(** ** Edges, adjacency and degrees *)

(** A map of sets filled by [entry().or_default().insert()]. *)
Lemma entry_insert_all {A} (key value : A -> string) (xs : list A) m k v :
  v ∈ default ∅ (foldl (fun m x => entry_insert m (key x) (value x)) m xs !! k) <->
  v ∈ default ∅ (m !! k) \/ exists x, x ∈ xs /\ key x = k /\ value x = v.
Proof.
  revert m. induction xs as [|x xs IH]; intros m; cbn [foldl]; [set_solver|].
  rewrite IH. unfold entry_insert. rewrite lookup_insert. case_decide as Hk; set_solver.
Qed.

Definition requires (edges : list RequiredCapabilityEdge) (x y : string) : Prop :=
  exists e, e ∈ edges /\ ge_consumer e = x /\ ge_provider e = y.

Lemma edge_adjacency_linked edges x y : linked (edge_adjacency edges) x y <-> requires edges x y.
Proof.
  unfold linked, edge_adjacency. rewrite (entry_insert_all ge_consumer ge_provider).
  rewrite lookup_empty. set_solver.
Qed.

Lemma reverse_edges_elem edges x y :
  x ∈ default ∅ (reverse_edges edges !! y) <-> requires edges x y.
Proof.
  unfold reverse_edges, requires. rewrite (entry_insert_all ge_provider ge_consumer).
  rewrite lookup_empty. set_solver.
Qed.

(** The providers of a module, one for each capability it requires of a module. *)
Definition providers_of (edges : list RequiredCapabilityEdge) (c : string) : list string :=
  ge_provider <$> filter (fun e => ge_consumer e = c) edges.

Lemma elem_of_providers_of edges c p : p ∈ providers_of edges c <-> requires edges c p.
Proof.
  unfold providers_of, requires. rewrite list_elem_of_fmap. setoid_rewrite list_elem_of_filter.
  naive_solver.
Qed.

Lemma count_edges_lookup edges m c :
  foldl count_edge m edges !! c
  = match m !! c with
    | Some d => Some (d + usize_of_len (providers_of edges c))
    | None => if decide (providers_of edges c = []) then None
              else Some (usize_of_len (providers_of edges c))
    end.
Proof.
  revert m. induction edges as [|e edges IH]; intros m; cbn [foldl].
  { unfold providers_of, usize_of_len. simpl. case_match; [f_equal; lia|done]. }
  rewrite IH. unfold count_edge, providers_of, usize_of_len. rewrite lookup_insert, filter_cons.
  destruct (decide (ge_consumer e = c)) as [<-|Hc]; [|done].
  rewrite fmap_cons. cbn [length]. destruct (m !! ge_consumer e); simpl; f_equal; lia.
Qed.

Lemma size_list_le (l : list string) : (size (list_to_set l : gset string) <= length l)%nat.
Proof.
  induction l as [|y l IH]; [done|]. cbn [list_to_set length].
  rewrite size_union_alt, size_singleton.
  pose proof (subseteq_size (list_to_set l ∖ {[y]}) (list_to_set l : gset string)
                ltac:(set_solver)). lia.
Qed.

Lemma NoDup_size (l : list string) :
  NoDup l <-> size (list_to_set l : gset string) = length l.
Proof.
  split; [apply size_list_to_set|]. induction l as [|x l IH]; [constructor|].
  cbn [list_to_set length]. destruct (decide (x ∈ l)) as [Hin|Hni].
  - rewrite subseteq_union_1_L by set_solver. intros Hs.
    pose proof (size_list_le l). lia.
  - rewrite size_union, size_singleton by set_solver. intros Hs. constructor; [done|].
    apply IH. lia.
Qed.

(** ** Startup order *)

Section Order.
Context (ids : gset string) (edges : list RequiredCapabilityEdge).
Hypothesis requires_ids : forall x y, requires edges x y -> x ∈ ids /\ y ∈ ids.

(** The providers of [c] that are in [started]. *)
Definition served (c : string) (started : list string) : gset string :=
  list_to_set (providers_of edges c) ∩ list_to_set started.

(** The counter of a module: required edges, less the distinct providers started. *)
Definition remaining (c : string) (started : list string) : Z :=
  usize_of_len (providers_of edges c) - Z.of_nat (size (served c started)).

Lemma served_le c started : (size (served c started) <= length (providers_of edges c))%nat.
Proof.
  etrans; [|apply size_list_le]. apply subseteq_size. unfold served. set_solver.
Qed.

Lemma remaining_nonneg c started : 0 <= remaining c started.
Proof. unfold remaining, usize_of_len. pose proof (served_le c started). lia. Qed.

Lemma remaining_snoc c started next :
  next ∉ started ->
  remaining c (started ++ [next])
  = if decide (next ∈ providers_of edges c) then remaining c started - 1 else remaining c started.
Proof.
  intros Hni. unfold remaining. case_decide as Hr.
  - assert (Hs : served c (started ++ [next]) = {[next]} ∪ served c started).
    { unfold served. set_solver. }
    rewrite Hs, size_union, size_singleton by (unfold served; set_solver). lia.
  - assert (Hs : served c (started ++ [next]) = served c started).
    { unfold served. set_solver. }
    by rewrite Hs.
Qed.

(** A module's counter is zero exactly when all its providers are started and
    it requires no two capabilities of one provider. *)
Lemma remaining_zero c started :
  remaining c started = 0 <->
  NoDup (providers_of edges c) /\ forall p, requires edges c p -> p ∈ started.
Proof.
  unfold remaining, usize_of_len. setoid_rewrite <- elem_of_providers_of.
  assert (Hsub : served c started ⊆ list_to_set (providers_of edges c))
    by (unfold served; set_solver).
  pose proof (size_list_le (providers_of edges c)) as Hle.
  split.
  - intros Hz. assert (Hs : served c started = list_to_set (providers_of edges c)).
    { apply set_subseteq_size_eq; [done|lia]. }
    split; [apply NoDup_size; rewrite <- Hs; lia|].
    intros p Hp. assert (p ∈ served c started) as Hin by (rewrite Hs; set_solver).
    unfold served in Hin. set_solver.
  - intros [Hnd Hall]. assert (Hs : served c started = list_to_set (providers_of edges c)).
    { unfold served. set_solver. }
    rewrite Hs. apply NoDup_size in Hnd. lia.
Qed.

(** *** Releasing the consumers of a started module *)

Lemma release_all s cs :
  NoDup cs ->
  let s' := foldl release_consumer s cs in
  os_startup_order s' = os_startup_order s /\
  (forall c, os_in_degree s' !! c
             = if decide (c ∈ cs) then (fun d => Z.max 0 (d - 1)) <$> os_in_degree s !! c
               else os_in_degree s !! c) /\
  (forall c, c ∈ os_ready s' <->
     c ∈ os_ready s \/ c ∈ cs /\ exists d, os_in_degree s !! c = Some d /\ Z.max 0 (d - 1) = 0).
Proof.
  revert s. induction cs as [|x cs IH]; intros s Hnd; cbn [foldl].
  { split_and!; [done| |]; intros c; [by rewrite decide_False by set_solver|set_solver]. }
  apply NoDup_cons in Hnd as [Hx Hnd].
  destruct (IH (release_consumer s x) Hnd) as (Ho & Hd & Hr).
  assert (Hdeg : forall c, os_in_degree (release_consumer s x) !! c
            = if decide (c = x) then (fun d => Z.max 0 (d - 1)) <$> os_in_degree s !! c
              else os_in_degree s !! c).
  { intros c. unfold release_consumer. destruct (os_in_degree s !! x) eqn:Hxs; cbn [os_in_degree].
    - rewrite lookup_insert. do 2 case_decide; subst; rewrite ?Hxs; done.
    - case_decide; [subst; by rewrite Hxs|done]. }
  assert (Hrdy : forall c, c ∈ os_ready (release_consumer s x) <->
            c ∈ os_ready s \/ c = x /\ exists d, os_in_degree s !! c = Some d /\ Z.max 0 (d - 1) = 0).
  { intros c. unfold release_consumer. destruct (os_in_degree s !! x) as [d|] eqn:Hxs;
      cbn [os_ready]; [|naive_solver].
    destruct (Z.eqb_spec (Z.max 0 (d - 1)) 0); set_solver. }
  split_and!.
  - rewrite Ho. unfold release_consumer. by case_match.
  - intros c. rewrite Hd, Hdeg. destruct (decide (c = x)) as [->|Hcx].
    + by rewrite decide_False, decide_True by set_solver.
    + destruct (decide (c ∈ cs)); [by rewrite decide_True by set_solver|].
      by rewrite decide_False by set_solver.
  - intros c. rewrite Hr, Hrdy, Hdeg. destruct (decide (c = x)) as [->|Hcx]; set_solver.
Qed.

(** *** The invariant of the loop *)

Record order_inv (s : OrderState) : Prop := {
  oi_degree c : os_in_degree s !! c
                = if decide (c ∈ ids) then Some (remaining c (os_startup_order s)) else None;
  oi_ready c : c ∈ os_ready s \/ c ∈ os_startup_order s <->
               c ∈ ids /\ remaining c (os_startup_order s) = 0;
  oi_fresh c : c ∈ os_ready s -> c ∉ os_startup_order s;
  oi_nodup : NoDup (os_startup_order s);
  oi_before i c p : os_startup_order s !! i = Some c -> requires edges c p ->
                    p ∈ take i (os_startup_order s);
}.

Lemma remaining_nil c : remaining c [] = usize_of_len (providers_of edges c).
Proof.
  unfold remaining, served. replace (_ ∩ _) with (∅ : gset string) by set_solver.
  rewrite size_empty. lia.
Qed.

Lemma in_degrees_lookup c :
  in_degrees ids edges !! c = if decide (c ∈ ids) then Some (remaining c []) else None.
Proof.
  unfold in_degrees. rewrite count_edges_lookup, remaining_nil.
  destruct (decide (c ∈ ids)) as [Hc|Hc].
  - by rewrite (proj2 (lookup_gset_to_gmap_Some _ _ _ _) (conj Hc eq_refl)).
  - rewrite (proj2 (lookup_gset_to_gmap_None _ _ _) Hc). rewrite decide_True; [done|].
    destruct (providers_of edges c) as [|p ps] eqn:Hp; [done|]. destruct Hc.
    apply (requires_ids c p), elem_of_providers_of. rewrite Hp. left.
Qed.

Lemma order_inv_start : order_inv (order_start ids edges).
Proof.
  split; cbn [order_start os_in_degree os_ready os_startup_order].
  - apply in_degrees_lookup.
  - intros c. rewrite elem_of_dom. unfold is_Some. setoid_rewrite map_lookup_filter_Some.
    rewrite in_degrees_lookup, elem_of_nil. simpl. case_decide; naive_solver.
  - intros c _. apply not_elem_of_nil.
  - apply NoDup_nil_2.
  - intros i c p Hi. by rewrite lookup_nil in Hi.
Qed.

Lemma order_inv_step s s' : order_inv s -> start_next (reverse_edges edges) s = inl s' ->
  order_inv s' /\ length (os_startup_order s') = S (length (os_startup_order s)).
Proof.
  intros Hinv. unfold start_next. destruct (btree_set_iter (os_ready s)) as [|next rest] eqn:Hr;
    [done|]. intros [= <-].
  assert (Hnext : next ∈ os_ready s) by (apply elem_of_btree_set_iter; rewrite Hr; left). clear Hr.
  pose proof (oi_fresh _ Hinv _ Hnext) as Hni.
  destruct (proj1 (oi_ready _ Hinv next) (or_introl Hnext)) as [Hid Hz].
  destruct (release_all {| os_in_degree := os_in_degree s; os_ready := os_ready s ∖ {[next]};
                           os_startup_order := os_startup_order s ++ [next] |}
              (btree_set_iter (default ∅ (reverse_edges edges !! next))) (btree_set_iter_NoDup _))
    as (Ho & Hd & Hrd). cbn [os_in_degree os_ready os_startup_order] in Ho, Hd, Hrd.
  set (s' := foldl _ _ _) in *.
  assert (Hcs : forall c, c ∈ btree_set_iter (default ∅ (reverse_edges edges !! next))
                          <-> next ∈ providers_of edges c).
  { intros c. by rewrite elem_of_btree_set_iter, reverse_edges_elem, elem_of_providers_of. }
  assert (Hrem : forall c, remaining c (os_startup_order s')
            = if decide (next ∈ providers_of edges c) then remaining c (os_startup_order s) - 1
              else remaining c (os_startup_order s)).
  { intros c. rewrite Ho. by apply remaining_snoc. }
  assert (Hwait : forall c, next ∈ providers_of edges c ->
            1 <= remaining c (os_startup_order s) /\ c <> next /\
            c ∉ os_ready s /\ c ∉ os_startup_order s).
  { intros c Hc. pose proof (remaining_nonneg c (os_startup_order s')) as Hnn.
    rewrite Hrem, decide_True in Hnn by done.
    assert (~ (c ∈ os_ready s \/ c ∈ os_startup_order s)) as Hnot
      by (rewrite (oi_ready _ Hinv); lia).
    split_and!; [lia| |tauto..]. intros ->. tauto. }
  split; [|rewrite Ho, length_app; simpl; lia]. split.
  - intros c. rewrite Hd, Hrem, (oi_degree _ Hinv).
    destruct (decide (next ∈ providers_of edges c)) as [Hc|Hc].
    + rewrite decide_True by (by apply Hcs). destruct (Hwait c Hc) as [Hle _].
      case_decide; simpl; [f_equal; lia|done].
    + rewrite decide_False by (by rewrite Hcs). done.
  - intros c. rewrite Hrem, Hrd, Ho, Hcs, elem_of_difference, elem_of_app, elem_of_singleton,
      list_elem_of_singleton, (oi_degree _ Hinv).
    pose proof (oi_ready _ Hinv c) as Hc0.
    destruct (decide (next ∈ providers_of edges c)) as [Hc|Hc].
    + destruct (Hwait c Hc) as (Hle & Hne & Hnr & Hns). case_decide; naive_solver lia.
    + destruct (decide (c = next)) as [->|]; naive_solver.
  - intros c. rewrite Hrd, Ho, Hcs, elem_of_difference, elem_of_app, elem_of_singleton,
      list_elem_of_singleton.
    intros [[Hc Hne]|[Hc _]]; [|destruct (Hwait c Hc) as (_ & ? & _ & ?)]; [|tauto].
    pose proof (oi_fresh _ Hinv c Hc). tauto.
  - rewrite Ho. apply NoDup_app. split_and!; [apply Hinv| |apply NoDup_singleton].
    by intros x Hx ->%list_elem_of_singleton.
  - rewrite Ho. intros i c p [Hi|[Hge Hi]]%lookup_app_Some Hp.
    + rewrite take_app_le by (by apply lookup_lt_Some in Hi; lia). by eapply oi_before.
    + apply list_lookup_singleton_Some in Hi as [Hi <-].
      rewrite take_app_ge by lia. apply elem_of_app. left.
      by eapply remaining_zero.
Qed.

Lemma order_length s : order_inv s -> (length (os_startup_order s) <= size ids)%nat.
Proof.
  intros Hinv. pose proof (oi_nodup _ Hinv) as Hnd. apply NoDup_size in Hnd. rewrite <- Hnd.
  apply subseteq_size. intros c Hc%elem_of_list_to_set. by apply (oi_ready _ Hinv c); right.
Qed.

(** What a loop that is left has put into the order. *)
Record order_post (order : list string) : Prop := {
  op_nodup : NoDup order;
  op_before i c p : order !! i = Some c -> requires edges c p -> p ∈ take i order;
  op_members c : c ∈ order <-> c ∈ ids /\ remaining c order = 0;
}.

Lemma topological_orders_post :
  exists order, topological_orders ids edges = Some (order, reverse order) /\ order_post order.
Proof.
  unfold topological_orders.
  destruct (loop_total (start_next (reverse_edges edges)) order_inv
              (fun s => size ids - length (os_startup_order s))%nat (S (size ids))
              (order_start ids edges)) as [order Hl].
  - intros s s' Hs Hstep. destruct (order_inv_step s s' Hs Hstep) as [Hs' Hlen]. split; [done|].
    pose proof (order_length _ Hs'). lia.
  - apply order_inv_start.
  - lia.
  - rewrite Hl. exists order. split; [done|].
    apply (loop_invariant (start_next (reverse_edges edges)) order_inv order_post _ _ _) in Hl;
      [done| |apply order_inv_start].
    intros s Hs. destruct (start_next (reverse_edges edges) s) as [s'|o] eqn:Hstep.
    { by eapply order_inv_step. }
    unfold start_next in Hstep. destruct (btree_set_iter (os_ready s)) eqn:Hr; [|done].
    injection Hstep as <-. split; [apply Hs|apply Hs|].
    intros c. rewrite <- (oi_ready _ Hs), <- elem_of_btree_set_iter, Hr, elem_of_nil. naive_solver.
Qed.

(** A module is startable when neither it nor anything it needs requires two
    capabilities of one provider. *)
Definition startable (c : string) : Prop :=
  forall x, rtc (requires edges) c x -> NoDup (providers_of edges x).

Hypothesis acyclic : forall x, ~ tc (requires edges) x x.

Lemma requires_sn c : sn (requires edges) c.
Proof.
  apply tc_finite_sn; [exact acyclic|]. exists (elements ids). intros y Hy.
  apply elem_of_elements. revert Hy. induction 1 as [x y Hxy|x y z _ _ IH]; [|done].
  by apply requires_ids in Hxy as [_ ?].
Qed.

Lemma order_members order c : order_post order -> c ∈ order <-> c ∈ ids /\ startable c.
Proof.
  intros Hpost. split.
  - intros Hc. split; [by apply (op_members _ Hpost)|]. intros x Hr. induction Hr as [x|x y z Hxy _ IH].
    + apply (op_members _ Hpost), proj2, remaining_zero in Hc. apply Hc.
    + apply IH. apply (op_members _ Hpost), proj2, remaining_zero in Hc. by apply Hc.
  - intros [Hid Hs]. pose proof (requires_sn c) as Hsn.
    induction Hsn as [c _ IH]. apply (op_members _ Hpost). split; [done|].
    apply remaining_zero. split; [apply Hs, rtc_refl|]. intros p Hp. apply IH; [done| |].
    + by apply requires_ids in Hp as [_ ?].
    + intros x Hx. apply Hs. by eapply rtc_l.
Qed.
End Order.
