(* ===== verification/ModuleGraphTheorems.v ===== *)
(** * Required-capability graph: resolution and theorems

    Which edges, external bindings and degradations a module set resolves to,
    that the resolver always answers, when it reports a cycle, and which
    modules its startup order holds. *)

From Stdlib Require Import String.
From stdpp Require Import relations.
From S2P Require Import Prelude RustText Contracts Receipts RuntimeErrors ModuleGraph ModuleGraphLaws.

#[local] Open Scope list_scope.
#[local] Open Scope Z_scope.

(** ** Sorting *)

Section StableSort.
Context {A : Type} (le : A -> A -> bool).

Lemma insert_sorted_perm x l : insert_sorted le x l ≡ₚ x :: l.
Proof.
  induction l as [|y l IH]; simpl; [done|]. destruct (le x y); [done|].
  rewrite IH. apply Permutation_swap.
Qed.

Lemma stable_sort_perm l : stable_sort le l ≡ₚ l.
Proof. induction l as [|x l IH]; simpl; [done|]. by rewrite insert_sorted_perm, IH. Qed.
End StableSort.

(** ** Providers *)

Definition provides (contracts : list ModuleContract) (p capability : string) : Prop :=
  exists c, c ∈ contracts /\ mc_module_id c = p /\ capability ∈ mc_capabilities c.

Lemma declare_capabilities_elem c m capability p :
  p ∈ default ∅ (declare_capabilities c m !! capability) <->
  p ∈ default ∅ (m !! capability) \/ mc_module_id c = p /\ capability ∈ mc_capabilities c.
Proof.
  unfold declare_capabilities. rewrite (entry_insert_all id (fun _ => mc_module_id c)).
  unfold id. naive_solver.
Qed.

Lemma index_fold_ok contracts : forall ids m ids' m',
  fold_res index_module (ids, m) contracts = Ok (ids', m') ->
  NoDup (mc_module_id <$> contracts) /\
  (forall c, c ∈ contracts -> mc_module_id c ∉ ids) /\
  ids' = ids ∪ list_to_set (mc_module_id <$> contracts) /\
  forall capability p, p ∈ default ∅ (m' !! capability) <->
    p ∈ default ∅ (m !! capability) \/ provides contracts p capability.
Proof.
  induction contracts as [|c contracts IH]; intros ids m ids' m' H; simpl in H.
  { injection H as <- <-. split_and!; [apply NoDup_nil_2|set_solver|set_solver|].
    intros. unfold provides. set_solver. }
  case_bool_decide as Hc; simpl in H; [done|].
  apply IH in H as (Hnd & Hni & -> & Hm). split_and!.
  - rewrite fmap_cons. constructor; [|done]. intros (c' & Hid & Hin)%list_elem_of_fmap.
    apply (Hni c' Hin). set_solver.
  - intros c' [->|Hin]%elem_of_cons; [done|]. specialize (Hni c' Hin). set_solver.
  - rewrite fmap_cons, list_to_set_cons. set_solver.
  - intros capability p. rewrite Hm, declare_capabilities_elem. unfold provides.
    setoid_rewrite elem_of_cons. naive_solver.
Qed.

Lemma index_providers_ok contracts ids m :
  index_capability_providers contracts = Ok (ids, m) ->
  NoDup (mc_module_id <$> contracts) /\ ids = list_to_set (mc_module_id <$> contracts) /\
  forall capability p, p ∈ default ∅ (m !! capability) <-> provides contracts p capability.
Proof.
  unfold index_capability_providers. intros (Hnd & _ & -> & Hm)%index_fold_ok.
  split_and!; [done|set_solver|]. intros capability p. rewrite Hm, lookup_empty. set_solver.
Qed.

Lemma elem_of_candidates module_id capability m p :
  p ∈ candidates module_id capability m <-> p <> module_id /\ p ∈ default ∅ (m !! capability).
Proof.
  unfold candidates. destruct (m !! capability); simpl; [|set_solver].
  by rewrite list_elem_of_filter, elem_of_btree_set_iter.
Qed.

(** ** Edges and bindings, as functions of the capability *)

Section Resolution.
Context (external : gmap string string) (m : gmap string (gset string)).

Definition edge_for (c : ModuleContract) (capability : string) : option RequiredCapabilityEdge :=
  match candidates (mc_module_id c) capability m with
  | [p] => Some {| ge_consumer := mc_module_id c; ge_capability := capability; ge_provider := p |}
  | _ => None
  end.

Definition binding_for (c : ModuleContract) (capability : string)
    : option ExternalCapabilityBinding :=
  match candidates (mc_module_id c) capability m, external !! capability with
  | [], Some owner =>
      Some {| gb_consumer := mc_module_id c; gb_capability := capability; gb_owner := owner |}
  | _, _ => None
  end.

Definition degraded_as (c : ModuleContract) (role : CapabilityRole) (capability : string)
    : option UnresolvedCapability :=
  if negb (is_some (m !! capability)) && negb (is_some (external !! capability))
  then Some {| gu_consumer := mc_module_id c; gu_capability := capability; gu_kind := role |}
  else None.

Definition degraded_of (c : ModuleContract) : list UnresolvedCapability :=
  omap (degraded_as c RoleOptional) (mc_optional_capabilities c)
  ++ omap (degraded_as c RoleAdvisory) (mc_advisory_capabilities c).

Lemma collect_degraded_all c role capabilities : forall r,
  collect_degraded_capabilities external c capabilities role m r
  = {| cr_edges := cr_edges r; cr_external_bindings := cr_external_bindings r;
       cr_degraded := cr_degraded r ++ omap (degraded_as c role) capabilities |}.
Proof.
  unfold collect_degraded_capabilities, degraded_as.
  induction capabilities as [|x xs IH]; intros r; cbn [foldl omap list_omap].
  { rewrite app_nil_r. by destruct r. }
  rewrite IH. unfold collect_degraded. destruct (_ && _); simpl; [|done].
  by rewrite <- (assoc_L (++)).
Qed.

(** What one contract adds: each required capability an edge or a binding. *)
Definition required_resolved (c : ModuleContract) (r r' : CapabilityResolution)
    (capabilities : list string) : Prop :=
  cr_edges r' = cr_edges r ++ omap (edge_for c) capabilities /\
  cr_external_bindings r' = cr_external_bindings r ++ omap (binding_for c) capabilities /\
  cr_degraded r' = cr_degraded r /\
  Forall (fun x => is_Some (edge_for c x) /\ binding_for c x = None \/
                   edge_for c x = None /\ is_Some (binding_for c x) /\
                   mc_module_id c ∉ default ∅ (m !! x)) capabilities.

Lemma resolve_required_one c r r' capability :
  resolve_required_capability external c m r capability = Ok r' ->
  required_resolved c r r' [capability].
Proof.
  unfold resolve_required_capability, required_resolved, edge_for, binding_for.
  cbn [omap list_omap].
  destruct (candidates (mc_module_id c) capability m) as [|p [|p' ps]] eqn:Hc.
  - case_bool_decide as Hself; [done|]. destruct (external !! capability) eqn:He; [|done].
    intros [= <-]. simpl. rewrite app_nil_r. split_and!; [done..|].
    constructor; [|constructor]. right. split_and!; [by rewrite Hc|by rewrite Hc, He|done].
  - rewrite check_guard_ok. intros [_ [= <-]]. simpl. rewrite app_nil_r. split_and!; [done..|].
    constructor; [|constructor]. left. by rewrite Hc.
  - rewrite check_guard_ok. by intros [? _].
Qed.

Lemma required_resolved_app c r r1 r2 xs ys :
  required_resolved c r r1 xs -> required_resolved c r1 r2 ys ->
  required_resolved c r r2 (xs ++ ys).
Proof.
  intros (He & Hb & Hd & Hf) (He' & Hb' & Hd' & Hf'). unfold required_resolved.
  rewrite He', Hb', Hd', He, Hb, Hd, !omap_app, !(assoc_L (++)).
  split_and!; [done..|]. by apply Forall_app.
Qed.

Lemma resolve_required_all c capabilities : forall r r',
  fold_res (resolve_required_capability external c m) r capabilities = Ok r' ->
  required_resolved c r r' capabilities.
Proof.
  induction capabilities as [|x xs IH]; intros r r' H; simpl in H.
  { injection H as <-. unfold required_resolved. simpl. rewrite !app_nil_r.
    split_and!; [done..|constructor]. }
  apply rbind_ok in H as (r1 & H1%resolve_required_one & H2%IH).
  by apply (required_resolved_app c r r1 r' [x] xs).
Qed.

(** What the contracts of a set add together. *)
Lemma resolve_contracts_all contracts : forall r r',
  fold_res (resolve_contract_dependencies external m) r contracts = Ok r' ->
  cr_edges r' = cr_edges r
    ++ (contracts ≫= fun c => omap (edge_for c) (mc_required_capabilities c)) /\
  cr_external_bindings r' = cr_external_bindings r
    ++ (contracts ≫= fun c => omap (binding_for c) (mc_required_capabilities c)) /\
  cr_degraded r' = cr_degraded r ++ (contracts ≫= degraded_of) /\
  forall c x, c ∈ contracts -> x ∈ mc_required_capabilities c ->
    is_Some (edge_for c x) /\ binding_for c x = None \/
    edge_for c x = None /\ is_Some (binding_for c x) /\ mc_module_id c ∉ default ∅ (m !! x).
Proof.
  induction contracts as [|c contracts IH]; intros r r' H; simpl in H.
  { injection H as <-. rewrite !app_nil_r. split_and!; [done..|]. by intros c x ?%elem_of_nil. }
  apply rbind_ok in H as (r1 & H1 & H2). unfold resolve_contract_dependencies in H1.
  apply rbind_ok in H1 as (r0 & (He & Hb & Hd & Hf)%resolve_required_all & [= <-]).
  rewrite !collect_degraded_all in H2. apply IH in H2 as (-> & -> & -> & Hall). simpl.
  rewrite He, Hb, Hd. unfold degraded_of at 2. rewrite !(assoc_L (++)). split_and!; [done..|].
  rewrite Forall_forall in Hf. intros c' x [->|Hin]%elem_of_cons Hx; eauto.
Qed.
End Resolution.

(** ** The resolved graph *)

Definition inhabited_sets (m : gmap string (gset string)) : Prop :=
  forall k s, m !! k = Some s -> exists v, v ∈ s.

Lemma inhabited_declare c m : inhabited_sets m -> inhabited_sets (declare_capabilities c m).
Proof.
  unfold declare_capabilities. generalize (mc_capabilities c) as xs. intros xs. revert m.
  induction xs as [|x xs IH]; intros m Hm; simpl; [done|]. apply IH.
  intros k s. unfold entry_insert. rewrite lookup_insert. case_decide; [|by apply Hm].
  intros [= <-]. exists (mc_module_id c). set_solver.
Qed.

Lemma inhabited_index contracts ids m :
  index_capability_providers contracts = Ok (ids, m) -> inhabited_sets m.
Proof.
  unfold index_capability_providers. intros H.
  apply (fold_res_inv (fun acc => inhabited_sets acc.2) index_module contracts) in H; [done| |].
  - intros [i a] c [i' a'] _ Ha Hi. simpl in *. case_bool_decide; [done|].
    injection Hi as <- <-. by apply inhabited_declare.
  - intros k s Hk. simpl in Hk. by rewrite lookup_empty in Hk.
Qed.

Definition sole_provider (contracts : list ModuleContract) (c p capability : string) : Prop :=
  p <> c /\ provides contracts p capability /\
  forall q, provides contracts q capability -> q <> c -> q = p.

Definition unprovided (contracts : list ModuleContract) (capability : string) : Prop :=
  forall p, ~ provides contracts p capability.

Lemma singleton_members (l : list string) p : NoDup l -> l = [p] <-> forall q, q ∈ l <-> q = p.
Proof.
  intros Hnd. split; [intros -> q; apply list_elem_of_singleton|]. intros Hl.
  apply Permutation_singleton_r, NoDup_Permutation; [done|apply NoDup_singleton|].
  intros q. by rewrite list_elem_of_singleton.
Qed.

Lemma candidates_NoDup c capability m : NoDup (candidates c capability m).
Proof.
  unfold candidates. case_match; [apply NoDup_filter, btree_set_iter_NoDup|apply NoDup_nil_2].
Qed.

Section Facts.
Context (contracts : list ModuleContract) (m : gmap string (gset string)).
Hypothesis index_ok : forall capability p,
  p ∈ default ∅ (m !! capability) <-> provides contracts p capability.

Lemma edge_for_iff c x e :
  edge_for m c x = Some e <->
  ge_consumer e = mc_module_id c /\ ge_capability e = x /\
  sole_provider contracts (mc_module_id c) (ge_provider e) x.
Proof.
  assert (Hs : forall p, candidates (mc_module_id c) x m = [p] <->
                         sole_provider contracts (mc_module_id c) p x).
  { intros p. rewrite singleton_members by apply candidates_NoDup. unfold sole_provider.
    setoid_rewrite elem_of_candidates. setoid_rewrite index_ok. split.
    - intros Hq. pose proof (proj2 (Hq p) eq_refl). naive_solver.
    - intros (? & ? & Hq) q. split; [naive_solver|by intros ->]. }
  unfold edge_for. destruct e as [ec ex ep]. simpl. split.
  - destruct (candidates (mc_module_id c) x m) as [|p [|]] eqn:Hc; [done| |done].
    intros [= <- <- <-]. split_and!; [done..|]. by apply Hs.
  - intros (-> & -> & Hp%Hs). by rewrite Hp.
Qed.

Lemma candidates_nil_iff c x :
  mc_module_id c ∉ default ∅ (m !! x) ->
  candidates (mc_module_id c) x m = [] <-> unprovided contracts x.
Proof.
  intros Hself. rewrite index_ok in Hself. split.
  - intros Hc p Hp. apply (not_elem_of_nil p). rewrite <- Hc. apply elem_of_candidates.
    rewrite index_ok. split; [|done]. congruence.
  - intros Hu. destruct (candidates _ x m) as [|p ps] eqn:Hc; [done|].
    assert (p ∈ candidates (mc_module_id c) x m) as Hp by (rewrite Hc; left).
    apply elem_of_candidates, proj2, index_ok in Hp. by destruct (Hu p).
Qed.

Lemma unprovided_none x : inhabited_sets m -> m !! x = None <-> unprovided contracts x.
Proof.
  intros Hin. unfold unprovided. setoid_rewrite <- index_ok. split.
  - intros -> p. set_solver.
  - intros Hu. destruct (m !! x) as [s|] eqn:Hs; [|done].
    destruct (Hin x s Hs) as [v Hv]. by destruct (Hu v).
Qed.
End Facts.

(** A contract's declaration of a capability that degrades. *)
Definition declares_as (c : ModuleContract) (role : CapabilityRole) (capability : string) : Prop :=
  role = RoleOptional /\ capability ∈ mc_optional_capabilities c \/
  role = RoleAdvisory /\ capability ∈ mc_advisory_capabilities c.

Record resolved (contracts : list ModuleContract) (external : gmap string string)
    (r : CapabilityResolution) : Prop := {
  res_edges e : e ∈ cr_edges r <->
    exists c, c ∈ contracts /\ ge_consumer e = mc_module_id c /\
      ge_capability e ∈ mc_required_capabilities c /\
      sole_provider contracts (mc_module_id c) (ge_provider e) (ge_capability e);
  res_bindings b : b ∈ cr_external_bindings r <->
    exists c, c ∈ contracts /\ gb_consumer b = mc_module_id c /\
      gb_capability b ∈ mc_required_capabilities c /\
      unprovided contracts (gb_capability b) /\ external !! gb_capability b = Some (gb_owner b);
  res_total c x : c ∈ contracts -> x ∈ mc_required_capabilities c ->
    (exists p, sole_provider contracts (mc_module_id c) p x) \/
    unprovided contracts x /\ is_Some (external !! x);
  res_degraded u : u ∈ cr_degraded r <->
    exists c, c ∈ contracts /\ gu_consumer u = mc_module_id c /\
      declares_as c (gu_kind u) (gu_capability u) /\
      unprovided contracts (gu_capability u) /\ external !! gu_capability u = None;
}.

Lemma degraded_as_iff external m c role x u :
  degraded_as external m c role x = Some u <->
  gu_consumer u = mc_module_id c /\ gu_kind u = role /\ gu_capability u = x /\
  m !! x = None /\ external !! x = None.
Proof.
  unfold degraded_as. destruct (m !! x), (external !! x), u; simpl; naive_solver.
Qed.

Lemma degraded_of_iff contracts m
  (Hm : forall capability p, p ∈ default ∅ (m !! capability) <-> provides contracts p capability)
  external c u :
  inhabited_sets m ->
  u ∈ degraded_of external m c <->
  gu_consumer u = mc_module_id c /\ declares_as c (gu_kind u) (gu_capability u) /\
  unprovided contracts (gu_capability u) /\ external !! gu_capability u = None.
Proof.
  intros Hinh. rewrite <- (unprovided_none contracts m Hm _ Hinh).
  unfold degraded_of, declares_as. rewrite elem_of_app, !list_elem_of_omap.
  setoid_rewrite degraded_as_iff. naive_solver.
Qed.

(** ** What a validated contract lists once *)

Lemma capability_list_NoDup values field s : capability_list values field = Ok s -> NoDup values.
Proof.
  unfold capability_list. intros (_ & Hnd & _)%scan_distinct_ok. by rewrite list_fmap_id in Hnd.
Qed.

Lemma contract_validate_required c :
  contract_validate c = Ok tt -> NoDup (mc_required_capabilities c).
Proof.
  unfold contract_validate. rewrite !check_ok. intros (_ & _ & _ & _ & _ & _ & H).
  apply rbind_ok in H as (? & _ & H). apply rbind_ok in H as (? & _ & H).
  apply rbind_ok in H as (required & H & _). by eapply capability_list_NoDup.
Qed.

(** ** Edges are named by consumer and capability *)

Definition edge_key (e : RequiredCapabilityEdge) : string * string :=
  (ge_consumer e, ge_capability e).

Lemma edge_for_key m c x e : edge_for m c x = Some e -> edge_key e = (mc_module_id c, x).
Proof. unfold edge_for. repeat case_match; naive_solver. Qed.

Lemma contract_edges_keys m c (xs : list string) k :
  k ∈ edge_key <$> omap (edge_for m c) xs -> k.1 = mc_module_id c /\ k.2 ∈ xs.
Proof.
  intros (e & -> & (x & Hx & He)%list_elem_of_omap)%list_elem_of_fmap.
  by rewrite (edge_for_key _ _ _ _ He).
Qed.

Lemma contract_edges_NoDup m c (xs : list string) : NoDup xs -> NoDup (edge_key <$> omap (edge_for m c) xs).
Proof.
  induction 1 as [|x xs Hx _ IH]; simpl; [apply NoDup_nil_2|].
  destruct (edge_for m c x) as [e|] eqn:He; [|done]. rewrite fmap_cons. constructor; [|done].
  rewrite (edge_for_key _ _ _ _ He). by intros [_ ?]%contract_edges_keys.
Qed.

Lemma all_edges_NoDup m cs :
  NoDup (mc_module_id <$> cs) -> Forall (fun c => NoDup (mc_required_capabilities c)) cs ->
  NoDup (edge_key <$> (cs ≫= fun c => omap (edge_for m c) (mc_required_capabilities c))).
Proof.
  induction cs as [|c cs IH]; intros Hnd Hr; simpl; [apply NoDup_nil_2|].
  rewrite fmap_cons in Hnd. apply NoDup_cons in Hnd as [Hni Hnd].
  apply Forall_cons in Hr as [Hc Hr]. rewrite fmap_app. apply NoDup_app. split_and!.
  - by apply contract_edges_NoDup.
  - intros k [Hk _]%contract_edges_keys (e & -> & He)%list_elem_of_fmap. destruct Hni.
    apply list_elem_of_bind in He as (c' & He & Hc').
    assert (edge_key e ∈ edge_key <$> omap (edge_for m c') (mc_required_capabilities c')) as Hin
      by (by apply list_elem_of_fmap_2).
    apply contract_edges_keys in Hin as [Hin _]. rewrite <- Hk, Hin. by apply list_elem_of_fmap_2.
  - by apply IH.
Qed.

(** ** Resolution of a module set *)

Record edges_named (contracts : list ModuleContract) (ids : gset string)
    (edges : list RequiredCapabilityEdge) : Prop := {
  en_ids : ids = list_to_set (mc_module_id <$> contracts);
  en_keys : NoDup (edge_key <$> edges);
}.

Lemma elem_of_omap_edges m (cs : list ModuleContract) e :
  e ∈ (cs ≫= fun c => omap (edge_for m c) (mc_required_capabilities c)) <->
  exists c x, c ∈ cs /\ x ∈ mc_required_capabilities c /\ edge_for m c x = Some e.
Proof. rewrite list_elem_of_bind. setoid_rewrite list_elem_of_omap. naive_solver. Qed.

Lemma resolve_edges_ok contracts external ids r :
  resolve_edges contracts external = Ok (ids, r) ->
  resolved contracts external r /\ edges_named contracts ids (cr_edges r).
Proof.
  unfold resolve_edges. rewrite check_ok, for_each_ok. intros [Hval H].
  apply rbind_ok in H as ([ids' m] & Hidx & H). simpl in H.
  apply rbind_ok in H as (r0 & Hr & [= <- <-]).
  pose proof (inhabited_index _ _ _ Hidx) as Hinh.
  apply index_providers_ok in Hidx as (Hnd & Hids & Hm).
  apply resolve_contracts_all in Hr as (He & Hb & Hd & Hall).
  unfold sorted_contracts in *. simpl in He, Hb, Hd.
  assert (Hperm : stable_sort (fun l r => string_leb (mc_module_id l) (mc_module_id r)) contracts
                  ≡ₚ contracts) by apply stable_sort_perm.
  set (cs := stable_sort _ contracts) in *.
  assert (Hmem : forall c, c ∈ cs <-> c ∈ contracts) by (intros c; by rewrite Hperm).
  split; [split|split]; cbn [resolution_sort cr_edges cr_external_bindings cr_degraded];
    unfold sort_by_consumer_and_capability.
  - intros e. rewrite stable_sort_perm, He, elem_of_omap_edges.
    setoid_rewrite (edge_for_iff contracts m Hm). setoid_rewrite Hmem. naive_solver.
  - intros b. rewrite stable_sort_perm, Hb, list_elem_of_bind. setoid_rewrite list_elem_of_omap.
    split.
    + intros (c & (x & Hx & Hbx) & Hc).
      destruct (Hall c x Hc Hx) as [[_ Hn]|(_ & _ & Hself)]; [congruence|].
      unfold binding_for in Hbx. destruct (candidates _ _ _) eqn:Hcand; [|done].
      destruct (external !! x) eqn:Hx'; [|done]. injection Hbx as <-. simpl.
      exists c. split_and!; [by apply Hmem|done|done| |done].
      by apply (candidates_nil_iff contracts m Hm c x Hself).
    + intros (c & Hc%Hmem & Hid & Hx & Hu & Ho). exists c. split; [|done].
      exists (gb_capability b). split; [done|]. unfold binding_for.
      assert (Hself : mc_module_id c ∉ default ∅ (m !! gb_capability b)) by (rewrite Hm; apply Hu).
      rewrite (proj2 (candidates_nil_iff contracts m Hm c _ Hself) Hu), Ho. destruct b; simpl in *.
      by subst.
  - intros c x Hc%Hmem Hx. destruct (Hall c x Hc Hx) as [[[e Hex] _]|(_ & [b Hbx] & Hself)].
    + left. apply (edge_for_iff contracts m Hm) in Hex as (_ & _ & Hs). by eexists.
    + right. unfold binding_for in Hbx. destruct (candidates _ _ _) eqn:Hcand; [|done].
      split; [by apply (candidates_nil_iff contracts m Hm c x Hself)|].
      destruct (external !! x); [by eexists|done].
  - intros u. rewrite stable_sort_perm, Hd, list_elem_of_bind.
    split.
    + intros (c & Hu%(degraded_of_iff contracts m Hm external) & Hc%Hmem); [|done]. by exists c.
    + intros (c & Hc%Hmem & Hu). exists c. by rewrite (degraded_of_iff contracts m Hm external).
  - done.
  - rewrite stable_sort_perm, He. apply all_edges_NoDup; [by rewrite Hperm|]. rewrite Hperm.
    eapply Forall_impl; [exact Hval|]. apply contract_validate_required.
Qed.

Lemma resolved_requires_ids contracts external ids r x y :
  resolved contracts external r -> edges_named contracts ids (cr_edges r) ->
  requires (cr_edges r) x y -> x ∈ ids /\ y ∈ ids.
Proof.
  intros Hres [-> _] (e & He & <- & <-).
  apply (res_edges _ _ _ Hres) in He as (c & Hc & -> & _ & _ & (c' & Hc' & <- & _) & _).
  rewrite !elem_of_list_to_set. split; by apply list_elem_of_fmap_2.
Qed.

(** The module requires no two capabilities of one provider. *)
Definition one_edge_each (edges : list RequiredCapabilityEdge) (x : string) : Prop :=
  forall e1 e2, e1 ∈ edges -> e2 ∈ edges -> ge_consumer e1 = x -> ge_consumer e2 = x ->
    ge_provider e1 = ge_provider e2 -> e1 = e2.

Lemma providers_of_NoDup edges x :
  NoDup (edge_key <$> edges) -> NoDup (providers_of edges x) <-> one_edge_each edges x.
Proof.
  intros Hnd%NoDup_fmap_1. unfold providers_of, one_edge_each. split.
  - intros Hp e1 e2 H1 H2 Hc1 Hc2 Heq.
    assert (forall e, e ∈ edges -> ge_consumer e = x -> exists i,
              filter (fun e => ge_consumer e = x) edges !! i = Some e) as Hidx.
    { intros e He Hce. by apply list_elem_of_lookup_1, list_elem_of_filter. }
    destruct (Hidx e1 H1 Hc1) as [i Hi], (Hidx e2 H2 Hc2) as [j Hj].
    rewrite NoDup_alt in Hp. assert (i = j) as ->; [|congruence].
    apply (Hp i j (ge_provider e1)); rewrite list_lookup_fmap, ?Hi, ?Hj; simpl; congruence.
  - intros Hone. apply NoDup_fmap_2_strong; [|by apply NoDup_filter].
    intros e1 e2 [Hc1 H1]%list_elem_of_filter [Hc2 H2]%list_elem_of_filter Heq. by apply Hone.
Qed.

(** The cycle search on the resolved edges. *)
Lemma resolved_search contracts external ids r :
  resolve_edges contracts external = Ok (ids, r) ->
  exists o, find_required_capability_cycle ids (edge_adjacency (cr_edges r)) = Some o /\
    match o with
    | Some path => is_cycle ids (edge_adjacency (cr_edges r)) path
    | None => forall x, ~ tc (requires (cr_edges r)) x x
    end.
Proof.
  intros [Hres Hen]%resolve_edges_ok.
  destruct (cycle_search_correct ids (edge_adjacency (cr_edges r))) as (o & Ho & Hpost).
  { intros x y Hxy%edge_adjacency_linked. by eapply resolved_requires_ids. }
  exists o. split; [done|]. destruct o as [path|]; [done|]. intros x Hx. apply (Hpost x).
  revert Hx. generalize x at 2 4. intros z. induction 1 as [a b Hab|a b d Hab _ IH].
  - apply tc_once. by apply edge_adjacency_linked.
  - eapply tc_l; [by apply edge_adjacency_linked|done].
Qed.

(** A returned graph, in its parts. *)
Lemma resolve_graph_ok contracts external g :
  resolve_required_capability_graph contracts external = Some (Ok g) ->
  exists ids r order,
    g = {| rg_edges := cr_edges r; rg_external_bindings := cr_external_bindings r;
           rg_startup_order := order; rg_drain_order := reverse order;
           rg_degraded := cr_degraded r |} /\
    resolved contracts external r /\ edges_named contracts ids (cr_edges r) /\
    (forall x y, requires (cr_edges r) x y -> x ∈ ids /\ y ∈ ids) /\
    (forall x, ~ tc (requires (cr_edges r)) x x) /\ order_post ids (cr_edges r) order.
Proof.
  unfold resolve_required_capability_graph. intros Hok.
  destruct (resolve_edges contracts external) as [[ids r]|e] eqn:Hr; [|done].
  destruct (resolved_search _ _ _ _ Hr) as ([path|] & Hs & Hac); rewrite Hs in Hok; [done|].
  apply resolve_edges_ok in Hr as [Hres Hen].
  assert (Hids : forall x y, requires (cr_edges r) x y -> x ∈ ids /\ y ∈ ids)
    by (intros x y; by eapply resolved_requires_ids).
  destruct (topological_orders_post ids (cr_edges r) Hids) as (order & Ho & Hpost).
  rewrite Ho in Hok. injection Hok as <-. by exists ids, r, order.
Qed.

(** The two modules an edge joins. *)
Definition edge_ends (e : RequiredCapabilityEdge) : string * string :=
  (ge_consumer e, ge_provider e).

Lemma edge_ends_one edges x : NoDup (edge_ends <$> edges) -> one_edge_each edges x.
Proof.
  intros Hnd e1 e2 [i Hi]%list_elem_of_lookup [j Hj]%list_elem_of_lookup Hc1 Hc2 Hp.
  rewrite NoDup_alt in Hnd. assert (i = j) as ->; [|congruence].
  apply (Hnd i j (edge_ends e1)); rewrite list_lookup_fmap, ?Hi, ?Hj; simpl; [done|].
  unfold edge_ends. congruence.
Qed.

Lemma reverse_precedes {A} (l : list A) i j x y :
  (i < j)%nat -> l !! i = Some x -> l !! j = Some y ->
  exists i' j', (i' < j')%nat /\ reverse l !! i' = Some y /\ reverse l !! j' = Some x.
Proof.
  intros Hlt Hi Hj. pose proof (lookup_lt_Some _ _ _ Hj).
  exists (length l - S j)%nat, (length l - S i)%nat. split; [lia|].
  rewrite !reverse_lookup by lia. split; rewrite <- ?Hi, <- ?Hj; f_equal; lia.
Qed.

(** A resolved graph orders exactly the modules for which neither they nor
    anything they depend on requires two capabilities of one provider, each
    after its providers; the other modules are in neither order. *)
Lemma startup_order_members contracts external g :
  resolve_required_capability_graph contracts external = Some (Ok g) ->
  NoDup (rg_startup_order g) /\ rg_drain_order g = reverse (rg_startup_order g) /\
  (forall i c p, rg_startup_order g !! i = Some c -> requires (rg_edges g) c p ->
     p ∈ take i (rg_startup_order g)) /\
  (forall c, c ∈ rg_startup_order g <->
     c ∈ mc_module_id <$> contracts /\
     forall x, rtc (requires (rg_edges g)) c x -> one_edge_each (rg_edges g) x).
Proof.
  intros (ids & r & order & -> & Hres & Hen & Hids & Hac & Hpost)%resolve_graph_ok. simpl.
  split_and!; [apply Hpost|done|apply Hpost|].
  intros c. rewrite (order_members ids (cr_edges r) Hids Hac order c Hpost).
  rewrite (en_ids _ _ _ Hen), elem_of_list_to_set. unfold startable.
  setoid_rewrite (providers_of_NoDup _ _ (en_keys _ _ _ Hen)). done.
Qed.

Lemma resolved_consumer contracts external g e :
  resolve_required_capability_graph contracts external = Some (Ok g) ->
  e ∈ rg_edges g -> ge_consumer e ∈ mc_module_id <$> contracts.
Proof.
  intros (ids & r & order & -> & Hres & _)%resolve_graph_ok He. simpl in He.
  apply (res_edges _ _ _ Hres) in He as (c & Hc & -> & _). by apply list_elem_of_fmap_2.
Qed.

(** ** Theorems *)

(** C38. The resolver always answers. It reports a dependency cycle only with
    the path of an actual cycle of the resolved edges, each module on it
    requiring something of the next and the last of the first, and a graph it
    returns has no cycle. *)
Theorem capability_cycle_exact contracts external :
  exists r, resolve_required_capability_graph contracts external = Some r /\
    match r with
    | Ok g => forall x, ~ tc (requires (rg_edges g)) x x
    | Err e =>
        match resolve_edges contracts external with
        | Err e' => e = e'
        | Ok (ids, res) =>
            exists path, is_cycle ids (edge_adjacency (cr_edges res)) path /\
              e = RRequiredCapabilityCycle (join_strings " -> " path)
        end
    end.
Proof.
  unfold resolve_required_capability_graph.
  destruct (resolve_edges contracts external) as [[ids r]|e] eqn:Hr; [|by eexists].
  destruct (resolved_search _ _ _ _ Hr) as ([path|] & -> & Hpost).
  { eexists. split; [done|]. by exists path. }
  apply resolve_edges_ok in Hr as [Hres Hen].
  destruct (topological_orders_post ids (cr_edges r)) as (order & -> & _).
  { intros x y. by eapply resolved_requires_ids. }
  by eexists.
Qed.

(** C39. In a resolved graph where no module requires two capabilities of one
    provider, the startup order lists every module of the set exactly once, the
    provider of each resolved edge stands before its consumer, and the drain
    order is the reverse, so that the consumer of each edge drains first. *)
Theorem startup_order_exact contracts external g
  (Hok : resolve_required_capability_graph contracts external = Some (Ok g))
  (Hone : NoDup (edge_ends <$> rg_edges g)) :
  NoDup (rg_startup_order g) /\
  (forall c, c ∈ rg_startup_order g <-> c ∈ mc_module_id <$> contracts) /\
  (forall e, e ∈ rg_edges g -> exists i j, (i < j)%nat /\
     rg_startup_order g !! i = Some (ge_provider e) /\
     rg_startup_order g !! j = Some (ge_consumer e)) /\
  (forall e, e ∈ rg_edges g -> exists i j, (i < j)%nat /\
     rg_drain_order g !! i = Some (ge_consumer e) /\
     rg_drain_order g !! j = Some (ge_provider e)).
Proof.
  destruct (startup_order_members _ _ _ Hok) as (Hnd & Hdrain & Hfirst & Hmem).
  assert (forall c, c ∈ rg_startup_order g <-> c ∈ mc_module_id <$> contracts) as Hall.
  { intros c. rewrite Hmem. split; [by intros []|]. eauto using edge_ends_one. }
  assert (forall e, e ∈ rg_edges g -> exists i j, (i < j)%nat /\
            rg_startup_order g !! i = Some (ge_provider e) /\
            rg_startup_order g !! j = Some (ge_consumer e)) as Hstart.
  { intros e He. pose proof (resolved_consumer _ _ _ _ Hok He) as Hc.
    apply Hall, list_elem_of_lookup in Hc as [j Hj].
    assert (ge_provider e ∈ take j (rg_startup_order g)) as Hp
      by (eapply Hfirst; [done|by exists e]).
    apply list_elem_of_lookup in Hp as [i [Hi Hlt]%lookup_take_Some]. eauto. }
  split_and!; [done..|]. intros e He. destruct (Hstart e He) as (i & j & Hlt & Hi & Hj).
  rewrite Hdrain. by eapply reverse_precedes.
Qed.

(** In a resolved graph the edges are exactly the required capabilities
    that a single other module provides, the external bindings exactly those
    that no module provides and an external owner does, every required
    capability is one or the other, and the degradations are exactly the
    optional and advisory capabilities that nobody provides. *)
Theorem capability_resolution_exact contracts external g
  (Hok : resolve_required_capability_graph contracts external = Some (Ok g)) :
  (forall e, e ∈ rg_edges g <->
     exists c, c ∈ contracts /\ ge_consumer e = mc_module_id c /\
       ge_capability e ∈ mc_required_capabilities c /\
       sole_provider contracts (mc_module_id c) (ge_provider e) (ge_capability e)) /\
  (forall b, b ∈ rg_external_bindings g <->
     exists c, c ∈ contracts /\ gb_consumer b = mc_module_id c /\
       gb_capability b ∈ mc_required_capabilities c /\
       unprovided contracts (gb_capability b) /\ external !! gb_capability b = Some (gb_owner b)) /\
  (forall c x, c ∈ contracts -> x ∈ mc_required_capabilities c ->
     (exists p, sole_provider contracts (mc_module_id c) p x) \/
     unprovided contracts x /\ is_Some (external !! x)) /\
  (forall u, u ∈ rg_degraded g <->
     exists c, c ∈ contracts /\ gu_consumer u = mc_module_id c /\
       declares_as c (gu_kind u) (gu_capability u) /\
       unprovided contracts (gu_capability u) /\ external !! gu_capability u = None).
Proof.
  by apply resolve_graph_ok in Hok as (ids & r & order & -> & [He Hb Ht Hd] & _).
Qed.
