(* ===== verification/ModuleReadiness.v ===== *)
(** * Generation readiness and lifecycle order

    What the kernel makes of a resolved module set: the readiness of each
    generation and its recheck
    (crates/kernel/eliot-kernel-core/src/module/generation_readiness.rs), and
    the order in which modules start and drain (module_lifecycle_order.rs of
    the same directory); the admitted manifest they read is that of
    crates/foundation/eliot-runtime-contracts/src/module_manifest.rs.

    The canonical JSON of a graph and of a contract and SHA-256 are the class
    [ModuleWire]. *)

From Stdlib Require Import String.
From S2P Require Import Prelude RustText Contracts Receipts RuntimeErrors Kernel ModuleGraph.

#[local] Open Scope string_scope.
#[local] Open Scope list_scope.
#[local] Open Scope Z_scope.

(** ** The admitted manifest *)

Record AdmittedModuleManifest : Type := {
  am_module_id : ContractId;
  am_version : ContractVersion;
  am_artifact_id : ArtifactId;
  am_manifest_digest : string;
  am_contract_digest : string;
  am_schema_version : Z;
  am_contract : ModuleContract;
}.

Class ModuleWire := {
  module_sha256 : list Z -> list Z;
  graph_json : RequiredCapabilityGraph -> result string (list Z);
  contract_json : ModuleContract -> result string (list Z);
}.

Definition compare_published_projection `{ModuleWire} (admitted : AdmittedModuleManifest)
    (published : ModuleContract) : GrR unit :=
  if am_contract admitted == published then Ok tt
  else
    let? bytes := map_err (fun error => RMalformedModuleManifest
                     ("the published contract is not canonically serialisable: " +:+ error))
                    (contract_json published) in
    Err (RPublishedProjectionMismatch (am_module_id admitted) (am_contract_digest admitted)
           (sha256_hex module_sha256 bytes)).

(** ** Readiness *)

Inductive GenerationReadiness : Type := GrReady | GrIncomplete | GrStale.

#[global] Instance GenerationReadiness_eq_dec : EqDecision GenerationReadiness.
Proof. solve_decision. Defined.

Record GenerationContractIdentity : Type := {
  gi_module_id : ContractId;
  gi_manifest_digest : string;
  gi_contract_digest : string;
  gi_artifact_id : string;
  gi_graph_digest : string;
}.

#[global] Instance GenerationContractIdentity_eq_dec : EqDecision GenerationContractIdentity.
Proof. solve_decision. Defined.

Record GenerationReadinessProjection : Type := {
  gp_module_id : ContractId;
  gp_readiness : GenerationReadiness;
  gp_resolved_required : list RequiredCapabilityEdge;
  gp_degraded_capabilities : list UnresolvedCapability;
  gp_contract_identity : option GenerationContractIdentity;
  gp_blocking_reason : option string;
}.

Definition projection_ready (c : ModuleContract) (g : RequiredCapabilityGraph)
    (identity : option GenerationContractIdentity) : GenerationReadinessProjection :=
  {| gp_module_id := mc_module_id c; gp_readiness := GrReady;
     gp_resolved_required := edges_for g (mc_module_id c);
     gp_degraded_capabilities := degraded_for g (mc_module_id c);
     gp_contract_identity := identity; gp_blocking_reason := None |}.

Definition projection_blocked (module_id : ContractId) (readiness : GenerationReadiness)
    (reason : string) : GenerationReadinessProjection :=
  {| gp_module_id := module_id; gp_readiness := readiness; gp_resolved_required := [];
     gp_degraded_capabilities := []; gp_contract_identity := None;
     gp_blocking_reason := Some reason |}.

(** The required capabilities without an edge in the graph. *)
Definition missing_capabilities (c : ModuleContract) (g : RequiredCapabilityGraph)
    : list string :=
  List.filter (fun capability =>
      negb (existsb (fun e => ge_capability e == capability) (edges_for g (mc_module_id c))))
    (mc_required_capabilities c).

Section Readiness.
Context `{ModuleWire}.

Definition graph_identity (g : RequiredCapabilityGraph) : KR string :=
  let? bytes := map_err (fun error => KRuntimeContract (RMalformedModuleManifest
                   ("the resolved capability graph is not canonically serialisable: " +:+ error)))
                  (graph_json g) in
  Ok (sha256_hex module_sha256 bytes).

Definition GenerationContractIdentity_new (admitted : AdmittedModuleManifest)
    (g : RequiredCapabilityGraph) : KR GenerationContractIdentity :=
  let? digest := graph_identity g in
  Ok {| gi_module_id := am_module_id admitted;
        gi_manifest_digest := am_manifest_digest admitted;
        gi_contract_digest := am_contract_digest admitted;
        gi_artifact_id := am_artifact_id admitted;
        gi_graph_digest := digest |}.

(** [admitted.and_then(|a| new(a, graph).ok())] *)
Definition identity_of (admitted : option AdmittedModuleManifest) (g : RequiredCapabilityGraph)
    : option GenerationContractIdentity :=
  match admitted with
  | None => None
  | Some a =>
      match GenerationContractIdentity_new a g with
      | Ok identity => Some identity
      | Err _ => None
      end
  end.

Definition carries_other (admitted : option AdmittedModuleManifest) (c : ModuleContract)
    : option AdmittedModuleManifest :=
  match admitted with
  | Some a => if am_contract a == c then None else Some a
  | None => None
  end.

Definition evaluate_admitted_generation_readiness (c : ModuleContract)
    (g : RequiredCapabilityGraph) (admitted : option AdmittedModuleManifest)
    : GenerationReadinessProjection :=
  match contract_validate c with
  | Err error =>
      projection_blocked (mc_module_id c) GrIncomplete
        ("module contract rejected: " +:+ runtime_error_text error)
  | Ok _ =>
      match carries_other admitted c with
      | Some a =>
          projection_blocked (mc_module_id c) GrIncomplete
            ("admitted manifest " +:+ am_manifest_digest a
             +:+ " does not carry the evaluated contract")
      | None =>
          match missing_capabilities c g with
          | [] => projection_ready c g (identity_of admitted g)
          | missing =>
              projection_blocked (mc_module_id c) GrIncomplete
                ("required capabilities unresolved: " +:+ join_strings ", " missing)
          end
      end
  end.

Definition evaluate_generation_readiness (c : ModuleContract) (g : RequiredCapabilityGraph)
    : GenerationReadinessProjection :=
  evaluate_admitted_generation_readiness c g None.

Definition identity_retained (previous current : option GenerationContractIdentity) : bool :=
  match previous, current with
  | Some retained, Some now => retained == now
  | None, None => true
  | _, _ => false
  end.

Definition recheck_after_provider_change (c : ModuleContract) (g : RequiredCapabilityGraph)
    (admitted : option AdmittedModuleManifest) (previous : GenerationReadinessProjection)
    : GenerationReadinessProjection :=
  let current := evaluate_admitted_generation_readiness c g admitted in
  if gp_readiness previous != GrReady then current
  else if identity_retained (gp_contract_identity previous) (gp_contract_identity current)
  then current
  else projection_blocked (mc_module_id c) GrStale
         "the admitted manifest or resolved required-capability graph moved since readiness was granted".

Definition evaluate_module_set_readiness (contracts : list ModuleContract)
    (external_providers : gmap string string)
    : option (KR (list GenerationReadinessProjection)) :=
  match resolve_required_capability_graph contracts external_providers with
  | None => None
  | Some (Err e) => Some (Err (KRuntimeContract e))
  | Some (Ok g) => Some (Ok (List.map (fun c => evaluate_generation_readiness c g) contracts))
  end.
End Readiness.

(** ** Lifecycle order *)

Record LifecycleStep : Type := {
  ls_module_id : ContractId;
  ls_requires : list RequiredCapabilityEdge;
}.

Record LifecycleOrder : Type := {
  lo_startup : list LifecycleStep;
  lo_drain : list LifecycleStep;
}.

Record ProviderObservation : Type := {
  po_readiness : GenerationReadiness;
  po_fresh : bool;
}.

Definition provider_first_lifecycle_order (g : RequiredCapabilityGraph) : LifecycleOrder :=
  let startup := List.map (fun module_id => {| ls_module_id := module_id;
                                        ls_requires := edges_for g module_id |})
                   (rg_startup_order g) in
  {| lo_startup := startup; lo_drain := reverse startup |}.

Definition observed_ready (observed : gmap ContractId ProviderObservation) (p : ContractId)
    : bool :=
  match observed !! p with
  | Some o => (po_readiness o == GrReady) && po_fresh o
  | None => false
  end.

Definition providers_are_satisfied (observed : gmap ContractId ProviderObservation)
    (step : LifecycleStep) : bool :=
  forallb (fun e => observed_ready observed (ge_provider e)) (ls_requires step).

Definition startup_ready_now (order : LifecycleOrder)
    (observed : gmap ContractId ProviderObservation) : list ContractId :=
  List.map ls_module_id (List.filter (providers_are_satisfied observed) (lo_startup order)).

(** The consumers that each provider waits for. *)
Definition remaining_consumers (order : LifecycleOrder) : gmap ContractId (gset ContractId) :=
  foldl (fun m step =>
           foldl (fun m e => entry_insert m (ge_provider e) (ls_module_id step)) m
             (ls_requires step))
    ∅ (lo_startup order).

Definition may_drain (consumers : option (gset ContractId)) (quiesced : gset ContractId) : bool :=
  match consumers with
  | None => true
  | Some consumers => bool_decide (consumers ⊆ quiesced)
  end.

Definition drain_ready_now (order : LifecycleOrder) (quiesced : gset ContractId)
    : list ContractId :=
  List.map ls_module_id
    (List.filter (fun step => may_drain (remaining_consumers order !! ls_module_id step) quiesced)
       (lo_drain order)).
