(* ===== verification/ModuleReadinessLaws.v ===== *)
(** * Readiness and lifecycle order: theorems

    Startup and drain over a resolved graph are safe and never stuck; when a
    generation is ready; concrete module sets, among them those where the code
    departs from its documentation. *)

From Stdlib Require Import String.
From stdpp Require Import relations.
From S2P Require Import Prelude RustText Contracts Receipts RuntimeErrors Kernel.
From S2P Require Import ModuleGraph ModuleGraphLaws ModuleGraphTheorems ModuleReadiness.

#[local] Open Scope string_scope.
#[local] Open Scope list_scope.
#[local] Open Scope Z_scope.

(** ** Lifecycle order *)

Lemma elem_of_filter_bool {A} (p : A -> bool) (l : list A) x :
  x ∈ List.filter p l <-> x ∈ l /\ p x = true.
Proof. rewrite !list_elem_of_In. apply List.filter_In. Qed.

Lemma elem_of_map {A B} (f : A -> B) (l : list A) y : y ∈ List.map f l <-> exists x, x ∈ l /\ f x = y.
Proof. rewrite list_elem_of_In, List.in_map_iff. setoid_rewrite list_elem_of_In. naive_solver. Qed.

Lemma elem_of_edges_for g m e : e ∈ edges_for g m <-> e ∈ rg_edges g /\ ge_consumer e = m.
Proof. unfold edges_for. rewrite list_elem_of_filter. naive_solver. Qed.

Section Lifecycle.
Context (g : RequiredCapabilityGraph).
Abbreviation order := (provider_first_lifecycle_order g).
Abbreviation needs := (requires (rg_edges g)).

Definition step_of (m : string) : LifecycleStep :=
  {| ls_module_id := m; ls_requires := edges_for g m |}.

Lemma providers_satisfied_iff observed m :
  providers_are_satisfied observed (step_of m) = true <->
  forall p, needs m p -> observed_ready observed p = true.
Proof.
  unfold providers_are_satisfied. rewrite forallb_true_iff, Forall_forall. simpl. split.
  - intros H p (e & He & Hc & <-). apply (H e). by apply elem_of_edges_for.
  - intros H e [He Hc]%elem_of_edges_for. apply H. by exists e.
Qed.

Lemma startup_ready_iff observed m :
  m ∈ startup_ready_now order observed <->
  m ∈ rg_startup_order g /\ forall p, needs m p -> observed_ready observed p = true.
Proof.
  unfold startup_ready_now. rewrite elem_of_map. setoid_rewrite elem_of_filter_bool.
  simpl. setoid_rewrite elem_of_map. split.
  - intros (st & [(x & Hx & <-) Hs] & <-). split; [done|]. by apply providers_satisfied_iff.
  - intros [Hm Hs]. exists (step_of m). split; [split; [by exists m|]|done].
    by apply providers_satisfied_iff.
Qed.

Lemma entry_insert_steps steps m k v :
  v ∈ default ∅ (foldl (fun m step =>
        foldl (fun m e => entry_insert m (ge_provider e) (ls_module_id step)) m (ls_requires step))
      m steps !! k) <->
  v ∈ default ∅ (m !! k) \/
  exists step, step ∈ steps /\ ls_module_id step = v /\
    exists e, e ∈ ls_requires step /\ ge_provider e = k.
Proof.
  revert m. induction steps as [|step steps IH]; intros m; cbn [foldl]; [set_solver|].
  rewrite IH, (entry_insert_all ge_provider (fun _ => ls_module_id step)).
  setoid_rewrite elem_of_cons. naive_solver.
Qed.

Lemma remaining_consumers_iff c p :
  c ∈ default ∅ (remaining_consumers order !! p) <-> c ∈ rg_startup_order g /\ needs c p.
Proof.
  unfold remaining_consumers. rewrite entry_insert_steps, lookup_empty. simpl.
  setoid_rewrite elem_of_map. split.
  - intros [?|(st & (x & Hx & <-) & <- & e & [He Hc]%elem_of_edges_for & Hp)]; [set_solver|].
    split; [done|]. by exists e.
  - intros [Hc (e & He & Hce & Hp)]. right. exists (step_of c). split_and!; [by exists c|done|].
    exists e. split; [|done]. by apply elem_of_edges_for.
Qed.

Lemma may_drain_iff quiesced p :
  may_drain (remaining_consumers order !! p) quiesced = true <->
  forall c, c ∈ rg_startup_order g -> needs c p -> c ∈ quiesced.
Proof.
  transitivity (default ∅ (remaining_consumers order !! p) ⊆ quiesced).
  - unfold may_drain. destruct (remaining_consumers order !! p); simpl;
      [by rewrite bool_decide_eq_true|set_solver].
  - setoid_rewrite elem_of_subseteq. setoid_rewrite remaining_consumers_iff. naive_solver.
Qed.

Lemma drain_ready_iff quiesced m :
  m ∈ drain_ready_now order quiesced <->
  m ∈ rg_startup_order g /\ forall c, c ∈ rg_startup_order g -> needs c m -> c ∈ quiesced.
Proof.
  unfold drain_ready_now. rewrite elem_of_map. setoid_rewrite elem_of_filter_bool.
  setoid_rewrite <- may_drain_iff. simpl. setoid_rewrite elem_of_reverse.
  setoid_rewrite elem_of_map. split.
  - by intros (st & [(x & Hx & <-) Hs] & <-).
  - intros [Hm Hs]. exists (step_of m). split; [split; [by exists m|done]|done].
Qed.
End Lifecycle.

(** The first element of a list that fails a test, with those before it. *)
Lemma first_failing (p : string -> bool) (l : list string) m :
  m ∈ l -> p m = false ->
  exists i x, l !! i = Some x /\ p x = false /\ forall y, y ∈ take i l -> p y = true.
Proof.
  intros Hm Hp. destruct (list_find (fun x => p x = false) l) as [[i x]|] eqn:Hf.
  - apply list_find_Some in Hf as (Hi & Hx & Hbefore). exists i, x. split_and!; [done..|].
    intros y (j & [Hj Hlt]%lookup_take_Some)%list_elem_of_lookup_1.
    apply not_false_iff_true. eauto.
  - apply list_find_None in Hf. rewrite Forall_forall in Hf. by destruct (Hf m Hm).
Qed.

(** What comes later in a list comes earlier in its reverse. *)
Lemma before_reverse (l : list string) i j x y :
  NoDup l -> reverse l !! i = Some x -> l !! j = Some y -> x ∈ take j l ->
  y ∈ take i (reverse l).
Proof.
  intros Hnd [Hx Hi]%reverse_lookup_Some Hj (k & [Hk Hlt]%lookup_take_Some)%list_elem_of_lookup_1.
  assert (k = length l - S i)%nat as -> by (by eapply NoDup_lookup).
  pose proof (lookup_lt_Some _ _ _ Hj).
  apply (list_elem_of_lookup_2 _ (length l - S j)), lookup_take_Some. split; [|lia].
  apply reverse_lookup_Some. split; [|lia]. rewrite <- Hj. f_equal. lia.
Qed.

(** ** Theorems *)

(** Over a resolved graph, startup and drain are safe and never stuck. A
    module may start exactly when every module it requires is observed ready
    and fresh, and drain exactly when every module of the order that requires
    it has quiesced. As long as some module of the order is not ready, one
    that is not ready may start; as long as some module of the order has not
    quiesced, one that has not may drain. *)
Theorem lifecycle_never_stuck contracts external g
  (Hok : resolve_required_capability_graph contracts external = Some (Ok g)) :
  let order := provider_first_lifecycle_order g in
  (forall observed m, m ∈ startup_ready_now order observed <->
     m ∈ rg_startup_order g /\
     forall p, requires (rg_edges g) m p -> observed_ready observed p = true) /\
  (forall quiesced m, m ∈ drain_ready_now order quiesced <->
     m ∈ rg_startup_order g /\
     forall c, c ∈ rg_startup_order g -> requires (rg_edges g) c m -> c ∈ quiesced) /\
  (forall observed m, m ∈ rg_startup_order g -> observed_ready observed m = false ->
     exists n, n ∈ startup_ready_now order observed /\ observed_ready observed n = false) /\
  (forall quiesced m, m ∈ rg_startup_order g -> m ∉ quiesced ->
     exists n, n ∈ drain_ready_now order quiesced /\ n ∉ quiesced).
Proof.
  apply resolve_graph_ok in Hok as (ids & r & order & -> & _ & _ & _ & _ & [Hnd Hbefore _]).
  simpl. split_and!.
  - intros observed m. apply startup_ready_iff.
  - intros quiesced m. apply drain_ready_iff.
  - intros observed m Hm Hf. destruct (first_failing _ _ _ Hm Hf) as (i & n & Hn & Hnf & Hall).
    exists n. split; [|done]. apply startup_ready_iff. simpl. split; [by eapply list_elem_of_lookup_2|].
    intros p Hp. by eapply Hall, Hbefore.
  - intros quiesced m Hm Hq.
    destruct (first_failing (fun x => bool_decide (x ∈ quiesced)) (reverse order) m)
      as (i & n & Hn & Hnf%bool_decide_eq_false & Hall).
    { by apply elem_of_reverse. }
    { by apply bool_decide_eq_false. }
    exists n. split; [|done]. apply drain_ready_iff. simpl.
    assert (n ∈ order) as Hin by (apply elem_of_reverse; by eapply list_elem_of_lookup_2).
    split; [done|]. intros c Hc Hreq. apply list_elem_of_lookup_1 in Hc as [j Hj].
    apply (bool_decide_eq_true (c ∈ quiesced)), Hall. eapply before_reverse; eauto.
Qed.

(** What is missing of a module of a resolved set are the capabilities
    that no module provides, although an external owner does. *)
Lemma missing_unprovided contracts external g c :
  resolve_required_capability_graph contracts external = Some (Ok g) -> c ∈ contracts ->
  missing_capabilities c g = [] <->
  forall x, x ∈ mc_required_capabilities c -> ~ unprovided contracts x.
Proof.
  intros (ids & r & order & -> & Hres & _)%resolve_graph_ok Hc. unfold missing_capabilities. simpl.
  transitivity (forall x, x ∈ mc_required_capabilities c ->
                  exists e, e ∈ cr_edges r /\ ge_consumer e = mc_module_id c /\ ge_capability e = x).
  - split.
    + intros Hm x Hx. destruct (existsb (fun e => ge_capability e == x)
        (edges_for {| rg_edges := cr_edges r; rg_external_bindings := cr_external_bindings r;
           rg_startup_order := order; rg_drain_order := reverse order;
           rg_degraded := cr_degraded r |} (mc_module_id c))) eqn:He.
      * apply List.existsb_exists in He as (e & He & Hx'%bool_decide_eq_true).
        apply list_elem_of_In, elem_of_edges_for in He as [? ?]. by exists e.
      * exfalso. apply (not_elem_of_nil x). rewrite <- Hm. apply elem_of_filter_bool.
        split; [done|]. by rewrite He.
    + intros Hall. apply elem_of_nil_inv. intros x [Hx Hn]%elem_of_filter_bool.
      destruct (Hall x Hx) as (e & He & Hce & Hxe). apply negb_true_iff, existsb_false_iff in Hn.
      rewrite Forall_forall in Hn. specialize (Hn e). rewrite elem_of_edges_for in Hn.
      specialize (Hn (conj He Hce)). by rewrite bool_decide_eq_false in Hn.
  - split; intros Hall x Hx.
    + destruct (Hall x Hx) as (e & He & Hce & Hxe).
      apply (res_edges _ _ _ Hres) in He as (c' & _ & _ & _ & _ & Hp & _). subst x. intros Hu.
      by apply (Hu (ge_provider e)).
    + destruct (res_total _ _ _ Hres c x Hc Hx) as [[p Hp]|[Hu _]]; [|by destruct (Hall x Hx)].
      exists {| ge_consumer := mc_module_id c; ge_capability := x; ge_provider := p |}.
      split; [|done]. apply (res_edges _ _ _ Hres). by exists c.
Qed.

Lemma resolve_graph_valid contracts external g c :
  resolve_required_capability_graph contracts external = Some (Ok g) -> c ∈ contracts ->
  contract_validate c = Ok tt.
Proof.
  unfold resolve_required_capability_graph, resolve_edges. intros Hok Hc.
  destruct (for_each contract_validate contracts) as [[]|e] eqn:Hv; [|done].
  apply for_each_ok in Hv. rewrite Forall_forall in Hv. by apply Hv.
Qed.

Section Readiness.
Context `{ModuleWire}.

(** In an evaluated module set every module has its projection, and a
    module is ready exactly when each capability it requires is provided by a
    module of the set; otherwise it is incomplete. *)
Theorem module_set_readiness_exact contracts external ps i c q
  (Hok : evaluate_module_set_readiness contracts external = Some (Ok ps))
  (Hc : contracts !! i = Some c) (Hq : ps !! i = Some q) :
  length ps = length contracts /\ gp_module_id q = mc_module_id c /\
  (gp_readiness q = GrReady <->
   forall x, x ∈ mc_required_capabilities c -> ~ unprovided contracts x) /\
  (gp_readiness q <> GrReady -> gp_readiness q = GrIncomplete).
Proof.
  unfold evaluate_module_set_readiness in Hok.
  destruct (resolve_required_capability_graph contracts external) as [[g|]|] eqn:Hg; [|done..].
  injection Hok as <-. rewrite List.length_map. split; [done|].
  change (List.map ?f contracts) with (f <$> contracts) in Hq.
  rewrite list_lookup_fmap, Hc in Hq. injection Hq as <-.
  pose proof (list_elem_of_lookup_2 _ _ _ Hc) as Hin.
  rewrite <- (missing_unprovided _ _ _ _ Hg Hin).
  unfold evaluate_generation_readiness, evaluate_admitted_generation_readiness.
  rewrite (resolve_graph_valid _ _ _ _ Hg Hin). simpl.
  destruct (missing_capabilities c g); simpl; naive_solver.
Qed.

(** A generation that was ready with retained identities stays ready in
    a recheck only if the freshly admitted manifest carries the evaluated
    contract and all the identities, the resolved graph's among them, are the
    retained ones. *)
Theorem recheck_same_identity c g admitted previous identity
  (Hprev : gp_readiness previous = GrReady)
  (Hid : gp_contract_identity previous = Some identity)
  (Hready : gp_readiness (recheck_after_provider_change c g admitted previous) = GrReady) :
  exists a, admitted = Some a /\ am_contract a = c /\ missing_capabilities c g = [] /\
    graph_identity g = Ok (gi_graph_digest identity) /\
    am_manifest_digest a = gi_manifest_digest identity /\
    am_contract_digest a = gi_contract_digest identity /\
    am_artifact_id a = gi_artifact_id identity.
Proof.
  unfold recheck_after_provider_change, evaluate_admitted_generation_readiness in Hready.
  rewrite Hprev, Hid in Hready. simpl in Hready.
  destruct (contract_validate c) as [[]|]; [|done].
  destruct (carries_other admitted c) eqn:Hother; [done|].
  destruct (missing_capabilities c g) eqn:Hm; [|done]. cbn in Hready.
  destruct (identity_of admitted g) as [now|] eqn:Hnow; [|done]. cbn in Hready.
  case_bool_decide as Heq; [|done]. subst now.
  destruct admitted as [a|]; [|done]. exists a. simpl in Hnow.
  unfold GenerationContractIdentity_new in Hnow.
  destruct (graph_identity g) as [d|]; [|done]. simpl in Hnow. injection Hnow as <-. simpl in *.
  case_bool_decide; [|done]. done.
Qed.
End Readiness.

(** ** Concrete module sets *)

Definition module (id : string) (provided required : list string) : ModuleContract :=
  {| mc_module_id := id; mc_version := {| major := 1; minor := 0; patch := 0 |};
     mc_artifact_id := "artifact"; mc_protocols := ["p"]; mc_capabilities := provided;
     mc_required_capabilities := required; mc_optional_capabilities := ["tracing"];
     mc_advisory_capabilities := []; mc_state_owner := "o"; mc_failure_domain := "d";
     mc_owner := "o"; mc_hot_replace := true; mc_startup_after := []; mc_drain_before := [];
     mc_invalidation_triggers := []; mc_supervision_plan := "s"; mc_child_restart := "r";
     mc_restart_intensity := "i"; mc_resource_profile := "r"; mc_privacy_classes := [];
     mc_permissions := []; mc_health_contract := "h"; mc_checkpoint_contract := "c";
     mc_compatibility_state := "c"; mc_independent_test_profile := "t";
     mc_contract_fixture_set := "f"; mc_affected_test_tags := []; mc_architecture := [];
     mc_telemetry := "t"; mc_removal_boundary := "b" |}.

(** A chain: the agent needs the memory, which needs the store. *)
Definition chain : list ModuleContract :=
  [module "agent" [] ["recall"]; module "memory" ["recall"] ["rows"]; module "store" ["rows"] []].

Definition graph_or_empty (contracts : list ModuleContract) (external : gmap string string)
    : RequiredCapabilityGraph :=
  match resolve_required_capability_graph contracts external with
  | Some (Ok g) => g
  | _ => {| rg_edges := []; rg_external_bindings := []; rg_startup_order := [];
            rg_drain_order := []; rg_degraded := [] |}
  end.

Definition chain_graph : RequiredCapabilityGraph := graph_or_empty chain ∅.

Lemma chain_resolves : resolve_required_capability_graph chain ∅ = Some (Ok chain_graph).
Proof. by vm_compute. Qed.

Example chain_starts_bottom_up : rg_startup_order chain_graph = ["store"; "memory"; "agent"].
Proof. by vm_compute. Qed.

Lemma startup_order_exact_witness :
  exists i j, (i < j)%nat /\
    rg_startup_order chain_graph !! i = Some "memory" /\
    rg_startup_order chain_graph !! j = Some "agent".
Proof.
  destruct (startup_order_exact chain ∅ chain_graph chain_resolves) as (_ & _ & Hs & _).
  { apply (bool_decide_unpack _). by vm_compute. }
  apply (Hs {| ge_consumer := "agent"; ge_capability := "recall"; ge_provider := "memory" |}).
  apply (bool_decide_unpack _). by vm_compute.
Defined.

Lemma capability_resolution_exact_witness :
  exists c, c ∈ chain /\ "agent" = mc_module_id c /\ "recall" ∈ mc_required_capabilities c /\
    sole_provider chain (mc_module_id c) "memory" "recall".
Proof.
  destruct (capability_resolution_exact chain ∅ chain_graph chain_resolves) as (He & _).
  apply (He {| ge_consumer := "agent"; ge_capability := "recall"; ge_provider := "memory" |}).
  apply (bool_decide_unpack _). by vm_compute.
Defined.

Lemma lifecycle_never_stuck_witness :
  exists n, n ∈ startup_ready_now (provider_first_lifecycle_order chain_graph) ∅ /\
    observed_ready ∅ n = false.
Proof.
  destruct (lifecycle_never_stuck chain ∅ chain_graph chain_resolves) as (_ & _ & Hs & _).
  apply (Hs ∅ "agent"); [|by vm_compute]. rewrite chain_starts_bottom_up. set_solver.
Defined.

(** Encoders that tell graphs apart by their edges' providers. *)
#[local] Instance sample_module_wire : ModuleWire := {|
  module_sha256 := fun b => b;
  graph_json := fun g => Ok (concat ((fun e => bytes (ge_provider e)) <$> rg_edges g));
  contract_json := fun c => Ok (bytes (mc_module_id c));
|}.

Definition projections_or_empty (contracts : list ModuleContract) (external : gmap string string)
    : list GenerationReadinessProjection :=
  match evaluate_module_set_readiness contracts external with
  | Some (Ok ps) => ps
  | _ => []
  end.

Definition agent_projection : GenerationReadinessProjection :=
  evaluate_generation_readiness (module "agent" [] ["recall"]) chain_graph.

Lemma module_set_readiness_exact_witness :
  forall x, x ∈ ["recall"] -> ~ unprovided chain x.
Proof.
  destruct (module_set_readiness_exact chain ∅ (projections_or_empty chain ∅) 0%nat
              (module "agent" [] ["recall"]) agent_projection) as (_ & _ & Hr & _);
    [by vm_compute|done|by vm_compute|].
  apply Hr. by vm_compute.
Defined.

Definition admitted_agent : AdmittedModuleManifest :=
  {| am_module_id := "agent"; am_version := {| major := 1; minor := 0; patch := 0 |};
     am_artifact_id := "artifact"; am_manifest_digest := "m"; am_contract_digest := "c";
     am_schema_version := 1; am_contract := module "agent" [] ["recall"] |}.

Definition admitted_projection : GenerationReadinessProjection :=
  evaluate_admitted_generation_readiness (module "agent" [] ["recall"]) chain_graph
    (Some admitted_agent).

Definition agent_identity : GenerationContractIdentity :=
  {| gi_module_id := "agent"; gi_manifest_digest := "m"; gi_contract_digest := "c";
     gi_artifact_id := "artifact"; gi_graph_digest := hex_encode (bytes "memorystore") |}.

Lemma recheck_same_identity_witness :
  exists a, Some admitted_agent = Some a /\ am_contract a = module "agent" [] ["recall"] /\
    missing_capabilities (module "agent" [] ["recall"]) chain_graph = [] /\
    graph_identity chain_graph = Ok (gi_graph_digest agent_identity) /\
    am_manifest_digest a = gi_manifest_digest agent_identity /\
    am_contract_digest a = gi_contract_digest agent_identity /\
    am_artifact_id a = gi_artifact_id agent_identity.
Proof.
  apply (recheck_same_identity (module "agent" [] ["recall"]) chain_graph (Some admitted_agent)
           admitted_projection agent_identity); by vm_compute.
Defined.

(** ** Behaviours that the comments exclude *)

(** A cycle is reported with its path. *)
Example cycle_is_reported :
  resolve_required_capability_graph
    [module "a" ["x"] ["y"]; module "b" ["y"] ["x"]; module "c" [] ["x"]] ∅
  = Some (Err (RRequiredCapabilityCycle "a -> b")).
Proof. by vm_compute. Qed.

(** The agent takes two capabilities from the store. *)
Definition twice : list ModuleContract :=
  [module "agent" [] ["rows"; "blobs"]; module "store" ["rows"; "blobs"] []].

Definition twice_graph : RequiredCapabilityGraph := graph_or_empty twice ∅.

(** The graph resolves, but the agent is in neither order: it is never
    started, however ready the store is. *)
Example two_capabilities_drop_consumer :
  resolve_required_capability_graph twice ∅ = Some (Ok twice_graph) /\
  rg_startup_order twice_graph = ["store"] /\
  startup_ready_now (provider_first_lifecycle_order twice_graph)
    {["store" := {| po_readiness := GrReady; po_fresh := true |}]} = ["store"].
Proof. by vm_compute. Qed.

(** Nor is it waited for: the store may drain while the agent, which
    requires it, has not quiesced. *)
Example provider_drains_under_consumer :
  requires (rg_edges twice_graph) "agent" "store" /\
  drain_ready_now (provider_first_lifecycle_order twice_graph) ∅ = ["store"].
Proof.
  split; [|by vm_compute].
  exists {| ge_consumer := "agent"; ge_capability := "rows"; ge_provider := "store" |}.
  split; [apply (bool_decide_unpack _); by vm_compute|done].
Qed.

(** A required capability that resolves to an external owner leaves its
    module incomplete. *)
Example external_capability_never_ready :
  rg_external_bindings (graph_or_empty [module "agent" [] ["clock"]] {["clock" := "kernel"]})
  = [{| gb_consumer := "agent"; gb_capability := "clock"; gb_owner := "kernel" |}] /\
  gp_blocking_reason <$> projections_or_empty [module "agent" [] ["clock"]] {["clock" := "kernel"]}
  = [Some "required capabilities unresolved: clock"].
Proof. by vm_compute. Qed.

(** A generation evaluated without an admitted manifest stays ready when its
    provider is replaced, although the graph's identity has moved. *)
Definition replaced_graph : RequiredCapabilityGraph :=
  graph_or_empty [module "agent" [] ["recall"]; module "memory2" ["recall"] []] ∅.

Example unadmitted_recheck_keeps_ready :
  graph_identity replaced_graph <> graph_identity chain_graph /\
  gp_readiness agent_projection = GrReady /\
  gp_readiness (recheck_after_provider_change (module "agent" [] ["recall"]) replaced_graph None
                  agent_projection) = GrReady.
Proof. split_and!; [|by vm_compute..]. by vm_compute. Qed.
