(* ===== verification/OrsModel.v ===== *)
(** * Reservation data of the operational recovery store

    The data contract of a write reservation and its local validation:
    epochs, fence snapshots, the recovery envelope and its write binding
    (crates/kernel/eliot-ors/src/model.rs), the request, the token and the
    record (reservation_model.rs of the same directory).

    A text label is the [string] it wraps. What model.rs takes from sha2 and
    serde_json is the class [OrsWire]; [OrsError] has the variants the
    reservation paths raise. *)

From Stdlib Require Import String.
From S2P Require Import Prelude RustText Contracts Receipts.

#[local] Open Scope string_scope.
#[local] Open Scope list_scope.
#[local] Open Scope Z_scope.

Abbreviation OpaqueLabel := string.

(** [Contract] carries the receipt error whose text the code keeps. *)
Inductive OrsError : Type :=
| OeInvalidField (field reason : string)
| OeContract (error : ReceiptError)
| OeEncoding (error : string)
| OeUnsupportedContractVersion (version : Z)
| OePayloadTooLarge
| OePayloadIntegrityMismatch
| OeFenceMismatch
| OeEpochMismatch
| OeInvalidEpochLineage
| OeInvalidExpiry
| OeEmptyScopeSet
| OeDuplicateScope
| OeInvalidCursorLimit
| OeDuplicateConflict
| OeReservationNotFound
| OeInvalidTransition
| OeStaleWriterEpoch
| OePredecessorPending
| OeScopeRecoveryRequired
| OeRecoveryOwnerMismatch
| OeUnsafeExpiry
| OeReconciliationMismatch
| OeUnknownReceiptCannotResolve
| OeCanonicalEvidence (reason : string)
| OeOrderingHeadMismatch
| OeIntegrityProblem (record_type reason : string)
| OeStorage (detail : string)
| OeStagingCommitOutcomeUnknown (operation_id reservation_id : OpaqueLabel)
    (commit_error : OrsError) (readback_error : option OrsError).

Abbreviation OrsR := (result OrsError).

Class OrsWire := {
  (** [Sha256::digest] *)
  ors_sha256 : list Z -> list Z;
  (** [serde_json::from_str], [canonicalize], [serde_json::to_string] *)
  recanonicalize : string -> result string string;
  (** [serde_json::to_value], [canonicalize], [serde_json::to_string] *)
  fence_json : StateFence -> result string string;
  (** the canonical bytes of a receipt core *)
  receipt_json : ReceiptCore -> result string (list Z);
}.

(** ** Text *)

Definition ors_validate_text (value field : string) : OrsR unit :=
  check? guard_err (is_blank value) (OeInvalidField field "must be non-blank");
  check? guard_err (has_control value) (OeInvalidField field "must not contain control characters");
  guard_err (1024 <? len value) (OeInvalidField field "must not exceed 1024 UTF-8 bytes").

Definition ors_validate_digest (value field : string) : OrsR unit :=
  guard_err (negb (is_sha256_hex value))
    (OeInvalidField field "must be a lowercase SHA-256 digest").

Definition OpaqueLabel_new (value : string) : OrsR OpaqueLabel :=
  check? ors_validate_text value "opaque_label"; Ok value.

(** What every value of the type [OpaqueLabel] satisfies: [new] and the
    deserializer are its only constructors. *)
Definition label_ok (value : string) : Prop := ors_validate_text value "opaque_label" = Ok tt.

(** ** Epochs and fences *)

Record EpochIdentity : Type := {
  ei_lineage_id : OpaqueLabel;
  ei_epoch : Z;
}.

#[global] Instance EpochIdentity_eq_dec : EqDecision EpochIdentity.
Proof. solve_decision. Defined.

Record EpochLineage : Type := {
  el_current : EpochIdentity;
  el_predecessor : option EpochIdentity;
}.

#[global] Instance EpochLineage_eq_dec : EqDecision EpochLineage.
Proof. solve_decision. Defined.

Definition epoch_identity_validate (e : EpochIdentity) : OrsR unit :=
  guard_err (ei_epoch e =? 0) OeInvalidEpochLineage.

Definition epoch_lineage_validate (l : EpochLineage) : OrsR unit :=
  check? epoch_identity_validate (el_current l);
  match el_predecessor l with
  | None => Ok tt
  | Some predecessor =>
      check? epoch_identity_validate predecessor;
      if ei_lineage_id predecessor == ei_lineage_id (el_current l) then
        let? expected := ok_or (checked_add (ei_epoch predecessor) 1) OeInvalidEpochLineage in
        guard_err (ei_epoch (el_current l) != expected) OeInvalidEpochLineage
      else Ok tt
  end.

Definition lineage_succeeds (l : EpochLineage) (prior : EpochIdentity) : bool :=
  (el_current l == prior) || (el_predecessor l == Some prior).

Record StateFenceSnapshot : Type := {
  fs_canonical_json : string;
  fs_sha256 : string;
  fs_observed_authority_epoch : Z;
}.

#[global] Instance StateFenceSnapshot_eq_dec : EqDecision StateFenceSnapshot.
Proof. solve_decision. Defined.

Definition snapshot_capture `{OrsWire} (provider_fence : StateFence) (observed_authority_epoch : Z)
    : OrsR StateFenceSnapshot :=
  check? guard_err (observed_authority_epoch =? 0)
           (OeInvalidField "observed_authority_epoch" "must be greater than zero");
  let? canonical_json := map_err OeEncoding (fence_json provider_fence) in
  Ok {| fs_canonical_json := canonical_json;
        fs_sha256 := sha256_hex ors_sha256 (bytes canonical_json);
        fs_observed_authority_epoch := observed_authority_epoch |}.

Definition snapshot_validate `{OrsWire} (f : StateFenceSnapshot) : OrsR unit :=
  check? ors_validate_digest (fs_sha256 f) "state_fence_sha256";
  check? guard_err ((fs_observed_authority_epoch f =? 0)
                    || (sha256_hex ors_sha256 (bytes (fs_canonical_json f)) != fs_sha256 f))
           OeFenceMismatch;
  let? canonical := map_err OeEncoding (recanonicalize (fs_canonical_json f)) in
  guard_err (canonical != fs_canonical_json f) OeFenceMismatch.

(** ** The recovery envelope *)

Inductive PrivacyClass : Type := Public | Internal | Private | Secret | Licensed.

#[global] Instance PrivacyClass_eq_dec : EqDecision PrivacyClass.
Proof. solve_decision. Defined.

Inductive InstructionTaint : Type := Cleared | DataOnly | Untrusted | CommandLike.

#[global] Instance InstructionTaint_eq_dec : EqDecision InstructionTaint.
Proof. solve_decision. Defined.

Record RecoveryAccessClass : Type := {
  ac_privacy : PrivacyClass;
  ac_visibility : OpaqueLabel;
  ac_instruction_taint : InstructionTaint;
}.

#[global] Instance RecoveryAccessClass_eq_dec : EqDecision RecoveryAccessClass.
Proof. solve_decision. Defined.

Definition access_class_validate (a : RecoveryAccessClass) : OrsR unit :=
  ors_validate_text (ac_visibility a) "privacy_and_visibility_class.visibility".

Record SecretReference : Type := {
  sr_provider : string;
  sr_key : string;
}.

#[global] Instance SecretReference_eq_dec : EqDecision SecretReference.
Proof. solve_decision. Defined.

Inductive RecoveryPayload : Type :=
| Encrypted (key : SecretReference) (ciphertext : list Z)
| ImmutableLocator (locator : string)
| CanonicalRequest (contract_version : Z) (bytes : list Z).

#[global] Instance RecoveryPayload_eq_dec : EqDecision RecoveryPayload.
Proof. solve_decision. Defined.

Definition ORS_CONTRACT_VERSION : Z := 1.
Definition MAX_RECOVERY_PAGE : Z := 256.
Definition MAX_INLINE_RECOVERY_BYTES : Z := 4 * 1024 * 1024.

Record RecoveryWriteBinding : Type := {
  wb_write_envelope_protocol_version : Z;
  wb_recovery_envelope_contract_version : Z;
  wb_recovery_access_class : RecoveryAccessClass;
  wb_payload_created_at_ms : Z;
  wb_payload_known_at_ms : Z;
  wb_payload_expires_at_ms : option Z;
  wb_operation_id : OpaqueLabel;
  wb_write_intent_id : OpaqueLabel;
  wb_idempotency_key : OpaqueLabel;
  wb_canonical_request_sha256 : string;
  wb_prepared_transition_sha256 : string;
  wb_ordering_scopes : list OpaqueLabel;
  wb_admission_contract_set_digest : string;
  wb_operation_manifest_digest : OpaqueLabel;
  wb_authority_epoch : EpochLineage;
  wb_state_fence : StateFenceSnapshot;
  wb_protected_payload_sha256 : string;
  wb_protected_payload_length : Z;
  wb_payload_key_reference : SecretReference;
}.

#[global] Instance RecoveryWriteBinding_eq_dec : EqDecision RecoveryWriteBinding.
Proof. solve_decision. Defined.

(** [some_deadline.is_some_and(|expires| expires <= created)] *)
Definition expires_by (created : Z) (expires : option Z) : bool :=
  match expires with
  | Some e => e <=? created
  | None => false
  end.

Definition write_binding_validate `{OrsWire} (b : RecoveryWriteBinding) : OrsR unit :=
  check? guard_err (wb_write_envelope_protocol_version b =? 0)
           (OeInvalidField "write_envelope_protocol_version" "must be greater than zero");
  check? guard_err (wb_recovery_envelope_contract_version b != ORS_CONTRACT_VERSION)
           (OeUnsupportedContractVersion (wb_recovery_envelope_contract_version b));
  check? access_class_validate (wb_recovery_access_class b);
  check? guard_err ((wb_payload_known_at_ms b <? wb_payload_created_at_ms b)
                    || expires_by (wb_payload_created_at_ms b) (wb_payload_expires_at_ms b))
           OeInvalidExpiry;
  check? ors_validate_digest (wb_canonical_request_sha256 b) "canonical_request_sha256";
  check? ors_validate_digest (wb_prepared_transition_sha256 b) "prepared_transition_sha256";
  check? ors_validate_digest (wb_admission_contract_set_digest b) "admission_contract_set_digest";
  check? ors_validate_text (wb_operation_manifest_digest b) "operation_manifest_digest";
  check? epoch_lineage_validate (wb_authority_epoch b);
  check? snapshot_validate (wb_state_fence b);
  check? guard_err (fs_observed_authority_epoch (wb_state_fence b)
                    != ei_epoch (el_current (wb_authority_epoch b))) OeFenceMismatch;
  check? ors_validate_digest (wb_protected_payload_sha256 b) "protected_payload_sha256";
  check? guard_err ((wb_protected_payload_length b =? 0)
                    || (MAX_INLINE_RECOVERY_BYTES <? wb_protected_payload_length b))
           (OeInvalidField "protected_payload_length"
              "must be greater than zero and within the inline recovery bound");
  check? ors_validate_text (sr_provider (wb_payload_key_reference b))
           "payload_key_reference.provider";
  check? ors_validate_text (sr_key (wb_payload_key_reference b)) "payload_key_reference.key";
  check? guard_err (wb_ordering_scopes b == []) OeEmptyScopeSet;
  check? scan_distinct (fun _ => Ok tt) id (fun _ => OeDuplicateScope) ∅ (wb_ordering_scopes b);
  Ok tt.

Definition same_retry_identity (a b : RecoveryWriteBinding) : bool :=
  (wb_write_envelope_protocol_version a == wb_write_envelope_protocol_version b)
  && (wb_recovery_envelope_contract_version a == wb_recovery_envelope_contract_version b)
  && (wb_recovery_access_class a == wb_recovery_access_class b)
  && (wb_payload_created_at_ms a == wb_payload_created_at_ms b)
  && (wb_payload_known_at_ms a == wb_payload_known_at_ms b)
  && (wb_payload_expires_at_ms a == wb_payload_expires_at_ms b)
  && (wb_operation_id a == wb_operation_id b)
  && (wb_write_intent_id a == wb_write_intent_id b)
  && (wb_idempotency_key a == wb_idempotency_key b)
  && (wb_canonical_request_sha256 a == wb_canonical_request_sha256 b)
  && (wb_prepared_transition_sha256 a == wb_prepared_transition_sha256 b)
  && (wb_ordering_scopes a == wb_ordering_scopes b)
  && (wb_admission_contract_set_digest a == wb_admission_contract_set_digest b)
  && (wb_operation_manifest_digest a == wb_operation_manifest_digest b)
  && (wb_authority_epoch a == wb_authority_epoch b)
  && (wb_state_fence a == wb_state_fence b)
  && (wb_protected_payload_sha256 a == wb_protected_payload_sha256 b)
  && (wb_protected_payload_length a == wb_protected_payload_length b)
  && (wb_payload_key_reference a == wb_payload_key_reference b).

Record RecoveryPayloadEnvelope : Type := {
  en_contract_version : Z;
  en_operation_or_checkpoint_id : OpaqueLabel;
  en_privacy_and_visibility_class : RecoveryAccessClass;
  en_payload : RecoveryPayload;
  en_write_binding : option RecoveryWriteBinding;
  en_payload_sha256 : string;
  en_payload_length : Z;
  en_authority_epoch : EpochLineage;
  en_state_fence : StateFenceSnapshot;
  en_created_at_ms : Z;
  en_known_at_ms : Z;
  en_expires_at_ms : option Z;
}.

#[global] Instance RecoveryPayloadEnvelope_eq_dec : EqDecision RecoveryPayloadEnvelope.
Proof. solve_decision. Defined.

(** [matches!(payload, Encrypted { key, .. } if key == &reference)] *)
Definition encrypted_under (reference : SecretReference) (p : RecoveryPayload) : bool :=
  match p with
  | Encrypted key _ => key == reference
  | _ => false
  end.

Definition is_encrypted (p : RecoveryPayload) : bool :=
  match p with
  | Encrypted _ _ => true
  | _ => false
  end.

Definition binding_differs (b : RecoveryWriteBinding) (e : RecoveryPayloadEnvelope) : bool :=
  (wb_operation_id b != en_operation_or_checkpoint_id e)
  || (wb_recovery_envelope_contract_version b != en_contract_version e)
  || (wb_recovery_access_class b != en_privacy_and_visibility_class e)
  || (wb_payload_created_at_ms b != en_created_at_ms e)
  || (wb_payload_known_at_ms b != en_known_at_ms e)
  || (wb_payload_expires_at_ms b != en_expires_at_ms e)
  || (wb_authority_epoch b != en_authority_epoch e)
  || (wb_state_fence b != en_state_fence e)
  || (wb_protected_payload_sha256 b != en_payload_sha256 e)
  || (wb_protected_payload_length b != en_payload_length e)
  || negb (encrypted_under (wb_payload_key_reference b) (en_payload e)).

Definition payload_validate `{OrsWire} (e : RecoveryPayloadEnvelope) : OrsR unit :=
  match en_payload e with
  | Encrypted key ciphertext =>
      check? ors_validate_text (sr_provider key) "secret_provider";
      check? ors_validate_text (sr_key key) "secret_key";
      check? guard_err (MAX_INLINE_RECOVERY_BYTES <? usize_of_len ciphertext) OePayloadTooLarge;
      guard_err ((usize_of_len ciphertext != en_payload_length e)
                 || (sha256_hex ors_sha256 ciphertext != en_payload_sha256 e))
        OePayloadIntegrityMismatch
  | ImmutableLocator locator => ors_validate_text locator "immutable_locator"
  | CanonicalRequest _ _ =>
      Err (OeInvalidField "recovery_payload"
             "canonical requests are only valid for root-transition commits")
  end.

Definition recovery_envelope_validate `{OrsWire} (e : RecoveryPayloadEnvelope) : OrsR unit :=
  check? guard_err (en_contract_version e != ORS_CONTRACT_VERSION)
           (OeUnsupportedContractVersion (en_contract_version e));
  check? access_class_validate (en_privacy_and_visibility_class e);
  check? match en_write_binding e with
         | None => Ok tt
         | Some b =>
             check? write_binding_validate b;
             guard_err (binding_differs b e)
               (OeIntegrityProblem "recovery_envelope"
                  "write binding operation, epoch, fence, or protected payload differs from the envelope")
         end;
  check? ors_validate_digest (en_payload_sha256 e) "payload_sha256";
  check? guard_err (en_payload_length e =? 0)
           (OeInvalidField "payload_length" "must be greater than zero");
  check? epoch_lineage_validate (en_authority_epoch e);
  check? snapshot_validate (en_state_fence e);
  check? guard_err (fs_observed_authority_epoch (en_state_fence e)
                    != ei_epoch (el_current (en_authority_epoch e))) OeFenceMismatch;
  check? guard_err (en_known_at_ms e <? en_created_at_ms e) OeInvalidExpiry;
  check? guard_err (expires_by (en_created_at_ms e) (en_expires_at_ms e)) OeInvalidExpiry;
  payload_validate e.

(** ** Reservations *)

Record ExpectedOrderingHead : Type := {
  eh_sequence : Z;
  eh_head_sha256 : string;
  eh_revision_head : option string;
}.

#[global] Instance ExpectedOrderingHead_eq_dec : EqDecision ExpectedOrderingHead.
Proof. solve_decision. Defined.

(** [if let Some(revision) = revision { validate_text(revision, field)? }] *)
Definition validate_revision (revision : option string) (field : string) : OrsR unit :=
  match revision with
  | Some r => ors_validate_text r field
  | None => Ok tt
  end.

Definition expected_head_validate (h : ExpectedOrderingHead) : OrsR unit :=
  check? ors_validate_digest (eh_head_sha256 h) "head_sha256";
  validate_revision (eh_revision_head h) "revision_head".

Record ScopeReservationRequest : Type := {
  sq_scope : OpaqueLabel;
  sq_expected_head : ExpectedOrderingHead;
}.

Record ReservationRequest : Type := {
  rq_reservation_id : OpaqueLabel;
  rq_envelope : RecoveryPayloadEnvelope;
  rq_writer_epoch : EpochLineage;
  rq_scopes : list ScopeReservationRequest;
  rq_prepared_transition_sha256 : string;
  rq_expires_at_ms : Z;
  rq_recovery_owner : OpaqueLabel;
}.

Definition missing_write_binding : OrsError :=
  OeInvalidField "recovery_write_binding" "required for a canonical write reservation".

Definition reservation_request_validate `{OrsWire} (r : ReservationRequest) : OrsR unit :=
  let e := rq_envelope r in
  check? recovery_envelope_validate e;
  let? b := ok_or (en_write_binding e) missing_write_binding in
  check? write_binding_validate b;
  check? guard_err (wb_prepared_transition_sha256 b != rq_prepared_transition_sha256 r)
           OePayloadIntegrityMismatch;
  check? guard_err (negb (is_encrypted (en_payload e)))
           (OeInvalidField "recovery_payload"
              "canonical write reservations require an encrypted payload");
  check? epoch_lineage_validate (rq_writer_epoch r);
  check? ors_validate_digest (rq_prepared_transition_sha256 r) "prepared_transition_sha256";
  check? guard_err (rq_writer_epoch r != en_authority_epoch e) OeEpochMismatch;
  check? guard_err (wb_authority_epoch b != rq_writer_epoch r) OeEpochMismatch;
  check? guard_err (wb_state_fence b != en_state_fence e) OeFenceMismatch;
  check? guard_err ((wb_protected_payload_sha256 b != en_payload_sha256 e)
                    || (wb_protected_payload_length b != en_payload_length e)
                    || negb (encrypted_under (wb_payload_key_reference b) (en_payload e)))
           OePayloadIntegrityMismatch;
  check? guard_err (usize_of_len (rq_scopes r) =? 0) OeEmptyScopeSet;
  let? seen := scan_distinct (fun q => expected_head_validate (sq_expected_head q)) sq_scope
                 (fun _ => OeDuplicateScope) ∅ (rq_scopes r) in
  check? guard_err (seen != list_to_set (wb_ordering_scopes b))
           (OeInvalidField "ordering_scopes"
              "reservation scopes must equal the complete admitted scope set");
  guard_err (rq_expires_at_ms r <=? en_created_at_ms e) OeInvalidExpiry.

Record ReservedScope : Type := {
  rs_scope : OpaqueLabel;
  rs_reserved_sequence : Z;
  rs_expected_head : ExpectedOrderingHead;
}.

#[global] Instance ReservedScope_eq_dec : EqDecision ReservedScope.
Proof. solve_decision. Defined.

Record WriterReservationToken : Type := {
  tk_reservation_id : OpaqueLabel;
  tk_operation_id : OpaqueLabel;
  tk_writer_epoch : EpochLineage;
  tk_state_fence : StateFenceSnapshot;
  tk_reservation_order : Z;
  tk_scopes : list ReservedScope;
  tk_prepared_transition_sha256 : string;
  tk_write_binding : option RecoveryWriteBinding;
  tk_expires_at_ms : Z;
  tk_recovery_owner : OpaqueLabel;
}.

#[global] Instance WriterReservationToken_eq_dec : EqDecision WriterReservationToken.
Proof. solve_decision. Defined.

Inductive ReservationState : Type :=
| RsReserved | RsEligible | RsExecuting | RsReconciling | RsFinalized | RsReleased.

#[global] Instance ReservationState_eq_dec : EqDecision ReservationState.
Proof. solve_decision. Defined.

Definition reservation_is_terminal (s : ReservationState) : bool :=
  match s with
  | RsFinalized | RsReleased => true
  | _ => false
  end.

Record ReservationRecord : Type := {
  rd_token : WriterReservationToken;
  rd_state : ReservationState;
  rd_unknown_reason : option OpaqueLabel;
  rd_terminal_receipt_id : option OpaqueLabel;
}.

#[global] Instance ReservationRecord_eq_dec : EqDecision ReservationRecord.
Proof. solve_decision. Defined.

Definition set_rd_state (state : ReservationState) (r : ReservationRecord) : ReservationRecord :=
  {| rd_token := rd_token r; rd_state := state; rd_unknown_reason := rd_unknown_reason r;
     rd_terminal_receipt_id := rd_terminal_receipt_id r |}.

Definition set_rd_unknown (reason : OpaqueLabel) (r : ReservationRecord) : ReservationRecord :=
  {| rd_token := rd_token r; rd_state := RsReconciling; rd_unknown_reason := Some reason;
     rd_terminal_receipt_id := rd_terminal_receipt_id r |}.

Record RecoveryCursor : Type := { cu_after_order : Z; cu_limit : Z }.

Definition cursor_limit_bad (limit : Z) : bool := (limit =? 0) || (MAX_RECOVERY_PAGE <? limit).

Definition RecoveryCursor_new (after_order limit : Z) : OrsR RecoveryCursor :=
  check? guard_err (cursor_limit_bad limit) OeInvalidCursorLimit;
  Ok {| cu_after_order := after_order; cu_limit := limit |}.

Record RecoveryPage : Type := {
  pg_records : list ReservationRecord;
  pg_next_after_order : option Z;
}.

(** ** Reconciliation evidence *)

Record CanonicalScopeObservation : Type := {
  ob_scope : OpaqueLabel;
  ob_prior_head : ExpectedOrderingHead;
  ob_committed_sequence : Z;
  ob_committed_head_sha256 : string;
  ob_committed_revision_head : option string;
  ob_receipt_id : OpaqueLabel;
}.

Inductive CanonicalDisposition : Type := CdCommitted | CdRejected.

#[global] Instance CanonicalDisposition_eq_dec : EqDecision CanonicalDisposition.
Proof. solve_decision. Defined.

Record CanonicalReconciliation : Type := {
  cr_reservation_id : OpaqueLabel;
  cr_operation_id : OpaqueLabel;
  cr_reservation_order : Z;
  cr_state_fence : StateFenceSnapshot;
  cr_recovery_owner : OpaqueLabel;
  cr_scopes : list CanonicalScopeObservation;
  cr_receipt : ReceiptEnvelope;
  cr_disposition : CanonicalDisposition;
}.

Record ScopeTerminalReceipt : Type := {
  sx_scope : OpaqueLabel;
  sx_reserved_sequence : Z;
  sx_disposition : CanonicalDisposition;
  sx_gap : bool;
  sx_receipt_id : OpaqueLabel;
  sx_receipt_sha256 : string;
}.

Record ScopeReservationHead : Type := {
  sh_writer_epoch : EpochIdentity;
  sh_canonical_head : ExpectedOrderingHead;
  sh_last_reserved_sequence : Z;
  sh_last_terminal_sequence : Z;
  sh_recovery_blocked : bool;
}.

Definition set_recovery_blocked (blocked : bool) (h : ScopeReservationHead) : ScopeReservationHead :=
  {| sh_writer_epoch := sh_writer_epoch h; sh_canonical_head := sh_canonical_head h;
     sh_last_reserved_sequence := sh_last_reserved_sequence h;
     sh_last_terminal_sequence := sh_last_terminal_sequence h; sh_recovery_blocked := blocked |}.

(** ** Lemmas *)

(** A retry identity compares every field of the binding. *)
Lemma same_retry_identity_eq a b : same_retry_identity a b = true <-> a = b.
Proof.
  split; [|intros ->; unfold same_retry_identity; by rewrite !bool_decide_eq_true_2].
  destruct a, b. unfold same_retry_identity. simpl. intros H. bool_facts. by subst.
Qed.

(** What a valid reservation request fixes about its own parts. *)
Record request_coherent (r : ReservationRequest) (b : RecoveryWriteBinding) : Prop := {
  rc_binding : en_write_binding (rq_envelope r) = Some b;
  rc_operation_id : wb_operation_id b = en_operation_or_checkpoint_id (rq_envelope r);
  rc_prepared : wb_prepared_transition_sha256 b = rq_prepared_transition_sha256 r;
  rc_epoch : wb_authority_epoch b = rq_writer_epoch r;
  rc_envelope_epoch : en_authority_epoch (rq_envelope r) = rq_writer_epoch r;
  rc_fence : wb_state_fence b = en_state_fence (rq_envelope r);
  rc_payload_sha : wb_protected_payload_sha256 b = en_payload_sha256 (rq_envelope r);
  rc_payload_len : wb_protected_payload_length b = en_payload_length (rq_envelope r);
  rc_payload_key : encrypted_under (wb_payload_key_reference b) (en_payload (rq_envelope r)) = true;
  rc_sha_len : len (wb_protected_payload_sha256 b) = 64;
  rc_len_pos : 0 < wb_protected_payload_length b;
  rc_nonempty : rq_scopes r <> [];
  rc_distinct : NoDup (sq_scope <$> rq_scopes r);
  rc_scopes : (list_to_set (sq_scope <$> rq_scopes r) : gset string)
              = list_to_set (wb_ordering_scopes b);
}.

Lemma request_validate_coherent `{OrsWire} r :
  reservation_request_validate r = Ok tt -> exists b, request_coherent r b.
Proof.
  unfold reservation_request_validate. intros Hv. next_check Hv He.
  apply rbind_ok in Hv as (b & Hb & Hv). next_check Hv Hwb. next_check Hv Hprep.
  next_check Hv Henc. next_check Hv Hepoch. next_check Hv Hdig. next_check Hv Hee.
  next_check Hv Hbe. next_check Hv Hfence. next_check Hv Hpay. next_check Hv Hne.
  apply rbind_ok in Hv as (seen & Hseen & Hv). next_check Hv Hscopes.
  rewrite guard_err_ok in *. bool_facts.
  destruct (en_write_binding (rq_envelope r)) as [b'|] eqn:Eb; [|done]. injection Hb as ->.
  apply scan_distinct_ok in Hseen as (_ & Hnd & _ & ->).
  assert (len (wb_protected_payload_sha256 b) = 64 /\ wb_protected_payload_length b <> 0) as [Hl Hp].
  { unfold write_binding_validate in Hwb. do 11 apply rbind_ok in Hwb as ([] & _ & Hwb). next_check Hwb Hsha.
    next_check Hwb Hlen. unfold ors_validate_digest in Hsha. rewrite guard_err_ok in *. bool_facts.
    unfold is_sha256_hex in *. bool_facts. lia. }
  assert (wb_operation_id b = en_operation_or_checkpoint_id (rq_envelope r)) as Hop.
  { unfold recovery_envelope_validate in He. do 2 apply rbind_ok in He as ([] & _ & He). next_check He Hdiff.
    rewrite Eb in Hdiff. next_check Hdiff Hvb. rewrite guard_err_ok in Hdiff.
    unfold binding_differs in Hdiff. by bool_facts. }
  assert (0 <= en_payload_length (rq_envelope r)).
  { unfold recovery_envelope_validate in He. do 10 apply rbind_ok in He as ([] & _ & He).
    unfold payload_validate in He. destruct (en_payload (rq_envelope r)) as [key ct| |]; [|done..].
    do 3 apply rbind_ok in He as ([] & _ & He). rewrite guard_err_ok in He. bool_facts.
    unfold usize_of_len in *. lia. }
  exists b. constructor; try done; [lia| |].
  - intros Hnil. rewrite Hnil in Hne. by apply Z.eqb_neq in Hne.
  - rewrite <- Hscopes. set_solver.
Qed.
