(* ===== verification/OrsStore.v ===== *)
(** * The reservation tables of the operational recovery store

    The write-reservation half of [RedbRecoveryStore]
    (crates/kernel/eliot-ors/src/store.rs and store/recovery_projection.rs):
    staging and its retry identity, eligibility, execution, the unknown
    outcome, receipt reconciliation, release, expiry, epoch fencing, restart
    recovery and the recovery cursor.

    The state is the decoded rows of the tables the operations open; META
    rows hold their numbers. An operation runs in one redb transaction
    ([transact]): an error, or a return before [commit], leaves the tables as
    they were, and a commit that reports an error may or may not have taken
    effect ([CommitOutcome]). Opening a transaction or a table and decoding a
    row the store itself wrote are taken to succeed. The evidence provider is
    the class [CanonicalEvidence]. *)

From Stdlib Require Import Ascii String.
From S2P Require Import Prelude RustText Contracts Receipts OrsModel.

#[local] Open Scope string_scope.
#[local] Open Scope list_scope.
#[local] Open Scope Z_scope.

(** ** State *)

Record OrsStore : Type := {
  os_envelopes : gmap string RecoveryPayloadEnvelope;
  os_reservations : gmap string ReservationRecord;
  os_orders : gmap string string;
  os_operations : gmap string string;
  os_write_idempotency : gmap string string;
  os_scope_heads : gmap string ScopeReservationHead;
  os_scope_terminals : gmap string ScopeTerminalReceipt;
  os_next_global_order : option Z;
  os_reservations_revision : Z;
  os_write_idempotency_revision : Z;
}.

(** The tables as [open] creates them. *)
Definition ors_empty : OrsStore :=
  {| os_envelopes := ∅; os_reservations := ∅; os_orders := ∅; os_operations := ∅;
     os_write_idempotency := ∅; os_scope_heads := ∅; os_scope_terminals := ∅;
     os_next_global_order := None; os_reservations_revision := 0;
     os_write_idempotency_revision := 0 |}.

Definition set_envelopes (m : gmap string RecoveryPayloadEnvelope) (s : OrsStore) : OrsStore :=
  {| os_envelopes := m; os_reservations := os_reservations s; os_orders := os_orders s;
     os_operations := os_operations s; os_write_idempotency := os_write_idempotency s;
     os_scope_heads := os_scope_heads s; os_scope_terminals := os_scope_terminals s;
     os_next_global_order := os_next_global_order s;
     os_reservations_revision := os_reservations_revision s;
     os_write_idempotency_revision := os_write_idempotency_revision s |}.

Definition set_reservations (m : gmap string ReservationRecord) (s : OrsStore) : OrsStore :=
  {| os_envelopes := os_envelopes s; os_reservations := m; os_orders := os_orders s;
     os_operations := os_operations s; os_write_idempotency := os_write_idempotency s;
     os_scope_heads := os_scope_heads s; os_scope_terminals := os_scope_terminals s;
     os_next_global_order := os_next_global_order s;
     os_reservations_revision := os_reservations_revision s;
     os_write_idempotency_revision := os_write_idempotency_revision s |}.

Definition set_indexes (orders operations idempotency : gmap string string) (s : OrsStore)
    : OrsStore :=
  {| os_envelopes := os_envelopes s; os_reservations := os_reservations s; os_orders := orders;
     os_operations := operations; os_write_idempotency := idempotency;
     os_scope_heads := os_scope_heads s; os_scope_terminals := os_scope_terminals s;
     os_next_global_order := os_next_global_order s;
     os_reservations_revision := os_reservations_revision s;
     os_write_idempotency_revision := os_write_idempotency_revision s |}.

Definition set_scope_heads (m : gmap string ScopeReservationHead) (s : OrsStore) : OrsStore :=
  {| os_envelopes := os_envelopes s; os_reservations := os_reservations s;
     os_orders := os_orders s; os_operations := os_operations s;
     os_write_idempotency := os_write_idempotency s; os_scope_heads := m;
     os_scope_terminals := os_scope_terminals s; os_next_global_order := os_next_global_order s;
     os_reservations_revision := os_reservations_revision s;
     os_write_idempotency_revision := os_write_idempotency_revision s |}.

Definition set_scope_terminals (m : gmap string ScopeTerminalReceipt) (s : OrsStore) : OrsStore :=
  {| os_envelopes := os_envelopes s; os_reservations := os_reservations s;
     os_orders := os_orders s; os_operations := os_operations s;
     os_write_idempotency := os_write_idempotency s; os_scope_heads := os_scope_heads s;
     os_scope_terminals := m; os_next_global_order := os_next_global_order s;
     os_reservations_revision := os_reservations_revision s;
     os_write_idempotency_revision := os_write_idempotency_revision s |}.

Definition set_meta (next : option Z) (reservations idempotency : Z) (s : OrsStore) : OrsStore :=
  {| os_envelopes := os_envelopes s; os_reservations := os_reservations s;
     os_orders := os_orders s; os_operations := os_operations s;
     os_write_idempotency := os_write_idempotency s; os_scope_heads := os_scope_heads s;
     os_scope_terminals := os_scope_terminals s; os_next_global_order := next;
     os_reservations_revision := reservations; os_write_idempotency_revision := idempotency |}.

Abbreviation OM := (M OrsStore OrsError).

Definition put_reservations (m : gmap string ReservationRecord) : OM unit :=
  mmodify (set_reservations m).

(** [table.insert(record.token.reservation_id, encode(record))] *)
Definition put_record (r : ReservationRecord) : OM unit := fun s =>
  (set_reservations (<[tk_reservation_id (rd_token r) := r]> (os_reservations s)) s, Ok tt).

(** ** Transactions *)

Inductive CommitOutcome : Type :=
| CommitOk
| CommitError (detail : string) (durable : bool).

(** How a transaction body ends: returning before [commit], or at it. *)
Inductive TxEnd (A : Type) : Type :=
| TxReturn (a : A)
| TxCommit (a : A).
Arguments TxReturn {A} a.
Arguments TxCommit {A} a.

Definition after_commit (c : CommitOutcome) (before after : OrsStore) : OrsStore :=
  match c with
  | CommitOk => after
  | CommitError _ durable => if durable then after else before
  end.

Definition transact {A} (c : CommitOutcome) (body : OM (TxEnd A)) : OM A := fun s =>
  match body s with
  | (_, Err e) => (s, Err e)
  | (_, Ok (TxReturn a)) => (s, Ok a)
  | (s', Ok (TxCommit a)) =>
      (after_commit c s s', match c with
                            | CommitOk => Ok a
                            | CommitError detail _ => Err (OeStorage detail)
                            end)
  end.

(** ** Keys and stored labels *)

(** [format!("{:0width$}", n)] of a number of at most [width] digits. *)
Fixpoint zero_padded (width : nat) (n : Z) : string :=
  match width with
  | O => EmptyString
  | S w => String (digit (n / 10 ^ Z.of_nat w mod 10)) (zero_padded w n)
  end.

Definition order_key (order : Z) : string := zero_padded 20 order.

Definition terminal_key (scope : string) (sequence : Z) : string :=
  scope +:+ ":" +:+ zero_padded 20 sequence.

(** The [Display] text of the error [OpaqueLabel::new] returns. *)
Definition label_error_text (e : OrsError) : string :=
  match e with
  | OeInvalidField field reason => field +:+ " is invalid: " +:+ reason
  | _ => ""
  end.

Definition stored_label (record_type value : string) : OrsR OpaqueLabel :=
  map_err (fun e => OeIntegrityProblem record_type (label_error_text e)) (OpaqueLabel_new value).

(** The text of the [ParseIntError] of [str::parse::<u64>], where it fails. *)
Fixpoint parse_u64_error (acc : Z) (s : string) : string :=
  match s with
  | EmptyString => "cannot parse integer from empty string"
  | String c s' =>
      if negb (is_ascii_digit (byte_of c)) then "invalid digit found in string"
      else if u64_max <? acc * 10 + (byte_of c - 48)
           then "number too large to fit in target type"
           else parse_u64_error (acc * 10 + (byte_of c - 48)) s'
  end.

Definition parse_order (text : string) : OrsR Z :=
  let digits := match text with
                | String "+"%char (String _ _ as rest) => rest
                | _ => text
                end in
  ok_or (parse_u64 text) (OeIntegrityProblem "reservation_order" (parse_u64_error 0 digits)).

(** ** Evidence *)

Class CanonicalEvidence := {
  verify_ordering_heads : list ScopeReservationRequest -> OrsR unit;
  verify_reconciliation : WriterReservationToken -> CanonicalReconciliation -> OrsR unit;
}.

Definition RejectUnboundEvidence : CanonicalEvidence :=
  {| verify_ordering_heads := fun _ =>
       Err (OeCanonicalEvidence "canonical ordering provider is not bound");
     verify_reconciliation := fun _ _ =>
       Err (OeCanonicalEvidence "canonical readback provider is not bound") |}.

(** ** Shared checks *)

Definition RECOVERY_RESERVATION_REVISION : string := "ors_recovery_reservations_revision_v1".
Definition RECOVERY_WRITE_IDEMPOTENCY_REVISION : string :=
  "ors_recovery_write_idempotency_revision_v1".

Definition next_revision (key : string) (prior : Z) : OrsR Z :=
  ok_or (checked_add prior 1) (OeIntegrityProblem "ors_meta_v1" (key +:+ " exhausted")).

Definition bump_reservations_revision : OM unit := fun s =>
  match next_revision RECOVERY_RESERVATION_REVISION (os_reservations_revision s) with
  | Ok next =>
      (set_meta (os_next_global_order s) next (os_write_idempotency_revision s) s, Ok tt)
  | Err e => (s, Err e)
  end.

Definition bump_write_idempotency_revision : OM unit := fun s =>
  match next_revision RECOVERY_WRITE_IDEMPOTENCY_REVISION (os_write_idempotency_revision s) with
  | Ok next => (set_meta (os_next_global_order s) (os_reservations_revision s) next s, Ok tt)
  | Err e => (s, Err e)
  end.

Definition load_record (s : OrsStore) (reservation_id : OpaqueLabel) : OrsR ReservationRecord :=
  ok_or (os_reservations s !! reservation_id) OeReservationNotFound.

Definition validate_token (stored : ReservationRecord) (supplied : WriterReservationToken)
    : OrsR unit :=
  guard_err (rd_token stored != supplied) OeDuplicateConflict.

Definition require_writer_epoch (token : WriterReservationToken) (supplied : EpochIdentity)
    : OrsR unit :=
  guard_err (el_current (tk_writer_epoch token) != supplied) OeStaleWriterEpoch.

Definition shares_scope (left right : WriterReservationToken) : bool :=
  existsb (fun l => existsb (fun r => rs_scope l == rs_scope r) (tk_scopes right))
    (tk_scopes left).

Definition pending_predecessor (token : WriterReservationToken) (r : ReservationRecord) : bool :=
  negb (reservation_is_terminal (rd_state r))
  && (tk_reservation_order (rd_token r) <? tk_reservation_order token)
  && shares_scope (rd_token r) token.

Definition ensure_no_predecessor (s : OrsStore) (token : WriterReservationToken) : OrsR unit :=
  guard_err (existsb (pending_predecessor token) (btree_values (os_reservations s)))
    OePredecessorPending.

Definition ensure_canonical_heads (s : OrsStore) (token : WriterReservationToken) : OrsR unit :=
  for_each (fun reserved =>
    let? head := ok_or (os_scope_heads s !! rs_scope reserved)
                   (OeIntegrityProblem "scope_head" "reserved scope head is missing") in
    guard_err (sh_canonical_head head != rs_expected_head reserved) OeOrderingHeadMismatch)
    (tk_scopes token).

Abbreviation Heads := (gmap string ScopeReservationHead).

(** Marks each named scope [recovery_blocked]. *)
Definition block_scopes (missing : OrsError) (scopes : list OpaqueLabel) (heads : Heads)
    : OrsR Heads :=
  fold_res (fun acc scope =>
    let? head := ok_or (acc !! scope) missing in
    Ok (<[scope := set_recovery_blocked true head]> acc)) heads scopes.

Definition token_scopes (t : WriterReservationToken) : list OpaqueLabel := rs_scope <$> tk_scopes t.

Definition put_scope_heads (update : Heads -> OrsR Heads) : OM unit := fun s =>
  match update (os_scope_heads s) with
  | Ok heads => (set_scope_heads heads s, Ok tt)
  | Err e => (s, Err e)
  end.

(** ** Retry identity *)

Definition write_idempotency_index_key `{OrsWire} (b : RecoveryWriteBinding) : string :=
  sha256_hex ors_sha256 (bytes (wb_idempotency_key b)).

Definition write_binding_matches_token (b : RecoveryWriteBinding) (t : WriterReservationToken)
    : bool :=
  (wb_operation_id b == tk_operation_id t)
  && (wb_prepared_transition_sha256 b == tk_prepared_transition_sha256 t)
  && (wb_authority_epoch b == tk_writer_epoch t)
  && (wb_state_fence b == tk_state_fence t)
  && (len (wb_protected_payload_sha256 b) =? 64)
  && (0 <? wb_protected_payload_length b)
  && (tk_write_binding t == Some b)
  && ((list_to_set (wb_ordering_scopes b) : gset string) == list_to_set (token_scopes t)).

(** [left.len() == right.len() && left.zip(right).all(..)] *)
Definition scopes_match (requested : list ScopeReservationRequest) (reserved : list ReservedScope)
    : bool :=
  (usize_of_len requested =? usize_of_len reserved)
  && forallb (fun p => (sq_scope p.1 == rs_scope p.2)
                       && (sq_expected_head p.1 == rs_expected_head p.2))
       (zip requested reserved).

Definition request_matches (r : ReservationRequest) (t : WriterReservationToken)
    (e : RecoveryPayloadEnvelope) : bool :=
  (rq_reservation_id r == tk_reservation_id t)
  && (rq_envelope r == e)
  && (en_write_binding (rq_envelope r) == tk_write_binding t)
  && (en_write_binding e == tk_write_binding t)
  && (rq_writer_epoch r == tk_writer_epoch t)
  && (rq_prepared_transition_sha256 r == tk_prepared_transition_sha256 t)
  && (rq_expires_at_ms r == tk_expires_at_ms t)
  && (rq_recovery_owner r == tk_recovery_owner t)
  && scopes_match (rq_scopes r) (tk_scopes t).

Definition idempotency_retry_matches (r : ReservationRequest) (t : WriterReservationToken)
    (e : RecoveryPayloadEnvelope) : bool :=
  match en_write_binding (rq_envelope r), en_write_binding e, tk_write_binding t with
  | Some candidate, Some stored, Some token_binding =>
      (wb_operation_id candidate == en_operation_or_checkpoint_id (rq_envelope r))
      && (wb_operation_id stored == en_operation_or_checkpoint_id e)
      && (tk_operation_id t == wb_operation_id stored)
      && (token_binding == stored)
      && same_retry_identity candidate stored
      && (rq_writer_epoch r == tk_writer_epoch t)
      && (en_authority_epoch (rq_envelope r) == tk_writer_epoch t)
      && (en_authority_epoch e == tk_writer_epoch t)
      && (en_state_fence (rq_envelope r) == tk_state_fence t)
      && (en_state_fence e == tk_state_fence t)
      && (en_contract_version (rq_envelope r) == en_contract_version e)
      && (en_privacy_and_visibility_class (rq_envelope r) == en_privacy_and_visibility_class e)
      && (en_payload (rq_envelope r) == en_payload e)
      && (en_payload_sha256 (rq_envelope r) == en_payload_sha256 e)
      && (en_payload_length (rq_envelope r) == en_payload_length e)
      && (en_created_at_ms (rq_envelope r) == en_created_at_ms e)
      && (en_known_at_ms (rq_envelope r) == en_known_at_ms e)
      && (en_expires_at_ms (rq_envelope r) == en_expires_at_ms e)
      && (rq_expires_at_ms r == tk_expires_at_ms t)
      && (rq_prepared_transition_sha256 r == tk_prepared_transition_sha256 t)
      && (rq_recovery_owner r == tk_recovery_owner t)
      && scopes_match (rq_scopes r) (tk_scopes t)
  | _, _, _ => false
  end.

Definition idempotency_terminal_retry_matches (r : ReservationRequest) (t : WriterReservationToken)
    : bool :=
  match en_write_binding (rq_envelope r), tk_write_binding t with
  | Some candidate, Some stored =>
      (wb_operation_id candidate == en_operation_or_checkpoint_id (rq_envelope r))
      && same_retry_identity candidate stored
      && write_binding_matches_token stored t
      && (rq_writer_epoch r == tk_writer_epoch t)
      && (en_authority_epoch (rq_envelope r) == tk_writer_epoch t)
      && (en_state_fence (rq_envelope r) == tk_state_fence t)
      && (en_payload_sha256 (rq_envelope r) == wb_protected_payload_sha256 stored)
      && (en_payload_length (rq_envelope r) == wb_protected_payload_length stored)
      && encrypted_under (wb_payload_key_reference stored) (en_payload (rq_envelope r))
      && (rq_expires_at_ms r == tk_expires_at_ms t)
      && (rq_prepared_transition_sha256 r == tk_prepared_transition_sha256 t)
      && (rq_recovery_owner r == tk_recovery_owner t)
      && scopes_match (rq_scopes r) (tk_scopes t)
  | _, _ => false
  end.

Definition index_problem (reason : string) : OrsError :=
  OeIntegrityProblem "write_idempotency_index" reason.

(** [stored.is_none_or(|binding| bad(binding))] *)
Definition none_or {A} (o : option A) (bad : A -> bool) : bool :=
  match o with
  | Some a => bad a
  | None => true
  end.

(** The branch of [existing_token] where the idempotency index has an entry. *)
Definition indexed_token `{OrsWire} (s : OrsStore) (r : ReservationRequest) (index_key : string)
    (indexed : string) : OrsR (option WriterReservationToken) :=
  let? indexed_operation := stored_label "write_idempotency_index" indexed in
  let? indexed_reservation := ok_or (os_operations s !! indexed_operation)
         (index_problem "indexed operation has no reservation mapping") in
  let? record := ok_or (os_reservations s !! indexed_reservation)
         (index_problem "indexed reservation is missing") in
  let token := rd_token record in
  let terminal := reservation_is_terminal (rd_state record) in
  let envelope := os_envelopes s !! indexed_operation in
  check? guard_err
    ((tk_operation_id token != indexed_operation)
     || none_or (tk_write_binding token) (fun b => write_idempotency_index_key b != index_key)
     || none_or (tk_write_binding token) (fun b => negb (write_binding_matches_token b token)))
    (index_problem "index does not resolve to its retained write identity");
  match envelope with
  | Some e =>
      check? guard_err ((en_operation_or_checkpoint_id e != indexed_operation)
                        || (en_write_binding e != tk_write_binding token))
               (index_problem "indexed envelope diverges from its reservation token");
      if idempotency_retry_matches r token e then Ok (Some token) else Err OeDuplicateConflict
  | None =>
      if terminal && idempotency_terminal_retry_matches r token then Ok (Some token)
      else if negb terminal then Err (index_problem "nonterminal indexed write has no retained payload")
      else Err OeDuplicateConflict
  end.

Definition existing_token `{OrsWire} (s : OrsStore) (r : ReservationRequest)
    : OrsR (option WriterReservationToken) :=
  let? candidate := ok_or (en_write_binding (rq_envelope r)) missing_write_binding in
  let index_key := write_idempotency_index_key candidate in
  match os_write_idempotency s !! index_key with
  | Some indexed => indexed_token s r index_key indexed
  | None =>
      match os_operations s !! en_operation_or_checkpoint_id (rq_envelope r) with
      | Some reservation =>
          let? reservation_id := stored_label "operation_index" reservation in
          let? record := ok_or (os_reservations s !! reservation_id)
                 (OeStorage "operation index is dangling") in
          let? e := ok_or (os_envelopes s !! en_operation_or_checkpoint_id (rq_envelope r))
                 (OeStorage "operation envelope is missing") in
          check? guard_err (is_some (en_write_binding e))
                   (index_problem "retained write envelope is missing its idempotency index");
          if request_matches r (rd_token record) e then Ok (Some (rd_token record))
          else Err OeDuplicateConflict
      | None =>
          check? guard_err (is_some (os_reservations s !! rq_reservation_id r)) OeDuplicateConflict;
          Ok None
      end
  end.

(** ** Staging *)

Definition request_scope_le (a b : ScopeReservationRequest) : Prop :=
  String.le (sq_scope a) (sq_scope b).

#[global] Instance request_scope_le_dec : RelDecision request_scope_le.
Proof. intros a b. unfold request_scope_le. apply _. Defined.

#[global] Instance request_scope_le_total : Total request_scope_le.
Proof. intros a b. apply (total String.le (sq_scope a) (sq_scope b)). Qed.

#[global] Instance request_scope_le_trans : Transitive request_scope_le.
Proof. intros a b c. unfold request_scope_le. apply transitivity. Qed.

Definition sort_scopes (r : ReservationRequest) : ReservationRequest :=
  {| rq_reservation_id := rq_reservation_id r; rq_envelope := rq_envelope r;
     rq_writer_epoch := rq_writer_epoch r;
     rq_scopes := merge_sort request_scope_le (rq_scopes r);
     rq_prepared_transition_sha256 := rq_prepared_transition_sha256 r;
     rq_expires_at_ms := rq_expires_at_ms r; rq_recovery_owner := rq_recovery_owner r |}.

Definition next_reservation_order : OM Z := fun s =>
  let prior := default 0 (os_next_global_order s) in
  match checked_add prior 1 with
  | Some next =>
      (set_meta (Some next) (os_reservations_revision s) (os_write_idempotency_revision s) s,
       Ok next)
  | None => (s, Err (OeStorage "reservation order counter exhausted"))
  end.

(** The head a requested scope continues from. *)
Definition head_for (heads : Heads) (writer_epoch : EpochIdentity) (q : ScopeReservationRequest)
    : OrsR ScopeReservationHead :=
  match heads !! sq_scope q with
  | None =>
      Ok {| sh_writer_epoch := writer_epoch; sh_canonical_head := sq_expected_head q;
            sh_last_reserved_sequence := eh_sequence (sq_expected_head q);
            sh_last_terminal_sequence := eh_sequence (sq_expected_head q);
            sh_recovery_blocked := false |}
  | Some decoded =>
      check? guard_err (sh_recovery_blocked decoded) OeScopeRecoveryRequired;
      check? guard_err (sh_writer_epoch decoded != writer_epoch) OeStaleWriterEpoch;
      check? guard_err (sh_canonical_head decoded != sq_expected_head q) OeOrderingHeadMismatch;
      Ok decoded
  end.

Definition reserve_scope (writer_epoch : EpochIdentity) (acc : Heads * list ReservedScope)
    (q : ScopeReservationRequest) : OrsR (Heads * list ReservedScope) :=
  let '(heads, reserved) := acc in
  let? head := head_for heads writer_epoch q in
  let? reserved_sequence := ok_or (checked_add (sh_last_reserved_sequence head) 1)
         (OeStorage "scope sequence exhausted") in
  Ok (<[sq_scope q :=
          {| sh_writer_epoch := sh_writer_epoch head; sh_canonical_head := sh_canonical_head head;
             sh_last_reserved_sequence := reserved_sequence;
             sh_last_terminal_sequence := sh_last_terminal_sequence head;
             sh_recovery_blocked := sh_recovery_blocked head |}]> heads,
      reserved ++ [{| rs_scope := sq_scope q; rs_reserved_sequence := reserved_sequence;
                      rs_expected_head := sq_expected_head q |}]).

Definition reserve_scope_sequences (r : ReservationRequest) : OM (list ReservedScope) := fun s =>
  match fold_res (reserve_scope (el_current (rq_writer_epoch r))) (os_scope_heads s, [])
          (rq_scopes r) with
  | Ok (heads, reserved) => (set_scope_heads heads s, Ok reserved)
  | Err e => (s, Err e)
  end.

Definition persist_new_reservation `{OrsWire} (envelope : RecoveryPayloadEnvelope)
    (record : ReservationRecord) : OM unit :=
  let token := rd_token record in
  do! mmodify (fun s => set_envelopes (<[tk_operation_id token := envelope]> (os_envelopes s)) s);
  do! put_record record;
  do! mmodify (fun s => set_indexes (os_orders s)
        (<[tk_operation_id token := tk_reservation_id token]> (os_operations s))
        (os_write_idempotency s) s);
  let! b := mlift (ok_or (tk_write_binding token)
              (index_problem "new write reservation has no retained write binding")) in
  let! s := mstate in
  let idempotency_key := write_idempotency_index_key b in
  do! mlift (guard_err (is_some (os_write_idempotency s !! idempotency_key)) OeDuplicateConflict);
  do! mlift (guard_err (is_some (os_orders s !! order_key (tk_reservation_order token)))
               (OeIntegrityProblem "reservation_order" "duplicate reservation order"));
  do! mmodify (set_indexes
        (<[order_key (tk_reservation_order token) := tk_reservation_id token]> (os_orders s))
        (os_operations s)
        (<[idempotency_key := tk_operation_id token]> (os_write_idempotency s)));
  do! bump_reservations_revision;
  bump_write_idempotency_revision.

Definition new_token (r : ReservationRequest) (order : Z) (scopes : list ReservedScope)
    : WriterReservationToken :=
  {| tk_reservation_id := rq_reservation_id r;
     tk_operation_id := en_operation_or_checkpoint_id (rq_envelope r);
     tk_writer_epoch := rq_writer_epoch r;
     tk_state_fence := en_state_fence (rq_envelope r);
     tk_reservation_order := order; tk_scopes := scopes;
     tk_prepared_transition_sha256 := rq_prepared_transition_sha256 r;
     tk_write_binding := en_write_binding (rq_envelope r);
     tk_expires_at_ms := rq_expires_at_ms r; tk_recovery_owner := rq_recovery_owner r |}.

Definition new_record (token : WriterReservationToken) : ReservationRecord :=
  {| rd_token := token; rd_state := RsReserved; rd_unknown_reason := None;
     rd_terminal_receipt_id := None |}.

Definition stage_body `{OrsWire, CanonicalEvidence} (r : ReservationRequest)
    : OM (TxEnd WriterReservationToken) :=
  let! s := mstate in
  let! existing := mlift (existing_token s r) in
  match existing with
  | Some token => mret_ok (TxReturn token)
  | None =>
      do! mlift (verify_ordering_heads (rq_scopes r));
      let! order := next_reservation_order in
      let! scopes := reserve_scope_sequences r in
      let token := new_token r order scopes in
      do! persist_new_reservation (rq_envelope r) (new_record token);
      mret_ok (TxCommit token)
  end.

Definition readback_problem (reason : string) : OrsError :=
  OeIntegrityProblem "reservation_commit_readback" reason.

(** [map.get(key).is_some_and(|value| value == expected)] *)
Definition row_is (m : gmap string string) (key expected : string) : bool :=
  m !! key == Some expected.

Definition staged_reservation_readback `{OrsWire} (s : OrsStore)
    (expected : WriterReservationToken) : OrsR bool :=
  match os_reservations s !! tk_reservation_id expected with
  | None => Ok false
  | Some record =>
      check? guard_err (rd_token record != expected)
               (readback_problem "durable reservation differs from the staged token");
      let? b := ok_or (tk_write_binding expected)
             (readback_problem "new staged write has no retained identity binding") in
      check? write_binding_validate b;
      let terminal := reservation_is_terminal (rd_state record) in
      let envelope := os_envelopes s !! tk_operation_id expected in
      let envelope_matches :=
        match envelope with
        | Some e => (en_operation_or_checkpoint_id e == tk_operation_id expected)
                    && (en_write_binding e == Some b)
                    && (en_authority_epoch e == tk_writer_epoch expected)
                    && (en_state_fence e == tk_state_fence expected)
        | None => terminal
        end in
      check? guard_err
        (negb (row_is (os_orders s) (order_key (tk_reservation_order expected))
                 (tk_reservation_id expected))
         || negb (row_is (os_operations s) (tk_operation_id expected) (tk_reservation_id expected))
         || negb (row_is (os_write_idempotency s) (write_idempotency_index_key b)
                    (tk_operation_id expected)))
        (readback_problem "reservation, order, operation, or idempotency index diverges");
      check? guard_err (negb envelope_matches)
        (readback_problem
           (if negb (is_some envelope) && negb terminal
            then "nonterminal staged reservation is missing its retained payload"
            else "staged envelope does not match the retained write binding"));
      check? guard_err (negb (write_binding_matches_token b (rd_token record)))
        (readback_problem "durable write binding differs from the staged token");
      Ok true
  end.

Definition stage_and_reserve `{OrsWire, CanonicalEvidence} (c : CommitOutcome)
    (request : ReservationRequest) : OM WriterReservationToken := fun s =>
  match reservation_request_validate request with
  | Err e => (s, Err e)
  | Ok _ =>
      match stage_body (sort_scopes request) s with
      | (_, Err e) => (s, Err e)
      | (_, Ok (TxReturn token)) => (s, Ok token)
      | (s', Ok (TxCommit token)) =>
          match c with
          | CommitOk => (s', Ok token)
          | CommitError detail _ =>
              let durable := after_commit c s s' in
              let unknown := OeStagingCommitOutcomeUnknown (tk_operation_id token)
                               (tk_reservation_id token) (OeStorage detail) in
              (durable, match staged_reservation_readback durable token with
                        | Ok true => Ok token
                        | Ok false => Err (unknown None)
                        | Err e => Err (unknown (Some e))
                        end)
          end
      end
  end.

(** ** The lifecycle *)

Definition mark_eligible (c : CommitOutcome) (token : WriterReservationToken)
    : OM ReservationRecord :=
  transact c (
    let! s := mstate in
    let! record := mlift (load_record s (tk_reservation_id token)) in
    do! mlift (validate_token record token);
    match rd_state record with
    | RsEligible => mret_ok (TxReturn record)
    | RsReserved =>
        do! mlift (ensure_no_predecessor s token);
        do! mlift (ensure_canonical_heads s token);
        do! put_record (set_rd_state RsEligible record);
        do! bump_reservations_revision;
        mret_ok (TxCommit (set_rd_state RsEligible record))
    | _ => mthrow OeInvalidTransition
    end).

Definition begin_execute (c : CommitOutcome) (token : WriterReservationToken)
    (writer_epoch : EpochIdentity) : OM ReservationRecord :=
  do! mlift (require_writer_epoch token writer_epoch);
  transact c (
    let! s := mstate in
    let! record := mlift (load_record s (tk_reservation_id token)) in
    do! mlift (validate_token record token);
    match rd_state record with
    | RsExecuting => mret_ok (TxReturn record)
    | RsEligible =>
        do! mlift (ensure_no_predecessor s token);
        do! mlift (ensure_canonical_heads s token);
        do! put_record (set_rd_state RsExecuting record);
        do! bump_reservations_revision;
        mret_ok (TxCommit (set_rd_state RsExecuting record))
    | _ => mthrow OeInvalidTransition
    end).

Definition mark_unknown (c : CommitOutcome) (token : WriterReservationToken)
    (writer_epoch : EpochIdentity) (reason : OpaqueLabel) : OM ReservationRecord :=
  do! mlift (require_writer_epoch token writer_epoch);
  transact c (
    let! s := mstate in
    let! record := mlift (load_record s (tk_reservation_id token)) in
    do! mlift (validate_token record token);
    let unknown :=
      do! put_record (set_rd_unknown reason record);
      do! bump_reservations_revision;
      do! put_scope_heads (block_scopes (OeStorage "missing scope head") (token_scopes token));
      mret_ok (TxCommit (set_rd_unknown reason record)) in
    match rd_state record with
    | RsReconciling =>
        if rd_unknown_reason record == Some reason then mret_ok (TxReturn record)
        else mthrow OeInvalidTransition
    | RsExecuting => unknown
    | _ => mthrow OeInvalidTransition
    end).

Definition release (c : CommitOutcome) (token : WriterReservationToken)
    (writer_epoch : EpochIdentity) : OM ReservationRecord :=
  do! mlift (require_writer_epoch token writer_epoch);
  transact c (
    let! s := mstate in
    let! record := mlift (load_record s (tk_reservation_id token)) in
    do! mlift (validate_token record token);
    let released :=
      do! put_record (set_rd_state RsReleased record);
      do! bump_reservations_revision;
      mret_ok (TxCommit (set_rd_state RsReleased record)) in
    match rd_state record with
    | RsReleased =>
        if rd_terminal_receipt_id record == None then mret_ok (TxReturn record)
        else mthrow OeInvalidTransition
    | RsReserved | RsEligible => released
    | _ => mthrow OeInvalidTransition
    end).

Definition expire (c : CommitOutcome) (token : WriterReservationToken) (now_ms : Z)
    (recovery_owner : OpaqueLabel) : OM ReservationRecord :=
  do! mlift (guard_err (tk_recovery_owner token != recovery_owner) OeRecoveryOwnerMismatch);
  do! mlift (guard_err (now_ms <? tk_expires_at_ms token) OeInvalidExpiry);
  transact c (
    let! s := mstate in
    let! record := mlift (load_record s (tk_reservation_id token)) in
    do! mlift (validate_token record token);
    do! mlift (guard_err (negb (reservation_is_terminal (rd_state record))) OeUnsafeExpiry);
    do! mmodify (set_envelopes (delete (tk_operation_id token) (os_envelopes s)));
    mret_ok (TxCommit record)).

(** ** Reconciliation *)

Definition observation_matches (receipt : ReceiptEnvelope) (reserved : ReservedScope)
    (observed : CanonicalScopeObservation) : OrsR unit :=
  check? expected_head_validate (ob_prior_head observed);
  check? ors_validate_digest (ob_committed_head_sha256 observed) "committed_head_sha256";
  check? validate_revision (ob_committed_revision_head observed) "committed_revision_head";
  guard_err ((ob_scope observed != rs_scope reserved)
             || (ob_prior_head observed != rs_expected_head reserved)
             || (ob_committed_sequence observed != rs_reserved_sequence reserved)
             || (ob_committed_head_sha256 observed != ri_canonical_sha256 (re_identity receipt))
             || (ob_receipt_id observed != ri_receipt_id (re_identity receipt)))
    OeReconciliationMismatch.

Definition disposition_matches (d : CanonicalDisposition) (kind : ReceiptDispositionKind) : bool :=
  match d with
  | CdCommitted => (kind == Success) || (kind == Partial)
  | CdRejected => (kind == Failure) || (kind == Cancelled)
  end.

Definition reconciliation_matches `{OrsWire} (token : WriterReservationToken)
    (c : CanonicalReconciliation) : OrsR unit :=
  let? b := ok_or (tk_write_binding token)
         (OeIntegrityProblem "recovery_write_binding"
            "legacy reservation has no admitted write identity for reconciliation") in
  let receipt := cr_receipt c in
  let core := re_core receipt in
  check? map_err OeContract (envelope_validate ors_sha256 receipt_json receipt);
  check? guard_err
    ((cr_reservation_id c != tk_reservation_id token)
     || (cr_operation_id c != tk_operation_id token)
     || (cr_operation_id c != op_operation_id (rc_operation core))
     || (op_idempotency_key (rc_operation core) != wb_idempotency_key b)
     || (cr_reservation_order c != tk_reservation_order token)
     || (cr_state_fence c != tk_state_fence token)
     || (cr_recovery_owner c != tk_recovery_owner token)
     || (usize_of_len (cr_scopes c) != usize_of_len (tk_scopes token))
     || negb (write_binding_matches_token b token))
    OeReconciliationMismatch;
  let? receipt_fence := snapshot_capture (op_state_fence (rc_operation core))
         (sequence (ab_authority_epoch (rc_authority core))) in
  check? guard_err
    ((receipt_fence != tk_state_fence token)
     || (ws_state_fence (rc_work_scope core) != op_state_fence (rc_operation core))
     || (cb_state_fence (rc_causal core) != op_state_fence (rc_operation core))
     || (ab_state_fence (rc_authority core) != op_state_fence (rc_operation core)))
    OeReconciliationMismatch;
  let kind := disposition_kind (rc_disposition core) in
  check? guard_err (kind == Unknown) OeUnknownReceiptCannotResolve;
  check? guard_err (negb (disposition_matches (cr_disposition c) kind)) OeReconciliationMismatch;
  for_each (fun p => observation_matches receipt p.1 p.2) (zip (tk_scopes token) (cr_scopes c)).

Abbreviation Terminals := (gmap string ScopeTerminalReceipt).

Definition record_terminal (c : CanonicalReconciliation) (acc : Heads * Terminals)
    (observed : CanonicalScopeObservation) : OrsR (Heads * Terminals) :=
  let '(heads, terminals) := acc in
  let? head := ok_or (heads !! ob_scope observed)
         (OeIntegrityProblem "scope_head" "scope terminal has no durable head") in
  check? guard_err
    ((sh_canonical_head head != ob_prior_head observed)
     || (sh_last_reserved_sequence head <? ob_committed_sequence observed)
     || (ob_committed_sequence observed <=? sh_last_terminal_sequence head))
    OeOrderingHeadMismatch;
  let gap := cr_disposition c == CdRejected in
  Ok (<[ob_scope observed :=
          {| sh_writer_epoch := sh_writer_epoch head;
             sh_canonical_head :=
               if gap then sh_canonical_head head
               else {| eh_sequence := ob_committed_sequence observed;
                       eh_head_sha256 := ob_committed_head_sha256 observed;
                       eh_revision_head := ob_committed_revision_head observed |};
             sh_last_reserved_sequence := sh_last_reserved_sequence head;
             sh_last_terminal_sequence := ob_committed_sequence observed;
             sh_recovery_blocked := sh_recovery_blocked head |}]> heads,
      <[terminal_key (ob_scope observed) (ob_committed_sequence observed) :=
          {| sx_scope := ob_scope observed; sx_reserved_sequence := ob_committed_sequence observed;
             sx_disposition := cr_disposition c; sx_gap := gap;
             sx_receipt_id := ob_receipt_id observed;
             sx_receipt_sha256 := ri_canonical_sha256 (re_identity (cr_receipt c)) |}]> terminals).

Definition record_scope_terminals (c : CanonicalReconciliation) : OM unit := fun s =>
  match fold_res (record_terminal c) (os_scope_heads s, os_scope_terminals s) (cr_scopes c) with
  | Ok (heads, terminals) => (set_scope_terminals terminals (set_scope_heads heads s), Ok tt)
  | Err e => (s, Err e)
  end.

(** Whether another reservation still holds [scope] for reconciliation. *)
Definition still_blocked (reservations : gmap string ReservationRecord)
    (closed : WriterReservationToken) (scope : OpaqueLabel) : bool :=
  existsb (fun r => (tk_reservation_id (rd_token r) != tk_reservation_id closed)
                    && (rd_state r == RsReconciling)
                    && bool_decide (scope ∈ token_scopes (rd_token r)))
    (btree_values reservations).

Definition clear_recovery_blocks (closed : ReservationRecord) : OM unit := fun s =>
  put_scope_heads (fun heads =>
    fold_res (fun acc scope =>
      let? head := ok_or (acc !! scope) (OeStorage "missing scope head") in
      Ok (<[scope := set_recovery_blocked
                       (still_blocked (os_reservations s) (rd_token closed) scope) head]> acc))
      heads (btree_set_iter (list_to_set (token_scopes (rd_token closed))))) s.

Definition closed_state (d : CanonicalDisposition) : ReservationState :=
  match d with
  | CdCommitted => RsFinalized
  | CdRejected => RsReleased
  end.

Definition closed_record (c : CanonicalReconciliation) (receipt_id : OpaqueLabel)
    (r : ReservationRecord) : ReservationRecord :=
  {| rd_token := rd_token r; rd_state := closed_state (cr_disposition c);
     rd_unknown_reason := None; rd_terminal_receipt_id := Some receipt_id |}.

Definition reconcile `{OrsWire, CanonicalEvidence} (commit : CommitOutcome)
    (c : CanonicalReconciliation) : OM ReservationRecord :=
  transact commit (
    let! s := mstate in
    let! record := mlift (load_record s (cr_reservation_id c)) in
    let receipt_id := ri_receipt_id (re_identity (cr_receipt c)) in
    if reservation_is_terminal (rd_state record) then
      if (rd_terminal_receipt_id record == Some receipt_id)
         && is_ok (reconciliation_matches (rd_token record) c)
      then do! mlift (verify_reconciliation (rd_token record) c); mret_ok (TxReturn record)
      else mthrow OeDuplicateConflict
    else if negb ((rd_state record == RsExecuting) || (rd_state record == RsReconciling)) then
      mthrow OeInvalidTransition
    else
      do! mlift (reconciliation_matches (rd_token record) c);
      do! mlift (verify_reconciliation (rd_token record) c);
      let! label := mlift (OpaqueLabel_new receipt_id) in
      let closed := closed_record c label record in
      do! put_record closed;
      do! bump_reservations_revision;
      do! record_scope_terminals c;
      do! clear_recovery_blocks closed;
      mret_ok (TxCommit closed)).

(** ** Epoch fencing

    [fence_writer_epoch] rewrites the affected rows a page at a time until a
    pass finds none; [fence_rounds] has one round of fuel per reservation and
    one more. *)

Definition epoch_affected (successor : EpochLineage) (r : ReservationRecord) : bool :=
  negb (reservation_is_terminal (rd_state r))
  && (el_current (tk_writer_epoch (rd_token r)) != el_current successor).

Definition scope_affected (successor : EpochLineage) (reservations : gmap string ReservationRecord)
    (scope : OpaqueLabel) : bool :=
  existsb (fun r => epoch_affected successor r
                    && bool_decide (scope ∈ token_scopes (rd_token r)))
    (btree_values reservations).

Definition fence_head (successor : EpochLineage) (reservations : gmap string ReservationRecord)
    (heads : Heads) (scope : OpaqueLabel) : OrsR Heads :=
  let? head := ok_or (heads !! scope)
         (OeIntegrityProblem "scope_head" "scope has no writer epoch") in
  check? guard_err (negb (lineage_succeeds successor (sh_writer_epoch head)))
           OeInvalidEpochLineage;
  Ok (<[scope := {| sh_writer_epoch := el_current successor;
                    sh_canonical_head := sh_canonical_head head;
                    sh_last_reserved_sequence := sh_last_reserved_sequence head;
                    sh_last_terminal_sequence := sh_last_terminal_sequence head;
                    sh_recovery_blocked := scope_affected successor reservations scope |}]> heads).

Definition fenced_reason : OpaqueLabel := "writer epoch fenced".

Definition fence_pending (unique : gset string) (successor : EpochLineage) (r : ReservationRecord)
    : bool :=
  epoch_affected successor r
  && existsb (fun scope => bool_decide (scope ∈ unique)) (token_scopes (rd_token r))
  && negb ((rd_state r == RsReconciling) && (rd_unknown_reason r == Some fenced_reason)).

(** The first page of rows a predicate selects, in key order. *)
Definition page_of (select : ReservationRecord -> bool)
    (reservations : gmap string ReservationRecord) : list (string * ReservationRecord) :=
  take (Z.to_nat MAX_RECOVERY_PAGE)
    (List.filter (fun row => select row.2) (btree_iter reservations)).

Definition mark_page (reason : OpaqueLabel) (page : list (string * ReservationRecord)) : OM unit :=
  mmodify (fun s => set_reservations
    (insert_all fst (fun row => set_rd_unknown reason row.2) page (os_reservations s)) s).

(** Out of fuel is [None]. *)
Fixpoint fence_rounds (fuel : nat) (unique : gset string) (successor : EpochLineage)
    : M OrsStore OrsError (option unit) := fun s =>
  match fuel with
  | O => (s, Ok None)
  | S fuel' =>
      match page_of (fence_pending unique successor) (os_reservations s) with
      | [] => (s, Ok (Some tt))
      | page => (do! mark_page fenced_reason page;
                 do! bump_reservations_revision;
                 fence_rounds fuel' unique successor) s
      end
  end.

Definition rounds_fuel (s : OrsStore) : nat := S (size (os_reservations s)).

Definition fence_writer_epoch (c : CommitOutcome) (scopes : list OpaqueLabel)
    (successor : EpochLineage) : OM (option unit) :=
  do! mlift (epoch_lineage_validate successor);
  do! mlift (guard_err (usize_of_len scopes =? 0) OeEmptyScopeSet);
  let unique : gset string := list_to_set scopes in
  do! mlift (guard_err (negb (size unique =? length scopes)%nat) OeDuplicateScope);
  do! mlift (guard_err (MAX_RECOVERY_PAGE <? Z.of_nat (size unique)) OeInvalidCursorLimit);
  transact c (
    let! s := mstate in
    do! put_scope_heads (fun heads =>
          fold_res (fence_head successor (os_reservations s)) heads (btree_set_iter unique));
    do! mlift (OpaqueLabel_new fenced_reason);
    let! rounds := fence_rounds (rounds_fuel s) unique successor in
    mret_ok (TxCommit rounds)).

(** ** Restart recovery

    The loop of [recover_interrupted_execution] over the reservations; each
    page is its own transaction. [commits] gives the outcomes of their
    commits in turn. *)

Definition restart_reason : OpaqueLabel := "restart interrupted execution".

Definition interrupted (r : ReservationRecord) : bool := rd_state r == RsExecuting.

Definition recover_page_body (page : list (string * ReservationRecord)) : OM (TxEnd unit) :=
  do! mlift (OpaqueLabel_new restart_reason);
  do! mark_page restart_reason page;
  do! put_scope_heads
        (block_scopes
           (OeIntegrityProblem "scope_head" "interrupted reservation scope head is missing")
           (flat_map (fun row => token_scopes (rd_token row.2)) page));
  do! bump_reservations_revision;
  mret_ok (TxCommit tt).

Fixpoint recover_rounds (fuel : nat) (commits : list CommitOutcome) : OM (option unit) := fun s =>
  match fuel with
  | O => (s, Ok None)
  | S fuel' =>
      match page_of interrupted (os_reservations s) with
      | [] => (s, Ok (Some tt))
      | page => (do! transact (default CommitOk (head commits)) (recover_page_body page);
                 recover_rounds fuel' (tail commits)) s
      end
  end.

Definition recover_interrupted_reservations (commits : list CommitOutcome) : OM (option unit) :=
  fun s => recover_rounds (rounds_fuel s) commits s.

(** ** The recovery cursor *)

Fixpoint recover_scan (s : OrsStore) (after limit : Z) (rows : list (string * string))
    (records : list ReservationRecord) : OrsR (list ReservationRecord) :=
  match rows with
  | [] => Ok records
  | (order, stored) :: rest =>
      let? parsed := parse_order order in
      if parsed <=? after then recover_scan s after limit rest records
      else
        let? reservation_id := stored_label "reservation_order" stored in
        let? record := ok_or (os_reservations s !! reservation_id)
               (OeIntegrityProblem "reservation_order" "dangling reservation order index") in
        check? guard_err (tk_reservation_order (rd_token record) != parsed)
                 (OeIntegrityProblem "reservation_order" "order index disagrees with reservation");
        if reservation_is_terminal (rd_state record) then recover_scan s after limit rest records
        else if limit <? usize_of_len (records ++ [record]) then Ok (records ++ [record])
        else recover_scan s after limit rest (records ++ [record])
  end.

Definition recover_page (s : OrsStore) (cursor : RecoveryCursor) : OrsR RecoveryPage :=
  check? guard_err (cursor_limit_bad (cu_limit cursor)) OeInvalidCursorLimit;
  let? scanned := recover_scan s (cu_after_order cursor) (cu_limit cursor)
                    (btree_iter (os_orders s)) [] in
  let has_more := cu_limit cursor <? usize_of_len scanned in
  let records := if has_more then take (length scanned - 1) scanned else scanned in
  Ok {| pg_records := records;
        pg_next_after_order :=
          if has_more then (fun r => tk_reservation_order (rd_token r)) <$> last records
          else None |}.
