(* ===== verification/OrsLaws.v ===== *)
(** * Laws of the reservation tables

    The padded keys of the order index; the small steps ([rstep]) every
    operation of [OrsStore] decomposes into; the invariant of the tables
    ([ors_wf]) and its preservation by each small step. *)

From Stdlib Require Import Ascii String.
From stdpp Require Import relations.
From S2P Require Import Prelude RustText Contracts Receipts OrsModel OrsStore.

#[local] Open Scope string_scope.
#[local] Open Scope list_scope.
#[local] Open Scope Z_scope.

(** ** Padded keys *)

Lemma zero_padded_length w n : String.length (zero_padded w n) = w.
Proof. induction w; simpl; congruence. Qed.

Lemma digit_mod_bound n m : 0 <= n / m mod 10 < 10.
Proof. apply Z.mod_pos_bound. lia. Qed.

Lemma div_pow10_step n w : 0 <= n ->
  n = 10 ^ Z.of_nat (S w) * (n / 10 ^ Z.of_nat (S w)) + n mod 10 ^ Z.of_nat (S w) /\
  n / 10 ^ Z.of_nat w = 10 * (n / 10 ^ Z.of_nat (S w)) + (n / 10 ^ Z.of_nat w) mod 10.
Proof.
  intros Hn. assert (Hp : 10 ^ Z.of_nat (S w) = 10 ^ Z.of_nat w * 10).
  { rewrite Nat2Z.inj_succ, Z.pow_succ_r by lia. lia. }
  assert (0 < 10 ^ Z.of_nat w) by (apply Z.pow_pos_nonneg; lia).
  split; [apply Z.div_mod; lia|].
  rewrite Hp, <- Z.div_div by lia. apply Z.div_mod. lia.
Qed.

Lemma parse_zero_padded w n acc :
  0 <= n <= u64_max -> 0 <= acc -> n / 10 ^ Z.of_nat w = acc ->
  parse_digits acc (zero_padded w n) = Some n.
Proof.
  intros Hn. revert acc. induction w as [|w IH]; intros acc Ha Hd; cbn [zero_padded].
  - simpl in Hd. rewrite Z.div_1_r in Hd. by subst.
  - destruct (div_pow10_step n w ltac:(lia)) as [_ Hstep]. rewrite Hd in Hstep.
    assert (0 < 10 ^ Z.of_nat w) by (apply Z.pow_pos_nonneg; lia).
    assert (n / 10 ^ Z.of_nat w <= n) by (apply Z.div_le_upper_bound; nia).
    pose proof (digit_mod_bound n (10 ^ Z.of_nat w)).
    rewrite parse_digits_digit by lia. apply IH; lia.
Qed.

Lemma parse_order_key n : is_u64 n -> parse_u64 (order_key n) = Some n.
Proof.
  intros Hn. unfold is_u64 in Hn. unfold order_key.
  assert (Hz : n / 10 ^ Z.of_nat 20 = 0) by (apply Z.div_small; unfold u64_max in Hn; lia).
  pose proof (parse_zero_padded 20 n 0 Hn ltac:(lia) Hz) as Hp.
  pose proof (digit_mod_bound n (10 ^ Z.of_nat 19)) as Hd.
  unfold parse_u64.
  destruct (zero_padded 20 n) as [|c rest] eqn:E; [discriminate|].
  assert (c = digit (n / 10 ^ Z.of_nat 19 mod 10)) as -> by (simpl in E; congruence).
  rewrite byte_of_digit by done. by rewrite (proj2 (Z.eqb_neq _ _)) by lia.
Qed.

Lemma order_key_inj n m : is_u64 n -> is_u64 m -> order_key n = order_key m -> n = m.
Proof.
  intros Hn Hm E. pose proof (parse_order_key n Hn) as Pn. rewrite E, (parse_order_key m Hm) in Pn.
  by injection Pn.
Qed.

Lemma compare_digit a b : 0 <= a < 10 -> 0 <= b < 10 ->
  Ascii.compare (digit a) (digit b) = Z.compare a b.
Proof.
  intros Ha Hb. unfold Ascii.compare.
  pose proof (byte_of_digit a Ha) as Da. pose proof (byte_of_digit b Hb) as Db.
  unfold byte_of in Da, Db. rewrite <- N2Z.inj_compare, Da, Db.
  destruct (Z.compare_spec a b), (Z.compare_spec (48 + a) (48 + b)); lia || done.
Qed.

Lemma compare_zero_padded w n m : 0 <= n -> 0 <= m ->
  String.compare (zero_padded w n) (zero_padded w m)
  = Z.compare (n mod 10 ^ Z.of_nat w) (m mod 10 ^ Z.of_nat w).
Proof.
  intros Hn Hm. induction w as [|w IH]; [by rewrite !Z.mod_1_r|].
  cbn [zero_padded String.compare]. rewrite IH, compare_digit by apply digit_mod_bound.
  assert (Hp : 0 < 10 ^ Z.of_nat w) by (apply Z.pow_pos_nonneg; lia).
  assert (Hs : forall z, z mod 10 ^ Z.of_nat (S w)
                         = 10 ^ Z.of_nat w * (z / 10 ^ Z.of_nat w mod 10) + z mod 10 ^ Z.of_nat w).
  { intros z. rewrite Nat2Z.inj_succ, Z.pow_succ_r, Z.mul_comm by lia.
    rewrite Z.rem_mul_r by lia. lia. }
  rewrite !Hs. pose proof (Z.mod_pos_bound n _ Hp). pose proof (Z.mod_pos_bound m _ Hp).
  destruct (Z.compare_spec (n / 10 ^ Z.of_nat w mod 10) (m / 10 ^ Z.of_nat w mod 10)) as [->|Hl|Hl].
  - by rewrite Z.add_compare_mono_l.
  - symmetry. apply Z.compare_lt_iff. nia.
  - symmetry. apply Z.compare_gt_iff. nia.
Qed.

(** The byte order of the keys is the order of the numbers. *)
Lemma order_key_le n m : is_u64 n -> is_u64 m -> String.le (order_key n) (order_key m) <-> n <= m.
Proof.
  intros [Hn Hn'] [Hm Hm']. unfold String.le, String.leb, order_key. unfold u64_max in *.
  rewrite compare_zero_padded by done. rewrite !Z.mod_small by lia. unfold Z.le.
  destruct (n ?= m); simpl; naive_solver.
Qed.

Lemma string_length_app a b :
  String.length (String.append a b) = (String.length a + String.length b)%nat.
Proof. induction a as [|c a IH]; [done|]. exact (f_equal S IH). Qed.

Lemma append_inj_length a b c d : String.length b = String.length d ->
  String.append a b = String.append c d -> a = c /\ b = d.
Proof.
  intros Hl. revert c. induction a as [|x a IH]; intros [|y c] H.
  - done.
  - apply (f_equal String.length) in H. rewrite !string_length_app in H. simpl in H. lia.
  - apply (f_equal String.length) in H. rewrite !string_length_app in H. simpl in H. lia.
  - injection H as -> H. by destruct (IH c H) as [-> ->].
Qed.

Lemma terminal_key_inj s1 q1 s2 q2 : is_u64 q1 -> is_u64 q2 ->
  terminal_key s1 q1 = terminal_key s2 q2 -> s1 = s2 /\ q1 = q2.
Proof.
  intros H1 H2 E. apply append_inj_length in E as [-> E];
    [|by rewrite !string_length_app, !zero_padded_length].
  apply append_inj_length in E as [_ E]; [|by rewrite !zero_padded_length].
  split; [done|]. by apply order_key_inj.
Qed.

(** ** Small steps

    What the lifecycle rests on of a scope head: everything but its epoch and
    its recovery flag. *)

Record HeadCore : Type := {
  hc_head : ExpectedOrderingHead;
  hc_reserved : Z;
  hc_terminal : Z;
}.

Definition head_core (h : ScopeReservationHead) : HeadCore :=
  {| hc_head := sh_canonical_head h; hc_reserved := sh_last_reserved_sequence h;
     hc_terminal := sh_last_terminal_sequence h |}.

Definition core_heads (s : OrsStore) : gmap string HeadCore := head_core <$> os_scope_heads s.

Definition rd_id (r : ReservationRecord) : OpaqueLabel := tk_reservation_id (rd_token r).
Definition rd_order (r : ReservationRecord) : Z := tk_reservation_order (rd_token r).
Definition rd_scopes (r : ReservationRecord) : list ReservedScope := tk_scopes (rd_token r).
Definition next_order (s : OrsStore) : Z := default 0 (os_next_global_order s).

Definition pending (r : ReservationRecord) : Prop := reservation_is_terminal (rd_state r) = false.

(** Eligible or executing: the reservation owns its scopes. *)
Definition owns_scopes (r : ReservationRecord) : Prop :=
  rd_state r = RsEligible \/ rd_state r = RsExecuting.

Definition no_predecessor (s : OrsStore) (t : WriterReservationToken) : Prop :=
  forall k p, os_reservations s !! k = Some p -> pending_predecessor t p = false.

Definition move_ok (s : OrsStore) (r : ReservationRecord) (target : ReservationState) : Prop :=
  match rd_state r, target with
  | RsReserved, RsEligible | RsEligible, RsExecuting => no_predecessor s (rd_token r)
  | RsReserved, RsReleased | RsEligible, RsReleased => True
  | (RsReserved | RsEligible | RsExecuting | RsReconciling), RsReconciling => True
  | _, _ => False
  end.

Record same_indexes (s s' : OrsStore) : Prop := {
  si_orders : os_orders s' = os_orders s;
  si_operations : os_operations s' = os_operations s;
  si_idempotency : os_write_idempotency s' = os_write_idempotency s;
  si_next : next_order s' = next_order s;
}.

(** The head a scope is reserved from, a fresh one where there is none. *)
Definition base_core (s : OrsStore) (e : ReservedScope) : HeadCore :=
  default {| hc_head := rs_expected_head e; hc_reserved := eh_sequence (rs_expected_head e);
             hc_terminal := eh_sequence (rs_expected_head e) |} (core_heads s !! rs_scope e).

Definition entry_staged (s s' : OrsStore) (e : ReservedScope) : Prop :=
  is_u64 (rs_reserved_sequence e) /\ hc_head (base_core s e) = rs_expected_head e /\
  rs_reserved_sequence e = hc_reserved (base_core s e) + 1 /\
  core_heads s' !! rs_scope e =
    Some {| hc_head := rs_expected_head e; hc_reserved := rs_reserved_sequence e;
            hc_terminal := hc_terminal (base_core s e) |}.

Definition entry_key (e : ReservedScope) : string :=
  terminal_key (rs_scope e) (rs_reserved_sequence e).

Definition head_closed (d : CanonicalDisposition) (e : ReservedScope) (h h' : HeadCore) : Prop :=
  hc_head h = rs_expected_head e /\ hc_terminal h < rs_reserved_sequence e <= hc_reserved h /\
  hc_reserved h' = hc_reserved h /\ hc_terminal h' = rs_reserved_sequence e /\
  match d with
  | CdCommitted => eh_sequence (hc_head h') = rs_reserved_sequence e
  | CdRejected => hc_head h' = hc_head h
  end.

Definition row_closes (d : CanonicalDisposition) (receipt_id : string) (x : ScopeTerminalReceipt)
    : Prop :=
  sx_receipt_id x = receipt_id /\ sx_disposition x = d /\ sx_gap x = bool_decide (d = CdRejected).

Definition entry_closed (d : CanonicalDisposition) (receipt_id : string) (s s' : OrsStore)
    (e : ReservedScope) : Prop :=
  (exists h h', core_heads s !! rs_scope e = Some h /\ core_heads s' !! rs_scope e = Some h' /\
     head_closed d e h h') /\
  exists x, os_scope_terminals s' !! entry_key e = Some x /\ row_closes d receipt_id x.

Inductive rstep `{OrsWire} (s s' : OrsStore) : Prop :=
| StepMove r r' :
    os_reservations s !! rd_id r = Some r -> rd_token r' = rd_token r ->
    move_ok s r (rd_state r') -> rd_terminal_receipt_id r' = rd_terminal_receipt_id r ->
    os_reservations s' = <[rd_id r := r']> (os_reservations s) ->
    core_heads s' = core_heads s -> os_scope_terminals s' = os_scope_terminals s ->
    os_envelopes s' = os_envelopes s -> same_indexes s s' -> rstep s s'
| StepFlags :
    os_reservations s' = os_reservations s -> core_heads s' = core_heads s ->
    os_scope_terminals s' = os_scope_terminals s -> os_envelopes s' = os_envelopes s ->
    same_indexes s s' -> rstep s s'
| StepForget r :
    os_reservations s !! rd_id r = Some r -> ~ pending r ->
    os_reservations s' = os_reservations s -> core_heads s' = core_heads s ->
    os_scope_terminals s' = os_scope_terminals s ->
    os_envelopes s' = delete (tk_operation_id (rd_token r)) (os_envelopes s) ->
    same_indexes s s' -> rstep s s'
| StepClose r r' d receipt_id :
    os_reservations s !! rd_id r = Some r -> rd_token r' = rd_token r ->
    rd_state r = RsExecuting \/ rd_state r = RsReconciling ->
    rd_state r' = closed_state d -> rd_terminal_receipt_id r' = Some receipt_id ->
    os_reservations s' = <[rd_id r := r']> (os_reservations s) ->
    Forall (entry_closed d receipt_id s s') (rd_scopes r) ->
    (forall scope, scope ∉ token_scopes (rd_token r) ->
       core_heads s' !! scope = core_heads s !! scope) ->
    (forall key, key ∉ (entry_key <$> rd_scopes r) ->
       os_scope_terminals s' !! key = os_scope_terminals s !! key) ->
    os_envelopes s' = os_envelopes s -> same_indexes s s' -> rstep s s'
| StepStage t envelope b :
    label_ok (tk_reservation_id t) ->
    os_reservations s !! tk_reservation_id t = None ->
    os_operations s !! tk_operation_id t = None ->
    tk_write_binding t = Some b -> en_write_binding envelope = Some b ->
    os_write_idempotency s !! write_idempotency_index_key b = None ->
    os_orders s !! order_key (tk_reservation_order t) = None ->
    tk_reservation_order t = next_order s + 1 -> next_order s + 1 <= u64_max ->
    StronglySorted String.le (token_scopes t) -> NoDup (token_scopes t) -> tk_scopes t <> [] ->
    Forall (entry_staged s s') (tk_scopes t) ->
    (forall scope, scope ∉ token_scopes t -> core_heads s' !! scope = core_heads s !! scope) ->
    os_envelopes s' = <[tk_operation_id t := envelope]> (os_envelopes s) ->
    os_reservations s' = <[tk_reservation_id t := new_record t]> (os_reservations s) ->
    os_orders s' = <[order_key (tk_reservation_order t) := tk_reservation_id t]> (os_orders s) ->
    os_operations s' = <[tk_operation_id t := tk_reservation_id t]> (os_operations s) ->
    os_write_idempotency s' =
      <[write_idempotency_index_key b := tk_operation_id t]> (os_write_idempotency s) ->
    os_scope_terminals s' = os_scope_terminals s ->
    next_order s' = tk_reservation_order t -> rstep s s'.

(** ** The invariant *)

(** How a record and its receipt agree. *)
Definition receipt_ok (r : ReservationRecord) : Prop :=
  match rd_state r with
  | RsFinalized => is_Some (rd_terminal_receipt_id r)
  | RsReleased => True
  | _ => rd_terminal_receipt_id r = None
  end.

(** What one record owes the tables beside it. *)
Record record_ok `{OrsWire} (s : OrsStore) (k : string) (r : ReservationRecord) : Prop := {
  ro_key : rd_id r = k;
  ro_bound : 1 <= rd_order r <= next_order s;
  ro_order : os_orders s !! order_key (rd_order r) = Some k;
  ro_operation : os_operations s !! tk_operation_id (rd_token r) = Some k;
  ro_binding : exists b, tk_write_binding (rd_token r) = Some b /\
    os_write_idempotency s !! write_idempotency_index_key b = Some (tk_operation_id (rd_token r));
  ro_sorted : StronglySorted String.le (token_scopes (rd_token r));
  ro_distinct : NoDup (token_scopes (rd_token r));
  ro_nonempty : rd_scopes r <> [];
  ro_receipt : receipt_ok r;
  ro_entry : forall e, e ∈ rd_scopes r ->
    is_u64 (rs_reserved_sequence e) /\
    eh_sequence (rs_expected_head e) < rs_reserved_sequence e /\
    exists h, core_heads s !! rs_scope e = Some h /\ rs_reserved_sequence e <= hc_reserved h /\
      (rd_state r = RsFinalized -> rs_reserved_sequence e <= eh_sequence (hc_head h));
  ro_rows : forall receipt_id, rd_terminal_receipt_id r = Some receipt_id -> forall e, e ∈ rd_scopes r ->
    exists x, os_scope_terminals s !! entry_key e = Some x /\
      row_closes (if bool_decide (rd_state r = RsFinalized) then CdCommitted else CdRejected)
        receipt_id x;
}.

Record ors_wf `{OrsWire} (s : OrsStore) : Prop := {
  wf_next : 0 <= next_order s <= u64_max;
  wf_record : forall k r, os_reservations s !! k = Some r -> record_ok s k r;
  wf_orders : forall key k, os_orders s !! key = Some k ->
    exists r, os_reservations s !! k = Some r /\ key = order_key (rd_order r);
  wf_heads : forall scope h, core_heads s !! scope = Some h ->
    eh_sequence (hc_head h) <= hc_terminal h <= hc_reserved h;
  wf_increasing : forall k1 r1 e1 k2 r2 e2,
    os_reservations s !! k1 = Some r1 -> os_reservations s !! k2 = Some r2 ->
    e1 ∈ rd_scopes r1 -> e2 ∈ rd_scopes r2 -> rs_scope e1 = rs_scope e2 ->
    rd_order r1 < rd_order r2 -> rs_reserved_sequence e1 < rs_reserved_sequence e2;
  wf_owner : forall k1 r1 k2 r2,
    os_reservations s !! k1 = Some r1 -> os_reservations s !! k2 = Some r2 ->
    owns_scopes r2 -> pending r1 -> rd_order r1 < rd_order r2 ->
    shares_scope (rd_token r1) (rd_token r2) = false;
  wf_chain : forall k1 r1 e1 k2 r2 e2,
    os_reservations s !! k1 = Some r1 -> os_reservations s !! k2 = Some r2 ->
    rd_state r1 = RsFinalized -> rd_state r2 = RsFinalized ->
    e1 ∈ rd_scopes r1 -> e2 ∈ rd_scopes r2 -> rs_scope e1 = rs_scope e2 ->
    rs_reserved_sequence e1 < rs_reserved_sequence e2 ->
    rs_reserved_sequence e1 <= eh_sequence (rs_expected_head e2);
  wf_rows : forall key x, os_scope_terminals s !! key = Some x ->
    exists k r e, os_reservations s !! k = Some r /\ e ∈ rd_scopes r /\ key = entry_key e /\
      rd_terminal_receipt_id r = Some (sx_receipt_id x);
}.

Section Invariant.
Context `{OrsWire}.
Implicit Types (s : OrsStore) (r : ReservationRecord) (e : ReservedScope).

Lemma ors_empty_wf : ors_wf ors_empty.
Proof.
  constructor; by intros.
Qed.

Lemma order_u64 s k r : ors_wf s -> os_reservations s !! k = Some r -> is_u64 (rd_order r).
Proof.
  intros Hwf Hr. destruct (ro_bound _ _ _ (wf_record s Hwf k r Hr)).
  pose proof (wf_next s Hwf). unfold is_u64. lia.
Qed.

(** One order, one reservation. *)
Lemma order_unique s k1 r1 k2 r2 : ors_wf s ->
  os_reservations s !! k1 = Some r1 -> os_reservations s !! k2 = Some r2 ->
  rd_order r1 = rd_order r2 -> k1 = k2 /\ r1 = r2.
Proof.
  intros Hwf H1 H2 E. pose proof (ro_order _ _ _ (wf_record s Hwf k1 r1 H1)) as O1.
  pose proof (ro_order _ _ _ (wf_record s Hwf k2 r2 H2)) as O2. rewrite E in O1. naive_solver.
Qed.

(** One sequence of a scope, one reservation. *)
Lemma reserved_sequence_unique s k1 r1 e1 k2 r2 e2 : ors_wf s ->
  os_reservations s !! k1 = Some r1 -> os_reservations s !! k2 = Some r2 ->
  e1 ∈ rd_scopes r1 -> e2 ∈ rd_scopes r2 -> rs_scope e1 = rs_scope e2 ->
  rs_reserved_sequence e1 = rs_reserved_sequence e2 -> k1 = k2.
Proof.
  intros Hwf H1 H2 I1 I2 Es Eq.
  destruct (Z.lt_trichotomy (rd_order r1) (rd_order r2)) as [L|[E|L]].
  - pose proof (wf_increasing s Hwf _ _ _ _ _ _ H1 H2 I1 I2 Es L). lia.
  - by eapply order_unique.
  - pose proof (wf_increasing s Hwf _ _ _ _ _ _ H2 H1 I2 I1 (eq_sym Es) L). lia.
Qed.

Lemma entry_key_unique s k1 r1 e1 k2 r2 e2 : ors_wf s ->
  os_reservations s !! k1 = Some r1 -> os_reservations s !! k2 = Some r2 ->
  e1 ∈ rd_scopes r1 -> e2 ∈ rd_scopes r2 -> entry_key e1 = entry_key e2 -> k1 = k2.
Proof.
  intros Hwf H1 H2 I1 I2 E.
  destruct (ro_entry _ _ _ (wf_record s Hwf k1 r1 H1) e1 I1) as [U1 _].
  destruct (ro_entry _ _ _ (wf_record s Hwf k2 r2 H2) e2 I2) as [U2 _].
  apply terminal_key_inj in E as [Es Eq]; [|done|done]. by eapply reserved_sequence_unique.
Qed.

Lemma pending_not_finalized r : pending r -> rd_state r <> RsFinalized.
Proof. unfold pending. by destruct (rd_state r). Qed.

Lemma owner_pending r : owns_scopes r -> pending r.
Proof. unfold owns_scopes, pending. intros [-> | ->]; done. Qed.

Lemma pending_predecessor_false t p :
  pending_predecessor t p = false -> pending p -> tk_reservation_order (rd_token p) < tk_reservation_order t ->
  shares_scope (rd_token p) t = false.
Proof.
  unfold pending_predecessor, pending. intros Hf Hp Hl. rewrite Hp, (proj2 (Z.ltb_lt _ _) Hl) in Hf.
  by destruct (shares_scope _ _).
Qed.

(** *** Frames *)

Lemma record_ok_frame s s' k r :
  core_heads s' = core_heads s -> os_scope_terminals s' = os_scope_terminals s ->
  same_indexes s s' -> record_ok s k r -> record_ok s' k r.
Proof.
  intros Hh Ht [Ho Hp Hi Hn] []. constructor; rewrite ?Hh, ?Ht, ?Ho, ?Hp, ?Hi, ?Hn; done.
Qed.

(** A record replaced under its token, with nothing the tables rest on
    changed, keeps every fact but those on its own state. *)
Lemma record_ok_state s k r r' :
  rd_token r' = rd_token r -> rd_state r' <> RsFinalized -> rd_terminal_receipt_id r' = None ->
  record_ok s k r -> record_ok s k r'.
Proof.
  intros Ht Hs Hn [H1 H2 H3 H4 H5 H6 H7 H8 _ H10 _]. unfold rd_id, rd_order, rd_scopes in *.
  constructor; unfold rd_id, rd_order, rd_scopes; rewrite ?Ht, ?Hn; try done.
  - unfold receipt_ok. by destruct (rd_state r').
  - intros e He. destruct (H10 e He) as (? & ? & h & ? & ? & _).
    do 2 (split; [done|]). exists h. naive_solver.
Qed.

Lemma move_ok_facts s r target : move_ok s r target ->
  pending r /\ target <> RsFinalized /\
  (target = RsEligible \/ target = RsExecuting -> no_predecessor s (rd_token r)).
Proof. unfold move_ok, pending. destruct (rd_state r), target; naive_solver. Qed.

(** *** Preservation *)

Lemma wf_move s s' r r' : ors_wf s ->
  os_reservations s !! rd_id r = Some r -> rd_token r' = rd_token r ->
  move_ok s r (rd_state r') -> rd_terminal_receipt_id r' = rd_terminal_receipt_id r ->
  os_reservations s' = <[rd_id r := r']> (os_reservations s) ->
  core_heads s' = core_heads s -> os_scope_terminals s' = os_scope_terminals s ->
  same_indexes s s' -> ors_wf s'.
Proof.
  intros Hwf Hr Ht Hm Hrec Hres Hh Hx Hi. destruct (move_ok_facts _ _ _ Hm) as (Hp & Hnf & Hown).
  assert (Hnone : rd_terminal_receipt_id r = None).
  { pose proof (ro_receipt _ _ _ (wf_record s Hwf _ _ Hr)) as Hok. unfold receipt_ok, pending in *.
    by destruct (rd_state r). }
  (* what a record of [s'] was in [s] *)
  assert (Hback : forall k q, os_reservations s' !! k = Some q ->
    exists p, os_reservations s !! k = Some p /\ rd_token p = rd_token q /\
      (q = p \/ (k = rd_id r /\ p = r /\ q = r'))).
  { intros k q. rewrite Hres, lookup_insert_Some. intros [[<- <-]|[? ?]]; [exists r|exists q]; naive_solver. }
  destruct Hwf as [W1 W2 W3 W4 W5 W6 W7 W8].
  unfold rd_order, rd_scopes in *. constructor; unfold rd_order, rd_scopes.
  - by rewrite (si_next _ _ Hi).
  - intros k q Hq. destruct (Hback k q Hq) as (p & Hp' & _ & [-> |(-> & -> & ->)]).
    + eapply record_ok_frame; eauto.
    + eapply record_ok_frame; [done..|]. eapply record_ok_state; eauto; congruence.
  - intros key k Hk. rewrite (si_orders _ _ Hi) in Hk. destruct (W3 _ _ Hk) as (q & Hq & ->).
    rewrite Hres. destruct (decide (k = rd_id r)) as [-> |Hne].
    + rewrite lookup_insert_eq. eexists; split; [done|]. rewrite Hr in Hq. injection Hq as <-. congruence.
    + rewrite lookup_insert_ne by done. eauto.
  - intros sc h Hsc. rewrite Hh in Hsc. eauto.
  - intros k1 r1 e1 k2 r2 e2 H1 H2. destruct (Hback _ _ H1) as (p1 & ? & <- & _).
    destruct (Hback _ _ H2) as (p2 & ? & <- & _). eauto.
  - intros k1 r1 k2 r2 H1 H2 Ho Hpend Hlt.
    destruct (Hback _ _ H1) as (p1 & Hp1 & E1 & C1). destruct (Hback _ _ H2) as (p2 & Hp2 & E2 & C2).
    rewrite <- E1, <- E2 in *.
    assert (pending p1) by (destruct C1 as [-> |(_ & -> & _)]; done).
    destruct C2 as [-> |(-> & -> & ->)]; [by eapply (W6 k1 p1 k2 p2)|].
    apply pending_predecessor_false; [by apply (Hown Ho k1)|done|done].
  - intros k1 r1 e1 k2 r2 e2 H1 H2 F1 F2.
    destruct (Hback _ _ H1) as (p1 & Hp1 & E1 & C1). destruct (Hback _ _ H2) as (p2 & Hp2 & E2 & C2).
    rewrite <- E1, <- E2. destruct C1 as [-> |(_ & _ & ->)]; [|done].
    destruct C2 as [-> |(_ & _ & ->)]; [|done]. eauto.
  - intros key x Hkx. rewrite Hx in Hkx. destruct (W8 _ _ Hkx) as (k & q & e & Hq & He & -> & Hid).
    exists k, q, e. split_and!; try done. rewrite Hres, lookup_insert_ne; [done|].
    intros <-. rewrite Hr in Hq. congruence.
Qed.

Lemma wf_same s s' : ors_wf s -> os_reservations s' = os_reservations s ->
  core_heads s' = core_heads s -> os_scope_terminals s' = os_scope_terminals s ->
  same_indexes s s' -> ors_wf s'.
Proof.
  intros [W1 W2 W3 W4 W5 W6 W7 W8] Hr Hh Ht Hi.
  constructor; rewrite ?Hr, ?Hh, ?Ht, ?(si_next _ _ Hi), ?(si_orders _ _ Hi); try done.
  intros k r Hk. eapply record_ok_frame; eauto.
Qed.

Lemma scope_entry (t : WriterReservationToken) scope :
  scope ∈ token_scopes t <-> exists e, e ∈ tk_scopes t /\ rs_scope e = scope.
Proof. unfold token_scopes. rewrite list_elem_of_fmap. naive_solver. Qed.

Lemma scope_entry_unique (t : WriterReservationToken) e1 e2 : NoDup (token_scopes t) ->
  e1 ∈ tk_scopes t -> e2 ∈ tk_scopes t -> rs_scope e1 = rs_scope e2 -> e1 = e2.
Proof.
  unfold token_scopes. intros Hnd. induction (tk_scopes t) as [|e l IH]; [by intros ?%elem_of_nil|].
  rewrite fmap_cons, NoDup_cons in Hnd. destruct Hnd as [Hni Hnd]. rewrite !elem_of_cons.
  intros [-> |H1] [-> |H2] E; try done; [exfalso; apply Hni..|by apply IH].
  - rewrite E. by apply list_elem_of_fmap_2.
  - rewrite <- E. by apply list_elem_of_fmap_2.
Qed.

(** A scope head after a close: one of the closed scopes, or as before. *)
Lemma closed_head s s' (t : WriterReservationToken) d id scope :
  Forall (entry_closed d id s s') (tk_scopes t) ->
  (forall sc, sc ∉ token_scopes t -> core_heads s' !! sc = core_heads s !! sc) ->
  core_heads s' !! scope = core_heads s !! scope \/
  exists e h h', e ∈ tk_scopes t /\ rs_scope e = scope /\ core_heads s !! scope = Some h /\
    core_heads s' !! scope = Some h' /\ head_closed d e h h'.
Proof.
  intros Hf Hout. destruct (decide (scope ∈ token_scopes t)) as [Hin|Hin]; [right|left; by apply Hout].
  apply scope_entry in Hin as (e & He & <-). rewrite Forall_forall in Hf.
  destruct (Hf e He) as [(h & h' & ? & ? & ?) _]. by exists e, h, h'.
Qed.

Section Close.
Variables (s s' : OrsStore) (r r' : ReservationRecord).
Variables (d : CanonicalDisposition) (receipt_id : string).
Hypothesis Hwf : ors_wf s.
Hypothesis Hr : os_reservations s !! rd_id r = Some r.
Hypothesis Htok : rd_token r' = rd_token r.
Hypothesis Hstate : rd_state r = RsExecuting \/ rd_state r = RsReconciling.
Hypothesis Hclosed : rd_state r' = closed_state d.
Hypothesis Hid : rd_terminal_receipt_id r' = Some receipt_id.
Hypothesis Hres : os_reservations s' = <[rd_id r := r']> (os_reservations s).
Hypothesis Hent : Forall (entry_closed d receipt_id s s') (rd_scopes r).
Hypothesis Hheads : forall scope, scope ∉ token_scopes (rd_token r) ->
  core_heads s' !! scope = core_heads s !! scope.
Hypothesis Hrows : forall key, key ∉ (entry_key <$> rd_scopes r) ->
  os_scope_terminals s' !! key = os_scope_terminals s !! key.
Hypothesis Hi : same_indexes s s'.

Lemma close_pending : pending r.
Proof. unfold pending. by destruct Hstate as [-> | ->]. Qed.

Lemma close_no_receipt : rd_terminal_receipt_id r = None.
Proof.
  pose proof (ro_receipt _ _ _ (wf_record s Hwf _ _ Hr)) as Hok. unfold receipt_ok in Hok.
  by destruct Hstate as [E|E]; rewrite E in Hok.
Qed.

Lemma close_back k q : os_reservations s' !! k = Some q ->
  (k = rd_id r /\ q = r') \/ (k <> rd_id r /\ os_reservations s !! k = Some q).
Proof. rewrite Hres, lookup_insert_Some. naive_solver. Qed.

(** An entry committed before the close lies below every entry it closes. *)
Lemma committed_below k q e0 e : os_reservations s !! k = Some q -> rd_state q = RsFinalized ->
  e0 ∈ rd_scopes q -> e ∈ rd_scopes r -> rs_scope e0 = rs_scope e ->
  rs_reserved_sequence e0 <= eh_sequence (rs_expected_head e) /\
  rs_reserved_sequence e0 < rs_reserved_sequence e.
Proof.
  intros Hq Hf H0 He Es. destruct (ro_entry _ _ _ (wf_record s Hwf k q Hq) e0 H0)
    as (_ & _ & h & Hh & _ & Hc). specialize (Hc Hf).
  pose proof Hent as Hent'. rewrite Forall_forall in Hent'.
  destruct (Hent' e He) as [(h1 & h' & H1 & H' & Hhead & Hbound & _) _].
  rewrite Es in Hh. assert (h1 = h) as -> by congruence.
  pose proof (wf_heads s Hwf _ _ Hh). rewrite <- Hhead. lia.
Qed.

Lemma close_record_other k q : k <> rd_id r -> os_reservations s !! k = Some q -> record_ok s' k q.
Proof.
  intros Hne Hq. pose proof (wf_record s Hwf k q Hq) as [R1 R2 R3 R4 R5 R6 R7 R8 R9 R10 R11].
  destruct Hi as [Io Ip Ii In].
  constructor; rewrite ?Io, ?Ip, ?Ii, ?In; try done.
  - intros e0 He0. destruct (R10 e0 He0) as (Hu & Hexp & h & Hh & Hle & Hc). do 2 (split; [done|]).
    destruct (closed_head s s' _ d receipt_id (rs_scope e0) Hent Hheads)
      as [E|(e & h1 & h' & He & Es & H1 & H' & Hhead & Hb & Hr1 & Ht & Hd)].
    + exists h. by rewrite E.
    + rewrite <- Es in *. assert (h1 = h) as -> by congruence.
      exists h'. split_and!; [done|lia|]. intros Hf. specialize (Hc Hf).
      pose proof (committed_below k q e0 e Hq Hf He0 He (eq_sym Es)) as [Hbe Hbs].
      destruct d; [lia|]. by rewrite Hd.
  - intros id Hidq e0 He0. rewrite Hrows; [by apply R11|].
    intros Hin. apply list_elem_of_fmap in Hin as (e & Ek & He).
    by apply Hne, (entry_key_unique s k q e0 (rd_id r) r e Hwf).
Qed.

Lemma close_record_self : record_ok s' (rd_id r) r'.
Proof.
  pose proof (wf_record s Hwf _ _ Hr) as [R1 R2 R3 R4 R5 R6 R7 R8 R9 R10 R11].
  destruct Hi as [Io Ip Ii In]. pose proof Hent as Hent'. rewrite Forall_forall in Hent'.
  unfold rd_id, rd_order, rd_scopes in *.
  constructor; unfold rd_id, rd_order, rd_scopes; rewrite ?Htok, ?Io, ?Ip, ?Ii, ?In; try done.
  - unfold receipt_ok. rewrite Hclosed, Hid. destruct d; [by eexists|done].
  - intros e He. destruct (R10 e He) as (Hu & Hexp & h & Hh & Hle & _). do 2 (split; [done|]).
    destruct (Hent' e He) as [(h1 & h' & H1 & H' & Hhead & Hb & Hr1 & Ht & Hd) _]. simplify_eq.
    exists h'. split_and!; [done|lia|]. rewrite Hclosed. destruct d; [lia|done].
  - intros id Hid' e He. destruct (Hent' e He) as [_ (x & Hx & Hrow)]. exists x.
    rewrite Hclosed. rewrite Hid in Hid'. simplify_eq. by destruct d.
Qed.

Lemma wf_close : ors_wf s'.
Proof.
  constructor.
  - rewrite (si_next _ _ Hi). apply (wf_next s Hwf).
  - intros k q Hq. destruct (close_back k q Hq) as [[-> ->]|[Hne Hq']];
      [apply close_record_self|by apply close_record_other].
  - intros key k Hk. rewrite (si_orders _ _ Hi) in Hk.
    destruct (wf_orders s Hwf _ _ Hk) as (q & Hq & ->). rewrite Hres.
    destruct (decide (k = rd_id r)) as [-> |Hne].
    + exists r'. rewrite lookup_insert_eq. unfold rd_order. rewrite Htok. naive_solver.
    + exists q. by rewrite lookup_insert_ne.
  - intros scope h0 Hsc. destruct (closed_head s s' _ d receipt_id scope Hent Hheads)
      as [E|(e & h1 & h' & He & Es & H1 & H' & Hhead & Hb & Hr1 & Ht & Hd)].
    + rewrite E in Hsc. by apply (wf_heads s Hwf scope).
    + rewrite H' in Hsc. injection Hsc as <-. pose proof (wf_heads s Hwf _ _ H1).
      destruct d; [lia|]. rewrite Hd. lia.
  - assert (Htoks : forall k q, os_reservations s' !! k = Some q ->
      exists p, os_reservations s !! k = Some p /\ rd_token p = rd_token q).
    { intros k q Hq. destruct (close_back k q Hq) as [[-> ->]|[_ ?]]; [exists r|exists q]; auto. }
    intros k1 r1 e1 k2 r2 e2 H1 H2. destruct (Htoks _ _ H1) as (p1 & P1 & E1).
    destruct (Htoks _ _ H2) as (p2 & P2 & E2). unfold rd_order, rd_scopes. rewrite <- E1, <- E2.
    apply (wf_increasing s Hwf _ _ _ _ _ _ P1 P2).
  - intros k1 r1 k2 r2 H1 H2 Ho Hp Hlt.
    destruct (close_back _ _ H1) as [[-> ->]|[_ P1]].
    { unfold pending in Hp. rewrite Hclosed in Hp. by destruct d. }
    destruct (close_back _ _ H2) as [[-> ->]|[_ P2]]; [|by eapply (wf_owner s Hwf)].
    unfold owns_scopes in Ho. rewrite Hclosed in Ho. destruct d, Ho; done.
  - intros k1 r1 e1 k2 r2 e2 H1 H2 F1 F2 I1 I2 Es Hlt.
    destruct (close_back _ _ H1) as [[-> ->]|[_ P1]], (close_back _ _ H2) as [[-> ->]|[_ P2]].
    + unfold rd_scopes in I1, I2. rewrite Htok in I1, I2.
      pose proof (ro_distinct _ _ _ (wf_record s Hwf _ _ Hr)) as Hnd.
      rewrite (scope_entry_unique _ _ _ Hnd I1 I2 Es) in Hlt. lia.
    + unfold rd_scopes in I1. rewrite Htok in I1.
      pose proof (committed_below k2 r2 e2 e1 P2 F2 I2 I1 (eq_sym Es)). lia.
    + unfold rd_scopes in I2. rewrite Htok in I2.
      by destruct (committed_below k1 r1 e1 e2 P1 F1 I1 I2 Es).
    + by eapply (wf_chain s Hwf k1 r1 e1 k2 r2 e2).
  - intros key x Hx. destruct (decide (key ∈ entry_key <$> rd_scopes r)) as [Hin|Hin].
    + apply list_elem_of_fmap in Hin as (e & -> & He). pose proof Hent as Hent'.
      rewrite Forall_forall in Hent'. destruct (Hent' e He) as [_ (x' & Hx' & Hidx & _)].
      exists (rd_id r), r', e. rewrite Hres, lookup_insert_eq. unfold rd_scopes. rewrite Htok.
      split_and!; [done..|]. rewrite Hid. congruence.
    + rewrite Hrows in Hx by done. destruct (wf_rows s Hwf _ _ Hx) as (k & q & e & Hq & He & -> & Hidq).
      exists k, q, e. split_and!; try done. rewrite Hres, lookup_insert_ne; [done|].
      intros <-. assert (q = r) as -> by congruence. by rewrite close_no_receipt in Hidq.
Qed.
End Close.

Section Stage.
Variables (s s' : OrsStore) (t : WriterReservationToken) (b : RecoveryWriteBinding).
Hypothesis Hwf : ors_wf s.
Hypothesis Hfresh : os_reservations s !! tk_reservation_id t = None.
Hypothesis Hop : os_operations s !! tk_operation_id t = None.
Hypothesis Hb : tk_write_binding t = Some b.
Hypothesis Hidem : os_write_idempotency s !! write_idempotency_index_key b = None.
Hypothesis Hord : os_orders s !! order_key (tk_reservation_order t) = None.
Hypothesis Hnext : tk_reservation_order t = next_order s + 1.
Hypothesis Hmax : next_order s + 1 <= u64_max.
Hypothesis Hsorted : StronglySorted String.le (token_scopes t).
Hypothesis Hdistinct : NoDup (token_scopes t).
Hypothesis Hne : tk_scopes t <> [].
Hypothesis Hent : Forall (entry_staged s s') (tk_scopes t).
Hypothesis Hheads : forall scope, scope ∉ token_scopes t ->
  core_heads s' !! scope = core_heads s !! scope.
Hypothesis Hres : os_reservations s' = <[tk_reservation_id t := new_record t]> (os_reservations s).
Hypothesis Hord' :
  os_orders s' = <[order_key (tk_reservation_order t) := tk_reservation_id t]> (os_orders s).
Hypothesis Hop' : os_operations s' = <[tk_operation_id t := tk_reservation_id t]> (os_operations s).
Hypothesis Hidem' : os_write_idempotency s' =
  <[write_idempotency_index_key b := tk_operation_id t]> (os_write_idempotency s).
Hypothesis Hrows : os_scope_terminals s' = os_scope_terminals s.
Hypothesis Hnext' : next_order s' = tk_reservation_order t.

Lemma stage_back k q : os_reservations s' !! k = Some q ->
  (k = tk_reservation_id t /\ q = new_record t) \/
  (k <> tk_reservation_id t /\ os_reservations s !! k = Some q).
Proof. rewrite Hres, lookup_insert_Some. naive_solver. Qed.

(** A scope head after staging keeps its canonical head and terminal mark. *)
Lemma staged_head scope h : core_heads s !! scope = Some h ->
  exists h', core_heads s' !! scope = Some h' /\ hc_head h' = hc_head h /\
    hc_terminal h' = hc_terminal h /\ hc_reserved h <= hc_reserved h'.
Proof.
  intros Hh. destruct (decide (scope ∈ token_scopes t)) as [Hin|Hin].
  - apply scope_entry in Hin as (e & He & <-). pose proof Hent as Hent'. rewrite Forall_forall in Hent'.
    destruct (Hent' e He) as (_ & Hhd & Hseq & Hs'). eexists; split; [done|].
    unfold base_core in *. rewrite Hh in *. simpl in *. split_and!; [done|done|lia].
  - exists h. rewrite Hheads by done. split_and!; done || lia.
Qed.

(** What a scope was reserved to before lies below the new sequence. *)
Lemma reserved_below k q e0 e : os_reservations s !! k = Some q -> e0 ∈ rd_scopes q ->
  e ∈ tk_scopes t -> rs_scope e0 = rs_scope e -> rs_reserved_sequence e0 < rs_reserved_sequence e.
Proof.
  intros Hq H0 He Es. destruct (ro_entry _ _ _ (wf_record s Hwf k q Hq) e0 H0)
    as (_ & _ & h & Hh & Hle & _). pose proof Hent as Hent'. rewrite Forall_forall in Hent'.
  destruct (Hent' e He) as (_ & _ & Hseq & _). unfold base_core in Hseq.
  rewrite <- Es, Hh in Hseq. simpl in Hseq. lia.
Qed.

Lemma base_core_ok e : e ∈ tk_scopes t ->
  eh_sequence (hc_head (base_core s e)) <= hc_terminal (base_core s e) <= hc_reserved (base_core s e).
Proof.
  intros He. unfold base_core. destruct (core_heads s !! rs_scope e) as [h|] eqn:E; simpl; [|lia].
  by apply (wf_heads s Hwf (rs_scope e)).
Qed.

Lemma stage_record_old k q : k <> tk_reservation_id t -> os_reservations s !! k = Some q ->
  record_ok s' k q.
Proof.
  intros Hnk Hq. pose proof (wf_record s Hwf k q Hq) as [R1 R2 R3 R4 R5 R6 R7 R8 R9 R10 R11].
  constructor; rewrite ?Hord', ?Hop', ?Hidem', ?Hnext', ?Hrows; try done.
  - rewrite Hnext. lia.
  - rewrite lookup_insert_ne; [done|]. intros E. rewrite E in Hord. congruence.
  - rewrite lookup_insert_ne; [done|]. intros E. rewrite E in Hop. congruence.
  - destruct R5 as (bq & ? & Hbq). exists bq. split; [done|].
    rewrite lookup_insert_ne; [done|]. intros E. rewrite E in Hidem. congruence.
  - intros e He. destruct (R10 e He) as (Hu & Hexp & h & Hh & Hle & Hc). do 2 (split; [done|]).
    destruct (staged_head _ _ Hh) as (h' & Hh' & Ehd & _ & Hr). exists h'.
    split_and!; [done|lia|]. by rewrite Ehd.
Qed.

Lemma stage_record_new : record_ok s' (tk_reservation_id t) (new_record t).
Proof.
  pose proof (wf_next s Hwf). pose proof Hent as Hent'. rewrite Forall_forall in Hent'.
  constructor; unfold rd_id, rd_order, rd_scopes; simpl;
    rewrite ?Hord', ?Hop', ?Hidem', ?Hnext', ?lookup_insert_eq; try done.
  - lia.
  - exists b. by rewrite lookup_insert_eq.
  - intros e He. destruct (Hent' e He) as (Hu & Hhd & Hseq & Hs'). pose proof (base_core_ok e He) as Hbc.
    rewrite Hhd in Hbc. split_and!; [done|lia|]. eexists; split; [done|]. simpl. split; [lia|done].
Qed.

Lemma wf_stage : ors_wf s'.
Proof.
  pose proof (wf_next s Hwf) as Hn. pose proof Hent as Hent'. rewrite Forall_forall in Hent'.
  assert (Hbelow : forall k q, os_reservations s !! k = Some q -> rd_order q < tk_reservation_order t).
  { intros k q Hq. destruct (ro_bound _ _ _ (wf_record s Hwf k q Hq)). lia. }
  constructor.
  - lia.
  - intros k q Hq. destruct (stage_back k q Hq) as [[-> ->]|[Hnk Hq']];
      [apply stage_record_new|by apply stage_record_old].
  - intros key k. rewrite Hord', lookup_insert_Some. intros [[<- <-]|[Hnk Hk]].
    + exists (new_record t). by rewrite Hres, lookup_insert_eq.
    + destruct (wf_orders s Hwf _ _ Hk) as (q & Hq & ->). exists q. split; [|done].
      rewrite Hres, lookup_insert_ne; [done|]. intros <-. congruence.
  - intros scope h Hsc. destruct (decide (scope ∈ token_scopes t)) as [Hin|Hin].
    + apply scope_entry in Hin as (e & He & <-). destruct (Hent' e He) as (_ & Hhd & Hseq & Hs').
      rewrite Hs' in Hsc. injection Hsc as <-. simpl. pose proof (base_core_ok e He) as Hbc.
      rewrite Hhd in Hbc. lia.
    + rewrite Hheads in Hsc by done. by apply (wf_heads s Hwf scope).
  - intros k1 r1 e1 k2 r2 e2 H1 H2 I1 I2 Es Hlt.
    destruct (stage_back _ _ H1) as [[-> ->]|[_ P1]], (stage_back _ _ H2) as [[-> ->]|[_ P2]].
    + unfold rd_order in Hlt. lia.
    + specialize (Hbelow _ _ P2). unfold rd_order in *. simpl in *. lia.
    + by eapply reserved_below.
    + by eapply (wf_increasing s Hwf k1 r1 e1 k2 r2 e2).
  - intros k1 r1 k2 r2 H1 H2 Ho Hp Hlt.
    destruct (stage_back _ _ H2) as [[-> ->]|[_ P2]]; [by destruct Ho|].
    destruct (stage_back _ _ H1) as [[-> ->]|[_ P1]].
    + specialize (Hbelow _ _ P2). unfold rd_order in *. simpl in *. lia.
    + by eapply (wf_owner s Hwf k1 r1 k2 r2).
  - intros k1 r1 e1 k2 r2 e2 H1 H2 F1 F2 I1 I2 Es Hlt.
    destruct (stage_back _ _ H1) as [[-> ->]|[_ P1]]; [done|].
    destruct (stage_back _ _ H2) as [[-> ->]|[_ P2]]; [done|].
    by eapply (wf_chain s Hwf k1 r1 e1 k2 r2 e2).
  - intros key x Hx. rewrite Hrows in Hx.
    destruct (wf_rows s Hwf _ _ Hx) as (k & q & e & Hq & He & -> & Hid).
    exists k, q, e. split_and!; try done. rewrite Hres, lookup_insert_ne; [done|]. intros <-. congruence.
Qed.
End Stage.

(** *** Every small step *)

Lemma rstep_wf s s' : ors_wf s -> rstep s s' -> ors_wf s'.
Proof.
  intros Hwf Hstep. destruct Hstep.
  - by eapply wf_move.
  - by eapply wf_same.
  - by eapply wf_same.
  - by eapply wf_close.
  - by eapply wf_stage.
Qed.

Lemma rsteps_wf s s' : ors_wf s -> rtc rstep s s' -> ors_wf s'.
Proof. intros Hwf Hsteps. revert Hwf. induction Hsteps; eauto using rstep_wf. Qed.

(** A closed reservation stays exactly as it is. *)
Lemma rstep_terminal s s' k r : ors_wf s -> rstep s s' ->
  os_reservations s !! k = Some r -> ~ pending r -> os_reservations s' !! k = Some r.
Proof.
  intros Hwf Hstep Hk Hp. destruct Hstep; try congruence.
  - destruct (move_ok_facts _ _ _ ltac:(eassumption)) as (Hpr & _).
    destruct (decide (rd_id r0 = k)) as [<- |]; [congruence|].
    match goal with E : os_reservations s' = _ |- _ => rewrite E end. by rewrite lookup_insert_ne.
  - destruct (decide (rd_id r0 = k)) as [<- |].
    { assert (r0 = r) as -> by congruence. exfalso. apply Hp. unfold pending.
      destruct_or!; match goal with E : rd_state r = _ |- _ => by rewrite E end. }
    match goal with E : os_reservations s' = _ |- _ => rewrite E end. by rewrite lookup_insert_ne.
  - match goal with E : os_reservations s' = _ |- _ => rewrite E end.
    rewrite lookup_insert_ne; [done|]. intros <-. congruence.
Qed.

(** *** Envelopes *)

(** A retained envelope carries its reservation's binding. *)
Definition envelopes_ok s : Prop := forall k r (e : RecoveryPayloadEnvelope),
  os_reservations s !! k = Some r -> os_envelopes s !! tk_operation_id (rd_token r) = Some e ->
  en_write_binding e = tk_write_binding (rd_token r).

(** What a small step does to one reservation: its token stays, a closed one
    stays closed, and its envelope stays until it is closed. *)
Lemma rstep_record s s' k r : ors_wf s -> rstep s s' -> os_reservations s !! k = Some r ->
  exists r', os_reservations s' !! k = Some r' /\ rd_token r' = rd_token r /\
    (~ pending r -> r' = r) /\
    (os_envelopes s' !! tk_operation_id (rd_token r) = os_envelopes s !! tk_operation_id (rd_token r) \/
     os_envelopes s' !! tk_operation_id (rd_token r) = None /\ ~ pending r').
Proof.
  intros Hwf Hstep Hk. pose proof (rstep_terminal s s' k r Hwf Hstep Hk) as Hterm.
  pose proof (ro_operation _ _ _ (wf_record s Hwf k r Hk)) as Hop.
  destruct Hstep as [r0 r1 Hr Ht Hm Hrec Hres Hh Hx He Hi|Hres Hh Hx He Hi|r0 Hr Hp Hres Hh Hx He Hi
    |r0 r1 d id Hr Ht Hst Hcl Hrec Hres Hent Hh Hx He Hi|t env b].
  - destruct (decide (rd_id r0 = k)) as [<- |Hne].
    + assert (r0 = r) as -> by congruence. exists r1. rewrite Hres, lookup_insert_eq, He.
      split_and!; try done; [|by left]. intros Hp. destruct (move_ok_facts _ _ _ Hm) as (? & _). done.
    + exists r. rewrite Hres, lookup_insert_ne, He by done. auto.
  - exists r. rewrite Hres, He. auto.
  - exists r. rewrite Hres, He. split_and!; try done.
    destruct (decide (tk_operation_id (rd_token r0) = tk_operation_id (rd_token r))) as [E|E].
    + right. rewrite E, lookup_delete_eq. split; [done|].
      pose proof (ro_operation _ _ _ (wf_record s Hwf _ _ Hr)) as Hop0. rewrite E in Hop0.
      assert (rd_id r0 = k) as <- by congruence. by assert (r0 = r) as <- by congruence.
    + left. by rewrite lookup_delete_ne.
  - destruct (decide (rd_id r0 = k)) as [<- |Hne].
    + assert (r0 = r) as -> by congruence. exists r1. rewrite Hres, lookup_insert_eq, He.
      split_and!; try done; [|by left]. intros Hp. exfalso. apply Hp. unfold pending.
      by destruct Hst as [-> | ->].
    + exists r. rewrite Hres, lookup_insert_ne, He by done. auto.
  - exists r. match goal with E : os_reservations s' = _ |- _ => rewrite E end.
    match goal with E : os_envelopes s' = _ |- _ => rewrite E end.
    rewrite !lookup_insert_ne; [auto| |]; intros E; congruence.
Qed.

Lemma rstep_envelopes s s' : ors_wf s -> rstep s s' -> envelopes_ok s -> envelopes_ok s'.
Proof.
  intros Hwf Hstep Hok k r' e Hk He.
  destruct (os_reservations s !! k) as [r|] eqn:Hr.
  - destruct (rstep_record s s' k r Hwf Hstep Hr) as (r1 & H1 & Ht & _ & [E|[E _]]);
      assert (r1 = r') as -> by congruence; rewrite Ht in *; [|congruence].
    rewrite E in He. by eapply Hok.
  - destruct Hstep as [r0 r1 Hr0 ? ? ? Hres|Hres|? ? ? Hres|r0 r1 ? ? Hr0 ? ? ? ? Hres|t env b ? ? ? Hb Hbe].
    1, 4: rewrite Hres, lookup_insert_Some in Hk; destruct Hk as [[<- _]|[_ ?]]; congruence.
    1, 2: congruence.
    repeat match goal with E : _ s' = _ |- _ => rewrite E in * end.
    rewrite lookup_insert_Some in Hk. destruct Hk as [[<- <-]|[_ ?]]; [|congruence].
    simpl in *. rewrite lookup_insert_eq in He. congruence.
Qed.

(** The index rows of a reservation never move. *)
Lemma rstep_indexes s s' : rstep s s' ->
  (forall k v, os_operations s !! k = Some v -> os_operations s' !! k = Some v) /\
  (forall k v, os_write_idempotency s !! k = Some v -> os_write_idempotency s' !! k = Some v).
Proof.
  intros [r0 r1 ? ? ? ? ? ? ? ? Hi|? ? ? ? Hi|? ? ? ? ? ? ? Hi|? ? ? ? ? ? ? ? ? ? ? ? ? ? Hi|t env b].
  1-4: by rewrite (si_operations _ _ Hi), (si_idempotency _ _ Hi).
  repeat match goal with E : _ s' = _ |- _ => rewrite E end.
  split; intros k v Hk; rewrite lookup_insert_ne; try done; intros <-; congruence.
Qed.

(** The key of every row is a label. *)
Definition labels_ok s : Prop := forall k r, os_reservations s !! k = Some r -> label_ok k.

Lemma rstep_labels s s' : rstep s s' -> labels_ok s -> labels_ok s'.
Proof.
  intros Hstep Hok k r Hk.
  destruct Hstep as [r0 r1 Hr ? ? ? Hres|Hres|? ? ? Hres|r0 r1 ? ? Hr ? ? ? ? Hres|t env b Hl].
  1, 4: rewrite Hres, lookup_insert_Some in Hk; destruct Hk as [[<- _]|[_ ?]]; by eapply Hok.
  1, 2: rewrite Hres in Hk; by eapply Hok.
  repeat match goal with E : os_reservations s' = _ |- _ => rewrite E in Hk end.
  rewrite lookup_insert_Some in Hk. destruct Hk as [[<- _]|[_ ?]]; [done|by eapply Hok].
Qed.
End Invariant.
