(* ===== verification/OrsSteps.v ===== *)
(** * Operations as small steps

    Every operation of [OrsStore] leaves the tables where a chain of small
    steps of [OrsLaws] leaves them, whatever its commit reported; so a store
    reached by any sequence of calls satisfies the invariant. *)

From Stdlib Require Import String.
From stdpp Require Import relations.
From S2P Require Import Prelude RustText Contracts Receipts OrsModel OrsStore OrsLaws.

#[local] Open Scope string_scope.
#[local] Open Scope list_scope.
#[local] Open Scope Z_scope.

(** ** Transactions *)

Lemma transact_store {A} c (body : OM (TxEnd A)) s s1 res : transact c body s = (s1, res) ->
  s1 = s \/ exists a, body s = (s1, Ok (TxCommit a)).
Proof.
  unfold transact. destruct (body s) as [s' [[a|a]|e]]; intros [= <- _]; [by left| |by left].
  unfold after_commit. destruct c as [|? []]; [right|right|left]; eauto.
Qed.

Lemma transact_ok {A} c (body : OM (TxEnd A)) s s1 a : transact c body s = (s1, Ok a) ->
  (s1 = s /\ exists s', body s = (s', Ok (TxReturn a))) \/
  (c = CommitOk /\ body s = (s1, Ok (TxCommit a))).
Proof.
  unfold transact. destruct (body s) as [s' [[b|b]|e]]; [|destruct c|]; naive_solver.
Qed.

(** ** Heads *)

Section Heads.
Implicit Types (h : Heads).

Lemma heads_insert_core h k x y : h !! k = Some x -> head_core y = head_core x ->
  head_core <$> (<[k := y]> h) = head_core <$> h.
Proof. intros Hk E. rewrite fmap_insert, E. apply insert_id. by rewrite lookup_fmap, Hk. Qed.

(** A fold whose steps rewrite present heads up to their flags. *)
Lemma fold_heads_core (f : Heads -> string -> OrsR Heads) l h h' :
  (forall acc scope acc', f acc scope = Ok acc' ->
     exists x y, acc !! scope = Some x /\ acc' = <[scope := y]> acc /\ head_core y = head_core x) ->
  fold_res f h l = Ok h' -> head_core <$> h' = head_core <$> h.
Proof.
  intros Hf. apply (fold_res_inv (fun h' => head_core <$> h' = head_core <$> h)); [|done].
  intros acc scope acc' _ Hacc Hs. destruct (Hf _ _ _ Hs) as (x & y & Hx & -> & E).
  by rewrite (heads_insert_core acc scope x).
Qed.

Lemma block_scopes_core missing l h h' :
  block_scopes missing l h = Ok h' -> head_core <$> h' = head_core <$> h.
Proof.
  apply fold_heads_core. intros acc scope acc' Hs. destruct (acc !! scope) as [x|]; [|done].
  injection Hs as <-. by eexists _, _.
Qed.

Lemma fence_heads_core successor reservations l h h' :
  fold_res (fence_head successor reservations) h l = Ok h' -> head_core <$> h' = head_core <$> h.
Proof.
  apply fold_heads_core. unfold fence_head. intros acc scope acc' Hs.
  destruct (acc !! scope) as [x|]; [|done]. simpl in Hs. next_check Hs Hg. injection Hs as <-.
  by eexists _, _.
Qed.

Lemma clear_heads_core (blocked : string -> bool) (missing : OrsError) l h h' :
  fold_res (fun acc scope => let? head := ok_or (acc !! scope) missing in
                             Ok (<[scope := set_recovery_blocked (blocked scope) head]> acc)) h l
  = Ok h' -> head_core <$> h' = head_core <$> h.
Proof.
  apply fold_heads_core. intros acc scope acc' Hs. destruct (acc !! scope) as [x|]; [|done].
  injection Hs as <-. by eexists _, _.
Qed.
End Heads.

(** ** The lifecycle *)

Section Steps.
Context `{OrsWire}.
Implicit Types (s : OrsStore) (t : WriterReservationToken) (r : ReservationRecord).

Lemma load_record_ok s id r : load_record s id = Ok r -> os_reservations s !! id = Some r.
Proof. unfold load_record. by destruct (os_reservations s !! id); intros [= ->]. Qed.

Lemma validate_token_ok r t : validate_token r t = Ok tt -> rd_token r = t.
Proof. unfold validate_token. rewrite guard_err_ok. intros ?. by bool_facts. Qed.

Lemma ensure_no_predecessor_ok s t : ensure_no_predecessor s t = Ok tt <-> no_predecessor s t.
Proof.
  unfold ensure_no_predecessor, no_predecessor. rewrite guard_err_ok, existsb_false_iff, Forall_forall.
  split; intros Hall.
  - intros k p Hk. apply Hall, btree_values_elem. by exists k.
  - intros p Hp. apply btree_values_elem in Hp as [k Hk]. by apply (Hall k).
Qed.

Lemma same_indexes_refl s : same_indexes s s.
Proof. by constructor. Qed.

(** A replaced record and whatever flags and revisions change with it. *)
Lemma move_step s s' t r r' :
  os_reservations s !! tk_reservation_id t = Some r -> rd_token r = t -> rd_token r' = t ->
  move_ok s r (rd_state r') -> rd_terminal_receipt_id r' = rd_terminal_receipt_id r ->
  os_reservations s' = <[tk_reservation_id t := r']> (os_reservations s) ->
  core_heads s' = core_heads s -> os_scope_terminals s' = os_scope_terminals s ->
  os_envelopes s' = os_envelopes s -> same_indexes s s' -> rstep s s'.
Proof. intros Hr <- Ht' Hm Hid Hres Hh Hx He Hi. by apply (StepMove s s' r r'). Qed.

Lemma bump_reservations_ok s s' : bump_reservations_revision s = (s', Ok tt) ->
  exists n, s' = set_meta (os_next_global_order s) n (os_write_idempotency_revision s) s.
Proof. unfold bump_reservations_revision. destruct (next_revision _ _); naive_solver. Qed.

Ltac tx_body Hb :=
  unfold_monad; simpl in Hb;
  destruct (load_record _ _) as [r|] eqn:Hload; [|done]; simpl in Hb;
  destruct (validate_token r _) as [[]|] eqn:Htok; [|done]; simpl in Hb;
  apply load_record_ok in Hload; apply validate_token_ok in Htok.

(** Past the revision bump at the end of a body. *)
Ltac after_bump Hb :=
  destruct (bump_reservations_revision _) as [s2 [[]|]] eqn:Hbump; [|done]; simplify_eq/=;
  apply bump_reservations_ok in Hbump as [n ->].

(** One record moved to [r'], everything else as it was. *)
Ltac move_to r' :=
  match goal with
  | Est : rd_state ?r = _ |- rstep ?s _ =>
      eapply (move_step s _ (rd_token r) r r'); try done; unfold move_ok; rewrite Est
  end.

(** A check made before the transaction is opened. *)
Ltac past_guard Hx :=
  unfold mseq at 1 in Hx; unfold mlift at 1 in Hx; cbv beta in Hx;
  match type of Hx with
  | (match ?g with _ => _ end) = _ =>
      destruct g as [[]|] eqn:?; [|injection Hx as <- _; by constructor]
  | (let '(_, _) := (_, ?g) in _) = _ =>
      destruct g as [[]|] eqn:?; [|injection Hx as <- _; by constructor]
  end.

Lemma mark_eligible_steps c t s s' res : mark_eligible c t s = (s', res) -> rtc rstep s s'.
Proof.
  unfold mark_eligible. intros Hx. apply transact_store in Hx as [-> |[a Hb]]; [constructor|].
  apply rtc_once. tx_body Hb. destruct (rd_state r) eqn:Est; try done.
  destruct (ensure_no_predecessor s t) as [[]|] eqn:Hn; [|done]. simpl in Hb.
  destruct (ensure_canonical_heads s t) as [[]|] eqn:Hc; [|done]. simpl in Hb.
  after_bump Hb. apply ensure_no_predecessor_ok in Hn. by move_to (set_rd_state RsEligible r).
Qed.

Lemma begin_execute_steps c t epoch s s' res :
  begin_execute c t epoch s = (s', res) -> rtc rstep s s'.
Proof.
  unfold begin_execute. intros Hx. past_guard Hx.
  apply transact_store in Hx as [-> |[a Hb]]; [constructor|].
  apply rtc_once. tx_body Hb. destruct (rd_state r) eqn:Est; try done.
  destruct (ensure_no_predecessor s t) as [[]|] eqn:Hn; [|done]. simpl in Hb.
  destruct (ensure_canonical_heads s t) as [[]|] eqn:Hc; [|done]. simpl in Hb.
  after_bump Hb. apply ensure_no_predecessor_ok in Hn. by move_to (set_rd_state RsExecuting r).
Qed.

Lemma begin_execute_executing c t epoch s s' rec : begin_execute c t epoch s = (s', Ok rec) ->
  exists r, os_reservations s' !! tk_reservation_id t = Some r /\ rd_token r = t /\
    rd_state r = RsExecuting.
Proof.
  unfold begin_execute. unfold mseq at 1, mlift at 1. intros Hx.
  destruct (require_writer_epoch t epoch) as [[]|]; [|done].
  apply transact_ok in Hx as [(-> & s1 & Hb)|[_ Hb]]; tx_body Hb;
    destruct (rd_state r) eqn:Est; try done.
  all: try (destruct (ensure_no_predecessor s t) as [[]|]; [|done]; simpl in Hb;
    destruct (ensure_canonical_heads s t) as [[]|]; [|done]; simpl in Hb; after_bump Hb).
  - eauto.
  - exists (set_rd_state RsExecuting r). simpl. by rewrite lookup_insert_eq.
Qed.

Lemma release_steps c t epoch s s' res : release c t epoch s = (s', res) -> rtc rstep s s'.
Proof.
  unfold release. intros Hx. past_guard Hx.
  apply transact_store in Hx as [-> |[a Hb]]; [constructor|].
  apply rtc_once. tx_body Hb.
  destruct (rd_state r) eqn:Est; try done; [| |by case_bool_decide].
  all: after_bump Hb; by move_to (set_rd_state RsReleased r).
Qed.

Lemma mark_unknown_steps c t epoch reason s s' res :
  mark_unknown c t epoch reason s = (s', res) -> rtc rstep s s'.
Proof.
  unfold mark_unknown. intros Hx. past_guard Hx.
  apply transact_store in Hx as [-> |[a Hb]]; [constructor|].
  apply rtc_once. tx_body Hb.
  destruct (rd_state r) eqn:Est; try done; [|by case_bool_decide].
  after_bump Hb. unfold put_scope_heads in Hb. simpl in Hb.
  destruct (block_scopes _ _ _) as [heads|] eqn:Hbl; [|done]. simplify_eq/=.
  apply block_scopes_core in Hbl. by move_to (set_rd_unknown reason r).
Qed.

Lemma expire_steps c t now owner s s' res : expire c t now owner s = (s', res) -> rtc rstep s s'.
Proof.
  unfold expire. intros Hx. past_guard Hx. past_guard Hx.
  apply transact_store in Hx as [-> |[a Hb]]; [constructor|].
  apply rtc_once. tx_body Hb. destruct (reservation_is_terminal (rd_state r)) eqn:Et; [|done].
  simpl in Hb. injection Hb as <- <-. subst t. apply (StepForget s _ r); try done. unfold pending. congruence.
Qed.

(** *** Reconciliation *)

(** An observation that answers one reserved scope. *)
Record aligned (receipt_id : string) (e : ReservedScope) (o : CanonicalScopeObservation) : Prop := {
  al_scope : ob_scope o = rs_scope e;
  al_prior : ob_prior_head o = rs_expected_head e;
  al_sequence : ob_committed_sequence o = rs_reserved_sequence e;
  al_receipt : ob_receipt_id o = receipt_id;
}.

Lemma for_each_zip {A B E} (f : A * B -> result E unit) (P : A -> B -> Prop) l l' :
  usize_of_len l' = usize_of_len l -> (forall a b, f (a, b) = Ok tt -> P a b) ->
  for_each f (zip l l') = Ok tt -> Forall2 P l l'.
Proof.
  unfold usize_of_len. intros Hlen Hp. revert l' Hlen.
  induction l as [|a l IH]; intros [|b l'] Hlen Hf; simpl in *; try lia; [constructor|].
  next_check Hf Hab. constructor; [by apply Hp|]. apply IH; [lia|done].
Qed.

Lemma reconciliation_matches_aligned t c : reconciliation_matches t c = Ok tt ->
  Forall2 (aligned (ri_receipt_id (re_identity (cr_receipt c)))) (tk_scopes t) (cr_scopes c) /\
  cr_reservation_id c = tk_reservation_id t.
Proof.
  unfold reconciliation_matches. intros Hm. apply rbind_ok in Hm as (b & _ & Hm).
  next_check Hm Hv. next_check Hm Hid. apply rbind_ok in Hm as (f & _ & Hm).
  do 3 (apply rbind_ok in Hm as ([] & _ & Hm)). rewrite guard_err_ok in Hid. bool_facts.
  split; [|done]. eapply for_each_zip; [done| |exact Hm]. intros e o Ho. simpl in Ho.
  unfold observation_matches in Ho. do 3 (apply rbind_ok in Ho as ([] & _ & Ho)).
  rewrite guard_err_ok in Ho. bool_facts. by constructor.
Qed.

Lemma record_terminal_ok c heads terminals o heads' terminals' e :
  aligned (ri_receipt_id (re_identity (cr_receipt c))) e o ->
  record_terminal c (heads, terminals) o = Ok (heads', terminals') ->
  exists h h' x, heads !! rs_scope e = Some h /\ heads' = <[rs_scope e := h']> heads /\
    terminals' = <[entry_key e := x]> terminals /\
    head_closed (cr_disposition c) e (head_core h) (head_core h') /\
    row_closes (cr_disposition c) (ri_receipt_id (re_identity (cr_receipt c))) x.
Proof.
  intros [Hs Hp Hq Hr]. unfold record_terminal. rewrite Hs, Hp, Hq, Hr.
  destruct (heads !! rs_scope e) as [h|]; [|done]. simpl. intros Hg. next_check Hg Hc.
  rewrite guard_err_ok in Hc. bool_facts. injection Hg as <- <-.
  eexists h, _, _. split_and!; try done. unfold head_closed. simpl.
  destruct (cr_disposition c); simpl; split_and!; done || lia.
Qed.

(** The fold over the observations, for scopes with distinct keys. *)
Lemma record_terminals_ok c es os heads terminals heads' terminals' :
  Forall2 (aligned (ri_receipt_id (re_identity (cr_receipt c)))) es os ->
  NoDup (rs_scope <$> es) -> NoDup (entry_key <$> es) ->
  fold_res (record_terminal c) (heads, terminals) os = Ok (heads', terminals') ->
  Forall (fun e => (exists h h', heads !! rs_scope e = Some h /\ heads' !! rs_scope e = Some h' /\
                      head_closed (cr_disposition c) e (head_core h) (head_core h')) /\
                   exists x, terminals' !! entry_key e = Some x /\
                     row_closes (cr_disposition c) (ri_receipt_id (re_identity (cr_receipt c))) x) es /\
  (forall scope, scope ∉ rs_scope <$> es -> heads' !! scope = heads !! scope) /\
  (forall key, key ∉ entry_key <$> es -> terminals' !! key = terminals !! key).
Proof.
  intros Hal. revert heads terminals. induction Hal as [|e o es os Ha Hal IH];
    intros heads terminals Hnd Hnk Hf.
  { injection Hf as <- <-. split_and!; done || constructor. }
  rewrite fmap_cons, NoDup_cons in Hnd, Hnk. destruct Hnd as [Hni Hnd], Hnk as [Hnik Hnk].
  cbn [fold_res] in Hf. apply rbind_ok in Hf as ([heads1 terms1] & E & Hf).
  destruct (record_terminal_ok _ _ _ _ _ _ _ Ha E) as (h & h' & x & Hh & -> & -> & Hc & Hx).
  destruct (IH _ _ Hnd Hnk Hf) as (Hall & Hout & Houtk). clear IH Hf E.
  split_and!.
  - constructor.
    + rewrite (Hout _ Hni), (Houtk _ Hnik), !lookup_insert_eq. split; [by exists h, h'|by exists x].
    + eapply Forall_impl; [rewrite Forall_forall in Hall; apply Forall_forall; intros e1 He1;
        exact (conj He1 (Hall e1 He1))|].
      intros e1 (He1 & (h1 & h1' & Hl & ?) & ?). split; [|done]. exists h1, h1'.
      rewrite lookup_insert_ne in Hl; [done|]. intros Es. apply Hni. rewrite Es.
      by apply list_elem_of_fmap_2.
  - intros scope. rewrite fmap_cons, not_elem_of_cons. intros [Hne Hin].
    rewrite Hout by done. by rewrite lookup_insert_ne.
  - intros key. rewrite fmap_cons, not_elem_of_cons. intros [Hne Hin].
    rewrite Houtk by done. by rewrite lookup_insert_ne.
Qed.

Lemma entry_keys_distinct s k r : record_ok s k r -> NoDup (entry_key <$> rd_scopes r).
Proof.
  intros Hr. pose proof (ro_distinct _ _ _ Hr) as Hnd. pose proof (ro_entry _ _ _ Hr) as He.
  unfold token_scopes, rd_scopes in *. clear Hr. induction (tk_scopes (rd_token r)) as [|e l IH];
    [constructor|].
  rewrite fmap_cons, NoDup_cons in Hnd |- *. destruct Hnd as [Hni Hnd]. split.
  - intros Hin. apply list_elem_of_fmap in Hin as (e1 & Ek & He1). apply Hni.
    destruct (He e ltac:(left)) as [U _]. destruct (He e1 ltac:(by right)) as [U1 _].
    apply terminal_key_inj in Ek as [Es _]; [|done|done]. rewrite Es. by apply list_elem_of_fmap_2.
  - apply IH; [done|]. intros e1 He1. apply He. by right.
Qed.

Lemma reconcile_steps `{CanonicalEvidence} commit c s s' res : ors_wf s ->
  reconcile commit c s = (s', res) -> rtc rstep s s'.
Proof.
  intros Hwf. unfold reconcile. intros Hx. apply transact_store in Hx as [-> |[a Hb]]; [constructor|].
  apply rtc_once. unfold_monad. simpl in Hb.
  destruct (load_record _ _) as [r|] eqn:Hload; [|done]. simpl in Hb. apply load_record_ok in Hload.
  destruct (reservation_is_terminal (rd_state r)).
  { destruct (_ && _); [|done]. by destruct (verify_reconciliation _ _). }
  destruct (negb _) eqn:Hst in Hb; [done|].
  destruct (reconciliation_matches _ _) as [[]|] eqn:Hm; [|done]. simpl in Hb.
  destruct (verify_reconciliation _ _) as [[]|]; [|done]. simpl in Hb.
  destruct (OpaqueLabel_new _) as [label|] eqn:Hlab; [|done]. simpl in Hb.
  assert (label = ri_receipt_id (re_identity (cr_receipt c))) as ->.
  { unfold OpaqueLabel_new in Hlab. apply rbind_ok in Hlab as (_ & _ & Hlab). by injection Hlab. }
  apply reconciliation_matches_aligned in Hm as [Hal Hrid].
  pose proof (wf_record s Hwf _ _ Hload) as Hok.
  destruct (bump_reservations_revision _) as [s2 [[]|]] eqn:Hbump; [|done].
  apply bump_reservations_ok in Hbump as [n ->]. unfold record_scope_terminals in Hb. simpl in Hb.
  destruct (fold_res (record_terminal c) _ _) as [[heads terms]|] eqn:Hf; [|done]. simpl in Hb.
  unfold clear_recovery_blocks, put_scope_heads in Hb. simpl in Hb.
  destruct (fold_res _ heads _) as [heads'|] eqn:Hcl; [|done]. simpl in Hb. injection Hb as <- _.
  apply (clear_heads_core (still_blocked _ _)) in Hcl.
  destruct (record_terminals_ok _ _ _ _ _ _ _ Hal (ro_distinct _ _ _ Hok)
    (entry_keys_distinct _ _ _ Hok) Hf) as (Hall & Hout & Houtk).
  assert (Hlook : forall sc, (head_core <$> heads') !! sc = head_core <$> (heads !! sc))
    by (intros; by rewrite Hcl, lookup_fmap).
  apply (StepClose s _ r (closed_record c (ri_receipt_id (re_identity (cr_receipt c))) r)
           (cr_disposition c) (ri_receipt_id (re_identity (cr_receipt c)))); try done.
  - by rewrite <- (ro_key _ _ _ Hok) in Hload.
  - apply negb_false_iff, orb_true_iff in Hst. destruct Hst; bool_facts; auto.
  - eapply Forall_impl; [exact Hall|]. intros e [(h & h' & H1 & H2 & H3) Hx]. split; [|done].
    exists (head_core h), (head_core h'). unfold core_heads. simpl. rewrite Hlook, lookup_fmap, H1, H2.
    done.
  - intros scope Hsc. unfold core_heads. simpl. rewrite Hlook, lookup_fmap. f_equal. by apply Hout.
Qed.

(** *** Pages of unknown outcomes *)

Lemma page_of_elem select (m : gmap string ReservationRecord) row :
  row ∈ page_of select m -> m !! row.1 = Some row.2 /\ select row.2 = true.
Proof.
  unfold page_of. intros Hin. eapply elem_of_take in Hin as (i & Hi & _).
  apply list_elem_of_lookup_2 in Hi. apply list_elem_of_In, filter_In in Hi as [Hi Hs].
  apply list_elem_of_In in Hi. destruct row as [k r]. by apply btree_iter_lookup in Hi.
Qed.

Lemma page_of_NoDup select (m : gmap string ReservationRecord) : NoDup (page_of select m).*1.
Proof.
  unfold page_of. rewrite fmap_take. eapply sublist_NoDup; [|apply sublist_take].
  pose proof (btree_iter_NoDup m) as Hnd. induction (btree_iter m) as [|[k r] l IH]; simpl; [constructor|].
  rewrite fmap_cons, NoDup_cons in Hnd. destruct Hnd as [Hni Hnd]. specialize (IH Hnd).
  destruct (select r); [|done]. rewrite fmap_cons, NoDup_cons. split; [|done]. intros Hin. apply Hni.
  simpl in Hin. apply list_elem_of_fmap in Hin as (row & -> & Hin). apply list_elem_of_fmap.
  exists row. split; [done|]. apply list_elem_of_In. apply list_elem_of_In in Hin.
  by apply filter_In in Hin as [Hin _].
Qed.

Lemma pending_moves s r target : pending r -> target = RsReconciling -> move_ok s r target.
Proof. unfold pending, move_ok. intros Hp ->. by destruct (rd_state r). Qed.

Lemma mark_rows reason page s :
  NoDup page.*1 ->
  (forall row, row ∈ page -> os_reservations s !! row.1 = Some row.2 /\ rd_id row.2 = row.1 /\
                             pending row.2) ->
  rtc rstep s (set_reservations
    (insert_all fst (fun row => set_rd_unknown reason row.2) page (os_reservations s)) s).
Proof.
  revert s. induction page as [|[k r] page IH]; intros s Hnd Hrows.
  { apply rtc_once, StepFlags; done. }
  rewrite fmap_cons, NoDup_cons in Hnd. destruct Hnd as [Hni Hnd].
  destruct (Hrows (k, r) ltac:(left)) as (Hk & Hid & Hp). simpl in Hk, Hid, Hp.
  eapply rtc_l.
  { apply (StepMove s (set_reservations (<[k := set_rd_unknown reason r]> (os_reservations s)) s)
             r (set_rd_unknown reason r)); try done; by rewrite ?Hid || apply pending_moves. }
  apply (IH (set_reservations (<[k := set_rd_unknown reason r]> (os_reservations s)) s)); [done|].
  intros row Hin. destruct (Hrows row ltac:(by right)) as (Hr & ? & ?). split_and!; try done. simpl.
  rewrite lookup_insert_ne; [done|]. intros E. apply Hni. simpl. rewrite E.
  by apply (list_elem_of_fmap_2 fst).
Qed.

Lemma mark_page_steps reason select s n : ors_wf s ->
  (forall r, select r = true -> pending r) ->
  rtc rstep s (set_meta (os_next_global_order s) n (os_write_idempotency_revision s)
    (set_reservations
       (insert_all fst (fun row => set_rd_unknown reason row.2)
          (page_of select (os_reservations s)) (os_reservations s)) s)).
Proof.
  intros Hwf Hsel. eapply rtc_r; [apply (mark_rows reason); [apply page_of_NoDup|]|by apply StepFlags].
  intros row Hin. apply page_of_elem in Hin as [Hr Hs]. split_and!; [done| |by apply Hsel].
  apply (ro_key _ _ _ (wf_record s Hwf _ _ Hr)).
Qed.

Lemma epoch_affected_pending successor r : epoch_affected successor r = true -> pending r.
Proof. unfold epoch_affected, pending. intros ?. by bool_facts. Qed.

Lemma fence_pending_pending unique successor r : fence_pending unique successor r = true -> pending r.
Proof. unfold fence_pending. intros ?. bool_facts. by eapply epoch_affected_pending. Qed.

Lemma interrupted_pending r : interrupted r = true -> pending r.
Proof. unfold interrupted, pending. intros ?. bool_facts. by match goal with E : _ = _ |- _ => rewrite E end. Qed.

Lemma fence_rounds_steps fuel unique successor s s' o : ors_wf s ->
  fence_rounds fuel unique successor s = (s', Ok o) -> rtc rstep s s'.
Proof.
  revert s. induction fuel as [|fuel IH]; intros s Hwf Hf; simpl in Hf; [injection Hf as <- _; constructor|].
  destruct (page_of _ _) as [|row page] eqn:Epage; [injection Hf as <- _; constructor|].
  unfold_monad. simpl in Hf. destruct (bump_reservations_revision _) as [s2 [[]|]] eqn:Hbump; [|done].
  apply bump_reservations_ok in Hbump as [n ->].
  pose proof (mark_page_steps fenced_reason (fence_pending unique successor) s n Hwf
                (fence_pending_pending unique successor)) as Hsteps.
  rewrite Epage in Hsteps. etrans; [exact Hsteps|]. eapply IH; [|exact Hf]. by eapply rsteps_wf.
Qed.

Lemma fence_writer_epoch_steps c scopes successor s s' res : ors_wf s ->
  fence_writer_epoch c scopes successor s = (s', res) -> rtc rstep s s'.
Proof.
  intros Hwf. unfold fence_writer_epoch. intros Hx. do 4 past_guard Hx.
  apply transact_store in Hx as [-> |[a Hb]]; [constructor|].
  unfold mseq at 1, mstate in Hb. cbv beta iota in Hb. unfold mseq at 1, put_scope_heads in Hb.
  destruct (fold_res _ _ _) as [heads|] eqn:Hf; [|done]. cbv beta iota in Hb.
  unfold mseq at 1, mlift in Hb. destruct (OpaqueLabel_new _) as [l|]; [|done]. cbv beta iota in Hb.
  unfold mseq at 1 in Hb. destruct (fence_rounds _ _ _ _) as [s2 [o|]] eqn:Hr; [|done].
  injection Hb as -> _. apply fence_heads_core in Hf.
  eapply rtc_l; [apply (StepFlags s (set_scope_heads heads s)); try done|].
  eapply fence_rounds_steps; [|exact Hr]. by eapply (wf_same s).
Qed.

Lemma recover_page_steps page s s' res : ors_wf s -> page = page_of interrupted (os_reservations s) ->
  forall c, transact c (recover_page_body page) s = (s', res) -> rtc rstep s s'.
Proof.
  intros Hwf -> c Hx. apply transact_store in Hx as [-> |[a Hb]]; [constructor|].
  unfold recover_page_body in Hb. unfold_monad. simpl in Hb. unfold put_scope_heads in Hb. simpl in Hb.
  destruct (block_scopes _ _ _) as [heads|] eqn:Hbl; [|done]. simpl in Hb.
  destruct (bump_reservations_revision _) as [s2 [[]|]] eqn:Hbump; [|done]. injection Hb as -> _.
  apply bump_reservations_ok in Hbump as [n ->]. apply block_scopes_core in Hbl.
  eapply rtc_r; [apply (mark_page_steps restart_reason interrupted s 0 Hwf interrupted_pending)|].
  by apply StepFlags.
Qed.

Lemma recover_rounds_steps fuel commits s s' res : ors_wf s ->
  recover_rounds fuel commits s = (s', res) -> rtc rstep s s'.
Proof.
  revert commits s. induction fuel as [|fuel IH]; intros commits s Hwf Hf; simpl in Hf;
    [injection Hf as <- _; constructor|].
  destruct (page_of _ _) as [|row page] eqn:Epage; [injection Hf as <- _; constructor|].
  unfold mseq in Hf. destruct (transact _ _ _) as [s1 [o|e]] eqn:Ht;
    pose proof (recover_page_steps _ _ _ _ Hwf (eq_sym Epage) _ Ht) as Hsteps.
  - etrans; [exact Hsteps|]. eapply IH; [|exact Hf]. by eapply rsteps_wf.
  - by injection Hf as <- _.
Qed.

(** *** Staging *)

Definition fresh_core (head : ExpectedOrderingHead) : HeadCore :=
  {| hc_head := head; hc_reserved := eh_sequence head; hc_terminal := eh_sequence head |}.

(** A requested scope and what it was reserved as, over the heads before. *)
Record reserved_as (heads heads' : Heads) (q : ScopeReservationRequest) (e : ReservedScope) : Prop := {
  ra_scope : rs_scope e = sq_scope q;
  ra_head : rs_expected_head e = sq_expected_head q;
  ra_base : hc_head (default (fresh_core (sq_expected_head q)) (head_core <$> heads !! sq_scope q))
            = sq_expected_head q;
  ra_sequence : rs_reserved_sequence e
    = hc_reserved (default (fresh_core (sq_expected_head q)) (head_core <$> heads !! sq_scope q)) + 1;
  ra_max : rs_reserved_sequence e <= u64_max;
  ra_after : head_core <$> heads' !! sq_scope q =
    Some {| hc_head := sq_expected_head q; hc_reserved := rs_reserved_sequence e;
            hc_terminal := hc_terminal (default (fresh_core (sq_expected_head q))
                                          (head_core <$> heads !! sq_scope q)) |};
}.

Lemma reserve_scope_ok epoch heads acc q heads' acc' :
  reserve_scope epoch (heads, acc) q = Ok (heads', acc') ->
  exists e h, acc' = acc ++ [e] /\ heads' = <[sq_scope q := h]> heads /\ reserved_as heads heads' q e.
Proof.
  unfold reserve_scope. intros Hr. apply rbind_ok in Hr as (head & Hh & Hr).
  apply rbind_ok in Hr as (n & Hn & Hr). injection Hr as <- <-.
  destruct (checked_add _ _) as [m|] eqn:Hadd; [|done]. injection Hn as ->.
  apply checked_add_some in Hadd as [-> Hmax]. eexists _, _. split_and!; [done..|].
  unfold head_for in Hh. destruct (heads !! sq_scope q) as [h|] eqn:E.
  - do 3 (let X := fresh in apply rbind_ok in Hh as ([] & X & Hh)). injection Hh as <-.
    rewrite guard_err_ok in *. bool_facts.
    constructor; simpl; rewrite ?E, ?lookup_insert_eq; simpl; try done. unfold head_core. simpl. congruence.
  - injection Hh as <-. by constructor; simpl; rewrite ?E, ?lookup_insert_eq.
Qed.

Lemma reserve_scopes_ok epoch qs heads acc heads' acc' : NoDup (sq_scope <$> qs) ->
  fold_res (reserve_scope epoch) (heads, acc) qs = Ok (heads', acc') ->
  exists es, acc' = acc ++ es /\ Forall2 (reserved_as heads heads') qs es /\
    (forall scope, scope ∉ sq_scope <$> qs -> heads' !! scope = heads !! scope).
Proof.
  revert heads acc. induction qs as [|q qs IH]; intros heads acc Hnd Hf.
  { injection Hf as <- <-. exists []. rewrite app_nil_r. split_and!; done || constructor. }
  rewrite fmap_cons, NoDup_cons in Hnd. destruct Hnd as [Hni Hnd].
  cbn [fold_res] in Hf. apply rbind_ok in Hf as ([heads1 acc1] & E & Hf).
  destruct (reserve_scope_ok _ _ _ _ _ _ E) as (e & h & -> & -> & [A1 A2 A3 A4 A5 A6]).
  destruct (IH _ _ Hnd Hf) as (es & -> & Hall & Hout). exists (e :: es).
  rewrite <- app_assoc. split_and!; [done| |].
  - constructor; [constructor; try done; by rewrite Hout|].
    assert (Hsc : forall q1, q1 ∈ qs -> sq_scope q <> sq_scope q1).
    { intros q1 Hq1 Es. apply Hni. rewrite Es. by apply list_elem_of_fmap_2. }
    clear Hni E Hf IH Hout Hnd. induction Hall as [|q1 e1 qs es [B1 B2 B3 B4 B5 B6] Hall IHall];
      constructor; [|apply IHall; intros q2 Hq2; apply Hsc; by right].
    specialize (Hsc q1 ltac:(left)). rewrite lookup_insert_ne in B3, B4, B6 by done. by constructor.
  - intros scope. rewrite fmap_cons, not_elem_of_cons. intros [? ?].
    rewrite Hout by done. by rewrite lookup_insert_ne.
Qed.
End Steps.

Section Staging.
Context `{OrsWire}.
Implicit Types (s : OrsStore) (r : ReservationRequest).

Lemma indexed_token_some s r key indexed o : indexed_token s r key indexed = Ok o -> is_Some o.
Proof. unfold indexed_token. intros Hx. run; by eexists. Qed.

Lemma existing_token_none s r b : en_write_binding (rq_envelope r) = Some b ->
  existing_token s r = Ok None ->
  os_write_idempotency s !! write_idempotency_index_key b = None /\
  os_operations s !! en_operation_or_checkpoint_id (rq_envelope r) = None /\
  os_reservations s !! rq_reservation_id r = None.
Proof.
  unfold existing_token. intros -> Hx. simpl in Hx.
  destruct (os_write_idempotency s !! _) as [i|]; [by apply indexed_token_some in Hx as []|].
  destruct (os_operations s !! _) as [k|].
  { run. }
  unfold guard_err in Hx. by destruct (os_reservations s !! _).
Qed.

(** The tables [persist_new_reservation] leaves. *)
Lemma persist_ok e (r : ReservationRecord) s s' : persist_new_reservation e r s = (s', Ok tt) ->
  exists b n m, tk_write_binding (rd_token r) = Some b /\
    os_write_idempotency s !! write_idempotency_index_key b = None /\
    os_orders s !! order_key (rd_order r) = None /\
    s' = {| os_envelopes := <[tk_operation_id (rd_token r) := e]> (os_envelopes s);
            os_reservations := <[rd_id r := r]> (os_reservations s);
            os_orders := <[order_key (rd_order r) := rd_id r]> (os_orders s);
            os_operations := <[tk_operation_id (rd_token r) := rd_id r]> (os_operations s);
            os_write_idempotency := <[write_idempotency_index_key b := tk_operation_id (rd_token r)]>
                                      (os_write_idempotency s);
            os_scope_heads := os_scope_heads s; os_scope_terminals := os_scope_terminals s;
            os_next_global_order := os_next_global_order s;
            os_reservations_revision := n; os_write_idempotency_revision := m |}.
Proof.
  unfold persist_new_reservation, put_record. unfold_monad. simpl.
  destruct (tk_write_binding (rd_token r)) as [b|]; [|done]. simpl.
  destruct (os_write_idempotency s !! _) eqn:Ei; [done|]. simpl.
  destruct (os_orders s !! _) eqn:Eo; [done|]. simpl. intros Hp.
  destruct (bump_reservations_revision _) as [s2 [[]|]] eqn:Hbump; [|done].
  apply bump_reservations_ok in Hbump as [n ->]. unfold bump_write_idempotency_revision in Hp.
  destruct (next_revision _ _) as [m|]; [|done]. injection Hp as <-.
  by exists b, n, m.
Qed.

Lemma request_coherent_sort r b : request_coherent r b -> request_coherent (sort_scopes r) b.
Proof.
  intros []. constructor; simpl; try done.
  - intros Hn. apply rc_nonempty. apply Permutation_nil_r. rewrite <- Hn. symmetry.
    apply merge_sort_Permutation.
  - by rewrite merge_sort_Permutation.
  - rewrite <- rc_scopes. apply list_to_set_perm_L. by rewrite merge_sort_Permutation.
Qed.

Lemma Forall2_scopes heads heads' qs es : Forall2 (reserved_as heads heads') qs es ->
  rs_scope <$> es = sq_scope <$> qs.
Proof. induction 1 as [|q e qs es [] _ IH]; [done|]. rewrite !fmap_cons. congruence. Qed.

(** What the types of a request's fields say: sequences are [u64]s and
    identities are labels. *)
Record request_typed (r : ReservationRequest) : Prop := {
  ty_sequences : Forall (fun q => is_u64 (eh_sequence (sq_expected_head q))) (rq_scopes r);
  ty_reservation : label_ok (rq_reservation_id r);
  ty_operation : label_ok (en_operation_or_checkpoint_id (rq_envelope r));
}.

Lemma sort_scopes_sorted r : StronglySorted String.le (sq_scope <$> rq_scopes (sort_scopes r)).
Proof.
  simpl. pose proof (StronglySorted_merge_sort request_scope_le (rq_scopes r)) as Hs.
  induction Hs as [|q l Hs IH Hf]; [constructor|]. rewrite fmap_cons. constructor; [done|].
  by apply Forall_fmap.
Qed.

(** A staged reservation, from the request sorted as the code sorts it. *)
Lemma stage_body_ok `{CanonicalEvidence} r b s s' t : ors_wf s -> request_typed r ->
  request_coherent r b ->
  stage_body (sort_scopes r) s = (s', Ok (TxCommit t)) ->
  rstep s s' /\ next_order s' = next_order s + 1 /\
  exists es, t = new_token (sort_scopes r) (next_order s + 1) es /\
    Forall2 (reserved_as (os_scope_heads s) (os_scope_heads s')) (rq_scopes (sort_scopes r)) es /\
    os_reservations s' !! rq_reservation_id r = Some (new_record t) /\
    os_envelopes s' !! en_operation_or_checkpoint_id (rq_envelope r) = Some (rq_envelope r).
Proof.
  intros Hwf Hu Hco Hb. apply request_coherent_sort in Hco as Hco'.
  unfold stage_body in Hb. unfold_monad. simpl in Hb.
  destruct (existing_token s (sort_scopes r)) as [[?|]|] eqn:Hex; [done| |done].
  apply (existing_token_none _ _ b) in Hex as (Hi & Hop & Hres); [|apply Hco'].
  destruct (verify_ordering_heads _) as [[]|]; [|done]. simpl in Hb.
  unfold next_reservation_order in Hb. destruct (checked_add _ 1) as [order|] eqn:Hadd; [|done].
  apply checked_add_some in Hadd as [-> Hmax]. simpl in Hb.
  unfold reserve_scope_sequences in Hb. simpl in Hb.
  destruct (fold_res _ _ _) as [[heads es]|] eqn:Hf; [|done]. simpl in Hb.
  destruct (persist_new_reservation _ _ _) as [s2 [[]|]] eqn:Hp; [|done]. injection Hb as <- <-.
  apply persist_ok in Hp as (b' & n & m & Hb' & _ & Hord & ->).
  assert (b' = b) as -> by (pose proof (rc_binding _ _ Hco'); simpl in *; congruence).
  apply reserve_scopes_ok in Hf as (es' & -> & Hall & Hout); [|apply (rc_distinct _ _ Hco')].
  rewrite app_nil_l in *. pose proof (Forall2_scopes _ _ _ _ Hall) as Hsc.
  split; [|split; [done|]].
  2: { exists es'. split_and!; [done|done| |]; simpl; unfold rd_id; simpl; by rewrite lookup_insert_eq. }
  set (t := new_token (sort_scopes r) (default 0 (os_next_global_order s) + 1) es') in *.
  apply (StepStage s _ t (rq_envelope r) b); try done.
  - apply (ty_reservation _ Hu).
  - unfold token_scopes, t. simpl. rewrite Hsc. apply sort_scopes_sorted.
  - unfold token_scopes, t. simpl. rewrite Hsc. apply (rc_distinct _ _ Hco').
  - unfold t. simpl. intros ->. apply Forall2_length in Hall. apply (rc_nonempty _ _ Hco').
    by apply nil_length_inv.
  - assert (Hu' : Forall (fun q => is_u64 (eh_sequence (sq_expected_head q)))
                    (rq_scopes (sort_scopes r))).
    { simpl. rewrite merge_sort_Permutation. apply (ty_sequences _ Hu). }
    unfold t in *. cbn [tk_scopes new_token]. clear - Hall Hu' Hwf.
    simpl in Hu', Hall. set (qs := merge_sort request_scope_le (rq_scopes r)) in *. clearbody qs.
    induction Hall as [|q e qs1 es1 [A1 A2 A3 A4 A5 A6] Hall IH]; [constructor|].
    apply Forall_cons in Hu' as [Hq Hu']. constructor; [|by apply IH].
    unfold entry_staged, base_core, core_heads. simpl. rewrite !lookup_fmap, A1, A2.
    fold (fresh_core (sq_expected_head q)). split_and!; try done. split; [|done].
    unfold is_u64 in Hq. destruct (os_scope_heads s !! sq_scope q) as [h|] eqn:E; simpl in *; [|lia].
    pose proof (wf_heads s Hwf (sq_scope q) (head_core h)) as Hw. unfold core_heads in Hw.
    rewrite lookup_fmap, E in Hw. specialize (Hw eq_refl). simpl in Hw. rewrite A3 in Hw. lia.
  - intros scope Hs. unfold core_heads. simpl. rewrite !lookup_fmap. f_equal. apply Hout.
    unfold token_scopes, t in Hs. simpl in Hs. by rewrite Hsc in Hs.
Qed.

Lemma stage_and_reserve_steps `{CanonicalEvidence} c r s s' res : ors_wf s -> request_typed r ->
  stage_and_reserve c r s = (s', res) -> rtc rstep s s'.
Proof.
  intros Hwf Hu. unfold stage_and_reserve.
  destruct (reservation_request_validate r) as [[]|] eqn:Hv; [|intros [= <- _]; constructor].
  apply request_validate_coherent in Hv as [b Hco].
  destruct (stage_body (sort_scopes r) s) as [s1 [[t|t]|e]] eqn:Hb; try (intros [= <- _]; constructor).
  destruct (stage_body_ok _ _ _ _ _ Hwf Hu Hco Hb) as [Hstep _].
  unfold after_commit. destruct c as [|detail []]; intros [= <- _]; try constructor; by apply rtc_once.
Qed.
End Staging.
