(* ===== verification/OrsTheorems.v ===== *)
(** * What the reservation tables promise

    Sequences of calls ([OrsCall], [ors_run]) on an empty store, with any
    commit outcome at each call, and what holds of every store they reach. *)

From Stdlib Require Import String.
From stdpp Require Import relations.
From S2P Require Import Prelude RustText Contracts Receipts OrsModel OrsStore OrsLaws OrsSteps.

#[local] Open Scope string_scope.
#[local] Open Scope list_scope.
#[local] Open Scope Z_scope.

Inductive OrsCall : Type :=
| CallStage (c : CommitOutcome) (request : ReservationRequest)
| CallEligible (c : CommitOutcome) (token : WriterReservationToken)
| CallExecute (c : CommitOutcome) (token : WriterReservationToken) (epoch : EpochIdentity)
| CallUnknown (c : CommitOutcome) (token : WriterReservationToken) (epoch : EpochIdentity)
    (reason : OpaqueLabel)
| CallReconcile (c : CommitOutcome) (reconciliation : CanonicalReconciliation)
| CallRelease (c : CommitOutcome) (token : WriterReservationToken) (epoch : EpochIdentity)
| CallExpire (c : CommitOutcome) (token : WriterReservationToken) (now_ms : Z)
    (recovery_owner : OpaqueLabel)
| CallFence (c : CommitOutcome) (scopes : list OpaqueLabel) (successor : EpochLineage)
| CallRestart (commits : list CommitOutcome).

(** Arguments within their types. *)
Definition call_typed (c : OrsCall) : Prop :=
  match c with
  | CallStage _ request => request_typed request
  | _ => True
  end.

Section Calls.
Context `{OrsWire, CanonicalEvidence}.
Implicit Types (s : OrsStore) (r : ReservationRecord).

Definition ors_call (call : OrsCall) (s : OrsStore) : OrsStore :=
  match call with
  | CallStage c request => (stage_and_reserve c request s).1
  | CallEligible c token => (mark_eligible c token s).1
  | CallExecute c token epoch => (begin_execute c token epoch s).1
  | CallUnknown c token epoch reason => (mark_unknown c token epoch reason s).1
  | CallReconcile c reconciliation => (reconcile c reconciliation s).1
  | CallRelease c token epoch => (release c token epoch s).1
  | CallExpire c token now_ms owner => (expire c token now_ms owner s).1
  | CallFence c scopes successor => (fence_writer_epoch c scopes successor s).1
  | CallRestart commits => (recover_interrupted_reservations commits s).1
  end.

Definition ors_run (calls : list OrsCall) (s : OrsStore) : OrsStore :=
  fold_left (fun s call => ors_call call s) calls s.

Lemma call_steps call s : ors_wf s -> call_typed call -> rtc rstep s (ors_call call s).
Proof.
  intros Hwf Ht. destruct call; simpl in *.
  - eapply stage_and_reserve_steps; [done|done|]. by apply surjective_pairing.
  - eapply mark_eligible_steps. by apply surjective_pairing.
  - eapply begin_execute_steps. by apply surjective_pairing.
  - eapply mark_unknown_steps. by apply surjective_pairing.
  - eapply reconcile_steps; [done|]. by apply surjective_pairing.
  - eapply release_steps. by apply surjective_pairing.
  - eapply expire_steps. by apply surjective_pairing.
  - eapply fence_writer_epoch_steps; [done|]. by apply surjective_pairing.
  - eapply recover_rounds_steps; [done|]. by apply surjective_pairing.
Qed.

Lemma run_steps calls s : ors_wf s -> Forall call_typed calls -> rtc rstep s (ors_run calls s).
Proof.
  revert s. induction calls as [|call calls IH]; intros s Hwf Ht; [constructor|].
  apply Forall_cons in Ht as [Hc Ht]. pose proof (call_steps call s Hwf Hc) as Hs.
  etrans; [exact Hs|]. apply IH; [by eapply rsteps_wf|done].
Qed.

Lemma run_wf calls : Forall call_typed calls -> ors_wf (ors_run calls ors_empty).
Proof. intros Ht. eapply rsteps_wf; [apply ors_empty_wf|]. by apply run_steps, Ht; apply ors_empty_wf. Qed.

Lemma rsteps_envelopes s s' : ors_wf s -> rtc rstep s s' -> envelopes_ok s -> envelopes_ok s'.
Proof.
  intros Hwf Hs. revert Hwf. induction Hs as [|s s1 s' Hst Hs IH]; [done|].
  intros Hwf He. apply IH; [by eapply rstep_wf|by eapply rstep_envelopes].
Qed.

Lemma run_envelopes calls : Forall call_typed calls -> envelopes_ok (ors_run calls ors_empty).
Proof.
  intros Ht. eapply (rsteps_envelopes ors_empty); [apply ors_empty_wf|by apply run_steps, Ht; apply ors_empty_wf|].
  intros k r e Hk. done.
Qed.

Lemma run_labels calls : Forall call_typed calls -> labels_ok (ors_run calls ors_empty).
Proof.
  intros Ht. pose proof (run_steps calls ors_empty ors_empty_wf Ht) as Hs.
  assert (labels_ok ors_empty) as Hok by (intros k r Hk; done).
  induction Hs; eauto using rstep_labels.
Qed.

Lemma rsteps_terminal s s' k r : ors_wf s -> rtc rstep s s' ->
  os_reservations s !! k = Some r -> ~ pending r -> os_reservations s' !! k = Some r.
Proof.
  intros Hwf Hs. revert Hwf. induction Hs as [|s s1 s' Hst Hs IH]; [done|].
  intros Hwf Hk Hp. apply IH; [by eapply rstep_wf|by eapply rstep_terminal|done].
Qed.
End Calls.

(** ** Exclusion, order and finality *)

Section Promises.
Context `{OrsWire, CanonicalEvidence}.

Lemma shares_scope_iff t1 t2 :
  shares_scope t1 t2 = true <-> exists scope, scope ∈ token_scopes t1 /\ scope ∈ token_scopes t2.
Proof.
  unfold shares_scope. rewrite existsb_exists. setoid_rewrite existsb_exists.
  setoid_rewrite <- list_elem_of_In. setoid_rewrite bool_decide_eq_true.
  setoid_rewrite scope_entry. naive_solver.
Qed.

(** Two reservations that own their scopes share none. *)
Lemma owners_disjoint s k1 k2 r1 r2 scope : ors_wf s ->
  os_reservations s !! k1 = Some r1 -> os_reservations s !! k2 = Some r2 ->
  owns_scopes r1 -> owns_scopes r2 ->
  scope ∈ token_scopes (rd_token r1) -> scope ∈ token_scopes (rd_token r2) -> k1 = k2.
Proof.
  intros Hwf H1 H2 O1 O2 S1 S2.
  destruct (Z.lt_trichotomy (rd_order r1) (rd_order r2)) as [L|[E|L]].
  - exfalso. pose proof (wf_owner s Hwf _ _ _ _ H1 H2 O2 (owner_pending _ O1) L) as Hf.
    apply not_true_iff_false in Hf. apply Hf, shares_scope_iff. eauto.
  - by eapply order_unique.
  - exfalso. pose proof (wf_owner s Hwf _ _ _ _ H2 H1 O1 (owner_pending _ O2) L) as Hf.
    apply not_true_iff_false in Hf. apply Hf, shares_scope_iff. eauto.
Qed.

(** C1. No Ordering Scope ever belongs to two reservations that are eligible or
    executing: one canonical write at a time may run on a scope. *)
Theorem one_execution_per_scope (calls : list OrsCall) (Hcalls : Forall call_typed calls)
    (k1 k2 : string) (r1 r2 : ReservationRecord) (scope : string)
    (H1 : os_reservations (ors_run calls ors_empty) !! k1 = Some r1)
    (H2 : os_reservations (ors_run calls ors_empty) !! k2 = Some r2)
    (O1 : owns_scopes r1) (O2 : owns_scopes r2)
    (S1 : scope ∈ token_scopes (rd_token r1)) (S2 : scope ∈ token_scopes (rd_token r2)) :
  k1 = k2.
Proof. by eapply (owners_disjoint _ k1 k2 r1 r2 scope (run_wf calls Hcalls)). Qed.

(** C2. The committed writes of a scope form one line: in reservation order their
    sequences grow, and each was built on a head no older than every commit
    before it, so no committed write is overwritten by one that missed it. *)
Theorem commits_form_one_line (calls : list OrsCall) (Hcalls : Forall call_typed calls)
    (k1 k2 : string) (r1 r2 : ReservationRecord) (e1 e2 : ReservedScope)
    (H1 : os_reservations (ors_run calls ors_empty) !! k1 = Some r1)
    (H2 : os_reservations (ors_run calls ors_empty) !! k2 = Some r2)
    (F1 : rd_state r1 = RsFinalized) (F2 : rd_state r2 = RsFinalized)
    (I1 : e1 ∈ rd_scopes r1) (I2 : e2 ∈ rd_scopes r2) (Es : rs_scope e1 = rs_scope e2)
    (Hlt : rd_order r1 < rd_order r2) :
  rs_reserved_sequence e1 <= eh_sequence (rs_expected_head e2) < rs_reserved_sequence e2 /\
  exists h, os_scope_heads (ors_run calls ors_empty) !! rs_scope e2 = Some h /\
    rs_reserved_sequence e2 <= eh_sequence (sh_canonical_head h).
Proof.
  pose proof (run_wf calls Hcalls) as Hwf.
  pose proof (wf_increasing _ Hwf _ _ _ _ _ _ H1 H2 I1 I2 Es Hlt) as Hseq.
  pose proof (wf_chain _ Hwf _ _ _ _ _ _ H1 H2 F1 F2 I1 I2 Es Hseq) as Hchain.
  destruct (ro_entry _ _ _ (wf_record _ Hwf _ _ H2) e2 I2) as (_ & Hexp & hc & Hhc & _ & Hhead).
  split; [lia|]. unfold core_heads in Hhc. rewrite lookup_fmap_Some in Hhc.
  destruct Hhc as (h & <- & Hh). exists h. split; [done|]. by apply Hhead.
Qed.

(** A finalized or released reservation is never touched again: not by a
    retry, a fence, a restart or a late receipt. *)
Theorem closed_reservation_is_final (before after : list OrsCall)
    (Hb : Forall call_typed before) (Ha : Forall call_typed after)
    (k : string) (r : ReservationRecord)
    (Hk : os_reservations (ors_run before ors_empty) !! k = Some r)
    (Hclosed : reservation_is_terminal (rd_state r) = true) :
  os_reservations (ors_run after (ors_run before ors_empty)) !! k = Some r.
Proof.
  pose proof (run_wf before Hb) as Hwf. eapply rsteps_terminal; [done|by apply run_steps|done|].
  unfold pending. congruence.
Qed.

(** C5. Terminal rows and receipts agree: a reservation closed by a receipt has,
    for each of its scopes, one row under its own sequence with that receipt,
    a gap exactly when it was not committed; and every row belongs to such a
    reservation. *)
Theorem terminal_rows_exact (calls : list OrsCall) (Hcalls : Forall call_typed calls) :
  let s := ors_run calls ors_empty in
  (forall k r id e, os_reservations s !! k = Some r -> rd_terminal_receipt_id r = Some id ->
     e ∈ rd_scopes r ->
     exists x, os_scope_terminals s !! terminal_key (rs_scope e) (rs_reserved_sequence e) = Some x /\
       sx_receipt_id x = id /\ (sx_gap x = false <-> rd_state r = RsFinalized)) /\
  (forall key x, os_scope_terminals s !! key = Some x ->
     exists k r e, os_reservations s !! k = Some r /\ e ∈ rd_scopes r /\
       key = terminal_key (rs_scope e) (rs_reserved_sequence e) /\
       rd_terminal_receipt_id r = Some (sx_receipt_id x) /\
       reservation_is_terminal (rd_state r) = true).
Proof.
  intros s. pose proof (run_wf calls Hcalls : ors_wf s) as Hwf. split.
  - intros k r id e Hk Hid He.
    destruct (ro_rows _ _ _ (wf_record _ Hwf _ _ Hk) id Hid e He) as (x & Hx & E1 & E2 & E3).
    exists x. split_and!; [done..|]. rewrite E3, bool_decide_eq_false.
    destruct (bool_decide (rd_state r = RsFinalized)) eqn:Hf; bool_facts; naive_solver.
  - intros key x Hx. destruct (wf_rows _ Hwf _ _ Hx) as (k & r & e & Hk & He & -> & Hid).
    exists k, r, e. split_and!; [done..|]. pose proof (ro_receipt _ _ _ (wf_record _ Hwf _ _ Hk)) as Hok.
    unfold receipt_ok in Hok. destruct (rd_state r); simpl; congruence.
Qed.
End Promises.
