(* ===== verification/OrsRetry.v ===== *)
(** * Retries of a staged write

    What the idempotency index resolves a repeated request to, and that the
    answer never changes once it has been given. *)

From Stdlib Require Import String.
From stdpp Require Import relations.
From S2P Require Import Prelude RustText Contracts Receipts OrsModel OrsStore OrsLaws OrsSteps OrsTheorems.

#[local] Open Scope string_scope.
#[local] Open Scope list_scope.
#[local] Open Scope Z_scope.

(** What of a request its token repeats. *)
Record request_of (q : ReservationRequest) (t : WriterReservationToken) : Prop := {
  qo_operation : tk_operation_id t = en_operation_or_checkpoint_id (rq_envelope q);
  qo_epoch : rq_writer_epoch q = tk_writer_epoch t;
  qo_fence : en_state_fence (rq_envelope q) = tk_state_fence t;
  qo_expires : rq_expires_at_ms q = tk_expires_at_ms t;
  qo_prepared : rq_prepared_transition_sha256 q = tk_prepared_transition_sha256 t;
  qo_owner : rq_recovery_owner q = tk_recovery_owner t;
  qo_scopes : scopes_match (rq_scopes q) (tk_scopes t) = true;
}.

(** The rows by which a request resolves to the token [t]. *)
Record resolves `{OrsWire} (s : OrsStore) (q : ReservationRequest) (b : RecoveryWriteBinding)
    (t : WriterReservationToken) : Prop := {
  rv_label : stored_label "write_idempotency_index" (tk_operation_id t) = Ok (tk_operation_id t);
  rv_index : os_write_idempotency s !! write_idempotency_index_key b = Some (tk_operation_id t);
  rv_binding : tk_write_binding t = Some b;
  rv_matches : write_binding_matches_token b t = true;
  rv_request : request_of q t;
  rv_record : exists k r, os_operations s !! tk_operation_id t = Some k /\
    os_reservations s !! k = Some r /\ rd_token r = t /\
    (os_envelopes s !! tk_operation_id t = Some (rq_envelope q) \/
     os_envelopes s !! tk_operation_id t = None /\ ~ pending r);
}.

Section Retry.
Context `{OrsWire}.
Implicit Types (s : OrsStore) (q : ReservationRequest) (t : WriterReservationToken).

Lemma stored_label_ok ty v w : stored_label ty v = Ok w -> w = v.
Proof.
  unfold stored_label, OpaqueLabel_new. rewrite map_err_ok. intros Hl.
  apply rbind_ok in Hl as (_ & _ & Hl). by injection Hl.
Qed.

Lemma envelope_eq q t e b : request_coherent q b -> en_write_binding e = Some b ->
  idempotency_retry_matches q t e = true -> tk_write_binding t = Some b ->
  e = rq_envelope q /\ request_of q t.
Proof.
  intros Hc He Hm Ht. unfold idempotency_retry_matches in Hm. rewrite He, Ht, (rc_binding _ _ Hc) in Hm.
  bool_facts. split; [|constructor; congruence].
  pose proof (rc_binding _ _ Hc). destruct e, (rq_envelope q). simpl in *. congruence.
Qed.

Lemma retry_matches_of q t b : request_coherent q b -> tk_write_binding t = Some b ->
  request_of q t -> idempotency_retry_matches q t (rq_envelope q) = true.
Proof.
  intros Hc Ht [Q1 Q2 Q3 Q4 Q5 Q6 Q7]. unfold idempotency_retry_matches.
  rewrite (rc_binding _ _ Hc), Ht, Q7, (proj2 (same_retry_identity_eq b b) eq_refl).
  pose proof (rc_operation_id _ _ Hc). pose proof (rc_envelope_epoch _ _ Hc).
  rewrite !bool_decide_eq_true_2 by congruence. done.
Qed.

Lemma terminal_matches_of q t b : request_coherent q b -> tk_write_binding t = Some b ->
  write_binding_matches_token b t = true -> request_of q t ->
  idempotency_terminal_retry_matches q t = true.
Proof.
  intros Hc Ht Hm [Q1 Q2 Q3 Q4 Q5 Q6 Q7]. unfold idempotency_terminal_retry_matches.
  rewrite (rc_binding _ _ Hc), Ht, Q7, Hm, (proj2 (same_retry_identity_eq b b) eq_refl).
  rewrite (rc_payload_key _ _ Hc).
  pose proof (rc_operation_id _ _ Hc). pose proof (rc_envelope_epoch _ _ Hc).
  pose proof (rc_payload_sha _ _ Hc). pose proof (rc_payload_len _ _ Hc).
  rewrite !bool_decide_eq_true_2 by congruence. done.
Qed.

(** The retry branch answers [t] exactly on such rows. *)
Lemma resolves_existing s q b t : request_coherent q b -> resolves s q b t ->
  existing_token s q = Ok (Some t).
Proof.
  intros Hc [Hl Hi Hb Hm Hq (k & r & Hk & Hr & Ht & He)]. unfold existing_token.
  rewrite (rc_binding _ _ Hc). simpl. rewrite Hi. unfold indexed_token.
  rewrite Hl. simpl. rewrite Hk. simpl. rewrite Hr. simpl. rewrite Ht, Hb. simpl.
  rewrite Hm. rewrite !bool_decide_eq_true_2 by done. simpl.
  destruct He as [He|[He Hp]]; rewrite He.
  - pose proof (qo_operation _ _ Hq). pose proof (rc_binding _ _ Hc).
    rewrite !bool_decide_eq_true_2 by congruence. simpl.
    by rewrite (retry_matches_of q t b).
  - unfold pending in Hp. apply not_false_iff_true in Hp. rewrite Hp.
    by rewrite (terminal_matches_of q t b).
Qed.

Lemma existing_resolves s q b t : ors_wf s -> envelopes_ok s -> request_coherent q b ->
  existing_token s q = Ok (Some t) -> resolves s q b t.
Proof.
  intros Hwf Henv Hc. unfold existing_token. rewrite (rc_binding _ _ Hc). simpl.
  destruct (os_write_idempotency s !! _) as [indexed|] eqn:Hi; cycle 1.
  { destruct (os_operations s !! _) as [k0|] eqn:Hop; [|unfold guard_err; by destruct (is_some _)].
    intros Hx. apply rbind_ok in Hx as (k & Hk & Hx). apply stored_label_ok in Hk as ->.
    apply rbind_ok in Hx as (r & Hr & Hx). apply rbind_ok in Hx as (e & He & Hx).
    destruct (os_reservations s !! k0) as [r'|] eqn:Er; [|done]. injection Hr as ->.
    destruct (os_envelopes s !! _) as [e'|] eqn:Ee; [|done]. injection He as ->.
    next_check Hx Hnone. rewrite guard_err_ok in Hnone.
    destruct (en_write_binding e) as [?|] eqn:Eb; [done|].
    destruct (request_matches _ _ _) eqn:Hm; [|done]. unfold request_matches in Hm. bool_facts.
    pose proof (rc_binding _ _ Hc). congruence. }
  unfold indexed_token. intros Hx. apply rbind_ok in Hx as (op & Hl & Hx).
  assert (op = indexed) as -> by (by eapply stored_label_ok).
  apply rbind_ok in Hx as (k & Hk & Hx). apply rbind_ok in Hx as (r & Hr & Hx).
  destruct (os_operations s !! indexed) as [k'|] eqn:Eo; [|done]. injection Hk as ->.
  destruct (os_reservations s !! k) as [r'|] eqn:Er; [|done]. injection Hr as ->.
  next_check Hx Hg. rewrite guard_err_ok in Hg. bool_facts.
  destruct (tk_write_binding (rd_token r)) as [bt|] eqn:Ebt; [|done]. simpl in *. bool_facts.
  destruct (os_envelopes s !! indexed) as [e|] eqn:Ee.
  - next_check Hx Hge. rewrite guard_err_ok in Hge. bool_facts.
    destruct (idempotency_retry_matches q (rd_token r) e) eqn:Hm; [|done]. injection Hx as <-.
    assert (bt = b) as ->.
    { unfold idempotency_retry_matches in Hm. rewrite (rc_binding _ _ Hc) in Hm.
      destruct (en_write_binding e) as [be|]; [|done]. rewrite Ebt in Hm. bool_facts.
      match goal with E : same_retry_identity _ _ = true |- _ => apply same_retry_identity_eq in E end.
      congruence. }
    destruct (envelope_eq q (rd_token r) e b) as [-> Hq]; [done|congruence|done|done|].
    constructor; try congruence. exists k, r. split_and!; try congruence. left. congruence.
  - destruct (reservation_is_terminal (rd_state r)) eqn:Hterm; [|done]. simpl in Hx.
    destruct (idempotency_terminal_retry_matches q (rd_token r)) eqn:Hm; [|done]. injection Hx as <-.
    unfold idempotency_terminal_retry_matches in Hm. rewrite (rc_binding _ _ Hc), Ebt in Hm. bool_facts.
    match goal with E : same_retry_identity _ _ = true |- _ => apply same_retry_identity_eq in E as <- end.
    pose proof (rc_operation_id _ _ Hc) as Hopid.
    assert (tk_operation_id (rd_token r) = en_operation_or_checkpoint_id (rq_envelope q)) as Hop.
    { match goal with E : write_binding_matches_token b _ = true |- _ =>
        unfold write_binding_matches_token in E end. bool_facts. congruence. }
    constructor; try congruence; [by constructor|].
    exists k, r. split_and!; try congruence. right. split; [congruence|]. unfold pending. congruence.
Qed.

Lemma resolves_step s s' q b t : ors_wf s -> rstep s s' -> resolves s q b t -> resolves s' q b t.
Proof.
  intros Hwf Hs [Hl Hi Hb Hm Hq (k & r & Hk & Hr & Ht & He)].
  destruct (rstep_indexes s s' Hs) as [Hops Hidem].
  destruct (rstep_record s s' k r Hwf Hs Hr) as (r' & Hr' & Ht' & Hfin & Henv).
  constructor; try done; [by apply Hidem|]. exists k, r'. rewrite Ht in *.
  split_and!; [by apply Hops|done|congruence|].
  destruct Henv as [E|[E Hp]]; [|right; done]. rewrite E.
  destruct He as [He|[He Hp]]; [by left|right]. split; [done|]. by rewrite (Hfin Hp).
Qed.

Lemma resolves_steps s s' q b t : ors_wf s -> rtc rstep s s' -> resolves s q b t -> resolves s' q b t.
Proof.
  intros Hwf Hs. revert Hwf. induction Hs as [|s s1 s' Hst Hs IH]; [done|].
  intros Hwf Hr. apply IH; [by eapply rstep_wf|by eapply resolves_step].
Qed.
End Retry.

(** ** Staging, then retrying *)

Section StageThenRetry.
Context `{OrsWire, CanonicalEvidence}.

Lemma scopes_match_reserved heads heads' qs es :
  Forall2 (reserved_as heads heads') qs es -> scopes_match qs es = true.
Proof.
  intros Hall. unfold scopes_match, usize_of_len. rewrite (Forall2_length _ _ _ Hall), Z.eqb_refl.
  simpl. induction Hall as [|q e qs es [] _ IH]; [done|]. simpl. rewrite IH.
  by rewrite !bool_decide_eq_true_2.
Qed.

Lemma staged_matches r b order es : request_coherent r b -> rs_scope <$> es = sq_scope <$> rq_scopes r ->
  write_binding_matches_token b (new_token r order es) = true.
Proof.
  intros Hc Es. unfold write_binding_matches_token, token_scopes. simpl.
  rewrite Es, (rc_scopes _ _ Hc), (rc_sha_len _ _ Hc). pose proof (rc_len_pos _ _ Hc).
  rewrite !bool_decide_eq_true_2; try apply Hc; [|done]. by rewrite (proj2 (Z.ltb_lt _ _)).
Qed.

Lemma stage_resolves c r s s' t : ors_wf s -> envelopes_ok s -> request_typed r ->
  stage_and_reserve c r s = (s', Ok t) ->
  exists b, request_coherent (sort_scopes r) b /\ resolves s' (sort_scopes r) b t.
Proof.
  intros Hwf Henv Hu. unfold stage_and_reserve.
  destruct (reservation_request_validate r) as [[]|] eqn:Hv; [|done].
  apply request_validate_coherent in Hv as [b Hco]. apply request_coherent_sort in Hco as Hco'.
  intros Hst. exists b. split; [done|]. revert Hst.
  destruct (stage_body (sort_scopes r) s) as [s1 [[t1|t1]|e]] eqn:Hb; [| |done].
  { intros [= <- <-].
    unfold stage_body in Hb. unfold_monad. simpl in Hb.
    destruct (existing_token s (sort_scopes r)) as [[t2|]|] eqn:Hex; [|run|done].
    injection Hb as _ ->. by eapply existing_resolves. }
  destruct (stage_body_ok _ _ _ _ _ Hwf Hu Hco Hb) as (Hstep & _ & es & Ht1 & Hall & Hres & He).
  pose proof (Forall2_scopes _ _ _ _ Hall) as Esc.
  assert (Hnew : resolves s1 (sort_scopes r) b t1).
  { pose proof (rstep_wf _ _ Hwf Hstep) as Hwf1.
    pose proof (wf_record _ Hwf1 _ _ Hres) as Hok. pose proof (ro_operation _ _ _ Hok) as Hop.
    destruct (ro_binding _ _ _ Hok) as (b1 & Hb1 & Hidx). simpl in Hop, Hb1, Hidx.
    assert (Htb : tk_write_binding t1 = Some b) by (rewrite Ht1; apply (rc_binding _ _ Hco')).
    assert (Htop : tk_operation_id t1 = en_operation_or_checkpoint_id (rq_envelope r)) by by rewrite Ht1.
    assert (b1 = b) as -> by congruence.
    constructor; try done.
    - unfold stored_label. unfold OpaqueLabel_new. rewrite Htop.
      by rewrite (ty_operation _ Hu).
    - rewrite Ht1. by apply staged_matches.
    - rewrite Ht1. constructor; try done. by eapply scopes_match_reserved.
    - exists (rq_reservation_id r), (new_record t1). split_and!; try done. left. by rewrite Htop. }
  destruct c as [|detail [|]]; simpl.
  - by intros [= <- <-].
  - destruct (staged_reservation_readback _ _) as [[|]|]; [|done..]. by intros [= <- <-].
  - unfold staged_reservation_readback. rewrite Ht1. simpl.
    assert (os_reservations s !! rq_reservation_id r = None) as ->; [|done].
    unfold stage_body in Hb. unfold_monad. simpl in Hb.
    destruct (existing_token s (sort_scopes r)) as [[t2|]|] eqn:Hex; [done| |done].
    by apply (existing_token_none _ _ b) in Hex as (_ & _ & ?); [|apply Hco'].
Qed.

(** C4. Staging is idempotent for good: once a request has been answered with a
    token, however its commit went, repeating it is answered with that token
    and changes nothing, after any calls in between, its payload's cleanup
    included. *)
Theorem retry_returns_original (before after : list OrsCall) (c c' : CommitOutcome)
    (r : ReservationRequest) (s' : OrsStore) (t : WriterReservationToken)
    (Hb : Forall call_typed before) (Ha : Forall call_typed after) (Hu : request_typed r)
    (Hstage : stage_and_reserve c r (ors_run before ors_empty) = (s', Ok t)) :
  stage_and_reserve c' r (ors_run after s') = (ors_run after s', Ok t).
Proof.
  pose proof (run_wf before Hb) as Hwf. pose proof (run_envelopes before Hb) as Henv.
  pose proof (stage_and_reserve_steps _ _ _ _ _ Hwf Hu Hstage) as Hsteps.
  pose proof (rsteps_wf _ _ Hwf Hsteps) as Hwf'.
  destruct (stage_resolves _ _ _ _ _ Hwf Henv Hu Hstage) as (b & Hc & Hr).
  assert (Hr' : resolves (ors_run after s') (sort_scopes r) b t)
    by (eapply resolves_steps; [done|by apply run_steps|done]).
  apply (resolves_existing _ _ _ _ Hc) in Hr'. unfold stage_and_reserve in *.
  destruct (reservation_request_validate r) as [u|]; [|done].
  unfold stage_body at 1. unfold_monad. simpl. by rewrite Hr'.
Qed.
End StageThenRetry.
