(* ===== verification/OrsRecovery.v ===== *)
(** * Restart recovery, fencing and the recovery cursor

    The paged rewrites of [recover_interrupted_execution] and
    [fence_writer_epoch] reach every row they select and then stop, and the
    recovery cursor walks the unresolved reservations in order, each once. *)

From Stdlib Require Import String.
From stdpp Require Import relations.
From S2P Require Import Prelude RustText Contracts Receipts OrsModel OrsStore OrsLaws OrsSteps OrsTheorems.

#[local] Open Scope string_scope.
#[local] Open Scope list_scope.
#[local] Open Scope Z_scope.

(** ** One page *)

Section Page.
Variable select : ReservationRecord -> bool.
Variable reason : OpaqueLabel.
Hypothesis select_marked : forall r, select r = true -> select (set_rd_unknown reason r) = false.
Implicit Types (m : gmap string ReservationRecord) (r : ReservationRecord).

Definition marked (r : ReservationRecord) : ReservationRecord :=
  if select r then set_rd_unknown reason r else r.

Definition page_round (m : gmap string ReservationRecord) : gmap string ReservationRecord :=
  insert_all fst (fun row => set_rd_unknown reason row.2) (page_of select m) m.

Lemma page_round_lookup m k r : m !! k = Some r ->
  page_round m !! k = Some r \/
  (select r = true /\ page_round m !! k = Some (set_rd_unknown reason r)).
Proof.
  intros Hk. unfold page_round. destruct (decide (k ∈ (page_of select m).*1)) as [Hin|Hin].
  - right. apply list_elem_of_fmap in Hin as (row & -> & Hin).
    pose proof (page_of_elem _ _ _ Hin) as [Hr Hs]. assert (row.2 = r) as <- by congruence.
    split; [done|]. apply (insert_all_lookup fst (fun row => set_rd_unknown reason row.2));
      [apply page_of_NoDup|done].
  - left. by rewrite insert_all_none.
Qed.

Lemma page_round_none m k : m !! k = None -> page_round m !! k = None.
Proof.
  intros Hk. unfold page_round. rewrite insert_all_none; [done|]. intros Hin.
  apply list_elem_of_fmap in Hin as (row & -> & Hin). apply page_of_elem in Hin as [? _]. congruence.
Qed.

Lemma page_round_marked m : marked <$> page_round m = marked <$> m.
Proof.
  apply map_eq. intros k. rewrite !lookup_fmap. destruct (m !! k) as [r|] eqn:Hk.
  - destruct (page_round_lookup m k r Hk) as [-> |[Hs ->]]; [done|]. simpl. f_equal. unfold marked.
    by rewrite Hs, (select_marked r Hs).
  - by rewrite page_round_none.
Qed.

Definition selected (m : gmap string ReservationRecord) : gmap string ReservationRecord :=
  filter (fun kr => select kr.2 = true) m.

Lemma page_round_fewer m : page_of select m <> [] -> (size (selected (page_round m)) < size (selected m))%nat.
Proof.
  intros Hne. apply map_subset_size. split.
  - apply map_subseteq_spec. intros k r. unfold selected. rewrite !map_lookup_filter_Some. simpl.
    intros [Hk Hs]. destruct (m !! k) as [r0|] eqn:Hm; [|by rewrite page_round_none in Hk].
    destruct (page_round_lookup m k r0 Hm) as [E|[Hs0 E]]; rewrite E in Hk; injection Hk as <-; [done|].
    by rewrite select_marked in Hs.
  - destruct (page_of select m) as [|[k r] l] eqn:E; [done|]. intros Hsub.
    assert (Hin : (k, r) ∈ page_of select m) by (rewrite E; left).
    pose proof (page_of_elem _ _ _ Hin) as [Hk Hs]. simpl in Hk, Hs.
    assert (Hl : selected m !! k = Some r) by (apply map_lookup_filter_Some; done).
    apply (lookup_weaken _ _ _ _ Hl) in Hsub. apply map_lookup_filter_Some in Hsub as [Hr _].
    unfold page_round in Hr.
    rewrite (insert_all_lookup fst (fun row => set_rd_unknown reason row.2) _ _ (k, r)) in Hr;
      [|apply page_of_NoDup|done].
    injection Hr as Hr. pose proof (select_marked r Hs) as Hf. simpl in Hr. congruence.
Qed.

Lemma page_empty m k r : page_of select m = [] -> m !! k = Some r -> select r = false.
Proof.
  unfold page_of. intros Hp Hk. destruct (select r) eqn:Hs; [|done].
  destruct (List.filter _ _) as [|row l] eqn:Hf; [|done].
  assert (Hin : In (k, r) (List.filter (fun row => select row.2) (btree_iter m))).
  { apply filter_In. split; [|done]. by apply list_elem_of_In, btree_iter_lookup. }
  by rewrite Hf in Hin.
Qed.

Lemma page_empty_marked m : page_of select m = [] -> marked <$> m = m.
Proof.
  intros Hp. apply map_eq. intros k. rewrite lookup_fmap. destruct (m !! k) as [r|] eqn:Hk; [|done].
  simpl. unfold marked. by rewrite (page_empty m k r Hp Hk).
Qed.
End Page.

(** ** Restart *)

Lemma interrupted_marked r : interrupted r = true -> interrupted (set_rd_unknown restart_reason r) = false.
Proof. done. Qed.

(** The scopes an interrupted reservation holds. *)
Definition interrupted_scope (m : gmap string ReservationRecord) (scope : string) : Prop :=
  exists k r, m !! k = Some r /\ rd_state r = RsExecuting /\ scope ∈ token_scopes (rd_token r).

Lemma block_scopes_ok missing l (heads : Heads) :
  (forall scope, scope ∈ l -> is_Some (heads !! scope)) ->
  exists heads', block_scopes missing l heads = Ok heads' /\
    forall scope, heads' !! scope =
      (if bool_decide (scope ∈ l) then set_recovery_blocked true else id) <$> heads !! scope.
Proof.
  unfold block_scopes. revert heads. induction l as [|x l IH]; intros heads Hall.
  { exists heads. split; [done|]. intros scope. rewrite bool_decide_eq_false_2 by apply not_elem_of_nil.
    by destruct (heads !! scope). }
  destruct (Hall x ltac:(left)) as [h Hx]. simpl. rewrite Hx. simpl.
  destruct (IH (<[x := set_recovery_blocked true h]> heads)) as (heads' & Hf & Hl).
  { intros scope Hin. destruct (decide (x = scope)) as [<- |]; [rewrite lookup_insert_eq; by eexists|].
    rewrite lookup_insert_ne by done. apply Hall. by right. }
  exists heads'. split; [done|]. intros scope. rewrite Hl. destruct (decide (x = scope)) as [<- |Hne].
  - rewrite lookup_insert_eq, Hx. rewrite (bool_decide_eq_true_2 (x ∈ x :: l)) by left. simpl.
    by case_bool_decide.
  - rewrite lookup_insert_ne by done. repeat case_bool_decide; try done.
    + exfalso. by rewrite elem_of_cons in *; naive_solver.
    + exfalso. by rewrite elem_of_cons in *; naive_solver.
Qed.

(** What a completed restart does to the tables, and all it does. *)
Record restarted (s s' : OrsStore) : Prop := {
  rx_reservations : os_reservations s' = marked interrupted restart_reason <$> os_reservations s;
  rx_blocked : forall scope, interrupted_scope (os_reservations s) scope ->
    os_scope_heads s' !! scope = set_recovery_blocked true <$> os_scope_heads s !! scope;
  rx_free : forall scope, ~ interrupted_scope (os_reservations s) scope ->
    os_scope_heads s' !! scope = os_scope_heads s !! scope;
  rx_envelopes : os_envelopes s' = os_envelopes s;
  rx_terminals : os_scope_terminals s' = os_scope_terminals s;
  rx_indexes : same_indexes s s';
}.

Definition page_scopes (page : list (string * ReservationRecord)) : list string :=
  flat_map (fun row => token_scopes (rd_token row.2)) page.

Lemma page_scopes_elem page scope :
  scope ∈ page_scopes page <-> exists row, row ∈ page /\ scope ∈ token_scopes (rd_token row.2).
Proof.
  unfold page_scopes. rewrite list_elem_of_In, in_flat_map. setoid_rewrite list_elem_of_In. done.
Qed.

Lemma interrupted_iff r : interrupted r = true <-> rd_state r = RsExecuting.
Proof. unfold interrupted. by rewrite bool_decide_eq_true. Qed.

#[global] Instance interrupted_scope_dec m scope : Decision (interrupted_scope m scope).
Proof.
  destruct (existsb (fun r => interrupted r && bool_decide (scope ∈ token_scopes (rd_token r)))
              (btree_values m)) eqn:E.
  - left. apply existsb_exists in E as (r & Hr & Hb). bool_facts. apply interrupted_iff in H.
    apply list_elem_of_In, btree_values_elem in Hr as [k Hk]. by exists k, r.
  - right. intros (k & r & Hk & Hst & Hsc). rewrite existsb_false_iff, Forall_forall in E.
    specialize (E r). rewrite bool_decide_eq_true_2, andb_true_r in E by done.
    apply interrupted_iff in Hst. rewrite E in Hst; [done|]. apply btree_values_elem. by exists k.
Qed.

Section Restart.
Context `{OrsWire}.
Implicit Types (s : OrsStore).

(** One committed page. *)
Lemma restart_round s page : ors_wf s -> page = page_of interrupted (os_reservations s) ->
  os_reservations_revision s < u64_max ->
  exists s1, transact CommitOk (recover_page_body page) s = (s1, Ok tt) /\
    os_reservations s1 = page_round interrupted restart_reason (os_reservations s) /\
    (forall scope, os_scope_heads s1 !! scope =
       (if bool_decide (scope ∈ page_scopes page) then set_recovery_blocked true else id)
         <$> os_scope_heads s !! scope) /\
    os_reservations_revision s1 = os_reservations_revision s + 1 /\
    os_envelopes s1 = os_envelopes s /\ os_scope_terminals s1 = os_scope_terminals s /\
    same_indexes s s1.
Proof.
  intros Hwf -> Hrev. set (page := page_of interrupted (os_reservations s)).
  destruct (block_scopes_ok
    (OeIntegrityProblem "scope_head" "interrupted reservation scope head is missing")
    (page_scopes page) (os_scope_heads s)) as (heads & Hb & Hl).
  { intros scope Hin. apply page_scopes_elem in Hin as (row & Hrow & Hsc).
    apply page_of_elem in Hrow as [Hr _]. apply scope_entry in Hsc as (e & He & <-).
    destruct (ro_entry _ _ _ (wf_record s Hwf _ _ Hr) e He) as (_ & _ & h & Hh & _).
    unfold core_heads in Hh. rewrite lookup_fmap in Hh. by destruct (os_scope_heads s !! _). }
  unfold recover_page_body, transact. unfold_monad. unfold mark_page, put_scope_heads. unfold_monad.
  simpl. fold page. unfold page_scopes in Hb. rewrite Hb. simpl.
  unfold bump_reservations_revision, next_revision. simpl.
  assert (checked_add (os_reservations_revision s) 1 = Some (os_reservations_revision s + 1)) as ->
    by (apply checked_add_some; lia).
  simpl. eexists; split; [done|]. simpl. by split_and!.
Qed.

Lemma restart_rounds fuel : forall s, ors_wf s ->
  (size (selected interrupted (os_reservations s)) < fuel)%nat ->
  os_reservations_revision s + Z.of_nat (size (selected interrupted (os_reservations s))) <= u64_max ->
  exists s', recover_rounds fuel [] s = (s', Ok (Some tt)) /\ restarted s s'.
Proof.
  induction fuel as [|fuel IH]; intros s Hwf Hfuel Hrev; [lia|]. simpl.
  destruct (page_of interrupted (os_reservations s)) as [|row page] eqn:Hp.
  { exists s. split; [done|]. constructor; try done.
    - by rewrite page_empty_marked.
    - intros scope (k & r & Hk & Hst & _). apply interrupted_iff in Hst.
      by rewrite (page_empty _ _ _ _ Hp Hk) in Hst. }
  rewrite <- Hp.
  assert (Hne : page_of interrupted (os_reservations s) <> []) by (rewrite Hp; discriminate).
  pose proof (page_round_fewer interrupted restart_reason interrupted_marked _ Hne) as Hfewer.
  destruct (restart_round s (page_of interrupted (os_reservations s)) Hwf eq_refl ltac:(lia))
    as (s1 & Ht & Hres & Hheads & Hrev1 & Henv & Hterm & Hidx).
  assert (Hwf1 : ors_wf s1).
  { eapply rsteps_wf; [exact Hwf|]. exact (recover_page_steps _ _ _ _ Hwf eq_refl _ Ht). }
  rewrite <- Hres in Hfewer. destruct (IH s1 Hwf1 ltac:(lia) ltac:(lia)) as (s' & Hr & Heff).
  exists s'. split.
  { unfold mseq. simpl. by rewrite Ht. }
  destruct Heff as [E1 E2 E3 E4 E5 E6].
  assert (Hsplit : forall scope, interrupted_scope (os_reservations s) scope <->
    scope ∈ page_scopes (page_of interrupted (os_reservations s)) \/
    interrupted_scope (os_reservations s1) scope).
  { intros scope. rewrite Hres, page_scopes_elem. split.
    - intros (k & r & Hk & Hst & Hsc).
      destruct (page_round_lookup interrupted restart_reason _ k r Hk) as [E|[_ E]].
      + right. by exists k, r.
      + left. destruct (decide (k ∈ (page_of interrupted (os_reservations s)).*1)) as [Hin|Hin].
        * apply list_elem_of_fmap in Hin as (row' & -> & Hin). exists row'. split; [done|].
          apply page_of_elem in Hin as [Hk' _]. congruence.
        * unfold page_round in E. rewrite insert_all_none in E by done. rewrite Hk in E.
          apply (f_equal (fmap rd_state)) in E. simpl in E. congruence.
    - intros [(row' & Hin & Hsc)|(k & r & Hk & Hst & Hsc)].
      + apply page_of_elem in Hin as [Hk Hs]. apply interrupted_iff in Hs. by exists row'.1, row'.2.
      + destruct (os_reservations s !! k) as [r0|] eqn:Hk0; [|by rewrite page_round_none in Hk].
        destruct (page_round_lookup interrupted restart_reason _ k r0 Hk0) as [E|[_ E]];
          rewrite E in Hk; injection Hk as <-; [by exists k, r0|done]. }
  constructor.
  - rewrite E1, Hres. by apply page_round_marked.
  - intros scope Hsc. destruct (decide (scope ∈ page_scopes (page_of interrupted (os_reservations s)))) as [Hin|Hin].
    + assert (Hh : os_scope_heads s1 !! scope = set_recovery_blocked true <$> os_scope_heads s !! scope)
        by (by rewrite Hheads, bool_decide_eq_true_2).
      destruct (decide (interrupted_scope (os_reservations s1) scope)) as [H1|H1].
      * rewrite E2, Hh by done. by destruct (os_scope_heads s !! scope).
      * by rewrite E3, Hh.
    + assert (Hh : os_scope_heads s1 !! scope = os_scope_heads s !! scope)
        by (rewrite Hheads, bool_decide_eq_false_2 by done; by destruct (os_scope_heads s !! scope)).
      rewrite <- Hh. apply E2. apply Hsplit in Hsc as [?|?]; done.
  - intros scope Hsc. rewrite E3 by (intros Hx; apply Hsc, Hsplit; by right).
    rewrite Hheads, bool_decide_eq_false_2 by (intros Hx; apply Hsc, Hsplit; by left).
    by destruct (os_scope_heads s !! scope).
  - congruence.
  - congruence.
  - destruct E6, Hidx. constructor; congruence.
Qed.
End Restart.

Lemma selected_size select (m : gmap string ReservationRecord) : (size (selected select m) <= size m)%nat.
Proof. apply map_subseteq_size, map_filter_subseteq. Qed.

(** ** Fencing *)

Section Fence.
Context `{OrsWire}.
Variables (unique : gset string) (successor : EpochLineage).

Lemma fence_marked r : fence_pending unique successor r = true ->
  fence_pending unique successor (set_rd_unknown fenced_reason r) = false.
Proof.
  intros _. unfold fence_pending. cbn [set_rd_unknown rd_state rd_unknown_reason].
  rewrite !bool_decide_eq_true_2 by done. by rewrite andb_false_r.
Qed.

(** The rounds end, with every selected record marked and nothing else
    rewritten. *)
Lemma fence_rounds_total fuel : forall s s' o,
  (size (selected (fence_pending unique successor) (os_reservations s)) < fuel)%nat ->
  fence_rounds fuel unique successor s = (s', Ok o) ->
  o = Some tt /\
  os_reservations s' = marked (fence_pending unique successor) fenced_reason <$> os_reservations s /\
  os_scope_heads s' = os_scope_heads s.
Proof.
  induction fuel as [|fuel IH]; intros s s' o Hfuel Hr; [lia|]. simpl in Hr.
  destruct (page_of _ _) as [|row page] eqn:Hp.
  { injection Hr as <- <-. by rewrite page_empty_marked. }
  unfold_monad. simpl in Hr.
  destruct (bump_reservations_revision _) as [s2 [[]|]] eqn:Hbump; [|done].
  apply bump_reservations_ok in Hbump as [n ->].
  assert (Hne : page_of (fence_pending unique successor) (os_reservations s) <> [])
    by (rewrite Hp; discriminate).
  pose proof (page_round_fewer _ fenced_reason fence_marked _ Hne) as Hfewer.
  unfold page_round in Hfewer. rewrite Hp in Hfewer.
  apply IH in Hr as (-> & -> & ->); [|eapply Nat.lt_le_trans; [exact Hfewer|lia]].
  split_and!; [done| |done]. simpl.
  pose proof (page_round_marked _ _ fence_marked (os_reservations s)) as Hm.
  unfold page_round in Hm. by rewrite Hp in Hm.
Qed.
End Fence.

(** ** The cursor *)

Section Cursor.
Context `{OrsWire}.
Implicit Types (s : OrsStore) (r : ReservationRecord).

(** The reservations in the order of the index. *)
Definition records_by_order (s : OrsStore) : list ReservationRecord :=
  omap (fun row => os_reservations s !! row.2) (btree_iter (os_orders s)).

Definition unresolved_after (s : OrsStore) (after : Z) : list ReservationRecord :=
  List.filter (fun r => negb (reservation_is_terminal (rd_state r)) && (after <? rd_order r))
    (records_by_order s).

Definition row_of s (row : string * string) r : Prop :=
  os_reservations s !! row.2 = Some r /\ row.1 = order_key (rd_order r).

Lemma rows_records s l : ors_wf s -> (forall row, row ∈ l -> os_orders s !! row.1 = Some row.2) ->
  Forall2 (row_of s) l (omap (fun row => os_reservations s !! row.2) l).
Proof.
  intros Hwf. induction l as [|row l IH]; intros Hall; simpl; [constructor|].
  destruct (wf_orders s Hwf _ _ (Hall row ltac:(left))) as (r & Hr & Hkey). rewrite Hr.
  constructor; [done|]. apply IH. intros row' Hin. apply Hall. by right.
Qed.

Lemma index_records s : ors_wf s -> Forall2 (row_of s) (btree_iter (os_orders s)) (records_by_order s).
Proof.
  intros Hwf. apply rows_records; [done|]. intros [key k] Hin. by apply btree_iter_lookup in Hin.
Qed.

(** Every reservation once, in strictly growing order. *)
Lemma records_by_order_elem s r : ors_wf s ->
  r ∈ records_by_order s <-> exists k, os_reservations s !! k = Some r.
Proof.
  intros Hwf. unfold records_by_order. rewrite list_elem_of_omap. split.
  - intros (row & _ & Hr). by eexists.
  - intros [k Hk]. exists (order_key (rd_order r), k). split; [|done].
    apply btree_iter_lookup. apply (ro_order _ _ _ (wf_record s Hwf k r Hk)).
Qed.

Lemma records_by_order_sorted s : ors_wf s ->
  StronglySorted (fun a b => rd_order a < rd_order b) (records_by_order s).
Proof.
  intros Hwf. pose proof (index_records s Hwf) as Hall.
  pose proof (btree_iter_sorted (os_orders s)) as Hs. pose proof (btree_iter_NoDup (os_orders s)) as Hnd.
  assert (Hu : forall r, r ∈ records_by_order s -> is_u64 (rd_order r)).
  { intros r Hr. apply records_by_order_elem in Hr as [k Hk]; [|done]. by eapply order_u64. }
  revert Hs Hnd Hu. induction Hall as [|row r rows rs [Hr Hkey] Hall IH]; intros Hs Hnd Hu; [constructor|].
  apply StronglySorted_inv in Hs as [Hs' Hf]. rewrite fmap_cons, NoDup_cons in Hnd. destruct Hnd as [Hni Hnd].
  constructor; [apply IH; try done; intros r' Hr'; apply Hu; by right|].
  rewrite Forall_forall in Hf. apply Forall_forall. intros r' Hr'.
  apply list_elem_of_lookup in Hr' as [i Hi]. destruct (Forall2_lookup_r _ _ _ _ _ Hall Hi) as (row' & Hi' & Hrow).
  destruct Hrow as [_ Hkey'].
  apply list_elem_of_lookup_2 in Hi' as Hin'. apply list_elem_of_lookup_2 in Hi as Hin.
  specialize (Hf row' Hin'). unfold key_le in Hf. rewrite Hkey, Hkey' in Hf.
  apply order_key_le in Hf; [|apply Hu; left|apply Hu; by right].
  assert (rd_order r <> rd_order r'); [|lia]. intros E. apply Hni. rewrite Hkey, E, <- Hkey'.
  by apply (list_elem_of_fmap_2 fst).
Qed.

Definition keep (after : Z) (r : ReservationRecord) : bool :=
  negb (reservation_is_terminal (rd_state r)) && (after <? rd_order r).

Lemma recover_scan_ok s after limit rows rs acc : ors_wf s -> labels_ok s ->
  Forall2 (row_of s) rows rs -> usize_of_len acc <= limit ->
  recover_scan s after limit rows acc =
    Ok (acc ++ take (Z.to_nat (limit + 1) - length acc) (List.filter (keep after) rs)).
Proof.
  intros Hwf Hlab Hall. revert acc. induction Hall as [|[key k] r rows rs [Hr Hkey] Hall IH];
    intros acc Hacc; unfold usize_of_len in Hacc.
  { simpl. by rewrite take_nil, app_nil_r. }
  simpl in Hr, Hkey. cbn [recover_scan]. subst key. unfold parse_order.
  rewrite (parse_order_key (rd_order r)) by (by eapply order_u64). cbn [ok_or rbind].
  unfold keep at 1. cbn [List.filter].
  destruct (Z.leb_spec (rd_order r) after) as [Hle|Hlt].
  { rewrite (proj2 (Z.ltb_ge _ _)), andb_false_r by lia. by apply IH. }
  rewrite (proj2 (Z.ltb_lt _ _)), andb_true_r by lia.
  assert (stored_label "reservation_order" k = Ok k) as ->.
  { unfold stored_label, OpaqueLabel_new. by rewrite (Hlab k r Hr). }
  cbn [rbind]. rewrite Hr. cbn [ok_or rbind]. fold (rd_order r).
  rewrite (bool_decide_eq_true_2 (rd_order r = rd_order r)) by done. cbn [negb guard_err rbind].
  destruct (reservation_is_terminal (rd_state r)); cbn [negb]; [by apply IH|].
  unfold usize_of_len. rewrite length_app. simpl.
  destruct (Z.ltb_spec limit (Z.of_nat (length acc + 1))) as [Hfull|Hroom].
  - replace (Z.to_nat (limit + 1) - length acc)%nat with 1%nat by lia. by destruct (List.filter _ rs).
  - rewrite IH by (unfold usize_of_len; rewrite length_app; simpl; lia). rewrite length_app. simpl.
    replace (Z.to_nat (limit + 1) - length acc)%nat
      with (S (Z.to_nat (limit + 1) - (length acc + 1)))%nat by lia.
    by rewrite <- app_assoc.
Qed.

Lemma recover_page_ok s after limit : ors_wf s -> labels_ok s -> 1 <= limit <= MAX_RECOVERY_PAGE ->
  recover_page s {| cu_after_order := after; cu_limit := limit |} =
    Ok {| pg_records := take (Z.to_nat limit) (unresolved_after s after);
          pg_next_after_order :=
            if limit <? usize_of_len (unresolved_after s after)
            then rd_order <$> last (take (Z.to_nat limit) (unresolved_after s after)) else None |}.
Proof.
  intros Hwf Hlab Hlim. unfold recover_page. cbn [cu_limit cu_after_order].
  unfold cursor_limit_bad. rewrite (proj2 (Z.eqb_neq _ _)), (proj2 (Z.ltb_ge _ _)) by lia.
  cbn [orb guard_err rbind].
  rewrite (recover_scan_ok _ _ _ _ _ _ Hwf Hlab (index_records s Hwf)) by (unfold usize_of_len; simpl; lia).
  cbn [rbind length app]. rewrite Nat.sub_0_r. fold (unresolved_after s after).
  change (List.filter (keep after) (records_by_order s)) with (unresolved_after s after).
  set (P := unresolved_after s after). unfold usize_of_len. rewrite length_take.
  destruct (Z.ltb_spec limit (Z.of_nat (length P))) as [Hmore|Hend].
  - rewrite (proj2 (Z.ltb_lt _ _)) by lia.
    replace (Z.to_nat (limit + 1) `min` length P)%nat with (S (Z.to_nat limit)) by lia.
    rewrite take_take. replace (S (Z.to_nat limit) - 1)%nat with (Z.to_nat limit) by lia.
    replace (Z.to_nat limit `min` Z.to_nat (limit + 1))%nat with (Z.to_nat limit) by lia. done.
  - rewrite (proj2 (Z.ltb_ge _ _)) by lia. rewrite !take_ge by lia. done.
Qed.

Lemma filter_none (f : ReservationRecord -> bool) l : Forall (fun r => f r = false) l -> List.filter f l = [].
Proof. induction 1 as [|r l Hr _ IH]; simpl; [done|]. by rewrite Hr. Qed.

Lemma filter_all (f : ReservationRecord -> bool) l : Forall (fun r => f r = true) l -> List.filter f l = l.
Proof. induction 1 as [|r l Hr _ IH]; simpl; [done|]. by rewrite Hr, IH. Qed.

Lemma unresolved_sorted s after : ors_wf s ->
  StronglySorted (fun a b => rd_order a < rd_order b) (unresolved_after s after).
Proof.
  intros Hwf. unfold unresolved_after. pose proof (records_by_order_sorted s Hwf) as Hs.
  induction Hs as [|r l Hs IH Hf]; [constructor|]. simpl. destruct (_ && _); [|done].
  constructor; [done|]. apply Forall_forall. intros r' Hr'. rewrite Forall_forall in Hf. apply Hf.
  apply list_elem_of_In. apply list_elem_of_In, filter_In in Hr'. naive_solver.
Qed.

Lemma unresolved_shift s after x : after <= x ->
  unresolved_after s x = List.filter (fun r => x <? rd_order r) (unresolved_after s after).
Proof.
  intros Hle. unfold unresolved_after. induction (records_by_order s) as [|r l IH]; [done|]. simpl.
  destruct (reservation_is_terminal (rd_state r)); simpl; [done|].
  destruct (Z.ltb_spec after (rd_order r)); simpl.
  - destruct (x <? rd_order r); by rewrite IH.
  - rewrite (proj2 (Z.ltb_ge _ _)) by lia. done.
Qed.

(** Continuing from the last record of a page gives what the page left. *)
Lemma unresolved_next s after n r : ors_wf s -> after <= rd_order r ->
  last (take n (unresolved_after s after)) = Some r ->
  unresolved_after s (rd_order r) = drop n (unresolved_after s after).
Proof.
  intros Hwf Hle Hlast. rewrite (unresolved_shift s after (rd_order r) Hle).
  pose proof (unresolved_sorted s after Hwf) as Hs. set (P := unresolved_after s after) in *.
  rewrite <- (take_drop n P) in Hs |- * at 1. apply last_Some in Hlast as [l' Hl'].
  rewrite Hl' in Hs |- *. rewrite List.filter_app, filter_none, filter_all; [done| |].
  - apply Forall_forall. intros y Hy. apply Z.ltb_lt. rewrite <- app_assoc in Hs.
    apply StronglySorted_app in Hs as (_ & _ & Hs).
    apply StronglySorted_cons in Hs as [Hf _]. rewrite Forall_forall in Hf. by apply Hf.
  - apply Forall_app. split; [|apply Forall_singleton, Z.ltb_irrefl].
    apply Forall_forall. intros y Hy. apply Z.ltb_ge.
    rewrite <- app_assoc in Hs. apply StronglySorted_app in Hs as (Hs & _ & _).
    assert (rd_order y < rd_order r); [|lia]. apply Hs; [done|left].
Qed.
End Cursor.

(** ** What recovery promises *)

#[local] Arguments fence_rounds : simpl never.

Section RecoveryPromises.
Context `{OrsWire, CanonicalEvidence}.

(** C6. A restart whose commits succeed ends, however many pages it takes: every
    reservation that was executing is reconciling with the restart's reason,
    every scope of one is blocked, and no other row has changed. *)
Theorem restart_recovers_exactly (calls : list OrsCall) (Hcalls : Forall call_typed calls)
    (Hrevision : os_reservations_revision (ors_run calls ors_empty)
                 + Z.of_nat (size (os_reservations (ors_run calls ors_empty))) <= u64_max) :
  exists s', recover_interrupted_reservations [] (ors_run calls ors_empty) = (s', Ok (Some tt)) /\
    restarted (ors_run calls ors_empty) s' /\
    forall k r, os_reservations s' !! k = Some r -> rd_state r <> RsExecuting.
Proof.
  set (s := ors_run calls ors_empty) in *. pose proof (run_wf calls Hcalls : ors_wf s) as Hwf.
  pose proof (selected_size interrupted (os_reservations s)) as Hsize.
  destruct (restart_rounds (rounds_fuel s) s Hwf) as (s' & Hr & Heff);
    [unfold rounds_fuel; lia|lia|].
  exists s'. split_and!; [done|done|]. intros k r Hk. rewrite (rx_reservations _ _ Heff) in Hk.
  apply lookup_fmap_Some in Hk as (r0 & <- & _). unfold marked.
  destruct (interrupted r0) eqn:Hi; [done|]. intros E. apply interrupted_iff in E. congruence.
Qed.

(** C7. A fence that succeeds has run its rounds to the end: every unfinished
    reservation of another epoch on a fenced scope is reconciling, and the
    rest of the reservations are as they were. *)
Theorem fence_reaches_every_reservation (c : CommitOutcome) (scopes : list OpaqueLabel)
    (successor : EpochLineage) (s s' : OrsStore) (o : option unit)
    (Hfence : fence_writer_epoch c scopes successor s = (s', Ok o)) :
  o = Some tt /\
  os_reservations s' =
    marked (fence_pending (list_to_set scopes) successor) fenced_reason <$> os_reservations s /\
  forall k r scope, os_reservations s' !! k = Some r -> scope ∈ scopes ->
    scope ∈ token_scopes (rd_token r) -> reservation_is_terminal (rd_state r) = false ->
    el_current (tk_writer_epoch (rd_token r)) <> el_current successor -> rd_state r = RsReconciling.
Proof.
  revert Hfence. unfold fence_writer_epoch. unfold_monad.
  destruct (epoch_lineage_validate successor) as [[]|]; [|done].
  destruct (usize_of_len scopes =? 0); [done|]. destruct (negb _); [done|].
  destruct (MAX_RECOVERY_PAGE <? _); [done|]. intros Hx.
  assert (Hfuel : (size (selected (fence_pending (list_to_set scopes) successor) (os_reservations s))
                   < rounds_fuel s)%nat) by (unfold rounds_fuel; pose proof (selected_size
    (fence_pending (list_to_set scopes) successor) (os_reservations s)); lia).
  apply transact_ok in Hx as [(_ & s1 & Hb)|[_ Hb]]; unfold put_scope_heads in Hb; simpl in Hb;
    destruct (fold_res _ _ _) as [heads|]; try done; simpl in Hb;
    destruct (fence_rounds _ _ _ _) as [s2 [o2|]] eqn:Hr; try done.
  injection Hb as -> ->.
  apply fence_rounds_total in Hr as (-> & Hres & _); [|done].
  simpl in Hres. split_and!; [done|done|]. intros k r scope Hk Hs1 Hs2 Hp He.
  rewrite Hres in Hk. apply lookup_fmap_Some in Hk as (r0 & <- & _). unfold marked in *.
  destruct (fence_pending _ _ r0) eqn:Hf; [done|].
  unfold fence_pending, epoch_affected in Hf. rewrite Hp in Hf. simpl in Hf.
  rewrite (bool_decide_eq_false_2 _ He) in Hf. simpl in Hf.
  assert (existsb (fun scope => bool_decide (scope ∈ (list_to_set scopes : gset string)))
            (token_scopes (rd_token r0)) = true) as Hex.
  { apply existsb_exists. exists scope. split; [by apply list_elem_of_In|].
    apply bool_decide_eq_true. by apply elem_of_list_to_set. }
  rewrite Hex in Hf. simpl in Hf. bool_facts. done.
Qed.
End RecoveryPromises.
