(* ===== verification/WriteCoordinator.v ===== *)
(** * The write coordinator

    The kernel's in-memory gate over the reservation tables
    (crates/kernel/eliot-kernel-service/src/write_coordinator.rs): scope
    permits and executor lanes, the fair ready-scope queue, retry delays,
    metrics, the generation switch and the recovery listing.

    The recovery store it drives is the class [ReservationOwner], with the
    tables of [OrsStore] as its instance. An [Instant] and a [Duration] are
    nanosecond counts, [instant_max] the last representable instant; each
    call takes the instant its [Instant::now()] returned and the outcome of
    the commit it makes. The mutex is held over each call, so calls are
    atomic. *)

From Stdlib Require Import String.
From S2P Require Import Prelude RustText Contracts Receipts OrsModel OrsStore.

#[local] Open Scope string_scope.
#[local] Open Scope list_scope.
#[local] Open Scope Z_scope.

(** ** The store the coordinator drives *)

Class ReservationOwner (Env S : Type) := {
  owner_stage_and_reserve : Env -> ReservationRequest -> M S OrsError WriterReservationToken;
  owner_mark_eligible : Env -> WriterReservationToken -> M S OrsError ReservationRecord;
  owner_begin_execute :
    Env -> WriterReservationToken -> EpochIdentity -> M S OrsError ReservationRecord;
  owner_reconcile : Env -> CanonicalReconciliation -> M S OrsError ReservationRecord;
  owner_release : Env -> WriterReservationToken -> EpochIdentity -> M S OrsError ReservationRecord;
  owner_recover_page : S -> RecoveryCursor -> OrsR RecoveryPage;
}.

#[global] Instance ors_owner `{OrsWire, CanonicalEvidence} : ReservationOwner CommitOutcome OrsStore := {
  owner_stage_and_reserve := stage_and_reserve;
  owner_mark_eligible := mark_eligible;
  owner_begin_execute := begin_execute;
  owner_reconcile := reconcile;
  owner_release := release;
  owner_recover_page := recover_page;
}.

(** ** State *)

Inductive CoordinatorError : Type :=
| CeEmptyScopeSet
| CeDuplicateScope (scope : string)
| CeUnsortedScopes
| CeScopeBusy (scope : string)
| CeLanesExhausted (lanes : Z)
| CeAlreadyQueued (reservation_id : string)
| CeNoScopeHead (scope : string)
| CeRetryDelayOutOfRange (delay_ms : Z)
| CeNotDrained (in_flight queued : Z)
| CeOrs (error : OrsError).

Abbreviation ReadyScopeTicket := Z.

Record ReadyReservation : Type := {
  rr_ticket : ReadyScopeTicket;
  rr_token : WriterReservationToken;
  rr_scopes : list string;
}.

Record ReadyReservationEntry : Type := {
  re_token : WriterReservationToken;
  re_scopes : list string;
  re_ready_since : Z;
  re_not_before : Z;
}.

(** A [BTreeMap] keyed by tickets is the list of its entries by ascending
    ticket. *)
Abbreviation Entries := (list (ReadyScopeTicket * ReadyReservationEntry)).

Record ReadyScopeQueue : Type := {
  rq_entries : Entries;
  rq_next_ticket : Z;
}.

Record CoordinatorState : Type := {
  cs_lanes : option Z;
  cs_in_flight : Z;
  cs_busy : gmap string string;
  cs_ready : ReadyScopeQueue;
  cs_delayed_heads : gmap string Z;
  cs_head_retries : Z;
  cs_reservation_conflicts : Z;
}.

Record WriteCoordinator (S : Type) : Type := {
  wc_ors : S;
  wc_state : CoordinatorState;
}.
Arguments wc_ors {S} _.
Arguments wc_state {S} _.

Record ScopeExecutionGuard : Type := {
  sg_operation_id : string;
  sg_scopes : list string;
}.

Definition set_permits (busy : gmap string string) (in_flight : Z) (s : CoordinatorState)
    : CoordinatorState :=
  {| cs_lanes := cs_lanes s; cs_in_flight := in_flight; cs_busy := busy; cs_ready := cs_ready s;
     cs_delayed_heads := cs_delayed_heads s; cs_head_retries := cs_head_retries s;
     cs_reservation_conflicts := cs_reservation_conflicts s |}.

Definition set_ready (q : ReadyScopeQueue) (s : CoordinatorState) : CoordinatorState :=
  {| cs_lanes := cs_lanes s; cs_in_flight := cs_in_flight s; cs_busy := cs_busy s; cs_ready := q;
     cs_delayed_heads := cs_delayed_heads s; cs_head_retries := cs_head_retries s;
     cs_reservation_conflicts := cs_reservation_conflicts s |}.

Definition set_delays (delays : gmap string Z) (retries : Z) (s : CoordinatorState)
    : CoordinatorState :=
  {| cs_lanes := cs_lanes s; cs_in_flight := cs_in_flight s; cs_busy := cs_busy s;
     cs_ready := cs_ready s; cs_delayed_heads := delays; cs_head_retries := retries;
     cs_reservation_conflicts := cs_reservation_conflicts s |}.

Definition set_conflicts (n : Z) (s : CoordinatorState) : CoordinatorState :=
  {| cs_lanes := cs_lanes s; cs_in_flight := cs_in_flight s; cs_busy := cs_busy s;
     cs_ready := cs_ready s; cs_delayed_heads := cs_delayed_heads s;
     cs_head_retries := cs_head_retries s; cs_reservation_conflicts := n |}.

Definition set_lanes (lanes : Z) (s : CoordinatorState) : CoordinatorState :=
  {| cs_lanes := Some lanes; cs_in_flight := cs_in_flight s; cs_busy := cs_busy s;
     cs_ready := cs_ready s; cs_delayed_heads := cs_delayed_heads s;
     cs_head_retries := cs_head_retries s;
     cs_reservation_conflicts := cs_reservation_conflicts s |}.

(** [x.saturating_add(1)] and [x.saturating_sub(1)] at 64 bits. *)
Definition saturating_inc (x : Z) : Z := Z.min (x + 1) u64_max.
Definition saturating_dec (x : Z) : Z := Z.max (x - 1) 0.

(** [parallelism] is what [std::thread::available_parallelism] reported. *)
Definition default_executor_lanes (parallelism : option Z) : Z :=
  Z.max 1 (Z.min 4 (default 1 parallelism)).

(** ** The ready queue *)

Fixpoint entries_insert (ticket : ReadyScopeTicket) (entry : ReadyReservationEntry) (l : Entries)
    : Entries :=
  match l with
  | [] => [(ticket, entry)]
  | (t, e) :: rest =>
      if ticket <? t then (ticket, entry) :: l
      else if ticket =? t then (ticket, entry) :: rest
      else (t, e) :: entries_insert ticket entry rest
  end.

Definition entries_remove (ticket : ReadyScopeTicket) (l : Entries) : Entries :=
  List.filter (fun te => negb (te.1 =? ticket)) l.

Definition queue_insert (entry : ReadyReservationEntry) (q : ReadyScopeQueue)
    : ReadyScopeQueue * ReadyScopeTicket :=
  let ticket := rq_next_ticket q in
  ({| rq_entries := entries_insert ticket entry (rq_entries q);
      rq_next_ticket := saturating_inc ticket |}, ticket).

Definition same_reservation (token : WriterReservationToken)
    (te : ReadyScopeTicket * ReadyReservationEntry) : bool :=
  tk_reservation_id (re_token te.2) == tk_reservation_id token.

Definition queue_holds (q : ReadyScopeQueue) (token : WriterReservationToken) : bool :=
  existsb (same_reservation token) (rq_entries q).

Definition declares (scope : string) (entry : ReadyReservationEntry) : bool :=
  existsb (fun declared => declared == scope) (re_scopes entry).

Definition queue_declares_scope (q : ReadyScopeQueue) (scope : string) : bool :=
  existsb (fun te => declares scope te.2) (rq_entries q).

Definition delay_entry (scope : string) (until : Z) (entry : ReadyReservationEntry)
    : ReadyReservationEntry :=
  if declares scope entry && (re_not_before entry <? until) then
    {| re_token := re_token entry; re_scopes := re_scopes entry;
       re_ready_since := re_ready_since entry; re_not_before := until |}
  else entry.

Definition queue_delay_scope (scope : string) (until : Z) (q : ReadyScopeQueue) : ReadyScopeQueue :=
  {| rq_entries := (fun te => (te.1, delay_entry scope until te.2)) <$> rq_entries q;
     rq_next_ticket := rq_next_ticket q |}.

Definition is_busy (busy : gmap string string) (scope : string) : bool := is_some (busy !! scope).

Definition dispatchable (now : Z) (busy : gmap string string) (entry : ReadyReservationEntry) : bool :=
  (re_not_before entry <=? now) && negb (existsb (is_busy busy) (re_scopes entry)).

Definition dispatchable_ticket (q : ReadyScopeQueue) (now : Z) (busy : gmap string string)
    : option ReadyScopeTicket :=
  fst <$> find (fun te => dispatchable now busy te.2) (rq_entries q).

Definition queue_take (ticket : ReadyScopeTicket) (q : ReadyScopeQueue)
    : ReadyScopeQueue * option ReadyReservationEntry :=
  ({| rq_entries := entries_remove ticket (rq_entries q); rq_next_ticket := rq_next_ticket q |},
   snd <$> find (fun te => te.1 =? ticket) (rq_entries q)).

Definition queue_take_reservation (token : WriterReservationToken) (q : ReadyScopeQueue)
    : ReadyScopeQueue * option ReadyReservationEntry :=
  match find (same_reservation token) (rq_entries q) with
  | None => (q, None)
  | Some (ticket, _) => queue_take ticket q
  end.

(** ** Gates *)

Definition prune_elapsed_delays (now : Z) (s : CoordinatorState) : CoordinatorState :=
  set_delays (filter (fun kv => now < kv.2) (cs_delayed_heads s)) (cs_head_retries s) s.

(** The loop of [validated_scope_order]: the duplicate test comes first. *)
Fixpoint scan_scope_order (seen : gset string) (previous : option string)
    (scopes : list ReservedScope) : result CoordinatorError (list string) :=
  match scopes with
  | [] => Ok []
  | reserved :: rest =>
      let scope := rs_scope reserved in
      if bool_decide (scope ∈ seen) then Err (CeDuplicateScope scope)
      else if match previous with
              | Some prior => String.leb scope prior
              | None => false
              end then Err CeUnsortedScopes
      else
        let? tail := scan_scope_order ({[scope]} ∪ seen) (Some scope) rest in
        Ok (scope :: tail)
  end.

Definition validated_scope_order (token : WriterReservationToken)
    : result CoordinatorError (list string) :=
  check? guard_err (usize_of_len (tk_scopes token) =? 0) CeEmptyScopeSet;
  scan_scope_order ∅ None (tk_scopes token).

(** [state.lanes.unwrap_or(NonZeroUsize::MIN).get()] *)
Definition lane_bound (s : CoordinatorState) : Z := default 1 (cs_lanes s).

(** [busy.insert(scope, operation)] and [busy.remove(scope)] for each scope. *)
Definition occupy (operation_id : string) (scopes : list string) (busy : gmap string string)
    : gmap string string :=
  fold_left (fun acc scope => <[scope := operation_id]> acc) scopes busy.

Definition vacate (scopes : list string) (busy : gmap string string) : gmap string string :=
  fold_left (fun acc scope => delete scope acc) scopes busy.

Section Coordinator.
Context {Env S : Type} `{ReservationOwner Env S}.
Variable instant_max : Z.

Abbreviation CM := (M (WriteCoordinator S) CoordinatorError).

Definition coordinator_new (ors : S) (executor_lanes : Z) : WriteCoordinator S :=
  {| wc_ors := ors;
     wc_state := {| cs_lanes := Some executor_lanes; cs_in_flight := 0; cs_busy := ∅;
                    cs_ready := {| rq_entries := []; rq_next_ticket := 0 |};
                    cs_delayed_heads := ∅; cs_head_retries := 0; cs_reservation_conflicts := 0 |} |}.

(** Permits taken, the durable [Eligible -> Executing] transition, and the
    permits back on a refusal: the common tail of both admission paths. *)
Definition execute_with_permits (env : Env) (token : WriterReservationToken)
    (writer_epoch : EpochIdentity) (scopes : list string) (ors : S) (state : CoordinatorState)
    : WriteCoordinator S * result CoordinatorError ScopeExecutionGuard :=
  let operation_id := tk_operation_id token in
  let taken := set_permits (occupy operation_id scopes (cs_busy state))
                 (saturating_inc (cs_in_flight state)) state in
  match owner_begin_execute env token writer_epoch ors with
  | (ors', Err error) =>
      ({| wc_ors := ors';
          wc_state := set_permits (vacate scopes (cs_busy taken))
                        (saturating_dec (cs_in_flight taken)) taken |}, Err (CeOrs error))
  | (ors', Ok _) =>
      ({| wc_ors := ors'; wc_state := taken |},
       Ok {| sg_operation_id := operation_id; sg_scopes := scopes |})
  end.

Definition begin_execution (env : Env) (now : Z) (token : WriterReservationToken)
    (writer_epoch : EpochIdentity) : CM ScopeExecutionGuard := fun c =>
  match validated_scope_order token with
  | Err e => (c, Err e)
  | Ok scopes =>
      let state := wc_state c in
      if lane_bound state <=? cs_in_flight state then
        (c, Err (CeLanesExhausted (lane_bound state)))
      else match find (is_busy (cs_busy state)) scopes with
      | Some scope =>
          ({| wc_ors := wc_ors c;
              wc_state := set_conflicts (saturating_inc (cs_reservation_conflicts state)) state |},
           Err (CeScopeBusy scope))
      | None =>
          let pruned := prune_elapsed_delays now state in
          let dequeued := set_ready (queue_take_reservation token (cs_ready pruned)).1 pruned in
          execute_with_permits env token writer_epoch scopes (wc_ors c) dequeued
      end
  end.

(** [scopes.iter().filter_map(|s| delays.get(s)).max().unwrap_or(now)] *)
Definition inherited_delay (now : Z) (delays : gmap string Z) (scopes : list string) : Z :=
  match omap (fun scope => delays !! scope) scopes with
  | [] => now
  | d :: rest => fold_left Z.max rest d
  end.

Definition enqueue_ready (env : Env) (now : Z) (token : WriterReservationToken)
    : CM ReadyReservation := fun c =>
  match validated_scope_order token with
  | Err e => (c, Err e)
  | Ok scopes =>
      let pruned := prune_elapsed_delays now (wc_state c) in
      if queue_holds (cs_ready pruned) token then
        ({| wc_ors := wc_ors c; wc_state := pruned |},
         Err (CeAlreadyQueued (tk_reservation_id token)))
      else match owner_mark_eligible env token (wc_ors c) with
      | (ors', Err error) => ({| wc_ors := ors'; wc_state := pruned |}, Err (CeOrs error))
      | (ors', Ok _) =>
          let '(ready, ticket) :=
            queue_insert {| re_token := token; re_scopes := scopes; re_ready_since := now;
                            re_not_before := inherited_delay now (cs_delayed_heads pruned) scopes |}
              (cs_ready pruned) in
          ({| wc_ors := ors'; wc_state := set_ready ready pruned |},
           Ok {| rr_ticket := ticket; rr_token := token; rr_scopes := scopes |})
      end
  end.

Definition dispatch_ready (env : Env) (now : Z) (writer_epoch : EpochIdentity)
    : CM (option ScopeExecutionGuard) := fun c =>
  let pruned := prune_elapsed_delays now (wc_state c) in
  let idle := ({| wc_ors := wc_ors c; wc_state := pruned |}, Ok None) in
  if lane_bound pruned <=? cs_in_flight pruned then idle
  else match dispatchable_ticket (cs_ready pruned) now (cs_busy pruned) with
  | None => idle
  | Some ticket =>
      match queue_take ticket (cs_ready pruned) with
      | (ready, None) => ({| wc_ors := wc_ors c; wc_state := set_ready ready pruned |}, Ok None)
      | (ready, Some entry) =>
          match execute_with_permits env (re_token entry) writer_epoch (re_scopes entry) (wc_ors c)
                  (set_ready ready pruned) with
          | (c', Ok guard) => (c', Ok (Some guard))
          | (c', Err e) => (c', Err e)
          end
      end
  end.

Definition delay_scope_head (now : Z) (scope : string) (delay : Z) : CM unit := fun c =>
  let until := now + delay in
  if instant_max <? until then (c, Err (CeRetryDelayOutOfRange (delay / 1000000)))
  else
    let pruned := prune_elapsed_delays now (wc_state c) in
    if negb (is_some (cs_delayed_heads pruned !! scope) || is_busy (cs_busy pruned) scope
             || queue_declares_scope (cs_ready pruned) scope)
    then ({| wc_ors := wc_ors c; wc_state := pruned |}, Err (CeNoScopeHead scope))
    else
      ({| wc_ors := wc_ors c;
          wc_state := set_ready (queue_delay_scope scope until (cs_ready pruned))
                        (set_delays (<[scope := until]> (cs_delayed_heads pruned))
                           (saturating_inc (cs_head_retries pruned)) pruned) |}, Ok tt).

(** [Drop for ScopeExecutionGuard] *)
Definition drop_guard (guard : ScopeExecutionGuard) (c : WriteCoordinator S) : WriteCoordinator S :=
  let state := wc_state c in
  {| wc_ors := wc_ors c;
     wc_state := set_permits
       (fold_left (fun acc scope => if acc !! scope == Some (sg_operation_id guard)
                                    then delete scope acc else acc)
          (sg_scopes guard) (cs_busy state))
       (saturating_dec (cs_in_flight state)) state |}.

Definition reconfigure_lanes (lanes : Z) : CM unit := fun c =>
  let state := wc_state c in
  if negb (cs_in_flight state =? 0) || negb (cs_busy state == ∅)
     || negb (usize_of_len (rq_entries (cs_ready state)) =? 0)
  then (c, Err (CeNotDrained (cs_in_flight state) (usize_of_len (rq_entries (cs_ready state)))))
  else ({| wc_ors := wc_ors c; wc_state := set_lanes lanes state |}, Ok tt).

(** ** Calls passed to the store *)

Definition on_ors {A} (f : M S OrsError A) (c : WriteCoordinator S) : WriteCoordinator S * OrsR A :=
  let '(ors', r) := f (wc_ors c) in ({| wc_ors := ors'; wc_state := wc_state c |}, r).

Definition coordinator_reserve (env : Env) (request : ReservationRequest) :=
  on_ors (owner_stage_and_reserve env request).

Definition coordinator_mark_eligible (env : Env) (token : WriterReservationToken) :=
  on_ors (owner_mark_eligible env token).

Definition coordinator_finalize (env : Env) (reconciliation : CanonicalReconciliation) :=
  on_ors (owner_reconcile env reconciliation).

Definition coordinator_release (env : Env) (token : WriterReservationToken)
    (writer_epoch : EpochIdentity) :=
  on_ors (owner_release env token writer_epoch).

(** The paging loop of [unresolved]; out of fuel is [None]. *)
Fixpoint unresolved_pages (fuel : nat) (ors : S) (limit after_order : Z)
    (unresolved : list ReservationRecord) : OrsR (option (list ReservationRecord)) :=
  match fuel with
  | O => Ok None
  | Datatypes.S fuel' =>
      let? cursor := RecoveryCursor_new after_order limit in
      let? page := owner_recover_page ors cursor in
      let unresolved' := unresolved ++
        List.filter (fun r => negb ((rd_state r == RsFinalized) || (rd_state r == RsReleased)))
          (pg_records page) in
      match pg_next_after_order page with
      | Some next => unresolved_pages fuel' ors limit next unresolved'
      | None => Ok (Some unresolved')
      end
  end.

Definition unresolved (fuel : nat) (limit : Z) (c : WriteCoordinator S)
    : OrsR (option (list ReservationRecord)) :=
  unresolved_pages fuel (wc_ors c) limit 0 [].

(** ** Observations *)

Record ExecutorUtilization : Type := {
  eu_in_flight : Z;
  eu_lanes : Z;
  eu_permits_free : Z;
  eu_queued_reservations : Z;
}.

Record CoordinatorMetrics : Type := {
  cm_oldest_ready_age : Z;
  cm_scope_wait : gmap string Z;
  cm_head_retries : Z;
  cm_reservation_conflicts : Z;
  cm_executor_utilization : ExecutorUtilization;
}.

(** [now.saturating_duration_since(earlier)] *)
Definition saturating_duration_since (now earlier : Z) : Z := Z.max 0 (now - earlier).

Definition metrics (now : Z) (c : WriteCoordinator S) : CoordinatorMetrics :=
  let state := wc_state c in
  let entries := snd <$> rq_entries (cs_ready state) in
  {| cm_oldest_ready_age :=
       fold_left Z.max ((fun e => saturating_duration_since now (re_ready_since e)) <$> entries) 0;
     cm_scope_wait :=
       fold_left (fun acc e =>
         fold_left (fun acc scope =>
           <[scope := Z.max (default 0 (acc !! scope))
                        (saturating_duration_since now (re_ready_since e))]> acc)
           (re_scopes e) acc) entries ∅;
     cm_head_retries := cs_head_retries state;
     cm_reservation_conflicts := cs_reservation_conflicts state;
     cm_executor_utilization :=
       {| eu_in_flight := cs_in_flight state; eu_lanes := lane_bound state;
          eu_permits_free := Z.max 0 (lane_bound state - cs_in_flight state);
          eu_queued_reservations := usize_of_len (rq_entries (cs_ready state)) |} |}.

Definition busy_scopes (c : WriteCoordinator S) : list string :=
  (btree_iter (cs_busy (wc_state c))).*1.
End Coordinator.
