(* ===== verification/WriteCoordinatorLaws.v ===== *)
(** * Laws of the write coordinator

    The in-memory invariant: the busy map is exactly the scopes of the live
    execution guards, which share no scope and are no more than the lanes,
    and the ready queue holds each reservation once, by ascending ticket. It
    holds against any store. *)

From Stdlib Require Import String.
From S2P Require Import Prelude RustText Contracts Receipts OrsModel OrsStore WriteCoordinator.

#[local] Open Scope string_scope.
#[local] Open Scope list_scope.
#[local] Open Scope Z_scope.

(** ** Permits *)

Lemma occupy_lookup op scopes busy scope :
  occupy op scopes busy !! scope = if bool_decide (scope ∈ scopes) then Some op else busy !! scope.
Proof.
  unfold occupy. revert busy. induction scopes as [|x l IH]; intros busy; cbn [fold_left].
  - by rewrite bool_decide_eq_false_2 by apply not_elem_of_nil.
  - rewrite IH. destruct (decide (x = scope)) as [-> |Hne].
    + rewrite lookup_insert_eq, (bool_decide_eq_true_2 (scope ∈ scope :: l)) by left. by case_bool_decide.
    + rewrite lookup_insert_ne by done. repeat case_bool_decide; try done; exfalso; set_solver.
Qed.

Lemma vacate_lookup scopes busy scope :
  vacate scopes busy !! scope = if bool_decide (scope ∈ scopes) then None else busy !! scope.
Proof.
  unfold vacate. revert busy. induction scopes as [|x l IH]; intros busy; cbn [fold_left].
  - by rewrite bool_decide_eq_false_2 by apply not_elem_of_nil.
  - rewrite IH. destruct (decide (x = scope)) as [-> |Hne].
    + rewrite lookup_delete_eq, (bool_decide_eq_true_2 (scope ∈ scope :: l)) by left. by case_bool_decide.
    + rewrite lookup_delete_ne by done. repeat case_bool_decide; try done; exfalso; set_solver.
Qed.

(** Taking free scopes and giving them back is no change. *)
Lemma vacate_occupy op scopes busy : Forall (fun sc => is_busy busy sc = false) scopes ->
  vacate scopes (occupy op scopes busy) = busy.
Proof.
  intros Hfree. apply map_eq. intros sc. rewrite vacate_lookup, occupy_lookup.
  case_bool_decide as Hin; [|done]. rewrite Forall_forall in Hfree. specialize (Hfree sc Hin).
  unfold is_busy in Hfree. by destruct (busy !! sc).
Qed.

Lemma drop_lookup (op : string) (scopes : list string) (busy : gmap string string) scope :
  fold_left (fun acc sc => if acc !! sc == Some op then delete sc acc else acc) scopes busy !! scope
  = if bool_decide (scope ∈ scopes /\ busy !! scope = Some op) then None else busy !! scope.
Proof.
  revert busy. induction scopes as [|x l IH]; intros busy; cbn [fold_left].
  - case_bool_decide as Hb; [|done]. destruct Hb as [Hin _]. by apply not_elem_of_nil in Hin.
  - rewrite IH. destruct (decide (x = scope)) as [-> |Hne].
    + destruct (decide (busy !! scope = Some op)) as [Hb|Hb].
      * rewrite (bool_decide_eq_true_2 (busy !! scope = Some op)) by done.
        rewrite lookup_delete_eq, (bool_decide_eq_true_2 (scope ∈ scope :: l /\ _)) by (split; [left|done]).
        by case_bool_decide.
      * rewrite (bool_decide_eq_false_2 (busy !! scope = Some op)) by done.
        repeat case_bool_decide; naive_solver.
    + assert (Hl : (if bool_decide (busy !! x = Some op) then delete x busy else busy) !! scope = busy !! scope)
        by (case_bool_decide; by rewrite ?lookup_delete_ne).
      rewrite Hl. repeat case_bool_decide; try done; exfalso; set_solver.
Qed.

(** ** Scope order *)

Lemma scan_scope_order_ok seen previous l scopes : scan_scope_order seen previous l = Ok scopes ->
  scopes = rs_scope <$> l /\ NoDup scopes /\ forall sc, sc ∈ scopes -> sc ∉ seen.
Proof.
  revert seen previous scopes. induction l as [|e l IH]; intros seen previous scopes Hs; simpl in Hs.
  { injection Hs as <-. split_and!; [done|constructor|]. intros sc Hin. by apply not_elem_of_nil in Hin. }
  case_bool_decide as Hin; [done|].
  destruct (match previous with Some prior => String.leb (rs_scope e) prior | None => false end); [done|].
  apply rbind_ok in Hs as (tail & Ht & Hs). injection Hs as <-.
  destruct (IH _ _ _ Ht) as (-> & Hnd & Hout). split_and!; [done| |].
  - apply NoDup_cons. split; [|done]. intros Hx. apply Hout in Hx. set_solver.
  - intros sc [-> |Hsc]%elem_of_cons; [done|]. apply Hout in Hsc. set_solver.
Qed.

Lemma validated_scope_order_ok t scopes : validated_scope_order t = Ok scopes ->
  scopes = token_scopes t /\ NoDup scopes /\ scopes <> [].
Proof.
  unfold validated_scope_order. intros Hv. apply check_guard_ok in Hv as [Hne Hv].
  apply scan_scope_order_ok in Hv as (-> & Hnd & _). split_and!; [done|done|].
  intros E. unfold token_scopes in *. destruct (tk_scopes t); done.
Qed.

(** A scope list in strict byte order passes. *)
Lemma scan_scope_order_total seen previous l :
  StronglySorted String.le (rs_scope <$> l) -> NoDup (rs_scope <$> l) ->
  (forall sc, sc ∈ rs_scope <$> l -> sc ∉ seen) ->
  match previous with
  | Some prior => forall sc, sc ∈ rs_scope <$> l -> String.le prior sc /\ prior <> sc
  | None => True
  end ->
  scan_scope_order seen previous l = Ok (rs_scope <$> l).
Proof.
  revert seen previous. induction l as [|e l IH]; intros seen previous Hs Hnd Hseen Hprev; simpl; [done|].
  rewrite fmap_cons in Hs, Hnd, Hseen, Hprev. apply StronglySorted_inv in Hs as [Hs Hf].
  apply NoDup_cons in Hnd as [Hni Hnd]. rewrite bool_decide_eq_false_2 by (apply Hseen; left).
  assert ((match previous with Some prior => String.leb (rs_scope e) prior | None => false end) = false) as ->.
  { destruct previous as [prior|]; [|done]. destruct (Hprev (rs_scope e) ltac:(left)) as [Hle Hne].
    apply not_true_iff_false. intros Hle'. apply Hne. apply (anti_symm String.le); [done|].
    by apply Is_true_true. }
  rewrite IH; [done|done|done| |].
  - intros sc Hin. specialize (Hseen sc ltac:(by right)). assert (sc <> rs_scope e) by (intros ->; done).
    set_solver.
  - intros sc Hin. rewrite Forall_forall in Hf. split; [by apply Hf|]. by intros <-.
Qed.

(** ** The queue *)

Definition tickets (l : Entries) : list Z := l.*1.

Lemma entries_insert_elem ticket entry l te :
  te ∈ entries_insert ticket entry l -> te = (ticket, entry) \/ te ∈ l.
Proof.
  induction l as [|[t e] l IH]; simpl; [set_solver|].
  destruct (ticket <? t); [set_solver|]. destruct (ticket =? t); set_solver.
Qed.

Lemma entries_insert_sorted ticket entry l :
  StronglySorted Z.lt (tickets l) -> StronglySorted Z.lt (tickets (entries_insert ticket entry l)).
Proof.
  induction l as [|[t e] l IH]; intros Hs; simpl; [repeat constructor|].
  apply StronglySorted_inv in Hs as [Hs Hf].
  destruct (Z.ltb_spec ticket t) as [Hlt|Hge].
  { constructor; [by constructor|]. constructor; [done|]. eapply Forall_impl; [exact Hf|]. simpl. lia. }
  destruct (Z.eqb_spec ticket t) as [-> |Hne]; [by constructor|].
  constructor; [by apply IH|]. apply Forall_forall. intros x Hx.
  apply list_elem_of_fmap in Hx as (te & -> & Hte).
  apply entries_insert_elem in Hte as [-> |Hte]; simpl; [lia|].
  rewrite Forall_forall in Hf. apply Hf. by apply (list_elem_of_fmap_2 fst).
Qed.

Lemma entries_remove_sublist ticket l : sublist (entries_remove ticket l) l.
Proof. induction l as [|te l IH]; simpl; [constructor|]. destruct (negb _); by constructor. Qed.

Lemma sublist_sorted (l1 l2 : list Z) : sublist l1 l2 -> StronglySorted Z.lt l2 -> StronglySorted Z.lt l1.
Proof.
  induction 1 as [|x l1 l2 Hsub IH|x l1 l2 Hsub IH]; intros Hs; [constructor| |].
  - apply StronglySorted_inv in Hs as [Hs Hf]. constructor; [by apply IH|].
    apply Forall_forall. intros y Hy. rewrite Forall_forall in Hf. apply Hf.
    by eapply elem_of_submseteq, sublist_submseteq.
  - apply StronglySorted_inv in Hs as [Hs _]. by apply IH.
Qed.

Lemma sublist_map {A B} (f : A -> B) (l1 l2 : list A) : sublist l1 l2 -> sublist (f <$> l1) (f <$> l2).
Proof. induction 1; rewrite ?fmap_cons; by constructor. Qed.

Definition entry_ids (l : Entries) : list string := (fun te => tk_reservation_id (re_token te.2)) <$> l.

Record queue_ok (q : ReadyScopeQueue) : Prop := {
  qk_sorted : StronglySorted Z.lt (tickets (rq_entries q));
  qk_ids : NoDup (entry_ids (rq_entries q));
  qk_scopes : Forall (fun te => re_scopes te.2 = token_scopes (re_token te.2) /\
                                NoDup (re_scopes te.2) /\ re_scopes te.2 <> []) (rq_entries q);
}.

Lemma queue_ok_sublist q l n : sublist l (rq_entries q) -> queue_ok q ->
  queue_ok {| rq_entries := l; rq_next_ticket := n |}.
Proof.
  intros Hsub [Hs Hi Hsc]. constructor; simpl.
  - eapply sublist_sorted; [|exact Hs]. by apply (sublist_map fst).
  - eapply sublist_NoDup; [exact Hi|]. by apply (sublist_map (fun te => tk_reservation_id (re_token te.2))).
  - apply Forall_forall. intros te Hte. rewrite Forall_forall in Hsc. apply Hsc.
    by eapply elem_of_submseteq, sublist_submseteq.
Qed.

Lemma queue_insert_ok entry q : queue_ok q ->
  (forall te, te ∈ rq_entries q -> tk_reservation_id (re_token te.2) <> tk_reservation_id (re_token entry)) ->
  re_scopes entry = token_scopes (re_token entry) -> NoDup (re_scopes entry) -> re_scopes entry <> [] ->
  queue_ok (queue_insert entry q).1.
Proof.
  intros [Hs Hi Hsc] Hnew E Hnd Hne. constructor; simpl.
  - by apply entries_insert_sorted.
  - unfold entry_ids in *. generalize (rq_next_ticket q). intros ticket. clear Hs Hsc E Hnd Hne.
    induction (rq_entries q) as [|[t e] l IH]; simpl; [repeat constructor; apply not_elem_of_nil|].
    rewrite fmap_cons, NoDup_cons in Hi. destruct Hi as [Hni Hi].
    assert (Hout : tk_reservation_id (re_token entry) ∉ (fun te => tk_reservation_id (re_token te.2)) <$> l).
    { intros Hin. apply list_elem_of_fmap in Hin as (te & E & Hte). by apply (Hnew te ltac:(by right)). }
    specialize (Hnew (t, e) ltac:(left)) as Hte. simpl in Hte, Hni.
    destruct (ticket <? t); [|destruct (ticket =? t)]; rewrite ?fmap_cons.
    + apply NoDup_cons. split; [|by apply NoDup_cons]. simpl. rewrite elem_of_cons. naive_solver.
    + apply NoDup_cons. by split.
    + apply NoDup_cons. split; [|apply IH; [done|intros te Hin; apply Hnew; by right]]. simpl. intros Hin.
      apply list_elem_of_fmap in Hin as (te & E & Hin).
      apply entries_insert_elem in Hin as [-> |Hin]; [done|]. apply Hni. rewrite E.
      by apply (list_elem_of_fmap_2 (fun te => tk_reservation_id (re_token te.2))).
  - apply Forall_forall. intros te Hte. apply entries_insert_elem in Hte as [-> |Hte]; [done|].
    rewrite Forall_forall in Hsc. by apply Hsc.
Qed.

Lemma queue_delay_ok scope until q : queue_ok q -> queue_ok (queue_delay_scope scope until q).
Proof.
  assert (Hkeep : forall e, re_token (delay_entry scope until e) = re_token e /\
                            re_scopes (delay_entry scope until e) = re_scopes e).
  { intros e. unfold delay_entry. by destruct (_ && _). }
  intros [Hs Hi Hsc]. constructor; simpl.
  - unfold tickets in *. rewrite <- list_fmap_compose. exact Hs.
  - unfold entry_ids in *. rewrite <- list_fmap_compose.
    erewrite list_fmap_ext; [exact Hi|]. intros i te _. simpl. by rewrite (proj1 (Hkeep te.2)).
  - apply Forall_fmap. eapply Forall_impl; [exact Hsc|]. intros te. simpl.
    by rewrite (proj1 (Hkeep te.2)), (proj2 (Hkeep te.2)).
Qed.

(** ** The world: a coordinator and its live guards

    Each guard stands beside the token it was issued for. *)

Abbreviation Guards := (list (WriterReservationToken * ScopeExecutionGuard)).

Definition held_scopes (gs : Guards) : list string := flat_map (fun tg => sg_scopes tg.2) gs.

Lemma held_scopes_elem gs scope :
  scope ∈ held_scopes gs <-> exists t g, (t, g) ∈ gs /\ scope ∈ sg_scopes g.
Proof.
  unfold held_scopes. rewrite list_elem_of_In, in_flat_map. split.
  - intros ([t g] & Hin & Hsc). exists t, g. by rewrite !list_elem_of_In.
  - intros (t & g & Hin & Hsc). exists (t, g). by rewrite <- !list_elem_of_In.
Qed.

(** The head [dispatch_ready] picks. *)
Definition next_head (now : Z) (s : CoordinatorState) : option ReadyReservationEntry :=
  snd <$> find (fun te => dispatchable now (cs_busy s) te.2) (rq_entries (cs_ready s)).

Section World.
Context {Env S : Type} `{ReservationOwner Env S}.
Variable instant_max : Z.
(** How the store may change between calls. *)
Variable store_step : S -> S -> Prop.

Inductive world_step : WriteCoordinator S * Guards -> WriteCoordinator S * Guards -> Prop :=
| WorldBegin env now t epoch c c' g gs :
    begin_execution env now t epoch c = (c', Ok g) -> world_step (c, gs) (c', (t, g) :: gs)
| WorldRefused env now t epoch c c' e gs :
    begin_execution env now t epoch c = (c', Err e) -> world_step (c, gs) (c', gs)
| WorldEnqueue env now t c c' r gs :
    enqueue_ready env now t c = (c', r) -> world_step (c, gs) (c', gs)
| WorldDispatch env now epoch c c' head g gs :
    dispatch_ready env now epoch c = (c', Ok (Some g)) -> next_head now (wc_state c) = Some head ->
    world_step (c, gs) (c', (re_token head, g) :: gs)
| WorldIdle env now epoch c c' r gs :
    dispatch_ready env now epoch c = (c', r) -> (forall g, r <> Ok (Some g)) ->
    world_step (c, gs) (c', gs)
| WorldDrop t g c gs gs' :
    gs ≡ₚ (t, g) :: gs' -> world_step (c, gs) (drop_guard g c, gs')
| WorldDelay now scope delay c c' r gs :
    delay_scope_head instant_max now scope delay c = (c', r) -> world_step (c, gs) (c', gs)
| WorldReconfigure lanes c c' r gs :
    1 <= lanes <= u64_max -> reconfigure_lanes lanes c = (c', r) -> world_step (c, gs) (c', gs)
| WorldStore c ors' gs :
    store_step (wc_ors c) ors' ->
    world_step (c, gs) ({| wc_ors := ors'; wc_state := wc_state c |}, gs).

Record permits_ok (s : CoordinatorState) (gs : Guards) : Prop := {
  pk_lanes : exists n, cs_lanes s = Some n /\ 1 <= n <= u64_max;
  pk_flight : cs_in_flight s = Z.of_nat (length gs);
  pk_bound : cs_in_flight s <= lane_bound s;
  pk_distinct : NoDup (held_scopes gs);
  pk_busy : forall scope op, cs_busy s !! scope = Some op <->
    exists t g, (t, g) ∈ gs /\ scope ∈ sg_scopes g /\ op = sg_operation_id g;
  pk_guards : forall t g, (t, g) ∈ gs ->
    sg_scopes g = token_scopes t /\ sg_operation_id g = tk_operation_id t /\ sg_scopes g <> [];
  pk_queue : queue_ok (cs_ready s);
}.

Lemma free_scopes scopes s gs : permits_ok s gs ->
  Forall (fun sc => is_busy (cs_busy s) sc = false) scopes <-> (forall sc, sc ∈ scopes -> sc ∉ held_scopes gs).
Proof.
  intros Hok. rewrite Forall_forall. split; intros Hall sc Hin; specialize (Hall sc Hin).
  - intros Hheld. apply held_scopes_elem in Hheld as (t & g & Hg & Hsc).
    assert (Hb : cs_busy s !! sc = Some (sg_operation_id g)) by (apply (pk_busy _ _ Hok); eauto 10).
    unfold is_busy in Hall. by rewrite Hb in Hall.
  - unfold is_busy. destruct (cs_busy s !! sc) as [op|] eqn:E; [|done].
    apply (pk_busy _ _ Hok) in E as (t & g & Hg & Hsc & _). exfalso. apply Hall, held_scopes_elem. eauto.
Qed.

Lemma execute_with_permits_ok env t epoch scopes ors s c' r :
  Forall (fun sc => is_busy (cs_busy s) sc = false) scopes -> 0 <= cs_in_flight s < u64_max ->
  execute_with_permits env t epoch scopes ors s = (c', r) ->
  (exists rec, owner_begin_execute env t epoch ors = (wc_ors c', Ok rec) /\
     r = Ok {| sg_operation_id := tk_operation_id t; sg_scopes := scopes |} /\
     wc_state c' = set_permits (occupy (tk_operation_id t) scopes (cs_busy s)) (cs_in_flight s + 1) s) \/
  (exists e, owner_begin_execute env t epoch ors = (wc_ors c', Err e) /\ r = Err (CeOrs e) /\
     wc_state c' = s).
Proof.
  intros Hfree Hfl. unfold execute_with_permits.
  assert (Hinc : saturating_inc (cs_in_flight s) = cs_in_flight s + 1) by (unfold saturating_inc; lia).
  destruct (owner_begin_execute env t epoch ors) as [ors' [rec|e]]; intros [= <- <-].
  - left. exists rec. split_and!; [done..|]. simpl. by rewrite Hinc.
  - right. exists e. split_and!; [done..|]. simpl. rewrite vacate_occupy by done.
    rewrite Hinc. replace (saturating_dec (cs_in_flight s + 1)) with (cs_in_flight s)
      by (unfold saturating_dec; lia).
    by destruct s.
Qed.

Lemma permits_ready s gs q : permits_ok s gs -> queue_ok q -> permits_ok (set_ready q s) gs.
Proof. by intros []; constructor. Qed.

Lemma permits_prune now s gs : permits_ok s gs -> permits_ok (prune_elapsed_delays now s) gs.
Proof. by intros []; constructor. Qed.

Lemma permits_take t g scopes s gs : permits_ok s gs -> cs_in_flight s < lane_bound s ->
  g = {| sg_operation_id := tk_operation_id t; sg_scopes := scopes |} ->
  scopes = token_scopes t -> NoDup scopes -> scopes <> [] ->
  (forall sc, sc ∈ scopes -> sc ∉ held_scopes gs) ->
  permits_ok (set_permits (occupy (tk_operation_id t) scopes (cs_busy s)) (cs_in_flight s + 1) s)
    ((t, g) :: gs).
Proof.
  intros [P1 P2 P3 P4 P5 P6 P7] Hlt -> Es Hnd Hne Hfree. constructor; simpl; try done.
  - rewrite P2. lia.
  - unfold lane_bound in *. simpl. lia.
  - apply NoDup_app. split_and!; done.
  - intros scope op. rewrite occupy_lookup. case_bool_decide as Hin.
    + split.
      * intros [= <-]. eexists _, _. split_and!; [left|done|done].
      * intros (t' & g' & [[= -> ->]|Hg]%elem_of_cons & Hsc & ->); [done|]. exfalso.
        apply (Hfree scope Hin), held_scopes_elem. eauto.
    + rewrite P5. split.
      * intros (t' & g' & Hg & Hsc & ->). exists t', g'. split_and!; [by right|done|done].
      * intros (t' & g' & [[= -> ->]|Hg]%elem_of_cons & Hsc & ->); [done|]. eauto.
  - intros t' g' [[= -> ->]|Hg]%elem_of_cons; [done|by apply P6].
Qed.

Lemma permits_drop t g c gs gs' : gs ≡ₚ (t, g) :: gs' -> permits_ok (wc_state c) gs ->
  permits_ok (wc_state (drop_guard (S := S) g c)) gs'.
Proof.
  intros Hp [P1 P2 P3 P4 P5 P6 P7].
  assert (Hlen : cs_in_flight (wc_state c) = Z.of_nat (length gs') + 1) by (rewrite P2, Hp; simpl; lia).
  assert (Hdec : saturating_dec (cs_in_flight (wc_state c)) = Z.of_nat (length gs'))
    by (rewrite Hlen; unfold saturating_dec; lia).
  assert (Hnd : NoDup (sg_scopes g ++ held_scopes gs')).
  { eapply NoDup_Permutation_proper; [|exact P4]. symmetry. unfold held_scopes.
    exact (Permutation_flat_map _ Hp). }
  apply NoDup_app in Hnd as (_ & Hout & Hnd).
  constructor; cbn [wc_state drop_guard set_permits cs_lanes cs_in_flight cs_busy cs_ready]; try done.
  - rewrite Hdec. unfold lane_bound in *. simpl. lia.
  - intros scope op. rewrite drop_lookup. case_bool_decide as Hb.
    + split; [done|]. intros (t' & g' & Hg & Hsc & ->). exfalso. destruct Hb as [Hin _].
      apply (Hout scope Hin), held_scopes_elem. eauto.
    + rewrite P5. split.
      * intros (t' & g' & Hg & Hsc & ->). rewrite Hp in Hg. apply elem_of_cons in Hg as [[= -> ->]|Hg].
        -- exfalso. apply Hb. split; [done|]. apply P5. exists t, g. rewrite Hp. split_and!; [left|done|done].
        -- eauto.
      * intros (t' & g' & Hg & Hsc & ->). exists t', g'. split_and!; [|done|done]. rewrite Hp. by right.
  - intros t' g' Hg. apply P6. rewrite Hp. by right.
Qed.

(** The entry behind the ticket [dispatchable_ticket] returns is the first
    dispatchable one. *)
Lemma find_ticket (f : ReadyScopeTicket * ReadyReservationEntry -> bool) l te :
  StronglySorted Z.lt (tickets l) -> find f l = Some te -> find (fun x => x.1 =? te.1) l = Some te.
Proof.
  induction l as [|x l IH]; intros Hs Hf; [done|]. simpl in *. apply StronglySorted_inv in Hs as [Hs Hall].
  destruct (f x); [injection Hf as <-; by rewrite Z.eqb_refl|].
  assert (Hin : te.1 ∈ tickets l).
  { apply find_some in Hf as [Hin _]. apply list_elem_of_In in Hin. by apply (list_elem_of_fmap_2 fst). }
  rewrite Forall_forall in Hall. specialize (Hall _ Hin).
  destruct (Z.eqb_spec x.1 te.1) as [E|_]; [lia|]. by apply IH.
Qed.

Definition after_head (now : Z) (s : CoordinatorState) (ticket : ReadyScopeTicket) : CoordinatorState :=
  set_ready (queue_take ticket (cs_ready s)).1 (prune_elapsed_delays now s).

(** What a dispatch does, by whether a lane is free and a head is ready. *)
Lemma dispatch_ready_cases env now epoch c :
  queue_ok (cs_ready (wc_state c)) ->
  let s := wc_state c in
  (lane_bound s <= cs_in_flight s \/ next_head now s = None) /\
    dispatch_ready env now epoch c
    = ({| wc_ors := wc_ors c; wc_state := prune_elapsed_delays now s |}, Ok None) \/
  exists ticket head, cs_in_flight s < lane_bound s /\ next_head now s = Some head /\
    find (fun te => dispatchable now (cs_busy s) te.2) (rq_entries (cs_ready s)) = Some (ticket, head) /\
    forall c' r, execute_with_permits env (re_token head) epoch (re_scopes head) (wc_ors c)
                   (after_head now s ticket) = (c', r) ->
      dispatch_ready env now epoch c = (c', let? g := r in Ok (Some g)).
Proof.
  intros Hq s. unfold dispatch_ready, dispatchable_ticket, next_head. fold s.
  change (lane_bound (prune_elapsed_delays now s)) with (lane_bound s).
  change (cs_in_flight (prune_elapsed_delays now s)) with (cs_in_flight s).
  change (cs_ready (prune_elapsed_delays now s)) with (cs_ready s).
  change (cs_busy (prune_elapsed_delays now s)) with (cs_busy s).
  destruct (Z.leb_spec (lane_bound s) (cs_in_flight s)) as [Hle|Hlt]; [left; eauto|].
  destruct (find _ (rq_entries (cs_ready s))) as [[ticket head]|] eqn:Hf; [|left; eauto].
  right. exists ticket, head. split_and!; [done..|]. intros c' r Hx. cbn [fmap option_fmap option_map fst].
  pose proof (find_ticket _ _ _ (qk_sorted _ Hq) Hf) as Ht. cbn [fst] in Ht.
  unfold after_head, queue_take in *. cbn [fst] in Hx. fold s in Ht. rewrite Ht.
  cbn [fmap option_fmap option_map snd]. rewrite Hx. by destruct r.
Qed.

Lemma queue_take_ok ticket q : queue_ok q -> queue_ok (queue_take ticket q).1.
Proof. intros Hq. apply (queue_ok_sublist q); [apply entries_remove_sublist|done]. Qed.

Lemma queue_take_reservation_ok t q : queue_ok q -> queue_ok (queue_take_reservation t q).1.
Proof.
  intros Hq. unfold queue_take_reservation. destruct (find _ _) as [[ticket ?]|]; [by apply queue_take_ok|done].
Qed.

Lemma permits_range s gs : permits_ok s gs -> cs_in_flight s < lane_bound s -> 0 <= cs_in_flight s < u64_max.
Proof. intros Hok Hlt. destruct (pk_lanes _ _ Hok) as (n & En & Hn). rewrite (pk_flight _ _ Hok) in *.
  unfold lane_bound in Hlt. rewrite En in Hlt. simpl in Hlt. lia.
Qed.

(** Both admission paths end in [execute_with_permits] on a state that
    differs from a good one in its queue and delays only. *)
Lemma permits_execute env t epoch scopes ors s gs c' r :
  permits_ok s gs -> cs_in_flight s < lane_bound s ->
  scopes = token_scopes t -> NoDup scopes -> scopes <> [] ->
  Forall (fun sc => is_busy (cs_busy s) sc = false) scopes ->
  execute_with_permits env t epoch scopes ors s = (c', r) ->
  permits_ok (wc_state c') (match r with Ok g => (t, g) :: gs | Err _ => gs end).
Proof.
  intros Hok Hlt Es Hnd Hne Hfree Hx.
  apply execute_with_permits_ok in Hx as [(rec & _ & -> & ->)|(e & _ & -> & ->)];
    [|done|done|by eapply permits_range].
  apply permits_take with (scopes := scopes); try done. by apply (free_scopes scopes s gs Hok).
Qed.

Lemma find_none_forall {A} (f : A -> bool) l : find f l = None -> Forall (fun x => f x = false) l.
Proof. intros Hf. apply Forall_forall. intros x Hin. apply (find_none _ _ Hf). by apply list_elem_of_In. Qed.

Lemma permits_begin env now t epoch c c' r gs : permits_ok (wc_state c) gs ->
  begin_execution env now t epoch c = (c', r) ->
  permits_ok (wc_state c') (match r with Ok g => (t, g) :: gs | Err _ => gs end).
Proof.
  intros Hok. unfold begin_execution.
  destruct (validated_scope_order t) as [scopes|e] eqn:Hv; [|by intros [= <- <-]].
  apply validated_scope_order_ok in Hv as (Es & Hnd & Hne).
  destruct (Z.leb_spec (lane_bound (wc_state c)) (cs_in_flight (wc_state c))) as [_|Hlt]; [by intros [= <- <-]|].
  destruct (find _ scopes) as [scope|] eqn:Hf.
  { intros [= <- <-]. simpl. by destruct Hok; constructor. }
  apply find_none_forall in Hf. intros Hx. eapply permits_execute in Hx; [exact Hx| |done..].
  apply permits_ready; [by apply permits_prune|]. apply queue_take_reservation_ok, (pk_queue _ _ Hok).
Qed.

Lemma permits_enqueue env now t c c' r gs : permits_ok (wc_state c) gs ->
  enqueue_ready env now t c = (c', r) -> permits_ok (wc_state c') gs.
Proof.
  intros Hok. unfold enqueue_ready.
  destruct (validated_scope_order t) as [scopes|e] eqn:Hv; [|by intros [= <- <-]].
  apply validated_scope_order_ok in Hv as (Es & Hnd & Hne).
  pose proof (permits_prune now _ _ Hok) as Hp.
  destruct (queue_holds _ t) eqn:Hh; [by intros [= <- <-]|].
  destruct (owner_mark_eligible env t (wc_ors c)) as [ors' [rec|e]]; [|by intros [= <- <-]].
  intros [= <- <-]. simpl. apply permits_ready; [done|]. apply queue_insert_ok; simpl; try done.
  - exact (pk_queue _ _ Hok).
  - intros te Hin E. rewrite <- not_true_iff_false in Hh. apply Hh. apply existsb_exists.
    exists te. split; [by apply list_elem_of_In|]. unfold same_reservation. by rewrite bool_decide_eq_true_2.
Qed.

Lemma dispatchable_free now busy e : dispatchable now busy e = true ->
  re_not_before e <= now /\ Forall (fun sc => is_busy busy sc = false) (re_scopes e).
Proof.
  unfold dispatchable. intros [Hn Hb]%andb_true_iff. split; [lia|]. apply negb_true_iff in Hb.
  apply Forall_forall. intros sc Hin. destruct (is_busy busy sc) eqn:E; [|done].
  rewrite <- Hb. symmetry. apply existsb_exists. exists sc. by rewrite <- list_elem_of_In.
Qed.

Lemma permits_dispatch env now epoch c c' r gs : permits_ok (wc_state c) gs ->
  dispatch_ready env now epoch c = (c', r) ->
  permits_ok (wc_state c') (match r, next_head now (wc_state c) with
                            | Ok (Some g), Some head => (re_token head, g) :: gs
                            | _, _ => gs
                            end).
Proof.
  intros Hok Hd. pose proof (pk_queue _ _ Hok) as Hq.
  destruct (dispatch_ready_cases env now epoch c Hq) as [[_ E]|(ticket & head & Hlt & Hn & Hf & Hx)].
  { rewrite E in Hd. injection Hd as <- <-. by apply permits_prune. }
  destruct (execute_with_permits _ _ _ _ _ _) as [c1 r1] eqn:Hx1. specialize (Hx c1 r1 eq_refl).
  rewrite Hx in Hd. injection Hd as <- <-. rewrite Hn.
  apply find_some in Hf as [Hin Hf]. apply list_elem_of_In in Hin. apply dispatchable_free in Hf as [_ Hfree].
  pose proof (qk_scopes _ Hq) as Hsc. rewrite Forall_forall in Hsc. destruct (Hsc _ Hin) as (Es & Hnd & Hne).
  eapply (permits_execute _ _ _ _ _ _ gs) in Hx1; [by destruct r1| |done..].
  apply permits_ready; [by apply permits_prune|by apply queue_take_ok].
Qed.

Lemma permits_delay now scope delay (c c' : WriteCoordinator S) r gs : permits_ok (wc_state c) gs ->
  delay_scope_head instant_max now scope delay c = (c', r) -> permits_ok (wc_state c') gs.
Proof.
  intros Hok. unfold delay_scope_head. destruct (_ <? _); [by intros [= <- <-]|].
  destruct (negb _); intros [= <- <-]; simpl; [by apply permits_prune|].
  apply permits_ready; [by destruct Hok; constructor|]. apply queue_delay_ok, (pk_queue _ _ Hok).
Qed.

Lemma permits_lanes lanes (c c' : WriteCoordinator S) r gs : permits_ok (wc_state c) gs -> 1 <= lanes <= u64_max ->
  reconfigure_lanes lanes c = (c', r) -> permits_ok (wc_state c') gs.
Proof.
  intros Hok Hl. unfold reconfigure_lanes. destruct (_ || _) eqn:Hg; intros [= <- <-]; [done|].
  apply orb_false_iff in Hg as [[Hg _]%orb_false_iff _]. apply negb_false_iff, Z.eqb_eq in Hg.
  destruct Hok as [P1 P2 P3 P4 P5 P6 P7]. constructor; simpl; try done; [eauto|]. unfold lane_bound. simpl. lia.
Qed.

Lemma world_step_permits w w' : world_step w w' ->
  permits_ok (wc_state w.1) w.2 -> permits_ok (wc_state w'.1) w'.2.
Proof.
  destruct 1 as [env now t epoch c c' g gs Hx|env now t epoch c c' e gs Hx|env now t c c' r gs Hx
    |env now epoch c c' head g gs Hx Hn|env now epoch c c' r gs Hx Hr|t g c gs gs' Hp
    |now scope delay c c' r gs Hx|lanes c c' r gs Hl Hx|c ors' gs Hs]; simpl; intros Hok.
  - exact (permits_begin _ _ _ _ _ _ _ _ Hok Hx).
  - exact (permits_begin _ _ _ _ _ _ _ _ Hok Hx).
  - exact (permits_enqueue _ _ _ _ _ _ _ Hok Hx).
  - pose proof (permits_dispatch _ _ _ _ _ _ _ Hok Hx) as Hd. by rewrite Hn in Hd.
  - pose proof (permits_dispatch _ _ _ _ _ _ _ Hok Hx) as Hd.
    destruct r as [[g|]|e]; [by destruct (Hr g)|done|done].
  - by eapply permits_drop.
  - by eapply permits_delay.
  - by eapply permits_lanes.
  - done.
Qed.

Lemma permits_new ors lanes : 1 <= lanes <= u64_max ->
  permits_ok (wc_state (coordinator_new (S := S) ors lanes)) [].
Proof.
  intros Hl. constructor; simpl.
  - eauto.
  - done.
  - unfold lane_bound. simpl. lia.
  - constructor.
  - intros scope op. split; [done|]. intros (t & g & Hin & _). by apply not_elem_of_nil in Hin.
  - intros t g Hin. by apply not_elem_of_nil in Hin.
  - constructor; simpl; [constructor|constructor|constructor].
Qed.

Lemma world_permits ors lanes w : 1 <= lanes <= u64_max ->
  rtc world_step (coordinator_new ors lanes, []) w -> permits_ok (wc_state w.1) w.2.
Proof.
  intros Hl Hr. pose proof (permits_new ors lanes Hl) as Hok.
  apply (rtc_ind_r (R := world_step) (fun w => permits_ok (wc_state w.1) w.2) (coordinator_new ors lanes, [])); [done| |done].
  intros w1 w2 _ Hs IH. by eapply world_step_permits.
Qed.
End World.
