(* ===== verification/WriteCoordinatorTheorems.v ===== *)
(** * What the write coordinator promises

    Of any store: permits match the live guards, and dispatch takes the
    oldest ready head. Of the coordinator over the reservation tables: a
    guard means no other write of its scopes may run until its own
    reservation is closed, and the recovery listing is complete. *)

From Stdlib Require Import String.
From stdpp Require Import relations.
From S2P Require Import Prelude RustText Contracts Receipts OrsModel OrsStore OrsLaws OrsSteps.
From S2P Require Import OrsTheorems OrsRecovery WriteCoordinator WriteCoordinatorLaws.

#[local] Open Scope string_scope.
#[local] Open Scope list_scope.
#[local] Open Scope Z_scope.

(** ** Over any store *)

Section AnyStore.
Context {Env S : Type} `{ReservationOwner Env S}.
Variables (instant_max : Z) (store_step : S -> S -> Prop).

(** C8. Whatever calls are made and however the store changes and answers, the
    scopes of the live guards are disjoint, the busy map holds exactly those
    scopes under their guards' operations, the count of permits out is the
    number of guards and never above the lanes, and no reservation is queued
    twice. *)
Theorem coordinator_permits_exact (ors : S) (lanes : Z) (Hlanes : 1 <= lanes <= u64_max)
    (c : WriteCoordinator S) (guards : Guards)
    (Hrun : rtc (world_step instant_max store_step) (coordinator_new ors lanes, []) (c, guards)) :
  let s := wc_state c in
  NoDup (held_scopes guards) /\
  (forall scope op, cs_busy s !! scope = Some op <->
     exists t g, (t, g) ∈ guards /\ scope ∈ sg_scopes g /\ op = sg_operation_id g) /\
  cs_in_flight s = Z.of_nat (length guards) /\ cs_in_flight s <= lane_bound s /\
  NoDup (entry_ids (rq_entries (cs_ready s))).
Proof.
  intros s. pose proof (world_permits _ _ _ _ _ Hlanes Hrun) as Hok. simpl in Hok. fold s in Hok.
  destruct Hok as [P1 P2 P3 P4 P5 P6 P7]. split_and!; try done. apply P7.
Qed.

Lemma find_split {A} (f : A -> bool) l x : find f l = Some x ->
  exists l1 l2, l = l1 ++ x :: l2 /\ Forall (fun y => f y = false) l1 /\ f x = true.
Proof.
  induction l as [|y l IH]; simpl; [done|]. destruct (f y) eqn:Hy.
  - intros [= ->]. exists [], l. by split_and!.
  - intros (l1 & l2 & -> & Hf & Hx)%IH. exists (y :: l1), l2. split_and!; [done| |done]. by constructor.
Qed.

Lemma remove_ticket l1 te l2 : StronglySorted Z.lt (tickets (l1 ++ te :: l2)) ->
  entries_remove te.1 (l1 ++ te :: l2) = l1 ++ l2.
Proof.
  intros Hs. unfold entries_remove, tickets in *. rewrite fmap_app, fmap_cons in Hs.
  assert (Hne : forall l : Entries, Forall (fun x => x <> te.1) l.*1 ->
    List.filter (fun x => negb (x.1 =? te.1)) l = l).
  { clear. induction l as [|x l IH]; [done|]. intros [Hx Hl]%Forall_cons. simpl.
    by rewrite (proj2 (Z.eqb_neq _ _) Hx), IH. }
  apply StronglySorted_app in Hs as (Hlt & _ & Hs). apply StronglySorted_inv in Hs as [_ Hgt].
  rewrite List.filter_app. simpl. rewrite Z.eqb_refl. simpl. rewrite !Hne; [done| |].
  - eapply Forall_impl; [exact Hgt|]. simpl. lia.
  - apply Forall_forall. intros x Hx. specialize (Hlt x te.1 Hx ltac:(left)). lia.
Qed.

(** C9. A dispatch with a free lane takes the oldest queued head whose scopes are
    all free and whose delay has elapsed, ahead of none that could run: the
    head leaves the queue, the others keep their places, and either its
    guard is out or the store's refusal is reported and no permit is kept.
    Without such a head, or a lane, nothing is taken. *)
Theorem dispatch_takes_oldest_ready (ors : S) (lanes : Z) (Hlanes : 1 <= lanes <= u64_max)
    (c : WriteCoordinator S) (guards : Guards)
    (Hrun : rtc (world_step instant_max store_step) (coordinator_new ors lanes, []) (c, guards))
    (env : Env) (now : Z) (epoch : EpochIdentity) :
  let s := wc_state c in
  let '(c', r) := dispatch_ready env now epoch c in
  let s' := wc_state c' in
  (r = Ok None /\ wc_ors c' = wc_ors c /\ cs_ready s' = cs_ready s /\ cs_busy s' = cs_busy s /\
   (lane_bound s <= cs_in_flight s \/
    Forall (fun te => dispatchable now (cs_busy s) te.2 = false) (rq_entries (cs_ready s)))) \/
  (exists l1 te l2, rq_entries (cs_ready s) = l1 ++ te :: l2 /\
     Forall (fun x => dispatchable now (cs_busy s) x.2 = false) l1 /\
     Forall (fun x => te.1 < x.1) l2 /\
     re_not_before te.2 <= now /\ (forall sc, sc ∈ re_scopes te.2 -> sc ∉ held_scopes guards) /\
     rq_entries (cs_ready s') = l1 ++ l2 /\
     match owner_begin_execute env (re_token te.2) epoch (wc_ors c) with
     | (ors', Ok _) =>
         r = Ok (Some {| sg_operation_id := tk_operation_id (re_token te.2);
                         sg_scopes := re_scopes te.2 |}) /\
         wc_ors c' = ors' /\ cs_in_flight s' = cs_in_flight s + 1
     | (ors', Err e) =>
         r = Err (CeOrs e) /\ wc_ors c' = ors' /\ cs_in_flight s' = cs_in_flight s /\
         cs_busy s' = cs_busy s
     end).
Proof.
  pose proof (world_permits _ _ _ _ _ Hlanes Hrun) as Hok. simpl in Hok. intros s.
  pose proof (pk_queue _ _ Hok) as Hq.
  destruct (dispatch_ready_cases env now epoch c Hq) as [[Hno ->]|(ticket & head & Hlt & Hn & Hf & Hx)].
  { left. split_and!; [done..|]. destruct Hno as [?|Hn]; [by left|right]. unfold next_head in Hn.
    apply find_none_forall. by destruct (find _ _). }
  destruct (execute_with_permits _ _ _ _ _ _) as [c' r] eqn:He. rewrite (Hx c' r eq_refl). right.
  apply find_split in Hf as (l1 & l2 & El & Hl1 & Hd). apply dispatchable_free in Hd as [Hnow Hfree].
  exists l1, (ticket, head), l2. pose proof (qk_sorted _ Hq) as Hs. rewrite El in Hs.
  assert (Hrm : entries_remove ticket (rq_entries (cs_ready (wc_state c))) = l1 ++ l2)
    by (rewrite El; exact (remove_ticket l1 (ticket, head) l2 Hs)).
  apply execute_with_permits_ok in He; [|exact Hfree|exact (permits_range _ _ Hok Hlt)].
  split_and!; [done|done| |done| | |].
  - unfold tickets in Hs. rewrite fmap_app, fmap_cons in Hs. apply StronglySorted_app in Hs as (_ & _ & Hs).
    apply StronglySorted_inv in Hs as [_ Hs]. exact (proj1 (Forall_fmap fst _ l2) Hs).
  - by apply (free_scopes _ _ _ Hok).
  - destruct He as [(rec & _ & _ & ->)|(e & _ & _ & ->)]; exact Hrm.
  - cbn [snd]. destruct He as [(rec & -> & -> & ->)|(e & -> & -> & ->)]; by split_and!.
Qed.
End AnyStore.

(** ** Over the reservation tables *)

Section OverTables.
Context `{OrsWire, CanonicalEvidence}.
Implicit Types (s : OrsStore) (t : WriterReservationToken) (r : ReservationRecord).
Variable instant_max : Z.

(** Any call on the tables, made by the coordinator or by anyone else. *)
Definition ors_step (s s' : OrsStore) : Prop := exists call, call_typed call /\ s' = ors_call call s.

(** Past its admission, with nothing pending ahead of it on its scopes. *)
Record started (s : OrsStore) (t : WriterReservationToken) : Prop := {
  st_record : exists r, os_reservations s !! tk_reservation_id t = Some r /\ rd_token r = t /\
    rd_state r <> RsReserved /\ rd_state r <> RsEligible;
  st_first : no_predecessor s t;
}.

Lemma pending_predecessor_true t p : pending_predecessor t p = true <->
  pending p /\ rd_order p < tk_reservation_order t /\ shares_scope (rd_token p) t = true.
Proof.
  unfold pending_predecessor, pending, rd_order. rewrite !andb_true_iff, negb_true_iff, Z.ltb_lt. naive_solver.
Qed.

(** Reservations staged later come later, and closed ones stay closed. *)
Lemma rstep_no_predecessor s s' t r : ors_wf s -> rstep s s' ->
  os_reservations s !! tk_reservation_id t = Some r -> rd_token r = t ->
  no_predecessor s t -> no_predecessor s' t.
Proof.
  intros Hwf Hst Hr Et Hno k p' Hk. destruct (pending_predecessor t p') eqn:Hp; [|done].
  apply pending_predecessor_true in Hp as (Hp & Hlt & Hsh).
  destruct (os_reservations s !! k) as [p|] eqn:Hkp.
  - destruct (rstep_record s s' k p Hwf Hst Hkp) as (p1 & H1 & Ept & Hsame & _).
    assert (p1 = p') as -> by congruence. rewrite <- (Hno k p Hkp). symmetry.
    apply pending_predecessor_true. unfold rd_order in *. rewrite <- Ept. split_and!; [|done|done].
    destruct (reservation_is_terminal (rd_state p)) eqn:Ht; [|done].
    rewrite Hsame in Hp; [done|]. unfold pending. congruence.
  - pose proof (ro_bound _ _ _ (wf_record _ Hwf _ _ Hr)) as Ho.
    destruct Hst as [r0 r1 Hr0 ? ? ? Hres|Hres|? ? ? Hres|r0 r1 ? ? Hr0 ? ? ? ? Hres
      |t' env b ? ? ? ? ? ? ? Eo ? ? ? ? ? ? ? Hres].
    1, 4: rewrite Hres, lookup_insert_Some in Hk; destruct Hk as [[<- _]|[_ ?]]; congruence.
    1, 2: congruence.
    rewrite Hres, lookup_insert_Some in Hk. destruct Hk as [[<- <-]|[_ ?]]; [|congruence].
    unfold rd_order in *. rewrite Et in Ho. simpl in Hlt. lia.
Qed.

Lemma rstep_started s s' t : ors_wf s -> rstep s s' -> started s t -> started s' t.
Proof.
  intros Hwf Hst [(r & Hr & Et & Hn1 & Hn2) Hno]. split; [|by eapply rstep_no_predecessor].
  destruct (rstep_record s s' _ r Hwf Hst Hr) as (r' & Hr' & Et' & _ & _).
  exists r'. split_and!; [done|congruence|..].
  all: destruct Hst as [r0 r1 Hr0 Ht0 Hm ? Hres|Hres|? ? ? Hres|r0 r1 d ? Hr0 Ht0 ? Hcl ? Hres
    |t' env b ? Hnone ? ? ? ? ? ? ? ? ? ? ? ? ? Hres]; rewrite Hres in Hr'; try congruence.
  all: apply lookup_insert_Some in Hr' as [[Ek <-]|[_ ?]]; try congruence.
  all: try (assert (r0 = r) as -> by congruence).
  1, 3: unfold move_ok in Hm; destruct (rd_state r), (rd_state r1); done.
  all: rewrite Hcl; by destruct d.
Qed.

Lemma rsteps_started s s' t : ors_wf s -> rtc rstep s s' -> started s t -> started s' t.
Proof.
  intros Hwf Hs. revert Hwf. induction Hs as [|s s1 s' Hst _ IH]; [done|].
  intros Hwf Ht. apply IH; [by eapply rstep_wf|by eapply rstep_started].
Qed.

Lemma begin_execute_started c t epoch s s' rec : ors_wf s ->
  begin_execute c t epoch s = (s', Ok rec) -> started s' t.
Proof.
  intros Hwf Hx. pose proof (begin_execute_steps _ _ _ _ _ _ Hx) as Hsteps.
  pose proof (rsteps_wf _ _ Hwf Hsteps) as Hwf'.
  destruct (begin_execute_executing _ _ _ _ _ _ Hx) as (r & Hr & Et & Es).
  split; [exists r; split_and!; [done|done|by rewrite Es..]|].
  intros k p Hk. destruct (pending_predecessor t p) eqn:Hp; [|done].
  apply pending_predecessor_true in Hp as (Hp & Hlt & Hsh). rewrite <- Et in Hlt, Hsh.
  rewrite (wf_owner _ Hwf' k p _ r Hk Hr) in Hsh; [done|by right|done|done].
Qed.

(** *** Every coordinator call is a call on the tables *)

Lemma ors_step_rsteps s s' : ors_wf s -> ors_step s s' -> rtc rstep s s'.
Proof. intros Hwf (call & Ht & ->). by apply call_steps. Qed.

Lemma execute_tables env t epoch scopes s st c res : ors_wf s ->
  execute_with_permits (S := OrsStore) env t epoch scopes s st = (c, res) ->
  rtc rstep s (wc_ors c) /\ match res with Ok _ => started (wc_ors c) t | Err _ => True end.
Proof.
  intros Hwf. unfold execute_with_permits.
  destruct (owner_begin_execute env t epoch s) as [s' [rec|e]] eqn:Hx; intros [= <- <-]; simpl in *;
    (split; [by eapply begin_execute_steps|]); [|done].
  by eapply begin_execute_started.
Qed.

(** The tables and the guards as they were. *)
Ltac unchanged := simplify_eq/=; by auto using rtc_refl.

Lemma world_step_tables w w' : world_step instant_max ors_step w w' -> ors_wf (wc_ors w.1) ->
  permits_ok (wc_state w.1) w.2 ->
  rtc rstep (wc_ors w.1) (wc_ors w'.1) /\
  forall t g, (t, g) ∈ w'.2 -> (t, g) ∈ w.2 \/ started (wc_ors w'.1) t.
Proof.
  destruct 1 as [env now t epoch c c' g gs Hx|env now t epoch c c' e gs Hx|env now t c c' r gs Hx
    |env now epoch c c' head g gs Hx Hn|env now epoch c c' r gs Hx Hr|t g c gs gs' Hp
    |now scope delay c c' r gs Hx|lanes c c' r gs Hl Hx|c ors' gs Hs]; simpl; intros Hwf Hok.
  1, 2: unfold begin_execution in Hx; destruct (validated_scope_order t); [|unchanged];
    destruct (_ <=? _); [unchanged|]; destruct (find _ _); [unchanged|];
    apply (execute_tables _ _ _ _ _ _ _ _ Hwf) in Hx as [Hs Hst]; (split; [done|]);
    intros t' g' Hin; try (apply elem_of_cons in Hin as [[= -> ->]|]); auto.
  - split; [|auto]. unfold enqueue_ready in Hx. destruct (validated_scope_order t); [|unchanged].
    destruct (queue_holds _ t); [unchanged|].
    destruct (owner_mark_eligible env t (wc_ors c)) as [s' [rec|e]] eqn:Hm; simplify_eq/=;
      by eapply mark_eligible_steps.
  - destruct (dispatch_ready_cases env now epoch c (pk_queue _ _ Hok)) as [[_ E]|(k & h & _ & Hn' & _ & Hd)].
    { rewrite E in Hx. done. }
    destruct (execute_with_permits _ _ _ _ _ _) as [c1 r1] eqn:He. rewrite (Hd c1 r1 eq_refl) in Hx.
    destruct r1 as [g1|]; simplify_eq/=. apply (execute_tables _ _ _ _ _ _ _ _ Hwf) in He as [Hs Hst].
    split; [done|]. intros t' g' [[= -> ->]|]%elem_of_cons; auto.
  - destruct (dispatch_ready_cases env now epoch c (pk_queue _ _ Hok)) as [[_ E]|(k & h & _ & _ & _ & Hd)].
    { rewrite E in Hx. simplify_eq/=. auto using rtc_refl. }
    destruct (execute_with_permits _ _ _ _ _ _) as [c1 r1] eqn:He. rewrite (Hd c1 r1 eq_refl) in Hx.
    simplify_eq. apply (execute_tables _ _ _ _ _ _ _ _ Hwf) in He as [Hs Hst]. auto.
  - split; [constructor|]. intros t' g' Hin. left. rewrite Hp. by right.
  - split; [|auto]. unfold delay_scope_head in Hx. destruct (_ <? _); [unchanged|].
    destruct (negb _); unchanged.
  - split; [|auto]. unfold reconfigure_lanes in Hx. destruct (_ || _); unchanged.
  - split; [by apply ors_step_rsteps|auto].
Qed.

Lemma world_started s0 lanes w : ors_wf s0 -> 1 <= lanes <= u64_max ->
  rtc (world_step instant_max ors_step) (coordinator_new s0 lanes, []) w ->
  ors_wf (wc_ors w.1) /\ forall t g, (t, g) ∈ w.2 -> started (wc_ors w.1) t.
Proof.
  intros Hwf Hl Hr.
  apply (rtc_ind_r (R := world_step instant_max ors_step)
    (fun w => permits_ok (wc_state w.1) w.2 /\ ors_wf (wc_ors w.1) /\
              forall t g, (t, g) ∈ w.2 -> started (wc_ors w.1) t) (coordinator_new s0 lanes, [])) in Hr.
  - naive_solver.
  - split_and!; [by apply permits_new|done|]. intros t g Hin. by apply not_elem_of_nil in Hin.
  - intros w1 w2 _ Hs (Hok & Hwf1 & Hst).
    destruct (world_step_tables _ _ Hs Hwf1 Hok) as [Hrs Hg].
    split_and!; [by eapply world_step_permits|by eapply rsteps_wf|].
    intros t g Hin. destruct (Hg t g Hin) as [Hold|Hnew]; [|done]. eapply rsteps_started; eauto.
Qed.

(** C3. While a guard is live and its reservation is not closed, no other
    reservation that shares one of its scopes is eligible or executing in the
    tables, whoever calls them: an expiry, a fence or a restart may take the
    reservation from its guard, and even then no successor is let in before a
    receipt or a release closes it. *)
Theorem guarded_write_runs_alone (calls : list OrsCall) (Hcalls : Forall call_typed calls)
    (lanes : Z) (Hlanes : 1 <= lanes <= u64_max)
    (c : WriteCoordinator OrsStore) (guards : Guards)
    (Hrun : rtc (world_step instant_max ors_step)
              (coordinator_new (ors_run calls ors_empty) lanes, []) (c, guards))
    (t : WriterReservationToken) (g : ScopeExecutionGuard) (Hguard : (t, g) ∈ guards) :
  exists r, os_reservations (wc_ors c) !! tk_reservation_id t = Some r /\ rd_token r = t /\
    rd_state r <> RsReserved /\ rd_state r <> RsEligible /\
    forall k r' scope, os_reservations (wc_ors c) !! k = Some r' -> owns_scopes r' ->
      scope ∈ sg_scopes g -> scope ∈ token_scopes (rd_token r') ->
      k = tk_reservation_id t \/ reservation_is_terminal (rd_state r) = true.
Proof.
  pose proof (world_permits _ _ _ _ _ Hlanes Hrun) as Hok. simpl in Hok.
  destruct (world_started _ _ _ (run_wf calls Hcalls) Hlanes Hrun) as [Hwf Hst]. simpl in Hwf, Hst.
  destruct (Hst t g Hguard) as [(r & Hr & Et & N1 & N2) Hno]. exists r. split_and!; [done..|].
  intros k r' scope Hk Ho Hs Hs'. destruct (pk_guards _ _ Hok t g Hguard) as [Es _]. rewrite Es in Hs.
  destruct (reservation_is_terminal (rd_state r)) eqn:Hp; [by right|left].
  destruct (Z.lt_trichotomy (rd_order r') (rd_order r)) as [L|[E|L]].
  - exfalso. pose proof (Hno k r' Hk) as Hf. rewrite <- not_true_iff_false in Hf. apply Hf.
    apply pending_predecessor_true. rewrite <- Et. split_and!; [by apply owner_pending|done|].
    apply shares_scope_iff. rewrite Et. eauto.
  - by eapply order_unique.
  - exfalso. pose proof (wf_owner _ Hwf _ _ _ _ Hr Hk Ho Hp L) as Hf. rewrite <- not_true_iff_false in Hf.
    apply Hf, shares_scope_iff. rewrite Et. eauto.
Qed.

(** *** The recovery listing *)

Lemma unresolved_not_closed s after limit :
  List.filter (fun r => negb ((rd_state r == RsFinalized) || (rd_state r == RsReleased)))
    (take limit (unresolved_after s after)) = take limit (unresolved_after s after).
Proof.
  apply filter_all, Forall_take, Forall_forall. intros r Hr.
  apply list_elem_of_In, filter_In in Hr as [_ Hr]. apply andb_true_iff in Hr as [Hr _].
  unfold reservation_is_terminal in Hr. by destruct (rd_state r).
Qed.

Lemma last_in_page s after n r : last (take n (unresolved_after s after)) = Some r -> after < rd_order r.
Proof.
  intros Hl. assert (Hin : r ∈ unresolved_after s after).
  { apply last_Some in Hl as [l' El]. rewrite <- (take_drop n), El. set_solver. }
  apply list_elem_of_In, filter_In in Hin as [_ Hin]. apply andb_true_iff in Hin as [_ Hin]. lia.
Qed.

Lemma unresolved_pages_all s limit : ors_wf s -> labels_ok s -> 1 <= limit <= MAX_RECOVERY_PAGE ->
  forall fuel after acc, 0 <= after -> (length (unresolved_after s after) < fuel)%nat ->
    unresolved_pages fuel s limit after acc = Ok (Some (acc ++ unresolved_after s after)).
Proof.
  intros Hwf Hlab Hlim fuel. induction fuel as [|fuel IH]; intros after acc Ha Hf; [lia|].
  simpl. unfold RecoveryCursor_new. unfold cursor_limit_bad.
  rewrite (proj2 (Z.eqb_neq _ _)), (proj2 (Z.ltb_ge _ _)) by lia. cbn [orb guard_err rbind].
  rewrite recover_page_ok by done. cbn [rbind pg_records pg_next_after_order].
  rewrite unresolved_not_closed. unfold usize_of_len.
  destruct (Z.ltb_spec limit (Z.of_nat (length (unresolved_after s after)))) as [Hmore|Hend].
  - destruct (last (take (Z.to_nat limit) (unresolved_after s after))) as [r|] eqn:Hl.
    + pose proof (last_in_page _ _ _ _ Hl) as Hlt. simpl.
      rewrite IH, (unresolved_next s after (Z.to_nat limit) r Hwf), <- app_assoc, take_drop;
        [done|lia|done|lia|].
      rewrite (unresolved_next s after (Z.to_nat limit) r Hwf), length_drop by (done || lia). lia.
    + apply last_None in Hl. apply (f_equal length) in Hl. rewrite length_take in Hl. simpl in Hl. lia.
  - by rewrite take_ge by lia.
Qed.

Lemma unresolved_elem s after r : ors_wf s -> r ∈ unresolved_after s after <->
  os_reservations s !! rd_id r = Some r /\ pending r /\ after < rd_order r.
Proof.
  intros Hwf. unfold unresolved_after. rewrite list_elem_of_In, filter_In, <- list_elem_of_In.
  rewrite records_by_order_elem by done. rewrite andb_true_iff, negb_true_iff, Z.ltb_lt. split.
  - intros [[k Hk] [Hp Ha]]. split_and!; [|done|done]. by rewrite (ro_key _ _ _ (wf_record _ Hwf _ _ Hk)).
  - intros (Hk & Hp & Ha). eauto.
Qed.

Lemma unresolved_length s after : ors_wf s -> (length (unresolved_after s after) <= size (os_reservations s))%nat.
Proof.
  intros Hwf. assert (Hnd : NoDup (rd_id <$> unresolved_after s after)).
  { pose proof (fun r => proj1 (unresolved_elem s after r Hwf)) as Hin.
    induction (unresolved_sorted s after Hwf) as [|r l Hs IH Hlt]; [constructor|].
    rewrite fmap_cons. apply NoDup_cons. split; [|by apply IH; intros r' Hr'; apply Hin; right].
    intros Hr. apply list_elem_of_fmap in Hr as (r' & E & Hr'). rewrite Forall_forall in Hlt.
    specialize (Hlt r' Hr'). destruct (Hin r ltac:(left)) as [H1 _].
    destruct (Hin r' ltac:(by right)) as [H2 _]. rewrite <- E, H1 in H2. injection H2 as <-. lia. }
  rewrite <- (length_fmap rd_id), <- size_dom, <- (size_list_to_set (C := gset string)) by done.
  apply subseteq_size. intros k Hk. apply elem_of_list_to_set, list_elem_of_fmap in Hk as (r & -> & Hr).
  apply unresolved_elem in Hr as [Hr _]; [|done]. apply elem_of_dom. eauto.
Qed.

(** C10. Listing unresolved writes after a restart terminates, in as many pages as
    it takes, with every reservation that is not closed, each once and in
    reservation order. *)
Theorem unresolved_lists_open_writes (calls : list OrsCall) (Hcalls : Forall call_typed calls)
    (c : WriteCoordinator OrsStore) (Hors : wc_ors c = ors_run calls ors_empty)
    (limit : Z) (Hlimit : 1 <= limit <= MAX_RECOVERY_PAGE) :
  exists l, unresolved (Datatypes.S (size (os_reservations (wc_ors c)))) limit c = Ok (Some l) /\
    StronglySorted (fun a b => rd_order a < rd_order b) l /\
    forall r, r ∈ l <-> os_reservations (wc_ors c) !! rd_id r = Some r /\
                        reservation_is_terminal (rd_state r) = false.
Proof.
  pose proof (run_wf calls Hcalls) as Hwf. pose proof (run_labels calls Hcalls) as Hlab.
  rewrite <- Hors in Hwf, Hlab. exists (unresolved_after (wc_ors c) 0). split_and!.
  - unfold unresolved. rewrite unresolved_pages_all; try done.
    pose proof (unresolved_length (wc_ors c) 0 Hwf). lia.
  - by apply unresolved_sorted.
  - intros r. rewrite unresolved_elem by done. split; [tauto|]. intros [Hr Hp]. split_and!; [done..|].
    pose proof (ro_bound _ _ _ (wf_record _ Hwf _ _ Hr)). lia.
Qed.

(** A token the tables hold always has its scopes in order: enqueueing it can
    only fail because it is queued already or because the store refuses it. *)
Theorem held_token_enqueues (calls : list OrsCall) (Hcalls : Forall call_typed calls)
    (c : WriteCoordinator OrsStore) (Hors : wc_ors c = ors_run calls ors_empty)
    (k : string) (r : ReservationRecord) (Hr : os_reservations (wc_ors c) !! k = Some r)
    (env : CommitOutcome) (now : Z) :
  let t := rd_token r in
  (enqueue_ready env now t c).2 =
    if queue_holds (cs_ready (wc_state c)) t then Err (CeAlreadyQueued (tk_reservation_id t))
    else match (mark_eligible env t (wc_ors c)).2 with
         | Err e => Err (CeOrs e)
         | Ok _ => Ok {| rr_ticket := rq_next_ticket (cs_ready (wc_state c)); rr_token := t;
                         rr_scopes := token_scopes t |}
         end.
Proof.
  intros t. pose proof (run_wf calls Hcalls) as Hwf. rewrite <- Hors in Hwf.
  pose proof (wf_record _ Hwf _ _ Hr) as Hok.
  assert (Hv : validated_scope_order t = Ok (token_scopes t)).
  { unfold validated_scope_order. rewrite (proj2 (guard_err_ok _ _)).
    - apply scan_scope_order_total; [apply (ro_sorted _ _ _ Hok)|apply (ro_distinct _ _ _ Hok)| |done].
      intros sc _. apply not_elem_of_empty.
    - apply Z.eqb_neq. unfold usize_of_len. pose proof (ro_nonempty _ _ _ Hok) as Hne.
      unfold rd_scopes in Hne. fold t in Hne. by destruct (tk_scopes t). }
  unfold enqueue_ready. rewrite Hv. change (cs_ready (prune_elapsed_delays now (wc_state c)))
    with (cs_ready (wc_state c)). destruct (queue_holds _ t); [done|]. simpl.
  by destruct (mark_eligible env t (wc_ors c)) as [s' [rec|e]].
Qed.
End OverTables.
