(* ===== verification/OrsExamples.v ===== *)
(** * Runs of the reservation tables and the coordinator

    A sample wire, requests and receipts, and concrete runs: the witnesses of
    the theorems on the tables and the coordinator, and the runs behind the
    findings. *)

From Stdlib Require Import String.
From stdpp Require Import relations.
From S2P Require Import Prelude RustText Contracts Receipts OrsModel OrsStore OrsLaws OrsSteps.
From S2P Require Import OrsTheorems OrsRetry OrsRecovery.
From S2P Require Import WriteCoordinator WriteCoordinatorLaws WriteCoordinatorTheorems.

#[local] Open Scope string_scope.
#[local] Open Scope list_scope.
#[local] Open Scope Z_scope.

(** ** Samples *)

(** A digest that keeps the last thirty-two bytes. *)
#[export] Instance sample_wire : OrsWire := {
  ors_sha256 := fun bs => take 32 (rev bs ++ repeat 0 32);
  recanonicalize := Ok;
  fence_json := fun _ => Ok "{}";
  receipt_json := fun core => Ok (bytes (op_operation_id (rc_operation core)));
}.

#[export] Instance sample_evidence : CanonicalEvidence := {
  verify_ordering_heads := fun _ => Ok tt;
  verify_reconciliation := fun _ _ => Ok tt;
}.

Definition first_epoch : EpochLineage :=
  {| el_current := {| ei_lineage_id := "lineage"; ei_epoch := 1 |}; el_predecessor := None |}.

Definition second_epoch : EpochLineage :=
  {| el_current := {| ei_lineage_id := "lineage"; ei_epoch := 2 |};
     el_predecessor := Some (el_current first_epoch) |}.

Definition sample_snapshot (epoch : EpochLineage) : StateFenceSnapshot :=
  {| fs_canonical_json := "{}"; fs_sha256 := sha256_hex ors_sha256 (bytes "{}");
     fs_observed_authority_epoch := ei_epoch (el_current epoch) |}.

Definition sample_access : RecoveryAccessClass :=
  {| ac_privacy := Private; ac_visibility := "owner"; ac_instruction_taint := DataOnly |}.

Definition sample_secret : SecretReference := {| sr_provider := "vault"; sr_key := "key" |}.

Definition base_head : ExpectedOrderingHead :=
  {| eh_sequence := 0; eh_head_sha256 := sample_hex; eh_revision_head := None |}.

Definition sample_binding (name : string) (epoch : EpochLineage) (scopes : list string)
    : RecoveryWriteBinding :=
  {| wb_write_envelope_protocol_version := 1; wb_recovery_envelope_contract_version := 1;
     wb_recovery_access_class := sample_access; wb_payload_created_at_ms := 10;
     wb_payload_known_at_ms := 10; wb_payload_expires_at_ms := None;
     wb_operation_id := "operation-" ++ name; wb_write_intent_id := "intent-" ++ name;
     wb_idempotency_key := "key-" ++ name; wb_canonical_request_sha256 := sample_hex;
     wb_prepared_transition_sha256 := sample_hex; wb_ordering_scopes := scopes;
     wb_admission_contract_set_digest := sample_hex; wb_operation_manifest_digest := "manifest";
     wb_authority_epoch := epoch; wb_state_fence := sample_snapshot epoch;
     wb_protected_payload_sha256 := sha256_hex ors_sha256 [7]; wb_protected_payload_length := 1;
     wb_payload_key_reference := sample_secret |}.

(** A write named [name] on [scopes], each expected at [head]. *)
Definition sample_request (name : string) (epoch : EpochLineage) (head : ExpectedOrderingHead)
    (scopes : list string) : ReservationRequest :=
  {| rq_reservation_id := "reservation-" ++ name;
     rq_envelope :=
       {| en_contract_version := 1; en_operation_or_checkpoint_id := "operation-" ++ name;
          en_privacy_and_visibility_class := sample_access;
          en_payload := Encrypted sample_secret [7];
          en_write_binding := Some (sample_binding name epoch scopes);
          en_payload_sha256 := sha256_hex ors_sha256 [7]; en_payload_length := 1;
          en_authority_epoch := epoch; en_state_fence := sample_snapshot epoch;
          en_created_at_ms := 10; en_known_at_ms := 10; en_expires_at_ms := None |};
     rq_writer_epoch := epoch;
     rq_scopes := (fun scope => {| sq_scope := scope; sq_expected_head := head |}) <$> scopes;
     rq_prepared_transition_sha256 := sample_hex; rq_expires_at_ms := 100;
     rq_recovery_owner := "owner" |}.

(** The token a request is answered with, at [order] and [sequence]. *)
Definition sample_token (r : ReservationRequest) (order sequence : Z) : WriterReservationToken :=
  {| tk_reservation_id := rq_reservation_id r;
     tk_operation_id := en_operation_or_checkpoint_id (rq_envelope r);
     tk_writer_epoch := rq_writer_epoch r; tk_state_fence := en_state_fence (rq_envelope r);
     tk_reservation_order := order;
     tk_scopes := (fun q => {| rs_scope := sq_scope q; rs_reserved_sequence := sequence;
                               rs_expected_head := sq_expected_head q |}) <$> rq_scopes r;
     tk_prepared_transition_sha256 := rq_prepared_transition_sha256 r;
     tk_write_binding := en_write_binding (rq_envelope r);
     tk_expires_at_ms := rq_expires_at_ms r; tk_recovery_owner := rq_recovery_owner r |}.

Definition sample_operation (name : string) (b : OperationBinding) : OperationBinding :=
  {| op_operation_id := "operation-" ++ name; op_request_id := op_request_id b;
     op_idempotency_key := "key-" ++ name; op_operation_kind := op_operation_kind b;
     op_effect := op_effect b; op_state_fence := op_state_fence b |}.

(** The receipt of the write named [name]. *)
Definition sample_receipt_of (name : string) (d : ReceiptDisposition) : ReceiptEnvelope :=
  let core := {| rc_contract := rc_contract plain_core; rc_kind := rc_kind plain_core;
                 rc_work_scope := rc_work_scope plain_core; rc_task := rc_task plain_core;
                 rc_session := rc_session plain_core; rc_causal := rc_causal plain_core;
                 rc_request := rc_request plain_core;
                 rc_operation := sample_operation name (rc_operation plain_core);
                 rc_authority := rc_authority plain_core; rc_artifacts := []; rc_verifier := None;
                 rc_problem := None; rc_coordination := None; rc_disposition := d |} in
  let digest := sha256_hex ors_sha256 (bytes ("operation-" ++ name)) in
  {| re_identity := {| ri_receipt_id := "receipt-" ++ digest; ri_canonical_sha256 := digest |};
     re_core := core |}.

Definition sample_reconciliation (name : string) (t : WriterReservationToken)
    (disposition : CanonicalDisposition) : CanonicalReconciliation :=
  let receipt := sample_receipt_of name
    (match disposition with
     | CdCommitted => DSuccess Observation
     | CdRejected => DCancelled "cancelled"
     end) in
  {| cr_reservation_id := tk_reservation_id t; cr_operation_id := tk_operation_id t;
     cr_reservation_order := tk_reservation_order t; cr_state_fence := tk_state_fence t;
     cr_recovery_owner := tk_recovery_owner t;
     cr_scopes := (fun e =>
       {| ob_scope := rs_scope e; ob_prior_head := rs_expected_head e;
          ob_committed_sequence := rs_reserved_sequence e;
          ob_committed_head_sha256 := ri_canonical_sha256 (re_identity receipt);
          ob_committed_revision_head := None;
          ob_receipt_id := ri_receipt_id (re_identity receipt) |}) <$> tk_scopes t;
     cr_receipt := receipt; cr_disposition := disposition |}.

(** ** Two writes on one scope *)

Definition request_a : ReservationRequest := sample_request "a" first_epoch base_head ["s"].
Definition request_b : ReservationRequest := sample_request "b" first_epoch base_head ["s"].
Definition token_a : WriterReservationToken := sample_token request_a 1 1.
Definition token_b : WriterReservationToken := sample_token request_b 2 2.

Definition epoch_one : EpochIdentity := el_current first_epoch.

Definition commit_a : list OrsCall :=
  [CallStage CommitOk request_a; CallEligible CommitOk token_a;
   CallExecute CommitOk token_a epoch_one;
   CallReconcile CommitOk (sample_reconciliation "a" token_a CdCommitted)].

Definition state_of (calls : list OrsCall) (id : string) : option ReservationState :=
  rd_state <$> os_reservations (ors_run calls ors_empty) !! id.

Example commit_a_runs : state_of commit_a "reservation-a" = Some RsFinalized.
Proof. vm_compute. reflexivity. Qed.

Ltac typed_calls := by repeat constructor; simpl; unfold is_u64; vm_compute.

(** ** Witnesses: the tables *)

Definition executing_a : list OrsCall :=
  [CallStage CommitOk request_a; CallStage CommitOk request_b; CallEligible CommitOk token_a;
   CallEligible CommitOk token_b; CallExecute CommitOk token_a epoch_one].

Lemma executing_a_typed : Forall call_typed executing_a.
Proof. typed_calls. Qed.

(** The second write stays reserved, however it asks. *)
Lemma one_execution_per_scope_witness :
  state_of executing_a "reservation-b" = Some RsReserved /\ "reservation-a" = "reservation-a".
Proof.
  split; [vm_compute; reflexivity|].
  apply (one_execution_per_scope executing_a executing_a_typed "reservation-a" "reservation-a"
    (set_rd_state RsExecuting (new_record token_a)) (set_rd_state RsExecuting (new_record token_a)) "s").
  1, 2: vm_compute; reflexivity.
  1, 2: by right.
  1, 2: left.
Defined.

Definition head_a : ExpectedOrderingHead :=
  {| eh_sequence := 1; eh_head_sha256 := sha256_hex ors_sha256 (bytes "operation-a");
     eh_revision_head := None |}.

Definition request_f : ReservationRequest := sample_request "f" first_epoch head_a ["s"].
Definition token_f : WriterReservationToken := sample_token request_f 2 2.

Definition commit_both : list OrsCall :=
  commit_a ++ [CallStage CommitOk request_f; CallEligible CommitOk token_f;
   CallExecute CommitOk token_f epoch_one;
   CallReconcile CommitOk (sample_reconciliation "f" token_f CdCommitted)].

Lemma commit_both_typed : Forall call_typed commit_both.
Proof. typed_calls. Qed.

Definition closed_by (t : WriterReservationToken) (operation : string) : ReservationRecord :=
  {| rd_token := t; rd_state := RsFinalized; rd_unknown_reason := None;
     rd_terminal_receipt_id := Some ("receipt-" ++ sha256_hex ors_sha256 (bytes operation))%string |}.

Definition entry_at (sequence : Z) (head : ExpectedOrderingHead) : ReservedScope :=
  {| rs_scope := "s"; rs_reserved_sequence := sequence; rs_expected_head := head |}.

Lemma commits_form_one_line_witness :
  1 <= eh_sequence head_a < 2 /\
  exists h, os_scope_heads (ors_run commit_both ors_empty) !! "s" = Some h /\
    2 <= eh_sequence (sh_canonical_head h).
Proof.
  apply (commits_form_one_line commit_both commit_both_typed "reservation-a" "reservation-f"
    (closed_by token_a "operation-a") (closed_by token_f "operation-f") (entry_at 1 base_head)
    (entry_at 2 head_a)).
  1, 2: vm_compute; reflexivity.
  1, 2: reflexivity.
  1, 2: left.
  1, 2: reflexivity.
Defined.

Definition late_calls : list OrsCall :=
  [CallFence CommitOk ["s"] second_epoch; CallRestart [];
   CallRelease CommitOk token_a epoch_one].

Lemma late_calls_typed : Forall call_typed late_calls.
Proof. typed_calls. Qed.

Lemma commit_a_typed : Forall call_typed commit_a.
Proof. typed_calls. Qed.

Lemma closed_reservation_is_final_witness :
  os_reservations (ors_run late_calls (ors_run commit_a ors_empty)) !! "reservation-a"
  = Some (closed_by token_a "operation-a").
Proof.
  apply (closed_reservation_is_final commit_a late_calls commit_a_typed late_calls_typed).
  - vm_compute. reflexivity.
  - reflexivity.
Defined.

Lemma terminal_rows_exact_witness :
  exists x, os_scope_terminals (ors_run commit_a ors_empty) !! terminal_key "s" 1 = Some x /\
    sx_receipt_id x = ("receipt-" ++ sha256_hex ors_sha256 (bytes "operation-a"))%string /\
    (sx_gap x = false <-> RsFinalized = RsFinalized).
Proof.
  apply (proj1 (terminal_rows_exact commit_a commit_a_typed) "reservation-a"
    (closed_by token_a "operation-a") _ (entry_at 1 base_head)).
  - vm_compute. reflexivity.
  - reflexivity.
  - left.
Defined.

Lemma stage_only_typed : request_typed request_a.
Proof. by constructor; [repeat constructor|..]; vm_compute. Qed.

(** The retry of a finalized write, its payload long gone. *)
Lemma retry_returns_original_witness :
  let s := (stage_and_reserve CommitOk request_a ors_empty).1 in
  stage_and_reserve CommitOk request_a (ors_run (tail commit_a) s) = (ors_run (tail commit_a) s, Ok token_a).
Proof.
  apply (retry_returns_original [] (tail commit_a) CommitOk CommitOk request_a).
  - constructor.
  - typed_calls.
  - exact stage_only_typed.
  - vm_compute. reflexivity.
Defined.

Lemma restart_recovers_exactly_witness :
  (1 <= size (os_reservations (ors_run executing_a ors_empty)))%nat /\
  exists s', recover_interrupted_reservations [] (ors_run executing_a ors_empty) = (s', Ok (Some tt)) /\
    restarted (ors_run executing_a ors_empty) s' /\
    forall k r, os_reservations s' !! k = Some r -> rd_state r <> RsExecuting.
Proof.
  split; [vm_compute; lia|]. apply (restart_recovers_exactly executing_a executing_a_typed).
  vm_compute. discriminate.
Defined.

Definition fenced_b : ReservationRecord := set_rd_unknown fenced_reason (new_record token_b).

Definition fenced_store : OrsStore :=
  (fence_writer_epoch CommitOk ["s"] second_epoch (ors_run executing_a ors_empty)).1.

Lemma fence_reaches_every_reservation_witness :
  os_reservations fenced_store !! "reservation-b" = Some fenced_b /\ rd_state fenced_b = RsReconciling.
Proof.
  assert (Hf : fence_writer_epoch CommitOk ["s"] second_epoch (ors_run executing_a ors_empty)
    = (fenced_store, Ok (Some tt))) by (vm_compute; reflexivity).
  assert (Hb : os_reservations fenced_store !! "reservation-b" = Some fenced_b) by (vm_compute; reflexivity).
  split; [exact Hb|].
  destruct (fence_reaches_every_reservation _ _ _ _ _ _ Hf) as (_ & _ & Hall).
  refine (Hall "reservation-b" fenced_b "s" Hb _ _ _ _); [left|left|reflexivity|discriminate].
Defined.

(** ** Witnesses: the coordinator *)

Definition request_g : ReservationRequest := sample_request "g" first_epoch base_head ["t"].
Definition token_g : WriterReservationToken := sample_token request_g 3 1.

(** Two writes on [s] and one on [t], staged before the coordinator starts. *)
Definition staged_three : list OrsCall :=
  [CallStage CommitOk request_a; CallStage CommitOk request_b; CallStage CommitOk request_g].

Lemma staged_three_typed : Forall call_typed staged_three.
Proof. typed_calls. Qed.

Definition c_new : WriteCoordinator OrsStore := coordinator_new (ors_run staged_three ors_empty) 2.
Definition c_queued_a : WriteCoordinator OrsStore := (enqueue_ready CommitOk 5 token_a c_new).1.
Definition c_queued : WriteCoordinator OrsStore := (enqueue_ready CommitOk 6 token_g c_queued_a).1.
Definition c_running : WriteCoordinator OrsStore := (dispatch_ready CommitOk 7 epoch_one c_queued).1.

Definition guard_a : ScopeExecutionGuard :=
  {| sg_operation_id := "operation-a"; sg_scopes := ["s"] |}.

Lemma queued_run max : rtc (world_step max ors_step) (c_new, []) (c_queued, []).
Proof.
  eapply rtc_l; [eapply (WorldEnqueue max ors_step CommitOk 5 token_a), surjective_pairing|].
  apply rtc_once. eapply (WorldEnqueue max ors_step CommitOk 6 token_g), surjective_pairing.
Qed.

Lemma running_run max : rtc (world_step max ors_step) (c_new, []) (c_running, [(token_a, guard_a)]).
Proof.
  etrans; [apply queued_run|]. apply rtc_once.
  apply (WorldDispatch max ors_step CommitOk 7 epoch_one c_queued c_running
    {| re_token := token_a; re_scopes := ["s"]; re_ready_since := 5; re_not_before := 5 |}).
  - vm_compute. reflexivity.
  - vm_compute. reflexivity.
Qed.

Lemma coordinator_permits_exact_witness :
  let s := wc_state c_running in
  NoDup (held_scopes [(token_a, guard_a)]) /\
  (forall scope op, cs_busy s !! scope = Some op <->
     exists t g, (t, g) ∈ [(token_a, guard_a)] /\ scope ∈ sg_scopes g /\ op = sg_operation_id g) /\
  cs_in_flight s = 1 /\ cs_in_flight s <= lane_bound s /\ NoDup (entry_ids (rq_entries (cs_ready s))).
Proof.
  apply (coordinator_permits_exact 1000 ors_step (ors_run staged_three ors_empty) 2
    ltac:(unfold u64_max; lia) c_running [(token_a, guard_a)]), running_run.
Defined.

(** The head of [t] goes next: one write is out, and [s] is taken. *)
Lemma dispatch_takes_oldest_ready_witness :
  (dispatch_ready CommitOk 8 epoch_one c_running).2
  = Ok (Some {| sg_operation_id := "operation-g"; sg_scopes := ["t"] |}) /\
  exists l1 te l2, rq_entries (cs_ready (wc_state c_running)) = l1 ++ te :: l2 /\
    Forall (fun x => dispatchable 8 (cs_busy (wc_state c_running)) x.2 = false) l1 /\
    rq_entries (cs_ready (wc_state (dispatch_ready CommitOk 8 epoch_one c_running).1)) = l1 ++ l2.
Proof.
  assert (Hr : (dispatch_ready CommitOk 8 epoch_one c_running).2
    = Ok (Some {| sg_operation_id := "operation-g"; sg_scopes := ["t"] |})) by (vm_compute; reflexivity).
  split; [exact Hr|].
  pose proof (dispatch_takes_oldest_ready 1000 ors_step (ors_run staged_three ors_empty) 2
    ltac:(unfold u64_max; lia) c_running [(token_a, guard_a)] (running_run 1000) CommitOk 8 epoch_one) as Hd.
  destruct (dispatch_ready CommitOk 8 epoch_one c_running) as [c' r]. cbn [fst snd] in *.
  destruct Hd as [[E _]|(l1 & te & l2 & E & Hf & _ & _ & _ & Eq & _)].
  - exfalso. rewrite Hr in E. discriminate E.
  - exists l1, te, l2. split_and!; [exact E|exact Hf|exact Eq].
Defined.

Lemma guarded_write_runs_alone_witness :
  exists r, os_reservations (wc_ors c_running) !! "reservation-a" = Some r /\ rd_token r = token_a /\
    rd_state r <> RsReserved /\ rd_state r <> RsEligible /\
    forall k r' scope, os_reservations (wc_ors c_running) !! k = Some r' -> owns_scopes r' ->
      scope ∈ ["s"] -> scope ∈ token_scopes (rd_token r') ->
      k = "reservation-a" \/ reservation_is_terminal (rd_state r) = true.
Proof.
  apply (guarded_write_runs_alone 1000 staged_three staged_three_typed 2 ltac:(unfold u64_max; lia)
    c_running [(token_a, guard_a)] (running_run 1000) token_a guard_a). left.
Defined.

Lemma unresolved_lists_open_writes_witness :
  exists l, unresolved (Datatypes.S (size (os_reservations (wc_ors c_new)))) 2 c_new = Ok (Some l) /\
    StronglySorted (fun a b => rd_order a < rd_order b) l /\
    forall r, r ∈ l <-> os_reservations (wc_ors c_new) !! rd_id r = Some r /\
                        reservation_is_terminal (rd_state r) = false.
Proof.
  apply (unresolved_lists_open_writes staged_three staged_three_typed c_new eq_refl 2).
  unfold MAX_RECOVERY_PAGE. lia.
Defined.

Lemma held_token_enqueues_witness :
  (enqueue_ready CommitOk 9 token_b c_new).2 = Err (CeOrs OePredecessorPending).
Proof.
  etrans; [apply (held_token_enqueues staged_three staged_three_typed c_new eq_refl "reservation-b"
    (new_record token_b) ltac:(vm_compute; reflexivity) CommitOk 9)|].
  vm_compute. reflexivity.
Defined.
