(* ===== verification/OrsFindings.v ===== *)
(** * Where the reservation tables and the coordinator surprise

    A reservation left behind by its scope's head can never be closed, and
    takes its scope with it; a repeated fence lifts a recovery block that is
    still owed; a shorter delay replaces a longer one. *)

From Stdlib Require Import String.
From stdpp Require Import relations.
From S2P Require Import Prelude RustText Contracts Receipts OrsModel OrsStore OrsLaws OrsSteps.
From S2P Require Import OrsTheorems WriteCoordinator OrsExamples.

#[local] Open Scope string_scope.
#[local] Open Scope list_scope.
#[local] Open Scope Z_scope.

(** ** A reservation its scope has left behind *)

Section LeftBehind.
Context `{OrsWire, CanonicalEvidence}.
Implicit Types (s : OrsStore) (r : ReservationRecord).

Record left_behind (s : OrsStore) (k : string) (t : WriterReservationToken) (e : ReservedScope)
    : Prop := {
  lb_record : exists r, os_reservations s !! k = Some r /\ rd_token r = t /\
    rd_state r = RsReconciling;
  lb_entry : e ∈ tk_scopes t;
  lb_head : exists h, core_heads s !! rs_scope e = Some h /\
    eh_sequence (rs_expected_head e) < eh_sequence (hc_head h);
}.

(** Scope heads only advance. *)
Lemma rstep_head s s' scope h : ors_wf s -> rstep s s' -> core_heads s !! scope = Some h ->
  exists h', core_heads s' !! scope = Some h' /\ eh_sequence (hc_head h) <= eh_sequence (hc_head h').
Proof.
  intros Hwf Hst Hh.
  destruct Hst as [r0 r1 ? ? ? ? ? E|? E|? ? ? ? E|r0 r1 d id ? ? ? ? ? ? Hent Hout
    |t env b ? ? ? ? ? ? ? ? ? ? ? ? Hent Hout].
  1-3: exists h; rewrite E; by split; [|lia].
  - destruct (closed_head s s' (rd_token r0) d id scope Hent Hout) as [E|(e & h1 & h2 & _ & _ & E1 & E2 & Hcl)].
    { exists h. rewrite E. by split; [|lia]. }
    exists h2. split; [done|]. assert (h1 = h) as -> by congruence.
    destruct Hcl as (_ & Hr & _ & _ & Hd). pose proof (wf_heads _ Hwf _ _ Hh) as Hb.
    destruct d; [|rewrite Hd]; lia.
  - destruct (decide (scope ∈ token_scopes t)) as [Hin|Hin]; [|exists h; rewrite Hout by done; by split; [|lia]].
    apply scope_entry in Hin as (e & He & <-). rewrite Forall_forall in Hent.
    destruct (Hent e He) as (_ & Hb & _ & ->). eexists. split; [done|]. simpl. rewrite <- Hb.
    unfold base_core. rewrite Hh. simpl. lia.
Qed.

Lemma rstep_left_behind s s' k t e : ors_wf s -> rstep s s' -> left_behind s k t e -> left_behind s' k t e.
Proof.
  intros Hwf Hst [(r & Hr & Et & Es) He (h & Hh & Hlt)].
  destruct (rstep_head s s' _ h Hwf Hst Hh) as (h' & Hh' & Hle).
  split; [|done|exists h'; split; [done|lia]].
  destruct Hst as [r0 r1 Hr0 Et0 Hm ? Hres|Hres|? ? ? Hres|r0 r1 d id Hr0 ? ? ? ? Hres Hent
    |t' env b ? Hnone ? ? ? ? ? ? ? ? ? ? ? ? ? Hres]; rewrite Hres; [|eauto..| |].
  - destruct (decide (rd_id r0 = k)) as [<- |]; [|rewrite lookup_insert_ne by done; eauto].
    rewrite lookup_insert_eq. assert (r0 = r) as -> by congruence. exists r1. split_and!; [done|congruence|].
    unfold move_ok in Hm. rewrite Es in Hm. by destruct (rd_state r1).
  - destruct (decide (rd_id r0 = k)) as [<- |]; [|rewrite lookup_insert_ne by done; eauto].
    assert (r0 = r) as -> by congruence. exfalso. rewrite Forall_forall in Hent.
    destruct (Hent e) as [(h1 & h2 & E1 & _ & Eh & _) _]; [by rewrite <- Et in He|].
    assert (h1 = h) as -> by congruence. rewrite Eh in Hlt. lia.
  - rewrite lookup_insert_ne by congruence. eauto.
Qed.

Lemma rsteps_left_behind s s' k t e : ors_wf s -> rtc rstep s s' -> left_behind s k t e -> left_behind s' k t e.
Proof.
  intros Hwf Hs. revert Hwf. induction Hs as [|s s1 s' Hst _ IH]; [done|].
  intros Hwf Hl. apply IH; [by eapply rstep_wf|by eapply rstep_left_behind].
Qed.

(** C11. Once a write commits on a scope, a reconciling reservation that expected
    an older head of it is reconciling for ever: no receipt, release, fence or
    restart closes it, and no later reservation on the scope ever becomes
    eligible. *)
Theorem left_behind_reservation_wedges_scope (before after : list OrsCall)
    (Hb : Forall call_typed before) (Ha : Forall call_typed after)
    (k : string) (r : ReservationRecord) (e : ReservedScope) (h : ScopeReservationHead)
    (Hk : os_reservations (ors_run before ors_empty) !! k = Some r)
    (Hstate : rd_state r = RsReconciling) (He : e ∈ tk_scopes (rd_token r))
    (Hh : os_scope_heads (ors_run before ors_empty) !! rs_scope e = Some h)
    (Hlt : eh_sequence (rs_expected_head e) < eh_sequence (sh_canonical_head h)) :
  let s := ors_run after (ors_run before ors_empty) in
  (exists r', os_reservations s !! k = Some r' /\ rd_token r' = rd_token r /\
     rd_state r' = RsReconciling) /\
  forall k2 r2, os_reservations s !! k2 = Some r2 -> rd_order r < rd_order r2 ->
    rs_scope e ∈ token_scopes (rd_token r2) -> rd_state r2 <> RsEligible /\ rd_state r2 <> RsExecuting.
Proof.
  intros s. pose proof (run_wf before Hb) as Hwf0. pose proof (run_steps after _ Hwf0 Ha) as Hs. fold s in Hs.
  assert (Hl : left_behind s k (rd_token r) e).
  { eapply rsteps_left_behind; [done|done|]. split; [eauto|done|].
    exists (head_core h). split; [|done]. unfold core_heads. by rewrite lookup_fmap, Hh. }
  pose proof (rsteps_wf _ _ Hwf0 Hs) as Hwf.
  destruct Hl as [(r' & Hr' & Et & Es) _ _]. split; [eauto|]. intros k2 r2 Hk2 Hlt2 Hin.
  assert (Hno : ~ owns_scopes r2); [|unfold owns_scopes in Hno; tauto]. intros Ho.
  assert (Hsh : shares_scope (rd_token r') (rd_token r2) = true).
  { apply shares_scope_iff. exists (rs_scope e). rewrite Et. split; [apply scope_entry; eauto|done]. }
  rewrite (wf_owner _ Hwf k r' k2 r2) in Hsh; try done; [unfold pending; by rewrite Es|].
  unfold rd_order in *. by rewrite Et.
Qed.
End LeftBehind.

(** *** How a scope gets there

    Two writes are reserved on one head, the first executes, and the epoch is
    fenced before either is closed: both are reconciling. The first one's
    receipt arrives and moves the head. *)

Definition fenced_pair : list OrsCall :=
  [CallStage CommitOk request_a; CallStage CommitOk request_b; CallEligible CommitOk token_a;
   CallExecute CommitOk token_a epoch_one; CallFence CommitOk ["s"] second_epoch;
   CallReconcile CommitOk (sample_reconciliation "a" token_a CdCommitted)].

Definition record_b : ReservationRecord := set_rd_unknown fenced_reason (new_record token_b).

Lemma fenced_pair_typed : Forall call_typed fenced_pair.
Proof. by repeat constructor; simpl; unfold is_u64; vm_compute. Qed.

Definition head_after_a : ScopeReservationHead :=
  {| sh_writer_epoch := el_current second_epoch;
     sh_canonical_head :=
       {| eh_sequence := 1; eh_head_sha256 := sha256_hex ors_sha256 (bytes "operation-a");
          eh_revision_head := None |};
     sh_last_reserved_sequence := 2; sh_last_terminal_sequence := 1; sh_recovery_blocked := true |}.

Definition entry_b : ReservedScope :=
  {| rs_scope := "s"; rs_reserved_sequence := 2; rs_expected_head := base_head |}.

(** The second write is stuck: neither its rejection nor a release is taken,
    and nothing can be staged on the scope. *)
Lemma left_behind_reservation_wedges_scope_witness :
  let s := ors_run fenced_pair ors_empty in
  (reconcile CommitOk (sample_reconciliation "b" token_b CdRejected) s).2 = Err OeOrderingHeadMismatch /\
  (release CommitOk token_b epoch_one s).2 = Err OeInvalidTransition /\
  (stage_and_reserve CommitOk
     (sample_request "c" second_epoch (sh_canonical_head head_after_a) ["s"]) s).2
  = Err OeScopeRecoveryRequired /\
  exists r', os_reservations (ors_run [CallRestart []] s) !! "reservation-b" = Some r' /\
    rd_token r' = token_b /\ rd_state r' = RsReconciling.
Proof.
  intros s. split_and!; [vm_compute; reflexivity..|].
  apply (left_behind_reservation_wedges_scope fenced_pair [CallRestart []] fenced_pair_typed
    ltac:(by repeat constructor) "reservation-b" record_b entry_b head_after_a).
  - vm_compute. reflexivity.
  - reflexivity.
  - left.
  - vm_compute. reflexivity.
  - vm_compute. reflexivity.
Defined.

(** ** A fence repeated *)

Definition request_d : ReservationRequest := sample_request "d" second_epoch base_head ["s"].
Definition token_d : WriterReservationToken := sample_token request_d 1 1.

Definition unknown_d : list OrsCall :=
  [CallStage CommitOk request_d; CallEligible CommitOk token_d;
   CallExecute CommitOk token_d (el_current second_epoch);
   CallUnknown CommitOk token_d (el_current second_epoch) "lost"].

Definition blocked_after (calls : list OrsCall) (scope : string) : option bool :=
  sh_recovery_blocked <$> os_scope_heads (ors_run calls ors_empty) !! scope.

(** Fencing a scope with the epoch it already has lifts the block an unknown
    outcome of that epoch put on it, with that outcome still unresolved: the
    scope takes new reservations again. *)
Theorem repeated_fence_lifts_block :
  let fenced := unknown_d ++ [CallFence CommitOk ["s"] second_epoch] in
  blocked_after unknown_d "s" = Some true /\ blocked_after fenced "s" = Some false /\
  state_of fenced "reservation-d" = Some RsReconciling /\
  is_ok (stage_and_reserve CommitOk (sample_request "e" second_epoch base_head ["s"])
           (ors_run fenced ors_empty)).2 = true.
Proof. vm_compute. by split_and!. Qed.

(** ** A delay shortened *)

(** A second, shorter delay replaces the recorded one: a head enqueued after
    it waits less than the first call asked, while the heads queued before
    keep the longer wait. *)
Theorem shorter_delay_replaces_longer {S} (instant_max now scope_delay : Z) (scope : string)
    (c c1 : WriteCoordinator S)
    (Hfirst : delay_scope_head instant_max now scope scope_delay c = (c1, Ok tt))
    (shorter : Z) (Hshort : 0 < shorter < scope_delay) :
  exists c2, delay_scope_head instant_max now scope shorter c1 = (c2, Ok tt) /\
    cs_delayed_heads (wc_state c1) !! scope = Some (now + scope_delay) /\
    inherited_delay now (cs_delayed_heads (wc_state c2)) [scope] = now + shorter /\
    now + shorter < now + scope_delay.
Proof.
  unfold delay_scope_head in *. destruct (Z.ltb_spec instant_max (now + scope_delay)) as [|Hle]; [done|].
  destruct (negb _); [done|]. injection Hfirst as <-. simpl.
  rewrite (proj2 (Z.ltb_ge _ _)) by lia. unfold prune_elapsed_delays. simpl.
  rewrite map_lookup_filter_Some_2 with (x := now + scope_delay); [|by rewrite lookup_insert_eq|simpl; lia].
  simpl. eexists. split_and!; [done|by rewrite lookup_insert_eq| |lia]. simpl.
  unfold inherited_delay. simpl. by rewrite lookup_insert_eq.
Qed.

(** ** A second guard, and an idle dispatch *)

(** A guard dropped before its reservation is closed can be had again: the
    store answers an executing reservation as it answered the first time, so
    the same write may run a second time before its receipt arrives. *)
Theorem dropped_guard_runs_again :
  let dropped := drop_guard guard_a c_running in
  (begin_execution CommitOk 9 token_a epoch_one c_running).2 = Err (CeScopeBusy "s") /\
  (rd_state <$> os_reservations (wc_ors dropped) !! "reservation-a") = Some RsExecuting /\
  (begin_execution CommitOk 9 token_a epoch_one dropped).2 = Ok guard_a.
Proof. vm_compute. by split_and!. Qed.

(** A dispatch may answer that nothing was dispatched with a free lane and a
    head in the queue: the head waits out a delay. *)
Theorem idle_dispatch_with_queued_head :
  let delayed := (delay_scope_head 1000 6 "s" 100 c_queued_a).1 in
  (dispatch_ready CommitOk 7 epoch_one delayed).2 = Ok None /\
  usize_of_len (rq_entries (cs_ready (wc_state delayed))) = 1 /\
  eu_permits_free (cm_executor_utilization (metrics 7 delayed)) = 2.
Proof. vm_compute. by split_and!. Qed.
