(* ===== verification/AuthorityReceipts.v ===== *)
(** * Kernel authority receipts

    Issuing and consuming authority receipts,
    crates/kernel/eliot-kernel-core/src/authority.rs. The Kernel signs the
    canonical payload of a receipt with a private key, and a receipt is
    consumed only when its tag, its epoch tuple, its route and its expiry are
    all right. The keyed hash (the blake3 crate) and the canonical JSON of the
    payload are parameters; the hexadecimal codec of the tag and its
    comparison are modelled. *)

From Stdlib Require Import Ascii String.
From S2P Require Import Prelude RustText Contracts RuntimeErrors CapacityContracts Kernel Receipts.

#[local] Open Scope string_scope.
#[local] Open Scope Z_scope.

(** ** The tag codec *)

(** [HEX[usize::from(nibble)]] of [b"0123456789abcdef"] *)
Definition hex_char (nibble : Z) : ascii :=
  default "0"%char (String.get (Z.to_nat nibble) "0123456789abcdef").

Fixpoint encode_hex (bytes : list Z) : string :=
  match bytes with
  | [] => EmptyString
  | byte :: bytes' =>
      String (hex_char (Z.shiftr byte 4)) (String (hex_char (Z.land byte 15)) (encode_hex bytes'))
  end.

Definition hex_nibble (byte : Z) : Z :=
  if (48 <=? byte) && (byte <=? 57) then byte - 48
  else if (97 <=? byte) && (byte <=? 102) then byte - 97 + 10
  else 0.

Definition decode_hex (value : string) : KR (list Z) :=
  let raw := bytes value in
  check? guard_err (negb (len value =? 64) || negb (forallb is_lower_hex raw))
           (KInvalidField "authority_receipt.tag" "must be a lowercase hexadecimal digest");
  let byte_at i := default 0 (raw !! i) in
  Ok ((fun index => Z.lor (Z.land (Z.shiftl (hex_nibble (byte_at (index * 2)%nat)) 4) 255)
                      (hex_nibble (byte_at (index * 2 + 1)%nat))) <$> seq 0 32).

Definition constant_time_eq (left right : list Z) : bool :=
  fold_left (fun accumulator index =>
               Z.lor accumulator (Z.lxor (default 0 (left !! index)) (default 0 (right !! index))))
    (seq 0 32) 0 =? 0.

(** ** Receipts *)

(** The fields a receipt is signed over. [issued_at_ms] and [expires_at_ms]
    are [i64]. *)
Record UnsignedAuthorityReceipt : Type := {
  ua_authority_id : ContractId;
  ua_authority_owner : string;
  ua_authority_epoch : EpochId;
  ua_route_scope : RouteScope;
  ua_resource_generation : ResourceGeneration;
  ua_allowed_effect : EffectClass;
  ua_proof_ceiling : ProofCeiling;
  ua_issued_at_ms : Z;
  ua_expires_at_ms : option Z;
}.

#[global] Instance UnsignedAuthorityReceipt_eq_dec : EqDecision UnsignedAuthorityReceipt.
Proof. solve_decision. Defined.

(** A receipt: the signed fields and the tag. *)
Record AuthorityReceipt : Type := {
  ar_unsigned : UnsignedAuthorityReceipt;
  ar_tag : string;
}.

#[global] Instance AuthorityReceipt_eq_dec : EqDecision AuthorityReceipt.
Proof. solve_decision. Defined.

(** The private key, 32 bytes. *)
Abbreviation KernelAuthorityKey := (list Z) (only parsing).

Class AuthorityCrypto := {
  (** [canonical_json_bytes] of the unsigned receipt *)
  authority_json : UnsignedAuthorityReceipt -> result string (list Z);
  (** [blake3::keyed_hash(key, bytes).as_bytes()] *)
  keyed_hash : KernelAuthorityKey -> list Z -> list Z;
}.

(** The keyed hash answers 32 bytes. *)
Definition keyed_hash_ok `{AuthorityCrypto} : Prop :=
  forall key bs, length (keyed_hash key bs) = 32%nat /\ Forall is_byte (keyed_hash key bs).

Definition compute_tag `{AuthorityCrypto} (unsigned : UnsignedAuthorityReceipt)
    (key : KernelAuthorityKey) : KR string :=
  let? bs := map_err (fun _ => KInvalidField "authority_receipt" "canonical serialization failed")
               (authority_json unsigned) in
  Ok (encode_hex (keyed_hash key bs)).

Definition verify_tag `{AuthorityCrypto} (receipt : AuthorityReceipt) (key : KernelAuthorityKey)
    : KR unit :=
  let? expected := compute_tag (ar_unsigned receipt) key in
  let? expected_bytes := decode_hex expected in
  let? observed_bytes := decode_hex (ar_tag receipt) in
  guard_err (negb (constant_time_eq expected_bytes observed_bytes)) ForgedReceipt.

(** ** Requests and grants *)

Record AuthorityGrantRequest : Type := {
  gq_authority_id : ContractId;
  gq_authority_owner : string;
  gq_route_scope : RouteScope;
  gq_resource_generation : ResourceGeneration;
  gq_allowed_effect : EffectClass;
  gq_proof_ceiling : ProofCeiling;
  gq_issued_at_ms : Z;
  gq_expires_at_ms : option Z;
}.

Definition AuthorityGrantRequest_new (authority_id : ContractId) (authority_owner : string)
    (route_scope : RouteScope) (resource_generation : ResourceGeneration)
    (allowed_effect : EffectClass) (proof_ceiling : ProofCeiling) (issued_at_ms : Z)
    (expires_at_ms : option Z) : KR AuthorityGrantRequest :=
  check? kernel_validate_text authority_owner "authority_owner";
  check? guard_err (resource_generation =? 0)
           (KInvalidField "resource_generation" "must be greater than zero");
  check? match expires_at_ms with
         | Some expires =>
             guard_err (expires <=? issued_at_ms)
               (KInvalidField "expires_at_ms" "expiry must be strictly later than issuance")
         | None => Ok tt
         end;
  Ok {| gq_authority_id := authority_id; gq_authority_owner := authority_owner;
        gq_route_scope := route_scope; gq_resource_generation := resource_generation;
        gq_allowed_effect := allowed_effect; gq_proof_ceiling := proof_ceiling;
        gq_issued_at_ms := issued_at_ms; gq_expires_at_ms := expires_at_ms |}.

Record AuthorityGrant : Type := {
  ag_authority_id : ContractId;
  ag_authority_owner : string;
  ag_authority_epoch : EpochId;
  ag_route_scope : RouteScope;
  ag_resource_generation : ResourceGeneration;
  ag_allowed_effect : EffectClass;
  ag_proof_ceiling : ProofCeiling;
  ag_expires_at_ms : option Z;
}.

#[global] Instance AuthorityGrant_eq_dec : EqDecision AuthorityGrant.
Proof. solve_decision. Defined.

Definition authority_effect_rank (effect : EffectClass) : Z :=
  match effect with
  | Read => 0
  | Candidate => 1
  | ReversibleMutation => 2
  | ExternalEffect => 3
  end.

Definition grant_permits (g : AuthorityGrant) (class : EffectClass) (ceiling : ProofCeiling) : bool :=
  (authority_effect_rank class <=? authority_effect_rank (ag_allowed_effect g))
  && is_at_most ceiling (ag_proof_ceiling g).

(** ** The authority holder *)

Record KernelAuthority : Type := {
  ka_key : KernelAuthorityKey;
  ka_current_epoch : EpochId;
}.

Definition issue `{AuthorityCrypto} (a : KernelAuthority) (request : AuthorityGrantRequest)
    : KR AuthorityReceipt :=
  let unsigned :=
    {| ua_authority_id := gq_authority_id request;
       ua_authority_owner := gq_authority_owner request;
       ua_authority_epoch := ka_current_epoch a;
       ua_route_scope := gq_route_scope request;
       ua_resource_generation := gq_resource_generation request;
       ua_allowed_effect := gq_allowed_effect request;
       ua_proof_ceiling := gq_proof_ceiling request;
       ua_issued_at_ms := gq_issued_at_ms request;
       ua_expires_at_ms := gq_expires_at_ms request |} in
  let? tag := compute_tag unsigned (ka_key a) in
  Ok {| ar_unsigned := unsigned; ar_tag := tag |}.

(** The grant a consumed receipt is answered with. *)
Definition grant_of (u : UnsignedAuthorityReceipt) : AuthorityGrant :=
  {| ag_authority_id := ua_authority_id u; ag_authority_owner := ua_authority_owner u;
     ag_authority_epoch := ua_authority_epoch u; ag_route_scope := ua_route_scope u;
     ag_resource_generation := ua_resource_generation u;
     ag_allowed_effect := ua_allowed_effect u; ag_proof_ceiling := ua_proof_ceiling u;
     ag_expires_at_ms := ua_expires_at_ms u |}.

Definition consume `{AuthorityCrypto} (a : KernelAuthority) (receipt : AuthorityReceipt)
    (expected_route : RouteScope) (now_ms : Z) : KR AuthorityGrant :=
  let u := ar_unsigned receipt in
  check? verify_tag receipt (ka_key a);
  check? if is_same_authority (ua_authority_epoch u) (ka_current_epoch a) then Ok tt
         else if lineage_id (ua_authority_epoch u) != lineage_id (ka_current_epoch a)
         then Err (StaleEpochTuple (ua_authority_epoch u) (ka_current_epoch a))
         else Err (StaleEpoch (sequence (ua_authority_epoch u)) (sequence (ka_current_epoch a)));
  check? guard_err (ua_route_scope u != expected_route) RouteMismatch;
  check? match ua_expires_at_ms u with
         | Some expires => guard_err (expires <=? now_ms) (KExpired expires)
         | None => Ok tt
         end;
  Ok (grant_of u).

Definition sequence_overflow : KernelError := KInvalidField "authority_epoch" "sequence overflow".

(** [NonZeroU64::new] refuses zero; [EpochId::new] accepts every pair. *)
Definition advance_epoch : M KernelAuthority KernelError EpochId :=
  let! a := mstate in
  let! next_sequence := mlift (ok_or (checked_add (sequence (ka_current_epoch a)) 1)
                                 sequence_overflow) in
  do! mlift (guard_err (next_sequence =? 0) sequence_overflow);
  let next := {| lineage_id := lineage_id (ka_current_epoch a); sequence := next_sequence |} in
  do! mmodify (fun a => {| ka_key := ka_key a; ka_current_epoch := next |});
  mret_ok next.

Definition synchronize_epoch (target : EpochId) : M KernelAuthority KernelError EpochId :=
  let! a := mstate in
  if is_same_authority target (ka_current_epoch a) then mret_ok target
  else if lineage_id target != lineage_id (ka_current_epoch a)
  then mthrow (StaleEpochTuple target (ka_current_epoch a))
  else if sequence target <? sequence (ka_current_epoch a)
  then mthrow (StaleEpoch (sequence target) (sequence (ka_current_epoch a)))
  else
    do! mmodify (fun a => {| ka_key := ka_key a; ka_current_epoch := target |});
    mret_ok target.

(** ** The codec is exact *)

Section Codec.
Lemma encode_hex_eq l : encode_hex l = hex_encode l.
Proof.
  induction l as [|b l IH]; [done|]. simpl. rewrite IH. unfold hex_char, hex_digit. by repeat case_match.
Qed.

(** A hexadecimal character and its value determine each other. *)
Lemma hex_nibble_char n : 0 <= n < 16 -> hex_nibble (byte_of (hex_char n)) = n.
Proof.
  intros H%nibble_cases. revert n H. apply Forall_forall.
  repeat (constructor; [by vm_compute|]). constructor.
Qed.

Lemma hex_char_nibble c :
  is_lower_hex (byte_of c) = true ->
  hex_char (hex_nibble (byte_of c)) = c /\ 0 <= hex_nibble (byte_of c) < 16.
Proof.
  destruct c as [[] [] [] [] [] [] [] []]; vm_compute; try discriminate; intros _;
    (split; [reflexivity|split; [discriminate|reflexivity]]).
Qed.

Lemma byte_of_nibbles hi lo :
  0 <= hi < 16 -> 0 <= lo < 16 -> Z.lor (Z.land (Z.shiftl hi 4) 255) lo = 16 * hi + lo.
Proof.
  intros Hhi Hlo. change 255 with (Z.ones 8). rewrite Z.land_ones, Z.shiftl_mul_pow2 by lia.
  rewrite Z.mod_small by lia. pose proof (Z.add_lor_land (hi * 2 ^ 4) lo) as Hadd.
  enough (Z.land (hi * 2 ^ 4) lo = 0) by lia. clear Hadd.
  apply Z.bits_inj'. intros n Hn. rewrite Z.land_spec, Z.bits_0.
  destruct (decide (n < 4)) as [H4|H4].
  - rewrite Z.mul_pow2_bits_low by lia. done.
  - rewrite (Z.bits_above_log2 lo n); [apply andb_false_r|lia|].
    destruct (decide (lo = 0)) as [->|]; [simpl; lia|]. apply Z.log2_lt_pow2; [lia|].
    assert (2 ^ 4 <= 2 ^ n) by (apply Z.pow_le_mono_r; lia). lia.
Qed.

Lemma shiftr_nibbles hi lo : 0 <= hi < 16 -> 0 <= lo < 16 -> Z.shiftr (16 * hi + lo) 4 = hi.
Proof.
  intros. rewrite Z.shiftr_div_pow2 by lia. change (2 ^ 4) with 16.
  rewrite Z.mul_comm, Z.div_add_l by lia. rewrite Z.div_small by lia. lia.
Qed.

Lemma land_nibbles hi lo : 0 <= hi < 16 -> 0 <= lo < 16 -> Z.land (16 * hi + lo) 15 = lo.
Proof.
  intros. change 15 with (Z.ones 4). rewrite Z.land_ones by lia. change (2 ^ 4) with 16.
  rewrite Z.add_comm, Z.mul_comm, Z.mod_add by lia. apply Z.mod_small. lia.
Qed.

(** The bytes read at even and odd places of a text. *)
Fixpoint pairs (raw : list Z) : list Z :=
  match raw with
  | hi :: lo :: raw' => Z.lor (Z.land (Z.shiftl (hex_nibble hi) 4) 255) (hex_nibble lo) :: pairs raw'
  | _ => []
  end.

Lemma indexed_pairs n : forall raw,
  length raw = (2 * n)%nat ->
  ((fun index => Z.lor (Z.land (Z.shiftl (hex_nibble (default 0 (raw !! (index * 2)%nat))) 4) 255)
                   (hex_nibble (default 0 (raw !! (index * 2 + 1)%nat)))) <$> seq 0 n) = pairs raw.
Proof.
  induction n as [|n IH]; intros raw Hl.
  { by destruct raw. }
  destruct raw as [|hi [|lo raw]]; simpl in Hl; [lia|lia|].
  simpl. f_equal. rewrite <- fmap_S_seq, <- list_fmap_compose.
  rewrite <- (IH raw) by lia. apply list_fmap_ext. intros i x Hx. simpl.
  by replace (x * 2 + 1)%nat with (S (x * 2))%nat by lia.
Qed.

Lemma pairs_encode l : Forall is_byte l -> pairs (bytes (encode_hex l)) = l.
Proof.
  induction 1 as [|b l Hb _ IH]; [done|]. destruct (nibbles _ Hb) as (H1 & H2 & H3).
  change (bytes (encode_hex (b :: l))) with
    (byte_of (hex_char (Z.shiftr b 4)) :: byte_of (hex_char (Z.land b 15)) :: bytes (encode_hex l)).
  cbn [pairs]. rewrite !hex_nibble_char, byte_of_nibbles, IH by done. by rewrite <- H3.
Qed.

Lemma encode_pairs n : forall s,
  String.length s = (2 * n)%nat -> forallb is_lower_hex (bytes s) = true ->
  encode_hex (pairs (bytes s)) = s /\ Forall is_byte (pairs (bytes s)).
Proof.
  induction n as [|n IH]; intros s Hl Hs.
  { by destruct s. }
  destruct s as [|c1 [|c2 s]]; simpl in Hl; [lia|lia|].
  change (bytes (String c1 (String c2 s))) with (byte_of c1 :: byte_of c2 :: bytes s) in *.
  cbn [forallb] in Hs. apply andb_true_iff in Hs as [Hc1 Hs]. apply andb_true_iff in Hs as [Hc2 Hs].
  destruct (IH s ltac:(lia) Hs) as [IH1 IH2].
  destruct (hex_char_nibble _ Hc1) as [E1 B1], (hex_char_nibble _ Hc2) as [E2 B2].
  cbn [pairs encode_hex]. rewrite byte_of_nibbles, shiftr_nibbles, land_nibbles, IH1 by done.
  rewrite E1, E2. split; [done|]. constructor; [unfold is_byte; lia|done].
Qed.

Lemma decode_hex_exact value l :
  decode_hex value = Ok l <-> value = encode_hex l /\ length l = 32%nat /\ Forall is_byte l.
Proof.
  unfold decode_hex. rewrite check_guard_ok, orb_false_iff, !negb_false_iff, Z.eqb_eq. split.
  - intros [[Hlen Hhex] H]. unfold len in Hlen.
    assert (Hb : length (bytes value) = (2 * 32)%nat).
    { unfold bytes. rewrite length_map. clear -Hlen. rewrite <- (string_of_list_ascii_of_string value) in Hlen.
      generalize dependent (list_ascii_of_string value). intros l Hl.
      assert (String.length (string_of_list_ascii l) = length l); [|lia].
      clear. induction l; simpl; congruence. }
    cbv zeta in H. rewrite (indexed_pairs 32) in H by done. injection H as <-.
    destruct (encode_pairs 32 value ltac:(lia) Hhex) as [E1 E2]. rewrite E1. split; [done|]. split; [|done].
    rewrite <- (indexed_pairs 32) by done. by rewrite length_fmap, length_seq.
  - intros (-> & Hl & Hb). rewrite encode_hex_eq, hex_encode_len, hex_encode_lower, Hl by done.
    split; [done|]. f_equal. rewrite <- encode_hex_eq, (indexed_pairs 32), pairs_encode; [done|done|].
    clear Hb. rewrite <- Hl. clear Hl. induction l as [|b l IH]; [done|].
    change (bytes (encode_hex (b :: l))) with
      (byte_of (hex_char (Z.shiftr b 4)) :: byte_of (hex_char (Z.land b 15)) :: bytes (encode_hex l)).
    simpl length in *. lia.
Qed.

Lemma fold_lor_zero (f : nat -> Z) l : forall acc,
  0 <= acc -> Forall (fun i => 0 <= f i) l ->
  fold_left (fun accumulator index => Z.lor accumulator (f index)) l acc = 0 <->
  acc = 0 /\ Forall (fun i => f i = 0) l.
Proof.
  induction l as [|i l IH]; intros acc Hacc Hf; simpl; [naive_solver|].
  apply Forall_cons in Hf as [Hi Hf]. rewrite IH by (try apply Z.lor_nonneg; done).
  rewrite Forall_cons, Z.lor_eq_0_iff. naive_solver.
Qed.

Lemma constant_time_eq_exact left right :
  length left = 32%nat -> length right = 32%nat -> Forall is_byte left -> Forall is_byte right ->
  constant_time_eq left right = true <-> left = right.
Proof.
  intros Hl Hr Bl Br. unfold constant_time_eq. rewrite Z.eqb_eq.
  assert (Hnn : forall (l : list Z) i, Forall is_byte l -> 0 <= default 0 (l !! i)).
  { intros l i H. destruct (l !! i) eqn:E; simpl; [|lia]. rewrite Forall_forall in H.
    apply list_elem_of_lookup_2 in E. apply H in E. unfold is_byte in E. lia. }
  rewrite fold_lor_zero; [|lia|].
  2: { apply Forall_forall. intros i _. apply Z.lxor_nonneg. split; intros; auto. }
  split; [intros [_ H]|intros ->; split; [done|]; apply Forall_forall; intros; apply Z.lxor_nilpotent].
  apply list_eq. intros i. destruct (decide (i < 32)%nat) as [Hi|Hi].
  - rewrite Forall_forall in H. specialize (H i ltac:(apply elem_of_seq; lia)).
    apply Z.lxor_eq in H.
    destruct (lookup_lt_is_Some_2 left i ltac:(lia)) as [x Hx].
    destruct (lookup_lt_is_Some_2 right i ltac:(lia)) as [y Hy].
    rewrite Hx, Hy in H |- *. simpl in H. by rewrite H.
  - rewrite !lookup_ge_None_2 by lia. done.
Qed.
End Codec.

(** ** Consuming receipts *)

(** One call that moves the fence. *)
Inductive EpochCall : Type :=
| CallAdvance
| CallSynchronize (target : EpochId).

Definition epoch_call (c : EpochCall) (a : KernelAuthority) : KernelAuthority :=
  match c with
  | CallAdvance => (advance_epoch a).1
  | CallSynchronize target => (synchronize_epoch target a).1
  end.

(** Calls made one after the other, with refused ones in between. *)
Definition epoch_calls (cs : list EpochCall) (a : KernelAuthority) : KernelAuthority :=
  fold_left (fun a c => epoch_call c a) cs a.

(** The receipt is signed with the key: its tag is the keyed hash of its own
    fields. *)
Definition signed `{AuthorityCrypto} (key : KernelAuthorityKey) (receipt : AuthorityReceipt) : Prop :=
  exists bs, authority_json (ar_unsigned receipt) = Ok bs /\
             ar_tag receipt = encode_hex (keyed_hash key bs).

Definition unexpired (u : UnsignedAuthorityReceipt) (now_ms : Z) : Prop :=
  forall expires, ua_expires_at_ms u = Some expires -> now_ms < expires.

Section Authority.
Context `{AuthorityCrypto}.

Lemma is_same_authority_neq e1 e2 : is_same_authority e1 e2 = false <-> e1 <> e2.
Proof. rewrite <- is_same_authority_eq. by destruct (is_same_authority e1 e2). Qed.

Lemma verify_tag_exact key receipt :
  keyed_hash_ok -> verify_tag receipt key = Ok tt <-> signed key receipt.
Proof.
  intros Hk. unfold verify_tag, compute_tag, signed.
  destruct (authority_json (ar_unsigned receipt)) as [bs|e]; cbn [rbind map_err].
  2: { split; [done|]. by intros (bs & ? & _). }
  destruct (Hk key bs) as [Hl Hb].
  assert (decode_hex (encode_hex (keyed_hash key bs)) = Ok (keyed_hash key bs)) as ->
    by (by apply decode_hex_exact).
  cbn [rbind]. destruct (decode_hex (ar_tag receipt)) as [observed|e] eqn:Hd; cbn [rbind].
  - apply decode_hex_exact in Hd as (Htag & Hl' & Hb'). rewrite guard_err_ok, negb_false_iff.
    rewrite constant_time_eq_exact by done. rewrite Htag. split; [intros <-; by exists bs|].
    intros (bs' & [= <-] & Heq). rewrite !encode_hex_eq in Heq. by apply hex_encode_inj in Heq.
  - split; [done|]. intros (bs' & [= <-] & Htag). exfalso.
    assert (decode_hex (ar_tag receipt) = Ok (keyed_hash key bs)) by (by apply decode_hex_exact).
    congruence.
Qed.

(** A receipt is accepted exactly when it is signed, of the fenced epoch, for
    the route and not expired, and the grant carries its fields. *)
Lemma consume_ok a receipt route now g :
  keyed_hash_ok ->
  consume a receipt route now = Ok g <->
  g = grant_of (ar_unsigned receipt) /\ signed (ka_key a) receipt /\
  ua_authority_epoch (ar_unsigned receipt) = ka_current_epoch a /\
  ua_route_scope (ar_unsigned receipt) = route /\ unexpired (ar_unsigned receipt) now.
Proof.
  intros Hk. unfold consume. rewrite !check_ok, verify_tag_exact by done.
  rewrite guard_err_ok, negb_false_iff, bool_decide_eq_true. unfold unexpired.
  assert (Hepoch : (if is_same_authority (ua_authority_epoch (ar_unsigned receipt)) (ka_current_epoch a)
                    then Ok tt
                    else if lineage_id (ua_authority_epoch (ar_unsigned receipt)) != lineage_id (ka_current_epoch a)
                    then Err (StaleEpochTuple (ua_authority_epoch (ar_unsigned receipt)) (ka_current_epoch a))
                    else Err (StaleEpoch (sequence (ua_authority_epoch (ar_unsigned receipt)))
                                (sequence (ka_current_epoch a)))) = Ok tt <->
                   ua_authority_epoch (ar_unsigned receipt) = ka_current_epoch a).
  { rewrite <- is_same_authority_eq. destruct (is_same_authority _ _); [done|].
    destruct (_ != _); naive_solver. }
  rewrite Hepoch. destruct (ua_expires_at_ms (ar_unsigned receipt)) as [expires|].
  - rewrite guard_err_ok, Z.leb_gt. naive_solver.
  - naive_solver.
Qed.

Lemma issue_ok a request receipt :
  issue a request = Ok receipt ->
  signed (ka_key a) receipt /\ ua_authority_epoch (ar_unsigned receipt) = ka_current_epoch a /\
  ua_route_scope (ar_unsigned receipt) = gq_route_scope request /\
  ua_expires_at_ms (ar_unsigned receipt) = gq_expires_at_ms request.
Proof.
  unfold issue, compute_tag. intros Hi. apply rbind_ok in Hi as (tag & Hi & [= <-]).
  apply rbind_ok in Hi as (bs & Hj & [= <-]). apply map_err_ok in Hj. simpl.
  repeat split; try done. by exists bs.
Qed.

(** ** The fence moves forward only *)

Lemma epoch_call_forward c a :
  ka_key (epoch_call c a) = ka_key a /\
  lineage_id (ka_current_epoch (epoch_call c a)) = lineage_id (ka_current_epoch a) /\
  sequence (ka_current_epoch a) <= sequence (ka_current_epoch (epoch_call c a)).
Proof.
  destruct c as [|target]; simpl.
  - unfold advance_epoch. unfold_monad. destruct (checked_add _ _) eqn:Hc; simpl; [|split_and!; done || lia].
    apply checked_add_some in Hc as [-> _]. destruct (_ =? 0); simpl; split_and!; done || lia.
  - unfold synchronize_epoch. unfold_monad. simpl.
    destruct (is_same_authority target _); simpl; [split_and!; done || lia|].
    destruct (lineage_id target != _) eqn:Hl; simpl; [split_and!; done || lia|].
    destruct (sequence target <? _) eqn:Hs; simpl; [split_and!; done || lia|].
    bool_facts. split_and!; [done|done|lia].
Qed.

Lemma epoch_calls_forward cs : forall a,
  ka_key (epoch_calls cs a) = ka_key a /\
  lineage_id (ka_current_epoch (epoch_calls cs a)) = lineage_id (ka_current_epoch a) /\
  sequence (ka_current_epoch a) <= sequence (ka_current_epoch (epoch_calls cs a)).
Proof.
  induction cs as [|c cs IH]; intros a; simpl; [split_and!; done || lia|].
  change (epoch_calls (c :: cs) a) with (epoch_calls cs (epoch_call c a)).
  destruct (IH (epoch_call c a)) as (K1 & L1 & S1), (epoch_call_forward c a) as (K2 & L2 & S2).
  rewrite K1, L1, K2, L2. split_and!; [done|done|lia].
Qed.

(** C17. An issued receipt is good for one epoch, and only for the route and
    the time it was issued for: whatever calls move the fence afterwards, it
    is consumed with a grant of exactly its fields as long as the fence has
    not moved and the time and the route are right, and once the fence has
    moved it is refused for ever as stale, with the sequence the fence has
    reached. *)
Theorem issued_receipt_lives_one_epoch a request receipt cs route now :
  keyed_hash_ok -> issue a request = Ok receipt ->
  let a' := epoch_calls cs a in
  (ka_current_epoch a' = ka_current_epoch a ->
   (consume a' receipt route now = Ok (grant_of (ar_unsigned receipt)) <->
    route = gq_route_scope request /\
    (forall expires, gq_expires_at_ms request = Some expires -> now < expires))) /\
  (ka_current_epoch a' <> ka_current_epoch a ->
   sequence (ka_current_epoch a) < sequence (ka_current_epoch a') /\
   consume a' receipt route now =
     Err (StaleEpoch (sequence (ka_current_epoch a)) (sequence (ka_current_epoch a')))).
Proof.
  intros Hk Hi. destruct (issue_ok _ _ _ Hi) as (Hs & He & Hr & Hx).
  destruct (epoch_calls_forward cs a) as (Hkey & Hlin & Hseq). simpl. split; intros Hcur.
  - rewrite consume_ok, Hkey, Hcur by done. unfold unexpired. rewrite Hr, Hx. naive_solver.
  - assert (Hlt : sequence (ka_current_epoch a) <> sequence (ka_current_epoch (epoch_calls cs a))).
    { intros E. apply Hcur. revert Hlin E.
      destruct (ka_current_epoch a), (ka_current_epoch (epoch_calls cs a)); simpl. congruence. }
    split; [lia|]. unfold consume. rewrite <- Hkey in Hs. apply verify_tag_exact in Hs as ->; [|done].
    simpl. rewrite He. apply not_eq_sym, is_same_authority_neq in Hcur as ->.
    assert (lineage_id (ka_current_epoch a) != lineage_id (ka_current_epoch (epoch_calls cs a)) = false) as ->.
    { rewrite Hlin. by rewrite bool_decide_eq_true_2. }
    done.
Qed.

(** A receipt is consumed exactly when its tag is the keyed hash of its
    own fields under the Kernel's key, its epoch is the fenced tuple, its
    route is the one presented and it has not expired; the grant carries the
    fields of the receipt. A receipt that is accepted with the tag of an
    issued one and is not that receipt is a collision of the keyed hash. *)
Theorem consume_exact a receipt route now g :
  keyed_hash_ok ->
  (consume a receipt route now = Ok g <->
   g = grant_of (ar_unsigned receipt) /\ signed (ka_key a) receipt /\
   ua_authority_epoch (ar_unsigned receipt) = ka_current_epoch a /\
   ua_route_scope (ar_unsigned receipt) = route /\ unexpired (ar_unsigned receipt) now) /\
  (forall a0 request issued,
     issue a0 request = Ok issued -> ka_key a0 = ka_key a -> ar_tag issued = ar_tag receipt ->
     consume a receipt route now = Ok g ->
     exists bs bs', authority_json (ar_unsigned issued) = Ok bs /\
       authority_json (ar_unsigned receipt) = Ok bs' /\
       keyed_hash (ka_key a) bs = keyed_hash (ka_key a) bs').
Proof.
  intros Hk. split; [by apply consume_ok|]. intros a0 request issued Hi Hkey Htag Hc.
  apply issue_ok in Hi as ((bs & Hbs & E1) & _). apply consume_ok in Hc as (_ & (bs' & Hbs' & E2) & _); [|done].
  exists bs, bs'. split_and!; [done..|]. rewrite Htag, E2, Hkey, !encode_hex_eq in E1.
  symmetry. apply hex_encode_inj; [apply Hk..|done].
Qed.
End Authority.
