(* ===== verification/CapacityProfile.v ===== *)
(** * The control-reserve profile compiler

    Joining the capacity rows that owners publish into one profile,
    crates/kernel/eliot-kernel-core/src/module/control_reserve_profile_compiler.rs,
    the join of the ORS rows, control_reserve_ors_evidence.rs beside it, and
    the status projection of a compiled profile. *)

From Stdlib Require Import String.
From S2P Require Import Prelude RustText Contracts RuntimeErrors CapacityContracts Kernel.

#[local] Open Scope string_scope.
#[local] Open Scope list_scope.
#[local] Open Scope Z_scope.

Record BottleneckOwnerEvidence : Type := {
  oe_config_snapshot_ref : string;
  oe_authority_epoch_ref : EpochId;
  oe_row : BottleneckCapacityProfile;
}.

#[global] Instance BottleneckOwnerEvidence_eq_dec : EqDecision BottleneckOwnerEvidence.
Proof. solve_decision. Defined.

Record ControlReserveProfileIdentity : Type := {
  pi_profile_id : string;
  pi_profile_revision : string;
  pi_product_identity_ref : string;
  pi_source_build_and_runtime_generation_refs : list string;
  pi_config_snapshot_ref : string;
  pi_authority_epoch_ref : EpochId;
  pi_compiled_at_ms : Z;
  pi_profile_evidence_refs : list string;
  pi_invalidation_set : list string;
}.

Definition contradiction (bottleneck : CapacityBottleneck) (reason : string) : KernelError :=
  ControlReserveEvidenceContradiction (bottleneck_str bottleneck) reason.

Definition is_current (evidence : BottleneckOwnerEvidence) (identity : ControlReserveProfileIdentity)
    : bool :=
  (oe_config_snapshot_ref evidence == pi_config_snapshot_ref identity)
  && is_same_authority (oe_authority_epoch_ref evidence) (pi_authority_epoch_ref identity).

Definition unclaimed_row (bound : BottleneckOwnerBinding) : BottleneckCapacityProfile :=
  {| bp_bottleneck := ob_bottleneck bound; bp_coverage_state := CoverageUnknown;
     bp_owner_ref := ""; bp_owner_generation_ref := ""; bp_unit := ob_unit bound;
     bp_physical_total_limit := None; bp_normal_work_applicable := false;
     bp_normal_limit := None; bp_protected_limit := None; bp_emergency_limit := None;
     bp_enforcement := None; bp_proof_profile_ref := ""; bp_evidence_refs := [];
     bp_invalidation_set := [] |}.

Definition lowered_guarantee (bottleneck : CapacityBottleneck) (coverage : BottleneckCoverageState)
    : string :=
  bottleneck_str bottleneck +:+ ":" +:+ coverage_str coverage.

(** The first loop: [earlier] holds the dimensions of the records before. *)
Fixpoint scan_duplicate_evidence (earlier : list CapacityBottleneck)
    (owner_evidence : list BottleneckOwnerEvidence) : KR unit :=
  match owner_evidence with
  | [] => Ok tt
  | evidence :: rest =>
      let b := bp_bottleneck (oe_row evidence) in
      check? guard_err (existsb (fun e => e == b) earlier)
               (contradiction b "DUPLICATE_OWNER_EVIDENCE: two owner records claim one dimension");
      scan_duplicate_evidence (earlier ++ [b]) rest
  end.

(** One round of the second loop: the row and the lowered guarantee of one
    dimension are pushed onto [rows] and [lowered_guarantees]. *)
Definition compile_dimension (identity : ControlReserveProfileIdentity)
    (owner_evidence : list BottleneckOwnerEvidence)
    (acc : list BottleneckCapacityProfile * list string) (bound : BottleneckOwnerBinding)
    : KR (list BottleneckCapacityProfile * list string) :=
  let '(rows, lowered_guarantees) := acc in
  let current :=
    List.find (fun evidence => bp_bottleneck (oe_row evidence) == ob_bottleneck bound)
      owner_evidence in
  let unknown :=
    (rows ++ [unclaimed_row bound],
     lowered_guarantees ++ [lowered_guarantee (ob_bottleneck bound) CoverageUnknown]) in
  match current with
  | Some evidence =>
      if is_current evidence identity then
        check? guard_err ((bp_coverage_state (oe_row evidence) == CoverageClaimed)
                          && (bp_owner_ref (oe_row evidence) != ob_owner bound))
                 (contradiction (ob_bottleneck bound)
                    "CONTRADICTORY_OWNER: a claimed row names an owner the frozen owner map does not bind to this dimension");
        let coverage := bp_coverage_state (oe_row evidence) in
        Ok (rows ++ [oe_row evidence],
            if coverage != CoverageClaimed
            then lowered_guarantees ++ [lowered_guarantee (ob_bottleneck bound) coverage]
            else lowered_guarantees)
      else Ok unknown
  | None => Ok unknown
  end.

Definition compile_control_reserve_profile (identity : ControlReserveProfileIdentity)
    (owner_evidence : list BottleneckOwnerEvidence) : KR ControlReserveProfile :=
  check? scan_duplicate_evidence [] owner_evidence;
  let? (rows, lowered_guarantees) :=
    fold_res (compile_dimension identity owner_evidence) ([], []) frozen_bottleneck_owner_map in
  let profile :=
    {| cp_profile_id := pi_profile_id identity;
       cp_profile_revision := pi_profile_revision identity;
       cp_product_identity_ref := pi_product_identity_ref identity;
       cp_source_build_and_runtime_generation_refs :=
         pi_source_build_and_runtime_generation_refs identity;
       cp_config_snapshot_ref := pi_config_snapshot_ref identity;
       cp_authority_epoch_ref := pi_authority_epoch_ref identity;
       cp_compiled_at_ms := pi_compiled_at_ms identity;
       cp_bottleneck_rows := rows;
       cp_unsupported_or_unknown_guarantees := merge_sort String.le lowered_guarantees;
       cp_profile_evidence_refs := pi_profile_evidence_refs identity;
       cp_invalidation_set := pi_invalidation_set identity |} in
  check? map_err KRuntimeContract (profile_validate profile);
  Ok profile.

(** ** Status *)

Record ControlReserveStatusRow : Type := {
  sr_row : BottleneckCapacityProfile;
  sr_guarantee_lowered : bool;
}.

Record ControlReserveStatusSnapshot : Type := {
  ss_profile_id : string;
  ss_profile_revision : string;
  ss_config_snapshot_ref : string;
  ss_authority_epoch_ref : EpochId;
  ss_compiled_at_ms : Z;
  ss_rows : list ControlReserveStatusRow;
  ss_lowered_guarantees : list string;
}.

Definition project_row (profile : ControlReserveProfile) (row : BottleneckCapacityProfile)
    : ControlReserveStatusRow :=
  let lowered_name := lowered_guarantee (bp_bottleneck row) (bp_coverage_state row) in
  {| sr_row := row;
     sr_guarantee_lowered :=
       existsb (fun g => g == lowered_name) (cp_unsupported_or_unknown_guarantees profile) |}.

Definition project_control_reserve_status (profile : ControlReserveProfile)
    : KR ControlReserveStatusSnapshot :=
  check? map_err KRuntimeContract (profile_validate profile);
  Ok {| ss_profile_id := cp_profile_id profile;
        ss_profile_revision := cp_profile_revision profile;
        ss_config_snapshot_ref := cp_config_snapshot_ref profile;
        ss_authority_epoch_ref := cp_authority_epoch_ref profile;
        ss_compiled_at_ms := cp_compiled_at_ms profile;
        ss_rows := project_row profile <$> cp_bottleneck_rows profile;
        ss_lowered_guarantees := cp_unsupported_or_unknown_guarantees profile |}.

(** ** The join of the ORS rows *)

Definition ORS_DIMENSIONS : list CapacityBottleneck := [OrsTransactionSlots; OrsDurableQueueBytes].

Definition evidence_for (bottleneck : CapacityBottleneck) (rows : list BottleneckCapacityProfile)
    (config_snapshot_ref : string) (authority_epoch_ref : EpochId) : KR BottleneckOwnerEvidence :=
  match List.filter (fun row => bp_bottleneck row == bottleneck) rows with
  | [] => Err (contradiction bottleneck
                 "MISSING_ORS_EVIDENCE: the ORS owner published no row for this dimension")
  | _ :: _ :: _ => Err (contradiction bottleneck
                          "DUPLICATE_ORS_EVIDENCE: two owner rows claim one dimension")
  | [row] =>
      check? map_err KRuntimeContract (row_validate row);
      Ok {| oe_config_snapshot_ref := config_snapshot_ref;
            oe_authority_epoch_ref := authority_epoch_ref; oe_row := row |}
  end.

Definition join_ors_owner_evidence (rows : list BottleneckCapacityProfile)
    (config_snapshot_ref : string) (authority_epoch_ref : EpochId)
    : KR (BottleneckOwnerEvidence * BottleneckOwnerEvidence) :=
  check? guard_err (is_blank config_snapshot_ref)
           (KInvalidField "control_reserve.config_snapshot_ref" "must be non-blank");
  check? for_each (fun row =>
           guard_err (negb (existsb (fun b => b == bp_bottleneck row) ORS_DIMENSIONS))
             (contradiction (bp_bottleneck row)
                "NON_ORS_ROW: this join accepts only the two frozen ORS dimensions")) rows;
  let? transaction :=
    evidence_for OrsTransactionSlots rows config_snapshot_ref authority_epoch_ref in
  let? durable :=
    evidence_for OrsDurableQueueBytes rows config_snapshot_ref authority_epoch_ref in
  Ok (transaction, durable).
