(* ===== verification/CapacityLaws.v ===== *)
(** * Laws of the capacity contract and of the profile compiler

    When a row and a profile are valid, and what the compiler answers: the
    theorems say for every set of owner records which profile is compiled
    from it, when none is, and that its lowered guarantees name exactly the
    dimensions nobody claims. *)

From Stdlib Require Import String Ascii.
From S2P Require Import Prelude RustText Contracts RuntimeErrors CapacityContracts Kernel.
From S2P Require Import CapacityProfile.

#[local] Open Scope string_scope.
#[local] Open Scope list_scope.
#[local] Open Scope Z_scope.

(** ** Canonical references *)

Section Canonical.
Lemma string_ltb_le x y : String.le x y -> x <> y -> String.ltb x y = true.
Proof.
  unfold String.le, String.leb, String.ltb. intros Hle Hne.
  destruct (String.compare x y) eqn:Hc; [|done|done]. by apply String.compare_eq_iff in Hc.
Qed.

Lemma strictly_ascending_sorted l :
  StronglySorted String.le l -> NoDup l -> strictly_ascending l = true.
Proof.
  induction l as [|x [|y l] IH]; intros Hs Hnd; [done|done|].
  apply StronglySorted_inv in Hs as [Hs Hle]. apply NoDup_cons in Hnd as [Hni Hnd].
  change (strictly_ascending (x :: y :: l)) with (String.ltb x y && strictly_ascending (y :: l)).
  rewrite IH by done. apply Forall_cons in Hle as [Hle _].
  rewrite string_ltb_le; [done|done|]. set_solver.
Qed.

Lemma validate_canonical_refs_ok field l :
  validate_canonical_refs field l = Ok tt <-> strictly_ascending l = true.
Proof. unfold validate_canonical_refs. by destruct (strictly_ascending l). Qed.

Lemma bottleneck_str_prefix_free b1 b2 s1 s2 :
  bottleneck_str b1 +:+ ":" +:+ s1 = bottleneck_str b2 +:+ ":" +:+ s2 -> b1 = b2.
Proof. by destruct b1, b2; intros [=]. Qed.
End Canonical.

(** ** The compiled rows *)

(** The record the compiler finds for a dimension, when it is current. *)
Definition current_row (identity : ControlReserveProfileIdentity)
    (owner_evidence : list BottleneckOwnerEvidence) (b : CapacityBottleneck)
    : option BottleneckCapacityProfile :=
  e ← List.find (fun evidence => bp_bottleneck (oe_row evidence) == b) owner_evidence;
  if is_current e identity then Some (oe_row e) else None.

Definition compiled_row identity owner_evidence (bound : BottleneckOwnerBinding)
    : BottleneckCapacityProfile :=
  default (unclaimed_row bound) (current_row identity owner_evidence (ob_bottleneck bound)).

(** A current claim names the owner bound to its dimension. *)
Definition claim_owned identity owner_evidence (bound : BottleneckOwnerBinding) : Prop :=
  forall row, current_row identity owner_evidence (ob_bottleneck bound) = Some row ->
    bp_coverage_state row = CoverageClaimed -> bp_owner_ref row = ob_owner bound.

(** The names of the guarantees of rows that are not claimed. *)
Definition lowered_names (rows : list BottleneckCapacityProfile) : list string :=
  (fun row => lowered_guarantee (bp_bottleneck row) (bp_coverage_state row)) <$>
    List.filter (fun row => bp_coverage_state row != CoverageClaimed) rows.

Definition compiled_profile (identity : ControlReserveProfileIdentity)
    (owner_evidence : list BottleneckOwnerEvidence) : ControlReserveProfile :=
  let rows := compiled_row identity owner_evidence <$> frozen_bottleneck_owner_map in
  {| cp_profile_id := pi_profile_id identity;
     cp_profile_revision := pi_profile_revision identity;
     cp_product_identity_ref := pi_product_identity_ref identity;
     cp_source_build_and_runtime_generation_refs :=
       pi_source_build_and_runtime_generation_refs identity;
     cp_config_snapshot_ref := pi_config_snapshot_ref identity;
     cp_authority_epoch_ref := pi_authority_epoch_ref identity;
     cp_compiled_at_ms := pi_compiled_at_ms identity;
     cp_bottleneck_rows := rows;
     cp_unsupported_or_unknown_guarantees := merge_sort String.le (lowered_names rows);
     cp_profile_evidence_refs := pi_profile_evidence_refs identity;
     cp_invalidation_set := pi_invalidation_set identity |}.

Section Compile.
Context (identity : ControlReserveProfileIdentity) (owner_evidence : list BottleneckOwnerEvidence).
Abbreviation current_row := (current_row identity owner_evidence).
Abbreviation compiled_row := (compiled_row identity owner_evidence).

Lemma scan_duplicate_evidence_ok l : forall earlier,
  scan_duplicate_evidence earlier l = Ok tt <->
  NoDup ((fun e => bp_bottleneck (oe_row e)) <$> l) /\
  Forall (fun e => bp_bottleneck (oe_row e) ∉ earlier) l.
Proof.
  induction l as [|e l IH]; intros earlier; simpl; [split; [repeat constructor|done]|].
  rewrite check_guard_ok, IH, NoDup_cons, Forall_cons, existsb_false_iff.
  assert (Hni : Forall (fun x => (x == bp_bottleneck (oe_row e)) = false) earlier <->
                bp_bottleneck (oe_row e) ∉ earlier).
  { rewrite Forall_forall. split.
    - intros H Hin. specialize (H _ Hin). by rewrite bool_decide_eq_true_2 in H.
    - intros H x Hx. apply bool_decide_eq_false. by intros ->. }
  rewrite Hni, !Forall_forall, list_elem_of_fmap. split.
  - intros (H1 & H2 & H3). split; [split; [|done]|split; [done|]].
    + intros (y & Hy & Hin). apply (H3 y Hin). rewrite <- Hy. set_solver.
    + intros x Hx Hin. apply (H3 x Hx). set_solver.
  - intros ([H1 H2] & H3 & H4). split; [done|]. split; [done|]. intros x Hx Hin.
    apply elem_of_app in Hin as [Hin|Hin]; [by apply (H4 x)|].
    apply list_elem_of_singleton in Hin. apply H1. by exists x.
Qed.

Lemma current_row_bottleneck b row : current_row b = Some row -> bp_bottleneck row = b.
Proof.
  unfold CapacityLaws.current_row. destruct (List.find _ _) as [e|] eqn:Hf; simpl; [|done].
  apply List.find_some in Hf as [_ Hb]. apply bool_decide_eq_true in Hb. case_match; naive_solver.
Qed.

Lemma compiled_row_bottleneck bound : bp_bottleneck (compiled_row bound) = ob_bottleneck bound.
Proof.
  unfold CapacityLaws.compiled_row. destruct (current_row _) eqn:E; simpl; [|done].
  by apply current_row_bottleneck in E.
Qed.

Lemma lowered_names_cons row rows :
  lowered_names (row :: rows) =
  (if bp_coverage_state row != CoverageClaimed
   then [lowered_guarantee (bp_bottleneck row) (bp_coverage_state row)] else []) ++ lowered_names rows.
Proof. unfold lowered_names. simpl. by destruct (_ != _). Qed.

Lemma compile_dimension_ok rows lowered bound rows' lowered' :
  compile_dimension identity owner_evidence (rows, lowered) bound = Ok (rows', lowered') <->
  claim_owned identity owner_evidence bound /\ rows' = rows ++ [compiled_row bound] /\
  lowered' = lowered ++ lowered_names [compiled_row bound].
Proof.
  unfold compile_dimension, claim_owned. rewrite lowered_names_cons, app_nil_r, compiled_row_bottleneck.
  unfold CapacityLaws.compiled_row, CapacityLaws.current_row.
  destruct (List.find _ _) as [e|] eqn:Hf; simpl; [|naive_solver].
  destruct (is_current e identity); simpl; [|naive_solver].
  rewrite check_guard_ok, andb_false_iff, bool_decide_eq_false, negb_false_iff, bool_decide_eq_true.
  destruct (decide (bp_coverage_state (oe_row e) = CoverageClaimed)) as [Hc|Hc].
  - rewrite !bool_decide_eq_true_2 by done. simpl. rewrite app_nil_r. naive_solver.
  - rewrite !bool_decide_eq_false_2 by done. simpl. naive_solver.
Qed.

Lemma compile_dimensions_ok bounds : forall rows lowered rows' lowered',
  fold_res (compile_dimension identity owner_evidence) (rows, lowered) bounds = Ok (rows', lowered') <->
  Forall (claim_owned identity owner_evidence) bounds /\ rows' = rows ++ (compiled_row <$> bounds) /\
  lowered' = lowered ++ lowered_names (compiled_row <$> bounds).
Proof.
  induction bounds as [|bound bounds IH]; intros rows lowered rows' lowered'; simpl.
  { rewrite !app_nil_r. naive_solver. }
  rewrite rbind_ok, Forall_cons. split.
  - intros ([rows1 lowered1] & H1 & H2). apply compile_dimension_ok in H1 as (Hc & -> & ->).
    apply IH in H2 as (Hf & -> & ->). split_and!; [done|done|by rewrite <- app_assoc|].
    rewrite <- app_assoc. f_equal. rewrite !lowered_names_cons. by rewrite app_nil_r.
  - intros ([Hc Hf] & -> & ->).
    exists (rows ++ [compiled_row bound], lowered ++ lowered_names [compiled_row bound]).
    split; [by apply compile_dimension_ok|]. apply IH. split_and!; [done|by rewrite <- app_assoc|].
    rewrite <- app_assoc. f_equal. rewrite !lowered_names_cons. by rewrite app_nil_r.
Qed.
End Compile.

(** ** Profiles over the frozen denominator *)

Section Denominator.
Lemma validate_rows_ok rows : forall earlier,
  NoDup (earlier ++ (bp_bottleneck <$> rows)) ->
  validate_rows earlier rows = Ok tt <-> Forall (fun row => row_validate row = Ok tt) rows.
Proof.
  induction rows as [|row rows IH]; intros earlier Hnd; simpl; [split; [constructor|done]|].
  rewrite check_guard_ok, check_ok, Forall_cons, IH.
  2: { by rewrite <- app_assoc. }
  enough (existsb (fun b => b == bp_bottleneck row) earlier = false) as -> by naive_solver.
  apply existsb_false_iff, Forall_forall. intros b Hb. apply bool_decide_eq_false. intros ->.
  apply NoDup_app in Hnd as (_ & Hnd & _). apply (Hnd _ Hb). simpl. left.
Qed.

Lemma rows_in_contract_order_ok bounds : forall rows,
  bp_bottleneck <$> rows = ob_bottleneck <$> bounds -> rows_in_contract_order rows bounds = Ok tt.
Proof.
  induction bounds as [|bound bounds IH]; intros [|row rows] H; try done.
  simpl in H. injection H as Hb Hrest. simpl. rewrite Hb, bool_decide_eq_true_2 by done. simpl. by apply IH.
Qed.

Lemma frozen_bottlenecks_NoDup : NoDup (ob_bottleneck <$> frozen_bottleneck_owner_map).
Proof. apply (bool_decide_unpack _). by vm_compute. Qed.

Lemma frozen_units :
  Forall (fun bound => ob_unit bound = bottleneck_unit (ob_bottleneck bound)) frozen_bottleneck_owner_map.
Proof. repeat (constructor; [reflexivity|]). constructor. Qed.

Lemma frozen_complete b : exists bound, bound ∈ frozen_bottleneck_owner_map /\ ob_bottleneck bound = b.
Proof.
  assert (H : b ∈ ob_bottleneck <$> frozen_bottleneck_owner_map)
    by (apply (bool_decide_unpack _); by destruct b; vm_compute).
  apply list_elem_of_fmap in H as (bound & -> & H). by exists bound.
Qed.

(** Rows that follow the frozen map form a complete denominator. *)
Lemma validate_denominator_ok p :
  bp_bottleneck <$> cp_bottleneck_rows p = ob_bottleneck <$> frozen_bottleneck_owner_map ->
  validate_denominator p = Ok tt <-> Forall (fun row => row_validate row = Ok tt) (cp_bottleneck_rows p).
Proof.
  intros Hrows. unfold validate_denominator. rewrite check_ok, check_guard_ok.
  rewrite validate_rows_ok by (simpl; rewrite Hrows; apply frozen_bottlenecks_NoDup).
  rewrite (rows_in_contract_order_ok _ _ Hrows).
  assert (Hlen : length (cp_bottleneck_rows p) = length frozen_bottleneck_owner_map)
    by (rewrite <- (length_fmap bp_bottleneck), Hrows; apply length_fmap).
  rewrite Hlen, Nat.eqb_refl. simpl negb. rewrite orb_false_l.
  enough (existsb (fun bound => negb (existsb (fun row => bp_bottleneck row == ob_bottleneck bound)
                                         (cp_bottleneck_rows p))) frozen_bottleneck_owner_map = false)
    as -> by naive_solver.
  apply existsb_false_iff, Forall_forall. intros bound Hb. apply negb_false_iff, existsb_exists.
  assert (Hin : ob_bottleneck bound ∈ bp_bottleneck <$> cp_bottleneck_rows p)
    by (rewrite Hrows; by apply list_elem_of_fmap_2).
  apply list_elem_of_fmap in Hin as (row & Heq & Hrow). exists row.
  split; [by apply list_elem_of_In|]. by apply bool_decide_eq_true.
Qed.

Lemma unclaimed_row_valid bound :
  ob_unit bound = bottleneck_unit (ob_bottleneck bound) -> row_validate (unclaimed_row bound) = Ok tt.
Proof.
  intros Hu. unfold row_validate, row_validate_unit. simpl. rewrite Hu, bool_decide_eq_true_2 by done. done.
Qed.

Lemma lowered_names_NoDup rows : NoDup (bp_bottleneck <$> rows) -> NoDup (lowered_names rows).
Proof.
  unfold lowered_names. intros Hnd.
  assert (Hf : NoDup (bp_bottleneck <$> List.filter (fun row => bp_coverage_state row != CoverageClaimed) rows)).
  { induction rows as [|row rows IH]; simpl in *; [done|]. apply NoDup_cons in Hnd as [Hni Hnd].
    destruct (_ != _); [|by apply IH]. simpl. apply NoDup_cons. split; [|by apply IH].
    intros Hin. apply Hni. apply list_elem_of_fmap in Hin as (r & -> & Hr).
    apply list_elem_of_In, List.filter_In in Hr as [Hr _]. apply list_elem_of_fmap_2. by apply list_elem_of_In. }
  revert Hf. generalize (List.filter (fun row => bp_coverage_state row != CoverageClaimed) rows).
  intros l Hl. induction l as [|row l IH]; simpl in *; [constructor|].
  apply NoDup_cons in Hl as [Hni Hl]. apply NoDup_cons. split; [|by apply IH].
  intros Hin. apply Hni. apply list_elem_of_fmap in Hin as (r & Heq & Hr).
  apply bottleneck_str_prefix_free in Heq. rewrite Heq. by apply list_elem_of_fmap_2.
Qed.

Lemma elem_of_lowered_names rows row :
  NoDup (bp_bottleneck <$> rows) -> row ∈ rows ->
  lowered_guarantee (bp_bottleneck row) (bp_coverage_state row) ∈ lowered_names rows <->
  bp_coverage_state row <> CoverageClaimed.
Proof.
  intros Hnd Hrow. unfold lowered_names. rewrite list_elem_of_fmap. split.
  - intros (r & Heq & Hr). apply list_elem_of_In, List.filter_In in Hr as [Hr Hc].
    apply list_elem_of_In in Hr. apply negb_true_iff, bool_decide_eq_false in Hc.
    apply bottleneck_str_prefix_free in Heq.
    enough (row = r) as -> by done. revert Hnd Hrow Hr Heq. clear.
    induction rows as [|x rows IH]; simpl; [set_solver|]. rewrite NoDup_cons.
    intros [Hni Hnd] Hrow Hr Heq. apply elem_of_cons in Hrow as [->|Hrow], Hr as [->|Hr]; [done| | |by apply IH].
    + exfalso. apply Hni. rewrite Heq. by apply list_elem_of_fmap_2.
    + exfalso. apply Hni. rewrite <- Heq. by apply list_elem_of_fmap_2.
  - intros Hc. exists row. split; [done|]. apply list_elem_of_In, List.filter_In.
    split; [by apply list_elem_of_In|]. by apply negb_true_iff, bool_decide_eq_false.
Qed.
End Denominator.

(** ** Claimed rows *)

Definition limit_total (p : BottleneckCapacityProfile) : Z :=
  sum_list ((fun x => cl_quantity x.2) <$> declared_limits p).

Section Rows.
Lemma partition_sum_ok l : forall acc total,
  0 <= acc -> Forall (fun x : string * CapacityLimit => 0 <= cl_quantity x.2) l ->
  fold_res (fun acc '(_, limit) =>
              ok_or (checked_add acc (cl_quantity limit))
                (refs_invalid "physical_total_limit"
                   "CAPACITY_SUM_OVERFLOW: the disjoint partition sum overflows")) acc l = Ok total <->
  total = acc + sum_list ((fun x => cl_quantity x.2) <$> l) /\ (l = [] \/ total <= u64_max).
Proof.
  induction l as [|[field limit] l IH]; intros acc total Hacc Hl; cbn [fold_res].
  { change (sum_list _) with 0. rewrite Z.add_0_r. naive_solver. }
  apply Forall_cons in Hl as [Hq Hl]. simpl in Hq. rewrite rbind_ok, fmap_cons. simpl snd.
  change (sum_list (cl_quantity limit :: ?l)) with (cl_quantity limit + sum_list l).
  assert (Hsum : 0 <= sum_list ((fun x : string * CapacityLimit => cl_quantity x.2) <$> l))
    by (by apply sum_list_nonneg, Forall_fmap).
  split.
  - intros (acc' & Ha & Hrest). destruct (checked_add acc (cl_quantity limit)) eqn:Hc; simplify_eq/=.
    apply checked_add_some in Hc as [-> Hle]. apply IH in Hrest as [-> Hd]; [|lia|done].
    split; [lia|]. right. destruct Hd as [->|Hd]; [change (sum_list _) with 0|]; lia.
  - intros [-> [Hd|Hd]]; [done|]. exists (acc + cl_quantity limit).
    assert (checked_add acc (cl_quantity limit) = Some (acc + cl_quantity limit)) as ->
      by (apply checked_add_some; lia).
    split; [done|]. apply IH; [lia|done|]. split; [lia|]. right. lia.
Qed.

(** The limits of a row are [NonZeroU64]. *)
Definition limits_positive (p : BottleneckCapacityProfile) : Prop :=
  Forall (fun x => 0 < cl_quantity x.2 <= u64_max) (declared_limits p).

(** What a valid claimed row promises. *)
Lemma claimed_row_promises p total :
  bp_coverage_state p = CoverageClaimed -> bp_physical_total_limit p = Some total ->
  limits_positive p -> cl_quantity total <= u64_max ->
  row_validate p = Ok tt <->
  bp_unit p = bottleneck_unit (bp_bottleneck p) /\
  Forall (fun x => cl_unit x.2 = bp_unit p) (declared_limits p) /\
  is_blank (bp_owner_ref p) = false /\ is_blank (bp_owner_generation_ref p) = false /\
  is_blank (bp_proof_profile_ref p) = false /\
  is_some (bp_protected_limit p) = true /\ is_some (bp_enforcement p) = true /\
  (bp_normal_work_applicable p = true -> is_some (bp_normal_limit p) = true) /\
  bp_evidence_refs p <> [] /\ strictly_ascending (bp_evidence_refs p) = true /\
  bp_invalidation_set p <> [] /\ strictly_ascending (bp_invalidation_set p) = true /\
  limit_total p <= cl_quantity total.
Proof.
  intros Hc Ht Hpos Htot.
  assert (Hp : row_validate_partition_accounting p = Ok tt <-> limit_total p <= cl_quantity total).
  { unfold row_validate_partition_accounting. rewrite Ht, rbind_ok. unfold limit_total.
    assert (Hnn : Forall (fun x : string * CapacityLimit => 0 <= cl_quantity x.2) (declared_limits p)).
    { eapply Forall_impl; [exact Hpos|]. simpl. lia. }
    split.
    - intros (t & Hs & Hg). apply partition_sum_ok in Hs as [-> _]; [|lia|done].
      apply guard_err_ok in Hg. lia.
    - intros Hle. eexists. split; [apply partition_sum_ok; [lia|done|]; split; [reflexivity|right; lia]|].
      apply guard_err_ok. lia. }
  assert (Hu : row_validate_unit p = Ok tt <->
     bp_unit p = bottleneck_unit (bp_bottleneck p) /\
     Forall (fun x => cl_unit x.2 = bp_unit p) (declared_limits p)).
  { unfold row_validate_unit. rewrite check_guard_ok, negb_false_iff, bool_decide_eq_true, for_each_ok.
    f_equiv. apply Forall_iff. intros [f l]. simpl.
    by rewrite guard_err_ok, negb_false_iff, bool_decide_eq_true. }
  unfold row_validate. rewrite !check_ok, Hu, Hp, !validate_canonical_refs_ok.
  unfold row_validate_claim, row_validate_unclaimed_capacity. rewrite Hc.
  rewrite (bool_decide_eq_true_2 (CoverageClaimed = CoverageClaimed)) by done.
  rewrite Ht. cbn [negb is_some].
  rewrite !check_guard_ok, guard_err_ok, orb_false_iff, andb_false_iff.
  rewrite !negb_false_iff, !bool_decide_eq_false.
  destruct (bp_normal_work_applicable p); naive_solver.
Qed.
End Rows.

(** ** What is compiled *)

Lemma compiled_profile_rows identity owner_evidence :
  cp_bottleneck_rows (compiled_profile identity owner_evidence)
  = compiled_row identity owner_evidence <$> frozen_bottleneck_owner_map.
Proof. reflexivity. Qed.

Lemma compiled_bottlenecks identity owner_evidence :
  bp_bottleneck <$> (compiled_row identity owner_evidence <$> frozen_bottleneck_owner_map)
  = ob_bottleneck <$> frozen_bottleneck_owner_map.
Proof.
  rewrite <- list_fmap_compose. apply list_fmap_ext. intros i bound _. apply compiled_row_bottleneck.
Qed.

(** A compiled profile is valid as soon as its current rows and the
    references of its identity are. *)
Lemma compiled_profile_valid identity owner_evidence :
  profile_validate (compiled_profile identity owner_evidence) = Ok tt <->
  (forall b row, current_row identity owner_evidence b = Some row -> row_validate row = Ok tt) /\
  strictly_ascending (pi_source_build_and_runtime_generation_refs identity) = true /\
  strictly_ascending (pi_profile_evidence_refs identity) = true /\
  strictly_ascending (pi_invalidation_set identity) = true.
Proof.
  unfold profile_validate. rewrite !check_ok, !validate_canonical_refs_ok.
  rewrite validate_denominator_ok by (rewrite compiled_profile_rows; apply compiled_bottlenecks).
  assert (Hlow : strictly_ascending
            (cp_unsupported_or_unknown_guarantees (compiled_profile identity owner_evidence)) = true).
  { apply strictly_ascending_sorted; [apply (StronglySorted_merge_sort _)|].
    unfold compiled_profile, cp_unsupported_or_unknown_guarantees. rewrite merge_sort_Permutation.
    apply lowered_names_NoDup. rewrite compiled_bottlenecks. apply frozen_bottlenecks_NoDup. }
  assert (Hall : Forall (fun row => row_validate row = Ok tt)
                   (cp_bottleneck_rows (compiled_profile identity owner_evidence)) <->
    forall b row, current_row identity owner_evidence b = Some row -> row_validate row = Ok tt).
  { rewrite compiled_profile_rows, Forall_fmap, Forall_forall. unfold compose, compiled_row. split.
    - intros H b row Hr. destruct (frozen_complete b) as (bound & Hb & <-).
      specialize (H _ Hb). by rewrite Hr in H.
    - intros H bound Hb. destruct (current_row _ _ _) eqn:E; simpl; [by eapply H|].
      apply unclaimed_row_valid. pose proof frozen_units as Hu. rewrite Forall_forall in Hu. by apply Hu. }
  rewrite Hall, Hlow. unfold compiled_profile. cbn [cp_source_build_and_runtime_generation_refs
    cp_profile_evidence_refs cp_invalidation_set]. tauto.
Qed.

(** C18. The compiler answers exactly one profile: it succeeds if and only if
    no dimension is reported twice, every current claim names the owner bound
    to its dimension, the current rows are valid and the reference sets of
    the identity are canonical; the profile then has one row for each
    dimension in the frozen order, the current record of its owner unchanged
    or an unclaimed row, and its lowered guarantees are the sorted names of
    exactly the rows that are not claimed. *)
Theorem compile_exact identity owner_evidence profile :
  compile_control_reserve_profile identity owner_evidence = Ok profile <->
  NoDup ((fun e => bp_bottleneck (oe_row e)) <$> owner_evidence) /\
  Forall (claim_owned identity owner_evidence) frozen_bottleneck_owner_map /\
  (forall b row, current_row identity owner_evidence b = Some row -> row_validate row = Ok tt) /\
  strictly_ascending (pi_source_build_and_runtime_generation_refs identity) = true /\
  strictly_ascending (pi_profile_evidence_refs identity) = true /\
  strictly_ascending (pi_invalidation_set identity) = true /\
  profile = compiled_profile identity owner_evidence.
Proof.
  unfold compile_control_reserve_profile. rewrite check_ok, scan_duplicate_evidence_ok.
  split.
  - intros [[Hnd _] H]. apply rbind_ok in H as ([rows lowered] & Hf & H).
    apply compile_dimensions_ok in Hf as (Hc & -> & ->). rewrite !app_nil_l in H.
    apply check_ok in H as [Hv [= <-]]. apply map_err_ok in Hv.
    apply (compiled_profile_valid identity owner_evidence) in Hv. tauto.
  - intros (Hnd & Hc & Hr & H1 & H2 & H3 & ->). split; [split; [done|by apply Forall_forall; set_solver]|].
    apply rbind_ok. exists (compiled_row identity owner_evidence <$> frozen_bottleneck_owner_map,
                     lowered_names (compiled_row identity owner_evidence <$> frozen_bottleneck_owner_map)).
    split; [by apply compile_dimensions_ok|]. apply check_ok. split; [|done].
    apply map_err_ok, (compiled_profile_valid identity owner_evidence). tauto.
Qed.

(** The status of a compiled profile can always be projected, shows the
    rows of the profile unchanged, and marks a guarantee as lowered exactly
    when its row is not claimed. *)
Theorem status_marks_unclaimed identity owner_evidence profile :
  compile_control_reserve_profile identity owner_evidence = Ok profile ->
  exists snapshot, project_control_reserve_status profile = Ok snapshot /\
    sr_row <$> ss_rows snapshot = cp_bottleneck_rows profile /\
    Forall (fun r => sr_guarantee_lowered r = true <-> bp_coverage_state (sr_row r) <> CoverageClaimed)
      (ss_rows snapshot).
Proof.
  intros Hc. assert (Hv : profile_validate profile = Ok tt /\ profile = compiled_profile identity owner_evidence).
  { unfold compile_control_reserve_profile in Hc. apply check_ok in Hc as [_ Hc].
    apply rbind_ok in Hc as ([rows lowered] & Hf & Hc). apply check_ok in Hc as [Hv [= <-]].
    apply map_err_ok in Hv. split; [done|].
    by apply compile_dimensions_ok in Hf as (_ & -> & ->). }
  destruct Hv as [Hv Hp]. unfold project_control_reserve_status. rewrite Hv. eexists. split; [reflexivity|].
  unfold ss_rows. split.
  - rewrite <- list_fmap_compose. rewrite <- (list_fmap_id (cp_bottleneck_rows profile)) at 2.
    by apply list_fmap_ext.
  - apply Forall_fmap, Forall_forall. intros row Hrow. unfold compose, project_row. simpl.
    rewrite existsb_exists. rewrite Hp, compiled_profile_rows in Hrow.
    rewrite <- (elem_of_lowered_names _ row ltac:(rewrite compiled_bottlenecks; apply frozen_bottlenecks_NoDup) Hrow).
    assert (Hg : cp_unsupported_or_unknown_guarantees profile = merge_sort String.le (lowered_names
                   (compiled_row identity owner_evidence <$> frozen_bottleneck_owner_map))) by (by rewrite Hp).
    rewrite Hg. split.
    + intros (g & Hin & Heq). apply bool_decide_eq_true in Heq as ->. apply list_elem_of_In in Hin.
      by rewrite merge_sort_Permutation in Hin.
    + intros Hin. eexists. split; [apply list_elem_of_In; by rewrite merge_sort_Permutation|].
      by apply bool_decide_eq_true.
Qed.
