(* ===== verification/FrontDoor.v ===== *)
(** * The control reserve and the front door

    The admission core of the Kernel,
    crates/kernel/eliot-kernel-core/src/module/control_reserve_front_door.rs:
    a reserve of three disjoint partitions from which permits are acquired
    and to which they return, an idempotency ledger with a first-in first-out
    bound, and the front door that combines them with the Kernel authority.

    Here a call runs alone: the compare-exchange loop of an acquisition is
    its outcome without interference. FrontDoorAtomics.v takes the loop apart
    into its atomic accesses and shows that interleaved calls have the
    outcomes of calls made one after the other. A [usize] has 64 bits, and
    [debug_assert!] is not part of the program. *)

From Stdlib Require Import String.
From S2P Require Import Prelude RustText Contracts RuntimeErrors CapacityContracts Kernel Receipts.
From S2P Require Import AuthorityReceipts.

#[local] Open Scope string_scope.
#[local] Open Scope list_scope.
#[local] Open Scope Z_scope.

Definition FRONT_DOOR_OWNER : string := "kernel-front-door".
Definition FRONT_DOOR_BOTTLENECK : CapacityBottleneck := KernelControlChannel.
Definition EMERGENCY_PREALLOCATED_SLOTS : Z := 1.

(** ** Permits *)

Inductive PermitOperation : Type :=
| OpNormal (work : NormalWorkClass)
| OpProtected (operation : ControlOperationClass)
| OpEmergency (operation : EmergencyOperationClass)
| LegacyControl.

#[global] Instance PermitOperation_eq_dec : EqDecision PermitOperation.
Proof. solve_decision. Defined.

Definition operation_class (o : PermitOperation) : CapacityClass :=
  match o with
  | OpNormal _ => NormalWorkload
  | OpEmergency _ => EmergencyLastResort
  | OpProtected _ | LegacyControl => ProtectedControl
  end.

Definition contract_label (o : PermitOperation) : string :=
  match o with
  | OpNormal work => normal_work_str work
  | OpProtected operation => control_operation_str operation
  | OpEmergency operation => emergency_operation_str operation
  | LegacyControl => "LEGACY_CONTROL"
  end.

(** [pm_held] is [inner.is_some()]: the permit still owns its slot. *)
Record ControlPermit : Type := {
  pm_held : bool;
  pm_class : CapacityClass;
  pm_bottleneck : CapacityBottleneck;
  pm_operation : PermitOperation;
  pm_operation_id : string;
  pm_owner : string;
  pm_epoch : EpochId;
}.

#[global] Instance ControlPermit_eq_dec : EqDecision ControlPermit.
Proof. solve_decision. Defined.

Record ControlReleaseEvidence : Type := {
  ce_class : CapacityClass;
  ce_bottleneck : CapacityBottleneck;
  ce_operation_label : string;
  ce_operation_id : string;
  ce_owner : string;
  ce_epoch : EpochId;
}.

Definition matches_permit (e : ControlReleaseEvidence) (permit : ControlPermit) : bool :=
  (ce_class e == pm_class permit)
  && (ce_bottleneck e == pm_bottleneck permit)
  && (ce_operation_label e == contract_label (pm_operation permit))
  && (ce_operation_id e == pm_operation_id permit)
  && (ce_owner e == pm_owner permit)
  && (ce_epoch e == pm_epoch permit).

Definition binding_matches (permit : ControlPermit) (operation_id owner : string) (epoch : EpochId)
    : bool :=
  (pm_operation_id permit == operation_id) && (pm_owner permit == owner)
  && (pm_epoch permit == epoch).

(** ** The reserve *)

Record ControlReserve : Type := {
  cr_normal_capacity : Z;
  cr_protected_capacity : Z;
  cr_emergency_capacity : Z;
  cr_normal_in_flight : Z;
  cr_protected_in_flight : Z;
  cr_emergency_in_flight : Z;
  cr_restart_sealed : bool;
  cr_sealed_epoch : option EpochId;
  cr_permit_sequence : Z;
}.

#[global] Instance ControlReserve_eq_dec : EqDecision ControlReserve.
Proof. solve_decision. Defined.

Definition in_flight (c : CapacityClass) (r : ControlReserve) : Z :=
  match c with
  | NormalWorkload => cr_normal_in_flight r
  | ProtectedControl => cr_protected_in_flight r
  | EmergencyLastResort => cr_emergency_in_flight r
  end.

Definition capacity_of (c : CapacityClass) (r : ControlReserve) : Z :=
  match c with
  | NormalWorkload => cr_normal_capacity r
  | ProtectedControl => cr_protected_capacity r
  | EmergencyLastResort => cr_emergency_capacity r
  end.

(** Storing into one of the three counters. *)
Definition set_in_flight (c : CapacityClass) (z : Z) (r : ControlReserve) : ControlReserve :=
  {| cr_normal_capacity := cr_normal_capacity r;
     cr_protected_capacity := cr_protected_capacity r;
     cr_emergency_capacity := cr_emergency_capacity r;
     cr_normal_in_flight := if c == NormalWorkload then z else cr_normal_in_flight r;
     cr_protected_in_flight := if c == ProtectedControl then z else cr_protected_in_flight r;
     cr_emergency_in_flight := if c == EmergencyLastResort then z else cr_emergency_in_flight r;
     cr_restart_sealed := cr_restart_sealed r;
     cr_sealed_epoch := cr_sealed_epoch r;
     cr_permit_sequence := cr_permit_sequence r |}.

Definition set_seal (sealed : bool) (epoch : option EpochId) (r : ControlReserve) : ControlReserve :=
  {| cr_normal_capacity := cr_normal_capacity r;
     cr_protected_capacity := cr_protected_capacity r;
     cr_emergency_capacity := cr_emergency_capacity r;
     cr_normal_in_flight := cr_normal_in_flight r;
     cr_protected_in_flight := cr_protected_in_flight r;
     cr_emergency_in_flight := cr_emergency_in_flight r;
     cr_restart_sealed := sealed;
     cr_sealed_epoch := epoch;
     cr_permit_sequence := cr_permit_sequence r |}.

Definition set_permit_sequence (z : Z) (r : ControlReserve) : ControlReserve :=
  {| cr_normal_capacity := cr_normal_capacity r;
     cr_protected_capacity := cr_protected_capacity r;
     cr_emergency_capacity := cr_emergency_capacity r;
     cr_normal_in_flight := cr_normal_in_flight r;
     cr_protected_in_flight := cr_protected_in_flight r;
     cr_emergency_in_flight := cr_emergency_in_flight r;
     cr_restart_sealed := cr_restart_sealed r;
     cr_sealed_epoch := cr_sealed_epoch r;
     cr_permit_sequence := z |}.

Definition reserve_partitioned (normal_capacity protected_capacity : Z) : KR ControlReserve :=
  check? guard_err (normal_capacity =? 0)
           (KInvalidField "control_reserve.normal_capacity" "must be greater than zero");
  check? guard_err (protected_capacity =? 0)
           (KInvalidField "control_reserve.protected_capacity" "must be greater than zero");
  Ok {| cr_normal_capacity := normal_capacity; cr_protected_capacity := protected_capacity;
        cr_emergency_capacity := EMERGENCY_PREALLOCATED_SLOTS; cr_normal_in_flight := 0;
        cr_protected_in_flight := 0; cr_emergency_in_flight := 0; cr_restart_sealed := false;
        cr_sealed_epoch := None; cr_permit_sequence := 0 |}.

Definition reserve_new (capacity : Z) : KR ControlReserve := reserve_partitioned capacity capacity.

(** [capacity.saturating_sub(in_flight)] *)
Definition available (c : CapacityClass) (r : ControlReserve) : Z :=
  Z.max 0 (capacity_of c r - in_flight c r).

(** One round of the loop on the value it observes: [None] gives up, [Some]
    is the value to exchange it for. *)
Definition increment_attempt (observed capacity : Z) : option Z :=
  if capacity <=? observed then None else Some (observed + 1).

(** [cas_increment(slot, capacity)] of the partition of a class. *)
Definition cas_increment (c : CapacityClass) (r : ControlReserve) : option ControlReserve :=
  match increment_attempt (in_flight c r) (capacity_of c r) with
  | None => None
  | Some next => Some (set_in_flight c next r)
  end.

Definition new_permit (c : CapacityClass) (operation : PermitOperation)
    (operation_id owner : string) (epoch : EpochId) : ControlPermit :=
  {| pm_held := true; pm_class := c; pm_bottleneck := FRONT_DOOR_BOTTLENECK;
     pm_operation := operation; pm_operation_id := operation_id; pm_owner := owner;
     pm_epoch := epoch |}.

Definition try_acquire_normal (work : NormalWorkClass) (owner operation_id : string)
    (epoch : EpochId) : M ControlReserve KernelError ControlPermit :=
  do! mlift (validate_id owner "control_permit.owner");
  do! mlift (validate_id operation_id "control_permit.operation_id");
  let! r := mstate in
  let exhausted := NormalCapacityExhausted FRONT_DOOR_BOTTLENECK work operation_id owner epoch in
  if cr_restart_sealed r then mthrow exhausted
  else match cas_increment NormalWorkload r with
       | None => mthrow exhausted
       | Some r' =>
           do! mmodify (fun _ => r');
           mret_ok (new_permit NormalWorkload (OpNormal work) operation_id owner epoch)
       end.

Definition try_acquire_protected (operation : ControlOperationClass) (owner operation_id : string)
    (epoch : EpochId) : M ControlReserve KernelError ControlPermit :=
  do! mlift (validate_id owner "control_permit.owner");
  do! mlift (validate_id operation_id "control_permit.operation_id");
  let! r := mstate in
  let exhausted :=
    ProtectedReserveExhausted FRONT_DOOR_BOTTLENECK operation operation_id owner epoch in
  if cr_restart_sealed r then mthrow exhausted
  else match cas_increment ProtectedControl r with
       | None => mthrow exhausted
       | Some r' =>
           do! mmodify (fun _ => r');
           mret_ok (new_permit ProtectedControl (OpProtected operation) operation_id owner epoch)
       end.

Definition guarantee_lost_detail : string :=
  "emergency last-resort slot unavailable and protected reserve exhausted; reserve loss cannot be recorded through any remaining path".

Definition try_acquire_emergency (operation : EmergencyOperationClass)
    (owner operation_id : string) (epoch : EpochId) : M ControlReserve KernelError ControlPermit :=
  do! mlift (validate_id owner "control_permit.owner");
  do! mlift (validate_id operation_id "control_permit.operation_id");
  let! r := mstate in
  let unavailable :=
    EmergencySlotUnavailable FRONT_DOOR_BOTTLENECK operation operation_id owner epoch in
  if cr_restart_sealed r then mthrow unavailable
  else match cas_increment EmergencyLastResort r with
       | Some r' =>
           do! mmodify (fun _ => r');
           mret_ok (new_permit EmergencyLastResort (OpEmergency operation) operation_id owner epoch)
       | None =>
           if available ProtectedControl r =? 0
           then mthrow (ControlGuaranteeLost FRONT_DOOR_BOTTLENECK guarantee_lost_detail)
           else mthrow unavailable
       end.

Definition acquire_legacy_protected (epoch : EpochId) (r : ControlReserve)
    : ControlReserve * option ControlPermit :=
  if cr_restart_sealed r then (r, None)
  else match cas_increment ProtectedControl r with
       | None => (r, None)
       | Some r' =>
           (r', Some (new_permit ProtectedControl LegacyControl "legacy-control"
                        "legacy-control-reserve" epoch))
       end.

(** [slot.fetch_sub(1)] on the partition of the permit, when the permit still
    owns its slot; the permit is left without it. *)
Definition take_slot (permit : ControlPermit) (r : ControlReserve) : ControlReserve * ControlPermit :=
  if pm_held permit
  then (set_in_flight (pm_class permit) (wrap_u64 (in_flight (pm_class permit) r - 1)) r,
        {| pm_held := false; pm_class := pm_class permit; pm_bottleneck := pm_bottleneck permit;
           pm_operation := pm_operation permit; pm_operation_id := pm_operation_id permit;
           pm_owner := pm_owner permit; pm_epoch := pm_epoch permit |})
  else (r, permit).

Definition drop_permit (permit : ControlPermit) (r : ControlReserve) : ControlReserve :=
  (take_slot permit r).1.

(** [release] takes the slot and then drops the emptied permit. *)
Definition release_permit (permit : ControlPermit) (r : ControlReserve)
    : ControlReserve * ControlReleaseEvidence :=
  let evidence :=
    {| ce_class := pm_class permit; ce_bottleneck := pm_bottleneck permit;
       ce_operation_label := contract_label (pm_operation permit);
       ce_operation_id := pm_operation_id permit; ce_owner := pm_owner permit;
       ce_epoch := pm_epoch permit |} in
  let '(r', permit') := take_slot permit r in
  (drop_permit permit' r', evidence).

(** [slot.fetch_max(capacity)] *)
Definition pin (c : CapacityClass) (r : ControlReserve) : ControlReserve :=
  set_in_flight c (Z.max (in_flight c r) (capacity_of c r)) r.

Definition seal_after_restart (epoch : EpochId) (r : ControlReserve) : ControlReserve :=
  set_seal true (Some epoch)
    (pin EmergencyLastResort (pin ProtectedControl (pin NormalWorkload r))).

Definition unseal_after_epoch_advance (current : EpochId) : M ControlReserve KernelError unit :=
  let! r := mstate in
  match cr_sealed_epoch r with
  | None => mthrow (KInvalidField "control_reserve.restart_seal"
                      "no restart seal is held; nothing to reconcile")
  | Some sealed_epoch =>
      if sealed_epoch == current
      then mthrow (KInvalidField "control_reserve.restart_seal"
                     "epoch has not advanced; stale ownership is not fenced, held capacity stays excluded")
      else
        mmodify (fun r =>
          set_seal false None
            (set_in_flight EmergencyLastResort 0
               (set_in_flight ProtectedControl 0 (set_in_flight NormalWorkload 0 r))))
  end.

(** ** The published capacity row *)

Record FrontDoorOwnerEvidenceContext : Type := {
  fc_owner_generation_ref : string;
  fc_proof_profile_ref : string;
  fc_evidence_refs : list string;
  fc_invalidation_set : list string;
}.

(** The closure [limit] of [publish_owner_row]. *)
Definition partition_limit (field : string) (amount : Z) : KR CapacityLimit :=
  let? quantity := ok_or (non_zero amount)
                     (KInvalidField field "partition capacity must be a positive value") in
  Ok {| cl_unit := bottleneck_unit FRONT_DOOR_BOTTLENECK; cl_quantity := quantity |}.

Definition publish_owner_row (r : ControlReserve) (ctx : FrontDoorOwnerEvidenceContext)
    : KR BottleneckCapacityProfile :=
  let? bound :=
    ok_or (List.find (fun bound => ob_bottleneck bound == FRONT_DOOR_BOTTLENECK)
             frozen_bottleneck_owner_map)
      (KInvalidField "control_reserve.owner_row"
         "frozen owner map binds no owner to the front-door dimension") in
  let? normal_limit := partition_limit "control_reserve.normal_limit" (cr_normal_capacity r) in
  let? protected_limit :=
    partition_limit "control_reserve.protected_limit" (cr_protected_capacity r) in
  let? physical_total :=
    ok_or (checked_add (cr_normal_capacity r) (cr_protected_capacity r))
      (KInvalidField "control_reserve.physical_total_limit"
         "disjoint partition capacities overflow the physical total") in
  let? physical_total_limit :=
    partition_limit "control_reserve.physical_total_limit" physical_total in
  let row :=
    {| bp_bottleneck := FRONT_DOOR_BOTTLENECK; bp_coverage_state := CoverageClaimed;
       bp_owner_ref := ob_owner bound; bp_owner_generation_ref := fc_owner_generation_ref ctx;
       bp_unit := bottleneck_unit FRONT_DOOR_BOTTLENECK;
       bp_physical_total_limit := Some physical_total_limit;
       bp_normal_work_applicable := true; bp_normal_limit := Some normal_limit;
       bp_protected_limit := Some protected_limit; bp_emergency_limit := None;
       bp_enforcement := Some PhysicalPartition;
       bp_proof_profile_ref := fc_proof_profile_ref ctx;
       bp_evidence_refs := fc_evidence_refs ctx;
       bp_invalidation_set := fc_invalidation_set ctx |} in
  check? map_err KRuntimeContract (row_validate row);
  Ok row.

(** ** Decisions and the idempotency ledger *)

Inductive DecisionDenialReason : Type :=
| DeniedForgedReceipt
| DeniedStaleEpoch
| DeniedRouteMismatch
| DeniedExpired.

#[global] Instance DecisionDenialReason_eq_dec : EqDecision DecisionDenialReason.
Proof. solve_decision. Defined.

Inductive AuthorityDecision : Type :=
| Granted (grant : AuthorityGrant)
| Denied (reason : DecisionDenialReason).

#[global] Instance AuthorityDecision_eq_dec : EqDecision AuthorityDecision.
Proof. solve_decision. Defined.

Definition is_granted (d : AuthorityDecision) : bool :=
  match d with
  | Granted _ => true
  | Denied _ => false
  end.

Inductive IdempotencyDisposition : Type :=
| DispNew
| DispReplay (decision : AuthorityDecision)
| DispConflict.

Record PermitLedgerBinding : Type := {
  lb_operation_id : string;
  lb_owner : string;
  lb_epoch : EpochId;
  lb_profile_revision : string;
}.

#[global] Instance PermitLedgerBinding_eq_dec : EqDecision PermitLedgerBinding.
Proof. solve_decision. Defined.

Definition PermitLedgerBinding_new (operation_id owner : string) (epoch : EpochId)
    (profile_revision : string) : KR PermitLedgerBinding :=
  check? validate_id operation_id "permit_binding.operation_id";
  check? validate_id owner "permit_binding.owner";
  check? validate_id profile_revision "permit_binding.profile_revision";
  Ok {| lb_operation_id := operation_id; lb_owner := owner; lb_epoch := epoch;
        lb_profile_revision := profile_revision |}.

Record LedgerEntry : Type := {
  le_digest : string;
  le_decision : AuthorityDecision;
  le_binding : option PermitLedgerBinding;
}.

Record IdempotencyLedger : Type := {
  il_capacity : Z;
  il_entries : gmap string LedgerEntry;
  il_order : list string;
}.

Definition ledger_new (capacity : Z) : KR IdempotencyLedger :=
  check? guard_err (capacity =? 0)
           (KInvalidField "idempotency_ledger.capacity" "must be greater than zero");
  Ok {| il_capacity := capacity; il_entries := ∅; il_order := [] |}.

Definition resolve_bound (l : IdempotencyLedger) (key digest : string)
    (binding : option PermitLedgerBinding) : IdempotencyDisposition :=
  match il_entries l !! key with
  | None => DispNew
  | Some entry =>
      if le_digest entry != digest then DispConflict
      else match le_binding entry, binding with
           | None, None => DispReplay (le_decision entry)
           | Some stored, Some presented =>
               if stored == presented then DispReplay (le_decision entry) else DispConflict
           | _, _ => DispConflict
           end
  end.

Definition resolve (l : IdempotencyLedger) (key digest : string) : IdempotencyDisposition :=
  resolve_bound l key digest None.

(** [while self.order.len() > self.capacity]: the oldest key is popped and its
    entry removed. *)
Fixpoint evict (capacity : Z) (order : list string) (entries : gmap string LedgerEntry)
    : list string * gmap string LedgerEntry :=
  match order with
  | [] => (order, entries)
  | oldest :: rest =>
      if capacity <? usize_of_len order then evict capacity rest (delete oldest entries)
      else (order, entries)
  end.

Definition record_bound (key digest : string) (decision : AuthorityDecision)
    (binding : option PermitLedgerBinding) : M IdempotencyLedger KernelError unit :=
  do! mlift (validate_id key "idempotency_key");
  do! mlift (validate_id digest "request_digest");
  mmodify (fun l =>
    let order := if is_some (il_entries l !! key) then il_order l else il_order l ++ [key] in
    let entries := <[key := {| le_digest := digest; le_decision := decision;
                              le_binding := binding |}]> (il_entries l) in
    let '(order', entries') := evict (il_capacity l) order entries in
    {| il_capacity := il_capacity l; il_entries := entries'; il_order := order' |}).

Definition record_decision (key digest : string) (decision : AuthorityDecision)
    : M IdempotencyLedger KernelError unit :=
  record_bound key digest decision None.

Definition ledger_note_restart (l : IdempotencyLedger) : IdempotencyLedger :=
  {| il_capacity := il_capacity l; il_entries := ∅; il_order := [] |}.

(** ** The front door *)

Record FrontDoor : Type := {
  fd_authority : KernelAuthority;
  fd_reserve : ControlReserve;
  fd_ledger : IdempotencyLedger;
}.

Definition set_authority (a : KernelAuthority) (d : FrontDoor) : FrontDoor :=
  {| fd_authority := a; fd_reserve := fd_reserve d; fd_ledger := fd_ledger d |}.

Definition set_reserve (r : ControlReserve) (d : FrontDoor) : FrontDoor :=
  {| fd_authority := fd_authority d; fd_reserve := r; fd_ledger := fd_ledger d |}.

Definition set_ledger (l : IdempotencyLedger) (d : FrontDoor) : FrontDoor :=
  {| fd_authority := fd_authority d; fd_reserve := fd_reserve d; fd_ledger := l |}.

(** A call on a part of the front door. *)
Definition on_authority {A} (m : M KernelAuthority KernelError A) : M FrontDoor KernelError A :=
  fun d => let '(a, res) := m (fd_authority d) in (set_authority a d, res).

Definition on_reserve {A} (m : M ControlReserve KernelError A) : M FrontDoor KernelError A :=
  fun d => let '(r, res) := m (fd_reserve d) in (set_reserve r d, res).

Definition on_ledger {A} (m : M IdempotencyLedger KernelError A) : M FrontDoor KernelError A :=
  fun d => let '(l, res) := m (fd_ledger d) in (set_ledger l d, res).

Definition front_door_partitioned (authority : KernelAuthority)
    (normal_capacity protected_capacity ledger_capacity : Z) : KR FrontDoor :=
  let? reserve := reserve_partitioned normal_capacity protected_capacity in
  let? ledger := ledger_new ledger_capacity in
  Ok {| fd_authority := authority; fd_reserve := reserve; fd_ledger := ledger |}.

Definition front_door_new (authority : KernelAuthority) (control_capacity ledger_capacity : Z)
    : KR FrontDoor :=
  let? reserve := reserve_new control_capacity in
  let? ledger := ledger_new ledger_capacity in
  Ok {| fd_authority := authority; fd_reserve := reserve; fd_ledger := ledger |}.

Definition fd_epoch (d : FrontDoor) : EpochId := ka_current_epoch (fd_authority d).

Section Authorize.
Context `{AuthorityCrypto}.

(** The answer of the authority, as a decision or as an error. *)
Definition decide_receipt (a : KernelAuthority) (receipt : AuthorityReceipt) (route : RouteScope)
    (now_ms : Z) : KR AuthorityDecision :=
  match consume a receipt route now_ms with
  | Ok grant => Ok (Granted grant)
  | Err ForgedReceipt => Ok (Denied DeniedForgedReceipt)
  | Err (StaleEpoch _ _) | Err (StaleEpochTuple _ _) => Ok (Denied DeniedStaleEpoch)
  | Err RouteMismatch => Ok (Denied DeniedRouteMismatch)
  | Err (KExpired _) => Ok (Denied DeniedExpired)
  | Err error => Err error
  end.

(** [let _permit = ...; body]: the permit is dropped when the body is left,
    by its value or by an error. *)
Definition with_legacy_permit {A} (body : M FrontDoor KernelError A) : M FrontDoor KernelError A :=
  fun d =>
    match acquire_legacy_protected (fd_epoch d) (fd_reserve d) with
    | (r, None) => (set_reserve r d, Err ControlReserveExhausted)
    | (r, Some permit) =>
        let '(d', res) := body (set_reserve r d) in
        (set_reserve (drop_permit permit (fd_reserve d')) d', res)
    end.

Definition authorize (receipt : AuthorityReceipt) (route : RouteScope) (now_ms : Z)
    (idempotency_key request_digest : string) : M FrontDoor KernelError AuthorityDecision :=
  let! d := mstate in
  match resolve (fd_ledger d) idempotency_key request_digest with
  | DispReplay decision => mret_ok decision
  | DispConflict => mthrow IdempotencyConflict
  | DispNew =>
      let! decision := mlift (decide_receipt (fd_authority d) receipt route now_ms) in
      let record :=
        do! on_ledger (record_decision idempotency_key request_digest decision);
        mret_ok decision in
      if is_granted decision then with_legacy_permit record else record
  end.
End Authorize.

Definition acquire_control : M FrontDoor KernelError ControlPermit :=
  fun d => let '(r, permit) := acquire_legacy_protected (fd_epoch d) (fd_reserve d) in
           (set_reserve r d, ok_or permit ControlReserveExhausted).

Definition acquire_normal (work : NormalWorkClass) (owner operation_id : string)
    : M FrontDoor KernelError ControlPermit :=
  let! d := mstate in
  on_reserve (try_acquire_normal work owner operation_id (fd_epoch d)).

Definition acquire_protected (operation : ControlOperationClass) (owner operation_id : string)
    : M FrontDoor KernelError ControlPermit :=
  let! d := mstate in
  on_reserve (try_acquire_protected operation owner operation_id (fd_epoch d)).

Definition acquire_emergency (operation : EmergencyOperationClass) (owner operation_id : string)
    : M FrontDoor KernelError ControlPermit :=
  let! d := mstate in
  on_reserve (try_acquire_emergency operation owner operation_id (fd_epoch d)).

Definition front_door_advance_epoch : M FrontDoor KernelError EpochId := on_authority advance_epoch.

Definition front_door_synchronize_epoch (target : EpochId) : M FrontDoor KernelError EpochId :=
  on_authority (synchronize_epoch target).

Definition note_restart (d : FrontDoor) : FrontDoor :=
  set_reserve (seal_after_restart (fd_epoch d) (fd_reserve d))
    (set_ledger (ledger_note_restart (fd_ledger d)) d).

Definition reconcile_after_epoch_advance : M FrontDoor KernelError unit :=
  let! d := mstate in
  on_reserve (unseal_after_epoch_advance (fd_epoch d)).

(** ** Issuing permits with their bindings *)

Definition issue_evidence (c : CapacityClass) (r : ControlReserve) : string :=
  "front-door:" +:+ bottleneck_str FRONT_DOOR_BOTTLENECK +:+ ":" +:+ class_str c
  +:+ " capacity " +:+ u64_to_string (capacity_of c r)
  +:+ " in-flight " +:+ u64_to_string (capacity_of c r - available c r).

Definition acquire_requested (request : CapacityRequest) (epoch : EpochId)
    : M ControlReserve KernelError ControlPermit :=
  match rq_operation request with
  | ReqNormal work =>
      try_acquire_normal work (rq_requesting_owner_ref request) (rq_operation_id request) epoch
  | ReqProtected operation =>
      try_acquire_protected operation (rq_requesting_owner_ref request) (rq_operation_id request)
        epoch
  | ReqEmergency operation =>
      try_acquire_emergency operation (rq_requesting_owner_ref request) (rq_operation_id request)
        epoch
  end.

(** [permit_sequence.fetch_add(1)] *)
Definition next_permit_sequence : M ControlReserve KernelError Z :=
  let! r := mstate in
  do! mmodify (set_permit_sequence (wrap_u64 (cr_permit_sequence r + 1)));
  mret_ok (cr_permit_sequence r).

Definition permit_id_text (operation : RequestedOperationClass) (sequence : Z)
    (operation_id : string) : string :=
  "FD-" +:+ requested_str operation +:+ "-" +:+ u64_to_string sequence +:+ "-" +:+ operation_id.

Definition mint_binding (request : CapacityRequest) (owner_generation : ResourceGeneration)
    (issued_at_ms sequence : Z) (evidence : string) : CapacityPermitBinding :=
  {| pb_permit_id := permit_id_text (rq_operation request) sequence (rq_operation_id request);
     pb_operation_id := rq_operation_id request;
     pb_capacity_class := requested_capacity_class (rq_operation request);
     pb_operation := rq_operation request;
     pb_bottleneck := FRONT_DOOR_BOTTLENECK;
     pb_granted_limit := rq_requested_limit request;
     pb_capacity_owner_ref := FRONT_DOOR_OWNER;
     pb_capacity_owner_generation_ref := owner_generation;
     pb_requesting_owner_ref := rq_requesting_owner_ref request;
     pb_requesting_generation_ref := rq_requesting_generation_ref request;
     pb_authority_epoch_ref := rq_authority_epoch_ref request;
     pb_profile_id := rq_profile_id request;
     pb_profile_revision := rq_profile_revision request;
     pb_issued_at_ms := issued_at_ms;
     pb_expires_at_ms := u64_max;
     pb_owner_evidence_refs := [evidence] |}.

Definition request_epoch_current (request : CapacityRequest) (current : EpochId) : KR unit :=
  if is_same_authority (rq_authority_epoch_ref request) current then Ok tt
  else if lineage_id (rq_authority_epoch_ref request) != lineage_id current
  then Err (StaleEpochTuple (rq_authority_epoch_ref request) current)
  else Err (StaleEpoch (sequence (rq_authority_epoch_ref request)) (sequence current)).

Definition issue_permit (request : CapacityRequest) (owner_generation : ResourceGeneration)
    (now_ms : Z) : M FrontDoor KernelError (ControlPermit * CapacityPermitBinding) :=
  let! d := mstate in
  do! mlift (map_err KRuntimeContract (capacity_request_validate request));
  do! mlift (guard_err (rq_requested_bottleneck request != FRONT_DOOR_BOTTLENECK)
               (KInvalidField "capacity_request.requested_bottleneck"
                  "this owner enforces only KERNEL_CONTROL_CHANNEL; no other dimension is issuable here"));
  do! mlift (request_epoch_current request (fd_epoch d));
  do! mlift (guard_err (negb (cl_quantity (rq_requested_limit request) =? 1))
               (KInvalidField "capacity_request.requested_limit"
                  "the front door issues single-slot permits; hold one permit per slot"));
  do! mlift (guard_err (now_ms <? 0)
               (KInvalidField "capacity_request.issued_at_ms"
                  "the issuing clock must be non-negative"));
  let! permit := on_reserve (acquire_requested request (fd_epoch d)) in
  let! sequence := on_reserve next_permit_sequence in
  let! d' := mstate in
  mret_ok (permit,
           mint_binding request owner_generation now_ms sequence
             (issue_evidence (requested_capacity_class (rq_operation request)) (fd_reserve d'))).
