(* ===== verification/OrsReserve.v ===== *)
(** * The control reserve of the recovery store

    The partitions that the recovery store keeps for its transaction slots
    and its durable queue bytes,
    crates/kernel/eliot-ors/src/control_reserve.rs: acquisition of a slot or
    of an amount of bytes, the return of a permit, the restart seal and the
    two rows the owner publishes. As in FrontDoor.v a call runs alone here and
    its compare-exchange loop is taken apart in FrontDoorAtomics.v. *)

From Stdlib Require Import String.
From S2P Require Import Prelude RustText Contracts RuntimeErrors CapacityContracts Receipts OrsModel.

#[local] Open Scope string_scope.
#[local] Open Scope list_scope.
#[local] Open Scope Z_scope.

Definition ORS_TRANSACTION_BOTTLENECK : CapacityBottleneck := OrsTransactionSlots.
Definition ORS_DURABLE_BYTES_BOTTLENECK : CapacityBottleneck := OrsDurableQueueBytes.

(** [AuthorityEpoch] is a counter. *)
Inductive OrsReserveError : Type :=
| OrInvalidField (field reason : string)
| OrContract (error : string)
| OrNormalCapacityExhausted (bottleneck : CapacityBottleneck) (work_class : NormalWorkClass)
    (operation_id owner : string) (epoch : Z)
| OrProtectedReserveExhausted (bottleneck : CapacityBottleneck)
    (operation : ControlOperationClass) (operation_id owner : string) (epoch : Z).

#[global] Instance OrsReserveError_eq_dec : EqDecision OrsReserveError.
Proof. solve_decision. Defined.

Abbreviation OrR := (result OrsReserveError).

Inductive OrsDimension : Type :=
| TransactionSlots
| DurableQueueBytes.

#[global] Instance OrsDimension_eq_dec : EqDecision OrsDimension.
Proof. solve_decision. Defined.

Definition dimension_bottleneck (d : OrsDimension) : CapacityBottleneck :=
  match d with
  | TransactionSlots => ORS_TRANSACTION_BOTTLENECK
  | DurableQueueBytes => ORS_DURABLE_BYTES_BOTTLENECK
  end.

Inductive OrsPermitOperation : Type :=
| OrsNormal (work : NormalWorkClass)
| OrsProtected (operation : ControlOperationClass).

#[global] Instance OrsPermitOperation_eq_dec : EqDecision OrsPermitOperation.
Proof. solve_decision. Defined.

Definition ors_operation_class (o : OrsPermitOperation) : CapacityClass :=
  match o with
  | OrsNormal _ => NormalWorkload
  | OrsProtected _ => ProtectedControl
  end.

Record OrsReserve : Type := {
  ov_transaction_normal_capacity : Z;
  ov_transaction_protected_capacity : Z;
  ov_durable_normal_capacity_bytes : Z;
  ov_durable_protected_capacity_bytes : Z;
  ov_transaction_normal_in_flight : Z;
  ov_transaction_protected_in_flight : Z;
  ov_durable_normal_in_flight_bytes : Z;
  ov_durable_protected_in_flight_bytes : Z;
  ov_restart_sealed : bool;
}.

#[global] Instance OrsReserve_eq_dec : EqDecision OrsReserve.
Proof. solve_decision. Defined.

Record OrsPermit : Type := {
  op_dimension : OrsDimension;
  op_class : CapacityClass;
  op_amount : Z;
  op_operation : OrsPermitOperation;
  op_operation_id : string;
  op_owner : string;
  op_epoch : Z;
}.

#[global] Instance OrsPermit_eq_dec : EqDecision OrsPermit.
Proof. solve_decision. Defined.

(** The counter of a dimension and a class; every class but
    [NormalWorkload] selects the protected one. *)
Definition ors_in_flight (d : OrsDimension) (c : CapacityClass) (r : OrsReserve) : Z :=
  match d, c with
  | TransactionSlots, NormalWorkload => ov_transaction_normal_in_flight r
  | TransactionSlots, _ => ov_transaction_protected_in_flight r
  | DurableQueueBytes, NormalWorkload => ov_durable_normal_in_flight_bytes r
  | DurableQueueBytes, _ => ov_durable_protected_in_flight_bytes r
  end.

Definition ors_capacity (d : OrsDimension) (c : CapacityClass) (r : OrsReserve) : Z :=
  match d, c with
  | TransactionSlots, NormalWorkload => ov_transaction_normal_capacity r
  | TransactionSlots, _ => ov_transaction_protected_capacity r
  | DurableQueueBytes, NormalWorkload => ov_durable_normal_capacity_bytes r
  | DurableQueueBytes, _ => ov_durable_protected_capacity_bytes r
  end.

Definition set_ors_in_flight (d : OrsDimension) (c : CapacityClass) (z : Z) (r : OrsReserve)
    : OrsReserve :=
  {| ov_transaction_normal_capacity := ov_transaction_normal_capacity r;
     ov_transaction_protected_capacity := ov_transaction_protected_capacity r;
     ov_durable_normal_capacity_bytes := ov_durable_normal_capacity_bytes r;
     ov_durable_protected_capacity_bytes := ov_durable_protected_capacity_bytes r;
     ov_transaction_normal_in_flight :=
       if (d == TransactionSlots) && (c == NormalWorkload) then z
       else ov_transaction_normal_in_flight r;
     ov_transaction_protected_in_flight :=
       if (d == TransactionSlots) && (c != NormalWorkload) then z
       else ov_transaction_protected_in_flight r;
     ov_durable_normal_in_flight_bytes :=
       if (d == DurableQueueBytes) && (c == NormalWorkload) then z
       else ov_durable_normal_in_flight_bytes r;
     ov_durable_protected_in_flight_bytes :=
       if (d == DurableQueueBytes) && (c != NormalWorkload) then z
       else ov_durable_protected_in_flight_bytes r;
     ov_restart_sealed := ov_restart_sealed r |}.

(** The durable byte capacities are [NonZeroU64] arguments. *)
Definition ors_reserve_partitioned (normal_transaction_slots protected_transaction_slots
    normal_durable_bytes protected_durable_bytes : Z) : OrR OrsReserve :=
  check? guard_err (normal_transaction_slots =? 0)
           (OrInvalidField "ors_reserve.normal_transaction_slots" "must be greater than zero");
  check? guard_err (protected_transaction_slots =? 0)
           (OrInvalidField "ors_reserve.protected_transaction_slots" "must be greater than zero");
  Ok {| ov_transaction_normal_capacity := normal_transaction_slots;
        ov_transaction_protected_capacity := protected_transaction_slots;
        ov_durable_normal_capacity_bytes := normal_durable_bytes;
        ov_durable_protected_capacity_bytes := protected_durable_bytes;
        ov_transaction_normal_in_flight := 0; ov_transaction_protected_in_flight := 0;
        ov_durable_normal_in_flight_bytes := 0; ov_durable_protected_in_flight_bytes := 0;
        ov_restart_sealed := false |}.

Definition ors_available (d : OrsDimension) (c : CapacityClass) (r : OrsReserve) : Z :=
  Z.max 0 (ors_capacity d c r - ors_in_flight d c r).

(** One round of the loop of [cas_add] on the value it observes. *)
Definition add_attempt (observed capacity amount : Z) : option Z :=
  match checked_add observed amount with
  | None => None
  | Some next => if capacity <? next then None else Some next
  end.

Definition cas_add (d : OrsDimension) (c : CapacityClass) (amount : Z) (r : OrsReserve)
    : option OrsReserve :=
  match add_attempt (ors_in_flight d c r) (ors_capacity d c r) amount with
  | None => None
  | Some next => Some (set_ors_in_flight d c next r)
  end.

Definition ors_validate_ids (owner operation_id : string) : OrR unit :=
  check? map_err (fun _ => OrInvalidField "ors_permit.owner" "must be non-blank")
           (ors_validate_text owner "ors_permit.owner");
  map_err (fun _ => OrInvalidField "ors_permit.operation_id" "must be non-blank")
    (ors_validate_text operation_id "ors_permit.operation_id").

(** What the four acquisitions share: the identities, the seal, the loop. *)
Definition ors_acquire (d : OrsDimension) (operation : OrsPermitOperation) (amount : Z)
    (owner operation_id : string) (epoch : Z) (exhausted : OrsReserveError)
    : M OrsReserve OrsReserveError OrsPermit :=
  let c := ors_operation_class operation in
  do! mlift (ors_validate_ids owner operation_id);
  let! r := mstate in
  if ov_restart_sealed r then mthrow exhausted
  else match cas_add d c amount r with
       | None => mthrow exhausted
       | Some r' =>
           do! mmodify (fun _ => r');
           mret_ok {| op_dimension := d; op_class := c; op_amount := amount;
                      op_operation := operation; op_operation_id := operation_id;
                      op_owner := owner; op_epoch := epoch |}
       end.

Definition try_acquire_normal_transaction (work : NormalWorkClass) (owner operation_id : string)
    (epoch : Z) : M OrsReserve OrsReserveError OrsPermit :=
  ors_acquire TransactionSlots (OrsNormal work) 1 owner operation_id epoch
    (OrNormalCapacityExhausted ORS_TRANSACTION_BOTTLENECK work operation_id owner epoch).

Definition try_acquire_normal_durable_bytes (work : NormalWorkClass) (owner operation_id : string)
    (bytes epoch : Z) : M OrsReserve OrsReserveError OrsPermit :=
  ors_acquire DurableQueueBytes (OrsNormal work) bytes owner operation_id epoch
    (OrNormalCapacityExhausted ORS_DURABLE_BYTES_BOTTLENECK work operation_id owner epoch).

Definition try_acquire_protected_transaction (operation : ControlOperationClass)
    (owner operation_id : string) (epoch : Z) : M OrsReserve OrsReserveError OrsPermit :=
  ors_acquire TransactionSlots (OrsProtected operation) 1 owner operation_id epoch
    (OrProtectedReserveExhausted ORS_TRANSACTION_BOTTLENECK operation operation_id owner epoch).

Definition try_acquire_protected_durable_bytes (operation : ControlOperationClass)
    (owner operation_id : string) (bytes epoch : Z) : M OrsReserve OrsReserveError OrsPermit :=
  ors_acquire DurableQueueBytes (OrsProtected operation) bytes owner operation_id epoch
    (OrProtectedReserveExhausted ORS_DURABLE_BYTES_BOTTLENECK operation operation_id owner epoch).

(** [slot.fetch_sub(amount)] *)
Definition drop_ors_permit (p : OrsPermit) (r : OrsReserve) : OrsReserve :=
  set_ors_in_flight (op_dimension p) (op_class p)
    (wrap_u64 (ors_in_flight (op_dimension p) (op_class p) r - op_amount p)) r.

(** [slot.fetch_max(capacity)] *)
Definition ors_pin (d : OrsDimension) (c : CapacityClass) (r : OrsReserve) : OrsReserve :=
  set_ors_in_flight d c (Z.max (ors_in_flight d c r) (ors_capacity d c r)) r.

Definition ors_set_sealed (r : OrsReserve) : OrsReserve :=
  {| ov_transaction_normal_capacity := ov_transaction_normal_capacity r;
     ov_transaction_protected_capacity := ov_transaction_protected_capacity r;
     ov_durable_normal_capacity_bytes := ov_durable_normal_capacity_bytes r;
     ov_durable_protected_capacity_bytes := ov_durable_protected_capacity_bytes r;
     ov_transaction_normal_in_flight := ov_transaction_normal_in_flight r;
     ov_transaction_protected_in_flight := ov_transaction_protected_in_flight r;
     ov_durable_normal_in_flight_bytes := ov_durable_normal_in_flight_bytes r;
     ov_durable_protected_in_flight_bytes := ov_durable_protected_in_flight_bytes r;
     ov_restart_sealed := true |}.

Definition ors_seal_after_restart (r : OrsReserve) : OrsReserve :=
  ors_set_sealed
    (ors_pin DurableQueueBytes ProtectedControl
       (ors_pin DurableQueueBytes NormalWorkload
          (ors_pin TransactionSlots ProtectedControl (ors_pin TransactionSlots NormalWorkload r)))).

(** ** The published rows *)

Record OrsOwnerEvidenceContext : Type := {
  ox_owner_generation_ref : string;
  ox_proof_profile_ref : string;
  ox_evidence_refs : list string;
  ox_invalidation_set : list string;
}.

(** The closure [limit] of [owner_capacity_row]. *)
Definition ors_partition_limit (unit : CapacityUnit) (field : string) (amount : Z) : OrR CapacityLimit :=
  let? quantity := ok_or (non_zero amount)
                     (OrInvalidField field "partition capacity must be greater than zero") in
  Ok {| cl_unit := unit; cl_quantity := quantity |}.

Definition owner_capacity_row (bottleneck : CapacityBottleneck)
    (normal_capacity protected_capacity : Z) (ctx : OrsOwnerEvidenceContext)
    : OrR BottleneckCapacityProfile :=
  let? bound :=
    ok_or (List.find (fun bound => ob_bottleneck bound == bottleneck) frozen_bottleneck_owner_map)
      (OrContract ("frozen owner map binds no owner to " +:+ bottleneck_debug bottleneck
                   +:+ "; no ORS row to publish")) in
  let unit := bottleneck_unit bottleneck in
  let? normal_limit := ors_partition_limit unit "ors_reserve.normal_limit" normal_capacity in
  let? protected_limit :=
    ors_partition_limit unit "ors_reserve.protected_limit" protected_capacity in
  let? physical_total :=
    ok_or (checked_add normal_capacity protected_capacity)
      (OrInvalidField "ors_reserve.physical_total_limit"
         "disjoint partition capacities overflow the physical total") in
  let? physical_total_limit :=
    ok_or (non_zero physical_total)
      (OrInvalidField "ors_reserve.physical_total_limit"
         "physical total must be greater than zero") in
  let row :=
    {| bp_bottleneck := bottleneck; bp_coverage_state := CoverageClaimed;
       bp_owner_ref := ob_owner bound; bp_owner_generation_ref := ox_owner_generation_ref ctx;
       bp_unit := unit;
       bp_physical_total_limit := Some {| cl_unit := unit; cl_quantity := physical_total_limit |};
       bp_normal_work_applicable := true; bp_normal_limit := Some normal_limit;
       bp_protected_limit := Some protected_limit; bp_emergency_limit := None;
       bp_enforcement := Some PhysicalPartition;
       bp_proof_profile_ref := ox_proof_profile_ref ctx;
       bp_evidence_refs := ox_evidence_refs ctx;
       bp_invalidation_set := ox_invalidation_set ctx |} in
  check? map_err (fun error => OrContract (runtime_error_text error)) (row_validate row);
  Ok row.

Definition publish_owner_rows (r : OrsReserve) (ctx : OrsOwnerEvidenceContext)
    : OrR (list BottleneckCapacityProfile) :=
  let? transaction :=
    owner_capacity_row ORS_TRANSACTION_BOTTLENECK (ov_transaction_normal_capacity r)
      (ov_transaction_protected_capacity r) ctx in
  let? durable :=
    owner_capacity_row ORS_DURABLE_BYTES_BOTTLENECK (ov_durable_normal_capacity_bytes r)
      (ov_durable_protected_capacity_bytes r) ctx in
  Ok [transaction; durable].
