(* ===== verification/FrontDoorAtomics.v ===== *)
(** * The reserves under concurrency

    The counters of both reserves are atomics that threads change without a
    lock: [cas_increment] of control_reserve_front_door.rs and [cas_add] of
    the recovery store's control_reserve.rs load a counter and exchange it
    for the next value until the exchange succeeds or the partition is full;
    a permit that is dropped subtracts what it holds; a restart seal raises
    each counter to its capacity and then sets a flag.

    [astep] is one atomic access of one thread, and an execution is any
    interleaving of such steps. An exchange may also fail for no reason, as
    [compare_exchange_weak] may. Steps are sequentially consistent; the
    orderings the source asks for are weaker across different variables. *)

From stdpp Require Import functions.
From S2P Require Import Prelude.

#[local] Open Scope Z_scope.

(** ** The interface of a reserve

    What a reserve has to say about its partitions: their capacities, one
    round of the loop on an observed value, the order in which a seal visits
    them, and the amounts a call may ask for. *)

Class CasReserve (Slot : Type) := {
  slot_capacity : Slot -> Z;
  slot_attempt : Slot -> Z -> Z -> option Z;
  slot_order : list Slot;
  slot_amount : Slot -> Z -> Prop;
}.

Class CasLaws (Slot : Type) `{CasReserve Slot} := {
  slot_capacity_u64 s : 0 <= slot_capacity s <= u64_max;
  slot_amount_pos s a : slot_amount s a -> 0 < a;
  slot_attempt_exact s a observed next :
    slot_amount s a -> 0 <= observed <= u64_max ->
    slot_attempt s a observed = Some next <-> next = observed + a /\ next <= slot_capacity s;
}.

(** ** Threads *)

Section Machine.
Context {Slot : Type} `{EqDecision Slot} `{CasReserve Slot}.

(** Where a thread is: outside of a call, before the load of the seal, before
    the load of the counter, in the loop with the value it observed, after
    the loop with the answer, or inside a seal with the partitions left. *)
Inductive Thread : Type :=
| Outside
| BeforeSeal (s : Slot) (a : Z)
| BeforeLoad (s : Slot) (a : Z)
| InLoop (s : Slot) (a observed : Z)
| Answered (s : Slot) (a : Z) (granted : bool)
| Sealing (rest : list Slot).

(** What an execution shows: calls and returns, the moment at which a call
    takes effect, permits given back, the seal. *)
Inductive Label : Type :=
| LCall (t : nat) (s : Slot) (a : Z)
| LPoint (t : nat) (s : Slot) (a : Z) (granted : bool)
| LReturn (t : nat) (granted : bool)
| LDrop (s : Slot) (a : Z)
| LPin (s : Slot)
| LSealed.

Record Config : Type := {
  at_counters : Slot -> Z;
  at_sealed : bool;
  at_threads : nat -> Thread;
  at_held : list (Slot * Z);
}.

Definition set_thread (t : nat) (x : Thread) (c : Config) : Config :=
  {| at_counters := at_counters c; at_sealed := at_sealed c;
     at_threads := <[t := x]> (at_threads c); at_held := at_held c |}.

Definition set_counter (s : Slot) (z : Z) (c : Config) : Config :=
  {| at_counters := <[s := z]> (at_counters c); at_sealed := at_sealed c;
     at_threads := at_threads c; at_held := at_held c |}.

Definition set_held (l : list (Slot * Z)) (c : Config) : Config :=
  {| at_counters := at_counters c; at_sealed := at_sealed c; at_threads := at_threads c;
     at_held := l |}.

Definition set_sealed (c : Config) : Config :=
  {| at_counters := at_counters c; at_sealed := true; at_threads := at_threads c;
     at_held := at_held c |}.

(** A call that has observed a full partition will answer no. *)
Definition denied_at (t : nat) (s : Slot) (a observed : Z) : list Label :=
  match slot_attempt s a observed with
  | None => [LPoint t s a false]
  | Some _ => []
  end.

Inductive astep : Config -> list Label -> Config -> Prop :=
| step_call c t s a :
    at_threads c t = Outside -> slot_amount s a ->
    astep c [LCall t s a] (set_thread t (BeforeSeal s a) c)
| step_sealed c t s a :
    at_threads c t = BeforeSeal s a -> at_sealed c = true ->
    astep c [LPoint t s a false] (set_thread t (Answered s a false) c)
| step_unsealed c t s a :
    at_threads c t = BeforeSeal s a -> at_sealed c = false ->
    astep c [] (set_thread t (BeforeLoad s a) c)
| step_load c t s a :
    at_threads c t = BeforeLoad s a ->
    astep c (denied_at t s a (at_counters c s)) (set_thread t (InLoop s a (at_counters c s)) c)
| step_give_up c t s a observed :
    at_threads c t = InLoop s a observed -> slot_attempt s a observed = None ->
    astep c [] (set_thread t (Answered s a false) c)
| step_exchange c t s a observed next :
    at_threads c t = InLoop s a observed -> slot_attempt s a observed = Some next ->
    at_counters c s = observed ->
    astep c [LPoint t s a true]
      (set_thread t (Answered s a true) (set_held ((s, a) :: at_held c) (set_counter s next c)))
| step_exchange_fails c t s a observed next :
    at_threads c t = InLoop s a observed -> slot_attempt s a observed = Some next ->
    astep c (denied_at t s a (at_counters c s)) (set_thread t (InLoop s a (at_counters c s)) c)
| step_return c t s a granted :
    at_threads c t = Answered s a granted ->
    astep c [LReturn t granted] (set_thread t Outside c)
| step_drop c s a l :
    at_held c ≡ₚ (s, a) :: l ->
    astep c [LDrop s a] (set_held l (set_counter s (wrap_u64 (at_counters c s - a)) c))
| step_seal c t :
    at_threads c t = Outside -> astep c [] (set_thread t (Sealing slot_order) c)
| step_pin c t s rest :
    at_threads c t = Sealing (s :: rest) ->
    astep c [LPin s]
      (set_thread t (Sealing rest)
         (set_counter s (Z.max (at_counters c s) (slot_capacity s)) c))
| step_set_sealed c t :
    at_threads c t = Sealing [] -> astep c [LSealed] (set_thread t Outside (set_sealed c)).

Inductive asteps : Config -> list Label -> Config -> Prop :=
| asteps_refl c : asteps c [] c
| asteps_snoc c tr c' ls c'' : asteps c tr c' -> astep c' ls c'' -> asteps c (tr ++ ls) c''.

(** A new reserve, with every thread outside. *)
Definition at_start : Config :=
  {| at_counters := fun _ => 0; at_sealed := false; at_threads := fun _ => Outside; at_held := [] |}.

(** ** Invariant: what is held is counted, and never above the capacity *)

Definition held_amount (s : Slot) (l : list (Slot * Z)) : Z :=
  sum_list (snd <$> List.filter (fun x => bool_decide (x.1 = s)) l).

Definition is_pin (l : Label) : bool :=
  match l with
  | LPin _ => true
  | _ => false
  end.

Record counted (c : Config) : Prop := {
  ct_permits : Forall (fun x => slot_amount x.1 x.2) (at_held c);
  ct_held s : held_amount s (at_held c) <= at_counters c s;
  ct_capacity s : at_counters c s <= slot_capacity s;
  ct_amounts t s a o : at_threads c t = InLoop s a o -> slot_amount s a /\ 0 <= o <= u64_max;
  ct_amounts' t s a : at_threads c t = BeforeLoad s a \/ at_threads c t = BeforeSeal s a -> slot_amount s a;
}.

Lemma held_amount_cons s x l :
  held_amount s (x :: l) = (if bool_decide (x.1 = s) then x.2 else 0) + held_amount s l.
Proof. unfold held_amount. simpl. by case_bool_decide. Qed.

Lemma held_amount_perm s l l' : l ≡ₚ l' -> held_amount s l = held_amount s l'.
Proof.
  induction 1 as [|x l l' _ IH|x y l|l l' l'' _ IH1 _ IH2]; rewrite ?held_amount_cons; [done|lia|lia|lia].
Qed.

Context `{!CasLaws Slot}.

Lemma held_amount_nonneg s l : Forall (fun x => slot_amount x.1 x.2) l -> 0 <= held_amount s l.
Proof.
  induction 1 as [|x l Hx _ IH]; [done|]. rewrite held_amount_cons. apply slot_amount_pos in Hx.
  case_bool_decide; lia.
Qed.

Lemma counted_u64 c s : counted c -> 0 <= at_counters c s <= u64_max.
Proof.
  intros [Hp Hh Hc _ _]. pose proof (held_amount_nonneg s _ Hp). specialize (Hh s). specialize (Hc s).
  pose proof (slot_capacity_u64 s). lia.
Qed.

Lemma counted_start : counted at_start.
Proof.
  split; simpl; [constructor|done| |by intros ???? [=]|by intros ??? [[=]|[=]]].
  intros s. pose proof (slot_capacity_u64 s). lia.
Qed.

(** Setting a thread keeps the counting part of the invariant. *)
Lemma counted_thread c t x :
  counted c ->
  (forall s a o, x = InLoop s a o -> slot_amount s a /\ 0 <= o <= u64_max) ->
  (forall s a, x = BeforeLoad s a \/ x = BeforeSeal s a -> slot_amount s a) ->
  counted (set_thread t x c).
Proof.
  intros [H1 H2 H3 H4 H5] Hx1 Hx2. split; simpl; [done..| |].
  - intros t' s a o Ht. destruct (decide (t = t')) as [<-|Hne].
    + rewrite fn_lookup_insert in Ht. by apply Hx1.
    + rewrite fn_lookup_insert_ne in Ht by done. by eapply H4.
  - intros t' s a Ht. destruct (decide (t = t')) as [<-|Hne].
    + rewrite fn_lookup_insert in Ht. by apply Hx2.
    + rewrite fn_lookup_insert_ne in Ht by done. by eapply H5.
Qed.

Lemma counted_memory c s z l :
  counted c -> Forall (fun x => slot_amount x.1 x.2) l -> z <= slot_capacity s -> held_amount s l <= z ->
  (forall s', s' <> s -> held_amount s' l = held_amount s' (at_held c)) ->
  counted (set_held l (set_counter s z c)).
Proof.
  intros [H1 H2 H3 H4 H5] Hl Hz Hs Hs'. split; simpl; [done| | |done|done]; intros s'.
  - destruct (decide (s = s')) as [<-|Hne]; [by rewrite fn_lookup_insert|].
    rewrite fn_lookup_insert_ne, Hs' by done. apply H2.
  - destruct (decide (s = s')) as [<-|Hne]; [by rewrite fn_lookup_insert|].
    rewrite fn_lookup_insert_ne by done. apply H3.
Qed.

(** A dropped permit was counted, so the subtraction does not wrap. *)
Lemma drop_no_wrap c s a l :
  counted c -> at_held c ≡ₚ (s, a) :: l ->
  slot_amount s a /\ Forall (fun x => slot_amount x.1 x.2) l /\
  held_amount s (at_held c) = a + held_amount s l /\
  wrap_u64 (at_counters c s - a) = at_counters c s - a /\ held_amount s l <= at_counters c s - a.
Proof.
  intros Hc Hp. pose proof (ct_permits _ Hc) as Hpos. rewrite Hp in Hpos.
  apply Forall_cons in Hpos as [Ha Hl]. simpl in Ha. pose proof (slot_amount_pos _ _ Ha).
  pose proof (ct_held _ Hc s) as Hh. rewrite (held_amount_perm s _ _ Hp), held_amount_cons in Hh |- *.
  simpl in *. rewrite bool_decide_eq_true_2 in * by done.
  pose proof (held_amount_nonneg s _ Hl). pose proof (counted_u64 _ s Hc).
  split_and!; [done|done|lia|apply wrap_u64_small; unfold is_u64; lia|lia].
Qed.

Lemma exchange_room c t s a next :
  counted c -> at_threads c t = InLoop s a (at_counters c s) ->
  slot_attempt s a (at_counters c s) = Some next ->
  slot_amount s a /\ next = at_counters c s + a /\ next <= slot_capacity s.
Proof.
  intros Hc Ht Ha. destruct (ct_amounts _ Hc _ _ _ _ Ht) as [Hok Ho].
  by apply (slot_attempt_exact s a _ _ Hok Ho) in Ha as [-> Hle].
Qed.

Lemma counted_step c ls c' : counted c -> astep c ls c' -> counted c'.
Proof.
  intros Hc Hs. pose proof (counted_u64 c) as Hu.
  destruct Hs as [c t s a Ht Ha|c t s a Ht _|c t s a Ht _|c t s a Ht|c t s a o Ht _|c t s a o next Ht Ha Ho
                 |c t s a o next Ht Ha|c t s a g Ht|c s a l Hp|c t Ht|c t s rest Ht|c t Ht].
  - apply counted_thread; [done|by intros ??? [=]|]. intros s' a' [[=]|[= <- <-]]. done.
  - apply counted_thread; [done|by intros ??? [=]|by intros ?? [[=]|[=]]].
  - apply counted_thread; [done|by intros ??? [=]|]. intros s' a' [[= <- <-]|?]; [|done].
    eapply ct_amounts'; [done|]. by right.
  - apply counted_thread; [done| |by intros ?? [[=]|[=]]]. intros s' a' o' [= <- <- <-]. split; [|by apply Hu].
    eapply ct_amounts'; [done|]. by left.
  - apply counted_thread; [done|by intros ??? [=]|by intros ?? [[=]|[=]]].
  - subst o. destruct (exchange_room _ _ _ _ _ Hc Ht Ha) as (Hpos & -> & Hle).
    apply counted_thread; [|by intros ??? [=]|by intros ?? [[=]|[=]]]. apply counted_memory; [done| |done| |].
    + constructor; [done|apply Hc].
    + rewrite held_amount_cons. simpl. rewrite bool_decide_eq_true_2 by done. pose proof (ct_held _ Hc s). lia.
    + intros s' Hne. rewrite held_amount_cons. simpl. rewrite bool_decide_eq_false_2 by done. lia.
  - apply counted_thread; [done| |by intros ?? [[=]|[=]]]. intros s' a' o' [= <- <- <-]. split; [|by apply Hu].
    by eapply ct_amounts.
  - apply counted_thread; [done|by intros ??? [=]|by intros ?? [[=]|[=]]].
  - destruct (drop_no_wrap _ _ _ _ Hc Hp) as (Hpos & Hl & Hheld & -> & Hle).
    apply counted_memory; [done|done| |done|].
    + pose proof (ct_capacity _ Hc s). pose proof (slot_amount_pos _ _ Hpos). lia.
    + intros s' Hne. rewrite (held_amount_perm s' _ _ Hp), held_amount_cons. simpl.
      rewrite bool_decide_eq_false_2 by done. lia.
  - apply counted_thread; [done|by intros ??? [=]|by intros ?? [[=]|[=]]].
  - apply counted_thread; [|by intros ??? [=]|by intros ?? [[=]|[=]]].
    pose proof (counted_memory c s (Z.max (at_counters c s) (slot_capacity s)) (at_held c) Hc
                  (ct_permits _ Hc)) as Hm.
    pose proof (ct_capacity _ Hc s). pose proof (ct_held _ Hc s).
    specialize (Hm ltac:(lia) ltac:(lia) ltac:(done)). by destruct Hm.
  - apply counted_thread; [|by intros ??? [=]|by intros ?? [[=]|[=]]]. by destruct Hc.
Qed.

Lemma counted_steps c tr c' : asteps c tr c' -> counted c -> counted c'.
Proof. induction 1 as [|c tr c' ls c'' _ IH Hs]; [done|]. intros Hc. eapply counted_step; [by apply IH|done]. Qed.

(** Without a seal nothing but the held permits is counted. *)
Lemma counted_exactly c tr c' :
  asteps c tr c' -> counted c -> (forall s, at_counters c s = held_amount s (at_held c)) ->
  existsb is_pin tr = false -> forall s, at_counters c' s = held_amount s (at_held c').
Proof.
  intros Hr Hc Heq. induction Hr as [|c tr c' ls c'' Hr IH Hs]; [done|]. intros Hpin s.
  rewrite existsb_app in Hpin. apply orb_false_iff in Hpin as [Hpin Hls].
  pose proof (counted_steps _ _ _ Hr Hc) as Hc'. specialize (IH Hc Heq Hpin).
  destruct Hs as [c' t s' a Ht Ha|c' t s' a Ht _|c' t s' a Ht _|c' t s' a Ht|c' t s' a o Ht _|c' t s' a o next Ht Ha Ho
                 |c' t s' a o next Ht Ha|c' t s' a g Ht|c' s' a l Hp|c' t Ht|c' t s' rest Ht|c' t Ht];
    simpl; try apply IH.
  - subst o. destruct (exchange_room _ _ _ _ _ Hc' Ht Ha) as (_ & -> & _). rewrite held_amount_cons. simpl.
    destruct (decide (s' = s)) as [->|Hne].
    + rewrite fn_lookup_insert, bool_decide_eq_true_2 by done. rewrite IH. lia.
    + rewrite fn_lookup_insert_ne, bool_decide_eq_false_2 by done. by rewrite IH.
  - destruct (drop_no_wrap _ _ _ _ Hc' Hp) as (_ & _ & Hheld & -> & _).
    destruct (decide (s' = s)) as [->|Hne].
    + rewrite fn_lookup_insert, IH. lia.
    + rewrite fn_lookup_insert_ne by done. rewrite IH, (held_amount_perm s _ _ Hp), held_amount_cons.
      simpl. rewrite bool_decide_eq_false_2 by done. lia.
  - done.
Qed.

(** ** Each call takes effect once, between its begin and its return *)

Inductive Phase : Type :=
| PhaseOut
| PhaseIn (s : Slot) (a : Z)
| PhaseDone (s : Slot) (a : Z) (granted : bool).

Definition phase_of (x : Thread) : Phase :=
  match x with
  | Outside | Sealing _ => PhaseOut
  | BeforeSeal s a | BeforeLoad s a => PhaseIn s a
  | InLoop s a observed =>
      match slot_attempt s a observed with
      | None => PhaseDone s a false
      | Some _ => PhaseIn s a
      end
  | Answered s a granted => PhaseDone s a granted
  end.

(** The labels of thread [t] are calls, points and returns in that order, and
    the return gives the answer of the point. *)
Definition phase_step (t : nat) (p : Phase) (l : Label) : option Phase :=
  match l with
  | LCall t' s a =>
      if bool_decide (t' = t)
      then match p with PhaseOut => Some (PhaseIn s a) | _ => None end
      else Some p
  | LPoint t' s a granted =>
      if bool_decide (t' = t)
      then match p with
           | PhaseIn s' a' =>
               if bool_decide (s = s' /\ a = a') then Some (PhaseDone s a granted) else None
           | _ => None
           end
      else Some p
  | LReturn t' granted =>
      if bool_decide (t' = t)
      then match p with
           | PhaseDone s a granted' => if bool_decide (granted = granted') then Some PhaseOut else None
           | _ => None
           end
      else Some p
  | LDrop _ _ | LPin _ | LSealed => Some p
  end.

Fixpoint phases (t : nat) (p : Phase) (tr : list Label) : option Phase :=
  match tr with
  | [] => Some p
  | l :: tr' => p' ← phase_step t p l; phases t p' tr'
  end.

Lemma phases_app t tr1 : forall p tr2,
  phases t p (tr1 ++ tr2) = (p' ← phases t p tr1; phases t p' tr2).
Proof. induction tr1 as [|l tr1 IH]; intros p tr2; simpl; [done|].
  destruct (phase_step t p l); simpl; [apply IH|done]. Qed.

Lemma phase_set_thread c t t' x :
  at_threads (set_thread t' x c) t = if bool_decide (t' = t) then x else at_threads c t.
Proof.
  simpl. case_bool_decide as E; [subst; by rewrite fn_lookup_insert|by rewrite fn_lookup_insert_ne].
Qed.

Lemma denied_at_phase t t' s a o p :
  phases t p (denied_at t' s a o) =
  if bool_decide (t' = t) then
    match slot_attempt s a o with
    | None => match p with
              | PhaseIn s' a' => if bool_decide (s = s' /\ a = a') then Some (PhaseDone s a false) else None
              | _ => None
              end
    | Some _ => Some p
    end
  else Some p.
Proof.
  unfold denied_at. destruct (slot_attempt s a o); simpl; destruct (bool_decide (t' = t)); try done.
  destruct p as [|s' a'|]; try done. simpl. by destruct (bool_decide (s = s' /\ a = a')).
Qed.

Lemma phase_astep c ls c' t :
  astep c ls c' -> phases t (phase_of (at_threads c t)) ls = Some (phase_of (at_threads c' t)).
Proof.
  intros Hs. destruct Hs; rewrite ?phase_set_thread, ?denied_at_phase; simpl; try done;
    repeat case_bool_decide; subst; simpl;
    repeat match goal with E : at_threads ?c ?t = _ |- _ => rewrite E; clear E end; simpl; try done.
  - by rewrite bool_decide_eq_true_2.
  - destruct (slot_attempt s a (at_counters c s)) eqn:E; [done|]. by rewrite bool_decide_eq_true_2.
  - match goal with E : slot_attempt _ _ _ = None |- _ => by rewrite E end.
  - match goal with E : slot_attempt _ _ _ = Some _ |- _ => rewrite E end.
    by rewrite bool_decide_eq_true_2.
  - match goal with E : slot_attempt _ _ ?o = Some _ |- _ => rewrite E end.
    destruct (slot_attempt s a (at_counters c s)) eqn:E'; [done|]. by rewrite bool_decide_eq_true_2.
  - by rewrite bool_decide_eq_true_2.
Qed.

Lemma phases_asteps c tr c' t :
  asteps c tr c' -> phases t (phase_of (at_threads c t)) tr = Some (phase_of (at_threads c' t)).
Proof.
  induction 1 as [|c tr c' ls c'' _ IH Hs]; [done|]. rewrite phases_app, IH. simpl. by apply phase_astep.
Qed.

(** ** The points form a run of the reserve that is not shared *)

(** A reserve whose calls run alone. *)
Class SeqReserve (R : Type) := {
  seq_counter : Slot -> R -> Z;
  seq_acquire : Slot -> Z -> R -> option R;
  seq_drop : Slot -> Z -> R -> R;
  seq_pin : Slot -> R -> R;
  seq_ok : R -> Prop;
}.

Class SeqLaws (R : Type) `{SeqReserve R} := {
  seq_acquire_exact s a r :
    seq_ok r -> slot_amount s a ->
    match slot_attempt s a (seq_counter s r) with
    | None => seq_acquire s a r = None
    | Some next => exists r', seq_acquire s a r = Some r' /\ seq_ok r' /\
        (forall s', seq_counter s' r' = if bool_decide (s' = s) then next else seq_counter s' r)
    end;
  seq_drop_exact s a r :
    seq_ok r -> slot_amount s a ->
    seq_ok (seq_drop s a r) /\
    (forall s', seq_counter s' (seq_drop s a r) =
                if bool_decide (s' = s) then wrap_u64 (seq_counter s r - a) else seq_counter s' r);
  seq_pin_exact s r :
    seq_ok r ->
    seq_ok (seq_pin s r) /\
    (forall s', seq_counter s' (seq_pin s r) =
                if bool_decide (s' = s) then Z.max (seq_counter s r) (slot_capacity s)
                else seq_counter s' r);
}.

Section Replay.
Context {R : Type} `{SeqLaws R}.

(** The effects of the labels, one call after the other: a point answered
    with yes is an acquisition that succeeds, one answered with no an
    acquisition that fails. *)
Definition replay_label (r : R) (l : Label) : option R :=
  match l with
  | LPoint _ s a granted =>
      match seq_acquire s a r, granted with
      | Some r', true => Some r'
      | None, false => Some r
      | _, _ => None
      end
  | LDrop s a => Some (seq_drop s a r)
  | LPin s => Some (seq_pin s r)
  | LCall _ _ _ | LReturn _ _ | LSealed => Some r
  end.

Fixpoint replay (r : R) (tr : list Label) : option R :=
  match tr with
  | [] => Some r
  | l :: tr' => r' ← replay_label r l; replay r' tr'
  end.

Lemma replay_app tr1 : forall r tr2, replay r (tr1 ++ tr2) = (r' ← replay r tr1; replay r' tr2).
Proof. induction tr1 as [|l tr1 IH]; intros r tr2; simpl; [done|].
  destruct (replay_label r l); simpl; [apply IH|done]. Qed.

Definition agrees (c : Config) (r : R) : Prop :=
  seq_ok r /\ forall s, seq_counter s r = at_counters c s.

Lemma replay_denied c r t s a :
  agrees c r -> slot_amount s a -> replay r (denied_at t s a (at_counters c s)) = Some r.
Proof.
  intros [Hok Hr] Ha. unfold denied_at. pose proof (seq_acquire_exact s a r Hok Ha) as He.
  rewrite Hr in He. destruct (slot_attempt s a (at_counters c s)); simpl; [done|]. by rewrite He.
Qed.

Lemma replay_astep c ls c' r :
  counted c -> at_sealed c = false -> agrees c r -> astep c ls c' ->
  exists r', replay r ls = Some r' /\ agrees c' r'.
Proof.
  intros Hc Hsealed Ha Hs. destruct Hs as
    [c t s a Ht Hok|c t s a Ht Hf|c t s a Ht _|c t s a Ht|c t s a o Ht Hn|c t s a o next Ht Hn Ho
    |c t s a o next Ht Hn|c t s a g Ht|c s a l Hp|c t Ht|c t s rest Ht|c t Ht];
    try (exists r; split; [done|exact Ha]).
  - congruence.
  - exists r. split; [|exact Ha]. apply replay_denied; [done|]. eapply ct_amounts'; [done|]. by left.
  - subst o. destruct (ct_amounts _ Hc _ _ _ _ Ht) as [Hok _]. destruct Ha as [Hrok Hr].
    pose proof (seq_acquire_exact s a r Hrok Hok) as He. rewrite Hr, Hn in He.
    destruct He as (r' & Hacq & Hok' & Hctr). exists r'. simpl. rewrite Hacq. split; [done|]. split; [done|].
    intros s'. simpl. rewrite Hctr. case_bool_decide as E; [subst; by rewrite fn_lookup_insert|].
    by rewrite fn_lookup_insert_ne.
  - exists r. split; [|exact Ha]. apply replay_denied; [done|]. by eapply ct_amounts.
  - destruct (drop_no_wrap _ _ _ _ Hc Hp) as (Hpos & _). destruct Ha as [Hrok Hr].
    destruct (seq_drop_exact s a r Hrok Hpos) as [Hok' Hctr]. exists (seq_drop s a r). split; [done|].
    split; [done|]. intros s'. simpl. rewrite Hctr.
    case_bool_decide as E; [subst; by rewrite fn_lookup_insert, Hr|by rewrite fn_lookup_insert_ne].
  - destruct Ha as [Hrok Hr]. destruct (seq_pin_exact s r Hrok) as [Hok' Hctr]. exists (seq_pin s r).
    split; [done|]. split; [done|]. intros s'. simpl. rewrite Hctr.
    case_bool_decide as E; [subst; by rewrite fn_lookup_insert, Hr|by rewrite fn_lookup_insert_ne].
Qed.

Lemma unsealed_asteps c tr c' :
  asteps c tr c' -> LSealed ∉ tr -> at_sealed c = false -> at_sealed c' = false.
Proof.
  induction 1 as [|c tr c' ls c'' _ IH Hs]; [done|]. rewrite not_elem_of_app. intros [Htr Hls] Hc.
  specialize (IH Htr Hc). destruct Hs; simpl; try done. set_solver.
Qed.

(** An execution without a seal has the effects of its points. *)
Lemma replay_asteps c tr c' r :
  asteps c tr c' -> counted c -> at_sealed c = false -> agrees c r -> LSealed ∉ tr ->
  exists r', replay r tr = Some r' /\ agrees c' r'.
Proof.
  induction 1 as [|c tr c' ls c'' Hr IH Hs]; intros Hc Hsealed Ha Hno; [by exists r|].
  apply not_elem_of_app in Hno as [Htr _]. destruct (IH Hc Hsealed Ha Htr) as (r' & Hrep & Ha').
  destruct (replay_astep c' ls c'' r') as (r'' & Hrep' & Ha''); [by eapply counted_steps| |done|done|].
  { by eapply unsealed_asteps. }
  exists r''. rewrite replay_app, Hrep. done.
Qed.
End Replay.

(** ** A sealed reserve admits nothing that starts later *)

Lemma sealed_stays c tr c' : asteps c tr c' -> at_sealed c = true -> at_sealed c' = true.
Proof. induction 1 as [|c tr c' ls c'' _ IH Hs]; [done|]. intros Hc. specialize (IH Hc). by destruct Hs. Qed.

(** A thread that is outside of a call, or before its load of the seal, or
    already refused. *)
Definition not_admitted (x : Thread) : Prop :=
  match x with
  | Outside | BeforeSeal _ _ | Answered _ _ false | Sealing _ => True
  | _ => False
  end.

Lemma not_admitted_step c ls c' t :
  astep c ls c' -> at_sealed c = true -> not_admitted (at_threads c t) ->
  not_admitted (at_threads c' t) /\ forall s a, LPoint t s a true ∉ ls.
Proof.
  intros Hs Hsealed Hn. assert (Hden : forall t' s a o s' a', LPoint t s' a' true ∉ denied_at t' s a o).
  { intros t' s a o s' a'. unfold denied_at. destruct (slot_attempt s a o); set_solver. }
  destruct Hs; rewrite ?phase_set_thread; (split; [|try set_solver]); simpl;
    try case_bool_decide; subst; simpl in *; try done; try congruence;
    repeat match goal with E : at_threads _ _ = _ |- _ => rewrite E in Hn; clear E end; simpl in Hn; try done.
  intros s' a' Hin. apply list_elem_of_singleton in Hin as [= <- <- <-].
  match goal with E : at_threads _ _ = _ |- _ => by rewrite E in Hn end.
Qed.

Lemma not_admitted_steps c tr c' t :
  asteps c tr c' -> at_sealed c = true -> not_admitted (at_threads c t) ->
  not_admitted (at_threads c' t) /\ forall s a, LPoint t s a true ∉ tr.
Proof.
  induction 1 as [|c tr c' ls c'' Hr IH Hs]; intros Hc Hn; [split; [done|set_solver]|].
  destruct (IH Hc Hn) as [Hn' Hno].
  destruct (not_admitted_step _ _ _ t Hs (sealed_stays _ _ _ Hr Hc) Hn') as [Hn'' Hno'].
  split; [done|]. intros s a. rewrite not_elem_of_app. auto.
Qed.
End Machine.
