(* ===== verification/FrontDoorLaws.v ===== *)
(** * The two reserves when threads share them

    The front door's reserve and the recovery store's reserve are instances
    of the machine of FrontDoorAtomics.v: what holds there of every
    interleaving holds of both, and the sequential calls of FrontDoor.v and
    OrsReserve.v are what the interleaved ones amount to. Every call takes
    effect at one moment between its begin and its return, as the sequential
    call would then, and no interleaving lets more be held than a partition
    has. *)

From Stdlib Require Import String.
From S2P Require Import Prelude RustText Contracts RuntimeErrors CapacityContracts Kernel Receipts.
From S2P Require Import AuthorityReceipts FrontDoor OrsModel OrsReserve FrontDoorAtomics.

#[local] Open Scope string_scope.
#[local] Open Scope list_scope.
#[local] Open Scope Z_scope.

(** ** The front door *)

Section FrontDoorReserve.
Lemma in_flight_set c c' z r :
  in_flight c' (set_in_flight c z r) = if bool_decide (c' = c) then z else in_flight c' r.
Proof. by destruct c, c'. Qed.

Lemma capacity_of_set c c' z r : capacity_of c' (set_in_flight c z r) = capacity_of c' r.
Proof. by destruct c'. Qed.

Lemma reserve_partitioned_ok n p r :
  reserve_partitioned n p = Ok r <->
  n <> 0 /\ p <> 0 /\
  r = {| cr_normal_capacity := n; cr_protected_capacity := p; cr_emergency_capacity := 1;
         cr_normal_in_flight := 0; cr_protected_in_flight := 0; cr_emergency_in_flight := 0;
         cr_restart_sealed := false; cr_sealed_epoch := None; cr_permit_sequence := 0 |}.
Proof. unfold reserve_partitioned. rewrite !check_guard_ok, !Z.eqb_neq. naive_solver. Qed.

(** A permit of a class; what is returned depends on nothing else. *)
Definition permit_of_class (c : CapacityClass) (epoch : EpochId) : ControlPermit :=
  new_permit c LegacyControl "" "" epoch.

Lemma drop_permit_class p r :
  pm_held p = true ->
  drop_permit p r = set_in_flight (pm_class p) (wrap_u64 (in_flight (pm_class p) r - 1)) r.
Proof. unfold drop_permit, take_slot. by intros ->. Qed.

(** [release] gives the slot back exactly once. *)
Lemma release_permit_once p r :
  (release_permit p r).1 = drop_permit p r /\ matches_permit (release_permit p r).2 p = true.
Proof.
  unfold release_permit, drop_permit, take_slot, matches_permit.
  destruct (pm_held p) eqn:Hh; simpl; rewrite ?Hh; simpl; split; try done;
    by rewrite !bool_decide_eq_true_2.
Qed.

Context (r0 : ControlReserve).

Definition front_door_cas : CasReserve CapacityClass :=
  {| slot_capacity c := capacity_of c r0;
     slot_attempt c a observed := increment_attempt observed (capacity_of c r0);
     slot_order := [NormalWorkload; ProtectedControl; EmergencyLastResort];
     slot_amount c a := a = 1 |}.

#[local] Existing Instance front_door_cas.

Definition front_door_seq (epoch : EpochId) : SeqReserve (Slot := CapacityClass) ControlReserve :=
  {| seq_counter := in_flight;
     seq_acquire c _ r := cas_increment c r;
     seq_drop c _ r := drop_permit (permit_of_class c epoch) r;
     seq_pin := pin;
     seq_ok r := forall c, capacity_of c r = capacity_of c r0 |}.

Lemma front_door_cas_laws :
  (forall c, 0 <= capacity_of c r0 <= u64_max) -> CasLaws CapacityClass.
Proof.
  intros Hcap. split; [exact Hcap|by intros s a ->|].
  intros s a o n -> Ho. simpl. unfold increment_attempt.
  destruct (capacity_of s r0 <=? o) eqn:E; [|naive_solver lia].
  split; [done|]. intros [-> Hle]. lia.
Qed.

Lemma front_door_seq_laws epoch :
  @SeqLaws CapacityClass _ front_door_cas ControlReserve (front_door_seq epoch).
Proof.
  split; simpl.
  - intros c a r Hok ->. unfold cas_increment. rewrite Hok.
    destruct (increment_attempt _ _) as [next|]; [|done]. eexists. split; [done|]. split.
    + intros c'. by rewrite capacity_of_set.
    + intros c'. apply in_flight_set.
  - intros c a r Hok ->. rewrite drop_permit_class by done. split.
    + intros c'. by rewrite capacity_of_set.
    + intros c'. apply in_flight_set.
  - intros c r Hok. unfold pin. split.
    + intros c'. by rewrite capacity_of_set.
    + intros c'. rewrite in_flight_set. by rewrite Hok.
Qed.
End FrontDoorReserve.

(** ** The recovery store *)

(** The four counters. *)
Inductive OrsPartition : Type :=
| TransactionNormal
| TransactionProtected
| DurableNormal
| DurableProtected.

#[global] Instance OrsPartition_eq_dec : EqDecision OrsPartition.
Proof. solve_decision. Defined.

Definition partition_dimension (p : OrsPartition) : OrsDimension :=
  match p with
  | TransactionNormal | TransactionProtected => TransactionSlots
  | DurableNormal | DurableProtected => DurableQueueBytes
  end.

Definition partition_class (p : OrsPartition) : CapacityClass :=
  match p with
  | TransactionNormal | DurableNormal => NormalWorkload
  | TransactionProtected | DurableProtected => ProtectedControl
  end.

Section OrsReserve.
Abbreviation counter p r := (ors_in_flight (partition_dimension p) (partition_class p) r).
Abbreviation limit p r := (ors_capacity (partition_dimension p) (partition_class p) r).

Lemma ors_in_flight_set p p' z r :
  counter p' (set_ors_in_flight (partition_dimension p) (partition_class p) z r)
  = if bool_decide (p' = p) then z else counter p' r.
Proof. by destruct p, p'. Qed.

Lemma ors_capacity_set p p' z r :
  limit p' (set_ors_in_flight (partition_dimension p) (partition_class p) z r) = limit p' r.
Proof. by destruct p'. Qed.

(** A permit of a partition; what is returned depends on nothing else. *)
Definition permit_of_partition (p : OrsPartition) (a : Z) : OrsPermit :=
  {| op_dimension := partition_dimension p; op_class := partition_class p; op_amount := a;
     op_operation := OrsNormal Interactive; op_operation_id := ""; op_owner := ""; op_epoch := 0 |}.

Context (r0 : OrsReserve).

Definition ors_cas : CasReserve OrsPartition :=
  {| slot_capacity p := limit p r0;
     slot_attempt p a observed := add_attempt observed (limit p r0) a;
     slot_order := [TransactionNormal; TransactionProtected; DurableNormal; DurableProtected];
     slot_amount p a := 0 < a <= u64_max |}.

#[local] Existing Instance ors_cas.

Definition ors_seq : SeqReserve (Slot := OrsPartition) OrsReserve :=
  {| seq_counter p r := counter p r;
     seq_acquire p a r := cas_add (partition_dimension p) (partition_class p) a r;
     seq_drop p a r := drop_ors_permit (permit_of_partition p a) r;
     seq_pin p r := ors_pin (partition_dimension p) (partition_class p) r;
     seq_ok r := forall p, limit p r = limit p r0 |}.

Lemma ors_cas_laws : (forall p, 0 <= limit p r0 <= u64_max) -> CasLaws OrsPartition.
Proof.
  intros Hcap. split; [exact Hcap|by intros s a [? ?]|].
  intros p a o n Ha Ho. simpl. unfold add_attempt. specialize (Hcap p).
  destruct (checked_add o a) as [next|] eqn:E.
  - apply checked_add_some in E as [-> E]. destruct (_ <? _) eqn:Hlt.
    + split; [done|]. intros [-> Hle]. simpl in *. lia.
    + split; [intros [= <-]; simpl in *; lia|]. intros [-> _]. done.
  - split; [done|]. intros [-> Hle]. exfalso.
    assert (checked_add o a = Some (o + a)) by (apply checked_add_some; simpl in *; lia). congruence.
Qed.

Lemma ors_seq_laws : @SeqLaws OrsPartition _ ors_cas OrsReserve ors_seq.
Proof.
  split; simpl.
  - intros p a r Hok Ha. unfold cas_add. rewrite Hok.
    destruct (add_attempt _ _ _) as [next|]; [|done]. eexists. split; [done|]. split.
    + intros p'. by rewrite ors_capacity_set.
    + intros p'. apply ors_in_flight_set.
  - intros p a r Hok Ha. unfold drop_ors_permit. simpl. split.
    + intros p'. by rewrite ors_capacity_set.
    + intros p'. apply ors_in_flight_set.
  - intros p r Hok. unfold ors_pin. split.
    + intros p'. by rewrite ors_capacity_set.
    + intros p'. rewrite ors_in_flight_set. by rewrite Hok.
Qed.
End OrsReserve.

(** ** What holds in every interleaving *)

Section SharedFrontDoor.
Context (n p : Z) (r0 : ControlReserve).
#[local] Instance shared_front_door : CasReserve CapacityClass := front_door_cas r0.

Lemma shared_front_door_laws :
  is_u64 n -> is_u64 p -> reserve_partitioned n p = Ok r0 -> CasLaws CapacityClass.
Proof.
  intros Hn Hp Hr. apply front_door_cas_laws. apply reserve_partitioned_ok in Hr as (_ & _ & ->).
  unfold is_u64 in *. pose proof u64_max_val. intros []; simpl; lia.
Qed.

(** C12. The lock-free acquisition of the front door. In every interleaving of
    the atomic accesses of any number of threads that acquire permits, give
    them back and seal the reserve for a restart, also when exchanges fail for
    no reason, each acquisition takes effect once, between its call and its
    return and with the answer it returns, and what is held of a partition is
    never more than its counter, nor the counter more than the capacity. Until
    the seal flag is set, also while a seal is raising the counters, the
    effects in that order are those of the reserve called by one thread at a
    time, which ends with the same counters. While no seal has raised a
    counter, the counters are exactly the permits held. Once the flag is set,
    no acquisition that begins afterwards is granted. *)
Theorem front_door_linearizable epoch tr c :
  is_u64 n -> is_u64 p -> reserve_partitioned n p = Ok r0 -> asteps at_start tr c ->
  (forall t, phases t PhaseOut tr = Some (phase_of (at_threads c t))) /\
  (forall cls, 0 <= held_amount cls (at_held c) <= at_counters c cls /\
               at_counters c cls <= capacity_of cls r0) /\
  (LSealed ∉ tr ->
     exists r, @replay _ _ (front_door_seq r0 epoch) r0 tr = Some r /\
               forall cls, in_flight cls r = at_counters c cls) /\
  (existsb is_pin tr = false -> forall cls, at_counters c cls = held_amount cls (at_held c)) /\
  (at_sealed c = true -> forall t tr' c', at_threads c t = Outside -> asteps c tr' c' ->
     forall s a, LPoint t s a true ∉ tr').
Proof.
  intros Hn Hp Hr Hs. pose proof (shared_front_door_laws Hn Hp Hr) as Hlaws.
  pose proof (counted_steps _ _ _ Hs counted_start) as Hc. split_and!.
  - intros t. by apply (phases_asteps _ _ _ t) in Hs.
  - intros cls. split; [split; [apply held_amount_nonneg, Hc|apply (ct_held _ Hc)]|].
    apply (ct_capacity _ Hc cls).
  - intros Hno. pose proof (front_door_seq_laws r0 epoch) as Hseq.
    destruct (@replay_asteps _ _ _ Hlaws _ _ Hseq at_start tr c r0 Hs counted_start)
      as (r & Hrep & _ & Hctr); [done| |done|by exists r].
    apply reserve_partitioned_ok in Hr as (_ & _ & ->). by split; [|intros []].
  - intros Hpin cls. by apply (counted_exactly _ _ _ Hs counted_start).
  - intros Hsealed t tr' c' Ht Hs'. by apply (not_admitted_steps _ _ _ t Hs' Hsealed); rewrite Ht.
Qed.
End SharedFrontDoor.

Section SharedOrsReserve.
Context (tn tp dn dp : Z) (r0 : OrsReserve).
#[local] Instance shared_ors : CasReserve OrsPartition := ors_cas r0.

Lemma shared_ors_laws :
  Forall is_u64 [tn; tp; dn; dp] -> ors_reserve_partitioned tn tp dn dp = Ok r0 -> CasLaws OrsPartition.
Proof.
  intros Hu Hr. apply ors_cas_laws. unfold ors_reserve_partitioned in Hr.
  rewrite !check_guard_ok in Hr. destruct Hr as (_ & _ & [= <-]).
  repeat match goal with H : Forall _ (_ :: _) |- _ => apply Forall_cons in H as [? H] end.
  unfold is_u64 in *. by intros [].
Qed.

(** C13. Whatever threads do with the reserve of the recovery store, restart
    seals in the middle of acquisitions included, what is held of a partition
    is never more than its counter and its counter never more than its
    capacity, so no counter wraps when a permit is given back; and once the
    seal is set, no acquisition that begins afterwards is granted. *)
Theorem ors_reserve_never_overcommits tr c :
  Forall is_u64 [tn; tp; dn; dp] -> ors_reserve_partitioned tn tp dn dp = Ok r0 ->
  asteps at_start tr c ->
  (forall part, 0 <= held_amount part (at_held c) <= at_counters c part /\
     at_counters c part <= ors_capacity (partition_dimension part) (partition_class part) r0) /\
  (forall s a l, at_held c ≡ₚ (s, a) :: l -> wrap_u64 (at_counters c s - a) = at_counters c s - a) /\
  (at_sealed c = true -> forall t tr' c', at_threads c t = Outside -> asteps c tr' c' ->
     forall s a, LPoint t s a true ∉ tr').
Proof.
  intros Hu Hr Hs. pose proof (shared_ors_laws Hu Hr) as Hlaws.
  pose proof (counted_steps _ _ _ Hs counted_start) as Hc. split_and!.
  - intros part. split; [split; [apply held_amount_nonneg, Hc|apply (ct_held _ Hc)]|apply (ct_capacity _ Hc part)].
  - intros s a l Hp. by apply (drop_no_wrap _ _ _ _ Hc Hp).
  - intros Hsealed t tr' c' Ht Hs'. by apply (not_admitted_steps _ _ _ t Hs' Hsealed); rewrite Ht.
Qed.
End SharedOrsReserve.
