(* ===== verification/FrontDoorCalls.v ===== *)
(** * Laws of the front door's calls

    What each call of the front door does on every branch: acquisition of a
    permit, issuing one with its binding, authorizing a receipt through the
    ledger; and what holds after any sequence of calls. *)

From Stdlib Require Import String Ascii.
From S2P Require Import Prelude RustText Contracts RuntimeErrors CapacityContracts CapacityLaws.
From S2P Require Import Kernel Receipts AuthorityReceipts FrontDoor FrontDoorAtomics FrontDoorLaws.

#[local] Open Scope string_scope.
#[local] Open Scope list_scope.
#[local] Open Scope Z_scope.

(** ** Acquisition *)

Definition requested_permit_operation (o : RequestedOperationClass) : PermitOperation :=
  match o with
  | ReqNormal work => OpNormal work
  | ReqProtected operation => OpProtected operation
  | ReqEmergency operation => OpEmergency operation
  end.

(** A partition has room for one more permit. *)
Definition admits_class (c : CapacityClass) (r : ControlReserve) : Prop :=
  cr_restart_sealed r = false /\ in_flight c r < capacity_of c r.

Definition ids_valid (owner operation_id : string) : Prop :=
  validate_id owner "control_permit.owner" = Ok tt /\
  validate_id operation_id "control_permit.operation_id" = Ok tt.

Section Acquire.
Lemma cas_increment_some c r r' :
  cas_increment c r = Some r' <->
  in_flight c r < capacity_of c r /\ r' = set_in_flight c (in_flight c r + 1) r.
Proof.
  unfold cas_increment, increment_attempt. destruct (_ <=? _) eqn:E; [|naive_solver lia].
  split; [done|]. intros [? _]. lia.
Qed.

Lemma cas_increment_none c r : cas_increment c r = None <-> capacity_of c r <= in_flight c r.
Proof. unfold cas_increment, increment_attempt. destruct (_ <=? _) eqn:E; naive_solver lia. Qed.

(** The three typed acquisitions on one line: the identities, the seal and
    the room in the partition of the class decide, and a refusal changes
    nothing. *)
Lemma acquire_requested_exact request epoch r :
  let c := requested_capacity_class (rq_operation request) in
  let '(r', res) := acquire_requested request epoch r in
  match res with
  | Ok permit =>
      ids_valid (rq_requesting_owner_ref request) (rq_operation_id request) /\ admits_class c r /\
      r' = set_in_flight c (in_flight c r + 1) r /\
      permit = new_permit c (requested_permit_operation (rq_operation request))
                 (rq_operation_id request) (rq_requesting_owner_ref request) epoch
  | Err e =>
      r' = r /\
      ~ (ids_valid (rq_requesting_owner_ref request) (rq_operation_id request) /\ admits_class c r)
  end.
Proof.
  unfold acquire_requested, ids_valid, admits_class.
  destruct (rq_operation request); simpl;
    unfold try_acquire_normal, try_acquire_protected, try_acquire_emergency; unfold_monad;
    (destruct (validate_id (rq_requesting_owner_ref request) _) as [[]|e1]; [|naive_solver]);
    (destruct (validate_id (rq_operation_id request) _) as [[]|e2]; [|naive_solver]);
    (destruct (cr_restart_sealed r); [naive_solver|]);
    match goal with |- context [cas_increment ?c r] => destruct (cas_increment c r) as [r'|] eqn:Hc end;
    try (apply cas_increment_some in Hc as [Hlt ->]; simpl; naive_solver);
    apply cas_increment_none in Hc; try destruct (_ =? 0); simpl in *; (split; [done|]); intros [_ [_ ?]]; lia.
Qed.
End Acquire.

(** ** Permit identities *)

Section PermitIds.
Lemma requested_str_prefix_free o1 o2 s1 s2 :
  requested_str o1 +:+ "-" +:+ s1 = requested_str o2 +:+ "-" +:+ s2 -> o1 = o2 /\ s1 = s2.
Proof. destruct o1 as [[]|[]|[]], o2 as [[]|[]|[]]; intros [=]; by subst. Qed.

Fixpoint all_digits (s : string) : bool :=
  match s with
  | EmptyString => true
  | String c s' => is_ascii_digit (byte_of c) && all_digits s'
  end.

Lemma decimal_digits fuel : forall n acc,
  0 <= n -> all_digits acc = true -> all_digits (decimal fuel n acc) = true.
Proof.
  induction fuel as [|fuel IH]; intros n acc Hn Hacc; [done|]. simpl. destruct (n <? 10) eqn:E.
  - simpl. by rewrite byte_of_digit, is_ascii_digit_digit, Hacc by lia.
  - apply IH; [apply Z.div_pos; lia|]. pose proof (Z.mod_pos_bound n 10). simpl.
    by rewrite byte_of_digit, is_ascii_digit_digit, Hacc by lia.
Qed.

Lemma digits_before_dash d1 : forall d2 i1 i2,
  all_digits d1 = true -> all_digits d2 = true ->
  d1 +:+ "-" +:+ i1 = d2 +:+ "-" +:+ i2 -> d1 = d2.
Proof.
  induction d1 as [|c1 d1 IH]; intros [|c2 d2] i1 i2 H1 H2 H; [done| | |].
  - simpl in H. injection H as <- _. simpl in H2. done.
  - simpl in H. injection H as -> _. simpl in H1. done.
  - simpl in *. apply andb_true_iff in H1 as [_ H1], H2 as [_ H2]. injection H as <- H.
    f_equal. by eapply IH.
Qed.

(** A permit identity names the sequence number it was minted with. *)
Lemma permit_id_sequence o1 s1 i1 o2 s2 i2 :
  is_u64 s1 -> is_u64 s2 -> permit_id_text o1 s1 i1 = permit_id_text o2 s2 i2 -> s1 = s2.
Proof.
  intros H1 H2 H. unfold permit_id_text in H. injection H as H.
  apply requested_str_prefix_free in H as [_ H].
  apply digits_before_dash in H; try (apply decimal_digits; [apply H1 || apply H2|done]).
  apply (f_equal parse_u64) in H. rewrite !parse_u64_to_string in H by done. congruence.
Qed.
End PermitIds.

(** ** Issuing a permit *)

(** When the front door issues a permit for a request. *)
Definition issuable (d : FrontDoor) (request : CapacityRequest) (now_ms : Z) : Prop :=
  capacity_request_validate request = Ok tt /\
  rq_requested_bottleneck request = FRONT_DOOR_BOTTLENECK /\
  rq_authority_epoch_ref request = fd_epoch d /\
  cl_quantity (rq_requested_limit request) = 1 /\ 0 <= now_ms /\
  ids_valid (rq_requesting_owner_ref request) (rq_operation_id request) /\
  admits_class (requested_capacity_class (rq_operation request)) (fd_reserve d).

Section Issue.
Lemma request_epoch_current_ok request current :
  request_epoch_current request current = Ok tt <-> rq_authority_epoch_ref request = current.
Proof.
  unfold request_epoch_current. rewrite <- is_same_authority_eq.
  destruct (is_same_authority _ _); [done|]. destruct (_ != _); naive_solver.
Qed.

Lemma permit_id_not_blank o s i : is_blank (permit_id_text o s i) = false.
Proof. rewrite is_blank_spec. reflexivity. Qed.

(** The binding minted for a valid request satisfies the contract and matches
    the request. *)
Lemma minted_binding_legal request gen issued sequence evidence :
  capacity_request_validate request = Ok tt ->
  rq_requested_bottleneck request = FRONT_DOOR_BOTTLENECK -> 0 <= issued < 2 ^ 63 ->
  let b := mint_binding request gen issued sequence evidence in
  permit_binding_validate b = Ok tt /\ matches_request b request = true.
Proof.
  intros Hv Hb Hi. unfold capacity_request_validate in Hv.
  rewrite !check_guard_ok, guard_err_ok, negb_false_iff, bool_decide_eq_true, orb_false_iff in Hv.
  destruct Hv as (Hop & Hown & [Hp1 Hp2] & Hunit). rewrite Hb in Hunit. split.
  - unfold permit_binding_validate, mint_binding. simpl.
    rewrite permit_id_not_blank, Hop, Hown, Hp1, Hp2, Hunit. simpl.
    rewrite !bool_decide_eq_true_2 by done. simpl.
    assert (u64_max <=? issued = false) as -> by (pose proof u64_max_val; lia). done.
  - unfold matches_request, mint_binding. simpl. rewrite !bool_decide_eq_true_2 by done.
    by rewrite (proj2 (is_same_authority_eq _ _) eq_refl).
Qed.

Lemma on_reserve_run {A} (m : M ControlReserve KernelError A) d :
  on_reserve m d = (set_reserve (m (fd_reserve d)).1 d, (m (fd_reserve d)).2).
Proof. unfold on_reserve. by destruct (m (fd_reserve d)). Qed.

Lemma set_reserve_same d : set_reserve (fd_reserve d) d = d.
Proof. by destruct d. Qed.

(** Issuing, on every branch. *)
Lemma issue_permit_run d request gen now :
  let c := requested_capacity_class (rq_operation request) in
  let r := fd_reserve d in
  let r' := set_permit_sequence (wrap_u64 (cr_permit_sequence r + 1))
              (set_in_flight c (in_flight c r + 1) r) in
  match issue_permit request gen now d with
  | (d', Ok (permit, binding)) =>
      issuable d request now /\ d' = set_reserve r' d /\
      permit = new_permit c (requested_permit_operation (rq_operation request))
                 (rq_operation_id request) (rq_requesting_owner_ref request) (fd_epoch d) /\
      binding = mint_binding request gen now (cr_permit_sequence r) (issue_evidence c r')
  | (d', Err e) => ~ issuable d request now /\ d' = d
  end.
Proof.
  unfold issue_permit, issuable. unfold_monad.
  destruct (capacity_request_validate request) as [[]|e1] eqn:Hv; [|naive_solver].
  destruct (rq_requested_bottleneck request != _) eqn:Hb; bool_facts; [naive_solver|].
  destruct (request_epoch_current request (fd_epoch d)) as [[]|e2] eqn:He.
  2: { split; [|done]. intros (_ & _ & Hx & _). apply request_epoch_current_ok in Hx. congruence. }
  apply request_epoch_current_ok in He.
  destruct (negb (_ =? 1)) eqn:Hq; bool_facts; [split; [lia|done]|].
  destruct (now <? 0) eqn:Hn; [split; [lia|done]|].
  rewrite on_reserve_run. pose proof (acquire_requested_exact request (fd_epoch d) (fd_reserve d)) as Ha.
  simpl in Ha. destruct (acquire_requested request (fd_epoch d) (fd_reserve d)) as [r' [permit|e3]]; simpl.
  2: { destruct Ha as [-> Ha]. rewrite set_reserve_same. split; [|done]. tauto. }
  destruct Ha as (Hids & Hadm & -> & ->). split_and!; try done; lia.
Qed.

(** C15. Issuing a permit, on every branch: it succeeds exactly for a valid
    request for one slot of the control channel in the fenced epoch, with a
    clock that is not negative, proper identities, no restart seal and room
    in the one partition its operation class selects. Then that partition
    alone counts one more, the permit is of that class and of the current
    epoch, and the binding satisfies the contract and matches the request.
    Otherwise nothing changes. *)
Theorem issue_permit_exact d request gen now :
  now < 2 ^ 63 ->
  let c := requested_capacity_class (rq_operation request) in
  let r := fd_reserve d in
  match issue_permit request gen now d with
  | (d', Ok (permit, binding)) =>
      issuable d request now /\
      d' = set_reserve (set_permit_sequence (wrap_u64 (cr_permit_sequence r + 1))
                          (set_in_flight c (in_flight c r + 1) r)) d /\
      permit = new_permit c (requested_permit_operation (rq_operation request))
                 (rq_operation_id request) (rq_requesting_owner_ref request) (fd_epoch d) /\
      permit_binding_validate binding = Ok tt /\ matches_request binding request = true /\
      pb_capacity_class binding = pm_class permit /\
      pb_permit_id binding =
        permit_id_text (rq_operation request) (cr_permit_sequence r) (rq_operation_id request)
  | (d', Err e) => ~ issuable d request now /\ d' = d
  end.
Proof.
  intros Hnow. pose proof (issue_permit_run d request gen now) as Hrun. simpl in *.
  destruct (issue_permit request gen now d) as [d' [[permit binding]|e]]; [|done].
  destruct Hrun as (Hi & -> & -> & ->). destruct Hi as (Hv & Hb & He & Hq & Hn & Hrest).
  destruct (minted_binding_legal request gen now (cr_permit_sequence (fd_reserve d))
    (issue_evidence (requested_capacity_class (rq_operation request))
       (set_permit_sequence (wrap_u64 (cr_permit_sequence (fd_reserve d) + 1))
          (set_in_flight (requested_capacity_class (rq_operation request))
             (in_flight (requested_capacity_class (rq_operation request)) (fd_reserve d) + 1)
             (fd_reserve d)))) Hv Hb ltac:(lia)) as [Hval Hmat].
  split_and!; done.
Qed.
End Issue.

(** ** The ledger *)

Definition ledger_ok (l : IdempotencyLedger) : Prop :=
  0 < il_capacity l /\ NoDup (il_order l) /\ usize_of_len (il_order l) <= il_capacity l /\
  forall key, is_Some (il_entries l !! key) <-> key ∈ il_order l.

Section Ledger.
Lemma evict_exact capacity : forall order entries,
  0 <= capacity ->
  evict capacity order entries =
    (drop (length order - Z.to_nat capacity) order,
     foldr delete entries (rev (take (length order - Z.to_nat capacity) order))).
Proof.
  induction order as [|k order IH]; intros entries Hc; [done|]. cbn [evict]. unfold usize_of_len.
  destruct (Z.ltb_spec capacity (Z.of_nat (length (k :: order)))) as [E|E]; cbn [length] in E |- *.
  - rewrite IH by done. replace (S (length order) - Z.to_nat capacity)%nat
      with (S (length order - Z.to_nat capacity)) by lia. simpl.
    by rewrite foldr_app.
  - replace (S (length order) - Z.to_nat capacity)%nat with 0%nat by lia. done.
Qed.

Lemma foldr_delete_lookup (ks : list string) (m : gmap string LedgerEntry) k :
  foldr delete m ks !! k = if bool_decide (k ∈ ks) then None else m !! k.
Proof.
  induction ks as [|k' ks IH]; [done|]. simpl foldr.
  destruct (decide (k = k')) as [->|Hne].
  - rewrite lookup_delete_eq. by rewrite bool_decide_eq_true_2 by set_solver.
  - rewrite lookup_delete_ne, IH by done.
    rewrite (bool_decide_ext (k ∈ ks) (k ∈ k' :: ks)); [done|]. set_solver.
Qed.

Definition key_valid (key digest : string) : Prop :=
  validate_id key "idempotency_key" = Ok tt /\ validate_id digest "request_digest" = Ok tt.

(** Recording a new key appends it and evicts the oldest key when the ledger
    was full. *)
Lemma record_new_key l key digest decision binding :
  ledger_ok l -> key_valid key digest -> il_entries l !! key = None ->
  let excess := if usize_of_len (il_order l) <? il_capacity l then 0%nat else 1%nat in
  exists entries,
    record_bound key digest decision binding l =
      ({| il_capacity := il_capacity l; il_entries := entries;
          il_order := drop excess (il_order l ++ [key]) |}, Ok tt) /\
    ledger_ok {| il_capacity := il_capacity l; il_entries := entries;
                 il_order := drop excess (il_order l ++ [key]) |} /\
    entries !! key = Some {| le_digest := digest; le_decision := decision; le_binding := binding |} /\
    forall k, k ≠ key ->
      entries !! k = if bool_decide (k ∈ take excess (il_order l)) then None else il_entries l !! k.
Proof.
  intros (Hcap & Hnd & Hlen & Hdom) [Hk Hd] Hnone. unfold record_bound. unfold_monad.
  rewrite Hk, Hd, Hnone. simpl. rewrite evict_exact by lia.
  set (e := {| le_digest := digest; le_decision := decision; le_binding := binding |}).
  assert (Hni : key ∉ il_order l) by (rewrite <- Hdom, Hnone; by intros [? [=]]).
  set (excess := if usize_of_len (il_order l) <? il_capacity l then 0%nat else 1%nat).
  assert (Hex : (length (il_order l ++ [key]) - Z.to_nat (il_capacity l))%nat = excess).
  { unfold excess, usize_of_len in *. rewrite length_app. simpl. destruct (_ <? _) eqn:E; lia. }
  rewrite Hex. assert (Hpos : (excess <= length (il_order l))%nat).
  { unfold excess, usize_of_len in *. destruct (_ <? _) eqn:E; lia. }
  assert (Htake : take excess (il_order l ++ [key]) = take excess (il_order l))
    by (rewrite take_app_le; done).
  rewrite Htake. assert (Hkni : key ∉ take excess (il_order l)).
  { intros Hin. apply Hni. rewrite <- (take_drop excess (il_order l)). set_solver. }
  eexists. split; [reflexivity|].
  assert (Hlook : forall k, foldr delete (<[key := e]> (il_entries l)) (rev (take excess (il_order l))) !! k
             = if bool_decide (k ∈ take excess (il_order l)) then None else <[key := e]> (il_entries l) !! k).
  { intros k. rewrite foldr_delete_lookup. rewrite (bool_decide_ext _ (k ∈ take excess (il_order l))); [done|].
    by rewrite !list_elem_of_In, <- in_rev. }
  assert (Hnd' : NoDup (il_order l ++ [key])).
  { apply NoDup_app. split_and!; [done| |apply NoDup_singleton]. intros k Hk1 Hk2.
    apply list_elem_of_singleton in Hk2. by subst. }
  split_and!.
  - unfold ledger_ok. simpl. split_and!; [done| | |].
    + rewrite <- (take_drop excess (il_order l ++ [key])) in Hnd'. by apply NoDup_app in Hnd' as (_ & _ & ?).
    + unfold usize_of_len. rewrite length_drop, length_app. simpl. unfold excess, usize_of_len in *.
      destruct (_ <? _) eqn:E; lia.
    + intros k. rewrite Hlook, drop_app_le by done. rewrite elem_of_app, list_elem_of_singleton.
      assert (Hsplit : k ∈ il_order l <-> k ∈ take excess (il_order l) \/ k ∈ drop excess (il_order l)).
      { rewrite <- elem_of_app, take_drop. done. }
      assert (Hdisj : k ∈ take excess (il_order l) -> k ∉ drop excess (il_order l)).
      { rewrite <- (take_drop excess (il_order l)) in Hnd. apply NoDup_app in Hnd as (_ & Hnd & _). apply Hnd. }
      destruct (decide (k = key)) as [->|Hne].
      * rewrite bool_decide_eq_false_2, lookup_insert_eq by done. naive_solver.
      * rewrite lookup_insert_ne by done. case_bool_decide as Hin.
        -- split; [by intros [? [=]]|]. intros [?|?]; [by exfalso; apply Hdisj|done].
        -- rewrite Hdom. tauto.
  - rewrite Hlook, bool_decide_eq_false_2 by done. apply lookup_insert_eq.
  - intros k Hne. rewrite Hlook. case_bool_decide; [done|]. by rewrite lookup_insert_ne.
Qed.
End Ledger.

(** ** Authorizing a receipt *)

Section AuthorizeLaws.
Context `{AuthorityCrypto}.

Lemma set_in_flight_same c r : set_in_flight c (in_flight c r) r = r.
Proof. by destruct c, r. Qed.

Lemma set_in_flight_twice c z z' r : set_in_flight c z (set_in_flight c z' r) = set_in_flight c z r.
Proof. by destruct c. Qed.

(** A permit acquired and dropped in one call leaves the reserve as it was. *)
Lemma drop_acquired c o i w e r :
  is_u64 (in_flight c r) ->
  drop_permit (new_permit c o i w e) (set_in_flight c (in_flight c r + 1) r) = r.
Proof.
  intros Hu. rewrite drop_permit_class by done. cbn [pm_class new_permit].
  rewrite set_in_flight_twice, in_flight_set, bool_decide_eq_true_2 by done.
  replace (in_flight c r + 1 - 1) with (in_flight c r) by lia.
  rewrite wrap_u64_small by done. apply set_in_flight_same.
Qed.

Lemma with_legacy_permit_exact {A} (body : M FrontDoor KernelError A) d :
  is_u64 (in_flight ProtectedControl (fd_reserve d)) ->
  (forall r, body (set_reserve r d) =
             (set_reserve r (body d).1, (body d).2)) -> fd_reserve (body d).1 = fd_reserve d ->
  (admits_class ProtectedControl (fd_reserve d) -> with_legacy_permit body d = body d) /\
  (~ admits_class ProtectedControl (fd_reserve d) ->
   with_legacy_permit body d = (d, Err ControlReserveExhausted)).
Proof.
  intros Hu Hbody Hsame. unfold with_legacy_permit, acquire_legacy_protected, admits_class.
  destruct (cr_restart_sealed (fd_reserve d)).
  { rewrite set_reserve_same. split; [by intros [? _]|done]. }
  destruct (cas_increment ProtectedControl (fd_reserve d)) as [r'|] eqn:Hc.
  - apply cas_increment_some in Hc as [Hlt ->]. split; [intros _|intros Hn; exfalso; apply Hn; done].
    rewrite Hbody. cbn [fd_reserve set_reserve]. rewrite drop_acquired by done.
    destruct (body d) as [d1 res]. simpl in *. rewrite <- Hsame. f_equal. by destruct d1.
  - apply cas_increment_none in Hc. rewrite set_reserve_same. split; [intros [_ ?]; lia|done].
Qed.

(** The answer to a key that is known. *)
Definition known_answer (entry : LedgerEntry) (digest : string) : KR AuthorityDecision :=
  if bool_decide (le_digest entry = digest /\ le_binding entry = None)
  then Ok (le_decision entry) else Err IdempotencyConflict.

(** The answer to a new key, and the ledger it leaves. *)
Definition new_answer (d : FrontDoor) (decision : AuthorityDecision) (key digest : string)
    : FrontDoor * KR AuthorityDecision :=
  let '(l, res) := record_decision key digest decision (fd_ledger d) in
  (set_ledger l d, match res with Ok _ => Ok decision | Err e => Err e end).

Lemma authorize_known d receipt route now key digest entry :
  il_entries (fd_ledger d) !! key = Some entry ->
  authorize receipt route now key digest d = (d, known_answer entry digest).
Proof.
  intros He. unfold authorize, known_answer, resolve, resolve_bound. unfold_monad. rewrite He.
  destruct (decide (le_digest entry = digest)) as [Hd|Hd].
  - rewrite (bool_decide_eq_true_2 (le_digest entry = digest)) by done. simpl.
    destruct (le_binding entry); [by rewrite bool_decide_eq_false_2 by naive_solver|].
    by rewrite bool_decide_eq_true_2 by done.
  - rewrite (bool_decide_eq_false_2 (le_digest entry = digest)) by done. simpl.
    by rewrite bool_decide_eq_false_2 by naive_solver.
Qed.

Lemma authorize_new d receipt route now key digest :
  is_u64 (in_flight ProtectedControl (fd_reserve d)) ->
  il_entries (fd_ledger d) !! key = None ->
  authorize receipt route now key digest d =
    match decide_receipt (fd_authority d) receipt route now with
    | Err e => (d, Err e)
    | Ok decision =>
        if is_granted decision && negb (bool_decide (cr_restart_sealed (fd_reserve d) = false)
                                        && (in_flight ProtectedControl (fd_reserve d)
                                            <? capacity_of ProtectedControl (fd_reserve d)))
        then (d, Err ControlReserveExhausted)
        else new_answer d decision key digest
    end.
Proof.
  intros Hu He. unfold authorize, resolve, resolve_bound. unfold_monad. rewrite He.
  destruct (decide_receipt (fd_authority d) receipt route now) as [decision|e]; [|done].
  set (body := fun s : FrontDoor => _).
  assert (Hbody : body d = new_answer d decision key digest).
  { unfold body, new_answer, on_ledger. destruct (record_decision key digest decision (fd_ledger d)) as [l [[]|e]]; done. }
  destruct (is_granted decision); cbn [andb]; [|exact Hbody].
  destruct (with_legacy_permit_exact body d Hu) as [Hyes Hno].
  - intros r. unfold body, on_ledger. simpl.
    destruct (record_decision key digest decision (fd_ledger d)) as [l [[]|e]]; done.
  - rewrite Hbody. unfold new_answer. by destruct (record_decision key digest decision (fd_ledger d)).
  - unfold admits_class in *. destruct (cr_restart_sealed (fd_reserve d)) eqn:Hs.
    { rewrite Hno by (by intros [? _]). done. }
    rewrite bool_decide_eq_true_2 by done. cbn [andb].
    destruct (_ <? _) eqn:Hlt; cbn [negb]; [rewrite Hyes by (split; [done|lia]); exact Hbody|].
    rewrite Hno by (intros [_ ?]; lia). done.
Qed.
End AuthorizeLaws.

(** ** Sequences of calls *)

(** A call on the front door, or the drop of one of the permits that are
    held. *)
Inductive FdCall : Type :=
| FcAuthorize (receipt : AuthorityReceipt) (route : RouteScope) (now : Z) (key digest : string)
| FcControl
| FcNormal (work : NormalWorkClass) (owner operation_id : string)
| FcProtected (operation : ControlOperationClass) (owner operation_id : string)
| FcEmergency (operation : EmergencyOperationClass) (owner operation_id : string)
| FcIssue (request : CapacityRequest) (generation : ResourceGeneration) (now : Z)
| FcDrop (index : nat)
| FcRelease (index : nat)
| FcAdvance
| FcSynchronize (target : EpochId)
| FcRestart
| FcReconcile.

#[global] Instance FdCall_eq_dec : EqDecision FdCall.
Proof. solve_decision. Defined.

(** The front door, the permits its callers hold, and the bindings issued so
    far, the newest first. *)
Record FdState : Type := {
  fs_door : FrontDoor;
  fs_held : list ControlPermit;
  fs_issued : list CapacityPermitBinding;
}.

Section Calls.
Context `{AuthorityCrypto}.

Definition fd_acquired (res : FrontDoor * KR ControlPermit) (s : FdState) : FdState :=
  {| fs_door := res.1;
     fs_held := match res.2 with Ok permit => permit :: fs_held s | Err _ => fs_held s end;
     fs_issued := fs_issued s |}.

Definition fd_dropped (give : ControlPermit -> ControlReserve -> ControlReserve) (index : nat)
    (s : FdState) : FdState :=
  match fs_held s !! index with
  | None => s
  | Some permit =>
      {| fs_door := set_reserve (give permit (fd_reserve (fs_door s))) (fs_door s);
         fs_held := delete index (fs_held s); fs_issued := fs_issued s |}
  end.

Definition on_door (d : FrontDoor) (s : FdState) : FdState :=
  {| fs_door := d; fs_held := fs_held s; fs_issued := fs_issued s |}.

Definition fd_call (c : FdCall) (s : FdState) : FdState :=
  let d := fs_door s in
  match c with
  | FcAuthorize receipt route now key digest => on_door (authorize receipt route now key digest d).1 s
  | FcControl => fd_acquired (acquire_control d) s
  | FcNormal work owner operation_id => fd_acquired (acquire_normal work owner operation_id d) s
  | FcProtected operation owner operation_id =>
      fd_acquired (acquire_protected operation owner operation_id d) s
  | FcEmergency operation owner operation_id =>
      fd_acquired (acquire_emergency operation owner operation_id d) s
  | FcIssue request generation now =>
      match issue_permit request generation now d with
      | (d', Ok (permit, binding)) =>
          {| fs_door := d'; fs_held := permit :: fs_held s; fs_issued := binding :: fs_issued s |}
      | (d', Err _) => on_door d' s
      end
  | FcDrop index => fd_dropped drop_permit index s
  | FcRelease index => fd_dropped (fun permit r => (release_permit permit r).1) index s
  | FcAdvance => on_door (front_door_advance_epoch d).1 s
  | FcSynchronize target => on_door (front_door_synchronize_epoch target d).1 s
  | FcRestart => on_door (note_restart d) s
  | FcReconcile => on_door (reconcile_after_epoch_advance d).1 s
  end.

Definition fd_calls (cs : list FdCall) (s : FdState) : FdState :=
  fold_left (fun s c => fd_call c s) cs s.

(** The reserve is reconciled only while no permit is held, as the owner that
    detects a restart does before it admits new work. *)
Fixpoint reconciled_idle (cs : list FdCall) (s : FdState) : Prop :=
  match cs with
  | [] => True
  | c :: cs' => (c = FcReconcile -> fs_held s = []) /\ reconciled_idle cs' (fd_call c s)
  end.

Definition held_of (c : CapacityClass) (l : list ControlPermit) : Z :=
  Z.of_nat (length (List.filter (fun p => bool_decide (pm_class p = c)) l)).

(** The accounting of the reserve [r0] was created with. *)
Record accounted (r0 : ControlReserve) (s : FdState) : Prop := {
  ac_capacity c : capacity_of c (fd_reserve (fs_door s)) = capacity_of c r0;
  ac_held : Forall (fun p => pm_held p = true) (fs_held s);
  ac_bounds c : held_of c (fs_held s) <= in_flight c (fd_reserve (fs_door s)) <= capacity_of c r0;
  ac_exact c : cr_sealed_epoch (fd_reserve (fs_door s)) = None ->
    in_flight c (fd_reserve (fs_door s)) = held_of c (fs_held s);
  ac_seal : cr_restart_sealed (fd_reserve (fs_door s)) = is_some (cr_sealed_epoch (fd_reserve (fs_door s)));
}.

Lemma held_of_cons c p l : held_of c (p :: l) = (if bool_decide (pm_class p = c) then 1 else 0) + held_of c l.
Proof. unfold held_of. simpl. case_bool_decide; simpl length; lia. Qed.

Lemma held_of_nonneg c l : 0 <= held_of c l.
Proof. unfold held_of. lia. Qed.

Lemma held_of_delete c l i p :
  l !! i = Some p -> held_of c l = (if bool_decide (pm_class p = c) then 1 else 0) + held_of c (delete i l).
Proof.
  revert i. induction l as [|q l IH]; intros [|i] Hi; simplify_eq/=; [by rewrite held_of_cons|].
  rewrite !held_of_cons, (IH i Hi). lia.
Qed.

(** Two reserves with the same seal and capacities, where [f] relates the
    counters. *)
Definition moved (f : CapacityClass -> Z) (r r' : ControlReserve) : Prop :=
  (forall c, capacity_of c r' = capacity_of c r) /\ (forall c, in_flight c r' = f c) /\
  cr_restart_sealed r' = cr_restart_sealed r /\ cr_sealed_epoch r' = cr_sealed_epoch r.

Lemma accounted_kept r0 s s' :
  accounted r0 s -> fs_held s' = fs_held s ->
  moved (fun c => in_flight c (fd_reserve (fs_door s))) (fd_reserve (fs_door s)) (fd_reserve (fs_door s')) ->
  accounted r0 s'.
Proof.
  intros [H1 H2 H3 H4 H5] Hh (Hc & Hf & Hs & He). split; rewrite ?Hh, ?Hs, ?He; try done.
  - intros c. by rewrite Hc.
  - intros c. by rewrite Hf.
  - intros c Hn. rewrite Hf. by apply H4.
Qed.

Lemma accounted_acquired r0 s s' p :
  accounted r0 s -> admits_class (pm_class p) (fd_reserve (fs_door s)) -> pm_held p = true ->
  fs_held s' = p :: fs_held s ->
  moved (fun c => (if bool_decide (pm_class p = c) then 1 else 0) + in_flight c (fd_reserve (fs_door s)))
    (fd_reserve (fs_door s)) (fd_reserve (fs_door s')) ->
  accounted r0 s'.
Proof.
  intros [H1 H2 H3 H4 H5] [Hns Hroom] Hp Hh (Hc & Hf & Hs & He).
  assert (Hnone : cr_sealed_epoch (fd_reserve (fs_door s)) = None).
  { rewrite H5 in Hns. by destruct (cr_sealed_epoch _). }
  rewrite H1 in Hroom. split; rewrite ?Hh, ?Hs, ?He; try done.
  - intros c. by rewrite Hc.
  - by constructor.
  - intros c. rewrite Hf, held_of_cons. specialize (H3 c). case_bool_decide; subst; lia.
  - intros c _. rewrite Hf, held_of_cons, H4 by done. done.
Qed.

Lemma accounted_dropped r0 s s' i p :
  accounted r0 s -> fs_held s !! i = Some p -> fs_held s' = delete i (fs_held s) ->
  fd_reserve (fs_door s') =
    set_in_flight (pm_class p) (wrap_u64 (in_flight (pm_class p) (fd_reserve (fs_door s)) - 1))
      (fd_reserve (fs_door s)) ->
  (forall c, capacity_of c r0 <= u64_max) -> accounted r0 s'.
Proof.
  intros [H1 H2 H3 H4 H5] Hi Hh Hr Hcap. pose proof (fun c => held_of_delete c _ _ _ Hi) as Hd.
  assert (Hwrap : wrap_u64 (in_flight (pm_class p) (fd_reserve (fs_door s)) - 1)
                  = in_flight (pm_class p) (fd_reserve (fs_door s)) - 1).
  { apply wrap_u64_small. specialize (H3 (pm_class p)). specialize (Hcap (pm_class p)).
    rewrite (Hd (pm_class p)), bool_decide_eq_true_2 in H3 by done.
    pose proof (held_of_nonneg (pm_class p) (delete i (fs_held s))). unfold is_u64. lia. }
  rewrite Hwrap in Hr. split; rewrite ?Hr, ?Hh; [exact H1| | | |exact H5].
  - by apply Forall_delete.
  - intros c. rewrite in_flight_set. specialize (H3 c). rewrite (Hd c) in H3.
    destruct (decide (c = pm_class p)) as [->|Hne].
    + rewrite bool_decide_eq_true_2 in * by done. lia.
    + rewrite (bool_decide_eq_false_2 (c = pm_class p)) by done.
      rewrite (bool_decide_eq_false_2 (pm_class p = c)) in H3 by (by intros <-). lia.
  - intros c Hn. rewrite in_flight_set. specialize (H4 c Hn). rewrite (Hd c) in H4.
    destruct (decide (c = pm_class p)) as [->|Hne].
    + rewrite bool_decide_eq_true_2 in * by done. lia.
    + rewrite (bool_decide_eq_false_2 (c = pm_class p)) by done.
      rewrite (bool_decide_eq_false_2 (pm_class p = c)) in H4 by (by intros <-). lia.
Qed.

(** A request that carries only what an acquisition reads. *)
Definition plain_request (o : RequestedOperationClass) (owner operation_id : string) (epoch : EpochId)
    : CapacityRequest :=
  {| rq_operation := o; rq_operation_id := operation_id;
     rq_requested_bottleneck := FRONT_DOOR_BOTTLENECK;
     rq_requested_limit := {| cl_unit := Items; cl_quantity := 1 |};
     rq_requesting_owner_ref := owner; rq_requesting_generation_ref := 0;
     rq_authority_epoch_ref := epoch; rq_profile_id := ""; rq_profile_revision := "";
     rq_deadline_ms := 0 |}.

Lemma moved_acquired c r :
  moved (fun c' => (if bool_decide (c = c') then 1 else 0) + in_flight c' r) r
    (set_in_flight c (in_flight c r + 1) r).
Proof.
  split_and!; [intros; apply capacity_of_set| |done|done]. intros c'. rewrite in_flight_set.
  destruct (decide (c = c')) as [->|Hne].
  - rewrite !bool_decide_eq_true_2 by done. lia.
  - rewrite !bool_decide_eq_false_2 by congruence. lia.
Qed.

Lemma accounted_requested r0 s request epoch :
  accounted r0 s ->
  accounted r0 (fd_acquired (on_reserve (acquire_requested request epoch) (fs_door s)) s).
Proof.
  intros Hs. rewrite on_reserve_run.
  pose proof (acquire_requested_exact request epoch (fd_reserve (fs_door s))) as Ha. simpl in Ha.
  destruct (acquire_requested request epoch (fd_reserve (fs_door s))) as [r' [permit|e]].
  - destruct Ha as (_ & Hadm & -> & ->). eapply accounted_acquired; [exact Hs| | |reflexivity|]; [done|done|].
    apply moved_acquired.
  - destruct Ha as [-> _]. eapply accounted_kept; [exact Hs|done|done].
Qed.

Lemma accounted_control r0 s : accounted r0 s -> accounted r0 (fd_acquired (acquire_control (fs_door s)) s).
Proof.
  intros Hs. unfold acquire_control, acquire_legacy_protected.
  destruct (cr_restart_sealed (fd_reserve (fs_door s))) eqn:Hseal.
  { eapply accounted_kept; [exact Hs|done|done]. }
  destruct (cas_increment ProtectedControl (fd_reserve (fs_door s))) as [r'|] eqn:Hc.
  - apply cas_increment_some in Hc as [Hlt ->].
    eapply accounted_acquired; [exact Hs| | |reflexivity|]; [done|done|]. apply moved_acquired.
  - eapply accounted_kept; [exact Hs|done|done].
Qed.

Lemma accounted_issue r0 s request gen now :
  accounted r0 s -> accounted r0 (fd_call (FcIssue request gen now) s).
Proof.
  intros Hs. simpl. pose proof (issue_permit_run (fs_door s) request gen now) as Hrun. simpl in Hrun.
  destruct (issue_permit request gen now (fs_door s)) as [d' [[permit binding]|e]].
  - destruct Hrun as ((_ & _ & _ & _ & _ & _ & Hadm) & -> & -> & _).
    eapply accounted_acquired; [exact Hs| | |reflexivity|]; [done|done|]. apply moved_acquired.
  - destruct Hrun as [_ ->]. eapply accounted_kept; [exact Hs|done|done].
Qed.

(** A call that leaves the reserve alone. *)
Lemma accounted_same_reserve r0 s d :
  accounted r0 s -> fd_reserve d = fd_reserve (fs_door s) -> accounted r0 (on_door d s).
Proof. intros Hs Hd. eapply accounted_kept; [exact Hs|done|]. simpl. by rewrite Hd. Qed.

Lemma accounted_u64 r0 s c :
  accounted r0 s -> capacity_of c r0 <= u64_max -> is_u64 (in_flight c (fd_reserve (fs_door s))).
Proof.
  intros Hs Hc. pose proof (ac_bounds _ _ Hs c). pose proof (held_of_nonneg c (fs_held s)). unfold is_u64. lia.
Qed.

Lemma authorize_reserve d receipt route now key digest :
  is_u64 (in_flight ProtectedControl (fd_reserve d)) ->
  fd_reserve (authorize receipt route now key digest d).1 = fd_reserve d.
Proof.
  intros Hu. destruct (il_entries (fd_ledger d) !! key) as [entry|] eqn:He.
  - by rewrite (authorize_known _ _ _ _ _ _ _ He).
  - rewrite authorize_new by done. destruct (decide_receipt _ _ _ _); [|done].
    destruct (_ && _); [done|]. unfold new_answer. by destruct (record_decision _ _ _ _).
Qed.

Lemma accounted_restart r0 s : accounted r0 s -> accounted r0 (on_door (note_restart (fs_door s)) s).
Proof.
  intros [H1 H2 H3 H4 H5].
  assert (Hpin : forall c, in_flight c (seal_after_restart (fd_epoch (fs_door s)) (fd_reserve (fs_door s)))
                           = capacity_of c r0).
  { intros c. rewrite <- H1. specialize (H3 c). rewrite <- H1 in H3. destruct c; simpl in *; lia. }
  split; simpl; [exact H1|done| |done|done].
  - intros c. rewrite Hpin. specialize (H3 c). lia.
Qed.

Lemma accounted_reconcile r0 s :
  (forall c, 0 <= capacity_of c r0) -> accounted r0 s -> fs_held s = [] ->
  accounted r0 (on_door (reconcile_after_epoch_advance (fs_door s)).1 s).
Proof.
  intros Hcap Hs Hidle. unfold reconcile_after_epoch_advance. unfold_monad. rewrite on_reserve_run.
  unfold unseal_after_epoch_advance. unfold_monad.
  destruct (cr_sealed_epoch (fd_reserve (fs_door s))) as [e|] eqn:He; simpl.
  2: { apply accounted_same_reserve; done. }
  destruct (e == fd_epoch (fs_door s)); simpl; [apply accounted_same_reserve; done|].
  destruct Hs as [H1 H2 H3 H4 H5]. split; simpl; rewrite ?Hidle; [exact H1|done| | |done].
  - intros c. unfold held_of. simpl. specialize (Hcap c). destruct c; simpl in *; lia.
  - intros c _. by destruct c.
Qed.

Lemma accounted_call r0 c s :
  (forall c, 0 <= capacity_of c r0 <= u64_max) -> (c = FcReconcile -> fs_held s = []) ->
  accounted r0 s -> accounted r0 (fd_call c s).
Proof.
  intros Hcap Hidle Hs. assert (Hle : forall c, capacity_of c r0 <= u64_max) by (intros c'; apply Hcap).
  destruct c as [receipt route now key digest| |work owner oid|operation owner oid|operation owner oid
                |request gen now|i|i| |target| |]; simpl.
  - apply accounted_same_reserve; [done|]. apply authorize_reserve. by apply (accounted_u64 r0).
  - by apply accounted_control.
  - by apply (accounted_requested r0 s (plain_request (ReqNormal work) owner oid (fd_epoch (fs_door s)))).
  - by apply (accounted_requested r0 s (plain_request (ReqProtected operation) owner oid (fd_epoch (fs_door s)))).
  - by apply (accounted_requested r0 s (plain_request (ReqEmergency operation) owner oid (fd_epoch (fs_door s)))).
  - by apply accounted_issue.
  - unfold fd_dropped. destruct (fs_held s !! i) as [p|] eqn:Hi; [|done].
    eapply accounted_dropped; [exact Hs|exact Hi|done| |done]. simpl. apply drop_permit_class.
    pose proof (ac_held _ _ Hs) as Hh. rewrite Forall_lookup in Hh. by eapply Hh.
  - unfold fd_dropped. destruct (fs_held s !! i) as [p|] eqn:Hi; [|done].
    eapply accounted_dropped; [exact Hs|exact Hi|done| |done]. simpl.
    rewrite (proj1 (release_permit_once p _)). apply drop_permit_class.
    pose proof (ac_held _ _ Hs) as Hh. rewrite Forall_lookup in Hh. by eapply Hh.
  - apply accounted_same_reserve; [done|]. unfold front_door_advance_epoch, on_authority.
    by destruct (advance_epoch _).
  - apply accounted_same_reserve; [done|]. unfold front_door_synchronize_epoch, on_authority.
    by destruct (synchronize_epoch target _).
  - by apply accounted_restart.
  - apply accounted_reconcile; [intros c; apply Hcap|done|by apply Hidle].
Qed.

Lemma accounted_calls r0 cs : forall s,
  (forall c, 0 <= capacity_of c r0 <= u64_max) -> accounted r0 s -> reconciled_idle cs s ->
  accounted r0 (fd_calls cs s).
Proof.
  induction cs as [|c cs IH]; intros s Hcap Hs Hidle; [done|]. destruct Hidle as [Hc Hidle].
  apply (IH (fd_call c s)); [done| |done]. by apply accounted_call.
Qed.

(** ** Permit identities are never minted twice *)

Definition numbered (s : FdState) : Prop :=
  cr_permit_sequence (fd_reserve (fs_door s)) = wrap_u64 (Z.of_nat (length (fs_issued s))) /\
  forall i b, rev (fs_issued s) !! i = Some b ->
    exists o oid, pb_permit_id b = permit_id_text o (wrap_u64 (Z.of_nat i)) oid.

(** The calls that issue no binding keep the sequence. *)
Lemma numbered_kept s s' :
  fs_issued s' = fs_issued s ->
  cr_permit_sequence (fd_reserve (fs_door s')) = cr_permit_sequence (fd_reserve (fs_door s)) ->
  numbered s -> numbered s'.
Proof. intros Hi Hs [H1 H2]. split; rewrite ?Hs, Hi; done. Qed.

Lemma wrap_u64_u64 z : is_u64 (wrap_u64 z).
Proof. unfold wrap_u64, is_u64, u64_max. pose proof (Z.mod_pos_bound z (2 ^ 64)). lia. Qed.

Lemma numbered_issue s request gen now : numbered s -> numbered (fd_call (FcIssue request gen now) s).
Proof.
  intros [H1 H2]. simpl. pose proof (issue_permit_run (fs_door s) request gen now) as Hrun. simpl in Hrun.
  destruct (issue_permit request gen now (fs_door s)) as [d' [[permit binding]|e]].
  2: { destruct Hrun as [_ ->]. by split. }
  destruct Hrun as (_ & -> & _ & ->). split.
  - simpl. rewrite H1, wrap_u64_succ. f_equal. lia.
  - simpl. intros i b Hb. apply lookup_app_Some in Hb as [Hb|[Hi Hb]]; [by eapply H2|].
    rewrite length_rev in Hi, Hb. destruct (i - length (fs_issued s))%nat as [|k] eqn:E; [|by destruct k].
    simpl in Hb. injection Hb as <-. replace i with (length (fs_issued s)) by lia. rewrite <- H1. by do 2 eexists.
Qed.

Lemma sequence_requested request epoch r :
  cr_permit_sequence (acquire_requested request epoch r).1 = cr_permit_sequence r.
Proof.
  pose proof (acquire_requested_exact request epoch r) as Ha. simpl in Ha.
  destruct (acquire_requested request epoch r) as [r' [permit|e]]; simpl.
  - by destruct Ha as (_ & _ & -> & _).
  - by destruct Ha as [-> _].
Qed.

Lemma numbered_call r0 c s :
  (forall c, capacity_of c r0 <= u64_max) -> accounted r0 s -> numbered s -> numbered (fd_call c s).
Proof.
  intros Hcap Hs Hn.
  destruct c as [receipt route now key digest| |work owner oid|operation owner oid|operation owner oid
                |request gen now|i|i| |target| |]; try (by apply numbered_issue);
    (eapply numbered_kept; [| |exact Hn]); simpl; try done.
  - rewrite authorize_reserve; [done|]. by apply (accounted_u64 r0).
  - unfold acquire_control, acquire_legacy_protected. destruct (cr_restart_sealed _); [done|].
    destruct (cas_increment _ _) as [r'|] eqn:Hc; [|done]. by apply cas_increment_some in Hc as [_ ->].
  - unfold acquire_normal. unfold_monad. rewrite on_reserve_run.
    apply (sequence_requested (plain_request (ReqNormal work) owner oid (fd_epoch (fs_door s)))).
  - unfold acquire_protected. unfold_monad. rewrite on_reserve_run.
    apply (sequence_requested (plain_request (ReqProtected operation) owner oid (fd_epoch (fs_door s)))).
  - unfold acquire_emergency. unfold_monad. rewrite on_reserve_run.
    apply (sequence_requested (plain_request (ReqEmergency operation) owner oid (fd_epoch (fs_door s)))).
  - unfold fd_dropped. by destruct (fs_held s !! i).
  - unfold fd_dropped. destruct (fs_held s !! i) as [p|]; [|done]. simpl.
    unfold drop_permit, take_slot. by destruct (pm_held p).
  - unfold fd_dropped. by destruct (fs_held s !! i).
  - unfold fd_dropped. destruct (fs_held s !! i) as [p|]; [|done]. simpl.
    rewrite (proj1 (release_permit_once p _)). unfold drop_permit, take_slot. by destruct (pm_held p).
  - unfold front_door_advance_epoch, on_authority. by destruct (advance_epoch _).
  - unfold front_door_synchronize_epoch, on_authority. by destruct (synchronize_epoch target _).
  - unfold reconcile_after_epoch_advance. unfold_monad. rewrite on_reserve_run.
    unfold unseal_after_epoch_advance. unfold_monad.
    destruct (cr_sealed_epoch _); [|done]. by destruct (_ == _).
Qed.

Lemma numbered_calls r0 cs : forall s,
  (forall c, 0 <= capacity_of c r0 <= u64_max) -> accounted r0 s -> reconciled_idle cs s -> numbered s ->
  numbered (fd_calls cs s).
Proof.
  induction cs as [|c cs IH]; intros s Hcap Hs Hidle Hn; [done|]. destruct Hidle as [Hc Hidle].
  apply (IH (fd_call c s)); [done|by apply accounted_call|done|].
  apply (numbered_call r0); [intros c'; apply Hcap|done|done].
Qed.

Lemma numbered_NoDup s :
  numbered s -> Z.of_nat (length (fs_issued s)) <= 2 ^ 64 -> NoDup (pb_permit_id <$> fs_issued s).
Proof.
  intros [_ Hn] Hlen. apply NoDup_alt. intros i j id Hi Hj.
  rewrite list_lookup_fmap in Hi, Hj.
  destruct (fs_issued s !! i) as [b1|] eqn:E1; simplify_eq/=.
  destruct (fs_issued s !! j) as [b2|] eqn:E2; simplify_eq/=. rename Hj into Heq.
  pose proof (lookup_lt_Some _ _ _ E1). pose proof (lookup_lt_Some _ _ _ E2).
  assert (Hrev : forall k b, fs_issued s !! k = Some b -> rev (fs_issued s) !! (length (fs_issued s) - S k)%nat = Some b).
  { intros k b Hk. pose proof (lookup_lt_Some _ _ _ Hk). rewrite rev_alt.
    change (rev_append (fs_issued s) []) with (reverse (fs_issued s)). rewrite reverse_lookup by lia. rewrite <- Hk. f_equal. lia. }
  destruct (Hn _ _ (Hrev _ _ E1)) as (o1 & id1 & P1), (Hn _ _ (Hrev _ _ E2)) as (o2 & id2 & P2).
  rewrite P1, P2 in Heq. apply permit_id_sequence in Heq; [|apply wrap_u64_u64..].
  rewrite !wrap_u64_small in Heq by (unfold is_u64, u64_max; lia). lia.
Qed.

(** A new front door. *)
Definition fd_start (d : FrontDoor) : FdState := {| fs_door := d; fs_held := []; fs_issued := [] |}.

Lemma front_door_start a n p ledger d :
  is_u64 n -> is_u64 p -> front_door_partitioned a n p ledger = Ok d ->
  (forall c, 0 <= capacity_of c (fd_reserve d) <= u64_max) /\
  accounted (fd_reserve d) (fd_start d) /\ numbered (fd_start d) /\
  il_capacity (fd_ledger d) = ledger /\ (0 <= ledger -> ledger_ok (fd_ledger d)).
Proof.
  intros Hn Hp Hd. unfold front_door_partitioned in Hd.
  apply rbind_ok in Hd as (r0 & Hr0 & Hd). apply rbind_ok in Hd as (l & Hl & [= <-]).
  unfold ledger_new in Hl. apply check_guard_ok in Hl as [Hz [= <-]].
  apply reserve_partitioned_ok in Hr0 as (_ & _ & ->). simpl fd_reserve. simpl fd_ledger.
  pose proof u64_max_val. unfold is_u64 in *. split_and!.
  - intros []; simpl; lia.
  - split; simpl; [done|done| |by intros []|done].
    intros []; unfold held_of; simpl in *; lia.
  - by split.
  - done.
  - intros Hnn. split_and!; simpl; [lia|constructor|unfold usize_of_len; simpl; lia|].
    intros k. rewrite lookup_empty. split; [by intros [? ?]|set_solver].
Qed.

(** C14. The front door keeps its books: after any calls, authorizations,
    acquisitions, issues, drops, releases, epoch changes and restarts in any
    order, as long as a restart seal is lifted only while no permit is held,
    no partition has more permits out than its counter says nor a counter
    above its capacity, the counters are exact whenever no seal is on, and no
    two permits were ever issued under one identity (while fewer than [2^64]
    have been). *)
Theorem front_door_accounting a n p ledger d cs :
  is_u64 n -> is_u64 p -> front_door_partitioned a n p ledger = Ok d ->
  reconciled_idle cs (fd_start d) ->
  let s := fd_calls cs (fd_start d) in
  let r := fd_reserve (fs_door s) in
  (forall c, held_of c (fs_held s) <= in_flight c r <= capacity_of c (fd_reserve d)) /\
  (cr_sealed_epoch r = None -> forall c, in_flight c r = held_of c (fs_held s)) /\
  (Z.of_nat (length (fs_issued s)) <= 2 ^ 64 -> NoDup (pb_permit_id <$> fs_issued s)).
Proof.
  intros Hn Hp Hd Hidle s r.
  destruct (front_door_start _ _ _ _ _ Hn Hp Hd) as (Hcap & Hacc0 & Hnum0 & _).
  pose proof (accounted_calls _ cs _ Hcap Hacc0 Hidle) as Hacc.
  pose proof (numbered_calls _ cs _ Hcap Hacc0 Hidle Hnum0) as Hnum.
  split_and!; [apply Hacc|intros Hnone c; by apply Hacc|by apply numbered_NoDup].
Qed.

(** ** The ledger over many calls *)

Definition fs_ledger (s : FdState) : IdempotencyLedger := fd_ledger (fs_door s).

Definition is_authorize (c : FdCall) : bool :=
  match c with
  | FcAuthorize _ _ _ _ _ => true
  | _ => false
  end.

(** A key is remembered and can outlive [m] further keys. *)
Definition remembered (key : string) (entry : LedgerEntry) (m : nat) (l : IdempotencyLedger) : Prop :=
  ledger_ok l /\ il_entries l !! key = Some entry /\
  exists pre post, il_order l = pre ++ key :: post /\
    Z.of_nat (length post + m) < il_capacity l.

Lemma record_decision_cases l key digest decision :
  ledger_ok l -> il_entries l !! key = None ->
  (exists e, record_decision key digest decision l = (l, Err e)) \/
  (exists l', record_decision key digest decision l = (l', Ok tt) /\ ledger_ok l' /\
     il_capacity l' = il_capacity l /\
     let excess := if usize_of_len (il_order l) <? il_capacity l then 0%nat else 1%nat in
     il_order l' = drop excess (il_order l ++ [key]) /\
     il_entries l' !! key =
       Some {| le_digest := digest; le_decision := decision; le_binding := None |} /\
     forall k, k ≠ key ->
       il_entries l' !! k = if bool_decide (k ∈ take excess (il_order l)) then None else il_entries l !! k).
Proof.
  intros Hok Hnone. unfold record_decision.
  destruct (validate_id key "idempotency_key") as [[]|e1] eqn:H1.
  2: { left. exists e1. unfold record_bound. unfold_monad. by rewrite H1. }
  destruct (validate_id digest "request_digest") as [[]|e2] eqn:H2.
  2: { left. exists e2. unfold record_bound. unfold_monad. by rewrite H1, H2. }
  right. destruct (record_new_key l key digest decision None Hok (conj H1 H2) Hnone)
    as (entries & Hrec & Hok' & Hkey & Hrest).
  eexists. split; [exact Hrec|]. split; [exact Hok'|]. done.
Qed.

(** What an authorization does to the ledger. *)
Lemma authorize_ledger d receipt route now key digest :
  is_u64 (in_flight ProtectedControl (fd_reserve d)) -> ledger_ok (fd_ledger d) ->
  let '(d', res) := authorize receipt route now key digest d in
  fd_ledger d' = fd_ledger d \/
  exists decision, res = Ok decision /\ il_entries (fd_ledger d) !! key = None /\
    record_decision key digest decision (fd_ledger d) = (fd_ledger d', Ok tt).
Proof.
  intros Hu Hok. destruct (il_entries (fd_ledger d) !! key) as [entry|] eqn:He.
  { rewrite (authorize_known _ _ _ _ _ _ _ He). by left. }
  rewrite authorize_new by done. destruct (decide_receipt _ _ _ _) as [decision|e]; [|by left].
  destruct (_ && _); [by left|]. unfold new_answer.
  destruct (record_decision_cases (fd_ledger d) key digest decision Hok He) as [[e Hr]|(l' & Hr & _)]; rewrite Hr.
  - by left.
  - right. by exists decision.
Qed.

Lemma remembered_authorize key entry m d receipt route now k digest :
  is_u64 (in_flight ProtectedControl (fd_reserve d)) -> remembered key entry (S m) (fd_ledger d) ->
  remembered key entry m (fd_ledger (authorize receipt route now k digest d).1).
Proof.
  intros Hu (Hok & He & pre & post & Hord & Hlen).
  pose proof (authorize_ledger d receipt route now k digest Hu Hok) as Ha.
  destruct (authorize receipt route now k digest d) as [d' res]. simpl.
  destruct Ha as [->|(decision & -> & Hnone & Hr)].
  { split; [done|]. split; [done|]. exists pre, post. split; [done|lia]. }
  assert (Hne : key <> k) by (intros ->; congruence).
  destruct (record_decision_cases _ _ digest decision Hok Hnone) as [[e Hr']|(l' & Hr' & Hok' & Hcap & Hord' & _ & Hrest)];
    [congruence|]. rewrite Hr in Hr'. injection Hr' as <-. split; [done|].
  pose proof (Hrest key Hne) as Hkey. simpl in Hord'. destruct (Z.ltb_spec (usize_of_len (il_order (fd_ledger d))) (il_capacity (fd_ledger d))) as [Hlt|Hge].
  - split; [by rewrite Hkey|]. exists pre, (post ++ [k]).
    rewrite Hcap, Hord', Hord, length_app. simpl. rewrite <- app_assoc. split; [done|lia].
  - destruct pre as [|k0 pre].
    { exfalso. rewrite Hord in Hge. unfold usize_of_len in Hge. simpl in Hge. lia. }
    destruct Hok as (_ & Hnd & _ & _). rewrite Hord in Hnd. simpl in Hnd. apply NoDup_cons in Hnd as [Hk0 _].
    split.
    + rewrite Hkey, Hord. rewrite bool_decide_eq_false_2; [done|]. simpl. intros Hin.
      apply list_elem_of_singleton in Hin as ->. apply Hk0. set_solver.
    + exists pre, (post ++ [k]). rewrite Hcap, Hord', Hord, length_app. simpl. rewrite <- app_assoc.
      split; [done|lia].
Qed.

Lemma fd_call_ledger c s :
  is_authorize c = false -> c <> FcRestart -> fs_ledger (fd_call c s) = fs_ledger s.
Proof.
  unfold fs_ledger. destruct c; try done; intros _ Hr; simpl; try done.
  - unfold acquire_control. by destruct (acquire_legacy_protected _ _).
  - unfold acquire_normal. unfold_monad. by rewrite on_reserve_run.
  - unfold acquire_protected. unfold_monad. by rewrite on_reserve_run.
  - unfold acquire_emergency. unfold_monad. by rewrite on_reserve_run.
  - pose proof (issue_permit_run (fs_door s) request generation now) as Hrun. simpl in Hrun.
    destruct (issue_permit request generation now (fs_door s)) as [d' [[permit binding]|e]].
    + by destruct Hrun as (_ & -> & _).
    + by destruct Hrun as [_ ->].
  - unfold fd_dropped. by destruct (fs_held s !! index).
  - unfold fd_dropped. by destruct (fs_held s !! index).
  - unfold front_door_advance_epoch, on_authority. by destruct (advance_epoch _).
  - unfold front_door_synchronize_epoch, on_authority. by destruct (synchronize_epoch target _).
  - unfold reconcile_after_epoch_advance. unfold_monad. by rewrite on_reserve_run.
Qed.

Lemma ledger_ok_call r0 c s :
  (forall c, capacity_of c r0 <= u64_max) -> accounted r0 s -> ledger_ok (fs_ledger s) ->
  ledger_ok (fs_ledger (fd_call c s)).
Proof.
  intros Hcap Hs Hok. destruct (decide (c = FcRestart)) as [->|Hr].
  { destruct Hok as (H1 & _). unfold fs_ledger, ledger_ok in *. simpl.
    split_and!; [done|constructor|unfold usize_of_len; simpl; lia|]. intros key. rewrite lookup_empty. split; [by intros [? ?]|set_solver]. }
  destruct (is_authorize c) eqn:Ha; [|by rewrite fd_call_ledger].
  destruct c; try done. unfold fs_ledger in *. simpl.
  pose proof (authorize_ledger (fs_door s) receipt route now key digest
                (accounted_u64 r0 s ProtectedControl Hs (Hcap _)) Hok) as Hl.
  destruct (authorize receipt route now key digest (fs_door s)) as [d' res]. simpl.
  destruct Hl as [->|(decision & -> & Hnone & Hrec)]; [done|].
  destruct (record_decision_cases _ _ digest decision Hok Hnone) as [[e Hr']|(l' & Hr' & Hok' & _)];
    [congruence|]. rewrite Hrec in Hr'. by injection Hr' as <-.
Qed.

Lemma remembered_calls r0 key entry cs : forall m s,
  (forall c, 0 <= capacity_of c r0 <= u64_max) -> accounted r0 s -> reconciled_idle cs s ->
  FcRestart ∉ cs -> remembered key entry (length (List.filter is_authorize cs) + m) (fs_ledger s) ->
  remembered key entry m (fs_ledger (fd_calls cs s)).
Proof.
  induction cs as [|c cs IH]; intros m s Hcap Hs Hidle Hno Hrem; [done|]. destruct Hidle as [Hc Hidle].
  apply not_elem_of_cons in Hno as [Hne Hno]. simpl.
  apply (IH m (fd_call c s)); [done|by apply accounted_call|done|done|].
  simpl in Hrem. destruct (is_authorize c) eqn:Ha.
  - destruct c; try done. unfold fs_ledger in *. simpl in Hrem |- *. apply remembered_authorize; [|done].
    apply (accounted_u64 r0); [done|]. apply Hcap.
  - by rewrite fd_call_ledger.
Qed.

Lemma ledger_ok_calls r0 cs : forall s,
  (forall c, 0 <= capacity_of c r0 <= u64_max) -> accounted r0 s -> reconciled_idle cs s ->
  ledger_ok (fs_ledger s) -> ledger_ok (fs_ledger (fd_calls cs s)).
Proof.
  induction cs as [|c cs IH]; intros s Hcap Hs Hidle Hok; [done|]. destruct Hidle as [Hc Hidle].
  apply (IH (fd_call c s)); [done|by apply accounted_call|done|].
  apply (ledger_ok_call r0); [intros c'; apply Hcap|done|done].
Qed.

Lemma fd_calls_app cs1 cs2 s : fd_calls (cs1 ++ cs2) s = fd_calls cs2 (fd_calls cs1 s).
Proof. unfold fd_calls. by rewrite fold_left_app. Qed.

Lemma reconciled_idle_app cs1 : forall cs2 s,
  reconciled_idle (cs1 ++ cs2) s <-> reconciled_idle cs1 s /\ reconciled_idle cs2 (fd_calls cs1 s).
Proof.
  induction cs1 as [|c cs1 IH]; intros cs2 s; simpl; [tauto|]. rewrite IH. change (fd_calls (c :: cs1) s)
    with (fd_calls cs1 (fd_call c s)). tauto.
Qed.

(** The size of the ledger is fixed. *)
Lemma fd_call_capacity r0 c s :
  (forall c, capacity_of c r0 <= u64_max) -> accounted r0 s -> ledger_ok (fs_ledger s) ->
  il_capacity (fs_ledger (fd_call c s)) = il_capacity (fs_ledger s).
Proof.
  intros Hcap Hs Hok. destruct (decide (c = FcRestart)) as [->|Hr]; [done|].
  destruct (is_authorize c) eqn:Ha; [|by rewrite fd_call_ledger].
  destruct c; try done. unfold fs_ledger in *. simpl.
  pose proof (authorize_ledger (fs_door s) receipt route now key digest
                (accounted_u64 r0 s ProtectedControl Hs (Hcap _)) Hok) as Hl.
  destruct (authorize receipt route now key digest (fs_door s)) as [d' res]. simpl.
  destruct Hl as [->|(decision & -> & Hnone & Hrec)]; [done|].
  destruct (record_decision_cases _ _ digest decision Hok Hnone) as [[e Hr']|(l' & Hr' & _ & Hc & _)];
    [congruence|]. rewrite Hrec in Hr'. by injection Hr' as <-.
Qed.

Lemma fd_calls_capacity r0 cs : forall s,
  (forall c, 0 <= capacity_of c r0 <= u64_max) -> accounted r0 s -> reconciled_idle cs s ->
  ledger_ok (fs_ledger s) -> il_capacity (fs_ledger (fd_calls cs s)) = il_capacity (fs_ledger s).
Proof.
  induction cs as [|c cs IH]; intros s Hcap Hs Hidle Hok; [done|]. destruct Hidle as [Hc Hidle].
  assert (Hle : forall c, capacity_of c r0 <= u64_max) by (intros c'; apply Hcap).
  change (fd_calls (c :: cs) s) with (fd_calls cs (fd_call c s)).
  rewrite IH; [by apply (fd_call_capacity r0)|done|by apply accounted_call|done|by apply (ledger_ok_call r0)].
Qed.

(** A key just recorded can outlive as many keys as the ledger has places,
    less one. *)
Lemma remembered_recorded l l' key digest decision m :
  ledger_ok l -> il_entries l !! key = None -> record_decision key digest decision l = (l', Ok tt) ->
  Z.of_nat m < il_capacity l ->
  remembered key {| le_digest := digest; le_decision := decision; le_binding := None |} m l'.
Proof.
  intros Hok Hnone Hr Hm.
  destruct (record_decision_cases _ _ digest decision Hok Hnone) as [[e Hr']|(l1 & Hr' & Hok' & Hcap & Hord & Hk & _)];
    [congruence|]. rewrite Hr in Hr'. injection Hr' as <-. split; [done|]. split; [done|].
  simpl in Hord. destruct (Z.ltb_spec (usize_of_len (il_order l)) (il_capacity l)) as [Hlt|Hge].
  - exists (il_order l), []. rewrite Hcap, Hord. done.
  - destruct (il_order l) as [|k0 order]; [exfalso; unfold usize_of_len in Hge; simpl in Hge; lia|].
    exists order, []. rewrite Hcap, Hord. done.
Qed.

(** A new key that is answered has been recorded. *)
Lemma authorize_records d receipt route now key digest d' decision :
  is_u64 (in_flight ProtectedControl (fd_reserve d)) -> il_entries (fd_ledger d) !! key = None ->
  ledger_ok (fd_ledger d) -> authorize receipt route now key digest d = (d', Ok decision) ->
  record_decision key digest decision (fd_ledger d) = (fd_ledger d', Ok tt).
Proof.
  intros Hu Hnone Hok. rewrite authorize_new by done.
  destruct (decide_receipt _ _ _ _) as [decision'|e]; [|done]. destruct (_ && _); [done|].
  unfold new_answer.
  destruct (record_decision_cases (fd_ledger d) key digest decision' Hok Hnone) as [[e Hr]|(l' & Hr & _)];
    rewrite Hr; [done|]. intros [= <- <-]. exact Hr.
Qed.

(** The answer to a new key is the decision of the authority. *)
Lemma authorize_decides d receipt route now key digest d' decision :
  is_u64 (in_flight ProtectedControl (fd_reserve d)) -> il_entries (fd_ledger d) !! key = None ->
  authorize receipt route now key digest d = (d', Ok decision) ->
  decide_receipt (fd_authority d) receipt route now = Ok decision /\ fd_authority d' = fd_authority d.
Proof.
  intros Hu Hnone. rewrite authorize_new by done.
  destruct (decide_receipt _ _ _ _) as [decision'|e]; [|done]. destruct (_ && _); [done|].
  unfold new_answer. destruct (record_decision key digest decision' (fd_ledger d)) as [l [[]|e]]; [|done].
  by intros [= <- <-].
Qed.

End Calls.
