(* ===== verification/CapacityTheorems.v ===== *)
(** * From the reserves to the compiled profile

    The rows that the two capacity owners publish pass the contract, join and
    compile: the profile then claims their three dimensions with the
    partitions the reserves really have. *)

From Stdlib Require Import String.
From S2P Require Import Prelude RustText Contracts RuntimeErrors CapacityContracts Kernel.
From S2P Require Import CapacityProfile CapacityLaws Receipts AuthorityReceipts FrontDoor OrsModel.
From S2P Require Import OrsReserve.

#[local] Open Scope string_scope.
#[local] Open Scope list_scope.
#[local] Open Scope Z_scope.

(** The references a composition has to resolve for an owner. *)
Definition refs_resolved (generation proof : string) (evidence invalidation : list string) : Prop :=
  is_blank generation = false /\ is_blank proof = false /\
  evidence <> [] /\ strictly_ascending evidence = true /\
  invalidation <> [] /\ strictly_ascending invalidation = true.

(** A claimed row over two partitions whose total is their sum. *)
Definition partition_row (b : CapacityBottleneck) (owner : string) (n p : Z)
    (generation proof : string) (evidence invalidation : list string) : BottleneckCapacityProfile :=
  let limit z := {| cl_unit := bottleneck_unit b; cl_quantity := z |} in
  {| bp_bottleneck := b; bp_coverage_state := CoverageClaimed; bp_owner_ref := owner;
     bp_owner_generation_ref := generation; bp_unit := bottleneck_unit b;
     bp_physical_total_limit := Some (limit (n + p)); bp_normal_work_applicable := true;
     bp_normal_limit := Some (limit n); bp_protected_limit := Some (limit p);
     bp_emergency_limit := None; bp_enforcement := Some PhysicalPartition;
     bp_proof_profile_ref := proof; bp_evidence_refs := evidence;
     bp_invalidation_set := invalidation |}.

Section Publish.
Lemma non_zero_pos z : 0 < z -> non_zero z = Some z.
Proof. intros Hz. unfold non_zero. assert (z =? 0 = false) as -> by lia. done. Qed.

Lemma partition_row_valid b owner n p generation proof evidence invalidation :
  0 < n -> 0 < p -> n + p <= u64_max -> is_blank owner = false ->
  refs_resolved generation proof evidence invalidation ->
  row_validate (partition_row b owner n p generation proof evidence invalidation) = Ok tt.
Proof.
  intros Hn Hp Hsum Ho (Hg & Hpr & He & Hea & Hi & Hia).
  apply (claimed_row_promises _ {| cl_unit := bottleneck_unit b; cl_quantity := n + p |});
    [done|done| |done|].
  { repeat constructor; simpl; lia. }
  unfold limit_total. simpl. split_and!; try done; [|unfold sum_list; simpl; lia].
  repeat constructor.
Qed.

Lemma publish_owner_row_exact r ctx :
  0 < cr_normal_capacity r -> 0 < cr_protected_capacity r ->
  cr_normal_capacity r + cr_protected_capacity r <= u64_max ->
  refs_resolved (fc_owner_generation_ref ctx) (fc_proof_profile_ref ctx) (fc_evidence_refs ctx)
    (fc_invalidation_set ctx) ->
  publish_owner_row r ctx =
    Ok (partition_row KernelControlChannel "Kernel front-door/control-channel owner"
          (cr_normal_capacity r) (cr_protected_capacity r) (fc_owner_generation_ref ctx)
          (fc_proof_profile_ref ctx) (fc_evidence_refs ctx) (fc_invalidation_set ctx)).
Proof.
  intros Hn Hp Hsum Hrefs. unfold publish_owner_row, partition_limit.
  change (List.find (fun bound => ob_bottleneck bound == FRONT_DOOR_BOTTLENECK) frozen_bottleneck_owner_map)
    with (Some {| ob_bottleneck := KernelControlChannel; ob_unit := Items;
                  ob_owner := "Kernel front-door/control-channel owner" |}).
  rewrite !non_zero_pos by done. cbn [ok_or rbind].
  assert (checked_add (cr_normal_capacity r) (cr_protected_capacity r)
          = Some (cr_normal_capacity r + cr_protected_capacity r)) as -> by (apply checked_add_some; lia).
  cbn [ok_or rbind]. rewrite non_zero_pos by lia. cbn [ok_or rbind].
  match goal with |- context [row_validate ?row] => assert (row_validate row = Ok tt) as -> end; [|done].
  by apply (partition_row_valid KernelControlChannel "Kernel front-door/control-channel owner").
Qed.

Lemma owner_capacity_row_exact b owner n p ctx :
  List.find (fun bound => ob_bottleneck bound == b) frozen_bottleneck_owner_map
    = Some {| ob_bottleneck := b; ob_unit := bottleneck_unit b; ob_owner := owner |} ->
  is_blank owner = false -> 0 < n -> 0 < p -> n + p <= u64_max ->
  refs_resolved (ox_owner_generation_ref ctx) (ox_proof_profile_ref ctx) (ox_evidence_refs ctx)
    (ox_invalidation_set ctx) ->
  owner_capacity_row b n p ctx =
    Ok (partition_row b owner n p (ox_owner_generation_ref ctx) (ox_proof_profile_ref ctx)
          (ox_evidence_refs ctx) (ox_invalidation_set ctx)).
Proof.
  intros Hf Ho Hn Hp Hsum Hrefs. unfold owner_capacity_row, ors_partition_limit. rewrite Hf. cbn [ok_or rbind].
  rewrite !non_zero_pos by done. cbn [ok_or rbind].
  assert (checked_add n p = Some (n + p)) as -> by (apply checked_add_some; lia).
  cbn [ok_or rbind]. rewrite non_zero_pos by lia. cbn [ok_or rbind].
  match goal with |- context [row_validate ?row] => assert (row_validate row = Ok tt) as -> end; [|done].
  by apply (partition_row_valid b owner).
Qed.
End Publish.

(** C19. The capacity pipeline works end to end: for every front-door reserve
    and every recovery-store reserve their constructors accept, with
    partitions whose sums fit and with resolved references, both owners
    publish their rows, the recovery store's rows join, and the three records
    compile into a profile that claims exactly those three dimensions, with
    the partition sizes of the two reserves and a physical total that is
    their sum; every other dimension is unknown and named as lowered. *)
Theorem published_rows_compile identity n p r tn tp dn dp o fctx octx :
  reserve_partitioned n p = Ok r -> 0 <= n -> 0 <= p -> n + p <= u64_max ->
  ors_reserve_partitioned tn tp dn dp = Ok o -> 0 <= tn -> 0 <= tp -> tn + tp <= u64_max ->
  0 < dn -> 0 < dp -> dn + dp <= u64_max ->
  refs_resolved (fc_owner_generation_ref fctx) (fc_proof_profile_ref fctx) (fc_evidence_refs fctx)
    (fc_invalidation_set fctx) ->
  refs_resolved (ox_owner_generation_ref octx) (ox_proof_profile_ref octx) (ox_evidence_refs octx)
    (ox_invalidation_set octx) ->
  is_blank (pi_config_snapshot_ref identity) = false ->
  strictly_ascending (pi_source_build_and_runtime_generation_refs identity) = true ->
  strictly_ascending (pi_profile_evidence_refs identity) = true ->
  strictly_ascending (pi_invalidation_set identity) = true ->
  exists row rows e1 e2 profile,
    publish_owner_row r fctx = Ok row /\ publish_owner_rows o octx = Ok rows /\
    join_ors_owner_evidence rows (pi_config_snapshot_ref identity) (pi_authority_epoch_ref identity)
      = Ok (e1, e2) /\
    compile_control_reserve_profile identity
      [{| oe_config_snapshot_ref := pi_config_snapshot_ref identity;
          oe_authority_epoch_ref := pi_authority_epoch_ref identity; oe_row := row |}; e1; e2]
      = Ok profile /\
    List.filter (fun x => bp_coverage_state x == CoverageClaimed) (cp_bottleneck_rows profile)
      = row :: rows /\
    (fun x => (bp_normal_limit x, bp_protected_limit x, bp_physical_total_limit x)) <$> (row :: rows)
      = (fun '(unit, a, b) => (Some {| cl_unit := unit; cl_quantity := a |},
                               Some {| cl_unit := unit; cl_quantity := b |},
                               Some {| cl_unit := unit; cl_quantity := a + b |})) <$>
          [(Items, n, p); (Transactions, tn, tp); (Bytes, dn, dp)] /\
    length (cp_unsupported_or_unknown_guarantees profile) = 12%nat.
Proof.
  intros Hr Hn Hp Hs1 Ho Htn Htp Hs2 Hdn Hdp Hs3 Hf Hox Hsnap Hc1 Hc2 Hc3.
  unfold reserve_partitioned in Hr. rewrite !check_guard_ok in Hr. destruct Hr as (Hn0 & Hp0 & [= <-]).
  unfold ors_reserve_partitioned in Ho. rewrite !check_guard_ok in Ho. destruct Ho as (Ht0 & Ht1 & [= <-]).
  set (row := partition_row KernelControlChannel "Kernel front-door/control-channel owner" n p
    (fc_owner_generation_ref fctx) (fc_proof_profile_ref fctx) (fc_evidence_refs fctx) (fc_invalidation_set fctx)).
  set (tx := partition_row OrsTransactionSlots "Kernel ORS owner" tn tp (ox_owner_generation_ref octx)
    (ox_proof_profile_ref octx) (ox_evidence_refs octx) (ox_invalidation_set octx)).
  set (du := partition_row OrsDurableQueueBytes "Kernel ORS owner" dn dp (ox_owner_generation_ref octx)
    (ox_proof_profile_ref octx) (ox_evidence_refs octx) (ox_invalidation_set octx)).
  set (record := fun x => {| oe_config_snapshot_ref := pi_config_snapshot_ref identity;
                             oe_authority_epoch_ref := pi_authority_epoch_ref identity; oe_row := x |}).
  assert (Hvr : row_validate row = Ok tt) by (apply partition_row_valid; done || lia).
  assert (Hvt : row_validate tx = Ok tt) by (apply partition_row_valid; done || lia).
  assert (Hvd : row_validate du = Ok tt) by (apply partition_row_valid; done || lia).
  exists row, [tx; du], (record tx), (record du), (compiled_profile identity [record row; record tx; record du]).
  assert (Hcur : forall x, is_current (record x) identity = true).
  { intros x. unfold is_current. simpl. rewrite bool_decide_eq_true_2 by done. by apply is_same_authority_eq. }
  assert (Hrow : forall b, current_row identity [record row; record tx; record du] b
            = if b == KernelControlChannel then Some row else if b == OrsTransactionSlots then Some tx
              else if b == OrsDurableQueueBytes then Some du else None).
  { intros b. unfold current_row. by destruct b; simpl; rewrite ?Hcur. }
  split_and!.
  - rewrite publish_owner_row_exact; simpl; done || lia.
  - unfold publish_owner_rows. rewrite (owner_capacity_row_exact _ "Kernel ORS owner"); [|done|done|simpl; lia..|done].
    rewrite (owner_capacity_row_exact _ "Kernel ORS owner"); [|done|done|simpl; lia..|done]. done.
  - unfold join_ors_owner_evidence. rewrite Hsnap. simpl. unfold evidence_for. simpl. by rewrite Hvt, Hvd.
  - apply compile_exact. split_and!; try done.
    + simpl. repeat (apply NoDup_cons; split; [set_solver|]). constructor.
    + apply Forall_forall. intros bound Hb x Hx Hcl. rewrite Hrow in Hx.
      repeat (apply elem_of_cons in Hb as [->|Hb]; [simpl in Hx; by simplify_eq|]). set_solver.
    + intros b x Hx. rewrite Hrow in Hx. repeat case_bool_decide; simplify_eq; done.
  - rewrite compiled_profile_rows. unfold frozen_bottleneck_owner_map, compiled_row. rewrite !fmap_cons, fmap_nil.
    rewrite !Hrow. reflexivity.
  - reflexivity.
  - unfold compiled_profile, cp_unsupported_or_unknown_guarantees. rewrite merge_sort_Permutation.
    unfold frozen_bottleneck_owner_map, compiled_row. rewrite !fmap_cons, fmap_nil. rewrite !Hrow. reflexivity.
Qed.
