(* ===== verification/FrontDoorFindings.v ===== *)
(** * Where the control reserve and the front door depart from their
    documentation

    Each theorem describes a behaviour of the modelled code that a comment of
    the source excludes: a grant that is replayed after its epoch was fenced,
    a malformed tag answered with an error, a grant after the restart seal, a
    permit that outlives a reconciliation, a sealed reserve that reports room,
    and the error of an invalid recovery-store row. *)

From Stdlib Require Import String.
From S2P Require Import Prelude RustText Contracts RuntimeErrors CapacityContracts Kernel.
From S2P Require Import CapacityProfile Receipts AuthorityReceipts FrontDoor OrsModel OrsReserve.
From S2P Require Import FrontDoorAtomics FrontDoorLaws FrontDoorCalls.

#[local] Open Scope string_scope.
#[local] Open Scope list_scope.
#[local] Open Scope Z_scope.

Section Replay.
Context `{AuthorityCrypto}.

(** [advance_epoch] says that it fences all receipts issued before, and the
    module documentation that replay through the ledger is bound to the
    Authority Epoch. The entries of [authorize] are bound to no epoch: after
    the fence has moved, the receipt is refused as stale, and authorizing it
    again under its old key still answers with the grant of the old epoch. *)
Theorem fenced_grant_is_replayed d receipt route now key digest d1 grant d2 e :
  keyed_hash_ok -> is_u64 (in_flight ProtectedControl (fd_reserve d)) -> ledger_ok (fd_ledger d) ->
  il_entries (fd_ledger d) !! key = None ->
  authorize receipt route now key digest d = (d1, Ok (Granted grant)) ->
  front_door_advance_epoch d1 = (d2, Ok e) ->
  forall now',
    (exists observed active,
       consume (fd_authority d2) receipt route now' = Err (StaleEpoch observed active)) /\
    authorize receipt route now' key digest d2 = (d2, Ok (Granted grant)) /\
    ag_authority_epoch grant <> fd_epoch d2.
Proof.
  intros Hk Hu Hok Hnone Ha Hadv now'.
  destruct (authorize_decides _ _ _ _ _ _ _ _ Hu Hnone Ha) as [Hdec Hd1].
  assert (Hg : consume (fd_authority d) receipt route now = Ok grant).
  { unfold decide_receipt in Hdec. by destruct (consume (fd_authority d) receipt route now) as [g|[]]; simplify_eq. }
  apply consume_ok in Hg as (-> & Hsig & Hep & Hroute & _); [|done].
  pose proof (authorize_records _ _ _ _ _ _ _ _ Hu Hnone Hok Ha) as Hrec.
  unfold front_door_advance_epoch, on_authority in Hadv.
  destruct (advance_epoch (fd_authority d1)) as [a res] eqn:E. simplify_eq.
  unfold advance_epoch in E. unfold_monad. destruct (checked_add _ _) as [z|] eqn:Hc; simplify_eq/=.
  apply checked_add_some in Hc as [-> _]. destruct (_ =? 0); simplify_eq/=.
  rewrite Hd1 in *. split_and!.
  - do 2 eexists. unfold consume. simpl. apply (proj2 (verify_tag_exact _ _ Hk)) in Hsig as ->. simpl.
    rewrite Hep. unfold is_same_authority. simpl.
    assert (sequence (ka_current_epoch (fd_authority d)) =? sequence (ka_current_epoch (fd_authority d)) + 1 = false)
      as -> by lia.
    rewrite andb_false_r, bool_decide_eq_true_2 by done. reflexivity.
  - rewrite (authorize_known _ _ _ _ _ _ {| le_digest := digest;
      le_decision := Granted (grant_of (ar_unsigned receipt)); le_binding := None |}).
    { unfold known_answer. by rewrite bool_decide_eq_true_2. }
    destruct (record_decision_cases _ _ digest (Granted (grant_of (ar_unsigned receipt))) Hok Hnone)
      as [[e' Hr']|(l' & Hr' & _ & _ & _ & Hkey & _)]; [congruence|].
    rewrite Hrec in Hr'. injection Hr' as <-. exact Hkey.
  - rewrite Hep. unfold fd_epoch. simpl. intros Heq. apply (f_equal sequence) in Heq. simpl in Heq. lia.
Qed.

(** [authorize] says that receipt rejections are returned as [Denied], never
    as an error; a receipt whose tag is not 64 lowercase hexadecimal digits
    is rejected with an error and leaves no ledger entry. *)
Theorem malformed_tag_is_an_error d receipt route now key digest e :
  keyed_hash_ok -> is_u64 (in_flight ProtectedControl (fd_reserve d)) ->
  il_entries (fd_ledger d) !! key = None -> decode_hex (ar_tag receipt) = Err e ->
  is_ok (authority_json (ar_unsigned receipt)) = true ->
  authorize receipt route now key digest d = (d, Err e) /\
  e = KInvalidField "authority_receipt.tag" "must be a lowercase hexadecimal digest".
Proof.
  intros Hk Hu Hnone Hd Hj.
  assert (He : e = KInvalidField "authority_receipt.tag" "must be a lowercase hexadecimal digest").
  { unfold decode_hex in Hd. cbv zeta in Hd. by destruct (_ || _) in Hd; simplify_eq/=. }
  split; [|done]. rewrite authorize_new by done.
  destruct (authority_json (ar_unsigned receipt)) as [bs|] eqn:Hbs; [|done].
  unfold decide_receipt, consume, verify_tag, compute_tag. rewrite Hbs. cbn [rbind map_err].
  destruct (Hk (ka_key (fd_authority d)) bs) as [Hl Hb].
  assert (decode_hex (encode_hex (keyed_hash (ka_key (fd_authority d)) bs))
          = Ok (keyed_hash (ka_key (fd_authority d)) bs)) as -> by (by apply decode_hex_exact).
  cbn [rbind]. rewrite Hd, He. done.
Qed.
End Replay.

(** ** The restart seal *)

Section Seal.
(** While sealed, every acquisition is said to fail closed. An acquisition
    that read the seal before it was set is still granted when a permit is
    given back after the counter was raised: here thread 0 acquires the only
    normal slot after thread 1 has sealed the reserve. *)
Theorem granted_after_seal :
  exists (r0 : ControlReserve) tr c,
    reserve_partitioned 1 1 = Ok r0 /\
    @asteps CapacityClass _ (front_door_cas r0) at_start tr c /\
    exists before after, tr = before ++ LSealed :: after /\ LPoint 0 NormalWorkload 1 true ∈ after /\
      at_sealed c = true.
Proof.
  destruct (reserve_partitioned 1 1) as [r0|] eqn:Hr; [|done].
  exists r0. apply reserve_partitioned_ok in Hr as (_ & _ & ->). do 2 eexists. split; [reflexivity|]. split.
  - (* thread 2 takes the slot, thread 0 begins and reads the seal *)
    eapply asteps_snoc; [eapply asteps_snoc; [eapply asteps_snoc; [eapply asteps_snoc; [eapply asteps_snoc;
      [eapply asteps_snoc; [eapply asteps_snoc; [eapply asteps_snoc; [eapply asteps_snoc; [eapply asteps_snoc;
      [eapply asteps_snoc; [eapply asteps_snoc; [eapply asteps_snoc; [eapply asteps_snoc;
      [apply asteps_refl|]|]|]|]|]|]|]|]|]|]|]|]|]|].
    + by apply (step_call _ 2 NormalWorkload 1).
    + by apply (step_unsealed _ 2 NormalWorkload 1).
    + by apply (step_load _ 2 NormalWorkload 1).
    + by eapply (step_exchange _ 2 NormalWorkload 1).
    + by apply (step_call _ 0 NormalWorkload 1).
    + by apply (step_unsealed _ 0 NormalWorkload 1).
    + (* thread 1 seals *) by apply (step_seal _ 1).
    + by apply (step_pin _ 1 NormalWorkload).
    + by apply (step_pin _ 1 ProtectedControl).
    + by apply (step_pin _ 1 EmergencyLastResort).
    + by apply (step_set_sealed _ 1).
    + (* the permit is dropped, and thread 0 goes on *) by apply (step_drop _ NormalWorkload 1 []).
    + by apply (step_load _ 0 NormalWorkload 1).
    + by eapply (step_exchange _ 0 NormalWorkload 1).
  - exists [LCall 2 NormalWorkload 1; LPoint 2 NormalWorkload 1 true; LCall 0 NormalWorkload 1;
            LPin NormalWorkload; LPin ProtectedControl; LPin EmergencyLastResort],
           [LDrop NormalWorkload 1; LPoint 0 NormalWorkload 1 true].
    split; [reflexivity|]. split; [by right; left|reflexivity].
Qed.

Context `{AuthorityCrypto}.

Lemma acquire_control_full d :
  cr_restart_sealed (fd_reserve d) = false ->
  capacity_of ProtectedControl (fd_reserve d) <= in_flight ProtectedControl (fd_reserve d) ->
  acquire_control d = (d, Err ControlReserveExhausted).
Proof.
  intros Hs Hfull. unfold acquire_control, acquire_legacy_protected.
  apply cas_increment_none in Hfull. rewrite Hs, Hfull. destruct d. simpl. reflexivity.
Qed.

(** A front door with [used] protected slots in use. *)
Definition door_using (used : Z) (a : KernelAuthority) (n p : Z) (l : IdempotencyLedger) : FrontDoor :=
  {| fd_authority := a;
     fd_reserve := {| cr_normal_capacity := n; cr_protected_capacity := p; cr_emergency_capacity := 1;
                      cr_normal_in_flight := 0; cr_protected_in_flight := used;
                      cr_emergency_in_flight := 0; cr_restart_sealed := false; cr_sealed_epoch := None;
                      cr_permit_sequence := 0 |};
     fd_ledger := l |}.

Lemma front_door_fresh a n p ledger d :
  is_u64 n -> is_u64 p -> front_door_partitioned a n p ledger = Ok d ->
  exists l, d = door_using 0 a n p l /\ 0 < p.
Proof.
  intros Hn Hp Hd. unfold front_door_partitioned in Hd.
  apply rbind_ok in Hd as (r0 & Hr0 & Hd). apply rbind_ok in Hd as (l & _ & [= <-]).
  apply reserve_partitioned_ok in Hr0 as (Hn0 & Hp0 & ->). exists l. unfold is_u64 in *. split; [done|lia].
Qed.

Lemma first_control a n p l :
  0 < p ->
  fd_call FcControl (fd_start (door_using 0 a n p l))
  = {| fs_door := door_using 1 a n p l;
       fs_held := [new_permit ProtectedControl LegacyControl "legacy-control" "legacy-control-reserve"
                     (ka_current_epoch a)]; fs_issued := [] |}.
Proof.
  intros Hp. unfold fd_call, fd_acquired, acquire_control, acquire_legacy_protected, cas_increment,
    increment_attempt. simpl. assert (p <=? 0 = false) as -> by lia. reflexivity.
Qed.

(** A permit that is held when the reserve is reconciled returns a slot the
    reserve no longer counts: the counter of the protected partition wraps,
    and with no permit out no control permit can be acquired again. *)
Theorem permit_across_reconcile_wraps a n p ledger d e :
  is_u64 n -> is_u64 p -> front_door_partitioned a n p ledger = Ok d ->
  checked_add (sequence (ka_current_epoch a)) 1 = Some e -> 0 < sequence (ka_current_epoch a) ->
  let s := fd_calls [FcControl; FcRestart; FcAdvance; FcReconcile; FcDrop 0] (fd_start d) in
  fs_held s = [] /\ cr_restart_sealed (fd_reserve (fs_door s)) = false /\
  in_flight ProtectedControl (fd_reserve (fs_door s)) = u64_max /\
  acquire_control (fs_door s) = (fs_door s, Err ControlReserveExhausted).
Proof.
  intros Hn Hp Hd Hadv Hpos. destruct (front_door_fresh _ _ _ _ _ Hn Hp Hd) as (l & -> & Hp0).
  pose proof Hadv as Hle. apply checked_add_some in Hle as [-> Hle].
  unfold is_u64 in *. unfold fd_calls. cbn [fold_left]. rewrite first_control by done.
  unfold fd_call at 3. unfold on_door. simpl fs_door. unfold front_door_advance_epoch, on_authority, advance_epoch.
  unfold_monad. cbn [fd_authority note_restart set_reserve set_ledger door_using]. rewrite Hadv.
  assert (sequence (ka_current_epoch a) + 1 =? 0 = false) as -> by lia.
  assert (Hne : ka_current_epoch a <> {| lineage_id := lineage_id (ka_current_epoch a);
                                         sequence := sequence (ka_current_epoch a) + 1 |})
    by (intros Heq; apply (f_equal sequence) in Heq; simpl in Heq; lia).
  cbn. unfold on_reserve, unseal_after_epoch_advance. unfold_monad. cbn.
  rewrite (bool_decide_eq_false_2 _ Hne).
  cbn. split_and!; [done|done|done|].
  apply acquire_control_full; [reflexivity|]. change (p <= u64_max). lia.
Qed.

(** A sealed reserve is said to report zero availability everywhere; a permit
    that is given back after the seal makes it report room. *)
Theorem sealed_reserve_reports_room a n p ledger d :
  is_u64 n -> is_u64 p -> front_door_partitioned a n p ledger = Ok d ->
  let s := fd_calls [FcControl; FcRestart; FcDrop 0] (fd_start d) in
  cr_restart_sealed (fd_reserve (fs_door s)) = true /\
  available ProtectedControl (fd_reserve (fs_door s)) = 1.
Proof.
  intros Hn Hp Hd. destruct (front_door_fresh _ _ _ _ _ Hn Hp Hd) as (l & -> & Hp0).
  unfold is_u64 in *. unfold fd_calls. cbn [fold_left]. rewrite first_control by done.
  split; [done|]. change (Z.max 0 (p - wrap_u64 (Z.max 1 p - 1)) = 1).
  rewrite wrap_u64_small by (unfold is_u64; lia). lia.
Qed.
End Seal.

(** The join says that a row which is not contract-canonical is a
    [ControlReserveEvidenceContradiction]; it is the runtime contract error
    of the row. *)
Theorem invalid_ors_row_is_contract_error b row snapshot epoch e :
  bp_bottleneck row = b -> row_validate row = Err e ->
  evidence_for b [row] snapshot epoch = Err (KRuntimeContract e).
Proof.
  intros Hb He. unfold evidence_for. simpl. rewrite bool_decide_eq_true_2 by done. by rewrite He.
Qed.
