(* ===== verification/FrontDoorExamples.v ===== *)
(** * Runs of the authority, the compiler and the reserves

    A sample keyed hash, requests and executions: the witnesses of the
    theorems on the authority receipts, the capacity profile, the front door
    and the reserve of the recovery store. *)

From Stdlib Require Import String.
From S2P Require Import Prelude RustText Contracts RuntimeErrors CapacityContracts Kernel.
From S2P Require Import CapacityProfile Receipts AuthorityReceipts FrontDoor OrsModel OrsReserve.
From S2P Require Import FrontDoorAtomics FrontDoorLaws FrontDoorCalls CapacityTheorems.

#[local] Open Scope string_scope.
#[local] Open Scope list_scope.
#[local] Open Scope Z_scope.

(** ** Samples *)

(** A keyed hash that keeps the first thirty-two bytes of key and text. *)
#[export] Instance sample_crypto : AuthorityCrypto := {
  authority_json := fun u => Ok (bytes (ua_route_scope u) ++ bytes (ua_authority_owner u));
  keyed_hash := fun key bs => take 32 (((fun b => b mod 256) <$> key ++ bs) ++ repeat 0 32);
}.

Lemma sample_crypto_ok : keyed_hash_ok.
Proof.
  intros key bs. split.
  - cbn [keyed_hash sample_crypto]. rewrite length_take, length_app, repeat_length. lia.
  - apply Forall_take, Forall_app. split; [|by repeat constructor].
    apply Forall_fmap, Forall_true. intros b. unfold is_byte. simpl. pose proof (Z.mod_pos_bound b 256). lia.
Qed.

Definition sample_authority : KernelAuthority :=
  {| ka_key := [3; 1; 4]; ka_current_epoch := {| lineage_id := {| lineage_text := "lineage" |}; sequence := 4 |} |}.

Definition sample_grant_request : AuthorityGrantRequest :=
  {| gq_authority_id := "authority"; gq_authority_owner := "owner"; gq_route_scope := "route";
     gq_resource_generation := 1; gq_allowed_effect := Read; gq_proof_ceiling := Observation;
     gq_issued_at_ms := 10; gq_expires_at_ms := Some 100 |}.

Definition sample_receipt : AuthorityReceipt :=
  match issue sample_authority sample_grant_request with
  | Ok receipt => receipt
  | Err _ => {| ar_unsigned := {| ua_authority_id := ""; ua_authority_owner := "";
                  ua_authority_epoch := ka_current_epoch sample_authority; ua_route_scope := "";
                  ua_resource_generation := 0; ua_allowed_effect := Read;
                  ua_proof_ceiling := Observation; ua_issued_at_ms := 0;
                  ua_expires_at_ms := None |}; ar_tag := "" |}
  end.

(** ** Receipts *)

Lemma issued_receipt_lives_one_epoch_witness :
  consume sample_authority sample_receipt "route" 50 = Ok (grant_of (ar_unsigned sample_receipt)) /\
  consume (epoch_calls [CallAdvance] sample_authority) sample_receipt "route" 50 = Err (StaleEpoch 4 5).
Proof.
  split.
  - apply (proj1 (issued_receipt_lives_one_epoch sample_authority sample_grant_request sample_receipt []
                    "route" 50 sample_crypto_ok eq_refl) eq_refl). split; [reflexivity|].
    intros e [= <-]. lia.
  - apply (proj2 (issued_receipt_lives_one_epoch sample_authority sample_grant_request sample_receipt
                    [CallAdvance] "route" 50 sample_crypto_ok eq_refl)). discriminate.
Defined.

Lemma consume_exact_witness :
  consume sample_authority sample_receipt "route" 50 = Ok (grant_of (ar_unsigned sample_receipt)).
Proof.
  apply (consume_exact sample_authority sample_receipt "route" 50 _ sample_crypto_ok).
  split_and!; [reflexivity| |reflexivity|reflexivity|].
  - eexists. split; reflexivity.
  - intros e [= <-]. lia.
Defined.

(** ** The capacity pipeline *)

Definition sample_identity : ControlReserveProfileIdentity :=
  {| pi_profile_id := "profile"; pi_profile_revision := "1"; pi_product_identity_ref := "product";
     pi_source_build_and_runtime_generation_refs := ["build"; "generation"];
     pi_config_snapshot_ref := "snapshot"; pi_authority_epoch_ref := ka_current_epoch sample_authority;
     pi_compiled_at_ms := 10; pi_profile_evidence_refs := ["evidence"];
     pi_invalidation_set := ["restart"] |}.

Definition sample_reserve : ControlReserve :=
  {| cr_normal_capacity := 4; cr_protected_capacity := 2; cr_emergency_capacity := 1;
     cr_normal_in_flight := 0; cr_protected_in_flight := 0; cr_emergency_in_flight := 0;
     cr_restart_sealed := false; cr_sealed_epoch := None; cr_permit_sequence := 0 |}.

Definition sample_ors_reserve : OrsReserve :=
  {| ov_transaction_normal_capacity := 8; ov_transaction_protected_capacity := 4;
     ov_durable_normal_capacity_bytes := 1000; ov_durable_protected_capacity_bytes := 500;
     ov_transaction_normal_in_flight := 0; ov_transaction_protected_in_flight := 0;
     ov_durable_normal_in_flight_bytes := 0; ov_durable_protected_in_flight_bytes := 0;
     ov_restart_sealed := false |}.

Lemma published_rows_compile_witness :
  exists row rows e1 e2 profile,
    publish_owner_row sample_reserve
      {| fc_owner_generation_ref := "generation"; fc_proof_profile_ref := "proof";
         fc_evidence_refs := ["evidence"]; fc_invalidation_set := ["restart"] |} = Ok row /\
    join_ors_owner_evidence rows "snapshot" (ka_current_epoch sample_authority) = Ok (e1, e2) /\
    compile_control_reserve_profile sample_identity
      [{| oe_config_snapshot_ref := "snapshot"; oe_authority_epoch_ref := ka_current_epoch sample_authority;
          oe_row := row |}; e1; e2] = Ok profile /\
    length (cp_unsupported_or_unknown_guarantees profile) = 12%nat.
Proof.
  destruct (published_rows_compile sample_identity 4 2 sample_reserve 8 4 1000 500 sample_ors_reserve
    {| fc_owner_generation_ref := "generation"; fc_proof_profile_ref := "proof";
       fc_evidence_refs := ["evidence"]; fc_invalidation_set := ["restart"] |}
    {| ox_owner_generation_ref := "generation"; ox_proof_profile_ref := "proof";
       ox_evidence_refs := ["evidence"]; ox_invalidation_set := ["restart"] |}
    eq_refl ltac:(lia) ltac:(lia) ltac:(vm_compute; discriminate)
    eq_refl ltac:(lia) ltac:(lia) ltac:(vm_compute; discriminate) ltac:(lia) ltac:(lia)
    ltac:(vm_compute; discriminate)
    ltac:(unfold refs_resolved; split_and!; try reflexivity; discriminate)
    ltac:(unfold refs_resolved; split_and!; try reflexivity; discriminate) eq_refl eq_refl eq_refl eq_refl)
    as (row & rows & e1 & e2 & profile & H1 & _ & H3 & H4 & _ & _ & H7).
  exists row, rows, e1, e2, profile. split_and!; assumption.
Defined.

(** ** The front door *)

Definition sample_door : FrontDoor :=
  {| fd_authority := sample_authority; fd_reserve := sample_reserve;
     fd_ledger := {| il_capacity := 2; il_entries := ∅; il_order := [] |} |}.

Definition sample_capacity_request : CapacityRequest :=
  {| rq_operation := ReqProtected CancelOperation; rq_operation_id := "cancel-1";
     rq_requested_bottleneck := KernelControlChannel;
     rq_requested_limit := {| cl_unit := Items; cl_quantity := 1 |};
     rq_requesting_owner_ref := "owner"; rq_requesting_generation_ref := 1;
     rq_authority_epoch_ref := ka_current_epoch sample_authority; rq_profile_id := "profile";
     rq_profile_revision := "1"; rq_deadline_ms := 100 |}.

Lemma issue_permit_exact_witness :
  exists permit binding d,
    issue_permit sample_capacity_request 1 50 sample_door = (d, Ok (permit, binding)) /\
    issuable sample_door sample_capacity_request 50 /\ permit_binding_validate binding = Ok tt.
Proof.
  pose proof (issue_permit_exact sample_door sample_capacity_request 1 50 eq_refl) as H. cbv zeta in H.
  destruct (issue_permit sample_capacity_request 1 50 sample_door) as [d res] eqn:E.
  destruct res as [[permit binding]|e]; [|vm_compute in E; discriminate E].
  exists permit, binding, d. destruct H as (H1 & _ & _ & H2 & _). split; [reflexivity|]. split; assumption.
Defined.

(** Two permits, a restart, a new epoch, both given back, reconciled. *)
Definition sample_calls : list FdCall :=
  [FcIssue sample_capacity_request 1 50; FcNormal Interactive "owner" "work-1"; FcRestart; FcDrop 0;
   FcDrop 0; FcAdvance; FcReconcile; FcControl].

Lemma front_door_accounting_witness :
  let s := fd_calls sample_calls (fd_start sample_door) in
  in_flight ProtectedControl (fd_reserve (fs_door s)) = held_of ProtectedControl (fs_held s) /\
  held_of ProtectedControl (fs_held s) = 1 /\ length (fs_issued s) = 1%nat.
Proof.
  split; [|split; vm_compute; reflexivity].
  apply (front_door_accounting sample_authority 4 2 2 sample_door sample_calls).
  - split; vm_compute; discriminate.
  - split; vm_compute; discriminate.
  - reflexivity.
  - unfold sample_calls. cbn [reconciled_idle]. split_and!; try discriminate; [|exact I].
    intros _. vm_compute. reflexivity.
  - vm_compute. reflexivity.
Defined.


(** ** Interleaved executions *)

Section Observe.
Context {Slot : Type} `{EqDecision Slot} `{CasReserve Slot}.

Lemma observe_load c t s a ls :
  at_threads c t = BeforeLoad s a -> denied_at t s a (at_counters c s) = ls ->
  astep c ls (set_thread t (InLoop s a (at_counters c s)) c).
Proof. intros Ht <-. by apply step_load. Qed.

Lemma observe_again c t s a observed next ls :
  at_threads c t = InLoop s a observed -> slot_attempt s a observed = Some next ->
  denied_at t s a (at_counters c s) = ls ->
  astep c ls (set_thread t (InLoop s a (at_counters c s)) c).
Proof. intros Ht Ha <-. by eapply step_exchange_fails. Qed.
End Observe.

(** Two threads race for a protected slot: both load the counter, the first
    exchange wins, the second fails, loads again and takes the other slot. *)
Lemma racing_run :
  exists c, @asteps CapacityClass _ (front_door_cas sample_reserve) at_start
    [LCall 1 ProtectedControl 1; LCall 2 ProtectedControl 1; LPoint 1 ProtectedControl 1 true;
     LPoint 2 ProtectedControl 1 true; LReturn 2 true; LDrop ProtectedControl 1] c /\
    at_counters c ProtectedControl = 1.
Proof.
  eexists. split.
  - eapply (asteps_snoc _ [_; _; _; _; _] _ [_]).
    1: eapply (asteps_snoc _ [_; _; _; _] _ [_]).
    1: eapply (asteps_snoc _ [_; _; _] _ [_]).
    1: eapply (asteps_snoc _ [_; _; _] _ []).
    1: eapply (asteps_snoc _ [_; _] _ [_]).
    1: eapply (asteps_snoc _ [_; _] _ []).
    1: eapply (asteps_snoc _ [_; _] _ []).
    1: eapply (asteps_snoc _ [_; _] _ []).
    1: eapply (asteps_snoc _ [_; _] _ []).
    1: eapply (asteps_snoc _ [_] _ [_]).
    1: eapply (asteps_snoc _ [] _ [_]); [apply asteps_refl|].
    + by apply step_call.
    + by apply step_call.
    + by apply (step_unsealed _ 1 ProtectedControl 1).
    + by apply (step_unsealed _ 2 ProtectedControl 1).
    + by apply (observe_load _ 1 ProtectedControl 1).
    + by apply (observe_load _ 2 ProtectedControl 1).
    + by eapply (step_exchange _ 1 ProtectedControl 1).
    + by eapply (observe_again _ 2 ProtectedControl 1).
    + by eapply (step_exchange _ 2 ProtectedControl 1).
    + by eapply (step_return _ 2 ProtectedControl 1 true).
    + by apply (step_drop _ ProtectedControl 1 [(ProtectedControl, 1)]).
  - reflexivity.
Qed.

Lemma front_door_linearizable_witness :
  exists c r,
    @replay _ _ (front_door_seq sample_reserve (ka_current_epoch sample_authority)) sample_reserve
      [LCall 1 ProtectedControl 1; LCall 2 ProtectedControl 1; LPoint 1 ProtectedControl 1 true;
       LPoint 2 ProtectedControl 1 true; LReturn 2 true; LDrop ProtectedControl 1] = Some r /\
    in_flight ProtectedControl r = 1 /\ at_counters c ProtectedControl = 1.
Proof.
  destruct racing_run as (c & Hrun & Hc). exists c.
  destruct (front_door_linearizable 4 2 sample_reserve (ka_current_epoch sample_authority) _ c
    ltac:(split; vm_compute; discriminate) ltac:(split; vm_compute; discriminate) eq_refl Hrun)
    as (_ & _ & Hlin & _).
  destruct Hlin as (r & Hr & Hin); [rewrite list_elem_of_In; simpl; intuition discriminate|].
  exists r. split; [exact Hr|]. split; [|exact Hc]. rewrite Hin. exact Hc.
Defined.

(** A seal between the load and the exchange of an acquisition. *)
Lemma sealed_run :
  exists c, @asteps OrsPartition _ (ors_cas sample_ors_reserve) at_start
    [LCall 1 DurableNormal 300; LPoint 1 DurableNormal 300 true; LCall 2 DurableNormal 300;
     LPin TransactionNormal; LPin TransactionProtected; LPin DurableNormal; LPin DurableProtected;
     LSealed; LPoint 2 DurableNormal 300 false] c /\ at_sealed c = true.
Proof.
  eexists. split.
  - eapply (asteps_snoc _ [_; _; _; _; _; _; _; _] _ [_]).
    1: eapply (asteps_snoc _ [_; _; _; _; _; _; _] _ [_]).
    1: eapply (asteps_snoc _ [_; _; _; _; _; _] _ [_]).
    1: eapply (asteps_snoc _ [_; _; _; _; _] _ [_]).
    1: eapply (asteps_snoc _ [_; _; _; _] _ [_]).
    1: eapply (asteps_snoc _ [_; _; _] _ [_]).
    1: eapply (asteps_snoc _ [_; _; _] _ []).
    1: eapply (asteps_snoc _ [_; _; _] _ []).
    1: eapply (asteps_snoc _ [_; _; _] _ []).
    1: eapply (asteps_snoc _ [_; _] _ [_]).
    1: eapply (asteps_snoc _ [_] _ [_]).
    1: eapply (asteps_snoc _ [_] _ []).
    1: eapply (asteps_snoc _ [_] _ []).
    1: eapply (asteps_snoc _ [] _ [_]); [apply asteps_refl|].
    + by apply step_call.
    + by apply (step_unsealed _ 1 DurableNormal 300).
    + by apply (observe_load _ 1 DurableNormal 300).
    + by eapply (step_exchange _ 1 DurableNormal 300).
    + by apply step_call.
    + by apply (step_unsealed _ 2 DurableNormal 300).
    + by apply (observe_load _ 2 DurableNormal 300).
    + by apply (step_seal _ 3).
    + by apply (step_pin _ 3 TransactionNormal).
    + by apply (step_pin _ 3 TransactionProtected).
    + by apply (step_pin _ 3 DurableNormal).
    + by apply (step_pin _ 3 DurableProtected).
    + by apply (step_set_sealed _ 3).
    + by eapply (observe_again _ 2 DurableNormal 300).
  - reflexivity.
Qed.

Lemma ors_reserve_never_overcommits_witness :
  exists c, at_sealed c = true /\ at_counters c DurableNormal <= 1000 /\
    forall t tr' c', at_threads c t = Outside ->
      @asteps OrsPartition _ (ors_cas sample_ors_reserve) c tr' c' ->
      forall s a, LPoint t s a true ∉ tr'.
Proof.
  destruct sealed_run as (c & Hrun & Hs). exists c.
  destruct (ors_reserve_never_overcommits 8 4 1000 500 sample_ors_reserve _ c
    ltac:(repeat (constructor; [split; vm_compute; discriminate|]); constructor) eq_refl Hrun)
    as (H1 & _ & H3).
  split; [exact Hs|]. split; [exact (proj2 (H1 DurableNormal))|]. exact (H3 Hs).
Defined.
